(* ===== verification/_CoqProject ===== *)
-Q . S2P
Prelude.v
Ring.v
Orders.v
Buddy.v
BuddyInv.v
BuddyOps.v
BuddyTables.v
BuddyAudit.v
BuddyFree.v
BuddySpec.v
BuddyClaims.v
PageAlloc.v
BuddyPages.v
Ipc.v
IpcInv.v
IpcClaims.v
Sched.v
SchedInv.v
SchedClaims.v
Futex.v
Bytes.v
VfsTypes.v
Ramfs.v
RamfsInv.v
RamfsClaims.v
Tty.v
TtyClaims.v
Vma.v
VmaClaims.v
Paging.v
PagingWalk.v
PagingMap.v
PagingCow.v
PagingFork.v
PagingDemo.v
PagingClaims.v
Pipe.v
PipeInv.v
PipeClaims.v
Path.v
PathClaims.v
Vfs.v
VfsSpec.v
VfsNames.v
Procfs.v
Userfs.v
VfsRamfs.v
VfsClaims.v
Flat.v
FlatClaims.v
Signal.v
SignalClaims.v
Proc.v
ProcInv.v
ProcClaims.v
Elf.v
ElfMap.v
ElfClaims.v
Mm.v
MmClaims.v
Exec.v
ExecClaims.v
Mbi.v
MbiClaims.v
MemInit.v
MemInitClaims.v
Fork.v
ForkOps.v
ForkClaims.v
Klog.v
KlogClaims.v
Kbd.v
KbdClaims.v
Udrv.v
UdrvClaims.v
Devfs.v
DevfsClaims.v
Files.v
FilesClaims.v
Poll.v
