(* ===== verification/Prelude.v ===== *)
(** * A verification development for the Rynex kernel

    Rynex is an x86-64 kernel written in Rust (sources under [src/src/]).
    This library models the parts that carry its own logic, as executable
    definitions over explicit state, and proves what makes them correct.

    ** The program and its model

    - The physical-page allocator, [memory/buddy.rs]: [Buddy] (all state and
      operations).  Free blocks carry their list headers in memory, so the
      free lists are pointer chains through the map [mem].  [BuddyInv],
      [BuddyOps], [BuddyTables] (with the quarantine), [BuddyAudit] and
      [BuddyFree] (with regions and reservations) prove what each operation
      does to the lists and tables; [BuddySpec] states the abstract allocator
      (a set of free bytes and a list of blocks in use), the invariant, the
      reachable states and a machine of 64 pages; [BuddyClaims] has the
      theorems.
    - What other parts may rely on of the allocator: the class
      [PageAllocator] ([PageAlloc]), discharged by [BuddyPages] for the buddy
      allocator.  IPC and the RAM file system are proved against the class.
    - Ports, mailboxes and synchronous calls, [ipc.rs]: [Ipc], with its
      invariant, the mailboxes as queues and the lemmas per operation in
      [IpcInv], theorems in [IpcClaims].  Blocking and the
      check of user pointers are parameters.  The steps of the machine the
      theorems run are the critical sections; a message that was taken is in
      flight until a later step delivers it and frees its page.
    - Tasks, pids, run queues, sleeping and the choice of the next task,
      [task.rs]: [Sched], the queues as lists in [SchedInv], theorems in
      [SchedClaims]; the futex system call with its checks and results in
      [Futex].
    - The RAM file system with its extended attributes, [vfs_core/ramfs.rs]
      and [vfs_core/xattr.rs]: [Ramfs]; invariant, contents and directories in
      [RamfsInv]; theorems in [RamfsClaims].
    - Bytes in memory ([Bytes]) and the shared types of the file layer,
      [vfs_core/types.rs] ([VfsTypes]).
    - The terminal, [tty.rs]: [Tty] has the line discipline, the blocking read,
      the escape-sequence filter, the ioctls and the zero, null and urandom
      devices; theorems in [TtyClaims].
    - The records of mapped ranges and the mmap system call, [task.rs]:
      [Vma]; theorems in [VmaClaims].
    - Page tables, [paging.rs]: [Paging] models tables as words of physical
      pages, with mapping, lookup, fork, write faults, demand paging, merging
      and tear-down.  [PagingWalk] is the four-level walk of the hardware, the
      reference for all of it; [PagingMap] proves the mapping operations,
      [PagingCow] the copying of shared tables and pages, [PagingFork] the
      fork; [PagingDemo] is a small
      address space; theorems in [PagingClaims].
    - Descriptors and pipes, [vfs.rs] and [task.rs]: [Pipe] has the descriptor
      tables of all tasks and the eight pipe slots; the count of references
      and its invariant in [PipeInv], theorems in [PipeClaims].
    - Path names, [vfs.rs] and [vfs_core/mod.rs]: [Path]; the reference
      definition of [normalize_path] and the theorems in [PathClaims].  A copy
      between ranges that may overlap, which the source calls with a contract
      against it, is a parameter (the class [CopyBytes]); the parts on top of
      it run on a machine whose copy ascends, [ascending_copy].
    - The vnode layer, [vfs_core/mod.rs]: [Vfs] over the record [vnode_ops] of
      the operations of a file system (the trait [VnodeOps]); lemmas in
      [VfsSpec].  [VfsNames] states what the layer needs of a file system, the
      class [DirOps], and is proved against it; [VfsRamfs] discharges it for
      the RAM file system.  Theorems in [VfsClaims].
    - The process file system, [vfs_core/procfs.rs] ([Procfs]), and the bridge
      to a user-space service, [vfs_core/userfs.rs] ([Userfs]).
    - The flat inode table of [vfs.rs]: [Flat], on top of the vnode layer;
      theorems, also those on [Procfs] and [Userfs], in [FlatClaims].
    - Signals of one task, [task.rs]: [Signal]; theorems in [SignalClaims].
    - Exit, kill and wait, [task.rs]: [Proc], composed from [Sched], [Futex],
      [Pipe] and [Signal]; what each operation does to the tables in
      [ProcInv], theorems in [ProcClaims].
    - The ELF loader, [elf.rs]: [Elf], on top of [Paging]; the pages of an
      image in [ElfMap], theorems in [ElfClaims].
    - brk, mprotect and munmap, [task.rs]: [Mm], on top of [Paging] and [Vma];
      theorems in [MmClaims].
    - execve, [task.rs]: [Exec], on top of [Elf], [Paging], [Vma] and [Path];
      theorems in [ExecClaims].
    - Boot information, [multiboot2.rs]: [Mbi] over a map of bytes; the layout
      of the tags and the theorems in [MbiClaims].
    - Memory start-up and the global allocator, [memory/mod.rs]: [MemInit], on
      top of [Mbi] and [Buddy]; the search for an order that it shares with
      execve is [Orders]; theorems in [MemInitClaims].
    - Creation of tasks, [task.rs]: [Fork] puts [Proc], [Paging], [Vma] and
      [Flat] together for fork, clone and the first tasks; what it does to
      stacks, ranges and slots in [ForkOps], theorems in [ForkClaims].
    - The calls for drivers in user space, [task.rs]: [Udrv], on top of [Mm]
      and [Futex], with the check of user ranges; runs of pages and theorems in
      [UdrvClaims].
    - The kernel log, [klog.rs] ([Klog], theorems in [KlogClaims]), and the
      keyboard, [keyboard.rs] ([Kbd], theorems in [KbdClaims]); full rings
      keep the last elements ([Ring]).
    - The device registry, [devfs.rs]: [Devfs], on top of [Flat]; theorems in
      [DevfsClaims].
    - System calls on files, [task.rs]: [Files] puts [Flat], [Pipe] and the
      memory of the caller together; theorems in [FilesClaims].
    - poll, sleep and the waking of pollers, [task.rs]: [Poll], on top of
      [Futex] and [Pipe], with its theorems.

    ** Conventions

    Machine integers are [Z] with the wrap-around of the release build written
    out ([w64], [w32], [w16], [w8]) where the source can overflow.  [static
    mut] tables that start uniform are maps read with a default ([getd]);
    fixed arrays are lists; an index that can be out of range is [Panic], a
    loop that can follow a chain forever ends in [Spin] when its fuel runs
    out.  Fuel is always a bound the proofs show to be enough: the number of
    pages for list walks ([list_fuel]), the size of the table for scans, the
    length of the buffer for copies, 1025 turns for the 1024 blocks of a file.
    A critical section under a kernel lock is one function.

    ** What the theorems show

    Allocator ([BuddyClaims]): disjoint blocks in every reachable state,
    refinement of taking from and giving to a set of free bytes, no panic and
    no endless walk, double frees refused, exact counts and audit; two defects.
    Page tables ([PagingClaims]): mapping changes one translation, lookups are
    the hardware's, a fork shares without changing what anybody sees, a write
    fault separates the spaces again; two defects.  IPC ([IpcClaims]):
    mailboxes are bounded queues, pages are neither leaked nor shared, ports
    are found by name, calls get their answers; one defect.  Tasks
    ([SchedClaims], [Futex]): run queues are lists by priority, wake-ups are
    exact, the next task is the right one, waiting and timing out on a futex;
    two defects.  Files ([RamfsClaims]): what is written is read back,
    directories are maps, removal frees; two defects.
    Terminal ([TtyClaims]): from boot on its input is a bounded queue, and a
    canonical read returns the first line as long as no setting turns canonical
    mode on; two defects.  Mapped ranges ([VmaClaims]): mmap returns the lowest hole.
    Pipes ([PipeClaims]): an open end keeps its pipe, a pipe is a queue of
    bytes; two defects.  Paths ([PathClaims]): [normalize_path] is the walk
    over names, its results are canonical.  Vnodes ([VfsClaims]): resolution
    follows the longest mount name by name, messages keep the vnode table
    consistent, a created file is found.  Flat table ([FlatClaims]): a file
    created with data reads back as the data; four defects.
    Signals ([SignalClaims]): a handler and its return restore everything; one
    defect.  Processes ([ProcClaims]): the code of an exit reaches the parent
    once, no orphan is lost; four defects.
    Images ([ElfClaims]): a program finds its segments' bytes, zeros around
    them and a stack of zeros; headers of full size are read from the file;
    three defects.  Memory calls ([MmClaims]): a grown heap reads as zeros,
    mprotect relabels and munmap gives back exactly the pages of the range (that a
    page is given back is [BuddyPages.given_back]: unused, recorded as freed and
    refused when freed again); three defects.  execve ([ExecClaims]): the first stack of a program decodes to
    its arguments; four defects.
    Creation ([ForkClaims]): a fork makes one task, a copy of its parent in
    every part, a thread shares its creator's memory; three defects.
    Start-up ([MbiClaims], [MemInitClaims]): what a loader writes is what the
    readers return, colour fields are inside the pixel, the pages that become
    free are those of the region outside all reserved intervals, heap blocks
    are blocks of the allocator; six defects.
    Drivers ([UdrvClaims]): a range that passes the check can be used, mapped
    device memory and DMA buffers are where the call says; two defects.  Log
    ([KlogClaims]): the ring keeps the last messages, numbers decode.  Keyboard
    ([KbdClaims]): typing types, a line is edited; one defect.  Devices
    ([DevfsClaims]): one defect of the event records.  Files
    ([FilesClaims]): getdents writes exactly the remaining entries or never
    returns; one defect.  poll ([Poll]): every entry gets its readiness, the
    task sleeps only when nothing is ready; one defect of the waking.

    ** Not modelled

    Device drivers, the frame buffer, serial and VGA output, interrupt and
    descriptor tables and the assembly of the context switch touch hardware
    state outside any data the kernel keeps.  The TLB is not part
    of the model: a changed entry is seen at once.  The bit for writing that
    [page_type_set] flips in the active table is not joined to the allocator;
    [PagingClaims.type_toggle] shows what it does.  The timer interrupt
    and the dispatch of system calls
    are left out.  Logging is not part of any model's state. *)

From stdpp Require Import base gmap numbers list.

(** ** Computations of the kernel

    A kernel routine that indexes an array or follows a pointer chain can do
    three things: finish with a value ([Done]), stop the machine on a Rust
    bounds check ([Panic]), or, when a [while] loop follows a chain that does
    not end, spin ([Spin]: the fuel given to the loop ran out). *)
Inductive comp (A : Type) : Type :=
| Done (a : A)
| Panic
| Spin.
Arguments Done {A} a.
Arguments Panic {A}.
Arguments Spin {A}.

Definition cbind {A B : Type} (m : comp A) (k : A → comp B) : comp B :=
  match m with
  | Done a => k a
  | Panic => Panic
  | Spin => Spin
  end.

Declare Scope kernel_scope.
Delimit Scope kernel_scope with kernel.
Notation "'let!' x := m 'in' k" := (cbind m (λ x, k))
  (at level 10, x pattern, m at level 100, k at level 200,
   format "'[v' 'let!'  x  :=  m  'in' '//' k ']'") : kernel_scope.
Open Scope kernel_scope.

Lemma cbind_done {A B} (m : comp A) (k : A → comp B) b :
  cbind m k = Done b → ∃ a, m = Done a ∧ k a = Done b.
Proof. destruct m; naive_solver. Qed.

(** ** Machine integers

    Unsigned integers are [Z] with the wrap-around of the release build
    written out where the source can overflow. *)
Local Open Scope Z_scope.

Definition w64 (z : Z) : Z := z mod 2 ^ 64.
Definition w32 (z : Z) : Z := z mod 2 ^ 32.
Definition w16 (z : Z) : Z := z mod 2 ^ 16.
Definition w8 (z : Z) : Z := z mod 2 ^ 8.
Definition U64_MAX : Z := 2 ^ 64 - 1.

Lemma w64_small z : 0 ≤ z < 2 ^ 64 → w64 z = z.
Proof. intros. unfold w64. by apply Z.mod_small. Qed.

Lemma w64_bound z : 0 ≤ w64 z < 2 ^ 64.
Proof. unfold w64. apply Z.mod_pos_bound. lia. Qed.

Create HintDb kernel.
Create Rewrite HintDb kernel.
#[export] Hint Rewrite w64_small using lia : kernel.

(** ** Loops

    [first_from p i n] is [for j in i..i+n { if p(j) { return Some(j) } }],
    the early-return scan the kernel's fixed-size tables all use. *)
Fixpoint first_from (p : nat → bool) (i n : nat) : option nat :=
  match n with
  | O => None
  | S n' => if p i then Some i else first_from p (S i) n'
  end.

Lemma first_from_Some p i n j :
  first_from p i n = Some j ↔
  (i ≤ j < i + n)%nat ∧ p j = true ∧ ∀ k, (i ≤ k < j)%nat → p k = false.
Proof.
  revert i. induction n as [|n IH]; intros i; simpl.
  { split; [done|]. lia. }
  destruct (p i) eqn:Hp.
  - split.
    + intros [= <-]. split_and!; [lia|lia|done|]. intros. lia.
    + intros (? & Hj & Hlt). f_equal.
      destruct (decide (i = j)); [done|].
      rewrite Hlt in Hp; [done|lia].
  - rewrite IH. split.
    + intros (? & ? & Hlt). split_and!; [lia|lia|done|].
      intros k ?. destruct (decide (k = i)) as [->|]; [done|]. apply Hlt. lia.
    + intros (? & Hj & Hlt).
      assert (i ≠ j) by (intros ->; congruence).
      split_and!; [lia|lia|done|]. intros k ?. apply Hlt. lia.
Qed.

Lemma first_from_None p i n :
  first_from p i n = None ↔ ∀ k, (i ≤ k < i + n)%nat → p k = false.
Proof.
  revert i. induction n as [|n IH]; intros i; simpl.
  { split; [intros; lia|done]. }
  destruct (p i) eqn:Hp.
  - split; [done|]. intros H. rewrite H in Hp; [done|lia].
  - rewrite IH. split; intros H k ?.
    + destruct (decide (k = i)) as [->|]; [done|]. apply H. lia.
    + apply H. lia.
Qed.

Lemma first_from_lt p i n j : first_from p i n = Some j → (i ≤ j < i + n)%nat.
Proof. rewrite first_from_Some. naive_solver. Qed.

Lemma first_from_ext p q i n :
  (∀ k, (i ≤ k < i + n)%nat → p k = q k) → first_from p i n = first_from q i n.
Proof.
  revert i. induction n as [|n IH]; intros i Hpq; simpl; [done|].
  rewrite (Hpq i) by lia. destruct (q i); [done|]. apply IH. intros. apply Hpq. lia.
Qed.

Lemma first_from_snoc p i n :
  first_from p i (S n) =
  match first_from p i n with Some j => Some j | None => if p (i + n)%nat then Some (i + n)%nat else None end.
Proof.
  revert i. induction n as [|n IH]; intros i; [cbn; by rewrite Nat.add_0_r|].
  change (first_from p i (S (S n))) with (if p i then Some i else first_from p (S i) (S n)).
  rewrite IH. cbn [first_from]. destruct (p i); [done|]. by rewrite Nat.add_succ_comm.
Qed.

(** ** Memory-like tables

    A [static mut] array whose elements all start equal is a finite map read
    with that initial value as default. *)
Definition getd {A} (d : A) (m : gmap Z A) (k : Z) : A := default d (m !! k).

Lemma getd_insert_eq {A} (d : A) m k v : getd d (<[k := v]> m) k = v.
Proof. unfold getd. by rewrite lookup_insert_eq. Qed.

Lemma getd_insert_ne {A} (d : A) m k k' v :
  k ≠ k' → getd d (<[k := v]> m) k' = getd d m k'.
Proof. intros. unfold getd. by rewrite lookup_insert_ne. Qed.

Lemma getd_insert {A} (d : A) m k k' v :
  getd d (<[k := v]> m) k' = if decide (k = k') then v else getd d m k'.
Proof. unfold getd. rewrite lookup_insert. by case_decide. Qed.

Lemma getd_empty {A} (d : A) k : getd d (∅ : gmap Z A) k = d.
Proof. unfold getd. by rewrite lookup_empty. Qed.

#[export] Hint Rewrite @getd_insert_eq @getd_empty : kernel.
#[export] Hint Rewrite @getd_insert_ne using (done || lia || congruence) : kernel.

(** ** Bit arithmetic *)

Lemma testbit_one_shift b i : 0 ≤ b → Z.testbit (Z.shiftl 1 b) i = bool_decide (i = b).
Proof.
  intros. rewrite Z.shiftl_1_l.
  destruct (decide (i = b)) as [->|].
  - rewrite bool_decide_true by done. by apply Z.pow2_bits_true.
  - rewrite bool_decide_false by done. apply Z.pow2_bits_false. lia.
Qed.

(** [word & (1 << b) != 0] is the bit test. *)
Lemma land_one_shift w b :
  0 ≤ b → negb (Z.land w (Z.shiftl 1 b) =? 0) = Z.testbit w b.
Proof.
  intros. destruct (Z.testbit w b) eqn:Hb.
  - apply negb_true_iff, Z.eqb_neq. intros Heq.
    assert (Z.testbit (Z.land w (Z.shiftl 1 b)) b = false) as Hf
      by (rewrite Heq; apply Z.bits_0).
    rewrite Z.land_spec, testbit_one_shift, Hb, bool_decide_true in Hf by done. done.
  - apply negb_false_iff, Z.eqb_eq. apply Z.bits_inj'. intros i ?.
    rewrite Z.land_spec, testbit_one_shift, Z.bits_0 by done.
    destruct (decide (i = b)) as [->|]; [by rewrite Hb|].
    by rewrite bool_decide_false, andb_false_r.
Qed.

(** Bitmaps: bit [i] lives in word [i >> 6] at position [i & 63]. *)
Definition bmp_get (m : gmap Z Z) (i : Z) : bool :=
  Z.testbit (getd 0 m (Z.shiftr i 6)) (Z.land i 63).

Lemma land_63 i : Z.land i 63 = i mod 64.
Proof. change 63 with (Z.ones 6). by rewrite Z.land_ones by lia. Qed.

Lemma bmp_split i j : Z.shiftr i 6 = Z.shiftr j 6 → Z.land i 63 = Z.land j 63 → i = j.
Proof.
  rewrite !land_63, !Z.shiftr_div_pow2 by lia. change (2 ^ 6) with 64. intros Hd Hm.
  by rewrite (Z.div_mod i 64), (Z.div_mod j 64), Hd, Hm by done.
Qed.

Lemma bmp_pos i : 0 ≤ Z.land i 63.
Proof. rewrite land_63. pose proof (Z.mod_pos_bound i 64). lia. Qed.

Lemma bmp_get_test m i :
  negb (Z.land (getd 0 m (Z.shiftr i 6)) (Z.shiftl 1 (Z.land i 63)) =? 0) = bmp_get m i.
Proof. apply land_one_shift, bmp_pos. Qed.

Lemma bmp_get_set m i j :
  bmp_get (<[Z.shiftr i 6 := Z.lor (getd 0 m (Z.shiftr i 6)) (Z.shiftl 1 (Z.land i 63))]> m) j =
  bool_decide (i = j) || bmp_get m j.
Proof.
  unfold bmp_get. rewrite getd_insert. destruct (decide (Z.shiftr i 6 = Z.shiftr j 6)) as [He|Hne].
  - rewrite Z.lor_spec, testbit_one_shift by apply bmp_pos.
    rewrite He, orb_comm. f_equal. apply bool_decide_ext. split; [|congruence].
    intros. apply bmp_split; congruence.
  - by rewrite bool_decide_false by congruence.
Qed.

Lemma bmp_get_clear m i j :
  bmp_get (<[Z.shiftr i 6 := Z.ldiff (getd 0 m (Z.shiftr i 6)) (Z.shiftl 1 (Z.land i 63))]> m) j =
  negb (bool_decide (i = j)) && bmp_get m j.
Proof.
  unfold bmp_get. rewrite getd_insert. destruct (decide (Z.shiftr i 6 = Z.shiftr j 6)) as [He|Hne].
  - rewrite Z.ldiff_spec, testbit_one_shift by apply bmp_pos.
    rewrite He, andb_comm. do 2 f_equal. apply bool_decide_ext. split; [|congruence].
    intros. apply bmp_split; congruence.
  - by rewrite bool_decide_false by congruence.
Qed.

(** Two addresses that differ in one bit: the buddy of an aligned block is the
    block just above or just below it, and the lower of the two is aligned to
    the doubled size. *)
Lemma lxor_1 q : Z.lxor q 1 = if Z.even q then q + 1 else q - 1.
Proof.
  destruct (Z.even q) eqn:He.
  - apply Z.even_spec in He as [k ->].
    rewrite <- (Z.lxor_0_r (2 * k)) at 1.
    rewrite (Z.mul_comm 2 k). change 2 with (2 ^ 1). rewrite <- Z.shiftl_mul_pow2 by lia.
    rewrite Z.lxor_0_r, <- Z.add_nocarry_lxor; [done|].
    apply Z.bits_inj'. intros i ?. rewrite Z.land_spec, Z.bits_0.
    destruct (decide (i = 0)) as [->|].
    + by rewrite Z.shiftl_spec_low by lia.
    + change 1 with (2 ^ 0). rewrite Z.pow2_bits_false by lia. apply andb_false_r.
  - assert (Z.odd q = true) as Ho by (rewrite <- Z.negb_even, He; done).
    apply Z.odd_spec in Ho as [k ->].
    replace (2 * k + 1 - 1) with (2 * k) by lia.
    assert (2 * k + 1 = Z.lxor (2 * k) 1) as ->.
    { rewrite Z.add_nocarry_lxor; [done|].
      apply Z.bits_inj'. intros i ?. rewrite Z.land_spec, Z.bits_0.
      destruct (decide (i = 0)) as [->|].
      - by rewrite Z.testbit_even_0.
      - change 1 with (2 ^ 0). rewrite Z.pow2_bits_false by lia. apply andb_false_r. }
    by rewrite Z.lxor_assoc, Z.lxor_nilpotent, Z.lxor_0_r.
Qed.

Lemma lxor_aligned q k :
  0 ≤ k → Z.lxor (q * 2 ^ k) (2 ^ k) = Z.lxor q 1 * 2 ^ k.
Proof.
  intros. replace (2 ^ k) with (Z.shiftl 1 k) at 2 by (rewrite Z.shiftl_mul_pow2; lia).
  rewrite <- !Z.shiftl_mul_pow2 by done. symmetry. apply Z.shiftl_lxor.
Qed.

(** ** Ring indices *)

Lemma mod_add_inj (h i j n : nat) :
  (i < n → j < n → (h + i) `mod` n = (h + j) `mod` n → i = j)%nat.
Proof.
  intros Hi Hj Heq.
  assert (n ≠ 0)%nat by lia.
  pose proof (Nat.div_mod (h + i) n ltac:(done)).
  pose proof (Nat.div_mod (h + j) n ltac:(done)).
  rewrite Heq in *.
  assert ((h + i) / n = (h + j) / n)%nat by nia. nia.
Qed.

Lemma mod_add_succ (h i n : nat) :
  (n ≠ 0 → (S h `mod` n + i) `mod` n = (h + S i) `mod` n)%nat.
Proof.
  intros. rewrite Nat.Div0.add_mod_idemp_l. f_equal. lia.
Qed.

(** ** Lists *)

Lemma elem_of_take_lookup {A} (l : list A) n x :
  x ∈ take n l ↔ ∃ i, (i < n)%nat ∧ l !! i = Some x.
Proof.
  rewrite list_elem_of_lookup. split.
  - intros [i Hi]. exists i. apply lookup_take_Some in Hi. naive_solver.
  - intros [i [? ?]]. exists i. apply lookup_take_Some. done.
Qed.

Lemma elem_of_insert_inv {A} (l : list A) i x y : y ∈ <[i := x]> l → y = x ∨ y ∈ l.
Proof.
  intros [j Hj]%list_elem_of_lookup. apply list_lookup_insert_Some in Hj as [(_ & <- & _)|[_ Hj]]; [by left|].
  right. by eapply list_elem_of_lookup_2.
Qed.

(** Filters that agree on the elements of a list. *)
Lemma filter_agree {A} (P Q : A → Prop) `{∀ x, Decision (P x), ∀ x, Decision (Q x)} (l : list A) :
  (∀ x, x ∈ l → P x ↔ Q x) → filter P l = filter Q l.
Proof.
  induction l as [|x l IH]; intros Hpq; [done|]. rewrite !filter_cons.
  rewrite IH by (intros y Hy; by apply Hpq, list_elem_of_further).
  pose proof (Hpq x (list_elem_of_here _ _)). repeat case_decide; tauto.
Qed.

(** Replacing one element of a list changes one part of its concatenation. *)
Lemma bind_insert {X Y} (f : X → list Y) (l : list X) i x y :
  l !! i = Some x →
  ∃ R, l ≫= f ≡ₚ f x ++ R ∧ <[i := y]> l ≫= f ≡ₚ f y ++ R.
Proof.
  intros Hi. pose proof (lookup_lt_Some _ _ _ Hi) as Hlt.
  exists ((take i l ≫= f) ++ (drop (S i) l ≫= f)). split.
  - rewrite <- (take_drop_middle l i x Hi) at 1. rewrite bind_app, bind_cons.
    rewrite !app_assoc. by rewrite (Permutation_app_comm (f x)).
  - rewrite insert_take_drop by done. rewrite bind_app, bind_cons.
    rewrite !app_assoc. by rewrite (Permutation_app_comm (f y)).
Qed.

(** ** Tactics *)

(** Split every boolean test of the goal, turning comparisons into
    propositions. *)
Ltac case_ifs :=
  repeat match goal with
  | |- context [if ?b then _ else _] => destruct b eqn:?
  end.

Ltac bool_to_prop :=
  repeat match goal with
  | H : (_ && _) = true |- _ => apply andb_true_iff in H; destruct H
  | H : (_ && _) = false |- _ => apply andb_false_iff in H
  | H : (_ || _) = false |- _ => apply orb_false_iff in H; destruct H
  | H : (_ || _) = true |- _ => apply orb_true_iff in H
  | H : negb _ = true |- _ => apply negb_true_iff in H
  | H : negb _ = false |- _ => apply negb_false_iff in H
  | H : (_ =? _)%Z = true |- _ => apply Z.eqb_eq in H
  | H : (_ =? _)%Z = false |- _ => apply Z.eqb_neq in H
  | H : (_ <? _)%Z = true |- _ => apply Z.ltb_lt in H
  | H : (_ <? _)%Z = false |- _ => apply Z.ltb_ge in H
  | H : (_ <=? _)%Z = true |- _ => apply Z.leb_le in H
  | H : (_ <=? _)%Z = false |- _ => apply Z.leb_gt in H
  | H : (_ =? _)%nat = true |- _ => apply Nat.eqb_eq in H
  | H : (_ =? _)%nat = false |- _ => apply Nat.eqb_neq in H
  | H : (_ <? _)%nat = true |- _ => apply Nat.ltb_lt in H
  | H : (_ <? _)%nat = false |- _ => apply Nat.ltb_ge in H
  | H : (_ <=? _)%nat = true |- _ => apply Nat.leb_le in H
  | H : (_ <=? _)%nat = false |- _ => apply Nat.leb_gt in H
  end.

(** Peel the binds of a computation that is known to finish. *)
Ltac inv_done :=
  repeat match goal with
  | H : cbind _ _ = Done _ |- _ =>
      apply cbind_done in H as (? & ? & H)
  | H : Done _ = Done _ |- _ => injection H as H; subst
  end.
