(* ===== verification/Ring.v ===== *)
(** * Ring buffers

    The kernel keeps several bounded FIFO queues as an array, a start index
    and a count: the quarantine of the buddy allocator, the IPC mailboxes, the
    TTY and keyboard input buffers.  [ring_list] is the queue such an array
    holds, oldest element first, and the lemmas say what storing at the write
    position and advancing the read position do to it. *)

From S2P Require Import Prelude.
From stdpp Require Import base numbers list.

Definition ring_list {A} `{Inhabited A} (slots : list A) (start count n : nat) : list A :=
  (λ i, slots !!! ((start + i) `mod` n)) <$> seq 0 count.

Section ring.
Context {A : Type} `{Inhabited A}.
Implicit Types slots : list A.

Lemma ring_list_nil slots start n : ring_list slots start 0 n = [].
Proof. done. Qed.

Lemma length_ring_list slots start count n : length (ring_list slots start count n) = count.
Proof. unfold ring_list. by rewrite length_fmap, length_seq. Qed.

Lemma ring_list_lookup slots start count n i :
  i < count → ring_list slots start count n !! i = Some (slots !!! ((start + i) `mod` n)).
Proof. intros. unfold ring_list. by rewrite list_lookup_fmap, lookup_seq_lt by done. Qed.

Lemma ring_list_mod slots start count n :
  ring_list slots (start `mod` n) count n = ring_list slots start count n.
Proof.
  unfold ring_list. apply list_fmap_ext. intros _ i _.
  by rewrite Nat.Div0.add_mod_idemp_l.
Qed.

(** Two start positions that agree modulo the capacity hold the same queue. *)
Lemma ring_list_start slots start start' count n :
  start `mod` n = start' `mod` n → ring_list slots start count n = ring_list slots start' count n.
Proof. intros Heq. by rewrite <- (ring_list_mod _ start), Heq, ring_list_mod. Qed.

(** Storing at the write position appends. *)
Lemma ring_push slots start count n x :
  length slots = n → count < n →
  ring_list (<[(start + count) `mod` n := x]> slots) start (S count) n =
  ring_list slots start count n ++ [x].
Proof.
  intros Hlen Hc. unfold ring_list. rewrite seq_S, fmap_app. simpl. f_equal.
  - apply list_fmap_ext. intros _ i Hi%list_elem_of_lookup_2%elem_of_seq.
    rewrite list_lookup_total_insert_ne; [done|]. intros Heq.
    apply mod_add_inj in Heq; lia.
  - f_equal. apply list_lookup_total_insert_eq. rewrite Hlen. apply Nat.mod_upper_bound. lia.
Qed.

(** The read position holds the oldest element; advancing it drops it. *)
Lemma ring_pop slots start count n :
  n ≠ 0 →
  ring_list slots start (S count) n =
  slots !!! (start `mod` n) :: ring_list slots (S start `mod` n) count n.
Proof.
  intros Hn. unfold ring_list. rewrite <- cons_seq. simpl. rewrite Nat.add_0_r. f_equal.
  rewrite <- fmap_S_seq, <- list_fmap_compose. apply list_fmap_ext. intros _ i _. simpl.
  by rewrite mod_add_succ.
Qed.

(** A store outside the live window changes nothing. *)
Lemma ring_insert_outside slots start count n j x :
  (∀ i, i < count → (start + i) `mod` n ≠ j) →
  ring_list (<[j := x]> slots) start count n = ring_list slots start count n.
Proof.
  intros Hout. unfold ring_list. apply list_fmap_ext.
  intros _ i Hi%list_elem_of_lookup_2%elem_of_seq.
  rewrite list_lookup_total_insert_ne; [done|]. intros ->. eapply Hout; [|done]. lia.
Qed.

(** The slot just popped is outside the window. *)
Lemma ring_popped_outside start count n i :
  S count ≤ n → i < count → (S start `mod` n + i) `mod` n ≠ start `mod` n.
Proof.
  intros Hc Hi Heq. rewrite mod_add_succ in Heq by lia.
  rewrite <- (Nat.add_0_r start) in Heq at 2. apply mod_add_inj in Heq; lia.
Qed.

End ring.

(** * Rings that drop the oldest element

    The log, the keyboard and the queue of device events write over the oldest
    element when they are full.  After any sequence of writes such a ring holds
    the last elements written, as many as fit. *)

(** The last [n] elements. *)
Definition lastn {A} (n : nat) (l : list A) : list A := drop (length l - n) l.

Section lastn.
Context {A : Type}.
Implicit Types l : list A.

Lemma lastn_short n l : length l ≤ n → lastn n l = l.
Proof. intros. unfold lastn. by replace (length l - n) with 0 by lia. Qed.

Lemma length_lastn n l : length (lastn n l) = Nat.min n (length l).
Proof. unfold lastn. rewrite length_drop. lia. Qed.

Lemma lastn_snoc n l x : 0 < n → lastn n (lastn n l ++ [x]) = lastn n (l ++ [x]).
Proof.
  intros Hn. destruct (decide (length l ≤ n)) as [H|H]; [by rewrite (lastn_short n l)|].
  unfold lastn. rewrite !length_app, length_drop. cbn [length].
  replace (length l - (length l - n) + 1 - n) with 1 by lia. replace (length l + 1 - n) with (S (length l - n)) by lia.
  rewrite !drop_app_le by (rewrite ?length_drop; lia). rewrite drop_drop. f_equal. f_equal. lia.
Qed.

Lemma lastn_app n l q : lastn n (lastn n l ++ q) = lastn n (l ++ q).
Proof.
  unfold lastn. rewrite !length_app, length_drop. destruct (decide (length l ≤ n)) as [H|H].
  - replace (length l - n) with 0 by lia. by rewrite drop_0, Nat.sub_0_r.
  - rewrite <- (drop_app_le l q) at 1 by lia. rewrite drop_drop. f_equal. lia.
Qed.

(** One element more than fits. *)
Lemma lastn_full n l x : 0 < n → length l = n → lastn n (l ++ [x]) = drop 1 l ++ [x].
Proof.
  intros Hn Hl. unfold lastn. rewrite length_app. cbn [length]. replace (length l + 1 - n) with 1 by lia.
  apply drop_app_le. lia.
Qed.

Lemma lastn_cons n l x : length l = n → 0 < n → lastn n (x :: l) = l.
Proof. intros Hl Hn. unfold lastn. cbn [length]. replace (S (length l) - n) with 1 by lia. done. Qed.
End lastn.

(** Writing over the oldest element of a full ring. *)
Lemma ring_push_full {A} `{Inhabited A} (slots : list A) start n x :
  0 < n → length slots = n →
  ring_list (<[start `mod` n := x]> slots) (S start) n n = lastn n (ring_list slots start n n ++ [x]).
Proof.
  intros Hn Hl. rewrite lastn_full by (done || by rewrite length_ring_list). destruct n as [|m]; [lia|].
  rewrite (ring_pop slots start m (S m)) by lia. cbn [drop]. rewrite drop_0.
  rewrite <- (ring_push slots (S start `mod` S m) m (S m) x) by lia.
  rewrite (ring_list_mod _ (S start)). f_equal. f_equal. rewrite Nat.Div0.add_mod_idemp_l.
  replace (S start + m) with (start + 1 * S m) by lia. by rewrite Nat.Div0.mod_add.
Qed.
