(* ===== verification/Orders.v ===== *)
(** * The order of a block for a size

    The loop several places of the kernel have to turn a size in bytes into
    the order of a block of the page allocator: up to order 10, 4 MiB. *)

From S2P Require Import Prelude.
From Stdlib Require Import Lia ZArith.
From stdpp Require Import base numbers list.
Local Open Scope Z_scope.

(** [while (4096 << o) < need && o < 10 { o += 1 }] *)
Fixpoint order_loop (n : nat) (o : nat) (need : Z) : nat :=
  match n with
  | O => o
  | S n' => if (Z.shiftl 4096 (Z.of_nat o) <? need) && (o <? 10)%nat then order_loop n' (S o) need else o
  end.

(** The smallest order that fits, or the last one. *)
Lemma order_loop_spec need n : ∀ o, (o ≤ 10)%nat → (11 - o ≤ n)%nat → (o = 0%nat ∨ 4096 * 2 ^ (Z.of_nat o - 1) < need) →
  let r := order_loop n o need in (r ≤ 10)%nat ∧ (need ≤ 4096 * 2 ^ Z.of_nat r ∨ r = 10%nat) ∧ (r = 0%nat ∨ 4096 * 2 ^ (Z.of_nat r - 1) < need).
Proof.
  induction n as [|n IH]; intros o Ho Hn Hmin r; [lia|]. unfold r. cbn [order_loop]. rewrite Z.shiftl_mul_pow2 by lia.
  destruct (Z.ltb_spec (4096 * 2 ^ Z.of_nat o) need) as [Hlt|Hge]; cbn [andb]; [|split_and!; [done|by left|done]].
  destruct (Nat.ltb_spec o 10); [|split_and!; [done|right; lia|done]].
  apply IH; [lia|lia|]. right. by replace (Z.of_nat (S o) - 1) with (Z.of_nat o) by lia.
Qed.
