(* ===== verification/Buddy.v ===== *)
(** * The physical-page allocator: [src/memory/buddy.rs]

    The model of the buddy allocator.  A free block carries its own list
    header in its first bytes, so the free lists are pointer chains through
    physical memory ([mem]); the allocator struct only holds the eleven list
    heads.  The [static mut] tables of the file (used bitmap, freed bitmap,
    page types, page-table reference counts, quarantine ring, audit state and
    double-free records) are fields of the state [kmem].  Serial output is not
    part of the state.  Every entry point of the source takes [BUDDY_LOCK] for
    its whole body, so each is one step here. *)

From S2P Require Import Prelude.
From stdpp Require Import base gmap numbers list.
Local Open Scope Z_scope.

Definition MAGIC : Z := 0xDEADBEEF.
Definition AUDIT_PERIOD : Z := 8.
Definition PAGE_SIZE : Z := 4096.
Definition MAX_ORDER : nat := 10.
Definition MAX_RESERVED : nat := 2048.
Definition MAX_REFC_PAGES : Z := 2 ^ 21.
Definition USED_BMP_WORDS : Z := 2 ^ 15.
Definition OWNED_ORDER_SENTINEL : Z := 0xFF.
Definition PAGE_TYPE_FREE : Z := 0.
Definition PAGE_TYPE_PTE : Z := 1.
Definition PAGE_TYPE_DATA : Z := 2.
Definition PAGE_TYPE_STACK : Z := 3.
Definition QUARANTINE_MAX_CAP : nat := 1024.
Definition DF_MAX_PAGES : Z := 2 ^ 18.

(** [struct Block]: the header in the first bytes of a free block. *)
Record Block := mkBlock { b_magic : Z; b_order : Z; b_next : Z }.

(** What a header read from untouched memory gives. *)
Definition block0 : Block := mkBlock 0 0 0.

(** [pub struct BuddyAllocator]; the null pointer of a list head is 0. *)
Record BuddyAllocator := mkBuddyAllocator {
  base : Z;
  pages : Z;
  free_lists : list Z;
  reserved : list Z;
  reserved_count : nat;
}.

(** The quarantine ring of freed page-table pages. *)
Record Quarantine := mkQuarantine {
  q_slots : list Z;
  q_cap : nat;
  q_head : nat;
  q_count : nat;
  q_full : Z;
}.

(** The allocator, the memory its lists live in and the [static mut] tables. *)
Record kmem := mkMem {
  al : BuddyAllocator;
  mem : gmap Z Block;
  used_bmp : gmap Z Z;
  freed_bmp : gmap Z Z;
  page_types : gmap Z Z;
  pte_refcs : gmap Z Z;
  owned_by : gmap Z Z;
  quar : Quarantine;
  audit_counter : Z;
  audit_active : bool;
  df_last : gmap Z (Z * Z * Z);
  ticks : Z;
}.

Definition set_al (a : BuddyAllocator) (s : kmem) : kmem :=
  mkMem a (mem s) (used_bmp s) (freed_bmp s) (page_types s) (pte_refcs s)
    (owned_by s) (quar s) (audit_counter s) (audit_active s) (df_last s) (ticks s).
Definition set_mem (m : gmap Z Block) (s : kmem) : kmem :=
  mkMem (al s) m (used_bmp s) (freed_bmp s) (page_types s) (pte_refcs s)
    (owned_by s) (quar s) (audit_counter s) (audit_active s) (df_last s) (ticks s).
Definition set_used (m : gmap Z Z) (s : kmem) : kmem :=
  mkMem (al s) (mem s) m (freed_bmp s) (page_types s) (pte_refcs s)
    (owned_by s) (quar s) (audit_counter s) (audit_active s) (df_last s) (ticks s).
Definition set_freed (m : gmap Z Z) (s : kmem) : kmem :=
  mkMem (al s) (mem s) (used_bmp s) m (page_types s) (pte_refcs s)
    (owned_by s) (quar s) (audit_counter s) (audit_active s) (df_last s) (ticks s).
Definition set_types (m : gmap Z Z) (s : kmem) : kmem :=
  mkMem (al s) (mem s) (used_bmp s) (freed_bmp s) m (pte_refcs s)
    (owned_by s) (quar s) (audit_counter s) (audit_active s) (df_last s) (ticks s).
Definition set_refcs (m : gmap Z Z) (s : kmem) : kmem :=
  mkMem (al s) (mem s) (used_bmp s) (freed_bmp s) (page_types s) m
    (owned_by s) (quar s) (audit_counter s) (audit_active s) (df_last s) (ticks s).
Definition set_owned (m : gmap Z Z) (s : kmem) : kmem :=
  mkMem (al s) (mem s) (used_bmp s) (freed_bmp s) (page_types s) (pte_refcs s)
    m (quar s) (audit_counter s) (audit_active s) (df_last s) (ticks s).
Definition set_quar (q : Quarantine) (s : kmem) : kmem :=
  mkMem (al s) (mem s) (used_bmp s) (freed_bmp s) (page_types s) (pte_refcs s)
    (owned_by s) q (audit_counter s) (audit_active s) (df_last s) (ticks s).
Definition set_counter (c : Z) (s : kmem) : kmem :=
  mkMem (al s) (mem s) (used_bmp s) (freed_bmp s) (page_types s) (pte_refcs s)
    (owned_by s) (quar s) c (audit_active s) (df_last s) (ticks s).
Definition set_active (b : bool) (s : kmem) : kmem :=
  mkMem (al s) (mem s) (used_bmp s) (freed_bmp s) (page_types s) (pte_refcs s)
    (owned_by s) (quar s) (audit_counter s) b (df_last s) (ticks s).
Definition set_df (m : gmap Z (Z * Z * Z)) (s : kmem) : kmem :=
  mkMem (al s) (mem s) (used_bmp s) (freed_bmp s) (page_types s) (pte_refcs s)
    (owned_by s) (quar s) (audit_counter s) (audit_active s) m (ticks s).

Definition set_lists (fl : list Z) (s : kmem) : kmem :=
  set_al (mkBuddyAllocator (base (al s)) (pages (al s)) fl
            (reserved (al s)) (reserved_count (al s))) s.
Definition set_reserved (r : list Z) (n : nat) (s : kmem) : kmem :=
  set_al (mkBuddyAllocator (base (al s)) (pages (al s)) (free_lists (al s)) r n) s.

(** Reading and writing the header at an address. *)
Definition hdr (s : kmem) (a : Z) : Block := getd block0 (mem s) a.
Definition set_hdr (a : Z) (b : Block) (s : kmem) : kmem := set_mem (<[a := b]> (mem s)) s.

(** ** Addresses and page indices *)

Definition phys_to_idx (s : kmem) (phys : Z) : Z :=
  if phys <? base (al s) then U64_MAX else Z.shiftr (phys - base (al s)) 12.

Definition page_index (s : kmem) (addr : Z) : Z :=
  w64 (addr - base (al s)) / PAGE_SIZE.

Definition idx_to_addr (s : kmem) (idx : Z) : Z :=
  w64 (base (al s) + idx * PAGE_SIZE).

Definition block_size (order : nat) : Z :=
  w64 (Z.shiftl PAGE_SIZE (Z.of_nat order mod 64)).

Definition is_managed (s : kmem) (addr : Z) : bool :=
  (base (al s) <=? addr) &&
  (w64 (addr + PAGE_SIZE) <=? w64 (base (al s) + pages (al s) * PAGE_SIZE)).

Definition page_align_down (addr : Z) : Z := Z.ldiff addr (PAGE_SIZE - 1).
Definition page_align_up (addr : Z) : Z := Z.ldiff (w64 (addr + PAGE_SIZE - 1)) (PAGE_SIZE - 1).

(** ** Bitmaps: one bit per page, relative to the allocator base *)

Definition freed_bit (s : kmem) (addr : Z) : option (Z * Z) :=
  let idx := phys_to_idx s addr in
  if 2 ^ 21 <=? idx then None
  else Some (Z.shiftr idx 6, Z.shiftl 1 (Z.land idx 63)).

(** Returns [true] when the page is already recorded as freed. *)
Definition track_freed_page (addr : Z) (s : kmem) : bool * kmem :=
  match freed_bit s addr with
  | Some (w, b) =>
      let word := getd 0 (freed_bmp s) w in
      if negb (Z.land word b =? 0) then (true, s)
      else (false, set_freed (<[w := Z.lor word b]> (freed_bmp s)) s)
  | None => (false, s)
  end.

Definition untrack_freed_page (addr : Z) (s : kmem) : kmem :=
  match freed_bit s addr with
  | Some (w, b) =>
      set_freed (<[w := Z.ldiff (getd 0 (freed_bmp s) w) b]> (freed_bmp s)) s
  | None => s
  end.

Definition used_word (page : Z) : Z * Z :=
  (Z.shiftr page 6, Z.shiftl 1 (Z.land page 63)).

Definition used_set (s : kmem) (page : Z) : bool :=
  let '(w, b) := used_word page in
  if USED_BMP_WORDS <=? w then false
  else negb (Z.land (getd 0 (used_bmp s) w) b =? 0).

Definition used_mark (page : Z) (s : kmem) : kmem :=
  let '(w, b) := used_word page in
  if USED_BMP_WORDS <=? w then s
  else set_used (<[w := Z.lor (getd 0 (used_bmp s) w) b]> (used_bmp s)) s.

Definition used_clear (page : Z) (s : kmem) : kmem :=
  let '(w, b) := used_word page in
  if USED_BMP_WORDS <=? w then s
  else set_used (<[w := Z.ldiff (getd 0 (used_bmp s) w) b]> (used_bmp s)) s.

Definition mark_page_used (phys : Z) (s : kmem) : kmem :=
  let pidx := phys_to_idx s phys in
  let s := if negb (pidx =? U64_MAX) then used_mark pidx s else s in
  untrack_freed_page phys s.

Definition page_is_used (s : kmem) (phys : Z) : bool := used_set s (phys_to_idx s phys).

(** ** Page types and page-table reference counts *)

Definition pte_refc_inc (addr : Z) (s : kmem) : kmem :=
  let idx := phys_to_idx s addr in
  if idx <? MAX_REFC_PAGES
  then set_refcs (<[idx := Z.min (getd 0 (pte_refcs s) idx + 1) (2 ^ 16 - 1)]> (pte_refcs s)) s
  else s.

Definition pte_refc_dec (addr : Z) (s : kmem) : bool * kmem :=
  let idx := phys_to_idx s addr in
  if idx <? MAX_REFC_PAGES then
    let v := getd 0 (pte_refcs s) idx in
    let v' := if 0 <? v then v - 1 else v in
    (v' =? 0, set_refcs (<[idx := v']> (pte_refcs s)) s)
  else (true, s).

Definition pte_refc_get (s : kmem) (addr : Z) : Z :=
  let idx := phys_to_idx s addr in
  if idx <? MAX_REFC_PAGES then getd 0 (pte_refcs s) idx else 0.

Definition page_type_get (s : kmem) (addr : Z) : Z :=
  let idx := phys_to_idx s addr in
  if idx <? MAX_REFC_PAGES then getd 0 (page_types s) idx else PAGE_TYPE_FREE.

(** The leaf over the byte in the active table, made writable for the store and
    read-only again, is not part of this state: [PagingClaims.type_toggle]. *)
Definition page_type_set (addr t : Z) (s : kmem) : kmem :=
  let idx := phys_to_idx s addr in
  if idx <? MAX_REFC_PAGES then set_types (<[idx := t]> (page_types s)) s else s.

(** ** The quarantine ring *)

Definition q_slot (q : Quarantine) (i : nat) : Z := q_slots q !!! (i `mod` QUARANTINE_MAX_CAP)%nat.
Definition q_slot_set (i : nat) (v : Z) (q : Quarantine) : list Z :=
  <[(i `mod` QUARANTINE_MAX_CAP)%nat := v]> (q_slots q).

Definition q_push (addr : Z) (s : kmem) : bool * kmem :=
  let q := quar s in
  if (q_count q <? q_cap q)%nat then
    (true, set_quar (mkQuarantine (q_slot_set (q_head q) addr q) (q_cap q)
                       ((q_head q + 1) `mod` q_cap q)%nat (q_count q + 1)%nat (q_full q)) s)
  else
    (false, set_quar (mkQuarantine (q_slots q) (q_cap q) (q_head q) (q_count q)
                        (w64 (q_full q + 1))) s).

(** The [loop] of [q_pop] takes one entry per turn, so it makes at most
    [q_count] turns. *)
Fixpoint q_pop_loop (n : nat) (s : kmem) : option Z * kmem :=
  match n with
  | O => (None, s)
  | S n' =>
      let q := quar s in
      let idx := ((q_head q + q_cap q - q_count q) `mod` q_cap q)%nat in
      let addr := q_slot q idx in
      let s := set_quar (mkQuarantine (q_slot_set idx 0 q) (q_cap q) (q_head q)
                           (q_count q - 1)%nat (q_full q)) s in
      let e := w64 (base (al s) + pages (al s) * PAGE_SIZE) in
      if negb (addr =? 0) && (base (al s) <=? addr) && (addr <? e)
      then (Some addr, pte_refc_inc addr s)
      else q_pop_loop n' s
  end.

Definition q_pop (s : kmem) : option Z * kmem := q_pop_loop (q_count (quar s)) s.

(** ** Double-free records *)

Definition df_record (pidx caller : Z) (order : nat) (s : kmem) : kmem :=
  if DF_MAX_PAGES <=? pidx then s
  else set_df (<[pidx := (w32 caller, w32 (ticks s), w8 (Z.of_nat order))]> (df_last s)) s.

Definition df_info (s : kmem) (phys : Z) : Z * Z * Z :=
  let pidx := phys_to_idx s phys in
  if pidx <? DF_MAX_PAGES then getd (0, 0, 0) (df_last s) pidx else (0, 0, 0).

(** ** Free lists *)

Definition free_list_head (s : kmem) (order : nat) : comp Z :=
  match free_lists (al s) !! order with Some h => Done h | None => Panic end.

(** Turns enough for any loop over a list of distinct managed blocks. *)
Definition list_fuel (s : kmem) : nat := S (Z.to_nat (pages (al s))).

Fixpoint on_list_loop (fuel : nat) (s : kmem) (curr addr : Z) : comp bool :=
  match fuel with
  | O => Spin
  | S f =>
      if curr =? 0 then Done false
      else if curr =? addr then Done true
      else on_list_loop f s (b_next (hdr s curr)) addr
  end.

Definition is_on_free_list (s : kmem) (addr : Z) (order : nat) : comp bool :=
  let! h := free_list_head s order in
  on_list_loop (list_fuel s) s h addr.

(** [curr] in [remove_from_list] is a pointer to the cell that holds the
    current block: a list head or the [next] field of a block. *)
Inductive cell := CHead (o : nat) | CNext (a : Z).

Definition cell_get (s : kmem) (c : cell) : Z :=
  match c with
  | CHead o => free_lists (al s) !!! o
  | CNext a => b_next (hdr s a)
  end.

Definition set_next (a n : Z) (s : kmem) : kmem :=
  set_hdr a (mkBlock (b_magic (hdr s a)) (b_order (hdr s a)) n) s.

Definition set_magic (a m : Z) (s : kmem) : kmem :=
  set_hdr a (mkBlock m (b_order (hdr s a)) (b_next (hdr s a))) s.

Definition cell_set (c : cell) (v : Z) (s : kmem) : kmem :=
  match c with
  | CHead o => set_lists (<[o := v]> (free_lists (al s))) s
  | CNext a => set_next a v s
  end.

Fixpoint remove_loop (fuel : nat) (c : cell) (target : Z) (s : kmem) : comp kmem :=
  match fuel with
  | O => Spin
  | S f =>
      let cur := cell_get s c in
      if cur =? 0 then Done s
      else if cur =? target then
        Done (set_magic target 0 (cell_set c (b_next (hdr s target)) s))
      else remove_loop f (CNext cur) target s
  end.

Definition remove_from_list (order : nat) (target : Z) (s : kmem) : comp kmem :=
  let! _ := free_list_head s order in
  remove_loop (list_fuel s) (CHead order) target s.

(** Write a free header at [a] and make it the head of list [o]. *)
Definition push_block (a : Z) (o : nat) (s : kmem) : kmem :=
  let h := free_lists (al s) !!! o in
  set_lists (<[o := a]> (free_lists (al s)))
    (set_hdr a (mkBlock MAGIC (Z.of_nat o) h) s).

(** The coalescing loop: [n] is [MAX_ORDER - o], so [O] is the exit test
    [o >= MAX_ORDER]. *)
Fixpoint merge_loop (n : nat) (cur : Z) (o : nat) (s : kmem) : comp (Z * nat * kmem) :=
  match n with
  | O => Done (cur, o, s)
  | S n' =>
      let buddy := Z.lxor cur (block_size o) in
      if negb (is_managed s buddy) then Done (cur, o, s)
      else
        let h := hdr s buddy in
        if (b_magic h =? MAGIC) && (b_order h =? Z.of_nat o) then
          let! onl := is_on_free_list s buddy o in
          if onl then
            let! s' := remove_from_list o buddy s in
            merge_loop n' (if cur <? buddy then cur else buddy) (S o) s'
          else Done (cur, o, s)
        else Done (cur, o, s)
  end.

Definition free_one (addr : Z) (order : nat) (s : kmem) : comp kmem :=
  if negb (is_managed s addr) then Done s
  else if (order =? 0)%nat && (page_type_get s addr =? PAGE_TYPE_PTE) then
    Done (push_block addr 0 s)
  else
    let! (cur, o, s) := merge_loop (MAX_ORDER - order) addr order s in
    let! onl := is_on_free_list s cur o in
    if onl then Done s else Done (push_block cur o s).

(** ** Reservations *)

Definition is_reserved (s : kmem) (addr : Z) : bool :=
  match first_from (λ i, reserved (al s) !!! i =? addr) 0 (reserved_count (al s)) with
  | Some _ => true
  | None => false
  end.

(** [for j in i..count-1 { reserved[j] = reserved[j+1] }] *)
Definition shift_down (i n : nat) (r : list Z) : list Z :=
  foldl (λ r j, <[j := r !!! S j]> r) r (seq i n).

Definition unreserve_nolock (addr : Z) (s : kmem) : bool * kmem :=
  let cnt := reserved_count (al s) in
  match first_from (λ i, reserved (al s) !!! i =? addr) 0 cnt with
  | Some i =>
      let r := shift_down i (cnt - 1 - i) (reserved (al s)) in
      (true, set_reserved (<[(cnt - 1)%nat := 0]> r) (cnt - 1) s)
  | None => (false, s)
  end.

(** ** Allocation *)

(** The split loop [for so in (order..o).rev()]: [n] counts [o - order] down. *)
Fixpoint split_loop (n order : nat) (addr : Z) (s : kmem) : kmem :=
  match n with
  | O => s
  | S n' =>
      let so := (order + n')%nat in
      let buddy := w64 (addr + block_size so) in
      split_loop n' order addr
        (if is_reserved s buddy then s else push_block buddy so s)
  end.

(** The scan [for o in order..=MAX_ORDER]: [n] orders are left to try. *)
Fixpoint alloc_scan (n o order : nat) (steps : Z) (s : kmem) : option Z * kmem :=
  match n with
  | O => (None, s)
  | S n' =>
      let addr := free_lists (al s) !!! o in
      if addr =? 0 then alloc_scan n' (S o) order steps s
      else
        let steps := steps + 1 in
        if 1000000 <? steps then (None, s)
        else
          let nx := b_next (hdr s addr) in
          if is_reserved s addr then
            let s := set_lists (<[o := nx]> (free_lists (al s))) s in
            if negb (nx =? 0) then alloc_scan n' (S o) order steps s else (None, s)
          else
            let s := set_hdr addr block0 s in
            let s := used_mark (page_index s addr) s in
            let s := untrack_freed_page addr s in
            let s := set_lists (<[o := nx]> (free_lists (al s))) s in
            let s := split_loop (o - order) order addr s in
            (Some addr, page_type_set addr PAGE_TYPE_DATA s)
  end.

Definition alloc_nolock (order : nat) (s : kmem) : option Z * kmem :=
  alloc_scan (S MAX_ORDER - order) order order 0 s.

Definition alloc (order : nat) (s : kmem) : option Z * kmem := alloc_nolock order s.

(** [write_bytes(addr, 0, PAGE_SIZE)]: the header bytes of the page are zero. *)
Definition zero_page (addr : Z) (s : kmem) : kmem := set_hdr addr block0 s.

Definition alloc_zeroed_page (s : kmem) : option Z * kmem :=
  match q_pop s with
  | (Some addr, s) =>
      let s := zero_page addr s in
      let s := page_type_set addr PAGE_TYPE_PTE s in
      let s := pte_refc_inc addr s in
      let s := untrack_freed_page addr s in
      (Some addr, used_mark (phys_to_idx s addr) s)
  | (None, s) =>
      match alloc_nolock 0 s with
      | (Some addr, s) =>
          let s := zero_page addr s in
          let s := page_type_set addr PAGE_TYPE_PTE s in
          (Some addr, pte_refc_inc addr s)
      | (None, s) => (None, s)
      end
  end.

(** ** The audit *)

(** Claim [n] pages from [p] on for [order]; stop at a page already claimed. *)
Fixpoint audit_pages (n : nat) (p order : Z) (owned : gmap Z Z) : bool * gmap Z Z :=
  match n with
  | O => (true, owned)
  | S n' =>
      if negb (getd OWNED_ORDER_SENTINEL owned p =? OWNED_ORDER_SENTINEL) then (false, owned)
      else audit_pages n' (p + 1) order (<[p := order]> owned)
  end.

Fixpoint audit_list (fuel : nat) (s : kmem) (order : nat) (curr : Z) (owned : gmap Z Z)
    : comp (bool * gmap Z Z) :=
  match fuel with
  | O => Spin
  | S f =>
      if curr =? 0 then Done (true, owned)
      else
        let b := hdr s curr in
        if negb (b_magic b =? MAGIC) || negb (b_order b =? Z.of_nat order)
        then Done (false, owned)
        else
          let base_idx := phys_to_idx s curr in
          let e := w64 (base_idx + Z.shiftl 1 (Z.of_nat order)) in
          if MAX_REFC_PAGES <? e then Done (false, owned)
          else
            match audit_pages (Z.to_nat (e - base_idx)) base_idx (Z.of_nat order) owned with
            | (false, owned) => Done (false, owned)
            | (true, owned) => audit_list f s order (b_next b) owned
            end
  end.

Fixpoint audit_orders (n o : nat) (s : kmem) (owned : gmap Z Z) : comp (bool * gmap Z Z) :=
  match n with
  | O => Done (true, owned)
  | S n' =>
      let! (ok, owned) := audit_list (list_fuel s) s o (free_lists (al s) !!! o) owned in
      if ok then audit_orders n' (S o) s owned else Done (false, owned)
  end.

Definition audit_free_lists (s : kmem) : comp (bool * kmem) :=
  if audit_active s then Done (true, s)
  else
    let! (ok, owned) := audit_orders (S MAX_ORDER) 0 s ∅ in
    Done (ok, set_active false (set_owned owned s)).

Definition maybe_audit (s : kmem) : comp kmem :=
  let c := w64 (audit_counter s + 1) in
  let s := set_counter c s in
  if c mod AUDIT_PERIOD =? 0 then
    let! (_, s) := audit_free_lists s in Done s
  else Done s.

(** ** Freeing *)

(** The shared tail of [free] and [free_reserved]: clear the used bit and the
    type, record the free, and hand the block to the quarantine or the lists. *)
Definition release (caller addr : Z) (order : nat) (old_type pidx : Z) (s : kmem) : comp kmem :=
  let s := used_clear pidx s in
  let s := page_type_set addr PAGE_TYPE_FREE s in
  let s := df_record pidx caller order s in
  if (order =? 0)%nat && (old_type =? PAGE_TYPE_PTE) then
    match pte_refc_dec addr s with
    | (true, s) =>
        match q_push addr s with
        | (true, s) => Done s
        | (false, s) => free_one addr 0 s
        end
    | (false, s) => Done s
    end
  else free_one addr (order `mod` 256)%nat s.

Definition free (caller addr : Z) (order : nat) (s : kmem) : comp kmem :=
  match track_freed_page addr s with
  | (true, s) => Done s
  | (false, s) =>
      let s := if is_reserved s addr then (unreserve_nolock addr s).2 else s in
      let pidx := page_index s addr in
      let old_type := page_type_get s addr in
      if negb (used_set s pidx) || (old_type =? PAGE_TYPE_FREE) then Done s
      else
        let! s := release caller addr order old_type pidx s in
        maybe_audit s
  end.

Definition free_reserved (caller addr : Z) (order : nat) (s : kmem) : comp (bool * kmem) :=
  match unreserve_nolock addr s with
  | (true, s) =>
      let pidx := page_index s addr in
      let old_type := page_type_get s addr in
      if negb (used_set s pidx) || (old_type =? PAGE_TYPE_FREE) then Done (true, s)
      else
        let! s := release caller addr order old_type pidx s in
        Done (true, s)
  | (false, s) => Done (false, s)
  end.

(** ** Regions *)

Fixpoint max_order_loop (o : nat) (addr size : Z) : nat :=
  match o with
  | O => 0
  | S o' =>
      let bs := block_size o in
      if (Z.land addr (bs - 1) =? 0) && (bs <=? size) then o
      else max_order_loop o' addr size
  end.

Definition max_order_for (addr size : Z) : nat := max_order_loop MAX_ORDER addr size.

Fixpoint add_region_loop (fuel : nat) (addr e : Z) (s : kmem) : comp kmem :=
  if w64 (addr + PAGE_SIZE) <=? e then
    match fuel with
    | O => Spin
    | S f =>
        let order := max_order_for addr (w64 (e - addr)) in
        let! s := free_one addr order s in
        add_region_loop f (w64 (addr + block_size order)) e s
    end
  else Done s.

Definition add_region (start size : Z) (s : kmem) : comp kmem :=
  add_region_loop (Z.to_nat (size / PAGE_SIZE)) start (w64 (start + size)) s.

Definition remove_if_free (addr : Z) (order : nat) (s : kmem) : comp kmem :=
  if (b_magic (hdr s addr) =? MAGIC) && (b_order (hdr s addr) =? Z.of_nat order)
  then remove_from_list order addr s
  else Done s.

Fixpoint mark_allocated_loop (fuel : nat) (addr e : Z) (s : kmem) : comp kmem :=
  if addr <? e then
    match fuel with
    | O => Spin
    | S f =>
        let order := max_order_for addr (w64 (e - addr)) in
        let! s := remove_if_free addr order s in
        mark_allocated_loop f (w64 (addr + block_size order)) e s
    end
  else Done s.

Definition mark_allocated_nolock (start size : Z) (s : kmem) : comp kmem :=
  mark_allocated_loop (Z.to_nat ((size + PAGE_SIZE - 1) / PAGE_SIZE)) start (w64 (start + size)) s.

Definition mark_allocated (start size : Z) (s : kmem) : comp kmem :=
  mark_allocated_nolock start size s.

Definition reserve_nolock (addr : Z) (s : kmem) : comp kmem :=
  if is_reserved s addr then Done s
  else if (reserved_count (al s) <? MAX_RESERVED)%nat then
    let s := set_reserved (<[reserved_count (al s) := addr]> (reserved (al s)))
               (S (reserved_count (al s))) s in
    let! s := mark_allocated_nolock addr PAGE_SIZE s in
    let pidx := page_index s addr in
    Done (if used_set s pidx then s else used_mark pidx s)
  else Done s.

Definition reserve (addr : Z) (s : kmem) : comp kmem := reserve_nolock addr s.

Definition reserve_page (addr : Z) (s : kmem) : comp kmem :=
  if negb (is_managed s addr) then Done s
  else
    let s := used_mark (page_index s addr) s in
    let s := page_type_set addr PAGE_TYPE_DATA s in
    reserve_nolock addr s.

Definition unreserve (addr : Z) (s : kmem) : bool * kmem := unreserve_nolock addr s.

(** ** Counters *)

Definition total_pages (s : kmem) : Z := pages (al s).

(** [while !curr.is_null() { acc += w; curr = curr.next }] *)
Fixpoint tally_list (fuel : nat) (s : kmem) (curr w acc : Z) : comp Z :=
  match fuel with
  | O => Spin
  | S f =>
      if curr =? 0 then Done acc
      else tally_list f s (b_next (hdr s curr)) w (w64 (acc + w))
  end.

Fixpoint tally_orders (n o : nat) (s : kmem) (acc : Z) : comp Z :=
  match n with
  | O => Done acc
  | S n' =>
      let! acc := tally_list (list_fuel s) s (free_lists (al s) !!! o)
                    (Z.shiftl 1 (Z.of_nat o)) acc in
      tally_orders n' (S o) s acc
  end.

Definition free_page_count (s : kmem) : comp Z := tally_orders (S MAX_ORDER) 0 s 0.

Fixpoint count_orders (n o : nat) (s : kmem) : comp (list Z) :=
  match n with
  | O => Done []
  | S n' =>
      let! c := tally_list (list_fuel s) s (free_lists (al s) !!! o) 1 0 in
      let! cs := count_orders n' (S o) s in
      Done (c :: cs)
  end.

Definition free_pages_by_order (s : kmem) : comp (list Z) := count_orders (S MAX_ORDER) 0 s.

Fixpoint ones_pos (p : positive) : Z :=
  match p with
  | xH => 1
  | xO p => ones_pos p
  | xI p => 1 + ones_pos p
  end.

(** [u64::count_ones] *)
Definition count_ones (z : Z) : Z :=
  match z with Zpos p => ones_pos p | _ => 0 end.

Fixpoint used_count_loop (n : nat) (w e total : Z) (s : kmem) : Z :=
  match n with
  | O => total
  | S n' =>
      if e <=? w * 64 then total
      else used_count_loop n' (w + 1) e (total + count_ones (getd 0 (used_bmp s) w)) s
  end.

Definition used_page_count (s : kmem) : Z :=
  let e := w64 (base (al s) + pages (al s) * PAGE_SIZE - 1) / PAGE_SIZE + 1 in
  used_count_loop (Z.to_nat USED_BMP_WORDS) 0 e 0 s.

(** ** Construction *)

Definition buddy_new : BuddyAllocator :=
  mkBuddyAllocator 0 0 (replicate (S MAX_ORDER) 0) (replicate MAX_RESERVED 0) 0.

Definition kmem0 : kmem :=
  mkMem buddy_new ∅ ∅ ∅ ∅ ∅ ∅
    (mkQuarantine (replicate QUARANTINE_MAX_CAP 0) QUARANTINE_MAX_CAP 0 0 0)
    0 false ∅ 0.

Definition init (b p : Z) (s : kmem) : kmem :=
  set_al (mkBuddyAllocator b p (free_lists (al s)) (reserved (al s)) (reserved_count (al s))) s.

(** The boot-time self test of the allocator. *)
Definition free_opt (a : option Z) (order : nat) (s : kmem) : comp kmem :=
  match a with Some addr => free 0 addr order s | None => Done s end.

Definition test (s : kmem) : comp kmem :=
  let '(a0, s) := alloc 0 s in
  let '(a1, s) := alloc 1 s in
  let '(a2, s) := alloc 2 s in
  let! s := free_opt a0 0 s in
  let! s := free_opt a2 2 s in
  let! s := free_opt a1 1 s in
  let '(big, s) := alloc 4 s in
  let! s := free_opt big 4 s in
  let '(fail, s) := alloc 11 s in
  Done s.
