(* ===== verification/BuddyInv.v ===== *)
(** * Free lists: representation and invariant

    A free list is a pointer chain through physical memory.  [fl_wf s ls]
    relates the state [s] to the ghost lists [ls o] (the addresses on list
    [o], in order): every chain is null-terminated, every block on list [o]
    carries the magic word and its order, is aligned to its size, lies inside
    the managed range and is disjoint from every other free block.  The
    lemmas of this file say what each list primitive does to [ls]. *)

From S2P Require Import Prelude Buddy.
From stdpp Require Import base gmap numbers functions list.
Local Open Scope Z_scope.

(** ** Block sizes *)

Lemma block_size_pow o : (o ≤ MAX_ORDER)%nat → block_size o = 2 ^ (12 + Z.of_nat o).
Proof.
  unfold MAX_ORDER. intros. unfold block_size, PAGE_SIZE.
  do 11 (destruct o as [|o]; [reflexivity|]). lia.
Qed.

Lemma block_size_S o : (o < MAX_ORDER)%nat → block_size (S o) = 2 * block_size o.
Proof.
  intros. rewrite !block_size_pow by lia.
  replace (12 + Z.of_nat (S o)) with (Z.succ (12 + Z.of_nat o)) by lia.
  by rewrite Z.pow_succ_r by lia.
Qed.

Lemma block_size_bound o : (o ≤ MAX_ORDER)%nat → PAGE_SIZE ≤ block_size o ≤ 2 ^ 22.
Proof.
  intros. rewrite block_size_pow by done. unfold PAGE_SIZE, MAX_ORDER in *. split.
  - change 4096 with (2 ^ 12). apply Z.pow_le_mono_r; lia.
  - apply Z.pow_le_mono_r; lia.
Qed.

Lemma block_size_0 : block_size 0 = PAGE_SIZE.
Proof. reflexivity. Qed.

Lemma block_size_divide o o' :
  (o ≤ o' ≤ MAX_ORDER)%nat → (block_size o | block_size o').
Proof.
  intros. rewrite !block_size_pow by lia.
  exists (2 ^ (Z.of_nat o' - Z.of_nat o)). rewrite <- Z.pow_add_r by lia. f_equal. lia.
Qed.

Lemma block_size_mono o o' :
  (o ≤ o' ≤ MAX_ORDER)%nat → block_size o ≤ block_size o'.
Proof. intros. rewrite !block_size_pow by lia. apply Z.pow_le_mono_r; lia. Qed.

(** ** Chains *)

Fixpoint chain (m : gmap Z Block) (p : Z) (l : list Z) : Prop :=
  match l with
  | [] => p = 0
  | a :: l' => p = a ∧ a ≠ 0 ∧ chain m (b_next (getd block0 m a)) l'
  end.

Lemma chain_ext m m' p l :
  (∀ a, a ∈ l → b_next (getd block0 m' a) = b_next (getd block0 m a)) →
  chain m p l → chain m' p l.
Proof.
  revert p. induction l as [|a l IH]; intros p Hext; simpl; [done|].
  intros (-> & ? & ?). split_and!; [done|done|].
  rewrite Hext by set_solver. apply IH; [set_solver|done].
Qed.

Lemma chain_insert m p l a b : a ∉ l → chain m p l → chain (<[a := b]> m) p l.
Proof.
  intros Hni. apply chain_ext. intros x Hx.
  rewrite getd_insert_ne; [done|]. set_solver.
Qed.

Lemma chain_nonzero m p l a : chain m p l → a ∈ l → a ≠ 0.
Proof.
  revert p. induction l as [|x l IH]; intros p; simpl; [set_solver|].
  intros (-> & ? & ?) [->|]%elem_of_cons; [done|]. eapply IH; eauto.
Qed.

(** Cutting [t] out after [a]: redirecting [a]'s link past [t]. *)
Lemma chain_splice m p l1 a t l2 b :
  NoDup (l1 ++ a :: t :: l2) →
  b_next b = b_next (getd block0 m t) →
  chain m p (l1 ++ a :: t :: l2) → chain (<[a := b]> m) p (l1 ++ a :: l2).
Proof.
  intros Hnd Hb. revert p. induction l1 as [|x l1 IH]; intros p; simpl.
  - intros (-> & ? & _ & ? & Hch).
    simpl in Hnd. split_and!; [done|done|].
    rewrite getd_insert_eq, Hb. apply chain_insert; [|done].
    apply list.NoDup_cons in Hnd as [Hnd _]. set_solver.
  - intros (-> & ? & Hch). simpl in Hnd. apply list.NoDup_cons in Hnd as [Hx Hnd].
    split_and!; [done|done|].
    rewrite getd_insert_ne by set_solver. by apply IH.
Qed.

Lemma chain_drop_head m p t l : chain m p (t :: l) → chain m (b_next (getd block0 m t)) l.
Proof. simpl. naive_solver. Qed.

(** ** The walk loops on a chain *)

Lemma on_list_loop_spec fuel s p addr l :
  chain (mem s) p l → (length l < fuel)%nat →
  on_list_loop fuel s p addr = Done (bool_decide (addr ∈ l)).
Proof.
  revert fuel p. induction l as [|a l IH]; intros [|fuel] p; simpl; try lia.
  - intros -> _. by rewrite Z.eqb_refl.
  - intros (-> & Hnz & Hch) Hlen. apply Z.eqb_neq in Hnz as ->.
    destruct (Z.eqb_spec a addr) as [->|].
    + f_equal. symmetry. apply bool_decide_eq_true. set_solver.
    + unfold hdr. rewrite IH by (done || lia). f_equal.
      apply bool_decide_ext. rewrite elem_of_cons. naive_solver.
Qed.

Definition last_cell (c : cell) (l : list Z) : cell :=
  match last l with Some a => CNext a | None => c end.

Lemma last_cell_cons c a l : last_cell c (a :: l) = last_cell (CNext a) l.
Proof. unfold last_cell. rewrite last_cons. by destruct (last l). Qed.

Lemma remove_loop_spec fuel s c t l1 l2 :
  chain (mem s) (cell_get s c) (l1 ++ t :: l2) → t ∉ l1 →
  (length l1 < fuel)%nat →
  remove_loop fuel c t s =
    Done (set_magic t 0 (cell_set (last_cell c l1) (b_next (hdr s t)) s)).
Proof.
  revert fuel c. induction l1 as [|a l1 IH]; intros [|fuel] c; try (simpl; lia).
  - cbn [app chain remove_loop]. intros (Heq & Hnz & _) _ _. cbv zeta.
    rewrite Heq. apply Z.eqb_neq in Hnz as ->. by rewrite Z.eqb_refl.
  - cbn [app chain remove_loop length]. intros (Heq & Hnz & Hch) Hni Hlen. cbv zeta.
    rewrite Heq. apply Z.eqb_neq in Hnz as ->.
    destruct (Z.eqb_spec a t) as [->|]; [set_solver|].
    rewrite last_cell_cons. apply IH; [done|set_solver|lia].
Qed.

Lemma tally_list_spec fuel s p l w acc :
  chain (mem s) p l → (length l < fuel)%nat →
  0 ≤ w → 0 ≤ acc → acc + w * Z.of_nat (length l) < 2 ^ 64 →
  tally_list fuel s p w acc = Done (acc + w * Z.of_nat (length l)).
Proof.
  revert fuel p acc. induction l as [|a l IH]; intros [|fuel] p acc; cbn [length]; try lia;
    cbn [chain tally_list].
  - intros -> _ _ _ _. rewrite Z.eqb_refl. f_equal. lia.
  - intros (-> & Hnz & Hch) Hlen Hw Hacc Hb. apply Z.eqb_neq in Hnz as ->.
    rewrite w64_small by nia. unfold hdr. rewrite IH; [f_equal; lia|done|lia|lia|lia|nia].
Qed.

(** ** The invariant *)

Definition blk_end (a : Z) (o : nat) : Z := a + block_size o.

(** The bytes of a block. *)
Definition in_blk (a : Z) (o : nat) (p : Z) : Prop := a ≤ p < a + block_size o.

Definition disj (a1 : Z) (o1 : nat) (a2 : Z) (o2 : nat) : Prop :=
  a1 + block_size o1 ≤ a2 ∨ a2 + block_size o2 ≤ a1.

(** The managed range: [memory::init] clamps it below the identity-map limit;
    any bound that keeps the arithmetic from wrapping will do. *)
Definition region_ok (s : kmem) : Prop :=
  0 < base (al s) ∧ (PAGE_SIZE | base (al s)) ∧ 0 ≤ pages (al s) ∧
  base (al s) + pages (al s) * PAGE_SIZE ≤ 2 ^ 62.

Definition blk_ok (s : kmem) (a : Z) (o : nat) : Prop :=
  (o ≤ MAX_ORDER)%nat ∧ base (al s) ≤ a ∧
  a + block_size o ≤ base (al s) + pages (al s) * PAGE_SIZE ∧ (block_size o | a).

Record fl_wf (s : kmem) (ls : nat → list Z) : Prop := {
  wf_region : region_ok s;
  wf_len : length (free_lists (al s)) = S MAX_ORDER;
  wf_chain : ∀ o, (o ≤ MAX_ORDER)%nat → chain (mem s) (free_lists (al s) !!! o) (ls o);
  wf_hdr : ∀ o a, (o ≤ MAX_ORDER)%nat → a ∈ ls o →
    b_magic (hdr s a) = MAGIC ∧ b_order (hdr s a) = Z.of_nat o;
  wf_blk : ∀ o a, (o ≤ MAX_ORDER)%nat → a ∈ ls o → blk_ok s a o;
  wf_nodup : ∀ o, (o ≤ MAX_ORDER)%nat → NoDup (ls o);
  wf_disj : ∀ o1 a1 o2 a2, (o1 ≤ MAX_ORDER)%nat → (o2 ≤ MAX_ORDER)%nat →
    a1 ∈ ls o1 → a2 ∈ ls o2 → (o1, a1) ≠ (o2, a2) → disj a1 o1 a2 o2;
}.

(** The pages the allocator may hand out. *)
Definition free_at (ls : nat → list Z) (p : Z) : Prop :=
  ∃ o a, (o ≤ MAX_ORDER)%nat ∧ a ∈ ls o ∧ in_blk a o p.

(** A block nothing on the lists overlaps. *)
Definition blk_out (ls : nat → list Z) (a : Z) (o : nat) : Prop :=
  ∀ o' a', (o' ≤ MAX_ORDER)%nat → a' ∈ ls o' → disj a o a' o'.

(** The invariant looks at the range, the heads and the headers only. *)
Lemma fl_wf_ext s s' ls :
  base (al s') = base (al s) → pages (al s') = pages (al s) →
  free_lists (al s') = free_lists (al s) → mem s' = mem s →
  fl_wf s ls → fl_wf s' ls.
Proof.
  intros Hb Hp Hf Hm [Hr Hl Hc Hh Hk Hn Hd].
  split; unfold region_ok, blk_ok, hdr in *; rewrite ?Hb, ?Hp, ?Hf, ?Hm; done.
Qed.

Lemma fl_wf_ls_ext s ls ls' :
  (∀ o, (o ≤ MAX_ORDER)%nat → ls' o = ls o) → fl_wf s ls → fl_wf s ls'.
Proof.
  intros Heq [Hr Hl Hc Hh Hk Hn Hd]. split; try done.
  - intros o Ho. rewrite Heq by done. auto.
  - intros o a Ho. rewrite Heq by done. auto.
  - intros o a Ho. rewrite Heq by done. auto.
  - intros o Ho. rewrite Heq by done. auto.
  - intros o1 a1 o2 a2 H1 H2. rewrite !Heq by done. auto.
Qed.

Lemma blk_pos s a o : region_ok s → blk_ok s a o → 0 < a.
Proof. unfold region_ok, blk_ok. lia. Qed.

Lemma blk_bound s a o : region_ok s → blk_ok s a o → 0 < a ∧ a + block_size o ≤ 2 ^ 62.
Proof. unfold region_ok, blk_ok. lia. Qed.

Lemma blk_managed s a o : region_ok s → blk_ok s a o → is_managed s a = true.
Proof.
  intros Hr Hb. pose proof (blk_bound _ _ _ Hr Hb).
  destruct Hr as (? & ? & ? & ?), Hb as (? & ? & ? & ?).
  pose proof (block_size_bound o ltac:(done)). unfold PAGE_SIZE in *.
  unfold is_managed, PAGE_SIZE. rewrite !w64_small by lia.
  apply andb_true_iff. split; apply Z.leb_le; lia.
Qed.

Lemma wf_same_addr s ls o1 o2 a :
  fl_wf s ls → (o1 ≤ MAX_ORDER)%nat → (o2 ≤ MAX_ORDER)%nat →
  a ∈ ls o1 → a ∈ ls o2 → o1 = o2.
Proof.
  intros Hwf H1 H2 Ha1 Ha2. destruct (decide (o1 = o2)) as [|Hne]; [done|].
  pose proof (wf_disj _ _ Hwf _ _ _ _ H1 H2 Ha1 Ha2 ltac:(congruence)) as Hd.
  pose proof (block_size_bound o1 H1). pose proof (block_size_bound o2 H2).
  unfold disj, PAGE_SIZE in *. lia.
Qed.

Lemma blk_out_not_in ls a o : (o ≤ MAX_ORDER)%nat → blk_out ls a o →
  ∀ o', (o' ≤ MAX_ORDER)%nat → a ∉ ls o'.
Proof.
  intros Ho Hout o' Ho' Hin. specialize (Hout _ _ Ho' Hin).
  pose proof (block_size_bound o Ho). pose proof (block_size_bound o' Ho').
  unfold disj, PAGE_SIZE in *. lia.
Qed.

(** A list of distinct managed blocks is no longer than the number of pages. *)
Lemma wf_length s ls o :
  fl_wf s ls → (o ≤ MAX_ORDER)%nat → (length (ls o) < list_fuel s)%nat.
Proof.
  intros Hwf Ho. pose proof (wf_nodup _ _ Hwf o Ho) as Hnd.
  pose proof (wf_blk _ _ Hwf o) as Hblk. pose proof (wf_region _ _ Hwf) as (? & [b Hb] & ? & ?).
  set (f := λ a : Z, Z.to_nat ((a - base (al s)) / PAGE_SIZE)).
  assert (f <$> ls o ⊆+ seq 0 (Z.to_nat (pages (al s)))) as Hsub.
  { apply NoDup_submseteq.
    - apply NoDup_fmap_2_strong; [|done]. intros x y Hx Hy Hf.
      apply Hblk in Hx as (_ & ? & ? & Hdx); [|done].
      apply Hblk in Hy as (_ & ? & ? & Hdy); [|done].
      assert (PAGE_SIZE | x) as [x' ->].
      { etrans; [apply (block_size_divide 0 o); lia|done]. }
      assert (PAGE_SIZE | y) as [y' ->].
      { etrans; [apply (block_size_divide 0 o); lia|done]. }
      unfold f, PAGE_SIZE in *. rewrite Hb in *.
      rewrite <- !Z.mul_sub_distr_r, !Z.div_mul in Hf by done. lia.
    - intros i Hi. apply list_elem_of_fmap in Hi as (x & -> & Hx).
      apply Hblk in Hx as (_ & ? & ? & _); [|done].
      pose proof (block_size_bound o Ho). apply elem_of_seq. unfold f, PAGE_SIZE in *.
      assert ((x - base (al s)) / 4096 < pages (al s)) by (apply Z.div_lt_upper_bound; lia).
      assert (0 ≤ (x - base (al s)) / 4096) by (apply Z.div_pos; lia). lia. }
  apply submseteq_length in Hsub. rewrite length_fmap, length_seq in Hsub.
  unfold list_fuel. lia.
Qed.

Lemma wf_head s ls o :
  fl_wf s ls → (o ≤ MAX_ORDER)%nat → free_list_head s o = Done (free_lists (al s) !!! o).
Proof.
  intros Hwf Ho. unfold free_list_head.
  destruct (lookup_lt_is_Some_2 (free_lists (al s)) o) as [h Hh].
  { rewrite (wf_len _ _ Hwf). lia. }
  by rewrite Hh, (list_lookup_total_correct _ _ _ Hh).
Qed.

Lemma is_on_free_list_spec s ls addr o :
  fl_wf s ls → (o ≤ MAX_ORDER)%nat →
  is_on_free_list s addr o = Done (bool_decide (addr ∈ ls o)).
Proof.
  intros Hwf Ho. unfold is_on_free_list. rewrite (wf_head _ _ _ Hwf Ho). cbn [cbind].
  apply on_list_loop_spec; [by apply wf_chain|by eapply wf_length].
Qed.

(** ** Pushing a block *)

Lemma push_block_wf s ls a o :
  fl_wf s ls → blk_ok s a o → blk_out ls a o →
  fl_wf (push_block a o s) (<[o := a :: ls o]> ls).
Proof.
  intros Hwf Hok Hout. pose proof Hwf as [Hr Hl Hc Hh Hk Hn Hd].
  pose proof Hok as (Ho & _).
  pose proof (blk_out_not_in _ _ _ Ho Hout) as Hni.
  pose proof (blk_pos _ _ _ Hr Hok) as Hpos.
  assert (∀ x o', (o' ≤ MAX_ORDER)%nat → x ∈ ls o' → hdr (push_block a o s) x = hdr s x) as Hfr.
  { intros x o' Ho' Hx. unfold hdr. simpl. rewrite getd_insert_ne; [done|].
    intros ->. by eapply Hni. }
  split.
  - done.
  - simpl. by rewrite length_insert.
  - intros o' Ho'. simpl. destruct (decide (o' = o)) as [->|].
    + rewrite fn_lookup_insert, list_lookup_total_insert_eq by lia. simpl.
      split_and!; [done|lia|]. rewrite getd_insert_eq. simpl. apply chain_insert; auto.
    + rewrite fn_lookup_insert_ne, list_lookup_total_insert_ne by done.
      apply chain_insert; auto.
  - intros o' x Ho'. destruct (decide (o' = o)) as [->|].
    + rewrite fn_lookup_insert. intros [->|Hx]%elem_of_cons.
      * unfold hdr. simpl. by rewrite getd_insert_eq.
      * rewrite (Hfr _ o) by done. auto.
    + rewrite fn_lookup_insert_ne by done. intros Hx. rewrite (Hfr _ o') by done. auto.
  - intros o' x Ho'. destruct (decide (o' = o)) as [->|].
    + rewrite fn_lookup_insert. intros [->|Hx]%elem_of_cons; [done|]. by apply Hk.
    + rewrite fn_lookup_insert_ne by done. by apply Hk.
  - intros o' Ho'. destruct (decide (o' = o)) as [->|].
    + rewrite fn_lookup_insert. apply NoDup_cons_2; auto.
    + rewrite fn_lookup_insert_ne by done. auto.
  - intros o1 a1 o2 a2 H1 H2 Ha1 Ha2 Hne.
    assert (∀ o' x, x ∈ <[o:=a :: ls o]> ls o' → (o' = o ∧ x = a) ∨ x ∈ ls o') as Hcase.
    { intros o' x. destruct (decide (o' = o)) as [->|].
      - rewrite fn_lookup_insert, elem_of_cons. naive_solver.
      - rewrite fn_lookup_insert_ne by done. naive_solver. }
    apply Hcase in Ha1 as [[-> ->]|Ha1]; apply Hcase in Ha2 as [[-> ->]|Ha2].
    + done.
    + by apply Hout.
    + pose proof (Hout _ _ H1 Ha1). unfold disj in *. lia.
    + eauto.
Qed.

Lemma push_block_free_at ls a o p :
  (o ≤ MAX_ORDER)%nat → free_at (<[o := a :: ls o]> ls) p ↔ in_blk a o p ∨ free_at ls p.
Proof.
  intros Ho. unfold free_at. split.
  - intros (o' & x & Ho' & Hx & Hp). destruct (decide (o' = o)) as [->|].
    + rewrite fn_lookup_insert in Hx. apply elem_of_cons in Hx as [->|]; eauto 10.
    + rewrite fn_lookup_insert_ne in Hx by done. eauto 10.
  - intros [Hp|(o' & x & Ho' & Hx & Hp)].
    + exists o, a. rewrite fn_lookup_insert. set_solver.
    + exists o', x. destruct (decide (o' = o)) as [->|].
      * rewrite fn_lookup_insert. set_solver.
      * by rewrite fn_lookup_insert_ne.
Qed.

(** ** Taking a block off its list *)

(** Only the list heads and the headers change. *)
Definition lists_only (s s' : kmem) : Prop :=
  ∃ fl m, s' = set_lists fl (set_mem m s).

#[export] Instance lists_only_preorder : PreOrder lists_only.
Proof.
  split.
  - intros s. exists (free_lists (al s)), (mem s). destruct s as [[]]. reflexivity.
  - intros s1 s2 s3 (fl & m & ->) (fl' & m' & ->). by exists fl', m'.
Qed.

Lemma lists_only_push s a o : lists_only s (push_block a o s).
Proof. unfold push_block. eexists _, _. reflexivity. Qed.

Lemma lists_only_blk s s' a o : lists_only s s' → blk_ok s' a o ↔ blk_ok s a o.
Proof. intros (fl & m & ->). done. Qed.

#[export] Hint Resolve lists_only_push : kernel.

Lemma fl_wf_sub s s' ls ls' :
  fl_wf s ls → lists_only s s' →
  length (free_lists (al s')) = S MAX_ORDER →
  (∀ o, (o ≤ MAX_ORDER)%nat → ls' o `sublist_of` ls o) →
  (∀ o, (o ≤ MAX_ORDER)%nat → chain (mem s') (free_lists (al s') !!! o) (ls' o)) →
  (∀ o a, (o ≤ MAX_ORDER)%nat → a ∈ ls' o →
     b_magic (hdr s' a) = b_magic (hdr s a) ∧ b_order (hdr s' a) = b_order (hdr s a)) →
  fl_wf s' ls'.
Proof.
  intros [Hr Hl Hc Hh Hk Hn Hd] Hlo Hlen Hsub Hch Hhd.
  assert (∀ o a, (o ≤ MAX_ORDER)%nat → a ∈ ls' o → a ∈ ls o) as Hin.
  { intros o a Ho Ha. eapply elem_of_sublist; eauto. }
  split; auto.
  - destruct Hlo as (? & ? & ->). done.
  - intros o a Ho Ha. destruct (Hhd o a Ho Ha) as [-> ->]. auto.
  - intros o a Ho Ha. rewrite (lists_only_blk _ _ _ _ Hlo). auto.
  - intros o Ho. eapply sublist_NoDup; eauto.
Qed.

Lemma sublist_remove {A} (l1 l2 : list A) t : (l1 ++ l2) `sublist_of` (l1 ++ t :: l2).
Proof. apply sublist_app; [done|]. by apply sublist_cons. Qed.

Lemma upd_sublist (ls : nat → list Z) o l :
  l `sublist_of` ls o → ∀ o', <[o := l]> ls o' `sublist_of` ls o'.
Proof.
  intros Hl o'. destruct (decide (o = o')) as [->|].
  - by rewrite fn_lookup_insert.
  - by rewrite fn_lookup_insert_ne.
Qed.

(** The headers a cell write followed by clearing [t]'s magic leaves alone. *)
Lemma remove_hdr s c v t x :
  x ≠ t →
  b_magic (hdr (set_magic t 0 (cell_set c v s)) x) = b_magic (hdr s x) ∧
  b_order (hdr (set_magic t 0 (cell_set c v s)) x) = b_order (hdr s x).
Proof.
  intros Hne. unfold set_magic, set_hdr, hdr. cbn [mem set_mem].
  rewrite !getd_insert_ne by done.
  destruct c as [o'|a]; simpl; [done|].
  rewrite getd_insert. case_decide; subst; done.
Qed.

Lemma remove_next s c v t x :
  c ≠ CNext x → b_next (hdr (set_magic t 0 (cell_set c v s)) x) = b_next (hdr s x).
Proof.
  intros Hne. unfold set_magic, set_hdr, hdr. cbn [mem set_mem].
  assert (b_next (getd block0 (mem (cell_set c v s)) x) = b_next (getd block0 (mem s) x)) as Heq.
  { destruct c as [o'|a]; simpl; [done|]. rewrite getd_insert_ne; [done|congruence]. }
  rewrite getd_insert. case_decide; subst; done.
Qed.

Lemma lists_only_remove s c v t : lists_only s (set_magic t 0 (cell_set c v s)).
Proof.
  exists (free_lists (al (cell_set c v s))), (mem (set_magic t 0 (cell_set c v s))).
  destruct s as [[]], c; reflexivity.
Qed.

Lemma remove_chain s ls o l1 t l2 :
  fl_wf s ls → (o ≤ MAX_ORDER)%nat → ls o = l1 ++ t :: l2 →
  let s' := set_magic t 0 (cell_set (last_cell (CHead o) l1) (b_next (hdr s t)) s) in
  chain (mem s') (free_lists (al s') !!! o) (l1 ++ l2).
Proof.
  intros Hwf Ho Hls s'.
  pose proof (wf_chain _ _ Hwf o Ho) as Hch. pose proof (wf_nodup _ _ Hwf o Ho) as Hnd.
  rewrite Hls in Hch, Hnd.
  destruct l1 as [|a l1 _] using rev_ind.
  - assert (free_lists (al s') !!! o = b_next (hdr s t)) as ->.
    { simpl. apply list_lookup_total_insert_eq. rewrite (wf_len _ _ Hwf). lia. }
    eapply (chain_ext (mem s)); [|by eapply chain_drop_head].
    intros x _. apply (remove_next s (CHead o)). done.
  - unfold s', last_cell. rewrite last_snoc. rewrite <- app_assoc in *. simpl in Hch, Hnd |- *.
    eapply (chain_ext (<[a := mkBlock (b_magic (hdr s a)) (b_order (hdr s a)) (b_next (hdr s t))]> (mem s))).
    + intros x _. unfold hdr. simpl. rewrite !getd_insert.
      repeat case_decide; subst; done.
    + eapply chain_splice; eauto.
Qed.

Lemma remove_from_list_wf s ls o t l1 l2 :
  fl_wf s ls → (o ≤ MAX_ORDER)%nat → ls o = l1 ++ t :: l2 →
  ∃ s', remove_from_list o t s = Done s' ∧ lists_only s s' ∧
        fl_wf s' (<[o := l1 ++ l2]> ls) ∧ (∀ x, x ∉ ls o → hdr s' x = hdr s x).
Proof.
  intros Hwf Ho Hls.
  pose proof (wf_nodup _ _ Hwf o Ho) as Hnd. rewrite Hls in Hnd.
  apply list.NoDup_app in Hnd as (_ & Hd1 & Hnd2). apply list.NoDup_cons in Hnd2 as [Hd2 _].
  assert (t ∉ l1) as Hd1' by (intros ?; eapply Hd1; [done|set_solver]).
  eexists. split_and!; [| | |].
  - unfold remove_from_list. rewrite (wf_head _ _ _ Hwf Ho). cbn [cbind].
    apply remove_loop_spec with l2; [|done|].
    + simpl. rewrite <- Hls. by apply wf_chain.
    + pose proof (wf_length _ _ _ Hwf Ho) as Hlen. rewrite Hls, length_app in Hlen.
      simpl in Hlen. lia.
  - apply lists_only_remove.
  - assert (∀ o' x, (o' ≤ MAX_ORDER)%nat → x ∈ <[o:=l1 ++ l2]> ls o' → x ≠ t) as Hnt.
    { intros o' x Ho' Hx ->. destruct (decide (o' = o)) as [->|].
      - rewrite fn_lookup_insert in Hx. set_solver.
      - rewrite fn_lookup_insert_ne in Hx by done.
        apply n. eapply wf_same_addr; eauto. rewrite Hls. set_solver. }
    eapply fl_wf_sub; [done|apply lists_only_remove| | | |].
    + destruct (last_cell (CHead o) l1); simpl; [rewrite length_insert|]; by apply wf_len in Hwf.
    + intros o' _. apply upd_sublist. rewrite Hls. apply sublist_remove.
    + intros o' Ho'. destruct (decide (o = o')) as [->|Hne].
      * rewrite fn_lookup_insert. by apply remove_chain with ls.
      * rewrite fn_lookup_insert_ne by done.
        assert (∀ x, x ∈ ls o' → last_cell (CHead o) l1 ≠ CNext x) as Hc.
        { intros x Hx. unfold last_cell. destruct (last l1) as [a|] eqn:Hl; [|done].
          intros [= ->]. apply Hne. eapply wf_same_addr; eauto.
          rewrite Hls. apply last_Some in Hl as [? ->]. set_solver. }
        eapply (chain_ext (mem s)); [intros x Hx; by apply (remove_next s), Hc|].
        assert (free_lists (al (cell_set (last_cell (CHead o) l1) (b_next (hdr s t)) s)) !!! o' =
                free_lists (al s) !!! o') as Heq.
        { unfold last_cell. destruct (last l1); simpl; [done|].
          by rewrite list_lookup_total_insert_ne. }
        change (chain (mem s) (free_lists (al (cell_set (last_cell (CHead o) l1)
                  (b_next (hdr s t)) s)) !!! o') (ls o')).
        rewrite Heq. by apply wf_chain.
    + intros o' x Ho' Hx. apply remove_hdr. eauto.
  - intros x Hx. rewrite Hls in Hx. unfold hdr. simpl.
    rewrite getd_insert_ne by set_solver.
    unfold last_cell. destruct (last l1) as [a|] eqn:Hl; simpl; [|done].
    rewrite getd_insert_ne; [done|]. apply last_Some in Hl as [? ->]. set_solver.
Qed.

Lemma free_at_head ls o a : (o ≤ MAX_ORDER)%nat → a ∈ ls o → free_at ls a.
Proof.
  intros Ho Ha. exists o, a. pose proof (block_size_bound o Ho).
  unfold in_blk, PAGE_SIZE in *. split_and!; try done; lia.
Qed.

Lemma remove_free_at ls o t l1 l2 p :
  (o ≤ MAX_ORDER)%nat → ls o = l1 ++ t :: l2 →
  free_at ls p ↔ in_blk t o p ∨ free_at (<[o := l1 ++ l2]> ls) p.
Proof.
  intros Ho Hls. unfold free_at. split.
  - intros (o' & x & Ho' & Hx & Hp). destruct (decide (o = o')) as [<-|].
    + rewrite Hls in Hx.
      destruct (decide (x = t)) as [->|]; [by left|].
      right. exists o, x. rewrite fn_lookup_insert. set_solver.
    + right. exists o', x. by rewrite fn_lookup_insert_ne.
  - intros [Hp|(o' & x & Ho' & Hx & Hp)].
    + exists o, t. rewrite Hls. set_solver.
    + exists o', x. split_and!; [done| |done]. destruct (decide (o = o')) as [<-|].
      * rewrite fn_lookup_insert in Hx. rewrite Hls. set_solver.
      * by rewrite fn_lookup_insert_ne in Hx by done.
Qed.

(** Writing a header that is on no list: a client scribbling on a page it
    owns, or [alloc] clearing the header of the block it takes. *)
Lemma set_hdr_wf s ls t b :
  fl_wf s ls → (∀ o, (o ≤ MAX_ORDER)%nat → t ∉ ls o) → fl_wf (set_hdr t b s) ls.
Proof.
  intros Hwf Hni. eapply fl_wf_sub; [done| | | | |].
  - exists (free_lists (al s)), (<[t := b]> (mem s)). destruct s as [[]]. reflexivity.
  - by apply wf_len in Hwf.
  - done.
  - intros o Ho. apply chain_insert; [auto|]. exact (wf_chain _ _ Hwf o Ho).
  - intros o x Ho Hx. unfold hdr. simpl. rewrite getd_insert_ne; [done|].
    intros ->. by apply (Hni o).
Qed.

(** [alloc] unlinks the head of a list by storing its [next] in the head. *)
Lemma pop_head_wf s ls o t l :
  fl_wf s ls → (o ≤ MAX_ORDER)%nat → ls o = t :: l →
  fl_wf (set_lists (<[o := b_next (hdr s t)]> (free_lists (al s))) s) (<[o := l]> ls) ∧
  (∀ o', (o' ≤ MAX_ORDER)%nat → t ∉ <[o := l]> ls o').
Proof.
  intros Hwf Ho Hls.
  pose proof (wf_nodup _ _ Hwf o Ho) as Hnd. rewrite Hls in Hnd.
  apply list.NoDup_cons in Hnd as [Hni _].
  assert (∀ o', (o' ≤ MAX_ORDER)%nat → t ∉ <[o:=l]> ls o') as Hnt.
  { intros o' Ho' Hx. destruct (decide (o' = o)) as [->|].
    - rewrite fn_lookup_insert in Hx. done.
    - rewrite fn_lookup_insert_ne in Hx by done.
      apply n. eapply wf_same_addr; eauto. rewrite Hls. set_solver. }
  split; [|done].
  eapply fl_wf_sub; [done| | | | |done].
  - exists (<[o := b_next (hdr s t)]> (free_lists (al s))), (mem s). destruct s as [[]]. reflexivity.
  - simpl. rewrite length_insert. by apply wf_len in Hwf.
  - intros o' _. apply upd_sublist. rewrite Hls. by apply sublist_cons.
  - intros o' Ho'. simpl. destruct (decide (o = o')) as [<-|].
    + rewrite fn_lookup_insert, list_lookup_total_insert_eq by (rewrite (wf_len _ _ Hwf); lia).
      pose proof (wf_chain _ _ Hwf o Ho) as Hch. rewrite Hls in Hch. by apply chain_drop_head in Hch.
    + rewrite fn_lookup_insert_ne, list_lookup_total_insert_ne by done. by apply wf_chain.
Qed.

(** A list head is null exactly when the list is empty. *)
Lemma wf_head_cases s ls o :
  fl_wf s ls → (o ≤ MAX_ORDER)%nat →
  (free_lists (al s) !!! o = 0 ∧ ls o = []) ∨
  (free_lists (al s) !!! o ≠ 0 ∧ ∃ l, ls o = free_lists (al s) !!! o :: l).
Proof.
  intros Hwf Ho. pose proof (wf_chain _ _ Hwf o Ho) as Hch.
  destruct (ls o) as [|a l]; simpl in Hch; [by left|].
  right. destruct Hch as (-> & ? & _). eauto.
Qed.
