(* ===== verification/BuddyOps.v ===== *)
(** * The buddy allocator: splitting and coalescing

    What [free_one] (coalesce, then push) and [alloc] (pop, then split) do to
    the free lists, in terms of the invariant [fl_wf] and of the set of free
    bytes [free_at]. *)

From S2P Require Import Prelude Buddy BuddyInv.
From stdpp Require Import base gmap numbers functions list.
Local Open Scope Z_scope.

(** ** The buddy of a block *)

Lemma buddy_cases cur o :
  (o < MAX_ORDER)%nat → (block_size o | cur) →
  (Z.lxor cur (block_size o) = cur + block_size o ∧ (block_size (S o) | cur)) ∨
  (Z.lxor cur (block_size o) = cur - block_size o ∧ (block_size (S o) | cur - block_size o)).
Proof.
  intros Ho [q ->]. rewrite block_size_S by lia. rewrite block_size_pow by lia.
  rewrite lxor_aligned, lxor_1 by lia.
  destruct (Z.even q) eqn:He.
  - left. apply Z.even_spec in He as [k ->]. split; [lia|]. exists k. lia.
  - right. assert (Z.odd q = true) as Hod by (rewrite <- Z.negb_even, He; done).
    apply Z.odd_spec in Hod as [k ->]. split; [lia|]. exists k. lia.
Qed.

Lemma lxor_invol a b : Z.lxor (Z.lxor a b) b = a.
Proof. by rewrite Z.lxor_assoc, Z.lxor_nilpotent, Z.lxor_0_r. Qed.

(** Two buddies make the block of the next order. *)
Lemma buddy_join s cur o :
  (o < MAX_ORDER)%nat → blk_ok s cur o → blk_ok s (Z.lxor cur (block_size o)) o →
  let b := Z.lxor cur (block_size o) in
  let c := if cur <? b then cur else b in
  blk_ok s c (S o) ∧ ∀ p, in_blk c (S o) p ↔ in_blk cur o p ∨ in_blk b o p.
Proof.
  intros Ho (? & ? & ? & Hd) (_ & ? & ? & _) b c.
  pose proof (block_size_bound o ltac:(lia)). pose proof (block_size_S o Ho) as HS.
  unfold in_blk, blk_ok, PAGE_SIZE in *.
  destruct (buddy_cases cur o Ho Hd) as [[Hb ?]|[Hb ?]]; unfold c, b in *; rewrite Hb in *.
  - destruct (Z.ltb_spec cur (cur + block_size o)); [|lia].
    split; [split_and!; try done; lia|]. intros p. lia.
  - destruct (Z.ltb_spec cur (cur - block_size o)); [lia|].
    split; [split_and!; try done; lia|]. intros p. lia.
Qed.

(** No two buddies of one order are both on the list: every pair that can be
    merged has been. *)
Definition coalesced (ls : nat → list Z) : Prop :=
  ∀ o a, (o < MAX_ORDER)%nat → a ∈ ls o → Z.lxor a (block_size o) ∉ ls o.

Lemma coalesced_sub ls ls' :
  (∀ o, ls' o `sublist_of` ls o) → coalesced ls → coalesced ls'.
Proof.
  intros Hsub Hc o a Ho Ha Hb.
  apply (Hc o a Ho); eapply elem_of_sublist; [exact Ha|apply Hsub|exact Hb|apply Hsub].
Qed.

Lemma coalesced_push ls a o :
  ((o < MAX_ORDER)%nat → Z.lxor a (block_size o) ∉ ls o ∧ block_size o ≠ 0) →
  coalesced ls → coalesced (<[o := a :: ls o]> ls).
Proof.
  intros Hout Hc o' x Ho' Hx Hb. destruct (decide (o = o')) as [<-|].
  - rewrite fn_lookup_insert in *. destruct (Hout Ho') as [Hni Hnz].
    apply elem_of_cons in Hx as [->|Hx]; apply elem_of_cons in Hb as [Hb|Hb].
    + apply Hnz. rewrite <- (Z.lxor_0_l (block_size o)), <- (Z.lxor_nilpotent a).
      by rewrite Z.lxor_assoc, Hb.
    + done.
    + apply Hni. by rewrite <- Hb, lxor_invol.
    + by apply (Hc o x).
  - rewrite fn_lookup_insert_ne in Hx, Hb by done. by apply (Hc o' x).
Qed.

Lemma block_size_nz o : (o ≤ MAX_ORDER)%nat → block_size o ≠ 0.
Proof. intros Ho. pose proof (block_size_bound o Ho). unfold PAGE_SIZE in *. lia. Qed.

Lemma free_at_sub ls ls' p :
  (∀ k, ls' k `sublist_of` ls k) → free_at ls' p → free_at ls p.
Proof.
  intros Hsub (o & a & Ho & Ha & Hp). exists o, a.
  split_and!; [done| |done]. by eapply elem_of_sublist.
Qed.

(** ** Coalescing *)

(** What the merge loop promises: the block it ends with and the shrunken
    lists cover what the block it started with and the old lists covered. *)
Definition merged (s : kmem) (ls : nat → list Z) (cur : Z) (o : nat)
    (cur' : Z) (o' : nat) (s' : kmem) (ls' : nat → list Z) : Prop :=
  lists_only s s' ∧ fl_wf s' ls' ∧ blk_ok s cur' o' ∧ blk_out ls' cur' o' ∧
  (∀ k, ls' k `sublist_of` ls k) ∧
  ((o' < MAX_ORDER)%nat → Z.lxor cur' (block_size o') ∉ ls' o') ∧
  (∀ x, ¬ free_at ls x → hdr s' x = hdr s x) ∧
  (∀ p, in_blk cur' o' p ∨ free_at ls' p ↔ in_blk cur o p ∨ free_at ls p).

Lemma merge_stop s ls cur o :
  fl_wf s ls → blk_ok s cur o → blk_out ls cur o →
  ((o < MAX_ORDER)%nat → Z.lxor cur (block_size o) ∉ ls o) →
  merged s ls cur o cur o s ls.
Proof. intros. split_and!; try done. Qed.

Lemma merge_step s ls cur o :
  fl_wf s ls → blk_ok s cur o → blk_out ls cur o → (o < MAX_ORDER)%nat →
  let b := Z.lxor cur (block_size o) in
  let c := if cur <? b then cur else b in
  b ∈ ls o →
  ∃ s1 ls1, remove_from_list o b s = Done s1 ∧ lists_only s s1 ∧ fl_wf s1 ls1 ∧
    blk_ok s1 c (S o) ∧ blk_out ls1 c (S o) ∧ (∀ k, ls1 k `sublist_of` ls k) ∧
    (∀ x, ¬ free_at ls x → hdr s1 x = hdr s x) ∧
    (∀ p, in_blk c (S o) p ∨ free_at ls1 p ↔ in_blk cur o p ∨ free_at ls p).
Proof.
  intros Hwf Hok Hout Ho b c Hb.
  pose proof (wf_blk _ _ Hwf o b ltac:(lia) Hb) as Hbok.
  apply list_elem_of_split in Hb as (l1 & l2 & Hls).
  destruct (remove_from_list_wf s ls o b l1 l2 Hwf ltac:(lia) Hls) as (s1 & Hrm & Hlo & Hwf1 & Hfr).
  destruct (buddy_join s cur o Ho Hok Hbok) as [Hcok Hcin].
  exists s1, (<[o := l1 ++ l2]> ls).
  assert (∀ k, <[o:=l1 ++ l2]> ls k `sublist_of` ls k) as Hsub.
  { apply upd_sublist. rewrite Hls. apply sublist_remove. }
  split_and!; [done|done|done| | |done| |].
  - by rewrite (lists_only_blk _ _ _ _ Hlo).
  - intros o' a' Ho' Ha'.
    assert (a' ∈ ls o') as Ha by (eapply elem_of_sublist; eauto).
    pose proof (Hout _ _ Ho' Ha) as H1.
    assert (disj b o a' o') as H2.
    { apply (wf_disj _ _ Hwf); [lia|done|rewrite Hls; set_solver|done|].
      intros [= <- <-]. rewrite fn_lookup_insert in Ha'.
      pose proof (wf_nodup _ _ Hwf o ltac:(lia)) as Hnd. rewrite Hls in Hnd.
      apply list.NoDup_app in Hnd as (_ & Hd1 & Hnd). apply list.NoDup_cons in Hnd as [Hd2 _].
      apply elem_of_app in Ha' as [Ha'|Ha']; [|done]. eapply Hd1; [done|set_solver]. }
    pose proof (block_size_S o Ho). pose proof (block_size_bound o ltac:(lia)).
    pose proof (block_size_bound o' Ho').
    destruct Hok as (_ & _ & _ & Hdv).
    unfold disj, PAGE_SIZE in *.
    destruct (buddy_cases cur o Ho Hdv) as [[Hbe _]|[Hbe _]]; unfold c, b in *; rewrite Hbe in *.
    + destruct (Z.ltb_spec cur (cur + block_size o)); lia.
    + destruct (Z.ltb_spec cur (cur - block_size o)); lia.
  - intros x Hx. apply Hfr. intros Hin. apply Hx. by eapply free_at_head; [|done]; lia.
  - intros p. rewrite (remove_free_at ls o b l1 l2 p) by (lia || done).
    specialize (Hcin p). fold b in Hcin. fold c in Hcin. tauto.
Qed.

Lemma merge_loop_spec n cur o s ls :
  n = (MAX_ORDER - o)%nat → fl_wf s ls → blk_ok s cur o → blk_out ls cur o →
  ∃ cur' o' s' ls', merge_loop n cur o s = Done (cur', o', s') ∧
    merged s ls cur o cur' o' s' ls'.
Proof.
  revert cur o s ls. induction n as [|n IH]; intros cur o s ls Hn Hwf Hok Hout.
  { eexists _, _, _, _. split; [done|]. apply merge_stop; auto. lia. }
  assert (o < MAX_ORDER)%nat as Ho by lia.
  cbn [merge_loop]. set (b := Z.lxor cur (block_size o)).
  destruct (decide (b ∈ ls o)) as [Hb|Hnb].
  - pose proof (wf_blk _ _ Hwf o b ltac:(lia) Hb) as Hbok.
    destruct (wf_hdr _ _ Hwf o b ltac:(lia) Hb) as [Hmg Hod].
    rewrite (blk_managed s b o (wf_region _ _ Hwf) Hbok). cbn [negb].
    rewrite Hmg, Hod, !Z.eqb_refl. cbn [andb].
    rewrite (is_on_free_list_spec _ _ _ _ Hwf) by lia.
    rewrite bool_decide_true by done. cbn [cbind].
    destruct (merge_step s ls cur o Hwf Hok Hout Ho Hb)
      as (s1 & ls1 & Hrm & Hlo & Hwf1 & Hok1 & Hout1 & Hsub & Hfr & Hcov).
    fold b in Hrm. rewrite Hrm. cbn [cbind].
    destruct (IH _ (S o) s1 ls1 ltac:(lia) Hwf1 Hok1 Hout1)
      as (cur' & o' & s' & ls' & Hrun & (Hlo' & Hwf' & Hok' & Hout' & Hsub' & Hmax & Hfr' & Hcov')).
    exists cur', o', s', ls'. split; [done|]. split_and!; try done.
    + by etrans.
    + by rewrite <- (lists_only_blk _ _ _ _ Hlo).
    + intros k. etrans; [apply Hsub'|apply Hsub].
    + intros x Hx. rewrite Hfr', Hfr; [done|done|].
      intros Hx'. apply Hx. by apply (free_at_sub ls ls1).
    + intros p. by rewrite Hcov', Hcov.
  - exists cur, o, s, ls. split; [|by apply merge_stop].
    destruct (negb (is_managed s b)); [done|].
    destruct ((b_magic (hdr s b) =? MAGIC) && _); [|done].
    rewrite (is_on_free_list_spec _ _ _ _ Hwf) by lia.
    by rewrite bool_decide_false.
Qed.

(** ** [free_one] *)

Lemma push_hdr_out a o o' s x :
  (o' ≤ MAX_ORDER)%nat → ¬ in_blk a o' x → hdr (push_block a o s) x = hdr s x.
Proof.
  intros Ho Hx. unfold hdr. simpl. rewrite getd_insert_ne; [done|].
  intros ->. apply Hx. pose proof (block_size_bound o' Ho). unfold in_blk, PAGE_SIZE in *. lia.
Qed.

Lemma free_one_spec addr order s ls :
  fl_wf s ls → blk_ok s addr order → blk_out ls addr order →
  ∃ s' ls', free_one addr order s = Done s' ∧ lists_only s s' ∧ fl_wf s' ls' ∧
    (∀ p, free_at ls' p ↔ in_blk addr order p ∨ free_at ls p) ∧
    (∀ x, ¬ in_blk addr order x → ¬ free_at ls x → hdr s' x = hdr s x) ∧
    ((order =? 0)%nat && (page_type_get s addr =? PAGE_TYPE_PTE) = false →
     coalesced ls → coalesced ls').
Proof.
  intros Hwf Hok Hout. unfold free_one.
  rewrite (blk_managed s addr order (wf_region _ _ Hwf) Hok). cbn [negb].
  destruct ((order =? 0)%nat && (page_type_get s addr =? PAGE_TYPE_PTE)) eqn:Hpte.
  - bool_to_prop. subst order.
    exists (push_block addr 0 s), (<[0%nat := addr :: ls 0%nat]> ls). split_and!; [done| | | | |done].
    + apply lists_only_push.
    + by apply push_block_wf.
    + intros p. by rewrite push_block_free_at by lia.
    + intros x Hx _. by apply push_hdr_out with 0%nat; [lia|].
  - destruct (merge_loop_spec _ addr order s ls eq_refl Hwf Hok Hout)
      as (cur & o & s1 & ls1 & -> & (Hlo & Hwf1 & Hok1 & Hout1 & Hsub & Hmax & Hfr & Hcov)).
    cbn [cbind]. pose proof Hok1 as (Ho & _).
    rewrite (is_on_free_list_spec _ _ _ _ Hwf1) by done.
    rewrite bool_decide_false by (by eapply blk_out_not_in). cbn [cbind].
    exists (push_block cur o s1), (<[o := cur :: ls1 o]> ls1). split_and!; [done| | | | |].
    + etrans; [done|]. apply lists_only_push.
    + apply push_block_wf; [done| |done]. by rewrite (lists_only_blk _ _ _ _ Hlo).
    + intros p. rewrite push_block_free_at by done. apply Hcov.
    + intros x Hx Hnf. rewrite <- Hfr by done. apply push_hdr_out with o; [done|].
      intros Hin. destruct (Hcov x) as [[|] _]; [by left|done|done].
    + intros _ Hc. apply coalesced_push.
      * intros. split; [auto|by apply block_size_nz].
      * by eapply coalesced_sub.
Qed.

(** ** Splitting *)

Definition no_reserved (s : kmem) : Prop := ∀ a, is_reserved s a = false.

Lemma is_reserved_lists_only s s' a :
  lists_only s s' → is_reserved s' a = is_reserved s a.
Proof. intros (fl & m & ->). done. Qed.

Lemma blk_out_sub ls ls' a o :
  (∀ k, ls' k `sublist_of` ls k) → blk_out ls a o → blk_out ls' a o.
Proof. intros Hsub Hout o' a' Ho' Ha'. apply Hout; [done|]. by eapply elem_of_sublist. Qed.

Lemma blk_half s a o :
  (o < MAX_ORDER)%nat → blk_ok s a (S o) →
  blk_ok s a o ∧ blk_ok s (a + block_size o) o ∧ Z.lxor (a + block_size o) (block_size o) = a.
Proof.
  intros Ho (? & ? & ? & Hd). pose proof (block_size_S o Ho) as HS.
  pose proof (block_size_bound o ltac:(lia)).
  assert (block_size o | a) as Ha.
  { etrans; [apply (block_size_divide o (S o)); lia|done]. }
  assert (block_size o | a + block_size o) as Hab by (apply Z.divide_add_r; [done|apply Z.divide_refl]).
  unfold blk_ok, PAGE_SIZE in *.
  split_and!; try done; try lia.
  destruct (buddy_cases a o Ho Ha) as [[Hx _]|[Hx Hd2]].
  - by rewrite <- Hx, lxor_invol.
  - exfalso. destruct Hd as [x Hx1], Hd2 as [y Hy1]. rewrite HS in *.
    assert (block_size o * (2 * (x - y) - 1) = 0) as [|]%Z.mul_eq_0 by lia; lia.
Qed.

(** What is left of a block's neighbourhood after splitting it: the lists gain
    blocks inside [addr + size(order), addr + size(order + n)) only, and gain
    all of it when nothing is reserved. *)
Lemma split_loop_spec n order addr s ls :
  (order + n ≤ MAX_ORDER)%nat → fl_wf s ls →
  blk_ok s addr (order + n) → blk_out ls addr (order + n) →
  ∃ ls', let s' := split_loop n order addr s in
    lists_only s s' ∧ fl_wf s' ls' ∧ blk_out ls' addr order ∧
    (∀ p, free_at ls p → free_at ls' p) ∧
    (∀ p, free_at ls' p → free_at ls p ∨
       addr + block_size order ≤ p < addr + block_size (order + n)) ∧
    (no_reserved s → ∀ p, addr + block_size order ≤ p < addr + block_size (order + n) →
       free_at ls' p) ∧
    (∀ x, ¬ in_blk addr (order + n) x → hdr s' x = hdr s x) ∧
    (coalesced ls → coalesced ls').
Proof.
  revert s ls. induction n as [|n IH]; intros s ls Hle Hwf Hok Hout; cbn [split_loop].
  { rewrite Nat.add_0_r in *. exists ls. split_and!; try done; auto; intros; lia. }
  set (so := (order + n)%nat).
  replace (order + S n)%nat with (S so) in * by lia.
  assert (so < MAX_ORDER)%nat as Hso by lia.
  destruct (blk_half s addr so Hso Hok) as (Hlo & Hhi & Hx).
  pose proof (block_size_S so Hso) as HS. pose proof (block_size_bound so ltac:(lia)) as Hbs.
  pose proof (block_size_mono order so ltac:(lia)) as Hmono.
  pose proof (blk_bound _ _ _ (wf_region _ _ Hwf) Hok) as Hbd. unfold PAGE_SIZE in *.
  rewrite w64_small by lia.
  assert (blk_out ls addr so) as Hout0.
  { intros o' a' Ho' Ha'. specialize (Hout _ _ Ho' Ha'). unfold disj in *. lia. }
  destruct (is_reserved s (addr + block_size so)) eqn:Hres.
  - destruct (IH s ls ltac:(lia) Hwf Hlo Hout0) as (ls' & ? & ? & ? & ? & Hsub & Hfull & Hfr & ?).
    exists ls'. split_and!; try done.
    + intros p Hp. destruct (Hsub p Hp) as [|]; [by left|right; unfold so in *; lia].
    + intros Hnr. rewrite Hnr in Hres. done.
    + intros x Hxo. apply Hfr. unfold in_blk, so in *. lia.
  - assert (blk_out ls (addr + block_size so) so) as Hout1.
    { intros o' a' Ho' Ha'. specialize (Hout _ _ Ho' Ha'). unfold disj in *. lia. }
    set (s1 := push_block (addr + block_size so) so s).
    set (ls1 := <[so := (addr + block_size so) :: ls so]> ls).
    assert (fl_wf s1 ls1) as Hwf1 by by apply push_block_wf.
    assert (blk_out ls1 addr so) as Hout2.
    { intros o' a' Ho' Ha'. unfold ls1 in Ha'. destruct (decide (so = o')) as [<-|].
      - rewrite fn_lookup_insert in Ha'. apply elem_of_cons in Ha' as [->|Ha'].
        + unfold disj. lia.
        + by apply Hout0.
      - rewrite fn_lookup_insert_ne in Ha' by done. by apply Hout0. }
    destruct (IH s1 ls1 ltac:(lia) Hwf1 Hlo Hout2)
      as (ls' & Hlo1 & Hwf' & Hout' & Hinc & Hsub & Hfull & Hfr & Hco).
    exists ls'. split_and!; try done.
    + intros p Hp. apply Hinc, push_block_free_at; [lia|by right].
    + intros p Hp. destruct (Hsub p Hp) as [Hp1|]; [|unfold so in *; right; lia].
      apply push_block_free_at in Hp1 as [Hp1|]; [|by left|lia]. unfold in_blk in Hp1. right. lia.
    + intros Hnr p Hp. destruct (decide (p < addr + block_size so)) as [|Hge].
      * apply Hfull; [|unfold so in *; lia]. intros a. unfold s1.
        rewrite (is_reserved_lists_only s); [apply Hnr|apply lists_only_push].
      * apply Hinc, push_block_free_at; [lia|left]. unfold in_blk. lia.
    + intros x Hxo. unfold in_blk, so in *. rewrite Hfr by lia.
      apply push_hdr_out with (order + n)%nat; [lia|]. unfold in_blk. lia.
    + intros Hc. apply Hco, coalesced_push; [|done].
      intros _. split; [|lia]. rewrite Hx.
      apply (blk_out_not_in ls addr so); [lia|done|lia].
Qed.

(** ** The tables [alloc] writes *)

(** Everything but the lists, the headers and the three per-page tables. *)
Definition rest (s : kmem) :=
  (base (al s), pages (al s), reserved (al s), reserved_count (al s), pte_refcs s,
   owned_by s, quar s, (audit_counter s, audit_active s, df_last s, ticks s)).

Lemma rest_lists_only s s' : lists_only s s' → rest s' = rest s.
Proof. intros (fl & m & ->). done. Qed.

Definition tables (s : kmem) := (used_bmp s, freed_bmp s, page_types s).

Lemma tables_lists_only s s' : lists_only s s' → tables s' = tables s.
Proof. intros (fl & m & ->). done. Qed.

(** The per-page tables as functions of the table alone. *)
Definition umark (i : Z) (m : gmap Z Z) : gmap Z Z :=
  if USED_BMP_WORDS <=? Z.shiftr i 6 then m
  else <[Z.shiftr i 6 := Z.lor (getd 0 m (Z.shiftr i 6)) (Z.shiftl 1 (Z.land i 63))]> m.

Definition uclear (i : Z) (m : gmap Z Z) : gmap Z Z :=
  if USED_BMP_WORDS <=? Z.shiftr i 6 then m
  else <[Z.shiftr i 6 := Z.ldiff (getd 0 m (Z.shiftr i 6)) (Z.shiftl 1 (Z.land i 63))]> m.

Definition fclear (i : Z) (m : gmap Z Z) : gmap Z Z :=
  if 2 ^ 21 <=? i then m
  else <[Z.shiftr i 6 := Z.ldiff (getd 0 m (Z.shiftr i 6)) (Z.shiftl 1 (Z.land i 63))]> m.

Definition tset (i t : Z) (m : gmap Z Z) : gmap Z Z :=
  if i <? MAX_REFC_PAGES then <[i := t]> m else m.

Lemma used_mark_eq i s : used_mark i s = set_used (umark i (used_bmp s)) s.
Proof. unfold used_mark, umark, used_word. case_ifs; destruct s; reflexivity. Qed.

Lemma used_clear_eq i s : used_clear i s = set_used (uclear i (used_bmp s)) s.
Proof. unfold used_clear, uclear, used_word. case_ifs; destruct s; reflexivity. Qed.

Lemma untrack_eq a s :
  untrack_freed_page a s = set_freed (fclear (phys_to_idx s a) (freed_bmp s)) s.
Proof. unfold untrack_freed_page, fclear, freed_bit. case_ifs; destruct s; reflexivity. Qed.

Lemma page_type_set_eq a t s :
  page_type_set a t s = set_types (tset (phys_to_idx s a) t (page_types s)) s.
Proof. unfold page_type_set, tset. case_ifs; destruct s; reflexivity. Qed.

(** Two states that agree on the base index pages the same way. *)
Lemma phys_to_idx_ext s s' a : base (al s') = base (al s) → phys_to_idx s' a = phys_to_idx s a.
Proof. unfold phys_to_idx. by intros ->. Qed.

(** ** [alloc] *)

(** What a successful allocation promises. *)
Definition alloc_post (order : nat) (s : kmem) (ls : nat → list Z) (a : Z)
    (s' : kmem) (ls' : nat → list Z) : Prop :=
  is_reserved s a = false ∧ blk_ok s a order ∧ blk_out ls' a order ∧
  (∀ p, in_blk a order p → free_at ls p) ∧
  (no_reserved s → ∀ p, free_at ls p → in_blk a order p ∨ free_at ls' p) ∧
  (∀ x, ¬ free_at ls x → hdr s' x = hdr s x) ∧
  tables s' = (umark (page_index s a) (used_bmp s), fclear (phys_to_idx s a) (freed_bmp s),
               tset (phys_to_idx s a) PAGE_TYPE_DATA (page_types s)).

(** What a failed one promises: a list head that was reserved may have been
    dropped, nothing else. *)
Definition alloc_fail (o : nat) (s : kmem) (ls : nat → list Z) (s' : kmem) : Prop :=
  tables s' = tables s ∧ (∀ x, hdr s' x = hdr s x) ∧
  (no_reserved s → s' = s ∧ ∀ k, (o ≤ k ≤ MAX_ORDER)%nat → ls k = []).

Lemma pop_reserved s ls o a l :
  fl_wf s ls → (o ≤ MAX_ORDER)%nat → ls o = a :: l →
  (∀ p, free_at (<[o := l]> ls) p → free_at ls p) ∧
  (coalesced ls → coalesced (<[o := l]> ls)).
Proof.
  intros Hwf Ho Hls.
  assert (∀ k, <[o:=l]> ls k `sublist_of` ls k) as Hsub.
  { apply upd_sublist. rewrite Hls. by apply sublist_cons. }
  split; [intros p; by apply free_at_sub|by apply coalesced_sub].
Qed.

(** Taking the head [a] of list [o] and splitting it down to [order]. *)
Definition take_block (o order : nat) (a : Z) (s : kmem) : kmem :=
  let nx := b_next (hdr s a) in
  let s := set_hdr a block0 s in
  let s := used_mark (page_index s a) s in
  let s := untrack_freed_page a s in
  let s := set_lists (<[o := nx]> (free_lists (al s))) s in
  page_type_set a PAGE_TYPE_DATA (split_loop (o - order) order a s).

(** The state [take_block] hands to the split loop. *)
Definition detach (o : nat) (a : Z) (s : kmem) : kmem :=
  set_hdr a block0 (set_lists (<[o := b_next (hdr s a)]> (free_lists (al s))) s).

(** The three per-page tables commute with everything the lists do. *)
Definition with_tables (u f : gmap Z Z) (s : kmem) : kmem := set_freed f (set_used u s).

Lemma split_loop_tables n order a u f s :
  split_loop n order a (with_tables u f s) = with_tables u f (split_loop n order a s).
Proof.
  revert s. induction n as [|n IH]; intros s; [done|]. cbn [split_loop].
  change (is_reserved (with_tables u f s) (w64 (a + block_size (order + n))))
    with (is_reserved s (w64 (a + block_size (order + n)))).
  destruct (is_reserved _ _); [apply IH|].
  change (push_block ?x ?y (with_tables u f s)) with (with_tables u f (push_block x y s)).
  apply IH.
Qed.

Lemma take_block_eq o order a s :
  take_block o order a s =
    page_type_set a PAGE_TYPE_DATA
      (with_tables (umark (page_index s a) (used_bmp s)) (fclear (phys_to_idx s a) (freed_bmp s))
         (split_loop (o - order) order a (detach o a s))).
Proof.
  unfold take_block. cbv zeta. f_equal. rewrite <- split_loop_tables. f_equal.
  by rewrite used_mark_eq, untrack_eq.
Qed.

Lemma take_block_spec o order s ls a l :
  (order ≤ o ≤ MAX_ORDER)%nat → fl_wf s ls → ls o = a :: l → is_reserved s a = false →
  ∃ ls', fl_wf (take_block o order a s) ls' ∧ rest (take_block o order a s) = rest s ∧
    (∀ p, free_at ls' p → free_at ls p) ∧ (coalesced ls → coalesced ls') ∧
    alloc_post order s ls a (take_block o order a s) ls'.
Proof.
  intros Ho Hwf Hls Hres.
  assert (∃ k, k = (o - order)%nat ∧ o = (order + k)%nat) as (k & Hk & Hok') by (eexists; split; [done|lia]).
  assert (a ∈ ls o) as Hin by (rewrite Hls; set_solver).
  pose proof (wf_blk _ _ Hwf o a ltac:(lia) Hin) as Hok.
  destruct (pop_head_wf s ls o a l Hwf ltac:(lia) Hls) as [Hwf1 Hni].
  apply (set_hdr_wf _ _ a block0) in Hwf1; [|done].
  change (fl_wf (detach o a s) (<[o := l]> ls)) in Hwf1.
  assert (blk_out (<[o:=l]> ls) a o) as Hout.
  { intros o' a' Ho' Ha'.
    apply (wf_disj _ _ Hwf); [lia|done|done| |intros [= -> ->]; by apply (Hni o')].
    eapply elem_of_sublist; [done|]. apply upd_sublist. rewrite Hls. by apply sublist_cons. }
  rewrite Hok' in Hout at 2. pose proof Hok as Hok2. rewrite Hok' in Hok2.
  destruct (split_loop_spec k order a (detach o a s) (<[o := l]> ls)
              ltac:(lia) Hwf1 Hok2 Hout) as (ls' & Hlo & Hwf' & Hout' & Hinc & Hsub & Hfull & Hfr & Hco).
  rewrite <- Hok' in *.
  destruct (pop_reserved s ls o a l Hwf ltac:(lia) Hls) as [Hsub0 Hco0].
  pose proof (block_size_mono order o ltac:(lia)) as Hm.
  assert (∀ p, in_blk a o p → free_at ls p) as Hcov by (intros p Hp; exists o, a; split_and!; try done; lia).
  pose proof (block_size_bound order ltac:(lia)). unfold PAGE_SIZE in *.
  exists ls'. rewrite take_block_eq, <- Hk. cbv zeta in *.
  set (s2 := split_loop _ _ _ _) in *.
  rewrite page_type_set_eq. split_and!.
  - by eapply fl_wf_ext; [..|exact Hwf'].
  - exact (rest_lists_only _ _ Hlo).
  - intros p Hp. destruct (Hsub p Hp) as [|Hr]; [auto|]. apply Hcov. unfold in_blk. lia.
  - auto.
  - unfold alloc_post. split_and!; [done| |done| | | |].
    + destruct Hok as (? & ? & ? & ?). split_and!; [lia|done|lia|].
      etrans; [apply (block_size_divide order o); lia|done].
    + intros p Hp. apply Hcov. unfold in_blk in *. lia.
    + intros Hnr p Hp. apply (remove_free_at ls o a [] l) in Hp as [Hp|Hp]; [| |lia|done].
      * unfold in_blk in *. destruct (decide (p < a + block_size order)); [left; lia|right].
        apply Hfull; [done|lia].
      * right. by apply Hinc.
    + intros x Hx.
      assert (hdr s2 x = hdr s x) as Heq.
      { rewrite Hfr by (intros Hb; apply Hx; auto). unfold hdr, detach. simpl.
        apply getd_insert_ne. intros ->. apply Hx. eapply free_at_head; [|done]. lia. }
      exact Heq.
    + assert (tables s2 = tables s) as Ht by (rewrite (tables_lists_only _ _ Hlo); done).
      assert (rest s2 = rest s) as Hrs by (rewrite (rest_lists_only _ _ Hlo); done).
      injection Hrs as Hb _ _ _ _ _ _ _ _ _ _. injection Ht as _ _ Htt.
      unfold tables. simpl. rewrite Htt. f_equal. f_equal.
      exact (phys_to_idx_ext s s2 a Hb).
Qed.

Lemma alloc_scan_spec n o order steps s ls r s' :
  (o + n = S MAX_ORDER)%nat → (order ≤ o)%nat → 0 ≤ steps → steps + Z.of_nat n ≤ 1000 →
  fl_wf s ls → alloc_scan n o order steps s = (r, s') →
  ∃ ls', fl_wf s' ls' ∧ rest s' = rest s ∧ (∀ p, free_at ls' p → free_at ls p) ∧
    (coalesced ls → coalesced ls') ∧
    match r with
    | Some a => alloc_post order s ls a s' ls'
    | None => alloc_fail o s ls s'
    end.
Proof.
  revert o steps s ls. induction n as [|n IH]; intros o steps s ls Hon Hoo Hst Hsn Hwf Hrun.
  { injection Hrun as <- <-. exists ls. unfold alloc_fail.
    split_and!; try done. intros _. split; [done|]. lia. }
  cbn [alloc_scan] in Hrun.
  destruct (wf_head_cases s ls o Hwf ltac:(lia)) as [[Hz Hnil]|[Hnz [l Hls]]].
  - rewrite Hz in Hrun. cbn [Z.eqb] in Hrun.
    destruct (IH (S o) steps s ls ltac:(lia) ltac:(lia) ltac:(lia) ltac:(lia) Hwf Hrun)
      as (ls' & ? & ? & ? & ? & Hr). exists ls'. split_and!; try done.
    destruct r; [done|]. destruct Hr as (? & ? & Hnr). split_and!; [done|done|].
    intros Hn. destruct (Hnr Hn) as [? Hem]. split; [done|]. intros k ?.
    destruct (decide (k = o)) as [->|]; [done|]. apply Hem. lia.
  - apply Z.eqb_neq in Hnz. rewrite Hnz in Hrun.
    set (a := free_lists (al s) !!! o) in *.
    destruct (1000000 <? steps + 1) eqn:Hspin; [bool_to_prop; lia|].
    destruct (is_reserved s a) eqn:Hres.
    + destruct (pop_head_wf s ls o a l Hwf ltac:(lia) Hls) as [Hwf1 _].
      destruct (pop_reserved s ls o a l Hwf ltac:(lia) Hls) as [Hsub0 Hco0].
      destruct (negb (b_next (hdr s a) =? 0)).
      * destruct (IH (S o) (steps + 1) _ _ ltac:(lia) ltac:(lia) ltac:(lia) ltac:(lia) Hwf1 Hrun)
          as (ls' & ? & Hrest & ? & ? & Hr).
        exists ls'. split_and!; auto.
        destruct r as [a'|].
        { destruct Hr as (Hp1 & Hp2 & Hp3 & Hp4 & Hp5 & Hp6 & Hp7). unfold alloc_post.
          split_and!; [exact Hp1|exact Hp2|done|auto| |intros x Hx; apply Hp6; auto|exact Hp7].
          intros Hnr. rewrite Hnr in Hres. done. }
        destruct Hr as (? & ? & _). split_and!; [done|done|].
        intros Hnr. rewrite Hnr in Hres. done.
      * injection Hrun as <- <-. exists (<[o:=l]> ls). unfold alloc_fail. split_and!; try done.
        intros Hnr. rewrite Hnr in Hres. done.
    + injection Hrun as <- <-.
      apply take_block_spec with l; auto. lia.
Qed.
