(* ===== verification/BuddyTables.v ===== *)
(** * The per-page tables of the buddy allocator

    The used bitmap, the freed bitmap, the page types and the page-table
    reference counts are all indexed by the page number relative to the
    allocator base.  This file relates the two index computations of the
    source ([page_index] and [phys_to_idx]), and says what each table
    operation does to the entry of a page and that it leaves the entries of
    the other pages alone. *)

From S2P Require Import Prelude Buddy BuddyInv BuddyOps Ring.
From stdpp Require Import base gmap numbers functions list.
Local Open Scope Z_scope.

(** The tables cover 2^21 pages (8 GiB); [memory::init] manages at most 1 GiB. *)
Definition tables_cover (s : kmem) : Prop := pages (al s) ≤ MAX_REFC_PAGES.

Definition pidx (s : kmem) (a : Z) : Z := (a - base (al s)) / PAGE_SIZE.

Definition page_ok (s : kmem) (a : Z) : Prop := blk_ok s a 0.

Lemma blk_page s a o : blk_ok s a o → page_ok s a.
Proof.
  intros (Ho & ? & ? & Hd). pose proof (block_size_bound o Ho).
  unfold page_ok, blk_ok. rewrite block_size_0. split_and!; [lia|done|lia|].
  etrans; [|done]. rewrite <- block_size_0. apply block_size_divide. lia.
Qed.

Lemma pidx_bound s a : region_ok s → tables_cover s → page_ok s a → 0 ≤ pidx s a < 2 ^ 21.
Proof.
  unfold region_ok, tables_cover, page_ok, blk_ok, pidx, MAX_REFC_PAGES, PAGE_SIZE.
  rewrite block_size_0. unfold PAGE_SIZE. intros (? & ? & ? & ?) ? (? & ? & ? & ?). split.
  - apply Z.div_pos; lia.
  - apply Z.div_lt_upper_bound; lia.
Qed.

Lemma page_index_eq s a : region_ok s → page_ok s a → page_index s a = pidx s a.
Proof.
  intros Hr Hp. pose proof (blk_bound _ _ _ Hr Hp) as [Ha Hb]. rewrite block_size_0 in Hb.
  destruct Hr as (? & _). destruct Hp as (_ & ? & _).
  unfold page_index, pidx, PAGE_SIZE in *. by rewrite w64_small by lia.
Qed.

Lemma phys_to_idx_eq s a : page_ok s a → phys_to_idx s a = pidx s a.
Proof.
  intros (_ & ? & _). unfold phys_to_idx, pidx.
  destruct (Z.ltb_spec a (base (al s))); [lia|]. by rewrite Z.shiftr_div_pow2 by lia.
Qed.

Lemma pidx_inj s a b :
  region_ok s → page_ok s a → page_ok s b → pidx s a = pidx s b → a = b.
Proof.
  unfold region_ok, page_ok, blk_ok. rewrite block_size_0.
  intros (_ & [k Hk] & _) (_ & _ & _ & [x ->]) (_ & _ & _ & [y ->]).
  unfold pidx. rewrite Hk, <- !Z.mul_sub_distr_r, !Z.div_mul by done. lia.
Qed.

Lemma shiftr_6_bound i : 0 ≤ i < 2 ^ 21 → USED_BMP_WORDS <=? Z.shiftr i 6 = false.
Proof.
  intros. apply Z.leb_gt. unfold USED_BMP_WORDS. rewrite Z.shiftr_div_pow2 by lia.
  apply Z.div_lt_upper_bound; lia.
Qed.

(** ** The entries of one page *)

Section entries.
Context (s : kmem) (Hr : region_ok s) (Ht : tables_cover s).

Lemma used_set_eq a : page_ok s a →
  used_set s (page_index s a) = bmp_get (used_bmp s) (pidx s a).
Proof.
  intros Hp. rewrite page_index_eq by done. unfold used_set, used_word.
  rewrite shiftr_6_bound by (by apply pidx_bound). apply bmp_get_test.
Qed.

Lemma page_is_used_eq a : page_ok s a →
  page_is_used s a = bmp_get (used_bmp s) (pidx s a).
Proof.
  intros Hp. rewrite <- used_set_eq by done. unfold page_is_used.
  by rewrite phys_to_idx_eq, page_index_eq by done.
Qed.

Lemma page_type_eq a : page_ok s a →
  page_type_get s a = getd 0 (page_types s) (pidx s a).
Proof.
  intros Hp. unfold page_type_get. rewrite phys_to_idx_eq by done.
  pose proof (pidx_bound s a Hr Ht Hp). unfold MAX_REFC_PAGES.
  by destruct (Z.ltb_spec (pidx s a) (2 ^ 21)); [|lia].
Qed.

Lemma track_eq a : page_ok s a →
  track_freed_page a s =
    if bmp_get (freed_bmp s) (pidx s a) then (true, s)
    else (false, set_freed (<[Z.shiftr (pidx s a) 6 :=
           Z.lor (getd 0 (freed_bmp s) (Z.shiftr (pidx s a) 6))
                 (Z.shiftl 1 (Z.land (pidx s a) 63))]> (freed_bmp s)) s).
Proof.
  intros Hp. unfold track_freed_page, freed_bit. rewrite phys_to_idx_eq by done.
  pose proof (pidx_bound s a Hr Ht Hp).
  destruct (Z.leb_spec (2 ^ 21) (pidx s a)); [lia|]. by rewrite bmp_get_test.
Qed.

Lemma umark_get a b : page_ok s a → page_ok s b →
  bmp_get (umark (page_index s a) (used_bmp s)) (pidx s b) =
  bool_decide (a = b) || bmp_get (used_bmp s) (pidx s b).
Proof.
  intros Ha Hb. rewrite page_index_eq by done. unfold umark.
  rewrite shiftr_6_bound by (by apply pidx_bound). rewrite bmp_get_set.
  f_equal. apply bool_decide_ext. split; [by apply pidx_inj|congruence].
Qed.

Lemma uclear_get a b : page_ok s a → page_ok s b →
  bmp_get (uclear (page_index s a) (used_bmp s)) (pidx s b) =
  negb (bool_decide (a = b)) && bmp_get (used_bmp s) (pidx s b).
Proof.
  intros Ha Hb. rewrite page_index_eq by done. unfold uclear.
  rewrite shiftr_6_bound by (by apply pidx_bound). rewrite bmp_get_clear.
  do 2 f_equal. apply bool_decide_ext. split; [by apply pidx_inj|congruence].
Qed.

Lemma fclear_get a b : page_ok s a → page_ok s b →
  bmp_get (fclear (phys_to_idx s a) (freed_bmp s)) (pidx s b) =
  negb (bool_decide (a = b)) && bmp_get (freed_bmp s) (pidx s b).
Proof.
  intros Ha Hb. rewrite phys_to_idx_eq by done. unfold fclear.
  pose proof (pidx_bound s a Hr Ht Ha).
  destruct (Z.leb_spec (2 ^ 21) (pidx s a)); [lia|]. rewrite bmp_get_clear.
  do 2 f_equal. apply bool_decide_ext. split; [by apply pidx_inj|congruence].
Qed.

Lemma fset_get a b : page_ok s a → page_ok s b →
  bmp_get (<[Z.shiftr (pidx s a) 6 := Z.lor (getd 0 (freed_bmp s) (Z.shiftr (pidx s a) 6))
              (Z.shiftl 1 (Z.land (pidx s a) 63))]> (freed_bmp s)) (pidx s b) =
  bool_decide (a = b) || bmp_get (freed_bmp s) (pidx s b).
Proof.
  intros Ha Hb. rewrite bmp_get_set.
  f_equal. apply bool_decide_ext. split; [by apply pidx_inj|congruence].
Qed.

Lemma tset_get a b t : page_ok s a → page_ok s b →
  getd 0 (tset (phys_to_idx s a) t (page_types s)) (pidx s b) =
  if bool_decide (a = b) then t else getd 0 (page_types s) (pidx s b).
Proof.
  intros Ha Hb. rewrite phys_to_idx_eq by done. unfold tset, MAX_REFC_PAGES.
  pose proof (pidx_bound s a Hr Ht Ha).
  destruct (Z.ltb_spec (pidx s a) (2 ^ 21)); [|lia]. rewrite getd_insert.
  destruct (decide (a = b)) as [->|Hne].
  - rewrite bool_decide_true, decide_True by done. done.
  - rewrite bool_decide_false, decide_False; [done| |done].
    intros Heq. by apply Hne, (pidx_inj s).
Qed.
End entries.

(** ** Live blocks

    The tables say that a block is in use through the entry of its first
    page: its used bit is set, its type is not FREE and it is not recorded as
    freed. *)
Definition tab_live (s : kmem) (a : Z) : Prop :=
  bmp_get (used_bmp s) (pidx s a) = true ∧
  getd 0 (page_types s) (pidx s a) ≠ PAGE_TYPE_FREE ∧
  bmp_get (freed_bmp s) (pidx s a) = false.

Lemma tab_live_ext s s' a :
  tables s' = tables s → base (al s') = base (al s) → tab_live s a → tab_live s' a.
Proof.
  intros Ht Hb. unfold tab_live, pidx. injection Ht as -> -> ->. by rewrite Hb.
Qed.

(** Marking a page used, with a type, and no longer freed. *)
Lemma claim_tab_live t s s' a :
  region_ok s → tables_cover s → page_ok s a → base (al s') = base (al s) → t ≠ PAGE_TYPE_FREE →
  tables s' = (umark (page_index s a) (used_bmp s), fclear (phys_to_idx s a) (freed_bmp s),
               tset (phys_to_idx s a) t (page_types s)) →
  tab_live s' a ∧ ∀ b, page_ok s b → tab_live s b → tab_live s' b.
Proof.
  intros Hr Hc Hok Hb Hnt Ht.
  injection Ht as Hu Hf Htt. unfold tab_live, pidx. rewrite Hb, Hu, Hf, Htt.
  fold (pidx s a). split.
  - rewrite umark_get, fclear_get, tset_get by done. rewrite bool_decide_true by done. done.
  - intros b Hpb (H1 & H2 & H3). fold (pidx s b).
    fold (pidx s b) in H1, H2, H3.
    rewrite umark_get, fclear_get, tset_get by done. rewrite H1, H3, orb_true_r, andb_false_r.
    split_and!; [done| |done]. by destruct (bool_decide (a = b)).
Qed.

Lemma alloc_tab_live order s ls a s' ls' :
  fl_wf s ls → tables_cover s → alloc_post order s ls a s' ls' → rest s' = rest s →
  tab_live s' a ∧ ∀ b, page_ok s b → tab_live s b → tab_live s' b.
Proof.
  intros Hwf Hc (_ & Hok & _ & _ & _ & _ & Ht) Hrest. apply blk_page in Hok.
  injection Hrest as Hb _ _ _ _ _ _ _ _ _ _.
  apply (claim_tab_live PAGE_TYPE_DATA); try done. by apply (wf_region _ _ Hwf).
Qed.

(** * The quarantine ring

    Freed page-table pages wait in a ring of fixed capacity before they are
    reused.  The ring refines a bounded FIFO queue: [q_push] appends unless
    the queue is full, [q_pop] takes the oldest entry. *)

Lemma quarantine_cap_pos : (0 < QUARANTINE_MAX_CAP)%nat.
Proof. unfold QUARANTINE_MAX_CAP. lia. Qed.
#[local] Opaque QUARANTINE_MAX_CAP.

Record q_wf (q : Quarantine) : Prop := {
  q_wf_len : length (q_slots q) = QUARANTINE_MAX_CAP;
  q_wf_cap : q_cap q = QUARANTINE_MAX_CAP;
  q_wf_head : (q_head q < QUARANTINE_MAX_CAP)%nat;
  q_wf_count : (q_count q ≤ QUARANTINE_MAX_CAP)%nat;
}.

(** The queue the ring holds, oldest page first: it starts [q_count] slots
    before the write position. *)
Definition q_list (q : Quarantine) : list Z :=
  ring_list (q_slots q) (q_head q + q_cap q - q_count q) (q_count q) QUARANTINE_MAX_CAP.

Lemma q_list_length q : length (q_list q) = q_count q.
Proof. apply length_ring_list. Qed.

Lemma q_list_nil q : q_count q = 0%nat → q_list q = [].
Proof. unfold q_list. by intros ->. Qed.

(** The abstract step of [q_push]. *)
Definition q_push_spec (addr : Z) (l : list Z) : bool * list Z :=
  if (length l <? QUARANTINE_MAX_CAP)%nat then (true, l ++ [addr]) else (false, l).

Lemma q_push_refines addr s ok s' :
  q_wf (quar s) → q_push addr s = (ok, s') →
  q_wf (quar s') ∧ (ok, q_list (quar s')) = q_push_spec addr (q_list (quar s)) ∧
  s' = set_quar (quar s') s.
Proof.
  intros [Hl Hcap Hh Hc]. unfold q_push, q_push_spec. rewrite q_list_length, Hcap.
  pose proof quarantine_cap_pos as Hpos.
  destruct (Nat.ltb_spec (q_count (quar s)) QUARANTINE_MAX_CAP) as [Hlt|Hge];
    intros [= <- <-]; cbn [quar set_quar].
  - split_and!; [| |by destruct s].
    + split; cbn [q_slots q_cap q_head q_count]; try done; [by unfold q_slot_set; rewrite length_insert| |lia].
      apply Nat.mod_upper_bound. lia.
    + f_equal. unfold q_list. cbn [q_slots q_cap q_head q_count]. rewrite Hcap.
      rewrite <- (ring_push (q_slots (quar s)) _ (q_count (quar s)) _ addr) by done.
      replace (q_count (quar s) + 1)%nat with (S (q_count (quar s))) by lia. unfold q_slot_set.
      assert ((q_head (quar s) + QUARANTINE_MAX_CAP - q_count (quar s) + q_count (quar s))
                = q_head (quar s) + 1 * QUARANTINE_MAX_CAP)%nat as -> by lia.
      rewrite Nat.Div0.mod_add. apply ring_list_start.
      replace (q_head (quar s) + QUARANTINE_MAX_CAP - q_count (quar s))%nat
        with ((q_head (quar s) + 1) + (QUARANTINE_MAX_CAP - S (q_count (quar s))))%nat by lia.
      rewrite <- (Nat.Div0.add_mod_idemp_l (q_head (quar s) + 1)). f_equal.
      pose proof (Nat.mod_upper_bound (q_head (quar s) + 1) QUARANTINE_MAX_CAP). lia.
  - split_and!; [by split|by unfold q_list; simpl; rewrite Hcap|by destruct s].
Qed.

(** One turn of the pop loop takes the oldest entry off the ring. *)
Lemma q_take q :
  q_wf q → q_count q ≠ 0%nat →
  let idx := ((q_head q + q_cap q - q_count q) `mod` q_cap q)%nat in
  let q' := mkQuarantine (q_slot_set idx 0 q) (q_cap q) (q_head q) (q_count q - 1) (q_full q) in
  q_wf q' ∧ q_list q = q_slot q idx :: q_list q'.
Proof.
  destruct q as [sl cap hd cnt fu]. intros [Hl Hcap Hh Hc] Hnz.
  cbn [q_slots q_cap q_head q_count q_full] in *. subst cap.
  destruct cnt as [|c]; [done|].
  set (idx := ((hd + QUARANTINE_MAX_CAP - S c) `mod` QUARANTINE_MAX_CAP)%nat).
  pose proof quarantine_cap_pos as Hpos.
  assert (idx `mod` QUARANTINE_MAX_CAP = idx)%nat as Hidx.
  { apply Nat.mod_small, Nat.mod_upper_bound. lia. }
  assert (S (hd + QUARANTINE_MAX_CAP - S c) = hd + QUARANTINE_MAX_CAP - c)%nat as Hst by lia.
  split.
  - split; cbn [q_slots q_cap q_head q_count]; try done; [|lia].
    unfold q_slot_set. by rewrite length_insert.
  - unfold q_list. cbn [q_slots q_cap q_head q_count].
    replace (S c - 1)%nat with c by lia.
    unfold q_slot, q_slot_set. cbn [q_slots]. rewrite Hidx.
    rewrite ring_pop by lia. f_equal.
    rewrite Hst, ring_list_mod. symmetry. apply ring_insert_outside. intros i Hi Heq.
    apply (ring_popped_outside (hd + QUARANTINE_MAX_CAP - S c) c QUARANTINE_MAX_CAP i);
      [lia|done|].
    by rewrite Nat.Div0.add_mod_idemp_l, Hst.
Qed.

(** Every queued page is a managed page: the guard of [q_pop] never skips. *)
Definition q_pages_ok (s : kmem) : Prop := ∀ a, a ∈ q_list (quar s) → page_ok s a.

Lemma q_pop_refines s r s' :
  region_ok s → q_wf (quar s) → q_pages_ok s → q_pop s = (r, s') →
  q_wf (quar s') ∧
  match r with
  | Some a => q_list (quar s) = a :: q_list (quar s') ∧
              s' = pte_refc_inc a (set_quar (quar s') s)
  | None => q_list (quar s) = [] ∧ s' = s
  end.
Proof.
  intros Hr Hq Hok. unfold q_pop.
  destruct (q_count (quar s)) as [|n] eqn:Hc; cbn [q_pop_loop].
  { intros [= <- <-]. split_and!; [done|by apply q_list_nil|done]. }
  destruct (q_take (quar s) Hq ltac:(lia)) as [Hq' Hl].
  set (idx := ((q_head (quar s) + q_cap (quar s) - q_count (quar s)) `mod` q_cap (quar s))%nat) in *.
  set (q' := mkQuarantine _ _ _ _ _) in *.
  cbn [al set_quar].
  assert (page_ok s (q_slot (quar s) idx)) as Hp by (apply Hok; rewrite Hl; set_solver).
  pose proof (blk_bound _ _ _ Hr Hp) as Hb. destruct Hr as (? & _ & ? & ?).
  destruct Hp as (_ & Hp1 & Hp2 & _). rewrite block_size_0 in *. unfold PAGE_SIZE in *.
  rewrite w64_small by lia.
  rewrite (proj2 (Z.eqb_neq _ 0)) by lia. rewrite (proj2 (Z.leb_le _ _)) by done.
  rewrite (proj2 (Z.ltb_lt _ _)) by lia. cbn [negb andb].
  intros [= <- <-].
  assert (∀ x t, quar (pte_refc_inc x t) = quar t) as Hqr.
  { intros. unfold pte_refc_inc. by case_ifs. }
  rewrite !Hqr. cbn [quar set_quar]. split_and!; [done|done|by destruct s].
Qed.
