(* ===== verification/BuddyAudit.v ===== *)
(** * The free-list audit

    Every eighth [free] walks all free lists, checks the headers and claims
    the pages of each block in a scratch table; a page claimed twice is a
    corrupted list.  The audit terminates with [true] on every state that
    satisfies the invariant, and a [true] from it on any null-terminated lists
    means that no two free blocks share a page. *)

From S2P Require Import Prelude Buddy BuddyInv BuddyOps BuddyTables.
From stdpp Require Import base gmap numbers functions list.
Local Open Scope Z_scope.

Definition claimed (owned : gmap Z Z) (i : Z) : Prop :=
  getd OWNED_ORDER_SENTINEL owned i ≠ OWNED_ORDER_SENTINEL.

(** Claiming a run of pages succeeds exactly when none of them was claimed. *)
Lemma audit_pages_spec n p o owned :
  0 ≤ o ≤ 10 →
  match audit_pages n p o owned with
  | (true, owned') =>
      (∀ i, p ≤ i < p + Z.of_nat n → ¬ claimed owned i) ∧
      ∀ i, claimed owned' i ↔ claimed owned i ∨ p ≤ i < p + Z.of_nat n
  | (false, _) => ∃ i, p ≤ i < p + Z.of_nat n ∧ claimed owned i
  end.
Proof.
  intros Ho. revert p owned. induction n as [|n IH]; intros p owned; cbn [audit_pages].
  { split; [lia|]. intros i. split; [by left|]. intros [?|?]; [done|lia]. }
  destruct (Z.eqb_spec (getd OWNED_ORDER_SENTINEL owned p) OWNED_ORDER_SENTINEL) as [He|Hne];
    cbn [negb].
  - specialize (IH (p + 1) (<[p := o]> owned)).
    assert (∀ i, claimed (<[p:=o]> owned) i ↔ claimed owned i ∨ i = p) as Hins.
    { intros i. unfold claimed. rewrite getd_insert. unfold OWNED_ORDER_SENTINEL.
      case_decide; subst; [|naive_solver]. split; [by right|lia]. }
    destruct (audit_pages n (p + 1) o (<[p := o]> owned)) as [[] owned'].
    + destruct IH as [IH1 IH2]. split.
      * intros i Hi. destruct (decide (i = p)) as [->|]; [by intros []|].
        intros Hc. apply (IH1 i); [lia|]. apply Hins. by left.
      * intros i. rewrite IH2, Hins. split; [intros [[|]|]|intros [|]]; try tauto; try lia.
    + destruct IH as (i & Hi & Hc). apply Hins in Hc as [Hc| ->]; [|lia].
      exists i. split; [lia|done].
  - exists p. split; [lia|done].
Qed.

(** The page indices of a block. *)
Definition blk_idx (s : kmem) (a : Z) (o : nat) (i : Z) : Prop :=
  phys_to_idx s a ≤ i < phys_to_idx s a + 2 ^ Z.of_nat o.

(** What the walk of one list establishes, read off the list it walks. *)
Fixpoint audit_good (s : kmem) (o : nat) (owned : Z → Prop) (l : list Z) : Prop :=
  match l with
  | [] => True
  | a :: l' =>
      b_magic (hdr s a) = MAGIC ∧ b_order (hdr s a) = Z.of_nat o ∧
      phys_to_idx s a + 2 ^ Z.of_nat o ≤ MAX_REFC_PAGES ∧
      (∀ i, blk_idx s a o i → ¬ owned i) ∧
      audit_good s o (λ i, owned i ∨ blk_idx s a o i) l'
  end.

Lemma audit_good_ext s o P Q l :
  (∀ i, P i ↔ Q i) → audit_good s o P l ↔ audit_good s o Q l.
Proof.
  revert P Q. induction l as [|a l IH]; intros P Q Hpq; [done|]. simpl.
  rewrite (IH _ (λ i, Q i ∨ blk_idx s a o i)) by (intros i; by rewrite Hpq).
  naive_solver.
Qed.

(** Setoid form: the audit looks at the claimed set up to pointwise equivalence. *)
#[export] Instance audit_good_proper s o :
  Proper (pointwise_relation Z iff ==> eq ==> iff) (audit_good s o).
Proof. intros P Q Hpq l ? <-. by apply audit_good_ext. Qed.

Lemma pow_order_bound o : (o ≤ MAX_ORDER)%nat → 1 ≤ 2 ^ Z.of_nat o ≤ 1024.
Proof.
  unfold MAX_ORDER. intros. split.
  - change 1 with (2 ^ 0). apply Z.pow_le_mono_r; lia.
  - change 1024 with (2 ^ 10). apply Z.pow_le_mono_r; lia.
Qed.

Lemma phys_to_idx_bound s a : 0 < base (al s) → a < 2 ^ 64 → base (al s) ≤ a →
  0 ≤ phys_to_idx s a < 2 ^ 52.
Proof.
  intros. unfold phys_to_idx. destruct (Z.ltb_spec a (base (al s))); [lia|].
  rewrite Z.shiftr_div_pow2 by lia. split; [apply Z.div_pos; lia|].
  apply Z.div_lt_upper_bound; lia.
Qed.

(** A walk over managed addresses decides [audit_good]. *)
Lemma audit_list_spec fuel s o p l owned :
  (o ≤ MAX_ORDER)%nat → 0 < base (al s) → chain (mem s) p l → (length l < fuel)%nat →
  (∀ a, a ∈ l → base (al s) ≤ a < 2 ^ 64) →
  ∃ ok owned', audit_list fuel s o p owned = Done (ok, owned') ∧
    (ok = true ↔ audit_good s o (claimed owned) l) ∧
    (ok = true → ∀ i, claimed owned' i ↔ claimed owned i ∨ ∃ a, a ∈ l ∧ blk_idx s a o i).
Proof.
  intros Ho Hb. revert fuel p owned.
  induction l as [|a l IH]; intros [|fuel] p owned Hch Hlen Hmg; try (simpl in Hlen; lia);
    cbn [audit_list chain audit_good] in *.
  { subst p. rewrite Z.eqb_refl. exists true, owned. split_and!; [done|done|].
    intros _ i. split; [by left|]. intros [|(? & ?%elem_of_nil & _)]; done. }
  destruct Hch as (-> & Hnz & Hch). apply Z.eqb_neq in Hnz as ->.
  pose proof (pow_order_bound o Ho) as Hpw.
  destruct (Hmg a ltac:(set_solver)) as [Ha1 Ha2].
  pose proof (phys_to_idx_bound s a Hb Ha2 Ha1) as Hidx.
  rewrite Z.shiftl_1_l, w64_small by lia.
  destruct (Z.eqb_spec (b_magic (hdr s a)) MAGIC) as [Hm|Hm]; cbn [negb orb];
    [|exists false, owned; split_and!; [done| |done]; split; [done|naive_solver]].
  destruct (Z.eqb_spec (b_order (hdr s a)) (Z.of_nat o)) as [Hd|Hd]; cbn [negb];
    [|exists false, owned; split_and!; [done| |done]; split; [done|naive_solver]].
  destruct (Z.ltb_spec MAX_REFC_PAGES (phys_to_idx s a + 2 ^ Z.of_nat o)) as [Hr|Hr];
    [exists false, owned; split_and!; [done| |done]; split; [done|intros (? & ? & ? & ?); lia]|].
  replace (Z.to_nat (phys_to_idx s a + 2 ^ Z.of_nat o - phys_to_idx s a))
    with (Z.to_nat (2 ^ Z.of_nat o)) by (f_equal; lia).
  pose proof (audit_pages_spec (Z.to_nat (2 ^ Z.of_nat o)) (phys_to_idx s a) (Z.of_nat o) owned
    ltac:(unfold MAX_ORDER in *; lia)) as Hap. rewrite Z2Nat.id in Hap by lia.
  destruct (audit_pages _ _ _ owned) as [[] owned1].
  - destruct Hap as [Hfree Hcl].
    destruct (IH fuel _ owned1 Hch ltac:(simpl in *; lia) ltac:(intros; apply Hmg; set_solver))
      as (ok & owned' & Hrun & Hok & Hpost).
    exists ok, owned'. split_and!; [done| |].
    + rewrite Hok. rewrite (audit_good_ext s o _ (λ i, claimed owned i ∨ blk_idx s a o i)) by done.
      naive_solver.
    + intros Hokt i. rewrite (Hpost Hokt), Hcl. setoid_rewrite elem_of_cons. naive_solver.
  - destruct Hap as (i & Hi & Hc). exists false, owned1. split_and!; [done| |done].
    split; [done|]. intros (_ & _ & _ & Hno & _). by destruct (Hno i).
Qed.

(** On a well-formed state every block passes. *)
Lemma blk_idx_disj s a o b o' i :
  region_ok s → blk_ok s a o → blk_ok s b o' → disj a o b o' →
  blk_idx s a o i → ¬ blk_idx s b o' i.
Proof.
  intros Hr Ha Hb Hd Hi1 Hi2. pose proof (blk_page _ _ _ Ha) as Hpa. pose proof (blk_page _ _ _ Hb) as Hpb.
  unfold blk_idx in *. rewrite phys_to_idx_eq in Hi1, Hi2 by done.
  destruct Hr as (_ & [k Hk] & _), Ha as (Ho & ? & ? & _), Hb as (Ho' & ? & ? & _).
  destruct Hpa as (_ & _ & _ & [x Hx]), Hpb as (_ & _ & _ & [y Hy]).
  rewrite block_size_0 in Hx, Hy. unfold disj, pidx in *. rewrite !block_size_pow in * by done.
  rewrite !Z.pow_add_r in * by lia. change (2 ^ 12) with 4096 in *. unfold PAGE_SIZE in *.
  subst a b. rewrite Hk, <- !Z.mul_sub_distr_r, !Z.div_mul in * by done. lia.
Qed.

Lemma blk_idx_bound s a o :
  tables_cover s → region_ok s → blk_ok s a o → phys_to_idx s a + 2 ^ Z.of_nat o ≤ MAX_REFC_PAGES.
Proof.
  intros Hc Hr Ha. pose proof (blk_page _ _ _ Ha) as Hpa. rewrite phys_to_idx_eq by done.
  destruct Hr as (_ & [k Hk] & _), Ha as (Ho & ? & ? & _), Hpa as (_ & _ & _ & [x Hx]).
  rewrite block_size_0 in Hx. unfold pidx, tables_cover in *. rewrite block_size_pow in * by done.
  rewrite Z.pow_add_r in * by lia. change (2 ^ 12) with 4096 in *. unfold PAGE_SIZE in *.
  subst a. rewrite Hk, <- !Z.mul_sub_distr_r, !Z.div_mul in * by done. lia.
Qed.

Lemma wf_audit_good s ls o l (P : Z → Prop) :
  fl_wf s ls → tables_cover s → (o ≤ MAX_ORDER)%nat → l `suffix_of` ls o →
  (∀ a i, a ∈ l → blk_idx s a o i → ¬ P i) → audit_good s o P l.
Proof.
  intros Hwf Hc Ho. revert P. induction l as [|a l IH]; intros P Hsuf Hout; [done|].
  destruct Hsuf as [pre Hpre].
  assert (∀ x, x ∈ a :: l → x ∈ ls o) as Hin by (intros x Hx; rewrite Hpre; set_solver).
  destruct (wf_hdr _ _ Hwf o a Ho ltac:(apply Hin; set_solver)) as [Hm Hd].
  pose proof (wf_blk _ _ Hwf o a Ho ltac:(apply Hin; set_solver)) as Hok.
  pose proof (wf_region _ _ Hwf) as Hr.
  cbn [audit_good]. split_and!; [done|done|by apply blk_idx_bound| |].
  - intros i Hi. apply (Hout a); [set_solver|done].
  - apply IH; [exists (pre ++ [a]); by rewrite <- app_assoc|].
    intros b i Hb Hi [HP|Hi']; [by destruct (Hout b i ltac:(set_solver) Hi)|].
    revert Hi. eapply (blk_idx_disj s a o b o); try done.
    + apply (wf_blk _ _ Hwf); [done|]. apply Hin. set_solver.
    + apply (wf_disj _ _ Hwf); try done; try (apply Hin; set_solver).
      intros [= <-]. pose proof (wf_nodup _ _ Hwf o Ho) as Hnd. rewrite Hpre in Hnd.
      apply list.NoDup_app in Hnd as (_ & _ & Hnd). by apply list.NoDup_cons in Hnd as [? _].
Qed.

Lemma audit_orders_wf n o s ls owned :
  (o + n = S MAX_ORDER)%nat → fl_wf s ls → tables_cover s →
  (∀ k a i, (o ≤ k ≤ MAX_ORDER)%nat → a ∈ ls k → blk_idx s a k i → ¬ claimed owned i) →
  ∃ owned', audit_orders n o s owned = Done (true, owned').
Proof.
  intros Hn Hwf Hc. revert o owned Hn. induction n as [|n IH]; intros o owned Hn Hout.
  { by exists owned. }
  cbn [audit_orders]. pose proof (wf_region _ _ Hwf) as Hr.
  destruct (audit_list_spec (list_fuel s) s o (free_lists (al s) !!! o) (ls o) owned)
    as (ok & owned1 & Hrun & Hok & Hcl).
  - lia.
  - by destruct Hr.
  - apply wf_chain; [done|lia].
  - eapply wf_length; [done|lia].
  - intros a Ha. pose proof (wf_blk _ _ Hwf o a ltac:(lia) Ha) as Hb.
    pose proof (blk_bound _ _ _ Hr Hb). pose proof (block_size_bound o ltac:(lia)).
    destruct Hb as (_ & ? & _). unfold PAGE_SIZE in *. lia.
  - rewrite Hrun. cbn [cbind].
    assert (ok = true) as ->.
    { apply Hok. eapply wf_audit_good; [done|done|lia|done|].
      intros a i Ha Hi. apply (Hout o a); [lia|done|done]. }
    apply IH; [lia|]. intros k a i Hk Ha Hi. rewrite (Hcl eq_refl).
    intros [Hcc|(b & Hb & Hbi)]; [by destruct (Hout k a i ltac:(lia) Ha Hi)|].
    revert Hi. eapply (blk_idx_disj s b o a k); try done.
    + apply (wf_blk _ _ Hwf); [lia|done].
    + apply (wf_blk _ _ Hwf); [lia|done].
    + apply (wf_disj _ _ Hwf); [lia|lia|done|done|]. intros [= ? ?]. lia.
Qed.

(** The audit of a well-formed state terminates, passes, and writes only its
    own scratch state. *)
Lemma audit_wf s ls :
  fl_wf s ls → tables_cover s →
  ∃ owned act, audit_free_lists s = Done (true, set_active act (set_owned owned s)).
Proof.
  intros Hwf Hc. unfold audit_free_lists. destruct (audit_active s) eqn:Ha.
  - exists (owned_by s), true. do 2 f_equal. destruct s; simpl in *; by subst.
  - destruct (audit_orders_wf (S MAX_ORDER) 0 s ls ∅ eq_refl Hwf Hc) as [owned' ->].
    + intros k a i _ _ _ Hx. apply Hx, getd_empty.
    + by exists owned', false.
Qed.

Lemma maybe_audit_wf s ls :
  fl_wf s ls → tables_cover s →
  ∃ c owned act, maybe_audit s = Done (set_active act (set_owned owned (set_counter c s))).
Proof.
  intros Hwf Hc. unfold maybe_audit.
  set (c := w64 (audit_counter s + 1)). destruct (c mod AUDIT_PERIOD =? 0).
  - destruct (audit_wf (set_counter c s) ls) as (owned & act & ->); [|done|by exists c, owned, act].
    by eapply fl_wf_ext; [..|exact Hwf].
  - by exists c, (owned_by s), (audit_active s).
Qed.

(** ** Soundness: what a passing audit tells *)

(** Lists as the audit can walk them, without any of the properties it is
    there to check. *)
Record walkable (s : kmem) (ls : nat → list Z) : Prop := {
  wk_base : 0 < base (al s);
  wk_chain : ∀ o, (o ≤ MAX_ORDER)%nat → chain (mem s) (free_lists (al s) !!! o) (ls o);
  wk_fuel : ∀ o, (o ≤ MAX_ORDER)%nat → (length (ls o) < list_fuel s)%nat;
  wk_addr : ∀ o a, (o ≤ MAX_ORDER)%nat → a ∈ ls o → base (al s) ≤ a < 2 ^ 64;
}.

(** No page index is covered by two entries of the lists from [o] on, nor by
    an entry and [P]. *)
Definition no_overlap (s : kmem) (ls : nat → list Z) (o : nat) (P : Z → Prop) : Prop :=
  ∀ k j a, (o ≤ k ≤ MAX_ORDER)%nat → ls k !! j = Some a →
    b_magic (hdr s a) = MAGIC ∧ b_order (hdr s a) = Z.of_nat k ∧
    ∀ i, blk_idx s a k i → ¬ P i ∧
      ∀ k' j' b, (o ≤ k' ≤ MAX_ORDER)%nat → ls k' !! j' = Some b → blk_idx s b k' i →
        k' = k ∧ j' = j.

Lemma audit_good_lookup s o P l :
  audit_good s o P l → ∀ j a, l !! j = Some a →
    b_magic (hdr s a) = MAGIC ∧ b_order (hdr s a) = Z.of_nat o ∧
    ∀ i, blk_idx s a o i → ¬ P i ∧ ∀ j' b, l !! j' = Some b → blk_idx s b o i → j' = j.
Proof.
  revert P. induction l as [|x l IH]; intros P Hg j a Hj; [done|].
  destruct Hg as (Hm & Hd & _ & Hno & Hg). specialize (IH _ Hg).
  destruct j as [|j]; simpl in Hj.
  - injection Hj as ->. split_and!; [done|done|]. intros i Hi. split; [by apply Hno|].
    intros [|j'] b Hb Hbi; [done|]. exfalso.
    destruct (IH _ _ Hb) as (_ & _ & Hx). destruct (Hx i Hbi) as [HnP _]. apply HnP. by right.
  - destruct (IH _ _ Hj) as (? & ? & Hx). split_and!; [done|done|]. intros i Hi.
    destruct (Hx i Hi) as [HnP Huniq]. split; [tauto|].
    intros [|j'] b Hb Hbi; simpl in Hb.
    + injection Hb as ->. exfalso. apply HnP. by right.
    + f_equal. by eapply Huniq.
Qed.

Lemma audit_orders_sound n o s ls owned owned' :
  (o + n = S MAX_ORDER)%nat → walkable s ls →
  audit_orders n o s owned = Done (true, owned') → no_overlap s ls o (claimed owned).
Proof.
  intros Hn Hw. revert o owned Hn. induction n as [|n IH]; intros o owned Hn Hrun.
  { intros k j a Hk. lia. }
  cbn [audit_orders] in Hrun.
  destruct (audit_list_spec (list_fuel s) s o (free_lists (al s) !!! o) (ls o) owned)
    as (ok & owned1 & Hl & Hok & Hcl);
    [lia|apply Hw|apply Hw; lia|apply Hw; lia|intros; eapply Hw; [|done]; lia|].
  rewrite Hl in Hrun. cbn [cbind] in Hrun. destruct ok; [|done].
  specialize (IH (S o) owned1 ltac:(lia) Hrun). specialize (Hcl eq_refl).
  pose proof (audit_good_lookup _ _ _ _ (proj1 Hok eq_refl)) as Hg.
  intros k j a Hk Ha. destruct (decide (k = o)) as [->|Hne].
  - destruct (Hg j a Ha) as (? & ? & Hi). split_and!; [done|done|]. intros i Hai.
    destruct (Hi i Hai) as [HnP Huniq]. split; [done|].
    intros k' j' b Hk' Hb Hbi. destruct (decide (k' = o)) as [->|].
    + split; [done|]. by eapply Huniq.
    + exfalso. destruct (IH k' j' b ltac:(lia) Hb) as (_ & _ & Hx).
      destruct (Hx i Hbi) as [Hnc _]. apply Hnc, Hcl. right. exists a.
      split; [|done]. by eapply list_elem_of_lookup_2.
  - destruct (IH k j a ltac:(lia) Ha) as (? & ? & Hx). split_and!; [done|done|]. intros i Hai.
    destruct (Hx i Hai) as [Hnc Huniq]. rewrite Hcl in Hnc. split; [tauto|].
    intros k' j' b Hk' Hb Hbi. destruct (decide (k' = o)) as [->|].
    + exfalso. apply Hnc. right. exists b. split; [|done]. by eapply list_elem_of_lookup_2.
    + eapply Huniq; [|done|done]. lia.
Qed.

(** * The free lists as a set of pages

    Coalesced free lists are determined by the set of free bytes: two
    allocator states with the same free memory hold the same blocks in every
    list.  The counters of the source count that set. *)

(** Aligned blocks nest or are apart. *)
Lemma aligned_nested a o b o' :
  (o' ≤ o ≤ MAX_ORDER)%nat → (block_size o | a) → (block_size o' | b) →
  disj a o b o' ∨ (a ≤ b ∧ b + block_size o' ≤ a + block_size o).
Proof.
  intros Ho [x Hx] [y Hy]. destruct (block_size_divide o' o Ho) as [k Hk].
  pose proof (block_size_bound o ltac:(lia)) as Hb. pose proof (block_size_bound o' ltac:(lia)) as Hb'.
  unfold disj, PAGE_SIZE in *. rewrite Hk in *. set (c := block_size o') in *. subst a b.
  destruct (decide (y + 1 ≤ x * k)); [left; right; nia|].
  destruct (decide (x * k + k ≤ y)); [left; left; nia|]. right. nia.
Qed.

Lemma in_blk_same_order a b o : (o ≤ MAX_ORDER)%nat →
  (block_size o | a) → (block_size o | b) → in_blk b o a → b = a.
Proof.
  intros Ho Ha Hb Hin. destruct (aligned_nested b o a o ltac:(lia) Hb Ha) as [Hd|Hd];
    unfold disj, in_blk in *; lia.
Qed.

Lemma in_blk_self a o : (o ≤ MAX_ORDER)%nat → in_blk a o a.
Proof. intros Ho. pose proof (block_size_bound o Ho). unfold in_blk, PAGE_SIZE in *. lia. Qed.

Section canon.
Context (s : kmem) (ls : nat → list Z) (Hwf : fl_wf s ls) (Hco : coalesced ls).

Lemma wf_aligned o a : (o ≤ MAX_ORDER)%nat → a ∈ ls o → (block_size o | a).
Proof. intros Ho Ha. by destruct (wf_blk _ _ Hwf o a Ho Ha) as (_ & _ & _ & ?). Qed.

(** A wholly free aligned block lies inside one block of the lists. *)
Lemma covered_block o a : (o ≤ MAX_ORDER)%nat → (block_size o | a) →
  (∀ p, in_blk a o p → free_at ls p) →
  ∃ o' b, (o ≤ o' ≤ MAX_ORDER)%nat ∧ b ∈ ls o' ∧ in_blk b o' a.
Proof.
  revert a. induction o as [|o IH]; intros a Ho Ha Hfree.
  { destruct (Hfree a (in_blk_self a 0 Ho)) as (o' & b & ? & ? & ?). exists o', b. split_and!; [lia|lia|done..]. }
  pose proof (block_size_S o ltac:(lia)) as HS. pose proof (block_size_bound o ltac:(lia)) as Hbs.
  assert (block_size o | a) as Ha0 by (etrans; [apply (block_size_divide o (S o)); lia|done]).
  assert (block_size o | a + block_size o) as Ha1 by (apply Z.divide_add_r; [done|apply Z.divide_refl]).
  unfold PAGE_SIZE in *.
  destruct (IH a) as (o1 & b1 & Ho1 & Hb1 & Hi1); [lia|done|intros; apply Hfree; unfold in_blk in *; lia|].
  destruct (IH (a + block_size o)) as (o2 & b2 & Ho2 & Hb2 & Hi2);
    [lia|done|intros; apply Hfree; unfold in_blk in *; lia|].
  destruct (decide (o1 = o)) as [->|]; [|exists o1, b1; split_and!; [lia|lia|done..]].
  destruct (decide (o2 = o)) as [->|].
  - apply in_blk_same_order in Hi1; [|lia|done|by apply wf_aligned; [lia|]].
    apply in_blk_same_order in Hi2; [|lia|done|by apply wf_aligned; [lia|]]. subst b1 b2. exfalso.
    apply (Hco o a ltac:(lia) Hb1).
    destruct (buddy_cases a o ltac:(lia) Ha0) as [[-> _]|[_ Hd]]; [done|].
    destruct Ha as [x Hx], Hd as [y Hy]. rewrite HS in *.
    assert (block_size o * (2 * (x - y) - 1) = 0) as [|]%Z.mul_eq_0 by lia; lia.
  - exists o2, b2. split_and!; [lia|lia|done|].
    destruct (aligned_nested b2 o2 a (S o)) as [Hd|Hd]; [lia|by apply wf_aligned; [lia|]|done| |];
      unfold disj, in_blk in *; lia.
Qed.
End canon.

(** Same free bytes, same blocks. *)
Lemma canonical_incl s s' ls ls' :
  fl_wf s ls → coalesced ls → fl_wf s' ls' → coalesced ls' →
  (∀ p, free_at ls p ↔ free_at ls' p) → ∀ o a, (o ≤ MAX_ORDER)%nat → a ∈ ls o → a ∈ ls' o.
Proof.
  intros Hwf Hco Hwf' Hco' Heq o a Ho Ha. pose proof (wf_aligned _ _ Hwf o a Ho Ha) as Hal.
  destruct (covered_block s' ls' Hwf' Hco' o a Ho Hal) as (o1 & b & Ho1 & Hb & Hab).
  { intros p Hp. apply Heq. by exists o, a. }
  pose proof (wf_aligned _ _ Hwf' o1 b ltac:(lia) Hb) as Hbal.
  destruct (covered_block s ls Hwf Hco o1 b ltac:(lia) Hbal) as (o2 & c & Ho2 & Hc & Hbc).
  { intros p Hp. apply Heq. exists o1, b. split_and!; [lia|done|done]. }
  pose proof (wf_aligned _ _ Hwf o2 c ltac:(lia) Hc) as Hcal.
  assert (in_blk c o2 a) as Hac.
  { destruct (aligned_nested c o2 b o1 ltac:(lia) Hcal Hbal) as [Hd|Hd]; unfold disj, in_blk in *; [|lia].
    pose proof (block_size_bound o1 ltac:(lia)). unfold PAGE_SIZE in *. lia. }
  assert ((o2, c) = (o, a)) as [= -> ->].
  { destruct (decide ((o2, c) = (o, a))) as [|Hne]; [done|]. exfalso.
    pose proof (wf_disj _ _ Hwf _ _ _ _ (proj2 Ho2) Ho Hc Ha Hne) as Hd.
    pose proof (in_blk_self a o Ho). unfold disj, in_blk in *. lia. }
  assert (o1 = o) as -> by lia.
  by rewrite <- (in_blk_same_order a b o Ho Hal Hbal Hab).
Qed.

Lemma canonical s s' ls ls' :
  fl_wf s ls → coalesced ls → fl_wf s' ls' → coalesced ls' →
  (∀ p, free_at ls p ↔ free_at ls' p) → ∀ o, (o ≤ MAX_ORDER)%nat → ls o ≡ₚ ls' o.
Proof.
  intros Hwf Hco Hwf' Hco' Heq o Ho.
  apply NoDup_Permutation; [by apply (wf_nodup _ _ Hwf)|by apply (wf_nodup _ _ Hwf')|].
  intros a. split; intros Ha.
  - by apply (canonical_incl s s' ls ls').
  - by apply (canonical_incl s' s ls' ls).
Qed.

(** ** Counting *)

(** The numbers of the free pages in the lists from [o] on. *)
Definition blk_pages (a : Z) (o : nat) : list Z := seqZ (a / PAGE_SIZE) (2 ^ Z.of_nat o).

Definition pages_from (n o : nat) (ls : nat → list Z) : list Z :=
  seq o n ≫= λ k, ls k ≫= λ a, blk_pages a k.

Definition free_pages (ls : nat → list Z) : list Z := pages_from (S MAX_ORDER) 0 ls.

Lemma elem_blk_pages a o i : (o ≤ MAX_ORDER)%nat → (block_size o | a) →
  i ∈ blk_pages a o ↔ in_blk a o (i * PAGE_SIZE).
Proof.
  intros Ho Ha. unfold blk_pages, in_blk. rewrite elem_of_seqZ, block_size_pow by done.
  assert (PAGE_SIZE | a) as [k ->].
  { etrans; [|exact Ha]. rewrite <- block_size_0. apply block_size_divide. lia. }
  rewrite Z.div_mul by done. rewrite Z.pow_add_r by lia. unfold PAGE_SIZE. lia.
Qed.

Lemma elem_free_pages s ls i : fl_wf s ls → i ∈ free_pages ls ↔ free_at ls (i * PAGE_SIZE).
Proof.
  intros Hwf. unfold free_pages, pages_from, free_at. rewrite list_elem_of_bind. split.
  - intros (o & (a & Hi & Ha)%list_elem_of_bind & [_ Ho]%elem_of_seq).
    exists o, a. split_and!; [lia|done|]. apply elem_blk_pages; [lia| |done].
    apply (wf_aligned _ _ Hwf); [lia|done].
  - intros (o & a & Ho & Ha & Hp). exists o. split; [|apply elem_of_seq; lia].
    apply list_elem_of_bind. exists a. split; [|done]. apply elem_blk_pages; [done| |done].
    by apply (wf_aligned _ _ Hwf).
Qed.

Lemma free_pages_nodup s ls : fl_wf s ls → NoDup (free_pages ls).
Proof.
  intros Hwf.
  assert (∀ o a o' b i, (o ≤ MAX_ORDER)%nat → (o' ≤ MAX_ORDER)%nat → a ∈ ls o → b ∈ ls o' →
            i ∈ blk_pages a o → i ∈ blk_pages b o' → (o, a) = (o', b)) as Huniq.
  { intros o a o' b i Ho Ho' Ha Hb Hi Hj.
    apply elem_blk_pages in Hi; [|done|by apply (wf_aligned _ _ Hwf)].
    apply elem_blk_pages in Hj; [|done|by apply (wf_aligned _ _ Hwf)].
    destruct (decide ((o, a) = (o', b))) as [|Hne]; [done|].
    pose proof (wf_disj _ _ Hwf _ _ _ _ Ho Ho' Ha Hb Hne). unfold disj, in_blk in *. lia. }
  unfold free_pages, pages_from. apply NoDup_bind; [| |apply NoDup_seq].
  - intros o o' i [_ Ho]%elem_of_seq [_ Ho']%elem_of_seq (a & Hi & Ha)%list_elem_of_bind
      (b & Hj & Hb)%list_elem_of_bind.
    by assert ((o, a) = (o', b)) as [= -> ->] by (apply (Huniq o a o' b i); try done; lia).
  - intros o [_ Ho]%elem_of_seq. apply NoDup_bind; [|intros; apply NoDup_seqZ|apply (wf_nodup _ _ Hwf); lia].
    intros a b i Ha Hb Hi Hj.
    by assert ((o, a) = (o, b)) as [= ->] by (apply (Huniq o a o b i); try done; lia).
Qed.

Lemma length_pages_list l o : Z.of_nat (length (l ≫= λ a, blk_pages a o)) = 2 ^ Z.of_nat o * Z.of_nat (length l).
Proof.
  induction l as [|a l IH]; [cbn; lia|]. rewrite bind_cons, length_app. unfold blk_pages at 1.
  rewrite length_seqZ. pose proof (Z.pow_nonneg 2 (Z.of_nat o)). cbn [length]. lia.
Qed.

Lemma tally_orders_spec n o s ls acc :
  fl_wf s ls → (o + n = S MAX_ORDER)%nat → 0 ≤ acc →
  acc + Z.of_nat (length (pages_from n o ls)) < 2 ^ 64 →
  tally_orders n o s acc = Done (acc + Z.of_nat (length (pages_from n o ls))).
Proof.
  intros Hwf. revert o acc. induction n as [|n IH]; intros o acc Ho Hacc Hlt; cbn [tally_orders].
  { cbn. f_equal. lia. }
  unfold pages_from in *. cbn [seq] in *. rewrite bind_cons, length_app in *.
  rewrite Nat2Z.inj_add, length_pages_list in *.
  pose proof (Z.pow_nonneg 2 (Z.of_nat o) ltac:(lia)).
  rewrite (tally_list_spec _ _ _ (ls o)); [|by apply (wf_chain _ _ Hwf); lia|by eapply wf_length; [|lia]| | |].
  - cbn [cbind]. rewrite Z.shiftl_1_l, IH; [f_equal; lia|lia|nia|lia].
  - rewrite Z.shiftl_1_l. lia.
  - done.
  - rewrite Z.shiftl_1_l. lia.
Qed.

Lemma free_pages_bound s ls : fl_wf s ls → Z.of_nat (length (free_pages ls)) ≤ pages (al s).
Proof.
  intros Hwf. pose proof (wf_region _ _ Hwf) as (Hr1 & [k Hk] & Hr3 & Hr4).
  assert (free_pages ls ⊆+ seqZ k (pages (al s))) as Hsub%submseteq_length.
  { apply NoDup_submseteq; [by eapply free_pages_nodup|]. intros i Hi.
    apply (elem_free_pages s) in Hi as (o & a & Ho & Ha & Hp); [|done].
    destruct (wf_blk _ _ Hwf o a Ho Ha) as (_ & ? & ? & _). apply elem_of_seqZ.
    unfold in_blk, PAGE_SIZE in *. lia. }
  rewrite length_seqZ in Hsub. lia.
Qed.

Lemma free_page_count_eq s ls : fl_wf s ls →
  free_page_count s = Done (Z.of_nat (length (free_pages ls))).
Proof.
  intros Hwf. pose proof (free_pages_bound s ls Hwf) as Hb.
  pose proof (wf_region _ _ Hwf) as (Hr1 & _ & Hr3 & Hr4). unfold PAGE_SIZE in *.
  unfold free_page_count. fold (free_pages ls). rewrite (tally_orders_spec _ _ _ ls); [done|done|done|done|].
  fold (free_pages ls). lia.
Qed.
