(* ===== verification/BuddyFree.v ===== *)
(** * Freeing a block

    [free] of a block in use always terminates.  Where the block goes depends
    on its first page: back to the free lists, coalesced; into the quarantine,
    for a page-table page whose reference count drops to zero; or nowhere, for
    a page-table page that is still referenced. *)

From S2P Require Import Prelude Buddy BuddyInv BuddyOps BuddyTables BuddyAudit Ring.
From stdpp Require Import base gmap numbers functions list.
Local Open Scope Z_scope.

Inductive fate := ToLists | ToQuarantine | StillReferenced.

Definition free_fate (s : kmem) (a : Z) (o : nat) : fate :=
  if (o =? 0)%nat && (page_type_get s a =? PAGE_TYPE_PTE) then
    if 1 <? pte_refc_get s a then StillReferenced
    else if (q_count (quar s) <? q_cap (quar s))%nat then ToQuarantine else ToLists
  else ToLists.

(** What happens to the free bytes and the quarantine. *)
Definition fate_post (f : fate) (a : Z) (o : nat) (s : kmem) (ls : nat → list Z)
    (s' : kmem) (ls' : nat → list Z) : Prop :=
  match f with
  | ToLists =>
      (∀ p, free_at ls' p ↔ in_blk a o p ∨ free_at ls p) ∧
      q_list (quar s') = q_list (quar s)
  | ToQuarantine =>
      (∀ p, free_at ls' p ↔ free_at ls p) ∧
      q_list (quar s') = q_list (quar s) ++ [a]
  | StillReferenced =>
      (∀ p, free_at ls' p ↔ free_at ls p) ∧
      q_list (quar s') = q_list (quar s)
  end.

(** Clearing the entries of the freed page. *)
Definition retire (caller a : Z) (o : nat) (s : kmem) : kmem :=
  df_record (page_index s a) caller o (page_type_set a PAGE_TYPE_FREE (used_clear (page_index s a) s)).

Lemma retire_eq caller a o s :
  ∃ d, retire caller a o s =
    set_df d (set_types (tset (phys_to_idx s a) PAGE_TYPE_FREE (page_types s))
      (set_used (uclear (page_index s a) (used_bmp s)) s)).
Proof.
  unfold retire. rewrite used_clear_eq, page_type_set_eq. unfold df_record.
  case_ifs; eexists; [|reflexivity]. by destruct s.
Qed.

Lemma release_eq caller a o old_type s :
  release caller a o old_type (page_index s a) s =
    let s1 := retire caller a o s in
    if (o =? 0)%nat && (old_type =? PAGE_TYPE_PTE) then
      match pte_refc_dec a s1 with
      | (true, s2) => match q_push a s2 with
                      | (true, s3) => Done s3
                      | (false, s3) => free_one a 0 s3
                      end
      | (false, s2) => Done s2
      end
    else free_one a (o `mod` 256)%nat s1.
Proof. reflexivity. Qed.

(** [free_one] looks at the reference counts, the quarantine and the records
    through the free lists only: it carries them along. *)
Lemma pte_refc_dec_eq a s :
  region_ok s → tables_cover s → page_ok s a →
  let v := getd 0 (pte_refcs s) (pidx s a) in
  let v' := if 0 <? v then v - 1 else v in
  pte_refc_dec a s = (v' =? 0, set_refcs (<[pidx s a := v']> (pte_refcs s)) s).
Proof.
  intros Hr Hc Hp. pose proof (pidx_bound s a Hr Hc Hp). unfold pte_refc_dec.
  rewrite phys_to_idx_eq by done. unfold MAX_REFC_PAGES.
  destruct (Z.ltb_spec (pidx s a) (2 ^ 21)); [done|lia].
Qed.

Lemma pte_refc_get_eq s a :
  region_ok s → tables_cover s → page_ok s a →
  pte_refc_get s a = getd 0 (pte_refcs s) (pidx s a).
Proof.
  intros Hr Hc Hp. pose proof (pidx_bound s a Hr Hc Hp). unfold pte_refc_get.
  rewrite phys_to_idx_eq by done. unfold MAX_REFC_PAGES.
  destruct (Z.ltb_spec (pidx s a) (2 ^ 21)); [done|lia].
Qed.

Section release.
Context (caller : Z) (s : kmem) (ls : nat → list Z) (a : Z) (o : nat).
Context (Hwf : fl_wf s ls) (Hcov : tables_cover s) (Hq : q_wf (quar s)).
Context (Hok : blk_ok s a o) (Hout : blk_out ls a o).
Context (Hrc : ∀ i, 0 ≤ getd 0 (pte_refcs s) i).

(** The outcome of [release], apart from the tables. *)
Definition release_post (s' : kmem) (ls' : nat → list Z) : Prop :=
  fl_wf s' ls' ∧ q_wf (quar s') ∧ base (al s') = base (al s) ∧ pages (al s') = pages (al s) ∧
  fate_post (free_fate s a o) a o s ls s' ls' ∧
  (∀ x, ¬ in_blk a o x → ¬ free_at ls x → hdr s' x = hdr s x) ∧
  (coalesced ls → coalesced ls') ∧
  (∀ i, 0 ≤ getd 0 (pte_refcs s') i) ∧
  tables s' = tables (retire caller a o s).

Lemma release_to_lists s1 :
  free_fate s a o = ToLists →
  (∃ q r, s1 = set_quar q (set_refcs r (retire caller a o s)) ∧
     q_wf q ∧ q_list q = q_list (quar s) ∧ ∀ i, 0 ≤ getd 0 r i) →
  ∃ s' ls', free_one a o s1 = Done s' ∧ release_post s' ls'.
Proof.
  intros Hf (q & r & -> & Hqw & Hql & Hr). destruct (retire_eq caller a o s) as [d Hd].
  pose proof (wf_region _ _ Hwf) as Hrg.
  assert (fl_wf (set_quar q (set_refcs r (retire caller a o s))) ls) as Hwf1.
  { rewrite Hd. by eapply fl_wf_ext; [..|exact Hwf]. }
  assert (blk_ok (set_quar q (set_refcs r (retire caller a o s))) a o) as Hok1.
  { rewrite Hd. exact Hok. }
  destruct (free_one_spec a o _ ls Hwf1 Hok1 Hout)
    as (s' & ls' & Hrun & Hlo & Hwf' & Hfree & Hfr & Hco).
  exists s', ls'. split; [done|].
  pose proof (rest_lists_only _ _ Hlo) as Hrest. pose proof (tables_lists_only _ _ Hlo) as Htab.
  assert (page_type_get (set_quar q (set_refcs r (retire caller a o s))) a = PAGE_TYPE_FREE) as Hty.
  { rewrite Hd. rewrite page_type_eq by (try done; by eapply blk_page).
    change (getd 0 (tset (phys_to_idx s a) PAGE_TYPE_FREE (page_types s)) (pidx s a) = PAGE_TYPE_FREE).
    rewrite tset_get by (try done; by eapply blk_page). by rewrite bool_decide_true. }
  rewrite Hty in Hco. cbn [Z.eqb PAGE_TYPE_FREE PAGE_TYPE_PTE] in Hco. rewrite andb_false_r in Hco.
  destruct Hlo as (fl & m & Hs'). unfold release_post, fate_post. rewrite Hf.
  rewrite Hd in Hs'. split_and!; [done|by rewrite Hs'|by rewrite Hs'|by rewrite Hs'|done|by rewrite Hs'| |auto| |].
  - intros x Hx Hnf. rewrite Hfr by done. by rewrite Hd.
  - by rewrite Hs'.
  - by rewrite Htab.
Qed.

Lemma release_spec :
  ∃ s' ls', release caller a o (page_type_get s a) (page_index s a) s = Done s' ∧
    release_post s' ls'.
Proof.
  pose proof (wf_region _ _ Hwf) as Hrg. pose proof (blk_page _ _ _ Hok) as Hpok.
  rewrite release_eq. cbv zeta. destruct (retire_eq caller a o s) as [d Hd].
  destruct ((o =? 0)%nat && (page_type_get s a =? PAGE_TYPE_PTE)) eqn:Hpte.
  - assert (o = 0%nat) as Ho by (by bool_to_prop).
    set (v := getd 0 (pte_refcs s) (pidx s a)).
    set (v' := if 0 <? v then v - 1 else v).
    assert (pte_refc_dec a (retire caller a o s) =
      (v' =? 0, set_refcs (<[pidx s a := v']> (pte_refcs s)) (retire caller a o s))) as ->.
    { rewrite Hd. by rewrite pte_refc_dec_eq. }
    assert (∀ i, 0 ≤ getd 0 (<[pidx s a := v']> (pte_refcs s)) i) as Hrc'.
    { intros i. rewrite getd_insert. case_decide; [|done]. pose proof (Hrc (pidx s a)).
      unfold v'. destruct (Z.ltb_spec 0 v); unfold v in *; lia. }
    assert (fl_wf (retire caller a o s) ls) as Hwf1.
    { rewrite Hd. by eapply fl_wf_ext; [..|exact Hwf]. }
    assert (pte_refc_get s a = v) as Hv by (by rewrite pte_refc_get_eq).
    pose proof (Hrc (pidx s a)) as Hv0. fold v in Hv0.
    unfold release_post, free_fate. rewrite Hpte, Hv.
    destruct (Z.ltb_spec 1 v) as [Hgt|Hle].
    + assert (v' =? 0 = false) as ->.
      { apply Z.eqb_neq. unfold v'. destruct (Z.ltb_spec 0 v); lia. }
      eexists _, ls. split; [done|]. unfold fate_post. rewrite Hd in *.
      split_and!; try done. by eapply fl_wf_ext; [..|exact Hwf1].
    + assert (v' =? 0 = true) as ->.
      { apply Z.eqb_eq. unfold v'. destruct (Z.ltb_spec 0 v); lia. }
      destruct (q_push a _) as [ok s3] eqn:Hpush.
      apply q_push_refines in Hpush as (Hqw & Hql & Hs3); [|by rewrite Hd].
      unfold q_push_spec in Hql. rewrite q_list_length in Hql.
      assert (quar (set_refcs (<[pidx s a := v']> (pte_refcs s)) (retire caller a o s)) = quar s)
        as Hqs by (by rewrite Hd).
      rewrite Hqs in Hql. rewrite (q_wf_cap _ Hq).
      destruct (Nat.ltb_spec (q_count (quar s)) QUARANTINE_MAX_CAP); injection Hql as -> Hql.
      * exists s3, ls. split; [done|]. rewrite Hs3. unfold fate_post. rewrite Hd in *.
        split_and!; try done. by eapply fl_wf_ext; [..|exact Hwf1].
      * destruct (release_to_lists s3) as (s' & ls' & Hrun & Hpost).
        { unfold free_fate. rewrite Hpte, Hv, (q_wf_cap _ Hq).
          destruct (Z.ltb_spec 1 v); [lia|].
          by destruct (Nat.ltb_spec (q_count (quar s)) QUARANTINE_MAX_CAP); [lia|]. }
        { exists (quar s3), (<[pidx s a := v']> (pte_refcs s)).
          split_and!; [done|done|by rewrite Hql|done]. }
        rewrite Ho in Hrun |- *. exists s', ls'. split; [done|].
        unfold release_post, free_fate in Hpost.
        rewrite Hpte, Hv, (q_wf_cap _ Hq) in Hpost.
        destruct (Z.ltb_spec 1 v); [lia|].
        destruct (Nat.ltb_spec (q_count (quar s)) QUARANTINE_MAX_CAP); [lia|].
        by rewrite Ho in Hpost.
  - assert (o `mod` 256 = o)%nat as ->.
    { destruct Hok as (Ho & _). apply Nat.mod_small. unfold MAX_ORDER in *. lia. }
    apply release_to_lists.
    + unfold free_fate. by rewrite Hpte.
    + exists (quar s), (pte_refcs s). split_and!; [|done|done|done].
      rewrite Hd. by destruct s.
Qed.

End release.

(** * Regions and reservations

    [add_region] carves a range of memory into the largest aligned blocks and
    frees each; [reserve] and [mark_allocated] take pages off the lists. *)

(** ** [max_order_for] *)

Lemma land_block_size o a : (o ≤ MAX_ORDER)%nat →
  (Z.land a (block_size o - 1) =? 0) = true ↔ (block_size o | a).
Proof.
  intros Ho. rewrite block_size_pow by done.
  replace (2 ^ (12 + Z.of_nat o) - 1) with (Z.ones (12 + Z.of_nat o)) by (rewrite Z.ones_equiv; lia).
  rewrite Z.land_ones, Z.eqb_eq by lia. apply Z.mod_divide. pose proof (Z.pow_pos_nonneg 2 (12 + Z.of_nat o)). lia.
Qed.

(** A block of order [o] can start at [a] when [n] bytes are left. *)
Definition fits (a n : Z) (o : nat) : Prop := (block_size o | a) ∧ block_size o ≤ n.

Lemma max_order_loop_spec k a n :
  (k ≤ MAX_ORDER)%nat →
  let o := max_order_loop k a n in
  (o ≤ k)%nat ∧ (o ≠ 0%nat → fits a n o) ∧ (∀ o', (o < o' ≤ k)%nat → ¬ fits a n o').
Proof.
  intros Hk. induction k as [|k IH]; [simpl; split_and!; [lia|done|lia]|].
  cbn [max_order_loop].
  destruct ((Z.land a (block_size (S k) - 1) =? 0) && (block_size (S k) <=? n)) eqn:Hc.
  - apply andb_true_iff in Hc as [Hd%land_block_size Hn%Z.leb_le]; [|done].
    split_and!; [lia|by split|lia].
  - destruct IH as (? & ? & Hmax); [lia|]. split_and!; [lia|done|]. intros o' Ho' [Hd Hn].
    destruct (decide (o' = S k)) as [->|]; [|by apply (Hmax o'); [lia|]].
    apply andb_false_iff in Hc as [Hc|Hc].
    + apply land_block_size in Hd; [|done]. congruence.
    + apply Z.leb_gt in Hc. lia.
Qed.

Lemma max_order_fits a n :
  (PAGE_SIZE | a) → PAGE_SIZE ≤ n →
  let o := max_order_for a n in (o ≤ MAX_ORDER)%nat ∧ fits a n o.
Proof.
  intros Ha Hn. destruct (max_order_loop_spec MAX_ORDER a n) as (? & Hf & _); [lia|].
  split; [done|]. fold (max_order_for a n) in *. destruct (max_order_for a n); [|by apply Hf].
  unfold fits. by rewrite block_size_0.
Qed.

Lemma max_order_page a : max_order_for a PAGE_SIZE = 0%nat.
Proof.
  destruct (max_order_loop_spec MAX_ORDER a PAGE_SIZE) as (Hle & Hf & _); [lia|].
  fold (max_order_for a PAGE_SIZE) in *. destruct (max_order_for a PAGE_SIZE) as [|k]; [done|].
  destruct Hf as [_ Hf]; [done|]. rewrite block_size_S in Hf by lia.
  pose proof (block_size_bound k ltac:(lia)). unfold PAGE_SIZE in *. lia.
Qed.

(** ** [add_region] *)

(** No list entry reaches into the range. *)
Definition range_out (ls : nat → list Z) (lo hi : Z) : Prop := ∀ p, lo ≤ p < hi → ¬ free_at ls p.

(** The bytes of the whole pages of a range. *)
Definition in_pages (lo hi p : Z) : Prop := lo ≤ p < lo + (hi - lo) / PAGE_SIZE * PAGE_SIZE.

Lemma range_blk_out ls lo hi o : (o ≤ MAX_ORDER)%nat →
  range_out ls lo hi → lo + block_size o ≤ hi → blk_out ls lo o.
Proof.
  intros Ho Hr Hle o' a' Ho' Ha'. pose proof (block_size_bound o Ho). pose proof (block_size_bound o' Ho').
  unfold PAGE_SIZE in *. unfold disj.
  destruct (decide (lo + block_size o ≤ a')); [by left|].
  destruct (decide (a' + block_size o' ≤ lo)); [by right|]. exfalso.
  apply (Hr (Z.max lo a')); [lia|]. exists o', a'. split_and!; [done|done|]. unfold in_blk. lia.
Qed.

Lemma in_pages_step lo hi bs p :
  0 < bs → (PAGE_SIZE | bs) → lo + bs ≤ hi →
  in_pages lo hi p ↔ lo ≤ p < lo + bs ∨ in_pages (lo + bs) hi p.
Proof.
  intros Hbs [k ->] Hle. unfold in_pages, PAGE_SIZE in *.
  replace (hi - (lo + k * 4096)) with (hi - lo + - k * 4096) by lia.
  rewrite Z.div_add by lia. assert (k ≤ (hi - lo) / 4096) by (apply Z.div_le_lower_bound; lia). lia.
Qed.

Lemma in_pages_done lo hi p : hi < lo + PAGE_SIZE → ¬ in_pages lo hi p.
Proof.
  unfold in_pages, PAGE_SIZE. intros Hlt Hp.
  assert ((hi - lo) / 4096 < 1) by (apply Z.div_lt_upper_bound; lia). lia.
Qed.

Lemma add_region_loop_spec fuel lo hi s ls :
  fl_wf s ls → base (al s) ≤ lo → hi ≤ base (al s) + pages (al s) * PAGE_SIZE →
  (PAGE_SIZE | lo) → range_out ls lo hi → hi - lo < (Z.of_nat fuel + 1) * PAGE_SIZE → lo < 2 ^ 63 →
  ∃ s' ls', add_region_loop fuel lo hi s = Done s' ∧ lists_only s s' ∧ fl_wf s' ls' ∧
    (∀ p, free_at ls' p ↔ free_at ls p ∨ in_pages lo hi p) ∧
    ((∀ a, page_type_get s a ≠ PAGE_TYPE_PTE) → coalesced ls → coalesced ls').
Proof.
  revert lo s ls. induction fuel as [|fuel IH]; intros lo s ls Hwf Hlo Hhi Hal Hout Hfuel Hbig;
    pose proof (wf_region _ _ Hwf) as (Hr1 & Hr2 & Hr3 & Hr4); cbn [add_region_loop].
  all: rewrite w64_small by (unfold PAGE_SIZE in *; lia).
  all: destruct (Z.leb_spec (lo + PAGE_SIZE) hi) as [Hle|Hgt]; [|exists s, ls; split_and!;
    [done|done|done|intros p; pose proof (in_pages_done lo hi p Hgt); tauto|done]].
  { lia. }
  rewrite w64_small by (unfold PAGE_SIZE in *; lia).
  destruct (max_order_fits lo (hi - lo)) as (Ho & Hd & Hn); [done|lia|].
  set (o := max_order_for lo (hi - lo)) in *.
  pose proof (block_size_bound o Ho) as Hbs.
  assert (blk_ok s lo o) as Hok by (split_and!; [done|done|lia|done]).
  destruct (free_one_spec lo o s ls Hwf Hok) as (s1 & ls1 & -> & Hlo1 & Hwf1 & Hfr1 & _ & Hco1).
  { eapply range_blk_out; [done|done|lia]. }
  cbn [cbind]. rewrite w64_small by (unfold PAGE_SIZE in *; lia).
  pose proof Hlo1 as (fl & m & Hs1).
  destruct (IH (lo + block_size o) s1 ls1) as (s' & ls' & Hrun & Hlo' & Hwf' & Hfr' & Hco').
  - done.
  - rewrite Hs1. simpl. unfold PAGE_SIZE in *. lia.
  - rewrite Hs1. simpl. lia.
  - apply Z.divide_add_r; [done|]. rewrite <- block_size_0. apply block_size_divide. lia.
  - intros p Hp [Hb|Hf]%Hfr1; [unfold in_blk in *; lia|]. apply (Hout p); [unfold PAGE_SIZE in *; lia|done].
  - unfold PAGE_SIZE in *. lia.
  - unfold PAGE_SIZE in *. lia.
  - exists s', ls'. split_and!; [done|by etrans|done| |].
    + intros p. rewrite Hfr', Hfr1, (in_pages_step lo hi (block_size o)); [unfold in_blk; tauto| | |lia].
      * unfold PAGE_SIZE in *. lia.
      * rewrite <- block_size_0. apply block_size_divide. lia.
    + intros Ht Hco. apply Hco'; [rewrite Hs1; apply Ht|]. apply Hco1; [|done].
      apply andb_false_iff. right. by apply Z.eqb_neq.
Qed.

(** ** Taking pages off the lists *)

Lemma remove_loop_absent fuel s c t l :
  chain (mem s) (cell_get s c) l → t ∉ l → (length l < fuel)%nat → remove_loop fuel c t s = Done s.
Proof.
  revert fuel c. induction l as [|a l IH]; intros [|fuel] c; try (simpl; lia);
    cbn [chain remove_loop length]; cbv zeta.
  - intros -> _ _. done.
  - intros (Heq & Hnz & Hch) Hni Hlen. rewrite Heq. apply Z.eqb_neq in Hnz as ->.
    destruct (Z.eqb_spec a t) as [->|]; [set_solver|]. apply IH; [done|set_solver|lia].
Qed.

(** Taking a block off a list when it is there; a header that merely looks
    like one is left alone. *)
Lemma remove_if_free_spec o a s ls :
  fl_wf s ls → (o ≤ MAX_ORDER)%nat →
  ∃ s' ls', remove_if_free a o s = Done s' ∧ lists_only s s' ∧ fl_wf s' ls' ∧
    (∀ k, ls' k `sublist_of` ls k) ∧ (∀ p, free_at ls p → free_at ls' p ∨ in_blk a o p) ∧
    a ∉ ls' o ∧ (∀ x, x ∉ ls o → hdr s' x = hdr s x).
Proof.
  intros Hwf Ho. unfold remove_if_free.
  destruct (decide (a ∈ ls o)) as [Hin|Hni].
  - destruct (wf_hdr _ _ Hwf o a Ho Hin) as [-> ->]. rewrite !Z.eqb_refl. cbn [andb].
    pose proof Hin as (l1 & l2 & Hl)%list_elem_of_split.
    destruct (remove_from_list_wf s ls o a l1 l2 Hwf Ho Hl) as (s' & -> & Hlo & Hwf' & Hfr).
    exists s', (<[o := l1 ++ l2]> ls). split_and!; [done|done|done| | | |done].
    + apply upd_sublist. rewrite Hl. apply sublist_remove.
    + intros p Hp. apply (remove_free_at ls o a l1 l2) in Hp; [tauto|done|done].
    + rewrite fn_lookup_insert. pose proof (wf_nodup _ _ Hwf o Ho) as Hnd. rewrite Hl in Hnd.
      apply list.NoDup_app in Hnd as (_ & Hd & Hnd). apply list.NoDup_cons in Hnd as [? _].
      rewrite elem_of_app. intros [Hx|]; [|done]. apply (Hd a Hx), list_elem_of_here.
  - exists s, ls. split_and!; [|reflexivity|done|done|by left|done|done].
    case_ifs; [|done]. unfold remove_from_list. rewrite (wf_head _ _ _ Hwf Ho). cbn [cbind].
    eapply remove_loop_absent; [|exact Hni|by eapply wf_length].
    simpl. by apply wf_chain.
Qed.

(** [mark_allocated] of one page. *)
Lemma mark_page_spec a s ls :
  fl_wf s ls → 0 ≤ a < 2 ^ 63 →
  ∃ s' ls', mark_allocated_nolock a PAGE_SIZE s = Done s' ∧ lists_only s s' ∧ fl_wf s' ls' ∧
    (∀ k, ls' k `sublist_of` ls k) ∧ (∀ p, free_at ls p → free_at ls' p ∨ in_blk a 0 p) ∧
    a ∉ ls' 0%nat ∧ (∀ x, x ∉ ls 0%nat → hdr s' x = hdr s x).
Proof.
  intros Hwf Ha.
  destruct (remove_if_free_spec 0 a s ls Hwf ltac:(lia)) as (s' & ls' & Hrun & ?).
  exists s', ls'. split; [|done]. unfold mark_allocated_nolock.
  change (Z.to_nat ((PAGE_SIZE + PAGE_SIZE - 1) / PAGE_SIZE)) with 1%nat.
  cbn [mark_allocated_loop]. rewrite (w64_small (a + PAGE_SIZE)) by (unfold PAGE_SIZE; lia).
  rewrite (proj2 (Z.ltb_lt _ _)) by (unfold PAGE_SIZE; lia).
  replace (a + PAGE_SIZE - a) with PAGE_SIZE by lia.
  rewrite (w64_small PAGE_SIZE), max_order_page by (unfold PAGE_SIZE; lia).
  rewrite Hrun. cbn [cbind]. rewrite block_size_0, (w64_small (a + PAGE_SIZE)) by (unfold PAGE_SIZE; lia).
  by rewrite (proj2 (Z.ltb_ge _ _)) by lia.
Qed.
