(* ===== verification/BuddySpec.v ===== *)
(** * What the page allocator promises

    The specification of the whole allocator: [free] of a block in use, the
    state machine of its clients (allocations, frees, page-table pages, writes
    into blocks in use), the invariant of that machine and the headline
    theorems about [alloc], [free], the audit and the counters. *)

From S2P Require Import Prelude Buddy BuddyInv BuddyOps BuddyTables BuddyFree BuddyAudit Ring.
From stdpp Require Import base gmap numbers functions list relations.
From stdpp Require Import base gmap numbers functions list.
Local Open Scope Z_scope.

(** ** [free] of a block in use *)

Definition fset (i : Z) (m : gmap Z Z) : gmap Z Z :=
  <[Z.shiftr i 6 := Z.lor (getd 0 m (Z.shiftr i 6)) (Z.shiftl 1 (Z.land i 63))]> m.

Definition free_post (a : Z) (o : nat) (s : kmem) (ls : nat → list Z)
    (s' : kmem) (ls' : nat → list Z) : Prop :=
  fl_wf s' ls' ∧ q_wf (quar s') ∧ base (al s') = base (al s) ∧ pages (al s') = pages (al s) ∧
  fate_post (free_fate s a o) a o s ls s' ls' ∧
  (∀ x, ¬ in_blk a o x → ¬ free_at ls x → hdr s' x = hdr s x) ∧
  (coalesced ls → coalesced ls') ∧
  (∀ i, 0 ≤ getd 0 (pte_refcs s') i) ∧
  tables s' = (uclear (page_index s a) (used_bmp s), fset (pidx s a) (freed_bmp s),
               tset (phys_to_idx s a) PAGE_TYPE_FREE (page_types s)).

Lemma unreserve_set a s :
  ∃ r n, (if is_reserved s a then (unreserve_nolock a s).2 else s) = set_reserved r n s.
Proof.
  destruct (is_reserved s a).
  - unfold unreserve_nolock. destruct (first_from _ _ _).
    + eexists _, _. reflexivity.
    + exists (reserved (al s)), (reserved_count (al s)). by destruct s as [[]].
  - exists (reserved (al s)), (reserved_count (al s)). by destruct s as [[]].
Qed.

Lemma free_spec caller s ls a o :
  fl_wf s ls → tables_cover s → q_wf (quar s) → blk_ok s a o → blk_out ls a o →
  (∀ i, 0 ≤ getd 0 (pte_refcs s) i) → tab_live s a →
  ∃ s' ls', free caller a o s = Done s' ∧ free_post a o s ls s' ls'.
Proof.
  intros Hwf Hcov Hq Hok Hout Hrc (Hu & Hty & Hf).
  pose proof (wf_region _ _ Hwf) as Hr. pose proof (blk_page _ _ _ Hok) as Hp.
  unfold free. rewrite track_eq, Hf by done. fold (fset (pidx s a) (freed_bmp s)).
  set (s0 := set_freed _ s). destruct (unreserve_set a s0) as (r & n & ->).
  set (s1 := set_reserved r n s0).
  assert (fl_wf s1 ls) as Hwf1 by (by eapply fl_wf_ext; [..|exact Hwf]).
  assert (used_set s1 (page_index s1 a) = true) as -> by (by rewrite used_set_eq).
  assert (page_type_get s1 a = getd 0 (page_types s) (pidx s a)) as Ht by (by rewrite page_type_eq).
  rewrite Ht, (proj2 (Z.eqb_neq _ _)) by done. cbn [negb orb]. rewrite <- Ht.
  destruct (release_spec caller s1 ls a o Hwf1 Hcov Hq Hok Hout Hrc)
    as (s2 & ls' & -> & Hwf2 & Hq2 & Hb2 & Hpg2 & Hfate & Hfr & Hco & Hrc2 & Htab).
  cbn [cbind].
  assert (tables_cover s2) as Hcov2 by (unfold tables_cover; by rewrite Hpg2).
  destruct (maybe_audit_wf s2 ls' Hwf2 Hcov2) as (c & ow & act & ->).
  eexists _, ls'. split; [done|]. unfold free_post.
  split_and!; [by eapply fl_wf_ext; [..|exact Hwf2]|done..|].
  destruct (retire_eq caller a o s1) as [d Hd]. rewrite Hd in Htab. exact Htab.
Qed.

(** Freeing takes the block off the live tables and no other one. *)
Lemma free_tab s ls a o s' ls' :
  fl_wf s ls → tables_cover s → blk_ok s a o → free_post a o s ls s' ls' →
  (∀ b, page_ok s b → b ≠ a → tab_live s b → tab_live s' b) ∧
  bmp_get (freed_bmp s') (pidx s' a) = true ∧ page_is_used s' a = false.
Proof.
  intros Hwf Hc Hok (Hwf' & _ & Hb & Hpg & _ & _ & _ & _ & Ht).
  pose proof (wf_region _ _ Hwf) as Hr. pose proof (blk_page _ _ _ Hok) as Hp.
  assert (page_ok s' a) as Hp' by (unfold page_ok, blk_ok; rewrite Hb, Hpg; exact Hp).
  rewrite page_is_used_eq; [|by apply (wf_region _ _ Hwf')|by unfold tables_cover; rewrite Hpg|done].
  injection Ht as Hu Hf Htt. unfold tab_live, pidx. rewrite Hb, Hu, Hf, Htt. fold (pidx s a).
  split_and!.
  - intros b Hpb Hne. fold (pidx s b). unfold fset.
    rewrite uclear_get, fset_get, tset_get by done.
    rewrite bool_decide_false by done. done.
  - unfold fset. rewrite fset_get by done. by rewrite bool_decide_true.
  - rewrite uclear_get by done. by rewrite bool_decide_true.
Qed.

(** ** Blocks held by clients *)

Definition disj2 (x y : Z * nat) : Prop := disj x.1 x.2 y.1 y.2.

Fixpoint pairwise (l : list (Z * nat)) : Prop :=
  match l with
  | [] => True
  | x :: l' => (∀ y, y ∈ l' → disj2 x y) ∧ pairwise l'
  end.

Lemma disj2_sym x y : disj2 x y → disj2 y x.
Proof. unfold disj2, disj. tauto. Qed.

(** The order in which blocks are held does not matter. *)
#[export] Instance pairwise_perm : Proper ((≡ₚ) ==> iff) pairwise.
Proof.
  assert (∀ l k, l ≡ₚ k → pairwise l → pairwise k) as Hp.
  { induction 1 as [|x l k Hlk IH|x y l|]; cbn [pairwise]; [done| | |tauto].
    - intros [Hx Hl]. split; [|tauto]. intros y. rewrite <- Hlk. auto.
    - intros (Hy & Hx & Hl). split_and!; [|set_solver|done].
      intros z [->|Hz]%elem_of_cons; [|auto]. apply disj2_sym, Hy. set_solver. }
  intros l k Hlk. split; apply Hp; [done|by symmetry].
Qed.

Lemma pairwise_lookup l i j x y :
  pairwise l → l !! i = Some x → l !! j = Some y → i ≠ j → disj2 x y.
Proof.
  revert i j. induction l as [|z l IH]; intros i j Hp Hi Hj Hne; [done|].
  destruct Hp as [Hz Hp]. destruct i as [|i], j as [|j]; simpl in *.
  - done.
  - injection Hi as <-. apply Hz. by eapply list_elem_of_lookup_2.
  - injection Hj as <-. apply disj2_sym, Hz. by eapply list_elem_of_lookup_2.
  - eauto.
Qed.

(** The quarantined pages are held by the allocator itself. *)
Definition held (s : kmem) (live : list (Z * nat)) : list (Z * nat) :=
  live ++ ((λ a, (a, 0%nat)) <$> q_list (quar s)).

Record ainv (s : kmem) (ls : nat → list Z) (live : list (Z * nat)) : Prop := {
  ai_wf : fl_wf s ls;
  ai_cover : tables_cover s;
  ai_quar : q_wf (quar s);
  ai_refc : ∀ i, 0 ≤ getd 0 (pte_refcs s) i;
  ai_ok : ∀ x, x ∈ held s live → blk_ok s x.1 x.2;
  ai_out : ∀ x, x ∈ held s live → blk_out ls x.1 x.2;
  ai_pair : pairwise (held s live);
  ai_live : ∀ x, x ∈ live → tab_live s x.1;
  ai_coal : coalesced ls;
}.

Lemma held_live s live x : x ∈ live → x ∈ held s live.
Proof. unfold held. set_solver. Qed.

Lemma blk_ok_ext s s' a o :
  base (al s') = base (al s) → pages (al s') = pages (al s) → blk_ok s' a o ↔ blk_ok s a o.
Proof. unfold blk_ok. by intros -> ->. Qed.

Lemma held_eq s s' live : q_list (quar s') = q_list (quar s) → held s' live = held s live.
Proof. unfold held. by intros ->. Qed.

(** A block outside the lists stays outside when the lists shrink. *)
Lemma blk_out_free_at ls a o : (o ≤ MAX_ORDER)%nat →
  (∀ p, in_blk a o p → ¬ free_at ls p) → blk_out ls a o.
Proof.
  intros Ho Hp o' a' Ho' Ha'. pose proof (block_size_bound o Ho). pose proof (block_size_bound o' Ho').
  unfold PAGE_SIZE in *. unfold disj.
  destruct (decide (a + block_size o ≤ a')); [by left|].
  destruct (decide (a' + block_size o' ≤ a)); [by right|]. exfalso.
  apply (Hp (Z.max a a')); [unfold in_blk; lia|]. exists o', a'. split_and!; [done|done|].
  unfold in_blk. lia.
Qed.

Lemma free_at_blk_out ls a o p : blk_out ls a o → in_blk a o p → ¬ free_at ls p.
Proof.
  intros Hout Hp (o' & a' & Ho' & Ha' & Hin). specialize (Hout _ _ Ho' Ha').
  unfold disj, in_blk in *. lia.
Qed.

Lemma blk_out_shrink ls ls' a o : (o ≤ MAX_ORDER)%nat →
  (∀ p, free_at ls' p → free_at ls p) → blk_out ls a o → blk_out ls' a o.
Proof.
  intros Ho Hsub Hout. apply blk_out_free_at; [done|]. intros p Hp Hf.
  by eapply free_at_blk_out; [..|apply Hsub].
Qed.

(** States that agree on what the invariant looks at. *)
Lemma ainv_shrink s s' ls ls' live :
  fl_wf s' ls' → base (al s') = base (al s) → pages (al s') = pages (al s) →
  quar s' = quar s → (∀ i, 0 ≤ getd 0 (pte_refcs s') i) →
  (∀ p, free_at ls' p → free_at ls p) → (coalesced ls → coalesced ls') →
  (∀ x, x ∈ live → tab_live s' x.1) → ainv s ls live → ainv s' ls' live.
Proof.
  intros Hwf Hb Hp Hq Hrc Hsub Hco Ht [H1 H2 H3 H4 H5 H6 H7 H8 H9].
  assert (held s' live = held s live) as Hh by (apply held_eq; by rewrite Hq).
  split; rewrite ?Hh, ?Hq; try done.
  - unfold tables_cover. by rewrite Hp.
  - intros x Hx. apply (blk_ok_ext s); auto.
  - intros x Hx. destruct (H5 x Hx) as (? & _). eapply blk_out_shrink; eauto.
  - auto.
Qed.

Lemma disj_points a o b o' : (o ≤ MAX_ORDER)%nat → (o' ≤ MAX_ORDER)%nat →
  (∀ p, in_blk a o p → ¬ in_blk b o' p) → disj a o b o'.
Proof.
  intros Ho Ho' Hp. pose proof (block_size_bound o Ho). pose proof (block_size_bound o' Ho').
  unfold PAGE_SIZE in *. unfold disj. destruct (decide (a + block_size o ≤ b)); [by left|].
  destruct (decide (b + block_size o' ≤ a)); [by right|]. exfalso.
  apply (Hp (Z.max a b)); unfold in_blk; lia.
Qed.

(** ** Each operation keeps the invariant *)

Lemma alloc_spec o s ls r s' :
  fl_wf s ls → alloc o s = (r, s') →
  ∃ ls', fl_wf s' ls' ∧ rest s' = rest s ∧ (∀ p, free_at ls' p → free_at ls p) ∧
    (coalesced ls → coalesced ls') ∧
    match r with
    | Some a => alloc_post o s ls a s' ls'
    | None => alloc_fail o s ls s'
    end.
Proof.
  intros Hwf Hrun. unfold alloc, alloc_nolock in Hrun.
  destruct (decide (o ≤ MAX_ORDER)%nat) as [Ho|Ho].
  - eapply alloc_scan_spec; [| | | |exact Hwf|exact Hrun]; unfold MAX_ORDER in *; lia.
  - replace (S MAX_ORDER - o)%nat with 0%nat in Hrun by lia. injection Hrun as <- <-.
    exists ls. unfold alloc_fail. split_and!; try done. intros _. split; [done|]. lia.
Qed.

Lemma alloc_ainv o s ls live r s' :
  ainv s ls live → alloc o s = (r, s') →
  ∃ ls', ainv s' ls' (match r with Some a => (a, o) :: live | None => live end) ∧
    (∀ p, free_at ls' p → free_at ls p) ∧
    match r with
    | Some a => alloc_post o s ls a s' ls'
    | None => alloc_fail o s ls s'
    end.
Proof.
  intros Hinv Hrun. pose proof (ai_wf _ _ _ Hinv) as Hwf.
  destruct (alloc_spec o s ls r s' Hwf Hrun) as (ls' & Hwf' & Hrest & Hsub & Hco & Hr).
  exists ls'. pose proof Hrest as Hrest'.
  injection Hrest' as Hb Hp _ _ Hrc _ Hq _ _ _ _.
  assert (∀ live, (∀ x, x ∈ live → tab_live s' x.1) → ainv s ls live → ainv s' ls' live) as Hkeep.
  { intros l Ht Hi. eapply ainv_shrink; eauto. rewrite Hrc. apply Hinv. }
  destruct r as [a|]; (split_and!; [|done|done]).
  - destruct (alloc_tab_live o s ls a s' ls' Hwf ltac:(apply Hinv) Hr Hrest) as [Hla Hlo].
    destruct Hr as (_ & Hok & Hout & Hfrom & _).
    assert (ainv s' ls' live) as [H1 H2 H3 H4 H5 H6 H7 H8 H9].
    { apply Hkeep; [|done]. intros x Hx. apply Hlo; [|by apply (ai_live _ _ _ Hinv)].
      eapply blk_page, (ai_ok _ _ _ Hinv), held_live. done. }
    assert (blk_ok s' a o) as Hok' by (by apply (blk_ok_ext s)).
    split; try done.
    + intros x [->|Hx]%elem_of_cons; [done|by apply H5].
    + intros x [->|Hx]%elem_of_cons; [done|by apply H6].
    + split; [|done]. intros y Hy. change (y ∈ held s' live) in Hy.
      apply disj_points; [apply Hok|by apply (H5 y)|]. intros p Hpa Hpy.
      rewrite (held_eq s) in Hy by (by rewrite Hq).
      by eapply free_at_blk_out; [apply (ai_out _ _ _ Hinv y)|..|apply Hfrom].
    + intros x [->|Hx]%elem_of_cons; [done|by apply H8].
  - apply Hkeep; [|done]. intros x Hx. destruct Hr as (Ht & _).
    eapply tab_live_ext; [exact Ht|exact Hb|by apply (ai_live _ _ _ Hinv)].
Qed.

(** Where the blocks held after [free] come from. *)
Lemma fate_held a o s ls s' ls' live y :
  fate_post (free_fate s a o) a o s ls s' ls' → y ∈ held s' live →
  y ∈ held s live ∨ y = (a, o) ∧ free_fate s a o = ToQuarantine.
Proof.
  intros Hfate Hy. unfold held, fate_post, free_fate in *. rewrite elem_of_app in Hy |- *.
  case_ifs; destruct Hfate as [_ Hql]; rewrite Hql in Hy; try tauto.
  rewrite fmap_app, elem_of_app in Hy. bool_to_prop. set_solver.
Qed.

Lemma fate_pairwise a o s ls s' ls' live :
  fate_post (free_fate s a o) a o s ls s' ls' → pairwise ((a, o) :: held s live) →
  pairwise (held s' live).
Proof.
  intros Hfate [Ha Hp]. unfold fate_post in Hfate.
  destruct (free_fate s a o) eqn:Hf; destruct Hfate as [_ Hql];
    [by rewrite (held_eq s) by done| |by rewrite (held_eq s) by done].
  assert (o = 0%nat) as ->. { revert Hf. unfold free_fate. case_ifs; try done. by bool_to_prop. }
  unfold held. rewrite Hql, fmap_app, app_assoc. fold (held s live).
  rewrite Permutation_app_comm. by split.
Qed.

Lemma fate_out a o s ls s' ls' b o' :
  fate_post (free_fate s a o) a o s ls s' ls' → (o' ≤ MAX_ORDER)%nat → blk_out ls b o' →
  disj a o b o' ∨ free_fate s a o = ToQuarantine → blk_out ls' b o'.
Proof.
  intros Hfate Ho Hout Hd. apply blk_out_free_at; [done|]. intros p Hp Hf.
  pose proof (free_at_blk_out _ _ _ _ Hout Hp). unfold fate_post in Hfate.
  destruct (free_fate s a o); destruct Hfate as [Hfa _]; apply Hfa in Hf; [|done..].
  destruct Hd as [Hd|]; [|done]. destruct Hf as [Hf|]; [|done].
  unfold disj, in_blk in *. lia.
Qed.

Lemma disj_ne a o b o' : (o ≤ MAX_ORDER)%nat → (o' ≤ MAX_ORDER)%nat → disj a o b o' → b ≠ a.
Proof.
  intros Ho Ho' Hd ->. pose proof (block_size_bound _ Ho). pose proof (block_size_bound _ Ho').
  unfold disj, PAGE_SIZE in *. lia.
Qed.

(** The same blocks held in another order. *)
Lemma ainv_perm s ls live live' : live ≡ₚ live' → ainv s ls live → ainv s ls live'.
Proof.
  intros Hl [H1 H2 H3 H4 H5 H6 H7 H8 H9].
  assert (held s live ≡ₚ held s live') as Hh by (unfold held; by rewrite Hl).
  split; try done; try (by rewrite <- Hh); [| |]; intros x Hx.
  - apply H5. by rewrite Hh.
  - apply H6. by rewrite Hh.
  - apply H8. by rewrite Hl.
Qed.

(** Freeing a block held by a client: it never panics or spins, and the other
    clients keep what they hold. *)
Lemma free_ainv caller a o s ls live :
  ainv s ls ((a, o) :: live) →
  ∃ s' ls', free caller a o s = Done s' ∧ free_post a o s ls s' ls' ∧ ainv s' ls' live.
Proof.
  intros [Hwf Hcov Hq Hrc Hok Hout Hpair Hlive Hcoal].
  change (held s ((a, o) :: live)) with ((a, o) :: held s live) in *.
  pose proof (Hok _ (list_elem_of_here _ _)) as Hoka. cbn [fst snd] in Hoka.
  pose proof (Hout _ (list_elem_of_here _ _)) as Houta. cbn [fst snd] in Houta.
  pose proof (Hlive _ (list_elem_of_here _ _)) as Hlia. cbn [fst snd] in Hlia.
  destruct (free_spec caller s ls a o) as (s' & ls' & Hrun & Hpost); try done.
  exists s', ls'. split_and!; [done|done|].
  destruct (free_tab s ls a o s' ls') as [Htab _]; try done.
  destruct Hpost as (Hwf' & Hq' & Hb & Hp & Hfate & _ & Hco & Hrc' & _).
  destruct Hpair as [Hax Hpair].
  assert (∀ y, y ∈ held s live → blk_ok s y.1 y.2) as Hok1 by (intros; by apply Hok, list_elem_of_further).
  split; try done.
  - unfold tables_cover. by rewrite Hp.
  - intros y Hy. apply (blk_ok_ext s); [done|done|].
    by destruct (fate_held _ _ _ _ _ _ _ _ Hfate Hy) as [|[-> _]]; [auto|].
  - intros y Hy. destruct (fate_held _ _ _ _ _ _ _ _ Hfate Hy) as [Hh|[-> Hf]].
    + eapply fate_out; [done|apply Hok1; done|by apply Hout, list_elem_of_further|].
      left. by apply (Hax y).
    + eapply fate_out; [done|apply Hoka|done|by right].
  - by eapply fate_pairwise.
  - intros y Hy. pose proof (held_live s _ _ Hy) as Hh.
    apply Htab; [by eapply blk_page, Hok1| |by apply Hlive, list_elem_of_further].
    eapply disj_ne; [apply Hoka|by apply (Hok1 y)|by apply (Hax y)].
  - auto.
Qed.

(** Writes into a held block. *)
Lemma held_write s ls live x p b :
  ainv s ls live → x ∈ held s live → in_blk x.1 x.2 p → ainv (set_hdr p b s) ls live.
Proof.
  intros Hinv Hx Hp. eapply ainv_shrink; [..|exact Hinv]; try done; [|apply Hinv|apply Hinv].
  apply set_hdr_wf; [apply Hinv|]. intros o Ho Hin.
  eapply free_at_blk_out; [by apply (ai_out _ _ _ Hinv x)|done|by eapply free_at_head].
Qed.

(** Operations on the per-page tables and the counts. *)
Lemma ainv_tables s s' ls live :
  al s' = al s → mem s' = mem s → quar s' = quar s → (∀ i, 0 ≤ getd 0 (pte_refcs s') i) →
  (∀ x, x ∈ live → tab_live s' x.1) → ainv s ls live → ainv s' ls live.
Proof.
  intros Ha Hm Hq Hrc Ht Hinv. eapply ainv_shrink; [..|exact Hinv]; try done; try by rewrite Ha.
  by eapply fl_wf_ext; [..|apply Hinv]; rewrite ?Ha.
Qed.

Lemma pte_refc_inc_eq a s : ∃ r, pte_refc_inc a s = set_refcs r s ∧
  ((∀ i, 0 ≤ getd 0 (pte_refcs s) i) → ∀ i, 0 ≤ getd 0 r i).
Proof.
  unfold pte_refc_inc. case_ifs.
  2: { exists (pte_refcs s). split; [by destruct s|done]. }
  eexists. split; [reflexivity|].
  intros Hrc i. rewrite getd_insert. case_decide; [|done].
  pose proof (Hrc (phys_to_idx s a)). lia.
Qed.

Lemma refc_inc_ainv a s ls live : ainv s ls live → ainv (pte_refc_inc a s) ls live.
Proof.
  intros Hinv. destruct (pte_refc_inc_eq a s) as (r & -> & Hr).
  eapply ainv_tables; [..|exact Hinv]; try done; [apply Hr, Hinv|apply Hinv].
Qed.

Lemma refc_dec_ainv a s ls live : ainv s ls live → ainv (pte_refc_dec a s).2 ls live.
Proof.
  intros Hinv. unfold pte_refc_dec. destruct (phys_to_idx s a <? MAX_REFC_PAGES); [|done].
  cbn [snd]. eapply ainv_tables; [..|exact Hinv]; try done; [|apply Hinv].
  intros i. cbn [pte_refcs set_refcs]. rewrite getd_insert. case_decide; [|apply Hinv].
  pose proof (ai_refc _ _ _ Hinv (phys_to_idx s a)).
  destruct (Z.ltb_spec 0 (getd 0 (pte_refcs s) (phys_to_idx s a))); lia.
Qed.

Lemma type_set_ainv a t s ls live :
  page_ok s a → t ≠ PAGE_TYPE_FREE → ainv s ls live → ainv (page_type_set a t s) ls live.
Proof.
  intros Hp Ht Hinv. rewrite page_type_set_eq.
  eapply ainv_tables; [..|exact Hinv]; try done; [apply Hinv|]. intros x Hx.
  destruct (ai_live _ _ _ Hinv x Hx) as (? & ? & ?). split_and!; [done| |done].
  change (getd 0 (tset (phys_to_idx s a) t (page_types s)) (pidx s x.1) ≠ PAGE_TYPE_FREE).
  rewrite tset_get; [by destruct (bool_decide _)|apply (wf_region _ _ (ai_wf _ _ _ Hinv))|apply Hinv|done|].
  eapply blk_page, (ai_ok _ _ _ Hinv), held_live. done.
Qed.

(** Reusing a quarantined page: the state [alloc_zeroed_page] leaves. *)
Lemma reuse_eq a s : page_ok s a → region_ok s → tables_cover s →
  ∃ r, (let s1 := zero_page a (pte_refc_inc a s) in
    let s2 := pte_refc_inc a (page_type_set a PAGE_TYPE_PTE s1) in
    let s3 := untrack_freed_page a s2 in used_mark (phys_to_idx s3 a) s3) =
    set_used (umark (page_index s a) (used_bmp s)) (set_freed (fclear (phys_to_idx s a) (freed_bmp s))
      (set_refcs r (set_types (tset (phys_to_idx s a) PAGE_TYPE_PTE (page_types s))
        (set_hdr a block0 s)))) ∧
    ((∀ i, 0 ≤ getd 0 (pte_refcs s) i) → ∀ i, 0 ≤ getd 0 r i).
Proof.
  intros Hp Hr Hc. cbv zeta. rewrite (page_type_set_eq a).
  destruct (pte_refc_inc_eq a s) as (r1 & -> & H1). unfold zero_page.
  set (s2 := set_types _ _). destruct (pte_refc_inc_eq a s2) as (r2 & -> & H2).
  exists r2. split; [|intros; by apply H2, H1].
  rewrite untrack_eq, used_mark_eq, page_index_eq, <- phys_to_idx_eq by done.
  unfold s2. reflexivity.
Qed.

Lemma alloc_zeroed_ainv s ls live r s' :
  ainv s ls live → alloc_zeroed_page s = (r, s') →
  ∃ ls', ainv s' ls' (match r with Some a => (a, 0%nat) :: live | None => live end).
Proof.
  intros Hinv. pose proof Hinv as [Hwf Hcov Hq Hrc Hok Hout Hpair Hlive Hcoal].
  pose proof (wf_region _ _ Hwf) as Hr. unfold alloc_zeroed_page.
  assert (q_pages_ok s) as Hqp.
  { intros a Ha. apply (Hok (a, 0%nat)). unfold held. apply elem_of_app. right.
    apply list_elem_of_fmap. by exists a. }
  destruct (q_pop s) as [r1 s1] eqn:Hpop.
  destruct (q_pop_refines s r1 s1 Hr Hq Hqp Hpop) as [Hq1 Hs1].
  destruct r1 as [a|].
  - destruct Hs1 as [Hl Hs1]. set (q' := quar s1) in *. rewrite Hs1.
    assert (page_ok s a) as Hpa by (apply Hqp; rewrite Hl; apply list_elem_of_here).
    destruct (reuse_eq a (set_quar q' s)) as (rc & Heq & Hrc'); [done..|]. cbv zeta in Heq.
    intros [= <- <-]. rewrite Heq. exists ls. set (s' := set_used _ _).
    assert (held s' ((a, 0%nat) :: live) ≡ₚ held s live) as Hh.
    { unfold held. cbn [quar set_quar s' set_used set_freed set_refcs set_types set_hdr set_mem].
      rewrite Hl. cbn [fmap list_fmap app]. by rewrite Permutation_middle. }
    destruct (claim_tab_live PAGE_TYPE_PTE s s' a) as [Hta Hto]; try done.
    assert (∀ o, (o ≤ MAX_ORDER)%nat → a ∉ ls o) as Hna.
    { apply (blk_out_not_in ls a 0); [lia|]. apply (Hout (a, 0%nat)). rewrite <- Hh. apply list_elem_of_here. }
    split; try done.
    + eapply fl_wf_ext; [..|exact (set_hdr_wf s ls a block0 Hwf Hna)]; done.
    + by apply Hrc'.
    + intros x. rewrite Hh. apply Hok.
    + intros x. rewrite Hh. apply Hout.
    + by rewrite Hh.
    + intros x [->|Hx]%elem_of_cons; [done|]. apply Hto; [|by apply Hlive].
      by eapply blk_page, Hok, held_live.
  - destruct Hs1 as [_ ->]. destruct (alloc_nolock 0 s) as [r2 s2] eqn:Hal.
    destruct (alloc_ainv 0 s ls live r2 s2 Hinv Hal) as (ls' & Hinv' & _).
    destruct r2 as [a|]; intros [= <- <-]; exists ls'; [|done].
    apply refc_inc_ainv, type_set_ainv; [|done|].
    + apply (ai_ok _ _ _ Hinv' (a, 0%nat)), held_live, list_elem_of_here.
    + eapply held_write; [done|apply held_live, list_elem_of_here|].
      pose proof block_size_0. unfold in_blk, PAGE_SIZE in *. simpl. lia.
Qed.

(** ** Reservations *)

Lemma mark_used_ainv a s ls live :
  page_ok s a → ainv s ls live → ainv (used_mark (page_index s a) s) ls live.
Proof.
  intros Hp Hinv. rewrite used_mark_eq. pose proof (wf_region _ _ (ai_wf _ _ _ Hinv)) as Hr.
  eapply ainv_tables; [..|exact Hinv]; try done; [apply Hinv|]. intros x Hx.
  destruct (ai_live _ _ _ Hinv x Hx) as (Hu & ? & ?). split_and!; [|done|done].
  change (bmp_get (umark (page_index s a) (used_bmp s)) (pidx s x.1) = true).
  rewrite umark_get; [|done|apply Hinv|done|]; [by rewrite Hu, orb_true_r|].
  eapply blk_page, (ai_ok _ _ _ Hinv), held_live. done.
Qed.

Lemma reserve_ainv a s ls live :
  page_ok s a → ainv s ls live →
  ∃ s' ls', reserve a s = Done s' ∧ ainv s' ls' live.
Proof.
  intros Hp Hinv. unfold reserve, reserve_nolock.
  destruct (is_reserved s a); [by exists s, ls|].
  destruct (reserved_count (al s) <? MAX_RESERVED)%nat; [|by exists s, ls].
  set (s1 := set_reserved _ _ s).
  assert (fl_wf s1 ls) as Hwf1 by (by eapply fl_wf_ext; [..|apply Hinv]).
  pose proof (blk_bound _ _ _ (wf_region _ _ (ai_wf _ _ _ Hinv)) Hp) as [Hp0 Hpb].
  destruct (mark_page_spec a s1 ls Hwf1) as (s2 & ls' & -> & Hlo & Hwf2 & Hsub & _ & Hni & _).
  { rewrite block_size_0 in Hpb. unfold PAGE_SIZE in Hpb. lia. }
  cbn [cbind]. destruct Hlo as (fl & m & Hs2).
  assert (ainv s2 ls' live) as Hinv2.
  { eapply ainv_shrink; [done|..|exact Hinv]; try (by rewrite Hs2).
    - rewrite Hs2. apply Hinv.
    - intros p. by apply free_at_sub.
    - by apply coalesced_sub.
    - rewrite Hs2. apply Hinv. }
  eexists _, ls'. split; [done|].
  case_ifs; [done|]. apply mark_used_ainv; [|done]. by rewrite Hs2.
Qed.

Lemma reserve_page_ainv a s ls live :
  page_ok s a → ainv s ls live →
  ∃ s' ls', reserve_page a s = Done s' ∧ ainv s' ls' live.
Proof.
  intros Hp Hinv. unfold reserve_page.
  rewrite (blk_managed s a 0 (wf_region _ _ (ai_wf _ _ _ Hinv)) Hp). cbn [negb].
  apply (mark_used_ainv a) in Hinv; [|done].
  apply (type_set_ainv a PAGE_TYPE_DATA) in Hinv; [|by rewrite used_mark_eq|done].
  apply (reserve_ainv a) in Hinv; [exact Hinv|].
  by rewrite page_type_set_eq, used_mark_eq.
Qed.

Lemma unreserve_ainv a s ls live : ainv s ls live → ainv (unreserve a s).2 ls live.
Proof.
  intros Hinv. unfold unreserve, unreserve_nolock. destruct (first_from _ _ _); [|done].
  eapply ainv_shrink; [..|exact Hinv]; try done; [|apply Hinv|apply Hinv].
  by eapply fl_wf_ext; [..|apply Hinv].
Qed.

(** ** The state machine of the allocator and its clients *)

Definition mach : Type := kmem * list (Z * nat).

Inductive step : mach → mach → Prop :=
| step_alloc s live o a s' :
    alloc o s = (Some a, s') → step (s, live) (s', (a, o) :: live)
| step_alloc_fail s live o s' :
    alloc o s = (None, s') → step (s, live) (s', live)
| step_zeroed s live a s' :
    alloc_zeroed_page s = (Some a, s') → step (s, live) (s', (a, 0%nat) :: live)
| step_zeroed_fail s live s' :
    alloc_zeroed_page s = (None, s') → step (s, live) (s', live)
| step_free s live1 live2 a o caller s' :
    free caller a o s = Done s' →
    step (s, live1 ++ (a, o) :: live2) (s', live1 ++ live2)
| step_write s live a o p b :
    (a, o) ∈ live → in_blk a o p → step (s, live) (set_hdr p b s, live)
| step_type s live a o t :
    (a, o) ∈ live → t ≠ PAGE_TYPE_FREE → step (s, live) (page_type_set a t s, live)
| step_refc_inc s live a : step (s, live) (pte_refc_inc a s, live)
| step_refc_dec s live a : step (s, live) ((pte_refc_dec a s).2, live)
| step_reserve s live a s' :
    page_ok s a → reserve a s = Done s' → step (s, live) (s', live)
| step_reserve_page s live a s' :
    page_ok s a → reserve_page a s = Done s' → step (s, live) (s', live)
| step_unreserve s live a : step (s, live) ((unreserve a s).2, live).

Definition minv (m : mach) : Prop := ∃ ls, ainv m.1 ls m.2.

Lemma step_minv m m' : step m m' → minv m → minv m'.
Proof.
  intros Hst [ls Hinv]. destruct Hst; cbn [fst snd] in Hinv.
  - destruct (alloc_ainv _ _ _ _ _ _ Hinv H) as (ls' & ? & _). by exists ls'.
  - destruct (alloc_ainv _ _ _ _ _ _ Hinv H) as (ls' & ? & _). by exists ls'.
  - destruct (alloc_zeroed_ainv _ _ _ _ _ Hinv H) as (ls' & ?). by exists ls'.
  - destruct (alloc_zeroed_ainv _ _ _ _ _ Hinv H) as (ls' & ?). by exists ls'.
  - apply (ainv_perm _ _ _ ((a, o) :: live1 ++ live2)) in Hinv; [|by rewrite Permutation_middle].
    destruct (free_ainv caller _ _ _ _ _ Hinv) as (s2 & ls' & Hrun & _ & Hi).
    rewrite H in Hrun. injection Hrun as <-. by exists ls'.
  - exists ls. eapply held_write; [done|by apply held_live|done].
  - exists ls. apply type_set_ainv; [|done|done].
    apply (blk_page s a o), (ai_ok _ _ _ Hinv (a, o)), held_live. done.
  - exists ls. by apply refc_inc_ainv.
  - exists ls. by apply refc_dec_ainv.
  - destruct (reserve_ainv a s ls live H Hinv) as (s2 & ls' & Hrun & Hi).
    rewrite H0 in Hrun. injection Hrun as <-. by exists ls'.
  - destruct (reserve_page_ainv a s ls live H Hinv) as (s2 & ls' & Hrun & Hi).
    rewrite H0 in Hrun. injection Hrun as <-. by exists ls'.
  - exists ls. by apply unreserve_ainv.
Qed.

(** ** Boot: the regions [memory::init] hands over *)

Fixpoint add_regions (rs : list (Z * Z)) (s : kmem) : comp kmem :=
  match rs with
  | [] => Done s
  | (start, size) :: rs' => let! s := add_region start size s in add_regions rs' s
  end.

(** Page-aligned, inside the managed range and apart from one another. *)
Fixpoint regions_ok (b n : Z) (rs : list (Z * Z)) : Prop :=
  match rs with
  | [] => True
  | (start, size) :: rs' =>
      b ≤ start ∧ 0 ≤ size ∧ start + size ≤ b + n * PAGE_SIZE ∧ (PAGE_SIZE | start) ∧
      (∀ r, r ∈ rs' → start + size ≤ r.1 ∨ r.1 + r.2 ≤ start) ∧ regions_ok b n rs'
  end.

Definition in_regions (rs : list (Z * Z)) (p : Z) : Prop :=
  ∃ r, r ∈ rs ∧ in_pages r.1 (r.1 + r.2) p.

Definition range_ok (b n : Z) : Prop :=
  0 < b ∧ (PAGE_SIZE | b) ∧ 0 ≤ n ≤ MAX_REFC_PAGES ∧ b + n * PAGE_SIZE ≤ 2 ^ 62.

Lemma in_pages_range lo n p : 0 ≤ n → in_pages lo (lo + n) p → lo ≤ p < lo + n.
Proof.
  unfold in_pages, PAGE_SIZE. intros Hn. replace (lo + n - lo) with n by lia.
  pose proof (Z.mul_div_le n 4096 ltac:(lia)). lia.
Qed.

Lemma add_regions_spec rs s ls :
  fl_wf s ls → regions_ok (base (al s)) (pages (al s)) rs →
  (∀ p r, r ∈ rs → r.1 ≤ p < r.1 + r.2 → ¬ free_at ls p) →
  ∃ s' ls', add_regions rs s = Done s' ∧ lists_only s s' ∧ fl_wf s' ls' ∧
    (∀ p, free_at ls' p ↔ free_at ls p ∨ in_regions rs p) ∧
    ((∀ a, page_type_get s a ≠ PAGE_TYPE_PTE) → coalesced ls → coalesced ls').
Proof.
  revert s ls. induction rs as [|[st sz] rs IH]; intros s ls Hwf Hrs Hout; cbn [add_regions].
  { exists s, ls. split_and!; try done. intros p. split; [by left|].
    intros [|(r & Hr & _)]; [done|]. by apply elem_of_nil in Hr. }
  destruct Hrs as (H1 & H2 & H3 & H4 & H5 & H6).
  pose proof (wf_region _ _ Hwf) as (Hr1 & Hr2 & Hr3 & Hr4).
  destruct (add_region_loop_spec (Z.to_nat (sz / PAGE_SIZE)) st (st + sz) s ls)
    as (s1 & ls1 & Hrun & Hlo & Hwf1 & Hfr & Hco); [done|lia|lia|done| | |lia|].
  { intros p Hp. apply (Hout p (st, sz)); [apply list_elem_of_here|done]. }
  { pose proof (Z.div_pos sz 4096). pose proof (Z.mod_pos_bound sz 4096).
    pose proof (Z.div_mod sz 4096). unfold PAGE_SIZE. rewrite Z2Nat.id by lia. lia. }
  unfold add_region. rewrite w64_small, Hrun by lia. cbn [cbind].
  pose proof Hlo as (fl & m & Hs1).
  destruct (IH s1 ls1) as (s' & ls' & Hrun' & Hlo' & Hwf' & Hfr' & Hco').
  - done.
  - by rewrite Hs1.
  - intros p r Hr Hp [Hf|Hf]%Hfr.
    + by apply (Hout p r); [apply list_elem_of_further|..].
    + apply in_pages_range in Hf; [|done]. destruct (H5 r Hr); lia.
  - exists s', ls'. split_and!; [done|by etrans|done| |].
    + intros p. rewrite Hfr', Hfr. unfold in_regions. split.
      * intros [[?|?]|(r & ? & ?)]; [by left|right; exists (st, sz)|right; exists r]; (split; [|done]).
        -- apply list_elem_of_here.
        -- by apply list_elem_of_further.
      * intros [?|(r & [->|Hr]%elem_of_cons & Hp)]; [by do 2 left|by left; right|].
        right. by exists r.
    + intros Ht Hc. apply Hco'; [by rewrite Hs1|auto].
Qed.

Lemma init_wf b n : range_ok b n → fl_wf (init b n kmem0) (λ _, []).
Proof.
  intros (? & ? & ? & ?). split; try done.
  - split_and!; simpl; try done; lia.
  - intros o Ho. cbn [chain]. cbn [init kmem0 al set_al free_lists buddy_new].
    apply lookup_total_replicate_2. lia.
  - intros o a _ Ha. by apply elem_of_nil in Ha.
  - intros o a _ Ha. by apply elem_of_nil in Ha.
  - intros o _. apply NoDup_nil_2.
  - intros ? ? ? ? _ _ Ha. by apply elem_of_nil in Ha.
Qed.

(** The state the allocator starts in. *)
Definition boot (b n : Z) (rs : list (Z * Z)) : comp kmem := add_regions rs (init b n kmem0).

Lemma boot_spec b n rs :
  range_ok b n → regions_ok b n rs →
  ∃ s ls, boot b n rs = Done s ∧ ainv s ls [] ∧ coalesced ls ∧ no_reserved s ∧
    (∀ p, free_at ls p ↔ in_regions rs p) ∧ base (al s) = b ∧ pages (al s) = n.
Proof.
  intros Hb Hrs. pose proof (init_wf b n Hb) as Hwf.
  destruct (add_regions_spec rs _ _ Hwf Hrs) as (s & ls & Hrun & Hlo & Hwf' & Hfr & Hco).
  { intros p r _ _ (o & a & _ & Ha & _). by apply elem_of_nil in Ha. }
  assert (coalesced ls) as Hcl.
  { apply Hco.
    - intros a. unfold page_type_get, init. cbn. by destruct (_ <? _); rewrite ?getd_empty.
    - intros o a _ Ha. by apply elem_of_nil in Ha. }
  exists s, ls. destruct Hlo as (fl & m & Hs). split_and!; try done.
  - split; try done.
    + unfold tables_cover. rewrite Hs. apply Hb.
    + rewrite Hs. by split; cbn; unfold QUARANTINE_MAX_CAP; rewrite ?length_replicate; try done; lia.
    + rewrite Hs. intros i. cbn. by rewrite getd_empty.
    + intros x Hx. unfold held in Hx. rewrite Hs in Hx. rewrite q_list_nil in Hx by done.
      by apply elem_of_nil in Hx.
    + intros x Hx. unfold held in Hx. rewrite Hs in Hx. rewrite q_list_nil in Hx by done.
      by apply elem_of_nil in Hx.
    + unfold held. rewrite Hs. by rewrite q_list_nil by done.
    + intros x Hx. by apply elem_of_nil in Hx.
  - intros a. rewrite Hs. done.
  - intros p. rewrite Hfr. split; [intros [(o & a & _ & Ha & _)|?]; [by apply elem_of_nil in Ha|done]|by right].
  - by rewrite Hs.
  - by rewrite Hs.
Qed.

(** A state the kernel can get into. *)
Definition reachable (b n : Z) (rs : list (Z * Z)) (m : mach) : Prop :=
  range_ok b n ∧ regions_ok b n rs ∧ ∃ s0, boot b n rs = Done s0 ∧ rtc step (s0, []) m.

Lemma reachable_minv b n rs m : reachable b n rs m → minv m.
Proof.
  intros (Hb & Hrs & s0 & Hs0 & Hst).
  destruct (boot_spec b n rs Hb Hrs) as (s & ls & Hrun & Hinv & _).
  rewrite Hrun in Hs0. injection Hs0 as ->.
  assert (minv (s0, [])) as Hm by (by exists ls).
  revert Hm. remember (s0, []) as m0. clear Heqm0. induction Hst as [|m1 m2 m3 H12 H23 IH]; [done|].
  intros Hm. by apply IH, (step_minv m1).
Qed.

(** * A small machine

    A machine with 64 pages of managed memory at 1 MiB, booted and after two
    allocations: the concrete states the theorems about the allocator and its
    clients are instantiated at. *)

Definition b64 : Z := 0x100000.
Definition rs64 : list (Z * Z) := [(b64, 64 * PAGE_SIZE)].
Definition boot64 : kmem := match boot b64 64 rs64 with Done s => s | _ => kmem0 end.

Lemma boot64_done : boot b64 64 rs64 = Done boot64.
Proof. vm_compute. reflexivity. Qed.

Lemma range64 : range_ok b64 64.
Proof. split_and!; [done|by exists 256|done|done|done]. Qed.

Lemma regions64 : regions_ok b64 64 rs64.
Proof.
  cbn. split_and!; try done; [by exists 256|]. intros r Hr. by apply elem_of_nil in Hr.
Qed.

Lemma reach64 : reachable b64 64 rs64 (boot64, []).
Proof. split_and!; [apply range64|apply regions64|]. exists boot64. split; [apply boot64_done|apply rtc_refl]. Qed.

Lemma reach64_step m m' :
  reachable b64 64 rs64 m → step m m' → reachable b64 64 rs64 m'.
Proof.
  intros (? & ? & s0 & ? & Hst) Hs. split_and!; [done|done|]. exists s0. split; [done|].
  by eapply rtc_r.
Qed.

(** Two pages and a four-page block in use. *)
Definition s64_1 : kmem := (alloc 0 boot64).2.
Definition s64_2 : kmem := (alloc 2 s64_1).2.
Definition live64 : list (Z * nat) := [(b64 + 0x4000, 2%nat); (b64, 0%nat)].

Lemma alloc_pair o s a : (alloc o s).1 = Some a → alloc o s = (Some a, (alloc o s).2).
Proof. destruct (alloc o s). simpl. by intros ->. Qed.

Lemma alloc64_1 : alloc 0 boot64 = (Some b64, s64_1).
Proof. unfold s64_1. apply alloc_pair. by vm_compute. Qed.

Lemma alloc64_2 : alloc 2 s64_1 = (Some (b64 + 0x4000), s64_2).
Proof. unfold s64_2. apply alloc_pair. by vm_compute. Qed.

Lemma reach64_1 : reachable b64 64 rs64 (s64_1, [(b64, 0%nat)]).
Proof. eapply reach64_step; [apply reach64|]. apply step_alloc, alloc64_1. Qed.

Lemma reach64_2 : reachable b64 64 rs64 (s64_2, live64).
Proof. eapply reach64_step; [apply reach64_1|]. apply step_alloc, alloc64_2. Qed.

