(* ===== verification/BuddyClaims.v ===== *)
(** * The theorems about the page allocator

    The headline properties of [src/memory/buddy.rs], stated over every state
    the kernel can reach from boot, or over every state with well-formed free
    lists, with an instance of each on a 64-page machine. *)

From S2P Require Import Prelude Ring Buddy BuddyInv BuddyOps BuddyTables.
From S2P Require Import BuddyAudit BuddyFree BuddySpec.
From stdpp Require Import base gmap numbers functions list.
Local Open Scope Z_scope.

#[local] Opaque boot64 s64_1 s64_2.

(** ** Exclusive ownership *)

(** C1: in every state the kernel can reach, the blocks handed out and not yet
    freed are aligned blocks of managed memory, marked in use, pairwise
    disjoint, and share no byte with a free block or with the quarantine. *)
Theorem reachable_exclusive b n rs s live :
  reachable b n rs (s, live) →
  (∀ i j x y, live !! i = Some x → live !! j = Some y → i ≠ j → disj x.1 x.2 y.1 y.2) ∧
  (∀ x, x ∈ live → blk_ok s x.1 x.2 ∧ page_is_used s x.1 = true ∧
     page_type_get s x.1 ≠ PAGE_TYPE_FREE ∧ ∀ q, q ∈ q_list (quar s) → disj x.1 x.2 q 0) ∧
  ∃ ls, fl_wf s ls ∧ ∀ x p, x ∈ live → in_blk x.1 x.2 p → ¬ free_at ls p.
Proof.
  intros Hreach. destruct (reachable_minv _ _ _ _ Hreach) as [ls Hinv]. cbn [fst snd] in Hinv.
  pose proof Hinv as [Hwf Hcov Hq Hrc Hok Hout Hpair Hlive Hco].
  pose proof (wf_region _ _ Hwf) as Hr. split_and!.
  - intros i j x y Hi Hj Hne. eapply (pairwise_lookup (held s live) i j); [done|..|done];
      by apply lookup_app_l_Some.
  - intros x Hx. pose proof (Hok x (held_live s _ _ Hx)) as Hokx. pose proof (blk_page _ _ _ Hokx) as Hpx.
    destruct (Hlive x Hx) as (Hu & Ht & _).
    split_and!; [done|by rewrite page_is_used_eq|by rewrite page_type_eq|].
    intros q Hqi. apply list_elem_of_lookup in Hx as [i Hi]. apply list_elem_of_lookup in Hqi as [j Hj].
    pose proof (lookup_lt_Some _ _ _ Hi).
    apply (pairwise_lookup (held s live) i (length live + j)%nat x (q, 0%nat) Hpair); [by apply lookup_app_l_Some| |lia].
    unfold held. rewrite lookup_app_r by lia. replace (length live + j - length live)%nat with j by lia.
    by rewrite list_lookup_fmap, Hj.
  - exists ls. split; [done|]. intros x p Hx. apply free_at_blk_out, Hout, held_live, Hx.
Qed.

Lemma reachable_exclusive_witness :
  disj (b64 + 0x4000) 2 b64 0 ∧ page_is_used s64_2 b64 = true.
Proof.
  destruct (reachable_exclusive b64 64 rs64 s64_2 live64 reach64_2) as (H1 & H2 & _). split.
  - by apply (H1 0%nat 1%nat (b64 + 0x4000, 2%nat) (b64, 0%nat)).
  - apply (H2 (b64, 0%nat)). apply list_elem_of_further, list_elem_of_here.
Defined.

(** C33: in every reachable state freeing a block in use returns (no panic, no
    endless walk of a list), the audit of the free lists passes, and the free
    pages can be counted. *)
Theorem reachable_no_panic b n rs s live :
  reachable b n rs (s, live) →
  (∀ caller x, x ∈ live → ∃ s', free caller x.1 x.2 s = Done s') ∧
  (∃ s', audit_free_lists s = Done (true, s')) ∧
  (∃ c, free_page_count s = Done c ∧ 0 ≤ c ≤ pages (al s)).
Proof.
  intros Hreach. destruct (reachable_minv _ _ _ _ Hreach) as [ls Hinv]. cbn [fst snd] in Hinv. split_and!.
  - intros caller x (l1 & l2 & ->)%list_elem_of_split. destruct x as [a o].
    apply (ainv_perm _ _ _ ((a, o) :: l1 ++ l2)) in Hinv; [|by rewrite Permutation_middle].
    destruct (free_ainv caller _ _ _ _ _ Hinv) as (s' & _ & Hrun & _). by exists s'.
  - destruct (audit_wf s ls) as (ow & act & ->); [apply Hinv|apply Hinv|]. by eexists.
  - pose proof (free_pages_bound s ls (ai_wf _ _ _ Hinv)).
    eexists. split; [by apply free_page_count_eq, Hinv|]. lia.
Qed.

Lemma reachable_no_panic_witness : ∃ s', free 7 b64 0 s64_2 = Done s'.
Proof.
  destruct (reachable_no_panic b64 64 rs64 s64_2 live64 reach64_2) as (H & _).
  apply (H 7 (b64, 0%nat)). apply list_elem_of_further, list_elem_of_here.
Defined.

(** ** Allocation *)

(** C4: [alloc] refines taking an aligned block out of the set of free bytes:
    a successful call returns a managed, aligned, non-reserved block that was
    wholly free and no longer is, marks its first page used and typed DATA,
    adds nothing to the free set, and (when nothing is reserved) removes
    nothing but that block; a failed call changes no table and no header. *)
Theorem alloc_refines o s ls r s' :
  fl_wf s ls → alloc o s = (r, s') →
  ∃ ls', fl_wf s' ls' ∧ rest s' = rest s ∧ (∀ p, free_at ls' p → free_at ls p) ∧
    (coalesced ls → coalesced ls') ∧
    match r with
    | Some a =>
        blk_ok s a o ∧ is_reserved s a = false ∧
        (∀ p, in_blk a o p → free_at ls p ∧ ¬ free_at ls' p) ∧
        (no_reserved s → ∀ p, free_at ls p ↔ in_blk a o p ∨ free_at ls' p) ∧
        (∀ x, ¬ free_at ls x → hdr s' x = hdr s x) ∧
        (tables_cover s → page_is_used s' a = true ∧ page_type_get s' a = PAGE_TYPE_DATA)
    | None => alloc_fail o s ls s'
    end.
Proof.
  intros Hwf Hrun. destruct (alloc_spec o s ls r s' Hwf Hrun) as (ls' & Hwf' & Hrest & Hsub & Hco & Hr).
  exists ls'. split_and!; [done..|]. destruct r as [a|]; [|done].
  destruct Hr as (Hres & Hok & Hout & Hfrom & Hall & Hfr & Htab).
  split_and!; [done|done| | |done|].
  - intros p Hp. split; [auto|by eapply free_at_blk_out].
  - intros Hnr p. split; [auto|]. intros [?|?]; auto.
  - intros Hc. pose proof (wf_region _ _ Hwf) as Hreg. pose proof (blk_page _ _ _ Hok) as Hp.
    injection Hrest as Hb Hpg _ _ _ _ _ _ _ _ _. injection Htab as Hu _ Ht.
    assert (page_ok s' a) as Hp' by (by apply (blk_ok_ext s)).
    assert (tables_cover s') as Hc' by (unfold tables_cover; by rewrite Hpg).
    rewrite page_is_used_eq, page_type_eq by (try done; by apply (wf_region _ _ Hwf')).
    unfold pidx. rewrite Hb, Hu, Ht. fold (pidx s a).
    rewrite umark_get, tset_get by done. by rewrite bool_decide_true.
Qed.

Lemma alloc_refines_witness :
  ∃ ls', fl_wf s64_2 ls' ∧ ∀ p, in_blk (b64 + 0x4000) 2 p → ¬ free_at ls' p.
Proof.
  destruct (reachable_minv _ _ _ _ reach64_1) as [ls1 Hinv1].
  destruct (alloc_refines 2 s64_1 ls1 _ _ (ai_wf _ _ _ Hinv1) alloc64_2) as (ls2 & Hwf & _ & _ & _ & _ & _ & Hp & _).
  exists ls2. split; [done|]. intros p Hin. by apply Hp.
Defined.

(** [alloc] is complete: with coalesced lists and nothing reserved it
    succeeds exactly when some aligned block of the requested order is wholly
    free. *)
Theorem alloc_complete o s ls :
  fl_wf s ls → coalesced ls → no_reserved s → (o ≤ MAX_ORDER)%nat →
  (∃ a, (alloc o s).1 = Some a) ↔
  ∃ a, (block_size o | a) ∧ ∀ p, in_blk a o p → free_at ls p.
Proof.
  intros Hwf Hco Hnr Ho. destruct (alloc o s) as [r s'] eqn:Hrun.
  destruct (alloc_spec o s ls r s' Hwf Hrun) as (ls' & _ & _ & _ & _ & Hr). cbn [fst]. split.
  - intros [a ->]. destruct Hr as (_ & (_ & _ & _ & Hd) & _ & Hfrom & _). by exists a.
  - intros (a & Hd & Hfree). destruct r as [x|]; [by exists x|].
    destruct Hr as (_ & _ & Hem). destruct (Hem Hnr) as [_ Hnil].
    destruct (covered_block s ls Hwf Hco o a Ho Hd Hfree) as (k & b & Hk & Hb & _).
    rewrite (Hnil k Hk) in Hb. by apply elem_of_nil in Hb.
Qed.

Lemma alloc_complete_witness :
  ∃ ls, fl_wf boot64 ls ∧ ∃ a, (block_size 6 | a) ∧ ∀ p, in_blk a 6 p → free_at ls p.
Proof.
  destruct (boot_spec b64 64 rs64 range64 regions64) as (s & ls & Hrun & Hinv & Hco & Hnr & _).
  rewrite boot64_done in Hrun. injection Hrun as <-. exists ls. split; [apply Hinv|].
  apply (alloc_complete 6 boot64 ls (ai_wf _ _ _ Hinv) Hco Hnr); [unfold MAX_ORDER; lia|].
  exists b64. by vm_compute.
Defined.

(** ** Freeing *)

(** C5: freeing a block in use sends it where its first page says (to the
    lists, to the quarantine, or nowhere while a page table still refers to
    it), leaves the headers outside the block and the free lists alone, clears
    its used bit and records it as freed. *)
Theorem free_refines b n rs s l1 a o l2 caller :
  reachable b n rs (s, l1 ++ (a, o) :: l2) →
  ∃ ls s' ls', fl_wf s ls ∧ free caller a o s = Done s' ∧ fl_wf s' ls' ∧ coalesced ls' ∧
    fate_post (free_fate s a o) a o s ls s' ls' ∧
    (∀ x, ¬ in_blk a o x → ¬ free_at ls x → hdr s' x = hdr s x) ∧
    page_is_used s' a = false ∧ track_freed_page a s' = (true, s').
Proof.
  intros Hreach. destruct (reachable_minv _ _ _ _ Hreach) as [ls Hinv]. cbn [fst snd] in Hinv.
  apply (ainv_perm _ _ _ ((a, o) :: l1 ++ l2)) in Hinv; [|by rewrite Permutation_middle].
  destruct (free_ainv caller _ _ _ _ _ Hinv) as (s' & ls' & Hrun & Hpost & Hinv').
  assert (blk_ok s a o) as Hok.
  { apply (ai_ok _ _ _ Hinv (a, o)), held_live, list_elem_of_here. }
  destruct (free_tab s ls a o s' ls') as (_ & Hfreed & Hunused); [apply Hinv|apply Hinv|done|done|].
  destruct Hpost as (Hwf' & _ & Hb & Hp & Hfate & Hfr & Hco & _).
  exists ls, s', ls'. split_and!; try done; [apply Hinv|apply Hco, Hinv|].
  rewrite track_eq, Hfreed; [done|by apply (wf_region _ _ Hwf')|apply Hinv'|].
  apply (blk_ok_ext s); [done|done|by eapply blk_page].
Qed.

Lemma free_refines_witness : free_fate s64_2 b64 0 = ToLists ∧
  ∃ s' ls', free 7 b64 0 s64_2 = Done s' ∧ fl_wf s' ls' ∧ ∀ p, in_blk b64 0 p → free_at ls' p.
Proof.
  assert (free_fate s64_2 b64 0 = ToLists) as Hf by (by vm_compute). split; [done|].
  destruct (free_refines b64 64 rs64 s64_2 [(b64 + 0x4000, 2%nat)] b64 0 [] 7 reach64_2)
    as (ls & s' & ls' & _ & Hrun & Hwf & _ & Hfate & _).
  exists s', ls'. split_and!; [done|done|]. rewrite Hf in Hfate. intros p Hp. apply Hfate. by left.
Defined.

(** Allocating a block and freeing it again restores the allocator: every
    free list holds the same blocks as before, and the count of free pages is
    the same. *)
Theorem alloc_free_roundtrip b n rs s live o a s1 caller :
  reachable b n rs (s, live) → no_reserved s → alloc o s = (Some a, s1) →
  ∃ ls s2 ls2, fl_wf s ls ∧ free caller a o s1 = Done s2 ∧ fl_wf s2 ls2 ∧
    (∀ k, (k ≤ MAX_ORDER)%nat → ls2 k ≡ₚ ls k) ∧ free_page_count s2 = free_page_count s.
Proof.
  intros Hreach Hnr Hal. destruct (reachable_minv _ _ _ _ Hreach) as [ls Hinv]. cbn [fst snd] in Hinv.
  destruct (alloc_ainv o s ls live _ _ Hinv Hal) as (ls1 & Hinv1 & Hsub & Hpost).
  destruct (free_ainv caller a o s1 ls1 live Hinv1) as (s2 & ls2 & Hrun & Hfree & Hinv2).
  pose proof (ai_wf _ _ _ Hinv) as Hwf. pose proof (ai_wf _ _ _ Hinv2) as Hwf2.
  destruct Hpost as (_ & Hok & _ & Hfrom & Hall & _ & Htab).
  assert (blk_ok s1 a o) as Hok1 by (apply (ai_ok _ _ _ Hinv1 (a, o)), held_live, list_elem_of_here).
  assert (page_type_get s1 a = PAGE_TYPE_DATA) as Hty.
  { destruct (alloc_spec o s ls _ _ Hwf Hal) as (? & _ & Hrest & _).
    injection Hrest as Hb _ _ _ _ _ _ _ _ _ _. injection Htab as _ _ Ht.
    pose proof (blk_page _ _ _ Hok) as Hp. pose proof (blk_page _ _ _ Hok1) as Hp1.
    rewrite page_type_eq; [|apply (wf_region _ _ (ai_wf _ _ _ Hinv1))|apply Hinv1|done].
    unfold pidx. rewrite Hb, Ht. fold (pidx s a).
    rewrite tset_get; [|apply (wf_region _ _ Hwf)|apply Hinv|done|done]. by rewrite bool_decide_true. }
  assert (∀ p, free_at ls p ↔ free_at ls2 p) as Heq.
  { destruct Hfree as (_ & _ & _ & _ & Hfate & _). unfold fate_post, free_fate in Hfate.
    rewrite Hty, andb_false_r in Hfate. destruct Hfate as [Hfa _]. intros p. rewrite Hfa.
    split; [auto|]. intros [?|?]; auto. }
  exists ls, s2, ls2. split_and!; try done.
  - intros k Hk. symmetry.
    apply (canonical s s2 ls ls2); try done; [apply Hinv|apply Hinv2].
  - rewrite (free_page_count_eq s ls Hwf), (free_page_count_eq s2 ls2 Hwf2). do 2 f_equal.
    apply Permutation_length, NoDup_Permutation; [by eapply free_pages_nodup..|].
    intros i. rewrite (elem_free_pages s2), (elem_free_pages s) by done. by rewrite Heq.
Qed.

Lemma s64_2_no_reserved : no_reserved s64_2.
Proof. intros a. by vm_compute. Qed.

Lemma alloc_free_roundtrip_witness : ∃ s2,
  free 7 (b64 + 0x8000) 3 (alloc 3 s64_2).2 = Done s2 ∧ free_page_count s2 = free_page_count s64_2.
Proof.
  assert (alloc 3 s64_2 = (Some (b64 + 0x8000), (alloc 3 s64_2).2)) as Hal by (apply alloc_pair; by vm_compute).
  destruct (alloc_free_roundtrip b64 64 rs64 s64_2 live64 3 _ _ 7 reach64_2 s64_2_no_reserved Hal)
    as (_ & s2 & _ & _ & Hrun & _ & _ & Hc).
  exists s2. split; [exact Hrun|exact Hc].
Defined.

(** The freed bit of a freed block turns every later [free] away. *)
Lemma free_again s ls a o s' ls' live caller o' :
  ainv s ls ((a, o) :: live) → free_post a o s ls s' ls' → ainv s' ls' live →
  free caller a o' s' = Done s'.
Proof.
  intros Hinv Hpost Hinv'.
  assert (blk_ok s a o) as Hok by (apply (ai_ok _ _ _ Hinv (a, o)), held_live, list_elem_of_here).
  destruct (free_tab s ls a o s' ls') as (_ & Hfreed & _); [apply Hinv|apply Hinv|done|done|].
  destruct Hpost as (Hwf' & _ & Hb & Hp & _).
  unfold free. rewrite track_eq, Hfreed; [done|by apply (wf_region _ _ Hwf')|apply Hinv'|].
  apply (blk_ok_ext s); [done|done|by eapply blk_page].
Qed.

(** A block freed twice is freed once: the second [free] of a block that
    was in use, with any order and from any caller, changes nothing. *)
Theorem double_free_noop b n rs s l1 a o l2 caller s1 :
  reachable b n rs (s, l1 ++ (a, o) :: l2) → free caller a o s = Done s1 →
  ∀ caller' o', free caller' a o' s1 = Done s1.
Proof.
  intros Hreach Hrun caller' o'. destruct (reachable_minv _ _ _ _ Hreach) as [ls Hinv]. cbn [fst snd] in Hinv.
  apply (ainv_perm _ _ _ ((a, o) :: l1 ++ l2)) in Hinv; [|by rewrite Permutation_middle].
  destruct (free_ainv caller _ _ _ _ _ Hinv) as (s' & ls' & Hrun' & Hpost & Hinv').
  rewrite Hrun in Hrun'. injection Hrun' as <-. by eapply free_again.
Qed.

Definition s64_3 : kmem := match free 7 b64 0 s64_2 with Done s => s | _ => kmem0 end.

Lemma free64_3 : free 7 b64 0 s64_2 = Done s64_3.
Proof. vm_compute. reflexivity. Qed.
#[local] Opaque s64_3.

Lemma double_free_noop_witness :
  free 7 b64 0 s64_2 = Done s64_3 ∧ free 9 b64 0 s64_3 = Done s64_3.
Proof.
  split; [exact free64_3|].
  exact (double_free_noop b64 64 rs64 s64_2 [(b64 + 0x4000, 2%nat)] b64 0 [] 7 s64_3 reach64_2 free64_3 9 0%nat).
Defined.

(** ** The audit *)

(** The audit is sound: when it passes on lists it can walk, every entry
    of every list has an intact header of its order and no page belongs to two
    entries, whatever lists. *)
Theorem audit_sound s ls s' :
  walkable s ls → audit_active s = false → audit_free_lists s = Done (true, s') →
  no_overlap s ls 0 (λ _, False).
Proof.
  intros Hw Hact Hrun. unfold audit_free_lists in Hrun. rewrite Hact in Hrun.
  destruct (audit_orders (S MAX_ORDER) 0 s ∅) as [[ok owned]| |] eqn:Hor; [|done..].
  cbn [cbind] in Hrun. injection Hrun as -> _.
  pose proof (audit_orders_sound (S MAX_ORDER) 0 s ls ∅ owned eq_refl Hw Hor) as Hno.
  intros k j a Hk Ha. destruct (Hno k j a Hk Ha) as (? & ? & Hi). split_and!; [done|done|].
  intros i Hbi. destruct (Hi i Hbi) as [_ ?]. split; [tauto|done].
Qed.

Lemma audit64 : ∃ s', audit_free_lists s64_2 = Done (true, s').
Proof. eexists. vm_compute. reflexivity. Qed.

Lemma audit_sound_witness : ∃ ls, fl_wf s64_2 ls ∧ no_overlap s64_2 ls 0 (λ _, False).
Proof.
  destruct (reachable_minv _ _ _ _ reach64_2) as [ls Hinv]. destruct audit64 as [s' Haud].
  exists ls. split; [apply Hinv|]. pose proof (ai_wf _ _ _ Hinv) as Hwf. cbn [fst] in Hwf.
  assert (audit_active s64_2 = false) as Hact by (vm_compute; reflexivity).
  refine (audit_sound s64_2 ls s' _ Hact Haud).
  pose proof (wf_region _ _ Hwf) as Hr. split.
  - apply Hr.
  - apply (wf_chain _ _ Hwf).
  - intros o Ho. by apply wf_length.
  - intros o a Ho Ha. pose proof (wf_blk _ _ Hwf o a Ho Ha) as Hok.
    pose proof (blk_bound _ _ _ Hr Hok). destruct Hok as (_ & ? & _).
    pose proof (block_size_bound o Ho). unfold PAGE_SIZE in *. lia.
Defined.

(** ** The quarantine *)

Fixpoint q_push_all (xs : list Z) (s : kmem) : kmem :=
  match xs with
  | [] => s
  | x :: xs' => q_push_all xs' (q_push x s).2
  end.

Fixpoint q_pop_all (n : nat) (s : kmem) : list (option Z) :=
  match n with
  | O => []
  | S n' => let '(r, s') := q_pop s in r :: q_pop_all n' s'
  end.

Lemma q_push_all_spec xs s :
  q_wf (quar s) → (length (q_list (quar s)) + length xs ≤ QUARANTINE_MAX_CAP)%nat →
  let s' := q_push_all xs s in
  q_wf (quar s') ∧ q_list (quar s') = q_list (quar s) ++ xs ∧ s' = set_quar (quar s') s.
Proof.
  revert s. induction xs as [|x xs IH]; intros s Hq Hlen; cbn [q_push_all].
  { rewrite app_nil_r. split_and!; [done|done|by destruct s]. }
  destruct (q_push x s) as [ok s1] eqn:Hp. destruct (q_push_refines x s ok s1 Hq Hp) as (Hq1 & Hl & Hs1).
  unfold q_push_spec in Hl. cbn [length] in Hlen.
  destruct (Nat.ltb_spec (length (q_list (quar s))) QUARANTINE_MAX_CAP); [|lia].
  injection Hl as -> Hl. cbn [snd].
  destruct (IH s1) as (? & Hl2 & Hs2); [done|rewrite Hl, length_app; cbn [length]; lia|].
  split_and!; [done|by rewrite Hl2, Hl, <- app_assoc|]. etrans; [exact Hs2|].
  generalize (quar (q_push_all xs s1)). intros q. by rewrite Hs1.
Qed.

(** Popping looks at the range and the ring only. *)
Lemma q_pop_all_spec n s :
  region_ok s → q_wf (quar s) → q_pages_ok s → n = length (q_list (quar s)) →
  q_pop_all n s = Some <$> q_list (quar s).
Proof.
  revert s. induction n as [|n IH]; intros s Hr Hq Hok Hn; cbn [q_pop_all].
  { by destruct (q_list (quar s)). }
  destruct (q_pop s) as [r s1] eqn:Hp. destruct (q_pop_refines s r s1 Hr Hq Hok Hp) as [Hq1 Hm].
  destruct r as [a|]; [|destruct Hm as [Hm _]; by rewrite Hm in Hn].
  destruct Hm as [Hl Hs1]. rewrite Hl in *. cbn [fmap list_fmap length] in *.
  assert (al s1 = al s) as Hal by (rewrite Hs1; unfold pte_refc_inc; by case_ifs).
  rewrite IH; [done| |done| |lia].
  - unfold region_ok in *. by rewrite Hal.
  - intros x Hx. unfold page_ok, blk_ok. rewrite Hal. apply Hok. rewrite Hl. by apply list_elem_of_further.
Qed.

(** The quarantine ring is a bounded first-in first-out queue: pages
    pushed behind those already waiting come out in order, each once, with
    nothing lost or invented, as long as the ring has room; a push into a full
    ring is refused and leaves the queue alone. *)
Theorem quarantine_fifo s xs :
  region_ok s → q_wf (quar s) → q_pages_ok s → (∀ x, x ∈ xs → page_ok s x) →
  (length (q_list (quar s)) + length xs ≤ QUARANTINE_MAX_CAP)%nat →
  q_pop_all (length (q_list (quar s)) + length xs) (q_push_all xs s)
    = Some <$> (q_list (quar s) ++ xs) ∧
  (length (q_list (quar s)) = QUARANTINE_MAX_CAP → ∀ x, (q_push x s).1 = false ∧
     q_list (quar (q_push x s).2) = q_list (quar s)).
Proof.
  intros Hr Hq Hok Hxs Hlen. split.
  - destruct (q_push_all_spec xs s Hq Hlen) as (Hq' & Hl & Hs').
    rewrite <- Hl. apply q_pop_all_spec; [by rewrite Hs'|done| |by rewrite Hl, length_app].
    intros x Hx. rewrite Hl in Hx. rewrite Hs'.
    apply elem_of_app in Hx as [Hx|Hx]; [exact (Hok x Hx)|exact (Hxs x Hx)].
  - intros Hfull x. destruct (q_push x s) as [ok s1] eqn:Hp.
    destruct (q_push_refines x s ok s1 Hq Hp) as (_ & Hl & _). unfold q_push_spec in Hl.
    rewrite Hfull, Nat.ltb_irrefl in Hl. injection Hl as -> Hl. cbn [fst snd]. by split.
Qed.

Lemma quarantine_fifo_witness :
  q_pop_all 2 (q_push_all [b64; b64 + 0x1000] boot64) = [Some b64; Some (b64 + 0x1000)].
Proof.
  destruct (reachable_minv _ _ _ _ reach64) as [ls Hinv]. cbn [fst snd] in Hinv.
  assert (q_list (quar boot64) = []) as Hnil by (by vm_compute).
  destruct (quarantine_fifo boot64 [b64; b64 + 0x1000]) as [H _].
  - apply (wf_region _ _ (ai_wf _ _ _ Hinv)).
  - apply Hinv.
  - intros a Ha. rewrite Hnil in Ha. by apply elem_of_nil in Ha.
  - intros x Hx. apply elem_of_cons in Hx as [->|Hx]; [|apply list_elem_of_singleton in Hx as ->];
      (split_and!; [unfold MAX_ORDER; lia|by vm_compute|by vm_compute|]); [by exists 256|by exists 257].
  - rewrite Hnil. unfold QUARANTINE_MAX_CAP. cbn [length]. lia.
  - rewrite Hnil in H. exact H.
Defined.

(** ** Counting *)

(** [free_page_count] is the number of free pages, and a successful
    [alloc] with nothing reserved lowers it by exactly the pages of the block. *)
Theorem free_page_count_exact o s ls a s' :
  fl_wf s ls → no_reserved s → alloc o s = (Some a, s') →
  ∃ l, NoDup l ∧ (∀ i, i ∈ l ↔ free_at ls (i * PAGE_SIZE)) ∧
    free_page_count s = Done (Z.of_nat (length l)) ∧
    free_page_count s' = Done (Z.of_nat (length l) - 2 ^ Z.of_nat o).
Proof.
  intros Hwf Hnr Hal. exists (free_pages ls).
  destruct (alloc_spec o s ls _ _ Hwf Hal) as (ls' & Hwf' & _ & Hsub & _ & Hpost).
  destruct Hpost as (_ & Hok & Hout & Hfrom & Hall & _). destruct Hok as (Ho & _ & _ & Hd).
  split_and!; [by eapply free_pages_nodup|intros i; by apply (elem_free_pages s)|by apply free_page_count_eq|].
  rewrite (free_page_count_eq s' ls') by done. f_equal.
  assert (free_pages ls ≡ₚ blk_pages a o ++ free_pages ls') as ->%Permutation_length.
  { apply NoDup_Permutation; [by eapply free_pages_nodup| |].
    - apply list.NoDup_app. split_and!; [apply NoDup_seqZ| |by eapply free_pages_nodup].
      intros i Hi Hj. apply elem_blk_pages in Hi; [|done|done]. apply (elem_free_pages s') in Hj; [|done].
      by eapply free_at_blk_out.
    - intros i. rewrite elem_of_app, elem_blk_pages, (elem_free_pages s), (elem_free_pages s') by done.
      split; [by apply Hall|]. intros [?|?]; auto. }
  rewrite length_app. unfold blk_pages. rewrite length_seqZ.
  pose proof (Z.pow_nonneg 2 (Z.of_nat o)). lia.
Qed.

Lemma free_page_count_exact_witness : ∃ c : Z,
  free_page_count boot64 = Done c ∧ free_page_count s64_1 = Done (c - 1).
Proof.
  destruct (boot_spec b64 64 rs64 range64 regions64) as (s & ls & Hrun & Hinv & Hco & Hnr & _).
  rewrite boot64_done in Hrun. injection Hrun as <-.
  destruct (free_page_count_exact 0 boot64 ls b64 s64_1 (ai_wf _ _ _ Hinv) Hnr alloc64_1)
    as (l & _ & _ & H1 & H2).
  exists (Z.of_nat (length l)). split; [exact H1|exact H2].
Defined.

(** ** Regions *)

(** [max_order_for] picks the largest block that can start at an address
    with so many bytes left: it fits, and no larger order does. *)
Theorem max_order_for_largest a n :
  (PAGE_SIZE | a) → PAGE_SIZE ≤ n →
  (max_order_for a n ≤ MAX_ORDER)%nat ∧ fits a n (max_order_for a n) ∧
  ∀ o, (max_order_for a n < o ≤ MAX_ORDER)%nat → ¬ fits a n o.
Proof.
  intros Ha Hn. destruct (max_order_fits a n Ha Hn) as [? ?]. split_and!; [done|done|].
  by apply (max_order_loop_spec MAX_ORDER a n).
Qed.

Lemma max_order_for_largest_witness :
  max_order_for 0x104000 0x10000 = 2%nat ∧ fits 0x104000 0x10000 2.
Proof.
  split; [reflexivity|].
  apply (max_order_for_largest 0x104000 0x10000); [by exists 260|by vm_compute].
Defined.

(** Boot terminates for every page-aligned, disjoint list of regions in
    the managed range, and the free memory afterwards is exactly the whole
    pages of those regions, held in coalesced blocks. *)
Theorem boot_exact b n rs :
  range_ok b n → regions_ok b n rs →
  ∃ s ls, boot b n rs = Done s ∧ fl_wf s ls ∧ coalesced ls ∧
    ∀ p, free_at ls p ↔ in_regions rs p.
Proof.
  intros Hb Hrs. destruct (boot_spec b n rs Hb Hrs) as (s & ls & ? & Hinv & ? & _ & ? & _).
  exists s, ls. split_and!; [done|apply Hinv|done|done].
Qed.

Lemma boot_exact_witness : ∃ s ls, boot b64 64 rs64 = Done s ∧ fl_wf s ls.
Proof.
  destruct (boot_exact b64 64 rs64 range64 regions64) as (s & ls & H1 & H2 & _).
  exists s, ls. split; [exact H1|exact H2].
Defined.

(** ** Where the allocator loses pages *)

Lemma refc_inc_get s a : region_ok s → tables_cover s → page_ok s a →
  getd 0 (pte_refcs (pte_refc_inc a s)) (pidx s a) = Z.min (getd 0 (pte_refcs s) (pidx s a) + 1) (2 ^ 16 - 1).
Proof.
  intros Hr Hc Hp. pose proof (pidx_bound s a Hr Hc Hp). unfold pte_refc_inc.
  rewrite phys_to_idx_eq by done. unfold MAX_REFC_PAGES.
  destruct (Z.ltb_spec (pidx s a) (2 ^ 21)); [|lia]. cbn [pte_refcs set_refcs]. by rewrite getd_insert_eq.
Qed.

(** Reusing a quarantined page counts two references to it: one in [q_pop],
    one in [alloc_zeroed_page]. *)
Lemma reuse_refc s ls live a q :
  ainv s ls live → q_list (quar s) = a :: q → pte_refc_get s a = 0 →
  ∃ s1, alloc_zeroed_page s = (Some a, s1) ∧ q_list (quar s1) = q ∧
    pte_refc_get s1 a = 2 ∧ page_type_get s1 a = PAGE_TYPE_PTE ∧ q_cap (quar s1) = q_cap (quar s).
Proof.
  intros Hinv Hql Hz. pose proof Hinv as [Hwf Hc Hq _ Hok _ _ _ _].
  pose proof (wf_region _ _ Hwf) as Hr.
  assert (q_pages_ok s) as Hqp.
  { intros x Hx. apply (Hok (x, 0%nat)). unfold held. apply elem_of_app. right.
    apply list_elem_of_fmap. by exists x. }
  assert (page_ok s a) as Hp by (apply Hqp; rewrite Hql; apply list_elem_of_here).
  destruct (q_pop s) as [r s0] eqn:Hpop. destruct (q_pop_refines s r s0 Hr Hq Hqp Hpop) as [Hq0 Hm].
  destruct r as [x|]; [|by destruct Hm as [Hm _]; rewrite Hql in Hm].
  destruct Hm as [Hl Hs0]. rewrite Hql in Hl. injection Hl as <- Hl.
  set (sq := set_quar (quar s0) s) in *.
  assert (q_cap (quar s0) = q_cap (quar s)) as Hcap by (by rewrite (q_wf_cap _ Hq0), (q_wf_cap _ Hq)).
  rewrite pte_refc_get_eq in Hz by done.
  pose proof (refc_inc_get sq a Hr Hc Hp) as H1. change (pidx sq a) with (pidx s a) in H1.
  change (pte_refcs sq) with (pte_refcs s) in H1. rewrite Hz in H1.
  unfold alloc_zeroed_page. rewrite Hpop.
  eexists. split; [reflexivity|].
  rewrite Hs0. set (s2 := page_type_set a PAGE_TYPE_PTE (zero_page a (pte_refc_inc a sq))).
  destruct (pte_refc_inc_eq a sq) as (r1 & Hr1 & _).
  assert (s2 = set_types (tset (phys_to_idx s a) PAGE_TYPE_PTE (page_types s)) (set_hdr a block0 (set_refcs r1 sq))) as Hs2.
  { unfold s2. by rewrite page_type_set_eq, Hr1. }
  pose proof (refc_inc_get s2 a) as H2. rewrite Hs2 in H2. specialize (H2 Hr Hc Hp).
  change (getd 0 (pte_refcs (pte_refc_inc a (set_types (tset (phys_to_idx s a) PAGE_TYPE_PTE (page_types s))
    (set_hdr a block0 (set_refcs r1 sq))))) (pidx s a) = Z.min (getd 0 r1 (pidx s a) + 1) (2 ^ 16 - 1)) in H2.
  rewrite Hr1 in H1. change (getd 0 r1 (pidx s a) = 1) in H1. rewrite H1 in H2. rewrite Hs2.
  destruct (pte_refc_inc_eq a (set_types (tset (phys_to_idx s a) PAGE_TYPE_PTE (page_types s))
              (set_hdr a block0 (set_refcs r1 sq)))) as (r2 & Hr2 & _).
  rewrite Hr2 in H2 |- *. change (getd 0 r2 (pidx s a) = 2) in H2.
  rewrite untrack_eq, used_mark_eq. split_and!; [by symmetry| | |done].
  - by rewrite pte_refc_get_eq.
  - rewrite page_type_eq by done.
    change (getd 0 (tset (phys_to_idx s a) PAGE_TYPE_PTE (page_types s)) (pidx s a) = PAGE_TYPE_PTE).
    rewrite tset_get by done. by rewrite bool_decide_true.
Qed.

(** A page-table page reused from the quarantine leaks on its next
    [free].  [q_pop] counts a reference and [alloc_zeroed_page] counts another,
    so the one owner's [free] only drops the count to one: the page is neither
    on a free list nor in the quarantine, it is marked freed, and every later
    [free] of it is turned away as a double free. *)
Theorem quarantine_reuse_leaks b n rs s live a q caller :
  reachable b n rs (s, live) → q_list (quar s) = a :: q → pte_refc_get s a = 0 →
  ∃ s1 s2 ls2, alloc_zeroed_page s = (Some a, s1) ∧ pte_refc_get s1 a = 2 ∧
    free caller a 0 s1 = Done s2 ∧ fl_wf s2 ls2 ∧ ¬ free_at ls2 a ∧ q_list (quar s2) = q ∧
    page_is_used s2 a = false ∧ ∀ caller' o', free caller' a o' s2 = Done s2.
Proof.
  intros Hreach Hql Hz. destruct (reachable_minv _ _ _ _ Hreach) as [ls Hinv]. cbn [fst snd] in Hinv.
  destruct (reuse_refc s ls live a q Hinv Hql Hz) as (s1 & Hal & Hq1 & Href & Hty & _).
  destruct (alloc_zeroed_ainv s ls live _ _ Hinv Hal) as (ls1 & Hinv1).
  destruct (free_ainv caller a 0 s1 ls1 live Hinv1) as (s2 & ls2 & Hrun & Hpost & Hinv2).
  pose proof (list_elem_of_here (a, 0%nat) live) as Hin. apply (held_live s1) in Hin.
  destruct (free_tab s1 ls1 a 0 s2 ls2) as (_ & _ & Hun);
    [apply Hinv1|apply Hinv1|by apply (ai_ok _ _ _ Hinv1 (a, 0%nat))|done|].
  exists s1, s2, ls2. pose proof Hpost as (Hwf2 & _ & _ & _ & Hfate & _).
  unfold fate_post, free_fate in Hfate. rewrite Hty, Href in Hfate. cbn [andb Nat.eqb Z.eqb Z.ltb] in Hfate.
  destruct Hfate as [Hfa Hq2]. split_and!; try done; [|by rewrite Hq2|by intros; eapply free_again].
  rewrite Hfa. eapply free_at_blk_out; [by apply (ai_out _ _ _ Hinv1 (a, 0%nat))|].
  pose proof block_size_0. unfold in_blk, PAGE_SIZE in *. cbn [fst snd]. lia.
Qed.

(** A page-table page allocated and freed once: it waits in the quarantine. *)
Definition sq_1 : kmem := (alloc_zeroed_page boot64).2.
Definition sq_2 : kmem := match free 7 b64 0 sq_1 with Done s => s | _ => kmem0 end.

Lemma sq_1_eq : alloc_zeroed_page boot64 = (Some b64, sq_1).
Proof. vm_compute. reflexivity. Qed.

Lemma sq_2_eq : free 7 b64 0 sq_1 = Done sq_2.
Proof. vm_compute. reflexivity. Qed.

#[local] Opaque sq_1 sq_2.

Lemma reach_sq_2 : reachable b64 64 rs64 (sq_2, []).
Proof.
  eapply (reach64_step (sq_1, [(b64, 0%nat)])).
  - eapply reach64_step; [apply reach64|]. apply step_zeroed, sq_1_eq.
  - exact (step_free sq_1 [] [] b64 0 7 sq_2 sq_2_eq).
Qed.

Lemma quarantine_reuse_leaks_witness :
  ∃ s1 s2 ls2, alloc_zeroed_page sq_2 = (Some b64, s1) ∧ free 7 b64 0 s1 = Done s2 ∧
    fl_wf s2 ls2 ∧ ¬ free_at ls2 b64 ∧ q_list (quar s2) = [].
Proof.
  assert (q_list (quar sq_2) = [b64]) as Hq by (vm_compute; reflexivity).
  assert (pte_refc_get sq_2 b64 = 0) as Hz by (vm_compute; reflexivity).
  destruct (quarantine_reuse_leaks b64 64 rs64 sq_2 [] b64 [] 7 reach_sq_2 Hq Hz)
    as (s1 & s2 & ls2 & H1 & _ & H2 & H3 & H4 & H5 & _).
  exists s1, s2, ls2. split_and!; [exact H1|exact H2|exact H3|exact H4|exact H5].
Defined.

(** A reserved block at the head of a list makes [alloc] give up: when it
    is the only block of its order, [alloc] drops it from the list and returns
    [None] without looking at the larger orders. *)
Theorem alloc_reserved_head_gives_up o s ls a :
  fl_wf s ls → (o ≤ MAX_ORDER)%nat → ls o = [a] → is_reserved s a = true →
  ∃ s', alloc o s = (None, s') ∧ fl_wf s' (<[o := []]> ls).
Proof.
  intros Hwf Ho Hls Hres.
  destruct (pop_head_wf s ls o a [] Hwf Ho Hls) as [Hwf' _].
  pose proof (wf_chain _ _ Hwf o Ho) as Hch. rewrite Hls in Hch. destruct Hch as (Hh & Hnz & Hnx).
  exists (set_lists (<[o := b_next (hdr s a)]> (free_lists (al s))) s). split; [|done].
  unfold alloc, alloc_nolock. replace (S MAX_ORDER - o)%nat with (S (MAX_ORDER - o)) by lia.
  cbn [alloc_scan]. rewrite Hh. apply Z.eqb_neq in Hnz as ->. cbn [Z.ltb Z.add Z.compare Pos.compare Pos.compare_cont].
  rewrite Hres. cbn [chain] in Hnx. unfold hdr. by rewrite Hnx.
Qed.

Lemma fl_wf_reserved s ls r n : fl_wf s ls → fl_wf (set_reserved r n s) ls.
Proof. by apply fl_wf_ext. Qed.

Lemma chain_single m a l :
  a ≠ 0 → b_next (getd block0 m a) = 0 → chain m a l → l = [a].
Proof.
  intros Ha Hn. destruct l as [|x [|y l]]; cbn [chain]; [done|by intros (-> & _)|].
  intros (<- & _ & H2 & H3 & _). congruence.
Qed.

(** One page reserved while it is the only free page of order 0: the machine
    still has free blocks of higher orders, and [alloc 0] returns [None]. *)
Definition sr_2 : kmem := set_reserved (<[0%nat := b64 + 0x1000]> (reserved (al s64_1))) 1 s64_1.

Lemma sr_2_wf ls : fl_wf s64_1 ls → fl_wf sr_2 ls.
Proof. apply fl_wf_reserved. Qed.

Lemma sr_2_facts : free_lists (al sr_2) !!! 0%nat = b64 + 0x1000 ∧
  b_next (getd block0 (mem sr_2) (b64 + 0x1000)) = 0 ∧ is_reserved sr_2 (b64 + 0x1000) = true ∧
  (alloc 1 sr_2).1 = Some (b64 + 0x2000).
Proof. vm_compute. done. Qed.
#[local] Opaque sr_2.

Lemma alloc_reserved_head_gives_up_witness :
  (alloc 1 sr_2).1 = Some (b64 + 0x2000) ∧ ∃ s', alloc 0 sr_2 = (None, s').
Proof.
  destruct sr_2_facts as (Hh & Hn & Hr & Ha). split; [exact Ha|].
  destruct (reachable_minv _ _ _ _ reach64_1) as [ls Hinv].
  pose proof (sr_2_wf ls (ai_wf _ _ _ Hinv)) as Hwf.
  pose proof (wf_chain _ _ Hwf 0 ltac:(lia)) as Hch. rewrite Hh in Hch.
  assert (ls 0%nat = [b64 + 0x1000]) as Hl by (eapply chain_single; [|exact Hn|exact Hch]; discriminate).
  destruct (alloc_reserved_head_gives_up 0 sr_2 ls (b64 + 0x1000) Hwf ltac:(lia) Hl Hr) as (s' & H & _).
  exists s'. exact H.
Defined.
