(* ===== verification/PageAlloc.v ===== *)
(** * What the page allocator promises the rest of the kernel

    The other components take single pages from the allocator and give them
    back.  They rely on these promises only: a page handed out is a real page
    that the client did not already hold, the pages it holds do not overlap, a
    page held can be given back, and nothing else the allocator does takes a
    held page away.  [PageAllocator]
    states them; [BuddyPages] discharges them from the theorems about the
    buddy allocator. *)

From S2P Require Import Prelude.
From stdpp Require Import base numbers list.
Local Open Scope Z_scope.

Class PageAllocator (A : Type) := {
  (** [alloc_page()] / [free_page(phys)] of the clients. *)
  pa_alloc : A → option Z * A;
  pa_free : Z → A → comp A;
  (** The client holds exactly these pages. *)
  pa_own : A → list Z → Prop;
  pa_own_perm s l l' : l ≡ₚ l' → pa_own s l → pa_own s l';
  pa_own_nodup s l : pa_own s l → NoDup l;
  pa_own_nonzero s l p : pa_own s l → p ∈ l → p ≠ 0;
  pa_own_apart s l p p' : pa_own s l → p ∈ l → p' ∈ l → p ≠ p' → p + 4096 ≤ p' ∨ p' + 4096 ≤ p;
  pa_alloc_ok s l p s' : pa_own s l → pa_alloc s = (Some p, s') → pa_own s' (p :: l);
  pa_alloc_fail s l s' : pa_own s l → pa_alloc s = (None, s') → pa_own s' l;
  pa_free_ok s l p : pa_own s (p :: l) → ∃ s', pa_free p s = Done s' ∧ pa_own s' l;
}.

#[export] Instance pa_own_proper {A} `{PageAllocator A} (s : A) :
  Proper ((≡ₚ) ==> iff) (pa_own s).
Proof. intros l l' Hl. split; apply pa_own_perm; [done|by symmetry]. Qed.

(** A page just handed out is not one the client already holds. *)
Lemma pa_alloc_fresh {A} `{PageAllocator A} (s : A) l p s' :
  pa_own s l → pa_alloc s = (Some p, s') → p ∉ l ∧ p ≠ 0.
Proof.
  intros Ho Hal. pose proof (pa_alloc_ok _ _ _ _ Ho Hal) as Ho'.
  split; [by apply pa_own_nodup, list.NoDup_cons in Ho' as [? _]|].
  eapply pa_own_nonzero; [exact Ho'|apply list_elem_of_here].
Qed.
