(* ===== verification/BuddyPages.v ===== *)
(** * The buddy allocator keeps the promises of [PageAllocator]

    The [alloc_page] and [free_page] helpers of the clients ([src/ipc.rs]) on
    top of the buddy allocator, and the instance. *)

From S2P Require Import Prelude PageAlloc Buddy BuddyInv BuddyOps BuddyTables BuddySpec.
From stdpp Require Import base gmap numbers functions list.
Local Open Scope Z_scope.

(** [alloc(0)] followed by [write_bytes(phys, 0, 4096)]. *)
Definition alloc_page (s : kmem) : option Z * kmem :=
  match alloc 0 s with
  | (Some phys, s) => (Some phys, zero_page phys s)
  | (None, s) => (None, s)
  end.

Definition free_page (phys : Z) (s : kmem) : comp kmem := free 0 phys 0 s.

(** The client holds the pages [l]; other parts of the kernel hold more. *)
Definition holds (s : kmem) (l : list Z) : Prop :=
  ∃ ls others, ainv s ls (((λ p, (p, 0%nat)) <$> l) ++ others).

Lemma holds_perm s l l' : l ≡ₚ l' → holds s l → holds s l'.
Proof.
  intros Hl (ls & others & Hinv). exists ls, others. eapply ainv_perm; [|exact Hinv]. by rewrite Hl.
Qed.

Lemma pairwise_nodup l : pairwise l → (∀ x, x ∈ l → (x.2 ≤ MAX_ORDER)%nat) → NoDup l.*1.
Proof.
  induction l as [|x l IH]; intros Hp Ho; [apply NoDup_nil_2|].
  destruct Hp as [Hx Hp]. cbn [fmap list_fmap]. apply list.NoDup_cons. split.
  - intros (y & Heq & Hy)%list_elem_of_fmap.
    apply (disj_ne x.1 x.2 y.1 y.2); [apply Ho, list_elem_of_here|by apply Ho, list_elem_of_further| |done].
    by apply (Hx y).
  - apply IH; [done|]. intros y Hy. by apply Ho, list_elem_of_further.
Qed.

Lemma holds_nodup s l : holds s l → NoDup l.
Proof.
  intros (ls & others & Hinv).
  assert (NoDup (held s (((λ p, (p, 0%nat)) <$> l) ++ others)).*1) as Hnd.
  { apply pairwise_nodup; [apply Hinv|]. intros x Hx. by apply (ai_ok _ _ _ Hinv x). }
  unfold held in Hnd. rewrite !fmap_app, <- list_fmap_compose in Hnd.
  apply list.NoDup_app in Hnd as (Hnd & _). apply list.NoDup_app in Hnd as (Hnd & _).
  change (NoDup (id <$> l)) in Hnd. by rewrite list_fmap_id in Hnd.
Qed.

Lemma holds_nonzero s l p : holds s l → p ∈ l → p ≠ 0.
Proof.
  intros (ls & others & Hinv) Hp.
  pose proof (wf_region _ _ (ai_wf _ _ _ Hinv)) as Hr.
  pose proof (blk_pos s p 0 Hr) as Hpos. enough (0 < p) by lia. apply Hpos.
  apply (ai_ok _ _ _ Hinv (p, 0%nat)), held_live, elem_of_app. left.
  apply list_elem_of_fmap. by exists p.
Qed.

Lemma pairwise_disj l x y : pairwise l → x ∈ l → y ∈ l → x ≠ y → disj2 x y.
Proof.
  induction l as [|z l IH]; intros Hp Hx Hy Hne; [by apply elem_of_nil in Hx|].
  destruct Hp as [Hz Hp]. apply elem_of_cons in Hx as [->|Hx], Hy as [->|Hy]; [done|by apply Hz|by apply disj2_sym, Hz|by apply IH].
Qed.

Lemma holds_apart s l p p' : holds s l → p ∈ l → p' ∈ l → p ≠ p' → p + 4096 ≤ p' ∨ p' + 4096 ≤ p.
Proof.
  intros (ls & others & Hinv) Hp Hp' Hne.
  assert (∀ x, x ∈ l → (x, 0%nat) ∈ held s (((λ p, (p, 0%nat)) <$> l) ++ others)) as Hin.
  { intros x Hx. apply held_live, elem_of_app. left. apply list_elem_of_fmap. by exists x. }
  pose proof (pairwise_disj _ (p, 0%nat) (p', 0%nat) (ai_pair _ _ _ Hinv) (Hin p Hp) (Hin p' Hp')) as Hd.
  pose proof block_size_0 as Hb. unfold PAGE_SIZE in Hb. unfold disj2, disj in Hd. cbn [fst snd] in Hd.
  rewrite Hb in Hd. apply Hd. congruence.
Qed.

Lemma holds_alloc s l r s' :
  holds s l → alloc_page s = (r, s') →
  holds s' (match r with Some p => p :: l | None => l end).
Proof.
  intros (ls & others & Hinv). unfold alloc_page. destruct (alloc 0 s) as [r1 s1] eqn:Hal.
  destruct (alloc_ainv 0 s ls _ r1 s1 Hinv Hal) as (ls' & Hinv' & _).
  destruct r1 as [p|]; intros [= <- <-]; exists ls', others; [|done].
  eapply held_write; [exact Hinv'|apply held_live, list_elem_of_here|].
  pose proof block_size_0. unfold in_blk, PAGE_SIZE in *. cbn [fst snd]. lia.
Qed.

Lemma holds_free s l p : holds s (p :: l) → ∃ s', free_page p s = Done s' ∧ holds s' l.
Proof.
  intros (ls & others & Hinv).
  destruct (free_ainv 0 p 0 s ls _ Hinv) as (s' & ls' & Hrun & _ & Hinv').
  exists s'. split; [done|]. by exists ls', others.
Qed.

(** [holds] tells what a client may still use, not what it gave back.  A page
    the allocator has taken back is marked unused and recorded as freed: a
    second free of it is refused. *)
Definition given_back (s : kmem) (p : Z) : Prop := page_is_used s p = false ∧ track_freed_page p s = (true, s).

Lemma given_back_iff s ls p : fl_wf s ls → tables_cover s → page_ok s p →
  given_back s p ↔ bmp_get (used_bmp s) (pidx s p) = false ∧ bmp_get (freed_bmp s) (pidx s p) = true.
Proof.
  intros Hwf Hc Hp. pose proof (wf_region _ _ Hwf) as Hr. unfold given_back. rewrite page_is_used_eq, track_eq by done.
  destruct (bmp_get (freed_bmp s) _); naive_solver.
Qed.

Lemma holds_used s l p : holds s l → p ∈ l → page_ok s p ∧ page_is_used s p = true.
Proof.
  intros (ls & others & Hinv) Hp. set (live := _ ++ others) in *.
  assert ((p, 0%nat) ∈ live) as Hl by (apply elem_of_app; left; apply list_elem_of_fmap; by exists p).
  assert (page_ok s p) as Hok by (eapply (blk_page _ _ 0), (ai_ok _ _ _ Hinv (p, 0%nat)), held_live; done). split; [done|].
  rewrite page_is_used_eq; [apply (ai_live _ _ _ Hinv (p, 0%nat) Hl)|apply (wf_region _ _ (ai_wf _ _ _ Hinv))|apply Hinv|done].
Qed.

(** One page comes back, and no other. *)
Lemma free_gives s l p : holds s (p :: l) → ∃ s', free 0 p 0 s = Done s' ∧ holds s' l ∧ base (al s') = base (al s) ∧ pages (al s') = pages (al s) ∧
  given_back s' p ∧ ∀ x, page_ok s x → x ≠ p → given_back s' x ↔ given_back s x.
Proof.
  intros (ls & others & Hinv). destruct (free_ainv 0 p 0 s ls _ Hinv) as (s' & ls' & Hrun & Hpost & Hinv').
  exists s'. split; [done|]. split; [by exists ls', others|].
  destruct Hpost as (Hwf' & _ & Hb & Hpg & _ & _ & _ & _ & Ht). split; [done|]. split; [done|].
  pose proof (ai_wf _ _ _ Hinv) as Hwf. pose proof (ai_cover _ _ _ Hinv) as Hc. pose proof (wf_region _ _ Hwf) as Hr.
  assert (page_ok s p) as Hp by (eapply (blk_page _ _ 0), (ai_ok _ _ _ Hinv (p, 0%nat)), held_live, list_elem_of_here; done).
  assert (∀ x, page_ok s x → given_back s' x ↔ p = x ∨ given_back s x) as Hx.
  { intros x Hpx. rewrite (given_back_iff s' ls'); [|done|by apply Hinv'|by unfold page_ok, blk_ok; rewrite Hb, Hpg]. rewrite (given_back_iff s ls) by done.
    assert (pidx s' x = pidx s x) as -> by (unfold pidx; by rewrite Hb). injection Ht as -> -> _. unfold fset. rewrite uclear_get, fset_get by done.
    destruct (bool_decide_reflect (p = x)); cbn; naive_solver. }
  split; [by apply Hx; [|left]|]. intros x Hpx Hne. rewrite Hx by done. naive_solver.
Qed.

#[export, refine] Instance buddy_pages : PageAllocator kmem :=
  {| pa_alloc := alloc_page; pa_free := free_page; pa_own := holds |}.
Proof.
  - apply holds_perm.
  - apply holds_nodup.
  - apply holds_nonzero.
  - apply holds_apart.
  - intros s l p s' Ho Ha. exact (holds_alloc s l (Some p) s' Ho Ha).
  - intros s l s' Ho Ha. exact (holds_alloc s l None s' Ho Ha).
  - intros s l p. apply holds_free.
Defined.

(** After boot nothing is held. *)
Lemma holds_boot64 : holds boot64 [].
Proof. destruct (reachable_minv _ _ _ _ reach64) as [ls Hinv]. exists ls, []. exact Hinv. Qed.
