(* ===== verification/Ipc.v ===== *)
(** * Ports and mailboxes: [src/ipc.rs]

    The model of the IPC service: a table of named ports, each with a ring of
    message pages, and a table of reply slots for synchronous calls.  Message
    pages come from a page allocator, known only through [PageAllocator].

    Two things outside this file take part.  [block_on_futex] gives the
    processor away: the parameter [sched] is what the rest of the kernel does to
    the IPC state until the task runs again (and the result of the call).
    [user_range_valid] walks the caller's page tables and may take pages from
    the allocator for demand paging: it is the parameter [user_range_valid].
    Buffers are byte lists: what a sender's buffer holds, and what a call
    writes into the receiver's.  Every critical section of the source holds
    [IPC_LOCK] from end to end and is one function here; the code after it
    touches only the page it took out. *)

From S2P Require Import Prelude Ring PageAlloc.
From stdpp Require Import base gmap numbers list.
Local Open Scope Z_scope.

Definition MAX_PORTS : nat := 32.
Definition PORT_SLOTS : nat := 64.
Definition NAME_LEN : nat := 16.
Definition IPC_MSG_HEADER : Z := 32.
Definition IPC_MSG_MAX : nat := 4064.
Definition MAX_REPLIES : nat := 64.

Definition ESRCH : Z := 3.
Definition EAGAIN : Z := 11.
Definition ENOMEM : Z := 12.
Definition EFAULT : Z := 14.
Definition EEXIST : Z := 17.
Definition EINVAL : Z := 22.
Definition EMSGSIZE : Z := 90.

(** A message page: the header and the bytes behind it. *)
Record MsgPage := mkMsgPage {
  src_pid : Z;
  reply_id : Z;
  msg_type : Z;
  msg_len : nat;
  body : list Z;
}.

(** The wake words of a port are only ever 0; what matters of them is their
    address, see [wake]. *)
Record Port := mkPort {
  p_used : bool;
  p_id : Z;
  p_name : list Z;
  p_slots : list Z;
  p_head : nat;
  p_count : nat;
}.

Record ReplySlot := mkReplySlot {
  r_used : bool;
  r_page : Z;
  r_len : nat;
  r_done : bool;
}.

(** The futex words tasks wait on. *)
Inductive wake := WRecv (i : nat) | WSend (i : nat) | WReply (i : nat).

Definition port_empty : Port :=
  mkPort false 0 (replicate NAME_LEN 0) (replicate PORT_SLOTS 0) 0 0.
Definition reply_empty : ReplySlot := mkReplySlot false 0 0 false.
Definition zero_msg : MsgPage := mkMsgPage 0 0 0 0 (replicate IPC_MSG_MAX 0).

#[export] Instance Port_inhabited : Inhabited Port := populate port_empty.
#[export] Instance ReplySlot_inhabited : Inhabited ReplySlot := populate reply_empty.
#[export] Instance MsgPage_inhabited : Inhabited MsgPage := populate zero_msg.

(** The port table, the reply slots, the contents of the pages in use for
    messages and for replies, the allocator, and the futex wakes issued. *)
Record ipc (A : Type) := mkIpc {
  ports : list Port;
  next_port_id : Z;
  replies : list ReplySlot;
  msgs : gmap Z MsgPage;
  rbytes : gmap Z (list Z);
  pal : A;
  wakes : list (wake * Z);
}.
Arguments mkIpc {A} _ _ _ _ _ _ _.
Arguments ports {A} _.
Arguments next_port_id {A} _.
Arguments replies {A} _.
Arguments msgs {A} _.
Arguments rbytes {A} _.
Arguments pal {A} _.
Arguments wakes {A} _.

Section ipc.
Context {A : Type} `{!PageAllocator A}.
Implicit Types s : ipc A.

Definition set_ports (ps : list Port) s : ipc A :=
  mkIpc ps (next_port_id s) (replies s) (msgs s) (rbytes s) (pal s) (wakes s).
Definition set_replies (rs : list ReplySlot) s : ipc A :=
  mkIpc (ports s) (next_port_id s) rs (msgs s) (rbytes s) (pal s) (wakes s).
Definition set_msgs (m : gmap Z MsgPage) s : ipc A :=
  mkIpc (ports s) (next_port_id s) (replies s) m (rbytes s) (pal s) (wakes s).
Definition set_rbytes (m : gmap Z (list Z)) s : ipc A :=
  mkIpc (ports s) (next_port_id s) (replies s) (msgs s) m (pal s) (wakes s).
Definition set_pal (a : A) s : ipc A :=
  mkIpc (ports s) (next_port_id s) (replies s) (msgs s) (rbytes s) a (wakes s).
Definition futex_wake (w : wake) (n : Z) s : ipc A :=
  mkIpc (ports s) (next_port_id s) (replies s) (msgs s) (rbytes s) (pal s) (wakes s ++ [(w, n)]).

Definition port_ref s (i : nat) : Port := ports s !!! i.
Definition set_port (i : nat) (p : Port) s : ipc A := set_ports (<[i := p]> (ports s)) s.
Definition reply_ref s (i : nat) : ReplySlot := replies s !!! i.
Definition set_reply (i : nat) (r : ReplySlot) s : ipc A := set_replies (<[i := r]> (replies s)) s.

(** [alloc_page] zeroes the page; it is read as a message page or as the raw
    bytes of a reply page, depending on who asked for it. *)
Definition alloc_msg_page s : option Z * ipc A :=
  match pa_alloc (pal s) with
  | (Some p, a) => (Some p, set_msgs (<[p := zero_msg]> (msgs s)) (set_pal a s))
  | (None, a) => (None, set_pal a s)
  end.

Definition alloc_reply_page s : option Z * ipc A :=
  match pa_alloc (pal s) with
  | (Some p, a) => (Some p, set_rbytes (<[p := replicate 4096 0]> (rbytes s)) (set_pal a s))
  | (None, a) => (None, set_pal a s)
  end.

Definition ipc_free_page (p : Z) s : comp (ipc A) :=
  let! a := pa_free p (pal s) in Done (set_pal a s).

(** ** Lookups *)

Definition port_idx_by_id_locked s (id : Z) : option nat :=
  first_from (λ i, p_used (port_ref s i) && (p_id (port_ref s i) =? id)) 0 MAX_PORTS.

Definition name_matches (p : Port) (name : list Z) : bool :=
  match first_from (λ j, negb (p_name p !!! j =? name !!! j)) 0 (length name) with
  | Some _ => false
  | None => (length name =? NAME_LEN)%nat || (p_name p !!! length name =? 0)
  end.

Definition port_idx_by_name_locked s (name : list Z) : option nat :=
  if (NAME_LEN <? length name)%nat then None
  else first_from (λ i, p_used (port_ref s i) && name_matches (port_ref s i) name) 0 MAX_PORTS.

(** ** Reply slots *)

Definition reply_alloc_locked s : comp (option nat * ipc A) :=
  match alloc_reply_page s with
  | (None, s) => Done (None, s)
  | (Some page, s) =>
      match first_from (λ i, negb (r_used (reply_ref s i))) 1 (MAX_REPLIES - 1) with
      | Some i => Done (Some i, set_reply i (mkReplySlot true page 0 false) s)
      | None => let! s := ipc_free_page page s in Done (None, s)
      end
  end.

Definition reply_free_locked (id : nat) s : comp (ipc A) :=
  if (id <? MAX_REPLIES)%nat && r_used (reply_ref s id) then
    let r := reply_ref s id in
    if negb (r_page r =? 0) then
      let! s := ipc_free_page (r_page r) s in
      Done (set_reply id (mkReplySlot false 0 (r_len r) (r_done r)) s)
    else Done (set_reply id (mkReplySlot false (r_page r) (r_len r) (r_done r)) s)
  else Done s.

Definition ipc_reply (rid : nat) (buf : option (list Z)) (len : nat) s : Z * ipc A :=
  if negb (rid <? MAX_REPLIES)%nat || negb (r_used (reply_ref s rid)) then (- ESRCH, s)
  else
    let r := reply_ref s rid in
    if r_done r then (0, s)
    else
      let n := Nat.min len IPC_MSG_MAX in
      let s := match buf with
               | Some data =>
                   if (0 <? n)%nat
                   then set_rbytes (<[r_page r := take n data ++ drop n (rbytes s !!! r_page r)]> (rbytes s)) s
                   else s
               | None => s
               end in
      let s := set_reply rid (mkReplySlot true (r_page r) n true) s in
      (Z.of_nat n, futex_wake (WReply rid) 1 s).

(** ** Ports *)

(** [for (j, &c) in name.iter().enumerate() { p.name[j] = c }] *)
Definition write_name (name old : list Z) : list Z := name ++ drop (length name) old.

Definition ipc_create (name : option (list Z)) s : Z * ipc A :=
  match name with
  | None => (- EINVAL, s)
  | Some name =>
      if (length name =? 0)%nat || (NAME_LEN <? length name)%nat then (- EINVAL, s)
      else match port_idx_by_name_locked s name with
      | Some _ => (- EEXIST, s)
      | None =>
          match first_from (λ i, negb (p_used (port_ref s i))) 0 MAX_PORTS with
          | Some i =>
              let p := port_ref s i in
              let id := next_port_id s in
              let p' := mkPort true id (write_name name (p_name p)) (p_slots p) 0 0 in
              (id, mkIpc (<[i := p']> (ports s)) (w64 (id + 1)) (replies s) (msgs s) (rbytes s) (pal s) (wakes s))
          | None => (- ENOMEM, s)
          end
      end
  end.

Definition ipc_connect (name : option (list Z)) s : Z :=
  match name with
  | None => - EINVAL
  | Some name =>
      if (length name =? 0)%nat || (NAME_LEN <? length name)%nat then - EINVAL
      else match port_idx_by_name_locked s name with
      | Some i => p_id (port_ref s i)
      | None => - ESRCH
      end
  end.

Definition register_service (name : list Z) s : Z * ipc A := ipc_create (Some name) s.

(** ** Sending *)

Context (user_range_valid : Z → nat → bool → A → bool * A).
Context (sched : wake → ipc A → bool * ipc A).

(** The sender's buffer: where it is and what it holds. *)
Record buffer := mkBuf { b_addr : Z; b_data : list Z }.

(** How one turn of the send loop ends. *)
Inductive posted := Posted (i : nat) | Full (i : nat) | Failed (err : Z).

(** The critical section of [ipc_send] and [ipc_call]: post one message. *)
Definition post_locked (port_id : Z) (buf : buffer) (src rid typ : Z) (kernel_buf : bool) s
    : comp (posted * ipc A) :=
  let len := length (b_data buf) in
  match port_idx_by_id_locked s port_id with
  | None => Done (Failed (- ESRCH), s)
  | Some idx =>
      if (p_count (port_ref s idx) <? PORT_SLOTS)%nat then
        match alloc_msg_page s with
        | (None, s) => Done (Failed (- ENOMEM), s)
        | (Some page, s) =>
            let '(ok, s) :=
              if (0 <? len)%nat && negb kernel_buf
              then let '(ok, a) := user_range_valid (b_addr buf) len false (pal s) in (ok, set_pal a s)
              else (true, s) in
            if negb ok then let! s := ipc_free_page page s in Done (Failed (- EFAULT), s)
            else
              let m := mkMsgPage src rid typ len (b_data buf ++ drop len (body zero_msg)) in
              let s := set_msgs (<[page := m]> (msgs s)) s in
              let p := port_ref s idx in
              let i2 := ((p_head p + p_count p) `mod` PORT_SLOTS)%nat in
              Done (Posted idx,
                set_port idx (mkPort (p_used p) (p_id p) (p_name p) (<[i2 := page]> (p_slots p))
                                (p_head p) (p_count p + 1)%nat) s)
        end
      else Done (Full idx, s)
  end.

Fixpoint ipc_send_loop (fuel : nat) (port_id : Z) (buf : buffer) (src typ : Z) s : comp (Z * ipc A) :=
  match fuel with
  | O => Spin
  | S f =>
      let! (r, s) := post_locked port_id buf src 0 typ false s in
      match r with
      | Failed e => Done (e, s)
      | Posted idx => Done (0, futex_wake (WRecv idx) 1 s)
      | Full idx =>
          match sched (WSend idx) s with
          | (true, s) => ipc_send_loop f port_id buf src typ s
          | (false, s) => Done (- EAGAIN, s)
          end
      end
  end.

Definition ipc_send (fuel : nat) (port_id : Z) (buf : buffer) (src typ : Z) s : comp (Z * ipc A) :=
  if (IPC_MSG_MAX <? length (b_data buf))%nat then Done (- EMSGSIZE, s)
  else ipc_send_loop fuel port_id buf src typ s.

(** ** Receiving *)

Inductive taken := Taken (i : nat) (page : Z) | NoMsg (i : nat) | NoPort.

(** The critical section of the receive calls: take the oldest page. *)
Definition take_locked (port_id : Z) s : taken * ipc A :=
  match port_idx_by_id_locked s port_id with
  | None => (NoPort, s)
  | Some idx =>
      let p := port_ref s idx in
      if (0 <? p_count p)%nat then
        let i2 := p_head p in
        (Taken idx (p_slots p !!! i2),
         set_port idx (mkPort (p_used p) (p_id p) (p_name p) (p_slots p)
                         ((i2 + 1) `mod` PORT_SLOTS)%nat (p_count p - 1)%nat) s)
      else (NoMsg idx, s)
  end.

(** The rest of the receive calls: copy out, give the page back.  The result
    is the length, the reply token and the bytes written to the buffer. *)
Definition deliver (page : Z) (buf : option Z) (max_len : nat) (kernel_buf : bool) s
    : comp (Z * Z * list Z * ipc A) :=
  let m := msgs s !!! page in
  let out_len := Nat.min (msg_len m) max_len in
  let '(ok, out, s) :=
    match buf with
    | Some addr =>
        if (0 <? out_len)%nat then
          if negb kernel_buf then
            let '(ok, a) := user_range_valid addr out_len true (pal s) in
            (ok, take out_len (body m), set_pal a s)
          else (true, take out_len (body m), s)
        else (true, [], s)
    | None => (true, [], s)
    end in
  let! s := ipc_free_page page s in
  if ok then Done (Z.of_nat (msg_len m), reply_id m, out, s)
  else Done (- EFAULT, 0, [], s).

Fixpoint ipc_recv_ex_impl (fuel : nat) (port_id : Z) (buf : option Z) (max_len : nat)
    (kernel_buf : bool) s : comp (Z * Z * list Z * ipc A) :=
  match fuel with
  | O => Spin
  | S f =>
      match take_locked port_id s with
      | (NoPort, s) => Done (- ESRCH, 0, [], s)
      | (Taken idx page, s) => deliver page buf max_len kernel_buf (futex_wake (WSend idx) 1 s)
      | (NoMsg idx, s) =>
          match sched (WRecv idx) s with
          | (true, s) => ipc_recv_ex_impl f port_id buf max_len kernel_buf s
          | (false, s) => Done (- EAGAIN, 0, [], s)
          end
      end
  end.

(** [ipc_recv] is the same loop without the reply token. *)
Definition ipc_recv (fuel : nat) (port_id : Z) (buf : option Z) (max_len : nat) s
    : comp (Z * list Z * ipc A) :=
  let! (len, _, out, s) := ipc_recv_ex_impl fuel port_id buf max_len false s in
  Done (len, out, s).

Definition ipc_recv_ex (fuel : nat) (port_id : Z) (buf : option Z) (max_len : nat) s :=
  ipc_recv_ex_impl fuel port_id buf max_len false s.

Definition ipc_recv_ex_internal (fuel : nat) (port_id : Z) (buf : option Z) (max_len : nat) s :=
  ipc_recv_ex_impl fuel port_id buf max_len true s.

(** Packs the length and the token into one register. *)
Definition ipc_recv_ex_user (fuel : nat) (port_id : Z) (buf : option Z) (max_len : nat) s
    : comp (Z * list Z * ipc A) :=
  let! (len, rid, out, s) := ipc_recv_ex_impl fuel port_id buf max_len false s in
  if len <? 0 then Done (len, out, s)
  else
    let rl := if 2 ^ 32 - 1 <? len then 2 ^ 32 - 1 else len in
    let rid := w64 (Z.shiftl (Z.land rid (2 ^ 32 - 1)) 32) in
    Done (Z.lor rid rl, out, s).

Definition ipc_peek_ex_impl (port_id : Z) (buf : option Z) (max_len : nat) (kernel_buf : bool) s
    : comp (Z * Z * list Z * ipc A) :=
  match take_locked port_id s with
  | (NoPort, s) => Done (- ESRCH, 0, [], s)
  | (NoMsg _, s) => Done (0, 0, [], s)
  | (Taken idx page, s) => deliver page buf max_len kernel_buf (futex_wake (WSend idx) 1 s)
  end.

Definition ipc_peek_ex (port_id : Z) (buf : option Z) (max_len : nat) s :=
  ipc_peek_ex_impl port_id buf max_len false s.

Definition ipc_peek_ex_internal (port_id : Z) (buf : option Z) (max_len : nat) s :=
  ipc_peek_ex_impl port_id buf max_len true s.

Definition ipc_peek (port_id : Z) (buf : option Z) (max_len : nat) s : comp (Z * list Z * ipc A) :=
  let! (len, _, out, s) := ipc_peek_ex_impl port_id buf max_len false s in
  Done (len, out, s).

(** ** Synchronous calls *)

(** Posting the request, blocking while the mailbox is full. *)
Fixpoint call_post (fuel : nat) (port_id : Z) (buf : buffer) (src : Z) (rid : nat) (kernel_buf : bool) s
    : comp (option Z * ipc A) :=
  match fuel with
  | O => Spin
  | S f =>
      let! (r, s) := post_locked port_id buf src (Z.of_nat rid) 0 kernel_buf s in
      match r with
      | Failed e => let! s := reply_free_locked rid s in Done (Some e, s)
      | Posted idx => Done (None, futex_wake (WRecv idx) 1 s)
      | Full idx =>
          match sched (WSend idx) s with
          | (true, s) => call_post f port_id buf src rid kernel_buf s
          | (false, s) => let! s := reply_free_locked rid s in Done (Some (- EAGAIN), s)
          end
      end
  end.

(** Waiting for the answer: an error, or the page it is in. *)
Fixpoint call_wait (fuel : nat) (rid : nat) s : comp ((Z + Z) * ipc A) :=
  match fuel with
  | O => Spin
  | S f =>
      if (rid <? MAX_REPLIES)%nat && r_used (reply_ref s rid) then
        if r_done (reply_ref s rid) then Done (inr (r_page (reply_ref s rid)), s)
        else match sched (WReply rid) s with
             | (true, s) => call_wait f rid s
             | (false, s) => let! s := reply_free_locked rid s in Done (inl (- EAGAIN), s)
             end
      else let! s := reply_free_locked rid s in Done (inl (- ESRCH), s)
  end.

(** The result is the length of the reply and the bytes written to [out]. *)
Definition ipc_call_impl (fuel : nat) (port_id : Z) (buf : buffer) (src : Z) (out : option Z)
    (out_len : nat) (kernel_buf : bool) s : comp (Z * list Z * ipc A) :=
  if (IPC_MSG_MAX <? length (b_data buf))%nat then Done (- EMSGSIZE, [], s)
  else
    let! (r, s) := reply_alloc_locked s in
    match r with
    | None => Done (- ENOMEM, [], s)
    | Some rid =>
        let! (e, s) := call_post fuel port_id buf src rid kernel_buf s in
        match e with
        | Some e => Done (e, [], s)
        | None =>
            let! (w, s) := call_wait fuel rid s in
            match w with
            | inl e => Done (e, [], s)
            | inr page =>
                let len := r_len (reply_ref s rid) in
                let rlen := Nat.min len out_len in
                let written := match out with
                               | Some _ => if (0 <? rlen)%nat then take rlen (rbytes s !!! page) else []
                               | None => []
                               end in
                let! s := reply_free_locked rid s in
                Done (Z.of_nat len, written, s)
            end
        end
    end.

Definition ipc_call (fuel : nat) (port_id : Z) (buf : buffer) (src : Z) (out : option Z) (out_len : nat) s :=
  ipc_call_impl fuel port_id buf src out out_len false s.

Definition ipc_call_internal (fuel : nat) (port_id : Z) (buf : buffer) (src : Z) (out : option Z) (out_len : nat) s :=
  ipc_call_impl fuel port_id buf src out out_len true s.

(** ** Closing a port *)

(** [for j in 0..p.count]: free each queued page and clear its slot. *)
Fixpoint close_slots (n j head : nat) (sl : list Z) s : comp (list Z * ipc A) :=
  match n with
  | O => Done (sl, s)
  | S n' =>
      let idx := ((head + j) `mod` PORT_SLOTS)%nat in
      if negb (sl !!! idx =? 0) then
        let! s := ipc_free_page (sl !!! idx) s in
        close_slots n' (S j) head (<[idx := 0]> sl) s
      else close_slots n' (S j) head sl s
  end.

Definition ipc_close (port_id : Z) s : comp (Z * ipc A) :=
  match first_from (λ i, p_used (port_ref s i) && (p_id (port_ref s i) =? port_id)) 0 MAX_PORTS with
  | Some i =>
      let p := port_ref s i in
      let! (sl, s) := close_slots (p_count p) 0 (p_head p) (p_slots p) s in
      let s := futex_wake (WRecv i) (2 ^ 32 - 1) s in
      let s := futex_wake (WSend i) (2 ^ 32 - 1) s in
      Done (0, set_port i port_empty s)
  | None => Done (- ESRCH, s)
  end.

(** The old shared-memory calls are no-ops. *)
Definition shm_setup (partner_id cur : Z) : Z :=
  if partner_id =? 0 then - EINVAL else if cur =? 0 then - EINVAL else 0.
Definition shm_notify (partner_id : Z) : Z := 0.
Definition shm_wait (timeout_ms : Z) : Z := 0.
Definition shm_teardown (partner_id : Z) : Z := 0.
End ipc.

(** The boot state: no ports, no replies. *)
Definition ipc0 {A} (a : A) : ipc A :=
  mkIpc (replicate MAX_PORTS port_empty) 1 (replicate MAX_REPLIES reply_empty) ∅ ∅ a [].
