(* ===== verification/IpcInv.v ===== *)
(** * The invariant of the IPC service

    What the port table, the reply slots and the pages they hold have to do
    with each other: every page in a mailbox or a reply slot is held from the
    allocator, once.  The mailboxes are read as queues of messages
    ([mailbox]). *)

From S2P Require Import Prelude PageAlloc Ipc Ring.
From stdpp Require Import base gmap numbers list.
Local Open Scope Z_scope.

Lemma port_slots_pos : (0 < PORT_SLOTS)%nat.
Proof. unfold PORT_SLOTS. lia. Qed.

Lemma max_replies_pos : (0 < MAX_REPLIES)%nat.
Proof. unfold MAX_REPLIES. lia. Qed.

Lemma msg_max_page : (IPC_MSG_MAX ≤ 4096)%nat.
Proof. unfold IPC_MSG_MAX. lia. Qed.

#[local] Opaque MAX_PORTS PORT_SLOTS NAME_LEN MAX_REPLIES IPC_MSG_MAX.

Record port_wf (p : Port) : Prop := {
  pw_slots : length (p_slots p) = PORT_SLOTS;
  pw_name : length (p_name p) = NAME_LEN;
  pw_head : (p_head p < PORT_SLOTS)%nat;
  pw_count : (p_count p ≤ PORT_SLOTS)%nat;
  pw_clear : p_used p = false → p_name p = replicate NAME_LEN 0;
}.

(** The message pages of a port, oldest first. *)
Definition port_pages (p : Port) : list Z :=
  if p_used p then ring_list (p_slots p) (p_head p) (p_count p) PORT_SLOTS else [].

Definition reply_pages (r : ReplySlot) : list Z := if r_used r then [r_page r] else [].

Definition msg_wf (m : MsgPage) : Prop := (msg_len m ≤ IPC_MSG_MAX)%nat ∧ length (body m) = IPC_MSG_MAX.

Section inv.
Context {A : Type} `{!PageAllocator A}.
Implicit Types s : ipc A.

Definition queued s : list Z := ports s ≫= port_pages.
Definition reply_held s : list Z := replies s ≫= reply_pages.
Definition owned s : list Z := queued s ++ reply_held s.

Definition is_used s (i : nat) : Prop := (i < MAX_PORTS)%nat ∧ p_used (port_ref s i) = true.

Record ipc_inv s : Prop := {
  iv_ports : length (ports s) = MAX_PORTS;
  iv_replies : length (replies s) = MAX_REPLIES;
  iv_port : ∀ i p, ports s !! i = Some p → port_wf p;
  iv_ids : ∀ i j, is_used s i → is_used s j → p_id (port_ref s i) = p_id (port_ref s j) → i = j;
  iv_next : ∀ i, is_used s i → 0 < p_id (port_ref s i) < next_port_id s;
  iv_next_pos : 0 < next_port_id s;
  iv_msgs : ∀ pg, pg ∈ queued s → msg_wf (msgs s !!! pg);
  iv_rep : ∀ i r, replies s !! i = Some r → r_used r = true →
    length (rbytes s !!! r_page r) = 4096%nat ∧ (r_len r ≤ IPC_MSG_MAX)%nat ∧ i ≠ 0%nat;
  iv_own : pa_own (pal s) (owned s);
}.

(** ** The abstract state *)

Definition queue s (i : nat) : list MsgPage :=
  (λ pg, msgs s !!! pg) <$> port_pages (port_ref s i).

(** The queue of messages behind a port id. *)
Definition mailbox s (id : Z) : option (list MsgPage) := queue s <$> port_idx_by_id_locked s id.

Definition same_mail s s' : Prop := ∀ id, mailbox s' id = mailbox s id.

Lemma port_idx_spec s id i :
  port_idx_by_id_locked s id = Some i →
  is_used s i ∧ p_id (port_ref s i) = id.
Proof.
  unfold port_idx_by_id_locked. rewrite first_from_Some. intros (? & Hb & _). bool_to_prop.
  split; [split; [lia|done]|done].
Qed.

Lemma port_lookup s i : ipc_inv s → (i < MAX_PORTS)%nat → ports s !! i = Some (port_ref s i).
Proof.
  intros Hinv Hi. unfold port_ref. apply list_lookup_lookup_total_lt. by rewrite (iv_ports _ Hinv).
Qed.

Lemma reply_lookup s i : ipc_inv s → (i < MAX_REPLIES)%nat → replies s !! i = Some (reply_ref s i).
Proof.
  intros Hinv Hi. unfold reply_ref. apply list_lookup_lookup_total_lt. by rewrite (iv_replies _ Hinv).
Qed.

Lemma port_ref_wf s i : ipc_inv s → (i < MAX_PORTS)%nat → port_wf (port_ref s i).
Proof. intros Hinv Hi. eapply iv_port; [done|by apply port_lookup]. Qed.

Lemma port_ref_set s i p j :
  ipc_inv s → (i < MAX_PORTS)%nat →
  port_ref (set_port i p s) j = if decide (i = j) then p else port_ref s j.
Proof.
  intros Hinv Hi. unfold port_ref, set_port. cbn [ports set_ports]. case_decide as Hd.
  - subst j. apply list_lookup_total_insert_eq. by rewrite (iv_ports _ Hinv).
  - by apply list_lookup_total_insert_ne.
Qed.

Lemma queued_elem s i pg :
  ipc_inv s → (i < MAX_PORTS)%nat → pg ∈ port_pages (port_ref s i) → pg ∈ queued s.
Proof.
  intros Hinv Hi Hpg. apply list_elem_of_bind. exists (port_ref s i). split; [done|].
  by eapply list_elem_of_lookup_2, port_lookup.
Qed.

Lemma port_ref_out s i : ipc_inv s → ¬ (i < MAX_PORTS)%nat → port_ref s i = port_empty.
Proof.
  intros Hinv Hi. unfold port_ref. rewrite list_lookup_total_alt, lookup_ge_None_2; [done|].
  rewrite (iv_ports _ Hinv). lia.
Qed.

(** Writing a message page nobody queued does not change the queues. *)
Lemma queue_fresh s s' pg m i :
  ipc_inv s → ports s' = ports s → msgs s' = <[pg := m]> (msgs s) → pg ∉ queued s →
  queue s' i = queue s i.
Proof.
  intros Hinv Hp Hm Hni. unfold queue, port_ref. rewrite Hp, Hm. fold (port_ref s i).
  apply list_fmap_ext. intros _ x Hx%list_elem_of_lookup_2.
  apply lookup_total_insert_ne. intros <-. apply Hni.
  destruct (decide (i < MAX_PORTS)%nat); [by eapply queued_elem|].
  rewrite port_ref_out in Hx by done. by apply elem_of_nil in Hx.
Qed.

(** The lookup by id looks at the used flags and the ids only. *)
Lemma idx_ext s s' id :
  (∀ i, (i < MAX_PORTS)%nat → p_used (port_ref s' i) = p_used (port_ref s i) ∧
     p_id (port_ref s' i) = p_id (port_ref s i)) →
  port_idx_by_id_locked s' id = port_idx_by_id_locked s id.
Proof.
  intros Heq. apply first_from_ext. intros k Hk. destruct (Heq k) as [-> ->]; [lia|done].
Qed.

Lemma same_mail_ports s s' :
  ports s' = ports s → (∀ i, queue s' i = queue s i) → same_mail s s'.
Proof.
  intros Hp Hq id. unfold mailbox. rewrite (idx_ext s s').
  - destruct (port_idx_by_id_locked s id); [|done]. simpl. by rewrite Hq.
  - intros i _. unfold port_ref. by rewrite Hp.
Qed.
End inv.

(** * What the IPC operations do

    Each critical section of [src/ipc.rs] keeps the invariant and acts on the
    mailboxes as on queues: posting appends to one, taking removes the head of
    one, and every failure leaves all of them alone. *)

Lemma zero_msg_wf : msg_wf zero_msg.
Proof. split; [simpl; lia|]. cbn [body zero_msg]. apply length_replicate. Qed.


(** The port after one more page has been stored behind the last one. *)
Definition port_push (p : Port) (pg : Z) : Port :=
  mkPort (p_used p) (p_id p) (p_name p)
    (<[((p_head p + p_count p) `mod` PORT_SLOTS)%nat := pg]> (p_slots p)) (p_head p) (p_count p + 1)%nat.

(** The port after its oldest page has been taken. *)
Definition port_pop (p : Port) : Port :=
  mkPort (p_used p) (p_id p) (p_name p) (p_slots p) ((p_head p + 1) `mod` PORT_SLOTS)%nat (p_count p - 1)%nat.

Lemma port_push_wf p pg : port_wf p → (p_count p < PORT_SLOTS)%nat → port_wf (port_push p pg).
Proof. intros [? ? ? ? ?] ?. split; cbn; try done; [by rewrite length_insert|lia]. Qed.

Lemma port_pop_wf p : port_wf p → port_wf (port_pop p).
Proof.
  intros [? ? ? ? ?]. split; cbn; try done; [|lia]. apply Nat.mod_upper_bound.
  pose proof port_slots_pos. lia.
Qed.

Lemma port_push_pages p pg :
  port_wf p → p_used p = true → (p_count p < PORT_SLOTS)%nat →
  port_pages (port_push p pg) = port_pages p ++ [pg].
Proof.
  intros Hw Hu Hc. unfold port_pages, port_push. cbn. rewrite Hu.
  rewrite <- (ring_push (p_slots p) (p_head p) (p_count p) PORT_SLOTS pg); [|by apply pw_slots|done].
  by rewrite Nat.add_1_r.
Qed.

Lemma port_pop_pages p :
  port_wf p → p_used p = true → (0 < p_count p)%nat →
  port_pages p = p_slots p !!! p_head p :: port_pages (port_pop p).
Proof.
  intros Hw Hu Hc. unfold port_pages, port_pop. cbn. rewrite Hu.
  destruct (p_count p) as [|n] eqn:Hn; [lia|]. pose proof port_slots_pos.
  rewrite ring_pop by lia. rewrite Nat.mod_small by (apply Hw).
  rewrite Nat.add_1_r. by replace (S n - 1)%nat with n by lia.
Qed.

Lemma port_pages_length p : p_used p = true → length (port_pages p) = p_count p.
Proof. intros Hu. unfold port_pages. rewrite Hu. apply length_ring_list. Qed.

Section ops.
Context {A : Type} `{!PageAllocator A}.
Implicit Types s : ipc A.

(** ** Changing one port, or the allocator only *)

Lemma queued_set s i p :
  ipc_inv s → (i < MAX_PORTS)%nat →
  ∃ R, queued s ≡ₚ port_pages (port_ref s i) ++ R ∧
       queued (set_port i p s) ≡ₚ port_pages p ++ R.
Proof. intros Hinv Hi. apply bind_insert. by apply port_lookup. Qed.

Lemma reply_held_set s i r :
  ipc_inv s → (i < MAX_REPLIES)%nat →
  ∃ R, reply_held s ≡ₚ reply_pages (reply_ref s i) ++ R ∧
       reply_held (set_reply i r s) ≡ₚ reply_pages r ++ R.
Proof. intros Hinv Hi. apply bind_insert. by apply reply_lookup. Qed.

Lemma is_used_set s i p j :
  ipc_inv s → (i < MAX_PORTS)%nat → p_used p = p_used (port_ref s i) →
  is_used (set_port i p s) j ↔ is_used s j.
Proof.
  intros Hinv Hi Hu. unfold is_used. rewrite port_ref_set by done. case_decide; [subst; by rewrite Hu|done].
Qed.

Lemma inv_pal s a : ipc_inv s → pa_own a (owned s) → ipc_inv (set_pal a s).
Proof. intros [? ? ? ? ? ? ? ? ?] Hown. by split. Qed.

Lemma inv_wake s w n : ipc_inv s → ipc_inv (futex_wake w n s).
Proof. intros [? ? ? ? ? ? ? ? ?]. by split. Qed.

(** A port changes its ring, keeping its name and id; the pages the whole
    service holds change accordingly. *)
Lemma inv_set_port s i p m a :
  ipc_inv s → (i < MAX_PORTS)%nat → port_wf p →
  p_used p = p_used (port_ref s i) → p_id p = p_id (port_ref s i) →
  (∀ pg, pg ∈ queued (set_port i p s) → msg_wf (m !!! pg)) →
  pa_own a (queued (set_port i p s) ++ reply_held s) →
  ipc_inv (set_port i p (set_msgs m (set_pal a s))).
Proof.
  intros Hinv Hi Hw Hu Hid Hm Hown. pose proof Hinv as [H1 H2 H3 H4 H5 H6 H7 H8 H9].
  assert (∀ j, port_ref (set_port i p (set_msgs m (set_pal a s))) j =
    if decide (i = j) then p else port_ref s j) as Href by (intros j; by rewrite <- port_ref_set).
  assert (∀ j, is_used (set_port i p (set_msgs m (set_pal a s))) j ↔ is_used s j) as Hus.
  { intros j. rewrite <- (is_used_set s i p j) by done. done. }
  assert (∀ j, p_id (port_ref (set_port i p (set_msgs m (set_pal a s))) j) = p_id (port_ref s j)) as Hids.
  { intros j. rewrite Href. case_decide; [by subst|done]. }
  split; try done.
  - cbn. by rewrite length_insert.
  - intros j q Hj. cbn in Hj. apply list_lookup_insert_Some in Hj as [(_ & <- & _)|[_ Hj]]; eauto.
  - intros j k Hj%Hus Hk%Hus. rewrite !Hids. by apply H4.
  - intros j Hj%Hus. rewrite Hids. by apply H5.
Qed.

(** ** Taking a message *)

Lemma take_locked_spec s id r s' :
  ipc_inv s → take_locked id s = (r, s') →
  match r with
  | NoPort => mailbox s id = None ∧ s' = s
  | NoMsg i => port_idx_by_id_locked s id = Some i ∧ mailbox s id = Some [] ∧ s' = s
  | Taken i pg =>
      port_idx_by_id_locked s id = Some i ∧ ports s' = <[i := port_pop (port_ref s i)]> (ports s) ∧
      s' = set_ports (ports s') s ∧
      port_pages (port_ref s i) = pg :: port_pages (port_pop (port_ref s i)) ∧
      owned s ≡ₚ pg :: owned s' ∧
      ∀ a, pa_own a (owned s') → ipc_inv (set_pal a s')
  end.
Proof.
  intros Hinv. unfold take_locked. destruct (port_idx_by_id_locked s id) as [i|] eqn:Hidx.
  2: { intros [= <- <-]. unfold mailbox. by rewrite Hidx. }
  destruct (port_idx_spec s id i Hidx) as [[Hi Hu] Hid].
  pose proof (port_ref_wf s i Hinv Hi) as Hw.
  destruct (Nat.ltb_spec 0 (p_count (port_ref s i))) as [Hc|Hc]; intros [= <- <-].
  - pose proof (port_pop_pages _ Hw Hu Hc) as Hpop. fold (port_pop (port_ref s i)).
    destruct (queued_set s i (port_pop (port_ref s i)) Hinv Hi) as (R & HR1 & HR2).
    rewrite Hpop in HR1.
    assert (queued s ≡ₚ p_slots (port_ref s i) !!! p_head (port_ref s i) :: queued (set_port i (port_pop (port_ref s i)) s)) as Hq.
    { by rewrite HR1, HR2. }
    split_and!; try done.
    + unfold owned. by rewrite Hq.
    + intros a Ha. apply (inv_set_port s i (port_pop (port_ref s i)) (msgs s) a); try done.
      * by apply port_pop_wf.
      * intros pg Hpg. apply (iv_msgs _ Hinv). rewrite Hq. by apply list_elem_of_further.
  - split_and!; [done| |done]. unfold mailbox, queue. rewrite Hidx. simpl. unfold port_pages. rewrite Hu.
    by replace (p_count (port_ref s i)) with 0%nat by lia.
Qed.

(** ** Posting a message *)

Lemma push_spec s i pg m a :
  ipc_inv s → is_used s i → (p_count (port_ref s i) < PORT_SLOTS)%nat →
  pg ∉ queued s → msg_wf m → pa_own a (pg :: owned s) →
  let s' := set_port i (port_push (port_ref s i) pg) (set_msgs (<[pg := m]> (msgs s)) (set_pal a s)) in
  ipc_inv s' ∧ (∀ j, queue s' j = if decide (i = j) then queue s i ++ [m] else queue s j) ∧
  (∀ id, port_idx_by_id_locked s' id = port_idx_by_id_locked s id).
Proof.
  intros Hinv [Hi Hu] Hc Hpg Hm Hown s'.
  pose proof (port_ref_wf s i Hinv Hi) as Hw.
  pose proof (port_push_pages _ pg Hw Hu Hc) as Hpp.
  destruct (queued_set s i (port_push (port_ref s i) pg) Hinv Hi) as (R & HR1 & HR2).
  rewrite Hpp in HR2.
  assert (queued (set_port i (port_push (port_ref s i) pg) s) ≡ₚ pg :: queued s) as Hq.
  { rewrite HR1, HR2. rewrite (Permutation_app_comm (port_pages _) [pg]). done. }
  assert (∀ j, port_ref s' j = if decide (i = j) then port_push (port_ref s i) pg else port_ref s j) as Href.
  { intros j. rewrite <- port_ref_set by done. done. }
  assert (∀ j x, (j < MAX_PORTS)%nat → x ∈ port_pages (port_ref s j) → x ≠ pg) as Hne.
  { intros j x Hj Hx ->. apply Hpg. by eapply queued_elem. }
  split_and!.
  - apply (inv_set_port s i); try done.
    + by apply port_push_wf.
    + intros x. rewrite Hq. intros [->|Hx]%elem_of_cons; [by rewrite lookup_total_insert_eq|].
      rewrite lookup_total_insert_ne by (intros ->; done). by apply (iv_msgs _ Hinv).
    + by rewrite Hq.
  - intros j. unfold queue. rewrite Href. case_decide as Hd.
    + subst j. rewrite Hpp, fmap_app. cbn [fmap list_fmap]. f_equal.
      * apply list_fmap_ext. intros _ x Hx%list_elem_of_lookup_2. cbn. apply lookup_total_insert_ne.
        intros <-. by apply (Hne i pg).
      * cbn. by rewrite lookup_total_insert_eq.
    + apply list_fmap_ext. intros _ x Hx%list_elem_of_lookup_2. cbn. apply lookup_total_insert_ne.
      intros <-. destruct (decide (j < MAX_PORTS)%nat); [by apply (Hne j pg)|].
      rewrite port_ref_out in Hx by done. by apply elem_of_nil in Hx.
  - intros id. apply idx_ext. intros j Hj. rewrite Href. case_decide; [by subst|done].
Qed.

(** A state that differs in the allocator and in message pages nobody queued. *)
Lemma inv_scratch s s' :
  ipc_inv s → ports s' = ports s → next_port_id s' = next_port_id s → replies s' = replies s →
  rbytes s' = rbytes s → (∀ pg, pg ∈ queued s → msgs s' !!! pg = msgs s !!! pg) →
  pa_own (pal s') (owned s) → ipc_inv s' ∧ same_mail s s'.
Proof.
  intros Hinv Hp Hn Hr Hb Hm Ho. pose proof Hinv as [H1 H2 H3 H4 H5 H6 H7 H8 H9].
  assert (queued s' = queued s) as Hq by (unfold queued; by rewrite Hp).
  split.
  - split; unfold is_used, port_ref in *; rewrite ?Hp, ?Hn, ?Hr, ?Hb, ?Hq; try done.
    + intros pg Hpg. rewrite Hm by done. auto.
    + unfold owned, reply_held in *. by rewrite Hq, Hr.
  - apply same_mail_ports; [done|]. intros i. unfold queue, port_ref. rewrite Hp. fold (port_ref s i).
    apply list_fmap_ext. intros _ x Hx%list_elem_of_lookup_2. apply Hm.
    destruct (decide (i < MAX_PORTS)%nat); [by eapply queued_elem|].
    rewrite port_ref_out in Hx by done. by apply elem_of_nil in Hx.
Qed.

Lemma free_page_spec s pg l :
  pa_own (pal s) (pg :: l) →
  ∃ a, ipc_free_page pg s = Done (set_pal a s) ∧ pa_own a l.
Proof.
  intros Ho. destruct (pa_free_ok _ _ _ Ho) as (a & Ha & Hl). exists a.
  unfold ipc_free_page. by rewrite Ha.
Qed.

Section user.
Context (user_range_valid : Z → nat → bool → A → bool * A).
(** Checking a user buffer may take pages for demand paging, and never takes
    one of ours. *)
Context (Huv : ∀ addr n w a l, pa_own a l → pa_own (user_range_valid addr n w a).2 l).

Definition message (buf : buffer) (src rid typ : Z) : MsgPage :=
  mkMsgPage src rid typ (length (b_data buf)) (b_data buf ++ drop (length (b_data buf)) (body zero_msg)).

Lemma message_wf buf src rid typ :
  (length (b_data buf) ≤ IPC_MSG_MAX)%nat → msg_wf (message buf src rid typ).
Proof.
  intros Hl. split; [done|]. cbn [body message]. rewrite length_app, length_drop.
  destruct zero_msg_wf as [_ ->]. lia.
Qed.

(** What posting comes to. *)
Definition post_result (id : Z) (buf : buffer) (src rid typ : Z) s (r : posted) s' : Prop :=
  match r with
  | Posted i =>
      port_idx_by_id_locked s id = Some i ∧ (length (queue s i) < PORT_SLOTS)%nat ∧
      (∀ j, queue s' j = if decide (i = j) then queue s i ++ [message buf src rid typ] else queue s j) ∧
      (∀ id', port_idx_by_id_locked s' id' = port_idx_by_id_locked s id') ∧
      replies s' = replies s ∧ rbytes s' = rbytes s ∧ wakes s' = wakes s
  | Full i => port_idx_by_id_locked s id = Some i ∧ length (queue s i) = PORT_SLOTS ∧ s' = s
  | Failed e =>
      same_mail s s' ∧ replies s' = replies s ∧ rbytes s' = rbytes s ∧ wakes s' = wakes s ∧
      (e = - ESRCH ∧ mailbox s id = None ∨
       e = - ENOMEM ∧ (pa_alloc (pal s)).1 = None ∨ e = - EFAULT)
  end.

Lemma post_user s (b : bool) addr len pg l :
  pa_own (pal s) (pg :: l) →
  ∃ ok a, (if b then let '(ok, a) := user_range_valid addr len false (pal s) in (ok, set_pal a s)
           else (true, s)) = (ok, set_pal a s) ∧ pa_own a (pg :: l).
Proof.
  intros Ho. destruct b.
  - pose proof (Huv addr len false _ _ Ho). destruct (user_range_valid addr len false (pal s)) as [ok a].
    by exists ok, a.
  - exists true, (pal s). by destruct s.
Qed.

Lemma queue_length s i : is_used s i → length (queue s i) = p_count (port_ref s i).
Proof. intros [_ Hu]. unfold queue. rewrite length_fmap. by apply port_pages_length. Qed.

Lemma post_locked_spec s id buf src rid typ kb :
  ipc_inv s → (length (b_data buf) ≤ IPC_MSG_MAX)%nat →
  ∃ r s', post_locked user_range_valid id buf src rid typ kb s = Done (r, s') ∧
    ipc_inv s' ∧ post_result id buf src rid typ s r s'.
Proof.
  intros Hinv Hlen. unfold post_locked.
  destruct (port_idx_by_id_locked s id) as [i|] eqn:Hidx.
  2: { exists (Failed (- ESRCH)), s. split_and!; try done. cbn. split_and!; try done. left.
       split; [done|]. unfold mailbox. by rewrite Hidx. }
  destruct (port_idx_spec s id i Hidx) as [Hused Hid].
  destruct (Nat.ltb_spec (p_count (port_ref s i)) PORT_SLOTS) as [Hc|Hc].
  2: { exists (Full i), s. split_and!; try done. cbn. rewrite queue_length by done.
       split_and!; try done. pose proof (pw_count _ (port_ref_wf s i Hinv (proj1 Hused))). lia. }
  unfold alloc_msg_page. pose proof (iv_own _ Hinv) as Hown.
  destruct (pa_alloc (pal s)) as [[pg|] a1] eqn:Hal.
  2: { exists (Failed (- ENOMEM)), (set_pal a1 s). pose proof (pa_alloc_fail _ _ _ Hown Hal).
       destruct (inv_scratch s (set_pal a1 s)) as [Hi1 Hm1]; try done.
       split_and!; try done. cbn. split_and!; try done. right. left. by rewrite Hal. }
  pose proof (pa_alloc_ok _ _ _ _ Hown Hal) as Ho1.
  destruct (pa_alloc_fresh _ _ _ _ Hown Hal) as [Hni Hnz].
  assert (pg ∉ queued s) as Hnq by (intros Hx; apply Hni; unfold owned; apply elem_of_app; by left).
  destruct (post_user (set_msgs (<[pg:=zero_msg]> (msgs s)) (set_pal a1 s))
    ((0 <? length (b_data buf))%nat && negb kb) (b_addr buf) (length (b_data buf)) pg (owned s) Ho1)
    as (ok & a2 & -> & Ho2).
  destruct ok; cbn [negb].
  - eexists (Posted i), _. split; [reflexivity|].
    cbn [set_pal set_msgs msgs]. rewrite insert_insert_eq.
    destruct (push_spec s i pg (message buf src rid typ) a2) as (Hi' & Hq' & Hx'); try done.
    { by apply message_wf. }
    split; [exact Hi'|]. cbn [post_result]. rewrite queue_length by done. by split_and!.
  - destruct (free_page_spec (set_pal a2 (set_msgs (<[pg:=zero_msg]> (msgs s)) (set_pal a1 s))) pg (owned s) Ho2)
      as (a3 & -> & Ho3). cbn [cbind].
    eexists (Failed (- EFAULT)), _. split; [reflexivity|].
    destruct (inv_scratch s (set_pal a3 (set_pal a2 (set_msgs (<[pg:=zero_msg]> (msgs s)) (set_pal a1 s)))))
      as [Hi' Hm']; try done.
    { intros x Hx. cbn. apply lookup_total_insert_ne. by intros <-. }
    split; [done|]. cbn. split_and!; try done. by right; right.
Qed.

(** ** Delivering a message taken from a mailbox *)

Definition delivered (m : MsgPage) (buf : option Z) (max_len : nat) : list Z :=
  match buf with
  | Some _ => take (Nat.min (msg_len m) max_len) (body m)
  | None => []
  end.

(** The message goes to the buffer, or the buffer is bad and it is dropped. *)
Definition deliver_result (m : MsgPage) (buf : option Z) (max_len : nat) (kb : bool)
    (len rid : Z) (out : list Z) : Prop :=
  (len = Z.of_nat (msg_len m) ∧ rid = reply_id m ∧ out = delivered m buf max_len) ∨
  (kb = false ∧ buf ≠ None ∧ len = - EFAULT ∧ rid = 0 ∧ out = []).

Lemma deliver_spec s pg buf max_len kb :
  pa_own (pal s) (pg :: owned s) → (∀ a, pa_own a (owned s) → ipc_inv (set_pal a s)) →
  ∃ len rid out a, deliver user_range_valid pg buf max_len kb s = Done (len, rid, out, set_pal a s) ∧
    ipc_inv (set_pal a s) ∧ deliver_result (msgs s !!! pg) buf max_len kb len rid out.
Proof.
  intros Ho Hfix. unfold deliver. set (m := msgs s !!! pg).
  assert (∃ ok out a, (match buf with
    | Some addr =>
        if (0 <? Nat.min (msg_len m) max_len)%nat then
          if negb kb then
            let '(ok, a) := user_range_valid addr (Nat.min (msg_len m) max_len) true (pal s) in
            (ok, take (Nat.min (msg_len m) max_len) (body m), set_pal a s)
          else (true, take (Nat.min (msg_len m) max_len) (body m), s)
        else (true, [], s)
    | None => (true, [], s)
    end) = (ok, out, set_pal a s) ∧ pa_own a (pg :: owned s) ∧ out = delivered m buf max_len ∧
    (ok = false → kb = false ∧ buf ≠ None)) as (ok & out & a & -> & Ho' & Hout & Hok).
  { assert (s = set_pal (pal s) s) as Hs by (by destruct s).
    destruct buf as [addr|]; [|exists true, [], (pal s); by rewrite <- Hs].
    destruct (Nat.ltb_spec 0 (Nat.min (msg_len m) max_len)) as [Hlt|Hge].
    - destruct kb; cbn [negb]; [eexists true, _, (pal s); by rewrite <- Hs|].
      pose proof (Huv addr (Nat.min (msg_len m) max_len) true _ _ Ho) as Ho'.
      destruct (user_range_valid addr _ true (pal s)) as [ok a]. by eexists ok, _, a.
    - exists true, [], (pal s). rewrite <- Hs. split_and!; try done. cbn.
      by replace (Nat.min (msg_len m) max_len) with 0%nat by lia. }
  destruct (free_page_spec (set_pal a s) pg (owned s) Ho') as (a2 & -> & Ho2). cbn [cbind].
  unfold deliver_result. destruct ok.
  - eexists _, _, _, a2. split; [reflexivity|]. split; [by apply Hfix|]. left. by subst out.
  - eexists _, _, _, a2. split; [reflexivity|]. split; [by apply Hfix|]. right. by destruct Hok.
Qed.

(** Taking and delivering: the head of one queue. *)
Definition recv_result s (id : Z) (buf : option Z) (max_len : nat) (kb : bool)
    (len rid : Z) (out : list Z) s' : Prop :=
  ∃ i m q, port_idx_by_id_locked s id = Some i ∧ mailbox s id = Some (m :: q) ∧
    (∀ id', mailbox s' id' = if decide (id' = id) then Some q else mailbox s id') ∧
    replies s' = replies s ∧ rbytes s' = rbytes s ∧ next_port_id s' = next_port_id s ∧
    wakes s' = wakes s ++ [(WSend i, 1)] ∧ deliver_result m buf max_len kb len rid out.

Lemma taken_queues s s' i pg :
  ipc_inv s → is_used s i → ports s' = <[i := port_pop (port_ref s i)]> (ports s) → msgs s' = msgs s →
  port_pages (port_ref s i) = pg :: port_pages (port_pop (port_ref s i)) →
  (∀ id, port_idx_by_id_locked s' id = port_idx_by_id_locked s id) ∧
  queue s i = (msgs s !!! pg) :: queue s' i ∧ (∀ j, j ≠ i → queue s' j = queue s j).
Proof.
  intros Hinv [Hi Hu] Hp Hm Hpg.
  assert (∀ j, port_ref s' j = if decide (i = j) then port_pop (port_ref s i) else port_ref s j) as Href.
  { intros j. rewrite <- port_ref_set by done. unfold port_ref. by rewrite Hp. }
  split_and!.
  - intros id. apply idx_ext. intros j Hj. rewrite Href. case_decide; [by subst|done].
  - unfold queue. rewrite Href, decide_True, Hpg, Hm by done. done.
  - intros j Hj. unfold queue. by rewrite Href, decide_False, Hm by done.
Qed.

Lemma take_deliver s id i pg s1 buf max_len kb :
  ipc_inv s → take_locked id s = (Taken i pg, s1) →
  ∃ len rid out s', deliver user_range_valid pg buf max_len kb (futex_wake (WSend i) 1 s1) = Done (len, rid, out, s') ∧
    ipc_inv s' ∧ ports s' = ports s1 ∧ recv_result s id buf max_len kb len rid out s'.
Proof.
  intros Hinv Ht. pose proof (take_locked_spec s id _ _ Hinv Ht) as (Hidx & Hp & Hs1 & Hpg & Hown & Hfix).
  destruct (port_idx_spec s id i Hidx) as [Hused Hid].
  destruct (deliver_spec (futex_wake (WSend i) 1 s1) pg buf max_len kb) as (len & rid & out & a & Hrun & Hinv' & Hres).
  { change (pa_own (pal s1) (pg :: owned s1)). rewrite <- Hown.
    assert (pal s1 = pal s) as -> by (by rewrite Hs1). apply Hinv. }
  { intros a Ha. apply (inv_wake (set_pal a s1) (WSend i) 1), Hfix, Ha. }
  assert (msgs s1 = msgs s) as Hm by (by rewrite Hs1).
  destruct (taken_queues s s1 i pg Hinv Hused Hp Hm Hpg) as (Hix & Hq & Hoth).
  exists len, rid, out, (set_pal a (futex_wake (WSend i) 1 s1)). split_and!; [done|done|done|].
  exists i, (msgs s !!! pg), (queue s1 i).
  change (deliver_result (msgs s1 !!! pg) buf max_len kb len rid out) in Hres. rewrite Hm in Hres.
  split_and!; try done; try (by rewrite Hs1).
  - unfold mailbox. rewrite Hidx. simpl. by rewrite Hq.
  - intros id'. change (mailbox s1 id' = if decide (id' = id) then Some (queue s1 i) else mailbox s id').
    unfold mailbox. rewrite Hix. case_decide as Hd.
    + subst id'. by rewrite Hidx.
    + destruct (port_idx_by_id_locked s id') as [j|] eqn:Hj; [|done]. simpl. rewrite Hoth; [done|].
      intros ->. apply Hd. destruct (port_idx_spec s id' i Hj) as [_ <-]. done.
Qed.
End user.
End ops.

(** * Calls, replies and the port table

    Reply slots, synchronous calls, creating, finding and closing ports, and
    the blocking loops of [src/ipc.rs]. *)


Section calls.
Context {A : Type} `{!PageAllocator A}.
Implicit Types s : ipc A.

(** ** Reply slots *)

Lemma reply_ref_set s i r j :
  ipc_inv s → (i < MAX_REPLIES)%nat →
  reply_ref (set_reply i r s) j = if decide (i = j) then r else reply_ref s j.
Proof.
  intros Hinv Hi. unfold reply_ref, set_reply. cbn [replies set_replies]. case_decide as Hd.
  - subst j. apply list_lookup_total_insert_eq. by rewrite (iv_replies _ Hinv).
  - by apply list_lookup_total_insert_ne.
Qed.

Lemma inv_set_reply s i r m a :
  ipc_inv s → (i < MAX_REPLIES)%nat →
  (∀ j r', (if decide (i = j) then r' = r else replies s !! j = Some r') → r_used r' = true →
     length (m !!! r_page r') = 4096%nat ∧ (r_len r' ≤ IPC_MSG_MAX)%nat ∧ j ≠ 0%nat) →
  pa_own a (queued s ++ reply_held (set_reply i r s)) →
  ipc_inv (set_reply i r (set_rbytes m (set_pal a s))).
Proof.
  intros Hinv Hi Hr Hown. pose proof Hinv as [H1 H2 H3 H4 H5 H6 H7 H8 H9]. split; try done.
  - cbn. by rewrite length_insert.
  - intros j r' Hj Hu. apply (Hr j r'); [|done]. cbn in Hj.
    apply list_lookup_insert_Some in Hj as [(-> & <- & _)|[Hne Hj]]; [by rewrite decide_True|].
    by rewrite decide_False.
Qed.

Lemma reply_page_held s j r : replies s !! j = Some r → r_used r = true → r_page r ∈ reply_held s.
Proof.
  intros Hj Hu. apply list_elem_of_bind. exists r. split; [|by eapply list_elem_of_lookup_2].
  unfold reply_pages. rewrite Hu. apply list_elem_of_here.
Qed.

Lemma reply_alloc_spec s :
  ipc_inv s → ∃ r s', reply_alloc_locked s = Done (r, s') ∧ ipc_inv s' ∧ same_mail s s' ∧
    ports s' = ports s ∧ wakes s' = wakes s ∧
    match r with
    | Some i => (1 ≤ i < MAX_REPLIES)%nat ∧ r_used (reply_ref s i) = false ∧
        ∃ pg, reply_ref s' i = mkReplySlot true pg 0 false ∧ rbytes s' !!! pg = replicate 4096 0 ∧
          (∀ j, j ≠ i → reply_ref s' j = reply_ref s j) ∧
          (∀ j, (j < MAX_REPLIES)%nat → r_used (reply_ref s j) = true →
             rbytes s' !!! r_page (reply_ref s j) = rbytes s !!! r_page (reply_ref s j))
    | None => replies s' = replies s
    end.
Proof.
  intros Hinv. unfold reply_alloc_locked, alloc_reply_page. pose proof (iv_own _ Hinv) as Hown.
  destruct (pa_alloc (pal s)) as [[pg|] a] eqn:Hal.
  2: { exists None, (set_pal a s). destruct (inv_scratch s (set_pal a s)) as [? ?]; try done.
       cbn. by eapply pa_alloc_fail. }
  pose proof (pa_alloc_ok _ _ _ _ Hown Hal) as Ho1. destruct (pa_alloc_fresh _ _ _ _ Hown Hal) as [Hni Hnz].
  assert (∀ j r, replies s !! j = Some r → r_used r = true → r_page r ≠ pg) as Hne.
  { intros j r Hj Hu <-. apply Hni. unfold owned. apply elem_of_app. right. by eapply reply_page_held. }
  cbn [cbind]. match goal with |- context [first_from ?f 1 ?n] => destruct (first_from f 1 n) as [i|] eqn:Hf end.
  - apply first_from_Some in Hf as (Hi & Hu & _). apply negb_true_iff in Hu.
    change (r_used (reply_ref s i) = false) in Hu. pose proof max_replies_pos.
    set (s' := set_reply i (mkReplySlot true pg 0 false) _).
    assert (∀ j, reply_ref s' j = if decide (i = j) then mkReplySlot true pg 0 false else reply_ref s j) as Href.
    { intros j. rewrite <- reply_ref_set by (done || lia). done. }
    exists (Some i), s'. split; [done|]. split; [|split_and!; try done; [lia|lia|]].
    + apply inv_set_reply; [done|lia| |].
      * intros j r'. case_decide as Hd.
        -- intros -> _. cbn [r_page r_len]. rewrite lookup_total_insert_eq, length_replicate. split_and!; [done|lia|lia].
        -- intros Hj Hur. rewrite lookup_total_insert_ne by (symmetry; eauto). by apply (iv_rep _ Hinv).
      * destruct (reply_held_set s i (mkReplySlot true pg 0 false) Hinv) as (R & HR1 & HR2); [lia|].
        unfold reply_pages in HR1, HR2. rewrite Hu in HR1. cbn in HR2.
        rewrite HR2. change ([pg] ++ R) with (pg :: R). rewrite <- Permutation_middle. rewrite <- HR1. exact Ho1.
    + exists pg. split_and!.
      * by rewrite Href, decide_True.
      * apply lookup_total_insert_eq.
      * intros j Hj. by rewrite Href, decide_False by done.
      * intros j Hj Hur. apply lookup_total_insert_ne. symmetry. eapply Hne; [|done]. by apply reply_lookup.
  - destruct (free_page_spec (set_rbytes (<[pg:=replicate 4096 0]> (rbytes s)) (set_pal a s)) pg (owned s) Ho1)
      as (a2 & -> & Ho2). cbn [cbind]. eexists None, _. split; [done|].
    pose proof Hinv as [H1 H2 H3 H4 H5 H6 H7 H8 H9]. split_and!; try done. split; try done.
    intros j r Hj Hur. cbn [rbytes set_pal set_rbytes].
    rewrite lookup_total_insert_ne by (symmetry; eauto). by apply (H8 j).
Qed.

Lemma reply_free_spec s i :
  ipc_inv s → ∃ s', reply_free_locked i s = Done s' ∧ ipc_inv s' ∧ same_mail s s' ∧
    ports s' = ports s ∧ wakes s' = wakes s ∧
    (∀ j, j ≠ i → reply_ref s' j = reply_ref s j) ∧ r_used (reply_ref s' i) = false.
Proof.
  intros Hinv. unfold reply_free_locked.
  destruct (Nat.ltb_spec i MAX_REPLIES) as [Hi|Hi]; cbn [andb].
  2: { exists s. split_and!; try done. unfold reply_ref.
       rewrite list_lookup_total_alt, lookup_ge_None_2; [done|]. rewrite (iv_replies _ Hinv). lia. }
  destruct (r_used (reply_ref s i)) eqn:Hu; [|by exists s].
  pose proof (reply_lookup s i Hinv Hi) as Hlk. pose proof (iv_own _ Hinv) as Hown.
  assert (r_page (reply_ref s i) ≠ 0) as Hnz.
  { eapply pa_own_nonzero; [exact Hown|]. unfold owned. apply elem_of_app. right. by eapply reply_page_held. }
  apply Z.eqb_neq in Hnz as ->. cbn [negb].
  set (r' := mkReplySlot false 0 (r_len (reply_ref s i)) (r_done (reply_ref s i))).
  destruct (reply_held_set s i r' Hinv Hi) as (R & HR1 & HR2).
  unfold reply_pages in HR1, HR2. rewrite Hu in HR1. cbn in HR2.
  assert (pa_own (pal s) (r_page (reply_ref s i) :: queued s ++ reply_held (set_reply i r' s))) as Ho1.
  { unfold owned in Hown. rewrite HR1 in Hown. rewrite HR2. by rewrite Permutation_middle. }
  destruct (free_page_spec s _ _ Ho1) as (a & -> & Ho2). cbn [cbind].
  assert (∀ j, reply_ref (set_reply i r' (set_pal a s)) j = if decide (i = j) then r' else reply_ref s j) as Href.
  { intros j. by rewrite <- reply_ref_set. }
  eexists. split; [done|]. split_and!; try done.
  - apply (inv_set_reply s i r' (rbytes s) a); try done. intros j rj. case_decide; [by intros ->|].
    intros Hj Huj. by apply (iv_rep _ Hinv).
  - intros j Hj. by rewrite Href, decide_False by done.
  - by rewrite Href, decide_True.
Qed.

Lemma ipc_reply_spec s rid buf len :
  ipc_inv s → (∀ d, buf = Some d → length d = len) →
  let '(r, s') := ipc_reply rid buf len s in
  ipc_inv s' ∧ same_mail s s' ∧ ports s' = ports s ∧
  (∀ j, j ≠ rid → reply_ref s' j = reply_ref s j) ∧
  ((r = - ESRCH ∧ s' = s ∧ ((MAX_REPLIES ≤ rid)%nat ∨ r_used (reply_ref s rid) = false)) ∨
   (r = 0 ∧ s' = s ∧ r_done (reply_ref s rid) = true) ∨
   (let n := Nat.min len IPC_MSG_MAX in
    r = Z.of_nat n ∧ (rid < MAX_REPLIES)%nat ∧ r_used (reply_ref s rid) = true ∧ r_done (reply_ref s rid) = false ∧
    reply_ref s' rid = mkReplySlot true (r_page (reply_ref s rid)) n true ∧
    (∀ d, buf = Some d → take n (rbytes s' !!! r_page (reply_ref s rid)) = take n d) ∧
    wakes s' = wakes s ++ [(WReply rid, 1)])).
Proof.
  intros Hinv Hlen. unfold ipc_reply.
  destruct (Nat.ltb_spec rid MAX_REPLIES) as [Hi|Hi]; cbn [negb orb]; [|split_and!; try done; left; auto].
  destruct (r_used (reply_ref s rid)) eqn:Hu; cbn [negb]; [|split_and!; try done; left; auto].
  destruct (r_done (reply_ref s rid)) eqn:Hd; [split_and!; try done; right; left; auto|].
  set (n := Nat.min len IPC_MSG_MAX). pose proof (reply_lookup s rid Hinv Hi) as Hlk.
  destruct (iv_rep _ Hinv rid _ Hlk Hu) as (Hpl & _ & Hnz).
  set (pg := r_page (reply_ref s rid)) in *.
  set (s1 := match buf with Some data => if (0 <? n)%nat then _ else s | None => s end).
  assert (∃ m, s1 = set_rbytes m s ∧ (∀ p, length (rbytes s !!! p) = 4096%nat → length (m !!! p) = 4096%nat) ∧
    (∀ d, buf = Some d → take n (m !!! pg) = take n d)) as (m & Hs1 & Hm & Htk).
  { assert (s = set_rbytes (rbytes s) s) as Hs by (by destruct s).
    destruct buf as [d|]; [|by exists (rbytes s)]. unfold s1. specialize (Hlen d eq_refl).
    destruct (Nat.ltb_spec 0 n) as [Hn|Hn].
    - eexists. split; [reflexivity|]. split.
      + intros p Hp. destruct (decide (p = pg)) as [->|]; [|by rewrite lookup_total_insert_ne].
        rewrite lookup_total_insert_eq, length_app, length_take, length_drop, Hpl.
        pose proof msg_max_page. unfold n. lia.
      + intros d' [= <-]. rewrite lookup_total_insert_eq. rewrite take_app_le; [by rewrite take_take, Nat.min_id|].
        rewrite length_take. unfold n. lia.
    - exists (rbytes s). split_and!; [done|done|]. intros d' [= <-]. by replace n with 0%nat by lia. }
  rewrite Hs1.
  assert (∀ j, reply_ref (set_reply rid (mkReplySlot true pg n true) (set_rbytes m s)) j =
    if decide (rid = j) then mkReplySlot true pg n true else reply_ref s j) as Href.
  { intros j. by rewrite <- reply_ref_set. }
  split_and!; try done.
  - apply inv_wake.
    destruct (reply_held_set s rid (mkReplySlot true pg n true) Hinv Hi) as (R & HR1 & HR2).
    unfold reply_pages in HR1, HR2. rewrite Hu in HR1. cbn in HR2.
    apply (inv_set_reply s rid _ m (pal s)); try done.
    + intros j r'. case_decide as Hdj.
      * intros -> _. subst j. cbn. split_and!; [by apply Hm|unfold n; lia|done].
      * intros Hj Hj'. destruct (iv_rep _ Hinv j r' Hj Hj') as (? & ? & ?). split_and!; auto.
    + rewrite HR2. pose proof (iv_own _ Hinv) as Hown. unfold owned in Hown. by rewrite HR1 in Hown.
  - intros j Hj. etrans; [exact (Href j)|]. by rewrite decide_False.
  - right. right. split_and!; try done.
    etrans; [exact (Href rid)|]. by rewrite decide_True.
Qed.

(** ** Closing a port *)

Lemma close_slots_spec n j head sl s L :
  (n ≤ PORT_SLOTS)%nat →
  pa_own (pal s) (ring_list sl (head + j) n PORT_SLOTS ++ L) →
  ∃ sl' a, close_slots n j head sl s = Done (sl', set_pal a s) ∧ pa_own a L.
Proof.
  pose proof port_slots_pos as Hpos.
  revert j sl s. induction n as [|n IH]; intros j sl s Hn Hown; cbn [close_slots].
  { exists sl, (pal s). split; [by destruct s|done]. }
  rewrite ring_pop in Hown by lia. cbn [app] in Hown.
  set (idx := ((head + j) `mod` PORT_SLOTS)%nat) in *.
  assert (sl !!! idx ≠ 0) as Hnz by (eapply pa_own_nonzero; [exact Hown|apply list_elem_of_here]).
  apply Z.eqb_neq in Hnz as ->. cbn [negb].
  destruct (free_page_spec s _ _ Hown) as (a & -> & Ho). cbn [cbind].
  rewrite ring_list_mod in Ho. replace (S (head + j)) with (head + S j)%nat in Ho by lia.
  destruct (IH (S j) (<[idx := 0]> sl) (set_pal a s)) as (sl' & a' & Hrun & Ho'); [lia| |by exists sl', a'].
  cbn. rewrite ring_insert_outside; [done|]. intros i Hi Heq.
  apply (ring_popped_outside (head + j) n PORT_SLOTS i); [lia|done|].
  rewrite Nat.Div0.add_mod_idemp_l. by replace (S (head + j)) with (head + S j)%nat by lia.
Qed.

Lemma port_empty_wf : port_wf port_empty.
Proof.
  pose proof port_slots_pos. split; cbn [port_empty p_slots p_name p_head p_count p_used]; try done;
    rewrite ?length_replicate; try done; lia.
Qed.

(** Putting a fresh or an empty port into slot [i]. *)
Lemma inv_new_port s i p nxt a :
  ipc_inv s → (i < MAX_PORTS)%nat → port_wf p → port_pages p = [] → next_port_id s ≤ nxt →
  (p_used p = true → 0 < p_id p < nxt ∧
     ∀ j, is_used s j → j ≠ i → p_id (port_ref s j) ≠ p_id p) →
  pa_own a (queued (set_port i p s) ++ reply_held s) →
  ipc_inv (mkIpc (<[i := p]> (ports s)) nxt (replies s) (msgs s) (rbytes s) a (wakes s)).
Proof.
  intros Hinv Hi Hw Hpg Hn Hid Hown. pose proof Hinv as [H1 H2 H3 H4 H5 H6 H7 H8 H9].
  set (s' := mkIpc _ _ _ _ _ _ _).
  assert (∀ j, port_ref s' j = if decide (i = j) then p else port_ref s j) as Href.
  { intros j. by rewrite <- port_ref_set. }
  assert (∀ j, is_used s' j → i = j ∧ p_used p = true ∨ i ≠ j ∧ is_used s j) as Hus.
  { intros j [Hj Hju]. rewrite Href in Hju. case_decide; [by left|right]. by split. }
  split; try done.
  - cbn. by rewrite length_insert.
  - intros j q Hj. cbn in Hj. apply list_lookup_insert_Some in Hj as [(_ & <- & _)|[_ Hj]]; eauto.
  - intros j k [[-> Hju]|[Hj1 Hj]]%Hus [[-> Hku]|[Hk1 Hk]]%Hus; rewrite !Href; try done.
    + rewrite decide_True, decide_False by done. intros Heq. by destruct (proj2 (Hid Hju) k Hk).
    + rewrite decide_False, decide_True by done. intros Heq. by destruct (proj2 (Hid Hku) j Hj).
    + rewrite !decide_False by done. by apply H4.
  - intros j [[-> Hju]|[Hj1 Hj]]%Hus; rewrite Href.
    + rewrite decide_True by done. by apply Hid.
    + rewrite decide_False by done. specialize (H5 j Hj). cbn. lia.
  - cbn. lia.
  - intros pg Hq. cbn. apply H7. destruct (queued_set s i p Hinv Hi) as (R & HR1 & HR2).
    rewrite Hpg in HR2. rewrite HR1. apply elem_of_app. right. rewrite <- HR2. exact Hq.
Qed.

Lemma ipc_close_spec s id :
  ipc_inv s → ∃ r s', ipc_close id s = Done (r, s') ∧ ipc_inv s' ∧
    match mailbox s id with
    | None => r = - ESRCH ∧ s' = s
    | Some q => r = 0 ∧ (∀ id', mailbox s' id' = if decide (id' = id) then None else mailbox s id') ∧
        (length (owned s') + length q = length (owned s))%nat ∧
        ∃ i, port_idx_by_id_locked s id = Some i ∧
          wakes s' = wakes s ++ [(WRecv i, 2 ^ 32 - 1); (WSend i, 2 ^ 32 - 1)]
    end.
Proof.
  intros Hinv. unfold ipc_close. fold (port_idx_by_id_locked s id). unfold mailbox.
  destruct (port_idx_by_id_locked s id) as [i|] eqn:Hidx; [|by exists (- ESRCH), s].
  change (queue s <$> Some i) with (Some (queue s i)). cbv iota.
  destruct (port_idx_spec s id i Hidx) as [[Hi Hu] Hid].
  pose proof (port_ref_wf s i Hinv Hi) as Hw.
  destruct (queued_set s i port_empty Hinv Hi) as (R & HR1 & HR2). cbn [port_pages p_used port_empty app] in HR2.
  pose proof (iv_own _ Hinv) as Hown. unfold owned in Hown. rewrite HR1, <- app_assoc in Hown.
  assert (port_pages (port_ref s i) = ring_list (p_slots (port_ref s i)) (p_head (port_ref s i) + 0) (p_count (port_ref s i)) PORT_SLOTS) as Hpp.
  { unfold port_pages. by rewrite Hu, Nat.add_0_r. }
  rewrite Hpp in Hown.
  destruct (close_slots_spec _ _ _ _ s _ (pw_count _ Hw) Hown) as (sl' & a & -> & Ho). cbn [cbind].
  set (s' := set_port i port_empty _). exists 0, s'.
  assert (∀ j, port_ref s' j = if decide (i = j) then port_empty else port_ref s j) as Href.
  { intros j. by rewrite <- port_ref_set. }
  split_and!; [done| |done| | |].
  - assert (ipc_inv (mkIpc (<[i := port_empty]> (ports s)) (next_port_id s) (replies s) (msgs s) (rbytes s) a (wakes s))) as Hi'.
    { apply inv_new_port; try done; [apply port_empty_wf|]. by rewrite HR2. }
    apply (inv_wake _ (WRecv i) (2 ^ 32 - 1)) in Hi'. by apply (inv_wake _ (WSend i) (2 ^ 32 - 1)) in Hi'.
  - intros id'.
    assert (∀ j, j ≠ i → queue s' j = queue s j) as Hq by (intros j Hj; unfold queue; by rewrite Href, decide_False).
    destruct (port_idx_by_id_locked s' id') as [j|] eqn:Hj.
    + destruct (port_idx_spec s' id' j Hj) as [[Hj1 Hj2] Hj3]. rewrite Href in Hj2, Hj3.
      case_decide as Hd; [done|]. rewrite decide_False.
      * assert (port_idx_by_id_locked s id' = Some j) as ->; [|by simpl; rewrite Hq].
        unfold port_idx_by_id_locked in *. apply first_from_Some in Hj as (? & _ & Hmin).
        apply first_from_Some. split_and!; [lia|lia|by rewrite Hj2, Hj3, Z.eqb_refl|].
        intros k Hk. specialize (Hmin k Hk). rewrite Href in Hmin. case_decide as Hdk; [|done].
        subst k. apply andb_false_iff. right. apply Z.eqb_neq. intros Heq.
        apply Hd. apply (iv_ids _ Hinv); [done|by split|congruence].
      * intros ->. apply Hd. apply (iv_ids _ Hinv); [done|by split|congruence].
    + case_decide as Hd; [done|]. simpl.
      destruct (port_idx_by_id_locked s id') as [k|] eqn:Hk; [|done]. exfalso.
      destruct (port_idx_spec s id' k Hk) as [[Hk1 Hk2] Hk3].
      unfold port_idx_by_id_locked in Hj. rewrite first_from_None in Hj.
      specialize (Hj k ltac:(lia)). rewrite Href in Hj. case_decide; [subst; done|].
      rewrite Hk2, Hk3, Z.eqb_refl in Hj. done.
  - unfold owned. change (queued s') with (queued (set_port i port_empty s)). change (reply_held s') with (reply_held s).
    rewrite !length_app, (Permutation_length HR1), (Permutation_length HR2), length_app. unfold queue. rewrite length_fmap. lia.
  - exists i. split; [done|]. cbn. by rewrite <- app_assoc.
Qed.

(** ** Creating and finding ports *)

(** A port written under a name answers to that name. *)
Lemma write_name_matches p name :
  (length name ≤ NAME_LEN)%nat → p_name p = write_name name (replicate NAME_LEN 0) → name_matches p name = true.
Proof.
  intros Hl Hn. unfold name_matches.
  replace (first_from _ 0 (length name)) with (@None nat).
  - apply orb_true_iff. destruct (decide (length name = NAME_LEN)) as [->|Hne]; [by left; rewrite Nat.eqb_refl|].
    right. apply Z.eqb_eq. rewrite Hn. unfold write_name.
    rewrite list_lookup_total_alt, lookup_app_r, Nat.sub_diag, lookup_drop, Nat.add_0_r by lia.
    by rewrite lookup_replicate_2 by lia.
  - symmetry. apply first_from_None. intros k Hk. apply negb_false_iff, Z.eqb_eq. rewrite Hn. unfold write_name.
    rewrite !list_lookup_total_alt. by rewrite lookup_app_l by lia.
Qed.

(** And to no other name, unless names contain NUL bytes. *)
Lemma write_name_only p name name' :
  (length name ≤ NAME_LEN)%nat → (length name' ≤ NAME_LEN)%nat →
  p_name p = write_name name (replicate NAME_LEN 0) →
  (∀ c, c ∈ name → c ≠ 0) → (∀ c, c ∈ name' → c ≠ 0) → name_matches p name' = true → name' = name.
Proof.
  intros Hl Hl' Hn Hz Hz'. unfold name_matches.
  destruct (first_from _ 0 (length name')) eqn:Hf; [done|]. rewrite first_from_None in Hf. intros Hend.
  assert (∀ j, (j < length name')%nat → p_name p !!! j = name' !!! j) as Heq.
  { intros j Hj. specialize (Hf j ltac:(lia)). by apply negb_false_iff, Z.eqb_eq in Hf. }
  assert (∀ j, (j < length name)%nat → p_name p !!! j = name !!! j) as Heq2.
  { intros j Hj. rewrite Hn. unfold write_name. rewrite !list_lookup_total_alt. by rewrite lookup_app_l. }
  assert (∀ j, (length name ≤ j < NAME_LEN)%nat → p_name p !!! j = 0) as Hpad.
  { intros j Hj. rewrite Hn. unfold write_name.
    rewrite list_lookup_total_alt, lookup_app_r, lookup_drop by lia. by rewrite lookup_replicate_2 by lia. }
  assert (∀ (l : list Z) j, (j < length l)%nat → l !!! j ∈ l) as Hin.
  { intros l j Hj. eapply list_elem_of_lookup_2, list_lookup_lookup_total_lt, Hj. }
  assert (length name' ≤ length name)%nat.
  { destruct (decide (length name' ≤ length name)%nat) as [|Hgt]; [done|]. exfalso.
    apply (Hz' (name' !!! length name)); [apply Hin; lia|]. rewrite <- Heq by lia. apply Hpad. lia. }
  assert (length name ≤ length name')%nat.
  { destruct (decide (length name ≤ length name')%nat) as [|Hgt]; [done|]. exfalso.
    apply orb_true_iff in Hend as [He|He]; [apply Nat.eqb_eq in He; lia|]. apply Z.eqb_eq in He.
    apply (Hz (name !!! length name')); [apply Hin; lia|]. by rewrite <- Heq2 by lia. }
  apply list_eq_same_length with (length name); [lia|lia|].
  intros j x y Hj Hx Hy. apply list_lookup_total_correct in Hx, Hy. rewrite <- Hx, <- Hy.
  rewrite <- Heq, <- Heq2 by lia. done.
Qed.

Definition name_ok (name : list Z) : Prop := (0 < length name ≤ NAME_LEN)%nat.

Lemma name_ok_bools name :
  name_ok name → (length name =? 0)%nat || (NAME_LEN <? length name)%nat = false ∧
    (NAME_LEN <? length name)%nat = false.
Proof.
  unfold name_ok. intros Hn. assert ((NAME_LEN <? length name)%nat = false) as -> by (apply Nat.ltb_ge; lia).
  split; [|done]. apply orb_false_iff. split; [apply Nat.eqb_neq; lia|done].
Qed.

Lemma ipc_create_spec s name r s' :
  ipc_inv s → next_port_id s + 1 < 2 ^ 63 → name_ok name → ipc_create (Some name) s = (r, s') →
  ipc_inv s' ∧
  ((∃ i, port_idx_by_name_locked s name = Some i) ∧ r = - EEXIST ∧ s' = s ∨
   (∀ i, (i < MAX_PORTS)%nat → p_used (port_ref s i) = true) ∧ r = - ENOMEM ∧ s' = s ∨
   ∃ i, (i < MAX_PORTS)%nat ∧ p_used (port_ref s i) = false ∧ port_idx_by_name_locked s name = None ∧
     r = next_port_id s ∧ next_port_id s' = next_port_id s + 1 ∧ msgs s' = msgs s ∧ pal s' = pal s ∧
     (∀ j, j ≠ i → port_ref s' j = port_ref s j) ∧ p_used (port_ref s' i) = true ∧
     p_id (port_ref s' i) = r ∧ p_count (port_ref s' i) = 0%nat ∧
     p_name (port_ref s' i) = write_name name (replicate NAME_LEN 0)).
Proof.
  intros Hinv Hb Hn. destruct (name_ok_bools name Hn) as [Hn1 _]. unfold ipc_create. rewrite Hn1.
  destruct (port_idx_by_name_locked s name) as [k|] eqn:Hk.
  { intros [= <- <-]. split; [done|]. left. by split; [exists k|]. }
  match goal with |- context [first_from ?f 0 ?n] => destruct (first_from f 0 n) as [i|] eqn:Hf end.
  2: { intros [= <- <-]. split; [done|]. right. left. rewrite first_from_None in Hf.
       split; [|done]. intros i Hi. by apply negb_false_iff, Hf; lia. }
  apply first_from_Some in Hf as (Hi & Hu & _). apply negb_true_iff in Hu.
  pose proof (port_ref_wf s i Hinv ltac:(lia)) as Hw. pose proof (iv_next_pos _ Hinv) as Hpos.
  rewrite (pw_clear _ Hw Hu). rewrite w64_small by lia.
  set (p := mkPort true _ _ _ _ _). intros [= <- <-]. set (s' := mkIpc _ _ _ _ _ _ _).
  assert (∀ j, port_ref s' j = if decide (i = j) then p else port_ref s j) as Href.
  { intros j. rewrite <- port_ref_set by (done || lia). done. }
  assert (port_pages p = []) as Hpp by done.
  assert (port_pages (port_ref s i) = []) as Hpi by (unfold port_pages; by rewrite Hu).
  destruct (queued_set s i p Hinv ltac:(lia)) as (R & HR1 & HR2). rewrite Hpp in HR2. rewrite Hpi in HR1.
  split.
  - apply inv_new_port; try done; [lia| |lia| |].
    + pose proof port_slots_pos. split; cbn; try done; try lia; [apply Hw|].
      unfold write_name. rewrite length_app, length_drop, length_replicate. unfold name_ok in Hn. lia.
    + intros _. cbn. split; [lia|]. intros j Hj _. pose proof (iv_next _ Hinv j Hj). lia.
    + rewrite HR2, <- HR1. apply Hinv.
  - right. right. exists i. split_and!; try done; try lia.
    + intros j Hj. by rewrite Href, decide_False by done.
    + by rewrite Href, decide_True.
    + by rewrite Href, decide_True.
    + by rewrite Href, decide_True.
    + by rewrite Href, decide_True.
Qed.
End calls.
