(* ===== verification/IpcClaims.v ===== *)
(** * The theorems about IPC

    Mailboxes are bounded queues, ports have unique names and ids, no page is
    leaked or shared, and a synchronous call gets the answer sent to it. *)

From S2P Require Import Prelude Ring PageAlloc Ipc IpcInv.
From S2P Require Import Buddy BuddySpec BuddyPages.
From stdpp Require Import base gmap numbers list relations.
Local Open Scope Z_scope.

(** ** The machine the theorems are instantiated at: the buddy allocator of
    64 pages, a user check that accepts every buffer, no other task. *)

Definition uv64 (addr : Z) (n : nat) (w : bool) (a : kmem) : bool * kmem := (true, a).
Definition alone (w : wake) (s : ipc kmem) : bool * ipc kmem := (false, s).
Definition i64_0 : ipc kmem := ipc0 boot64.

(** The name "log". *)
Definition log_name : list Z := [108; 111; 103].
Definition i64_1 : ipc kmem := (ipc_create (Some log_name) i64_0).2.

Lemma uv64_ok addr n w a l : pa_own a l → pa_own (uv64 addr n w a).2 l.
Proof. done. Qed.

Lemma ipc0_inv {A} `{!PageAllocator A} (a : A) : pa_own a [] → ipc_inv (ipc0 a).
Proof.
  intros Ha.
  assert (∀ i, ¬ is_used (ipc0 a) i) as Hnu.
  { intros i [Hi Hu]. unfold port_ref in Hu. cbn [ports ipc0] in Hu.
    rewrite lookup_total_replicate_2 in Hu by done. done. }
  assert (queued (ipc0 a) = []) as Hq.
  { unfold queued, ipc0, ports. generalize MAX_PORTS. intros n. by induction n. }
  assert (reply_held (ipc0 a) = []) as Hr.
  { unfold reply_held, ipc0, replies. generalize MAX_REPLIES. intros n. by induction n. }
  split.
  - apply length_replicate.
  - apply length_replicate.
  - intros i p [-> _]%lookup_replicate. apply port_empty_wf.
  - intros i j Hi. by destruct (Hnu i).
  - intros i Hi. by destruct (Hnu i).
  - done.
  - intros pg. rewrite Hq. intros ?%elem_of_nil. done.
  - intros i r [-> _]%lookup_replicate. done.
  - unfold owned. by rewrite Hq, Hr.
Qed.

Lemma i64_0_inv : ipc_inv i64_0.
Proof. apply ipc0_inv, holds_boot64. Qed.

Lemma create64 : ipc_create (Some log_name) i64_0 = (1, i64_1).
Proof. vm_compute. reflexivity. Qed.

Lemma i64_1_inv : ipc_inv i64_1.
Proof.
  eapply ipc_create_spec; [exact i64_0_inv|by vm_compute| |exact create64]. by vm_compute; lia.
Qed.

Lemma mailbox64 : mailbox i64_1 1 = Some [].
Proof. vm_compute. reflexivity. Qed.

(** ** Sending and receiving *)

Section claims.
Context {A : Type} `{!PageAllocator A}.
Context (user_range_valid : Z → nat → bool → A → bool * A).
Context (sched : wake → ipc A → bool * ipc A).
Implicit Types s : ipc A.

(** What the sender's buffer check answers, and the allocator after it. *)
Definition send_check (buf : buffer) (kb : bool) (a : A) : bool * A :=
  if (0 <? length (b_data buf))%nat && negb kb then user_range_valid (b_addr buf) (length (b_data buf)) false a else (true, a).

(** Posting, branch by branch. *)
Lemma post_locked_outcome id buf src rid typ kb s :
  let run := post_locked user_range_valid id buf src rid typ kb s in
  match port_idx_by_id_locked s id with
  | None => run = Done (Failed (- ESRCH), s)
  | Some i =>
      (p_count (port_ref s i) < PORT_SLOTS)%nat →
      match pa_alloc (pal s) with
      | (None, a) => run = Done (Failed (- ENOMEM), set_pal a s)
      | (Some pg, a) =>
          let '(ok, a) := send_check buf kb a in
          if ok
          then run = Done (Posted i, set_port i (port_push (port_ref s i) pg) (set_msgs (<[pg := message buf src rid typ]> (msgs s)) (set_pal a s)))
          else ∀ a', pa_free pg a = Done a' → run = Done (Failed (- EFAULT), set_msgs (<[pg := zero_msg]> (msgs s)) (set_pal a' s))
      end
  end.
Proof.
  cbv zeta. unfold post_locked, alloc_msg_page, send_check. destruct (port_idx_by_id_locked s id) as [i|]; [|done]. intros Hc.
  rewrite (proj2 (Nat.ltb_lt _ _) Hc). destruct (pa_alloc (pal s)) as [[pg|] a]; [|done]. cbn [pal set_pal set_msgs].
  destruct ((0 <? length (b_data buf))%nat && negb kb); [destruct (user_range_valid _ _ _ _) as [[] a2]|]; cbn [negb].
  - cbn [msgs set_msgs set_pal]. by rewrite insert_insert_eq.
  - intros a' Hf. unfold ipc_free_page. cbn [pal set_pal]. rewrite Hf. done.
  - cbn [msgs set_msgs set_pal]. by rewrite insert_insert_eq.
Qed.

Lemma posted_pages s i pg m a : ipc_inv s → is_used s i → (p_count (port_ref s i) < PORT_SLOTS)%nat →
  owned (set_port i (port_push (port_ref s i) pg) (set_msgs m (set_pal a s))) ≡ₚ pg :: owned s.
Proof.
  intros Hinv [Hi Hu] Hc. destruct (queued_set s i (port_push (port_ref s i) pg) Hinv Hi) as (R & H1 & H2).
  rewrite (port_push_pages _ pg (port_ref_wf s i Hinv Hi) Hu Hc) in H2.
  change (queued (set_port i (port_push (port_ref s i) pg) s) ++ reply_held s ≡ₚ pg :: queued s ++ reply_held s).
  rewrite H2, H1, (Permutation_app_comm (port_pages _) [pg]). done.
Qed.

(** C7: [ipc_send] on a mailbox with room returns at once, and its outcome is
    fixed.  A message above the maximal length gives EMSGSIZE, an unknown port
    ESRCH, an allocator without a page ENOMEM, and nothing else changes.  A
    buffer that fails the check gives EFAULT: the page just taken is freed and
    no queue changes.  Else the call returns 0: the message is appended to the
    queue of the port and no other queue changes, the page is the only one more
    that the service holds, and one receiver of this port is woken. *)
Theorem ipc_send_refines fuel id buf src typ s :
  (∀ addr n w a l, pa_own a l → pa_own (user_range_valid addr n w a).2 l) →
  ipc_inv s → (∀ q, mailbox s id = Some q → (length q < PORT_SLOTS)%nat) → (0 < fuel)%nat →
  ∃ r s', ipc_send user_range_valid sched fuel id buf src typ s = Done (r, s') ∧ ipc_inv s' ∧
    if (IPC_MSG_MAX <? length (b_data buf))%nat then r = - EMSGSIZE ∧ s' = s
    else match mailbox s id with
    | None => r = - ESRCH ∧ s' = s
    | Some q =>
        match pa_alloc (pal s) with
        | (None, a) => r = - ENOMEM ∧ s' = set_pal a s
        | (Some pg, a) =>
            let '(ok, a) := send_check buf false a in
            if ok then
              r = 0 ∧ pal s' = a ∧ owned s' ≡ₚ pg :: owned s ∧
              (∀ id', mailbox s' id' = if decide (id' = id) then Some (q ++ [message buf src 0 typ]) else mailbox s id') ∧
              ∃ i, port_idx_by_id_locked s id = Some i ∧ wakes s' = wakes s ++ [(WRecv i, 1)]
            else r = - EFAULT ∧ pa_free pg a = Done (pal s') ∧ owned s' = owned s ∧ same_mail s s' ∧ wakes s' = wakes s
        end
    end.
Proof.
  intros Huv Hinv Hroom Hf. destruct fuel as [|fuel]; [lia|]. unfold ipc_send.
  destruct (Nat.ltb_spec IPC_MSG_MAX (length (b_data buf))) as [|Hlen]; [by exists (- EMSGSIZE), s|]. cbn [ipc_send_loop].
  destruct (post_locked_spec user_range_valid Huv s id buf src 0 typ false Hinv Hlen) as (r & s' & Hrun & Hinv' & Hr).
  pose proof (post_locked_outcome id buf src 0 typ false s) as Ho. cbv zeta in Ho. rewrite Hrun in Ho |- *. cbn [cbind].
  unfold mailbox in *. destruct (port_idx_by_id_locked s id) as [i|] eqn:Hidx.
  2: { injection Ho as -> ->. by exists (- ESRCH), s. }
  destruct (port_idx_spec s id i Hidx) as [Hused Hid]. specialize (Hroom (queue s i) eq_refl). rewrite queue_length in Hroom by done.
  specialize (Ho Hroom). change (queue s <$> Some i) with (Some (queue s i)). cbv iota.
  pose proof (iv_own _ Hinv) as Hown. destruct (pa_alloc (pal s)) as [[pg|] a] eqn:Hal.
  2: { injection Ho as -> ->. by exists (- ENOMEM), (set_pal a s). }
  pose proof (pa_alloc_ok _ _ _ _ Hown Hal) as Ho1. destruct (send_check buf false a) as [ok a2] eqn:Hchk.
  assert (pa_own a2 (pg :: owned s)) as Ho2.
  { revert Hchk. unfold send_check. destruct (_ && _); [|by intros [= _ <-]]. intros Hc.
    pose proof (Huv (b_addr buf) (length (b_data buf)) false a _ Ho1) as H. by rewrite Hc in H. }
  destruct ok.
  - injection Ho as -> Hs. eexists 0, _. split; [done|]. split; [by apply inv_wake|]. cbn [post_result] in Hr.
    destruct Hr as (_ & _ & Hq & Hix & _ & _ & Hw). cbn [pal futex_wake wakes]. rewrite Hw. split_and!; [done|by rewrite Hs| | |by exists i].
    + rewrite Hs. by apply posted_pages.
    + intros id'. change (queue s' <$> port_idx_by_id_locked s' id' = if decide (id' = id) then Some (queue s i ++ [message buf src 0 typ]) else queue s <$> port_idx_by_id_locked s id').
      rewrite Hix. case_decide as Hd; [subst id'; rewrite Hidx; simpl; by rewrite Hq, decide_True|].
      destruct (port_idx_by_id_locked s id') as [j|] eqn:Hj; [|done]. simpl. rewrite Hq, decide_False; [done|]. intros ->.
      destruct (port_idx_spec s id' j Hj) as [_ <-]. congruence.
  - destruct (pa_free_ok _ _ _ Ho2) as (a3 & Hfr & _). specialize (Ho a3 Hfr). injection Ho as -> ->.
    eexists _, _. split; [done|]. split; [done|]. cbn [post_result] in Hr. destruct Hr as (Hm & _ & _ & Hw & _). done.
Qed.

(** What the receiver's buffer check answers, and the allocator after it. *)
Definition recv_check (m : MsgPage) (buf : option Z) (max_len : nat) (kb : bool) (a : A) : bool * A :=
  match buf with
  | Some addr => if (0 <? Nat.min (msg_len m) max_len)%nat && negb kb then user_range_valid addr (Nat.min (msg_len m) max_len) true a else (true, a)
  | None => (true, a)
  end.

Lemma deliver_outcome pg buf max_len kb s a : let m := msgs s !!! pg in
  pa_free pg (recv_check m buf max_len kb (pal s)).2 = Done a →
  deliver user_range_valid pg buf max_len kb s =
    Done (if (recv_check m buf max_len kb (pal s)).1 then (Z.of_nat (msg_len m), reply_id m, delivered m buf max_len, set_pal a s)
          else (- EFAULT, 0, [], set_pal a s)).
Proof.
  cbv zeta. unfold deliver, recv_check, ipc_free_page. set (m := msgs s !!! pg). destruct buf as [addr|]; cbn [fst snd delivered].
  2: { intros ->. done. }
  destruct (Nat.ltb_spec 0 (Nat.min (msg_len m) max_len)) as [|Hz]; cbn [andb].
  2: { cbn [fst snd]. intros ->. cbn [cbind]. do 3 f_equal. by replace (Nat.min (msg_len m) max_len) with 0%nat by lia. }
  destruct kb; cbn [negb fst snd]; [by intros ->|].
  destruct (user_range_valid addr _ true (pal s)) as [[] a2]; cbn [fst snd pal set_pal]; by intros ->.
Qed.

(** C8: the receive calls on a mailbox that is not empty take its oldest
    message and return at once.  The message leaves that queue and no other
    queue changes, the page that held it goes back to the allocator and is the
    only one the service holds less, and one sender blocked on this port is
    woken.  The calls return the length and the reply token of the message and
    copy out its first [max_len] bytes, except when the check of a user buffer
    fails: then they return EFAULT and the message is lost.  [ipc_recv] and
    [ipc_peek] do the same without the token. *)
Theorem ipc_recv_refines fuel id buf max_len kb s m q i :
  (∀ addr n w a l, pa_own a l → pa_own (user_range_valid addr n w a).2 l) →
  ipc_inv s → mailbox s id = Some (m :: q) → port_idx_by_id_locked s id = Some i → (0 < fuel)%nat →
  ∃ pg len rid out s', ipc_recv_ex_impl user_range_valid sched fuel id buf max_len kb s = Done (len, rid, out, s') ∧
    ipc_peek_ex_impl user_range_valid id buf max_len kb s = Done (len, rid, out, s') ∧
    (kb = false → ipc_recv user_range_valid sched fuel id buf max_len s = Done (len, out, s') ∧
       ipc_peek user_range_valid id buf max_len s = Done (len, out, s')) ∧
    ipc_inv s' ∧ owned s ≡ₚ pg :: owned s' ∧ pa_free pg (recv_check m buf max_len kb (pal s)).2 = Done (pal s') ∧
    (∀ id', mailbox s' id' = if decide (id' = id) then Some q else mailbox s id') ∧ wakes s' = wakes s ++ [(WSend i, 1)] ∧
    (len, rid, out) = if (recv_check m buf max_len kb (pal s)).1 then (Z.of_nat (msg_len m), reply_id m, delivered m buf max_len) else (- EFAULT, 0, []).
Proof.
  intros Huv Hinv Hmb Hidx Hf. destruct fuel as [|fuel]; [lia|].
  destruct (take_locked id s) as [t s1] eqn:Ht. pose proof (take_locked_spec s id t s1 Hinv Ht) as Hs1.
  destruct t as [j pg|j|]; [|destruct Hs1 as (_ & Hx & _); congruence|destruct Hs1 as [Hx _]; congruence].
  destruct Hs1 as (Hj & Hp & Hs1 & Hpg & Hown & _). rewrite Hidx in Hj. injection Hj as <-.
  destruct (take_deliver user_range_valid Huv s id i pg s1 buf max_len kb Hinv Ht)
    as (len & rid & out & s' & Hrun & Hinv' & Hps & (j & m' & q' & Hj & Hmb' & Hmail & Hrep & Hrb & Hnx & Hw & Hd)).
  rewrite Hmb in Hmb'. injection Hmb' as <- <-. rewrite Hidx in Hj. injection Hj as <-.
  assert (msgs s1 = msgs s ∧ pal s1 = pal s ∧ replies s1 = replies s) as (M1 & M2 & M3) by (by rewrite Hs1).
  assert (msgs s !!! pg = m) as Hm.
  { destruct (taken_queues s s1 i pg Hinv (proj1 (port_idx_spec s id i Hidx)) Hp M1 Hpg) as (_ & Hq & _).
    unfold mailbox in Hmb. rewrite Hidx in Hmb. simpl in Hmb. rewrite Hq in Hmb. by injection Hmb. }
  set (s0 := futex_wake (WSend i) 1 s1) in *. assert (msgs s0 !!! pg = m ∧ pal s0 = pal s) as [E1 E2] by (by rewrite <- Hm, <- M1).
  assert (pa_own (recv_check m buf max_len kb (pal s)).2 (pg :: owned s1)) as Ho.
  { pose proof (iv_own _ Hinv) as Ho. rewrite Hown in Ho. unfold recv_check. destruct buf; [|done]. destruct (_ && _); [|done]. by apply Huv. }
  destruct (pa_free_ok _ _ _ Ho) as (a & Hfr & _).
  pose proof (deliver_outcome pg buf max_len kb s0 a) as Hout. cbv zeta in Hout. rewrite E1, E2 in Hout. specialize (Hout Hfr).
  assert (ipc_recv_ex_impl user_range_valid sched (S fuel) id buf max_len kb s = Done (len, rid, out, s')) as R1.
  { cbn [ipc_recv_ex_impl]. rewrite Ht. exact Hrun. }
  assert (ipc_peek_ex_impl user_range_valid id buf max_len kb s = Done (len, rid, out, s')) as R2.
  { unfold ipc_peek_ex_impl. rewrite Ht. exact Hrun. }
  exists pg, len, rid, out, s'. split; [exact R1|]. split; [exact R2|]. split.
  { intros ->. unfold ipc_recv, ipc_peek. by rewrite R1, R2. }
  assert (owned s' = owned s1) as Ho' by (unfold owned, queued, reply_held; by rewrite Hrep, Hps, M3).
  rewrite Ho'. split; [done|]. split; [done|]. split.
  { rewrite Hrun in Hout. by destruct (recv_check m buf max_len kb (pal s)).1; injection Hout as _ _ _ ->. }
  split; [done|]. split; [done|].
  rewrite Hrun in Hout. by destruct (recv_check m buf max_len kb (pal s)).1; injection Hout as -> -> -> _.
Qed.

(** However long it blocks, a send leaves the invariant in place. *)
Lemma ipc_send_inv fuel id buf src typ s r s' :
  (∀ addr n w a l, pa_own a l → pa_own (user_range_valid addr n w a).2 l) →
  (∀ w s0, ipc_inv s0 → ipc_inv (sched w s0).2) →
  ipc_inv s → ipc_send user_range_valid sched fuel id buf src typ s = Done (r, s') → ipc_inv s'.
Proof.
  intros Huv Hsch Hinv. unfold ipc_send.
  destruct (Nat.ltb_spec IPC_MSG_MAX (length (b_data buf))) as [|Hlen]; [by intros [= _ <-]|].
  revert s Hinv. induction fuel as [|fuel IH]; intros s Hinv; [done|]. cbn [ipc_send_loop].
  destruct (post_locked_spec user_range_valid Huv s id buf src 0 typ false Hinv Hlen)
    as (r1 & s1 & -> & Hinv1 & Hr). cbn [cbind]. destruct r1 as [i|i|e].
  - intros [= _ <-]. by apply inv_wake.
  - pose proof (Hsch (WSend i) s1 Hinv1) as Hs. destruct (sched (WSend i) s1) as [[] s2]; [by apply IH|by intros [= _ <-]].
  - by intros [= _ <-].
Qed.

(** ** Order of delivery *)

Fixpoint send_all (id src typ : Z) (bufs : list buffer) s : comp (list Z * ipc A) :=
  match bufs with
  | [] => Done ([], s)
  | b :: bufs' =>
      let! (r, s) := ipc_send user_range_valid sched 1 id b src typ s in
      let! (rs, s) := send_all id src typ bufs' s in
      Done (r :: rs, s)
  end.

(** Receive [n] messages into a kernel buffer of the largest message size. *)
Fixpoint recv_all (id : Z) (n : nat) s : comp (list (Z * list Z) * ipc A) :=
  match n with
  | O => Done ([], s)
  | S n' =>
      let! (len, _, out, s) := ipc_recv_ex_internal user_range_valid sched 1 id (Some 0) IPC_MSG_MAX s in
      let! (rs, s) := recv_all id n' s in
      Done ((len, out) :: rs, s)
  end.

Lemma send_all_spec id src typ bufs s q rs s' :
  (∀ addr n w a l, pa_own a l → pa_own (user_range_valid addr n w a).2 l) →
  ipc_inv s → (∀ b, b ∈ bufs → (length (b_data b) ≤ IPC_MSG_MAX)%nat) →
  mailbox s id = Some q → (length q + length bufs ≤ PORT_SLOTS)%nat →
  send_all id src typ bufs s = Done (rs, s') → (∀ r, r ∈ rs → r = 0) →
  ipc_inv s' ∧ mailbox s' id = Some (q ++ ((λ b, message b src 0 typ) <$> bufs)).
Proof.
  intros Huv. revert s q rs. induction bufs as [|b bufs IH]; intros s q rs Hinv Hl Hmb Hlen Hrun Hz; cbn [send_all] in Hrun.
  { injection Hrun as <- <-. by rewrite app_nil_r. }
  cbn [length] in Hlen.
  destruct (post_locked_spec user_range_valid Huv s id b src 0 typ false Hinv (Hl b (list_elem_of_here _ _)))
    as (r & s1 & Hp & Hinv1 & Hr).
  unfold ipc_send in Hrun. rewrite (proj2 (Nat.ltb_ge _ _) (Hl b (list_elem_of_here _ _))) in Hrun.
  cbn [ipc_send_loop] in Hrun. rewrite Hp in Hrun. cbn [cbind] in Hrun.
  unfold mailbox in Hmb. destruct r as [i|i|e]; cbn [post_result] in Hr.
  - destruct Hr as (Hidx & _ & Hq & Hix & _). rewrite Hidx in Hmb. injection Hmb as Hqi.
    cbn [cbind] in Hrun. destruct (send_all id src typ bufs _) as [[rs1 s2]| |] eqn:Hs2; [|done..].
    cbn [cbind] in Hrun. injection Hrun as <- <-.
    destruct (IH (futex_wake (WRecv i) 1 s1) (q ++ [message b src 0 typ]) rs1) as [? Hm]; try done.
    + by apply inv_wake.
    + intros b' Hb'. by apply Hl, list_elem_of_further.
    + unfold mailbox. change (port_idx_by_id_locked (futex_wake (WRecv i) 1 s1) id) with (port_idx_by_id_locked s1 id).
      rewrite Hix, Hidx. simpl. f_equal. etrans; [exact (Hq i)|]. by rewrite decide_True, Hqi.
    + rewrite length_app. cbn [length]. lia.
    + intros r' Hr'. by apply Hz, list_elem_of_further.
    + split; [done|]. rewrite Hm. by rewrite <- app_assoc.
  - destruct Hr as (Hidx & Hfull & _). rewrite Hidx in Hmb. injection Hmb as Hqi. rewrite Hqi in Hfull. lia.
  - cbn [cbind] in Hrun. destruct (send_all id src typ bufs s1) as [[rs1 s2]| |]; [|done..].
    cbn [cbind] in Hrun. injection Hrun as <- <-. specialize (Hz e (list_elem_of_here _ _)). subst e.
    destruct Hr as (_ & _ & _ & _ & [[? _]|[[? _]|?]]); done.
Qed.

Lemma recv_all_spec id n s q :
  (∀ addr n w a l, pa_own a l → pa_own (user_range_valid addr n w a).2 l) →
  ipc_inv s → mailbox s id = Some q → n = length q →
  ∃ s', recv_all id n s = Done ((λ m, (Z.of_nat (msg_len m), delivered m (Some 0) IPC_MSG_MAX)) <$> q, s') ∧
    ipc_inv s' ∧ mailbox s' id = Some [].
Proof.
  intros Huv. revert s q. induction n as [|n IH]; intros s q Hinv Hmb Hn; cbn [recv_all].
  { destruct q; [|done]. by exists s. }
  destruct q as [|m q]; [done|]. injection Hn as Hn.
  unfold ipc_recv_ex_internal. cbn [ipc_recv_ex_impl].
  destruct (take_locked id s) as [t s1] eqn:Ht. pose proof (take_locked_spec s id t s1 Hinv Ht) as Hs1.
  destruct t as [i pg|i|]; [|destruct Hs1 as (_ & Hx & _); congruence|destruct Hs1 as [Hx _]; congruence].
  destruct (take_deliver user_range_valid Huv s id i pg s1 (Some 0) IPC_MSG_MAX true Hinv Ht)
    as (len & rid & out & s' & -> & Hinv' & _ & (j & m' & q' & Hj & Hmb' & Hmail & _ & _ & _ & _ & Hd)).
  rewrite Hmb in Hmb'. injection Hmb' as <- <-. cbn [cbind].
  destruct Hd as [(-> & _ & ->)|(? & _)]; [|done].
  destruct (IH s' q) as (s'' & -> & ? & ?); [done|by rewrite Hmail, decide_True|done|].
  by exists s''.
Qed.

Lemma delivered_message b src rid typ :
  (length (b_data b) ≤ IPC_MSG_MAX)%nat →
  delivered (message b src rid typ) (Some 0) IPC_MSG_MAX = b_data b.
Proof.
  intros Hl. unfold delivered, message. cbn [msg_len body]. rewrite Nat.min_l by done.
  by rewrite take_app_length.
Qed.

(** Messages arrive in the order they were sent, whole and each once:
    after a run of sends that all returned 0, as many receives return the
    sent payloads in order and leave the mailbox empty. *)
Theorem ipc_fifo id src typ bufs s rs s' :
  (∀ addr n w a l, pa_own a l → pa_own (user_range_valid addr n w a).2 l) →
  ipc_inv s → (∀ b, b ∈ bufs → (length (b_data b) ≤ IPC_MSG_MAX)%nat) →
  mailbox s id = Some [] → (length bufs ≤ PORT_SLOTS)%nat →
  send_all id src typ bufs s = Done (rs, s') → (∀ r, r ∈ rs → r = 0) →
  ∃ s'', recv_all id (length bufs) s' =
      Done ((λ b, (Z.of_nat (length (b_data b)), b_data b)) <$> bufs, s'') ∧
    mailbox s'' id = Some [].
Proof.
  intros Huv Hinv Hl Hmb Hlen Hrun Hz.
  destruct (send_all_spec id src typ bufs s [] rs s' Huv Hinv Hl Hmb Hlen Hrun Hz) as [Hinv' Hmb'].
  destruct (recv_all_spec id (length bufs) s' _ Huv Hinv' Hmb') as (s'' & -> & _ & Hm).
  { cbn. by rewrite length_fmap. }
  exists s''. split; [|done]. do 2 f_equal. cbn [app]. rewrite <- list_fmap_compose.
  apply list_fmap_ext. intros _ b Hb%list_elem_of_lookup_2. cbn [compose]. f_equal. by apply (delivered_message b src 0 typ), Hl.
Qed.

(** ** Blocking *)

(** The mailbox of [id] is full for [k] turns of the sender and has room (or
    is gone) at the next; the sender is never told to give up. *)
Fixpoint full_for (k : nat) (id : Z) s : Prop :=
  match k with
  | O => ∀ q, mailbox s id = Some q → (length q < PORT_SLOTS)%nat
  | S k' => ∃ i, port_idx_by_id_locked s id = Some i ∧
      (sched (WSend i) s).1 = true ∧ full_for k' id (sched (WSend i) s).2
  end.

(** A sender that finds the mailbox full does not give up and does not
    lose its message: it blocks, and as soon as a turn finds room it posts (or
    reports why it cannot), whatever the other tasks did in between. *)
Theorem ipc_send_blocks fuel k id buf src typ s :
  (∀ addr n w a l, pa_own a l → pa_own (user_range_valid addr n w a).2 l) →
  (∀ w s0, ipc_inv s0 → ipc_inv (sched w s0).2) →
  ipc_inv s → (length (b_data buf) ≤ IPC_MSG_MAX)%nat → full_for k id s → (k < fuel)%nat →
  ∃ r s', ipc_send user_range_valid sched fuel id buf src typ s = Done (r, s') ∧ ipc_inv s' ∧
    r ∈ [0; - ESRCH; - ENOMEM; - EFAULT] ∧
    (r = 0 → ∃ q, mailbox s' id = Some (q ++ [message buf src 0 typ])).
Proof.
  intros Huv Hsch Hinv Hlen. unfold ipc_send. rewrite (proj2 (Nat.ltb_ge _ _) Hlen).
  revert fuel s Hinv. induction k as [|k IH]; intros [|fuel] s Hinv Hfull Hk; try lia; cbn [ipc_send_loop].
  all: destruct (post_locked_spec user_range_valid Huv s id buf src 0 typ false Hinv Hlen)
    as (r & s1 & -> & Hinv1 & Hr); cbn [cbind]; destruct r as [i|i|e]; cbn [post_result] in Hr.
  all: try (destruct Hr as (Hidx & _ & Hq & Hix & _); eexists 0, _; split; [done|];
    split; [by apply inv_wake|]; split; [apply list_elem_of_here|]; intros _; exists (queue s i);
    unfold mailbox; change (port_idx_by_id_locked (futex_wake (WRecv i) 1 s1) id) with (port_idx_by_id_locked s1 id);
    rewrite Hix, Hidx; simpl; f_equal; etrans; [exact (Hq i)|]; by rewrite decide_True).
  all: try (destruct Hr as (_ & _ & _ & _ & He); exists e, s1; split_and!; [done|done|set_solver|];
    intros ->; destruct He as [[? _]|[[? _]|?]]; done).
  - destruct Hr as (Hidx & Hfl & _). exfalso. pose proof (Hfull (queue s i)) as Hx.
    unfold mailbox in Hx. rewrite Hidx in Hx. specialize (Hx eq_refl). lia.
  - destruct Hr as (Hidx & Hfl & ->). destruct Hfull as (i' & Hidx' & Hgo & Hrest).
    rewrite Hidx in Hidx'. injection Hidx' as <-.
    destruct (sched (WSend i) s) as [b s2] eqn:Hs2. cbn [fst snd] in Hgo, Hrest. subst b.
    apply IH; [|done|lia]. specialize (Hsch (WSend i) s Hinv). by rewrite Hs2 in Hsch.
Qed.

(** ** Conservation of pages *)

(** The service, the messages tasks have taken out and not yet delivered, and
    the port ids handed out so far. *)
Record machine := mkMachine { service : ipc A; taken_out : list (Z * MsgPage); issued : list Z }.

(** One critical section of any task, the delivery that follows one outside
    the lock, or a wake. *)
Inductive ipc_step : machine → machine → Prop :=
| is_post id buf src rid typ kb s r s' F I :
    (length (b_data buf) ≤ IPC_MSG_MAX)%nat →
    post_locked user_range_valid id buf src rid typ kb s = Done (r, s') → ipc_step (mkMachine s F I) (mkMachine s' F I)
| is_take id i pg s s' F I :
    take_locked id s = (Taken i pg, s') → ipc_step (mkMachine s F I) (mkMachine s' ((pg, msgs s !!! pg) :: F) I)
| is_deliver pg m buf max_len kb s res s' F F' I :
    F ≡ₚ (pg, m) :: F' → deliver user_range_valid pg buf max_len kb s = Done (res, s') →
    ipc_step (mkMachine s F I) (mkMachine s' F' I)
| is_reply_alloc s r s' F I : reply_alloc_locked s = Done (r, s') → ipc_step (mkMachine s F I) (mkMachine s' F I)
| is_reply_free i s s' F I : reply_free_locked i s = Done s' → ipc_step (mkMachine s F I) (mkMachine s' F I)
| is_reply rid d s F I : ipc_step (mkMachine s F I) (mkMachine (ipc_reply rid (Some d) (length d) s).2 F I)
| is_create name s r s' F I : next_port_id s + 1 < 2 ^ 63 → name_ok name → ipc_create (Some name) s = (r, s') →
    ipc_step (mkMachine s F I) (mkMachine s' F (if 0 <? r then r :: I else I))
| is_close id s r s' F I : ipc_close id s = Done (r, s') → ipc_step (mkMachine s F I) (mkMachine s' F I)
| is_wake w n s F I : ipc_step (mkMachine s F I) (mkMachine (futex_wake w n s) F I).

(** The allocator as seen by the service while [F] is held besides. *)
#[refine] Definition framed (F : list Z) : PageAllocator A :=
  {| pa_alloc := pa_alloc; pa_free := pa_free; pa_own := λ a l, pa_own a (F ++ l) |}.
Proof.
  - intros a l l' Hl. by rewrite Hl.
  - intros a l Ho. apply pa_own_nodup in Ho. by apply list.NoDup_app in Ho as (_ & _ & ?).
  - intros a l p Ho Hp. eapply pa_own_nonzero; [exact Ho|]. apply elem_of_app. by right.
  - intros a l p p' Ho Hp Hp'. eapply pa_own_apart; [exact Ho| |]; apply elem_of_app; by right.
  - intros a l p a' Ho Hal. rewrite <- Permutation_middle. by eapply pa_alloc_ok.
  - intros a l a' Ho Hal. by eapply pa_alloc_fail.
  - intros a l p Ho. rewrite <- Permutation_middle in Ho. by apply pa_free_ok.
Defined.

(** The invariant, but for the pages. *)
Lemma inv_reframe (P Q : PageAllocator A) s : @ipc_inv A P s → @pa_own A Q (pal s) (owned s) → @ipc_inv A Q s.
Proof. intros [? ? ? ? ? ? ? ? ?] Ho. by split. Qed.

(** What a step without the ids and the pages taken out keeps. *)
Definition keeps (F : list (Z * MsgPage)) s s' : Prop :=
  next_port_id s' = next_port_id s ∧ (∀ id, mailbox s' id ≠ None → mailbox s id ≠ None) ∧
  ∀ pg, pg ∈ F.*1 → msgs s' !!! pg = msgs s !!! pg.

Lemma post_frame s id buf src rid typ kb r s' : post_locked user_range_valid id buf src rid typ kb s = Done (r, s') →
  next_port_id s' = next_port_id s ∧ ∀ pg, (∀ a, pa_alloc (pal s) ≠ (Some pg, a)) → msgs s' !!! pg = msgs s !!! pg.
Proof.
  unfold post_locked, alloc_msg_page, ipc_free_page. destruct (port_idx_by_id_locked s id) as [i|]; [|by intros [= _ <-]].
  destruct (p_count (port_ref s i) <? PORT_SLOTS)%nat; [|by intros [= _ <-]].
  destruct (pa_alloc (pal s)) as [[pg|] a] eqn:Hal; [|by intros [= _ <-]].
  assert (∀ x, (∀ a', (Some pg, a) ≠ (Some x, a')) → pg ≠ x) as Hne by (intros x Hx ->; by apply (Hx a)).
  destruct ((0 <? length (b_data buf))%nat && negb kb); [destruct (user_range_valid _ _ _ _) as [[] a2]|]; cbn [negb pal set_pal set_msgs].
  2: destruct (pa_free pg a2); [|done..].
  all: cbn [cbind]; intros [= _ <-]; split; [done|]; intros x Hx%Hne; cbn; by rewrite !lookup_total_insert_ne.
Qed.

Lemma post_keeps F s id buf src rid typ kb r s' :
  (∀ addr n w a l, pa_own a l → pa_own (user_range_valid addr n w a).2 l) →
  @ipc_inv A (framed F.*1) s → (length (b_data buf) ≤ IPC_MSG_MAX)%nat →
  post_locked user_range_valid id buf src rid typ kb s = Done (r, s') → @ipc_inv A (framed F.*1) s' ∧ keeps F s s'.
Proof.
  intros Huv Hinv Hlen Hrun.
  destruct (@post_locked_spec A (framed F.*1) user_range_valid (λ addr n w a l, Huv addr n w a (F.*1 ++ l)) s id buf src rid typ kb Hinv Hlen)
    as (r' & s2 & Hrun' & Hinv' & Hr). change (post_locked user_range_valid id buf src rid typ kb s = Done (r', s2)) in Hrun'.
  rewrite Hrun in Hrun'. injection Hrun' as <- <-. split; [done|]. destruct (post_frame _ _ _ _ _ _ _ _ _ Hrun) as [Hn Hm]. split_and!; [done| |].
  - intros id'. destruct r as [i|i|e]; cbn [post_result] in Hr.
    + destruct Hr as (_ & _ & _ & Hix & _). unfold mailbox. rewrite Hix. by destruct (port_idx_by_id_locked s id').
    + destruct Hr as (_ & _ & ->). done.
    + destruct Hr as (Hs & _). by rewrite Hs.
  - intros pg Hpg. apply Hm. intros a Hal. pose proof (iv_own _ Hinv : pa_own (pal s) (F.*1 ++ owned s)) as Ho. destruct (pa_alloc_fresh _ _ _ _ Ho Hal) as [Hni _].
    apply Hni, elem_of_app. by left.
Qed.

Lemma alloc_frame s r s' : reply_alloc_locked s = Done (r, s') → next_port_id s' = next_port_id s ∧ msgs s' = msgs s.
Proof.
  unfold reply_alloc_locked, alloc_reply_page, ipc_free_page. destruct (pa_alloc (pal s)) as [[pg|] a]; [|by intros [= _ <-]].
  destruct (first_from _ _ _); [by intros [= _ <-]|]. cbn [pal set_rbytes set_pal]. destruct (pa_free pg a); [|done..]. by intros [= _ <-].
Qed.

Lemma free_frame s i s' : reply_free_locked i s = Done s' → next_port_id s' = next_port_id s ∧ msgs s' = msgs s.
Proof.
  unfold reply_free_locked, ipc_free_page. destruct (_ && _); [|by intros [= <-]]. destruct (negb _); [|by intros [= <-]].
  destruct (pa_free _ _); [|done..]. by intros [= <-].
Qed.

Lemma reply_frame rid d n s : next_port_id (ipc_reply rid d n s).2 = next_port_id s ∧ msgs (ipc_reply rid d n s).2 = msgs s.
Proof.
  unfold ipc_reply. destruct (_ || _); [done|]. destruct (r_done _); [done|]. destruct d; [|done]. by destruct (_ <? _)%nat.
Qed.

Lemma close_frame s id r s' : ipc_close id s = Done (r, s') → next_port_id s' = next_port_id s ∧ msgs s' = msgs s.
Proof.
  assert (∀ n j h sl s sl' s', close_slots n j h sl s = Done (sl', s') → next_port_id s' = next_port_id s ∧ msgs s' = msgs s) as Hc.
  { induction n as [|n IH]; intros j h sl x sl' x'; cbn [close_slots]; [by intros [= _ <-]|].
    destruct (negb _); [|apply IH]. unfold ipc_free_page. destruct (pa_free _ _); [|done..]. cbn [cbind]. intros H. by apply IH in H. }
  unfold ipc_close. destruct (first_from _ _ _); [|by intros [= _ <-]].
  destruct (close_slots _ _ _ _ s) as [[sl x]| |] eqn:E; [|done..]. cbn [cbind]. intros [= _ <-]. by apply Hc in E.
Qed.

Record machine_inv (x : machine) : Prop := {
  mi_ipc : @ipc_inv A (framed (taken_out x).*1) (service x);
  mi_taken : ∀ pg m, (pg, m) ∈ taken_out x → msgs (service x) !!! pg = m;
  mi_nodup : NoDup (issued x);
  mi_next : ∀ id, id ∈ issued x → id < next_port_id (service x);
  mi_ports : ∀ id, mailbox (service x) id ≠ None → id ∈ issued x;
}.

Lemma keeps_inv F I s s' : machine_inv (mkMachine s F I) → @ipc_inv A (framed F.*1) s' → keeps F s s' → machine_inv (mkMachine s' F I).
Proof.
  intros [H1 H2 H3 H4 H5] Hi (Hn & Hm & Hp). split; cbn [service taken_out issued] in *; try done.
  - intros pg m Hin. rewrite Hp; [by apply H2|]. apply list_elem_of_fmap. by exists (pg, m).
  - by rewrite Hn.
  - intros id Hid. by apply H5, Hm.
Qed.

Lemma same_keeps F s s' : next_port_id s' = next_port_id s ∧ msgs s' = msgs s → same_mail s s' → keeps F s s'.
Proof. intros [Hn Hm] Hs. split_and!; [done|intros id; by rewrite Hs|intros; by rewrite Hm]. Qed.

Lemma take_step F I s id i pg s' : machine_inv (mkMachine s F I) → take_locked id s = (Taken i pg, s') →
  machine_inv (mkMachine s' ((pg, msgs s !!! pg) :: F) I).
Proof.
  intros [H1 H2 H3 H4 H5] Ht. cbn [service taken_out issued] in *. pose proof (@take_locked_spec A (framed F.*1) s id _ _ H1 Ht) as (Hidx & Hp & Hs' & Hpg & Hown & Hfix).
  assert (msgs s' = msgs s ∧ next_port_id s' = next_port_id s ∧ pal s' = pal s) as (M & N & Q) by (by rewrite Hs').
  pose proof (iv_own _ H1) as Ho. cbn [pa_own framed] in Ho. rewrite Hown in Ho.
  assert (pa_own (pal s') (pg :: F.*1 ++ owned s')) as Ho' by (rewrite Q; by rewrite Permutation_middle).
  destruct (pa_free_ok _ _ _ Ho') as (a & _ & Ha). specialize (Hfix a Ha).
  split; cbn [taken_out service issued fmap list_fmap fst].
  - by destruct Hfix.
  - intros p m [[= -> ->]|Hin]%elem_of_cons; rewrite M; [done|by apply H2].
  - done.
  - by rewrite N.
  - intros id' Hid'. apply H5. intros Hno. apply Hid'. unfold mailbox in *.
    destruct (taken_queues s s' i pg H1 (proj1 (port_idx_spec s id i Hidx)) Hp M Hpg) as (-> & _). by destruct (port_idx_by_id_locked s id').
Qed.

Lemma deliver_step F F' I s pg m buf max_len kb res s' :
  (∀ addr n w a l, pa_own a l → pa_own (user_range_valid addr n w a).2 l) →
  machine_inv (mkMachine s F I) → F ≡ₚ (pg, m) :: F' → deliver user_range_valid pg buf max_len kb s = Done (res, s') →
  machine_inv (mkMachine s' F' I).
Proof.
  intros Huv [H1 H2 H3 H4 H5] HF Hrun. cbn [service taken_out issued] in *.
  assert (pa_own (pal s) (pg :: F'.*1 ++ owned s)) as Ho by (pose proof (iv_own _ H1) as Ho; cbn [pa_own framed] in Ho; by rewrite HF in Ho).
  assert (pa_own (recv_check (msgs s !!! pg) buf max_len kb (pal s)).2 (pg :: F'.*1 ++ owned s)) as Ho2.
  { unfold recv_check. destruct buf; [|done]. destruct (_ && _); [|done]. by apply Huv. }
  destruct (pa_free_ok _ _ _ Ho2) as (a & Hfr & Ha). pose proof (deliver_outcome pg buf max_len kb s a Hfr) as Hout. rewrite Hrun in Hout.
  assert (s' = set_pal a s) as -> by (by destruct (recv_check _ _ _ _ _).1; injection Hout).
  split; cbn [taken_out service issued]; try done.
  - by destruct H1.
  - intros p m' Hin. apply H2. rewrite HF. by apply list_elem_of_further.
Qed.

Lemma create_step F I s name r s' : machine_inv (mkMachine s F I) → next_port_id s + 1 < 2 ^ 63 → name_ok name →
  ipc_create (Some name) s = (r, s') → machine_inv (mkMachine s' F (if 0 <? r then r :: I else I)).
Proof.
  intros Hx Hb Hn Hrun. destruct Hx as [H1 H2 H3 H4 H5]. cbn [service taken_out issued] in *.
  destruct (@ipc_create_spec A (framed F.*1) s name r s' H1 Hb Hn Hrun) as (Hi & [(_ & -> & ->)|[(_ & -> & ->)|Hnew]]).
  1, 2: by split.
  destruct Hnew as (i & Hi1 & Hu & _ & -> & Hn1 & Hm & Hp & Hoth & Hu' & Hid & _). pose proof (iv_next_pos _ H1) as Hpos.
  rewrite (proj2 (Z.ltb_lt _ _) Hpos). split; cbn [taken_out service issued]; try done.
  - by rewrite Hm.
  - apply list.NoDup_cons. split; [|done]. intros Hin%H4. lia.
  - intros id [->|Hin%H4]%elem_of_cons; lia.
  - intros id Hmb. destruct (port_idx_by_id_locked s' id) as [j|] eqn:Hj; [|unfold mailbox in Hmb; by rewrite Hj in Hmb].
    destruct (port_idx_spec s' id j Hj) as [[Hj1 Hj2] Hj3]. destruct (decide (j = i)) as [->|Hne].
    + rewrite <- Hj3, Hid. apply list_elem_of_here.
    + apply list_elem_of_further, H5. rewrite Hoth in Hj2, Hj3 by done. unfold mailbox.
      destruct (port_idx_by_id_locked s id) eqn:E; [done|]. unfold port_idx_by_id_locked in E. rewrite first_from_None in E.
      specialize (E j ltac:(lia)). by rewrite Hj2, Hj3, Z.eqb_refl in E.
Qed.

Lemma ipc_step_inv x x' :
  (∀ addr n w a l, pa_own a l → pa_own (user_range_valid addr n w a).2 l) →
  ipc_step x x' → machine_inv x → machine_inv x'.
Proof.
  intros Huv Hst Hx. destruct Hst as [id buf src rid typ kb s r s' F I Hl Hrun|id i pg s s' F I Ht|pg m buf max_len kb s res s' F F' I HF Hrun
    |s r s' F I Hrun|i s s' F I Hrun|rid d s F I|name s r s' F I Hb Hn Hrun|id s r s' F I Hrun|w n s F I].
  - destruct (post_keeps F s id buf src rid typ kb r s' Huv (mi_ipc _ Hx) Hl Hrun). by eapply keeps_inv.
  - by eapply take_step.
  - by eapply deliver_step.
  - destruct (@reply_alloc_spec A (framed F.*1) s (mi_ipc _ Hx)) as (r' & s2 & Hrun' & Hi & Hm & _).
    change (reply_alloc_locked s = Done (r', s2)) in Hrun'. rewrite Hrun in Hrun'. injection Hrun' as <- <-.
    eapply keeps_inv; [done|done|]. apply same_keeps; [by eapply alloc_frame|done].
  - destruct (@reply_free_spec A (framed F.*1) s i (mi_ipc _ Hx)) as (s2 & Hrun' & Hi & Hm & _).
    change (reply_free_locked i s = Done s2) in Hrun'. rewrite Hrun in Hrun'. injection Hrun' as <-.
    eapply keeps_inv; [done|done|]. apply same_keeps; [by eapply free_frame|done].
  - pose proof (@ipc_reply_spec A (framed F.*1) s rid (Some d) (length d) (mi_ipc _ Hx)) as Hr.
    pose proof (reply_frame rid (Some d) (length d) s) as Hf. destruct (ipc_reply rid (Some d) (length d) s) as [r s'] eqn:E.
    destruct Hr as (Hi & Hm & _); [by intros ? [= <-]|]. eapply keeps_inv; [done|done|]. by apply same_keeps.
  - by eapply create_step.
  - destruct (@ipc_close_spec A (framed F.*1) s id (mi_ipc _ Hx)) as (r' & s2 & Hrun' & Hi & Hm).
    change (ipc_close id s = Done (r', s2)) in Hrun'. rewrite Hrun in Hrun'. injection Hrun' as <- <-.
    destruct (close_frame _ _ _ _ Hrun) as [Hf1 Hf2]. eapply keeps_inv; [done|done|]. split_and!; [done| |intros; by rewrite Hf2].
    intros id'. destruct (mailbox s id) as [q|] eqn:Hmb; [|by destruct Hm as [_ ->]].
    destruct Hm as (_ & Hm & _). rewrite Hm. by case_decide.
  - eapply keeps_inv; [done|apply (@inv_wake A (framed F.*1)); apply (mi_ipc _ Hx)|]. by split_and!.
Qed.

(** C34: No page is lost and no id comes back.  Let any number of tasks run
    from boot, with their critical sections in any order and every delivery of
    a message at any later time, and fewer than 2^63 ports created.  The pages
    the service holds from the allocator are at all times exactly those in its
    mailboxes, in its reply slots and in the hands of receivers, each in one
    place only; a message taken out is the same until it is delivered; no two
    ports have the same id, and no id is given out twice, closed ports
    included. *)
Theorem ipc_no_leak a x :
  (∀ addr n w a l, pa_own a l → pa_own (user_range_valid addr n w a).2 l) →
  pa_own a [] → rtc ipc_step (mkMachine (ipc0 a) [] []) x →
  let s := service x in
  pa_own (pal s) ((taken_out x).*1 ++ owned s) ∧ NoDup ((taken_out x).*1 ++ owned s) ∧
  (∀ pg m, (pg, m) ∈ taken_out x → msgs s !!! pg = m) ∧
  (∀ i j, is_used s i → is_used s j → p_id (port_ref s i) = p_id (port_ref s j) → i = j) ∧
  NoDup (issued x) ∧ ∀ i, is_used s i → p_id (port_ref s i) ∈ issued x.
Proof.
  intros Huv Ha Hst s. assert (machine_inv (mkMachine (ipc0 a) [] [])) as H0.
  { split; cbn [service taken_out issued]; try by intros ? ?%elem_of_nil || intros ? ? ?%elem_of_nil.
    - by apply (@ipc0_inv A (framed [])).
    - apply NoDup_nil_2.
    - intros id Hid. exfalso. apply Hid. unfold mailbox. replace (port_idx_by_id_locked (ipc0 a) id) with (@None nat); [done|].
      symmetry. apply first_from_None. intros k Hk. unfold port_ref. cbn [ports ipc0]. by rewrite lookup_total_replicate_2 by lia. }
  assert (machine_inv x) as [H1 H2 H3 H4 H5] by (induction Hst; [done|]; eauto using ipc_step_inv).
  pose proof (iv_own _ H1) as Ho. cbn [pa_own framed] in Ho. split_and!; try done.
  - by eapply pa_own_nodup.
  - apply H1.
  - intros i [Hi Hu]. apply H5. change (mailbox s (p_id (port_ref s i)) ≠ None). unfold mailbox. destruct (port_idx_by_id_locked s (p_id (port_ref s i))) eqn:E; [done|].
    unfold port_idx_by_id_locked in E. rewrite first_from_None in E. specialize (E i ltac:(lia)). by rewrite Hu, Z.eqb_refl in E.
Qed.

(** ** Names *)

Lemma by_name_first s name i :
  name_ok name → (i < MAX_PORTS)%nat → p_used (port_ref s i) = true → name_matches (port_ref s i) name = true →
  (∀ j, (j < MAX_PORTS)%nat → j ≠ i → p_used (port_ref s j) && name_matches (port_ref s j) name = false) →
  port_idx_by_name_locked s name = Some i.
Proof.
  intros Hn Hi Hu Hm Hoth. unfold port_idx_by_name_locked. rewrite (proj2 (name_ok_bools name Hn)).
  apply first_from_Some. split_and!; [lia|lia|by rewrite Hu, Hm|]. intros k Hk. apply Hoth; lia.
Qed.

(** A port can be found under the name it was created with: creating a
    port under a new name gives an id that [ipc_connect] returns for that
    name, creating it again is refused with EEXIST, and (names having no NUL
    byte) connecting to any other name gives what it gave before. *)
Theorem create_connect name s id s' :
  ipc_inv s → next_port_id s + 1 < 2 ^ 63 → name_ok name → ipc_create (Some name) s = (id, s') → 0 < id →
  ipc_connect (Some name) s' = id ∧ (ipc_create (Some name) s').1 = - EEXIST ∧
  mailbox s' id = Some [] ∧
  ∀ name', name_ok name' → (∀ c, c ∈ name → c ≠ 0) → (∀ c, c ∈ name' → c ≠ 0) → name' ≠ name →
    ipc_connect (Some name') s' = ipc_connect (Some name') s.
Proof.
  intros Hinv Hb Hn Hc Hpos.
  destruct (ipc_create_spec s name id s' Hinv Hb Hn Hc) as (Hinv' & [(_ & -> & _)|[(_ & -> & _)|
    (i & Hi & Hui & Hno & Hid & _ & _ & _ & Hoth & Hu & Hpid & Hcnt & Hnm)]]); [done|done|].
  destruct (name_ok_bools name Hn) as [Hn1 Hn2].
  pose proof (write_name_matches (port_ref s' i) name (proj2 Hn) Hnm) as Hself.
  assert (port_idx_by_name_locked s' name = Some i) as Hfind.
  { apply by_name_first; try done. intros j Hj Hji. rewrite Hoth by done.
    unfold port_idx_by_name_locked in Hno. rewrite Hn2, first_from_None in Hno. apply Hno. lia. }
  split_and!.
  - unfold ipc_connect. by rewrite Hn1, Hfind.
  - unfold ipc_create. by rewrite Hn1, Hfind.
  - assert (port_idx_by_id_locked s' id = Some i) as Hix.
    { unfold port_idx_by_id_locked. apply first_from_Some. split_and!; [lia|lia|by rewrite Hu, Hpid, Z.eqb_refl|].
      intros k Hk. apply andb_false_iff. destruct (p_used (port_ref s' k)) eqn:Huk; [right|by left].
      apply Z.eqb_neq. intros Heq. assert (k = i); [|lia].
      apply (iv_ids _ Hinv'); [split; [lia|done]|by split|congruence]. }
    unfold mailbox, queue, port_pages. rewrite Hix. simpl. by rewrite Hu, Hcnt.
  - intros name' Hn' Hz Hz' Hne. destruct (name_ok_bools name' Hn') as [Hn1' Hn2'].
    unfold ipc_connect. rewrite Hn1'. unfold port_idx_by_name_locked. rewrite Hn2'.
    assert (∀ k, (k < MAX_PORTS)%nat → p_used (port_ref s' k) && name_matches (port_ref s' k) name' =
      p_used (port_ref s k) && name_matches (port_ref s k) name') as Hext.
    { intros k Hk. destruct (decide (k = i)) as [->|]; [|by rewrite Hoth].
      rewrite Hui. apply andb_false_iff. right. apply not_true_is_false. intros Hm. apply Hne.
      by apply (write_name_only (port_ref s' i) name name' (proj2 Hn) (proj2 Hn') Hnm). }
    rewrite (first_from_ext _ (λ k, p_used (port_ref s k) && name_matches (port_ref s k) name')); [|intros; apply Hext; lia].
    destruct (first_from _ 0 MAX_PORTS) as [k|] eqn:Hf; [|done]. apply first_from_Some in Hf as (Hk & Hbk & _).
    bool_to_prop. destruct (decide (k = i)) as [->|]; [congruence|]. by rewrite Hoth.
Qed.

(** Closing a port frees every message still in its mailbox, removes the
    port and only it, and wakes all tasks blocked on it; closing an unknown
    port is ESRCH and changes nothing. *)
Theorem ipc_close_refines s id :
  ipc_inv s → ∃ r s', ipc_close id s = Done (r, s') ∧ ipc_inv s' ∧
    match mailbox s id with
    | None => r = - ESRCH ∧ s' = s
    | Some q => r = 0 ∧ (∀ id', mailbox s' id' = if decide (id' = id) then None else mailbox s id') ∧
        (length (owned s') + length q = length (owned s))%nat ∧
        ∃ i, port_idx_by_id_locked s id = Some i ∧
          wakes s' = wakes s ++ [(WRecv i, 2 ^ 32 - 1); (WSend i, 2 ^ 32 - 1)]
    end.
Proof. apply ipc_close_spec. Qed.

(** ** Synchronous calls *)

Definition call_err (r : Z) : Prop := r ∈ [- EMSGSIZE; - ENOMEM; - ESRCH; - EFAULT].

(** A synchronous call gets its answer: when the service answers the
    caller's token while the caller waits, the call returns the length of the
    answer and its first [out_len] bytes, and releases the token; otherwise it
    reports an error before it ever waits. *)
Theorem call_gets_answer fuel id buf src out out_len kb d s :
  (∀ addr n w a l, pa_own a l → pa_own (user_range_valid addr n w a).2 l) →
  (∀ rid s0, sched (WReply rid) s0 = (true, (ipc_reply rid (Some d) (length d) s0).2)) →
  (length d ≤ IPC_MSG_MAX)%nat → ipc_inv s →
  (∀ q, mailbox s id = Some q → (length q < PORT_SLOTS)%nat) → (1 < fuel)%nat →
  ∃ r bytes s', ipc_call_impl user_range_valid sched fuel id buf src (Some out) out_len kb s = Done (r, bytes, s') ∧
    ipc_inv s' ∧
    (call_err r ∧ bytes = [] ∨
     r = Z.of_nat (length d) ∧ bytes = take out_len d ∧
     ∃ q rid, mailbox s id = Some q ∧ mailbox s' id = Some (q ++ [message buf src (Z.of_nat rid) 0]) ∧
       r_used (reply_ref s' rid) = false).
Proof.
  intros Huv Hsch Hd Hinv Hroom Hf. unfold ipc_call_impl.
  destruct (Nat.ltb_spec IPC_MSG_MAX (length (b_data buf))) as [|Hlen].
  { eexists _, _, s. split; [done|]. split; [done|]. left. split; [apply list_elem_of_here|done]. }
  destruct (reply_alloc_spec s Hinv) as (r1 & s1 & -> & Hinv1 & Hm1 & Hp1 & _ & Hr1). cbn [cbind].
  destruct r1 as [rid|].
  2: { eexists _, _, s1. split; [done|]. split; [done|]. left. split; [unfold call_err; set_solver|done]. }
  destruct Hr1 as (Hrid & _ & pg & Hslot & _).
  destruct fuel as [|[|fuel]]; [lia|lia|]. cbn [call_post].
  destruct (post_locked_spec user_range_valid Huv s1 id buf src (Z.of_nat rid) 0 kb Hinv1 Hlen)
    as (r2 & s2 & -> & Hinv2 & Hr2). cbn [cbind]. destruct r2 as [i|i|e]; cbn [post_result] in Hr2.
  - destruct Hr2 as (Hidx & _ & Hq & Hix & Hrep & _ & _). cbn [cbind].
    set (s3 := futex_wake (WRecv i) 1 s2).
    assert (reply_ref s3 rid = mkReplySlot true pg 0 false) as Hs3.
    { unfold reply_ref, s3. cbn [replies futex_wake]. rewrite Hrep. exact Hslot. }
    assert (ipc_inv s3) as Hinv3 by (by apply inv_wake).
    cbn [call_wait]. rewrite Hs3, (proj2 (Nat.ltb_lt _ _)) by lia. cbn [andb r_used r_done].
    rewrite Hsch. cbn [snd].
    pose proof (ipc_reply_spec s3 rid (Some d) (length d) Hinv3) as Hans.
    destruct (ipc_reply rid (Some d) (length d) s3) as [n s4]. cbn [snd].
    destruct Hans as (Hinv4 & Hm4 & _ & _ & [(_ & _ & Hx)|[(_ & _ & Hx)|(-> & _ & _ & _ & Hs4 & Hby & _)]]).
    { by intros ? [= <-]. }
    { destruct Hx as [|Hx]; [lia|]. by rewrite Hs3 in Hx. }
    { by rewrite Hs3 in Hx. }
    rewrite Nat.min_l in Hs4, Hby by done. specialize (Hby d eq_refl). rewrite Hs3 in Hs4, Hby. cbn [r_page] in Hs4, Hby.
    rewrite Hs4. cbn [andb r_used r_done r_page cbind]. rewrite Hs4. cbn [r_len].
    destruct (reply_free_spec s4 rid Hinv4) as (s5 & -> & Hinv5 & Hm5 & _ & _ & _ & Hfree). cbn [cbind].
    eexists _, _, s5. split; [done|]. split; [done|]. right. split; [done|]. split.
    { assert (∀ k, (k ≤ length d)%nat → take k (rbytes s4 !!! pg) = take k d) as Htk.
      { intros k Hk. transitivity (take k (take (length d) (rbytes s4 !!! pg))).
        - by rewrite take_take, Nat.min_l.
        - rewrite Hby, take_take. by rewrite Nat.min_l. }
      destruct (Nat.ltb_spec 0 (Nat.min (length d) out_len)).
      - rewrite Htk by lia. destruct (decide (length d ≤ out_len)%nat).
        + rewrite Nat.min_l, !take_ge by lia. done.
        + by rewrite Nat.min_r by lia.
      - destruct (decide (out_len = 0)%nat) as [->|]; [done|].
        assert (length d = 0)%nat as ->%nil_length_inv by lia. by rewrite take_nil. }
    exists (queue s1 i), rid. split_and!; [| |done].
    + rewrite <- Hm1. unfold mailbox. by rewrite Hidx.
    + rewrite Hm5, Hm4. unfold mailbox.
      change (port_idx_by_id_locked s3 id) with (port_idx_by_id_locked s2 id). rewrite Hix, Hidx. simpl. f_equal.
      etrans; [exact (Hq i)|]. by rewrite decide_True.
  - destruct Hr2 as (Hidx & Hfull & _). exfalso. pose proof (Hroom (queue s1 i)) as Hx.
    rewrite <- Hm1 in Hx. unfold mailbox in Hx. rewrite Hidx in Hx. specialize (Hx eq_refl). lia.
  - destruct (reply_free_spec s2 rid Hinv2) as (s3 & -> & Hinv3 & _). cbn [cbind].
    eexists _, _, s3. split; [done|]. split; [done|]. left. split; [|done].
    destruct Hr2 as (_ & _ & _ & _ & [[-> _]|[[-> _]| ->]]); unfold call_err; set_solver.
Qed.

Lemma reply_alloc_first s i s' :
  reply_alloc_locked s = Done (Some i, s') →
  first_from (λ k, negb (r_used (reply_ref s k))) 1 (MAX_REPLIES - 1) = Some i.
Proof.
  unfold reply_alloc_locked, alloc_reply_page. destruct (pa_alloc (pal s)) as [[pg|] a]; [|done].
  set (s0 := set_rbytes _ _).
  change (λ k, negb (r_used (reply_ref s0 k))) with (λ k, negb (r_used (reply_ref s k))).
  destruct (first_from _ 1 _); [intros [= -> _]; done|].
  destruct (ipc_free_page pg s0); done.
Qed.

(** A stale reply token answers somebody else.  A token is only the index
    of its slot: when a caller gives up (its slot is released) and another
    caller allocates a slot next, it gets the same index, so the late answer
    to the first call is accepted (not refused with ESRCH) and delivered to
    the second caller. *)
Theorem stale_token_misdelivers s i s1 s2 j s3 d :
  ipc_inv s → reply_alloc_locked s = Done (Some i, s1) → reply_free_locked i s1 = Done s2 →
  reply_alloc_locked s2 = Done (Some j, s3) → (0 < length d ≤ IPC_MSG_MAX)%nat →
  j = i ∧ ∃ s4, ipc_reply i (Some d) (length d) s3 = (Z.of_nat (length d), s4) ∧
    r_done (reply_ref s4 j) = true ∧
    take (length d) (rbytes s4 !!! r_page (reply_ref s4 j)) = d.
Proof.
  intros Hinv Ha Hfr Hb Hd.
  destruct (reply_alloc_spec s Hinv) as (r1 & s1' & Ha' & Hinv1 & _ & _ & _ & Hr1).
  rewrite Ha in Ha'. injection Ha' as <- <-. destruct Hr1 as (Hi & Hui & pg & Hslot & _ & Hoth & _).
  destruct (reply_free_spec s1 i Hinv1) as (s2' & Hfr' & Hinv2 & _ & _ & _ & Hoth2 & Hu2).
  rewrite Hfr in Hfr'. injection Hfr' as <-.
  assert (j = i) as ->.
  { apply reply_alloc_first in Ha, Hb. rewrite (first_from_ext _ (λ k, negb (r_used (reply_ref s k)))) in Hb; [congruence|].
    intros k _. destruct (decide (k = i)) as [->|]; [by rewrite Hu2, Hui|]. by rewrite Hoth2, Hoth. }
  split; [done|].
  destruct (reply_alloc_spec s2 Hinv2) as (r3 & s3' & Hb' & Hinv3 & _ & _ & _ & Hr3).
  rewrite Hb in Hb'. injection Hb' as <- <-. destruct Hr3 as (_ & _ & pg3 & Hslot3 & _).
  pose proof (ipc_reply_spec s3 i (Some d) (length d) Hinv3) as Hans.
  destruct (ipc_reply i (Some d) (length d) s3) as [n s4].
  destruct Hans as (_ & _ & _ & _ & [(_ & _ & Hx)|[(_ & _ & Hx)|(-> & _ & _ & _ & Hs4 & Hby & _)]]).
  { by intros ? [= <-]. }
  { destruct Hx as [|Hx]; [lia|]. by rewrite Hslot3 in Hx. }
  { by rewrite Hslot3 in Hx. }
  rewrite Nat.min_l in * by lia. exists s4. rewrite Hs4. split_and!; [done|done|].
  cbn [r_page]. rewrite (Hby d eq_refl). by apply take_ge.
Qed.
End claims.

(** ** Instances *)

Definition hi_buf : buffer := mkBuf 0 [104; 105].

Lemma ipc_send_refines_witness :
  ∃ s', ipc_send uv64 alone 1 1 hi_buf 7 5 i64_1 = Done (0, s') ∧ ipc_inv s' ∧ mailbox s' 1 = Some [message hi_buf 7 0 5] ∧
    wakes s' = wakes i64_1 ++ [(WRecv 0, 1)].
Proof.
  destruct (ipc_send_refines uv64 alone 1 1 hi_buf 7 5 i64_1) as (r & s' & H1 & H2 & H3).
  - exact uv64_ok.
  - exact i64_1_inv.
  - intros q Hq. rewrite mailbox64 in Hq. injection Hq as <-. vm_compute. lia.
  - lia.
  - change (IPC_MSG_MAX <? length (b_data hi_buf))%nat with false in H3. cbv iota in H3. rewrite mailbox64 in H3.
    assert (fst (pa_alloc (pal i64_1)) ≠ None) as Hal by (vm_compute; discriminate).
    assert (port_idx_by_id_locked i64_1 1 = Some 0%nat) as Hix by (vm_compute; reflexivity).
    generalize dependent i64_1. intros s H1 H3 Hal Hix.
    destruct (pa_alloc (pal s)) as [[pg|] a]; [|destruct (Hal eq_refl)].
    change (send_check uv64 hi_buf false a) with (true, a) in H3. destruct H3 as (-> & _ & _ & H3 & i & Hi & H4).
    rewrite Hix in Hi. injection Hi as <-. exists s'. split; [exact H1|]. split; [exact H2|]. split; [exact (H3 1)|exact H4].
Defined.

Definition i64_2 : ipc kmem := match ipc_send uv64 alone 1 1 hi_buf 7 5 i64_1 with Done (_, s) => s | _ => i64_1 end.

Lemma send64 : ipc_send uv64 alone 1 1 hi_buf 7 5 i64_1 = Done (0, i64_2).
Proof. vm_compute. reflexivity. Qed.

Lemma i64_2_inv : ipc_inv i64_2.
Proof.
  eapply (ipc_send_inv uv64 alone); [exact uv64_ok| |exact i64_1_inv|exact send64]. intros w s0 Hi. exact Hi.
Qed.

(** Create the port, send to it, take the message out. *)
Definition i64_p : ipc kmem := match post_locked uv64 1 hi_buf 7 0 5 false i64_1 with Done (_, s) => s | _ => i64_1 end.
Definition i64_3 : ipc kmem := (take_locked 1 i64_2).2.
Definition mail64 : Z := match (take_locked 1 i64_2).1 with Taken _ pg => pg | _ => 0 end.
Definition m64 : machine := mkMachine i64_3 [(mail64, msgs i64_2 !!! mail64)] [1].

Lemma post64 : post_locked uv64 1 hi_buf 7 0 5 false i64_1 = Done (Posted 0, i64_p).
Proof. vm_compute. reflexivity. Qed.
Lemma wake64 : i64_2 = futex_wake (WRecv 0) 1 i64_p.
Proof. vm_compute. reflexivity. Qed.
Lemma take64 : take_locked 1 i64_2 = (Taken 0 mail64, i64_3).
Proof. apply injective_projections; [vm_compute; reflexivity|reflexivity]. Qed.
Lemma mail64_is : msgs i64_2 !!! mail64 = message hi_buf 7 0 5.
Proof. vm_compute. reflexivity. Qed.

Lemma boot64_step : rtc (ipc_step uv64) (mkMachine (ipc0 boot64) [] []) m64.
Proof.
  eapply rtc_l; [apply (is_create uv64 log_name i64_0 1 i64_1 [] []); [by vm_compute|vm_compute; lia|exact create64]|]. change (0 <? 1) with true. cbv iota.
  eapply rtc_l; [apply (is_post uv64 1 hi_buf 7 0 5 false i64_1 (Posted 0) i64_p); [vm_compute; lia|exact post64]|].
  eapply rtc_l; [apply (is_wake uv64 (WRecv 0) 1)|]. rewrite <- wake64.
  eapply rtc_l; [apply (is_take uv64 1 0 mail64 i64_2 i64_3); exact take64|]. apply rtc_refl.
Qed.

Lemma mailbox64_2 : mailbox i64_2 1 = Some [message hi_buf 7 0 5].
Proof. vm_compute. reflexivity. Qed.
Lemma index64_2 : port_idx_by_id_locked i64_2 1 = Some 0%nat.
Proof. vm_compute. reflexivity. Qed.
#[local] Opaque i64_0 i64_1 i64_2 i64_3.

Lemma ipc_recv_refines_witness :
  ∃ s', ipc_recv_ex_impl uv64 alone 1 1 (Some 0) 100 true i64_2 = Done (2, 0, [104; 105], s') ∧ mailbox s' 1 = Some [] ∧
    wakes s' = wakes i64_2 ++ [(WSend 0, 1)].
Proof.
  destruct (ipc_recv_refines uv64 alone 1 1 (Some 0) 100 true i64_2 (message hi_buf 7 0 5) [] 0 uv64_ok i64_2_inv mailbox64_2 index64_2 ltac:(lia))
    as (pg & len & rid & out & s' & H1 & _ & _ & _ & _ & _ & H2 & H3 & H4).
  injection H4 as -> -> ->. exists s'. split; [exact H1|]. split; [exact (H2 1)|exact H3].
Defined.

Lemma ipc_fifo_witness :
  ∃ s'', recv_all uv64 alone 1 1 i64_2 = Done ([(2, [104; 105])], s'') ∧ mailbox s'' 1 = Some [].
Proof.
  assert (send_all uv64 alone 1 7 5 [hi_buf] i64_1 = Done ([0], i64_2)) as Hs by (vm_compute; reflexivity).
  refine (ipc_fifo uv64 alone 1 7 5 [hi_buf] i64_1 [0] i64_2 uv64_ok i64_1_inv _ mailbox64 _ Hs _).
  - intros b Hb. apply list_elem_of_singleton in Hb as ->. vm_compute. lia.
  - vm_compute. lia.
  - intros r Hr. by apply list_elem_of_singleton in Hr.
Defined.

(** A scheduler that lets nobody else touch the mailboxes. *)
Definition idle (w : wake) (s : ipc kmem) : bool * ipc kmem := (true, s).

Lemma ipc_send_blocks_witness :
  ∃ r s', ipc_send uv64 idle 1 1 hi_buf 7 5 i64_1 = Done (r, s') ∧ r ∈ [0; - ESRCH; - ENOMEM; - EFAULT].
Proof.
  destruct (ipc_send_blocks uv64 idle 1 0 1 hi_buf 7 5 i64_1) as (r & s' & H1 & _ & H2 & _).
  - exact uv64_ok.
  - intros w s0 Hi. exact Hi.
  - exact i64_1_inv.
  - vm_compute. lia.
  - intros q Hq. rewrite mailbox64 in Hq. injection Hq as <-. vm_compute. lia.
  - lia.
  - exists r, s'. split; [exact H1|exact H2].
Defined.

Lemma ipc_no_leak_witness : pa_own (pal i64_3) (mail64 :: owned i64_3) ∧ msgs i64_3 !!! mail64 = message hi_buf 7 0 5.
Proof.
  destruct (ipc_no_leak uv64 boot64 m64 uv64_ok holds_boot64 boot64_step) as (H1 & _ & H2 & _).
  split; [exact H1|]. rewrite <- mail64_is. apply H2. apply list_elem_of_here.
Defined.

Lemma create_connect_witness : ipc_connect (Some log_name) i64_1 = 1 ∧ (ipc_create (Some log_name) i64_1).1 = - EEXIST.
Proof.
  destruct (create_connect log_name i64_0 1 i64_1 i64_0_inv) as (H1 & H2 & _); [by vm_compute| |exact create64|lia|by split].
  vm_compute. lia.
Defined.

Lemma ipc_close_refines_witness : ∃ r s', ipc_close 1 i64_2 = Done (r, s') ∧ r = 0 ∧ mailbox s' 1 = None.
Proof.
  destruct (ipc_close_refines i64_2 1 i64_2_inv) as (r & s' & H1 & _ & H2). rewrite mailbox64_2 in H2.
  destruct H2 as (H3 & H4 & _). exists r, s'. split_and!; [exact H1|exact H3|].
  rewrite H4. by rewrite decide_True.
Defined.

(** A service that answers every call with "ok". *)
Definition answering (w : wake) (s : ipc kmem) : bool * ipc kmem :=
  match w with
  | WReply rid => (true, (ipc_reply rid (Some [111; 107]) 2 s).2)
  | _ => (false, s)
  end.

Lemma call_gets_answer_witness :
  ∃ r bytes s', ipc_call_impl uv64 answering 2 1 hi_buf 7 (Some 0) 10 true i64_1 = Done (r, bytes, s') ∧
    (call_err r ∨ r = 2 ∧ bytes = [111; 107]).
Proof.
  destruct (call_gets_answer uv64 answering 2 1 hi_buf 7 0 10 true [111; 107] i64_1) as (r & bytes & s' & H1 & _ & H2).
  - exact uv64_ok.
  - intros rid s0. reflexivity.
  - vm_compute. lia.
  - exact i64_1_inv.
  - intros q Hq. rewrite mailbox64 in Hq. injection Hq as <-. vm_compute. lia.
  - lia.
  - exists r, bytes, s'. split; [exact H1|]. destruct H2 as [[H2 _]|(H2 & H3 & _)]; [by left|right; by split].
Defined.

Definition st_1 : ipc kmem := match reply_alloc_locked i64_1 with Done (_, s) => s | _ => i64_1 end.
Definition st_2 : ipc kmem := match reply_free_locked 1 st_1 with Done s => s | _ => i64_1 end.
Definition st_3 : ipc kmem := match reply_alloc_locked st_2 with Done (_, s) => s | _ => i64_1 end.

Lemma st_1_eq : reply_alloc_locked i64_1 = Done (Some 1%nat, st_1).
Proof. vm_compute. reflexivity. Qed.
Lemma st_2_eq : reply_free_locked 1 st_1 = Done st_2.
Proof. vm_compute. reflexivity. Qed.
Lemma st_3_eq : reply_alloc_locked st_2 = Done (Some 1%nat, st_3).
Proof. vm_compute. reflexivity. Qed.
#[local] Opaque st_1 st_2 st_3.

Lemma stale_token_misdelivers_witness :
  ∃ s4, ipc_reply 1 (Some [111; 107]) 2 st_3 = (2, s4) ∧ r_done (reply_ref s4 1) = true.
Proof.
  destruct (stale_token_misdelivers i64_1 1 st_1 st_2 1 st_3 [111; 107] i64_1_inv st_1_eq st_2_eq st_3_eq)
    as (_ & s4 & H1 & H2 & _); [vm_compute; lia|].
  exists s4. split; [exact H1|exact H2].
Defined.
