(* ===== verification/Sched.v ===== *)
(** * Tasks, pids and run queues: [src/task.rs]

    The scheduler's state: the task table, one run queue per CPU (40 priority
    levels, each a list threaded through the tasks' [runqueue_next] fields,
    with a bitmap of the non-empty levels), the pid bitmap and the futex wait
    and wake calls that move tasks between blocked and ready.  Task fields
    that no modelled operation reads or writes (registers, address space,
    signals) are left out.  A critical section under the run-queue lock is one
    function; the context switch itself (assembly) is outside. *)

From S2P Require Import Prelude.
From stdpp Require Import base gmap numbers list.
Local Open Scope Z_scope.

Definition MAX_TASKS : nat := 64.
Definition PRIORITY_LEVELS : nat := 40.
Definition PRIORITY_LOWEST : nat := 39.
Definition MAX_CPUS : nat := 2.
Definition FUTEX_WAITERS : Z := 0x80000000.

Inductive TaskState := TEmpty | TReady | TRunning | TBlocked | TExited | TZombie.

#[export] Instance TaskState_eq : EqDecision TaskState.
Proof. solve_decision. Defined.

Definition state_eqb (a b : TaskState) : bool := bool_decide (a = b).

Record Task := mkTask {
  t_id : nat;
  t_state : TaskState;
  t_cpu : nat;
  t_prio : nat;
  t_static_prio : nat;
  t_next : option nat;
  t_blocked_on : Z;
  t_wakeup_tick : Z;
  t_futex_deadline : Z;
  t_pi_boosted : bool;
}.

Definition task_empty : Task := mkTask 0 TEmpty 0 20 20 None 0 0 0 false.
#[export] Instance Task_inhabited : Inhabited Task := populate task_empty.

Definition with_next (n : option nat) (t : Task) : Task :=
  mkTask (t_id t) (t_state t) (t_cpu t) (t_prio t) (t_static_prio t) n
    (t_blocked_on t) (t_wakeup_tick t) (t_futex_deadline t) (t_pi_boosted t).
Definition with_state (st : TaskState) (t : Task) : Task :=
  mkTask (t_id t) st (t_cpu t) (t_prio t) (t_static_prio t) (t_next t)
    (t_blocked_on t) (t_wakeup_tick t) (t_futex_deadline t) (t_pi_boosted t).
Definition with_prio (p : nat) (t : Task) : Task :=
  mkTask (t_id t) (t_state t) (t_cpu t) p (t_static_prio t) (t_next t)
    (t_blocked_on t) (t_wakeup_tick t) (t_futex_deadline t) (t_pi_boosted t).
Definition with_block (st : TaskState) (b w d : Z) (t : Task) : Task :=
  mkTask (t_id t) st (t_cpu t) (t_prio t) (t_static_prio t) (t_next t) b w d (t_pi_boosted t).
Definition with_boost (b : bool) (t : Task) : Task :=
  mkTask (t_id t) (t_state t) (t_cpu t) (t_prio t) (t_static_prio t) (t_next t)
    (t_blocked_on t) (t_wakeup_tick t) (t_futex_deadline t) b.

Record RunQueue := mkRunQueue {
  rq_bitmap : Z;
  rq_heads : list (option nat);
  rq_tails : list (option nat);
  nr_running : Z;
}.

Definition rq_new : RunQueue :=
  mkRunQueue 0 (replicate PRIORITY_LEVELS None) (replicate PRIORITY_LEVELS None) 0.
#[export] Instance RunQueue_inhabited : Inhabited RunQueue := populate rq_new.

Record sched := mkSched {
  tasks : list Task;
  runqueue : list RunQueue;
  pid_bitmap : Z;
}.

Definition set_tasks (ts : list Task) (s : sched) : sched := mkSched ts (runqueue s) (pid_bitmap s).
Definition set_rq (c : nat) (q : RunQueue) (s : sched) : sched :=
  mkSched (tasks s) (<[c := q]> (runqueue s)) (pid_bitmap s).
Definition set_bitmap (b : Z) (s : sched) : sched := mkSched (tasks s) (runqueue s) b.

(** ** Priorities *)

Definition nice_to_prio (nice : Z) : Z := w8 (nice + 20).
Definition prio_to_nice (prio : Z) : Z := prio - 20.

(** [8.saturating_sub(prio * 5 / 40)], at least 2. *)
Definition initial_time_slice (prio : Z) : Z :=
  let t := Z.max 0 (8 - prio * 5 / 40) in if t <? 2 then 2 else t.

(** ** Slots and pids *)

Definition task_idx (id : nat) : nat := if (MAX_TASKS <=? id)%nat then 0%nat else id.
Definition task_ref (s : sched) (id : nat) : Task := tasks s !!! task_idx id.
Definition upd_task (id : nat) (f : Task → Task) (s : sched) : sched :=
  set_tasks (<[task_idx id := f (task_ref s id)]> (tasks s)) s.

(** [u64::trailing_ones] and [u64::trailing_zeros]: 64 when there is none. *)
Definition trailing_ones (z : Z) : nat :=
  match first_from (λ i, negb (Z.testbit z (Z.of_nat i))) 0 64 with Some i => i | None => 64%nat end.
Definition trailing_zeros (z : Z) : nat :=
  match first_from (λ i, Z.testbit z (Z.of_nat i)) 0 64 with Some i => i | None => 64%nat end.

(** The candidate of one turn of the CAS loop of [alloc_pid_from]. *)
Definition pid_candidate (bm : Z) (min_slot : nat) : option nat :=
  let shifted := Z.shiftr bm (Z.of_nat min_slot) in
  let bit := if shifted =? U64_MAX then MAX_TASKS else (min_slot + trailing_ones shifted)%nat in
  if (MAX_TASKS <=? bit)%nat then None else Some bit.

(** A compare-exchange that finds [bm] unchanged succeeds; when another CPU
    changed the bitmap first the loop retries with what it saw. *)
Definition alloc_pid_from (min_slot : nat) (s : sched) : option nat * sched :=
  if (MAX_TASKS <=? min_slot)%nat then (None, s)
  else match pid_candidate (pid_bitmap s) min_slot with
       | None => (None, s)
       | Some bit => (Some bit, set_bitmap (Z.lor (pid_bitmap s) (Z.shiftl 1 (Z.of_nat bit))) s)
       end.

Definition alloc_pid_specific (slot : nat) (s : sched) : bool * sched :=
  if (MAX_TASKS <=? slot)%nat then (false, s)
  else
    let mask := Z.shiftl 1 (Z.of_nat slot) in
    if negb (Z.land (pid_bitmap s) mask =? 0) then (false, s)
    else (true, set_bitmap (Z.lor (pid_bitmap s) mask) s).

Definition alloc_kernel_pid (s : sched) : option nat * sched := alloc_pid_from 2 s.
Definition alloc_user_pid (s : sched) : option nat * sched := alloc_pid_from 1 s.

Definition free_pid (pid : nat) (s : sched) : sched :=
  if (pid =? 0)%nat || (MAX_TASKS <=? pid)%nat then s
  else set_bitmap (Z.ldiff (pid_bitmap s) (Z.shiftl 1 (Z.of_nat pid))) s.

(** ** Run queues *)

Definition rq_of (s : sched) (c : nat) : RunQueue := runqueue s !!! c.

Definition set_bit (p : nat) (bm : Z) : Z := Z.lor bm (Z.shiftl 1 (Z.of_nat p)).
Definition clear_bit (p : nat) (bm : Z) : Z := Z.ldiff bm (Z.shiftl 1 (Z.of_nat p)).

Definition enqueue_task (tid prio : nat) (s : sched) : comp sched :=
  let cpu := t_cpu (task_ref s tid) in
  if negb (cpu <? MAX_CPUS)%nat || negb (prio <? PRIORITY_LEVELS)%nat then Panic
  else
    let s := upd_task tid (with_next None) s in
    let rq := rq_of s cpu in
    match rq_tails rq !!! prio with
    | None =>
        Done (set_rq cpu (mkRunQueue (set_bit prio (rq_bitmap rq))
                (<[prio := Some tid]> (rq_heads rq)) (<[prio := Some tid]> (rq_tails rq))
                (w32 (nr_running rq + 1))) s)
    | Some tail_id =>
        let s := upd_task tail_id (with_next (Some tid)) s in
        Done (set_rq cpu (mkRunQueue (rq_bitmap rq) (rq_heads rq)
                (<[prio := Some tid]> (rq_tails rq)) (w32 (nr_running rq + 1))) s)
    end.

Definition dequeue_task (cpu : nat) (s : sched) : comp (option nat * sched) :=
  let rq := rq_of s cpu in
  if rq_bitmap rq =? 0 then Done (None, s)
  else
    let p := trailing_zeros (rq_bitmap rq) in
    if negb (p <? PRIORITY_LEVELS)%nat then Panic
    else match rq_heads rq !!! p with
    | None => Done (None, s)
    | Some tid =>
        let nx := t_next (task_ref s tid) in
        let s := upd_task tid (with_next None) s in
        let heads := <[p := nx]> (rq_heads rq) in
        let rq' := match nx with
                   | None => mkRunQueue (clear_bit p (rq_bitmap rq)) heads (<[p := None]> (rq_tails rq))
                               (w32 (nr_running rq - 1))
                   | Some _ => mkRunQueue (rq_bitmap rq) heads (rq_tails rq) (w32 (nr_running rq - 1))
                   end in
        Done (Some tid, set_rq cpu rq' s)
    end.

(** The walk of [remove_from_runqueue]: [prev] and [curr] as in the source. *)
Fixpoint remove_walk (fuel tid cpu prio : nat) (prev curr : option nat) (s : sched) : comp (bool * sched) :=
  match curr with
  | None => Done (false, s)
  | Some cid =>
      match fuel with
      | O => Spin
      | S f =>
          if (cid =? tid)%nat then
            let nx := t_next (task_ref s tid) in
            let rq := rq_of s cpu in
            let '(s, heads) := match prev with
                               | Some pid => (upd_task pid (with_next nx) s, rq_heads rq)
                               | None => (s, <[prio := nx]> (rq_heads rq))
                               end in
            let tails := if bool_decide (rq_tails rq !!! prio = Some tid)
                         then <[prio := prev]> (rq_tails rq) else rq_tails rq in
            let s := upd_task tid (with_next None) s in
            let bm := match heads !!! prio with
                      | None => clear_bit prio (rq_bitmap rq)
                      | Some _ => rq_bitmap rq
                      end in
            Done (true, set_rq cpu (mkRunQueue bm heads tails (w32 (nr_running rq - 1))) s)
          else remove_walk f tid cpu prio curr (t_next (task_ref s cid)) s
      end
  end.

(** A run queue has at most one entry per task slot. *)
Definition remove_from_runqueue (tid : nat) (s : sched) : comp (bool * sched) :=
  let cpu := t_cpu (task_ref s tid) in
  let prio := t_prio (task_ref s tid) in
  if negb (cpu <? MAX_CPUS)%nat || negb (prio <? PRIORITY_LEVELS)%nat then Panic
  else remove_walk MAX_TASKS tid cpu prio None (rq_heads (rq_of s cpu) !!! prio) s.

(** [cur] is [cur_task()], the task running on this CPU; 0 is the boot task. *)
Definition requeue_current (cur : nat) (s : sched) : comp sched :=
  if (cur =? 0)%nat then Done s
  else
    let t := task_ref s cur in
    if state_eqb (t_state t) TRunning || state_eqb (t_state t) TReady then
      enqueue_task cur (t_prio t) (upd_task cur (with_state TReady) s)
    else Done s.

(** ** Futexes *)

(** Blocking: everything [block_on_futex] does before it gives the CPU away. *)
Definition block_on_futex (cur : nat) (uaddr : Z) (s : sched) : comp (bool * sched) :=
  if (cur =? 0)%nat then Done (false, s)
  else
    let! (_, s) := remove_from_runqueue cur s in
    Done (true, upd_task cur (λ t, with_block TBlocked uaddr (t_wakeup_tick t) (t_futex_deadline t) t) s).

(** The same part of [futex_wait], once the word and the timeout are read. *)
Definition futex_wait_block (cur : nat) (uaddr deadline : Z) (s : sched) : comp sched :=
  let! (_, s) := remove_from_runqueue cur s in
  Done (upd_task cur (with_block TBlocked uaddr deadline deadline) s).

(** And the part after it runs again. *)
Definition futex_wait_resume (cur : nat) (s : sched) : bool * sched :=
  if negb (t_futex_deadline (task_ref s cur) =? 0)
  then (true, upd_task cur (λ t, with_block (t_state t) (t_blocked_on t) (t_wakeup_tick t) 0 t) s)
  else (false, s).

(** The deadline of a relative timeout, in PIT ticks of 20 ms. *)
Definition futex_deadline (now sec nsec : Z) : Z :=
  let total_ns := if (sec <? 0) || (nsec <? 0) then 0
                  else Z.min U64_MAX (Z.min U64_MAX (sec * 1000000000) + nsec) in
  Z.min U64_MAX (now + w64 (total_ns + 19999999) / 20000000).

Definition waits_on (uaddr : Z) (t : Task) : bool :=
  state_eqb (t_state t) TBlocked && (t_blocked_on t =? uaddr) && negb (t_id t =? 0)%nat.

Fixpoint futex_wake_loop (n i : nat) (uaddr max_wake woken : Z) (s : sched) : comp (Z * sched) :=
  match n with
  | O => Done (woken, s)
  | S n' =>
      if max_wake <=? woken then Done (woken, s)
      else if waits_on uaddr (tasks s !!! i) then
        let s := set_tasks (<[i := with_block TReady 0 0 0 (tasks s !!! i)]> (tasks s)) s in
        let! s := enqueue_task (t_id (tasks s !!! i)) (t_prio (tasks s !!! i)) s in
        futex_wake_loop n' (S i) uaddr max_wake (woken + 1) s
      else futex_wake_loop n' (S i) uaddr max_wake woken s
  end.

Definition futex_wake (uaddr max_wake : Z) (s : sched) : comp (Z * sched) :=
  futex_wake_loop MAX_TASKS 0 uaddr max_wake 0 s.

(** The timer interrupt wakes the sleepers whose deadline has passed. *)
Definition sleep_over (now : Z) (t : Task) : bool :=
  state_eqb (t_state t) TBlocked && (0 <? t_wakeup_tick t) && (t_wakeup_tick t <=? now) && negb (t_id t =? 0)%nat.

Fixpoint wakeup_loop (n i : nat) (now : Z) (s : sched) : comp sched :=
  match n with
  | O => Done s
  | S n' =>
      if sleep_over now (tasks s !!! i) then
        let t := tasks s !!! i in
        let s := set_tasks (<[i := with_block TReady (t_blocked_on t) 0 (t_futex_deadline t) t]> (tasks s)) s in
        let! s := enqueue_task (t_id (tasks s !!! i)) (t_prio (tasks s !!! i)) s in
        wakeup_loop n' (S i) now s
      else wakeup_loop n' (S i) now s
  end.

Definition wakeup_expired_sleepers (now : Z) (s : sched) : comp sched := wakeup_loop MAX_TASKS 0 now s.

(** ** Picking the next task *)

(** [schedule_inner] from the pick to the switch: the task to switch to, or
    [None] when it returns to the current task.  The idle loop of the source
    waits for interrupts; here it ends with the empty queue. *)
Inductive pick := Switch (next : nat) | Stay | Idle.

Definition schedule_pick (cpu cur : nat) (s : sched) : comp (pick * sched) :=
  let! (first, s) := dequeue_task cpu s in
  match first with
  | None => Done (Idle, s)
  | Some id =>
      if negb (id =? cur)%nat then Done (Switch id, s)
      else
        let! (second, s) := dequeue_task cpu s in
        match second with
        | Some other =>
            if negb (other =? cur)%nat then Done (Switch other, s)
            else
              let! s := enqueue_task other (t_prio (task_ref s other)) s in
              let! s := enqueue_task cur (t_prio (task_ref s cur)) s in
              Done (Stay, upd_task cur (with_state TRunning) s)
        | None =>
            let! s := enqueue_task cur (t_prio (task_ref s cur)) s in
            Done (Stay, upd_task cur (with_state TRunning) s)
        end
  end.

(** Putting the outgoing task back and marking the incoming one running. *)
Definition schedule_out (cur : nat) (s : sched) : comp sched :=
  if (cur =? 0)%nat then Done s
  else
    let t := task_ref s cur in
    if state_eqb (t_state t) TRunning
    then enqueue_task cur (t_prio t) (upd_task cur (with_state TReady) s)
    else if state_eqb (t_state t) TReady then enqueue_task cur (t_prio t) s
    else Done s.

Definition schedule_inner (cpu cur : nat) (s : sched) : comp (pick * sched) :=
  let! (p, s) := schedule_pick cpu cur s in
  match p with
  | Switch next =>
      let! s := schedule_out cur s in
      Done (Switch next, upd_task next (with_state TRunning) s)
  | _ => Done (p, s)
  end.

(** ** Priority inheritance *)

(** The part of [futex_lock_pi] after the word was found held by [owner]. *)
Definition lock_pi_block (cur owner : nat) (uaddr : Z) (s : sched) : comp sched :=
  let our_prio := t_prio (task_ref s cur) in
  let! s :=
    if negb (state_eqb (t_state (task_ref s owner)) TEmpty) && (our_prio <? t_prio (task_ref s owner))%nat then
      let! (_, s) := remove_from_runqueue owner s in
      let s := upd_task owner (λ t, with_boost true (with_prio our_prio t)) s in
      if state_eqb (t_state (task_ref s owner)) TReady then enqueue_task owner our_prio s else Done s
    else Done s in
  Done (upd_task cur (λ t, with_block TBlocked uaddr (t_wakeup_tick t) (t_futex_deadline t) t) s).

(** The waiter [futex_unlock_pi] hands the lock to: the first of the highest
    priority. *)
Fixpoint best_waiter (n i : nat) (uaddr : Z) (best : option (nat * nat)) (s : sched) : option (nat * nat) :=
  match n with
  | O => best
  | S n' =>
      let t := tasks s !!! i in
      let best' := if waits_on uaddr t then
                     match best with
                     | None => Some (t_id t, t_prio t)
                     | Some (_, bp) => if (t_prio t <? bp)%nat then Some (t_id t, t_prio t) else best
                     end
                   else best in
      best_waiter n' (S i) uaddr best' s
  end.

(** The new value of the futex word and the state. *)
Definition futex_unlock_pi (cur : nat) (uaddr : Z) (s : sched) : comp (Z * sched) :=
  let! s :=
    if t_pi_boosted (task_ref s cur) then
      let old_prio := t_prio (task_ref s cur) in
      let s := upd_task cur (λ t, with_prio (t_static_prio t) (with_boost false t)) s in
      if state_eqb (t_state (task_ref s cur)) TReady && negb (old_prio =? t_prio (task_ref s cur))%nat then
        let! (_, s) := remove_from_runqueue cur s in
        enqueue_task cur (t_prio (task_ref s cur)) s
      else Done s
    else Done s in
  match best_waiter MAX_TASKS 0 uaddr None s with
  | Some (w, _) =>
      let s := upd_task w (with_block TReady 0 0 0) s in
      let! s := enqueue_task w (t_prio (task_ref s w)) s in
      Done (Z.lor (Z.of_nat w) FUTEX_WAITERS, s)
  | None => Done (0, s)
  end.

Definition sched0 : sched := mkSched (replicate MAX_TASKS task_empty) (replicate MAX_CPUS rq_new) 1.
