(* ===== verification/SchedInv.v ===== *)
(** * The run queues as lists

    The invariant of the run queues: behind every CPU and priority there is a
    list of distinct tasks of that CPU and priority; the heads, the tails, the
    [runqueue_next] fields, the bitmap and the count all describe it.  The
    queue operations are list operations. *)

From S2P Require Import Prelude Sched.
From stdpp Require Import base gmap numbers list.
Local Open Scope Z_scope.

Lemma levels_lt_64 : (PRIORITY_LEVELS < 64)%nat.
Proof. unfold PRIORITY_LEVELS. lia. Qed.
Lemma max_tasks_64 : MAX_TASKS = 64%nat.
Proof. done. Qed.
#[local] Opaque MAX_TASKS PRIORITY_LEVELS MAX_CPUS.

Definition queues := nat → nat → list nat.

Definition upd2 (q : queues) (c p : nat) (l : list nat) : queues :=
  λ c' p', if decide (c' = c ∧ p' = p) then l else q c' p'.

Lemma upd2_eq q c p l : upd2 q c p l c p = l.
Proof. unfold upd2. by rewrite decide_True. Qed.
Lemma upd2_ne q c p l c' p' : ¬ (c' = c ∧ p' = p) → upd2 q c p l c' p' = q c' p'.
Proof. intros. unfold upd2. by rewrite decide_False. Qed.

(** The length of all queues of a CPU. *)
Definition qtotal (q : queues) (c : nat) : nat := length (seq 0 PRIORITY_LEVELS ≫= q c).

(** [l] is threaded through the [runqueue_next] fields. *)
Definition threaded (ts : list Task) (l : list nat) : Prop :=
  ∀ i a, l !! i = Some a → t_next (ts !!! a) = l !! S i.

Record rq_wf (s : sched) (q : queues) : Prop := {
  rw_tasks : length (tasks s) = MAX_TASKS;
  rw_cpus : length (runqueue s) = MAX_CPUS;
  rw_heads : ∀ c p, (c < MAX_CPUS)%nat → (p < PRIORITY_LEVELS)%nat →
    rq_heads (rq_of s c) !!! p = head (q c p) ∧ rq_tails (rq_of s c) !!! p = last (q c p);
  rw_lens : ∀ c, (c < MAX_CPUS)%nat → length (rq_heads (rq_of s c)) = PRIORITY_LEVELS ∧
    length (rq_tails (rq_of s c)) = PRIORITY_LEVELS;
  rw_next : ∀ c p, threaded (tasks s) (q c p);
  rw_bits : ∀ c i, (c < MAX_CPUS)%nat →
    Z.testbit (rq_bitmap (rq_of s c)) (Z.of_nat i) = bool_decide ((i < PRIORITY_LEVELS)%nat ∧ q c i ≠ []);
  rw_nonneg : ∀ c, (c < MAX_CPUS)%nat → 0 ≤ rq_bitmap (rq_of s c);
  rw_count : ∀ c, (c < MAX_CPUS)%nat → nr_running (rq_of s c) = Z.of_nat (qtotal q c);
  rw_in : ∀ c p a, a ∈ q c p → (c < MAX_CPUS)%nat ∧ (p < PRIORITY_LEVELS)%nat ∧ (0 < a < MAX_TASKS)%nat ∧
    t_cpu (tasks s !!! a) = c ∧ t_prio (tasks s !!! a) = p;
  rw_nodup : ∀ c p, NoDup (q c p);
}.

(** Two states whose tasks differ in the queue links only. *)
Definition links_only (s s' : sched) : Prop :=
  length (tasks s') = length (tasks s) ∧ pid_bitmap s' = pid_bitmap s ∧
  ∀ i, with_next None (tasks s' !!! i) = with_next None (tasks s !!! i).

#[export] Instance links_only_preorder : PreOrder links_only.
Proof.
  split; [by intros s|]. intros s1 s2 s3 (? & ? & H12) (? & ? & H23).
  split_and!; [congruence|congruence|]. intros i. by rewrite H23.
Qed.

Lemma links_fields s s' i : links_only s s' →
  t_id (tasks s' !!! i) = t_id (tasks s !!! i) ∧ t_state (tasks s' !!! i) = t_state (tasks s !!! i) ∧
  t_cpu (tasks s' !!! i) = t_cpu (tasks s !!! i) ∧ t_prio (tasks s' !!! i) = t_prio (tasks s !!! i) ∧
  t_blocked_on (tasks s' !!! i) = t_blocked_on (tasks s !!! i).
Proof.
  intros (_ & _ & H). specialize (H i).
  by injection H as -> -> -> -> _ -> _ _ _.
Qed.

(** ** Updating one task *)

Lemma task_idx_small a : (a < MAX_TASKS)%nat → task_idx a = a.
Proof. intros. unfold task_idx. by rewrite (proj2 (Nat.leb_gt _ _)). Qed.

Lemma upd_task_lookup s a f i :
  length (tasks s) = MAX_TASKS → (a < MAX_TASKS)%nat →
  tasks (upd_task a f s) !!! i = if decide (a = i) then f (tasks s !!! a) else tasks s !!! i.
Proof.
  intros Hl Ha. unfold upd_task, task_ref. rewrite task_idx_small by done. cbn. case_decide as Hd.
  - subst i. apply list_lookup_total_insert_eq. by rewrite Hl.
  - by apply list_lookup_total_insert_ne.
Qed.

Lemma upd_task_length s a f : length (tasks (upd_task a f s)) = length (tasks s).
Proof. cbn. apply length_insert. Qed.

Lemma links_next s a n : length (tasks s) = MAX_TASKS → (a < MAX_TASKS)%nat → links_only s (upd_task a (with_next n) s).
Proof.
  intros Hl Ha. split_and!; [apply upd_task_length|done|]. intros i.
  rewrite upd_task_lookup by done. case_decide; by subst.
Qed.

Lemma links_rq s c q : links_only s (set_rq c q s).
Proof. by split_and!. Qed.

(** ** Bits *)

Lemma testbit_set bm p i : 0 ≤ bm → Z.testbit (set_bit p bm) (Z.of_nat i) = bool_decide (i = p) || Z.testbit bm (Z.of_nat i).
Proof.
  intros. unfold set_bit. rewrite Z.lor_spec, orb_comm. f_equal. rewrite Z.shiftl_1_l, Z.pow2_bits_eqb by lia.
  destruct (decide (i = p)) as [->|]; [by rewrite bool_decide_true, Z.eqb_refl|].
  rewrite bool_decide_false by done. apply Z.eqb_neq. lia.
Qed.

Lemma testbit_clear bm p i : 0 ≤ bm →
  Z.testbit (clear_bit p bm) (Z.of_nat i) = negb (bool_decide (i = p)) && Z.testbit bm (Z.of_nat i).
Proof.
  intros. unfold clear_bit. rewrite Z.ldiff_spec, andb_comm. f_equal. rewrite Z.shiftl_1_l, Z.pow2_bits_eqb by lia.
  destruct (decide (i = p)) as [->|]; [by rewrite bool_decide_true, Z.eqb_refl|].
  rewrite bool_decide_false by done. f_equal. apply Z.eqb_neq. lia.
Qed.

Lemma set_bit_nonneg bm p : 0 ≤ bm → 0 ≤ set_bit p bm.
Proof. intros. unfold set_bit. apply Z.lor_nonneg. split; [done|]. rewrite Z.shiftl_1_l. apply Z.pow_nonneg. lia. Qed.

Lemma clear_bit_nonneg bm p : 0 ≤ bm → 0 ≤ clear_bit p bm.
Proof. intros. unfold clear_bit. apply Z.ldiff_nonneg. by left. Qed.

(** ** Totals *)

Lemma bind_upd2 (q : queues) c p l L :
  p ∉ L → (L ≫= upd2 q c p l c) = L ≫= q c.
Proof.
  induction L as [|x L IH]; intros Hp; [done|]. rewrite !bind_cons.
  rewrite upd2_ne by (intros [_ ->]; apply Hp, list_elem_of_here). f_equal. apply IH.
  intros Hx. by apply Hp, list_elem_of_further.
Qed.

Lemma qtotal_upd q c p l : (p < PRIORITY_LEVELS)%nat →
  (qtotal (upd2 q c p l) c + length (q c p) = qtotal q c + length l)%nat.
Proof.
  intros Hp. unfold qtotal.
  replace (seq 0 PRIORITY_LEVELS) with (seq 0 p ++ p :: seq (S p) (PRIORITY_LEVELS - S p)).
  2: { replace PRIORITY_LEVELS with (p + S (PRIORITY_LEVELS - S p))%nat at 2 by lia. by rewrite seq_app. }
  rewrite !bind_app, !bind_cons, !bind_upd2, upd2_eq, !length_app; [lia|..]; rewrite elem_of_seq; lia.
Qed.

Lemma qtotal_other q c p l c' : c' ≠ c → qtotal (upd2 q c p l) c' = qtotal q c'.
Proof.
  intros Hc. unfold qtotal. f_equal. induction (seq 0 PRIORITY_LEVELS) as [|x L IH]; [done|].
  rewrite !bind_cons, IH. by rewrite upd2_ne by (intros [-> _]; done).
Qed.

(** The tasks in the queues of one CPU are distinct. *)
Lemma qtotal_bound s q c : rq_wf s q → (qtotal q c ≤ MAX_TASKS)%nat.
Proof.
  intros Hwf. unfold qtotal.
  assert ((seq 0 PRIORITY_LEVELS ≫= q c) ⊆+ seq 0 MAX_TASKS) as Hs%submseteq_length; [|by rewrite length_seq in Hs].
  apply NoDup_submseteq.
  - apply NoDup_bind; [|intros; apply (rw_nodup _ _ Hwf)|apply NoDup_seq].
    intros p1 p2 a _ _ H1 H2. apply (rw_in _ _ Hwf) in H1 as (_ & _ & _ & _ & <-).
    by apply (rw_in _ _ Hwf) in H2 as (_ & _ & _ & _ & <-).
  - intros a (p & Ha & _)%list_elem_of_bind. apply (rw_in _ _ Hwf) in Ha as (_ & _ & ? & _). apply elem_of_seq. lia.
Qed.

Lemma trailing_zeros_spec bm p :
  (p < 64)%nat → Z.testbit bm (Z.of_nat p) = true → (∀ i, (i < p)%nat → Z.testbit bm (Z.of_nat i) = false) →
  trailing_zeros bm = p.
Proof.
  intros Hp Hb Hlt. unfold trailing_zeros.
  assert (first_from (λ i, Z.testbit bm (Z.of_nat i)) 0 64 = Some p) as ->; [|done].
  apply first_from_Some. split_and!; [lia|lia|done|]. intros k Hk. apply Hlt. lia.
Qed.

(** ** Changing one queue *)

Lemma threaded_ext ts ts' l :
  (∀ a, a ∈ l → t_next (ts' !!! a) = t_next (ts !!! a)) → threaded ts l → threaded ts' l.
Proof. intros Heq Ht i a Hi. rewrite Heq by (by eapply list_elem_of_lookup_2). by apply Ht. Qed.

Lemma rq_wf_upd s q s' c p l rq' :
  rq_wf s q → (c < MAX_CPUS)%nat → (p < PRIORITY_LEVELS)%nat → links_only s s' →
  runqueue s' = <[c := rq']> (runqueue s) →
  rq_heads rq' = <[p := head l]> (rq_heads (rq_of s c)) →
  rq_tails rq' = <[p := last l]> (rq_tails (rq_of s c)) →
  (∀ i, Z.testbit (rq_bitmap rq') (Z.of_nat i) =
     if decide (i = p) then bool_decide (l ≠ []) else Z.testbit (rq_bitmap (rq_of s c)) (Z.of_nat i)) →
  0 ≤ rq_bitmap rq' →
  nr_running rq' = nr_running (rq_of s c) + Z.of_nat (length l) - Z.of_nat (length (q c p)) →
  threaded (tasks s') l →
  (∀ c' p' a, a ∈ q c' p' → ¬ (c' = c ∧ p' = p) → t_next (tasks s' !!! a) = t_next (tasks s !!! a)) →
  NoDup l → (∀ a, a ∈ l → (0 < a < MAX_TASKS)%nat ∧ t_cpu (tasks s !!! a) = c ∧ t_prio (tasks s !!! a) = p) →
  rq_wf s' (upd2 q c p l).
Proof.
  intros Hwf Hc Hp Hl Hrq Hh Ht Hb Hbn Hn Hth Hoth Hnd Hin.
  pose proof Hwf as [W1 W2 W3 W4 W5 W6 W7 W8 W9 W10].
  assert (∀ c', rq_of s' c' = if decide (c' = c) then rq' else rq_of s c') as Hof.
  { intros c'. unfold rq_of. rewrite Hrq. case_decide as Hd; [subst; apply list_lookup_total_insert_eq; by rewrite W2|].
    by apply list_lookup_total_insert_ne. }
  assert (∀ c' p' a, a ∈ upd2 q c p l c' p' → (c' = c ∧ p' = p ∧ a ∈ l) ∨ (¬ (c' = c ∧ p' = p) ∧ a ∈ q c' p')) as Hcase.
  { intros c' p' a. unfold upd2. case_decide as Hd; [by left; naive_solver|by right]. }
  destruct (W4 c Hc) as [Wh Wt]. split.
  - destruct Hl as (-> & _). done.
  - rewrite Hrq. by rewrite length_insert.
  - intros c' p' Hc' Hp'. rewrite Hof. case_decide as Hd; [subst c'|].
    + rewrite Hh, Ht. destruct (decide (p' = p)) as [->|].
      * rewrite upd2_eq, !list_lookup_total_insert_eq by lia. done.
      * rewrite upd2_ne, !list_lookup_total_insert_ne by naive_solver. by apply W3.
    + rewrite upd2_ne by naive_solver. by apply W3.
  - intros c' Hc'. rewrite Hof. case_decide; [rewrite Hh, Ht, !length_insert; done|by apply W4].
  - intros c' p'. unfold upd2. case_decide; [done|]. eapply threaded_ext; [|apply W5]. intros a Ha. by eapply Hoth.
  - intros c' i Hc'. rewrite Hof. case_decide as Hd; [subst c'|rewrite upd2_ne by naive_solver; by apply W6].
    rewrite Hb. destruct (decide (i = p)) as [->|].
    + rewrite upd2_eq. apply bool_decide_ext. naive_solver.
    + rewrite upd2_ne by naive_solver. by apply W6.
  - intros c' Hc'. rewrite Hof. case_decide; [done|by apply W7].
  - intros c' Hc'. rewrite Hof. case_decide as Hd; [subst c'|rewrite qtotal_other by done; by apply W8].
    rewrite Hn, (W8 c Hc). pose proof (qtotal_upd q c p l Hp). lia.
  - intros c' p' a Ha. destruct (links_fields s s' a Hl) as (_ & _ & -> & -> & _).
    destruct (Hcase c' p' a Ha) as [(-> & -> & Hal)|[_ Hq]]; [|by apply W9]. destruct (Hin a Hal) as (? & ? & ?).
    naive_solver.
  - intros c' p'. unfold upd2. case_decide; [done|apply W10].
Qed.

Definition unqueued (q : queues) (a : nat) : Prop := ∀ c p, a ∉ q c p.

Lemma queued_at s q a c p : rq_wf s q → a ∈ q c p → c = t_cpu (tasks s !!! a) ∧ p = t_prio (tasks s !!! a).
Proof. intros Hwf Ha. by apply (rw_in _ _ Hwf) in Ha as (_ & _ & _ & <- & <-). Qed.

Lemma threaded_app ts ts' l a :
  threaded ts l → NoDup (l ++ [a]) → t_next (ts' !!! a) = None →
  (∀ b, b ∈ l → t_next (ts' !!! b) = if decide (last l = Some b) then Some a else t_next (ts !!! b)) →
  threaded ts' (l ++ [a]).
Proof.
  intros Ht Hnd Ha Hb i x Hi. destruct (decide (i < length l)%nat) as [Hlt|Hge].
  - rewrite lookup_app_l in Hi by done. pose proof (list_elem_of_lookup_2 _ _ _ Hi) as Hx.
    rewrite Hb by done. destruct (decide (S i < length l)%nat) as [Hs|Hs].
    + rewrite decide_False; [rewrite lookup_app_l by done; by apply Ht|].
      intros Hlast. apply list.NoDup_app in Hnd as (Hnd & _). rewrite last_lookup in Hlast.
      pose proof (NoDup_lookup _ _ _ _ Hnd Hi Hlast). lia.
    + rewrite decide_True; [|rewrite last_lookup; by replace (pred (length l)) with i by lia].
      rewrite lookup_app_r by lia. by replace (S i - length l)%nat with 0%nat by lia.
  - pose proof (lookup_lt_Some _ _ _ Hi) as Hlen. rewrite length_app in Hlen. cbn in Hlen.
    assert (i = length l) as -> by lia. rewrite lookup_app_r, Nat.sub_diag in Hi by lia. injection Hi as <-.
    rewrite Ha, lookup_ge_None_2; [done|]. rewrite length_app. cbn. lia.
Qed.

(** [enqueue_task] appends. *)
Lemma enqueue_spec s q a c p :
  rq_wf s q → (0 < a < MAX_TASKS)%nat → unqueued q a →
  t_cpu (tasks s !!! a) = c → t_prio (tasks s !!! a) = p → (c < MAX_CPUS)%nat → (p < PRIORITY_LEVELS)%nat →
  ∃ s', enqueue_task a p s = Done s' ∧ links_only s s' ∧ rq_wf s' (upd2 q c p (q c p ++ [a])).
Proof.
  intros Hwf Ha Hun Hcpu Hprio Hc Hp. pose proof Hwf as [W1 W2 W3 W4 W5 W6 W7 W8 W9 W10].
  unfold enqueue_task, task_ref. rewrite task_idx_small by lia. rewrite Hcpu.
  rewrite (proj2 (Nat.ltb_lt _ _) Hc), (proj2 (Nat.ltb_lt _ _) Hp). cbn [negb orb].
  set (s1 := upd_task a (with_next None) s).
  assert (links_only s s1) as L1 by (apply links_next; [done|lia]).
  change (rq_of s1 c) with (rq_of s c). destruct (W3 c p Hc Hp) as [Hh Ht]. rewrite Ht.
  assert (NoDup (q c p ++ [a])) as Hnd.
  { apply list.NoDup_app. split_and!; [apply W10| |apply NoDup_singleton].
    intros x Hx ->%list_elem_of_singleton. by apply (Hun c p). }
  assert (∀ x, x ∈ q c p ++ [a] → (0 < x < MAX_TASKS)%nat ∧ t_cpu (tasks s !!! x) = c ∧ t_prio (tasks s !!! x) = p) as Hin.
  { intros x [Hx| ->%list_elem_of_singleton]%elem_of_app; [|done]. by apply W9 in Hx as (_ & _ & ? & ? & ?). }
  pose proof (qtotal_bound s q c Hwf) as Htot. rewrite max_tasks_64 in Htot.
  assert (w32 (nr_running (rq_of s c) + 1) =
    nr_running (rq_of s c) + Z.of_nat (length (q c p ++ [a])) - Z.of_nat (length (q c p))) as Hcnt.
  { rewrite (W8 c Hc), length_app. unfold w32. rewrite Z.mod_small by lia. cbn [length]. lia. }
  assert (∀ c' p' x, x ∈ q c' p' → x ≠ a) as Hne by (intros c' p' x Hx ->; by apply (Hun c' p')).
  destruct (last (q c p)) as [tl|] eqn:Hl.
  - apply last_Some in Hl as Hl'. destruct Hl' as [l0 Hl0].
    assert (tl ∈ q c p) as Htl by (rewrite Hl0; apply elem_of_app; right; apply list_elem_of_here).
    pose proof (Hin tl) as Htl'. destruct Htl' as (Htb & _); [apply elem_of_app; by left|].
    eexists. split; [done|].
    assert (links_only s1 (upd_task tl (with_next (Some a)) s1)) as L2.
    { apply links_next; [unfold s1; by rewrite upd_task_length|lia]. }
    assert (∀ x, t_next (tasks (upd_task tl (with_next (Some a)) s1) !!! x) =
      if decide (tl = x) then Some a else if decide (a = x) then None else t_next (tasks s !!! x)) as Hnx.
    { intros x. rewrite upd_task_lookup by (unfold s1; rewrite ?upd_task_length; done || lia).
      case_decide; [done|]. unfold s1. rewrite upd_task_lookup by (done || lia). by case_decide. }
    split; [etrans; [exact L1|]; etrans; [exact L2|apply links_rq]|].
    eapply (rq_wf_upd s q _ c p (q c p ++ [a])); [exact Hwf|done|done|etrans; [exact L1|]; etrans; [exact L2|apply links_rq]|reflexivity|..].
    + cbn. assert (head (q c p ++ [a]) = head (q c p)) as -> by (rewrite Hl0; by destruct l0).
      rewrite <- Hh. symmetry. apply list_insert_id. apply list_lookup_lookup_total_lt. destruct (W4 c Hc). lia.
    + cbn. by rewrite last_snoc.
    + intros i. cbn. rewrite (W6 c i Hc). case_decide as Hd; [subst i|done].
      rewrite bool_decide_true by (split; [done|rewrite Hl0; by destruct l0]). symmetry. apply bool_decide_true. by destruct (q c p).
    + by apply W7.
    + exact Hcnt.
    + eapply (threaded_app (tasks s)); [apply W5|done| |].
      * cbn [tasks set_rq]. rewrite Hnx, decide_False, decide_True; [done|done|]. intros ->. by apply (Hne c p a).
      * intros b Hb. cbn [tasks set_rq]. rewrite Hnx. destruct (decide (tl = b)) as [->|]; [by rewrite decide_True|].
        rewrite decide_False by (intros ->; by apply (Hne c p b)). rewrite decide_False; [done|congruence].
    + intros c' p' x Hx Hcp. cbn [tasks set_rq]. rewrite Hnx, decide_False, decide_False; [done| |].
      * intros ->. by apply (Hne c' p' x).
      * intros ->. apply Hcp. pose proof (queued_at _ _ _ _ _ Hwf Hx). pose proof (queued_at _ _ _ _ _ Hwf Htl). naive_solver.
    + done.
    + done.
  - apply last_None in Hl. eexists. split; [done|]. split; [etrans; [exact L1|apply links_rq]|].
    assert (∀ x, t_next (tasks s1 !!! x) = if decide (a = x) then None else t_next (tasks s !!! x)) as Hnx.
    { intros x. unfold s1. rewrite upd_task_lookup by (done || lia). by case_decide. }
    eapply (rq_wf_upd s q _ c p (q c p ++ [a])); [exact Hwf|done|done|etrans; [exact L1|apply links_rq]|reflexivity|..];
      rewrite ?Hl in *; cbn [rq_heads rq_tails rq_bitmap nr_running tasks set_rq app head last].
    + done.
    + done.
    + intros i. rewrite testbit_set by (by apply W7). destruct (decide (i = p)) as [->|Hd].
      * by rewrite !bool_decide_true by done.
      * by rewrite bool_decide_false by done.
    + by apply set_bit_nonneg, W7.
    + exact Hcnt.
    + intros [|i] x; [|done]. intros [= <-]. by rewrite Hnx, decide_True.
    + intros c' p' x Hx _. rewrite Hnx, decide_False; [done|]. intros ->. by apply (Hne c' p' x).
    + apply NoDup_singleton.
    + done.
Qed.

(** ** Taking a task off its queue *)

Lemma queue_out s q c p : rq_wf s q → ¬ (p < PRIORITY_LEVELS)%nat → q c p = [].
Proof.
  intros Hwf Hp. destruct (q c p) as [|a l] eqn:Hq; [done|].
  assert (a ∈ q c p) as Ha by (rewrite Hq; apply list_elem_of_here).
  by apply (rw_in _ _ Hwf) in Ha as (_ & ? & _).
Qed.

(** The lowest set bit of the bitmap is the highest non-empty priority. *)
Lemma bitmap_first s q c : rq_wf s q → (c < MAX_CPUS)%nat →
  (rq_bitmap (rq_of s c) = 0 ∧ ∀ p, q c p = []) ∨
  (rq_bitmap (rq_of s c) ≠ 0 ∧ ∃ p, (p < PRIORITY_LEVELS)%nat ∧ trailing_zeros (rq_bitmap (rq_of s c)) = p ∧
     q c p ≠ [] ∧ ∀ p', (p' < p)%nat → q c p' = []).
Proof.
  intros Hwf Hc. pose proof (rw_bits _ _ Hwf c) as Hb. pose proof levels_lt_64 as Hlv.
  assert (∀ i, Z.testbit (rq_bitmap (rq_of s c)) (Z.of_nat i) = false → q c i = []) as Hz.
  { intros i Hi. rewrite Hb in Hi by done. apply bool_decide_eq_false in Hi.
    destruct (decide (i < PRIORITY_LEVELS)%nat); [|by eapply queue_out].
    destruct (q c i); [done|]. exfalso. by apply Hi. }
  destruct (first_from (λ i, Z.testbit (rq_bitmap (rq_of s c)) (Z.of_nat i)) 0 64) as [p|] eqn:Hf.
  - right. apply first_from_Some in Hf as (Hp & Hbit & Hmin).
    split; [intros H0; by rewrite H0, Z.bits_0 in Hbit|].
    pose proof Hbit as Hb'. rewrite Hb in Hb' by done. apply bool_decide_eq_true in Hb' as [Hpl Hq].
    exists p. split_and!; [done| |done|].
    + apply trailing_zeros_spec; [lia|done|]. intros i Hi. apply Hmin. lia.
    + intros p' Hp'. apply Hz, Hmin. lia.
  - left. rewrite first_from_None in Hf. split; [|intros p; apply Hz].
    + apply Z.bits_inj_0. intros n. destruct (decide (n < 0)); [by apply Z.testbit_neg_r|].
      destruct (decide (n < 64)) as [|Hge].
      * specialize (Hf (Z.to_nat n) ltac:(lia)). by rewrite Z2Nat.id in Hf by lia.
      * specialize (Hb (Z.to_nat n) Hc). rewrite Z2Nat.id in Hb by lia. rewrite Hb.
        apply bool_decide_eq_false. lia.
    + destruct (decide (p < 64)%nat); [apply Hf; lia|]. rewrite Hb by done. apply bool_decide_eq_false. lia.
Qed.

Lemma threaded_drop ts ts' l1 a l2 :
  threaded ts (l1 ++ a :: l2) → NoDup (l1 ++ a :: l2) →
  (∀ b, b ∈ l1 ++ l2 → t_next (ts' !!! b) = if decide (last l1 = Some b) then head l2 else t_next (ts !!! b)) →
  threaded ts' (l1 ++ l2).
Proof.
  intros Ht Hnd Hb i x Hi. rewrite Hb by (by eapply list_elem_of_lookup_2).
  apply list.NoDup_app in Hnd as (Hnd1 & Hd & Hnd2). apply list.NoDup_cons in Hnd2 as [_ Hnd2].
  destruct (decide (i < length l1)%nat) as [Hlt|Hge].
  - rewrite lookup_app_l in Hi by done. destruct (decide (S i < length l1)%nat) as [Hs|Hs].
    + rewrite decide_False.
      * rewrite lookup_app_l by done. rewrite (Ht i x) by (by rewrite lookup_app_l). by rewrite lookup_app_l.
      * rewrite last_lookup. intros Hl. pose proof (NoDup_lookup _ _ _ _ Hnd1 Hi Hl). lia.
    + rewrite decide_True by (rewrite last_lookup; by replace (pred (length l1)) with i by lia).
      rewrite lookup_app_r by lia. replace (S i - length l1)%nat with 0%nat by lia. by destruct l2.
  - rewrite lookup_app_r in Hi by lia. rewrite decide_False.
    + rewrite lookup_app_r by lia. rewrite (Ht (S i) x).
      * rewrite lookup_app_r by lia. by replace (S (S i) - length l1)%nat with (S (S i - length l1)) by lia.
      * rewrite lookup_app_r by lia. by replace (S i - length l1)%nat with (S (i - length l1)) by lia.
    + intros (l0 & ->)%last_Some. apply (Hd x).
      * apply elem_of_app. right. apply list_elem_of_here.
      * apply list_elem_of_further. by eapply list_elem_of_lookup_2.
Qed.

(** Unlinking [a] from the middle of its queue, as the source does it. *)
Definition unlink (a c p : nat) (prev : option nat) (s : sched) : sched :=
  let nx := t_next (task_ref s a) in
  let rq := rq_of s c in
  let '(s, heads) := match prev with
                     | Some pid => (upd_task pid (with_next nx) s, rq_heads rq)
                     | None => (s, <[p := nx]> (rq_heads rq))
                     end in
  let tails := if bool_decide (rq_tails rq !!! p = Some a) then <[p := prev]> (rq_tails rq) else rq_tails rq in
  let s := upd_task a (with_next None) s in
  let bm := match heads !!! p with None => clear_bit p (rq_bitmap rq) | Some _ => rq_bitmap rq end in
  set_rq c (mkRunQueue bm heads tails (w32 (nr_running rq - 1))) s.

Section unlink.
Context (s : sched) (q : queues) (c p : nat) (l1 : list nat) (a : nat) (l2 : list nat).
Context (Hwf : rq_wf s q) (Hc : (c < MAX_CPUS)%nat) (Hp : (p < PRIORITY_LEVELS)%nat).
Context (Hq : q c p = l1 ++ a :: l2).

Lemma unlink_in x : x ∈ l1 ++ a :: l2 →
  (0 < x < MAX_TASKS)%nat ∧ t_cpu (tasks s !!! x) = c ∧ t_prio (tasks s !!! x) = p.
Proof using Hwf Hq. intros Hx. rewrite <- Hq in Hx. by apply (rw_in _ _ Hwf) in Hx as (_ & _ & ? & ? & ?). Qed.

Lemma unlink_self : (0 < a < MAX_TASKS)%nat.
Proof using Hwf Hq. apply unlink_in, elem_of_app. right. apply list_elem_of_here. Qed.

Lemma unlink_nodup : NoDup (l1 ++ l2) ∧ a ∉ l1 ++ l2 ∧ NoDup (l1 ++ a :: l2).
Proof using Hwf Hq.
  pose proof (rw_nodup _ _ Hwf c p) as Hnd. rewrite Hq in Hnd. split_and!; [| |done];
    rewrite <- Permutation_middle in Hnd; by apply list.NoDup_cons in Hnd as [? ?].
Qed.

Lemma unlink_next : t_next (tasks s !!! a) = head l2.
Proof using Hwf Hq.
  clear Hc Hp.
  pose proof (rw_next _ _ Hwf c p) as Hth. rewrite Hq in Hth. specialize (Hth (length l1) a).
  rewrite lookup_app_r, Nat.sub_diag in Hth by lia. specialize (Hth eq_refl). rewrite Hth.
  rewrite lookup_app_r by lia. replace (S (length l1) - length l1)%nat with 1%nat by lia. by destruct l2.
Qed.

(** The predecessor, if any, now points past [a]. *)
Definition bypass : sched :=
  match last l1 with Some pid => upd_task pid (with_next (head l2)) s | None => s end.

Lemma bypass_spec : links_only s bypass ∧ length (tasks bypass) = MAX_TASKS ∧ runqueue bypass = runqueue s ∧
  ∀ x, t_next (tasks bypass !!! x) = if decide (last l1 = Some x) then head l2 else t_next (tasks s !!! x).
Proof.
  pose proof (rw_tasks _ _ Hwf) as W1. unfold bypass. destruct (last l1) as [pid|] eqn:Hl; [|by split_and!].
  apply last_Some in Hl as [l0 Hl0].
  assert (pid < MAX_TASKS)%nat.
  { apply unlink_in. rewrite Hl0. apply elem_of_app. left. apply elem_of_app. right. apply list_elem_of_here. }
  split_and!; [by apply links_next|by rewrite upd_task_length|done|]. intros x. rewrite upd_task_lookup by done.
  destruct (decide (pid = x)) as [->|]; [by rewrite decide_True|]. rewrite decide_False; [done|congruence].
Qed.

Definition unlinked_rq : RunQueue :=
  mkRunQueue
    (match head (l1 ++ l2) with None => clear_bit p (rq_bitmap (rq_of s c)) | Some _ => rq_bitmap (rq_of s c) end)
    (<[p := head (l1 ++ l2)]> (rq_heads (rq_of s c))) (<[p := last (l1 ++ l2)]> (rq_tails (rq_of s c)))
    (w32 (nr_running (rq_of s c) - 1)).

(** The tail moves exactly when [a] was the last task. *)
Lemma unlink_tails :
  (if bool_decide (rq_tails (rq_of s c) !!! p = Some a) then <[p := last l1]> (rq_tails (rq_of s c))
   else rq_tails (rq_of s c)) = <[p := last (l1 ++ l2)]> (rq_tails (rq_of s c)).
Proof.
  destruct (rw_lens _ _ Hwf c Hc) as [_ Wt]. destruct (rw_heads _ _ Hwf c p Hc Hp) as [_ Ht].
  destruct unlink_nodup as (_ & Hna & _).
  assert (rq_tails (rq_of s c) !!! p = match last l2 with Some y => Some y | None => Some a end) as Htl.
  { rewrite Ht, Hq, last_app, last_cons. by destruct (last l2). }
  rewrite last_app, Htl. destruct (last l2) as [y|] eqn:Hy; [|by rewrite bool_decide_true].
  rewrite bool_decide_false.
  - symmetry. apply list_insert_id. rewrite <- Htl. apply list_lookup_lookup_total_lt. lia.
  - intros [= ->]. apply Hna, elem_of_app. right. apply last_Some in Hy as [l0 ->].
    apply elem_of_app. right. apply list_elem_of_here.
Qed.

Lemma unlink_heads :
  match last l1 with
  | Some _ => rq_heads (rq_of s c)
  | None => <[p := head l2]> (rq_heads (rq_of s c))
  end = <[p := head (l1 ++ l2)]> (rq_heads (rq_of s c)).
Proof.
  destruct (rw_lens _ _ Hwf c Hc) as [Wh _]. destruct (rw_heads _ _ Hwf c p Hc Hp) as [Hh _].
  destruct (last l1) as [pid|] eqn:Hl; [|apply last_None in Hl; by rewrite Hl].
  assert (head (l1 ++ l2) = head (q c p)) as -> by (rewrite Hq; destruct l1; [done|reflexivity]).
  rewrite <- Hh. symmetry. apply list_insert_id, list_lookup_lookup_total_lt. lia.
Qed.

Lemma unlink_eq : unlink a c p (last l1) s = set_rq c unlinked_rq (upd_task a (with_next None) bypass).
Proof.
  pose proof unlink_self. pose proof unlink_tails as Ht. pose proof unlink_heads as Hh.
  destruct (rw_lens _ _ Hwf c Hc) as [Wh _].
  unfold unlink, unlinked_rq, bypass, task_ref. rewrite task_idx_small, unlink_next by lia. rewrite Ht.
  destruct (last l1) as [pid|] eqn:Hl.
  - assert (rq_heads (rq_of s c) !!! p = head (l1 ++ l2)) as ->; [|by rewrite <- Hh].
    rewrite Hh. apply list_lookup_total_insert_eq. lia.
  - by rewrite Hh, list_lookup_total_insert_eq by lia.
Qed.

Lemma unlinked_bits i :
  Z.testbit (rq_bitmap unlinked_rq) (Z.of_nat i) =
  if decide (i = p) then bool_decide (l1 ++ l2 ≠ []) else Z.testbit (rq_bitmap (rq_of s c)) (Z.of_nat i).
Proof.
  unfold unlinked_rq. cbn [rq_bitmap]. destruct (l1 ++ l2) as [|y l] eqn:Hl; cbn [head].
  - rewrite testbit_clear by (by apply (rw_nonneg _ _ Hwf)). destruct (decide (i = p)) as [->|].
    + rewrite (bool_decide_true (p = p)) by done. by rewrite bool_decide_false by tauto.
    + by rewrite bool_decide_false.
  - case_decide; [subst|done]. rewrite (rw_bits _ _ Hwf c p Hc). rewrite !bool_decide_true; [done|done|].
    split; [done|]. rewrite Hq. by destruct l1.
Qed.

Lemma unlinked_count :
  nr_running unlinked_rq = nr_running (rq_of s c) + Z.of_nat (length (l1 ++ l2)) - Z.of_nat (length (q c p)).
Proof.
  unfold unlinked_rq. cbn [nr_running]. rewrite Hq, !length_app, (rw_count _ _ Hwf c Hc). cbn [length].
  pose proof (qtotal_bound s q c Hwf) as Hb. rewrite max_tasks_64 in Hb.
  pose proof (qtotal_upd q c p [] Hp) as Hu. rewrite Hq, length_app in Hu. cbn [length] in Hu.
  unfold w32. rewrite Z.mod_small by lia. lia.
Qed.

Lemma unlink_spec :
  links_only s (unlink a c p (last l1) s) ∧ rq_wf (unlink a c p (last l1) s) (upd2 q c p (l1 ++ l2)).
Proof.
  rewrite unlink_eq. destruct bypass_spec as (L1 & Hlen1 & Hrq & Hn1).
  pose proof unlink_self as Ha. destruct unlink_nodup as (Hnd & Hna & Hnd').
  assert (links_only s (set_rq c unlinked_rq (upd_task a (with_next None) bypass))) as L2.
  { etrans; [exact L1|]. etrans; [apply (links_next bypass a None); [done|lia]|apply links_rq]. }
  split; [done|].
  assert (∀ x, t_next (tasks (upd_task a (with_next None) bypass) !!! x) =
    if decide (a = x) then None else if decide (last l1 = Some x) then head l2 else t_next (tasks s !!! x)) as Hn2.
  { intros x. rewrite upd_task_lookup by (done || lia). case_decide; [done|apply Hn1]. }
  eapply (rq_wf_upd s q _ c p (l1 ++ l2) unlinked_rq); try done.
  - cbn. by rewrite Hrq.
  - apply unlinked_bits.
  - unfold unlinked_rq. cbn [rq_bitmap].
    destruct (head (l1 ++ l2)); [by apply (rw_nonneg _ _ Hwf)|by apply clear_bit_nonneg, (rw_nonneg _ _ Hwf)].
  - apply unlinked_count.
  - pose proof (rw_next _ _ Hwf c p) as Hth. rewrite Hq in Hth. eapply threaded_drop; [exact Hth|done|].
    intros b Hb. cbn [tasks set_rq]. rewrite Hn2, decide_False; [done|]. by intros ->.
  - intros c' p' x Hx Hcp. cbn [tasks set_rq]. rewrite Hn2.
    assert (∀ y, y ∈ q c p → y ≠ x) as Hne.
    { intros y Hy ->. apply Hcp. pose proof (queued_at _ _ _ _ _ Hwf Hx). pose proof (queued_at _ _ _ _ _ Hwf Hy). naive_solver. }
    rewrite decide_False by (apply Hne; rewrite Hq; apply elem_of_app; right; apply list_elem_of_here).
    rewrite decide_False; [done|]. intros Hl. apply (Hne x); [|done]. rewrite Hq. apply elem_of_app. left.
    apply last_Some in Hl as [l0 ->]. apply elem_of_app. right. apply list_elem_of_here.
  - intros x Hx. apply unlink_in. rewrite <- Permutation_middle. by apply list_elem_of_further.
Qed.
End unlink.

(** [dequeue_task] takes the head of the first non-empty level. *)
Lemma dequeue_spec s q c :
  rq_wf s q → (c < MAX_CPUS)%nat →
  ∃ r s', dequeue_task c s = Done (r, s') ∧
    match r with
    | None => s' = s ∧ ∀ p, q c p = []
    | Some a => ∃ p l, q c p = a :: l ∧ (∀ p', (p' < p)%nat → q c p' = []) ∧
        links_only s s' ∧ rq_wf s' (upd2 q c p l)
    end.
Proof.
  intros Hwf Hc. unfold dequeue_task.
  destruct (bitmap_first s q c Hwf Hc) as [[H0 Hnil]|(Hnz & p & Hp & Htz & Hne & Hmin)].
  { rewrite H0. by exists None, s. }
  apply Z.eqb_neq in Hnz as ->. rewrite Htz, (proj2 (Nat.ltb_lt _ _) Hp). cbn [negb].
  destruct (rw_heads _ _ Hwf c p Hc Hp) as [Hh Ht]. destruct (rw_lens _ _ Hwf c Hc) as [Wh Wt].
  destruct (q c p) as [|a l] eqn:Hq; [done|]. rewrite Hh. cbn [head].
  pose proof (unlink_self s q c p [] a l Hwf Hq) as Ha.
  pose proof (unlink_next s q c p [] a l Hwf Hq) as Hnx.
  destruct (unlink_spec s q c p [] a l Hwf Hc Hp Hq) as [L1 Hwf']. cbn [last app] in L1, Hwf'.
  exists (Some a), (unlink a c p None s). split; [|by exists p, l].
  unfold unlink, task_ref. rewrite task_idx_small, Hnx by lia. do 3 f_equal.
  rewrite list_lookup_total_insert_eq by lia. rewrite Ht, last_cons.
  destruct l as [|y l]; cbn [head last]; [by rewrite bool_decide_true|].
  rewrite bool_decide_false; [done|].
  pose proof (unlink_nodup s q c p [] a (y :: l) Hwf Hq) as (_ & Hna & _). cbn [app] in Hna.
  destruct (last (y :: l)) as [z|] eqn:Hl; [|by apply last_None in Hl].
  intros [= ->]. apply Hna. apply last_Some in Hl as [l0 ->]. apply elem_of_app. right. apply list_elem_of_here.
Qed.

Lemma remove_walk_absent s q c p tid l1 l2 fuel :
  rq_wf s q → q c p = l1 ++ l2 → tid ∉ l2 → (length l2 ≤ fuel)%nat →
  remove_walk fuel tid c p (last l1) (head l2) s = Done (false, s).
Proof.
  intros Hwf. revert l1 fuel. induction l2 as [|a l2 IH]; intros l1 fuel Hq Hni Hf; [by destruct fuel|].
  destruct fuel as [|fuel]; [cbn in Hf; lia|]. cbn [remove_walk head].
  rewrite (proj2 (Nat.eqb_neq _ _)) by (intros ->; apply Hni, list_elem_of_here).
  pose proof (unlink_self s q c p l1 a l2 Hwf Hq). unfold task_ref. rewrite task_idx_small by lia.
  rewrite (unlink_next s q c p l1 a l2 Hwf Hq).
  replace (Some a) with (last (l1 ++ [a])) by apply last_snoc.
  apply IH; [by rewrite <- app_assoc| |cbn in Hf; lia]. intros Hx. by apply Hni, list_elem_of_further.
Qed.

Lemma remove_walk_found s q c p tid l1 m l2 fuel :
  rq_wf s q → q c p = l1 ++ m ++ tid :: l2 → tid ∉ m → (length m < fuel)%nat →
  remove_walk fuel tid c p (last l1) (head (m ++ tid :: l2)) s = Done (true, unlink tid c p (last (l1 ++ m)) s).
Proof.
  intros Hwf. revert l1 fuel. induction m as [|a m IH]; intros l1 fuel Hq Hni Hf.
  - destruct fuel as [|fuel]; [lia|]. cbn [remove_walk head app]. rewrite Nat.eqb_refl, app_nil_r.
    unfold unlink. by destruct (last l1).
  - destruct fuel as [|fuel]; [lia|]. cbn [remove_walk head app].
    rewrite (proj2 (Nat.eqb_neq _ _)) by (intros ->; apply Hni, list_elem_of_here).
    pose proof (unlink_self s q c p l1 a (m ++ tid :: l2) Hwf Hq). unfold task_ref. rewrite task_idx_small by lia.
    rewrite (unlink_next s q c p l1 a (m ++ tid :: l2) Hwf Hq).
    replace (Some a) with (last (l1 ++ [a])) by apply last_snoc.
    rewrite IH; [by rewrite <- app_assoc|by rewrite <- app_assoc| |cbn in Hf; lia].
    intros Hx. by apply Hni, list_elem_of_further.
Qed.

(** [remove_from_runqueue] removes the task when it is queued, and says so. *)
Lemma remove_spec s q a :
  rq_wf s q → (a < MAX_TASKS)%nat → (t_cpu (tasks s !!! a) < MAX_CPUS)%nat →
  (t_prio (tasks s !!! a) < PRIORITY_LEVELS)%nat →
  ∃ r s' q', remove_from_runqueue a s = Done (r, s') ∧ links_only s s' ∧ rq_wf s' q' ∧ unqueued q' a ∧
    r = bool_decide (a ∈ q (t_cpu (tasks s !!! a)) (t_prio (tasks s !!! a))) ∧
    (∀ c p, q' c p = filter (λ x, x ≠ a) (q c p)).
Proof.
  intros Hwf Ha Hc Hp. unfold remove_from_runqueue, task_ref. rewrite task_idx_small by done.
  set (c := t_cpu (tasks s !!! a)) in *. set (p := t_prio (tasks s !!! a)) in *.
  rewrite (proj2 (Nat.ltb_lt _ _) Hc), (proj2 (Nat.ltb_lt _ _) Hp). cbn [negb orb].
  destruct (rw_heads _ _ Hwf c p Hc Hp) as [-> _].
  assert (∀ c' p', a ∈ q c' p' → c' = c ∧ p' = p) as Honly by (intros c' p' Hx; by apply (queued_at s q a)).
  assert (∀ l : list nat, a ∉ l → filter (λ x, x ≠ a) l = l) as Hid.
  { intros l Hl. induction l as [|x l IH]; [done|]. rewrite filter_cons_True by (intros ->; apply Hl, list_elem_of_here).
    f_equal. apply IH. intros Hx. by apply Hl, list_elem_of_further. }
  assert (length (q c p) ≤ MAX_TASKS)%nat as Hlen.
  { pose proof (qtotal_bound s q c Hwf). pose proof (qtotal_upd q c p [] Hp) as Hu. cbn [length] in Hu. lia. }
  destruct (decide (a ∈ q c p)) as [Hin|Hni].
  - pose proof Hin as (l1 & l2 & Hq)%list_elem_of_split.
    destruct (unlink_nodup s q c p l1 a l2 Hwf Hq) as (_ & Hna & _).
    rewrite Hq, length_app in Hlen. cbn [length] in Hlen.
    pose proof (remove_walk_found s q c p a [] l1 l2 MAX_TASKS Hwf Hq) as Hrun. cbn [app last] in Hrun.
    rewrite <- Hq in Hrun. rewrite Hrun; [|intros Hx; apply Hna, elem_of_app; by left|lia].
    destruct (unlink_spec s q c p l1 a l2 Hwf Hc Hp Hq) as [L1 Hwf'].
    eexists _, _, (upd2 q c p (l1 ++ l2)). split_and!; [reflexivity|done|done| |by rewrite bool_decide_true|].
    + intros c' p'. unfold upd2. case_decide as Hd; [done|]. intros Hx. by apply Hd, Honly.
    + intros c' p'. unfold upd2. case_decide as Hd.
      * destruct Hd as [-> ->]. rewrite Hq, filter_app, filter_cons_False by tauto.
        rewrite <- filter_app. symmetry. by apply Hid.
      * symmetry. apply Hid. intros Hx. by apply Hd, Honly.
  - assert (∀ c' p', a ∉ q c' p') as Hun by (intros c' p' Hx; destruct (Honly c' p' Hx) as [-> ->]; done).
    eexists _, s, q. split_and!.
    + apply (remove_walk_absent s q c p a [] (q c p)); done.
    + done.
    + done.
    + exact Hun.
    + by rewrite bool_decide_false.
    + intros c' p'. symmetry. by apply Hid.
Qed.
