(* ===== verification/SchedClaims.v ===== *)
(** * The theorems about pids, run queues and futexes *)

From S2P Require Import Prelude Sched SchedInv.
From stdpp Require Import base gmap numbers list.
Local Open Scope Z_scope.

(** ** A small system: three ready tasks on CPU 0 *)

Definition rdy (id prio : nat) : Task := mkTask id TReady 0 prio prio None 0 0 0 false.
Definition demo_tasks : list Task :=
  task_empty :: mkTask 1 TRunning 0 20 20 None 0 0 0 false :: rdy 2 20 :: rdy 3 10 :: rdy 4 20 :: replicate 59 task_empty.
Definition sd_0 : sched := mkSched demo_tasks (replicate MAX_CPUS rq_new) 31.
Definition run_enq (a p : nat) (s : sched) : sched := match enqueue_task a p s with Done s' => s' | _ => s end.
Definition sd_3 : sched := run_enq 4 20 (run_enq 3 10 (run_enq 2 20 sd_0)).

Lemma rq_wf_empty ts bm :
  length ts = MAX_TASKS → rq_wf (mkSched ts (replicate MAX_CPUS rq_new) bm) (λ _ _, []).
Proof.
  intros Hl. assert (∀ c, (c < MAX_CPUS)%nat → rq_of (mkSched ts (replicate MAX_CPUS rq_new) bm) c = rq_new) as Hof.
  { intros c Hc. unfold rq_of. cbn [runqueue]. by apply lookup_total_replicate_2. }
  split; try done.
  - intros c p Hc Hp. rewrite Hof by done. cbn [rq_heads rq_tails rq_new].
    by rewrite !lookup_total_replicate_2.
  - intros c Hc. rewrite Hof by done. cbn [rq_heads rq_tails rq_new]. by rewrite !length_replicate.
  - intros c i Hc. rewrite Hof by done. cbn [rq_bitmap rq_new]. rewrite Z.bits_0. symmetry.
    apply bool_decide_eq_false. naive_solver.
  - intros c Hc. by rewrite Hof.
  - intros c Hc. rewrite Hof by done. cbn [nr_running rq_new]. unfold qtotal.
    induction (seq 0 PRIORITY_LEVELS) as [|x l IH]; [done|]. by rewrite bind_cons.
  - intros c p a Ha. by apply elem_of_nil in Ha.
  - intros c p. apply NoDup_nil_2.
Qed.

Lemma run_enq_wf s q a c p :
  rq_wf s q → (0 < a < MAX_TASKS)%nat → unqueued q a →
  t_cpu (tasks s !!! a) = c → t_prio (tasks s !!! a) = p → (c < MAX_CPUS)%nat → (p < PRIORITY_LEVELS)%nat →
  links_only s (run_enq a p s) ∧ rq_wf (run_enq a p s) (upd2 q c p (q c p ++ [a])).
Proof.
  intros Hwf Ha Hun Hc Hp Hc1 Hp1. destruct (enqueue_spec s q a c p) as (s' & Hrun & Hl & Hw); try done.
  unfold run_enq. by rewrite Hrun.
Qed.

Definition qd_1 : queues := upd2 (λ _ _, []) 0 20 [2%nat].
Definition qd_2 : queues := upd2 qd_1 0 10 [3%nat].
Definition qd_3 : queues := upd2 qd_2 0 20 [2%nat; 4%nat].

Lemma sd_3_wf : rq_wf sd_3 qd_3.
Proof.
  destruct (run_enq_wf sd_0 (λ _ _, []) 2 0 20) as [L1 W1];
    [by apply rq_wf_empty|vm_compute; lia|intros c p Hx; by apply elem_of_nil in Hx|done|done|vm_compute; lia|vm_compute; lia|].
  destruct (run_enq_wf (run_enq 2 20 sd_0) qd_1 3 0 10) as [L2 W2];
    [exact W1|vm_compute; lia| |by vm_compute|by vm_compute|vm_compute; lia|vm_compute; lia|].
  { intros c p Hx. unfold qd_1, upd2 in Hx. case_decide; set_solver. }
  destruct (run_enq_wf (run_enq 3 10 (run_enq 2 20 sd_0)) qd_2 4 0 20) as [L3 W3];
    [exact W2|vm_compute; lia| |by vm_compute|by vm_compute|vm_compute; lia|vm_compute; lia|exact W3].
  intros c p Hx. unfold qd_2, qd_1, upd2 in Hx. repeat case_decide; set_solver.
Qed.

(** ** Run queues *)

(** C32: [dequeue_task] takes the oldest task of the highest non-empty
    priority of its CPU and removes it from that queue only; it returns
    [None] exactly when the CPU has no ready task. *)
Theorem dequeue_highest_fifo s q c :
  rq_wf s q → (c < MAX_CPUS)%nat →
  ∃ r s', dequeue_task c s = Done (r, s') ∧
    match r with
    | None => s' = s ∧ ∀ p, q c p = []
    | Some a => ∃ p l, q c p = a :: l ∧ (∀ p', (p' < p)%nat → q c p' = []) ∧
        rq_wf s' (upd2 q c p l) ∧ nr_running (rq_of s' c) = nr_running (rq_of s c) - 1
    end.
Proof.
  intros Hwf Hc. destruct (dequeue_spec s q c Hwf Hc) as (r & s' & Hrun & Hr). exists r, s'. split; [done|].
  destruct r as [a|]; [|done]. destruct Hr as (p & l & Hq & Hmin & _ & Hwf').
  exists p, l. split_and!; try done.
  rewrite (rw_count _ _ Hwf' c Hc), (rw_count _ _ Hwf c Hc).
  assert (p < PRIORITY_LEVELS)%nat as Hp.
  { apply (rw_in _ _ Hwf c p a). rewrite Hq. apply list_elem_of_here. }
  pose proof (qtotal_upd q c p l Hp) as Hu. rewrite Hq in Hu. cbn [length] in Hu. lia.
Qed.

Lemma dequeue_highest_fifo_witness : ∃ s', dequeue_task 0 sd_3 = Done (Some 3%nat, s') ∧ rq_wf s' (upd2 qd_3 0 10 []).
Proof.
  destruct (dequeue_highest_fifo sd_3 qd_3 0 sd_3_wf ltac:(vm_compute; lia)) as (r & s' & Hrun & Hr).
  assert ((match dequeue_task 0 sd_3 with Done (r, _) => r | _ => None end) = Some 3%nat) as H3 by (by vm_compute).
  rewrite Hrun in H3. subst r. destruct Hr as (p & l & Hq & _ & Hw & _). exists s'. split; [exact Hrun|].
  unfold qd_3, qd_2, qd_1, upd2 in Hq. repeat case_decide; simplify_eq; try (destruct_and!; simplify_eq); exact Hw.
Defined.

(** The queue operations undo each other: a ready task that is enqueued
    and then removed leaves every queue as it was, [remove_from_runqueue]
    reporting that it was there; a second removal reports that it was not and
    changes nothing. *)
Theorem enqueue_remove s q a c p :
  rq_wf s q → (0 < a < MAX_TASKS)%nat → unqueued q a →
  t_cpu (tasks s !!! a) = c → t_prio (tasks s !!! a) = p → (c < MAX_CPUS)%nat → (p < PRIORITY_LEVELS)%nat →
  ∃ s1 s2, enqueue_task a p s = Done s1 ∧ rq_wf s1 (upd2 q c p (q c p ++ [a])) ∧
    remove_from_runqueue a s1 = Done (true, s2) ∧ (∃ q2, rq_wf s2 q2 ∧ ∀ c' p', q2 c' p' = q c' p') ∧
    ∃ s3, remove_from_runqueue a s2 = Done (false, s3).
Proof.
  intros Hwf Ha Hun Hc Hp Hc1 Hp1.
  destruct (enqueue_spec s q a c p) as (s1 & Hrun & Hl & Hw1); try done.
  destruct (links_fields s s1 a Hl) as (_ & _ & Hcpu & Hprio & _).
  destruct (remove_spec s1 _ a Hw1) as (r & s2 & q2 & Hrun2 & Hl2 & Hw2 & Hun2 & Hr & Hq2);
    [lia|by rewrite Hcpu, Hc|by rewrite Hprio, Hp|].
  rewrite Hcpu, Hprio, Hc, Hp, upd2_eq, bool_decide_true in Hr by (apply elem_of_app; right; apply list_elem_of_here).
  subst r. exists s1, s2. split_and!; [done|done|done| |].
  - exists q2. split; [done|]. intros c' p'. rewrite Hq2.
    assert (∀ l : list nat, a ∉ l → filter (λ x, x ≠ a) l = l) as Hid.
    { intros l Hx. induction l as [|x l IH]; [done|]. rewrite filter_cons_True by (intros ->; apply Hx, list_elem_of_here).
      f_equal. apply IH. intros Hy. by apply Hx, list_elem_of_further. }
    unfold upd2. case_decide as Hd; [destruct Hd as [-> ->]|by apply Hid].
    rewrite filter_app, Hid by done. rewrite filter_cons_False by tauto. by rewrite app_nil_r.
  - destruct (links_fields s1 s2 a Hl2) as (_ & _ & Hcpu2 & Hprio2 & _).
    destruct (remove_spec s2 q2 a Hw2) as (r3 & s3 & q3 & Hrun3 & _ & _ & _ & Hr3 & _);
      [lia|by rewrite Hcpu2, Hcpu, Hc|by rewrite Hprio2, Hprio, Hp|].
    exists s3. rewrite bool_decide_false in Hr3 by apply Hun2. by rewrite <- Hr3.
Qed.

Lemma enqueue_remove_witness : ∃ s1 s2, enqueue_task 2 20 sd_0 = Done s1 ∧ remove_from_runqueue 2 s1 = Done (true, s2).
Proof.
  destruct (enqueue_remove sd_0 (λ _ _, []) 2 0 20) as (s1 & s2 & H1 & _ & H2 & _);
    [by apply rq_wf_empty|vm_compute; lia|intros c p Hx; by apply elem_of_nil in Hx|done|done|vm_compute; lia|vm_compute; lia|].
  exists s1, s2. split; [exact H1|exact H2].
Defined.

(** ** Pids *)

Definition pid_used (s : sched) (i : nat) : bool := Z.testbit (pid_bitmap s) (Z.of_nat i).

Lemma trailing_ones_spec bm m :
  0 ≤ bm < 2 ^ 64 → (m < 64)%nat →
  let k := trailing_ones (Z.shiftr bm (Z.of_nat m)) in
  (m + k ≤ 64)%nat ∧ (∀ i, (m ≤ i < m + k)%nat → Z.testbit bm (Z.of_nat i) = true) ∧
  ((m + k < 64)%nat → Z.testbit bm (Z.of_nat (m + k)) = false).
Proof.
  intros Hb Hm. unfold trailing_ones.
  assert (∀ i, Z.testbit (Z.shiftr bm (Z.of_nat m)) (Z.of_nat i) = Z.testbit bm (Z.of_nat (m + i))) as Hsh.
  { intros i. rewrite Z.shiftr_spec by lia. f_equal. lia. }
  assert (Z.testbit bm (Z.of_nat 64) = false) as H64.
  { destruct (decide (bm = 0)) as [->|]; [by rewrite Z.bits_0|].
    apply Z.bits_above_log2; [lia|]. apply Z.log2_lt_pow2; lia. }
  match goal with |- context [first_from ?f 0 64] => destruct (first_from f 0 64) as [k|] eqn:Hf end.
  - apply first_from_Some in Hf as (Hk & Hbit & Hmin). apply negb_true_iff in Hbit. rewrite Hsh in Hbit.
    assert (∀ i, (i < k)%nat → Z.testbit bm (Z.of_nat (m + i)) = true) as Hlt.
    { intros i Hi. specialize (Hmin i ltac:(lia)). apply negb_false_iff in Hmin. by rewrite Hsh in Hmin. }
    split_and!.
    + destruct (decide (m + k ≤ 64)%nat) as [|Hgt]; [done|]. specialize (Hlt (64 - m)%nat ltac:(lia)).
      replace (m + (64 - m))%nat with 64%nat in Hlt by lia. congruence.
    + intros i Hi. specialize (Hlt (i - m)%nat ltac:(lia)). by replace (m + (i - m))%nat with i in Hlt by lia.
    + intros _. exact Hbit.
  - rewrite first_from_None in Hf. destruct (decide (m = 0%nat)) as [->|Hm0].
    + split_and!; [lia| |lia]. intros i Hi. specialize (Hf i ltac:(lia)). apply negb_false_iff in Hf. by rewrite Hsh in Hf.
    + exfalso. specialize (Hf (64 - m)%nat ltac:(lia)). apply negb_false_iff in Hf. rewrite Hsh in Hf.
      replace (m + (64 - m))%nat with 64%nat in Hf by lia. congruence.
Qed.

(** Pids never collide: [alloc_pid_from] returns the lowest free slot at
    or above [min_slot] and marks that slot and no other; it fails exactly
    when every slot from [min_slot] on is taken.  Freeing a pid other than 0
    releases that slot and no other, and pid 0 cannot be freed. *)
Theorem alloc_pid_lowest min_slot s :
  0 ≤ pid_bitmap s < 2 ^ 64 → (min_slot < MAX_TASKS)%nat →
  match alloc_pid_from min_slot s with
  | (Some pid, s') =>
      (min_slot ≤ pid < MAX_TASKS)%nat ∧ pid_used s pid = false ∧
      (∀ i, (min_slot ≤ i < pid)%nat → pid_used s i = true) ∧
      (∀ i, pid_used s' i = bool_decide (i = pid) || pid_used s i) ∧
      (∀ i, pid ≠ 0%nat → pid_used (free_pid pid s') i = pid_used s i)
  | (None, s') => s' = s ∧ ∀ i, (min_slot ≤ i < MAX_TASKS)%nat → pid_used s i = true
  end ∧ free_pid 0 s = s.
Proof.
  intros Hb Hm. split; [|done]. unfold alloc_pid_from. rewrite (proj2 (Nat.leb_gt _ _) Hm).
  rewrite max_tasks_64 in Hm. destruct (trailing_ones_spec (pid_bitmap s) min_slot Hb Hm) as (Hle & Hones & Hzero).
  unfold pid_candidate. set (k := trailing_ones _) in *.
  assert (∀ i, (i < 64)%nat → Z.shiftr (pid_bitmap s) (Z.of_nat min_slot) = U64_MAX →
    (min_slot ≤ i)%nat → pid_used s i = true) as Hall.
  { intros i Hi Heq Hmi. unfold pid_used. replace (Z.of_nat i) with (Z.of_nat (i - min_slot) + Z.of_nat min_slot) by lia.
    rewrite <- Z.shiftr_spec by lia. rewrite Heq. unfold U64_MAX. change (2 ^ 64 - 1) with (Z.ones 64).
    apply Z.ones_spec_low. lia. }
  destruct (Z.eqb_spec (Z.shiftr (pid_bitmap s) (Z.of_nat min_slot)) U64_MAX) as [Heq|Hne].
  { rewrite Nat.leb_refl. split; [done|]. intros i Hi. rewrite max_tasks_64 in Hi. apply Hall; [lia|done|lia]. }
  rewrite max_tasks_64. destruct (Nat.leb_spec 64 (min_slot + k)) as [Hge|Hlt].
  { split; [done|]. intros i Hi. apply Hones. lia. }
  assert (∀ i, pid_used (set_bitmap (Z.lor (pid_bitmap s) (Z.shiftl 1 (Z.of_nat (min_slot + k)))) s) i =
    bool_decide (i = (min_slot + k)%nat) || pid_used s i) as Hset.
  { intros i. apply (testbit_set (pid_bitmap s) (min_slot + k) i). lia. }
  split_and!; [lia|lia|by apply Hzero|intros i Hi; apply Hones; lia|exact Hset|].
  intros i Hz. unfold free_pid. rewrite (proj2 (Nat.eqb_neq _ _) Hz), max_tasks_64, (proj2 (Nat.leb_gt _ _)) by lia.
  cbn [orb]. etrans.
  - apply (testbit_clear (set_bit (min_slot + k) (pid_bitmap s)) (min_slot + k) i). apply set_bit_nonneg. lia.
  - rewrite testbit_set by lia. unfold pid_used. destruct (decide (i = (min_slot + k)%nat)) as [->|Hd].
    + rewrite bool_decide_true by done. cbn. symmetry. by apply Hzero.
    + by rewrite bool_decide_false.
Qed.

Lemma alloc_pid_lowest_witness :
  (alloc_pid_from 1 sd_0).1 = Some 5%nat ∧ pid_used (alloc_pid_from 1 sd_0).2 5 = true.
Proof.
  pose proof (alloc_pid_lowest 1 sd_0) as H. destruct (alloc_pid_from 1 sd_0) as [[pid|] s'] eqn:Hal.
  - assert (pid = 5%nat) as -> by (by vm_compute in Hal; injection Hal).
    split; [done|]. destruct H as [(_ & _ & _ & Hset & _) _]; [by vm_compute|vm_compute; lia|].
    cbn [snd]. rewrite Hset. done.
  - exfalso. by vm_compute in Hal.
Defined.

(** ** Blocking and waking *)

(** The run queues hold ready tasks only; every task in use sits in the slot
    of its pid, on a CPU and at a priority that exist. *)
Record sys_inv (s : sched) (q : queues) : Prop := {
  si_wf : rq_wf s q;
  si_ready : ∀ c p a, a ∈ q c p → t_state (tasks s !!! a) = TReady;
  si_id : ∀ i, (i < MAX_TASKS)%nat → t_id (tasks s !!! i) ≠ 0%nat → t_id (tasks s !!! i) = i;
  si_cpu : ∀ i, (i < MAX_TASKS)%nat → (t_cpu (tasks s !!! i) < MAX_CPUS)%nat;
  si_prio : ∀ i, (i < MAX_TASKS)%nat → (t_prio (tasks s !!! i) < PRIORITY_LEVELS)%nat;
}.

(** The same task up to its queue link. *)
Definition same_task (t t' : Task) : Prop := with_next None t = with_next None t'.

#[export] Instance same_task_equiv : Equivalence same_task.
Proof. unfold same_task. split; [by intros t|by intros t t' ->|by intros t t' t'' -> ->]. Qed.

Lemma same_task_fields t t' : same_task t t' →
  t_id t = t_id t' ∧ t_state t = t_state t' ∧ t_cpu t = t_cpu t' ∧ t_prio t = t_prio t' ∧ t_blocked_on t = t_blocked_on t'.
Proof. intros H. by injection H as -> -> -> -> _ -> _ _ _. Qed.

#[export] Instance waits_on_proper uaddr : Proper (same_task ==> eq) (waits_on uaddr).
Proof.
  intros t t' Ht. destruct (same_task_fields t t' Ht) as (H1 & H2 & _ & _ & H3).
  unfold waits_on. by rewrite H1, H2, H3.
Qed.

Lemma rq_wf_task s q i t :
  rq_wf s q → (i < MAX_TASKS)%nat → t_cpu t = t_cpu (tasks s !!! i) → t_prio t = t_prio (tasks s !!! i) →
  t_next t = t_next (tasks s !!! i) → rq_wf (set_tasks (<[i := t]> (tasks s)) s) q.
Proof.
  intros [W1 W2 W3 W4 W5 W6 W7 W8 W9 W10] Hi Hc Hp Hn.
  assert (∀ x, t_cpu (<[i := t]> (tasks s) !!! x) = t_cpu (tasks s !!! x) ∧
    t_prio (<[i := t]> (tasks s) !!! x) = t_prio (tasks s !!! x) ∧
    t_next (<[i := t]> (tasks s) !!! x) = t_next (tasks s !!! x)) as Hx.
  { intros x. destruct (decide (i = x)) as [<-|]; [|by rewrite list_lookup_total_insert_ne].
    by rewrite list_lookup_total_insert_eq by lia. }
  split; try done.
  - cbn. by rewrite length_insert.
  - intros c p. eapply threaded_ext; [|apply W5]. intros a _. apply Hx.
  - intros c p a Ha. cbn [tasks set_tasks]. destruct (Hx a) as (-> & -> & _). by apply W9.
Qed.

(** Making a blocked task ready. *)
Lemma wake_one s q i t :
  sys_inv s q → (i < MAX_TASKS)%nat → t_state (tasks s !!! i) = TBlocked → t_id (tasks s !!! i) ≠ 0%nat →
  t_id t = t_id (tasks s !!! i) → t_state t = TReady → t_cpu t = t_cpu (tasks s !!! i) →
  t_prio t = t_prio (tasks s !!! i) → t_next t = t_next (tasks s !!! i) →
  let s1 := set_tasks (<[i := t]> (tasks s)) s in
  let c := t_cpu (tasks s !!! i) in let p := t_prio (tasks s !!! i) in
  ∃ s', enqueue_task (t_id (tasks s1 !!! i)) (t_prio (tasks s1 !!! i)) s1 = Done s' ∧
    sys_inv s' (upd2 q c p (q c p ++ [i])) ∧
    same_task (tasks s' !!! i) t ∧ ∀ j, j ≠ i → same_task (tasks s' !!! j) (tasks s !!! j).
Proof.
  intros [Hwf Hrd Hid Hcpu Hprio] Hi Hbl Hnz Ht1 Ht2 Ht3 Ht4 Ht5 s1 c p.
  assert (tasks s1 !!! i = t) as Hti.
  { cbn. apply list_lookup_total_insert_eq. by rewrite (rw_tasks _ _ Hwf). }
  assert (∀ j, j ≠ i → tasks s1 !!! j = tasks s !!! j) as Htj by (intros j Hj; by apply list_lookup_total_insert_ne).
  rewrite Hti, Ht1, Ht4, (Hid i Hi Hnz). fold p.
  assert (rq_wf s1 q) as Hwf1 by (by apply rq_wf_task).
  assert (0 < i)%nat by (rewrite <- (Hid i Hi Hnz); lia).
  destruct (enqueue_spec s1 q i c p Hwf1) as (s' & Hrun & Hl & Hwf').
  - lia.
  - intros c' p' Hx. apply Hrd in Hx. congruence.
  - by rewrite Hti.
  - by rewrite Hti.
  - by apply Hcpu.
  - by apply Hprio.
  - exists s'. split; [done|].
    assert (∀ j, same_task (tasks s' !!! j) (tasks s1 !!! j)) as Hs by (intros j; apply Hl).
    split_and!.
    + split; [done| | | |].
      * intros c' p' a Ha. destruct (same_task_fields _ _ (Hs a)) as (_ & -> & _).
        destruct (decide (a = i)) as [->|Hne]; [by rewrite Hti|]. rewrite Htj by done.
        unfold upd2 in Ha. case_decide as Hd; [|by eapply Hrd].
        apply elem_of_app in Ha as [Ha|Ha%list_elem_of_singleton]; [by eapply Hrd|done].
      * intros j Hj. destruct (same_task_fields _ _ (Hs j)) as (-> & _).
        destruct (decide (j = i)) as [->|]; [rewrite Hti, Ht1; auto|rewrite Htj by done; auto].
      * intros j Hj. destruct (same_task_fields _ _ (Hs j)) as (_ & _ & -> & _).
        destruct (decide (j = i)) as [->|]; [rewrite Hti, Ht3; auto|rewrite Htj by done; auto].
      * intros j Hj. destruct (same_task_fields _ _ (Hs j)) as (_ & _ & _ & -> & _).
        destruct (decide (j = i)) as [->|]; [rewrite Hti, Ht4; auto|rewrite Htj by done; auto].
    + rewrite <- Hti. apply Hs.
    + intros j Hj. rewrite <- Htj by done. apply Hs.
Qed.

(** The tasks waiting on a word, in slot order. *)
Definition waiters (s : sched) (uaddr : Z) (i n : nat) : list nat :=
  filter (λ j, waits_on uaddr (tasks s !!! j) = true) (seq i n).

(** What waking the tasks [W] does to the queues. *)
Definition appended (s : sched) (q : queues) (W : list nat) (c p : nat) : list nat :=
  q c p ++ filter (λ a, t_cpu (tasks s !!! a) = c ∧ t_prio (tasks s !!! a) = p) W.

Lemma appended_nil s q c p : appended s q [] c p = q c p.
Proof. apply app_nil_r. Qed.

Lemma futex_wake_loop_spec n i uaddr mx woken s q :
  sys_inv s q → (i + n = MAX_TASKS)%nat →
  let W := take (Z.to_nat (mx - woken)) (waiters s uaddr i n) in
  ∃ s' q', futex_wake_loop n i uaddr mx woken s = Done (woken + Z.of_nat (length W), s') ∧ sys_inv s' q' ∧
    (∀ c p, q' c p = appended s q W c p) ∧
    (∀ j, j ∈ W → same_task (tasks s' !!! j) (with_block TReady 0 0 0 (tasks s !!! j))) ∧
    (∀ j, j ∉ W → same_task (tasks s' !!! j) (tasks s !!! j)).
Proof.
  revert i woken s q. induction n as [|n IH]; intros i woken s q Hinv Hin; cbn [futex_wake_loop].
  { exists s, q. change (waiters s uaddr i 0) with (@nil nat). rewrite take_nil. cbn [length].
    split_and!; [by rewrite Z.add_0_r|done| |intros j Hj; by apply elem_of_nil in Hj|done].
    intros c p. symmetry. apply appended_nil. }
  destruct (Z.leb_spec mx woken) as [Hle|Hgt].
  { replace (Z.to_nat (mx - woken)) with 0%nat by lia. exists s, q. cbn [take length].
    split_and!; [by rewrite Z.add_0_r|done| |intros j Hj; by apply elem_of_nil in Hj|done].
    intros c p. symmetry. apply appended_nil. }
  unfold waiters. cbn [seq].
  destruct (waits_on uaddr (tasks s !!! i)) eqn:Hw.
  - rewrite filter_cons_True by done.
    assert (∃ k, Z.to_nat (mx - woken) = S k ∧ k = Z.to_nat (mx - (woken + 1))) as (k & -> & Hk).
    { exists (Z.to_nat (mx - (woken + 1))). split; [lia|done]. }
    cbn [take]. pose proof Hw as Hw'. unfold waits_on in Hw'. bool_to_prop.
    apply bool_decide_eq_true in H.
    destruct (wake_one s q i (with_block TReady 0 0 0 (tasks s !!! i)) Hinv) as (s1 & Hrun & Hinv1 & Hsi & Hsj);
      try done; [lia|]. cbv zeta in Hrun. rewrite Hrun. cbn [cbind].
    destruct (IH (S i) (woken + 1) s1 _ Hinv1 ltac:(lia)) as (s' & q' & Hrun' & Hinv' & Hq' & HW & HnW).
    assert (waiters s1 uaddr (S i) n = filter (λ j, waits_on uaddr (tasks s !!! j) = true) (seq (S i) n)) as Hws.
    { unfold waiters. apply filter_agree. intros j Hj. apply elem_of_seq in Hj. rewrite Hsj by lia. done. }
    rewrite Hws, <- Hk in *. set (W := take k _) in *.
    assert (∀ j, j ∈ W → (S i ≤ j)%nat) as HWi.
    { intros j Hj. apply elem_of_take in Hj as (x & Hx & _). apply list_elem_of_lookup_2, list_elem_of_filter in Hx as [_ Hx].
      apply elem_of_seq in Hx. lia. }
    exists s', q'. split_and!.
    + rewrite Hrun'. cbn [length]. do 2 f_equal. lia.
    + done.
    + intros c p. rewrite Hq'. unfold appended.
      assert (filter (λ a, t_cpu (tasks s1 !!! a) = c ∧ t_prio (tasks s1 !!! a) = p) W =
              filter (λ a, t_cpu (tasks s !!! a) = c ∧ t_prio (tasks s !!! a) = p) W) as ->.
      { apply filter_agree. intros a Ha. specialize (HWi a Ha).
        destruct (same_task_fields _ _ (Hsj a ltac:(lia))) as (_ & _ & -> & -> & _). done. }
      rewrite filter_cons. destruct (decide (t_cpu (tasks s !!! i) = c ∧ t_prio (tasks s !!! i) = p)) as [[<- <-]|Hn].
      * by rewrite upd2_eq, <- app_assoc.
      * by rewrite upd2_ne by (intros [-> ->]; by apply Hn).
    + intros j [->|Hj]%elem_of_cons.
      * rewrite HnW; [done|]. intros Hx. specialize (HWi i Hx). lia.
      * rewrite HW by done. specialize (HWi j Hj). pose proof (Hsj j ltac:(lia)) as Hst. unfold same_task in *.
        destruct (tasks s1 !!! j), (tasks s !!! j). by injection Hst as -> -> -> -> -> -> -> -> ->.
    + intros j Hj. rewrite HnW by (intros Hx; apply Hj; by apply list_elem_of_further).
      apply Hsj. intros ->. apply Hj, list_elem_of_here.
  - rewrite filter_cons_False by congruence. apply (IH (S i)); [done|lia].
Qed.

(** [futex_wake] wakes the first [max_wake] tasks blocked on the word, in
    slot order, and returns how many: each of them becomes ready, stops
    waiting, and is appended to the run queue of its CPU and priority; every
    other task keeps its state and its place. *)
Theorem futex_wake_exact uaddr max_wake s q :
  sys_inv s q → 0 ≤ max_wake →
  let W := take (Z.to_nat max_wake) (waiters s uaddr 0 MAX_TASKS) in
  ∃ s' q', futex_wake uaddr max_wake s = Done (Z.of_nat (length W), s') ∧ sys_inv s' q' ∧
    (∀ c p, q' c p = appended s q W c p) ∧
    (∀ j, j ∈ W → t_state (tasks s' !!! j) = TReady ∧ t_blocked_on (tasks s' !!! j) = 0 ∧
       j ∈ q' (t_cpu (tasks s !!! j)) (t_prio (tasks s !!! j))) ∧
    (∀ j, j ∉ W → same_task (tasks s' !!! j) (tasks s !!! j)).
Proof.
  intros Hinv Hm W. destruct (futex_wake_loop_spec MAX_TASKS 0 uaddr max_wake 0 s q Hinv eq_refl)
    as (s' & q' & Hrun & Hinv' & Hq & HW & HnW). rewrite Z.sub_0_r in *. fold W in Hrun, Hq, HW, HnW.
  exists s', q'. split_and!; try done. intros j Hj. destruct (same_task_fields _ _ (HW j Hj)) as (_ & -> & _ & _ & ->).
  split_and!; [done|done|]. rewrite Hq. apply elem_of_app. right. by apply list_elem_of_filter.
Qed.

(** A decidable property of the slots is checked by evaluation. *)
Lemma all_slots (P : nat → Prop) `{!∀ i, Decision (P i)} :
  bool_decide (Forall P (seq 0 64)) = true → ∀ i, (i < MAX_TASKS)%nat → P i.
Proof.
  intros HP%bool_decide_eq_true i Hi. rewrite Forall_forall in HP. apply HP, elem_of_seq. rewrite max_tasks_64 in Hi. lia.
Qed.

Ltac check_slots :=
  match goal with |- ∀ i, _ → @?P i => refine (all_slots P _); vm_compute; reflexivity end.

(** Task 5 waits on word 0x1000. *)
Definition sw_0 : sched :=
  mkSched (<[5%nat := mkTask 5 TBlocked 0 10 10 None 0x1000 0 0 false]> demo_tasks) (replicate MAX_CPUS rq_new) 63.

Lemma sw_0_inv : sys_inv sw_0 (λ _ _, []).
Proof.
  split; [by apply rq_wf_empty|intros c p a Ha; by apply elem_of_nil in Ha|..]; check_slots.
Qed.

Lemma futex_wake_exact_witness :
  ∃ s' q', futex_wake 0x1000 1 sw_0 = Done (1, s') ∧ sys_inv s' q' ∧ q' 0%nat 10%nat = [5%nat].
Proof.
  destruct (futex_wake_exact 0x1000 1 sw_0 _ sw_0_inv ltac:(lia)) as (s' & q' & H1 & H2 & H3 & _).
  exists s', q'. split_and!; [exact H1|exact H2|]. rewrite H3. vm_compute. reflexivity.
Defined.

(** ** Choosing the next task *)

Lemma sys_inv_state s q i st :
  sys_inv s q → (i < MAX_TASKS)%nat → unqueued q i ∨ st = TReady →
  sys_inv (upd_task i (with_state st) s) q ∧
  (∀ j, tasks (upd_task i (with_state st) s) !!! j = if decide (i = j) then with_state st (tasks s !!! i) else tasks s !!! j).
Proof.
  intros [Hwf Hrd Hid Hcpu Hprio] Hi Hst. pose proof (rw_tasks _ _ Hwf) as Hl.
  assert (∀ j, tasks (upd_task i (with_state st) s) !!! j =
    if decide (i = j) then with_state st (tasks s !!! i) else tasks s !!! j) as Hx by (intros; by apply upd_task_lookup).
  split; [|done]. split.
  - unfold upd_task, task_ref. rewrite task_idx_small by done. by apply rq_wf_task.
  - intros c p a Ha. rewrite Hx. case_decide as Hd; [|by eapply Hrd]. subst a. destruct Hst as [Hun| ->]; [|done].
    by destruct (Hun c p).
  - intros j Hj. rewrite Hx. case_decide; [subst; cbn; auto|auto].
  - intros j Hj. rewrite Hx. case_decide; [subst; cbn; auto|auto].
  - intros j Hj. rewrite Hx. case_decide; [subst; cbn; auto|auto].
Qed.

Lemma sys_inv_links s q s' q' :
  sys_inv s q → links_only s s' → rq_wf s' q' → (∀ c p a, a ∈ q' c p → t_state (tasks s !!! a) = TReady) → sys_inv s' q'.
Proof.
  intros [Hwf Hrd Hid Hcpu Hprio] Hl Hwf' Hrd'. split; [done|..].
  - intros c p a Ha. destruct (links_fields s s' a Hl) as (_ & -> & _). by eapply Hrd'.
  - intros i Hi. destruct (links_fields s s' i Hl) as (-> & _). auto.
  - intros i Hi. destruct (links_fields s s' i Hl) as (_ & _ & -> & _). auto.
  - intros i Hi. destruct (links_fields s s' i Hl) as (_ & _ & _ & -> & _). auto.
Qed.

(** Preempting a running task hands the CPU to the oldest ready task of
    the highest priority and puts the preempted task at the end of its own
    queue; with no ready task nothing changes.  Priorities, CPUs and the
    consistency of all queues are kept. *)
Theorem schedule_picks_highest c cur s q :
  sys_inv s q → (0 < cur < MAX_TASKS)%nat → t_cpu (tasks s !!! cur) = c →
  t_state (tasks s !!! cur) = TRunning → unqueued q cur →
  (schedule_inner c cur s = Done (Idle, s) ∧ ∀ p, q c p = []) ∨
  ∃ a p l s' q', schedule_inner c cur s = Done (Switch a, s') ∧ q c p = a :: l ∧
    (∀ p', (p' < p)%nat → q c p' = []) ∧ sys_inv s' q' ∧
    (∀ c' p', q' c' p' = upd2 q c p l c' p' ++ (if decide (c' = c ∧ p' = t_prio (tasks s !!! cur)) then [cur] else [])) ∧
    t_state (tasks s' !!! a) = TRunning ∧ t_state (tasks s' !!! cur) = TReady.
Proof.
  intros Hinv Hcur Hc Hrun Hun. pose proof Hinv as [Hwf Hrd Hid Hcpu Hprio].
  assert (c < MAX_CPUS)%nat as Hc1 by (rewrite <- Hc; apply Hcpu; lia).
  set (pc := t_prio (tasks s !!! cur)). assert (pc < PRIORITY_LEVELS)%nat as Hpc by (apply Hprio; lia).
  unfold schedule_inner, schedule_pick.
  destruct (dequeue_spec s q c Hwf Hc1) as (r & s1 & -> & Hr). cbn [cbind].
  destruct r as [a|]; [right|left; cbn [cbind]; by destruct Hr as [-> ?]].
  destruct Hr as (p & l & Hq & Hmin & Hl1 & Hwf1).
  assert (a ∈ q c p) as Ha by (rewrite Hq; apply list_elem_of_here).
  assert (a ≠ cur) as Hne by (intros ->; by apply (Hun c p)).
  destruct (rw_in _ _ Hwf c p a Ha) as (_ & Hp & Ha1 & _).
  rewrite (proj2 (Nat.eqb_neq _ _) Hne). cbn [negb cbind].
  unfold schedule_out, task_ref. rewrite !task_idx_small by lia. rewrite (proj2 (Nat.eqb_neq cur 0)) by lia.
  destruct (links_fields s s1 cur Hl1) as (_ & Hst1 & Hc1' & Hp1 & _).
  rewrite Hst1, Hrun. change (state_eqb TRunning TRunning) with true. cbv iota.
  assert (∀ c' p' x, x ∈ upd2 q c p l c' p' → x ∈ q c' p' ∧ x ≠ a) as Hsub.
  { intros c' p' x. unfold upd2. case_decide as Hd; intros Hx.
    - destruct Hd as [-> ->]. pose proof (rw_nodup _ _ Hwf c p) as Hnd. rewrite Hq in Hnd |- *.
      apply list.NoDup_cons in Hnd as [Hna _]. split; [by apply list_elem_of_further|by intros ->].
    - split; [done|]. intros ->. apply Hd. pose proof (queued_at _ _ _ _ _ Hwf Hx). pose proof (queued_at _ _ _ _ _ Hwf Ha). naive_solver. }
  assert (sys_inv s1 (upd2 q c p l)) as Hinv1.
  { eapply sys_inv_links; [exact Hinv|done|done|]. intros c' p' x [Hx _]%Hsub. by eapply Hrd. }
  destruct (sys_inv_state s1 _ cur TReady Hinv1) as [Hinv2 Ht2]; [lia|by right|].
  set (s2 := upd_task cur (with_state TReady) s1) in *.
  destruct (enqueue_spec s2 (upd2 q c p l) cur c pc) as (s3 & Hen & Hl3 & Hwf3); try done.
  { apply Hinv2. }
  { intros c' p' [Hx _]%Hsub. by apply (Hun c' p'). }
  { rewrite Ht2, decide_True by done. cbn. congruence. }
  { rewrite Ht2, decide_True by done. cbn. by rewrite Hp1. }
  rewrite Hp1. fold pc. rewrite Hen. cbn [cbind].
  set (q3 := upd2 (upd2 q c p l) c pc (upd2 q c p l c pc ++ [cur])) in *.
  assert (sys_inv s3 q3) as Hinv3.
  { eapply sys_inv_links; [exact Hinv2|done|done|]. intros c' p' x Hx. rewrite Ht2. case_decide; [done|].
    unfold q3, upd2 at 1 in Hx. case_decide; [|by eapply (si_ready _ _ Hinv1)].
    apply elem_of_app in Hx as [Hx|Hx%list_elem_of_singleton]; [by eapply (si_ready _ _ Hinv1)|done]. }
  destruct (sys_inv_state s3 q3 a TRunning Hinv3) as [Hinv4 Ht4]; [lia| |].
  { left. intros c' p' Hx. unfold q3, upd2 at 1 in Hx. case_decide; [|by apply Hsub in Hx as [_ ?]].
    apply elem_of_app in Hx as [Hx|Hx%list_elem_of_singleton]; [by apply Hsub in Hx as [_ ?]|done]. }
  eexists a, p, l, _, q3. split_and!; [reflexivity|done|done|done| | |].
  - intros c' p'. unfold q3. destruct (decide (c' = c ∧ p' = pc)) as [[-> ->]|Hd].
    + by rewrite upd2_eq.
    + by rewrite (upd2_ne _ c pc) by done; rewrite app_nil_r.
  - rewrite Ht4, decide_True by done. done.
  - rewrite Ht4, decide_False by done. destruct (links_fields s2 s3 cur Hl3) as (_ & -> & _).
    by rewrite Ht2, decide_True by done.
Qed.

Lemma sd_3_inv : sys_inv sd_3 qd_3.
Proof.
  split; [exact sd_3_wf| |..].
  - intros c p a Ha. unfold qd_3, qd_2, qd_1, upd2 in Ha.
    repeat case_decide; repeat (apply elem_of_cons in Ha as [->|Ha]; [by vm_compute|]); by apply elem_of_nil in Ha.
  - check_slots.
  - check_slots.
  - check_slots.
Qed.

Lemma schedule_picks_highest_witness :
  ∃ a s', schedule_inner 0 1 sd_3 = Done (Switch a, s') ∧ t_state (tasks s' !!! a) = TRunning ∧ t_state (tasks s' !!! 1%nat) = TReady.
Proof.
  destruct (schedule_picks_highest 0 1 sd_3 qd_3 sd_3_inv) as [[_ H]|(a & p & l & s' & q' & H1 & _ & _ & _ & _ & H2 & H3)].
  - vm_compute. lia.
  - by vm_compute.
  - by vm_compute.
  - intros c p Hx. unfold qd_3, qd_2, qd_1, upd2 in Hx.
    repeat case_decide; repeat (apply elem_of_cons in Hx as [Hx|Hx]; [discriminate Hx|]); by apply elem_of_nil in Hx.
  - exfalso. specialize (H 10%nat). discriminate H.
  - exists a, s'. split_and!; [exact H1|exact H2|exact H3].
Defined.

(** ** A task woken before it has switched away *)

Lemma remove_walk_cycle fuel tid c p prev cur s :
  t_next (task_ref s cur) = Some cur → cur ≠ tid → remove_walk fuel tid c p prev (Some cur) s = Spin.
Proof.
  intros Hn Hne. revert prev. induction fuel as [|f IH]; intros prev; [done|]. cbn [remove_walk].
  rewrite (proj2 (Nat.eqb_neq _ _) Hne), Hn. apply IH.
Qed.

Lemma remove_walk_lasso l fuel tid c p prev cur s :
  (∀ a, a ∈ l ++ [cur] → (a < MAX_TASKS)%nat ∧ a ≠ tid) →
  (∀ i a, l !! i = Some a → t_next (tasks s !!! a) = (l ++ [cur]) !! S i) →
  t_next (tasks s !!! cur) = Some cur →
  remove_walk fuel tid c p prev (head (l ++ [cur])) s = Spin.
Proof.
  intros Hin Hl Hc. revert fuel prev. induction l as [|a l IH]; intros fuel prev.
  - destruct (Hin cur (list_elem_of_here _ _)) as [Hx Hne]. apply remove_walk_cycle; [|done].
    unfold task_ref. by rewrite task_idx_small.
  - destruct fuel as [|f]; [done|]. cbn [remove_walk head app].
    destruct (Hin a (list_elem_of_here _ _)) as [Hx Hne]. rewrite (proj2 (Nat.eqb_neq _ _) Hne).
    unfold task_ref. rewrite task_idx_small by done. rewrite (Hl 0%nat a eq_refl).
    replace (((a :: l) ++ [cur]) !! 1%nat) with (head (l ++ [cur])) by (by rewrite head_lookup). apply IH.
    + intros b Hb. apply Hin. by apply list_elem_of_further.
    + intros i b Hb. exact (Hl (S i) b Hb).
Qed.

(** Queuing the last task of its queue a second time links it to itself. *)
Lemma enqueue_again s q c p l cur :
  rq_wf s q → q c p = l ++ [cur] →
  ∃ s', enqueue_task cur p s = Done s' ∧ links_only s s' ∧ t_next (tasks s' !!! cur) = Some cur ∧
    (∀ j, j ≠ cur → tasks s' !!! j = tasks s !!! j) ∧
    (c < MAX_CPUS)%nat ∧ rq_heads (rq_of s' c) !!! p = head (l ++ [cur]).
Proof.
  intros Hwf Hq. pose proof (rw_tasks _ _ Hwf) as Hlen.
  destruct (rw_in _ _ Hwf c p cur) as (Hc & Hp & Hcur & Hcc & _); [rewrite Hq; apply elem_of_app; right; apply list_elem_of_here|].
  destruct (rw_heads _ _ Hwf c p Hc Hp) as [Hh Ht]. rewrite Hq, last_snoc in Ht. rewrite Hq in Hh.
  assert (task_idx cur = cur) as Hi by (apply task_idx_small; lia).
  unfold enqueue_task. cbv zeta. unfold task_ref. rewrite Hi, Hcc.
  rewrite (proj2 (Nat.ltb_lt _ _) Hc), (proj2 (Nat.ltb_lt _ _) Hp). cbn [negb orb].
  change (rq_of (upd_task cur (with_next None) s) c) with (rq_of s c). rewrite Ht.
  eexists. split; [reflexivity|]. 
  assert (length (tasks (upd_task cur (with_next None) s)) = MAX_TASKS) as Hlen' by (by rewrite upd_task_length).
  split_and!.
  - etrans; [apply (links_next s cur None); [done|lia]|]. etrans; [apply (links_next _ cur (Some cur)); [done|lia]|]. apply links_rq.
  - cbn [set_rq tasks]. change (tasks (set_rq ?a ?b ?x)) with (tasks x). rewrite upd_task_lookup by (done || lia). by rewrite decide_True.
  - intros j Hj. change (tasks (set_rq ?a ?b ?x)) with (tasks x). rewrite !upd_task_lookup by (done || lia). by rewrite !decide_False.
  - done.
  - unfold rq_of, set_rq. cbn. rewrite list_lookup_total_insert_eq; [done|]. rewrite (rw_cpus _ _ Hwf). done.
Qed.

(** A task that is made ready again (by a futex wake or the timer) after
    it blocked but before it reached the switch is already at the end of its
    queue when [schedule_inner] puts it back: its [runqueue_next] then points
    to itself, and a removal of any task not on that level never ends. *)
Theorem wake_before_switch_cycles c p p0 cur l s q :
  sys_inv s q → q c p = l ++ [cur] → (p0 < p)%nat → q c p0 ≠ [] →
  ∃ a s', schedule_inner c cur s = Done (Switch a, s') ∧ t_next (tasks s' !!! cur) = Some cur ∧
    ∀ tid fuel, tid ∉ q c p → remove_walk fuel tid c p None (rq_heads (rq_of s' c) !!! p) s' = Spin.
Proof.
  intros Hinv Hq Hp0 Hne0. pose proof Hinv as [Hwf Hrd Hid Hcpu Hprio].
  assert (cur ∈ q c p) as Hin by (rewrite Hq; apply elem_of_app; right; apply list_elem_of_here).
  destruct (rw_in _ _ Hwf c p cur Hin) as (Hc & Hp & Hcur & Hcc & Hcp).
  unfold schedule_inner, schedule_pick. destruct (dequeue_spec s q c Hwf Hc) as (r & s1 & -> & Hr). cbn [cbind].
  destruct r as [a|]; [|destruct Hr as [_ Hr]; by rewrite Hr in Hne0].
  destruct Hr as (p' & l' & Hq' & Hmin & Hl1 & Hwf1).
  assert (p' < p)%nat as Hlt. { destruct (decide (p' ≤ p0)%nat); [lia|]. by destruct Hne0; apply Hmin; lia. }
  assert (a ∈ q c p') as Ha by (rewrite Hq'; apply list_elem_of_here).
  pose proof (queued_at _ _ _ _ _ Hwf Ha) as [_ Hap].
  assert (a ≠ cur) as Hne by (intros ->; lia).
  rewrite (proj2 (Nat.eqb_neq _ _) Hne). cbn [negb cbind].
  assert (task_idx cur = cur) as Hi by (apply task_idx_small; lia).
  unfold schedule_out, task_ref. rewrite Hi, (proj2 (Nat.eqb_neq cur 0)) by lia.
  destruct (links_fields s s1 cur Hl1) as (_ & Hst1 & Hc1' & Hp1 & _).
  rewrite Hst1, (Hrd _ _ _ Hin), Hp1, Hcp.
  change (state_eqb TReady TRunning) with false. change (state_eqb TReady TReady) with true. cbv iota.
  destruct (enqueue_again s1 _ c p l cur Hwf1) as (s2 & -> & Hl2 & Hn2 & Ho2 & _ & Hh2).
  { rewrite upd2_ne by lia. done. }
  cbn [cbind]. destruct (rw_in _ _ Hwf c p' a Ha) as (_ & _ & Ha1 & _).
  assert (length (tasks s2) = MAX_TASKS) as Hlen2.
  { destruct Hl2 as [-> _]. destruct Hl1 as [-> _]. apply Hwf. }
  set (s' := upd_task a (with_state TRunning) s2).
  assert (∀ j, t_next (tasks s' !!! j) = t_next (tasks s2 !!! j)) as Hnx.
  { intros j. unfold s'. rewrite upd_task_lookup by (done || lia). case_decide; by subst. }
  exists a, s'. split_and!; [done|by rewrite Hnx|].
  intros tid fuel Htid. change (rq_of s' c) with (rq_of s2 c). rewrite Hh2. rewrite Hq in Htid.
  apply remove_walk_lasso.
  - intros x Hx. split; [|by intros ->]. rewrite <- Hq in Hx. pose proof (rw_in _ _ Hwf _ _ _ Hx). lia.
  - intros i x Hx. rewrite Hnx, Ho2.
    + pose proof (rw_next _ _ Hwf1 c p) as Hth. rewrite upd2_ne, Hq in Hth by lia. apply Hth. by apply lookup_app_l_Some.
    + intros ->. pose proof (rw_nodup _ _ Hwf c p) as Hnd. rewrite Hq in Hnd. apply list.NoDup_app in Hnd as (_ & Hnd & _).
      apply (Hnd cur); [by eapply list_elem_of_lookup_2|apply list_elem_of_here].
  - by rewrite Hnx.
Qed.

(** Task 4 runs, tasks 2 and 3 are ready: it blocks, is woken, and only then
    reaches the switch. *)
Definition sd_run : sched := upd_task 4 (with_state TRunning) (run_enq 3 10 (run_enq 2 20 sd_0)).

Lemma wake_before_switch_cycles_witness :
  (let! (_, s) := block_on_futex 4 0x1000 sd_run in futex_wake 0x1000 1 s) = Done (1, sd_3) ∧
  ∃ a s', schedule_inner 0 4 sd_3 = Done (Switch a, s') ∧ t_next (tasks s' !!! 4%nat) = Some 4%nat ∧
    ∀ fuel, remove_walk fuel 5 0 20 None (rq_heads (rq_of s' 0) !!! 20%nat) s' = Spin.
Proof.
  split; [vm_compute; reflexivity|].
  destruct (wake_before_switch_cycles 0 20 10 4 [2%nat] sd_3 qd_3 sd_3_inv) as (a & s' & H1 & H2 & H3); [done|lia|done|].
  exists a, s'. split_and!; [exact H1|exact H2|]. intros fuel. apply H3.
  intros Hx. repeat (apply elem_of_cons in Hx as [Hx|Hx]; [discriminate Hx|]). by apply elem_of_nil in Hx.
Defined.
