(* ===== verification/Futex.v ===== *)
(** * The futex system call: [sys_futex] of [src/task.rs]

    The complete handlers: the checks of the user word and of the timeout, the
    blocking part, the switch, and what the call returns.  [words] is the
    user's view of the futex words: a missing entry is an address for which
    [user_range_valid] fails (and at which a direct access faults). *)

From S2P Require Import Prelude Sched SchedInv SchedClaims.
From stdpp Require Import base gmap numbers list.
Local Open Scope Z_scope.
#[local] Opaque MAX_TASKS PRIORITY_LEVELS MAX_CPUS.

Definition FUTEX_WAIT : Z := 0.
Definition FUTEX_WAKE : Z := 1.
Definition FUTEX_LOCK_PI : Z := 6.
Definition FUTEX_UNLOCK_PI : Z := 7.
Definition FUTEX_WAKE_BITSET : Z := 8.
Definition FUTEX_WAIT_BITSET : Z := 9.
Definition FUTEX_PRIVATE_FLAG : Z := 128.
Definition FUTEX_CLOCK_REALTIME : Z := 256.
Definition FUTEX_CMD_MASK : Z := Z.lnot (Z.lor FUTEX_PRIVATE_FLAG FUTEX_CLOCK_REALTIME).
Definition EAGAIN : Z := 11.
Definition EFAULT : Z := 14.
Definition EINVAL : Z := 22.
Definition ENOSYS : Z := 38.
Definition ETIMEDOUT : Z := 110.

Record fut := mkFut { fs : sched; words : gmap Z Z }.
Definition set_fs (s : sched) (f : fut) : fut := mkFut s (words f).
Definition set_word (a v : Z) (f : fut) : fut := mkFut (fs f) (<[a := v]> (words f)).

(** How a call leaves the kernel: it returns a value, or the scheduler has
    chosen what to run instead and the call resumes later. *)
Inductive fres := Ret (r : Z) | Away (p : pick).

(** The calling context: the CPU, the current task, [in_syscall()] and the
    tick counter. *)
Record ctx := mkCtx { c_cpu : nat; c_cur : nat; c_in_syscall : bool; c_now : Z }.

(** [schedule] and [force_schedule]: only the latter switches inside a system
    call; otherwise the call returns to its caller at once. *)
Definition schedule (force : bool) (k : ctx) (s : sched) : comp (pick * sched) :=
  if negb force && c_in_syscall k then Done (Stay, s) else schedule_inner (c_cpu k) (c_cur k) s.

(** The timeout argument: a null pointer, a pointer the validator refuses, or
    the seconds and nanoseconds it points to. *)
Inductive utime := TNull | TBad | TSpec (sec nsec : Z).

Definition futex_wait (k : ctx) (uaddr val : Z) (timeout : utime) (f : fut) : comp (fres * fut) :=
  match words f !! uaddr with
  | None => Done (Ret (- EFAULT), f)
  | Some actual =>
      if negb (actual =? val) then Done (Ret (- EAGAIN), f)
      else if (c_cur k =? 0)%nat then Done (Ret (- EINVAL), f)
      else
        match timeout with
        | TBad => Done (Ret (- EFAULT), f)
        | _ =>
            let deadline := match timeout with TSpec sec nsec => futex_deadline (c_now k) sec nsec | _ => 0 end in
            let! s := futex_wait_block (c_cur k) uaddr deadline (fs f) in
            let! (p, s) := schedule true k s in
            Done (Away p, set_fs s f)
        end
  end.

(** The rest of [futex_wait], when the task runs again. *)
Definition futex_wait_return (cur : nat) (f : fut) : Z * fut :=
  match futex_wait_resume cur (fs f) with
  | (true, s) => (- ETIMEDOUT, set_fs s f)
  | (false, s) => (0, set_fs s f)
  end.

Definition futex_lock_pi (k : ctx) (uaddr : Z) (f : fut) : comp (fres * fut) :=
  if (c_cur k =? 0)%nat then Done (Ret (- EINVAL), f)
  else match words f !! uaddr with
  | None => Panic
  | Some prev =>
      if prev =? 0 then Done (Ret 0, set_word uaddr (w32 (Z.of_nat (c_cur k))) f)
      else
        let owner := Z.to_nat (Z.ldiff prev FUTEX_WAITERS) in
        let f := if Z.land prev FUTEX_WAITERS =? 0 then set_word uaddr (Z.lor prev FUTEX_WAITERS) f else f in
        let! s := lock_pi_block (c_cur k) owner uaddr (fs f) in
        let! (p, s) := schedule false k s in
        Done (match p with Stay => Ret 0 | _ => Away p end, set_fs s f)
  end.

Definition futex_unlock (k : ctx) (uaddr : Z) (f : fut) : comp (fres * fut) :=
  if (c_cur k =? 0)%nat then Done (Ret (- EINVAL), f)
  else match words f !! uaddr with
  | None => Panic
  | Some _ =>
      let! (v, s) := futex_unlock_pi (c_cur k) uaddr (fs f) in
      Done (Ret 0, set_word uaddr v (set_fs s f))
  end.

Definition futex_wake_call (uaddr val : Z) (f : fut) : comp (fres * fut) :=
  let! (n, s) := futex_wake uaddr val (fs f) in Done (Ret n, set_fs s f).

Definition sys_futex (k : ctx) (uaddr op val : Z) (timeout : utime) (f : fut) : comp (fres * fut) :=
  let cmd := Z.land op FUTEX_CMD_MASK in
  if (cmd =? FUTEX_WAIT) || (cmd =? FUTEX_WAIT_BITSET) then futex_wait k uaddr val timeout f
  else if (cmd =? FUTEX_WAKE) || (cmd =? FUTEX_WAKE_BITSET) then futex_wake_call uaddr val f
  else if cmd =? FUTEX_LOCK_PI then futex_lock_pi k uaddr f
  else if cmd =? FUTEX_UNLOCK_PI then futex_unlock k uaddr f
  else Done (Ret (- ENOSYS), f).

(** ** Blocking *)

(** Blocking the current task keeps the queues consistent and takes it out. *)
Lemma block_spec s q cur (g : Task → Task) :
  sys_inv s q → (0 < cur < MAX_TASKS)%nat →
  (∀ t, t_id (g t) = t_id t ∧ t_cpu (g t) = t_cpu t ∧ t_prio (g t) = t_prio t ∧ t_next (g t) = t_next t) →
  ∃ r s1 q1, remove_from_runqueue cur s = Done (r, s1) ∧ links_only s s1 ∧
    (∀ c p, q1 c p = filter (λ x, x ≠ cur) (q c p)) ∧
    sys_inv (upd_task cur g s1) q1 ∧ tasks (upd_task cur g s1) !!! cur = g (tasks s1 !!! cur) ∧
    ∀ j, j ≠ cur → tasks (upd_task cur g s1) !!! j = tasks s1 !!! j.
Proof.
  intros Hinv Hcur Hg. pose proof Hinv as [Hwf Hrd Hid Hcpu Hprio].
  destruct (remove_spec s q cur Hwf) as (r & s1 & q1 & Hrun & Hl & Hwf1 & Hun & _ & Hq1); [lia|apply Hcpu; lia|apply Hprio; lia|].
  exists r, s1, q1. split_and!; [done|done|done| | |].
  - assert (sys_inv s1 q1) as [_ Hrd1 Hid1 Hcpu1 Hprio1].
    { eapply sys_inv_links; [done|done|done|]. intros c p a Ha. rewrite Hq1 in Ha. apply list_elem_of_filter in Ha as [_ Ha]. eauto. }
    assert (∀ j, tasks (upd_task cur g s1) !!! j = if decide (cur = j) then g (tasks s1 !!! cur) else tasks s1 !!! j) as Hx.
    { intros j. apply upd_task_lookup; [apply Hwf1|lia]. }
    destruct (Hg (tasks s1 !!! cur)) as (G1 & G2 & G3 & G4).
    split; [|intros c p a Ha; rewrite Hx; case_decide; [subst a; by destruct (Hun c p)|eauto]
             |intros j Hj; rewrite Hx; case_decide; [subst j; rewrite G1; auto|auto]
             |intros j Hj; rewrite Hx; case_decide; [subst j; rewrite G2; auto|auto]
             |intros j Hj; rewrite Hx; case_decide; [subst j; rewrite G3; auto|auto]].
    unfold upd_task, task_ref. rewrite task_idx_small by lia. apply rq_wf_task; [done|lia|done..].
  - rewrite upd_task_lookup by (apply Hwf1 || lia). by rewrite decide_True.
  - intros j Hj. rewrite upd_task_lookup by (apply Hwf1 || lia). by rewrite decide_False.
Qed.

Lemma pop_unqueued s q c p a l x :
  rq_wf s q → q c p = a :: l → x = a ∨ unqueued q x → unqueued (upd2 q c p l) x.
Proof.
  intros Hwf Hq Hx c' p' Hin.
  assert (a ∈ q c p) as Ha by (rewrite Hq; apply list_elem_of_here).
  unfold upd2 in Hin. case_decide as Hd.
  - destruct Hx as [->|Hx].
    + pose proof (rw_nodup _ _ Hwf c p) as Hnd. rewrite Hq in Hnd. by apply list.NoDup_cons in Hnd as [? _].
    + apply (Hx c p). rewrite Hq. by apply list_elem_of_further.
  - destruct Hx as [->|Hx]; [|by apply (Hx c' p')]. apply Hd.
    destruct (queued_at _ _ _ _ _ Hwf Hin) as [-> ->]. destruct (queued_at _ _ _ _ _ Hwf Ha) as [-> ->]. done.
Qed.

(** A task that is no longer running and calls the scheduler gives the CPU away
    and stays out of the queues. *)
Lemma schedule_blocked c cur s q :
  sys_inv s q → (0 < cur < MAX_TASKS)%nat → (c < MAX_CPUS)%nat → unqueued q cur →
  t_state (tasks s !!! cur) ≠ TRunning → t_state (tasks s !!! cur) ≠ TReady →
  ∃ p s' q', schedule_inner c cur s = Done (p, s') ∧ sys_inv s' q' ∧ unqueued q' cur ∧
    same_task (tasks s' !!! cur) (tasks s !!! cur) ∧
    (∀ j, t_id (tasks s' !!! j) = t_id (tasks s !!! j) ∧ (t_state (tasks s' !!! j) = t_state (tasks s !!! j) ∨
       t_state (tasks s !!! j) = TReady ∧ t_state (tasks s' !!! j) = TRunning)) ∧
    match p with
    | Switch a => a ≠ cur ∧ t_state (tasks s' !!! a) = TRunning ∧
        ∃ pr l, q c pr = a :: l ∧ ∀ pr', (pr' < pr)%nat → q c pr' = []
    | Idle => ∀ pr, q c pr = []
    | Stay => False
    end.
Proof.
  intros Hinv Hcur Hc Hun Hst1 Hst2. pose proof Hinv as [Hwf Hrd _ _ _].
  unfold schedule_inner, schedule_pick. destruct (dequeue_spec s q c Hwf Hc) as (r & s1 & -> & Hr). cbn [cbind].
  destruct r as [a|]; [|destruct Hr as [-> Hall]; exists Idle, s, q; split_and!; [done..|by intros j; split; [|left]|done]].
  destruct Hr as (pr & l & Hqa & Hmin & Hl & Hwf1).
  assert (a ∈ q c pr) as Ha by (rewrite Hqa; apply list_elem_of_here).
  assert (a ≠ cur) as Hne by (intros ->; by apply (Hun c pr)).
  destruct (rw_in _ _ Hwf c pr a Ha) as (_ & _ & Ha1 & _).
  rewrite (proj2 (Nat.eqb_neq _ _) Hne). cbn [negb cbind].
  destruct (links_fields s s1 cur Hl) as (_ & Hsc & _).
  assert (schedule_out cur s1 = Done s1) as ->.
  { unfold schedule_out, task_ref. rewrite task_idx_small, (proj2 (Nat.eqb_neq cur 0)) by lia. rewrite Hsc. unfold state_eqb.
    rewrite bool_decide_false by done. by rewrite bool_decide_false by done. }
  cbn [cbind].
  assert (sys_inv s1 (upd2 q c pr l)) as Hinv1.
  { eapply sys_inv_links; [done|done|done|]. intros c' p' x Hx. unfold upd2 in Hx.
    case_decide as Hd; [|by eapply Hrd]. destruct Hd as [-> ->]. apply (Hrd c pr). rewrite Hqa. by apply list_elem_of_further. }
  destruct (sys_inv_state s1 _ a TRunning Hinv1) as [Hinv2 Ht2]; [lia|left; eapply pop_unqueued; eauto|].
  eexists (Switch a), _, _. split_and!; [reflexivity|exact Hinv2|eapply pop_unqueued; eauto| | |done| |by exists pr, l].
  - rewrite Ht2, decide_False by done. apply Hl.
  - intros j. destruct (links_fields s s1 j Hl) as (Hj1 & Hj2 & _). rewrite Ht2. case_decide as Hd; [subst j|by split; [|left]].
    cbn [t_id t_state with_state]. split; [done|]. right. split; [|done]. by eapply Hrd.
  - rewrite Ht2. by rewrite decide_True.
Qed.

#[export] Instance utime_eq : EqDecision utime.
Proof. solve_decision. Defined.

(** [futex_wait] refuses a bad word pointer, a changed word and a bad
    timeout pointer without touching anything; otherwise it blocks the caller
    on the word with the computed deadline, takes it off the run queues and
    gives the CPU to the oldest ready task of the highest priority, or idles
    when there is none. *)
Theorem futex_wait_outcome k uaddr val timeout f q :
  sys_inv (fs f) q → (0 < c_cur k < MAX_TASKS)%nat → (c_cpu k < MAX_CPUS)%nat →
  let d := match timeout with TSpec sec nsec => futex_deadline (c_now k) sec nsec | _ => 0 end in
  match words f !! uaddr with
  | None => futex_wait k uaddr val timeout f = Done (Ret (- EFAULT), f)
  | Some actual =>
      if decide (actual ≠ val) then futex_wait k uaddr val timeout f = Done (Ret (- EAGAIN), f)
      else if decide (timeout = TBad) then futex_wait k uaddr val timeout f = Done (Ret (- EFAULT), f)
      else ∃ p s' q', futex_wait k uaddr val timeout f = Done (Away p, mkFut s' (words f)) ∧
        sys_inv s' q' ∧ unqueued q' (c_cur k) ∧
        waits_on uaddr (tasks s' !!! c_cur k) = negb (t_id (tasks (fs f) !!! c_cur k) =? 0)%nat ∧
        t_futex_deadline (tasks s' !!! c_cur k) = d ∧ t_wakeup_tick (tasks s' !!! c_cur k) = d ∧
        match p with
        | Switch a => a ≠ c_cur k ∧ t_state (tasks s' !!! a) = TRunning ∧
            ∃ pr l, filter (λ x, x ≠ c_cur k) (q (c_cpu k) pr) = a :: l ∧
              ∀ pr', (pr' < pr)%nat → filter (λ x, x ≠ c_cur k) (q (c_cpu k) pr') = []
        | Idle => ∀ pr, filter (λ x, x ≠ c_cur k) (q (c_cpu k) pr) = []
        | Stay => False
        end
  end.
Proof.
  intros Hinv Hcur Hcpu d. unfold futex_wait. destruct (words f !! uaddr) as [actual|] eqn:Hw; [|done].
  case_decide as Hv; [by rewrite (proj2 (Z.eqb_neq _ _) Hv)|]. subst actual.
  rewrite Z.eqb_refl, (proj2 (Nat.eqb_neq _ _)) by lia. cbn [negb].
  case_decide as Ht; [by rewrite Ht|].
  set (cur := c_cur k) in *. set (c := c_cpu k) in *.
  destruct (block_spec (fs f) q cur (with_block TBlocked uaddr d d) Hinv Hcur)
    as (r & s1 & q1 & Hrm & Hl1 & Hq1 & Hinv2 & Hme & Hoth); [by intros|].
  set (s2 := upd_task cur (with_block TBlocked uaddr d d) s1) in *.
  assert (futex_wait_block cur uaddr d (fs f) = Done s2) as Hblk by (unfold futex_wait_block; by rewrite Hrm).
  destruct (schedule_blocked c cur s2 q1) as (p & s' & q' & Hs & Hinv' & Hun' & Hsame & _ & Hp); [done|done|done| |by rewrite Hme|by rewrite Hme|].
  { intros c' p' Hx. rewrite Hq1 in Hx. by apply list_elem_of_filter in Hx as [? _]. }
  exists p, s', q'.
  assert (t_id (tasks s1 !!! cur) = t_id (tasks (fs f) !!! cur)) as Hid by apply (links_fields _ _ cur Hl1).
  rewrite Hme in Hsame. injection Hsame as I1 I2 I3 I4 I5 I6 I7 I8 I9.
  split_and!; [|done|done| |done|done|].
  - unfold schedule. cbn [negb andb]. fold c cur. destruct timeout; [|done|]; cbv zeta; fold d; rewrite Hblk; cbn [cbind]; by rewrite Hs.
  - unfold waits_on. rewrite I1, I2, I6, Hid, Z.eqb_refl. by cbn.
  - destruct p; [|done|intros pr; rewrite <- Hq1; apply Hp].
    destruct Hp as (? & ? & pr & l & Hl & Hmin). split_and!; [done|done|]. exists pr, l. rewrite <- Hq1. split; [done|].
    intros pr' Hlt. rewrite <- Hq1. by apply Hmin.
Qed.

(** Task 1 waits on a word with a timeout of one second; 2, 3 and 4 are ready. *)
Definition fd_1 : fut := mkFut sd_3 {[ 0x1000 := 7 ]}.

Lemma futex_wait_outcome_witness :
  ∃ p s' q', futex_wait (mkCtx 0 1 true 100) 0x1000 7 (TSpec 1 0) fd_1 = Done (Away p, mkFut s' (words fd_1)) ∧ sys_inv s' q' ∧
    t_futex_deadline (tasks s' !!! 1%nat) = 150.
Proof.
  pose proof (futex_wait_outcome (mkCtx 0 1 true 100) 0x1000 7 (TSpec 1 0) fd_1 qd_3 sd_3_inv) as H.
  destruct H as (p & s' & q' & H1 & H2 & _ & _ & H3 & _).
  - cbn. rewrite max_tasks_64. lia.
  - vm_compute. lia.
  - exists p, s', q'. split_and!; [exact H1|exact H2|]. etrans; [exact H3|]. vm_compute. reflexivity.
Defined.

(** ** Waking *)

(** What the timer does to one task. *)
Definition timer_woken (now : Z) (t : Task) : Task :=
  if sleep_over now t then with_block TReady (t_blocked_on t) 0 (t_futex_deadline t) t else t.

#[export] Instance timer_woken_proper now : Proper (same_task ==> same_task) (timer_woken now).
Proof.
  intros t t' Ht. unfold same_task in *. unfold timer_woken, sleep_over.
  destruct t, t'. injection Ht as -> -> -> -> -> -> -> -> ->. cbn [t_state t_wakeup_tick t_id].
  by destruct (_ && _ && _ && _).
Qed.

Lemma wakeup_loop_spec n i now s q :
  sys_inv s q → (i + n = MAX_TASKS)%nat →
  ∃ s' q', wakeup_loop n i now s = Done s' ∧ sys_inv s' q' ∧
    (∀ j, (i ≤ j < MAX_TASKS)%nat → same_task (tasks s' !!! j) (timer_woken now (tasks s !!! j))) ∧
    (∀ j, (j < i)%nat → same_task (tasks s' !!! j) (tasks s !!! j)).
Proof.
  revert i s q. induction n as [|n IH]; intros i s q Hinv Hi; cbn [wakeup_loop].
  - exists s, q. split_and!; [done|done|intros; lia|done].
  - destruct (sleep_over now (tasks s !!! i)) eqn:Hov.
    + set (t := with_block TReady (t_blocked_on (tasks s !!! i)) 0 (t_futex_deadline (tasks s !!! i)) (tasks s !!! i)).
      assert (timer_woken now (tasks s !!! i) = t) as Ht by (unfold timer_woken; by rewrite Hov).
      unfold sleep_over in Hov. rewrite !andb_true_iff in Hov. destruct Hov as [[[Hst _] _] Hnz].
      apply bool_decide_eq_true in Hst. apply negb_true_iff, Nat.eqb_neq in Hnz.
      destruct (wake_one s q i t) as (s1 & Hen & Hinv1 & Hsi & Hsj); try done; [lia|].
      rewrite Hen. cbn [cbind].
      destruct (IH (S i) s1 _ Hinv1 ltac:(lia)) as (s' & q' & Hrun & Hinv' & Hj & Hlo).
      exists s', q'. split_and!; [done|done| |].
      * intros j Hj'. destruct (decide (j = i)) as [->|Hne]; [rewrite Hlo, Hsi, Ht by lia; done|].
        rewrite Hj by lia. by rewrite Hsj.
      * intros j Hj'. rewrite Hlo by lia. apply Hsj. lia.
    + destruct (IH (S i) s q Hinv ltac:(lia)) as (s' & q' & Hrun & Hinv' & Hj & Hlo).
      exists s', q'. split_and!; [done|done| |intros; apply Hlo; lia].
      intros j Hj'. destruct (decide (j = i)) as [->|Hne]; [|apply Hj; lia].
      rewrite Hlo by lia. unfold timer_woken. by rewrite Hov.
Qed.

(** What a waiter returns.  A task blocked on a word returns 0 after a
    wake that reaches it, whatever its deadline; it returns ETIMEDOUT after
    the timer passed its deadline; before that, or without a deadline, the
    timer leaves it blocked. *)
Theorem futex_wait_verdict f q cur uaddr d :
  sys_inv (fs f) q → (cur < MAX_TASKS)%nat → waits_on uaddr (tasks (fs f) !!! cur) = true →
  t_wakeup_tick (tasks (fs f) !!! cur) = d → t_futex_deadline (tasks (fs f) !!! cur) = d → 0 ≤ d →
  (∀ n, 0 ≤ n → cur ∈ take (Z.to_nat n) (waiters (fs f) uaddr 0 MAX_TASKS) →
     ∃ s', futex_wake uaddr n (fs f) = Done (Z.min n (Z.of_nat (length (waiters (fs f) uaddr 0 MAX_TASKS))), s') ∧
       t_state (tasks s' !!! cur) = TReady ∧ (futex_wait_return cur (set_fs s' f)).1 = 0) ∧
  (∀ now, ∃ s', wakeup_expired_sleepers now (fs f) = Done s' ∧
     if decide (0 < d ≤ now)
     then t_state (tasks s' !!! cur) = TReady ∧ (futex_wait_return cur (set_fs s' f)).1 = - ETIMEDOUT
     else waits_on uaddr (tasks s' !!! cur) = true).
Proof.
  intros Hinv Hcur Hw Hwt Hfd Hd. split.
  - intros n Hn Hin. destruct (futex_wake_loop_spec MAX_TASKS 0 uaddr n 0 (fs f) q Hinv eq_refl)
      as (s' & q' & Hrun & _ & _ & HW & _). rewrite Z.sub_0_r in *. specialize (HW cur Hin).
    exists s'. unfold same_task in HW. injection HW as I1 I2 I3 I4 I5 I6 I7 I8 I9. split_and!.
    + unfold futex_wake. rewrite Hrun, length_take. do 2 f_equal. lia.
    + done.
    + unfold futex_wait_return, futex_wait_resume, task_ref. cbn [fs set_fs]. rewrite task_idx_small, I8 by done. done.
  - intros now. destruct (wakeup_loop_spec MAX_TASKS 0 now (fs f) q Hinv eq_refl) as (s' & q' & Hrun & _ & Hj & _).
    specialize (Hj cur ltac:(lia)). exists s'. split; [done|].
    assert (sleep_over now (tasks (fs f) !!! cur) = bool_decide (0 < d ≤ now)) as Hov.
    { unfold waits_on in Hw. apply andb_true_iff in Hw as [[Hst _]%andb_true_iff Hnz]. unfold sleep_over.
      rewrite Hst, Hnz, Hwt. destruct (Z.ltb_spec 0 d), (Z.leb_spec d now); cbn; symmetry; (apply bool_decide_eq_true || apply bool_decide_eq_false); lia. }
    unfold timer_woken in Hj. rewrite Hov in Hj. destruct (decide (0 < d ≤ now)) as [Hdn|Hdn].
    + rewrite bool_decide_true in Hj by done. unfold same_task in Hj. injection Hj as I1 I2 I3 I4 I5 I6 I7 I8 I9. split; [done|].
      unfold futex_wait_return, futex_wait_resume, task_ref. cbn [fs set_fs]. rewrite task_idx_small, I8, Hfd by done.
      by rewrite (proj2 (Z.eqb_neq d 0)) by lia.
    + rewrite bool_decide_false in Hj by done. by rewrite Hj.
Qed.

(** Task 5 waits with deadline 150. *)
Definition fd_2 : fut :=
  mkFut (mkSched (<[5%nat := mkTask 5 TBlocked 0 10 10 None 0x1000 150 150 false]> demo_tasks) (replicate MAX_CPUS rq_new) 63)
    {[ 0x1000 := 7 ]}.

Lemma fd_2_inv : sys_inv (fs fd_2) (λ _ _, []).
Proof. split; [by apply rq_wf_empty|intros c p a Ha; by apply elem_of_nil in Ha|..]; check_slots. Qed.

Lemma futex_wait_verdict_witness :
  (∃ s', futex_wake 0x1000 1 (fs fd_2) = Done (1, s') ∧ (futex_wait_return 5 (set_fs s' fd_2)).1 = 0) ∧
  (∃ s', wakeup_expired_sleepers 150 (fs fd_2) = Done s' ∧ (futex_wait_return 5 (set_fs s' fd_2)).1 = - ETIMEDOUT) ∧
  (∃ s', wakeup_expired_sleepers 149 (fs fd_2) = Done s' ∧ waits_on 0x1000 (tasks s' !!! 5%nat) = true).
Proof.
  destruct (futex_wait_verdict fd_2 _ 5 0x1000 150 fd_2_inv) as [H1 H2];
    [rewrite max_tasks_64; lia|vm_compute; reflexivity|vm_compute; reflexivity|vm_compute; reflexivity|lia|].
  split_and!.
  - destruct (H1 1) as (s' & E1 & _ & E2); [lia|vm_compute; apply list_elem_of_here|].
    exists s'. split; [|exact E2]. rewrite E1. vm_compute. reflexivity.
  - destruct (H2 150) as (s' & E1 & E2). rewrite decide_True in E2 by lia. destruct E2 as [_ E2]. exists s'. split; [exact E1|exact E2].
  - destruct (H2 149) as (s' & E1 & E2). rewrite decide_False in E2 by lia. exists s'. split; [exact E1|exact E2].
Defined.

(** ** Priority-inheriting locks *)

Lemma enqueue_total s tid p :
  (t_cpu (task_ref s tid) < MAX_CPUS)%nat → (p < PRIORITY_LEVELS)%nat →
  ∃ s', enqueue_task tid p s = Done s' ∧ length (tasks s') = length (tasks s).
Proof.
  intros Hc Hp. unfold enqueue_task. rewrite (proj2 (Nat.ltb_lt _ _) Hc), (proj2 (Nat.ltb_lt _ _) Hp). cbn [negb orb].
  destruct (rq_tails _ !!! p); eexists; (split; [reflexivity|]); cbn [tasks set_rq]; by rewrite !upd_task_length.
Qed.

Lemma lock_pi_block_total cur owner uaddr s q :
  sys_inv s q → (0 < cur < MAX_TASKS)%nat → (owner < MAX_TASKS)%nat →
  ∃ s', lock_pi_block cur owner uaddr s = Done s' ∧ t_state (tasks s' !!! cur) = TBlocked ∧
    t_blocked_on (tasks s' !!! cur) = uaddr.
Proof.
  intros Hinv Hcur Ho. pose proof Hinv as [Hwf _ _ Hcpu Hprio]. pose proof (rw_tasks _ _ Hwf) as Hlen.
  assert (∀ s1, length (tasks s1) = MAX_TASKS → ∃ s', Done (upd_task cur (λ t, with_block TBlocked uaddr (t_wakeup_tick t) (t_futex_deadline t) t) s1) = Done s' ∧
    t_state (tasks s' !!! cur) = TBlocked ∧ t_blocked_on (tasks s' !!! cur) = uaddr) as Hend.
  { intros s1 Hl1. eexists. split; [reflexivity|]. rewrite upd_task_lookup by (done || lia). by rewrite decide_True. }
  unfold lock_pi_block. cbv zeta. assert (task_ref s cur = tasks s !!! cur) as -> by (unfold task_ref; by rewrite task_idx_small by lia).
  destruct (_ && _); cbn [cbind]; [|by apply Hend].
  destruct (remove_spec s q owner Hwf) as (r & s1 & q1 & -> & Hl1 & Hwf1 & _); [lia|by apply Hcpu|by apply Hprio|]. cbn [cbind].
  set (s2 := upd_task owner _ s1).
  assert (length (tasks s1) = MAX_TASKS) as Hlen1 by apply Hwf1.
  assert (length (tasks s2) = MAX_TASKS) as Hlen2 by (unfold s2; by rewrite upd_task_length).
  destruct (state_eqb _ _); cbn [cbind]; [|by apply Hend].
  destruct (enqueue_total s2 owner (t_prio (tasks s !!! cur))) as (s3 & -> & Hl3).
  - unfold task_ref. rewrite task_idx_small by done. unfold s2. rewrite upd_task_lookup by done. rewrite decide_True by done. cbn.
    destruct (links_fields s s1 owner Hl1) as (_ & _ & -> & _). by apply Hcpu.
  - apply Hprio. lia.
  - cbn [cbind]. apply Hend. congruence.
Qed.

(** The priority-inheriting lock does not exclude.  Called from a system
    call on a word another task holds, [futex_lock_pi] marks the caller
    blocked and calls [schedule], which returns at once inside a system call;
    the call returns 0, the value that means the lock is taken, while the word
    still names the other owner. *)
Theorem lock_pi_returns_unowned k uaddr prev f q :
  sys_inv (fs f) q → (0 < c_cur k < MAX_TASKS)%nat → c_in_syscall k = true →
  words f !! uaddr = Some prev → 0 < prev < 2 ^ 32 → (Z.to_nat (Z.ldiff prev FUTEX_WAITERS) < MAX_TASKS)%nat →
  ∃ f', sys_futex k uaddr (Z.lor FUTEX_LOCK_PI FUTEX_PRIVATE_FLAG) 0 TNull f = Done (Ret 0, f') ∧
    (∃ v, words f' !! uaddr = Some v ∧ Z.ldiff v FUTEX_WAITERS = Z.ldiff prev FUTEX_WAITERS) ∧
    t_state (tasks (fs f') !!! c_cur k) = TBlocked.
Proof.
  intros Hinv Hcur Hsys Hw Hprev Ho. change (sys_futex k uaddr _ 0 TNull f) with (futex_lock_pi k uaddr f).
  unfold futex_lock_pi. rewrite (proj2 (Nat.eqb_neq _ _)) by lia. rewrite Hw, (proj2 (Z.eqb_neq _ _)) by lia. cbv zeta.
  set (f1 := if Z.land prev FUTEX_WAITERS =? 0 then _ else f).
  assert (fs f1 = fs f) as Hfs by (unfold f1; by destruct (_ =? 0)).
  destruct (lock_pi_block_total (c_cur k) _ uaddr (fs f) q Hinv Hcur Ho) as (s' & Hrun & Hst & _).
  rewrite Hfs, Hrun. cbn [cbind]. unfold schedule. rewrite Hsys. cbn [negb andb cbind].
  eexists. split; [reflexivity|]. split; [|exact Hst].
  unfold f1. destruct (Z.land prev FUTEX_WAITERS =? 0) eqn:Hb; [|by exists prev].
  exists (Z.lor prev FUTEX_WAITERS). split; [cbn [words set_fs set_word]; by rewrite lookup_insert_eq|].
  apply Z.bits_inj'. intros n Hn. rewrite !Z.ldiff_spec, Z.lor_spec. by destruct (Z.testbit prev n), (Z.testbit FUTEX_WAITERS n).
Qed.

(** Task 1 asks for a lock task 3 holds. *)
Definition fd_3 : fut := mkFut sd_3 {[ 0x2000 := 3 ]}.

Lemma lock_pi_returns_unowned_witness :
  ∃ f', sys_futex (mkCtx 0 1 true 0) 0x2000 134 0 TNull fd_3 = Done (Ret 0, f') ∧
    (∃ v, words f' !! 0x2000 = Some v ∧ Z.ldiff v FUTEX_WAITERS = 3) ∧ t_state (tasks (fs f') !!! 1%nat) = TBlocked.
Proof.
  apply (lock_pi_returns_unowned (mkCtx 0 1 true 0) 0x2000 3 fd_3 qd_3 sd_3_inv).
  - cbn. rewrite max_tasks_64. lia.
  - reflexivity.
  - vm_compute. reflexivity.
  - lia.
  - apply Nat.ltb_lt. vm_compute. reflexivity.
Defined.
