(* ===== verification/Bytes.v ===== *)
(** * Bytes in memory and in structs

    Memory as a map of bytes by address with the copies the kernel makes
    ([copy_nonoverlapping], [write_bytes]), and the little-endian layout of
    [repr(C)] integers. *)

From S2P Require Import Prelude.
From stdpp Require Import base gmap numbers list.
Local Open Scope Z_scope.

(** ** Memory *)

Fixpoint mem_write (a : Z) (bs : list Z) (m : gmap Z Z) : gmap Z Z :=
  match bs with
  | [] => m
  | b :: bs => mem_write (a + 1) bs (<[a := b]> m)
  end.

Definition mem_read (a : Z) (n : nat) (m : gmap Z Z) : list Z := (λ i, getd 0 m (a + Z.of_nat i)) <$> seq 0 n.

Definition mem_zero (a n : Z) (m : gmap Z Z) : gmap Z Z := mem_write a (replicate (Z.to_nat n) 0) m.

Lemma mem_write_get a bs m x :
  getd 0 (mem_write a bs m) x =
  if decide (a ≤ x < a + Z.of_nat (length bs)) then bs !!! Z.to_nat (x - a) else getd 0 m x.
Proof.
  revert a m. induction bs as [|b bs IH]; intros a m; cbn [mem_write length].
  { by rewrite decide_False by lia. }
  rewrite IH. destruct (decide (x = a)) as [->|Hne].
  - rewrite decide_False, decide_True by lia. rewrite getd_insert_eq, Z.sub_diag. done.
  - rewrite getd_insert_ne by done. destruct (decide (a + 1 ≤ x < a + 1 + Z.of_nat (length bs))).
    + rewrite decide_True by lia. replace (Z.to_nat (x - a)) with (S (Z.to_nat (x - (a + 1)))) by lia. done.
    + by rewrite decide_False by lia.
Qed.

Lemma mem_zero_get a n m x : 0 ≤ n → getd 0 (mem_zero a n m) x = if decide (a ≤ x < a + n) then 0 else getd 0 m x.
Proof.
  intros Hn. unfold mem_zero. rewrite mem_write_get, length_replicate, Z2Nat.id by done.
  case_decide; [|done]. apply lookup_total_replicate_2. lia.
Qed.

Lemma mem_read_lookup a n m i : (i < n)%nat → mem_read a n m !! i = Some (getd 0 m (a + Z.of_nat i)).
Proof. intros. unfold mem_read. by rewrite list_lookup_fmap, lookup_seq_lt. Qed.

Lemma mem_read_length a n m : length (mem_read a n m) = n.
Proof. unfold mem_read. by rewrite length_fmap, length_seq. Qed.

Lemma mem_read_ext a n m m' :
  (∀ x, a ≤ x < a + Z.of_nat n → getd 0 m x = getd 0 m' x) → mem_read a n m = mem_read a n m'.
Proof.
  intros He. unfold mem_read. apply list_fmap_ext. intros _ i Hi%list_elem_of_lookup_2%elem_of_seq.
  apply He. lia.
Qed.

Lemma mem_read_write a bs m : mem_read a (length bs) (mem_write a bs m) = bs.
Proof.
  apply list_eq_same_length with (length bs); [done|apply mem_read_length|].
  intros i x y Hi Hx Hy. rewrite mem_read_lookup in Hx by lia. injection Hx as <-.
  rewrite mem_write_get, decide_True by lia. replace (Z.to_nat (a + Z.of_nat i - a)) with i by lia.
  by apply list_lookup_total_correct.
Qed.

(** ** Little-endian integers *)

Fixpoint le_bytes (n : nat) (z : Z) : list Z :=
  match n with
  | O => []
  | S n' => z mod 256 :: le_bytes n' (z / 256)
  end.

Fixpoint le_value (bs : list Z) : Z :=
  match bs with
  | [] => 0
  | b :: bs => b + 256 * le_value bs
  end.

Definition is_byte (b : Z) : Prop := 0 ≤ b < 256.

Lemma le_bytes_length n z : length (le_bytes n z) = n.
Proof. revert z. induction n as [|n IH]; intros z; [done|]. cbn. by rewrite IH. Qed.

Lemma le_value_bytes n z : 0 ≤ z < 256 ^ Z.of_nat n → le_value (le_bytes n z) = z.
Proof.
  revert z. induction n as [|n IH]; intros z Hz; cbn [le_bytes le_value].
  - change (256 ^ Z.of_nat 0) with 1 in Hz. lia.
  - rewrite Nat2Z.inj_succ, Z.pow_succ_r in Hz by lia. rewrite IH.
    + pose proof (Z.div_mod z 256). lia.
    + split; [apply Z.div_pos; lia|]. apply Z.div_lt_upper_bound; lia.
Qed.

Lemma le_bytes_value bs : Forall is_byte bs → le_bytes (length bs) (le_value bs) = bs.
Proof.
  induction 1 as [|b bs Hb Hbs IH]; [done|]. cbn [length le_bytes le_value]. unfold is_byte in Hb.
  assert ((b + 256 * le_value bs) mod 256 = b) as -> by (Z.to_euclidean_division_equations; lia).
  assert ((b + 256 * le_value bs) / 256 = le_value bs) as -> by (Z.to_euclidean_division_equations; lia).
  by rewrite IH.
Qed.

Lemma le_value_bound bs : Forall is_byte bs → 0 ≤ le_value bs < 256 ^ Z.of_nat (length bs).
Proof.
  induction 1 as [|b bs Hb Hbs IH]; [done|]. cbn [length le_value]. unfold is_byte in Hb.
  rewrite Nat2Z.inj_succ, Z.pow_succ_r by lia. lia.
Qed.
