(* ===== verification/VfsTypes.v ===== *)
(** * Shared types of the file systems: [src/vfs_core/types.rs]

    The result type, the mode bits, the open flags, [Stat], and the counter
    that numbers file systems. *)

From S2P Require Import Prelude.
From stdpp Require Import base numbers strings list.
Local Open Scope Z_scope.

(** [Result<T, &'static str>] *)
Inductive res (T : Type) := Ok (x : T) | Err (e : string).
Arguments Ok {T} x.
Arguments Err {T} e.

Definition MAX_NAME : nat := 255.
Definition MAX_PATH : nat := 4096.
Definition MAX_SYMLINKS : Z := 40.
Definition ROOT_UID : Z := 0.
Definition ROOT_GID : Z := 0.

Definition O_RDONLY : Z := 0.
Definition O_WRONLY : Z := 1.
Definition O_RDWR : Z := 2.
Definition O_CREAT : Z := 0x40.
Definition O_EXCL : Z := 0x80.
Definition O_TRUNC : Z := 0x200.
Definition O_APPEND : Z := 0x400.
Definition O_DIRECTORY : Z := 0x10000.

Definition S_IXOTH : Z := 0x1.
Definition S_IWOTH : Z := 0x2.
Definition S_IROTH : Z := 0x4.
Definition S_IXGRP : Z := 0x8.
Definition S_IWGRP : Z := 0x10.
Definition S_IRGRP : Z := 0x20.
Definition S_IXUSR : Z := 0x40.
Definition S_IWUSR : Z := 0x80.
Definition S_IRUSR : Z := 0x100.
Definition S_ISVTX : Z := 0x200.
Definition S_ISGID : Z := 0x400.
Definition S_ISUID : Z := 0x800.
Definition S_IFMT : Z := 0xF000.
Definition S_IFSOCK : Z := 0xC000.
Definition S_IFLNK : Z := 0xA000.
Definition S_IFREG : Z := 0x8000.
Definition S_IFBLK : Z := 0x6000.
Definition S_IFDIR : Z := 0x4000.
Definition S_IFCHR : Z := 0x2000.
Definition S_IFIFO : Z := 0x1000.

Record Stat := mkStat {
  st_dev : Z; st_ino : Z; st_mode : Z; st_nlink : Z; st_uid : Z; st_gid : Z; st_rdev : Z;
  st_size : Z; st_blksize : Z; st_blocks : Z; st_atime : Z; st_mtime : Z; st_ctime : Z;
}.

Definition stat_empty : Stat := mkStat 0 0 0 0 0 0 0 0 0 0 0 0 0.

(** An entry returned by [readdir]: inode, offset, name and type. *)
Record Dirent := mkDirent { de_ino : Z; de_offset : Z; de_name : list Z; de_type : Z }.

(** The operations of [VnodeOps] that most devices only refuse. *)
Inductive vop :=
| VLookup | VReaddir | VCreate | VMkdir | VRemove | VRmdir | VStat | VReadlink | VSymlink | VRename
| VSetattr | VGetxattr | VSetxattr | VListxattr | VTruncate | VIoctl.
