(* ===== verification/Ramfs.v ===== *)
(** * The RAM file system: [src/vfs_core/ramfs.rs] and [src/vfs_core/xattr.rs]

    A table of 256 inodes.  An inode holds up to 1024 block pointers, 64
    directory entries, a symbolic link target and 16 extended attributes; the
    blocks and the attribute values are pages taken from the page allocator,
    known only through [PageAllocator].  Memory is a map of bytes by physical
    address.  The operations are the [VnodeOps] of the source; the error
    strings are kept.  Each Rust array index and slice that can go out of
    range is a [Panic]. *)

From S2P Require Import Prelude Bytes VfsTypes PageAlloc.
From stdpp Require Import base gmap numbers strings list.
Local Open Scope Z_scope.

Definition MAX_INODES : Z := 256.
Definition MAX_DIRENTS : nat := 64.
Definition RAMFS_BLOCK : Z := 4096.
Definition MAX_BLOCKS_PER_INODE : Z := 1024.
Definition MAX_SYMLINK_LEN : nat := 256.
Definition XATTR_NAME_MAX : nat := 255.
Definition XATTR_SIZE_MAX : Z := 65536.
Definition MAX_XATTR_PER_INODE : nat := 16.
Definition FT_REG_FILE : Z := 1.
Definition FT_DIR : Z := 2.
Definition FT_SYMLINK : Z := 7.

(** ** Data *)

Record XattrEntry := mkXattrEntry {
  xe_name : list Z;
  xe_name_len : nat;
  xe_value_len : nat;
  xe_value_off : Z;
}.

Record XattrBlock := mkXattrBlock {
  xb_entries : list XattrEntry;
  xb_count : nat;
  xb_data_block : Z;
}.

Record RamDirent := mkRamDirent {
  d_ino : Z;
  d_name : list Z;
  d_name_len : nat;
  d_file_type : Z;
  d_used : bool;
}.

Record RamInode := mkRamInode {
  i_mode : Z;
  i_uid : Z;
  i_gid : Z;
  i_size : Z;
  i_nlink : Z;
  i_blocks : list Z;
  i_block_count : Z;
  i_used : bool;
  i_symlink_target : list Z;
  i_symlink_len : nat;
  i_xattr : XattrBlock;
  i_dirents : list RamDirent;
  i_dirent_count : nat;
}.

Definition xattr_entry_empty : XattrEntry := mkXattrEntry (replicate XATTR_NAME_MAX 0) 0 0 0.
Definition xattr_block_empty : XattrBlock := mkXattrBlock (replicate MAX_XATTR_PER_INODE xattr_entry_empty) 0 0.
Definition dirent_empty : RamDirent := mkRamDirent 0 (replicate MAX_NAME 0) 0 0 false.
Definition null_blocks : list Z := replicate (Z.to_nat MAX_BLOCKS_PER_INODE) 0.
Definition inode_empty : RamInode :=
  mkRamInode 0 0 0 0 0 null_blocks 0 false (replicate MAX_SYMLINK_LEN 0) 0
    xattr_block_empty (replicate MAX_DIRENTS dirent_empty) 0.

#[export] Instance XattrEntry_inhabited : Inhabited XattrEntry := populate xattr_entry_empty.
#[export] Instance RamDirent_inhabited : Inhabited RamDirent := populate dirent_empty.
#[export] Instance RamInode_inhabited : Inhabited RamInode := populate inode_empty.

Definition with_attr (mode uid gid nlink : Z) (n : RamInode) : RamInode :=
  mkRamInode mode uid gid (i_size n) nlink (i_blocks n) (i_block_count n) (i_used n)
    (i_symlink_target n) (i_symlink_len n) (i_xattr n) (i_dirents n) (i_dirent_count n).
Definition with_mode (m : Z) (n : RamInode) : RamInode := with_attr m (i_uid n) (i_gid n) (i_nlink n) n.
Definition with_size (sz : Z) (n : RamInode) : RamInode :=
  mkRamInode (i_mode n) (i_uid n) (i_gid n) sz (i_nlink n) (i_blocks n) (i_block_count n) (i_used n)
    (i_symlink_target n) (i_symlink_len n) (i_xattr n) (i_dirents n) (i_dirent_count n).
Definition with_blocks (bs : list Z) (c : Z) (n : RamInode) : RamInode :=
  mkRamInode (i_mode n) (i_uid n) (i_gid n) (i_size n) (i_nlink n) bs c (i_used n)
    (i_symlink_target n) (i_symlink_len n) (i_xattr n) (i_dirents n) (i_dirent_count n).
Definition with_used (u : bool) (n : RamInode) : RamInode :=
  mkRamInode (i_mode n) (i_uid n) (i_gid n) (i_size n) (i_nlink n) (i_blocks n) (i_block_count n) u
    (i_symlink_target n) (i_symlink_len n) (i_xattr n) (i_dirents n) (i_dirent_count n).
Definition with_symlink (t : list Z) (l : nat) (n : RamInode) : RamInode :=
  mkRamInode (i_mode n) (i_uid n) (i_gid n) (i_size n) (i_nlink n) (i_blocks n) (i_block_count n) (i_used n)
    t l (i_xattr n) (i_dirents n) (i_dirent_count n).
Definition with_xattr (x : XattrBlock) (n : RamInode) : RamInode :=
  mkRamInode (i_mode n) (i_uid n) (i_gid n) (i_size n) (i_nlink n) (i_blocks n) (i_block_count n) (i_used n)
    (i_symlink_target n) (i_symlink_len n) x (i_dirents n) (i_dirent_count n).
Definition with_dirents (ds : list RamDirent) (c : nat) (n : RamInode) : RamInode :=
  mkRamInode (i_mode n) (i_uid n) (i_gid n) (i_size n) (i_nlink n) (i_blocks n) (i_block_count n) (i_used n)
    (i_symlink_target n) (i_symlink_len n) (i_xattr n) ds c.

(** ** Names

    [a.len() == name.len() && &a.name[..a.len()] == name]; the slice panics
    when the recorded length exceeds the array. *)
Definition slice_eq (arr : list Z) (n : nat) (name : list Z) : comp bool :=
  if negb (n =? length name)%nat then Done false
  else if (length arr <? n)%nat then Panic
  else Done (bool_decide (take n arr = name)).

(** [dst[..src.len()].copy_from_slice(src)] *)
Definition overlay (src dst : list Z) : list Z := src ++ drop (length src) dst.

(** [RamDirent::set] *)
Definition dirent_set (ino : Z) (name : list Z) (ftype : Z) (d : RamDirent) : RamDirent :=
  mkRamDirent ino (overlay (take MAX_NAME name) (d_name d)) (Z.to_nat (w16 (Z.of_nat (length name)))) ftype true.

(** The scan [for i in 0..dirent_count] for a used entry with this name. *)
Fixpoint find_dirent (n i : nat) (ds : list RamDirent) (name : list Z) : comp (option nat) :=
  match n with
  | O => Done None
  | S n' =>
      let d := ds !!! i in
      if d_used d then
        let! hit := slice_eq (d_name d) (d_name_len d) name in
        if hit then Done (Some i) else find_dirent n' (S i) ds name
      else find_dirent n' (S i) ds name
  end.

Definition find_name (n : RamInode) (name : list Z) : comp (option nat) :=
  find_dirent (i_dirent_count n) 0 (i_dirents n) name.

(** ** Extended attributes: [XattrBlock] *)

Fixpoint xattr_scan (n i : nat) (es : list XattrEntry) (name : list Z) : comp (option nat) :=
  match n with
  | O => Done None
  | S n' =>
      let! hit := slice_eq (xe_name (es !!! i)) (xe_name_len (es !!! i)) name in
      if hit then Done (Some i) else xattr_scan n' (S i) es name
  end.

Definition xattr_find (x : XattrBlock) (name : list Z) : comp (option nat) :=
  xattr_scan (xb_count x) 0 (xb_entries x) name.

Definition xattr_set (name value : list Z) (x : XattrBlock) : comp (res nat * XattrBlock) :=
  if (XATTR_NAME_MAX <? length name)%nat then Done (Err "xattr name too long", x)
  else if XATTR_SIZE_MAX <? Z.of_nat (length value) then Done (Err "xattr value too long", x)
  else
    let! found := xattr_find x name in
    match found with
    | Some idx =>
        let e := xb_entries x !!! idx in
        let e' := mkXattrEntry (xe_name e) (xe_name_len e) (length value) (xe_value_off e) in
        Done (Ok idx, mkXattrBlock (<[idx := e']> (xb_entries x)) (xb_count x) (xb_data_block x))
    | None =>
        if (MAX_XATTR_PER_INODE <=? xb_count x)%nat then Done (Err "xattr table full", x)
        else
          let idx := xb_count x in
          let e := xb_entries x !!! idx in
          let e' := mkXattrEntry (overlay name (xe_name e)) (length name) (length value) (xe_value_off e) in
          Done (Ok idx, mkXattrBlock (<[idx := e']> (xb_entries x)) (S (xb_count x)) (xb_data_block x))
    end.

Definition xattr_get (x : XattrBlock) (name : list Z) : comp (option XattrEntry) :=
  let! found := xattr_find x name in
  Done ((λ i, xb_entries x !!! i) <$> found).

Definition xattr_remove (name : list Z) (x : XattrBlock) : comp (bool * XattrBlock) :=
  let! found := xattr_find x name in
  match found with
  | Some idx =>
      let last := (xb_count x - 1)%nat in
      Done (true, mkXattrBlock (<[last := xattr_entry_empty]> (<[idx := xb_entries x !!! last]> (xb_entries x)))
                    last (xb_data_block x))
  | None => Done (false, x)
  end.

(** The inode table, memory, the allocator, and the inodes whose vnodes were
    dropped ([vnode_free_by_ino]). *)
Record ramfs (A : Type) := mkRamfs {
  inodes : list RamInode;
  bytes : gmap Z Z;
  rpal : A;
  dropped : list Z;
}.
Arguments mkRamfs {A} _ _ _ _.
Arguments inodes {A} _.
Arguments bytes {A} _.
Arguments rpal {A} _.
Arguments dropped {A} _.

Section ramfs.
Context {A : Type} `{!PageAllocator A}.
Implicit Types s : ramfs A.

Definition set_inodes (l : list RamInode) s : ramfs A := mkRamfs l (bytes s) (rpal s) (dropped s).
Definition set_bytes (m : gmap Z Z) s : ramfs A := mkRamfs (inodes s) m (rpal s) (dropped s).
Definition set_rpal (a : A) s : ramfs A := mkRamfs (inodes s) (bytes s) a (dropped s).
Definition drop_vnode (ino : Z) s : ramfs A := mkRamfs (inodes s) (bytes s) (rpal s) (ino :: dropped s).

Definition inode s (ino : Z) : RamInode := inodes s !!! Z.to_nat ino.
Definition upd_inode (ino : Z) (f : RamInode → RamInode) s : ramfs A :=
  set_inodes (<[Z.to_nat ino := f (inode s ino)]> (inodes s)) s.

(** [alloc_inode] *)
Definition fresh_inode (n : RamInode) : RamInode :=
  mkRamInode 0 0 0 0 1 null_blocks 0 true (i_symlink_target n) 0 xattr_block_empty (i_dirents n) 0.

Definition alloc_inode s : option Z * ramfs A :=
  match first_from (λ i, negb (i_used (inodes s !!! i))) 0 (Z.to_nat MAX_INODES) with
  | Some i => (Some (Z.of_nat i), upd_inode (Z.of_nat i) fresh_inode s)
  | None => (None, s)
  end.

(** [for i in i..cnt] freeing the blocks; the index panics past the array. *)
Fixpoint free_blocks_loop (fuel : nat) (ino i cnt : Z) s : comp (ramfs A) :=
  if cnt <=? i then Done s
  else match fuel with
  | O => Spin
  | S f =>
      if MAX_BLOCKS_PER_INODE <=? i then Panic
      else
        let ptr := i_blocks (inode s ino) !!! Z.to_nat i in
        if ptr =? 0 then free_blocks_loop f ino (i + 1) cnt s
        else
          let! a := pa_free ptr (rpal s) in
          let s := upd_inode ino (λ n, with_blocks (<[Z.to_nat i := 0]> (i_blocks n)) (i_block_count n) n) (set_rpal a s) in
          free_blocks_loop f ino (i + 1) cnt s
  end.

(** Turns enough for any loop over the block array: it panics past its end. *)
Definition block_fuel : nat := S (Z.to_nat MAX_BLOCKS_PER_INODE).

Definition free_inode_blocks (ino : Z) s : comp (ramfs A) :=
  let! s := free_blocks_loop block_fuel ino 0 (i_block_count (inode s ino)) s in
  Done (upd_inode ino (λ n, with_blocks (i_blocks n) 0 n) s).

(** [get_ino]: the inode exists and is in use. *)
Definition get_ino s (ino : Z) : bool := (ino <? MAX_INODES) && i_used (inode s ino).

Definition ensure_block (ino block_idx : Z) s : res Z * ramfs A :=
  if MAX_BLOCKS_PER_INODE <=? block_idx then (Err "ramfs: too many blocks", s)
  else
    let ptr := i_blocks (inode s ino) !!! Z.to_nat block_idx in
    if ptr =? 0 then
      match pa_alloc (rpal s) with
      | (None, a) => (Err "ramfs: oom", set_rpal a s)
      | (Some ptr, a) =>
          let s := set_bytes (mem_zero ptr RAMFS_BLOCK (bytes s)) (set_rpal a s) in
          (Ok ptr, upd_inode ino (λ n, with_blocks (<[Z.to_nat block_idx := ptr]> (i_blocks n))
                     (if i_block_count n <=? block_idx then block_idx + 1 else i_block_count n) n) s)
      end
    else (Ok ptr, s).

(** ** File contents *)

Fixpoint read_loop (fuel : nat) (n : RamInode) (m : gmap Z Z) (pos todo : Z) (acc : list Z) : comp (list Z) :=
  if todo <=? 0 then Done acc
  else match fuel with
  | O => Spin
  | S f =>
      let bi := pos / RAMFS_BLOCK in
      let bo := pos mod RAMFS_BLOCK in
      if i_block_count n <=? bi then Done acc
      else if MAX_BLOCKS_PER_INODE <=? bi then Panic
      else
        let ptr := i_blocks n !!! Z.to_nat bi in
        if ptr =? 0 then Done acc
        else
          let chunk := Z.min todo (RAMFS_BLOCK - bo) in
          read_loop f n m (pos + chunk) (todo - chunk) (acc ++ mem_read (ptr + bo) (Z.to_nat chunk) m)
  end.

(** The bytes put into a buffer of [len] bytes. *)
Definition read s (ino offset len : Z) : comp (res (list Z)) :=
  if negb (get_ino s ino) then Done (Err "bad ino")
  else
    let n := inode s ino in
    if i_size n <=? offset then Done (Ok [])
    else
      let! r := read_loop block_fuel n (bytes s) offset (Z.min (i_size n - offset) len) [] in
      Done (Ok r).

Fixpoint write_loop (fuel : nat) (ino pos : Z) (buf : list Z) s : comp (res unit * ramfs A) :=
  match buf with
  | [] => Done (Ok tt, s)
  | _ =>
      match fuel with
      | O => Spin
      | S f =>
          let bi := pos / RAMFS_BLOCK in
          let bo := pos mod RAMFS_BLOCK in
          match ensure_block ino bi s with
          | (Err e, s) => Done (Err e, s)
          | (Ok ptr, s) =>
              let chunk := Z.to_nat (Z.min (Z.of_nat (length buf)) (RAMFS_BLOCK - bo)) in
              let s := set_bytes (mem_write (ptr + bo) (take chunk buf) (bytes s)) s in
              write_loop f ino (pos + Z.of_nat chunk) (drop chunk buf) s
          end
      end
  end.

Definition write (ino offset : Z) (buf : list Z) s : comp (res Z * ramfs A) :=
  if negb (get_ino s ino) then Done (Err "bad ino", s)
  else
    let e := w64 (offset + Z.of_nat (length buf)) in
    let s := if i_size (inode s ino) <? e then upd_inode ino (with_size e) s else s in
    let! (r, s) := write_loop (length buf) ino offset buf s in
    match r with
    | Ok _ => Done (Ok (Z.of_nat (length buf)), s)
    | Err e => Done (Err e, s)
    end.

Definition truncate (ino size : Z) s : comp (res unit * ramfs A) :=
  if negb (get_ino s ino) then Done (Err "bad ino", s)
  else
    let new_blocks := w64 (size + RAMFS_BLOCK - 1) / RAMFS_BLOCK in
    let! s := free_blocks_loop block_fuel ino new_blocks (i_block_count (inode s ino)) s in
    let s := upd_inode ino (λ n, with_blocks (i_blocks n) new_blocks n) s in
    Done (Ok tt, upd_inode ino (with_size size) s).

(** ** Directories *)

Definition slash : list Z := [47].

Definition lookup s (parent_ino : Z) (name : list Z) : comp (res Z) :=
  if (parent_ino =? 0) && bool_decide (name = slash) then Done (Ok 0)
  else if negb (get_ino s parent_ino) then Done (Err "bad ino")
  else
    let n := inode s parent_ino in
    let! found := find_name n name in
    match found with
    | Some i => Done (Ok (d_ino (i_dirents n !!! i)))
    | None => Done (Err "ramfs: not found")
    end.

Fixpoint readdir_loop (fuel idx : nat) (start : Z) (room : nat) (n : RamInode) : comp (list Dirent) :=
  match fuel with
  | O => Done []
  | S f =>
      match room with
      | O => Done []
      | S room' =>
          let d := i_dirents n !!! idx in
          if d_used d && (start <=? Z.of_nat idx) then
            if (MAX_NAME <? d_name_len d)%nat then Panic
            else
              let! rest := readdir_loop f (S idx) start room' n in
              Done (mkDirent (d_ino d) (Z.of_nat idx) (take (d_name_len d) (d_name d)) (d_file_type d) :: rest)
          else readdir_loop f (S idx) start room n
      end
  end.

Definition readdir s (dir_ino offset : Z) (room : nat) : comp (res (list Dirent)) :=
  if negb (get_ino s dir_ino) then Done (Err "bad ino")
  else
    let n := inode s dir_ino in
    let! r := readdir_loop (i_dirent_count n) 0 offset room n in
    Done (Ok r).

(** The first unused entry below [dirent_count]. *)
Definition free_slot (n : RamInode) : option nat :=
  first_from (λ i, negb (d_used (i_dirents n !!! i))) 0 (i_dirent_count n).

Definition put_dirent (slot : nat) (ino : Z) (name : list Z) (ftype : Z) (cnt : nat) (n : RamInode) : RamInode :=
  with_dirents (<[slot := dirent_set ino name ftype (i_dirents n !!! slot)]> (i_dirents n)) cnt n.

Definition create (parent_ino : Z) (name : list Z) (mode : Z) s : comp (res Z * ramfs A) :=
  if negb (get_ino s parent_ino) then Done (Err "bad parent", s)
  else match alloc_inode s with
  | (None, s) => Done (Err "ramfs: no inodes", s)
  | (Some ino, s) =>
      let s := upd_inode ino (with_mode (if negb (Z.land mode S_IFMT =? 0) then mode else Z.lor mode S_IFREG)) s in
      let parent := inode s parent_ino in
      let slot := match free_slot parent with
                  | Some i => Some (i, i_dirent_count parent)
                  | None => if (MAX_DIRENTS <=? i_dirent_count parent)%nat then None
                            else Some (i_dirent_count parent, S (i_dirent_count parent))
                  end in
      match slot with
      | None =>
          let! s := free_inode_blocks ino s in
          Done (Err "ramfs: dirents full", upd_inode ino (with_used false) s)
      | Some (i, cnt) =>
          let s := upd_inode parent_ino (put_dirent i ino name FT_REG_FILE cnt) s in
          Done (Ok ino, upd_inode ino (λ n, with_attr (i_mode n) (i_uid n) (i_gid n) 1 n) s)
      end
  end.

Definition mkdir (parent_ino : Z) (name : list Z) (mode : Z) s : comp (res Z * ramfs A) :=
  if negb (get_ino s parent_ino) then Done (Err "bad parent", s)
  else match alloc_inode s with
  | (None, s) => Done (Err "ramfs: no inodes", s)
  | (Some ino, s) =>
      let s := upd_inode ino (λ n, with_attr (Z.lor mode S_IFDIR) (i_uid n) (i_gid n) 1 n) s in
      let parent := inode s parent_ino in
      if (MAX_DIRENTS <=? i_dirent_count parent)%nat
      then Done (Err "ramfs: dirents full", upd_inode ino (with_used false) s)
      else
        let '(i, cnt) := match free_slot parent with
                         | Some i => (i, i_dirent_count parent)
                         | None => (i_dirent_count parent, S (i_dirent_count parent))
                         end in
        Done (Ok ino, upd_inode parent_ino (put_dirent i ino name FT_DIR cnt) s)
  end.

(** Marking one entry unused. *)
Definition clear_dirent (i : nat) (n : RamInode) : RamInode :=
  let d := i_dirents n !!! i in
  with_dirents (<[i := mkRamDirent (d_ino d) (d_name d) (d_name_len d) (d_file_type d) false]> (i_dirents n))
    (i_dirent_count n) n.

Definition remove (parent_ino : Z) (name : list Z) s : comp (res unit * ramfs A) :=
  if negb (get_ino s parent_ino) then Done (Err "bad parent", s)
  else
    let! found := find_name (inode s parent_ino) name in
    match found with
    | None => Done (Err "ramfs: not found", s)
    | Some i =>
        let target := d_ino (i_dirents (inode s parent_ino) !!! i) in
        let s := upd_inode parent_ino (clear_dirent i) s in
        if get_ino s target then
          let! s := free_inode_blocks target s in
          Done (Ok tt, upd_inode target (with_used false) s)
        else Done (Ok tt, s)
    end.

Definition rmdir (parent_ino : Z) (name : list Z) s : comp (res unit * ramfs A) := remove parent_ino name s.

Definition stat s (ino : Z) : res Stat :=
  if negb (get_ino s ino) then Err "bad ino"
  else
    let n := inode s ino in
    Ok (mkStat 0 ino (i_mode n) (i_nlink n) (i_uid n) (i_gid n) 0 (i_size n) RAMFS_BLOCK (i_block_count n) 0 0 0).

Definition readlink s (ino : Z) : comp (res (list Z)) :=
  if negb (get_ino s ino) then Done (Err "bad ino")
  else
    let n := inode s ino in
    if (i_symlink_len n =? 0)%nat then Done (Err "not a symlink")
    else if (MAX_SYMLINK_LEN <? i_symlink_len n)%nat then Panic
    else Done (Ok (take (i_symlink_len n) (i_symlink_target n))).

Definition symlink (parent_ino : Z) (name target : list Z) s : comp (res Z * ramfs A) :=
  if negb (get_ino s parent_ino) then Done (Err "bad parent", s)
  else match alloc_inode s with
  | (None, s) => Done (Err "ramfs: no inodes", s)
  | (Some ino, s) =>
      let t := take MAX_SYMLINK_LEN target in
      let s := upd_inode ino (λ n, with_symlink (overlay t (i_symlink_target n)) (length t) (with_mode (Z.lor S_IFLNK 511) n)) s in
      let parent := inode s parent_ino in
      if (MAX_DIRENTS <=? i_dirent_count parent)%nat
      then Done (Err "ramfs: dirents full", upd_inode ino (with_used false) s)
      else Done (Ok ino, upd_inode parent_ino (put_dirent (i_dirent_count parent) ino name FT_SYMLINK (S (i_dirent_count parent))) s)
  end.

(** The replaced target of a rename: its blocks, its inode and its vnodes go. *)
Definition drop_target (tino : Z) (new_parent : Z) (i : nat) s : comp (ramfs A) :=
  let! s := free_inode_blocks tino s in
  let s := upd_inode tino (with_used false) s in
  Done (upd_inode new_parent (clear_dirent i) (drop_vnode tino s)).

Definition rename (old_parent : Z) (old_name : list Z) (new_parent : Z) (new_name : list Z) s : comp (res unit * ramfs A) :=
  if negb (get_ino s old_parent) then Done (Err "bad old parent", s)
  else
    let! found := find_name (inode s old_parent) old_name in
    match found with
    | None => Done (Err "ramfs: not found", s)
    | Some idx =>
        let d := i_dirents (inode s old_parent) !!! idx in
        let s := upd_inode old_parent (clear_dirent idx) s in
        if negb (get_ino s new_parent) then Done (Err "bad new parent", s)
        else
          let! hit := find_name (inode s new_parent) new_name in
          match hit with
          | Some i =>
              let tino := d_ino (i_dirents (inode s new_parent) !!! i) in
              if negb (get_ino s tino) then Done (Err "bad target ino", s)
              else
                let! s := drop_target tino new_parent i s in
                Done (Ok tt, upd_inode new_parent (λ n, put_dirent i (d_ino d) new_name (d_file_type d) (i_dirent_count n) n) s)
          | None =>
              let n := inode s new_parent in
              if (MAX_DIRENTS <=? i_dirent_count n)%nat then Done (Err "ramfs: dirents full", s)
              else Done (Ok tt, upd_inode new_parent (put_dirent (i_dirent_count n) (d_ino d) new_name (d_file_type d) (S (i_dirent_count n))) s)
          end
    end.

Definition setattr (ino mode uid gid : Z) s : res unit * ramfs A :=
  if negb (get_ino s ino) then (Err "bad ino", s)
  else (Ok tt, upd_inode ino (λ n, with_attr mode uid gid (i_nlink n) n) s).

(** ** Extended attributes of an inode *)

(** The bytes put into a buffer of [room] bytes. *)
Definition getxattr s (ino : Z) (name : list Z) (room : nat) : comp (res (list Z)) :=
  if negb (get_ino s ino) then Done (Err "bad ino")
  else
    let x := i_xattr (inode s ino) in
    let! found := xattr_get x name in
    match found with
    | None => Done (Err "xattr not found")
    | Some e =>
        if (room <? xe_value_len e)%nat then Done (Err "buf too small")
        else if xb_data_block x =? 0 then Done (Err "no xattr data")
        else Done (Ok (mem_read (xb_data_block x + xe_value_off e) (xe_value_len e) (bytes s)))
    end.

Definition with_data_block (p : Z) (n : RamInode) : RamInode :=
  with_xattr (mkXattrBlock (xb_entries (i_xattr n)) (xb_count (i_xattr n)) p) n.

Definition ensure_xattr_page (ino : Z) s : res unit * ramfs A :=
  if xb_data_block (i_xattr (inode s ino)) =? 0 then
    match pa_alloc (rpal s) with
    | (None, a) => (Err "oom", set_rpal a s)
    | (Some ptr, a) =>
        let s := set_bytes (mem_zero ptr XATTR_SIZE_MAX (bytes s)) (set_rpal a s) in
        (Ok tt, upd_inode ino (with_data_block ptr) s)
    end
  else (Ok tt, s).

Definition setxattr (ino : Z) (name value : list Z) s : comp (res unit * ramfs A) :=
  if negb (get_ino s ino) then Done (Err "bad ino", s)
  else match ensure_xattr_page ino s with
  | (Err e, s) => Done (Err e, s)
  | (Ok _, s) =>
      let! (r, x) := xattr_set name value (i_xattr (inode s ino)) in
      match r with
      | Err e => Done (Err e, s)
      | Ok idx =>
          let s := upd_inode ino (with_xattr x) s in
          Done (Ok tt, set_bytes (mem_write (xb_data_block x + xe_value_off (xb_entries x !!! idx)) value (bytes s)) s)
      end
  end.

(** The names, each ended by a zero byte, while they fit. *)
Fixpoint listxattr_loop (n i room : nat) (es : list XattrEntry) (acc : list Z) : list Z :=
  match n with
  | O => acc
  | S n' =>
      let nm := take (xe_name_len (es !!! i)) (xe_name (es !!! i)) in
      if (room <? length acc + length nm + 1)%nat then acc
      else listxattr_loop n' (S i) room es (acc ++ nm ++ [0])
  end.

Definition listxattr s (ino : Z) (room : nat) : res (list Z) :=
  if negb (get_ino s ino) then Err "bad ino"
  else
    let x := i_xattr (inode s ino) in
    Ok (listxattr_loop (xb_count x) 0 room (xb_entries x) []).

Definition ioctl s (ino request arg : Z) : res Z := Err "ENOTTY".

(** ** Boot: the root directory with [bin] and [lib] *)

Definition DIR_MODE : Z :=
  foldr Z.lor 0 [S_IFDIR; S_IRUSR; S_IWUSR; S_IXUSR; S_IRGRP; S_IXGRP; S_IROTH; S_IXOTH].

Definition boot_dir (s : ramfs A) : option Z * ramfs A :=
  match alloc_inode s with
  | (Some ino, s) => (Some ino, upd_inode ino (λ n, with_attr DIR_MODE 0 0 2 n) s)
  | (None, s) => (None, s)
  end.

Definition ramfs_init s : comp (ramfs A) :=
  match boot_dir s with
  | (None, _) => Panic
  | (Some root, s) =>
      match boot_dir s with
      | (None, _) => Panic
      | (Some bin, s) =>
          let s := upd_inode root (put_dirent 0 bin [98; 105; 110] FT_DIR 1) s in
          match boot_dir s with
          | (None, _) => Panic
          | (Some lib, s) => Done (upd_inode root (put_dirent 1 lib [108; 105; 98] FT_DIR 2) s)
          end
      end
  end.

Definition ramfs0 (a : A) : ramfs A := mkRamfs (replicate (Z.to_nat MAX_INODES) inode_empty) ∅ a [].

End ramfs.
