(* ===== verification/RamfsInv.v ===== *)
(** * The invariant of the RAM file system

    Every block pointer and every attribute page of every inode is a page held
    from the allocator, and no page is reachable twice; so the bytes of two
    blocks never overlap.  [fbyte] is the file contents as the user sees them:
    the byte at a position, or nothing where no block was ever written. *)

From S2P Require Import Prelude PageAlloc Bytes VfsTypes Ramfs.
From stdpp Require Import base gmap numbers strings list.
Local Open Scope Z_scope.

Lemma blocks_1024 : MAX_BLOCKS_PER_INODE = 1024.
Proof. done. Qed.
Lemma inodes_256 : MAX_INODES = 256.
Proof. done. Qed.
Lemma length_null : length null_blocks = Z.to_nat MAX_BLOCKS_PER_INODE.
Proof. apply length_replicate. Qed.
Lemma null_lookup i : (i < Z.to_nat MAX_BLOCKS_PER_INODE)%nat → null_blocks !!! i = 0.
Proof. apply lookup_total_replicate_2. Qed.
#[local] Opaque MAX_BLOCKS_PER_INODE MAX_INODES null_blocks MAX_DIRENTS MAX_NAME.

(** ** Held pages *)

Definition nonnull (l : list Z) : list Z := filter (λ p, p ≠ 0) l.

Definition inode_pages (n : RamInode) : list Z := nonnull (i_blocks n) ++ nonnull [xb_data_block (i_xattr n)].

Record inode_wf (n : RamInode) : Prop := {
  iw_blocks : length (i_blocks n) = Z.to_nat MAX_BLOCKS_PER_INODE;
  iw_count : 0 ≤ i_block_count n ≤ MAX_BLOCKS_PER_INODE;
  iw_null : ∀ i, i_block_count n ≤ i < MAX_BLOCKS_PER_INODE → i_blocks n !!! Z.to_nat i = 0;
  iw_free : i_used n = false → i_block_count n = 0;
  iw_dirents : length (i_dirents n) = MAX_DIRENTS;
  iw_dcount : (i_dirent_count n ≤ MAX_DIRENTS)%nat;
  iw_names : ∀ d, d ∈ i_dirents n → length (d_name d) = MAX_NAME;
  iw_size : 0 ≤ i_size n < 2 ^ 64;
}.

Section inv.
Context {A : Type} `{!PageAllocator A}.
Implicit Types s : ramfs A.

Definition fs_pages s : list Z := inodes s ≫= inode_pages.

(** [lost] are pages the file system took and no longer reaches. *)
Record ramfs_inv s (lost : list Z) : Prop := {
  ri_len : length (inodes s) = Z.to_nat MAX_INODES;
  ri_wf : ∀ i n, inodes s !! i = Some n → inode_wf n;
  ri_own : pa_own (rpal s) (fs_pages s ++ lost);
}.

(** The byte at a position of a file. *)
Definition fbyte s (ino pos : Z) : option Z :=
  let ptr := i_blocks (inode s ino) !!! Z.to_nat (pos / RAMFS_BLOCK) in
  if ptr =? 0 then None else Some (getd 0 (bytes s) (ptr + pos mod RAMFS_BLOCK)).

Definition valid s (ino : Z) : Prop := 0 ≤ ino < MAX_INODES ∧ i_used (inode s ino) = true.

Lemma get_ino_valid s ino : 0 ≤ ino → get_ino s ino = true ↔ valid s ino.
Proof. intros. unfold get_ino, valid. rewrite andb_true_iff, Z.ltb_lt. naive_solver lia. Qed.

Lemma inode_lookup s lost ino : ramfs_inv s lost → 0 ≤ ino < MAX_INODES → inodes s !! Z.to_nat ino = Some (inode s ino).
Proof. intros Hinv Hi. apply list_lookup_lookup_total_lt. rewrite (ri_len _ _ Hinv). lia. Qed.

Lemma inode_ok s lost ino : ramfs_inv s lost → 0 ≤ ino < MAX_INODES → inode_wf (inode s ino).
Proof. intros Hinv Hi. eapply ri_wf; [done|]. by eapply inode_lookup. Qed.

Lemma inode_upd s ino f ino' :
  length (inodes s) = Z.to_nat MAX_INODES → 0 ≤ ino < MAX_INODES → 0 ≤ ino' →
  inode (upd_inode ino f s) ino' = if decide (ino = ino') then f (inode s ino) else inode s ino'.
Proof.
  intros Hl Hi Hi'. unfold inode at 1, upd_inode. cbn [inodes set_inodes]. case_decide as Hd.
  - subst. apply list_lookup_total_insert_eq. rewrite Hl. lia.
  - apply list_lookup_total_insert_ne. lia.
Qed.

(** ** No page is reachable twice *)

Lemma nonnull_apart l i j p q :
  NoDup (nonnull l) → l !! i = Some p → l !! j = Some q → p ≠ 0 → i ≠ j → p ≠ q.
Proof.
  revert i j. induction l as [|x l IH]; intros i j Hnd Hi Hj Hp Hne; [done|].
  unfold nonnull in Hnd. rewrite filter_cons in Hnd.
  assert (∀ k z, l !! k = Some z → z ≠ 0 → z ∈ filter (λ p, p ≠ 0) l) as Hin.
  { intros k z Hk Hz. apply list_elem_of_filter. split; [done|]. by eapply list_elem_of_lookup_2. }
  destruct i as [|i], j as [|j]; cbn in Hi, Hj; simplify_eq.
  - rewrite decide_True in Hnd by done. apply list.NoDup_cons in Hnd as [Hni _].
    intros ->. eapply Hni, Hin; done.
  - intros <-. rewrite decide_True in Hnd by done. apply list.NoDup_cons in Hnd as [Hni _]. eapply Hni, Hin; done.
  - apply (IH i j); [|done|done|done|lia]. case_decide; [by apply list.NoDup_cons in Hnd as [_ ?]|done].
Qed.

Lemma bind_apart {X Y} (f : X → list Y) (l : list X) i j x y p :
  NoDup (l ≫= f) → l !! i = Some x → l !! j = Some y → i ≠ j → p ∈ f x → p ∈ f y → False.
Proof.
  revert i j. induction l as [|z l IH]; intros i j Hnd Hi Hj Hne Hx Hy; [done|].
  rewrite bind_cons in Hnd. apply list.NoDup_app in Hnd as (_ & Hd & Hnd).
  destruct i as [|i], j as [|j]; cbn in Hi, Hj; simplify_eq.
  - apply (Hd p Hx). apply list_elem_of_bind. exists y. split; [done|]. by eapply list_elem_of_lookup_2.
  - apply (Hd p Hy). apply list_elem_of_bind. exists x. split; [done|]. by eapply list_elem_of_lookup_2.
  - eapply (IH i j); eauto.
Qed.

Lemma fs_nodup s lost : ramfs_inv s lost → NoDup (fs_pages s).
Proof. intros Hinv. pose proof (pa_own_nodup _ _ (ri_own _ _ Hinv)) as Hnd. by apply list.NoDup_app in Hnd as (? & _). Qed.

Lemma block_lookup s lost ino b : ramfs_inv s lost → 0 ≤ ino < MAX_INODES → 0 ≤ b < MAX_BLOCKS_PER_INODE →
  i_blocks (inode s ino) !! Z.to_nat b = Some (i_blocks (inode s ino) !!! Z.to_nat b).
Proof.
  intros Hinv Hi Hb. apply list_lookup_lookup_total_lt. rewrite (iw_blocks _ (inode_ok _ _ _ Hinv Hi)). lia.
Qed.

Lemma block_in_pages s lost ino b p : ramfs_inv s lost → 0 ≤ ino < MAX_INODES → 0 ≤ b < MAX_BLOCKS_PER_INODE →
  i_blocks (inode s ino) !!! Z.to_nat b = p → p ≠ 0 → p ∈ inode_pages (inode s ino).
Proof.
  intros Hinv Hi Hb Hp Hp0. apply elem_of_app. left. apply list_elem_of_filter. split; [done|].
  eapply list_elem_of_lookup_2. rewrite <- Hp. by eapply block_lookup.
Qed.

Lemma pages_in s lost ino p : ramfs_inv s lost → 0 ≤ ino < MAX_INODES → p ∈ inode_pages (inode s ino) → p ∈ fs_pages s.
Proof.
  intros Hinv Hi Hp. apply list_elem_of_bind. exists (inode s ino). split; [done|].
  eapply list_elem_of_lookup_2. by eapply inode_lookup.
Qed.

(** The blocks of different files, and different blocks of a file, occupy
    different bytes. *)
Lemma blocks_disjoint s lost i1 b1 p1 i2 b2 p2 :
  ramfs_inv s lost → 0 ≤ i1 < MAX_INODES → 0 ≤ i2 < MAX_INODES →
  0 ≤ b1 < MAX_BLOCKS_PER_INODE → 0 ≤ b2 < MAX_BLOCKS_PER_INODE →
  i_blocks (inode s i1) !!! Z.to_nat b1 = p1 → i_blocks (inode s i2) !!! Z.to_nat b2 = p2 → p1 ≠ 0 → p2 ≠ 0 →
  (i1, b1) ≠ (i2, b2) → p1 + RAMFS_BLOCK ≤ p2 ∨ p2 + RAMFS_BLOCK ≤ p1.
Proof.
  intros Hinv Hi1 Hi2 Hb1 Hb2 Hp1 Hp2 Hn1 Hn2 Hne.
  pose proof (block_in_pages _ _ _ _ _ Hinv Hi1 Hb1 Hp1 Hn1) as Hin1.
  pose proof (block_in_pages _ _ _ _ _ Hinv Hi2 Hb2 Hp2 Hn2) as Hin2.
  eapply pa_own_apart; [exact (ri_own _ _ Hinv)|apply elem_of_app; left; exact (pages_in _ _ _ _ Hinv Hi1 Hin1)|apply elem_of_app; left; exact (pages_in _ _ _ _ Hinv Hi2 Hin2)|].
  pose proof (fs_nodup _ _ Hinv) as Hnd. destruct (decide (i1 = i2)) as [<-|Hi].
  - assert (NoDup (nonnull (i_blocks (inode s i1)))) as Hb.
    { pose proof (inode_lookup _ _ _ Hinv Hi1) as Hl. unfold fs_pages in Hnd.
      rewrite <- (take_drop_middle _ _ _ Hl), bind_app, bind_cons in Hnd.
      apply list.NoDup_app in Hnd as (_ & _ & Hnd). apply list.NoDup_app in Hnd as (Hnd & _). by apply list.NoDup_app in Hnd as (? & _). }
    eapply (nonnull_apart _ (Z.to_nat b1) (Z.to_nat b2)); [exact Hb|..|done|].
    + rewrite <- Hp1. by eapply block_lookup.
    + rewrite <- Hp2. by eapply block_lookup.
    + intros He. apply Hne. f_equal. lia.
  - intros <-. eapply (bind_apart _ _ (Z.to_nat i1) (Z.to_nat i2)); [exact Hnd|exact (inode_lookup _ _ _ Hinv Hi1)|exact (inode_lookup _ _ _ Hinv Hi2)|lia|done|done].
Qed.

End inv.

(** * Blocks and file contents of the RAM file system

    What allocating a block and writing a chunk do to the files: the positions
    written change, everything else stays. *)

#[local] Opaque MAX_BLOCKS_PER_INODE MAX_INODES null_blocks MAX_DIRENTS MAX_NAME.

Definition FILE_MAX : Z := 4194304.

Lemma pos_block pos : 0 ≤ pos → 0 ≤ pos / RAMFS_BLOCK ∧ 0 ≤ pos mod RAMFS_BLOCK < RAMFS_BLOCK ∧
  pos = RAMFS_BLOCK * (pos / RAMFS_BLOCK) + pos mod RAMFS_BLOCK.
Proof.
  intros. unfold RAMFS_BLOCK. pose proof (Z.div_mod pos 4096). pose proof (Z.mod_pos_bound pos 4096).
  pose proof (Z.div_pos pos 4096). lia.
Qed.

Lemma pos_max pos : 0 ≤ pos → pos < FILE_MAX ↔ pos / RAMFS_BLOCK < MAX_BLOCKS_PER_INODE.
Proof. intros H. pose proof (pos_block pos H). unfold FILE_MAX, RAMFS_BLOCK in *. rewrite blocks_1024. lia. Qed.

Lemma with_blocks_twice b1 c1 b2 c2 n : with_blocks b2 c2 (with_blocks b1 c1 n) = with_blocks b2 c2 n.
Proof. done. Qed.

Section ops.
Context {A : Type} `{!PageAllocator A}.
Implicit Types s : ramfs A.

(** From [s] to [s'] only the blocks of one file and the bytes of its
    positions in [R] changed. *)
Record wrote s s' (ino : Z) (R : Z → Prop) : Prop := {
  wr_other : ∀ j, 0 ≤ j → j ≠ ino → inode s' j = inode s j;
  wr_self : ∃ bs c, inode s' ino = with_blocks bs c (inode s ino);
  wr_bytes : ∀ j p x, 0 ≤ j < MAX_INODES → j ≠ ino → p ∈ inode_pages (inode s j) → p ≤ x < p + RAMFS_BLOCK →
    getd 0 (bytes s') x = getd 0 (bytes s) x;
  wr_keep : ∀ pos v, 0 ≤ pos < FILE_MAX → ¬ R pos → fbyte s ino pos = Some v → fbyte s' ino pos = Some v;
}.

Lemma wrote_refl s s' ino R : inodes s' = inodes s → bytes s' = bytes s → wrote s s' ino R.
Proof.
  intros Hi Hb. assert (∀ j, inode s' j = inode s j) as Hj by (intros j; unfold inode; by rewrite Hi).
  split; [intros; apply Hj| |intros; by rewrite Hb|intros pos v _ _; unfold fbyte; by rewrite Hj, Hb].
  exists (i_blocks (inode s ino)), (i_block_count (inode s ino)). rewrite Hj. by destruct (inode s ino).
Qed.

Lemma wrote_trans s1 s2 s3 ino (R R' : Z → Prop) :
  wrote s1 s2 ino R → wrote s2 s3 ino R' → wrote s1 s3 ino (λ p, R p ∨ R' p).
Proof.
  intros [H1 (b1 & c1 & H2) H3 H4] [H5 (b2 & c2 & H6) H7 H8]. split.
  - intros j Hj Hne. by rewrite H5, H1.
  - exists b2, c2. by rewrite H6, H2, with_blocks_twice.
  - intros j p x Hj Hne Hp Hx. rewrite (H7 j p x), (H3 j p x); [done|done|done|done|done|done|done| |done].
    rewrite H1; [done|lia|done].
  - intros pos v Hpos HR Hb. apply H8; [done|tauto|]. apply H4; [done|tauto|done].
Qed.

Lemma wrote_weaken s s' ino (R R' : Z → Prop) : (∀ p, R p → R' p) → wrote s s' ino R → wrote s s' ino R'.
Proof. intros HR [H1 H2 H3 H4]. split; [done|done|done|]. intros pos v Hp Hn. apply H4; [done|naive_solver]. Qed.

Lemma wrote_valid s s' ino R j : 0 ≤ j → wrote s s' ino R → valid s j → valid s' j.
Proof.
  intros Hj [H1 (b & c & H2) _ _] [Hr Hu]. split; [done|]. destruct (decide (j = ino)) as [->|]; [by rewrite H2|by rewrite H1].
Qed.

(** Replacing an inode by another with other pages. *)
Lemma upd_inode_inv s lost lost' s1 ino f :
  ramfs_inv s lost → 0 ≤ ino < MAX_INODES → inodes s1 = inodes s → inode_wf (f (inode s ino)) →
  (∀ L, pa_own (rpal s) (inode_pages (inode s ino) ++ L ++ lost) → pa_own (rpal s1) (inode_pages (f (inode s ino)) ++ L ++ lost')) →
  ramfs_inv (upd_inode ino f s1) lost'.
Proof.
  intros Hinv Hi He Hwf Hown.
  assert (inode s1 ino = inode s ino) as Hin by (unfold inode; by rewrite He).
  assert (inodes (upd_inode ino f s1) = <[Z.to_nat ino := f (inode s ino)]> (inodes s)) as Hins
    by (unfold upd_inode; cbn [inodes set_inodes]; by rewrite Hin, He).
  destruct (bind_insert inode_pages (inodes s) (Z.to_nat ino) (inode s ino) (f (inode s ino))) as (L & HL & HL');
    [by eapply inode_lookup|].
  split.
  - rewrite Hins, length_insert. apply Hinv.
  - intros i n. rewrite Hins. intros [(<- & <- & _)|[_ Hl]]%list_lookup_insert_Some; [done|by eapply ri_wf].
  - unfold fs_pages. rewrite Hins, HL', <- app_assoc. cbn [rpal upd_inode set_inodes]. apply Hown.
    rewrite app_assoc, <- HL. apply Hinv.
Qed.

Lemma nonnull_insert l i p :
  l !! i = Some 0 → p ≠ 0 → nonnull (<[i := p]> l) ≡ₚ p :: nonnull l.
Proof.
  intros Hi Hp. unfold nonnull. pose proof (lookup_lt_Some _ _ _ Hi).
  rewrite <- (take_drop_middle l i 0 Hi) at 2. rewrite insert_take_drop by done.
  rewrite !filter_app, filter_cons_True, filter_cons_False by tauto.
  by rewrite Permutation_middle.
Qed.

Lemma nonnull_clear l i p :
  l !! i = Some p → p ≠ 0 → nonnull l ≡ₚ p :: nonnull (<[i := 0]> l).
Proof.
  intros Hi Hp. unfold nonnull. pose proof (lookup_lt_Some _ _ _ Hi).
  rewrite <- (take_drop_middle l i p Hi) at 1. rewrite insert_take_drop by done.
  rewrite !filter_app, filter_cons_True by done. rewrite (filter_cons_False _ 0) by tauto.
  by rewrite Permutation_middle.
Qed.

(** ** Allocating a block *)

Lemma ensure_block_spec s lost ino bi r s' :
  ramfs_inv s lost → valid s ino → 0 ≤ bi → ensure_block ino bi s = (r, s') →
  ramfs_inv s' lost ∧ wrote s s' ino (λ _, False) ∧
  match r with
  | Ok ptr => bi < MAX_BLOCKS_PER_INODE ∧ ptr ≠ 0 ∧ i_blocks (inode s' ino) !!! Z.to_nat bi = ptr
  | Err _ => True
  end.
Proof.
  intros Hinv [Hi Hu] Hbi. unfold ensure_block. pose proof (inode_ok _ _ _ Hinv Hi) as Hwf.
  destruct (Z.leb_spec MAX_BLOCKS_PER_INODE bi) as [Hb|Hb].
  { intros [= <- <-]. split_and!; [done|by apply wrote_refl|done]. }
  destruct (Z.eqb_spec (i_blocks (inode s ino) !!! Z.to_nat bi) 0) as [H0|H0]; [|intros [= <- <-]; split_and!; [done|by apply wrote_refl|done|done|done]].
  destruct (pa_alloc (rpal s)) as [[ptr|] a] eqn:Hal.
  2: { intros [= <- <-]. split_and!; [|by apply wrote_refl|done]. destruct Hinv as [? ? Ho]. split; [done|done|].
       by eapply pa_alloc_fail. }
  destruct (pa_alloc_fresh _ _ _ _ (ri_own _ _ Hinv) Hal) as [Hfr Hp0].
  pose proof (pa_alloc_ok _ _ _ _ (ri_own _ _ Hinv) Hal) as Hown.
  set (s1 := set_bytes (mem_zero ptr RAMFS_BLOCK (bytes s)) (set_rpal a s)).
  set (f := λ n, with_blocks _ _ n). intros [= <- <-].
  pose proof (block_lookup _ _ _ bi Hinv Hi ltac:(lia)) as Hlk. rewrite H0 in Hlk.
  assert (∀ j, 0 ≤ j → inode (upd_inode ino f s1) j = if decide (ino = j) then f (inode s ino) else inode s j) as Hino.
  { intros j Hj. by rewrite (inode_upd s1 ino f j (ri_len _ _ Hinv) Hi Hj). }
  assert (∀ x p, p ∈ fs_pages s → p ≤ x < p + RAMFS_BLOCK → getd 0 (bytes s1) x = getd 0 (bytes s) x) as Hby.
  { intros x p Hp Hx. cbn [bytes s1 set_bytes set_rpal]. rewrite mem_zero_get by (unfold RAMFS_BLOCK; lia). rewrite decide_False; [done|].
    intros Hx'. assert (ptr ≠ p) as Hne by (intros ->; apply Hfr, elem_of_app; by left).
    pose proof (pa_own_apart _ _ ptr p Hown (list_elem_of_here _ _)) as Hap. unfold RAMFS_BLOCK in *.
    destruct Hap; [apply list_elem_of_further, elem_of_app; by left|done|lia|lia]. }
  split_and!; [|split|lia|done|].
  - eapply (upd_inode_inv s lost lost s1); [done|done|done| |].
    + destruct Hwf as [W1 W2 W3 W4 W5 W6 W7 W8]. split; try done.
      * cbn [f with_blocks i_blocks]. by rewrite length_insert.
      * cbn [f with_blocks i_block_count]. destruct (Z.leb_spec (i_block_count (inode s ino)) bi); lia.
      * cbn [f with_blocks i_block_count i_blocks]. intros i Hir. rewrite list_lookup_total_insert_ne.
        -- apply W3. destruct (Z.leb_spec (i_block_count (inode s ino)) bi); lia.
        -- destruct (Z.leb_spec (i_block_count (inode s ino)) bi); lia.
      * cbn [f with_blocks i_used]. congruence.
    + intros L HL. unfold inode_pages in *. cbn [f with_blocks i_blocks i_xattr].
      rewrite (nonnull_insert _ _ _ Hlk Hp0). cbn [app]. eapply pa_alloc_ok; [exact HL|exact Hal].
  - intros j Hj Hne. rewrite Hino by done. by rewrite decide_False.
  - eexists _, _. rewrite Hino by lia. rewrite decide_True by done. reflexivity.
  - intros j p x Hj Hne Hp Hx. eapply Hby; [|exact Hx]. eapply pages_in; [done|exact Hj|done].
  - intros pos v Hpos _. unfold fbyte. rewrite Hino by lia. rewrite decide_True by done. cbn [f with_blocks i_blocks].
    pose proof (pos_block pos ltac:(lia)) as (Hq & Hm & _). pose proof (proj1 (pos_max pos ltac:(lia)) ltac:(lia)) as Hq'.
    destruct (Z.eqb_spec (i_blocks (inode s ino) !!! Z.to_nat (pos / RAMFS_BLOCK)) 0) as [|Hnz]; [done|].
    assert (bi ≠ pos / RAMFS_BLOCK) by (intros ->; done).
    rewrite list_lookup_total_insert_ne by lia. rewrite (proj2 (Z.eqb_neq _ _) Hnz).
    intros [= <-]. f_equal. eapply Hby; [|split; [|apply Z.add_lt_mono_l, Hm]; lia].
    eapply pages_in; [done|exact Hi|]. eapply block_in_pages; [done|done| |reflexivity|done]. lia.
  - rewrite Hino by lia. rewrite decide_True by done. cbn [f with_blocks i_blocks]. apply list_lookup_total_insert_eq.
    rewrite (iw_blocks _ Hwf). lia.
Qed.

(** ** Writing *)

(** A chunk inside one block. *)
Lemma chunk_spec s lost ino pos bs ptr :
  ramfs_inv s lost → valid s ino → 0 ≤ pos < FILE_MAX → pos mod RAMFS_BLOCK + Z.of_nat (length bs) ≤ RAMFS_BLOCK →
  i_blocks (inode s ino) !!! Z.to_nat (pos / RAMFS_BLOCK) = ptr → ptr ≠ 0 →
  let s' := set_bytes (mem_write (ptr + pos mod RAMFS_BLOCK) bs (bytes s)) s in
  ramfs_inv s' lost ∧ wrote s s' ino (λ p, pos ≤ p < pos + Z.of_nat (length bs)) ∧
  ∀ i v, bs !! i = Some v → fbyte s' ino (pos + Z.of_nat i) = Some v.
Proof.
  intros Hinv [Hi Hu] Hpos Hlen Hptr Hnz s'. pose proof (pos_block pos ltac:(lia)) as (Hq & Hm & Hpq).
  pose proof (proj1 (pos_max pos ltac:(lia)) ltac:(lia)) as Hq'.
  assert (∀ p x, p ∈ fs_pages s → p ≠ ptr → p ≤ x < p + RAMFS_BLOCK → getd 0 (bytes s') x = getd 0 (bytes s) x) as Hby.
  { intros p x Hp Hne Hx. cbn [bytes s' set_bytes]. rewrite mem_write_get, decide_False; [done|]. intros Hx'.
    pose proof (pa_own_apart _ _ ptr p (ri_own _ _ Hinv)) as Hap. unfold RAMFS_BLOCK in *.
    destruct Hap; [apply elem_of_app; left; eapply pages_in; [done|exact Hi|]; eapply block_in_pages; [done|done|split; [exact Hq|exact Hq']|done|done]|apply elem_of_app; by left|done|lia|lia]. }
  assert (∀ p, p ∈ inode_pages (inode s ino) → p ∈ fs_pages s) as Hself by (intros p; by eapply pages_in).
  split_and!.
  - destruct Hinv as [R1 R2 R3]. by split.
  - split; [done| | |].
    + exists (i_blocks (inode s ino)), (i_block_count (inode s ino)). change (inode s' ino) with (inode s ino). by destruct (inode s ino).
    + intros j p x Hj Hne Hp Hx. eapply Hby; [eapply pages_in; [done|exact Hj|done]| |exact Hx]. intros ->.
      eapply (bind_apart inode_pages (inodes s) (Z.to_nat j) (Z.to_nat ino)); [by eapply fs_nodup|exact (inode_lookup _ _ _ Hinv Hj)|exact (inode_lookup _ _ _ Hinv Hi)|lia|exact Hp|].
      eapply block_in_pages; [done|done|split; [exact Hq|exact Hq']|done|done].
    + intros p v Hp HR. unfold fbyte. change (inode s' ino) with (inode s ino).
      pose proof (pos_block p ltac:(lia)) as (Hpq1 & Hpm & Hpe). pose proof (proj1 (pos_max p ltac:(lia)) ltac:(lia)) as Hpb.
      destruct (Z.eqb_spec (i_blocks (inode s ino) !!! Z.to_nat (p / RAMFS_BLOCK)) 0) as [|Hnz']; [done|].
      intros [= <-]. f_equal. destruct (decide (p / RAMFS_BLOCK = pos / RAMFS_BLOCK)) as [He|Hne].
      * rewrite He, Hptr. cbn [bytes s' set_bytes]. rewrite mem_write_get, decide_False; [done|]. lia.
      * assert ((ino, p / RAMFS_BLOCK) ≠ (ino, pos / RAMFS_BLOCK)) as Hne2 by congruence.
        destruct (blocks_disjoint s lost ino (p / RAMFS_BLOCK) _ ino (pos / RAMFS_BLOCK) _ Hinv Hi Hi ltac:(lia) ltac:(lia) eq_refl Hptr Hnz' Hnz Hne2);
          cbn [bytes s' set_bytes]; rewrite mem_write_get, decide_False; try done; lia.
  - intros i v Hiv. pose proof (lookup_lt_Some _ _ _ Hiv) as Hil. unfold fbyte. change (inode s' ino) with (inode s ino).
    assert ((pos + Z.of_nat i) / RAMFS_BLOCK = pos / RAMFS_BLOCK ∧ (pos + Z.of_nat i) mod RAMFS_BLOCK = pos mod RAMFS_BLOCK + Z.of_nat i) as [-> ->].
    { pose proof (pos_block (pos + Z.of_nat i) ltac:(lia)) as (? & ? & ?). unfold RAMFS_BLOCK in *. lia. }
    rewrite Hptr, (proj2 (Z.eqb_neq _ _) Hnz). cbn [bytes s' set_bytes]. rewrite mem_write_get, decide_True by lia.
    f_equal. replace (Z.to_nat _) with i by lia. by apply list_lookup_total_correct.
Qed.

Lemma write_loop_spec fuel ino pos buf s lost :
  ramfs_inv s lost → valid s ino → 0 ≤ pos → (length buf ≤ fuel)%nat →
  ∃ r s', write_loop fuel ino pos buf s = Done (r, s') ∧ ramfs_inv s' lost ∧
    wrote s s' ino (λ p, pos ≤ p < pos + Z.of_nat (length buf)) ∧
    (r = Ok tt → (buf ≠ [] → pos + Z.of_nat (length buf) ≤ FILE_MAX) ∧
       ∀ i v, buf !! i = Some v → fbyte s' ino (pos + Z.of_nat i) = Some v).
Proof.
  revert pos buf s. induction fuel as [|fuel IH]; intros pos buf s Hinv Hv Hpos Hf.
  { destruct buf; [|cbn in Hf; lia]. exists (Ok tt), s. split_and!; [done|done|by apply wrote_refl|done]. }
  destruct buf as [|b buf']; [exists (Ok tt), s; split_and!; [done|done|by apply wrote_refl|done]|].
  cbn [write_loop]. set (buf := b :: buf') in *.
  pose proof (pos_block pos Hpos) as (Hq & Hm & Hpq).
  destruct (ensure_block ino (pos / RAMFS_BLOCK) s) as [r1 s1] eqn:Hen.
  destruct (ensure_block_spec _ _ _ _ _ _ Hinv Hv Hq Hen) as (Hinv1 & Hw1 & Hr1).
  assert (valid s1 ino) as Hv1 by (eapply wrote_valid; [|exact Hw1|exact Hv]; apply Hv).
  destruct r1 as [ptr|e].
  2: { exists (Err e), s1. split_and!; [done|done| |done]. eapply wrote_weaken; [|exact Hw1]. done. }
  destruct Hr1 as (Hb & Hnz & Hptr). assert (pos < FILE_MAX) as Hmax by (by apply pos_max).
  set (chunk := Z.to_nat (Z.min (Z.of_nat (length buf)) (RAMFS_BLOCK - pos mod RAMFS_BLOCK))).
  assert (0 < chunk ≤ length buf)%nat as Hc by (unfold chunk; cbn [length buf]; lia).
  assert (length (take chunk buf) = chunk) as Hlt by (rewrite length_take; lia).
  destruct (chunk_spec s1 lost ino pos (take chunk buf) ptr Hinv1 Hv1) as (Hinv2 & Hw2 & Hb2); [lia|rewrite Hlt; unfold chunk; lia|done|done|].
  set (s2 := set_bytes _ s1) in *. rewrite Hlt in Hw2.
  assert (valid s2 ino) as Hv2 by exact Hv1.
  destruct (IH (pos + Z.of_nat chunk) (drop chunk buf) s2) as (r & s' & Hrun & Hinv' & Hw' & Hr); [done|done|lia|rewrite length_drop; cbn [length buf] in *; lia|].
  rewrite length_drop in Hw', Hr. rewrite Hrun. exists r, s'. split_and!; [done|done| |].
  - eapply wrote_weaken; [|eapply wrote_trans; [exact Hw1|eapply wrote_trans; [exact Hw2|exact Hw']]]. cbn beta. lia.
  - intros ->. destruct (Hr eq_refl) as [Hmx Hby]. split.
    + intros _. destruct (decide (drop chunk buf = [])) as [Hnil|Hnn].
      * assert (length buf - chunk = 0)%nat as Hz by (by rewrite <- length_drop, Hnil).
        unfold FILE_MAX, chunk in *. unfold RAMFS_BLOCK in *. rewrite blocks_1024 in Hb. lia.
      * specialize (Hmx Hnn). lia.
    + intros i v Hiv. destruct (decide (i < chunk)%nat) as [Hic|Hic].
      * apply (wr_keep _ _ _ _ Hw'); [unfold FILE_MAX, chunk in *; unfold RAMFS_BLOCK in *; rewrite blocks_1024 in Hb; lia|lia|].
        apply Hb2. rewrite lookup_take. by rewrite decide_True.
      * replace (pos + Z.of_nat i) with (pos + Z.of_nat chunk + Z.of_nat (i - chunk)) by lia. apply Hby.
        rewrite lookup_drop. by replace (chunk + (i - chunk))%nat with i by lia.
Qed.

(** ** Reading *)

(** The bytes from a position on, up to the first hole. *)
Lemma read_loop_spec fuel s lost ino pos todo acc :
  ramfs_inv s lost → valid s ino → 0 ≤ pos →
  todo ≤ 0 ∨ Z.max 0 (MAX_BLOCKS_PER_INODE - pos / RAMFS_BLOCK) < Z.of_nat fuel →
  ∃ out, read_loop fuel (inode s ino) (bytes s) pos todo acc = Done (acc ++ out) ∧
    (Z.of_nat (length out) ≤ Z.max 0 todo) ∧
    (∀ i v, out !! i = Some v → fbyte s ino (pos + Z.of_nat i) = Some v) ∧
    (Z.of_nat (length out) < todo → pos + Z.of_nat (length out) < FILE_MAX → fbyte s ino (pos + Z.of_nat (length out)) = None).
Proof.
  intros Hinv [Hi Hu]. pose proof (inode_ok _ _ _ Hinv Hi) as Hwf. pose proof (iw_count _ Hwf) as Hcnt.
  revert pos todo acc. induction fuel as [|fuel IH]; intros pos todo acc Hpos Hf; cbn [read_loop].
  all: destruct (Z.leb_spec todo 0) as [H0|H0]; [exists []; rewrite app_nil_r; split_and!; [done|cbn; lia|done|cbn; lia]|].
  { lia. }
  destruct Hf as [|Hf]; [lia|]. pose proof (pos_block pos Hpos) as (Hq & Hm & Hpq).
  assert (∀ P : Prop, P → ∃ out, Done acc = Done (acc ++ out) ∧ out = [] ∧ P) as Hstop by (intros P HP; exists []; by rewrite app_nil_r).
  destruct (Z.leb_spec (i_block_count (inode s ino)) (pos / RAMFS_BLOCK)) as [Hc|Hc].
  { destruct (Hstop True I) as (out & Ho & -> & _). exists []. split_and!; [done|cbn; lia|done|]. cbn [length]. rewrite Z.add_0_r.
    intros _ Hlt%pos_max; [|done]. unfold fbyte. by rewrite (iw_null _ Hwf) by lia. }
  rewrite (proj2 (Z.leb_gt MAX_BLOCKS_PER_INODE _)) by lia.
  destruct (Z.eqb_spec (i_blocks (inode s ino) !!! Z.to_nat (pos / RAMFS_BLOCK)) 0) as [Hz|Hnz].
  { exists []. rewrite app_nil_r. split_and!; [done|cbn; lia|done|]. cbn [length]. rewrite Z.add_0_r. intros _ _. unfold fbyte. by rewrite Hz. }
  set (ptr := i_blocks (inode s ino) !!! Z.to_nat (pos / RAMFS_BLOCK)) in *.
  set (chunk := Z.min todo (RAMFS_BLOCK - pos mod RAMFS_BLOCK)).
  assert (0 < chunk ≤ todo) as Hch by (unfold chunk; lia).
  destruct (IH (pos + chunk) (todo - chunk) (acc ++ mem_read (ptr + pos mod RAMFS_BLOCK) (Z.to_nat chunk) (bytes s))) as (out & Hrun & Hlen & Hby & Hend).
  { lia. }
  { destruct (decide (todo - chunk ≤ 0)); [by left|right]. pose proof (pos_block (pos + chunk) ltac:(lia)). unfold chunk, RAMFS_BLOCK in *. lia. }
  exists (mem_read (ptr + pos mod RAMFS_BLOCK) (Z.to_nat chunk) (bytes s) ++ out).
  rewrite length_app, mem_read_length. split_and!.
  - by rewrite Hrun, app_assoc.
  - lia.
  - intros i v Hiv. destruct (decide (i < Z.to_nat chunk)%nat) as [Hic|Hic].
    + rewrite lookup_app_l in Hiv by (by rewrite mem_read_length). rewrite mem_read_lookup in Hiv by done. injection Hiv as <-.
      unfold fbyte. assert ((pos + Z.of_nat i) / RAMFS_BLOCK = pos / RAMFS_BLOCK ∧ (pos + Z.of_nat i) mod RAMFS_BLOCK = pos mod RAMFS_BLOCK + Z.of_nat i) as [-> ->].
      { pose proof (pos_block (pos + Z.of_nat i) ltac:(lia)) as (? & ? & ?). unfold chunk, RAMFS_BLOCK in *. lia. }
      fold ptr. rewrite (proj2 (Z.eqb_neq _ _) Hnz). do 2 f_equal. lia.
    + rewrite lookup_app_r in Hiv by (rewrite mem_read_length; lia). rewrite mem_read_length in Hiv. apply Hby in Hiv.
      by replace (pos + Z.of_nat i) with (pos + chunk + Z.of_nat (i - Z.to_nat chunk)) by lia.
  - intros Hlt Hmx. replace (pos + Z.of_nat (Z.to_nat chunk + length out)) with (pos + chunk + Z.of_nat (length out)) in * by lia.
    apply Hend; lia.
Qed.

(** Reading a range every byte of which exists gives those bytes. *)
Lemma read_full s lost ino pos buf :
  ramfs_inv s lost → valid s ino → 0 ≤ pos → pos + Z.of_nat (length buf) ≤ FILE_MAX →
  pos + Z.of_nat (length buf) ≤ i_size (inode s ino) →
  (∀ i v, buf !! i = Some v → fbyte s ino (pos + Z.of_nat i) = Some v) →
  read s ino pos (Z.of_nat (length buf)) = Done (Ok buf).
Proof.
  intros Hinv Hv Hpos Hmax Hsz Hby. unfold read. rewrite (proj2 (get_ino_valid s ino ltac:(apply Hv)) Hv). cbn [negb].
  destruct (Z.leb_spec (i_size (inode s ino)) pos) as [Hle|Hgt].
  { destruct buf; [done|cbn in *; lia]. }
  rewrite Z.min_r by lia.
  destruct (read_loop_spec block_fuel s lost ino pos (Z.of_nat (length buf)) [] Hinv Hv Hpos) as (out & -> & Hlen & Hout & Hend).
  { right. pose proof (pos_block pos Hpos). unfold block_fuel. rewrite blocks_1024. lia. }
  cbn [app cbind]. do 2 f_equal. rewrite Z.max_r in Hlen by lia.
  assert (length out = length buf) as Hl.
  { destruct (decide (length out < length buf)%nat) as [Hlt|]; [|lia]. exfalso.
    destruct (lookup_lt_is_Some_2 buf (length out) Hlt) as [v Hvv]. rewrite (Hby _ _ Hvv) in Hend. by discriminate Hend; lia. }
  apply list_eq_same_length with (length buf); [done|done|]. intros i x y Hi Hx Hy.
  apply Hout in Hx. apply Hby in Hy. congruence.
Qed.

(** What a read of another file depends on. *)
Lemma read_loop_frame fuel n m m' pos todo acc :
  (∀ b x, 0 ≤ b < MAX_BLOCKS_PER_INODE → i_blocks n !!! Z.to_nat b ≠ 0 →
     i_blocks n !!! Z.to_nat b ≤ x < i_blocks n !!! Z.to_nat b + RAMFS_BLOCK → getd 0 m' x = getd 0 m x) →
  0 ≤ pos → read_loop fuel n m' pos todo acc = read_loop fuel n m pos todo acc.
Proof.
  intros Hm. revert pos todo acc. induction fuel as [|fuel IH]; intros pos todo acc Hpos; cbn [read_loop]; [done|].
  destruct (Z.leb_spec todo 0); [done|]. destruct (i_block_count n <=? pos / RAMFS_BLOCK); [done|].
  destruct (Z.leb_spec MAX_BLOCKS_PER_INODE (pos / RAMFS_BLOCK)); [done|].
  destruct (Z.eqb_spec (i_blocks n !!! Z.to_nat (pos / RAMFS_BLOCK)) 0) as [|Hnz]; [done|].
  pose proof (pos_block pos Hpos) as (Hq & Hmd & _).
  rewrite IH by lia. f_equal. f_equal. apply mem_read_ext. intros x Hx. apply (Hm (pos / RAMFS_BLOCK)); [lia|done|lia].
Qed.

Lemma read_frame s s' lost ino R j off len :
  ramfs_inv s lost → wrote s s' ino R → 0 ≤ j → j ≠ ino → 0 ≤ off → read s' j off len = read s j off len.
Proof.
  intros Hinv Hw Hj Hne Hoff. unfold read.
  assert (inode s' j = inode s j) as Hin by (by apply Hw).
  assert (get_ino s' j = get_ino s j) as -> by (unfold get_ino; by rewrite Hin).
  rewrite Hin. destruct (get_ino s j) eqn:Hg; cbn [negb]; [|reflexivity]. apply get_ino_valid in Hg as [Hj' Hu]; [|done].
  rewrite (read_loop_frame block_fuel (inode s j) (bytes s) (bytes s')); [reflexivity| |done].
  intros b x Hb Hnz Hx. eapply (wr_bytes _ _ _ _ Hw j); [done|done| |exact Hx].
  eapply block_in_pages; [done|done|exact Hb|reflexivity|done].
Qed.

End ops.

(** * Inodes and directories of the RAM file system

    Allocating and releasing inodes, and a directory as a map from names to
    inodes ([dir]). *)

#[local] Opaque MAX_BLOCKS_PER_INODE MAX_INODES null_blocks MAX_DIRENTS MAX_NAME.

(** ** A directory as a map *)

Definition entry_is (d : RamDirent) (name : list Z) : bool :=
  d_used d && (d_name_len d =? length name)%nat && bool_decide (take (d_name_len d) (d_name d) = name).

Definition dir_slot (n : RamInode) (name : list Z) : option nat :=
  first_from (λ i, entry_is (i_dirents n !!! i) name) 0 (i_dirent_count n).

Definition dir (n : RamInode) (name : list Z) : option Z := (λ i, d_ino (i_dirents n !!! i)) <$> dir_slot n name.

(** No two entries in use carry the same name. *)
Definition unique_names (n : RamInode) : Prop :=
  ∀ name i j, (i < i_dirent_count n)%nat → (j < i_dirent_count n)%nat →
    entry_is (i_dirents n !!! i) name = true → entry_is (i_dirents n !!! j) name = true → i = j.

Lemma dirent_name n i : inode_wf n → (i < i_dirent_count n)%nat → length (d_name (i_dirents n !!! i)) = MAX_NAME.
Proof.
  intros Hwf Hi. apply (iw_names _ Hwf). eapply list_elem_of_lookup_2, list_lookup_lookup_total_lt.
  rewrite (iw_dirents _ Hwf). pose proof (iw_dcount _ Hwf). lia.
Qed.

Lemma find_name_spec n name : inode_wf n → (length name ≤ MAX_NAME)%nat → find_name n name = Done (dir_slot n name).
Proof.
  intros Hwf Hlen. unfold find_name, dir_slot.
  assert (∀ k, (k < 0 + i_dirent_count n)%nat → length (d_name (i_dirents n !!! k)) = MAX_NAME) as Hnm by (intros; by apply dirent_name).
  revert Hnm. generalize (i_dirent_count n) 0%nat. induction n0 as [|m IH]; intros i Hnm; [done|]. cbn [find_dirent first_from].
  unfold entry_is at 1. destruct (d_used (i_dirents n !!! i)); cbn [andb]; [|apply IH; intros; apply Hnm; lia].
  unfold slice_eq. destruct (Nat.eqb_spec (d_name_len (i_dirents n !!! i)) (length name)) as [He|Hne]; cbn [negb andb cbind].
  - rewrite Hnm, (proj2 (Nat.ltb_ge _ _)) by lia. cbn [cbind]. case_bool_decide; [done|]. apply IH. intros; apply Hnm; lia.
  - apply IH. intros; apply Hnm; lia.
Qed.

Lemma dirent_entry_set d ino name ft name' :
  length (d_name d) = MAX_NAME → (length name ≤ MAX_NAME)%nat →
  entry_is (dirent_set ino name ft d) name' = bool_decide (name = name').
Proof.
  intros Hd Hl. unfold entry_is, dirent_set. cbn [d_used d_name_len d_name andb].
  assert (Z.to_nat (w16 (Z.of_nat (length name))) = length name) as ->.
  { unfold w16. rewrite Z.mod_small; [lia|]. pose proof (eq_refl : MAX_NAME = 255%nat) as E. rewrite E in Hl. lia. }
  unfold overlay. rewrite (take_ge name) by done. rewrite take_app_length.
  destruct (decide (name = name')) as [->|Hne].
  - by rewrite Nat.eqb_refl, !bool_decide_true.
  - rewrite !(bool_decide_false (name = name')) by done. apply andb_false_r.
Qed.

Lemma dirent_set_name d ino name ft : length (d_name d) = MAX_NAME → length (d_name (dirent_set ino name ft d)) = MAX_NAME.
Proof.
  intros Hd. unfold dirent_set, overlay. cbn [d_name]. rewrite length_app, length_drop, length_take. lia.
Qed.

(** Filling a slot that held no entry. *)
Lemma put_dirent_spec n slot ino name ft cnt :
  inode_wf n → (length name ≤ MAX_NAME)%nat → (slot < MAX_DIRENTS)%nat →
  (slot < i_dirent_count n ∧ d_used (i_dirents n !!! slot) = false ∧ cnt = i_dirent_count n ∨
   slot = i_dirent_count n ∧ cnt = S slot)%nat →
  inode_wf (put_dirent slot ino name ft cnt n) ∧
  (∀ name', name' ≠ name → dir (put_dirent slot ino name ft cnt n) name' = dir n name') ∧
  (dir n name = None → dir (put_dirent slot ino name ft cnt n) name = Some ino).
Proof.
  intros Hwf Hlen Hs Hslot. pose proof Hwf as [W1 W2 W3 W4 W5 W6 W7 W8].
  assert (length (d_name (i_dirents n !!! slot)) = MAX_NAME) as Hnm.
  { apply W7. eapply list_elem_of_lookup_2, list_lookup_lookup_total_lt. lia. }
  set (n' := put_dirent slot ino name ft cnt n).
  assert (∀ i name', entry_is (i_dirents n' !!! i) name' = if decide (i = slot) then bool_decide (name = name') else entry_is (i_dirents n !!! i) name') as He.
  { intros i name'. unfold n', put_dirent. cbn [i_dirents with_dirents]. case_decide as Hd.
    - subst i. rewrite list_lookup_total_insert_eq by lia. by apply dirent_entry_set.
    - by rewrite list_lookup_total_insert_ne by done. }
  assert (∀ name' i, (slot < i_dirent_count n)%nat → i = slot → entry_is (i_dirents n !!! i) name' = false) as Hun.
  { intros name' i Hlt ->. unfold entry_is. destruct Hslot as [(_ & -> & _)|[? _]]; [done|lia]. }
  assert (i_dirent_count n' = cnt) as Hcnt by done.
  assert (i_dirents n' !!! slot = dirent_set ino name ft (i_dirents n !!! slot)) as Hat.
  { unfold n', put_dirent. cbn [i_dirents with_dirents]. apply list_lookup_total_insert_eq. lia. }
  split_and!.
  - split; try done; unfold n', put_dirent; cbn [i_dirents with_dirents i_dirent_count].
    + by rewrite length_insert.
    + lia.
    + intros d [->|Hd]%elem_of_insert_inv; [by apply dirent_set_name|by apply W7].
  - intros name' Hne.
    assert (dir_slot n' name' = dir_slot n name') as Hsl.
    { unfold dir_slot. rewrite Hcnt. destruct Hslot as [(Hlt & _ & ->)|[-> ->]].
      - apply first_from_ext. intros i Hi. rewrite He. case_decide; [|done]. rewrite bool_decide_false by congruence. symmetry. by apply Hun.
      - rewrite first_from_snoc, (first_from_ext _ (λ i, entry_is (i_dirents n !!! i) name')).
        + destruct (first_from _ 0 _); [done|]. cbn [Nat.add]. rewrite He, decide_True by done. by rewrite bool_decide_false by congruence.
        + intros i Hi. rewrite He. by rewrite decide_False by lia. }
    unfold dir. rewrite Hsl. destruct (dir_slot n name') as [i|] eqn:Hi; [|done]. cbn. f_equal.
    unfold n', put_dirent. cbn [i_dirents with_dirents]. rewrite list_lookup_total_insert_ne; [done|]. intros <-.
    apply first_from_Some in Hi as ((_ & Hi) & Hen & _). destruct Hslot as [(Hlt & _)|[-> _]]; [by rewrite (Hun _ slot) in Hen|lia].
  - unfold dir. intros Hnone. destruct (dir_slot n name) eqn:Hns; [done|]. unfold dir_slot in Hns. rewrite first_from_None in Hns.
    assert (dir_slot n' name = Some slot) as ->.
    { unfold dir_slot. rewrite Hcnt. apply first_from_Some. split_and!; [lia|lia| |].
      - rewrite He, decide_True by done. by apply bool_decide_true.
      - intros k Hk. rewrite He, decide_False by lia. apply Hns. lia. }
    cbn [fmap option_fmap option_map]. by rewrite Hat.
Qed.

(** Clearing the entry of a name. *)
Lemma clear_dirent_spec n name i :
  inode_wf n → dir_slot n name = Some i → unique_names n →
  inode_wf (clear_dirent i n) ∧ unique_names (clear_dirent i n) ∧
  dir (clear_dirent i n) name = None ∧ ∀ name', name' ≠ name → dir (clear_dirent i n) name' = dir n name'.
Proof.
  intros Hwf Hs Hu. pose proof Hwf as [W1 W2 W3 W4 W5 W6 W7 W8].
  apply first_from_Some in Hs as ((_ & Hi) & Hen & _). cbn [Nat.add] in Hi.
  assert (∀ j, i_dirents (clear_dirent i n) !!! j = if decide (j = i) then mkRamDirent (d_ino (i_dirents n !!! i)) (d_name (i_dirents n !!! i)) (d_name_len (i_dirents n !!! i)) (d_file_type (i_dirents n !!! i)) false else i_dirents n !!! j) as Hj.
  { intros j. unfold clear_dirent. cbn [i_dirents with_dirents]. case_decide as Hd; [subst; apply list_lookup_total_insert_eq; lia|by apply list_lookup_total_insert_ne]. }
  assert (∀ j name', entry_is (i_dirents (clear_dirent i n) !!! j) name' = if decide (j = i) then false else entry_is (i_dirents n !!! j) name') as He.
  { intros j name'. rewrite Hj. by case_decide. }
  assert (∀ name', name' ≠ name → entry_is (i_dirents n !!! i) name' = false) as Hother.
  { intros name' Hne. apply not_true_is_false. unfold entry_is in *. intros Hx. rewrite !andb_true_iff, !bool_decide_eq_true in *. naive_solver. }
  split_and!.
  - split; try done; unfold clear_dirent; cbn [i_dirents with_dirents].
    + by rewrite length_insert.
    + intros d [->|Hd]%elem_of_insert_inv; [|by apply W7]. cbn. by apply dirent_name.
  - intros name' j k Hjc Hkc. rewrite !He. do 2 case_decide; [done..|]. intros. by eapply (Hu name').
  - unfold dir. assert (dir_slot (clear_dirent i n) name = None) as ->; [|done].
    apply first_from_None. intros k Hk. cbn [Nat.add] in Hk. rewrite He. case_decide as Hd; [done|].
    apply not_true_is_false. intros Hx. apply Hd. apply (Hu name); [|done|done|done]. apply Hk.
  - intros name' Hne. unfold dir.
    assert (dir_slot (clear_dirent i n) name' = dir_slot n name') as ->.
    { apply first_from_ext. intros k Hk. rewrite He. case_decide; [subst; symmetry; by apply Hother|done]. }
    destruct (dir_slot n name') as [k|] eqn:Hk; [|done]. cbn. f_equal. rewrite Hj. by case_decide; subst.
Qed.

(** ** Allocating and releasing inodes *)

Section inodes.
Context {A : Type} `{!PageAllocator A}.
Implicit Types s : ramfs A.

(** From [s] to [s'] only the inode [ino] changed, and no byte did. *)
Definition only s s' (ino : Z) : Prop :=
  bytes s' = bytes s ∧ ∀ j, 0 ≤ j → j ≠ ino → inode s' j = inode s j.

(** Changing fields that hold no page. *)
Lemma upd_fields_inv s lost ino f :
  ramfs_inv s lost → 0 ≤ ino < MAX_INODES → inode_wf (f (inode s ino)) →
  inode_pages (f (inode s ino)) = inode_pages (inode s ino) →
  ramfs_inv (upd_inode ino f s) lost ∧ only s (upd_inode ino f s) ino ∧ inode (upd_inode ino f s) ino = f (inode s ino).
Proof.
  intros Hinv Hi Hwf Hp. split_and!.
  - eapply (upd_inode_inv s lost lost s); [done|done|done|done|]. by rewrite Hp.
  - split; [done|]. intros j Hj Hne. rewrite inode_upd by (apply Hinv || lia). by rewrite decide_False.
  - rewrite inode_upd by (apply Hinv || lia). by rewrite decide_True.
Qed.

Lemma nonnull_null : nonnull null_blocks = [].
Proof.
  Transparent null_blocks. unfold nonnull, null_blocks. generalize (Z.to_nat MAX_BLOCKS_PER_INODE). intros n.
  induction n as [|n IH]; [done|]. cbn [replicate]. rewrite filter_cons_False by tauto. done.
Qed.
Opaque null_blocks.

Lemma unused_blocks n : inode_wf n → i_used n = false → nonnull (i_blocks n) = [].
Proof.
  intros Hwf Hu. unfold nonnull. pose proof (iw_free _ Hwf Hu) as H0.
  destruct (filter _ (i_blocks n)) as [|p l] eqn:Hf; [done|]. exfalso.
  assert (p ∈ filter (λ p, p ≠ 0) (i_blocks n)) as [Hp [i Hi]%list_elem_of_lookup]%list_elem_of_filter by (rewrite Hf; apply list_elem_of_here).
  apply Hp. pose proof (lookup_lt_Some _ _ _ Hi) as Hlt. rewrite (iw_blocks _ Hwf) in Hlt.
  rewrite <- (iw_null _ Hwf (Z.of_nat i)) by lia. rewrite Nat2Z.id. symmetry. by apply list_lookup_total_correct.
Qed.

Lemma alloc_inode_spec s lost r s' :
  ramfs_inv s lost → alloc_inode s = (r, s') →
  match r with
  | Some ino => 0 ≤ ino < MAX_INODES ∧ i_used (inode s ino) = false ∧
      (∃ lost', ramfs_inv s' lost') ∧ only s s' ino ∧ inode s' ino = fresh_inode (inode s ino)
  | None => s' = s ∧ ∀ ino, 0 ≤ ino < MAX_INODES → i_used (inode s ino) = true
  end.
Proof.
  intros Hinv. unfold alloc_inode. destruct (first_from _ 0 _) as [i|] eqn:Hf; intros [= <- <-].
  - apply first_from_Some in Hf as ((_ & Hi) & Hu & _). apply negb_true_iff in Hu.
    assert (inode s (Z.of_nat i) = inodes s !!! i) as Hin by (unfold inode; by rewrite Nat2Z.id).
    assert (0 ≤ Z.of_nat i < MAX_INODES) as Hb by lia. rewrite <- Hin in Hu.
    pose proof (inode_ok _ _ _ Hinv Hb) as Hwf. pose proof Hwf as [W1 W2 W3 W4 W5 W6 W7 W8]. split_and!; [lia|lia|done| | |].
    + exists (nonnull [xb_data_block (i_xattr (inode s (Z.of_nat i)))] ++ lost).
      eapply (upd_inode_inv s lost _ s); [done|done|done| |].
      * split; try done; cbn [fresh_inode i_blocks i_block_count i_dirent_count i_size].
        -- intros k Hk. apply null_lookup. lia.
        -- lia.
      * intros L HL. unfold inode_pages in *. rewrite (unused_blocks _ Hwf Hu) in HL. cbn [fresh_inode i_blocks i_xattr].
        rewrite nonnull_null. cbn [app] in *. change (nonnull [xb_data_block xattr_block_empty]) with (@nil Z). cbn [app].
        eapply pa_own_perm; [|exact HL]. by rewrite !app_assoc, (Permutation_app_comm L).
    + split; [done|]. intros j Hj Hne. rewrite inode_upd by (apply Hinv || lia). by rewrite decide_False.
    + rewrite inode_upd by (apply Hinv || lia). by rewrite decide_True.
  - split; [done|]. intros ino Hi. rewrite first_from_None in Hf. specialize (Hf (Z.to_nat ino) ltac:(lia)).
    by apply negb_false_iff in Hf.
Qed.

(** Freeing the blocks from [i] up to [cnt]. *)
Lemma free_blocks_spec fuel ino i cnt s lost :
  ramfs_inv s lost → 0 ≤ ino < MAX_INODES → 0 ≤ i → cnt ≤ MAX_BLOCKS_PER_INODE → cnt - i ≤ Z.of_nat fuel →
  ∃ s' bs, free_blocks_loop fuel ino i cnt s = Done s' ∧ ramfs_inv s' lost ∧ only s s' ino ∧
    inode s' ino = with_blocks bs (i_block_count (inode s ino)) (inode s ino) ∧
    ∀ k, 0 ≤ k < MAX_BLOCKS_PER_INODE → bs !!! Z.to_nat k = if decide (i ≤ k < cnt) then 0 else i_blocks (inode s ino) !!! Z.to_nat k.
Proof.
  intros Hinv Hi. revert i s Hinv. induction fuel as [|fuel IH]; intros i s Hinv Hpos Hcnt Hfuel; cbn [free_blocks_loop].
  all: destruct (Z.leb_spec cnt i) as [Hle|Hgt].
  1,3: exists s, (i_blocks (inode s ino)); split_and!; [done|done|done|by destruct (inode s ino)|intros k Hk; by rewrite decide_False by lia].
  { lia. }
  rewrite (proj2 (Z.leb_gt MAX_BLOCKS_PER_INODE i)) by lia. pose proof (inode_ok _ _ _ Hinv Hi) as Hwf.
  destruct (Z.eqb_spec (i_blocks (inode s ino) !!! Z.to_nat i) 0) as [Hz|Hnz].
  - destruct (IH (i + 1) s) as (s' & bs & Hrun & Hinv' & Ho & Hself & Hbs); [done|lia|done|lia|].
    exists s', bs. split_and!; [done|done|done|done|]. intros k Hk. rewrite Hbs by done.
    destruct (decide (k = i)) as [->|]; [by rewrite decide_False, decide_True by lia|].
    destruct (decide (i + 1 ≤ k < cnt)); [rewrite decide_True by lia|rewrite decide_False by lia]; done.
  - set (p := i_blocks (inode s ino) !!! Z.to_nat i) in *.
    pose proof (block_lookup _ _ _ i Hinv Hi ltac:(lia)) as Hlk. fold p in Hlk.
    assert (∃ a, pa_free p (rpal s) = Done a ∧
      ramfs_inv (upd_inode ino (λ n, with_blocks (<[Z.to_nat i := 0]> (i_blocks n)) (i_block_count n) n) (set_rpal a s)) lost) as (a & Hfr & Hinv1).
    { destruct (bind_insert inode_pages (inodes s) (Z.to_nat ino) (inode s ino) (inode s ino)) as (L & HL & _); [by eapply inode_lookup|].
      pose proof (ri_own _ _ Hinv) as Hown. unfold fs_pages in Hown. rewrite HL in Hown. unfold inode_pages in Hown.
      rewrite (nonnull_clear _ _ _ Hlk Hnz) in Hown. cbn [app] in Hown. destruct (pa_free_ok _ _ _ Hown) as (a & Hfr & Hown').
      exists a. split; [done|]. eapply (upd_inode_inv s lost lost (set_rpal a s)); [done|done|done| |].
      - destruct Hwf as [W1 W2 W3 W4 W5 W6 W7 W8]. split; try done; cbn [with_blocks i_blocks i_block_count].
        + by rewrite length_insert.
        + intros k Hk. destruct (decide (k = i)) as [->|]; [apply list_lookup_total_insert_eq; rewrite W1; lia|].
          rewrite list_lookup_total_insert_ne by lia. by apply W3.
      - intros L' HL'. unfold inode_pages in *. cbn [with_blocks i_blocks i_xattr] in *.
        rewrite (nonnull_clear _ _ _ Hlk Hnz) in HL'. cbn [app] in HL'. destruct (pa_free_ok _ _ _ HL') as (a' & Hfr' & Hown'').
        rewrite Hfr in Hfr'. by injection Hfr' as <-. }
    rewrite Hfr. cbn [cbind]. set (s1 := upd_inode ino _ (set_rpal a s)) in *.
    assert (∀ j, 0 ≤ j → inode s1 j = if decide (ino = j) then with_blocks (<[Z.to_nat i := 0]> (i_blocks (inode s ino))) (i_block_count (inode s ino)) (inode s ino) else inode s j) as Hs1.
    { intros j Hj. exact (inode_upd (set_rpal a s) ino _ j (ri_len _ _ Hinv) Hi Hj). }
    destruct (IH (i + 1) s1) as (s' & bs & Hrun & Hinv' & (Hb & Ho) & Hself & Hbs); [done|lia|done|lia|].
    rewrite Hs1 in Hself, Hbs by lia. rewrite decide_True in Hself, Hbs by done.
    exists s', bs. split_and!; [done|done| |done|].
    + split; [done|]. intros j Hj Hne. rewrite Ho, Hs1 by done. by rewrite decide_False.
    + intros k Hk. rewrite Hbs by done. cbn [with_blocks i_blocks]. destruct (decide (k = i)) as [->|].
      * rewrite decide_False, decide_True by lia. apply list_lookup_total_insert_eq. rewrite (iw_blocks _ Hwf). lia.
      * destruct (decide (i + 1 ≤ k < cnt)); [by rewrite decide_True by lia|rewrite decide_False by lia].
        by rewrite list_lookup_total_insert_ne by lia.
Qed.

Lemma block_fuel_1025 : Z.of_nat block_fuel = 1025.
Proof. unfold block_fuel. rewrite blocks_1024. lia. Qed.

Lemma with_count_wf n bs c :
  inode_wf n → length bs = Z.to_nat MAX_BLOCKS_PER_INODE → 0 ≤ c ≤ MAX_BLOCKS_PER_INODE →
  (∀ k, c ≤ k < MAX_BLOCKS_PER_INODE → bs !!! Z.to_nat k = 0) → (i_used n = false → c = 0) → inode_wf (with_blocks bs c n).
Proof. intros [W1 W2 W3 W4 W5 W6 W7 W8] H1 H2 H3 H4. by split. Qed.

(** Afterwards the inode holds no block. *)
Lemma free_inode_blocks_spec ino s lost :
  ramfs_inv s lost → 0 ≤ ino < MAX_INODES →
  ∃ s' bs, free_inode_blocks ino s = Done s' ∧ ramfs_inv s' lost ∧ only s s' ino ∧
    inode s' ino = with_blocks bs 0 (inode s ino) ∧ nonnull bs = [].
Proof.
  intros Hinv Hi. unfold free_inode_blocks. pose proof (inode_ok _ _ _ Hinv Hi) as Hwf.
  destruct (free_blocks_spec block_fuel ino 0 (i_block_count (inode s ino)) s lost Hinv Hi) as (s1 & bs & -> & Hinv1 & [Hb1 Ho1] & Hself & Hbs);
    [lia|apply Hwf|pose proof (iw_count _ Hwf); rewrite block_fuel_1025, blocks_1024 in *; lia|].
  cbn [cbind]. pose proof (inode_ok _ _ _ Hinv1 Hi) as Hwf1. rewrite Hself in Hwf1.
  assert (∀ k, 0 ≤ k < MAX_BLOCKS_PER_INODE → bs !!! Z.to_nat k = 0) as Hz.
  { intros k Hk. rewrite Hbs by done. case_decide; [done|]. apply (iw_null _ Hwf). lia. }
  assert (length bs = Z.to_nat MAX_BLOCKS_PER_INODE) as Hlen by (exact (iw_blocks _ Hwf1)).
  destruct (upd_fields_inv s1 lost ino (λ n, with_blocks (i_blocks n) 0 n) Hinv1 Hi) as (Hinv2 & [Hb2 Ho2] & Hself2).
  { rewrite Hself. apply with_count_wf; [done|done|rewrite blocks_1024; lia|intros; apply Hz; lia|done]. }
  { done. }
  exists (upd_inode ino (λ n, with_blocks (i_blocks n) 0 n) s1), bs. split_and!; [done|done| | |].
  - split; [congruence|]. intros j Hj Hne. by rewrite Ho2, Ho1.
  - by rewrite Hself2, Hself.
  - apply (unused_blocks (with_used false (with_blocks bs 0 (inode s ino)))); [|done].
    destruct Hwf as [W1 W2 W3 W4 W5 W6 W7 W8]. split; try done; cbn; try (rewrite blocks_1024; lia); intros k Hk; apply Hz; lia.
Qed.

End inodes.
