(* ===== verification/RamfsClaims.v ===== *)
(** * The theorems about the RAM file system *)

From S2P Require Import Prelude Bytes VfsTypes PageAlloc Ramfs RamfsInv.
From S2P Require Import Buddy BuddySpec BuddyPages.
From stdpp Require Import base gmap numbers strings list.
Local Open Scope Z_scope.

Section claims.
Context {A : Type} `{!PageAllocator A}.
Implicit Types s : ramfs A.
#[local] Opaque MAX_BLOCKS_PER_INODE MAX_INODES null_blocks MAX_DIRENTS MAX_NAME.

Lemma with_size_inv s lost ino sz :
  ramfs_inv s lost → 0 ≤ ino < MAX_INODES → 0 ≤ sz < 2 ^ 64 → ramfs_inv (upd_inode ino (with_size sz) s) lost.
Proof.
  intros Hinv Hi Hsz. eapply (upd_inode_inv s lost lost s); [done|done|done| |done].
  pose proof (inode_ok _ _ _ Hinv Hi) as [W1 W2 W3 W4 W5 W6 W7 W8]. by split.
Qed.

Lemma write_spec s lost ino off buf :
  ramfs_inv s lost → valid s ino → 0 ≤ off → off + Z.of_nat (length buf) < 2 ^ 64 →
  ∃ r s', write ino off buf s = Done (r, s') ∧ ramfs_inv s' lost ∧
    (∀ j off' len, 0 ≤ j → j ≠ ino → 0 ≤ off' → read s' j off' len = read s j off' len) ∧
    (∀ pos v, 0 ≤ pos < FILE_MAX → ¬ (off ≤ pos < off + Z.of_nat (length buf)) →
       fbyte s ino pos = Some v → fbyte s' ino pos = Some v) ∧
    (∀ n, r = Ok n → n = Z.of_nat (length buf) ∧
       i_size (inode s' ino) = Z.max (i_size (inode s ino)) (off + Z.of_nat (length buf)) ∧
       read s' ino off (Z.of_nat (length buf)) = Done (Ok buf)).
Proof.
  intros Hinv Hv Hoff Hend. pose proof Hv as [Hi Hu]. unfold write.
  rewrite (proj2 (get_ino_valid s ino ltac:(lia)) Hv). cbn [negb]. rewrite w64_small by lia.
  set (e := off + Z.of_nat (length buf)) in *.
  set (s1 := if i_size (inode s ino) <? e then _ else s).
  assert (ramfs_inv s1 lost ∧ inode s1 ino = with_size (Z.max (i_size (inode s ino)) e) (inode s ino) ∧
    (∀ j, 0 ≤ j → j ≠ ino → inode s1 j = inode s j) ∧ bytes s1 = bytes s) as (Hinv1 & Hself & Hoth & Hbs).
  { unfold s1. destruct (Z.ltb_spec (i_size (inode s ino)) e) as [Hlt|Hge].
    - split_and!; [apply with_size_inv; [done|done|lia]|rewrite inode_upd by (apply Hinv || lia); rewrite decide_True by done; by rewrite Z.max_r by lia| |done].
      intros j Hj Hne. rewrite inode_upd by (apply Hinv || lia). by rewrite decide_False.
    - split_and!; [done| |done|done]. rewrite Z.max_l by lia. by destruct (inode s ino). }
  assert (valid s1 ino) as Hv1 by (split; [done|by rewrite Hself]).
  destruct (write_loop_spec (length buf) ino off buf s1 lost Hinv1 Hv1 Hoff (le_n _)) as (r & s' & -> & Hinv' & Hw & Hr).
  cbn [cbind]. pose proof (wr_self _ _ _ _ Hw) as (bs & c & Hself').
  assert (ramfs_inv s' lost ∧ (∀ j off' len, 0 ≤ j → j ≠ ino → 0 ≤ off' → read s' j off' len = read s j off' len) ∧
    (∀ pos v, 0 ≤ pos < FILE_MAX → ¬ (off ≤ pos < e) → fbyte s ino pos = Some v → fbyte s' ino pos = Some v)) as Hframe.
  { split_and!; [done| |].
    - intros j off' len Hj Hne Hoff'. rewrite (read_frame s1 s' lost ino _ j off' len Hinv1 Hw Hj Hne Hoff').
      unfold read, get_ino. by rewrite Hoth, Hbs by done.
    - intros pos v Hpos Hn Hb. apply (wr_keep _ _ _ _ Hw); [done|done|]. unfold fbyte in *. by rewrite Hself, Hbs. }
  destruct r as [[]|err]; eexists _, s'; (split; [reflexivity|]); destruct Hframe as (? & ? & ?); split_and!; try done.
  intros n [= <-]. destruct (Hr eq_refl) as [Hmax Hby]. split_and!; [done|by rewrite Hself', Hself|].
  destruct (decide (buf = [])) as [->|Hne].
  - unfold read. rewrite (proj2 (get_ino_valid s' ino ltac:(lia)) (wrote_valid s1 s' ino _ ino ltac:(lia) Hw Hv1)). cbn [negb length].
    rewrite Z.min_comm. destruct (Z.leb_spec (i_size (inode s' ino)) off); [done|]. by rewrite Z.min_l by lia.
  - apply (read_full s' lost); [done|eapply wrote_valid; [lia|exact Hw|done]|done|by apply Hmax|rewrite Hself', Hself; cbn; lia|done].
Qed.

(** C10: what is written is what is read.  [write] always returns; when it
    succeeds it has taken the whole buffer, the file is as long as the end of
    the write requires, and reading the same range gives the buffer back.  In
    every case no other file and no other position of this file changes. *)
Theorem write_read s lost ino off buf :
  ramfs_inv s lost → valid s ino → 0 ≤ off → off + Z.of_nat (length buf) < 2 ^ 64 →
  ∃ r s', write ino off buf s = Done (r, s') ∧ ramfs_inv s' lost ∧
    (∀ j off' len, 0 ≤ j → j ≠ ino → 0 ≤ off' → read s' j off' len = read s j off' len) ∧
    (∀ pos v, 0 ≤ pos < FILE_MAX → ¬ (off ≤ pos < off + Z.of_nat (length buf)) →
       fbyte s ino pos = Some v → fbyte s' ino pos = Some v) ∧
    (∀ n, r = Ok n → n = Z.of_nat (length buf) ∧
       i_size (inode s' ino) = Z.max (i_size (inode s ino)) (off + Z.of_nat (length buf)) ∧
       read s' ino off (Z.of_nat (length buf)) = Done (Ok buf)).
Proof. apply write_spec. Qed.

(** ** Directories *)

Lemma lookup_dir s lost p name :
  ramfs_inv s lost → valid s p → (length name ≤ MAX_NAME)%nat →
  Ramfs.lookup s p name = if (p =? 0) && bool_decide (name = slash) then Done (Ok 0)
    else Done (match dir (inode s p) name with Some i => Ok i | None => Err "ramfs: not found" end).
Proof.
  intros Hinv Hv Hl. unfold Ramfs.lookup. destruct (_ && _); [done|].
  rewrite (proj2 (get_ino_valid s p ltac:(apply Hv)) Hv). cbn [negb].
  rewrite find_name_spec by (done || by eapply inode_ok, Hv). cbn [cbind]. unfold dir. by destruct (dir_slot _ name).
Qed.

(** A read looks at the size and the blocks of the inode and at memory. *)
Lemma read_same s s' j off len :
  i_used (inode s' j) = i_used (inode s j) → i_size (inode s' j) = i_size (inode s j) →
  i_blocks (inode s' j) = i_blocks (inode s j) → i_block_count (inode s' j) = i_block_count (inode s j) →
  bytes s' = bytes s → read s' j off len = read s j off len.
Proof.
  intros H1 H2 H3 H4 H5. unfold read, get_ino. rewrite H1, H2, H5.
  assert (∀ fuel pos todo acc, read_loop fuel (inode s' j) (bytes s) pos todo acc = read_loop fuel (inode s j) (bytes s) pos todo acc) as Hl.
  { induction fuel as [|fuel IH]; intros pos todo acc; cbn [read_loop]; rewrite ?H3, ?H4, ?IH; done. }
  destruct (negb _); [done|]. destruct (_ <=? off); [done|]. by rewrite Hl.
Qed.

Lemma free_slot_spec n : inode_wf n →
  match free_slot n with
  | Some i => (i < i_dirent_count n)%nat ∧ d_used (i_dirents n !!! i) = false
  | None => ∀ i, (i < i_dirent_count n)%nat → d_used (i_dirents n !!! i) = true
  end.
Proof.
  intros Hwf. unfold free_slot. destruct (first_from _ 0 _) as [i|] eqn:Hf.
  - apply first_from_Some in Hf as (Hi & Hu & _). split; [lia|]. by apply negb_true_iff.
  - rewrite first_from_None in Hf. intros i Hi. specialize (Hf i ltac:(lia)). by apply negb_false_iff in Hf.
Qed.

Lemma attr_wf n m u g l : inode_wf n → inode_wf (with_attr m u g l n).
Proof. intros [W1 W2 W3 W4 W5 W6 W7 W8]. by split. Qed.

Lemma free_wf n bs : inode_wf (with_blocks bs 0 n) → inode_wf (with_used false (with_blocks bs 0 n)).
Proof. intros [W1 W2 W3 W4 W5 W6 W7 W8]. by split. Qed.

Lemma create_spec s lost parent name mode :
  ramfs_inv s lost → valid s parent → (length name ≤ MAX_NAME)%nat → name ≠ slash →
  ∃ r s', create parent name mode s = Done (r, s') ∧ (∃ lost', ramfs_inv s' lost') ∧
    (∀ j off len, valid s j → read s' j off len = read s j off len) ∧
    (∀ j, valid s j → j ≠ parent → inode s' j = inode s j) ∧
    match r with
    | Ok ino => i_used (inode s ino) = false ∧ valid s' ino ∧ i_size (inode s' ino) = 0 ∧
        (∀ name', name' ≠ name → (length name' ≤ MAX_NAME)%nat → Ramfs.lookup s' parent name' = Ramfs.lookup s parent name') ∧
        (Ramfs.lookup s parent name = Done (Err "ramfs: not found") → Ramfs.lookup s' parent name = Done (Ok ino))
    | Err _ =>
        (∀ name', (length name' ≤ MAX_NAME)%nat → Ramfs.lookup s' parent name' = Ramfs.lookup s parent name') ∧
        ((∀ ino, 0 ≤ ino < MAX_INODES → i_used (inode s ino) = true) ∨
         i_dirent_count (inode s parent) = MAX_DIRENTS ∧ ∀ i, (i < MAX_DIRENTS)%nat → d_used (i_dirents (inode s parent) !!! i) = true)
    end.
Proof.
  intros Hinv Hv Hlen Hsl. pose proof Hv as [Hp Hu]. unfold create.
  rewrite (proj2 (get_ino_valid s parent ltac:(lia)) Hv). cbn [negb].
  destruct (alloc_inode s) as [[ino|] s1] eqn:Hal; pose proof (alloc_inode_spec _ _ _ _ Hinv Hal) as Hspec.
  2: { destruct Hspec as [-> Hfull]. eexists _, s. split; [reflexivity|]. split_and!; [by exists lost|done|done|done|by left]. }
  destruct Hspec as (Hi & Hfree & (lost1 & Hinv1) & [Hb1 Ho1] & Hself1).
  assert (parent ≠ ino) as Hne by (intros ->; congruence).
  set (m := if negb (Z.land mode S_IFMT =? 0) then mode else Z.lor mode S_IFREG).
  destruct (upd_fields_inv s1 lost1 ino (with_mode m) Hinv1 Hi) as (Hinv2 & [Hb2 Ho2] & Hself2);
    [apply attr_wf, (inode_ok _ _ _ Hinv1 Hi)|done|].
  set (s2 := upd_inode ino (with_mode m) s1) in *. rewrite Hself1 in Hself2.
  assert (inode s2 parent = inode s parent) as Hpar by (rewrite Ho2, Ho1; done || lia).
  cbv zeta. rewrite Hpar. pose proof (inode_ok _ _ _ Hinv Hp) as Hwfp. pose proof (free_slot_spec _ Hwfp) as Hslot.
  assert (∀ j, valid s j → j ≠ ino) as Hnj by (intros j [_ Hj] ->; congruence).
  set (slot := match free_slot (inode s parent) with Some i => _ | None => _ end).
  destruct slot as [[i cnt]|] eqn:Hs.
  - (* an entry is filled *)
    assert ((i < MAX_DIRENTS)%nat ∧ (i < i_dirent_count (inode s parent) ∧ d_used (i_dirents (inode s parent) !!! i) = false ∧ cnt = i_dirent_count (inode s parent) ∨
      i = i_dirent_count (inode s parent) ∧ cnt = S i)%nat) as [Hi64 Hwhere].
    { unfold slot in Hs. pose proof (iw_dcount _ Hwfp). destruct (free_slot (inode s parent)) as [k|]; [injection Hs as -> <-; naive_solver lia|].
      destruct (Nat.leb_spec MAX_DIRENTS (i_dirent_count (inode s parent))); [done|]. injection Hs as <- <-. lia. }
    destruct (put_dirent_spec (inode s parent) i ino name FT_REG_FILE cnt Hwfp Hlen Hi64 Hwhere) as (Hwf3 & Hoth & Hnew).
    destruct (upd_fields_inv s2 lost1 parent (put_dirent i ino name FT_REG_FILE cnt) Hinv2 Hp) as (Hinv3 & [Hb3 Ho3] & Hself3); [by rewrite Hpar|done|].
    set (s3 := upd_inode parent _ s2) in *. rewrite Hpar in Hself3.
    assert (inode s3 ino = with_mode m (fresh_inode (inode s ino))) as Hino3 by (rewrite Ho3 by (done || lia); exact Hself2).
    set (g := λ n, with_attr (i_mode n) (i_uid n) (i_gid n) 1 n).
    destruct (upd_fields_inv s3 lost1 ino g Hinv3 Hi) as (Hinv4 & [Hb4 Ho4] & Hself4); [apply attr_wf, (inode_ok _ _ _ Hinv3 Hi)|done|].
    set (s4 := upd_inode ino g s3) in *. exists (Ok ino), s4.
    assert (inode s4 parent = put_dirent i ino name FT_REG_FILE cnt (inode s parent)) as Hpar4 by (by rewrite Ho4 by (done || lia)).
    assert (valid s4 parent) as Hv4 by (split; [done|by rewrite Hpar4]).
    split; [reflexivity|]. split_and!; [by exists lost1| | |done|split; [done|by rewrite Hself4, Hino3]|by rewrite Hself4, Hino3| |].
    + intros j off len Hj. pose proof Hj as [Hjr _]. specialize (Hnj j Hj).
      destruct (decide (j = parent)) as [->|Hjp]; [apply read_same; try (by rewrite Hpar4); congruence|].
      apply read_same; try (by rewrite Ho4, Ho3, Ho2, Ho1 by (done || lia)). congruence.
    + intros j Hj Hjp. pose proof Hj as [Hjr _]. specialize (Hnj j Hj). by rewrite Ho4, Ho3, Ho2, Ho1 by (done || lia).
    + intros name' Hne' Hlen'. rewrite (lookup_dir s4 lost1) by done. rewrite (lookup_dir s lost) by done. by rewrite Hpar4, Hoth.
    + rewrite (lookup_dir s lost), (lookup_dir s4 lost1) by done.
      rewrite (bool_decide_false (name = slash)), andb_false_r by done. rewrite Hpar4.
      destruct (dir (inode s parent) name); [done|]. intros _. by rewrite Hnew.
  - (* the directory is full *)
    destruct (free_inode_blocks_spec ino s2 lost1 Hinv2 Hi) as (s3 & bs & -> & Hinv3 & [Hb3 Ho3] & Hself3 & _). cbn [cbind].
    destruct (upd_fields_inv s3 lost1 ino (with_used false) Hinv3 Hi) as (Hinv4 & [Hb4 Ho4] & Hself4); [|done|].
    { pose proof (inode_ok _ _ _ Hinv3 Hi) as Hw. rewrite Hself3 in Hw |- *. by apply free_wf. }
    set (s4 := upd_inode ino (with_used false) s3) in *. eexists _, s4. split; [reflexivity|].
    assert (∀ j, 0 ≤ j → j ≠ ino → inode s4 j = inode s j) as Hall by (intros j Hj Hjn; by rewrite Ho4, Ho3, Ho2, Ho1).
    split_and!; [by exists lost1| | | |right].
    + intros j off len Hj. pose proof Hj as [? _]. apply read_same; try (by rewrite Hall by (lia || by apply Hnj)). congruence.
    + intros j Hj _. pose proof Hj as [? _]. apply Hall; [lia|by apply Hnj].
    + intros name' Hlen'. rewrite (lookup_dir s4 lost1), (lookup_dir s lost) by (done || (split; [done|by rewrite Hall by (done || lia)])).
      by rewrite Hall by (done || lia).
    + unfold slot in Hs. destruct (free_slot (inode s parent)); [done|].
      destruct (Nat.leb_spec MAX_DIRENTS (i_dirent_count (inode s parent))) as [Hge|]; [|done].
      pose proof (iw_dcount _ Hwfp). assert (i_dirent_count (inode s parent) = MAX_DIRENTS) as <- by lia. done.
Qed.

(** Creating a file.  [create] always returns.  On success the new inode
    was free before, is an empty file now, and the name leads to it when it
    led nowhere; every other name of the directory leads where it did.  It
    fails only when every inode is in use or the directory has no free entry,
    and then no name and no file changed. *)
Theorem create_then_lookup s lost parent name mode :
  ramfs_inv s lost → valid s parent → (length name ≤ MAX_NAME)%nat → name ≠ slash →
  ∃ r s', create parent name mode s = Done (r, s') ∧ (∃ lost', ramfs_inv s' lost') ∧
    (∀ j off len, valid s j → read s' j off len = read s j off len) ∧
    match r with
    | Ok ino => i_used (inode s ino) = false ∧ valid s' ino ∧ i_size (inode s' ino) = 0 ∧
        (∀ name', name' ≠ name → (length name' ≤ MAX_NAME)%nat → Ramfs.lookup s' parent name' = Ramfs.lookup s parent name') ∧
        (Ramfs.lookup s parent name = Done (Err "ramfs: not found") → Ramfs.lookup s' parent name = Done (Ok ino))
    | Err _ =>
        (∀ name', (length name' ≤ MAX_NAME)%nat → Ramfs.lookup s' parent name' = Ramfs.lookup s parent name') ∧
        ((∀ ino, 0 ≤ ino < MAX_INODES → i_used (inode s ino) = true) ∨
         i_dirent_count (inode s parent) = MAX_DIRENTS ∧ ∀ i, (i < MAX_DIRENTS)%nat → d_used (i_dirents (inode s parent) !!! i) = true)
    end.
Proof.
  intros Hinv Hv Hl Hne. destruct (create_spec s lost parent name mode Hinv Hv Hl Hne) as (r & s' & E & Hi & Hr & _ & H).
  exists r, s'. by split_and!.
Qed.

(** Removing a file.  The name leads nowhere afterwards and every other
    name leads where it did; the inode is free, all its blocks went back to
    the allocator, and no other file changed. *)
Theorem remove_frees s lost parent name tgt :
  ramfs_inv s lost → valid s parent → (length name ≤ MAX_NAME)%nat → unique_names (inode s parent) →
  dir (inode s parent) name = Some tgt → valid s tgt → tgt ≠ parent →
  ∃ s', Ramfs.remove parent name s = Done (Ok tt, s') ∧ ramfs_inv s' lost ∧
    i_used (inode s' tgt) = false ∧ nonnull (i_blocks (inode s' tgt)) = [] ∧
    dir (inode s' parent) name = None ∧ (∀ name', name' ≠ name → dir (inode s' parent) name' = dir (inode s parent) name') ∧
    (∀ j off len, valid s j → j ≠ tgt → read s' j off len = read s j off len).
Proof.
  intros Hinv Hv Hlen Huq Hd Hvt Hne. pose proof Hv as [Hp Hu]. pose proof Hvt as [Ht Htu].
  unfold Ramfs.remove. rewrite (proj2 (get_ino_valid s parent ltac:(lia)) Hv). cbn [negb].
  pose proof (inode_ok _ _ _ Hinv Hp) as Hwfp. rewrite find_name_spec by done. cbn [cbind].
  unfold dir in Hd. destruct (dir_slot (inode s parent) name) as [i|] eqn:Hs; [|done]. cbn in Hd. injection Hd as Hd.
  cbv zeta. rewrite Hd. destruct (clear_dirent_spec _ name i Hwfp Hs Huq) as (Hwf1 & _ & Hnone & Hoth).
  destruct (upd_fields_inv s lost parent (clear_dirent i) Hinv Hp Hwf1 eq_refl) as (Hinv1 & [Hb1 Ho1] & Hself1).
  set (s1 := upd_inode parent (clear_dirent i) s) in *.
  assert (valid s1 tgt) as Hvt1 by (split; [done|by rewrite Ho1 by (done || lia)]).
  rewrite (proj2 (get_ino_valid s1 tgt ltac:(lia)) Hvt1).
  destruct (free_inode_blocks_spec tgt s1 lost Hinv1 Ht) as (s2 & bs & -> & Hinv2 & [Hb2 Ho2] & Hself2 & Hnn). cbn [cbind].
  destruct (upd_fields_inv s2 lost tgt (with_used false) Hinv2 Ht) as (Hinv3 & [Hb3 Ho3] & Hself3); [|done|].
  { pose proof (inode_ok _ _ _ Hinv2 Ht) as Hw. rewrite Hself2 in Hw |- *. by apply free_wf. }
  set (s3 := upd_inode tgt (with_used false) s2) in *. rewrite Hself2 in Hself3.
  assert (inode s3 parent = clear_dirent i (inode s parent)) as Hpar by (by rewrite Ho3, Ho2, Hself1 by (congruence || lia)).
  exists s3. split_and!; [done|done|by rewrite Hself3|by rewrite Hself3|by rewrite Hpar|by rewrite Hpar|].
  intros j off len Hj Hjt. pose proof Hj as [Hjr _].
  destruct (decide (j = parent)) as [->|Hjp]; [apply read_same; try (by rewrite Hpar); congruence|].
  apply read_same; try (by rewrite Ho3, Ho2, Ho1 by (congruence || lia)). congruence.
Qed.

(** ** Defects *)

Lemma slice_eq_overlay name arr name' :
  (length name ≤ length arr)%nat → slice_eq (overlay name arr) (length name) name' = Done (bool_decide (name = name')).
Proof.
  intros Hl. unfold slice_eq, overlay. rewrite length_app, length_drop. destruct (Nat.eqb_spec (length name) (length name')) as [He|Hne]; cbn [negb].
  - rewrite (proj2 (Nat.ltb_ge _ _)) by lia. by rewrite take_app_length.
  - rewrite bool_decide_false; [done|congruence].
Qed.

(** The entry [set] writes for a new name. *)
Definition new_entry (name : list Z) (len : nat) : XattrEntry :=
  mkXattrEntry (overlay name (replicate XATTR_NAME_MAX 0)) (length name) len 0.

(** An attribute table filled from empty. *)
Definition table (l : list (list Z * nat)) (page : Z) : XattrBlock :=
  mkXattrBlock (((λ e, new_entry e.1 e.2) <$> l) ++ replicate (MAX_XATTR_PER_INODE - length l) xattr_entry_empty) (length l) page.

Lemma table_scan l page name n i :
  (∀ e, e ∈ l → (length e.1 ≤ XATTR_NAME_MAX)%nat) → (i + n = length l)%nat →
  xattr_scan n i (xb_entries (table l page)) name = Done (first_from (λ k, bool_decide (fst <$> (l !! k) = Some name)) i n).
Proof.
  intros Hl. revert i. induction n as [|n IH]; intros i Hin; [done|]. cbn [xattr_scan first_from].
  destruct (lookup_lt_is_Some_2 l i ltac:(lia)) as [e He].
  assert (xb_entries (table l page) !!! i = new_entry e.1 e.2) as ->.
  { cbn [table xb_entries]. apply list_lookup_total_correct. rewrite lookup_app_l by (rewrite length_fmap; lia). by rewrite list_lookup_fmap, He. }
  cbn [new_entry xe_name xe_name_len]. rewrite slice_eq_overlay by (rewrite length_replicate; apply Hl; by eapply list_elem_of_lookup_2). cbn [cbind].
  rewrite He. cbn [fmap option_fmap option_map].
  rewrite (bool_decide_ext (e.1 = name) (Some e.1 = Some name)) by naive_solver. destruct (bool_decide _); [done|]. apply IH. lia.
Qed.

(** Setting a name that is not in the table appends it, with offset 0. *)
Lemma table_set l page name value :
  (∀ e, e ∈ l → (length e.1 ≤ XATTR_NAME_MAX)%nat) → (∀ e, e ∈ l → e.1 ≠ name) → (length l < MAX_XATTR_PER_INODE)%nat →
  (length name ≤ XATTR_NAME_MAX)%nat → Z.of_nat (length value) ≤ XATTR_SIZE_MAX →
  xattr_set name value (table l page) = Done (Ok (length l), table (l ++ [(name, length value)]) page).
Proof.
  intros Hl Hn Hc H1 H2. unfold xattr_set. rewrite (proj2 (Nat.ltb_ge _ _) H1), (proj2 (Z.ltb_ge _ _) H2).
  unfold xattr_find. cbn [table xb_count]. fold (table l page). rewrite table_scan by done. cbn [cbind].
  assert (first_from (λ k, bool_decide (fst <$> (l !! k) = Some name)) 0 (length l) = None) as ->.
  { apply first_from_None. intros k Hk. apply bool_decide_eq_false. destruct (l !! k) as [e|] eqn:He; [|done].
    cbn. intros [= Heq]. apply (Hn e); [by eapply list_elem_of_lookup_2|done]. }
  cbn [table xb_count xb_data_block]. rewrite (proj2 (Nat.leb_gt _ _) Hc). unfold table. rewrite length_app. cbn [length xb_entries].
  assert (MAX_XATTR_PER_INODE - length l = S (MAX_XATTR_PER_INODE - (length l + 1)))%nat as -> by lia.
  cbn [replicate]. rewrite fmap_app. cbn [fmap list_fmap].
  assert (length ((λ e, new_entry e.1 e.2) <$> l) = length l) as Hlen by apply length_fmap.
  replace (length l) with (length ((λ e, new_entry e.1 e.2) <$> l) + 0)%nat at 1 2 by lia.
  rewrite insert_app_r, list_lookup_total_alt, lookup_app_r by lia. rewrite Hlen, Nat.add_0_r, Nat.sub_diag. cbn [lookup list_lookup default insert list_insert].
  do 3 f_equal; [by rewrite <- app_assoc|lia].
Qed.

(** Two attributes of an inode share their value.  [XattrBlock::set]
    never sets the offset of a new entry, so both values are stored at the
    start of the attribute page: after [setxattr] of a second name with a
    value as long as the first, [getxattr] of the first name returns the
    second value. *)
Theorem xattr_values_collide s lost ino n1 n2 v1 v2 p a :
  ramfs_inv s lost → valid s ino → i_xattr (inode s ino) = xattr_block_empty → pa_alloc (rpal s) = (Some p, a) →
  n1 ≠ n2 → (length n1 ≤ XATTR_NAME_MAX)%nat → (length n2 ≤ XATTR_NAME_MAX)%nat →
  length v2 = length v1 → Z.of_nat (length v1) ≤ XATTR_SIZE_MAX →
  ∃ s1 s2, setxattr ino n1 v1 s = Done (Ok tt, s1) ∧ setxattr ino n2 v2 s1 = Done (Ok tt, s2) ∧
    getxattr s1 ino n1 (length v1) = Done (Ok v1) ∧ getxattr s2 ino n1 (length v1) = Done (Ok v2).
Proof.
  intros Hinv Hv Hx Hal Hne Hn1 Hn2 Hlv Hsz. pose proof Hv as [Hi Hu].
  destruct (pa_alloc_fresh _ _ _ _ (ri_own _ _ Hinv) Hal) as [_ Hp].
  set (T1 := [(n1, length v1)]). set (T2 := [(n1, length v1); (n2, length v2)]).
  (* the state after each call *)
  set (put x m b := mkRamfs (<[Z.to_nat ino := with_xattr x (inode s ino)]> (inodes s)) m b (dropped s) : ramfs A).
  assert (∀ x m b, inode (put x m b) ino = with_xattr x (inode s ino)) as Hput.
  { intros. apply list_lookup_total_insert_eq. rewrite (ri_len _ _ Hinv). lia. }
  assert (∀ x m b, get_ino (put x m b) ino = true) as Hget.
  { intros. unfold get_ino. rewrite Hput, (proj2 (Z.ltb_lt _ _)) by lia. exact Hu. }
  assert (∀ x m b f, upd_inode ino f (put x m b) = mkRamfs (<[Z.to_nat ino := f (with_xattr x (inode s ino))]> (inodes s)) m b (dropped s)) as Hupd.
  { intros. unfold upd_inode. rewrite Hput. unfold put, set_inodes. cbn [inodes bytes rpal dropped]. by rewrite list_insert_insert_eq. }
  set (m1 := mem_write (p + 0) v1 (mem_zero p XATTR_SIZE_MAX (bytes s))).
  exists (put (table T1 p) m1 a), (put (table T2 p) (mem_write (p + 0) v2 m1) a).
  assert (∀ l m, (∀ e, e ∈ l → (length e.1 ≤ XATTR_NAME_MAX)%nat) → l !! 0%nat = Some (n1, length v1) →
    getxattr (put (table l p) m a) ino n1 (length v1) = Done (Ok (mem_read (p + 0) (length v1) m))) as Hgx.
  { intros l m Hl H0. unfold getxattr. rewrite Hget, Hput. cbn [negb i_xattr with_xattr]. unfold xattr_get, xattr_find. cbn [table xb_count].
    fold (table l p). rewrite table_scan by done. destruct l as [|e l]; [done|]. injection H0 as ->. cbn [cbind length first_from lookup list_lookup fmap option_fmap option_map fst].
    rewrite bool_decide_true by done. cbn [fmap option_fmap option_map cbind]. cbn [table xb_entries xb_data_block fmap list_fmap app]. cbn [lookup_total list_lookup_total new_entry xe_value_len xe_value_off fst snd].
    by rewrite Nat.ltb_irrefl, (proj2 (Z.eqb_neq _ _) Hp). }
  split_and!.
  - unfold setxattr. rewrite (proj2 (get_ino_valid s ino ltac:(lia)) Hv). cbn [negb]. unfold ensure_xattr_page. rewrite Hx, Hal.
    change (xb_data_block xattr_block_empty =? 0) with true. cbv iota zeta.
    assert (upd_inode ino (with_data_block p) (set_bytes (mem_zero p XATTR_SIZE_MAX (bytes s)) (set_rpal a s)) =
      put (table [] p) (mem_zero p XATTR_SIZE_MAX (bytes s)) a) as ->.
    { unfold upd_inode, put, with_data_block. change (inode (set_bytes _ (set_rpal a s)) ino) with (inode s ino). by rewrite Hx. }
    rewrite Hput. cbn [i_xattr with_xattr].
    rewrite (table_set [] p n1 v1); [|by intros e ?%elem_of_nil|by intros e ?%elem_of_nil|unfold MAX_XATTR_PER_INODE; cbn; lia|done|done]. cbn [cbind app length].
    rewrite Hupd. done.
  - unfold setxattr. rewrite Hget. cbn [negb]. unfold ensure_xattr_page. rewrite Hput. cbn [i_xattr with_xattr]. cbn [table xb_data_block].
    rewrite (proj2 (Z.eqb_neq _ _) Hp). rewrite Hput. cbn [i_xattr with_xattr]. fold (table T1 p).
    rewrite (table_set T1 p n2 v2); [|by intros e ->%list_elem_of_singleton|by intros e ->%list_elem_of_singleton|unfold MAX_XATTR_PER_INODE; cbn; lia|done|lia]. cbn [cbind].
    rewrite Hupd. done.
  - rewrite Hgx; [|by intros e ->%list_elem_of_singleton|done]. unfold m1. by rewrite mem_read_write.
  - rewrite Hgx; [|by intros e [->| ->%list_elem_of_singleton]%elem_of_cons|done]. by rewrite <- Hlv, mem_read_write.
Qed.

(** Freeing past the array: the pages in it go back, then the index fails. *)
Lemma free_blocks_panic fuel ino i cnt s L :
  length (inodes s) = Z.to_nat MAX_INODES → 0 ≤ ino < MAX_INODES →
  length (i_blocks (inode s ino)) = Z.to_nat MAX_BLOCKS_PER_INODE → 0 ≤ i ≤ MAX_BLOCKS_PER_INODE → MAX_BLOCKS_PER_INODE < cnt →
  MAX_BLOCKS_PER_INODE - i < Z.of_nat fuel → pa_own (rpal s) (nonnull (drop (Z.to_nat i) (i_blocks (inode s ino))) ++ L) →
  free_blocks_loop fuel ino i cnt s = Panic.
Proof.
  revert i s. induction fuel as [|fuel IH]; intros i s Hl Hino Hb Hi Hcnt Hf Hown; [lia|]. cbn [free_blocks_loop].
  rewrite (proj2 (Z.leb_gt cnt i)) by lia. destruct (Z.leb_spec MAX_BLOCKS_PER_INODE i); [done|].
  assert (i_blocks (inode s ino) !! Z.to_nat i = Some (i_blocks (inode s ino) !!! Z.to_nat i)) as Hlk by (apply list_lookup_lookup_total_lt; lia).
  assert (Z.to_nat (i + 1) = S (Z.to_nat i)) as HS by lia.
  rewrite (drop_S _ _ _ Hlk) in Hown. unfold nonnull in Hown. rewrite filter_cons in Hown. fold (nonnull (drop (S (Z.to_nat i)) (i_blocks (inode s ino)))) in Hown.
  destruct (Z.eqb_spec (i_blocks (inode s ino) !!! Z.to_nat i) 0) as [Hz|Hnz].
  - rewrite decide_False in Hown by tauto. apply IH; try done; [lia|lia|]. by rewrite HS.
  - rewrite decide_True in Hown by done. destruct (pa_free_ok _ _ _ Hown) as (a & -> & Hown'). cbn [cbind].
    set (s1 := upd_inode ino _ (set_rpal a s)).
    assert (i_blocks (inode s1 ino) = <[Z.to_nat i := 0]> (i_blocks (inode s ino))) as Hs1.
    { unfold s1. rewrite (inode_upd (set_rpal a s) ino _ ino Hl Hino ltac:(lia)), decide_True by done. done. }
    apply IH; try done; [by unfold s1, upd_inode, set_inodes; cbn [inodes]; rewrite length_insert|by rewrite Hs1, length_insert|lia|lia|].
    rewrite Hs1, HS, drop_insert_lt by lia. exact Hown'.
Qed.

(** A file extended past the block array brings the kernel down.
    [truncate] accepts any size and stores the block count it implies, past
    the 1024 pointers an inode has; the next operation that walks the blocks
    (here [remove]) indexes out of the array and panics. *)
Theorem truncate_then_remove_panics s lost parent name tgt size :
  ramfs_inv s lost → valid s parent → (length name ≤ MAX_NAME)%nat → unique_names (inode s parent) →
  dir (inode s parent) name = Some tgt → valid s tgt → tgt ≠ parent → FILE_MAX < size < 2 ^ 63 →
  ∃ s', truncate tgt size s = Done (Ok tt, s') ∧ Ramfs.remove parent name s' = Panic.
Proof.
  intros Hinv Hv Hlen Huq Hd Hvt Hne Hsz. pose proof Hv as [Hp Hu]. pose proof Hvt as [Ht Htu].
  pose proof (inode_ok _ _ _ Hinv Hp) as Hwfp. pose proof (inode_ok _ _ _ Hinv Ht) as Hwft.
  unfold truncate. rewrite (proj2 (get_ino_valid s tgt ltac:(lia)) Hvt). cbn [negb]. cbv zeta.
  assert (w64 (size + RAMFS_BLOCK - 1) / RAMFS_BLOCK > MAX_BLOCKS_PER_INODE) as Hnb.
  { unfold RAMFS_BLOCK, FILE_MAX in *. rewrite w64_small by lia. rewrite blocks_1024. clear -Hsz. Z.to_euclidean_division_equations. lia. }
  set (nb := w64 (size + RAMFS_BLOCK - 1) / RAMFS_BLOCK) in *.
  assert (free_blocks_loop block_fuel tgt nb (i_block_count (inode s tgt)) s = Done s) as ->.
  { pose proof (iw_count _ Hwft). unfold block_fuel. cbn [free_blocks_loop]. by rewrite (proj2 (Z.leb_le _ _)) by lia. }
  cbn [cbind]. set (s1 := upd_inode tgt (λ n, with_blocks (i_blocks n) nb n) s). set (s2 := upd_inode tgt (with_size size) s1).
  eexists. split; [reflexivity|].
  assert (length (inodes s1) = Z.to_nat MAX_INODES) as Hl1 by (unfold s1, upd_inode, set_inodes; cbn [inodes]; rewrite length_insert; apply Hinv).
  assert (inode s2 tgt = with_size size (with_blocks (i_blocks (inode s tgt)) nb (inode s tgt))) as Hst.
  { unfold s2. rewrite (inode_upd s1) by (done || lia). rewrite decide_True by done. unfold s1. rewrite (inode_upd s) by (apply Hinv || lia). by rewrite decide_True. }
  assert (∀ j, 0 ≤ j → j ≠ tgt → inode s2 j = inode s j) as Hoth.
  { intros j Hj Hjt. unfold s2. rewrite (inode_upd s1) by (done || lia). rewrite decide_False by done. unfold s1. rewrite (inode_upd s) by (apply Hinv || lia). by rewrite decide_False. }
  assert (length (inodes s2) = Z.to_nat MAX_INODES) as Hl2 by (unfold s2, upd_inode at 1, set_inodes; cbn [inodes]; by rewrite length_insert).
  assert (inode s2 parent = inode s parent) as Hpar by (apply Hoth; [lia|done]).
  unfold Ramfs.remove. assert (get_ino s2 parent = true) as -> by (apply get_ino_valid; [lia|]; split; [done|by rewrite Hpar]).
  cbn [negb]. rewrite Hpar, find_name_spec by done. cbn [cbind]. unfold dir in Hd.
  destruct (dir_slot (inode s parent) name) as [i|]; [|done]. cbn in Hd. injection Hd as ->. cbv zeta.
  set (s3 := upd_inode parent (clear_dirent i) s2).
  assert (inode s3 tgt = inode s2 tgt) as Hst3 by (unfold s3; rewrite (inode_upd s2) by (done || lia); by rewrite decide_False).
  assert (get_ino s3 tgt = true) as -> by (unfold get_ino; rewrite Hst3, Hst, (proj2 (Z.ltb_lt _ _)) by lia; exact Htu).
  unfold free_inode_blocks. rewrite Hst3, Hst. cbn [i_block_count with_size with_blocks].
  destruct (bind_insert inode_pages (inodes s) (Z.to_nat tgt) (inode s tgt) (inode s tgt)) as (L & HL & _); [by eapply inode_lookup|].
  pose proof (ri_own _ _ Hinv) as Hown. unfold fs_pages in Hown. rewrite HL in Hown. unfold inode_pages in Hown. rewrite <- !app_assoc in Hown.
  erewrite (free_blocks_panic block_fuel tgt 0 nb s3); [done|..|rewrite Hst3, Hst; exact Hown].
  - unfold s3, upd_inode at 1, set_inodes. cbn [inodes]. by rewrite length_insert.
  - done.
  - rewrite Hst3, Hst. apply Hwft.
  - rewrite blocks_1024. lia.
  - lia.
  - rewrite block_fuel_1025, blocks_1024. lia.
Qed.

End claims.

(** ** Instances: the file system after boot, on the 64-page machine, with one
    file "f" in the root directory. *)

Definition f_name : list Z := [102].
Definition r64_0 : ramfs kmem := ramfs0 boot64.
Definition r64_1 : ramfs kmem := match ramfs_init r64_0 with Done s => s | _ => r64_0 end.
Definition r64_2 : ramfs kmem := match create 0 f_name 420 r64_1 with Done (_, s) => s | _ => r64_1 end.

(** Well-formed inodes without blocks, by evaluation. *)
Definition wf_check (n : RamInode) : bool :=
  (length (i_blocks n) =? Z.to_nat MAX_BLOCKS_PER_INODE)%nat && (i_block_count n =? 0) && forallb (λ b, b =? 0) (i_blocks n) &&
  (length (i_dirents n) =? MAX_DIRENTS)%nat && (i_dirent_count n <=? MAX_DIRENTS)%nat &&
  forallb (λ d, (length (d_name d) =? MAX_NAME)%nat) (i_dirents n) && (0 <=? i_size n) && (i_size n <? 2 ^ 64) &&
  (xb_data_block (i_xattr n) =? 0).

Lemma wf_check_ok n : wf_check n = true → inode_wf n ∧ inode_pages n = [].
Proof.
  unfold wf_check. intros H. bool_to_prop. rewrite !forallb_forall in *. split.
  - split; try done; try lia.
    + rewrite blocks_1024. lia.
    + intros i Hi. apply Z.eqb_eq. apply H6. apply list_elem_of_In. eapply list_elem_of_lookup_2, list_lookup_lookup_total_lt. lia.
    + intros d Hd%list_elem_of_In. apply Nat.eqb_eq. by apply H3.
  - unfold inode_pages. cbn [nonnull]. rewrite H0.
    assert (nonnull (i_blocks n) = []) as ->; [|done]. unfold nonnull. destruct (filter _ _) as [|p l] eqn:Hf; [done|].
    assert (p ∈ filter (λ p, p ≠ 0) (i_blocks n)) as [Hp Hi]%list_elem_of_filter by (rewrite Hf; apply list_elem_of_here).
    destruct Hp. apply Z.eqb_eq, H6. by apply list_elem_of_In.
Qed.

Lemma concrete_inv (s : ramfs kmem) :
  length (inodes s) = Z.to_nat MAX_INODES → forallb wf_check (inodes s) = true → holds (rpal s) [] → ramfs_inv s [].
Proof.
  intros Hl Hc Ho. rewrite forallb_forall in Hc.
  assert (∀ n, n ∈ inodes s → inode_wf n ∧ inode_pages n = []) as Hn by (intros n Hin; apply wf_check_ok, Hc, list_elem_of_In, Hin).
  split; [done|intros i n Hi; apply Hn; by eapply list_elem_of_lookup_2|].
  assert (fs_pages s = []) as ->; [|done]. unfold fs_pages. revert Hn. clear. induction (inodes s) as [|n l IH]; intros Hn; [done|].
  rewrite bind_cons. rewrite (proj2 (Hn n (list_elem_of_here _ _))). apply IH. intros m Hm. by apply Hn, list_elem_of_further.
Qed.

Lemma r64_2_inv : ramfs_inv r64_2 [].
Proof.
  apply concrete_inv; [vm_compute; reflexivity|vm_compute; reflexivity|].
  assert (rpal r64_2 = boot64) as -> by (vm_compute; reflexivity). exact holds_boot64.
Qed.

Lemma r64_2_unique : unique_names (inode r64_2 0).
Proof.
  intros name i j Hi Hj Ei Ej. assert (i_dirent_count (inode r64_2 0) = 3%nat) as Hc by (vm_compute; reflexivity).
  rewrite Hc in Hi, Hj.
  assert (∀ k, entry_is (i_dirents (inode r64_2 0) !!! k) name = true →
    name = take (d_name_len (i_dirents (inode r64_2 0) !!! k)) (d_name (i_dirents (inode r64_2 0) !!! k))) as Hk.
  { intros k Hx. unfold entry_is in Hx. bool_to_prop. symmetry. exact (bool_decide_eq_true_1 _ H0). }
  apply Hk in Ei, Ej. rewrite Ei in Ej. clear Ei Hk.
  destruct i as [|[|[|i]]]; [..|lia]; destruct j as [|[|[|j]]]; try lia; vm_compute in Ej; discriminate Ej.
Qed.

Lemma r64_valid i : (0 <=? i) && (i <? MAX_INODES) && i_used (inode r64_2 i) = true → valid r64_2 i.
Proof. intros. bool_to_prop. split; [lia|done]. Qed.

Lemma write_read_witness :
  ∃ r s', write 3 4090 [1; 2; 3; 4; 5; 6; 7; 8; 9; 10] r64_2 = Done (r, s') ∧
    (∀ n, r = Ok n → read s' 3 4090 10 = Done (Ok [1; 2; 3; 4; 5; 6; 7; 8; 9; 10])).
Proof.
  destruct (write_read r64_2 [] 3 4090 [1; 2; 3; 4; 5; 6; 7; 8; 9; 10] r64_2_inv) as (r & s' & H1 & _ & _ & _ & H2).
  - apply r64_valid. vm_compute. reflexivity.
  - lia.
  - cbn. lia.
  - exists r, s'. split; [exact H1|]. intros n Hn. apply (H2 n Hn).
Defined.

Lemma create_then_lookup_witness :
  ∃ r s', create 0 [103] 420 r64_2 = Done (r, s') ∧ ∀ ino, r = Ok ino → Ramfs.lookup s' 0 [103] = Done (Ok ino).
Proof.
  destruct (create_then_lookup r64_2 [] 0 [103] 420 r64_2_inv) as (r & s' & H1 & _ & _ & H2).
  - apply r64_valid. vm_compute. reflexivity.
  - apply Nat.leb_le. vm_compute. reflexivity.
  - discriminate.
  - exists r, s'. split; [exact H1|]. intros ino ->. apply H2. vm_compute. reflexivity.
Defined.

Lemma remove_frees_witness :
  ∃ s', Ramfs.remove 0 f_name r64_2 = Done (Ok tt, s') ∧ i_used (inode s' 3) = false ∧ dir (inode s' 0) f_name = None.
Proof.
  destruct (remove_frees r64_2 [] 0 f_name 3 r64_2_inv) as (s' & H1 & _ & H2 & _ & H3 & _).
  - apply r64_valid. vm_compute. reflexivity.
  - apply Nat.leb_le. vm_compute. reflexivity.
  - exact r64_2_unique.
  - vm_compute. reflexivity.
  - apply r64_valid. vm_compute. reflexivity.
  - discriminate.
  - exists s'. split_and!; [exact H1|exact H2|exact H3].
Defined.

Lemma xattr_values_collide_witness :
  ∃ s1 s2, setxattr 3 [97] [1; 2] r64_2 = Done (Ok tt, s1) ∧ setxattr 3 [98] [8; 9] s1 = Done (Ok tt, s2) ∧
    getxattr s2 3 [97] 2 = Done (Ok [8; 9]).
Proof.
  destruct (pa_alloc (rpal r64_2)) as [[p|] a] eqn:Hal.
  2: { exfalso. assert (is_Some (pa_alloc (rpal r64_2)).1) as [x Hx] by (vm_compute; eauto). rewrite Hal in Hx. discriminate Hx. }
  destruct (xattr_values_collide r64_2 [] 3 [97] [98] [1; 2] [8; 9] p a r64_2_inv) as (s1 & s2 & H1 & H2 & _ & H3).
  - apply r64_valid. vm_compute. reflexivity.
  - vm_compute. reflexivity.
  - exact Hal.
  - discriminate.
  - apply Nat.leb_le. vm_compute. reflexivity.
  - apply Nat.leb_le. vm_compute. reflexivity.
  - reflexivity.
  - unfold XATTR_SIZE_MAX. cbn. lia.
  - exists s1, s2. split_and!; [exact H1|exact H2|exact H3].
Defined.

Lemma truncate_then_remove_panics_witness :
  ∃ s', truncate 3 5000000 r64_2 = Done (Ok tt, s') ∧ Ramfs.remove 0 f_name s' = Panic.
Proof.
  apply (truncate_then_remove_panics r64_2 [] 0 f_name 3 5000000 r64_2_inv).
  - apply r64_valid. vm_compute. reflexivity.
  - apply Nat.leb_le. vm_compute. reflexivity.
  - exact r64_2_unique.
  - vm_compute. reflexivity.
  - apply r64_valid. vm_compute. reflexivity.
  - discriminate.
  - unfold FILE_MAX. lia.
Defined.
