(* ===== verification/Tty.v ===== *)
(** * The terminal and the memory devices: [src/tty.rs]

    The input ring of the terminal with its canonical mode, the output path
    with its collection of escape sequences, the [ioctl]s, and the null, zero
    and random devices.  What is sent to the display and to the serial port is
    a log of bytes; a signal raised for the foreground group is logged too.
    Every method of the source takes the locks it needs for the data it
    touches and is one function here; the waiting read is a sequence of turns,
    with the keys that arrive before each turn and the serial byte it finds
    given by the environment. *)

From S2P Require Import Prelude Ring Bytes VfsTypes.
From stdpp Require Import base gmap numbers strings list.
Local Open Scope Z_scope.

Definition TTY_BUFFER_SIZE : nat := 4096.
Definition VGA_WIDTH : Z := 80.
Definition VGA_HEIGHT : Z := 25.

Definition TCGETS : Z := 0x5401.
Definition TCSETS : Z := 0x5402.
Definition TCSETSW : Z := 0x5403.
Definition TCSETSF : Z := 0x5404.
Definition TIOCGWINSZ : Z := 0x5413.
Definition TIOCSWINSZ : Z := 0x5414.
Definition TIOCGPGRP : Z := 0x540F.
Definition TIOCSPGRP : Z := 0x5410.
Definition TCFLSH : Z := 0x540B.

Definition ICANON : Z := 2.
Definition ECHO : Z := 8.
Definition ECHOE : Z := 16.
Definition ISIG : Z := 1.
Definition SIGINT : Z := 2.

Record InputBuffer := mkInput {
  in_buf : list Z;
  in_head : nat;
  in_tail : nat;
  in_count : nat;
  line_ready : bool;
  in_echo : bool;
  in_canonical : bool;
}.

Record Termios := mkTermios { c_iflag : Z; c_oflag : Z; c_cflag : Z; c_lflag : Z; c_cc : list Z }.
Record Winsize := mkWinsize { ws_row : Z; ws_col : Z; ws_xpixel : Z; ws_ypixel : Z }.

Record tty := mkTty {
  input_buf : InputBuffer;
  termios : Termios;
  winsize : Winsize;
  fg_pgrp : Z;
  screen : list Z;
  serial_out : list Z;
  signals : list Z;
}.

Definition set_input (i : InputBuffer) (t : tty) : tty :=
  mkTty i (termios t) (winsize t) (fg_pgrp t) (screen t) (serial_out t) (signals t).
Definition set_term (x : Termios) (t : tty) : tty :=
  mkTty (input_buf t) x (winsize t) (fg_pgrp t) (screen t) (serial_out t) (signals t).
Definition set_winsize (w : Winsize) (t : tty) : tty :=
  mkTty (input_buf t) (termios t) w (fg_pgrp t) (screen t) (serial_out t) (signals t).
Definition set_fg_pgrp (p : Z) (t : tty) : tty :=
  mkTty (input_buf t) (termios t) (winsize t) p (screen t) (serial_out t) (signals t).
Definition show (bs : list Z) (t : tty) : tty :=
  mkTty (input_buf t) (termios t) (winsize t) (fg_pgrp t) (screen t ++ bs) (serial_out t) (signals t).
Definition serial_write (bs : list Z) (t : tty) : tty :=
  mkTty (input_buf t) (termios t) (winsize t) (fg_pgrp t) (screen t) (serial_out t ++ bs) (signals t).
Definition signal_foreground_group (sig : Z) (t : tty) : tty :=
  mkTty (input_buf t) (termios t) (winsize t) (fg_pgrp t) (screen t) (serial_out t) (signals t ++ [sig]).
Definition get_fg_pgrp (t : tty) : Z := fg_pgrp t.

Definition default_cc : list Z :=
  [0x03; 0x1c; 0x7f; 0x15; 0x04; 0; 0; 0; 0x11; 0x13; 0x1a; 0; 0; 0; 0; 0; 0; 0; 0; 0; 0; 0; 0; 0; 0; 0; 0; 0; 0; 0; 0; 0].

Definition tty_new : tty :=
  mkTty (mkInput (replicate TTY_BUFFER_SIZE 0) 0 0 0 false true true)
    (mkTermios 0 0 0 (Z.lor (Z.lor (Z.lor ICANON ECHO) ECHOE) ISIG) default_cc)
    (mkWinsize VGA_HEIGHT VGA_WIDTH 0 0) 1 [] [] [].

Definition flag (f b : Z) : bool := negb (Z.land f b =? 0).
Definition canonical (t : tty) : bool := flag (c_lflag (termios t)) ICANON.
Definition is_newline (c : Z) : bool := (c =? 10) || (c =? 13).

(** ** The display *)

(** What [put_char_raw] sends to the display. *)
Definition glyph (c : Z) : list Z :=
  if c =? 10 then [10]
  else if c =? 13 then [13]
  else if c =? 9 then [32; 32; 32; 32]
  else if (c =? 8) || (c =? 127) then [8; 32; 8]
  else if (32 <=? c) && (c <=? 126) then [c]
  else [].

Definition put_char_raw (c : Z) (t : tty) : tty := show (glyph c) t.

(** [core::str::from_utf8]: is a byte string well-formed UTF-8? *)
Definition cont (b : Z) : bool := (128 <=? b) && (b <=? 191).
Definition in_range (lo hi b : Z) : bool := (lo <=? b) && (b <=? hi).

Fixpoint utf8_valid (fuel : nat) (bs : list Z) : bool :=
  match fuel, bs with
  | _, [] => true
  | O, _ => false
  | S f, b0 :: r0 =>
      if b0 <=? 127 then utf8_valid f r0
      else if in_range 0xC2 0xDF b0 then
        match r0 with b1 :: r1 => cont b1 && utf8_valid f r1 | _ => false end
      else if in_range 0xE0 0xEF b0 then
        match r0 with
        | b1 :: b2 :: r2 =>
            (if b0 =? 0xE0 then in_range 0xA0 0xBF b1 else if b0 =? 0xED then in_range 0x80 0x9F b1 else cont b1)
            && cont b2 && utf8_valid f r2
        | _ => false
        end
      else if in_range 0xF0 0xF4 b0 then
        match r0 with
        | b1 :: b2 :: b3 :: r3 =>
            (if b0 =? 0xF0 then in_range 0x90 0xBF b1 else if b0 =? 0xF4 then in_range 0x80 0x8F b1 else cont b1)
            && cont b2 && cont b3 && utf8_valid f r3
        | _ => false
        end
      else false
  end.

Definition from_utf8 (bs : list Z) : bool := utf8_valid (length bs) bs.

Definition ESC_MAX : nat := 64.

(** A collected sequence goes to the display when it is valid UTF-8. *)
Definition flush_esc (esc : list Z) (t : tty) : tty := if from_utf8 esc then show esc t else t.

(** One byte of [write_output]; [esc] is [esc_buf[..esc_len]] while in a
    sequence. *)
Definition out_byte (c : Z) (st : option (list Z) * tty) : option (list Z) * tty :=
  let '(esc, t) := st in
  let t := serial_write [c] t in
  match esc with
  | Some e =>
      let e := if (length e <? ESC_MAX)%nat then e ++ [c] else e in
      if (3 <=? length e)%nat && in_range 0x40 0x7E c then (None, flush_esc e t)
      else if (ESC_MAX <=? length e)%nat then (None, flush_esc e t)
      else (Some e, t)
  | None =>
      if c =? 0x1B then (Some [c], t) else (None, put_char_raw c t)
  end.

Definition write_output (data : list Z) (t : tty) : Z * tty :=
  (Z.of_nat (length data), (foldl (λ st c, out_byte c st) (None, t) data).2).

(** ** Input *)

Definition push_input (c : Z) (t : tty) : tty :=
  let lf := c_lflag (termios t) in
  let echo := flag lf ECHO && in_echo (input_buf t) in
  let vintr := c_cc (termios t) !!! 0%nat in
  if flag lf ISIG && negb (vintr =? 0) && (c =? vintr) then
    signal_foreground_group SIGINT (serial_write [94; 67; 10] t)
  else
    let i := input_buf t in
    if (TTY_BUFFER_SIZE <=? in_count i)%nat then t
    else
      let ready := (canonical t && is_newline c) || line_ready i in
      let t := if echo then put_char_raw c t else t in
      set_input (mkInput (<[in_head i := c]> (in_buf i)) ((in_head i + 1) `mod` TTY_BUFFER_SIZE)%nat (in_tail i)
                   (S (in_count i)) ready (in_echo i) (in_canonical i)) t.

(** Is there a line end among the bytes still waiting? *)
Definition any_newline (i : InputBuffer) : bool :=
  match first_from (λ k, is_newline (in_buf i !!! ((in_tail i + k) `mod` TTY_BUFFER_SIZE)%nat)) 0 (in_count i) with
  | Some _ => true
  | None => false
  end.

(** The [while] loop of [pop_input]: [room] bytes fit, [acc] was read. *)
Fixpoint pop_loop (room : nat) (canon : bool) (i : InputBuffer) (acc : list Z) : list Z * InputBuffer :=
  match room with
  | O => (acc, i)
  | S room' =>
      match in_count i with
      | O => (acc, i)
      | S n =>
          let c := in_buf i !!! in_tail i in
          let i := mkInput (in_buf i) (in_head i) ((in_tail i + 1) `mod` TTY_BUFFER_SIZE)%nat n
                     (line_ready i) (in_echo i) (in_canonical i) in
          if canon && is_newline c then
            (acc ++ [c], mkInput (in_buf i) (in_head i) (in_tail i) (in_count i) (any_newline i) (in_echo i) (in_canonical i))
          else pop_loop room' canon i (acc ++ [c])
      end
  end.

Definition pop_input (room : nat) (t : tty) : list Z * tty :=
  let i := input_buf t in
  if (in_count i =? 0)%nat then ([], t)
  else if canonical t && negb (line_ready i) then ([], t)
  else
    let '(bs, i) := pop_loop room (canonical t) i [] in
    (bs, set_input i t).

(** One turn of the waiting read: the keys that arrived before it, and the
    byte the serial port has, if any. *)
Definition turn : Type := list Z * option Z.

Definition push_key (c : Z) (t : tty) : tty := push_input c t.

Fixpoint tty_read_loop (turns : list turn) (room : nat) (t : tty) : comp (res (list Z) * tty) :=
  match turns with
  | [] => Spin
  | (keys, ser) :: rest =>
      let t := foldl (λ t c, push_key c t) t keys in
      match pop_input room t with
      | (b :: bs, t) => Done (Ok (b :: bs), t)
      | ([], t) =>
          match ser with
          | Some c => tty_read_loop rest room (push_input c (put_char_raw c t))
          | None => tty_read_loop rest room t
          end
      end
  end.

Definition tty_read (turns : list turn) (room : nat) (t : tty) : comp (res (list Z) * tty) :=
  if (room =? 0)%nat then Done (Ok [], t) else tty_read_loop turns room t.

Definition tty_write (buf : list Z) (t : tty) : res Z * tty :=
  match buf with
  | [] => (Ok 0, t)
  | _ => let '(n, t) := write_output buf t in (Ok n, t)
  end.

(** ** Settings *)

Definition TERMIOS_SIZE : nat := 48.
Definition WINSIZE_SIZE : nat := 8.

(** The [repr] of [Termios]: four 32-bit words and 32 control characters. *)
Definition termios_bytes (x : Termios) : list Z :=
  le_bytes 4 (c_iflag x) ++ le_bytes 4 (c_oflag x) ++ le_bytes 4 (c_cflag x) ++ le_bytes 4 (c_lflag x) ++ c_cc x.

Definition termios_of (bs : list Z) : Termios :=
  mkTermios (le_value (take 4 bs)) (le_value (take 4 (drop 4 bs))) (le_value (take 4 (drop 8 bs)))
    (le_value (take 4 (drop 12 bs))) (take 32 (drop 16 bs)).

Definition winsize_bytes (w : Winsize) : list Z :=
  le_bytes 2 (ws_row w) ++ le_bytes 2 (ws_col w) ++ le_bytes 2 (ws_xpixel w) ++ le_bytes 2 (ws_ypixel w).

Definition winsize_of (bs : list Z) : Winsize :=
  mkWinsize (le_value (take 2 bs)) (le_value (take 2 (drop 2 bs))) (le_value (take 2 (drop 4 bs)))
    (le_value (take 2 (drop 6 bs))).

(** [get_termios] into a buffer of [room] bytes. *)
Definition get_termios (room : nat) (t : tty) : res (list Z) :=
  if (room <? TERMIOS_SIZE)%nat then Err "buffer too small" else Ok (termios_bytes (termios t)).

Definition set_termios (buf : list Z) (t : tty) : res Z * tty :=
  if (length buf <? TERMIOS_SIZE)%nat then (Err "buffer too small", t)
  else
    let x := termios_of buf in
    let i := input_buf t in
    (Ok (Z.of_nat TERMIOS_SIZE),
     set_input (mkInput (in_buf i) (in_head i) (in_tail i) (in_count i) (line_ready i)
                  (flag (c_lflag x) ECHO) (flag (c_lflag x) ICANON)) (set_term x t)).

Definition get_winsize (room : nat) (t : tty) : res (list Z) :=
  if (room <? WINSIZE_SIZE)%nat then Err "buffer too small" else Ok (winsize_bytes (winsize t)).

(** An [i32] in memory. *)
Definition i32_bytes (z : Z) : list Z := le_bytes 4 (w32 z).
Definition i32_of (bs : list Z) : Z := let v := le_value bs in if v <? 2 ^ 31 then v else v - 2 ^ 32.

(** [ioctl]; [m] is the memory [arg] points into. *)
Definition tty_ioctl (request arg : Z) (m : gmap Z Z) (t : tty) : res Z * gmap Z Z * tty :=
  if request =? TCGETS then
    if arg =? 0 then (Err "EFAULT", m, t)
    else match get_termios TERMIOS_SIZE t with
         | Err e => (Err e, m, t)
         | Ok bs => (Ok 0, mem_write arg bs m, t)
         end
  else if (request =? TCSETS) || (request =? TCSETSW) || (request =? TCSETSF) then
    if arg =? 0 then (Err "EFAULT", m, t)
    else match set_termios (mem_read arg TERMIOS_SIZE m) t with
         | (Err e, t) => (Err e, m, t)
         | (Ok _, t) => (Ok 0, m, t)
         end
  else if request =? TIOCGWINSZ then
    if arg =? 0 then (Err "EFAULT", m, t)
    else match get_winsize WINSIZE_SIZE t with
         | Err e => (Err e, m, t)
         | Ok bs => (Ok 0, mem_write arg bs m, t)
         end
  else if request =? TIOCSWINSZ then
    if arg =? 0 then (Err "EFAULT", m, t)
    else (Ok 0, m, set_winsize (winsize_of (mem_read arg WINSIZE_SIZE m)) t)
  else if request =? TIOCGPGRP then
    if arg =? 0 then (Err "EFAULT", m, t)
    else (Ok 0, mem_write arg (i32_bytes (get_fg_pgrp t)) m, t)
  else if request =? TIOCSPGRP then
    if arg =? 0 then (Err "EFAULT", m, t)
    else (Ok 0, m, set_fg_pgrp (i32_of (mem_read arg 4 m)) t)
  else if request =? TCFLSH then
    let i := input_buf t in
    (Ok 0, m, set_input (mkInput (in_buf i) 0 0 0 false (in_echo i) (in_canonical i)) t)
  else (Err "ENOTTY", m, t).

Definition tty_stat : Stat := mkStat 5 1 (Z.lor S_IFCHR 0x1B6) 1 0 0 (Z.shiftl 5 8) 0 0 0 0 0 0.

(** What the terminal refuses, and with what. *)
Definition tty_refuses (o : vop) : option string :=
  match o with
  | VLookup | VReaddir => Some "ENOTDIR"
  | VCreate | VMkdir | VRemove | VRmdir | VSymlink | VRename | VSetattr => Some "EPERM"
  | VReadlink | VTruncate => Some "EINVAL"
  | VGetxattr | VSetxattr | VListxattr => Some "ENOTSUP"
  | VStat | VIoctl => None
  end.

(** ** The memory devices *)

Definition dev_refuses (o : vop) : string :=
  match o with
  | VLookup | VReaddir | VCreate | VMkdir | VRemove | VRmdir | VSymlink | VRename => "not a directory"
  | VReadlink => "not a symlink"
  | VStat | VSetattr | VGetxattr | VSetxattr | VListxattr | VTruncate | VIoctl => "not supported"
  end.
Definition zero_refuses : vop → string := dev_refuses.
Definition null_refuses : vop → string := dev_refuses.
Definition urandom_refuses : vop → string := dev_refuses.

Definition zero_read (len : nat) : res (list Z) := Ok (replicate len 0).
Definition zero_write (buf : list Z) : res Z := Ok (Z.of_nat (length buf)).
Definition null_read (len : nat) : res (list Z) := Ok [].
Definition null_write (buf : list Z) : res Z := Ok (Z.of_nat (length buf)).

Fixpoint urandom_loop (n : nat) (i seed : Z) : list Z :=
  match n with
  | O => []
  | S n' =>
      let seed := w64 (w64 (seed * 0x5BD1E9955BD1E995) + i) in
      w8 (Z.lxor seed (Z.shiftr seed 32)) :: urandom_loop n' (i + 1) seed
  end.

Definition urandom_read (offset : Z) (len : nat) : res (list Z) :=
  Ok (urandom_loop len 0 (w64 (offset * 0x9E3779B97F4A7C15))).
Definition urandom_write (buf : list Z) : res Z := Ok (Z.of_nat (length buf)).
