(* ===== verification/TtyClaims.v ===== *)
(** * The theorems about the terminal

    The input ring is a bounded queue; in canonical mode reads return whole
    lines. *)

From S2P Require Import Prelude Ring Bytes VfsTypes Tty.
From stdpp Require Import base gmap numbers strings list.
Local Open Scope Z_scope.

Lemma tty_size_pos : (0 < TTY_BUFFER_SIZE)%nat.
Proof. unfold TTY_BUFFER_SIZE. lia. Qed.
#[local] Opaque TTY_BUFFER_SIZE.

(** ** The queue behind the ring *)

Definition in_queue (i : InputBuffer) : list Z := ring_list (in_buf i) (in_tail i) (in_count i) TTY_BUFFER_SIZE.
Definition queue (t : tty) : list Z := in_queue (input_buf t).

(** The first line of a queue, with its line end. *)
Fixpoint first_line (q : list Z) : option (list Z) :=
  match q with
  | [] => None
  | c :: q' => if is_newline c then Some [c] else (λ l, c :: l) <$> first_line q'
  end.

Record in_wf (i : InputBuffer) : Prop := {
  iw_buf : length (in_buf i) = TTY_BUFFER_SIZE;
  iw_tail : (in_tail i < TTY_BUFFER_SIZE)%nat;
  iw_cap : (in_count i ≤ TTY_BUFFER_SIZE)%nat;
  iw_head : in_head i = ((in_tail i + in_count i) `mod` TTY_BUFFER_SIZE)%nat;
}.

Record tty_inv (t : tty) : Prop := {
  ti_wf : in_wf (input_buf t);
  ti_line : canonical t = true → line_ready (input_buf t) = bool_decide (is_Some (first_line (queue t)));
}.

Lemma length_queue i : length (in_queue i) = in_count i.
Proof. apply length_ring_list. Qed.

Lemma first_line_snoc q c :
  is_Some (first_line (q ++ [c])) ↔ is_newline c = true ∨ is_Some (first_line q).
Proof.
  induction q as [|x q IH]; cbn [app first_line].
  - destruct (is_newline c); cbn; split; [by left|eauto|intros [? ?]; done|intros [?|[? ?]]; done].
  - destruct (is_newline x); [split; [right|]; eauto|]. rewrite !fmap_is_Some. exact IH.
Qed.

Lemma any_newline_spec i : any_newline i = bool_decide (is_Some (first_line (in_queue i))).
Proof.
  unfold any_newline, in_queue, ring_list. generalize 0%nat. induction (in_count i) as [|n IH]; intros k; [done|].
  cbn [first_from seq fmap list_fmap first_line]. destruct (is_newline _); [done|]. rewrite IH.
  apply bool_decide_ext. by rewrite fmap_is_Some.
Qed.

(** Taking the oldest byte. *)
Lemma pop_one i n :
  in_wf i → in_count i = S n →
  let i' := mkInput (in_buf i) (in_head i) ((in_tail i + 1) `mod` TTY_BUFFER_SIZE)%nat n (line_ready i) (in_echo i) (in_canonical i) in
  in_wf i' ∧ in_queue i = in_buf i !!! in_tail i :: in_queue i'.
Proof.
  intros [W1 W2 W3 W4] Hn i'. pose proof tty_size_pos as Hp. split.
  - split; cbn [i' in_buf in_tail in_count in_head]; [done|apply Nat.mod_upper_bound; lia|lia|].
    rewrite W4, Hn. rewrite Nat.Div0.add_mod_idemp_l. f_equal. lia.
  - unfold in_queue. rewrite Hn, ring_pop by lia. rewrite (Nat.mod_small (in_tail i)) by done.
    unfold i'. cbn [in_buf in_tail in_count]. by rewrite Nat.add_1_r.
Qed.

Lemma pop_loop_canon room i acc :
  in_wf i → is_Some (first_line (in_queue i)) → line_ready i = true →
  let '(bs, i') := pop_loop room true i acc in
  ∃ got, bs = acc ++ got ∧ in_wf i' ∧ in_queue i = got ++ in_queue i' ∧
    take room <$> first_line (in_queue i) = Some got ∧
    line_ready i' = bool_decide (is_Some (first_line (in_queue i'))).
Proof.
  revert i acc. induction room as [|room IH]; intros i acc Hwf Hl Hr; cbn [pop_loop].
  - exists []. rewrite app_nil_r. destruct Hl as [l Hl]. split_and!; [done|done|done|by rewrite Hl|].
    rewrite Hr. symmetry. apply bool_decide_eq_true. by exists l.
  - destruct (in_count i) as [|n] eqn:Hc.
    { exfalso. destruct Hl as [l Hl]. assert (in_queue i = []) as Hq by (apply length_zero_iff_nil; by rewrite length_queue). by rewrite Hq in Hl. }
    destruct (pop_one i n Hwf Hc) as [Hwf' Hq]. set (i' := mkInput _ _ _ _ _ _ _) in *. rewrite Hq. cbn [first_line andb].
    destruct (is_newline (in_buf i !!! in_tail i)) eqn:Hnl.
    + exists [in_buf i !!! in_tail i]. split_and!; [done| |done|cbn; by rewrite take_nil|].
      * destruct Hwf' as [V1 V2 V3 V4]. by split.
      * exact (any_newline_spec i').
    + rewrite Hq in Hl. cbn [first_line] in Hl. rewrite Hnl, fmap_is_Some in Hl.
      specialize (IH i' (acc ++ [in_buf i !!! in_tail i]) Hwf' Hl Hr).
      destruct (pop_loop room true i' _) as [bs i2]. destruct IH as (got & -> & H2 & H3 & H4 & H5).
      exists ((in_buf i !!! in_tail i) :: got). split_and!; [by rewrite <- app_assoc|done|by rewrite H3| |done].
      destruct (first_line (in_queue i')) as [l|]; [|done]. injection H4 as <-. done.
Qed.

(** The key that becomes a signal. *)
Definition interrupt (t : tty) (c : Z) : Prop := flag (c_lflag (termios t)) ISIG = true ∧ c = c_cc (termios t) !!! 0%nat ∧ c ≠ 0.

#[export] Instance interrupt_dec t c : Decision (interrupt t c).
Proof. unfold interrupt. apply _. Defined.

Lemma push_interrupt c t : interrupt t c → push_input c t = signal_foreground_group SIGINT (serial_write [94; 67; 10] t).
Proof.
  intros (H1 & H2 & H3). unfold push_input. cbv zeta. rewrite H1, H2, Z.eqb_refl. rewrite <- H2. by rewrite (proj2 (Z.eqb_neq c 0) H3).
Qed.

Lemma push_key_spec c t : in_wf (input_buf t) → ¬ interrupt t c →
  let t' := push_input c t in
  in_wf (input_buf t') ∧ termios t' = termios t ∧ signals t' = signals t ∧
  queue t' = (if decide (length (queue t) < TTY_BUFFER_SIZE)%nat then queue t ++ [c] else queue t) ∧
  line_ready (input_buf t') = (if decide (length (queue t) < TTY_BUFFER_SIZE)%nat then canonical t && is_newline c || line_ready (input_buf t) else line_ready (input_buf t)).
Proof.
  intros Hwf Hc. pose proof Hwf as [W1 W2 W3 W4]. pose proof tty_size_pos as Hp. assert (length (queue t) = in_count (input_buf t)) as -> by apply length_queue. unfold push_input.
  assert (flag (c_lflag (termios t)) ISIG && negb (c_cc (termios t) !!! 0%nat =? 0) && (c =? c_cc (termios t) !!! 0%nat) = false) as ->.
  { apply not_true_is_false. intros Hx. apply Hc. bool_to_prop. subst. done. }
  cbv zeta. destruct (Nat.leb_spec TTY_BUFFER_SIZE (in_count (input_buf t))) as [Hge|Hlt].
  - split_and!; [done|done|done|by rewrite decide_False by lia..].
  - rewrite !decide_True by done. set (t1 := if _ && _ then put_char_raw c t else t).
    assert (termios t1 = termios t ∧ signals t1 = signals t) as [Ht1 Hs1] by (unfold t1; by destruct (_ && _)).
    set (i' := mkInput _ _ _ _ _ _ _).
    assert (in_queue i' = queue t ++ [c]) as Hq.
    { unfold queue, in_queue, i'. cbn [in_buf in_tail in_count]. rewrite W4. by apply ring_push. }
    split_and!; [|exact Ht1|exact Hs1|exact Hq|done].
    split; cbn; [by rewrite length_insert|done|lia|]. rewrite W4, Nat.Div0.add_mod_idemp_l. f_equal. lia.
Qed.

Lemma tty_push_spec c t :
  tty_inv t → ¬ interrupt t c →
  tty_inv (push_input c t) ∧ termios (push_input c t) = termios t ∧
  queue (push_input c t) = if decide (length (queue t) < TTY_BUFFER_SIZE)%nat then queue t ++ [c] else queue t.
Proof.
  intros [Hwf Hl] Hc. destruct (push_key_spec c t Hwf Hc) as (P1 & P2 & _ & P4 & P5). split_and!; [split; [done|]|done|done].
  unfold canonical in *. rewrite P2, P5, P4. intros Hcan. specialize (Hl Hcan). case_decide; [|done].
  rewrite Hl, Hcan, (bool_decide_ext _ _ (first_line_snoc (queue t) c)). cbn [andb]. rewrite bool_decide_or. f_equal. by destruct (is_newline c).
Qed.

(** Reading when no line end is waiting, or none matters. *)
Lemma pop_loop_all room canon i acc :
  in_wf i → (canon = true → first_line (in_queue i) = None) →
  let '(bs, i') := pop_loop room canon i acc in
  bs = acc ++ take room (in_queue i) ∧ in_wf i' ∧ in_queue i' = drop room (in_queue i) ∧ line_ready i' = line_ready i.
Proof.
  revert i acc. induction room as [|room IH]; intros i acc Hwf Hl; cbn [pop_loop]; [by rewrite app_nil_r|].
  destruct (in_count i) as [|n] eqn:Hc.
  { assert (in_queue i = []) as -> by (apply length_zero_iff_nil; by rewrite length_queue). rewrite app_nil_r. done. }
  destruct (pop_one i n Hwf Hc) as [Hwf' Hq]. set (i' := mkInput _ _ _ _ _ _ _) in *. rewrite Hq in *. cbn [first_line] in Hl.
  assert (canon && is_newline (in_buf i !!! in_tail i) = false) as ->.
  { destruct canon; [|done]. specialize (Hl eq_refl). by destruct (is_newline _). }
  specialize (IH i' (acc ++ [in_buf i !!! in_tail i]) Hwf').
  destruct (pop_loop room canon i' _) as [bs i2]. destruct IH as (-> & I2 & I3 & I4).
  { intros Hcan. specialize (Hl Hcan). destruct (is_newline _); [done|]. by destruct (first_line (in_queue i')). }
  cbn [take drop]. split_and!; [by rewrite <- app_assoc|done|done|done].
Qed.

Lemma pop_spec room t :
  tty_inv t → canonical t = true →
  let '(bs, t') := pop_input room t in
  tty_inv t' ∧ termios t' = termios t ∧ queue t = bs ++ queue t' ∧
  bs = match first_line (queue t) with Some l => take room l | None => [] end.
Proof.
  intros [Hwf Hl] Hcan. specialize (Hl Hcan). unfold pop_input. rewrite Hcan. cbn [andb].
  destruct (first_line (queue t)) as [l|] eqn:Hf.
  - rewrite bool_decide_true in Hl by eauto. rewrite Hl. cbn [negb].
    destruct (Nat.eqb_spec (in_count (input_buf t)) 0) as [H0|H0].
    { assert (queue t = []) as Hq by (apply length_zero_iff_nil; unfold queue; by rewrite length_queue). by rewrite Hq in Hf. }
    pose proof (pop_loop_canon room (input_buf t) [] Hwf) as Hpop. unfold queue in Hf. specialize (Hpop (ex_intro _ l Hf) Hl).
    destruct (pop_loop room true (input_buf t) []) as [bs i']. destruct Hpop as (got & -> & H2 & H3 & H4 & H5). cbn [app].
    split_and!; [by split|done|exact H3|]. rewrite Hf in H4. by injection H4 as <-.
  - rewrite bool_decide_false in Hl by (by intros [? ?]). rewrite Hl. cbn [negb].
    destruct (in_count (input_buf t) =? 0)%nat; (split_and!; [|done|done|done]); split; try done; intros _; by rewrite Hl, Hf, bool_decide_false by (by intros [? ?]).
Qed.

(** A read from any terminal with a sound ring. *)
Lemma pop_any room t : in_wf (input_buf t) →
  let '(bs, t') := pop_input room t in
  in_wf (input_buf t') ∧ termios t' = termios t ∧ signals t' = signals t ∧ queue t = bs ++ queue t' ∧
  bs = (if canonical t then if line_ready (input_buf t) then take room (default (queue t) (first_line (queue t))) else [] else take room (queue t)).
Proof.
  intros Hwf. unfold pop_input. destruct (Nat.eqb_spec (in_count (input_buf t)) 0) as [H0|H0].
  { assert (queue t = []) as -> by (apply length_zero_iff_nil; unfold queue; by rewrite length_queue). cbn. rewrite take_nil. by repeat case_match. }
  destruct (canonical t && negb (line_ready (input_buf t))) eqn:Hr.
  { apply andb_true_iff in Hr as [-> Hr%negb_true_iff]. by rewrite Hr. }
  destruct (decide (canonical t = true ∧ is_Some (first_line (queue t)))) as [[Hcan [l Hf]]|Hno].
  - rewrite Hcan in *. apply negb_false_iff in Hr. rewrite Hr, Hf.
    pose proof (pop_loop_canon room (input_buf t) [] Hwf (ex_intro _ l Hf) Hr) as Hpop.
    destruct (pop_loop room true (input_buf t) []) as [bs i']. destruct Hpop as (got & -> & H2 & H3 & H4 & _). cbn [app default].
    unfold queue in Hf. rewrite Hf in H4. injection H4 as <-. done.
  - pose proof (pop_loop_all room (canonical t) (input_buf t) [] Hwf) as Hpop.
    destruct (pop_loop room (canonical t) (input_buf t) []) as [bs i']. destruct Hpop as (-> & H2 & H3 & H4).
    { intros Hcan. destruct (first_line (in_queue (input_buf t))) eqn:E; [|done]. destruct Hno. split; [done|]. unfold queue. by rewrite E. }
    split_and!; [done|done|done|cbn; unfold queue; cbn; by rewrite H3, take_drop|]. cbn [app].
    destruct (canonical t) eqn:Hcan; [|done]. cbn [andb] in Hr. apply negb_false_iff in Hr. rewrite Hr.
    destruct (first_line (queue t)) eqn:E; [|done]. destruct Hno. by split.
Qed.

(** ** What happens to a terminal *)

Inductive tty_event :=
| EvKey (c : Z)
| EvRead (room : nat)
| EvIoctl (request arg : Z) (m : gmap Z Z)
| EvWrite (buf : list Z).

Definition tty_do (e : tty_event) (t : tty) : tty :=
  match e with
  | EvKey c => push_key c t
  | EvRead room => (pop_input room t).2
  | EvIoctl request arg m => (tty_ioctl request arg m t).2
  | EvWrite buf => (tty_write buf t).2
  end.

Definition tty_run (es : list tty_event) : tty := foldl (λ t e, tty_do e t) tty_new es.

(** No setting turns canonical mode on. *)
Fixpoint steady (es : list tty_event) (t : tty) : bool :=
  match es with
  | [] => true
  | e :: es => negb (negb (canonical t) && canonical (tty_do e t)) && steady es (tty_do e t)
  end.

(** The ring and the flag are the same. *)
Definition same_ring (i i' : InputBuffer) : Prop :=
  in_buf i' = in_buf i ∧ in_head i' = in_head i ∧ in_tail i' = in_tail i ∧ in_count i' = in_count i ∧ line_ready i' = line_ready i.

Lemma same_ring_inv t t' : same_ring (input_buf t) (input_buf t') → in_wf (input_buf t) →
  in_wf (input_buf t') ∧ ((canonical t = true ∨ canonical t' = false) → tty_inv t → tty_inv t').
Proof.
  intros (E1 & E2 & E3 & E4 & E5) [W1 W2 W3 W4]. assert (in_wf (input_buf t')) as Hwf by (split; congruence). split; [done|].
  intros Hcan [_ Hl]. split; [done|]. intros Hcan'. unfold queue, in_queue in *. rewrite E1, E3, E4, E5. apply Hl. destruct Hcan; congruence.
Qed.

Lemma out_same l st : input_buf (foldl (λ st c, out_byte c st) st l).2 = input_buf st.2 ∧ termios (foldl (λ st c, out_byte c st) st l).2 = termios st.2.
Proof.
  revert st; induction l as [|c l IH]; intros [esc t]; [done|]. cbn [foldl]. destruct (IH (out_byte c (esc, t))) as [-> ->].
  unfold out_byte, flush_esc. by repeat case_match.
Qed.

Lemma ioctl_same request arg m t : request = TCFLSH ∨ same_ring (input_buf t) (input_buf (tty_ioctl request arg m t).2).
Proof.
  destruct (Z.eqb_spec request TCFLSH) as [->|Hne]; [by left|right]. unfold tty_ioctl, set_termios.
  rewrite (proj2 (Z.eqb_neq _ _) Hne), mem_read_length, Nat.ltb_irrefl. repeat case_match; try done; by simplify_eq.
Qed.

Lemma flush_inv arg m t : in_wf (input_buf t) → tty_inv (tty_ioctl TCFLSH arg m t).2.
Proof.
  intros [W1 W2 W3 W4]. split; [split; cbn; [done|apply tty_size_pos|lia|by rewrite Nat.Div0.mod_0_l]|done].
Qed.

Lemma do_inv e t : in_wf (input_buf t) →
  in_wf (input_buf (tty_do e t)) ∧ ((canonical t = true ∨ canonical (tty_do e t) = false) → tty_inv t → tty_inv (tty_do e t)).
Proof.
  intros Hwf. destruct e as [c|room|request arg m|buf]; cbn [tty_do].
  - unfold push_key. destruct (decide (interrupt t c)) as [Hc|Hc]; [rewrite push_interrupt by done; by apply same_ring_inv|].
    split; [by apply push_key_spec|]. intros _ Hi. by apply tty_push_spec.
  - pose proof (pop_any room t Hwf) as H. split; [destruct (pop_input room t) as [bs t']; apply H|]. intros Hcan Hi.
    destruct (canonical t) eqn:Hc.
    + pose proof (pop_spec room t Hi Hc) as Hp. destruct (pop_input room t) as [bs t']. apply Hp.
    + destruct (pop_input room t) as [bs t']. destruct H as (H1 & H2 & _). split; [done|]. cbn [snd]. unfold canonical in *. rewrite H2, Hc. done.
  - destruct (ioctl_same request arg m t) as [->|Hs]; [|by apply same_ring_inv]. pose proof (flush_inv arg m t Hwf) as Hf. split; [apply Hf|done].
  - assert (input_buf (tty_write buf t).2 = input_buf t) as E.
    { unfold tty_write, write_output. destruct buf; [done|]. cbn [snd]. apply (out_same _ (None, t)). }
    apply same_ring_inv; [|done]. by rewrite E.
Qed.

(** The terminal after boot. *)
Lemma tty_new_inv : tty_inv tty_new.
Proof.
  split; [split|]; try (vm_compute; reflexivity).
  - apply Nat.ltb_lt. vm_compute. reflexivity.
  - apply Nat.leb_le. vm_compute. reflexivity.
Qed.

Lemma run_wf es t : in_wf (input_buf t) → in_wf (input_buf (foldl (λ t e, tty_do e t) t es)).
Proof. revert t; induction es as [|e es IH]; intros t Hwf; [done|]. cbn [foldl]. apply IH. exact (proj1 (do_inv e t Hwf)). Qed.

Lemma run_steady es t : tty_inv t → steady es t = true → tty_inv (foldl (λ t e, tty_do e t) t es).
Proof.
  revert t; induction es as [|e es IH]; intros t Hi Hs; [done|]. cbn [foldl steady] in *. apply andb_true_iff in Hs as [Hs1 Hs2].
  apply IH; [|done]. apply (proj2 (do_inv e t (ti_wf _ Hi))); [|done]. destruct (canonical t); [by left|right]. by destruct (canonical (tty_do e t)).
Qed.

(** C37: The input of the terminal, after any sequence of keys, reads, output
    and [ioctl]s from boot on, is a queue of at most 4096 bytes.  The interrupt
    character, when signals are on, is not queued but raises SIGINT for the
    foreground group; any other key is appended while there is room, and is
    dropped else.  A read takes bytes from the front of the queue, in order,
    and as many as fit: in raw mode all, in canonical mode none unless the
    flag [line_ready] is set, and then the first line with its line end.  As
    long as no setting turns canonical mode on, a canonical terminal has this
    flag set exactly when a line end is waiting, so that its reads return
    whole lines and only lines. *)
Theorem tty_line_discipline es :
  let t := tty_run es in
  (length (queue t) ≤ TTY_BUFFER_SIZE)%nat ∧
  (∀ c, interrupt t c → queue (push_input c t) = queue t ∧ signals (push_input c t) = signals t ++ [SIGINT]) ∧
  (∀ c, ¬ interrupt t c → signals (push_input c t) = signals t ∧
     queue (push_input c t) = if decide (length (queue t) < TTY_BUFFER_SIZE)%nat then queue t ++ [c] else queue t) ∧
  (∀ room, let '(bs, t') := pop_input room t in queue t = bs ++ queue t' ∧
     bs = if canonical t then if line_ready (input_buf t) then take room (default (queue t) (first_line (queue t))) else [] else take room (queue t)) ∧
  (steady es tty_new = true → canonical t = true → ∀ room,
     (pop_input room t).1 = match first_line (queue t) with Some l => take room l | None => [] end).
Proof.
  intros t. assert (in_wf (input_buf t)) as Hwf by (apply run_wf, tty_new_inv). split_and!.
  - unfold queue. rewrite length_queue. apply Hwf.
  - intros c Hc. rewrite push_interrupt by done. done.
  - intros c Hc. destruct (push_key_spec c t Hwf Hc) as (_ & _ & H1 & H2 & _). done.
  - intros room. pose proof (pop_any room t Hwf) as H. destruct (pop_input room t) as [bs t']. destruct H as (_ & _ & _ & H1 & H2). done.
  - intros Hs Hcan room. pose proof (pop_spec room t (run_steady es tty_new tty_new_inv Hs) Hcan) as H.
    destruct (pop_input room t) as [bs t']. apply H.
Qed.

(** Raw mode and canonical mode, as a program asks for them. *)
Definition settings (lflag : Z) : tty_event := EvIoctl TCSETS 0x1000 (mem_write 0x1000 (termios_bytes (mkTermios 0 0 0 lflag default_cc)) ∅).

(** A line typed in raw mode is not seen by canonical reads until another line
    end is typed; and the flag that a line read in raw mode has left makes a
    canonical read return bytes that are no line. *)
Example line_not_ready : (pop_input 80 (tty_run [settings 0; EvKey 97; EvKey 10; settings ICANON])).1 = [] ∧
  (pop_input 80 (tty_run [settings 0; EvKey 97; EvKey 10; settings ICANON; EvKey 10])).1 = [97; 10].
Proof. split; vm_compute; reflexivity. Qed.

Example line_ready_stale : (pop_input 80 (tty_run [EvKey 97; EvKey 10; settings 0; EvRead 80; EvKey 98; settings ICANON])).1 = [98].
Proof. vm_compute. reflexivity. Qed.

(** "hi", a line end, the interrupt key and "x" typed. *)
Definition hi_typed : list tty_event := EvKey <$> [104; 105; 10; 3; 120].

Lemma tty_line_discipline_witness : (pop_input 80 (tty_run hi_typed)).1 = [104; 105; 10] ∧ queue (pop_input 80 (tty_run hi_typed)).2 = [120] ∧
  signals (push_input 3 (tty_run hi_typed)) = [SIGINT; SIGINT].
Proof.
  destruct (tty_line_discipline hi_typed) as (_ & H1 & _ & H2 & H3).
  assert (first_line (queue (tty_run hi_typed)) = Some [104; 105; 10]) as Hf by (vm_compute; reflexivity).
  assert (queue (tty_run hi_typed) = [104; 105; 10] ++ [120]) as Hq by (vm_compute; reflexivity).
  specialize (H3 ltac:(vm_compute; reflexivity) ltac:(vm_compute; reflexivity) 80%nat). rewrite Hf in H3. split; [exact H3|]. split.
  - specialize (H2 80%nat). destruct (pop_input 80 (tty_run hi_typed)) as [bs t']. destruct H2 as [H2 _]. cbn [fst snd] in *.
    rewrite H3, Hq in H2. by injection H2 as <-.
  - destruct (H1 3) as [_ ->]; [|vm_compute; reflexivity]. split_and!; [vm_compute; reflexivity..|discriminate].
Defined.

(** ** A line longer than the ring *)

Lemma stuck_step t c :
  tty_inv t → canonical t = true → first_line (queue t) = None → length (queue t) = TTY_BUFFER_SIZE →
  ¬ interrupt t c →
  tty_inv (push_input c t) ∧ termios (push_input c t) = termios t ∧ queue (push_input c t) = queue t.
Proof.
  intros Hinv Hcan Hf Hlen Hc. destruct (tty_push_spec c t Hinv Hc) as (H1 & H2 & H3). split_and!; [done|done|].
  by rewrite H3, decide_False by lia.
Qed.

(** A line longer than the input ring wedges a canonical terminal.  Once
    4096 bytes without a line end are waiting, every further key is dropped,
    the line end included, so no line is ever complete: whatever is typed
    (other than the interrupt character), a read waits forever. *)
Theorem tty_long_line_wedges t room turns :
  tty_inv t → canonical t = true → first_line (queue t) = None → length (queue t) = TTY_BUFFER_SIZE → (0 < room)%nat →
  (∀ keys ser c, (keys, ser) ∈ turns → c ∈ keys ∨ ser = Some c → c ≠ c_cc (termios t) !!! 0%nat) →
  tty_read turns room t = Spin.
Proof.
  intros Hinv Hcan Hf Hlen Hroom Hkeys. unfold tty_read. rewrite (proj2 (Nat.eqb_neq room 0)) by lia.
  set (stuck t' := tty_inv t' ∧ termios t' = termios t ∧ queue t' = queue t).
  assert (∀ t' c, stuck t' → c ≠ c_cc (termios t) !!! 0%nat → stuck (push_input c t')) as Hpush.
  { intros t' c (H1 & H2 & H3) Hc. destruct (stuck_step t' c H1) as (G1 & G2 & G3); try (unfold canonical in *; congruence).
    { unfold interrupt. rewrite H2. naive_solver. }
    split_and!; [done|congruence|congruence]. }
  assert (stuck t) as Hst by done. clear Hinv. assert (∀ t', stuck t' → tty_read_loop turns room t' = Spin) as Hgo; [|by apply Hgo].
  clear Hst. induction turns as [|[keys ser] turns IH]; intros t' Hst; [done|]. cbn [tty_read_loop].
  set (t1 := foldl (λ t c, push_key c t) t' keys).
  assert (stuck t1) as Hst1.
  { unfold t1. assert (∀ c, c ∈ keys → c ≠ c_cc (termios t) !!! 0%nat) as Hk by (intros c Hc; eapply Hkeys; [apply list_elem_of_here|by left]).
    clear t1 IH Hkeys. revert t' Hst Hk. induction keys as [|c keys IHk]; intros t' Hst Hk; [done|]. cbn [foldl].
    apply IHk; [|intros x Hx; by apply Hk, list_elem_of_further]. apply Hpush; [done|]. apply Hk, list_elem_of_here. }
  pose proof Hst1 as (Q1 & Q2 & Q3). pose proof (pop_spec room t1 Q1) as Hp. unfold canonical in Hp. rewrite Q2 in Hp. specialize (Hp Hcan).
  destruct (pop_input room t1) as [bs t2]. destruct Hp as (P1 & P2 & P3 & P4). rewrite Q3, Hf in P4. subst bs. cbn [app] in P3.
  assert (stuck t2) as Hst2 by (split_and!; [done|congruence|congruence]).
  assert (∀ keys0 ser0 c, (keys0, ser0) ∈ turns → c ∈ keys0 ∨ ser0 = Some c → c ≠ c_cc (termios t) !!! 0%nat) as Hrest.
  { intros k s c Hin. apply (Hkeys k s). by apply list_elem_of_further. }
  destruct ser as [c|]; apply (IH Hrest); [|done]. apply Hpush.
  - destruct Hst2 as ([S1 S2] & S3 & S4). split_and!; [|done|done]. by split.
  - eapply Hkeys; [apply list_elem_of_here|by right].
Qed.

(** The ring full of "x". *)
Definition tty_full : tty :=
  set_input (mkInput (replicate TTY_BUFFER_SIZE 120) 0 0 TTY_BUFFER_SIZE false true true) tty_new.

Lemma tty_full_inv : tty_inv tty_full.
Proof.
  split; [split|].
  - apply length_replicate.
  - apply tty_size_pos.
  - apply Nat.le_refl.
  - cbn [tty_full set_input input_buf in_head in_tail in_count]. by rewrite Nat.add_0_l, Nat.Div0.mod_same.
  - intros _. vm_compute. reflexivity.
Qed.

Lemma tty_long_line_wedges_witness : tty_read [([10], None); ([13; 10], Some 10); ([], None)] 80 tty_full = Spin.
Proof.
  apply (tty_long_line_wedges tty_full 80 _ tty_full_inv).
  - vm_compute. reflexivity.
  - vm_compute. reflexivity.
  - vm_compute. reflexivity.
  - lia.
  - intros keys ser c Hin Hc.
    repeat (apply elem_of_cons in Hin as [[= -> ->]|Hin]; [destruct Hc as [Hc|[= <-]]; repeat (apply elem_of_cons in Hc as [->|Hc]; [vm_compute; discriminate|]); try (by apply elem_of_nil in Hc); vm_compute; discriminate|]).
    by apply elem_of_nil in Hin.
Defined.

(** ** Output *)

(** An escape sequence in one write reaches the display whole; split after its
    first byte, the byte is lost and the rest is shown as text. *)
Theorem escape_split_lost c t :
  0x40 ≤ c ≤ 0x7E →
  screen (write_output [27; 91; c] t).2 = screen t ++ [27; 91; c] ∧
  screen (write_output [91; c] (write_output [27] t).2).2 = screen t ++ [91; c].
Proof.
  intros Hc. unfold write_output. cbn [foldl fst snd].
  assert (in_range 64 126 c = true) as Hr by (unfold in_range; rewrite !(proj2 (Z.leb_le _ _)) by lia; done).
  assert (∀ t, out_byte 27 (None, t) = (Some [27], serial_write [27] t)) as H1 by done.
  assert (∀ t, out_byte 91 (Some [27], t) = (Some [27; 91], serial_write [91] t)) as H2 by done.
  assert (∀ t, out_byte c (Some [27; 91], t) = (None, show [27; 91; c] (serial_write [c] t))) as H3.
  { intros u. unfold out_byte. cbn [length app Nat.ltb Nat.leb andb ESC_MAX]. rewrite Hr. unfold flush_esc, from_utf8.
    cbn [length utf8_valid Z.leb Z.compare Pos.compare Pos.compare_cont]. by rewrite (proj2 (Z.leb_le c 127)) by lia. }
  assert (∀ t, out_byte 91 (None, t) = (None, show [91] (serial_write [91] t))) as H4 by done.
  assert (∀ t, out_byte c (None, t) = (None, show [c] (serial_write [c] t))) as H5.
  { intros u. unfold out_byte. rewrite (proj2 (Z.eqb_neq c 27)) by lia. unfold put_char_raw, glyph.
    rewrite !(proj2 (Z.eqb_neq c _)) by lia. cbn [orb]. by rewrite !(proj2 (Z.leb_le _ _)) by lia. }
  split; [by rewrite H1, H2, H3|]. rewrite H1. cbn [snd]. rewrite H4, H5. cbn. by rewrite <- app_assoc.
Qed.

(** ** Settings *)

Lemma termios_bytes_of bs : length bs = TERMIOS_SIZE → Forall is_byte bs → termios_bytes (termios_of bs) = bs.
Proof.
  intros Hl Hb. unfold TERMIOS_SIZE in Hl. unfold termios_bytes, termios_of. cbn [c_iflag c_oflag c_cflag c_lflag c_cc].
  assert (∀ k, (k + 4 ≤ 48)%nat → le_bytes 4 (le_value (take 4 (drop k bs))) = take 4 (drop k bs)) as Hk.
  { intros k Hk. rewrite <- (le_bytes_value (take 4 (drop k bs))) at 2 by (by apply Forall_take, Forall_drop).
    rewrite length_take, length_drop, Hl. by replace (4 `min` (48 - k))%nat with 4%nat by lia. }
  pose proof (Hk 0%nat ltac:(lia)) as H0. rewrite drop_0 in H0. rewrite H0, !Hk by lia. rewrite (take_ge (drop 16 bs)) by (rewrite length_drop; lia).
  assert (∀ k, take 4 (drop k bs) ++ drop (k + 4) bs = drop k bs) as Happ.
  { intros k. rewrite <- (take_drop 4 (drop k bs)) at 2. by rewrite drop_drop. }
  change 16%nat with (12 + 4)%nat. rewrite Happ. change 12%nat with (8 + 4)%nat. rewrite Happ. change 8%nat with (4 + 4)%nat. rewrite Happ.
  apply take_drop.
Qed.

(** What [TCSETS] stores, [TCGETS] returns. *)
Theorem termios_roundtrip arg arg' m t :
  arg ≠ 0 → arg' ≠ 0 → Forall is_byte (mem_read arg TERMIOS_SIZE m) →
  let '(r, m1, t1) := tty_ioctl TCSETS arg m t in
  let '(r', m2, t2) := tty_ioctl TCGETS arg' m1 t1 in
  r = Ok 0 ∧ r' = Ok 0 ∧ mem_read arg' TERMIOS_SIZE m2 = mem_read arg TERMIOS_SIZE m.
Proof.
  intros Ha Ha' Hb. unfold tty_ioctl. change (TCSETS =? TCGETS) with false. change (TCGETS =? TCGETS) with true.
  change (TCSETS =? TCSETS) with true. cbn [orb]. rewrite (proj2 (Z.eqb_neq arg 0) Ha), (proj2 (Z.eqb_neq arg' 0) Ha').
  unfold set_termios. rewrite mem_read_length, Nat.ltb_irrefl. unfold get_termios. rewrite Nat.ltb_irrefl.
  cbn [termios set_input set_term]. rewrite termios_bytes_of by (done || apply mem_read_length). split_and!; [done|done|].
  rewrite <- (mem_read_length arg TERMIOS_SIZE m) at 1. apply mem_read_write.
Qed.
