(* ===== verification/Vma.v ===== *)
(** * Address-space records: the VMA pool and [sys_mmap] of [src/task.rs]

    One pool of records for all address spaces, keyed by the root page table
    ([pml4]).  The pool is an array of which the first [VMA_USED] entries have
    ever been used; the model is that prefix, so its length is [VMA_USED].
    Each helper holds [VMA_LOCK] for its whole body and is one function. *)

From S2P Require Import Prelude.
From stdpp Require Import base numbers list.
Local Open Scope Z_scope.

Definition MAX_VMA_RECORDS : nat := Pos.to_nat 65536.
Definition EINVAL : Z := 22.
Definition ENOMEM : Z := 12.
Definition ENOSYS : Z := 38.
Definition PROT_WRITE : Z := 2.
Definition PROT_EXEC : Z := 4.
Definition MAP_SHARED : Z := 1.
Definition MAP_ANONYMOUS : Z := 32.
Definition PTE_PRESENT : Z := 1.
Definition PTE_WRITABLE : Z := 2.
Definition PTE_USER : Z := 4.
Definition PTE_NO_EXECUTE : Z := 2 ^ 63.

Record Vma := mkVma { v_start : Z; v_end : Z; v_flags : Z }.
Record VmaRec := mkVmaRec { r_pml4 : Z; r_vma : Vma }.

Definition pool : Type := list VmaRec.

(** A slot that may be reused. *)
Definition rec_free (r : VmaRec) : bool := (r_pml4 r =? 0) && (v_start (r_vma r) =? 0).
Definition rec_none : VmaRec := mkVmaRec 0 (mkVma 0 0 0).

(** The first reusable slot takes the record, else the pool grows. *)
Fixpoint reuse (new : VmaRec) (vs : pool) : option pool :=
  match vs with
  | [] => None
  | r :: vs' => if rec_free r then Some (new :: vs') else (λ l, r :: l) <$> reuse new vs'
  end.

Definition vma_register (pml4 start end_ flags : Z) (vs : pool) : bool * pool :=
  let new := mkVmaRec pml4 (mkVma start end_ flags) in
  match reuse new vs with
  | Some vs' => (true, vs')
  | None => if (length vs <? MAX_VMA_RECORDS)%nat then (true, vs ++ [new]) else (false, vs)
  end.

Definition covers_addr (pml4 addr : Z) (r : VmaRec) : bool :=
  (r_pml4 r =? pml4) && (v_start (r_vma r) <=? addr) && (addr <? v_end (r_vma r)).

Fixpoint vma_find (pml4 addr : Z) (vs : pool) : option Vma :=
  match vs with
  | [] => None
  | r :: vs' => if covers_addr pml4 addr r then Some (r_vma r) else vma_find pml4 addr vs'
  end.

Definition overlaps (pml4 start end_ : Z) (r : VmaRec) : bool :=
  (r_pml4 r =? pml4) && (start <? v_end (r_vma r)) && (v_start (r_vma r) <? end_).

Definition vma_first_overlap_end (pml4 start end_ : Z) (vs : pool) : option Z :=
  foldl (λ best r,
    if overlaps pml4 start end_ r then
      match best with
      | None => Some (v_end (r_vma r))
      | Some b => if v_end (r_vma r) <? b then Some (v_end (r_vma r)) else best
      end
    else best) None vs.

Fixpoint vma_clear_addr (pml4 addr : Z) (vs : pool) : pool :=
  match vs with
  | [] => []
  | r :: vs' =>
      if (r_pml4 r =? pml4) && (v_start (r_vma r) =? addr) then rec_none :: vs'
      else r :: vma_clear_addr pml4 addr vs'
  end.

(** One record under [munmap] of [start, end_). *)
Definition clear_rec (pml4 start end_ : Z) (r : VmaRec) : VmaRec :=
  let s := v_start (r_vma r) in
  let e := v_end (r_vma r) in
  let fl := v_flags (r_vma r) in
  if negb (r_pml4 r =? pml4) || (s =? 0) then r
  else if (start <=? s) && (e <=? end_) then rec_none
  else if (start <=? s) && (s <? end_) && (end_ <? e) then mkVmaRec (r_pml4 r) (mkVma end_ e fl)
  else if (e <=? end_) && (s <? start) && (start <? e) then mkVmaRec (r_pml4 r) (mkVma s start fl)
  else if (s <? start) && (end_ <? e) then mkVmaRec (r_pml4 r) (mkVma s start fl)
  else r.

Definition vma_clear_range (pml4 start end_ : Z) (vs : pool) : pool := clear_rec pml4 start end_ <$> vs.

(** [fork]: the range [0..VMA_USED] is fixed before the loop; a record that
    finds no slot is dropped. *)
Definition clone_one (from to : Z) (i : nat) (vs : pool) : pool :=
  match vs !! i with
  | Some r =>
      if r_pml4 r =? from then
        (vma_register to (v_start (r_vma r)) (v_end (r_vma r)) (v_flags (r_vma r)) vs).2
      else vs
  | None => vs
  end.

Definition vma_clone (from to : Z) (vs : pool) : pool :=
  foldl (λ vs i, clone_one from to i vs) vs (seq 0 (length vs)).

Definition vma_clear_pml4 (pml4 : Z) (vs : pool) : pool :=
  if pml4 =? 0 then vs
  else (λ r, if r_pml4 r =? pml4 then rec_none else r) <$> vs.

(** ** [sys_mmap] *)

Definition MMAP_BASE : Z := 0x70000000.
Definition MMAP_LIMIT : Z := 0x7FFFFFFFF000.

(** The search for a hole below [limit].  A turn that finds an overlap moves
    past the end of a record, so there are at most as many turns as records,
    and one more. *)
Fixpoint find_hole_below (limit : Z) (fuel : nat) (pml4 candidate size : Z) (vs : pool) : comp (option Z) :=
  if w64 (candidate + size) <=? limit then
    match fuel with
    | O => Spin
    | S f =>
        match vma_first_overlap_end pml4 candidate (w64 (candidate + size)) vs with
        | Some e => find_hole_below limit f pml4 e size vs
        | None => Done (Some candidate)
        end
    end
  else Done None.

Definition find_hole : nat → Z → Z → Z → pool → comp (option Z) := find_hole_below MMAP_LIMIT.

Definition page_round (n : Z) : Z := Z.ldiff (w64 (n + 0xFFF)) 0xFFF.

Definition prot_flags (prot : Z) : Z :=
  let f := Z.lor PTE_PRESENT PTE_USER in
  let f := if negb (Z.land prot PROT_WRITE =? 0) then Z.lor f PTE_WRITABLE else f in
  if Z.land prot PROT_EXEC =? 0 then Z.lor f PTE_NO_EXECUTE else f.

(** [cur] and [pml4] are the calling task and its address space. *)
Definition sys_mmap (cur : nat) (pml4 addr length_ prot flags fd : Z) (vs : pool) : comp (Z * pool) :=
  if negb (fd =? -1) && (Z.land flags MAP_ANONYMOUS =? 0) then Done (- ENOSYS, vs)
  else if negb (Z.land flags MAP_SHARED =? 0) then Done (- ENOSYS, vs)
  else if (cur =? 0)%nat then Done (- EINVAL, vs)
  else
    let page_addr := if addr =? 0 then 0 else Z.ldiff addr 0xFFF in
    let size := page_round length_ in
    let! final :=
      if page_addr =? 0 then find_hole (S (length vs)) pml4 MMAP_BASE size vs else Done (Some page_addr) in
    match final with
    | None => Done (- ENOMEM, vs)
    | Some a =>
        match vma_register pml4 a (w64 (a + size)) (prot_flags prot) vs with
        | (true, vs) => Done (a, vs)
        | (false, vs) => Done (- ENOMEM, vs)
        end
    end.
