(* ===== verification/VmaClaims.v ===== *)
(** * The theorems about address-space records

    The pool as a set of mapped addresses per address space, and the search
    for a hole. *)

From S2P Require Import Prelude Vma.
From stdpp Require Import base numbers list.
Local Open Scope Z_scope.

Lemma limit_lt : 0 < MMAP_BASE < MMAP_LIMIT ∧ MMAP_LIMIT < 2 ^ 47.
Proof. unfold MMAP_BASE, MMAP_LIMIT. lia. Qed.
#[local] Opaque MAX_VMA_RECORDS MMAP_BASE MMAP_LIMIT.

(** Address [a] is mapped in the address space [p]. *)
Definition mapped (vs : pool) (p a : Z) : Prop := ∃ r, r ∈ vs ∧ covers_addr p a r = true.

Lemma covers_spec p a r :
  covers_addr p a r = true ↔ r_pml4 r = p ∧ v_start (r_vma r) ≤ a < v_end (r_vma r).
Proof. unfold covers_addr. rewrite !andb_true_iff, Z.eqb_eq, Z.leb_le, Z.ltb_lt. naive_solver. Qed.

Lemma overlaps_spec p s e r :
  overlaps p s e r = true ↔ r_pml4 r = p ∧ s < v_end (r_vma r) ∧ v_start (r_vma r) < e.
Proof. unfold overlaps. rewrite !andb_true_iff, Z.eqb_eq, !Z.ltb_lt. naive_solver. Qed.

(** ** Registering, looking up, dropping *)

Lemma reuse_spec new vs :
  match reuse new vs with
  | Some vs' => ∃ l1 r l2, vs = l1 ++ r :: l2 ∧ rec_free r = true ∧ vs' = l1 ++ new :: l2
  | None => ∀ r, r ∈ vs → rec_free r = false
  end.
Proof.
  induction vs as [|r vs IH]; cbn [reuse]; [by intros r ?%elem_of_nil|].
  destruct (rec_free r) eqn:Hr; [by exists [], r, vs|].
  destruct (reuse new vs) as [vs'|]; cbn.
  - destruct IH as (l1 & r' & l2 & -> & ? & ->). by exists (r :: l1), r', l2.
  - intros r' [->|Hr']%elem_of_cons; auto.
Qed.

Lemma free_unmapped p a r : p ≠ 0 → rec_free r = true → covers_addr p a r = false.
Proof.
  intros Hp Hr. unfold rec_free in Hr. bool_to_prop. apply not_true_is_false. rewrite covers_spec. naive_solver.
Qed.

Lemma mapped_nil p a : ¬ mapped [] p a.
Proof. by intros (r & ?%elem_of_nil & _). Qed.

Lemma mapped_app l1 l2 p a : mapped (l1 ++ l2) p a ↔ mapped l1 p a ∨ mapped l2 p a.
Proof. unfold mapped. setoid_rewrite elem_of_app. naive_solver. Qed.

Lemma mapped_cons r l p a : mapped (r :: l) p a ↔ covers_addr p a r = true ∨ mapped l p a.
Proof. unfold mapped. setoid_rewrite elem_of_cons. naive_solver. Qed.

Lemma register_spec pml4 s e f vs :
  let '(ok, vs') := vma_register pml4 s e f vs in
  if ok then ∀ p a, p ≠ 0 → mapped vs' p a ↔ mapped vs p a ∨ (p = pml4 ∧ s ≤ a < e)
  else vs' = vs ∧ (MAX_VMA_RECORDS ≤ length vs)%nat ∧ ∀ r, r ∈ vs → rec_free r = false.
Proof.
  unfold vma_register. set (new := mkVmaRec pml4 (mkVma s e f)). pose proof (reuse_spec new vs) as Hr.
  assert (∀ p a, covers_addr p a new = true ↔ p = pml4 ∧ s ≤ a < e) as Hnew by (intros; rewrite covers_spec; cbn; naive_solver).
  destruct (reuse new vs) as [vs'|].
  - destruct Hr as (l1 & r & l2 & -> & Hfr & ->). intros p a Hp. rewrite !mapped_app, !mapped_cons, Hnew.
    rewrite (free_unmapped p a r Hp Hfr). naive_solver.
  - destruct (Nat.ltb_spec (length vs) MAX_VMA_RECORDS) as [Hlt|Hge]; [|done].
    intros p a Hp. rewrite mapped_app, mapped_cons, Hnew. pose proof (mapped_nil p a). tauto.
Qed.

Lemma find_spec p a vs :
  match vma_find p a vs with
  | Some v => v_start v ≤ a < v_end v ∧ mkVmaRec p v ∈ vs
  | None => ¬ mapped vs p a
  end.
Proof.
  induction vs as [|r vs IH]; cbn [vma_find]; [apply mapped_nil|].
  destruct (covers_addr p a r) eqn:Hc.
  - apply covers_spec in Hc as [<- Hc]. split; [done|]. destruct r. apply list_elem_of_here.
  - destruct (vma_find p a vs); [destruct IH; split; [done|by apply list_elem_of_further]|].
    rewrite mapped_cons. rewrite Hc. naive_solver.
Qed.

Lemma clear_rec_spec pml4 s e r a :
  pml4 ≠ 0 → s < e → 0 < v_start (r_vma r) →
  ¬ (r_pml4 r = pml4 ∧ v_start (r_vma r) < s ∧ e < v_end (r_vma r)) →
  ∀ p, p ≠ 0 → covers_addr p a (clear_rec pml4 s e r) = true ↔ covers_addr p a r = true ∧ ¬ (p = pml4 ∧ s ≤ a < e).
Proof.
  intros Hp Hse H0 Hmid p Hp0. unfold clear_rec. set (vs := v_start (r_vma r)) in *. set (ve := v_end (r_vma r)) in *.
  rewrite (proj2 (Z.eqb_neq vs 0)) by lia. rewrite orb_false_r.
  destruct (Z.eqb_spec (r_pml4 r) pml4) as [He|Hne]; cbn [negb].
  2: { rewrite covers_spec. naive_solver. }
  destruct (Z.leb_spec s vs), (Z.leb_spec ve e), (Z.ltb_spec vs e), (Z.ltb_spec e ve), (Z.ltb_spec vs s), (Z.ltb_spec s ve);
    cbn [andb]; try lia; rewrite !covers_spec; cbn [rec_none r_pml4 r_vma v_start v_end]; fold vs ve; naive_solver lia.
Qed.

(** Unmapping a range takes exactly its addresses away, as long as no record
    reaches past it on both sides. *)
Lemma clear_range_spec pml4 s e vs :
  pml4 ≠ 0 → s < e → (∀ r, r ∈ vs → r_pml4 r ≠ 0 → 0 < v_start (r_vma r)) →
  (∀ r, r ∈ vs → ¬ (r_pml4 r = pml4 ∧ v_start (r_vma r) < s ∧ e < v_end (r_vma r))) →
  ∀ p a, p ≠ 0 → mapped (vma_clear_range pml4 s e vs) p a ↔ mapped vs p a ∧ ¬ (p = pml4 ∧ s ≤ a < e).
Proof.
  intros Hp Hse H0 Hmid p a Hp0. unfold vma_clear_range. induction vs as [|r vs IH].
  { pose proof (mapped_nil p a). cbn [fmap list_fmap]. tauto. }
  cbn [fmap list_fmap]. rewrite !mapped_cons.
  rewrite (IH (λ r' Hr', H0 r' (list_elem_of_further _ _ _ Hr')) (λ r' Hr', Hmid r' (list_elem_of_further _ _ _ Hr'))).
  assert (covers_addr p a (clear_rec pml4 s e r) = true ↔ covers_addr p a r = true ∧ ¬ (p = pml4 ∧ s ≤ a < e)) as ->; [|tauto].
  destruct (decide (r_pml4 r = 0)) as [Hz|Hz].
  - assert (clear_rec pml4 s e r = r) as -> by (unfold clear_rec; by rewrite (proj2 (Z.eqb_neq (r_pml4 r) pml4)) by congruence).
    rewrite covers_spec. naive_solver.
  - apply clear_rec_spec; [done|done|apply H0; [apply list_elem_of_here|done]|apply Hmid, list_elem_of_here|done].
Qed.

(** Without that condition: a record that reaches past the range on both sides
    loses its tail as well. *)
Lemma clear_rec_covers pml4 s e r p a : s < e → p ≠ 0 → (r_pml4 r ≠ 0 → 0 < v_start (r_vma r)) →
  covers_addr p a (clear_rec pml4 s e r) = true ↔
  covers_addr p a r = true ∧ ¬ (p = pml4 ∧ (s ≤ a < e ∨ v_start (r_vma r) < s ∧ e < v_end (r_vma r) ∧ e ≤ a)).
Proof.
  intros Hse Hp0 H0. unfold clear_rec. set (vs := v_start (r_vma r)) in *. set (ve := v_end (r_vma r)) in *.
  destruct (Z.eqb_spec (r_pml4 r) pml4) as [He|Hne]; cbn [negb orb].
  2: { rewrite covers_spec. naive_solver. }
  destruct (decide (r_pml4 r = 0)) as [Hz|Hz].
  { split; [|intros [H%covers_spec _]; naive_solver]. repeat case_match; rewrite covers_spec; cbn; naive_solver. }
  specialize (H0 Hz). rewrite (proj2 (Z.eqb_neq vs 0)) by lia.
  destruct (Z.leb_spec s vs), (Z.leb_spec ve e), (Z.ltb_spec vs e), (Z.ltb_spec e ve), (Z.ltb_spec vs s), (Z.ltb_spec s ve);
    cbn [andb]; try lia; rewrite !covers_spec; cbn [rec_none r_pml4 r_vma v_start v_end]; fold vs ve; naive_solver lia.
Qed.

Lemma clear_range_covers pml4 s e vs p a : s < e → p ≠ 0 → (∀ r, r ∈ vs → r_pml4 r ≠ 0 → 0 < v_start (r_vma r)) →
  mapped (vma_clear_range pml4 s e vs) p a ↔
  ∃ r, r ∈ vs ∧ covers_addr p a r = true ∧ ¬ (p = pml4 ∧ (s ≤ a < e ∨ v_start (r_vma r) < s ∧ e < v_end (r_vma r) ∧ e ≤ a)).
Proof.
  intros Hse Hp H0. unfold mapped, vma_clear_range. split.
  - intros (x & (r & -> & Hr)%list_elem_of_fmap & Hc). exists r. split; [done|]. by apply clear_rec_covers in Hc; [|done|done|apply H0].
  - intros (r & Hr & Hc). exists (clear_rec pml4 s e r). split; [apply list_elem_of_fmap; by exists r|]. by apply clear_rec_covers; [|done|apply H0|].
Qed.

(** The middle of a record: its tail is lost with it. *)
Theorem unmap_middle_drops_tail pml4 s e lo hi f a :
  pml4 ≠ 0 → 0 < lo < s → s < e < hi → e ≤ a < hi →
  mapped [mkVmaRec pml4 (mkVma lo hi f)] pml4 a ∧ ¬ mapped (vma_clear_range pml4 s e [mkVmaRec pml4 (mkVma lo hi f)]) pml4 a.
Proof.
  intros Hp Hlo Hhi Ha. split.
  - exists (mkVmaRec pml4 (mkVma lo hi f)). split; [apply list_elem_of_here|]. apply covers_spec. cbn. lia.
  - cbn [vma_clear_range fmap list_fmap]. rewrite mapped_cons. unfold clear_rec. cbn [r_pml4 r_vma v_start v_end v_flags].
    rewrite Z.eqb_refl, (proj2 (Z.eqb_neq lo 0)) by lia. cbn [negb orb].
    rewrite (proj2 (Z.leb_gt s lo)), (proj2 (Z.leb_gt hi e)), (proj2 (Z.ltb_lt lo s)), (proj2 (Z.ltb_lt e hi)) by lia. cbn [andb].
    rewrite covers_spec. cbn. intros [?|(r & ?%elem_of_nil & _)]; [lia|done].
Qed.

(** ** Holes *)

Lemma overlap_end_spec p s e vs best :
  let step := λ best r, if overlaps p s e r then
      match best with
      | None => Some (v_end (r_vma r))
      | Some b => if v_end (r_vma r) <? b then Some (v_end (r_vma r)) else best
      end else best in
  match foldl step best vs with
  | Some x => (best = Some x ∨ ∃ r, r ∈ vs ∧ overlaps p s e r = true ∧ v_end (r_vma r) = x)
  | None => best = None ∧ ∀ r, r ∈ vs → overlaps p s e r = false
  end.
Proof.
  intros step. revert best. induction vs as [|r vs IH]; intros best; cbn [foldl].
  { destruct best; [by left|]. split; [done|]. by intros r ?%elem_of_nil. }
  specialize (IH (step best r)). destruct (foldl step (step best r) vs) as [x|].
  - destruct IH as [Hx|(r' & Hr' & Ho & He)]; [|right; exists r'; split_and!; [by apply list_elem_of_further|done|done]].
    unfold step in Hx. destruct (overlaps p s e r) eqn:Ho; [|by left].
    destruct best as [b|]; [destruct (v_end (r_vma r) <? b)|]; try (by left);
      injection Hx as <-; right; exists r; split_and!; [apply list_elem_of_here|done|done|apply list_elem_of_here|done|done].
  - destruct IH as [Hb Hall]. unfold step in Hb. destruct (overlaps p s e r) eqn:Ho.
    { destruct best as [b|]; [destruct (v_end (r_vma r) <? b)|]; done. }
    split; [done|]. intros r' [->|Hr']%elem_of_cons; auto.
Qed.

(** The records that end after an address. *)
Definition ahead (c : Z) (vs : list VmaRec) : nat := length (filter (λ r, c < v_end (r_vma r)) vs).

Lemma ahead_lt c e r vs : c < e → r ∈ vs → v_end (r_vma r) = e → (ahead e vs < ahead c vs)%nat.
Proof.
  intros Hce. unfold ahead. induction vs as [|r' vs IH]; intros Hr He; [by apply elem_of_nil in Hr|].
  assert (∀ l : list VmaRec, (length (filter (λ r, (e < v_end (r_vma r))%Z) l) ≤ length (filter (λ r, (c < v_end (r_vma r))%Z) l))%nat) as Hle.
  { induction l as [|x l IHl]; [done|]. rewrite !filter_cons. repeat case_decide; cbn; lia. }
  rewrite !filter_cons. apply elem_of_cons in Hr as [->|Hr].
  - rewrite decide_False, decide_True by lia. cbn. specialize (Hle vs). lia.
  - specialize (IH Hr He). repeat case_decide; cbn; lia.
Qed.

Lemma find_hole_below_spec limit fuel p c size vs :
  0 < limit < 2 ^ 62 → 0 < size ≤ limit → 0 ≤ c < 2 ^ 62 → (∀ r, r ∈ vs → v_end (r_vma r) < 2 ^ 62) → (ahead c vs < fuel)%nat →
  ∃ res, find_hole_below limit fuel p c size vs = Done res ∧
    match res with
    | Some x => c ≤ x ∧ x + size ≤ limit ∧ (∀ r, r ∈ vs → overlaps p x (x + size) r = false) ∧
        (∀ y, c ≤ y < x → ∃ r, r ∈ vs ∧ overlaps p y (y + size) r = true)
    | None => ∀ y, c ≤ y → y + size ≤ limit → ∃ r, r ∈ vs ∧ overlaps p y (y + size) r = true
    end.
Proof.
  intros Hlim Hsz Hc Hends. revert c Hc.
  induction fuel as [|fuel IH]; intros c Hc Hf; [lia|]. cbn [find_hole_below]. rewrite w64_small by lia.
  destruct (Z.leb_spec (c + size) limit) as [Hle|Hgt]; [|exists None; split; [done|intros; lia]].
  pose proof (overlap_end_spec p c (c + size) vs None) as Ho. cbv zeta in Ho. fold (vma_first_overlap_end p c (c + size) vs) in Ho.
  destruct (vma_first_overlap_end p c (c + size) vs) as [e|].
  - destruct Ho as [?|(r & Hr & Hov & He)]; [done|]. pose proof (proj1 (overlaps_spec _ _ _ _) Hov) as (Hp & H1 & H2).
    assert (∀ y, c ≤ y < e → ∃ r, r ∈ vs ∧ overlaps p y (y + size) r = true) as Hskip.
    { intros y Hy. exists r. split; [done|]. apply overlaps_spec. split_and!; [done|lia|lia]. }
    destruct (IH e) as (res & Hrun & Hres); [specialize (Hends r Hr); lia|pose proof (ahead_lt c e r vs ltac:(lia) Hr He); lia|].
    exists res. split; [done|]. destruct res as [x|].
    + destruct Hres as (R1 & R2 & R3 & R4). split_and!; [lia|done|done|]. intros y Hy. destruct (decide (y < e)); [apply Hskip; lia|apply R4; lia].
    + intros y Hy Hy'. destruct (decide (y < e)); [apply Hskip; lia|apply Hres; lia].
  - destruct Ho as [_ Hall]. exists (Some c). split; [done|]. split_and!; [lia|lia|exact Hall|intros; lia].
Qed.

Lemma find_hole_spec fuel p c size vs :
  0 < size ≤ MMAP_LIMIT → 0 ≤ c < 2 ^ 62 → (∀ r, r ∈ vs → v_end (r_vma r) < 2 ^ 62) → (ahead c vs < fuel)%nat →
  ∃ res, find_hole fuel p c size vs = Done res ∧
    match res with
    | Some x => c ≤ x ∧ x + size ≤ MMAP_LIMIT ∧ (∀ r, r ∈ vs → overlaps p x (x + size) r = false) ∧
        (∀ y, c ≤ y < x → ∃ r, r ∈ vs ∧ overlaps p y (y + size) r = true)
    | None => ∀ y, c ≤ y → y + size ≤ MMAP_LIMIT → ∃ r, r ∈ vs ∧ overlaps p y (y + size) r = true
    end.
Proof. apply find_hole_below_spec. pose proof limit_lt. lia. Qed.

(** Anonymous [mmap] without an address hint always returns.  On success
    it is the lowest range above the base that no record of the address space
    touches, and afterwards exactly its addresses are mapped in addition, in
    this address space only; it fails with ENOMEM, changing nothing, only when
    no such range lies below the limit or the pool of records is full. *)
Theorem mmap_lowest_hole cur pml4 len prot flags vs :
  (0 < cur)%nat → pml4 ≠ 0 → Z.land flags MAP_SHARED = 0 → 0 < page_round len ≤ MMAP_LIMIT →
  (∀ r, r ∈ vs → v_end (r_vma r) < 2 ^ 62) →
  ∃ r vs', sys_mmap cur pml4 0 len prot flags (-1) vs = Done (r, vs') ∧
    ((MMAP_BASE ≤ r ∧ r + page_round len ≤ MMAP_LIMIT ∧
      (∀ x, x ∈ vs → overlaps pml4 r (r + page_round len) x = false) ∧
      (∀ y, MMAP_BASE ≤ y < r → ∃ x, x ∈ vs ∧ overlaps pml4 y (y + page_round len) x = true) ∧
      (∀ p a, p ≠ 0 → mapped vs' p a ↔ mapped vs p a ∨ (p = pml4 ∧ r ≤ a < r + page_round len)))
     ∨ (r = - ENOMEM ∧ vs' = vs ∧
        ((∀ y, MMAP_BASE ≤ y → y + page_round len ≤ MMAP_LIMIT → ∃ x, x ∈ vs ∧ overlaps pml4 y (y + page_round len) x = true)
         ∨ (MAX_VMA_RECORDS ≤ length vs)%nat))).
Proof.
  intros Hcur Hp Hsh Hsz Hends. pose proof limit_lt as [Hb Hlim]. unfold sys_mmap. cbn [Z.eqb Pos.eqb negb andb].
  rewrite Hsh. cbn [Z.eqb negb]. rewrite (proj2 (Nat.eqb_neq cur 0)) by lia. cbv zeta. set (size := page_round len) in *.
  destruct (find_hole_spec (S (length vs)) pml4 MMAP_BASE size vs Hsz) as (res & -> & Hres); [lia|done| |].
  { unfold ahead. pose proof (length_filter (λ r, MMAP_BASE < v_end (r_vma r)) vs). lia. }
  cbn [cbind]. destruct res as [x|].
  - destruct Hres as (R1 & R2 & R3 & R4). rewrite w64_small by lia.
    pose proof (register_spec pml4 x (x + size) (prot_flags prot) vs) as Hreg.
    destruct (vma_register pml4 x (x + size) (prot_flags prot) vs) as [[] vs'].
    + exists x, vs'. split; [done|]. left. split_and!; done.
    + destruct Hreg as (-> & Hfull & _). eexists _, vs. split; [done|]. right. split_and!; [done|done|by right].
  - eexists _, vs. split; [done|]. right. split_and!; [done|done|by left].
Qed.

Lemma mmap_lowest_hole_witness :
  ∃ r vs', sys_mmap 1 0x1000 0 8192 3 34 (-1) [mkVmaRec 0x1000 (mkVma MMAP_BASE (MMAP_BASE + 4096) 7)] = Done (r, vs') ∧
    (r = MMAP_BASE + 4096 ∨ r = - ENOMEM).
Proof.
  destruct (mmap_lowest_hole 1 0x1000 8192 3 34 [mkVmaRec 0x1000 (mkVma MMAP_BASE (MMAP_BASE + 4096) 7)]) as (r & vs' & H1 & H2).
  - lia.
  - discriminate.
  - reflexivity.
  - vm_compute. split; [reflexivity|discriminate].
  - intros x Hx. apply list_elem_of_singleton in Hx as ->. vm_compute. reflexivity.
  - exists r, vs'. split; [exact H1|]. vm_compute in H1. injection H1 as <- _. left. reflexivity.
Defined.
