(* ===== verification/Paging.v ===== *)
(** * Page tables: [src/paging.rs] and the demand pager of [src/task.rs]

    Physical memory as the page tables see it is a map from page addresses to
    frames of 512 words ([PageTable([u64; 512])]); a frame never written reads
    as zeros.  The tables are pages of the buddy allocator, whose state is a
    field, as are the copy-on-write counts of data pages ([PAGE_REFC]) and the
    address of the kernel's top table ([KERNEL_PML4], equal to
    [PT_MGR.kernel_pml4] after start-up).  Each routine that takes
    [PAGING_LOCK] holds it for its whole body and is one function.  TLB
    flushes and log messages are not part of the state. *)

From S2P Require Import Prelude Buddy VfsTypes Vma.
From stdpp Require Import base gmap numbers strings list.
Local Open Scope string_scope.
Local Open Scope Z_scope.

Definition PAGE_SIZE_4K : Z := 4096.
Definition PAGE_SIZE_2M : Z := 2 * 1024 * 1024.
Definition PAGE_SIZE_1G : Z := 1024 * 1024 * 1024.
Definition PTE_ACCESSED : Z := 32.
Definition PTE_DIRTY : Z := 64.
Definition PTE_HUGE : Z := 128.
Definition PTE_ADDR_MASK : Z := 0x000FFFFFFFFFF000.
Definition MAX_REFC_PAGES : Z := 2 ^ 21.

Notation frame := (gmap Z Z).

Record pmem := mkPmem {
  km : kmem;
  frames : gmap Z frame;
  page_refc : gmap Z Z;
  kernel_pml4 : Z;
}.

Definition set_km (k : kmem) (s : pmem) : pmem := mkPmem k (frames s) (page_refc s) (kernel_pml4 s).
Definition set_frames (f : gmap Z frame) (s : pmem) : pmem := mkPmem (km s) f (page_refc s) (kernel_pml4 s).
Definition set_refc (r : gmap Z Z) (s : pmem) : pmem := mkPmem (km s) (frames s) r (kernel_pml4 s).

Definition page_of (s : pmem) (t : Z) : frame := getd ∅ (frames s) t.
Definition set_page (t : Z) (f : frame) (s : pmem) : pmem := set_frames (<[t := f]> (frames s)) s.
(** Word [i] of the table at [t]. *)
Definition entry (s : pmem) (t i : Z) : Z := getd 0 (page_of s t) i.
Definition set_entry (t i v : Z) (s : pmem) : pmem := set_page t (<[i := v]> (page_of s t)) s.
(** [write_bytes(t, 0, 4096)] and [copy_nonoverlapping(src, dst, 4096)] *)
Definition zero_frame (t : Z) (s : pmem) : pmem := set_page t ∅ s.
Definition copy_frame (src dst : Z) (s : pmem) : pmem := set_page dst (page_of s src) s.

(** ** Entries and indices *)

Definition present (e : Z) : bool := negb (Z.land e PTE_PRESENT =? 0).
Definition huge (e : Z) : bool := negb (Z.land e PTE_HUGE =? 0).
Definition user (e : Z) : bool := negb (Z.land e PTE_USER =? 0).
Definition writable (e : Z) : bool := negb (Z.land e PTE_WRITABLE =? 0).
Definition addr_of (e : Z) : Z := Z.land e PTE_ADDR_MASK.
(** [e & !PTE_ADDR_MASK] *)
Definition flags_of (e : Z) : Z := Z.ldiff e PTE_ADDR_MASK.
Definition clear_w (e : Z) : Z := Z.ldiff e PTE_WRITABLE.

Definition vpn (sh virt : Z) : Z := Z.land (Z.shiftr virt sh) 0x1FF.

Definition TABLE_FLAGS : Z := Z.lor PTE_PRESENT (Z.lor PTE_WRITABLE PTE_USER).

(** ** Copy-on-write counts of data pages *)

Definition refc_idx (phys : Z) : Z := Z.shiftr phys 12.

Definition refc_get (s : pmem) (phys : Z) : Z :=
  let i := refc_idx phys in if i <? MAX_REFC_PAGES then getd 0 (page_refc s) i else 0.

Definition refc_inc (phys : Z) (s : pmem) : pmem :=
  let i := refc_idx phys in
  if i <? MAX_REFC_PAGES then set_refc (<[i := Z.min (getd 0 (page_refc s) i + 1) 255]> (page_refc s)) s else s.

Definition refc_dec (phys : Z) (s : pmem) : pmem :=
  let i := refc_idx phys in
  if i <? MAX_REFC_PAGES then
    let v := getd 0 (page_refc s) i in
    if 0 <? v then set_refc (<[i := v - 1]> (page_refc s)) s else s
  else s.

Definition refc_of (s : pmem) (phys : Z) : Z := refc_get s phys.

Definition fork_share_refc (phys : Z) (s : pmem) : pmem :=
  let s := set_km (mark_page_used phys (km s)) s in
  if refc_get s phys =? 0 then refc_inc phys (refc_inc phys s) else refc_inc phys s.

Definition fork_share_pte_refc (phys : Z) (s : pmem) : pmem :=
  let k := mark_page_used phys (km s) in
  if pte_refc_get k phys =? 0 then set_km (pte_refc_inc phys (pte_refc_inc phys k)) s
  else set_km (pte_refc_inc phys k) s.

(** ** Looking up a mapping *)

Definition walk_pt (s : pmem) (pml4 virt : Z) : option (Z * Z * Z) :=
  let pml4e := entry s pml4 (vpn 39 virt) in
  if negb (present pml4e) then None
  else
    let pdpte := entry s (addr_of pml4e) (vpn 30 virt) in
    if negb (present pdpte) then None
    else
      let pd := addr_of pdpte in
      let pde := entry s pd (vpn 21 virt) in
      if negb (present pde) then None else Some (pd, pde, addr_of pde).

(** [resolve_phys_flags]: the physical address and the leaf entry. *)
Definition resolve_phys_flags (s : pmem) (pml4 virt : Z) : option (Z * Z) :=
  match walk_pt s pml4 virt with
  | None => None
  | Some (_, pde, pt) =>
      if huge pde then Some (Z.lor (addr_of pde) (Z.land virt (PAGE_SIZE_2M - 1)), pde)
      else
        let pte := entry s pt (vpn 12 virt) in
        if negb (present pte) then None
        else Some (Z.lor (addr_of pte) (Z.land virt (PAGE_SIZE_4K - 1)), pte)
  end.

Definition resolve_phys (s : pmem) (pml4 virt : Z) : option Z := fst <$> resolve_phys_flags s pml4 virt.

Definition translate (s : pmem) (virt : Z) : option Z := resolve_phys s (kernel_pml4 s) virt.

(** [get_pte_in]: where the leaf entry is. *)
Definition get_pte_in (s : pmem) (pml4 virt : Z) : option (Z * Z) :=
  match walk_pt s pml4 virt with
  | None => None
  | Some (_, pde, pt) =>
      if huge pde then None
      else if negb (present (entry s pt (vpn 12 virt))) then None
      else Some (pt, vpn 12 virt)
  end.

Definition get_pte (s : pmem) (virt : Z) : option (Z * Z) := get_pte_in s (kernel_pml4 s) virt.

Definition is_user_addr (addr : Z) : bool := addr <? 0x0000800000000000.

Definition default_flags (u : bool) : Z :=
  let f := Z.lor PTE_WRITABLE (Z.lor PTE_ACCESSED PTE_DIRTY) in
  if u then Z.lor f PTE_USER else f.

(** ** Adding and removing mappings *)

(** [alloc_zeroed_page()] *)
Definition alloc_page (s : pmem) : option Z * pmem :=
  match alloc_zeroed_page (km s) with
  | (Some p, k) => (Some p, zero_frame p (set_km k s))
  | (None, k) => (None, set_km k s)
  end.

(** [for i in 0..512 { arr[i] = f(i) }] on a fresh page. *)
Definition fill (f : Z → Z) : frame := list_to_map ((λ i, (i, f i)) <$> seqZ 0 512).

(** The entries that replace a 1 GiB or a 2 MiB page by 512 smaller ones. *)
Definition split_1g (pdpte : Z) : frame :=
  let gb_base := Z.land pdpte (w64 (Z.shiftl 0xFFFFFFFFFF 30)) in
  let gb_flags := Z.ldiff (Z.lor (flags_of pdpte) PTE_HUGE) PTE_USER in
  fill (λ i, Z.lor (w64 (gb_base + i * 0x200000)) gb_flags).

Definition split_2m (pde : Z) : frame :=
  let huge_base := Z.land pde (w64 (Z.shiftl 0xFFFFFFFFFF 21)) in
  let huge_flags := Z.ldiff (Z.land pde 0x7F) PTE_USER in
  fill (λ i, Z.lor (w64 (huge_base + i * 4096)) huge_flags).

(** The next table below entry [i] of [t], made when there is none: with the
    frame [fresh] and the table flags [fl]. *)
Definition new_table (t i : Z) (fresh : frame) (fl : Z) (s : pmem) : option Z * pmem :=
  match alloc_page s with
  | (None, s) => (None, s)
  | (Some n, s) => (Some n, set_entry t i (Z.lor n fl) (set_page n fresh s))
  end.

Definition into_pdpt (pml4 virt : Z) (s : pmem) : option Z * pmem :=
  let pml4e := entry s pml4 (vpn 39 virt) in
  if present pml4e then (Some (addr_of pml4e), s) else new_table pml4 (vpn 39 virt) ∅ TABLE_FLAGS s.

Definition into_pd (pdpt virt : Z) (s : pmem) : option Z * pmem :=
  let pdpte := entry s pdpt (vpn 30 virt) in
  if present pdpte && negb (huge pdpte) then (Some (addr_of pdpte), s)
  else new_table pdpt (vpn 30 virt) (if huge pdpte then split_1g pdpte else ∅) TABLE_FLAGS s.

Definition into_pt (pd virt : Z) (s : pmem) : option Z * pmem :=
  let pde := entry s pd (vpn 21 virt) in
  if present pde && negb (huge pde) then
    (Some (addr_of pde), set_entry pd (vpn 21 virt) (Z.lor pde PTE_USER) s)
  else new_table pd (vpn 21 virt) (if huge pde then split_2m pde else ∅) TABLE_FLAGS s.

Definition map_into (pml4 virt phys flags : Z) (s : pmem) : res unit * pmem :=
  match into_pdpt pml4 virt s with
  | (None, s) => (Err "OOM", s)
  | (Some pdpt, s) =>
      match into_pd pdpt virt s with
      | (None, s) => (Err "OOM", s)
      | (Some pd, s) =>
          match into_pt pd virt s with
          | (None, s) => (Err "OOM", s)
          | (Some pt, s) => (Ok tt, set_entry pt (vpn 12 virt) (Z.lor phys (Z.lor flags PTE_PRESENT)) s)
          end
      end
  end.

Definition unmap_into (pml4 virt : Z) (s : pmem) : res Z * pmem :=
  let pml4e := entry s pml4 (vpn 39 virt) in
  if negb (present pml4e) then (Err "no pml4e", s)
  else
    let pdpte := entry s (addr_of pml4e) (vpn 30 virt) in
    if negb (present pdpte) then (Err "no pdpte", s)
    else if huge pdpte then (Err "huge pdpte", s)
    else
      let pde := entry s (addr_of pdpte) (vpn 21 virt) in
      if negb (present pde) then (Err "no pde", s)
      else if huge pde then (Err "huge pde", s)
      else
        let pt := addr_of pde in
        let pte := entry s pt (vpn 12 virt) in
        if negb (present pte) then (Err "no pte", s)
        else (Ok (addr_of pte), set_entry pt (vpn 12 virt) 0 s).

(** A table below a present entry whatever its size bit, else a new one with
    the flags [fl]: the walk of the kernel's own mappings. *)
Definition kernel_table (t i fl : Z) (s : pmem) : option Z * pmem :=
  let e := entry s t i in
  if present e then (Some (addr_of e), s) else new_table t i ∅ fl s.

Definition KERNEL_TABLE_FLAGS : Z := Z.lor PTE_PRESENT PTE_WRITABLE.

Definition map_kernel_page (virt phys flags : Z) (s : pmem) : res unit * pmem :=
  let pml4 := kernel_pml4 s in
  if pml4 =? 0 then (Err "kernel PML4 not set", s)
  else
    match kernel_table pml4 (vpn 39 virt) KERNEL_TABLE_FLAGS s with
    | (None, s) => (Err "OOM: PDPT", s)
    | (Some pdpt, s) =>
        match kernel_table pdpt (vpn 30 virt) KERNEL_TABLE_FLAGS s with
        | (None, s) => (Err "OOM: PD", s)
        | (Some pd, s) =>
            match kernel_table pd (vpn 21 virt) KERNEL_TABLE_FLAGS s with
            | (None, s) => (Err "OOM: PT", s)
            | (Some pt, s) =>
                if present (entry s pt (vpn 12 virt)) then (Err "already mapped", s)
                else (Ok tt, set_entry pt (vpn 12 virt) (Z.lor phys (Z.lor flags PTE_PRESENT)) s)
            end
        end
    end.

Definition walk_create (virt : Z) (s : pmem) : option Z * pmem :=
  match kernel_table (kernel_pml4 s) (vpn 39 virt) TABLE_FLAGS s with
  | (None, s) => (None, s)
  | (Some pdpt, s) => kernel_table pdpt (vpn 30 virt) TABLE_FLAGS s
  end.

Definition map_page (virt phys flags : Z) (s : pmem) : res unit * pmem :=
  match walk_create virt s with
  | (None, s) => (Err "OOM: no PD", s)
  | (Some pd, s) =>
      match kernel_table pd (vpn 21 virt) TABLE_FLAGS s with
      | (None, s) => (Err "OOM: no PT", s)
      | (Some pt, s) =>
          if present (entry s pt (vpn 12 virt)) then (Err "page already mapped", s)
          else (Ok tt, set_entry pt (vpn 12 virt) (Z.lor phys (Z.lor flags PTE_PRESENT)) s)
      end
  end.

Definition map_2m (virt phys flags : Z) (s : pmem) : res unit * pmem :=
  match walk_create virt s with
  | (None, s) => (Err "OOM: no PD", s)
  | (Some pd, s) =>
      if present (entry s pd (vpn 21 virt)) then (Err "2M page already mapped", s)
      else (Ok tt, set_entry pd (vpn 21 virt) (Z.lor phys (Z.lor flags (Z.lor PTE_PRESENT PTE_HUGE))) s)
  end.

Definition unmap_page (virt : Z) (s : pmem) : res unit * pmem :=
  match walk_pt s (kernel_pml4 s) virt with
  | None => (Err "not mapped", s)
  | Some (_, pde, pt) =>
      if huge pde then (Err "2M page - use unmap_2m", s)
      else if negb (present (entry s pt (vpn 12 virt))) then (Err "not mapped", s)
      else (Ok tt, set_entry pt (vpn 12 virt) 0 s)
  end.

Definition unmap_2m (virt : Z) (s : pmem) : res unit * pmem :=
  let pml4e := entry s (kernel_pml4 s) (vpn 39 virt) in
  if negb (present pml4e) then (Err "not mapped", s)
  else
    let pdpte := entry s (addr_of pml4e) (vpn 30 virt) in
    if negb (present pdpte) then (Err "not mapped", s)
    else
      let pd := addr_of pdpte in
      let pde := entry s pd (vpn 21 virt) in
      if negb (present pde) || negb (huge pde) then (Err "not a 2M page", s)
      else (Ok tt, set_entry pd (vpn 21 virt) 0 s).

Definition clone_kernel (s : pmem) : option Z * pmem :=
  match alloc_page s with
  | (None, s) => (None, s)
  | (Some n, s) => (Some n, copy_frame (kernel_pml4 s) n s)
  end.

(** ** Loops over the entries of a table *)

(** [for i in lo..lo+n { body }] *)
Fixpoint for_range {St} (n : nat) (i : Z) (body : Z → St → St) (s : St) : St :=
  match n with
  | O => s
  | S n' => for_range n' (i + 1) body (body i s)
  end.

Fixpoint for_range_c {St} (n : nat) (i : Z) (body : Z → St → comp St) (s : St) : comp St :=
  match n with
  | O => Done s
  | S n' => let! s := body i s in for_range_c n' (i + 1) body s
  end.

(** ** Write protection of the kernel's own tables *)

(** Make the supervisor mapping of [cr2] writable; [pml4] is the table of the
    current task. *)
Definition kernel_ro_write_resolve (pml4 cr2 : Z) (s : pmem) : bool * pmem :=
  let set_w t i := (true, set_entry t i (Z.lor (entry s t i) PTE_WRITABLE) s) in
  if pml4 =? 0 then (false, s)
  else
    let pml4e := entry s pml4 (vpn 39 cr2) in
    if negb (present pml4e) then (false, s)
    else
      let pdpt := addr_of pml4e in
      let pdpte := entry s pdpt (vpn 30 cr2) in
      if negb (present pdpte) then (false, s)
      else if huge pdpte then if user pdpte then (false, s) else set_w pdpt (vpn 30 cr2)
      else
        let pd := addr_of pdpte in
        let pde := entry s pd (vpn 21 cr2) in
        if negb (present pde) then (false, s)
        else if huge pde then if user pde then (false, s) else set_w pd (vpn 21 cr2)
        else
          let pt := addr_of pde in
          let pte := entry s pt (vpn 12 cr2) in
          if negb (present pte) then (false, s)
          else if user pte then (false, s) else set_w pt (vpn 12 cr2).

(** [va] is the address of the page-type byte, [cr3] the active table. *)
Definition type_page_rw (cr3 va : Z) (w : bool) (s : pmem) : bool * pmem :=
  if cr3 =? 0 then (false, s)
  else
    let pml4e := entry s cr3 (vpn 39 va) in
    if negb (present pml4e) then (false, s)
    else
      let pdpte := entry s (addr_of pml4e) (vpn 30 va) in
      if negb (present pdpte) then (false, s)
      else if huge pdpte then (false, s)
      else
        let pde := entry s (addr_of pdpte) (vpn 21 va) in
        if negb (present pde) then (false, s)
        else if huge pde then (false, s)
        else
          let pt := addr_of pde in
          let pte := entry s pt (vpn 12 va) in
          if negb (present pte) then (false, s)
          else (true, set_entry pt (vpn 12 va) (if w then Z.lor pte PTE_WRITABLE else clear_w pte) s).

(** The inner [while off < sub_hi - va2m] of [arm_type_protect_for]. *)
Fixpoint protect_loop (fuel : nat) (pt off lim : Z) (s : pmem) : pmem :=
  match fuel with
  | O => s
  | S f =>
      if off <? lim then
        let i := Z.shiftr off 12 in
        let e := entry s pt i in
        let s := if present e && negb (user e) then set_entry pt i (clear_w e) s else s in
        protect_loop f pt (off + 0x1000) lim s
      else s
  end.

Fixpoint arm_loop (fuel : nat) (pml4 band_lo band_hi va2m end_ : Z) (s : pmem) : comp (res unit * pmem) :=
  if va2m <? end_ then
    match fuel with
    | O => Spin
    | S f =>
        let pml4e := entry s pml4 (vpn 39 va2m) in
        if negb (present pml4e) then Done (Err "no pml4e covering PAGE_TYPE", s)
        else
          let pdpte := entry s (addr_of pml4e) (vpn 30 va2m) in
          if negb (present pdpte) || huge pdpte then Done (Err "no pdpte covering PAGE_TYPE", s)
          else
            let pd := addr_of pdpte in
            let pde := entry s pd (vpn 21 va2m) in
            if negb (present pde) then Done (Err "no pde covering PAGE_TYPE", s)
            else
              match
                if huge pde then new_table pd (vpn 21 va2m) (split_2m pde) KERNEL_TABLE_FLAGS s
                else (Some (addr_of pde), s)
              with
              | (None, s) => Done (Err "OOM", s)
              | (Some pt, s) =>
                  let sub_lo := Z.max band_lo va2m in
                  let sub_hi := Z.min band_hi (va2m + 0x200000) in
                  let s := protect_loop 513 pt (sub_lo - va2m) (sub_hi - va2m) s in
                  arm_loop f pml4 band_lo band_hi (va2m + 0x200000) end_ s
              end
    end
  else Done (Ok tt, s).

(** [band_lo, band_hi): where the page-type table lies.  A turn covers 2 MiB. *)
Definition arm_type_protect_for (pml4 band_lo band_hi : Z) (s : pmem) : comp (res unit * pmem) :=
  let va2m := Z.ldiff band_lo 0x1FFFFF in
  let end_ := Z.ldiff (band_hi + 0x1FFFFF) 0x1FFFFF in
  if pml4 =? 0 then Done (Err "no pml4", s)
  else arm_loop (S (Z.to_nat (Z.shiftr (end_ - va2m) 21))) pml4 band_lo band_hi va2m end_ s.

(** ** Merging address spaces *)

(** One entry of the destination table: taken over when absent, else [deep]. *)
Definition merge_entry (src dst i : Z) (deep : Z → Z → pmem → pmem) (s : pmem) : pmem :=
  let se := entry s src i in
  if negb (present se) then s
  else
    let de := entry s dst i in
    if negb (present de) then set_entry dst i se s else deep se de s.

Definition merge_pt (se de : Z) (s : pmem) : pmem :=
  if huge se || huge de then s
  else for_range 512 0 (λ i, merge_entry (addr_of se) (addr_of de) i (λ _ _ s, s)) s.
Definition merge_pd (se de : Z) (s : pmem) : pmem :=
  for_range 512 0 (λ i, merge_entry (addr_of se) (addr_of de) i merge_pt) s.
Definition merge_pdpt (se de : Z) (s : pmem) : pmem :=
  for_range 512 0 (λ i, merge_entry (addr_of se) (addr_of de) i merge_pd) s.
Definition merge_user_pml4 (src dst : Z) (s : pmem) : res unit * pmem :=
  (Ok tt, for_range 256 0 (λ i, merge_entry src dst i merge_pdpt) s).

(** ** Fork *)

(** A live page-table page of the managed range. *)
Definition managed_end (s : pmem) : Z := w64 (base (al (km s)) + w64 (pages (al (km s)) * Buddy.PAGE_SIZE)).
Definition in_managed (s : pmem) (p : Z) : bool := (base (al (km s)) <=? p) && (p <? managed_end s).
Definition live_table (s : pmem) (p : Z) : bool :=
  in_managed s p && page_is_used (km s) p && (page_type_get (km s) p =? PAGE_TYPE_PTE).

Definition fork_leaf (pt i : Z) (s : pmem) : pmem :=
  let pte := entry s pt i in
  if negb (present pte) then s
  else if negb (user pte) then s
  else
    let s := fork_share_refc (addr_of pte) s in
    if negb (writable pte) then s else set_entry pt i (clear_w pte) s.

(** A user huge page: shared and write-protected. *)
Definition fork_huge (t i e : Z) (s : pmem) : pmem :=
  if user e then set_entry t i (clear_w e) (fork_share_refc (addr_of e) s) else s.

Definition fork_pde (pd i : Z) (s : pmem) : pmem :=
  let pde := entry s pd i in
  if negb (present pde) then s
  else if huge pde then fork_huge pd i pde s
  else for_range 512 0 (fork_leaf (addr_of pde)) (fork_share_pte_refc (addr_of pde) s).

Definition fork_pdpte (pdpt i : Z) (s : pmem) : pmem :=
  let pdpte := entry s pdpt i in
  if negb (present pdpte) then s
  else if huge pdpte then fork_huge pdpt i pdpte s
  else for_range 512 0 (fork_pde (addr_of pdpte)) (fork_share_pte_refc (addr_of pdpte) s).

Definition fork_pml4e (old new i : Z) (s : pmem) : pmem :=
  let pml4e := entry s old i in
  if negb (present pml4e) then s
  else if negb (live_table s (addr_of pml4e)) then set_entry new i 0 s
  else
    let s := set_entry new i pml4e s in
    for_range 512 0 (fork_pdpte (addr_of pml4e)) (fork_share_pte_refc (addr_of pml4e) s).

Definition cow_fork_pml4 (old : Z) (s : pmem) : option Z * pmem :=
  match alloc_page s with
  | (None, s) => (None, s)
  | (Some new, s) =>
      let s := zero_frame new s in
      let s := set_km (mark_page_used new (km s)) s in
      let copy i s := set_entry new i (entry s (kernel_pml4 s) i) s in
      let s := for_range 2 0 copy s in
      let s := for_range 256 256 copy s in
      (Some new, for_range 256 0 (fork_pml4e old new) s)
  end.

(** ** Write faults *)

(** The table below entry [i] of [t], copied first when it is shared. *)
Definition private_table (t i e : Z) (s : pmem) : option Z * pmem :=
  let c := addr_of e in
  if 1 <? pte_refc_get (km s) c then
    match alloc_page s with
    | (None, s) => (None, s)
    | (Some n, s) =>
        let s := copy_frame c n s in
        let s := set_km (pte_refc_dec c (km s)).2 s in
        (Some n, set_entry t i (Z.lor n (flags_of e)) s)
    end
  else (Some c, s).

Definition cow_walk_pte (pml4 virt : Z) (s : pmem) : option (Z * Z) * pmem :=
  let pml4e := entry s pml4 (vpn 39 virt) in
  if negb (present pml4e) then (None, s)
  else
    match private_table pml4 (vpn 39 virt) pml4e s with
    | (None, s) => (None, s)
    | (Some pdpt, s) =>
        let pdpte := entry s pdpt (vpn 30 virt) in
        if negb (present pdpte) then (None, s)
        else if huge pdpte then (None, s)
        else
          match private_table pdpt (vpn 30 virt) pdpte s with
          | (None, s) => (None, s)
          | (Some pd, s) =>
              let pde := entry s pd (vpn 21 virt) in
              if negb (present pde) then (None, s)
              else if huge pde then (None, s)
              else
                match private_table pd (vpn 21 virt) pde s with
                | (None, s) => (None, s)
                | (Some pt, s) => (Some (pt, vpn 12 virt), s)
                end
          end
    end.

(** The page of the allocator of the C library, which is never handed out
    again once mapped. *)
Definition META_PAGE : Z := 0x500000.

Definition cow_remap_in (pml4 virt : Z) (s : pmem) : comp (bool * pmem) :=
  match cow_walk_pte pml4 virt s with
  | (None, s) => Done (false, s)
  | (Some (pt, i), s) =>
      let pte := entry s pt i in
      if negb (present pte) then Done (false, s)
      else if writable pte then Done (false, s)
      else
        let old := addr_of pte in
        let map_rw p s := set_entry pt i (Z.lor p (Z.lor (flags_of pte) PTE_WRITABLE)) s in
        if refc_get s old =? 0 then Done (true, map_rw old s)
        else if virt =? META_PAGE then
          let s := refc_dec old s in
          let! k := reserve old (km s) in
          match alloc_page (set_km k s) with
          | (None, s) => Done (false, s)
          | (Some new, s) =>
              let s := copy_frame old new s in
              let! k := reserve new (km s) in
              Done (true, map_rw new (set_km k s))
          end
        else
          match alloc_page (refc_dec old s) with
          | (None, s) => Done (false, s)
          | (Some new, s) => Done (true, map_rw new (copy_frame old new s))
          end
  end.

Definition cow_remap (virt : Z) (s : pmem) : comp (bool * pmem) := cow_remap_in (kernel_pml4 s) virt s.

(** ** Demand paging *)

(** [id] and [pml4] are the faulting task and its address space; [vs] the pool
    of mapped ranges. *)
Definition handle_demand_page (id : nat) (pml4 cr2 : Z) (vs : pool) (s : pmem) : bool * pmem :=
  if (id =? 0)%nat then (false, s)
  else
    match vma_find pml4 cr2 vs with
    | None => (false, s)
    | Some v =>
        match alloc 0 (km s) with
        | (None, k) => (false, set_km k s)
        | (Some phys, k) =>
            let s := zero_frame phys (set_km k s) in
            match map_into pml4 (Z.ldiff cr2 0xFFF) phys (v_flags v) s with
            | (Ok _, s) => (true, s)
            | (Err _, s) => (false, s)
            end
        end
    end.

Definition page_fault_resolve (id : nat) (pml4 cr2 code cpl : Z) (vs : pool) (s : pmem) : comp (bool * pmem) :=
  let is_write := negb (Z.land code 2 =? 0) in
  let is_present := negb (Z.land code 1 =? 0) in
  if pml4 =? 0 then Done (false, s)
  else
    let! (done_, s) := if is_write && is_present then cow_remap_in pml4 cr2 s else Done (false, s) in
    if done_ then Done (true, s)
    else if (cpl =? 3) && negb is_present then Done (handle_demand_page id pml4 cr2 vs s)
    else Done (false, s).

(** ** Tearing an address space down *)

(** Tables already released in this walk, oldest first; at most 2048 are
    remembered. *)
Definition VISITED_MAX : nat := 2048.

Definition fas : Type := list Z * pmem.

Definition free_frame (phys : Z) (s : pmem) : comp pmem :=
  let! k := free 0 phys 0 (km s) in Done (set_km k s).

(** Give up one reference to a user page. *)
Definition drop_leaf (phys : Z) (s : pmem) : comp pmem :=
  if 0 <? refc_get s phys then Done (refc_dec phys s)
  else if in_managed s phys then free_frame phys s else Done s.

Definition fas_leaf (free_ro : bool) (pt i : Z) (us : bool * pmem) : comp (bool * pmem) :=
  let '(pt_user, s) := us in
  let pte := entry s pt i in
  if negb (present pte) then Done us
  else if negb (user pte) then Done us
  else
    let phys := addr_of pte in
    if negb (in_managed s phys) then Done us
    else
      let! s := if writable pte || free_ro then drop_leaf phys s
                else if 0 <? refc_get s phys then Done (refc_dec phys s)
                else if in_managed s phys then free_frame phys s else Done s in
      Done (true, s).

(** Release a table: once per walk, freed when its count reaches zero. *)
Definition release_table (t : Z) (f : fas) : comp fas :=
  let '(visited, s) := f in
  if bool_decide (t ∈ visited) then Done f
  else
    let visited := if (length visited <? VISITED_MAX)%nat then (visited ++ [t])%list else visited in
    let '(z, k) := pte_refc_dec t (km s) in
    let s := set_km k s in
    if z && in_managed s t then let! s := free_frame t s in Done (visited, s) else Done (visited, s).

Definition fas_pde (free_ro : bool) (pd i : Z) (uf : bool * fas) : comp (bool * fas) :=
  let '(pd_user, (visited, s)) := uf in
  let pde := entry s pd i in
  if negb (present pde) then Done uf
  else if huge pde then Done uf
  else
    let pt := addr_of pde in
    if negb (live_table s pt) then Done uf
    else
      let s := set_km (mark_page_used pt (km s)) s in
      let! (pt_user, s) := for_range_c 512 0 (fas_leaf free_ro pt) (false, s) in
      if pt_user then let! f := release_table pt (visited, s) in Done (true, f)
      else Done (pd_user, (visited, s)).

Definition fas_pdpte (free_ro : bool) (pdpt i : Z) (uf : bool * fas) : comp (bool * fas) :=
  let '(pdpt_user, (visited, s)) := uf in
  let pdpte := entry s pdpt i in
  if negb (present pdpte) then Done uf
  else if huge pdpte then Done uf
  else
    let pd := addr_of pdpte in
    if negb (live_table s pd) then Done uf
    else
      let s := set_km (mark_page_used pd (km s)) s in
      let! (pd_user, f) := for_range_c 512 0 (fas_pde free_ro pd) (false, (visited, s)) in
      if pd_user then let! f := release_table pd f in Done (true, f)
      else Done (pdpt_user, f).

Definition fas_pml4e (free_ro : bool) (pml4 i : Z) (f : fas) : comp fas :=
  let '(visited, s) := f in
  let pml4e := entry s pml4 i in
  if negb (present pml4e) then Done f
  else
    let pdpt := addr_of pml4e in
    if negb (live_table s pdpt) then Done f
    else
      let! (pdpt_user, f) := for_range_c 512 0 (fas_pdpte free_ro pdpt) (false, f) in
      if pdpt_user then release_table pdpt f else Done f.

Definition free_address_space (pml4 : Z) (free_ro : bool) (s : pmem) : comp pmem :=
  if negb (in_managed s pml4) || negb (page_is_used (km s) pml4) then Done s
  else
    let! f := for_range_c 256 0 (fas_pml4e free_ro pml4) ([], s) in
    if in_managed f.2 pml4 then free_frame pml4 f.2 else Done f.2.
