(* ===== verification/PagingWalk.v ===== *)
(** * The four-level walk of the hardware

    The reference the page-table code is judged by: which entry the processor
    ends at for a virtual page, as a function of the four table indices.  A
    path of at most three indices names a table; [tree] says that every table
    of an address space is reached by one path only, which is what makes an
    update of one entry local. *)

From S2P Require Import Prelude Buddy Vma Paging.
From stdpp Require Import base gmap numbers sets list.
Local Open Scope Z_scope.

Definition is_ptr (e : Z) : bool := present e && negb (huge e).

(** The table a path of indices leads to. *)
Fixpoint descend (s : pmem) (t : Z) (p : list Z) : option Z :=
  match p with
  | [] => Some t
  | i :: p => if is_ptr (entry s t i) then descend s (addr_of (entry s t i)) p else None
  end.

(** The leaf entry for a full path, with the indices a large page leaves
    unused. *)
Fixpoint walk (s : pmem) (t : Z) (p : list Z) : option (Z * list Z) :=
  match p with
  | [] => None
  | i :: p =>
      let e := entry s t i in
      if negb (present e) then None
      else match p with
           | [] => Some (e, [])
           | _ => if huge e then Some (e, p) else walk s (addr_of e) p
           end
  end.

(** The words both read on the way. *)
Fixpoint reads (s : pmem) (t : Z) (p : list Z) : list (Z * Z) :=
  match p with
  | [] => []
  | i :: p => (t, i) :: if is_ptr (entry s t i) then reads s (addr_of (entry s t i)) p else []
  end.

Definition reach (s : pmem) (root t : Z) : Prop := ∃ p, (length p ≤ 3)%nat ∧ descend s root p = Some t.

Record tree (s : pmem) (root : Z) : Prop := {
  tr_inj : ∀ p q t, (length p ≤ 3)%nat → (length q ≤ 3)%nat →
    descend s root p = Some t → descend s root q = Some t → p = q;
  tr_top : ∀ i, huge (entry s root i) = false;
}.

(** ** Entries *)

Lemma addr_of_lor a b : addr_of (Z.lor a b) = Z.lor (addr_of a) (addr_of b).
Proof. apply Z.land_lor_distr_l. Qed.

Lemma addr_of_addr e : addr_of (addr_of e) = addr_of e.
Proof. unfold addr_of. by rewrite <- Z.land_assoc, Z.land_diag. Qed.

Lemma land_lor_ne a b m : Z.land b m ≠ 0 → Z.land (Z.lor a b) m ≠ 0.
Proof. rewrite Z.land_lor_distr_l. intros Hb H. by apply Z.lor_eq_0_iff in H as [_ ?]. Qed.

Lemma present_lor a b : present (Z.lor a b) = present a || present b.
Proof.
  unfold present. rewrite Z.land_lor_distr_l.
  destruct (Z.eqb_spec (Z.land a PTE_PRESENT) 0) as [->|Ha], (Z.eqb_spec (Z.land b PTE_PRESENT) 0) as [->|Hb]; cbn [negb orb];
    rewrite ?Z.lor_0_l, ?Z.lor_0_r, ?negb_true_iff, ?Z.eqb_neq; try done.
  intros [? ?]%Z.lor_eq_0_iff. done.
Qed.

Lemma huge_lor a b : huge (Z.lor a b) = huge a || huge b.
Proof.
  unfold huge. rewrite Z.land_lor_distr_l.
  destruct (Z.eqb_spec (Z.land a PTE_HUGE) 0) as [->|Ha], (Z.eqb_spec (Z.land b PTE_HUGE) 0) as [->|Hb]; cbn [negb orb];
    rewrite ?Z.lor_0_l, ?Z.lor_0_r, ?negb_true_iff, ?Z.eqb_neq; try done.
  intros [? ?]%Z.lor_eq_0_iff. done.
Qed.

(** A page address has none of the flag bits. *)
Definition page_addr (p : Z) : Prop := addr_of p = p.

Lemma page_addr_flags p m : page_addr p → Z.land PTE_ADDR_MASK m = 0 → Z.land p m = 0.
Proof. intros Hp Hm. rewrite <- Hp. unfold addr_of. by rewrite <- Z.land_assoc, Hm, Z.land_0_r. Qed.

Lemma page_addr_present p : page_addr p → present p = false.
Proof. intros Hp. unfold present. by rewrite (page_addr_flags p PTE_PRESENT Hp eq_refl). Qed.

Lemma page_addr_huge p : page_addr p → huge p = false.
Proof. intros Hp. unfold huge. by rewrite (page_addr_flags p PTE_HUGE Hp eq_refl). Qed.

Lemma page_addr_of e : page_addr (addr_of e).
Proof. apply addr_of_addr. Qed.

(** An entry made of a page address and flags. *)
Lemma ptr_entry n fl : page_addr n → addr_of fl = 0 → is_ptr fl = true →
  is_ptr (Z.lor n fl) = true ∧ addr_of (Z.lor n fl) = n.
Proof.
  intros Hn Hfl Hp. unfold is_ptr in *. rewrite present_lor, huge_lor, page_addr_present, page_addr_huge by done.
  split; [done|]. by rewrite addr_of_lor, Hfl, Z.lor_0_r.
Qed.

Lemma page_addr_intro p : 0 ≤ p < 2 ^ 52 → (4096 | p) → page_addr p.
Proof.
  intros Hp [q ->]. unfold page_addr, addr_of. replace (q * 4096) with (Z.shiftl q 12) in * by (by rewrite Z.shiftl_mul_pow2).
  change PTE_ADDR_MASK with (Z.shiftl (Z.ones 40) 12). rewrite <- Z.shiftl_land. f_equal.
  rewrite Z.land_ones by lia. apply Z.mod_small. rewrite Z.shiftl_mul_pow2 in Hp by lia. lia.
Qed.

(** ** Updates of single words and of pages *)

Lemma entry_set_page s t t' f i : entry (set_page t f s) t' i = if decide (t = t') then getd 0 f i else entry s t' i.
Proof. unfold entry, page_of, set_page. cbn [frames set_frames]. rewrite getd_insert. by case_decide. Qed.

Lemma entry_set s t i v t' i' :
  entry (set_entry t i v s) t' i' = if decide (t = t' ∧ i = i') then v else entry s t' i'.
Proof.
  unfold set_entry. rewrite entry_set_page. destruct (decide (t = t')) as [<-|].
  - rewrite getd_insert. destruct (decide (i = i')); [by rewrite decide_True|by rewrite decide_False by naive_solver].
  - by rewrite decide_False by naive_solver.
Qed.

Lemma page_of_set s t t' f : page_of (set_page t f s) t' = if decide (t = t') then f else page_of s t'.
Proof. unfold page_of, set_page. cbn [frames set_frames]. rewrite getd_insert. by case_decide. Qed.

Lemma entry_km k s t i : entry (set_km k s) t i = entry s t i.
Proof. done. Qed.

Lemma walk_ext s s' t p :
  (∀ x, x ∈ reads s t p → entry s' x.1 x.2 = entry s x.1 x.2) →
  descend s' t p = descend s t p ∧ walk s' t p = walk s t p ∧ reads s' t p = reads s t p.
Proof.
  revert t. induction p as [|i p IH]; intros t Hx; [done|]. cbn [reads] in *.
  assert (entry s' t i = entry s t i) as He by apply (Hx (t, i)), list_elem_of_here.
  cbn [descend walk]. rewrite He. unfold is_ptr in *.
  destruct (present (entry s t i)) eqn:Hp; [|done]. destruct (huge (entry s t i)) eqn:Hh; [done|]. cbn [andb negb] in *.
  destruct (IH (addr_of (entry s t i))) as (-> & -> & ->); [|by destruct p].
  intros x Hin. by apply Hx, list_elem_of_further.
Qed.

Lemma reads_descend s t p t' i :
  (t', i) ∈ reads s t p → ∃ q r, p = q ++ i :: r ∧ descend s t q = Some t'.
Proof.
  revert t. induction p as [|j p IH]; intros t; cbn [reads]; [by intros ?%elem_of_nil|].
  intros [[= -> ->]|Hin]%elem_of_cons; [by exists [], p|].
  destruct (is_ptr (entry s t j)) eqn:Hj; [|by apply elem_of_nil in Hin].
  destruct (IH _ Hin) as (q & r & -> & Hq). exists (j :: q), r. split; [done|]. cbn [descend]. by rewrite Hj.
Qed.

Lemma descend_app s t p q : descend s t (p ++ q) = match descend s t p with Some t' => descend s t' q | None => None end.
Proof. revert t. induction p as [|i p IH]; intros t; cbn [app descend]; [done|]. by destruct (is_ptr _). Qed.

Lemma descend_snoc s t p i t' :
  descend s t p = Some t' →
  descend s t (p ++ [i]) = if is_ptr (entry s t' i) then Some (addr_of (entry s t' i)) else None.
Proof. intros Hp. rewrite descend_app, Hp. done. Qed.

Lemma walk_app s t p t' i q : descend s t p = Some t' → walk s t (p ++ i :: q) = walk s t' (i :: q).
Proof.
  revert t. induction p as [|j p IH]; intros t Hp; [by injection Hp as ->|].
  cbn [descend] in Hp. unfold is_ptr in Hp. change ((j :: p) ++ i :: q) with (j :: (p ++ i :: q)). cbn [walk].
  destruct (present (entry s t j)) eqn:H1; [|done]. destruct (huge (entry s t j)) eqn:H2; [done|]. cbn [andb negb] in *.
  rewrite IH by done. by destruct p.
Qed.

(** A table that is not reached can be changed freely. *)
Lemma unreached_frame s s' root t0 p :
  ¬ reach s root t0 → (∀ t i, t ≠ t0 → entry s' t i = entry s t i) → (length p ≤ 4)%nat →
  descend s' root p = descend s root p ∧ walk s' root p = walk s root p.
Proof.
  intros Hn He Hl. destruct (walk_ext s s' root p) as (? & ? & _); [|done].
  intros [t i] Hin. cbn [fst snd]. apply He. intros ->. apply Hn. destruct (reads_descend _ _ _ _ _ Hin) as (q & r & -> & Hq).
  exists q. split; [|done]. rewrite length_app in Hl. cbn in Hl. lia.
Qed.

(** Changing one word of a table is seen only below that word. *)
Lemma entry_frame s s' root p0 t0 i0 p :
  tree s root → descend s root p0 = Some t0 → (length p0 ≤ 3)%nat →
  (∀ t i, (t, i) ≠ (t0, i0) → reach s root t → entry s' t i = entry s t i) → (length p ≤ 4)%nat →
  ¬ (p0 ++ [i0]) `prefix_of` p →
  descend s' root p = descend s root p ∧ walk s' root p = walk s root p.
Proof.
  intros Ht Hp0 Hl0 He Hl Hnp. destruct (walk_ext s s' root p) as (? & ? & _); [|done].
  intros [t i] Hin. destruct (reads_descend _ _ _ _ _ Hin) as (q & r & -> & Hq). rewrite length_app in Hl. cbn in Hl.
  cbn [fst snd]. apply He; [|exists q; split; [lia|done]].
  intros [= -> ->]. apply Hnp. rewrite (tr_inj _ _ Ht q p0 t0) by (done || lia). exists r. by rewrite <- app_assoc.
Qed.

(** Rewriting a pointer with other flags changes no walk, unless it is read
    as a leaf. *)
Lemma ptr_frame s t0 i0 e root p :
  is_ptr (entry s t0 i0) = true → is_ptr e = true → addr_of e = addr_of (entry s t0 i0) →
  descend (set_entry t0 i0 e s) root p = descend s root p ∧
  ((∀ q, p = q ++ [i0] → descend s root q ≠ Some t0) → walk (set_entry t0 i0 e s) root p = walk s root p).
Proof.
  intros Ho Hn Ha. revert root. induction p as [|i p IH]; intros root; [done|]. cbn [descend walk].
  rewrite entry_set. destruct (IH (addr_of (entry s root i))) as [IH1 IH2].
  destruct (decide (t0 = root ∧ i0 = i)) as [[-> ->]|Hne].
  - pose proof (proj1 (andb_true_iff _ _) Hn) as [Hn1 Hn2%negb_true_iff]. pose proof (proj1 (andb_true_iff _ _) Ho) as [Ho1 Ho2%negb_true_iff].
    rewrite Hn, Ho, Ha, Hn1, Hn2, Ho1, Ho2, IH1. cbn [negb]. split; [done|]. intros Hlast.
    destruct p as [|j p]; [by destruct (Hlast [])|]. apply IH2.
    intros q Hq. specialize (Hlast (i :: q)). cbn [descend app] in Hlast. rewrite Hq, Ho in Hlast. by apply Hlast.
  - rewrite IH1. split; [done|]. intros Hlast. destruct (present (entry s root i)) eqn:H1; [|done].
    destruct (huge (entry s root i)) eqn:H2; [done|]. cbn [negb]. rewrite IH2; [done|].
    intros q ->. specialize (Hlast (i :: q) eq_refl). cbn [descend] in Hlast. unfold is_ptr in Hlast. by rewrite H1, H2 in Hlast.
Qed.

(** ** Addresses *)

(** The four indices of a virtual address. *)
Definition path (v : Z) : list Z := [vpn 39 v; vpn 30 v; vpn 21 v; vpn 12 v].

(** The bytes a leaf covers, by the indices it leaves unused. *)
Definition span (rest : list Z) : Z := 2 ^ (12 + 9 * Z.of_nat (length rest)).

(** Where the hardware finds the byte [v]: a large page contributes the address
    bits its size leaves. *)
Definition xlate (s : pmem) (root v : Z) : option Z :=
  (λ '(e, rest), Z.lor (addr_of e) (Z.land v (span rest - 1))) <$> walk s root (path v).

Lemma vpn_bound sh v : 0 ≤ vpn sh v < 512.
Proof. unfold vpn. change 0x1FF with (Z.ones 9). rewrite Z.land_ones by lia. apply Z.mod_pos_bound. lia. Qed.

(** ** A new table *)

(** What the words of a new table mean for the walks through it. *)
Lemma tree_set_entry s root p0 t0 i0 e :
  tree s root → descend s root p0 = Some t0 → length p0 = 3%nat → tree (set_entry t0 i0 e s) root.
Proof.
  intros Ht Hp0 Hl0.
  assert (∀ p, (length p ≤ 3)%nat → descend (set_entry t0 i0 e s) root p = descend s root p) as Hd.
  { intros p Hl. eapply entry_frame; [exact Ht|exact Hp0|lia| |lia|].
    - intros t i Hne _. rewrite entry_set. rewrite decide_False; [done|]. naive_solver.
    - intros Hp%prefix_length. rewrite length_app in Hp. cbn in Hp. lia. }
  split.
  - intros p q t Hp Hq. rewrite !Hd by done. by apply Ht.
  - intros i. rewrite entry_set. case_decide as Heq; [|apply Ht]. destruct Heq as [-> ->].
    pose proof (tr_inj _ _ Ht p0 [] root ltac:(lia) ltac:(cbn; lia) Hp0 eq_refl) as ->. done.
Qed.

Section new_table.
Context (s : pmem) (root t i n : Z) (f : frame) (e : Z) (p : list Z).
Context (Ht : tree s root) (Hp : descend s root p = Some t) (Hl : (length p ≤ 2)%nat).
Context (Hold : is_ptr (entry s t i) = false) (Hn : ¬ reach s root n).
Context (He : is_ptr e = true) (Ha : addr_of e = n).
Context (Hf : length p = 2%nat ∨ ∀ j, is_ptr (getd 0 f j) = false).

Let s' := set_entry t i e (set_page n f s).

Lemma new_entry t' i' : entry s' t' i' = if decide (t = t' ∧ i = i') then e else if decide (n = t') then getd 0 f i' else entry s t' i'.
Proof. unfold s'. by rewrite entry_set, entry_set_page. Qed.

Lemma new_reached t' : reach s root t' → t' ≠ n.
Proof. intros Hr ->. done. Qed.

Lemma new_other q : (length q ≤ 4)%nat → ¬ (p ++ [i]) `prefix_of` q →
  descend s' root q = descend s root q ∧ walk s' root q = walk s root q.
Proof.
  intros Hq Hnp. apply (entry_frame s s' root p t i); [done|done|lia| |done|done].
  intros t' i' Hne Hr. rewrite new_entry. rewrite decide_False by naive_solver. rewrite decide_False; [done|].
  by intros <-.
Qed.

Lemma new_upper : descend s' root p = Some t.
Proof.
  rewrite (proj1 (new_other p ltac:(lia) ltac:(intros Hpr%prefix_length; rewrite length_app in Hpr; cbn in Hpr; lia))). done.
Qed.

Lemma new_below : descend s' root (p ++ [i]) = Some n.
Proof. rewrite (descend_snoc s' root p i t new_upper), new_entry, decide_True by done. by rewrite He, Ha. Qed.

Lemma new_ne : t ≠ n.
Proof. apply new_reached. exists p. split; [lia|done]. Qed.

Lemma new_leaf j r : walk s' root (p ++ i :: j :: r) =
  if negb (present (getd 0 f j)) then None
  else match r with
       | [] => Some (getd 0 f j, [])
       | _ => if huge (getd 0 f j) then Some (getd 0 f j, r) else walk s' (addr_of (getd 0 f j)) r
       end.
Proof.
  replace (p ++ i :: j :: r) with ((p ++ [i]) ++ j :: r) by (by rewrite <- app_assoc).
  rewrite (walk_app s' root (p ++ [i]) n j r new_below). cbn [walk]. rewrite new_entry.
  rewrite decide_False by (intros [? _]; by apply new_ne). by rewrite decide_True.
Qed.

(** Nothing lies below the new table yet. *)
Lemma new_deeper j r : (length (p ++ i :: j :: r) ≤ 3)%nat → descend s' root (p ++ i :: j :: r) = None.
Proof.
  intros Hlen. rewrite length_app in Hlen. cbn in Hlen.
  replace (p ++ i :: j :: r) with ((p ++ [i]) ++ j :: r) by (by rewrite <- app_assoc).
  rewrite descend_app, new_below. cbn [descend]. rewrite new_entry.
  rewrite decide_False by (intros [? _]; by apply new_ne). rewrite decide_True by done.
  destruct Hf as [?|Hf']; [lia|]. by rewrite Hf'.
Qed.

Lemma new_reach q x : (length q ≤ 3)%nat → descend s' root q = Some x →
  (q = p ++ [i] ∧ x = n) ∨ (descend s root q = Some x ∧ ¬ (p ++ [i]) `prefix_of` q).
Proof.
  intros Hq Hx. destruct (decide ((p ++ [i]) `prefix_of` q)) as [[r ->]|Hnp].
  - left. destruct r as [|j r].
    + rewrite app_nil_r in *. rewrite new_below in Hx. by injection Hx as <-.
    + rewrite <- app_assoc in Hx, Hq. cbn [app] in Hx, Hq. by rewrite new_deeper in Hx.
  - right. split; [|done]. rewrite <- Hx. symmetry. apply new_other; [lia|done].
Qed.

Lemma new_tree : tree s' root.
Proof.
  split.
  - intros q1 q2 x H1 H2 [[-> ->]|[D1 N1]]%new_reach [[-> E]|[D2 N2]]%new_reach; try done.
    + exfalso. apply Hn. exists q2. done.
    + subst x. exfalso. apply Hn. exists q1. done.
    + by eapply tr_inj.
  - intros i'. rewrite new_entry. case_decide; [by apply andb_prop in He as [_ ?%negb_true_iff]|].
    rewrite decide_False; [apply Ht|]. intros ->. apply Hn. exists []. split; [cbn; lia|done].
Qed.

Lemma new_reach_inv x : reach s' root x → x = n ∨ reach s root x.
Proof.
  intros (q & Hq & Hx). destruct (new_reach q x Hq Hx) as [[_ ->]|[? _]]; [by left|]. right. by exists q.
Qed.
End new_table.

(** ** A table moved to another page *)

Section retarget.
Context (s : pmem) (root t i n : Z) (e : Z) (p : list Z).
Context (Ht : tree s root) (Hp : descend s root p = Some t) (Hl : (length p ≤ 2)%nat).
Context (Hold : is_ptr (entry s t i) = true) (Hn : ¬ reach s root n).
Context (He : is_ptr e = true) (Ha : addr_of e = n).

Let c := addr_of (entry s t i).
Let s' := set_entry t i e (set_page n (page_of s c) s).

Lemma moved_entry t' i' : entry s' t' i' = if decide (t = t' ∧ i = i') then e else if decide (n = t') then entry s c i' else entry s t' i'.
Proof. unfold s'. by rewrite entry_set, entry_set_page. Qed.

Lemma moved_other q : (length q ≤ 4)%nat → ¬ (p ++ [i]) `prefix_of` q →
  descend s' root q = descend s root q ∧ walk s' root q = walk s root q.
Proof.
  intros Hq Hnp. apply (entry_frame s s' root p t i); [done|done|lia| |done|done].
  intros t' i' Hne Hr. rewrite moved_entry. rewrite decide_False by naive_solver. rewrite decide_False; [done|]. by intros <-.
Qed.

Lemma moved_here : descend s' root (p ++ [i]) = Some n.
Proof.
  rewrite (descend_snoc s' root p i t).
  - rewrite moved_entry, decide_True by done. by rewrite He, Ha.
  - rewrite (proj1 (moved_other p ltac:(lia) ltac:(intros Hpr%prefix_length; rewrite length_app in Hpr; cbn in Hpr; lia))). done.
Qed.

Lemma moved_below j q : (length (p ++ i :: j :: q) ≤ 4)%nat →
  descend s' root (p ++ i :: j :: q) = descend s root (p ++ i :: j :: q) ∧
  walk s' root (p ++ i :: j :: q) = walk s root (p ++ i :: j :: q).
Proof.
  intros Hlen. rewrite length_app in Hlen. cbn in Hlen.
  assert (descend s root (p ++ [i]) = Some c) as Hc by (rewrite (descend_snoc s root p i t Hp), Hold; done).
  assert (t ≠ n) as Htn by (intros ->; apply Hn; exists p; split; [lia|done]).
  assert (entry s' n j = entry s c j) as Hj.
  { rewrite moved_entry, decide_False by naive_solver. by rewrite decide_True. }
  replace (p ++ i :: j :: q) with ((p ++ [i]) ++ j :: q) by (by rewrite <- app_assoc).
  rewrite (descend_app s' root (p ++ [i])), (descend_app s root (p ++ [i])), moved_here, Hc.
  rewrite (walk_app s' root (p ++ [i]) n j q moved_here), (walk_app s root (p ++ [i]) c j q Hc).
  cbn [descend walk]. rewrite Hj. destruct (is_ptr (entry s c j)) eqn:Hptr.
  2: { split; [done|]. unfold is_ptr in Hptr. destruct (present (entry s c j)); [|done]. cbn [andb] in Hptr.
       apply negb_false_iff in Hptr. rewrite Hptr. by destruct q. }
  destruct (walk_ext s s' (addr_of (entry s c j)) q) as (-> & -> & _); [|done].
  intros [t' i'] Hin. cbn [fst snd]. destruct (reads_descend _ _ _ _ _ Hin) as (q1 & q2 & -> & Hq1).
  rewrite length_app in Hlen. cbn in Hlen.
  assert (descend s root (p ++ [i] ++ [j] ++ q1) = Some t') as Hpath.
  { rewrite descend_app, Hp. change ([i] ++ [j] ++ q1) with (i :: j :: q1). cbn [descend]. rewrite Hold. fold c. by rewrite Hptr. }
  assert (length (p ++ [i] ++ [j] ++ q1) ≤ 3)%nat as Hlen' by (rewrite !length_app; cbn; lia).
  rewrite moved_entry, !decide_False; [done| |].
  - intros ->. apply Hn. by exists (p ++ [i] ++ [j] ++ q1).
  - intros [-> _]. pose proof (tr_inj _ _ Ht _ p t' Hlen' ltac:(lia) Hpath Hp) as Heq.
    apply (f_equal length) in Heq. rewrite !length_app in Heq. cbn in Heq. lia.
Qed.

Lemma moved_walk q : length q = 4%nat → walk s' root q = walk s root q.
Proof.
  intros Hq. destruct (decide ((p ++ [i]) `prefix_of` q)) as [[r ->]|Hnp]; [|apply moved_other; [lia|done]].
  rewrite <- app_assoc in *. cbn [app] in *. destruct r as [|j r].
  - rewrite length_app in Hq. cbn in Hq. lia.
  - apply moved_below. lia.
Qed.

Lemma moved_descend q : (length q ≤ 3)%nat → q ≠ p ++ [i] → descend s' root q = descend s root q.
Proof.
  intros Hq Hne. destruct (decide ((p ++ [i]) `prefix_of` q)) as [[r ->]|Hnp]; [|apply moved_other; [lia|done]].
  rewrite <- app_assoc in *. cbn [app] in *. destruct r as [|j r]; [by destruct Hne|]. apply moved_below. lia.
Qed.

Lemma moved_tree : tree s' root.
Proof.
  assert (∀ q x, (length q ≤ 3)%nat → descend s' root q = Some x → (q = p ++ [i] ∧ x = n) ∨ (descend s root q = Some x)) as Hcase.
  { intros q x Hq Hx. destruct (decide (q = p ++ [i])) as [->|Hne]; [left; split; [done|]; rewrite moved_here in Hx; congruence|].
    right. by rewrite moved_descend in Hx. }
  split.
  - intros q1 q2 x H1 H2 D1 D2. destruct (Hcase q1 x H1 D1) as [[G1 X1]|E1]; destruct (Hcase q2 x H2 D2) as [[G2 X2]|E2].
    + congruence.
    + exfalso. apply Hn. exists q2. by rewrite <- X1.
    + exfalso. apply Hn. exists q1. by rewrite <- X2.
    + by eapply tr_inj.
  - intros i'. rewrite moved_entry. case_decide; [by apply andb_prop in He as [_ ?%negb_true_iff]|].
    rewrite decide_False; [apply Ht|]. intros ->. apply Hn. exists []. split; [cbn; lia|done].
Qed.
End retarget.
