(* ===== verification/PagingMap.v ===== *)
(** * Adding and removing mappings

    [map_into] changes the translation of one page and of no other, also when
    it has to split a large page; [unmap_into] removes one.  The lookups of the
    kernel agree with the hardware walk. *)

From S2P Require Import Prelude Buddy BuddyInv BuddyOps BuddyTables BuddySpec PageAlloc BuddyPages VfsTypes Vma Paging PagingWalk.
From stdpp Require Import base gmap numbers sets strings list.
Local Open Scope Z_scope.

(** ** Bits of entries *)

Lemma land_pow_testbit e b : 0 ≤ b → negb (Z.land e (2 ^ b) =? 0) = Z.testbit e b.
Proof.
  intros Hb. destruct (Z.testbit e b) eqn:Ht.
  - apply negb_true_iff, Z.eqb_neq. intros H. apply (f_equal (λ z, Z.testbit z b)) in H.
    rewrite Z.land_spec, Z.bits_0, Z.pow2_bits_true, Ht in H by done. done.
  - apply negb_false_iff, Z.eqb_eq. apply Z.bits_inj'. intros i Hi. rewrite Z.land_spec, Z.bits_0, Z.pow2_bits_eqb by done.
    destruct (Z.eqb_spec b i) as [<-|]; [by rewrite Ht|apply andb_false_r].
Qed.

Lemma present_bit e : present e = Z.testbit e 0.
Proof. exact (land_pow_testbit e 0 ltac:(lia)). Qed.
Lemma writable_bit e : writable e = Z.testbit e 1.
Proof. exact (land_pow_testbit e 1 ltac:(lia)). Qed.
Lemma user_bit e : user e = Z.testbit e 2.
Proof. exact (land_pow_testbit e 2 ltac:(lia)). Qed.
Lemma huge_bit e : huge e = Z.testbit e 7.
Proof. exact (land_pow_testbit e 7 ltac:(lia)). Qed.

Lemma ones_bit n i : 0 ≤ n → 0 ≤ i → Z.testbit (Z.ones n) i = bool_decide (i < n).
Proof.
  intros Hn Hi. destruct (decide (i < n)).
  - rewrite bool_decide_true by done. apply Z.ones_spec_low. lia.
  - rewrite bool_decide_false by done. apply Z.ones_spec_high. lia.
Qed.

Lemma mask_bit lo n i : 0 ≤ lo → 0 ≤ n → 0 ≤ i →
  Z.testbit (Z.shiftl (Z.ones n) lo) i = bool_decide (lo ≤ i < lo + n).
Proof.
  intros Hlo Hn Hi. rewrite Z.shiftl_spec by done. destruct (decide (lo ≤ i)).
  - rewrite ones_bit by lia. apply bool_decide_ext. lia.
  - rewrite Z.testbit_neg_r by lia. rewrite bool_decide_false; [done|lia].
Qed.

Lemma addr_of_bit e i : 0 ≤ i → Z.testbit (addr_of e) i = Z.testbit e i && bool_decide (12 ≤ i < 52).
Proof. intros. unfold addr_of. rewrite Z.land_spec. change PTE_ADDR_MASK with (Z.shiftl (Z.ones 40) 12). by rewrite mask_bit. Qed.

(** The offset inside a large page: an index and the offset inside the smaller
    page. *)
Lemma low_split v k : 0 ≤ k → Z.land v (2 ^ (k + 9) - 1) = Z.lor (Z.shiftl (vpn k v) k) (Z.land v (2 ^ k - 1)).
Proof.
  intros Hk. rewrite !Z.sub_1_r, <- !Z.ones_equiv.
  apply Z.bits_inj'. intros i Hi. rewrite Z.lor_spec, !Z.land_spec, !ones_bit by lia.
  rewrite Z.shiftl_spec by lia. unfold vpn. destruct (decide (k ≤ i)).
  - rewrite Z.land_spec, Z.shiftr_spec by lia. change 0x1FF with (Z.ones 9). rewrite ones_bit by lia.
    replace (i - k + k) with i by lia. rewrite (bool_decide_false (i < k)) by lia. rewrite andb_false_r, orb_false_r.
    f_equal. apply bool_decide_ext. lia.
  - rewrite (Z.testbit_neg_r _ (i - k)) by lia. cbn [orb]. f_equal. apply bool_decide_ext. lia.
Qed.

(** Adding an index to an aligned base sets the bits of the index. *)
Lemma add_index b j k : 0 ≤ k → 0 ≤ j < 512 → (∀ i, 0 ≤ i < k + 9 → Z.testbit b i = false) →
  b + j * 2 ^ k = Z.lor b (Z.shiftl j k).
Proof.
  intros Hk Hj Hb. rewrite <- Z.shiftl_mul_pow2 by done.
  assert (Z.land b (Z.shiftl j k) = 0) as Hd.
  { apply Z.bits_inj'. intros i Hi. rewrite Z.land_spec, Z.bits_0, Z.shiftl_spec by done.
    destruct (decide (i < k + 9)); [by rewrite Hb by lia|].
    rewrite <- (Z.mod_small j 512) by lia. change 512 with (2 ^ 9). rewrite <- Z.land_ones, Z.land_spec, ones_bit by lia.
    rewrite (bool_decide_false (i - k < 9)) by lia. by rewrite !andb_false_r. }
  rewrite Z.add_nocarry_lxor by done. by apply Z.lxor_lor.
Qed.

(** ** Splitting a large page *)

Lemma fill_get f j : 0 ≤ j < 512 → getd 0 (fill f) j = f j.
Proof.
  intros Hj. unfold getd, fill. erewrite (elem_of_list_to_map_1 _ j (f j)); [done| |].
  - rewrite <- list_fmap_compose. change (NoDup (id <$> seqZ 0 512)). rewrite list_fmap_id. apply NoDup_seqZ.
  - apply list_elem_of_fmap. exists j. split; [done|]. apply elem_of_seqZ. lia.
Qed.

Lemma fill_out f j : ¬ 0 ≤ j < 512 → getd 0 (fill f) j = 0.
Proof.
  intros Hj. unfold getd, fill. rewrite not_elem_of_list_to_map_1; [done|].
  rewrite <- list_fmap_compose. change (j ∉ id <$> seqZ 0 512). rewrite list_fmap_id, elem_of_seqZ. lia.
Qed.

(** A large-page entry: a machine word whose address bits below its size are
    zero. *)
Definition huge_ok (e k : Z) : Prop := 0 ≤ e < 2 ^ 64 ∧ ∀ i, 12 ≤ i < k → Z.testbit e i = false.

Lemma word_bit e i : 0 ≤ e < 2 ^ 64 → 64 ≤ i → Z.testbit e i = false.
Proof.
  intros He Hi. rewrite <- (Z.mod_small e (2 ^ 64)) by done. rewrite <- Z.land_ones, Z.land_spec, ones_bit by lia.
  rewrite bool_decide_false by lia. apply andb_false_r.
Qed.

(** The words of a split page: address bits of the large page and the index,
    with some flags. *)
Lemma split_entry e k lo j fl :
  lo = k + 9 → 12 ≤ k → lo ≤ 52 → 0 ≤ j < 512 → addr_of fl = 0 → huge_ok e lo →
  let w := Z.lor (w64 (Z.land e (w64 (Z.shiftl 0xFFFFFFFFFF lo)) + j * 2 ^ k)) fl in
  addr_of w = Z.lor (addr_of e) (Z.shiftl j k) ∧ (∀ b, 0 ≤ b < 12 → Z.testbit w b = Z.testbit fl b).
Proof.
  intros Hlo Hk Hlo2 Hj Hfl [_ Hz]. set (m := w64 (Z.shiftl 0xFFFFFFFFFF lo)). cbv zeta.
  assert (∀ i, 0 ≤ i → Z.testbit m i = bool_decide (lo ≤ i < lo + 40 ∧ i < 64)) as Hm.
  { intros i Hi. unfold m, w64. rewrite <- Z.land_ones, Z.land_spec, ones_bit by lia. change 0xFFFFFFFFFF with (Z.ones 40).
    rewrite mask_bit by lia. destruct (decide (i < 64)).
    - rewrite (bool_decide_true (i < 64)) by done. rewrite andb_true_r. apply bool_decide_ext. lia.
    - rewrite (bool_decide_false (i < 64)) by done. rewrite andb_false_r. symmetry. apply bool_decide_false. lia. }
  set (b := Z.land e m).
  assert (∀ i, 0 ≤ i → Z.testbit b i = Z.testbit e i && bool_decide (lo ≤ i < lo + 40 ∧ i < 64)) as Hb.
  { intros i Hi. unfold b. by rewrite Z.land_spec, Hm. }
  rewrite (add_index b j k) by (try lia; intros; rewrite Hb by lia; rewrite (bool_decide_false (lo ≤ i < lo + 40 ∧ i < 64)) by lia; apply andb_false_r).
  assert (∀ i, 0 ≤ i → Z.testbit (Z.shiftl j k) i = Z.testbit j (i - k) && bool_decide (k ≤ i < k + 9)) as Hjk.
  { intros i Hi. rewrite Z.shiftl_spec by done. rewrite <- (Z.mod_small j 512) at 1 by done. change 512 with (2 ^ 9).
    rewrite <- Z.land_ones, Z.land_spec by lia. destruct (decide (k ≤ i)).
    - rewrite ones_bit by lia. f_equal. apply bool_decide_ext. lia.
    - rewrite !(Z.testbit_neg_r _ (i - k)) by lia. done. }
  assert (w64 (Z.lor b (Z.shiftl j k)) = Z.lor b (Z.shiftl j k)) as ->.
  { unfold w64. rewrite <- Z.land_ones by lia. apply Z.bits_inj'. intros i Hi. rewrite Z.land_spec, ones_bit by lia.
    destruct (decide (i < 64)); [by rewrite bool_decide_true, andb_true_r by done|]. rewrite bool_decide_false, andb_false_r by done.
    rewrite Z.lor_spec, Hb, Hjk by done. rewrite !bool_decide_false by lia. by rewrite !andb_false_r. }
  split.
  - rewrite addr_of_lor, Hfl, Z.lor_0_r. apply Z.bits_inj'. intros i Hi.
    rewrite addr_of_bit, !Z.lor_spec, addr_of_bit, Hb, Hjk by done.
    destruct (decide (12 ≤ i < 52)) as [Hr|Hr].
    + rewrite (bool_decide_true (12 ≤ i < 52)) by done. rewrite !andb_true_r. f_equal.
      destruct (decide (lo ≤ i)); [rewrite bool_decide_true, andb_true_r by lia; done|].
      rewrite Hz by lia. done.
    + rewrite (bool_decide_false (12 ≤ i < 52)) by done. rewrite !andb_false_r. cbn [orb].
      rewrite bool_decide_false by lia. by rewrite andb_false_r.
  - intros i Hi. rewrite !Z.lor_spec, Hb, Hjk by lia. rewrite !bool_decide_false by lia. by rewrite !andb_false_r.
Qed.

Lemma low_flags_addr fl : (∀ i, 12 ≤ i < 52 → Z.testbit fl i = false) → addr_of fl = 0.
Proof.
  intros H. apply Z.bits_inj'. intros i Hi. rewrite addr_of_bit, Z.bits_0 by done.
  destruct (decide (12 ≤ i < 52)); [by rewrite H|]. rewrite bool_decide_false by done. apply andb_false_r.
Qed.

Lemma flags_of_bit e i : 0 ≤ i → Z.testbit (flags_of e) i = Z.testbit e i && negb (bool_decide (12 ≤ i < 52)).
Proof. intros. unfold flags_of. rewrite Z.ldiff_spec. change PTE_ADDR_MASK with (Z.shiftl (Z.ones 40) 12). by rewrite mask_bit. Qed.

Lemma split_2m_entry e j : huge_ok e 21 → 0 ≤ j < 512 →
  present (getd 0 (split_2m e) j) = present e ∧ addr_of (getd 0 (split_2m e) j) = Z.lor (addr_of e) (Z.shiftl j 12).
Proof.
  intros He Hj. unfold split_2m. rewrite fill_get by done. set (fl := Z.ldiff _ _).
  assert (∀ i, 0 ≤ i → Z.testbit fl i = Z.testbit e i && bool_decide (i < 7) && negb (bool_decide (i = 2))) as Hfl.
  { intros i Hi. unfold fl. rewrite Z.ldiff_spec, Z.land_spec. change 0x7F with (Z.ones 7). rewrite ones_bit by lia.
    change PTE_USER with (2 ^ 2). rewrite Z.pow2_bits_eqb by lia. f_equal. f_equal. destruct (Z.eqb_spec 2 i); [by rewrite bool_decide_true by done|by rewrite bool_decide_false by lia]. }
  destruct (split_entry e 12 21 j fl) as [Ha Hl]; try done; try lia.
  { apply low_flags_addr. intros i Hi. rewrite Hfl by lia. rewrite (bool_decide_false (i < 7)) by lia. by rewrite andb_false_r. }
  split; [|exact Ha]. rewrite !present_bit. change 4096 with (2 ^ 12). rewrite Hl by lia. rewrite Hfl by lia. by rewrite !andb_true_r.
Qed.

Lemma split_1g_entry e j : huge_ok e 30 → 0 ≤ j < 512 →
  present (getd 0 (split_1g e) j) = present e ∧ addr_of (getd 0 (split_1g e) j) = Z.lor (addr_of e) (Z.shiftl j 21).
Proof.
  intros He Hj. unfold split_1g. rewrite fill_get by done. set (fl := Z.ldiff _ _).
  assert (∀ i, 0 ≤ i → i ≠ 7 → i ≠ 2 → Z.testbit fl i = Z.testbit e i && negb (bool_decide (12 ≤ i < 52))) as Hfl.
  { intros i Hi H7 H2. unfold fl. rewrite Z.ldiff_spec, Z.lor_spec, flags_of_bit by done.
    change PTE_USER with (2 ^ 2). change PTE_HUGE with (2 ^ 7). rewrite !Z.pow2_bits_eqb by lia.
    rewrite (proj2 (Z.eqb_neq 7 i)), (proj2 (Z.eqb_neq 2 i)) by lia. by rewrite orb_false_r, andb_true_r. }
  destruct (split_entry e 21 30 j fl) as [Ha Hl]; try done; try lia.
  { apply low_flags_addr. intros i Hi. rewrite Hfl by lia. rewrite bool_decide_true by done. by rewrite andb_false_r. }
  split; [|exact Ha]. rewrite !present_bit. change 0x200000 with (2 ^ 21). rewrite Hl by lia. rewrite Hfl by lia. by rewrite andb_true_r.
Qed.

Lemma split_1g_huge e j : is_ptr (getd 0 (split_1g e) j) = false.
Proof.
  unfold split_1g. destruct (decide (0 ≤ j < 512)); [|by rewrite fill_out].
  rewrite fill_get by done. unfold is_ptr. rewrite huge_lor. apply andb_false_intro2, negb_false_iff, orb_true_iff. right.
  rewrite huge_bit, Z.ldiff_spec, Z.lor_spec. by rewrite orb_true_r.
Qed.

Lemma empty_get j : getd 0 (∅ : frame) j = 0.
Proof. apply getd_empty. Qed.

(** A new table in the place of nothing, or of a large page it spells out. *)
Lemma new_xlate s root t i n f e p :
  tree s root → descend s root p = Some t → (length p ≤ 2)%nat → is_ptr (entry s t i) = false →
  ¬ reach s root n → is_ptr e = true → addr_of e = n → (length p = 2%nat ∨ ∀ j, is_ptr (getd 0 f j) = false) →
  (∀ j, 0 ≤ j < 512 → present (getd 0 f j) = present (entry s t i) ∧
     (present (entry s t i) = true → addr_of (getd 0 f j) = Z.lor (addr_of (entry s t i)) (Z.shiftl j (12 + 9 * (2 - Z.of_nat (length p)))))) →
  ∀ v, xlate (set_entry t i e (set_page n f s)) root v = xlate s root v.
Proof.
  intros Ht Hp Hl Hold Hn He Ha Hf Hw v. unfold xlate.
  destruct (decide ((p ++ [i]) `prefix_of` path v)) as [[q Hq]|Hnp].
  2: { by rewrite (proj2 (new_other s root t i n f e p Ht Hp Hl Hold Hn Hf (path v) ltac:(cbn; lia) Hnp)). }
  rewrite <- app_assoc in Hq. cbn [app] in Hq.
  assert (length (path v) = 4%nat) as H4 by done. rewrite Hq in H4. rewrite length_app in H4. cbn [length] in H4.
  destruct q as [|j r]; [cbn in H4; lia|]. cbn [length] in H4.
  assert (j = vpn (12 + 9 * (2 - Z.of_nat (length p))) v) as Hj.
  { destruct p as [|p1 [|p2 [|]]]; cbn in Hl; try lia; unfold path in Hq; cbn in Hq; injection Hq; intros; subst; done. }
  rewrite Hq, (new_leaf s root t i n f e p Ht Hp Hl Hold Hn He Ha Hf j r), (walk_app s root p t i (j :: r) Hp). cbn [walk].
  destruct (Hw j) as [Hpr Had]; [rewrite Hj; apply vpn_bound|]. rewrite Hpr. unfold is_ptr in Hold.
  destruct (present (entry s t i)) eqn:Hpe; [|done]. cbn [andb negb] in *. apply negb_false_iff in Hold. rewrite Hold.
  assert (match r with [] => Some (getd 0 f j, []) | _ :: _ => if huge (getd 0 f j) then Some (getd 0 f j, r)
    else walk (set_entry t i e (set_page n f s)) (addr_of (getd 0 f j)) r end = Some (getd 0 f j, r)) as ->.
  { destruct r as [|? ?]; [done|]. destruct Hf as [?|Hf]; [cbn in H4; lia|]. specialize (Hf j). unfold is_ptr in Hf.
    rewrite Hpr in Hf. apply negb_false_iff in Hf. by rewrite Hf. }
  cbn [fmap option_fmap option_map]. f_equal. rewrite Had by done. rewrite <- Z.lor_assoc. f_equal.
  unfold span. cbn [length]. set (k := 12 + 9 * (2 - Z.of_nat (length p))) in *.
  replace (12 + 9 * Z.of_nat (length r)) with k by (unfold k; lia).
  replace (12 + 9 * Z.of_nat (S (length r))) with (k + 9) by (unfold k; lia).
  rewrite low_split by (unfold k; lia). by rewrite Hj.
Qed.

(** ** What the tables take from the allocator *)

Definition outside (k : kmem) (t : Z) : Prop :=
  t + 4096 ≤ base (al k) ∨ base (al k) + pages (al k) * 4096 ≤ t.

(** Physical memory below the 52 bits of a page-table entry. *)
Definition low_mem (k : kmem) : Prop := base (al k) + pages (al k) * 4096 ≤ 2 ^ 52.

Definition same_region (k k' : kmem) : Prop := base (al k') = base (al k) ∧ pages (al k') = pages (al k).

Lemma holds_managed k l p : holds k l → p ∈ l → ¬ outside k p ∧ (low_mem k → page_addr p).
Proof.
  intros (ls & others & Hinv) Hp.
  assert (blk_ok k p 0) as (_ & H1 & H2 & H3).
  { apply (ai_ok _ _ _ Hinv (p, 0%nat)), held_live, elem_of_app. left. apply list_elem_of_fmap. by exists p. }
  pose proof (wf_region _ _ (ai_wf _ _ _ Hinv)) as (Hb & _ & _ & _). rewrite block_size_0 in H2, H3. unfold Buddy.PAGE_SIZE in *.
  split; [unfold outside; lia|]. intros Hlow. unfold low_mem in Hlow. apply page_addr_intro; [lia|done].
Qed.

Lemma alloc_zeroed_region k r k' l : holds k l → alloc_zeroed_page k = (r, k') → same_region k k'.
Proof.
  intros (ls & others & Hinv). unfold alloc_zeroed_page. destruct (q_pop k) as [r1 k1] eqn:Hpop.
  pose proof Hinv as [Hwf _ Hq _ Hok _ _ _ _].
  assert (q_pages_ok k) as Hqp.
  { intros a Ha. apply (Hok (a, 0%nat)). unfold held. apply elem_of_app. right. apply list_elem_of_fmap. by exists a. }
  destruct (q_pop_refines k r1 k1 (wf_region _ _ Hwf) Hq Hqp Hpop) as [_ Hk1]. unfold same_region. destruct r1 as [a|].
  - destruct Hk1 as [_ Hk1]. intros [= <- <-]. rewrite Hk1. unfold used_mark, untrack_freed_page, pte_refc_inc, page_type_set.
    repeat (case_match; try done).
  - destruct Hk1 as [_ ->]. destruct (alloc_nolock 0 k) as [r2 k2] eqn:Hal.
    destruct (alloc_spec 0 k ls r2 k2 Hwf Hal) as (ls' & _ & Hrest & _). unfold rest in Hrest. injection Hrest as Hb Hp _.
    destruct r2 as [a|]; intros [= <- <-]; [|done]. unfold pte_refc_inc, page_type_set. repeat (case_match; try done).
Qed.

Lemma holds_zeroed k l r k' : holds k l → alloc_zeroed_page k = (r, k') →
  holds k' (match r with Some p => p :: l | None => l end).
Proof.
  intros (ls & others & Hinv) Hal. destruct (alloc_zeroed_ainv k ls _ r k' Hinv Hal) as (ls' & Hinv').
  exists ls', others. by destruct r.
Qed.

Lemma alloc_page_spec s own r s' : holds (km s) own → low_mem (km s) → alloc_page s = (r, s') →
  same_region (km s) (km s') ∧
  match r with
  | Some n => holds (km s') (n :: own) ∧ n ∉ own ∧ ¬ outside (km s) n ∧ page_addr n ∧ s' = zero_frame n (set_km (km s') s)
  | None => holds (km s') own ∧ s' = set_km (km s') s
  end.
Proof.
  intros Ho Hlow. unfold alloc_page. destruct (alloc_zeroed_page (km s)) as [r1 k] eqn:Hal.
  pose proof (alloc_zeroed_region _ _ _ _ Ho Hal) as Hreg. pose proof (holds_zeroed _ _ _ _ Ho Hal) as Ho'.
  destruct r1 as [n|]; intros [= <- <-]; (split; [exact Hreg|]); [|done]. destruct Hreg as [Hb Hp].
  destruct (holds_managed k (n :: own) n Ho' ltac:(apply list_elem_of_here)) as [Hm Ha].
  change (km (zero_frame n (set_km k s))) with k. split_and!; [done| | | |done].
  - apply holds_nodup, list.NoDup_cons in Ho' as [? _]. done.
  - unfold outside in *. by rewrite <- Hb, <- Hp.
  - apply Ha. unfold low_mem in *. by rewrite Hb, Hp.
Qed.

(** ** Address spaces and what a step keeps of them *)

(** Only the frames matter to a walk. *)
Lemma frames_walk s s' t p : frames s' = frames s → descend s' t p = descend s t p ∧ walk s' t p = walk s t p.
Proof. intros Hf. destruct (walk_ext s s' t p) as (? & ? & _); [|done]. intros x _. unfold entry, page_of. by rewrite Hf. Qed.

Record space (own : list Z) (s : pmem) (root : Z) : Prop := {
  sp_tree : tree s root;
  sp_own : ∀ t, reach s root t → t ∈ own ∨ outside (km s) t;
  sp_huge : ∀ p t i, descend s root p = Some t → huge (entry s t i) = true →
    (length p = 1%nat → huge_ok (entry s t i) 30) ∧ (length p = 2%nat → huge_ok (entry s t i) 21);
}.

Definition mem_ok (own : list Z) (s : pmem) : Prop := holds (km s) own ∧ low_mem (km s).

(** A step on the tables of [root] that changes no translation: it may take
    pages, and writes to its own tables only. *)
Record kept (own : list Z) (s : pmem) (root : Z) (own' : list Z) (s' : pmem) : Prop := {
  kp_mem : mem_ok own' s';
  kp_space : space own' s' root;
  kp_region : same_region (km s) (km s');
  kp_own : own ⊆ own';
  kp_xlate : ∀ v, xlate s' root v = xlate s root v;
  kp_refc : page_refc s' = page_refc s;
  kp_frame : ∀ t, t ∈ own ∨ outside (km s) t → ¬ reach s root t → page_of s' t = page_of s t;
  kp_reach : ∀ t, reach s' root t → reach s root t ∨ (t ∉ own ∧ ¬ outside (km s) t);
  kp_leaf : ∀ q pt, length q = 3%nat → descend s root q = Some pt → descend s' root q = Some pt ∧ ∀ i, entry s' pt i = entry s pt i;
}.

Lemma outside_region k k' t : same_region k k' → outside k' t ↔ outside k t.
Proof. unfold outside. by intros [-> ->]. Qed.

Lemma low_region k k' : same_region k k' → low_mem k' ↔ low_mem k.
Proof. unfold low_mem. by intros [-> ->]. Qed.

Lemma space_km own k s root : same_region (km s) k → space own s root → space own (set_km k s) root.
Proof.
  intros Hr [Ht Ho Hh].
  assert (∀ p, descend (set_km k s) root p = descend s root p) as Hd by (intros; by apply frames_walk).
  split.
  - split; [intros p q t ? ?; rewrite !Hd; by apply Ht|apply Ht].
  - intros t (p & Hl & Hp). rewrite Hd in Hp. cbn [km set_km]. rewrite outside_region by done. apply Ho. by exists p.
  - intros p t i. rewrite Hd. apply Hh.
Qed.

Lemma xlate_frames s s' root v : frames s' = frames s → xlate s' root v = xlate s root v.
Proof. intros Hf. unfold xlate. by rewrite (proj2 (frames_walk s s' root (path v) Hf)). Qed.

Lemma reach_frames s s' root t : frames s' = frames s → reach s' root t ↔ reach s root t.
Proof. intros Hf. unfold reach. split; intros (p & ? & Hp); exists p; (split; [done|]); by rewrite <- Hp, (proj1 (frames_walk s s' root p Hf)). Qed.

Lemma kept_km own own' k s root :
  holds k own' → low_mem (km s) → same_region (km s) k → own ⊆ own' → space own s root → kept own s root own' (set_km k s).
Proof.
  intros Hh Hlow Hr Hsub Hsp. split; try done.
  - split; [done|]. by apply (low_region (km s)).
  - destruct (space_km own k s root Hr Hsp) as [H1 H2 H3]. split; [done| |done]. intros t Ht. destruct (H2 t Ht); [left; by apply Hsub|by right].
  - intros t Ht. left. by apply (reach_frames s) in Ht.
  - intros q pt _ Hq. split; [|done]. rewrite <- Hq. by apply frames_walk.
Qed.

Lemma kept_trans own s root own1 s1 own2 s2 :
  kept own s root own1 s1 → kept own1 s1 root own2 s2 → kept own s root own2 s2.
Proof.
  intros [A1 A2 A3 A4 A5 A6 A7 A8 A9] [B1 B2 B3 B4 B5 B6 B7 B8 B9].
  assert (∀ t, outside (km s1) t ↔ outside (km s) t) as Hout by (intros; by apply outside_region).
  split; try done.
  - destruct A3, B3. split; congruence.
  - by etrans.
  - intros v. by rewrite B5.
  - congruence.
  - intros t Ht Hn. rewrite <- (A7 t Ht Hn). apply B7; [rewrite Hout; set_solver|].
    intros Hr%A8. destruct Hr as [|[? ?]]; [done|]. by destruct Ht.
  - intros t Ht. destruct (B8 t Ht) as [Hr|[Hn Ho]]; [by apply A8|]. right. rewrite Hout in Ho. split; [|done]. set_solver.
  - intros q pt Hl Hq. destruct (A9 q pt Hl Hq) as [Hq1 He1]. destruct (B9 q pt Hl Hq1) as [Hq2 He2]. split; [done|]. intros i. by rewrite He2.
Qed.

Lemma set_page_twice n f g s : set_page n f (set_page n g s) = set_page n f s.
Proof. unfold set_page, set_frames. cbn. by rewrite insert_insert_eq. Qed.

Lemma new_table_kept own s root p t i f fl r s' :
  mem_ok own s → space own s root → descend s root p = Some t → (length p ≤ 2)%nat → is_ptr (entry s t i) = false →
  addr_of fl = 0 → is_ptr fl = true → (length p = 2%nat ∨ ∀ j, is_ptr (getd 0 f j) = false) →
  (∀ j, 0 ≤ j < 512 → present (getd 0 f j) = present (entry s t i) ∧
     (present (entry s t i) = true → addr_of (getd 0 f j) = Z.lor (addr_of (entry s t i)) (Z.shiftl j (12 + 9 * (2 - Z.of_nat (length p)))))) →
  (length p = 0%nat → ∀ j, huge (getd 0 f j) = false) →
  (length p = 1%nat → ∀ j, huge (getd 0 f j) = true → huge_ok (getd 0 f j) 21) →
  new_table t i f fl s = (r, s') →
  ∃ own', kept own s root own' s' ∧ match r with Some n => descend s' root (p ++ [i]) = Some n | None => True end.
Proof.
  intros [Hh Hlow] Hsp Hp Hl Hold Hfl Hptr Hf Hw H0 H1. unfold new_table.
  destruct (alloc_page s) as [r1 s1] eqn:Hal. destruct (alloc_page_spec s own r1 s1 Hh Hlow Hal) as [Hreg Hr1].
  destruct r1 as [n|].
  2: { intros [= <- <-]. exists own. split; [|done]. destruct Hr1 as [Hh' ->]. by apply kept_km. }
  destruct Hr1 as (Hh' & Hno & Hnout & Hpa & Hs1). intros [= <- <-].
  destruct (ptr_entry n fl Hpa Hfl Hptr) as [Hip Hia]. set (k := km s1) in *. exists (n :: own).
  rewrite Hs1. unfold zero_frame. rewrite set_page_twice. set (s0 := set_km k s).
  assert (space own s0 root) as Hsp0 by (by apply space_km).
  assert (∀ q, descend s0 root q = descend s root q) as Hd by (intros; by apply frames_walk).
  assert (¬ reach s root n) as Hnr by (intros [?|?]%(sp_own _ _ _ Hsp); done).
  assert (¬ reach s0 root n) as Hnr0 by (by rewrite (reach_frames s)).
  assert (tree s0 root) as Ht0 by apply Hsp0.
  rewrite <- Hd in Hp. set (e := Z.lor n fl) in *.
  split; [|by eapply new_below].
  assert (∀ t' i', entry (set_entry t i e (set_page n f s0)) t' i' =
    if decide (t = t' ∧ i = i') then e else if decide (n = t') then getd 0 f i' else entry s t' i') as He by (intros t' i'; exact (new_entry s0 t i n f e t' i')).
  split.
  - split; [done|]. by apply (low_region (km s)).
  - split.
    + by eapply new_tree.
    + intros x Hx. eapply new_reach_inv in Hx; [|done..]. destruct Hx as [->|Hx]; [left; apply list_elem_of_here|].
      destruct (sp_own _ _ _ Hsp0 x Hx); [left; by apply list_elem_of_further|by right].
    + intros q x j Hq Hhg. rewrite He in *. destruct (decide ((length q ≤ 3)%nat)) as [Hq3|]; [|split; intros; lia].
      destruct (new_reach s0 root t i n f e p Ht0 Hp Hl Hold Hnr0 Hip Hia Hf q x Hq3 Hq) as [[-> ->]|[Hq' Hnp]].
      * rewrite length_app. cbn [length]. destruct (decide (t = n ∧ i = j)) as [[-> _]|_].
        { exfalso. apply Hnr0. exists p. split; [lia|done]. }
        rewrite decide_True in * by done. split; intros Hlen.
        -- rewrite H0 in Hhg by lia. done.
        -- apply H1; [lia|done].
      * destruct (decide (t = x ∧ i = j)) as [[<- <-]|Hne].
        { apply andb_prop in Hip as [_ Hip%negb_true_iff]. congruence. }
        assert (n ≠ x) as Hnx by (intros ->; apply Hnr0; by exists q).
        rewrite decide_False in Hhg by done. rewrite decide_False by done. exact (sp_huge _ _ _ Hsp0 q x j Hq' Hhg).
  - done.
  - set_solver.
  - intros v. rewrite (new_xlate s0 root t i n f e p) by done. by apply xlate_frames.
  - done.
  - intros x Hx Hnx. unfold set_entry. rewrite !page_of_set.
    rewrite !decide_False; [done|intros ->; destruct Hx; done|intros ->].
    apply Hnx. rewrite Hd in Hp. exists p. split; [lia|done].
  - intros x Hx. eapply new_reach_inv in Hx; [|done..]. destruct Hx as [->|Hx]; [by right|]. left. by apply (reach_frames s) in Hx.
  - intros q pt Hlq Hq. assert (pt ≠ n) as Hpn by (intros ->; apply Hnr; exists q; split; [lia|done]).
    assert (t ≠ pt) as Htp.
    { intros ->. rewrite Hd in Hp. pose proof (tr_inj _ _ (sp_tree _ _ _ Hsp) p q pt ltac:(lia) ltac:(lia) Hp Hq) as E. rewrite E in Hl. lia. }
    split; [|intros j; rewrite He, !decide_False; [done|congruence|naive_solver]].
    rewrite <- Hq. apply (entry_frame s _ root p t i q (sp_tree _ _ _ Hsp)); [by rewrite <- Hd|lia| |lia|].
    + intros x j Hne Hx. rewrite He, !decide_False; [done|intros ->; done|]. intros [-> ->]. done.
    + intros [r ->]. rewrite <- app_assoc in Hq. rewrite Hd in Hp. rewrite descend_app, Hp in Hq. cbn [app descend] in Hq.
      by rewrite Hold in Hq.
Qed.

Lemma kept_refl own s root : mem_ok own s → space own s root → kept own s root own s.
Proof. intros. split; try done. intros t Ht. by left. Qed.

(** The next table is there already. *)
Lemma ptr_below s root p t i : descend s root p = Some t → is_ptr (entry s t i) = true →
  descend s root (p ++ [i]) = Some (addr_of (entry s t i)).
Proof. intros Hp Hi. by rewrite (descend_snoc s root p i t Hp), Hi. Qed.

(** Changing the flags of a pointer. *)
Lemma flag_kept own s root p t i e :
  mem_ok own s → space own s root → descend s root p = Some t → (length p ≤ 2)%nat →
  is_ptr (entry s t i) = true → is_ptr e = true → addr_of e = addr_of (entry s t i) →
  kept own s root own (set_entry t i e s).
Proof.
  intros Hm Hsp Hp Hl Ho Hn Ha.
  assert (∀ q, descend (set_entry t i e s) root q = descend s root q) as Hd by (intros q; by apply ptr_frame).
  assert (∀ x, reach (set_entry t i e s) root x ↔ reach s root x) as Hr.
  { intros x. unfold reach. split; intros (q & ? & Hq); exists q; (split; [done|]); by rewrite <- Hq, Hd. }
  assert (huge e = false) as Hhe by (by apply andb_prop in Hn as [_ ?%negb_true_iff]).
  split; try done.
  - split.
    + split; [intros q1 q2 x ? ?; rewrite !Hd; by apply Hsp|].
      intros j. rewrite entry_set. case_decide; [done|]. by apply Hsp.
    + intros x Hx. apply Hr in Hx. by apply (sp_own _ _ _ Hsp).
    + intros q x j. rewrite Hd, entry_set. case_decide; [congruence|]. by apply Hsp.
  - intros v. unfold xlate. destruct (ptr_frame s t i e root (path v) Ho Hn Ha) as [_ ->]; [done|].
    intros q Hq Hqt. assert (length (path v) = 4%nat) as H4 by done. rewrite Hq, length_app in H4. cbn in H4.
    pose proof (tr_inj _ _ (sp_tree _ _ _ Hsp) q p t ltac:(lia) ltac:(lia) Hqt Hp) as ->. lia.
  - intros x _ Hx. unfold set_entry. rewrite page_of_set, decide_False; [done|]. intros ->. apply Hx. exists p. split; [lia|done].
  - intros x Hx. left. by apply Hr.
  - intros q pt Hlq Hq. split; [by rewrite Hd|]. intros j. rewrite entry_set, decide_False; [done|]. intros [-> _].
    pose proof (tr_inj _ _ (sp_tree _ _ _ Hsp) q p pt ltac:(lia) ltac:(lia) Hq Hp) as E. rewrite <- E in Hl. lia.
Qed.

Lemma table_flags : addr_of TABLE_FLAGS = 0 ∧ is_ptr TABLE_FLAGS = true.
Proof. done. Qed.

(** One level of [map_into]: afterwards the path leads to the table. *)
Definition level_ok own s root q (r : option Z) s' : Prop :=
  ∃ own', kept own s root own' s' ∧ match r with Some t => descend s' root q = Some t | None => True end.

Lemma into_pdpt_kept own s root v r s' :
  mem_ok own s → space own s root → into_pdpt root v s = (r, s') → level_ok own s root [vpn 39 v] r s'.
Proof.
  intros Hm Hsp. unfold into_pdpt. pose proof (tr_top _ _ (sp_tree _ _ _ Hsp) (vpn 39 v)) as Hh.
  destruct (present (entry s root (vpn 39 v))) eqn:Hpr.
  - intros [= <- <-]. exists own. split; [by apply kept_refl|]. apply (ptr_below s root [] root); [done|]. unfold is_ptr. by rewrite Hpr, Hh.
  - intros Hrun. apply (new_table_kept own s root [] root (vpn 39 v) ∅ TABLE_FLAGS r s'); try done; cbn [length]; try lia.
    + unfold is_ptr. by rewrite Hpr.
    + right. intros j. by rewrite empty_get.
    + intros j _. rewrite empty_get, Hpr. done.
Qed.

Lemma split_1g_ok e j : huge_ok e 30 → huge_ok (getd 0 (split_1g e) j) 21.
Proof.
  intros He. destruct (decide (0 ≤ j < 512)) as [Hj|Hj].
  2: { unfold split_1g. rewrite fill_out by done. split; [lia|]. intros. by rewrite Z.bits_0. }
  split.
  - unfold split_1g. rewrite fill_get by done. destruct He as [He _].
    assert (∀ z, 0 ≤ z → (∀ i, 64 ≤ i → Z.testbit z i = false) → 0 ≤ z < 2 ^ 64) as Hword.
    { intros z Hz Hb. split; [done|]. destruct (decide (z < 2 ^ 64)); [done|]. exfalso.
      assert (64 ≤ Z.log2 z) as Hlog by (apply Z.log2_le_pow2; lia). specialize (Hb (Z.log2 z) Hlog). rewrite Z.bit_log2 in Hb by lia. done. }
    apply Hword.
    + apply Z.lor_nonneg. split; [apply w64_bound|]. apply Z.ldiff_nonneg. left. apply Z.lor_nonneg. split; [|done].
      apply Z.ldiff_nonneg. lia.
    + intros i Hi. rewrite Z.lor_spec, Z.ldiff_spec, Z.lor_spec, flags_of_bit by lia. rewrite (word_bit e) by (done || lia).
      rewrite word_bit by (apply w64_bound || done). change PTE_HUGE with (2 ^ 7). rewrite Z.pow2_bits_false by lia. done.
  - intros i Hi. destruct (split_1g_entry e j He Hj) as [_ Ha]. apply (f_equal (λ z, Z.testbit z i)) in Ha.
    rewrite addr_of_bit, Z.lor_spec, addr_of_bit, Z.shiftl_spec, (Z.testbit_neg_r j (i - 21)) in Ha by lia.
    rewrite bool_decide_true in Ha by lia. rewrite (proj2 He i) in Ha by lia. rewrite !andb_true_r in Ha. done.
Qed.

Lemma into_pd_kept own s root v pdpt r s' :
  mem_ok own s → space own s root → descend s root [vpn 39 v] = Some pdpt → into_pd pdpt v s = (r, s') →
  level_ok own s root [vpn 39 v; vpn 30 v] r s'.
Proof.
  intros Hm Hsp Hp. unfold into_pd. set (e := entry s pdpt (vpn 30 v)).
  destruct (present e && negb (huge e)) eqn:Hptr.
  - intros [= <- <-]. exists own. split; [by apply kept_refl|]. exact (ptr_below s root [vpn 39 v] pdpt (vpn 30 v) Hp Hptr).
  - intros Hrun. apply (new_table_kept own s root [vpn 39 v] pdpt (vpn 30 v) (if huge e then split_1g e else ∅) TABLE_FLAGS r s');
      try done; cbn [length]; try lia.
    + right. intros j. destruct (huge e); [apply split_1g_huge|by rewrite empty_get].
    + intros j Hj. fold e. destruct (huge e) eqn:Hh.
      * destruct (split_1g_entry e j) as [H1 H2]; [by apply (sp_huge _ _ _ Hsp [vpn 39 v] pdpt)|done|]. split; [done|]. intros _. exact H2.
      * rewrite empty_get. destruct (present e); done.
    + intros _ j. destruct (huge e) eqn:Hh; [|by rewrite empty_get]. intros _. apply split_1g_ok. by apply (sp_huge _ _ _ Hsp [vpn 39 v] pdpt).
Qed.

Lemma into_pt_kept own s root v pd r s' :
  mem_ok own s → space own s root → descend s root [vpn 39 v; vpn 30 v] = Some pd → into_pt pd v s = (r, s') →
  level_ok own s root [vpn 39 v; vpn 30 v; vpn 21 v] r s'.
Proof.
  intros Hm Hsp Hp. unfold into_pt. set (e := entry s pd (vpn 21 v)).
  destruct (present e && negb (huge e)) eqn:Hptr.
  - intros [= <- <-]. exists own.
    assert (is_ptr (Z.lor e PTE_USER) = true ∧ addr_of (Z.lor e PTE_USER) = addr_of e) as [H1 H2].
    { unfold is_ptr in *. rewrite present_lor, huge_lor, addr_of_lor, Z.lor_0_r, !orb_false_r. done. }
    split; [by apply (flag_kept own s root [vpn 39 v; vpn 30 v] pd)|].
    rewrite (proj1 (ptr_frame s pd (vpn 21 v) (Z.lor e PTE_USER) root _ Hptr H1 H2)).
    exact (ptr_below s root [vpn 39 v; vpn 30 v] pd (vpn 21 v) Hp Hptr).
  - intros Hrun. apply (new_table_kept own s root [vpn 39 v; vpn 30 v] pd (vpn 21 v) (if huge e then split_2m e else ∅) TABLE_FLAGS r s');
      try done; cbn [length]; try lia.
    intros j Hj. fold e. destruct (huge e) eqn:Hh.
    + destruct (split_2m_entry e j) as [H1 H2]; [by apply (sp_huge _ _ _ Hsp [vpn 39 v; vpn 30 v] pd)|done|]. split; [done|]. intros _. exact H2.
    + rewrite empty_get. destruct (present e); done.
Qed.

(** ** The leaf *)

(** Writing an entry of a page table: the translation of one page. *)
Lemma leaf_set own s root v pt w :
  space own s root → descend s root [vpn 39 v; vpn 30 v; vpn 21 v] = Some pt →
  let s' := set_entry pt (vpn 12 v) w s in
  space own s' root ∧ descend s' root [vpn 39 v; vpn 30 v; vpn 21 v] = Some pt ∧
  (∀ q, length q = 4%nat → q ≠ path v → walk s' root q = walk s root q) ∧
  (∀ q, (length q ≤ 3)%nat → descend s' root q = descend s root q).
Proof.
  intros Hsp Hpt s'. pose proof (sp_tree _ _ _ Hsp) as Ht. set (p := [vpn 39 v; vpn 30 v; vpn 21 v]) in *.
  assert (∀ q, (length q ≤ 4)%nat → ¬ (p ++ [vpn 12 v]) `prefix_of` q →
    descend s' root q = descend s root q ∧ walk s' root q = walk s root q) as Hfr.
  { intros q Hq Hnp. apply (entry_frame s s' root p pt (vpn 12 v)); [done|done|cbn; lia| |done|done].
    intros t i Hne _. unfold s'. rewrite entry_set, decide_False; [done|]. naive_solver. }
  assert (∀ q, (length q ≤ 3)%nat → descend s' root q = descend s root q) as Hd.
  { intros q Hq. apply Hfr; [lia|]. intros Hp%prefix_length. cbn in Hp. lia. }
  assert (∀ t, reach s' root t ↔ reach s root t) as Hr.
  { intros t. split; intros (q & Hq & Hx); exists q; (split; [done|]); by rewrite <- Hx, Hd. }
  split_and!; [|by rewrite Hd by (cbn; lia)| |done].
  - split; [by eapply tree_set_entry| |].
    + intros t Ht'. by apply (sp_own _ _ _ Hsp), Hr.
    + intros q t i Hq Hh. destruct (decide ((length q ≤ 2)%nat)); [|split; intros; lia].
      rewrite Hd in Hq by lia. unfold s' in *. rewrite entry_set, decide_False in *; [by apply (sp_huge _ _ _ Hsp q)|..];
        intros [-> _]; pose proof (tr_inj _ _ Ht p q t ltac:(cbn; lia) ltac:(lia) Hpt Hq) as <-; cbn in *; lia.
  - intros q Hq Hne. apply Hfr; [lia|]. intros [r ->]. destruct r; [|cbn in Hq; lia]. apply Hne. done.
Qed.

(** When three pointers lead to a page table, the kernel's walk ends there. *)
Lemma walk_pt_descend s root v pt :
  descend s root [vpn 39 v; vpn 30 v; vpn 21 v] = Some pt →
  ∃ pd pde, walk_pt s root v = Some (pd, pde, pt) ∧ huge pde = false.
Proof.
  cbn [descend]. unfold walk_pt, is_ptr.
  destruct (present (entry s root _)); [|done]. destruct (huge (entry s root _)); [done|]. cbn [andb negb].
  destruct (present (entry s (addr_of (entry s root _)) _)); [|done]. destruct (huge (entry s (addr_of (entry s root _)) _)); [done|]. cbn [andb negb].
  set (pd := addr_of (entry s (addr_of _) _)). destruct (present (entry s pd _)); [|done]. destruct (huge (entry s pd _)) eqn:Hh; [done|].
  cbn [andb negb]. intros [= <-]. by exists pd, (entry s pd (vpn 21 v)).
Qed.

Lemma leaf_others own s root v pt w v' :
  space own s root → descend s root [vpn 39 v; vpn 30 v; vpn 21 v] = Some pt → path v' ≠ path v →
  xlate (set_entry pt (vpn 12 v) w s) root v' = xlate s root v'.
Proof. intros Hsp Hpt Hne. destruct (leaf_set own s root v pt w Hsp Hpt) as (_ & _ & L3 & _). unfold xlate. by rewrite L3. Qed.

Lemma leaf_resolve s root v pt :
  descend s root [vpn 39 v; vpn 30 v; vpn 21 v] = Some pt →
  resolve_phys_flags s root v =
    let w := entry s pt (vpn 12 v) in
    if present w then Some (Z.lor (addr_of w) (Z.land v 0xFFF), w) else None.
Proof.
  intros Hpt. destruct (walk_pt_descend s root v pt Hpt) as (pd & pde & Hw & Hh). unfold resolve_phys_flags.
  rewrite Hw, Hh. cbv zeta. by destruct (present _).
Qed.

Lemma leaf_xlate s root v pt :
  descend s root [vpn 39 v; vpn 30 v; vpn 21 v] = Some pt →
  xlate s root v = let w := entry s pt (vpn 12 v) in
    if present w then Some (Z.lor (addr_of w) (Z.land v 0xFFF)) else None.
Proof.
  intros Hpt. unfold xlate. change (path v) with ([vpn 39 v; vpn 30 v; vpn 21 v] ++ [vpn 12 v]).
  rewrite (walk_app s root _ pt _ _ Hpt). cbn [walk]. by destruct (present (entry s pt (vpn 12 v))).
Qed.

(** ** Mapping where all tables exist *)

Lemma page_vpn sh v : 12 ≤ sh → vpn sh (Z.ldiff v 0xFFF) = vpn sh v.
Proof.
  intros Hs. unfold vpn. f_equal. change 0xFFF with (Z.ones 12). rewrite Z.ldiff_ones_r by lia.
  rewrite Z.shiftr_shiftl_r by lia. rewrite Z.shiftr_shiftr by lia. f_equal. lia.
Qed.

(** Flags of a pointer are no part of the tree. *)
Lemma tree_ptr s root t i e :
  tree s root → is_ptr (entry s t i) = true → is_ptr e = true → addr_of e = addr_of (entry s t i) → tree (set_entry t i e s) root.
Proof.
  intros Ht Ho Hn Ha. assert (∀ q, descend (set_entry t i e s) root q = descend s root q) as Hd by (intros q; by apply ptr_frame).
  split; [intros p q x ? ?; rewrite !Hd; by apply Ht|]. intros j. rewrite entry_set. case_decide; [|apply Ht].
  by apply andb_prop in Hn as [_ ?%negb_true_iff].
Qed.

Lemma map_into_existing s root v phys flags pt :
  descend s root [vpn 39 v; vpn 30 v; vpn 21 v] = Some pt →
  ∃ pd, let e := entry s pd (vpn 21 v) in
    is_ptr e = true ∧ is_ptr (Z.lor e PTE_USER) = true ∧ addr_of (Z.lor e PTE_USER) = addr_of e ∧
    map_into root v phys flags s =
      (Ok tt, set_entry pt (vpn 12 v) (Z.lor phys (Z.lor flags PTE_PRESENT)) (set_entry pd (vpn 21 v) (Z.lor e PTE_USER) s)).
Proof.
  cbn [descend]. unfold map_into, into_pdpt, into_pd, into_pt, is_ptr. set (e1 := entry s root _).
  destruct (present e1); [|done]. destruct (huge e1); [done|]. cbn [andb negb]. set (e2 := entry s (addr_of e1) _).
  destruct (present e2); [|done]. destruct (huge e2); [done|]. cbn [andb negb]. set (pd := addr_of e2). set (e3 := entry s pd _).
  destruct (present e3) eqn:Hp; [|done]. destruct (huge e3) eqn:Hh; [done|]. cbn [andb negb]. intros [= <-]. exists pd. fold e3.
  rewrite Hp, Hh, present_lor, huge_lor, addr_of_lor, Hp, Hh. split_and!; try done. by rewrite Z.lor_0_r.
Qed.

(** Every space that leads to the page table sees the new entry. *)
Lemma map_into_seen s root r v phys flags pt :
  tree s r → descend s root [vpn 39 v; vpn 30 v; vpn 21 v] = Some pt → descend s r [vpn 39 v; vpn 30 v; vpn 21 v] = Some pt →
  ∃ s', map_into root v phys flags s = (Ok tt, s') ∧ walk s' r (path v) = Some (Z.lor phys (Z.lor flags PTE_PRESENT), []).
Proof.
  intros Ht Hroot Hr. destruct (map_into_existing s root v phys flags pt Hroot) as (pd & He & Hn & Ha & ->). eexists. split; [done|].
  set (s1 := set_entry pd _ _ s). assert (tree s1 r) as Ht1 by (by apply tree_ptr).
  assert (descend s1 r [vpn 39 v; vpn 30 v; vpn 21 v] = Some pt) as Hd1 by (rewrite <- Hr; by apply ptr_frame).
  set (w := Z.lor phys _). set (s2 := set_entry pt _ w s1).
  assert (descend s2 r [vpn 39 v; vpn 30 v; vpn 21 v] = Some pt) as Hd2.
  { rewrite <- Hd1. apply (entry_frame s1 s2 r [vpn 39 v; vpn 30 v; vpn 21 v] pt (vpn 12 v)); [done|done|cbn; lia| |cbn; lia|].
    - intros t i Hne _. unfold s2. rewrite entry_set, decide_False; [done|]. naive_solver.
    - intros Hp%prefix_length. cbn in Hp. lia. }
  change (path v) with ([vpn 39 v; vpn 30 v; vpn 21 v] ++ [vpn 12 v]). rewrite (walk_app s2 r _ pt _ _ Hd2). cbn [walk].
  unfold s2. rewrite entry_set, decide_True by done. unfold w. rewrite !present_lor. change (present PTE_PRESENT) with true. by rewrite !orb_true_r.
Qed.

Lemma alloc_fresh k own phys k' : holds k own → alloc 0 k = (Some phys, k') → phys ∉ own ∧ ¬ outside k phys.
Proof.
  intros Hh Hal. assert (BuddyPages.alloc_page k = (Some phys, zero_page phys k')) as Hpa by (unfold BuddyPages.alloc_page; by rewrite Hal).
  pose proof (holds_alloc k own _ _ Hh Hpa) as H1. pose proof (holds_nodup _ _ H1) as [Hn _]%list.NoDup_cons. split; [done|].
  destruct (holds_managed _ _ phys H1 ltac:(apply list_elem_of_here)) as [Ho _]. destruct Hh as (ls & others & Hinv).
  destruct (alloc_spec 0 k ls _ k' (ai_wf _ _ _ Hinv) Hal) as (ls' & _ & Hrest & _). unfold rest in Hrest. injection Hrest as Hb Hp _ _ _ _ _ _ _ _ _.
  rewrite <- (outside_region k (zero_page phys k')); [done|]. by split.
Qed.

(** ** [map_into] *)

(** The entry [w] of a page table is the leaf of the page of [v]. *)
Definition mapped (s : pmem) (root v w : Z) : Prop :=
  ∃ pt, descend s root [vpn 39 v; vpn 30 v; vpn 21 v] = Some pt ∧ entry s pt (vpn 12 v) = w.

Lemma kept_mapped own s root own' s' v w : kept own s root own' s' → mapped s root v w → mapped s' root v w.
Proof. intros K (pt & Hd & He). destruct (kp_leaf _ _ _ _ _ K [vpn 39 v; vpn 30 v; vpn 21 v] pt eq_refl Hd) as [Hd' He']. exists pt. by rewrite He'. Qed.

(** Everything a call does: the leaf of the page, the translations and leaves
    of the others, the tables and the pages that are none. *)
Lemma map_into_spec own s root v phys flags :
  mem_ok own s → space own s root →
  let '(r, s') := map_into root v phys flags s in
  ∃ own', mem_ok own' s' ∧ space own' s' root ∧ same_region (km s) (km s') ∧ own ⊆ own' ∧ page_refc s' = page_refc s ∧
    (∀ t, t ∈ own ∨ outside (km s) t → ¬ reach s root t → page_of s' t = page_of s t) ∧
    (∀ t, reach s' root t → reach s root t ∨ (t ∉ own ∧ ¬ outside (km s) t)) ∧
    (∀ v' w, path v' ≠ path v → mapped s root v' w → mapped s' root v' w) ∧
    match r with
    | Ok _ => mapped s' root v (Z.lor phys (Z.lor flags PTE_PRESENT)) ∧ ∀ v', path v' ≠ path v → xlate s' root v' = xlate s root v'
    | Err _ => ∀ v', xlate s' root v' = xlate s root v'
    end.
Proof.
  intros Hm Hsp. unfold map_into.
  destruct (into_pdpt root v s) as [[pdpt|] s1] eqn:H1; destruct (into_pdpt_kept own s root v _ s1 Hm Hsp H1) as (o1 & K1 & D1).
  2: { exists o1. pose proof (λ v' w, kept_mapped _ _ _ _ _ v' w K1) as Hk. destruct K1. split_and!; try done. intros v' w _. apply Hk. }
  destruct (into_pd pdpt v s1) as [[pd|] s2] eqn:H2; destruct (into_pd_kept o1 s1 root v pdpt _ s2 (kp_mem _ _ _ _ _ K1) (kp_space _ _ _ _ _ K1) D1 H2) as (o2 & K2' & D2);
    pose proof (kept_trans _ _ _ _ _ _ _ K1 K2') as K2; clear K1 K2'.
  2: { exists o2. pose proof (λ v' w, kept_mapped _ _ _ _ _ v' w K2) as Hk. destruct K2. split_and!; try done. intros v' w _. apply Hk. }
  destruct (into_pt pd v s2) as [[pt|] s3] eqn:H3; destruct (into_pt_kept o2 s2 root v pd _ s3 (kp_mem _ _ _ _ _ K2) (kp_space _ _ _ _ _ K2) D2 H3) as (o3 & K3' & D3);
    pose proof (kept_trans _ _ _ _ _ _ _ K2 K3') as K3; clear K2 K3'; pose proof (λ v' w, kept_mapped _ _ _ _ _ v' w K3) as Hk; destruct K3 as [A1 A2 A3 A4 A5 A6 A7 A8 A9].
  2: { exists o3. split_and!; try done. intros v' w _. apply Hk. }
  exists o3. set (w := Z.lor phys (Z.lor flags PTE_PRESENT)).
  destruct (leaf_set o3 s3 root v pt w A2 D3) as (L1 & L2 & L3 & L4).
  split; [exact A1|]. split; [exact L1|]. split; [exact A3|]. split; [exact A4|]. split; [exact A6|]. split_and!.
  - intros t Ht Hr. rewrite <- (A7 t Ht Hr). unfold set_entry. rewrite page_of_set, decide_False; [done|]. intros ->.
    destruct (A8 t) as [?|[? ?]]; [eexists; split; [|exact D3]; cbn; lia|done|by destruct Ht].
  - intros t (q & Hq & Hd). apply A8. exists q. split; [done|]. by rewrite <- Hd, L4.
  - intros v' w' Hne Hmap. destruct (Hk v' w' Hmap) as (pt' & Hd & He). exists pt'. split; [by rewrite (L4 [vpn 39 v'; vpn 30 v'; vpn 21 v'] (Nat.le_refl 3))|].
    rewrite entry_set, decide_False; [done|]. intros [<- Hi]. apply Hne.
    pose proof (tr_inj _ _ (sp_tree _ _ _ A2) [vpn 39 v'; vpn 30 v'; vpn 21 v'] [vpn 39 v; vpn 30 v; vpn 21 v] pt (Nat.le_refl 3) (Nat.le_refl 3) Hd D3) as [= E1 E2 E3]. unfold path. congruence.
  - exists pt. split; [done|]. by rewrite entry_set, decide_True.
  - intros v' Hne. rewrite (leaf_others o3) by done. apply A5.
Qed.

(** What the hardware and the kernel see of a mapped page. *)
Lemma mapped_seen s root v w : mapped s root v w → present w = true →
  xlate s root v = Some (Z.lor (addr_of w) (Z.land v 0xFFF)) ∧ resolve_phys_flags s root v = Some (Z.lor (addr_of w) (Z.land v 0xFFF), w).
Proof. intros (pt & Hd & He) Hw. rewrite (leaf_xlate _ _ _ _ Hd), (leaf_resolve _ _ _ _ Hd), He. cbv zeta. by rewrite Hw. Qed.
