(* ===== verification/PagingCow.v ===== *)
(** * Sharing and copying of tables

    Address spaces that were forked from each other share tables, counted by
    [pte_refcs], and data pages, counted by [PAGE_REFC].  [cow_walk_pte] gives
    the faulting space tables of its own on one path, without changing what
    any space sees. *)

From S2P Require Import Prelude Buddy BuddyInv BuddyOps BuddyTables BuddySpec PageAlloc BuddyPages VfsTypes Vma Paging PagingWalk PagingMap.
From stdpp Require Import base gmap numbers sets strings list.
Local Open Scope Z_scope.

(** ** Reference counts of table pages *)

Lemma page_addr_divide p : page_addr p → (4096 | p).
Proof.
  intros Hp. apply Z.mod_divide; [lia|]. change 4096 with (2 ^ 12). rewrite <- Z.land_ones by lia.
  by apply page_addr_flags.
Qed.

Lemma holds_base k l : holds k l → 0 < base (al k) ∧ (4096 | base (al k)) ∧ base (al k) + pages (al k) * 4096 ≤ 2 ^ 62.
Proof. intros (ls & others & Hinv). by destruct (wf_region _ _ (ai_wf _ _ _ Hinv)) as (? & ? & ? & ?). Qed.

(** Two counted pages have different slots. *)
Lemma idx_inj k l a t :
  holds k l → page_addr a → page_addr t → phys_to_idx k t <? Buddy.MAX_REFC_PAGES = true →
  phys_to_idx k a = phys_to_idx k t → a = t.
Proof.
  intros Hh Ha Ht Hm Heq. destruct (holds_base k l Hh) as (_ & [b Hb] & _).
  apply page_addr_divide in Ha as [x ->], Ht as [y ->]. unfold phys_to_idx in *. rewrite Hb in *.
  assert (U64_MAX <? Buddy.MAX_REFC_PAGES = false) as Hbig by done.
  destruct (y * 4096 <? b * 4096) eqn:H1; [congruence|]. destruct (x * 4096 <? b * 4096) eqn:H2; [congruence|].
  rewrite !Z.shiftr_div_pow2 in Heq by lia. change (2 ^ 12) with 4096 in Heq.
  rewrite <- !Z.mul_sub_distr_r, !Z.div_mul in Heq by lia. lia.
Qed.

Lemma inc_refcs a k i : i ≠ phys_to_idx k a → getd 0 (pte_refcs (pte_refc_inc a k)) i = getd 0 (pte_refcs k) i.
Proof. intros Hi. unfold pte_refc_inc. case_match; [|done]. cbn. by rewrite getd_insert_ne. Qed.

Lemma refc_dec_get k l c t : holds k l → page_addr c → page_addr t → 0 < pte_refc_get k c →
  pte_refc_get (pte_refc_dec c k).2 t = if decide (c = t) then pte_refc_get k c - 1 else pte_refc_get k t.
Proof.
  intros Hh Hc Ht Hpos. unfold pte_refc_dec. unfold pte_refc_get in Hpos at 1.
  destruct (phys_to_idx k c <? Buddy.MAX_REFC_PAGES) eqn:Hm; [|lia]. cbn [snd].
  rewrite (proj2 (Z.ltb_lt 0 _) Hpos). unfold pte_refc_get.
  change (phys_to_idx (set_refcs _ k) t) with (phys_to_idx k t). cbn [pte_refcs set_refcs].
  destruct (decide (c = t)) as [<-|Hne].
  - by rewrite Hm, getd_insert_eq.
  - destruct (phys_to_idx k t <? Buddy.MAX_REFC_PAGES) eqn:Hmt; [|done].
    rewrite getd_insert_ne; [done|]. intros Heq. by apply Hne, (idx_inj k l).
Qed.

Lemma holds_refc_dec k l c : holds k l → holds (pte_refc_dec c k).2 l.
Proof. intros (ls & others & Hinv). exists ls, others. by apply refc_dec_ainv. Qed.

Lemma refc_dec_region k c : same_region k (pte_refc_dec c k).2.
Proof. unfold pte_refc_dec. by destruct (phys_to_idx k c <? Buddy.MAX_REFC_PAGES). Qed.

Lemma refc_eq k k' t : same_region k k' → pte_refcs k' = pte_refcs k → pte_refc_get k' t = pte_refc_get k t.
Proof. intros [Hb _] Hr. unfold pte_refc_get, phys_to_idx. by rewrite Hb, Hr. Qed.

(** Handing out a table page touches the count of that page only. *)
Lemma alloc_zeroed_refcs k l n k' i : holds k l → alloc_zeroed_page k = (Some n, k') → i ≠ phys_to_idx k n →
  getd 0 (pte_refcs k') i = getd 0 (pte_refcs k) i.
Proof.
  intros (ls & others & Hinv). pose proof Hinv as [Hwf _ Hq _ Hok _ _ _ _]. unfold alloc_zeroed_page.
  assert (q_pages_ok k) as Hqp.
  { intros a Ha. apply (Hok (a, 0%nat)). unfold held. apply elem_of_app. right. apply list_elem_of_fmap. by exists a. }
  destruct (q_pop k) as [r1 k1] eqn:Hpop.
  destruct (q_pop_refines k r1 k1 (wf_region _ _ Hwf) Hq Hqp Hpop) as [_ Hk1]. destruct r1 as [a|].
  - destruct Hk1 as [_ Hk1]. intros [= <- <-] Hi.
    assert (∀ j x, pte_refcs (used_mark j x) = pte_refcs x) as E1 by (intros; unfold used_mark; by repeat case_match).
    assert (∀ x, pte_refcs (untrack_freed_page a x) = pte_refcs x) as E2 by (intros; unfold untrack_freed_page; by repeat case_match).
    assert (∀ x, pte_refcs (page_type_set a PAGE_TYPE_PTE x) = pte_refcs x ∧ base (al (page_type_set a PAGE_TYPE_PTE x)) = base (al x)) as E3
      by (intros; unfold page_type_set; by repeat case_match).
    assert (base (al k1) = base (al k)) as Hb by (rewrite Hk1; unfold pte_refc_inc; by case_match).
    rewrite E1, E2, inc_refcs.
    + rewrite (proj1 (E3 _)). change (pte_refcs (zero_page a k1)) with (pte_refcs k1). rewrite Hk1. by rewrite inc_refcs.
    + unfold phys_to_idx in *. rewrite (proj2 (E3 _)). change (al (zero_page a k1)) with (al k1). by rewrite Hb.
  - destruct Hk1 as [_ ->]. destruct (alloc_nolock 0 k) as [r2 k2] eqn:Hal.
    destruct (alloc_spec 0 k ls r2 k2 Hwf Hal) as (ls' & _ & Hrest & _). unfold rest in Hrest. injection Hrest as Hb _ _ _ Hrc _ _ _ _ _ _.
    destruct r2 as [a|]; intros [= <- <-] Hi.
    rewrite inc_refcs; unfold page_type_set; case_match; cbn; rewrite ?Hrc; try done; unfold phys_to_idx in *; cbn; by rewrite Hb.
Qed.

Lemma alloc_page_refc s own n s' t : holds (km s) own → low_mem (km s) → alloc_page s = (Some n, s') → page_addr t → t ≠ n →
  pte_refc_get (km s') t = pte_refc_get (km s) t.
Proof.
  intros Hh Hlow Hal Ht Hne. destruct (alloc_page_spec s own (Some n) s' Hh Hlow Hal) as ([Hb _] & _ & _ & _ & Hn & _).
  unfold alloc_page in Hal. destruct (alloc_zeroed_page (km s)) as [[n'|] k] eqn:Hz; [|done]. injection Hal as -> <-.
  cbn [km zero_frame set_page set_frames set_km] in *. unfold pte_refc_get.
  assert (phys_to_idx k t = phys_to_idx (km s) t) as -> by (unfold phys_to_idx; by rewrite Hb).
  destruct (phys_to_idx (km s) t <? Buddy.MAX_REFC_PAGES) eqn:Hm; [|done].
  apply (alloc_zeroed_refcs (km s) own n k); [done|done|]. intros Heq. apply Hne. symmetry. by apply (idx_inj (km s) own).
Qed.

(** ** Spaces that share tables *)

(** Paths of the user half. *)
Definition upath (p : list Z) : Prop := match p with [] => True | i :: _ => 0 ≤ i < 256 end.

Definition ureach (s : pmem) (root t : Z) : Prop := ∃ p, upath p ∧ (length p ≤ 3)%nat ∧ descend s root p = Some t.

Lemma ureach_reach s root t : ureach s root t → reach s root t.
Proof. intros (p & _ & ? & ?). by exists p. Qed.

Lemma upath_app p q : upath (p ++ q) → upath p.
Proof. by destruct p. Qed.

(** Only the tables a space reaches matter to it. *)
Lemma reach_frame s s' root p :
  (∀ t i, reach s root t → entry s' t i = entry s t i) → (length p ≤ 4)%nat →
  descend s' root p = descend s root p ∧ walk s' root p = walk s root p.
Proof.
  intros He Hl. destruct (walk_ext s s' root p) as (? & ? & _); [|done].
  intros [t i] Hin. cbn [fst snd]. destruct (reads_descend _ _ _ _ _ Hin) as (q & r & -> & Hq).
  apply He. exists q. rewrite length_app in Hl. cbn in Hl. split; [lia|done].
Qed.

Record tabs_ok (own : list Z) (s : pmem) (roots : list Z) : Prop := {
  to_mem : mem_ok own s;
  to_space : ∀ r, r ∈ roots → space own s r ∧ page_addr r;
  to_root : ∀ r r', r ∈ roots → r' ∈ roots → r' ≠ r → ¬ reach s r' r;
  to_half : ∀ r r' t, r ∈ roots → r' ∈ roots → ureach s r t → reach s r' t → ureach s r' t;
  to_count : ∀ t l, NoDup l → l ⊆ roots → (∀ r, r ∈ l → ureach s r t) → (2 ≤ length l)%nat →
    Z.of_nat (length l) ≤ pte_refc_get (km s) t;
}.

(** Only [r] sees the table. *)
Definition private (s : pmem) (roots : list Z) (r t : Z) : Prop := ∀ r', r' ∈ roots → r' ≠ r → ¬ ureach s r' t.

Lemma reach_page_addr s root t : page_addr root → reach s root t → page_addr t.
Proof.
  intros Hr (p & _ & Hp). destruct p as [|i q _] using rev_ind.
  - by injection Hp as <-.
  - rewrite descend_app in Hp. destruct (descend s root q); [|done]. cbn [descend] in Hp. destruct (is_ptr _); [|done].
    injection Hp as <-. apply page_addr_of.
Qed.

(** What making one table private keeps: everything any space sees, and every
    page that is not a table of [r]. *)
Record stepped (own : list Z) (s : pmem) (roots : list Z) (r : Z) (own' : list Z) (s' : pmem) : Prop := {
  st_tabs : tabs_ok own' s' roots;
  st_region : same_region (km s) (km s');
  st_own : own ⊆ own';
  st_refc : page_refc s' = page_refc s;
  st_walk : ∀ r' q, r' ∈ roots → upath q → length q = 4%nat → walk s' r' q = walk s r' q;
  st_frame : ∀ t, t ∈ own ∨ outside (km s) t → ¬ reach s r t → page_of s' t = page_of s t;
  st_reach : ∀ r' t, r' ∈ roots → reach s' r' t → reach s r' t ∨ (t ∉ own ∧ ¬ outside (km s) t);
}.

Section private_table.
Context (own : list Z) (s : pmem) (roots : list Z) (r : Z) (p : list Z) (t i : Z).
Context (Hok : tabs_ok own s roots) (Hr : r ∈ roots) (Hu : upath (p ++ [i])) (Hl : (length p ≤ 2)%nat).
Context (Hp : descend s r p = Some t) (Hpriv : private s roots r t) (Hptr : is_ptr (entry s t i) = true).

Let e := entry s t i.
Let c := addr_of e.

Lemma below_ureach : ureach s r c.
Proof.
  exists (p ++ [i]). rewrite length_app. cbn [length]. split_and!; [done|lia|].
  by rewrite (descend_snoc s r p i t Hp), Hptr.
Qed.

(** A count of at most one: nobody else has this table. *)
Lemma low_count_private : pte_refc_get (km s) c ≤ 1 → private s roots r c.
Proof.
  intros Hc r' Hr' Hne Hre.
  assert (Z.of_nat (length [r; r']) ≤ pte_refc_get (km s) c) as Hcnt; [|cbn in Hcnt; lia].
  apply (to_count _ _ _ Hok); [|set_solver| |done].
  - apply list.NoDup_cons. split; [set_solver|apply list.NoDup_singleton].
  - intros x Hx. apply elem_of_cons in Hx as [->|Hx%list_elem_of_singleton]; [apply below_ureach|by subst].
Qed.

Context (n : Z) (k : kmem) (Hcnt : 1 < pte_refc_get (km s) c).
Context (Hk : holds k (n :: own)) (Hreg : same_region (km s) k) (Hno : n ∉ own) (Hnout : ¬ outside (km s) n) (Hn : page_addr n).
Context (Hrefc : ∀ x, page_addr x → x ≠ n → pte_refc_get k x = if decide (c = x) then pte_refc_get (km s) c - 1 else pte_refc_get (km s) x).

Let e' := Z.lor n (flags_of e).
Let s' := set_km k (set_entry t i e' (set_page n (page_of s c) s)).

Lemma fresh_unreached r' : r' ∈ roots → ¬ reach s r' n.
Proof. intros Hr' [?|?]%(sp_own _ _ _ (proj1 (to_space _ _ _ Hok r' Hr'))); done. Qed.

Lemma new_ptr : is_ptr e' = true ∧ addr_of e' = n.
Proof.
  unfold e', is_ptr. rewrite present_lor, huge_lor, addr_of_lor, page_addr_present, page_addr_huge by done. cbn [orb].
  rewrite present_bit, huge_bit, !flags_of_bit by lia. rewrite <- present_bit, <- huge_bit, !andb_true_r.
  split; [exact Hptr|]. rewrite Hn. rewrite (low_flags_addr (flags_of e)), Z.lor_0_r; [done|].
  intros j Hj. rewrite flags_of_bit by lia. rewrite bool_decide_true by done. apply andb_false_r.
Qed.

Lemma private_entry x j : x ≠ t → x ≠ n → entry s' x j = entry s x j.
Proof. intros H1 H2. unfold s'. rewrite entry_km, entry_set, decide_False by naive_solver. rewrite entry_set_page. by rewrite decide_False. Qed.

(** The other spaces do not notice. *)
Lemma others_frame r' q : r' ∈ roots → r' ≠ r → (length q ≤ 4)%nat →
  descend s' r' q = descend s r' q ∧ walk s' r' q = walk s r' q.
Proof.
  intros Hr' Hne Hlq. apply reach_frame; [|done]. intros x j Hx. apply private_entry; [intros ->|intros ->].
  - apply (Hpriv r' Hr' Hne), (to_half _ _ _ Hok r r'); try done. exists p. split_and!; [by eapply upath_app|lia|done].
  - by apply (fresh_unreached r' Hr').
Qed.

Lemma own_frame q :
  walk s' r q = walk (set_entry t i e' (set_page n (page_of s c) s)) r q ∧
  descend s' r q = descend (set_entry t i e' (set_page n (page_of s c) s)) r q.
Proof. split; by apply frames_walk. Qed.

Lemma own_descend q x : (length q ≤ 3)%nat → descend s' r q = Some x ↔
  (q = p ++ [i] ∧ x = n) ∨ (q ≠ p ++ [i] ∧ descend s r q = Some x).
Proof.
  intros Hq. pose proof (proj1 (to_space _ _ _ Hok r Hr)) as Hsp. destruct new_ptr as [N1 N2].
  rewrite (proj2 (own_frame q)). destruct (decide (q = p ++ [i])) as [->|Hne].
  - pose proof (moved_here s r t i n e' p (sp_tree _ _ _ Hsp) Hp Hl Hptr (fresh_unreached r Hr) N1 N2) as M.
    fold e in M. fold c in M. rewrite M. naive_solver.
  - pose proof (moved_descend s r t i n e' p (sp_tree _ _ _ Hsp) Hp Hl Hptr (fresh_unreached r Hr) N1 N2 q Hq Hne) as M.
    fold e in M. fold c in M. rewrite M. naive_solver.
Qed.

Lemma own_reach x : reach s' r x → x = n ∨ (reach s r x ∧ x ≠ c).
Proof.
  intros (q & Hq & Hx). apply own_descend in Hx as [[_ ->]|[Hne Hx]]; [by left| |done].
  right. split; [by exists q|]. intros ->. apply Hne. pose proof (proj1 (to_space _ _ _ Hok r Hr)) as Hsp.
  apply (tr_inj _ _ (sp_tree _ _ _ Hsp) q (p ++ [i]) c); [done|rewrite length_app; cbn; lia|done|].
  by rewrite (descend_snoc s r p i t Hp), Hptr.
Qed.

Lemma own_ureach x : ureach s' r x → x = n ∨ (ureach s r x ∧ x ≠ c).
Proof.
  intros (q & Huq & Hq & Hx). destruct (own_reach x) as [?|[Hx' ?]]; [by exists q|by left|].
  right. split; [|done]. apply own_descend in Hx as [[_ ->]|[_ Hx]]; [|by exists q|done]. by destruct (fresh_unreached r Hr Hx').
Qed.

Lemma private_space : space (n :: own) s' r.
Proof.
  pose proof (proj1 (to_space _ _ _ Hok r Hr)) as Hsp. destruct new_ptr as [N1 N2].
  pose proof (moved_tree s r t i n e' p (sp_tree _ _ _ Hsp) Hp Hl Hptr (fresh_unreached r Hr) N1 N2) as M. fold e in M. fold c in M.
  assert (t ≠ n) as Htn by (intros ->; apply (fresh_unreached r Hr); exists p; split; [lia|done]).
  split.
  - split; [|apply M]. intros q1 q2 x H1 H2. rewrite !(proj2 (own_frame _)). by apply M.
  - intros x [->|[Hx _]]%own_reach; [left; apply list_elem_of_here|]. rewrite (outside_region (km s)) by done.
    destruct (sp_own _ _ _ Hsp x Hx); [left; by apply list_elem_of_further|by right].
  - intros q x j Hx Hh. destruct (decide (length q ≤ 3)%nat) as [Hq|]; [|split; intros; lia].
    apply own_descend in Hx as [[-> ->]|[Hne Hx]]; [| |done].
    + assert (entry s' n j = entry s c j) as Hj.
      { unfold s'. rewrite entry_km, entry_set, decide_False by naive_solver. rewrite entry_set_page. by rewrite decide_True. }
      rewrite Hj in *. apply (sp_huge _ _ _ Hsp (p ++ [i]) c); [|done]. by rewrite (descend_snoc s r p i t Hp), Hptr.
    + assert (x ≠ n) as Hxn by (intros ->; apply (fresh_unreached r Hr); by exists q).
      destruct (decide (x = t ∧ i = j)) as [[-> ->]|Hxt].
      * exfalso. unfold s' in Hh. rewrite entry_km, entry_set, decide_True in Hh by done.
        apply andb_prop in N1 as [_ N1%negb_true_iff]. congruence.
      * assert (entry s' x j = entry s x j) as Hj.
        { unfold s'. rewrite entry_km, entry_set, decide_False by naive_solver. rewrite entry_set_page. by rewrite decide_False by done. }
        rewrite Hj in *. by apply (sp_huge _ _ _ Hsp q).
Qed.

Lemma private_tabs : tabs_ok (n :: own) s' roots.
Proof.
  pose proof (proj1 (to_space _ _ _ Hok r Hr)) as Hsp. destruct new_ptr as [N1 N2].
  assert (∀ r' x, r' ∈ roots → r' ≠ r → reach s' r' x ↔ reach s r' x) as Ho.
  { intros r' x Hr' Hne. split; intros (q & Hq & Hx); exists q; (split; [done|]); rewrite <- Hx; [symmetry|]; apply others_frame; done || lia. }
  assert (∀ r' x, r' ∈ roots → r' ≠ r → ureach s' r' x ↔ ureach s r' x) as Hou.
  { intros r' x Hr' Hne. split; intros (q & Huq & Hq & Hx); exists q; (split_and!; [done|done|]); rewrite <- Hx; [symmetry|]; apply others_frame; done || lia. }
  split.
  - split; [done|]. apply (low_region (km s)); [done|]. apply (to_mem _ _ _ Hok).
  - intros r' Hr'. destruct (to_space _ _ _ Hok r' Hr') as [Hsp' Hpa]. split; [|done].
    destruct (decide (r' = r)) as [->|Hne]; [apply (private_space)|]; [].
    split.
    + split; [|intros j; rewrite private_entry; [apply Hsp'|..]].
      * intros q1 q2 x H1 H2. rewrite (proj1 (others_frame r' q1 Hr' Hne ltac:(lia))), (proj1 (others_frame r' q2 Hr' Hne ltac:(lia))). by apply Hsp'.
      * intros Heq. apply (Hpriv r' Hr' Hne). rewrite <- Heq. exists []. split_and!; [done|cbn; lia|done].
      * intros Heq. apply (fresh_unreached r' Hr'). rewrite <- Heq. exists []. split; [cbn; lia|done].
    + intros x Hx. apply Ho in Hx; [|done|done]. rewrite (outside_region (km s)) by done.
      destruct (sp_own _ _ _ Hsp' x Hx); [left; by apply list_elem_of_further|by right].
    + intros q x j Hx Hh. destruct (decide (length q ≤ 3)%nat); [|split; intros; lia].
      rewrite (proj1 (others_frame r' q Hr' Hne ltac:(lia))) in Hx.
      rewrite private_entry in *; [by apply (sp_huge _ _ _ Hsp' q)|..]; intros ->.
      all: try (apply (fresh_unreached r' Hr'); by exists q).
      all: apply (Hpriv r' Hr' Hne), (to_half _ _ _ Hok r r'); try done; [exists p; split_and!; [by eapply upath_app|lia|done]|by exists q].
  - intros r1 r2 H1 H2 Hne Hre. destruct (decide (r2 = r)) as [->|Hr2]; [|by apply Ho, (to_root _ _ _ Hok) in Hre].
    apply own_reach in Hre as [->|[Hre _]]; [|by apply (to_root _ _ _ Hok) in Hre].
    apply (fresh_unreached _ H1). exists []. split; [cbn; lia|done].
  - intros a b x Ha Hb Hua Hrb. destruct (decide (b = r)) as [->|Hbr].
    + destruct (decide (a = r)) as [->|Har]; [done|]. apply Hou in Hua; [|done|done].
      apply own_reach in Hrb as [->|[Hrb Hxc]].
      { by apply ureach_reach, fresh_unreached in Hua. }
      destruct (to_half _ _ _ Hok a r x Ha Hr Hua Hrb) as (q & Hq1 & Hq2 & Hq3). exists q. split_and!; [done|done|].
      apply own_descend; [done|]. right. split; [|done]. intros ->. rewrite (descend_snoc s r p i t Hp), Hptr in Hq3. by injection Hq3.
    + apply Ho in Hrb; [|done|done]. apply Hou; [done|done|]. destruct (decide (a = r)) as [->|Har].
      * apply own_ureach in Hua as [->|[Hua _]]; [by apply fresh_unreached in Hrb|]. by apply (to_half _ _ _ Hok r).
      * apply Hou in Hua; [|done|done]. by apply (to_half _ _ _ Hok a).
  - intros x l Hnd Hsub Hre Hlen.
    assert (∃ b, b ∈ l ∧ b ≠ r) as (b & Hbl & Hbr).
    { destruct l as [|b1 [|b2 l]]; cbn in Hlen; try lia. destruct (decide (b1 = r)) as [->|]; [|exists b1; set_solver].
      exists b2. apply list.NoDup_cons in Hnd as [Hnd _]. set_solver. }
    pose proof (proj1 (Hou b x (Hsub b Hbl) Hbr) (Hre b Hbl)) as Hbx.
    assert (page_addr x) as Hx by (eapply reach_page_addr; [apply (to_space _ _ _ Hok b), Hsub, Hbl|by apply ureach_reach]).
    assert (x ≠ n) as Hxn by (intros ->; by apply (fresh_unreached b (Hsub b Hbl)), ureach_reach).
    assert (∀ b, b ∈ l → b ≠ r → ureach s b x) as Hothers by (intros b' Hb' Hne; apply Hou; [by apply Hsub|done|by apply Hre]).
    change (km s') with k. rewrite Hrefc by done. destruct (decide (c = x)) as [<-|Hcx].
    + assert (r ∉ l) as Hrl by (intros Hrl; destruct (own_ureach c (Hre r Hrl)) as [?|[_ ?]]; done).
      enough (Z.of_nat (length (r :: l)) ≤ pte_refc_get (km s) c) by (cbn in *; lia).
      apply (to_count _ _ _ Hok); [by apply list.NoDup_cons|set_solver| |cbn; lia].
      intros b' [->|Hb']%elem_of_cons; [apply below_ureach|]. apply Hothers; [done|]. by intros ->.
    + apply (to_count _ _ _ Hok); [done|done| |done]. intros b' Hb'. destruct (decide (b' = r)) as [->|]; [|by apply Hothers].
      destruct (own_ureach x (Hre r Hb')) as [?|[? _]]; done.
Qed.

Lemma private_stepped : stepped own s roots r (n :: own) s'.
Proof.
  pose proof (proj1 (to_space _ _ _ Hok r Hr)) as Hsp. destruct new_ptr as [N1 N2].
  split; [apply private_tabs|done|set_solver|done| | |].
  - intros r' q Hr' _ Hq. destruct (decide (r' = r)) as [->|Hne]; [|apply others_frame; done || lia].
    rewrite (proj1 (own_frame q)).
    pose proof (moved_walk s r t i n e' p (sp_tree _ _ _ Hsp) Hp Hl Hptr (fresh_unreached r Hr) N1 N2 q Hq) as M. fold e in M. by fold c in M.
  - intros x Hx Hnx. unfold s'. change (page_of (set_km k ?a) x) with (page_of a x). unfold set_entry. rewrite !page_of_set.
    rewrite !decide_False; [done|intros ->; by destruct Hx|intros ->]. apply Hnx. exists p. split; [lia|done].
  - intros r' x Hr' Hx. destruct (decide (r' = r)) as [->|Hne].
    + apply own_reach in Hx as [->|[? _]]; [by right|by left].
    + left. destruct Hx as (q & Hq & Hx). exists q. split; [done|]. rewrite <- Hx. symmetry. apply others_frame; done || lia.
Qed.

Lemma private_result : descend s' r (p ++ [i]) = Some n ∧ private s' roots r n.
Proof.
  split; [apply own_descend; [rewrite length_app; cbn; lia|by left]|].
  intros r' Hr' Hne (q & _ & Hq & Hx). rewrite (proj1 (others_frame r' q Hr' Hne ltac:(lia))) in Hx.
  apply (fresh_unreached r' Hr'). by exists q.
Qed.
End private_table.

Lemma stepped_refl own s roots r : tabs_ok own s roots → stepped own s roots r own s.
Proof. intros. split; try done. intros r' t _ ?. by left. Qed.

Lemma stepped_km own s roots r k :
  tabs_ok own s roots → holds k own → same_region (km s) k →
  (∀ x, page_addr x → pte_refc_get k x = pte_refc_get (km s) x) → stepped own s roots r own (set_km k s).
Proof.
  intros Hok Hh Hreg Hrc.
  assert (∀ r' x, reach (set_km k s) r' x ↔ reach s r' x) as Hre by (intros; by apply reach_frames).
  assert (∀ r' x, ureach (set_km k s) r' x ↔ ureach s r' x) as Hue.
  { intros r' x. unfold ureach. split; intros (q & ? & ? & Hq); exists q; (split_and!; [done|done|]); rewrite <- Hq; [symmetry|]; by apply frames_walk. }
  split; try done.
  - destruct Hok as [[H1 H1'] H2 H3 H4 H5]. split.
    + split; [done|]. by apply (low_region (km s)).
    + intros r' Hr'. destruct (H2 r' Hr'). split; [by apply space_km|done].
    + intros a b ? ? ?. rewrite Hre. auto.
    + intros a b x ? ?. rewrite !Hue, Hre. eauto.
    + intros x l Hnd Hsub Hx Hlen. cbn [km set_km]. destruct l as [|b l]; [cbn in Hlen; lia|].
      rewrite Hrc; [apply H5; try done; intros b' Hb'; by apply Hue, Hx|].
      pose proof (Hsub b ltac:(apply list_elem_of_here)) as Hb.
      apply (reach_page_addr s b x); [apply (H2 b Hb)|]. apply ureach_reach, Hue, Hx, list_elem_of_here.
  - intros r' q _ _ _. by apply frames_walk.
  - intros r' x _ Hx. left. by apply Hre.
Qed.

Lemma alloc_page_none s own s' : holds (km s) own → alloc_page s = (None, s') → pte_refcs (km s') = pte_refcs (km s).
Proof.
  intros (ls & others & Hinv). pose proof Hinv as [Hwf _ Hq _ Hok _ _ _ _]. unfold alloc_page, alloc_zeroed_page.
  assert (q_pages_ok (km s)) as Hqp.
  { intros a Ha. apply (Hok (a, 0%nat)). unfold held. apply elem_of_app. right. apply list_elem_of_fmap. by exists a. }
  destruct (q_pop (km s)) as [r1 k1] eqn:Hpop.
  destruct (q_pop_refines (km s) r1 k1 (wf_region _ _ Hwf) Hq Hqp Hpop) as [_ Hk1]. destruct r1 as [a|]; [done|].
  destruct Hk1 as [_ ->]. destruct (alloc_nolock 0 (km s)) as [[a|] k2] eqn:Hal; [done|]. intros [= <-].
  destruct (alloc_spec 0 (km s) ls None k2 Hwf Hal) as (ls' & _ & Hrest & _). unfold rest in Hrest. by injection Hrest.
Qed.

(** [private_table]: afterwards the path leads to a table of [r] alone, or
    memory ran out; what anybody sees is unchanged. *)
Lemma private_table_spec own s roots r p t i res s' :
  tabs_ok own s roots → r ∈ roots → upath (p ++ [i]) → (length p ≤ 2)%nat → descend s r p = Some t → private s roots r t →
  is_ptr (entry s t i) = true → private_table t i (entry s t i) s = (res, s') →
  ∃ own', stepped own s roots r own' s' ∧
    match res with Some c => descend s' r (p ++ [i]) = Some c ∧ private s' roots r c | None => True end.
Proof.
  intros Hok Hr Hu Hl Hp Hpriv Hptr. unfold private_table. set (c := addr_of (entry s t i)).
  destruct (to_mem _ _ _ Hok) as [Hh Hlow].
  destruct (Z.ltb_spec 1 (pte_refc_get (km s) c)) as [Hcnt|Hcnt].
  2: { intros [= <- <-]. exists own. split; [by apply stepped_refl|]. split; [by rewrite (descend_snoc s r p i t Hp), Hptr|].
       by apply (low_count_private own s roots r p t i). }
  destruct (alloc_page s) as [r1 s1] eqn:Hal. destruct (alloc_page_spec s own r1 s1 Hh Hlow Hal) as [Hreg Hr1].
  destruct r1 as [n|].
  2: { intros [= <- <-]. pose proof (alloc_page_none s own s1 Hh Hal) as Hrc. destruct Hr1 as [Hh1 ->]. exists own. split; [|done].
       apply stepped_km; try done. intros x _. by apply refc_eq. }
  destruct Hr1 as (Hh1 & Hno & Hnout & Hn & Hs1). intros [= <- Hs'].
  assert (page_addr c) as Hc by apply page_addr_of.
  assert (¬ reach s r n) as Hnr by (by apply (fresh_unreached own s roots)).
  assert (reach s r c) as Hrc by (exists (p ++ [i]); rewrite length_app, (descend_snoc s r p i t Hp), Hptr; cbn; split; [lia|done]).
  assert (c ≠ n) as Hcn by (intros <-; done).
  assert (∀ x, page_addr x → x ≠ n → pte_refc_get (km s1) x = pte_refc_get (km s) x) as Hr1 by (intros; by eapply alloc_page_refc).
  set (k := (pte_refc_dec c (km s1)).2).
  assert (s' = set_km k (set_entry t i (Z.lor n (flags_of (entry s t i))) (set_page n (page_of s c) s))) as ->.
  { rewrite <- Hs'. change (km (copy_frame c n s1)) with (km s1). fold k. unfold copy_frame. rewrite Hs1.
    unfold zero_frame. rewrite page_of_set, decide_False by done. by rewrite set_page_twice. }
  assert (holds k (n :: own)) as Hkh by (by apply holds_refc_dec).
  assert (same_region (km s) k) as Hkr.
  { destruct (refc_dec_region (km s1) c) as [A B], Hreg as [C D]. unfold k. split; congruence. }
  assert (∀ x, page_addr x → x ≠ n → pte_refc_get k x = if decide (c = x) then pte_refc_get (km s) c - 1 else pte_refc_get (km s) x) as Hkc.
  { intros x Hx Hxn. unfold k. rewrite (refc_dec_get (km s1) (n :: own) c x) by (done || rewrite Hr1 by done; lia).
    destruct (decide (c = x)); by rewrite Hr1. }
  exists (n :: own). split; [by apply (private_stepped own s roots r p t i)|by apply (private_result own s roots r p t i)].
Qed.

Lemma stepped_trans own s roots r own1 s1 own2 s2 : r ∈ roots →
  stepped own s roots r own1 s1 → stepped own1 s1 roots r own2 s2 → stepped own s roots r own2 s2.
Proof.
  intros Hr [A1 A2 A3 A4 A5 A6 A7] [B1 B2 B3 B4 B5 B6 B7].
  assert (∀ t, outside (km s1) t ↔ outside (km s) t) as Hout by (intros; by apply outside_region).
  split; try done.
  - destruct A2, B2. split; congruence.
  - by etrans.
  - congruence.
  - intros r' q ? ? ?. by rewrite B5, A5.
  - intros t Ht Hn. rewrite <- (A6 t Ht Hn). apply B6; [rewrite Hout; set_solver|].
    intros [|[? ?]]%A7; [done|by destruct Ht|done].
  - intros r' t Hr' Ht. destruct (B7 r' t Hr' Ht) as [Hx|[Hn Ho]]; [by apply A7|]. right. rewrite Hout in Ho. split; [|done]. set_solver.
Qed.

Lemma root_private own s roots r : tabs_ok own s roots → r ∈ roots → private s roots r r.
Proof. intros Hok Hr r' Hr' Hne Hu. by apply (to_root _ _ _ Hok r r'), ureach_reach. Qed.

(** [cow_walk_pte]: a page table of [r] alone, and nobody sees a change. *)
Lemma cow_walk_spec own s roots r v res s' :
  tabs_ok own s roots → r ∈ roots → vpn 39 v < 256 → cow_walk_pte r v s = (res, s') →
  ∃ own', stepped own s roots r own' s' ∧
    match res with
    | Some (pt, i) => i = vpn 12 v ∧ descend s' r [vpn 39 v; vpn 30 v; vpn 21 v] = Some pt ∧ private s' roots r pt
    | None => True
    end.
Proof.
  intros Hok Hr Hv. unfold cow_walk_pte. pose proof (vpn_bound 39 v) as Hv0.
  destruct (present (entry s r (vpn 39 v))) eqn:P1; [|intros [= <- <-]; exists own; split; [by apply stepped_refl|done]]. cbn [negb].
  assert (is_ptr (entry s r (vpn 39 v)) = true) as I1.
  { unfold is_ptr. by rewrite P1, (tr_top _ _ (sp_tree _ _ _ (proj1 (to_space _ _ _ Hok r Hr)))). }
  destruct (private_table r (vpn 39 v) _ s) as [c1 s1] eqn:E1.
  destruct (private_table_spec own s roots r [] r (vpn 39 v) c1 s1) as (o1 & S1 & R1); try done; [cbn; lia|cbn; lia|by apply (root_private own s)|].
  destruct c1 as [pdpt|]; [|intros [= <- <-]; by exists o1]. destruct R1 as [D1 V1]. cbn [app] in D1.
  destruct (present (entry s1 pdpt (vpn 30 v))) eqn:P2; [|intros [= <- <-]; by exists o1].
  destruct (huge (entry s1 pdpt (vpn 30 v))) eqn:G2; [intros [= <- <-]; by exists o1|]. cbn [negb].
  destruct (private_table pdpt (vpn 30 v) _ s1) as [c2 s2] eqn:E2.
  destruct (private_table_spec o1 s1 roots r [vpn 39 v] pdpt (vpn 30 v) c2 s2) as (o2 & S2 & R2); try done;
    [by apply S1|cbn; lia|cbn; lia|unfold is_ptr; by rewrite P2, G2|].
  pose proof (stepped_trans _ _ _ _ _ _ _ _ Hr S1 S2) as S12.
  destruct c2 as [pd|]; [|intros [= <- <-]; by exists o2]. destruct R2 as [D2 V2]. cbn [app] in D2.
  destruct (present (entry s2 pd (vpn 21 v))) eqn:P3; [|intros [= <- <-]; by exists o2].
  destruct (huge (entry s2 pd (vpn 21 v))) eqn:G3; [intros [= <- <-]; by exists o2|]. cbn [negb].
  destruct (private_table pd (vpn 21 v) _ s2) as [c3 s3] eqn:E3.
  destruct (private_table_spec o2 s2 roots r [vpn 39 v; vpn 30 v] pd (vpn 21 v) c3 s3) as (o3 & S3 & R3); try done;
    [by apply S2|cbn; lia|unfold is_ptr; by rewrite P3, G3|].
  pose proof (stepped_trans _ _ _ _ _ _ _ _ Hr S12 S3) as S123.
  destruct c3 as [pt|]; intros [= <- <-]; exists o3; [|done]. destruct R3 as [D3 V3]. done.
Qed.

(** ** Data pages *)

(** [r] maps the user page [x] by the path [p]. *)
Definition maps (s : pmem) (r : Z) (p : list Z) (x : Z) : Prop :=
  length p = 4%nat ∧ upath p ∧ ∃ e, walk s r p = Some (e, []) ∧ user e = true ∧ addr_of e = x.

Record data_ok (own : list Z) (s : pmem) (roots : list Z) : Prop := {
  do_own : ∀ r p x, r ∈ roots → maps s r p x → x ∈ own ∨ outside (km s) x;
  do_table : ∀ r r' p x, r ∈ roots → r' ∈ roots → maps s r p x → ¬ reach s r' x;
  do_once : ∀ r p q x, r ∈ roots → maps s r p x → maps s r q x → p = q;
  do_count : ∀ x l, NoDup l → l ⊆ roots → (∀ r, r ∈ l → ∃ p, maps s r p x) → (2 ≤ length l)%nat →
    Z.of_nat (length l) ≤ refc_get s x;
}.

Lemma maps_walks s s' r p x : (∀ q, upath q → length q = 4%nat → walk s' r q = walk s r q) → maps s' r p x ↔ maps s r p x.
Proof. intros Hw. unfold maps. split; intros (H1 & H2 & e & He & H3); (split_and!; [done..|]); exists e; [rewrite <- Hw|rewrite Hw]; done. Qed.

Lemma stepped_data own s roots r own' s' : r ∈ roots → stepped own s roots r own' s' → data_ok own s roots → data_ok own' s' roots.
Proof.
  intros Hr [A1 A2 A3 A4 A5 A6 A7] [D1 D2 D3 D4].
  assert (∀ r' p x, r' ∈ roots → maps s' r' p x ↔ maps s r' p x) as Hm by (intros r' p x Hr'; apply maps_walks; intros; by apply A5).
  split.
  - intros r' p x Hr' Hx. rewrite (outside_region (km s)) by done. apply Hm in Hx; [|done]. destruct (D1 r' p x Hr' Hx); [left; by apply A3|by right].
  - intros r1 r2 p x H1 H2 Hx Hre. apply Hm in Hx; [|done]. destruct (A7 r2 x H2 Hre) as [?|[? ?]]; [by apply (D2 r1 r2 p x)|].
    by destruct (D1 r1 p x H1 Hx).
  - intros r' p q x Hr' Hp Hq. apply Hm in Hp, Hq; [by eapply D3|done..].
  - intros x l Hnd Hsub Hl Hlen. unfold refc_get. rewrite A4. apply D4; try done.
    intros r' Hr'. destruct (Hl r' Hr') as [p Hp]. exists p. apply Hm in Hp; [done|by apply Hsub].
Qed.

(** * A write fault on a shared page

    The data pages of forked address spaces, and the proof that
    [cow_remap_in] gives the faulting space a page of its own. *)

(** States that agree on the tables in use. *)
Lemma tabs_frame own own' s s' roots :
  tabs_ok own s roots → mem_ok own' s' → same_region (km s) (km s') → own ⊆ own' →
  (∀ r t i, r ∈ roots → reach s r t → entry s' t i = entry s t i) →
  (∀ r t, r ∈ roots → ureach s r t → pte_refc_get (km s') t = pte_refc_get (km s) t) →
  tabs_ok own' s' roots ∧
  ∀ r q, r ∈ roots → (length q ≤ 4)%nat → descend s' r q = descend s r q ∧ walk s' r q = walk s r q.
Proof.
  intros [H1 H2 H3 H4 H5] Hm Hreg Hsub He Hrc.
  assert (∀ r q, r ∈ roots → (length q ≤ 4)%nat → descend s' r q = descend s r q ∧ walk s' r q = walk s r q) as Hw.
  { intros r q Hr Hq. apply reach_frame; [|done]. intros t i. by apply He. }
  assert (∀ r x, r ∈ roots → reach s' r x ↔ reach s r x) as Hre.
  { intros r x Hr. split; intros (q & Hq & Hx); exists q; (split; [done|]); rewrite <- Hx; [symmetry|]; by apply Hw; [|lia]. }
  assert (∀ r x, r ∈ roots → ureach s' r x ↔ ureach s r x) as Hue.
  { intros r x Hr. split; intros (q & Hu & Hq & Hx); exists q; (split_and!; [done|done|]); rewrite <- Hx; [symmetry|]; by apply Hw; [|lia]. }
  split; [|done]. split; [done| | | |].
  - intros r Hr. destruct (H2 r Hr) as [Hsp Hpa]. split; [|done]. split.
    + split; [|intros i; rewrite (He r); [apply Hsp|done|exists []; split; [cbn; lia|done]]].
      intros p q t Hp Hq. rewrite (proj1 (Hw r p Hr ltac:(lia))), (proj1 (Hw r q Hr ltac:(lia))). by apply Hsp.
    + intros t Ht. apply Hre in Ht; [|done]. rewrite (outside_region (km s)) by done.
      destruct (sp_own _ _ _ Hsp t Ht); [left; by apply Hsub|by right].
    + intros p t i Hp Hh. destruct (decide (length p ≤ 3)%nat); [|split; intros; lia].
      rewrite (proj1 (Hw r p Hr ltac:(lia))) in Hp. assert (entry s' t i = entry s t i) as Hx by (apply (He r); [done|by exists p]). rewrite Hx in *. by apply (sp_huge _ _ _ Hsp p).
  - intros a b Ha Hb Hne. rewrite Hre by done. auto.
  - intros a b x Ha Hb. rewrite !Hue, Hre by done. eauto.
  - intros x l Hnd Hsubl Hl Hlen. destruct l as [|b l]; [cbn in Hlen; lia|].
    rewrite (Hrc b); [|apply Hsubl, list_elem_of_here|apply Hue; [apply Hsubl, list_elem_of_here|apply Hl, list_elem_of_here]].
    apply H5; try done. intros c Hc. apply Hue; [by apply Hsubl|by apply Hl].
Qed.

(** ** Counts of data pages *)

Lemma refc_idx_inj x y : page_addr x → page_addr y → refc_idx x = refc_idx y → x = y.
Proof.
  intros [a ->]%page_addr_divide [b ->]%page_addr_divide. unfold refc_idx. rewrite !Z.shiftr_div_pow2 by lia.
  change (2 ^ 12) with 4096. rewrite !Z.div_mul by lia. by intros ->.
Qed.

Lemma refc_dec_data s c x : page_addr c → page_addr x → 0 < refc_get s c →
  refc_get (refc_dec c s) x = if decide (c = x) then refc_get s c - 1 else refc_get s x.
Proof.
  intros Hc Hx Hpos. unfold refc_dec. unfold refc_get in Hpos. destruct (refc_idx c <? MAX_REFC_PAGES) eqn:Hm; [|lia].
  rewrite (proj2 (Z.ltb_lt 0 _) Hpos). unfold refc_get. cbn [page_refc set_refc]. destruct (decide (c = x)) as [<-|Hne].
  - by rewrite Hm, getd_insert_eq.
  - destruct (refc_idx x <? MAX_REFC_PAGES); [|done]. rewrite getd_insert_ne; [done|]. intros Heq. by apply Hne, refc_idx_inj.
Qed.

Lemma refc_dec_same s c : frames (refc_dec c s) = frames s ∧ km (refc_dec c s) = km s.
Proof. unfold refc_dec. by repeat case_match. Qed.

(** ** The leaf of the faulting space *)

(** Writing an entry of a page table of [r] alone. *)
Lemma leaf_tabs own s roots r v pt w :
  tabs_ok own s roots → r ∈ roots → vpn 39 v < 256 → descend s r [vpn 39 v; vpn 30 v; vpn 21 v] = Some pt → private s roots r pt →
  let s' := set_entry pt (vpn 12 v) w s in
  tabs_ok own s' roots ∧ (∀ r' t, r' ∈ roots → reach s' r' t ↔ reach s r' t) ∧
  (∀ r' q, r' ∈ roots → length q = 4%nat → (r', q) ≠ (r, path v) → walk s' r' q = walk s r' q) ∧
  (present w = true → walk s' r (path v) = Some (w, [])).
Proof.
  intros Hok Hr Hv Hpt Hpriv s'. pose proof (vpn_bound 39 v). destruct Hok as [H1 H2 H3 H4 H5].
  destruct (leaf_set own s r v pt w (proj1 (H2 r Hr)) Hpt) as (L1 & L2 & L3 & L4).
  assert (∀ r' q, r' ∈ roots → r' ≠ r → (length q ≤ 4)%nat → descend s' r' q = descend s r' q ∧ walk s' r' q = walk s r' q) as Ho.
  { intros r' q Hr' Hne Hq. apply reach_frame; [|done]. intros t i Ht. unfold s'. rewrite entry_set, decide_False; [done|].
    intros [-> _]. apply (Hpriv r' Hr' Hne), (H4 r r'); try done. exists [vpn 39 v; vpn 30 v; vpn 21 v]. split_and!; [cbn; lia|cbn; lia|done]. }
  assert (∀ r' q, r' ∈ roots → (length q ≤ 3)%nat → descend s' r' q = descend s r' q) as Hd.
  { intros r' q Hr' Hq. destruct (decide (r' = r)) as [->|Hne]; [by apply L4|apply Ho; done || lia]. }
  assert (∀ r' t, r' ∈ roots → reach s' r' t ↔ reach s r' t) as Hre.
  { intros r' t Hr'. split; intros (q & Hq & Hx); exists q; (split; [done|]); by rewrite <- Hx, Hd. }
  assert (∀ r' t, r' ∈ roots → ureach s' r' t ↔ ureach s r' t) as Hue.
  { intros r' t Hr'. split; intros (q & Hu & Hq & Hx); exists q; (split_and!; [done|done|]); by rewrite <- Hx, Hd. }
  split_and!; [|done| |].
  - split; [done| | | |].
    + intros r' Hr'. destruct (H2 r' Hr') as [Hsp Hpa]. split; [|done]. destruct (decide (r' = r)) as [->|Hne]; [done|]. split.
      * split; [intros p q t Hp Hq; rewrite !Hd by done; by apply Hsp|]. intros i. unfold s'. rewrite entry_set, decide_False; [apply Hsp|].
        intros [<- _]. apply (Hpriv pt Hr' Hne). exists []. split_and!; [done|cbn; lia|done].
      * intros t Ht. apply Hre in Ht; [|done]. by apply (sp_own _ _ _ Hsp).
      * intros p t i Hp Hh. destruct (decide (length p ≤ 3)%nat); [|split; intros; lia]. rewrite Hd in Hp by done.
        unfold s' in *. rewrite entry_set, decide_False in *; [by apply (sp_huge _ _ _ Hsp p)|..]; intros [-> _];
          (apply (Hpriv r' Hr' Hne), (H4 r r'); try done; [exists [vpn 39 v; vpn 30 v; vpn 21 v]; split_and!; [cbn; lia|cbn; lia|done]|by exists p]).
    + intros a b Ha Hb Hne. rewrite Hre by done. auto.
    + intros a b x Ha Hb. rewrite !Hue, Hre by done. eauto.
    + intros x l Hnd Hsub Hl Hlen. apply H5; try done. intros c Hc. apply Hue; [by apply Hsub|by apply Hl].
  - intros r' q Hr' Hq Hne. destruct (decide (r' = r)) as [->|Hnr]; [|apply Ho; done || lia]. apply L3; [done|]. intros ->. by destruct Hne.
  - intros Hw. change (path v) with ([vpn 39 v; vpn 30 v; vpn 21 v] ++ [vpn 12 v]). rewrite (walk_app s' r _ pt _ _ L2). cbn [walk].
    unfold s'. rewrite entry_set, decide_True by done. by rewrite Hw.
Qed.

Lemma remap_entry e old :
  page_addr old → let w := Z.lor old (Z.lor (flags_of e) PTE_WRITABLE) in
  addr_of w = old ∧ present w = present e ∧ user w = user e ∧ writable w = true ∧ flags_of w = Z.lor (flags_of e) PTE_WRITABLE.
Proof.
  intros Hold w.
  assert (∀ i, 0 ≤ i < 12 ∨ 52 ≤ i → Z.testbit old i = false) as Ho.
  { intros i Hi. rewrite <- Hold, addr_of_bit by lia. rewrite bool_decide_false by lia. apply andb_false_r. }
  assert (∀ i, 0 ≤ i → Z.testbit w i = Z.testbit old i || (Z.testbit e i && negb (bool_decide (12 ≤ i < 52)) || (1 =? i))) as Hw.
  { intros i Hi. unfold w. rewrite !Z.lor_spec, flags_of_bit by done. change PTE_WRITABLE with (2 ^ 1). by rewrite Z.pow2_bits_eqb by lia. }
  split_and!.
  - unfold w. rewrite !addr_of_lor, Hold. rewrite (low_flags_addr (flags_of e)); [apply Z.lor_0_r|].
    intros i Hi. rewrite flags_of_bit by lia. rewrite bool_decide_true by done. apply andb_false_r.
  - rewrite !present_bit, Hw by lia. rewrite Ho by lia. cbn. by rewrite andb_true_r, orb_false_r.
  - rewrite !user_bit, Hw by lia. rewrite Ho by lia. cbn. by rewrite andb_true_r, orb_false_r.
  - rewrite writable_bit, Hw by lia. by rewrite !orb_true_r.
  - apply Z.bits_inj'. intros i Hi. rewrite flags_of_bit, Hw, Z.lor_spec, flags_of_bit by done. change PTE_WRITABLE with (2 ^ 1).
    rewrite Z.pow2_bits_eqb by lia. destruct (decide (12 ≤ i < 52)).
    + rewrite bool_decide_true by done. rewrite (proj2 (Z.eqb_neq 1 i)) by lia. by rewrite !andb_false_r.
    + rewrite bool_decide_false by done. rewrite Ho by lia. cbn [negb orb]. by rewrite !andb_true_r.
Qed.

(** What one space sees of data. *)
Lemma maps_set own s roots r v pt w r' q x :
  tabs_ok own s roots → r ∈ roots → vpn 39 v < 256 → descend s r [vpn 39 v; vpn 30 v; vpn 21 v] = Some pt → private s roots r pt →
  present w = true → r' ∈ roots → maps (set_entry pt (vpn 12 v) w s) r' q x ↔
    if decide ((r', q) = (r, path v)) then user w = true ∧ addr_of w = x else maps s r' q x.
Proof.
  intros Hok Hr Hv Hpt Hpriv Hw Hr'. destruct (leaf_tabs own s roots r v pt w Hok Hr Hv Hpt Hpriv) as (_ & _ & L3 & L4).
  destruct (decide ((r', q) = (r, path v))) as [[= -> ->]|Hne].
  - unfold maps. rewrite L4 by done. pose proof (vpn_bound 39 v). split; [naive_solver|].
    intros [? ?]. split_and!; [done|cbn; lia|]. by exists w.
  - unfold maps. split; intros (A & B & e & C & D); (split_and!; [done|done|]); exists e; [rewrite <- L3|rewrite L3]; done.
Qed.

(** The page stays in place: nobody else maps it. *)
Lemma data_in_place own s roots r v pt w e :
  tabs_ok own s roots → data_ok own s roots → r ∈ roots → vpn 39 v < 256 →
  descend s r [vpn 39 v; vpn 30 v; vpn 21 v] = Some pt → private s roots r pt →
  walk s r (path v) = Some (e, []) → user e = true → present w = true → user w = true → addr_of w = addr_of e →
  data_ok own (set_entry pt (vpn 12 v) w s) roots.
Proof.
  intros Hok [D1 D2 D3 D4] Hr Hv Hpt Hpriv He Hue Hw Huw Ha. pose proof (vpn_bound 39 v).
  destruct (leaf_tabs own s roots r v pt w Hok Hr Hv Hpt Hpriv) as (_ & Hre & _ & _).
  assert (∀ r' q x, r' ∈ roots → maps (set_entry pt (vpn 12 v) w s) r' q x ↔ maps s r' q x) as Hm.
  { intros r' q x Hr'. rewrite (maps_set own s roots r v pt w r' q x) by done.
    destruct (decide ((r', q) = (r, path v))) as [[= -> ->]|Hne]; [|done]. unfold maps. rewrite He, Ha. split.
    - intros [_ <-]. split_and!; [done|cbn; lia|]. by exists e.
    - intros (_ & _ & e' & [= <-] & _ & <-). done. }
  split.
  - intros r' p x Hr' Hx. apply Hm in Hx; [|done]. by apply (D1 r' p).
  - intros a b p x Ha' Hb Hx. apply Hm in Hx; [|done]. rewrite Hre by done. by apply (D2 a b p).
  - intros r' p q x Hr' Hp Hq. apply Hm in Hp, Hq; [by eapply D3|done..].
  - intros x l Hnd Hsub Hl Hlen. apply D4; try done. intros c Hc. destruct (Hl c Hc) as [p Hp]. exists p. apply Hm in Hp; [done|by apply Hsub].
Qed.

(** The page is replaced by a fresh copy. *)
Lemma data_moved own own' s s1 roots r v pt w e n :
  tabs_ok own' s1 roots → data_ok own s roots → r ∈ roots → vpn 39 v < 256 → own ⊆ own' → same_region (km s) (km s1) →
  descend s1 r [vpn 39 v; vpn 30 v; vpn 21 v] = Some pt → private s1 roots r pt →
  (∀ r' q, r' ∈ roots → upath q → length q = 4%nat → walk s1 r' q = walk s r' q) →
  (∀ r' t, r' ∈ roots → reach s1 r' t → reach s r' t ∨ (t ∉ own ∧ ¬ outside (km s) t)) →
  walk s r (path v) = Some (e, []) → user e = true → present w = true → user w = true → addr_of w = n →
  n ∈ own' → n ∉ own → ¬ outside (km s) n → (∀ r', r' ∈ roots → ¬ reach s1 r' n) →
  (∀ x, page_addr x → refc_get s1 x = if decide (addr_of e = x) then refc_get s (addr_of e) - 1 else refc_get s x) →
  data_ok own' (set_entry pt (vpn 12 v) w s1) roots ∧
  ∀ r' q, r' ∈ roots → maps (set_entry pt (vpn 12 v) w s1) r' q n → r' = r ∧ q = path v.
Proof.
  intros Hok [D1 D2 D3 D4] Hr Hv Hsub Hreg Hpt Hpriv Hwalk Hreach He Hue Hw Huw Ha Hno' Hno Hnout Hnr Hrc. pose proof (vpn_bound 39 v).
  destruct (leaf_tabs own' s1 roots r v pt w Hok Hr Hv Hpt Hpriv) as (_ & Hre & _ & _).
  assert (maps s r (path v) (addr_of e)) as Hold by (split_and!; [done|cbn; lia|]; by exists e).
  assert (∀ r' q x, r' ∈ roots → maps (set_entry pt (vpn 12 v) w s1) r' q x →
    (r' = r ∧ q = path v ∧ x = n) ∨ ((r', q) ≠ (r, path v) ∧ maps s r' q x)) as Hm.
  { intros r' q x Hr'. rewrite (maps_set own' s1 roots r v pt w r' q x) by done.
    destruct (decide ((r', q) = (r, path v))) as [[= -> ->]|Hne]; [intros [_ <-]; by left|].
    intros Hx. right. split; [done|]. apply (maps_walks s s1); [|done]. intros. by apply Hwalk. }
  assert (∀ r' q, r' ∈ roots → ¬ maps s r' q n) as Hfresh by (intros r' q Hr' Hx; by destruct (D1 r' q n Hr' Hx)).
  assert (∀ r' q, r' ∈ roots → maps (set_entry pt (vpn 12 v) w s1) r' q n → r' = r ∧ q = path v) as Huniq.
  { intros r' q Hr' Hx. destruct (Hm r' q n Hr' Hx) as [(-> & -> & _)|[_ Hx']]; [done|]. by destruct (Hfresh r' q Hr'). }
  split; [|done]. split.
  - intros r' q x Hr' Hx. change (km (set_entry pt (vpn 12 v) w s1)) with (km s1). rewrite (outside_region (km s)) by done.
    destruct (Hm r' q x Hr' Hx) as [(_ & _ & ->)|[_ Hx']]; [by left|]. destruct (D1 r' q x Hr' Hx'); [left; by apply Hsub|by right].
  - intros a b q x Ha' Hb Hx. rewrite Hre by done. destruct (Hm a q x Ha' Hx) as [(_ & _ & ->)|[_ Hx']]; [by apply Hnr|].
    intros Hbx. destruct (Hreach b x Hb Hbx) as [?|[? ?]]; [by apply (D2 a b q x)|]. by destruct (D1 a q x Ha' Hx').
  - intros r' p q x Hr' Hp Hq. destruct (Hm r' p x Hr' Hp) as [(A1 & A2 & A3)|[_ Hp']];
      destruct (Hm r' q x Hr' Hq) as [(B1 & B2 & B3)|[_ Hq']].
    + congruence.
    + destruct (Hfresh r' q Hr'). by rewrite <- A3.
    + destruct (Hfresh r' p Hr'). by rewrite <- B3.
    + by eapply D3.
  - intros x l Hnd Hsubl Hl Hlen.
    assert (∀ b, b ∈ l → b ≠ r → ∃ q, maps s b q x) as Hoth.
    { intros b Hb Hbr. destruct (Hl b Hb) as [q Hq]. destruct (Hm b q x (Hsubl b Hb) Hq) as [(? & _)|[_ ?]]; [done|by exists q]. }
    assert (∃ b, b ∈ l ∧ b ≠ r) as (b & Hbl & Hbr).
    { destruct l as [|b1 [|b2 l]]; cbn in Hlen; try lia. destruct (decide (b1 = r)) as [->|]; [|exists b1; set_solver].
      exists b2. apply list.NoDup_cons in Hnd as [Hnd _]. set_solver. }
    destruct (Hoth b Hbl Hbr) as [qb Hqb].
    assert (page_addr x) as Hx by (destruct Hqb as (_ & _ & eb & _ & _ & <-); apply page_addr_of).
    change (refc_get (set_entry pt (vpn 12 v) w s1) x) with (refc_get s1 x). rewrite Hrc by done.
    destruct (decide (addr_of e = x)) as [<-|Hne].
    + assert (r ∉ l) as Hrl.
      { intros Hrl. destruct (Hl r Hrl) as [q Hq]. destruct (Hm r q _ Hr Hq) as [(_ & _ & E)|[Hnp Hq']].
        - apply (Hfresh b qb (Hsubl b Hbl)). by rewrite <- E.
        - apply Hnp. f_equal. by eapply D3. }
      enough (Z.of_nat (length (r :: l)) ≤ refc_get s (addr_of e)) by (cbn in *; lia).
      apply D4; [by apply list.NoDup_cons|set_solver| |cbn; lia].
      intros b' [->|Hb']%elem_of_cons; [by exists (path v)|]. apply Hoth; [done|]. by intros ->.
    + apply D4; try done. intros b' Hb'. destruct (decide (b' = r)) as [->|]; [|by apply Hoth].
      destruct (Hl r Hb') as [q Hq]. destruct (Hm r q x Hr Hq) as [(_ & _ & ->)|[_ ?]]; [by destruct (Hfresh b qb (Hsubl b Hbl))|by exists q].
Qed.

(** What everybody else keeps: mappings, and the contents of data pages. *)
Definition unseen (s : pmem) (roots : list Z) (r v : Z) (s' : pmem) : Prop :=
  (∀ r' q, r' ∈ roots → upath q → length q = 4%nat → (r', q) ≠ (r, path v) → walk s' r' q = walk s r' q) ∧
  (∀ r' q x, r' ∈ roots → maps s r' q x → page_of s' x = page_of s x).

(** The faulting space has the page for itself, in place or in a new page:
    writable, with the flags and the contents it had. *)
Definition granted (own : list Z) (s : pmem) (roots : list Z) (r v e : Z) (s' : pmem) : Prop :=
  ∃ w own', walk s' r (path v) = Some (w, []) ∧ flags_of w = Z.lor (flags_of e) PTE_WRITABLE ∧
    page_of s' (addr_of w) = page_of s (addr_of e) ∧
    (addr_of w = addr_of e ∧ refc_get s (addr_of e) = 0 ∨ addr_of w ∉ own) ∧
    (∀ r' q, r' ∈ roots → maps s' r' q (addr_of w) → r' = r ∧ q = path v) ∧
    own ⊆ own' ∧ tabs_ok own' s' roots ∧ data_ok own' s' roots.

Section remap.
Context (own : list Z) (s : pmem) (roots : list Z) (r v e : Z).
Context (Hok : tabs_ok own s roots) (Hdata : data_ok own s roots) (Hr : r ∈ roots) (Hv : vpn 39 v < 256).
Context (He : walk s r (path v) = Some (e, [])) (Hue : user e = true) (Hwe : writable e = false).
Context (own1 : list Z) (s1 : pmem) (Hst : stepped own s roots r own1 s1).

Lemma stepped_contents r' q x : r' ∈ roots → maps s r' q x → page_of s1 x = page_of s x.
Proof. intros Hr' Hx. apply (st_frame _ _ _ _ _ _ Hst); [by apply (do_own _ _ _ Hdata r' q)|by apply (do_table _ _ _ Hdata r' r q)]. Qed.

Lemma stepped_unseen : unseen s roots r v s1 ∧ walk s1 r (path v) = walk s r (path v).
Proof.
  pose proof (vpn_bound 39 v). split; [split|].
  - intros. by apply (st_walk _ _ _ _ _ _ Hst).
  - apply stepped_contents.
  - apply (st_walk _ _ _ _ _ _ Hst); [done|cbn; lia|done].
Qed.

Context (pt : Z) (Hpt : descend s1 r [vpn 39 v; vpn 30 v; vpn 21 v] = Some pt) (Hpriv : private s1 roots r pt).

Lemma remap_old : entry s1 pt (vpn 12 v) = e ∧ present e = true ∧ maps s r (path v) (addr_of e).
Proof.
  pose proof (vpn_bound 39 v). destruct stepped_unseen as [_ Hw]. rewrite He in Hw.
  change (path v) with ([vpn 39 v; vpn 30 v; vpn 21 v] ++ [vpn 12 v]) in Hw. rewrite (walk_app s1 r _ pt _ _ Hpt) in Hw. cbn [walk] in Hw.
  destruct (present (entry s1 pt (vpn 12 v))) eqn:Hp; [|done]. injection Hw as Hw. split; [done|]. split; [by rewrite <- Hw|].
  split_and!; [done|cbn; lia|]. by exists e.
Qed.

(** A data page is not the page table. *)
Lemma data_not_pt r' q x : r' ∈ roots → maps s r' q x → x ≠ pt.
Proof.
  intros Hr' Hx ->. destruct (st_reach _ _ _ _ _ _ Hst r pt Hr) as [Hre|[Hn1 Hn2]].
  - exists [vpn 39 v; vpn 30 v; vpn 21 v]. split; [cbn; lia|done].
  - by apply (do_table _ _ _ Hdata r' r q pt).
  - by destruct (do_own _ _ _ Hdata r' q pt Hr' Hx).
Qed.

Let w p := Z.lor p (Z.lor (flags_of e) PTE_WRITABLE).

Lemma remap_in_place : refc_get s (addr_of e) = 0 →
  let s' := set_entry pt (vpn 12 v) (w (addr_of e)) s1 in unseen s roots r v s' ∧ granted own s roots r v e s'.
Proof.
  intros Hz s'. pose proof (vpn_bound 39 v). destruct remap_old as (Hent & Hpe & Hmap). destruct stepped_unseen as [[U1 U2] U3].
  pose proof (st_tabs _ _ _ _ _ _ Hst) as Hok1.
  destruct (remap_entry e (addr_of e) (page_addr_of e)) as (W1 & W2 & W3 & W4 & W5). fold (w (addr_of e)) in *.
  rewrite Hpe in W2. rewrite Hue in W3.
  destruct (leaf_tabs own1 s1 roots r v pt (w (addr_of e)) Hok1 Hr Hv Hpt Hpriv) as (L1 & L2 & L3 & L4).
  assert (data_ok own1 s1 roots) as Hd1 by (by eapply stepped_data).
  assert (data_ok own1 s' roots) as Hd' by (apply (data_in_place own1 s1 roots r v pt (w (addr_of e)) e); try done; by rewrite U3).
  assert (∀ r' q x, r' ∈ roots → maps s r' q x → page_of s' x = page_of s x) as Hc.
  { intros r' q x Hr' Hx. unfold s', set_entry. rewrite page_of_set, decide_False; [by apply (U2 r' q)|]. intros E. by apply (data_not_pt r' q x Hr' Hx). }
  split; [split; [intros r' q ? ? ? ?; rewrite L3 by done; by apply U1|done]|].
  exists (w (addr_of e)), own1. rewrite W1. split_and!; [by apply L4|done|by apply (Hc r (path v))|by left| |apply Hst|done|done].
  intros r' q Hr' Hq. destruct (decide (r' = r)) as [->|Hne].
  - split; [done|]. apply (do_once _ _ _ Hd' r q (path v) (addr_of e)); [done|done|].
    split_and!; [done|cbn; lia|]. exists (w (addr_of e)). split_and!; [by apply L4|done|done].
  - exfalso. assert (maps s r' q (addr_of e)) as Hq0.
    { destruct Hq as (A & B & e0 & C & D). split_and!; [done|done|]. exists e0. split; [|done]. rewrite <- C. symmetry.
      rewrite L3; [by apply (st_walk _ _ _ _ _ _ Hst)|done|done|congruence]. }
    assert (Z.of_nat (length [r; r']) ≤ refc_get s (addr_of e)) as Hcnt; [|cbn in Hcnt; lia].
    apply (do_count _ _ _ Hdata); [|set_solver| |done].
    + apply list.NoDup_cons. split; [set_solver|apply list.NoDup_singleton].
    + intros x Hx. apply elem_of_cons in Hx as [->|Hx%list_elem_of_singleton]; [by exists (path v)|subst; by exists q].
Qed.

Lemma remap_copied n s2 : refc_get s (addr_of e) ≠ 0 → 0 ≤ refc_get s (addr_of e) → alloc_page (refc_dec (addr_of e) s1) = (Some n, s2) →
  let s' := set_entry pt (vpn 12 v) (w n) (copy_frame (addr_of e) n s2) in unseen s roots r v s' ∧ granted own s roots r v e s'.
Proof.
  intros Hz Hz0 Hal s'. pose proof (vpn_bound 39 v). destruct remap_old as (Hent & Hpe & Hmap). destruct stepped_unseen as [[U1 U2] U3].
  pose proof (st_tabs _ _ _ _ _ _ Hst) as Hok1. destruct (refc_dec_same s1 (addr_of e)) as [F1 F2]. set (s1' := refc_dec (addr_of e) s1) in *.
  destruct (to_mem _ _ _ Hok1) as [Hh1 Hlow1].
  destruct (alloc_page_spec s1' own1 (Some n) s2) as (Hreg & Hh2 & Hno & Hnout & Hn & Hs2); [by rewrite F2|by rewrite F2|done|].
  pose proof (st_region _ _ _ _ _ _ Hst) as Hreg1. rewrite F2 in *.
  assert (same_region (km s) (km s2)) as Hreg2 by (destruct Hreg, Hreg1; split; congruence).
  assert (n ∉ own) as Hno0 by (intros Hx; apply Hno; by apply (st_own _ _ _ _ _ _ Hst)).
  rewrite (outside_region (km s)) in Hnout by done.
  assert (∀ x, x ≠ n → page_of (copy_frame (addr_of e) n s2) x = page_of s1 x) as Hfr.
  { intros x Hx. unfold copy_frame. rewrite page_of_set, decide_False by done. rewrite Hs2. unfold zero_frame.
    rewrite page_of_set, decide_False by done. unfold page_of. cbn [frames set_km]. by rewrite F1. }
  assert (∀ r', r' ∈ roots → ¬ reach s1 r' n) as Hnr.
  { intros r' Hr' Hx. destruct (sp_own _ _ _ (proj1 (to_space _ _ _ Hok1 r' Hr')) n Hx) as [|Hx']; [done|].
    by apply (outside_region (km s)) in Hx'. }
  assert (addr_of e ≠ n) as Hen by (intros E; rewrite E in Hmap; by destruct (do_own _ _ _ Hdata r _ n Hr Hmap)).
  destruct (tabs_frame own1 (n :: own1) s1 (copy_frame (addr_of e) n s2) roots Hok1) as [Hok2 Hw2].
  { split; [done|]. by apply (low_region (km s1)). }
  { done. }
  { set_solver. }
  { intros r' t i Hr' Ht. unfold entry. rewrite Hfr; [done|]. intros ->. by apply (Hnr r'). }
  { intros r' t Hr' Ht. change (km (copy_frame (addr_of e) n s2)) with (km s2).
    assert (pte_refc_get (km s2) t = pte_refc_get (km s1') t) as ->; [|by rewrite F2].
    apply (alloc_page_refc s1' own1 n s2 t); rewrite ?F2; try done.
    - apply (reach_page_addr s1 r' t); [by apply (to_space _ _ _ Hok1)|by apply ureach_reach].
    - intros ->. by apply (Hnr r' Hr'), ureach_reach. }
  assert (descend (copy_frame (addr_of e) n s2) r [vpn 39 v; vpn 30 v; vpn 21 v] = Some pt) as Hpt2 by (rewrite <- Hpt; apply Hw2; [done|cbn; lia]).
  assert (private (copy_frame (addr_of e) n s2) roots r pt) as Hpriv2.
  { intros r' Hr' Hne (q & A & B & C). apply (Hpriv r' Hr' Hne). exists q. split_and!; [done|done|]. rewrite <- C. symmetry. apply Hw2; [done|lia]. }
  destruct (remap_entry e n Hn) as (W1 & W2 & W3 & W4 & W5). fold (w n) in *. rewrite Hpe in W2. rewrite Hue in W3.
  destruct (leaf_tabs (n :: own1) (copy_frame (addr_of e) n s2) roots r v pt (w n) Hok2 Hr Hv Hpt2 Hpriv2) as (L1 & L2 & L3 & L4).
  destruct (data_moved own (n :: own1) s (copy_frame (addr_of e) n s2) roots r v pt (w n) e n) as [Hd' Hu']; try done.
  { intros x Hx. apply list_elem_of_further. by apply (st_own _ _ _ _ _ _ Hst). }
  { intros r' q Hr' Hq Hl4. rewrite (proj2 (Hw2 r' q Hr' ltac:(lia))). by apply (st_walk _ _ _ _ _ _ Hst). }
  { intros r' t Hr' (q & A & B). rewrite (proj1 (Hw2 r' q Hr' ltac:(lia))) in B. apply (st_reach _ _ _ _ _ _ Hst); [done|by exists q]. }
  { apply list_elem_of_here. }
  { intros r' Hr' (q & A & B). rewrite (proj1 (Hw2 r' q Hr' ltac:(lia))) in B. apply (Hnr r' Hr'). by exists q. }
  { intros x Hx. assert (refc_get (copy_frame (addr_of e) n s2) x = refc_get s1' x) as -> by (rewrite Hs2; done).
    assert (∀ y, refc_get s1 y = refc_get s y) as Hrs by (intros; unfold refc_get; by rewrite (st_refc _ _ _ _ _ _ Hst)).
    unfold s1'. rewrite (refc_dec_data s1 (addr_of e) x), !Hrs by (done || apply page_addr_of || rewrite Hrs; lia). done. }
  assert (∀ r' q x, r' ∈ roots → maps s r' q x → page_of s' x = page_of s x) as Hc.
  { intros r' q x Hr' Hx. unfold s', set_entry. rewrite page_of_set, decide_False by (intros E; by apply (data_not_pt r' q x Hr' Hx)).
    rewrite Hfr; [by apply (U2 r' q)|]. intros ->. by destruct (do_own _ _ _ Hdata r' q n Hr' Hx). }
  split; [split; [|done]|].
  - intros r' q ? ? ? ?. unfold s'. rewrite L3 by done. rewrite (proj2 (Hw2 r' q ltac:(done) ltac:(lia))). by apply U1.
  - exists (w n), (n :: own1). rewrite W1. split_and!; [by apply L4|done| |by right|done| |done|done].
    + unfold s', set_entry. rewrite page_of_set, decide_False.
      * unfold copy_frame at 1. rewrite page_of_set, decide_True by done.
        rewrite Hs2. unfold zero_frame. rewrite page_of_set, decide_False by done. unfold page_of at 1. cbn [frames set_km]. rewrite F1. by apply (U2 r (path v)).
      * intros ->. apply (Hnr r Hr). exists [vpn 39 v; vpn 30 v; vpn 21 v]. split; [cbn; lia|done].
    + intros x Hx. apply list_elem_of_further. by apply (st_own _ _ _ _ _ _ Hst).
Qed.

Lemma remap_failed s2 : alloc_page (refc_dec (addr_of e) s1) = (None, s2) → unseen s roots r v s2 ∧ walk s2 r (path v) = walk s r (path v).
Proof.
  intros Hal. destruct stepped_unseen as [[U1 U2] U3]. destruct (refc_dec_same s1 (addr_of e)) as [F1 F2].
  assert (frames s2 = frames s1) as Hf.
  { unfold alloc_page in Hal. destruct (alloc_zeroed_page _) as [[]]; [done|]. injection Hal as <-. exact F1. }
  split; [split|].
  - intros r' q ? ? ? ?. rewrite (proj2 (frames_walk s1 s2 r' q Hf)). by apply U1.
  - intros r' q x Hr' Hx. unfold page_of at 1. rewrite Hf. by apply (U2 r' q).
  - by rewrite (proj2 (frames_walk s1 s2 r (path v) Hf)).
Qed.
End remap.
