(* ===== verification/PagingFork.v ===== *)
(** * Fork

    [cow_fork_pml4] walks all tables of the parent.  Everything it does to a
    state it meets only grows: counts go up, words of the tables lose their
    write permission.  So what one step of a loop achieves is kept by all
    later ones, and the walk achieves it everywhere. *)

From S2P Require Import Prelude Buddy BuddyInv BuddyOps BuddyTables BuddySpec PageAlloc BuddyPages VfsTypes Vma Paging PagingWalk PagingMap PagingCow.
From stdpp Require Import base gmap numbers sets strings list.
Local Open Scope Z_scope.

(** ** Loops whose steps only grow *)

Section loops.
Context {St : Type} (I : St → Prop) (R : St → St → Prop) (F : Z → St → Prop) (body : Z → St → St).
Context (Rrefl : ∀ s, R s s) (Rtrans : ∀ s1 s2 s3, R s1 s2 → R s2 s3 → R s1 s3).
Context (Fmono : ∀ i s s', F i s → I s → R s s' → F i s').

Lemma for_range_grows n lo s :
  (∀ i s', lo ≤ i < lo + Z.of_nat n → I s' → I (body i s') ∧ R s' (body i s') ∧ F i (body i s')) → I s →
  I (for_range n lo body s) ∧ R s (for_range n lo body s) ∧
  ∀ i, lo ≤ i < lo + Z.of_nat n → F i (for_range n lo body s).
Proof.
  revert lo s. induction n as [|n IH]; intros lo s Hstep Hs; cbn [for_range]; [split_and!; [done|apply Rrefl|intros; lia]|].
  destruct (Hstep lo s ltac:(lia) Hs) as (I1 & R1 & F1).
  destruct (IH (lo + 1) (body lo s)) as (I2 & R2 & F2); [intros i s' Hi; apply Hstep; lia|done|].
  split_and!; [done|by eapply Rtrans|]. intros i Hi. destruct (decide (i = lo)) as [->|]; [by eapply Fmono|apply F2; lia].
Qed.
End loops.

(** Steps that each establish a fact and disturb none of the earlier ones. *)
Lemma for_range_facts {St} (F : Z → St → Prop) (body : Z → St → St) n : ∀ (I : St → Prop) lo s,
  (∀ i s', lo ≤ i < lo + Z.of_nat n → I s' → I (body i s') ∧ F i (body i s')) →
  (∀ i j s', lo ≤ i < j → j < lo + Z.of_nat n → I s' → F i s' → F i (body j s')) → I s →
  I (for_range n lo body s) ∧ ∀ i, lo ≤ i < lo + Z.of_nat n → F i (for_range n lo body s).
Proof.
  induction n as [|n IH]; intros I lo s Hstep Hkeep Hs; cbn [for_range]; [split; [done|intros; lia]|].
  destruct (Hstep lo s ltac:(lia) Hs) as [I1 F1].
  destruct (IH (λ s, I s ∧ F lo s) (lo + 1) (body lo s)) as [[I2 F2] F3].
  - intros i s' Hi [Hi1 Hi2]. destruct (Hstep i s' ltac:(lia) Hi1) as [? ?]. split_and!; [done| |done]. apply Hkeep; try done; lia.
  - intros i j s' Hi Hj [Hi1 Hi2]. apply Hkeep; try done; lia.
  - done.
  - split; [done|]. intros i Hi. destruct (decide (i = lo)) as [->|]; [done|apply F3; lia].
Qed.

(** ** Entries without write permission *)

Lemma clear_w_bit e i : 0 ≤ i → Z.testbit (clear_w e) i = Z.testbit e i && negb (1 =? i).
Proof. intros. unfold clear_w. rewrite Z.ldiff_spec. change PTE_WRITABLE with (2 ^ 1). by rewrite Z.pow2_bits_eqb by lia. Qed.

Lemma clear_w_flags e : present (clear_w e) = present e ∧ huge (clear_w e) = huge e ∧ user (clear_w e) = user e ∧
  addr_of (clear_w e) = addr_of e ∧ writable (clear_w e) = false ∧ clear_w (clear_w e) = clear_w e.
Proof.
  rewrite !present_bit, !huge_bit, !user_bit, writable_bit, !clear_w_bit by lia. cbn. rewrite !andb_true_r, andb_false_r.
  split_and!; try done; apply Z.bits_inj'; intros i Hi.
  - rewrite !addr_of_bit, clear_w_bit by done. destruct (decide (12 ≤ i < 52)).
    + rewrite (proj2 (Z.eqb_neq 1 i)) by lia. by rewrite andb_true_r.
    + rewrite bool_decide_false by done. by rewrite !andb_false_r.
  - rewrite !clear_w_bit by done. by destruct (Z.testbit e i), (1 =? i).
Qed.

(** ** Growing *)

Definition bounded (s : pmem) : Prop :=
  (∀ i, 0 ≤ getd 0 (pte_refcs (km s)) i ≤ 65535) ∧ (∀ i, 0 ≤ getd 0 (page_refc s) i ≤ 255).

Definition fok (own : list Z) (s : pmem) : Prop := holds (km s) own ∧ bounded s.

(** [new] is the child's top table, [T] holds of the parent's tables. *)
Record forked (new : Z) (T : Z → Prop) (s s' : pmem) : Prop := {
  fk_entry : ∀ t i, t ≠ new → entry s' t i = entry s t i ∨ (user (entry s t i) = true ∧ entry s' t i = clear_w (entry s t i));
  fk_page : ∀ t, ¬ T t → t ≠ new → page_of s' t = page_of s t;
  fk_tab : ∀ t, pte_refc_get (km s) t ≤ pte_refc_get (km s') t;
  fk_data : ∀ x, refc_get s x ≤ refc_get s' x;
  fk_region : same_region (km s) (km s');
  fk_live : ∀ t, live_table s t = true → live_table s' t = true;
  fk_kernel : kernel_pml4 s' = kernel_pml4 s;
}.

Lemma forked_refl new T s : forked new T s s.
Proof. split; try done. intros. by left. Qed.

Lemma forked_trans new T s1 s2 s3 : forked new T s1 s2 → forked new T s2 s3 → forked new T s1 s3.
Proof.
  intros [A1 A2 A3 A4 A5 A6 A7] [B1 B2 B3 B4 B5 B6 B7]. split.
  - intros t i Ht. destruct (A1 t i Ht) as [E|[U E]], (B1 t i Ht) as [E'|[U' E']]; rewrite E', ?E.
    + by left.
    + right. split; [by rewrite <- E|done].
    + by right.
    + right. split; [done|]. by apply clear_w_flags.
  - intros t ? ?. by rewrite B2, A2.
  - intros t. specialize (A3 t). specialize (B3 t). lia.
  - intros x. specialize (A4 x). specialize (B4 x). lia.
  - destruct A5, B5. split; congruence.
  - auto.
  - congruence.
Qed.

(** The structure of the tables stays. *)
Lemma forked_flags new T s s' t i : forked new T s s' → t ≠ new →
  present (entry s' t i) = present (entry s t i) ∧ huge (entry s' t i) = huge (entry s t i) ∧
  user (entry s' t i) = user (entry s t i) ∧ addr_of (entry s' t i) = addr_of (entry s t i) ∧ is_ptr (entry s' t i) = is_ptr (entry s t i).
Proof.
  intros Hf Ht. unfold is_ptr. destruct (fk_entry _ _ _ _ Hf t i Ht) as [->|[_ ->]]; [done|].
  destruct (clear_w_flags (entry s t i)) as (-> & -> & -> & -> & _). done.
Qed.

Lemma forked_descend new T s s' root p : forked new T s s' → ¬ reach s root new → (length p ≤ 4)%nat → descend s' root p = descend s root p.
Proof.
  intros Hf. revert root. assert (∀ q root, (∀ p1 p2, q = p1 ++ p2 → p2 ≠ [] → descend s root p1 ≠ Some new) → descend s' root q = descend s root q) as Hgen.
  { induction q as [|i q IH]; intros root Hn; [done|]. cbn [descend].
    destruct (forked_flags new T s s' root i Hf) as (_ & _ & _ & Ha & Hp).
    { intros ->. by apply (Hn [] (i :: q)). }
    rewrite Ha, Hp. destruct (is_ptr (entry s root i)) eqn:Hi; [|done]. apply IH.
    intros p1 p2 -> Hne Hd. apply (Hn (i :: p1) p2); [done|done|]. cbn [descend]. by rewrite Hi. }
  intros root Hn Hl. apply Hgen. intros p1 p2 -> Hne Hd. apply Hn. exists p1. split; [|done].
  rewrite length_app in Hl. destruct p2; [done|]. cbn in Hl. lia.
Qed.

(** ** The steps *)

(** [mark_page_used] only sets used bits and clears freed bits. *)
Lemma mark_used_holds k l x : holds k l → holds (mark_page_used x k) l.
Proof.
  intros (ls & others & Hinv). exists ls, others. unfold mark_page_used. rewrite untrack_eq.
  set (k1 := if negb (phys_to_idx k x =? U64_MAX) then used_mark (phys_to_idx k x) k else k).
  assert (∃ u, k1 = set_used u k ∧ ∀ i, bmp_get (used_bmp k) i = true → bmp_get u i = true) as (u & Hk1 & Hu).
  { unfold k1. destruct (negb _); [|exists (used_bmp k); by destruct k]. rewrite used_mark_eq. eexists. split; [done|].
    intros i Hi. unfold umark. case_match; [done|]. by rewrite bmp_get_set, Hi, orb_true_r. }
  rewrite Hk1. eapply ainv_tables; [..|exact Hinv]; try done; [apply Hinv|].
  intros y Hy. destruct (ai_live _ _ _ Hinv y Hy) as (T1 & T2 & T3). split_and!; [by apply Hu|done|].
  unfold pidx, fclear in *. cbn. case_match; [done|]. rewrite bmp_get_clear. cbn in T3. rewrite T3. apply andb_false_r.
Qed.

Lemma mark_used_keeps k x : pte_refcs (mark_page_used x k) = pte_refcs k ∧ al (mark_page_used x k) = al k ∧
  page_types (mark_page_used x k) = page_types k ∧ (∀ y, page_is_used k y = true → page_is_used (mark_page_used x k) y = true).
Proof.
  unfold mark_page_used. rewrite untrack_eq. destruct (negb _); [rewrite used_mark_eq|]; split_and!; try done.
  intros y. unfold page_is_used, used_set, used_word. cbn. change (phys_to_idx (set_freed _ _) y) with (phys_to_idx k y).
  destruct (USED_BMP_WORDS <=? Z.shiftr (phys_to_idx k y) 6); [done|]. rewrite !negb_true_iff, !Z.eqb_neq. intros Hy. unfold umark.
  case_match; [done|]. rewrite getd_insert. case_decide as Hd; [|done]. rewrite Hd. intros H0. apply Hy.
  rewrite Z.land_lor_distr_l in H0. by apply Z.lor_eq_0_iff in H0 as [? _].
Qed.

Lemma km_forked new T s k :
  (∀ t, pte_refc_get (km s) t ≤ pte_refc_get k t) → al k = al (km s) → page_types k = page_types (km s) →
  (∀ y, page_is_used (km s) y = true → page_is_used k y = true) → forked new T s (set_km k s).
Proof.
  intros Hrc Hal Hty Hus. split; try done.
  - intros. by left.
  - cbn. unfold same_region. by rewrite Hal.
  - intros t. unfold live_table, in_managed, managed_end. cbn [km set_km]. rewrite Hal. intros [[A B]%andb_prop C]%andb_prop.
    rewrite A, (Hus t B). cbn [andb]. unfold page_type_get, phys_to_idx in *. by rewrite Hal, Hty.
Qed.

Lemma refc_inc_fok own new T s x : fok own s →
  fok own (refc_inc x s) ∧ forked new T s (refc_inc x s) ∧
  (refc_idx x < MAX_REFC_PAGES → refc_get (refc_inc x s) x = Z.min (refc_get s x + 1) 255).
Proof.
  intros [Hh [Hb1 Hb2]]. unfold refc_inc. destruct (Z.ltb_spec (refc_idx x) MAX_REFC_PAGES) as [Hlt|Hge].
  2: { split_and!; [done|apply forked_refl|lia]. }
  split_and!.
  - split; [done|]. split; [done|]. intros i. cbn. rewrite getd_insert. case_decide; [|apply Hb2]. pose proof (Hb2 (refc_idx x)). lia.
  - split; try done; [intros; by left|]. intros y. unfold refc_get. cbn. case_match; [|done]. rewrite getd_insert. case_decide as Hd; [|done].
    rewrite <- Hd. pose proof (Hb2 (refc_idx x)). lia.
  - intros _. unfold refc_get. cbn. rewrite (proj2 (Z.ltb_lt _ _) Hlt). by rewrite getd_insert_eq.
Qed.

Lemma share_data own new T s x : fok own s →
  fok own (fork_share_refc x s) ∧ forked new T s (fork_share_refc x s) ∧ frames (fork_share_refc x s) = frames s ∧
  (refc_idx x < MAX_REFC_PAGES → Z.min 255 (Z.max 2 (refc_get s x + 1)) ≤ refc_get (fork_share_refc x s) x).
Proof.
  intros [Hh Hb]. unfold fork_share_refc. set (s1 := set_km (mark_page_used x (km s)) s).
  destruct (mark_used_keeps (km s) x) as (M1 & M2 & M3 & M4).
  assert (forked new T s s1) as F1.
  { apply km_forked; try done. intros t. unfold pte_refc_get, phys_to_idx. by rewrite M1, M2. }
  assert (fok own s1) as O1.
  { split; [by apply mark_used_holds|]. destruct Hb as [B1 B2]. split; [|done]. intros i. cbn. rewrite M1. apply B1. }
  assert (frames s1 = frames s ∧ ∀ y, frames (refc_inc x y) = frames y) as [Hf0 Hf] by (split; [done|]; intros; unfold refc_inc; by case_match).
  change (refc_get s x) with (refc_get s1 x). assert (0 ≤ refc_get s1 x) as Hpos.
  { unfold refc_get. destruct O1 as [_ [_ B]]. case_match; [apply B|lia]. }
  destruct (refc_inc_fok own new T s1 x O1) as (O2 & F2 & V2).
  destruct (Z.eqb_spec (refc_get s1 x) 0) as [Hz|Hnz].
  - destruct (refc_inc_fok own new T (refc_inc x s1) x O2) as (O3 & F3 & V3). split_and!; [done| |by rewrite !Hf|].
    + by eapply forked_trans; [exact F1|]; eapply forked_trans; [exact F2|].
    + intros Hlt. rewrite V3, V2, Hz by done. lia.
  - split_and!; [done|by eapply forked_trans|by rewrite Hf|]. intros Hlt. rewrite V2 by done. lia.
Qed.

Lemma tab_inc_fok own new T s x : fok own s →
  fok own (set_km (pte_refc_inc x (km s)) s) ∧ forked new T s (set_km (pte_refc_inc x (km s)) s) ∧
  (phys_to_idx (km s) x < Buddy.MAX_REFC_PAGES →
   pte_refc_get (pte_refc_inc x (km s)) x = Z.min (pte_refc_get (km s) x + 1) 65535).
Proof.
  intros [Hh [Hb1 Hb2]]. unfold pte_refc_inc. destruct (Z.ltb_spec (phys_to_idx (km s) x) Buddy.MAX_REFC_PAGES) as [Hlt|Hge].
  2: { split_and!; [by destruct s|destruct s; apply forked_refl|lia]. }
  set (k := set_refcs _ (km s)).
  assert (∀ i, getd 0 (pte_refcs k) i = if decide (phys_to_idx (km s) x = i) then Z.min (getd 0 (pte_refcs (km s)) i + 1) 65535 else getd 0 (pte_refcs (km s)) i) as Hk.
  { intros i. unfold k. cbn. rewrite getd_insert. by case_decide as Hd; [rewrite <- Hd|]. }
  split_and!.
  - split.
    + destruct Hh as (ls & others & Hinv). exists ls, others. pose proof (refc_inc_ainv x (km s) ls _ Hinv) as Hi.
      unfold pte_refc_inc in Hi. by rewrite (proj2 (Z.ltb_lt _ _) Hlt) in Hi.
    + split; [|done]. intros i. cbn. rewrite Hk. pose proof (Hb1 i). case_decide; lia.
  - apply km_forked; try done. intros t. unfold pte_refc_get. change (phys_to_idx k t) with (phys_to_idx (km s) t).
    case_match; [|done]. rewrite Hk. pose proof (Hb1 (phys_to_idx (km s) t)). case_decide; lia.
  - intros _. unfold pte_refc_get. change (phys_to_idx k x) with (phys_to_idx (km s) x). rewrite (proj2 (Z.ltb_lt _ _) Hlt), Hk. by rewrite decide_True.
Qed.

Lemma share_tab own new T s x : fok own s →
  fok own (fork_share_pte_refc x s) ∧ forked new T s (fork_share_pte_refc x s) ∧ frames (fork_share_pte_refc x s) = frames s ∧
  (phys_to_idx (km s) x < Buddy.MAX_REFC_PAGES →
   Z.min 65535 (Z.max 2 (pte_refc_get (km s) x + 1)) ≤ pte_refc_get (km (fork_share_pte_refc x s)) x).
Proof.
  intros [Hh Hb]. unfold fork_share_pte_refc. set (k := mark_page_used x (km s)).
  destruct (mark_used_keeps (km s) x) as (M1 & M2 & M3 & M4). fold k in M1, M2, M3, M4.
  assert (∀ t, pte_refc_get k t = pte_refc_get (km s) t) as Mk by (intros; unfold pte_refc_get, phys_to_idx; by rewrite M1, M2).
  assert (forked new T s (set_km k s)) as F1 by (apply km_forked; try done; intros t; by rewrite Mk).
  assert (fok own (set_km k s)) as O1.
  { split; [by apply mark_used_holds|]. destruct Hb as [B1 B2]. split; [|done]. intros i. cbn. rewrite M1. apply B1. }
  assert (phys_to_idx k x = phys_to_idx (km s) x) as Hi by (unfold phys_to_idx; by rewrite M2).
  assert (0 ≤ pte_refc_get k x) as Hpos.
  { unfold pte_refc_get. destruct O1 as [_ [B _]]. case_match; [apply B|lia]. }
  destruct (tab_inc_fok own new T (set_km k s) x O1) as (O2 & F2 & V2). cbn in O2, F2, V2.
  rewrite <- Mk, <- Hi. destruct (Z.eqb_spec (pte_refc_get k x) 0) as [Hz|Hnz].
  - destruct (tab_inc_fok own new T _ x O2) as (O3 & F3 & V3). cbn in O3, F3, V3. split_and!; [done| |done|].
    + by eapply forked_trans; [exact F1|]; eapply forked_trans; [exact F2|].
    + intros Hlt. cbn. assert (phys_to_idx (pte_refc_inc x k) x = phys_to_idx k x) as Hx by (unfold pte_refc_inc; by case_match).
      rewrite V3, V2, Hz by (done || by rewrite Hx). lia.
  - split_and!; [done|by eapply forked_trans|done|]. intros Hlt. cbn. rewrite V2 by done. lia.
Qed.

(** Taking the write permission from a user entry. *)
Lemma protect_fok own new (T : Z → Prop) s t i : fok own s → T t → user (entry s t i) = true → t ≠ new →
  fok own (set_entry t i (clear_w (entry s t i)) s) ∧ forked new T s (set_entry t i (clear_w (entry s t i)) s).
Proof.
  intros Hf Ht Hu Hn. split; [exact Hf|]. split; try done.
  - intros t' i' _. rewrite entry_set. case_decide as Hd; [|by left]. destruct Hd as [-> ->]. by right.
  - intros t' Ht' _. unfold set_entry. rewrite page_of_set, decide_False; [done|]. by intros ->.
Qed.

(** ** The walk *)

Section fork_walk.
Context (own : list Z) (new : Z) (T : Z → Prop) (s0 : pmem) (HTnew : ¬ T new).

Definition inner (s s' : pmem) : Prop := forked new T s s' ∧ page_of s' new = page_of s new.

Lemma inner_refl s : inner s s.
Proof. split; [apply forked_refl|done]. Qed.

Lemma inner_trans s1 s2 s3 : inner s1 s2 → inner s2 s3 → inner s1 s3.
Proof. intros [A B] [C D]. split; [by eapply forked_trans|congruence]. Qed.

(** The state during the walk. *)
Definition during (s : pmem) : Prop := fok own s ∧ forked new T s0 s.

Lemma during_step s s' : during s → fok own s' → inner s s' → during s'.
Proof. intros [_ H] Hf [H' _]. split; [done|by eapply forked_trans]. Qed.

(** What the walk achieves for a page table entry, for a table, and for
    everything below an entry of the two levels above. *)
Definition leaf_done (t i : Z) (s : pmem) : Prop :=
  let e := entry s0 t i in
  present e = true → user e = true → writable (entry s t i) = false ∧
  (refc_idx (addr_of e) < MAX_REFC_PAGES → Z.min 255 (Z.max 2 (refc_get s0 (addr_of e) + 1)) ≤ refc_get s (addr_of e)).

Definition tab_done (t : Z) (s : pmem) : Prop :=
  phys_to_idx (km s0) t < Buddy.MAX_REFC_PAGES → Z.min 65535 (Z.max 2 (pte_refc_get (km s0) t + 1)) ≤ pte_refc_get (km s) t.

Definition below_done (deeper : Z → Z → pmem → Prop) (t i : Z) (s : pmem) : Prop :=
  let e := entry s0 t i in
  is_ptr e = true → tab_done (addr_of e) s ∧ ∀ j, 0 ≤ j < 512 → deeper (addr_of e) j s.

Lemma leaf_keep t i s s' : t ≠ new → forked new T s s' → leaf_done t i s → leaf_done t i s'.
Proof.
  intros Ht Hf H. intros Hp Hu. destruct (H Hp Hu) as [Hw Hc]. split.
  - destruct (fk_entry _ _ _ _ Hf t i Ht) as [->|[_ ->]]; [done|]. by apply clear_w_flags.
  - intros Hi. specialize (Hc Hi). pose proof (fk_data _ _ _ _ Hf (addr_of (entry s0 t i))). lia.
Qed.

Lemma tab_keep t s s' : forked new T s s' → tab_done t s → tab_done t s'.
Proof. intros Hf H Hi. specialize (H Hi). pose proof (fk_tab _ _ _ _ Hf t). lia. Qed.

Lemma fork_leaf_spec t i s : T t → during s →
  during (fork_leaf t i s) ∧ inner s (fork_leaf t i s) ∧ leaf_done t i (fork_leaf t i s).
Proof.
  intros Ht Hd. assert (t ≠ new) as Hn by (by intros ->). pose proof Hd as [Hfok H0].
  destruct (forked_flags new T s0 s t i H0 Hn) as (Gp & _ & Gu & Ga & _). unfold fork_leaf, leaf_done. rewrite <- Gp, <- Gu, <- Ga.
  set (e := entry s t i). destruct (present e); [|split_and!; [done|apply inner_refl|done]].
  destruct (user e) eqn:Hu; [|split_and!; [done|apply inner_refl|done]]. cbn [negb].
  destruct (share_data own new T s (addr_of e) Hfok) as (O1 & F1 & E1 & V1). set (s1 := fork_share_refc (addr_of e) s) in *.
  assert (inner s s1) as I1 by (split; [done|]; unfold page_of; by rewrite E1).
  assert (entry s1 t i = e) as Ee by (unfold entry, page_of; by rewrite E1).
  assert (refc_idx (addr_of e) < MAX_REFC_PAGES → Z.min 255 (Z.max 2 (refc_get s0 (addr_of e) + 1)) ≤ refc_get s1 (addr_of e)) as Hc.
  { intros Hi. specialize (V1 Hi). pose proof (fk_data _ _ _ _ H0 (addr_of e)). lia. }
  destruct (writable e) eqn:Hw; cbn [negb].
  - destruct (protect_fok own new T s1 t i O1 Ht) as [O2 F2]; [by rewrite Ee|done|]. rewrite Ee in *.
    assert (inner s (set_entry t i (clear_w e) s1)) as I2.
    { eapply inner_trans; [exact I1|]. split; [done|]. unfold set_entry. by rewrite page_of_set, decide_False. }
    split_and!; [by eapply during_step|done|]. intros _ _. split; [|exact Hc].
    rewrite entry_set, decide_True by done. by apply clear_w_flags.
  - split_and!; [by eapply during_step|done|]. intros _ _. split; [by rewrite Ee|done].
Qed.

(** A loop over the entries of a table, after counting the table. *)
Lemma fork_table_spec deeper body t s :
  T t → during s → (∀ i s', T t → during s' → during (body i s') ∧ inner s' (body i s') ∧ deeper t i (body i s')) →
  (∀ i s1 s2, deeper t i s1 → forked new T s1 s2 → deeper t i s2) →
  let s' := for_range 512 0 body (fork_share_pte_refc t s) in
  during s' ∧ inner s s' ∧ tab_done t s' ∧ ∀ j, 0 ≤ j < 512 → deeper t j s'.
Proof.
  intros Ht [Hfok H0] Hbody Hkeep. cbv zeta.
  destruct (share_tab own new T s t Hfok) as (O1 & F1 & E1 & V1). set (s1 := fork_share_pte_refc t s) in *.
  assert (inner s s1) as I1 by (split; [done|]; unfold page_of; by rewrite E1).
  assert (tab_done t s1) as T1.
  { intros Hi. pose proof (fk_tab _ _ _ _ H0 t). destruct (fk_region _ _ _ _ H0) as [Hb _].
    assert (phys_to_idx (km s) t = phys_to_idx (km s0) t) as Hx by (unfold phys_to_idx; by rewrite Hb).
    rewrite Hx in V1. specialize (V1 Hi). lia. }
  assert (during s1) as D1 by (by apply (during_step s)).
  destruct (for_range_grows during inner (deeper t) body inner_refl inner_trans) with (n := 512%nat) (lo := 0) (s := s1) as (A & B & C).
  - intros i a b HF _ [Hab _]. by eapply Hkeep.
  - intros i s' _ Hs'. by apply Hbody.
  - done.
  - split_and!; [done|by eapply inner_trans|by apply (tab_keep t s1 _ (proj1 B))|exact C].
Qed.

Lemma fork_huge_spec t i s : T t → during s →
  during (fork_huge t i (entry s t i) s) ∧ inner s (fork_huge t i (entry s t i) s).
Proof.
  intros Ht Hd. assert (t ≠ new) as Hn by (by intros ->). pose proof Hd as [Hfok H0]. unfold fork_huge. set (e := entry s t i).
  destruct (user e) eqn:Hu; [|split; [done|apply inner_refl]].
  destruct (share_data own new T s (addr_of e) Hfok) as (O1 & F1 & E1 & _). set (s1 := fork_share_refc (addr_of e) s) in *.
  assert (entry s1 t i = e) as Ee by (unfold entry, page_of; by rewrite E1).
  destruct (protect_fok own new T s1 t i O1 Ht) as [O2 F2]; [by rewrite Ee|done|]. rewrite Ee in *.
  assert (inner s (set_entry t i (clear_w e) s1)) as I2.
  { split; [by eapply forked_trans|]. unfold set_entry. rewrite page_of_set, decide_False by done. unfold page_of. by rewrite E1. }
  split; [by eapply during_step|done].
Qed.

(** [L d] holds of the parent's tables [d] levels below the top. *)
Context (L : nat → Z → Prop) (HL : ∀ d t, L d t → T t).
Context (Hdown : ∀ d t i, (d ≤ 2)%nat → L d t → is_ptr (entry s0 t i) = true → L (S d) (addr_of (entry s0 t i))).

(** One entry of a middle level. *)
Lemma fork_entry_spec d deeper body t i s :
  (d ≤ 2)%nat → L d t → during s →
  (∀ c j s', L (S d) c → during s' → during (body c j s') ∧ inner s' (body c j s') ∧ deeper c j (body c j s')) →
  (∀ c j s1 s2, L (S d) c → deeper c j s1 → forked new T s1 s2 → deeper c j s2) →
  let e := entry s t i in
  let s' := if negb (present e) then s else if huge e then fork_huge t i e s
            else for_range 512 0 (body (addr_of e)) (fork_share_pte_refc (addr_of e) s) in
  during s' ∧ inner s s' ∧ below_done deeper t i s'.
Proof.
  intros Hdl Hlt Hd Hbody Hkeep. pose proof (HL d t Hlt) as Ht. assert (t ≠ new) as Hn by (by intros ->). pose proof Hd as [Hfok H0]. cbv zeta.
  destruct (forked_flags new T s0 s t i H0 Hn) as (Gp & Gh & _ & Ga & Gi). unfold below_done. rewrite <- Gi, <- Ga.
  unfold is_ptr at 1. destruct (present (entry s t i)) eqn:Hp; [|split_and!; [done|apply inner_refl|done]]. cbn [negb].
  destruct (huge (entry s t i)) eqn:Hh.
  { destruct (fork_huge_spec t i s Ht Hd). split_and!; done. }
  assert (L (S d) (addr_of (entry s t i))) as Htc.
  { rewrite Ga. apply Hdown; [done|done|]. unfold is_ptr. by rewrite <- Gp, <- Gh. }
  destruct (fork_table_spec deeper (body (addr_of (entry s t i))) (addr_of (entry s t i)) s (HL _ _ Htc) Hd) as (A & B & C & D).
  - intros j s' _. by apply Hbody.
  - intros j s1 s2. by apply Hkeep.
  - split_and!; done.
Qed.

Lemma below_keep d (deeper : Z → Z → pmem → Prop) t i s s' :
  (d ≤ 2)%nat → (∀ c j, L (S d) c → deeper c j s → deeper c j s') → L d t → forked new T s s' → below_done deeper t i s → below_done deeper t i s'.
Proof. intros Hdl Hk Ht Hf H Hp. destruct (H Hp) as [A B]. split; [by eapply tab_keep|]. intros j Hj. apply Hk; [by apply Hdown|by apply B]. Qed.

Lemma leaf_keep' c j s1 s2 : L 3 c → leaf_done c j s1 → forked new T s1 s2 → leaf_done c j s2.
Proof. intros Hc%HL H Hf. eapply leaf_keep; [|done|done]. by intros ->. Qed.

Lemma pde_keep c j s1 s2 : L 2 c → below_done leaf_done c j s1 → forked new T s1 s2 → below_done leaf_done c j s2.
Proof. intros Hc H Hf. eapply (below_keep 2); [lia| |done|done|done]. intros c' j' Hc' Hl. by eapply leaf_keep'. Qed.

Lemma pdpte_keep c j s1 s2 : L 1 c → below_done (below_done leaf_done) c j s1 → forked new T s1 s2 → below_done (below_done leaf_done) c j s2.
Proof. intros Hc H Hf. eapply (below_keep 1); [lia| |done|done|done]. intros c' j' Hc' Hl. by eapply pde_keep. Qed.

Lemma fork_pde_spec t i s : L 2 t → during s →
  during (fork_pde t i s) ∧ inner s (fork_pde t i s) ∧ below_done leaf_done t i (fork_pde t i s).
Proof.
  intros Ht Hd. apply (fork_entry_spec 2 leaf_done fork_leaf t i s); [lia|done|done| |apply leaf_keep'].
  intros c j s' Hc Hs'. apply fork_leaf_spec; [by eapply HL|done].
Qed.

Lemma fork_pdpte_spec t i s : L 1 t → during s →
  during (fork_pdpte t i s) ∧ inner s (fork_pdpte t i s) ∧ below_done (below_done leaf_done) t i (fork_pdpte t i s).
Proof.
  intros Ht Hd. apply (fork_entry_spec 1 (below_done leaf_done) fork_pde t i s); [lia|done|done| |apply pde_keep].
  intros c j s' Hc Hs'. by apply fork_pde_spec.
Qed.

(** One entry of the top table: shared with the child, which otherwise keeps
    what it had ([ni]), and all below it. *)
Definition top_done (ni : Z → Z) (old i : Z) (s : pmem) : Prop :=
  entry s new i = (if present (entry s0 old i) then entry s0 old i else ni i) ∧ below_done (below_done (below_done leaf_done)) old i s.

Context (ni : Z → Z) (old : Z) (Hold : old ≠ new) (Htop : ∀ i, huge (entry s0 old i) = false).
Context (Hlive : ∀ i, 0 ≤ i < 256 → present (entry s0 old i) = true →
  live_table s0 (addr_of (entry s0 old i)) = true ∧ L 1 (addr_of (entry s0 old i))).
Context (Hroot : ¬ T old).

Lemma old_entry s i : during s → entry s old i = entry s0 old i.
Proof. intros [_ Hf]. unfold entry. by rewrite (fk_page _ _ _ _ Hf old Hroot Hold). Qed.

Lemma set_new_forked s i v : during s → during (set_entry new i v s) ∧ forked new T s (set_entry new i v s).
Proof.
  intros Hd. assert (forked new T s (set_entry new i v s)) as Hf.
  { split; try done.
    - intros t j Ht. rewrite entry_set, decide_False by naive_solver. by left.
    - intros t Ht Hn. unfold set_entry. by rewrite page_of_set, decide_False by done. }
  split; [|done]. destruct Hd as [Hfok H0]. split; [exact Hfok|by eapply forked_trans].
Qed.

Lemma fork_pml4e_spec i s : 0 ≤ i < 256 → during s →
  (present (entry s0 old i) = false → entry s new i = ni i) →
  during (fork_pml4e old new i s) ∧ forked new T s (fork_pml4e old new i s) ∧ top_done ni old i (fork_pml4e old new i s) ∧
  ∀ j, j ≠ i → entry (fork_pml4e old new i s) new j = entry s new j.
Proof.
  intros Hi Hd Habs. unfold fork_pml4e, top_done, below_done at 1. rewrite (old_entry s i Hd). set (e := entry s0 old i) in *.
  assert (huge e = false) as He by apply Htop. unfold is_ptr at 1. rewrite He. destruct (present e) eqn:Hp; cbn [negb andb].
  2: { split_and!; [done|apply forked_refl|by apply Habs|done|done]. }
  destruct (Hlive i Hi Hp) as [Hlv HL1]. fold e in Hlv, HL1. rewrite (fk_live _ _ _ _ (proj2 Hd) _ Hlv). cbn [negb].
  destruct (set_new_forked s i e Hd) as [Hd1 F1]. set (s1 := set_entry new i e s) in *.
  destruct (fork_table_spec (below_done (below_done leaf_done)) (fork_pdpte (addr_of e)) (addr_of e) s1 (HL _ _ HL1) Hd1) as (A & [B1 B2] & C & D).
  - intros j s' _ Hs'. by apply fork_pdpte_spec.
  - intros j a b. by apply pdpte_keep.
  - assert (∀ j x, page_of x new = page_of s1 new → entry x new j = entry s1 new j) as Hent by (intros j x Hx; unfold entry; by rewrite Hx).
    split_and!; [exact A|exact (forked_trans _ _ _ _ _ F1 B1)| |intros _; split; [exact C|exact D]|].
    + rewrite (Hent i _ B2). unfold s1. rewrite entry_set, decide_True by done. reflexivity.
    + intros j Hj. rewrite (Hent j _ B2). unfold s1. rewrite entry_set, decide_False; [reflexivity|]. intros [_ E]. by apply Hj.
Qed.

Lemma top_keep i s s' : (present (entry s0 old i) = true → L 1 (addr_of (entry s0 old i))) →
  forked new T s s' → entry s' new i = entry s new i → top_done ni old i s → top_done ni old i s'.
Proof.
  intros Hl Hf Hn [A B]. split; [by rewrite Hn|]. intros Hp. destruct (B Hp) as [B1 B2]. split; [by eapply tab_keep|].
  intros j Hj. eapply pdpte_keep; [|by apply B2|done]. apply Hl. by apply andb_prop in Hp as [? _].
Qed.

Lemma fork_loop_spec s : during s → (∀ i, 0 ≤ i < 256 → present (entry s0 old i) = false → entry s new i = ni i) →
  let s' := for_range 256 0 (fork_pml4e old new) s in
  during s' ∧ (∀ i, 0 ≤ i < 256 → top_done ni old i s') ∧ ∀ j, ¬ 0 ≤ j < 256 → entry s' new j = entry s new j.
Proof.
  intros Hd Habs.
  destruct (for_range_facts (top_done ni old) (fork_pml4e old new) 256 (λ x, during x ∧
    (∀ i, 0 ≤ i < 256 → present (entry s0 old i) = false → entry x new i = ni i) ∧ ∀ j, ¬ 0 ≤ j < 256 → entry x new j = entry s new j) 0 s)
    as [(A1 & A2 & A3) B]; [..|done].
  - intros i x Hi (D1 & D2 & D3). destruct (fork_pml4e_spec i x) as (E1 & E2 & E3 & E4); [lia|done|apply D2; lia|].
    split_and!; [done| | |done].
    + intros j Hj Hp. destruct (decide (j = i)) as [->|Hne]; [destruct E3 as [E3 _]; by rewrite Hp in E3|]. rewrite E4 by done. by apply D2.
    + intros j Hj. rewrite E4 by lia. by apply D3.
  - intros i j x Hi Hj (D1 & D2 & D3) Ht. destruct (fork_pml4e_spec j x) as (E1 & E2 & E3 & E4); [lia|done|apply D2; lia|].
    eapply top_keep; [|exact E2|apply E4; lia|done]. intros Hp. apply Hlive; [lia|done].
  - done.
Qed.
End fork_walk.

(** * What a fork gives the child

    The loops of [cow_fork_pml4] (PagingFork.v) put together with the
    allocation of the child's top table: the child sees what the parent sees,
    nobody's translations change, no user page stays writable, and the counts
    of shared tables and pages cover the child as well. *)

(** ** The tables of the allocator after a page is handed out *)

Lemma umark_used k k' j y :
  base (al k') = base (al k) → used_bmp k' = umark j (used_bmp k) → page_is_used k y = true → page_is_used k' y = true.
Proof.
  intros Hb Hu. unfold page_is_used, used_set, used_word.
  assert (phys_to_idx k' y = phys_to_idx k y) as -> by (unfold phys_to_idx; by rewrite Hb).
  destruct (USED_BMP_WORDS <=? _); [done|]. rewrite Hu, !negb_true_iff, !Z.eqb_neq. intros Hy. unfold umark.
  case_match; [done|]. rewrite getd_insert. case_decide as Hd; [|done]. rewrite Hd. intros H0. apply Hy.
  rewrite Z.land_lor_distr_l in H0. by apply Z.lor_eq_0_iff in H0 as [? _].
Qed.

Definition counts_ok (k : kmem) : Prop := ∀ i, 0 ≤ getd 0 (pte_refcs k) i ≤ 65535.

Lemma inc_counts a k : counts_ok k → counts_ok (pte_refc_inc a k).
Proof.
  intros H i. unfold pte_refc_inc. case_match; [|apply H]. cbn. rewrite getd_insert. case_decide; [|apply H].
  pose proof (H (phys_to_idx k a)). lia.
Qed.

Lemma type_set_eq a t k : page_type_set a t k = set_types (tset (phys_to_idx k a) t (page_types k)) k.
Proof. unfold page_type_set, tset. case_match; [done|by destruct k]. Qed.

Lemma tset_ne i j t m : i ≠ j → getd 0 (tset j t m) i = getd 0 m i.
Proof. intros H. unfold tset. case_match; [by rewrite getd_insert_ne|done]. Qed.

(** Counts stay in range, used pages stay used, other pages keep their type. *)
Lemma alloc_zeroed_marks k l n k' : holds k l → counts_ok k → alloc_zeroed_page k = (Some n, k') →
  counts_ok k' ∧ (∀ y, page_is_used k y = true → page_is_used k' y = true) ∧
  ∀ i, i ≠ phys_to_idx k n → getd 0 (page_types k') i = getd 0 (page_types k) i.
Proof.
  intros (ls & others & Hinv) Hcnt. pose proof Hinv as [Hwf _ Hq _ Hok _ _ _ _]. unfold alloc_zeroed_page.
  assert (q_pages_ok k) as Hqp.
  { intros a Ha. apply (Hok (a, 0%nat)). unfold held. apply elem_of_app. right. apply list_elem_of_fmap. by exists a. }
  destruct (q_pop k) as [r1 k1] eqn:Hpop.
  destruct (q_pop_refines k r1 k1 (wf_region _ _ Hwf) Hq Hqp Hpop) as [_ Hk1]. destruct r1 as [a|].
  - destruct Hk1 as [_ Hk1]. intros [= <- <-]. rewrite used_mark_eq, untrack_eq, type_set_eq.
    assert (∀ q x, base (al (pte_refc_inc q x)) = base (al x) ∧ used_bmp (pte_refc_inc q x) = used_bmp x ∧ page_types (pte_refc_inc q x) = page_types x) as E
      by (intros; unfold pte_refc_inc; by case_match).
    assert (counts_ok k1) as C1 by (rewrite Hk1; by apply inc_counts).
    set (k2 := set_types _ _). destruct (E a k2) as (E1 & E2 & E3).
    assert (base (al k2) = base (al k) ∧ used_bmp k2 = used_bmp k) as [F1 F2] by (unfold k2; cbn; rewrite Hk1; destruct (E a (set_quar (quar k1) k)) as (? & ? & _); done).
    assert (phys_to_idx k1 a = phys_to_idx k a) as Hx by (unfold phys_to_idx; by rewrite <- F1).
    split_and!.
    + exact (inc_counts a k2 C1).
    + intros y. eapply umark_used; [cbn; congruence|]. cbn. by rewrite E2, F2.
    + intros i Hi. cbn. rewrite E3. unfold k2. cbn. change (phys_to_idx (zero_page a k1) a) with (phys_to_idx k1 a). rewrite Hx.
      rewrite tset_ne by done. rewrite Hk1. by destruct (E a (set_quar (quar k1) k)) as (_ & _ & ->).
  - destruct Hk1 as [_ ->]. destruct (alloc_nolock 0 k) as [r2 k2] eqn:Hal.
    destruct (alloc_spec 0 k ls r2 k2 Hwf Hal) as (ls' & _ & Hrest & _ & _ & Hpost). unfold rest in Hrest. injection Hrest as Hb _ _ _ Hrc _ _ _ _ _ _.
    destruct r2 as [a|]; intros [= <- <-]. destruct Hpost as (_ & _ & _ & _ & _ & _ & Ht). injection Ht as Hu _ Hty.
    rewrite type_set_eq. set (k3 := set_types _ _).
    assert (base (al (pte_refc_inc a k3)) = base (al k) ∧ used_bmp (pte_refc_inc a k3) = used_bmp k2 ∧ page_types (pte_refc_inc a k3) = page_types k3) as (E1 & E2 & E3)
      by (unfold pte_refc_inc; by case_match).
    split_and!.
    + apply inc_counts. intros i. cbn. rewrite Hrc. apply Hcnt.
    + intros y. eapply umark_used; [exact E1|]. rewrite E2. exact Hu.
    + intros i Hi. rewrite E3. cbn. change (phys_to_idx (zero_page a k2) a) with (phys_to_idx k2 a).
      assert (phys_to_idx k2 a = phys_to_idx k a) as -> by (unfold phys_to_idx; by rewrite Hb). rewrite tset_ne by done. rewrite Hty. by apply tset_ne.
Qed.

(** ** The child's top table before the walk *)

Definition copy_kernel (new i : Z) (s : pmem) : pmem := set_entry new i (entry s (kernel_pml4 s) i) s.

Definition fork_start (new : Z) (s : pmem) : pmem :=
  for_range 256 256 (copy_kernel new) (for_range 2 0 (copy_kernel new) (set_km (mark_page_used new (km s)) (zero_frame new s))).

Lemma cow_fork_eq old s : cow_fork_pml4 old s =
  match alloc_page s with (None, s) => (None, s) | (Some new, s) => (Some new, for_range 256 0 (fork_pml4e old new) (fork_start new s)) end.
Proof. unfold cow_fork_pml4, fork_start, copy_kernel. cbv zeta. by destruct (alloc_page s) as [[new|] s1]. Qed.

Lemma copy_loop new n : ∀ lo s, kernel_pml4 s ≠ new →
  let s' := for_range n lo (copy_kernel new) s in
  km s' = km s ∧ page_refc s' = page_refc s ∧ kernel_pml4 s' = kernel_pml4 s ∧ (∀ t, t ≠ new → page_of s' t = page_of s t) ∧
  ∀ i, entry s' new i = if decide (lo ≤ i < lo + Z.of_nat n) then entry s (kernel_pml4 s) i else entry s new i.
Proof.
  induction n as [|n IH]; intros lo s Hk; cbn [for_range]; cbv zeta; [split_and!; try done; intros; by rewrite decide_False by lia|].
  destruct (IH (lo + 1) (copy_kernel new lo s)) as (A1 & A2 & A3 & A4 & A5); [done|].
  change (kernel_pml4 (copy_kernel new lo s)) with (kernel_pml4 s) in *.
  split_and!; [done..| |].
  - intros t Ht. rewrite A4 by done. unfold copy_kernel, set_entry. by rewrite page_of_set, decide_False.
  - intros i. rewrite A5. unfold copy_kernel. rewrite !entry_set. rewrite (decide_False (P := (new = kernel_pml4 s ∧ _))) by naive_solver.
    destruct (decide (i = lo)) as [->|Hi].
    + rewrite (decide_False (P := (lo + 1 ≤ lo < _))) by lia. by rewrite !decide_True by lia.
    + rewrite (decide_False (P := (new = new ∧ lo = i))) by naive_solver.
      destruct (decide (lo + 1 ≤ i < lo + 1 + Z.of_nat n)); [rewrite decide_True by lia|rewrite decide_False by lia]; done.
Qed.

Record started (own : list Z) (new : Z) (s s0 : pmem) : Prop := {
  sa_mem : mem_ok (new :: own) s0;
  sa_region : same_region (km s) (km s0);
  sa_new : new ∉ own ∧ ¬ outside (km s) new ∧ page_addr new;
  sa_bounded : bounded s0;
  sa_page : ∀ t, t ≠ new → page_of s0 t = page_of s t;
  sa_refc : page_refc s0 = page_refc s;
  sa_count : ∀ x, page_addr x → x ≠ new → pte_refc_get (km s0) x = pte_refc_get (km s) x;
  sa_live : ∀ t, page_addr t → t ≠ new → live_table s t = true → live_table s0 t = true;
  sa_entry : ∀ i, entry s0 new i = if decide (0 ≤ i < 2 ∨ 256 ≤ i < 512) then entry s (kernel_pml4 s) i else 0;
}.

Lemma live_keep k l s s' n t : holds k l → km s = k → page_addr t → page_addr n → t ≠ n → same_region k (km s') →
  (∀ y, page_is_used k y = true → page_is_used (km s') y = true) →
  (∀ i, i ≠ phys_to_idx k n → getd 0 (page_types (km s')) i = getd 0 (page_types k) i) →
  live_table s t = true → live_table s' t = true.
Proof.
  intros Hh <- Ht Hn Hne [Hb Hp] Hu Hty. unfold live_table, in_managed, managed_end. rewrite Hb, Hp.
  intros [[A B]%andb_prop C]%andb_prop. rewrite A, (Hu t B). cbn [andb]. unfold page_type_get in *.
  assert (phys_to_idx (km s') t = phys_to_idx (km s) t) as -> by (unfold phys_to_idx; by rewrite Hb).
  destruct (phys_to_idx (km s) t <? Buddy.MAX_REFC_PAGES) eqn:Hm; [|done]. rewrite Hty; [done|]. intros Heq.
  apply Hne. symmetry. by apply (idx_inj (km s) l).
Qed.

Lemma fork_started own s new s1 :
  mem_ok own s → bounded s → kernel_pml4 s ∈ own ∨ outside (km s) (kernel_pml4 s) → alloc_page s = (Some new, s1) →
  started own new s (fork_start new s1).
Proof.
  intros [Hh Hlow] [Hb1 Hb2] Hker Hal. destruct (alloc_page_spec s own (Some new) s1 Hh Hlow Hal) as (Hreg & Hh1 & Hno & Hnout & Hn & Hs1).
  assert (kernel_pml4 s ≠ new) as Hkn by (intros E; rewrite E in Hker; by destruct Hker).
  assert (∀ x, page_addr x → x ≠ new → pte_refc_get (km s1) x = pte_refc_get (km s) x) as Hcnt by (intros; by eapply alloc_page_refc).
  assert (counts_ok (km s1) ∧ (∀ y, page_is_used (km s) y = true → page_is_used (km s1) y = true) ∧
    ∀ i, i ≠ phys_to_idx (km s) new → getd 0 (page_types (km s1)) i = getd 0 (page_types (km s)) i) as (Hc1 & Hu1 & Ht1).
  { unfold alloc_page in Hal. destruct (alloc_zeroed_page (km s)) as [[n'|] k] eqn:Hz; [|done]. injection Hal as -> <-.
    by apply (alloc_zeroed_marks (km s) own). }
  destruct (mark_used_keeps (km s1) new) as (M1 & M2 & M3 & M4).
  set (s2 := set_km (mark_page_used new (km s1)) (zero_frame new s1)).
  assert (kernel_pml4 s1 = kernel_pml4 s ∧ page_refc s1 = page_refc s) as [K1 K2] by (by rewrite Hs1).
  assert (∀ t, t ≠ new → page_of s2 t = page_of s t) as P2.
  { intros t Ht. change (page_of s2 t) with (page_of (zero_frame new s1) t). rewrite Hs1. unfold zero_frame. by rewrite !page_of_set, !decide_False. }
  destruct (copy_loop new 2 0 s2) as (A1 & A2 & A3 & A4 & A5); [change (kernel_pml4 s2) with (kernel_pml4 s1); congruence|].
  set (s3 := for_range 2 0 (copy_kernel new) s2) in *.
  assert (kernel_pml4 s3 = kernel_pml4 s) as K3 by (rewrite A3; exact K1).
  destruct (copy_loop new 256 256 s3) as (B1 & B2 & B3 & B4 & B5); [congruence|].
  unfold fork_start. change (set_km _ (zero_frame new s1)) with s2. fold s3. set (s4 := for_range 256 256 _ s3) in *.
  assert (km s4 = mark_page_used new (km s1)) as Hk4 by (rewrite B1, A1; done).
  assert (same_region (km s) (km s4)) as R4 by (rewrite Hk4; unfold same_region; rewrite M2; exact Hreg).
  split.
  - split; [rewrite Hk4; by apply mark_used_holds|by apply (low_region (km s))].
  - done.
  - done.
  - split; [intros i; rewrite Hk4, M1; apply Hc1|]. intros i. rewrite B2, A2. change (page_refc s2) with (page_refc s1). rewrite K2. apply Hb2.
  - intros t Ht. rewrite B4, A4 by done. by apply P2.
  - rewrite B2, A2. exact K2.
  - intros x Hx Hxn. rewrite <- Hcnt by done. rewrite Hk4. unfold pte_refc_get, phys_to_idx. by rewrite M1, M2.
  - intros t Ht Htn. apply (live_keep (km s) own _ _ new); try done; rewrite Hk4; [by eauto|]. intros i Hi. rewrite M3. by apply Ht1.
  - intros i. rewrite B5, K3, A5.
    assert (∀ j, entry s3 (kernel_pml4 s) j = entry s (kernel_pml4 s) j ∧ entry s2 (kernel_pml4 s2) j = entry s (kernel_pml4 s) j) as Hk.
    { intros j. change (kernel_pml4 s2) with (kernel_pml4 s1). rewrite K1. unfold entry. by rewrite A4, !P2 by done. }
    assert (entry s2 new i = 0) as Hz.
    { change (entry s2 new i) with (entry (zero_frame new s1) new i). unfold zero_frame. rewrite entry_set_page, decide_True by done. apply empty_get. }
    destruct (Hk i) as [-> ->]. rewrite Hz. repeat case_decide; try done; lia.
Qed.

(** ** Translations that may lose their write permission *)

Definition faded (a b : option (Z * list Z)) : Prop :=
  match a, b with
  | None, None => True
  | Some (e, r), Some (e', r') => r' = r ∧ (e' = e ∨ user e = true ∧ e' = clear_w e)
  | _, _ => False
  end.

Lemma faded_flags e e' : e' = e ∨ user e = true ∧ e' = clear_w e →
  present e' = present e ∧ huge e' = huge e ∧ user e' = user e ∧ addr_of e' = addr_of e.
Proof. intros [->|[_ ->]]; [done|]. by destruct (clear_w_flags e) as (-> & -> & -> & -> & _). Qed.

Lemma forked_walk new T s s' root p : forked new T s s' → ¬ reach s root new → (length p ≤ 4)%nat → faded (walk s root p) (walk s' root p).
Proof.
  intros Hf. assert (∀ q root, (∀ p1 p2, q = p1 ++ p2 → p2 ≠ [] → descend s root p1 ≠ Some new) → faded (walk s root q) (walk s' root q)) as Hgen.
  { induction q as [|i q IH]; intros r Hn; [done|]. cbn [walk].
    assert (r ≠ new) as Hr by (intros ->; by apply (Hn [] (i :: q))).
    destruct (faded_flags (entry s r i) (entry s' r i)) as (-> & -> & _ & ->); [by apply (fk_entry _ _ _ _ Hf)|].
    destruct (present (entry s r i)) eqn:Hp; [|done]. cbn [negb]. pose proof (fk_entry _ _ _ _ Hf r i Hr) as He.
    destruct q as [|j q]; [by split|]. destruct (huge (entry s r i)) eqn:Hh; [by split|]. apply IH.
    intros p1 p2 Hpp Hne Hd. apply (Hn (i :: p1) p2); [by rewrite Hpp|done|]. cbn [descend]. unfold is_ptr. by rewrite Hp, Hh. }
  intros Hn Hl. apply Hgen. intros p1 p2 -> Hne Hd. apply Hn. exists p1. split; [|done].
  rewrite length_app in Hl. destruct p2; [done|]. cbn in Hl. lia.
Qed.

Lemma faded_xlate s s' r r' v : faded (walk s r (path v)) (walk s' r' (path v)) → xlate s' r' v = xlate s r v.
Proof.
  unfold xlate, faded. destruct (walk s r (path v)) as [[e q]|], (walk s' r' (path v)) as [[e' q']|]; try done.
  intros [-> He]. cbn. by destruct (faded_flags e e' He) as (_ & _ & _ & ->).
Qed.

Lemma faded_maps s s' r r' p x : faded (walk s r p) (walk s' r' p) → maps s' r' p x ↔ maps s r p x.
Proof.
  unfold maps, faded. destruct (walk s r p) as [[e q]|], (walk s' r' p) as [[e' q']|]; [|done|done|naive_solver].
  intros [-> He]. destruct (faded_flags e e' He) as (_ & _ & Hu & Ha).
  split; intros (A & B & y & [= -> ->] & C & D); (split_and!; [done|done|]).
  - exists e. by rewrite <- Hu, <- Ha.
  - exists e'. by rewrite Hu, Ha.
Qed.

Lemma walk_inv s t p e : walk s t p = Some (e, []) → ∃ q i pt, p = q ++ [i] ∧ descend s t q = Some pt ∧ entry s pt i = e ∧ present e = true.
Proof.
  revert t. induction p as [|i p IH]; intros t; [done|]. cbn [walk].
  destruct (present (entry s t i)) eqn:Hp; [|done]. cbn [negb]. destruct p as [|j p].
  - intros [= <-]. by exists [], i, t.
  - destruct (huge (entry s t i)) eqn:Hh; [done|]. intros (q & k & pt & -> & Hq & He)%IH. exists (i :: q), k, pt.
    split_and!; [done| |by destruct He..]. cbn [descend]. unfold is_ptr. by rewrite Hp, Hh.
Qed.

(** ** Counting one more sharer *)

Lemma share_count (new : Z) (roots l : list Z) (P : Z → Prop) (cnt cnt' cap : Z) :
  (∀ l', NoDup l' → l' ⊆ roots → (∀ r, r ∈ l' → P r) → (2 ≤ length l')%nat → Z.of_nat (length l') ≤ cnt) →
  Z.min cap (Z.max 2 (cnt + 1)) ≤ cnt' → Z.of_nat (length roots) < cap →
  NoDup l → l ⊆ new :: roots → new ∈ l → (∀ r, r ∈ l → r ≠ new → P r) → (2 ≤ length l)%nat → Z.of_nat (length l) ≤ cnt'.
Proof.
  intros Hold Hcnt Hcap Hnd Hsub Hin HP Hlen. apply elem_of_Permutation in Hin as [l' Hl]. rewrite Hl in Hnd, Hsub, Hlen |- *.
  apply list.NoDup_cons in Hnd as [Hnew Hnd]. cbn [length] in *.
  assert (l' ⊆ roots) as Hsub' by (intros r Hr; assert (r ≠ new) by (by intros ->); set_solver).
  assert (length l' ≤ length roots)%nat as Hle by (by apply submseteq_length, NoDup_submseteq).
  assert (∀ r, r ∈ l' → P r) as HP'.
  { intros r Hr. apply HP; [rewrite Hl; by apply list_elem_of_further|]. by intros ->. }
  destruct (decide (2 ≤ length l')%nat) as [H2|H2]; [specialize (Hold l' Hnd Hsub' HP' H2)|]; lia.
Qed.

(** ** The parent and the child *)

Record forkable (own : list Z) (s : pmem) (roots : list Z) (old : Z) : Prop := {
  fb_bounds : bounded s;
  fb_live : ∀ i, 0 ≤ i < 256 → present (entry s old i) = true → live_table s (addr_of (entry s old i)) = true;
  fb_cover : ∀ t, ureach s old t → t ≠ old → phys_to_idx (km s) t < Buddy.MAX_REFC_PAGES;
  fb_data : ∀ p x, maps s old p x → refc_idx x < MAX_REFC_PAGES;
  fb_size : ∀ t i, reach s old t → present (entry s t i) = true → 0 ≤ i < 512;
  fb_low : ∀ i, 0 ≤ i < 2 → present (entry s old i) = false → present (entry s (kernel_pml4 s) i) = false;
  fb_high : ∀ i, 256 ≤ i < 512 → entry s (kernel_pml4 s) i = entry s old i;
  fb_top : ∀ i, huge (entry s (kernel_pml4 s) i) = false;
  fb_kernel : kernel_pml4 s ∈ own ∨ outside (km s) (kernel_pml4 s);
  fb_roots : (length roots < 255)%nat;
}.

Section fork.
Context (own : list Z) (s : pmem) (roots : list Z) (old new : Z) (s0 : pmem).
Context (Hok : tabs_ok own s roots) (Hd : data_ok own s roots) (Hin : old ∈ roots).
Context (Hf : forkable own s roots old) (Hst : started own new s s0).

(** The parent's tables below its top table. *)
Definition below (t : Z) : Prop := ∃ p, p ≠ [] ∧ upath p ∧ (length p ≤ 3)%nat ∧ descend s old p = Some t.
Definition at_depth (d : nat) (t : Z) : Prop := ∃ p, p ≠ [] ∧ upath p ∧ length p = d ∧ (d ≤ 3)%nat ∧ descend s old p = Some t.

Lemma new_unreached r : r ∈ roots → ¬ reach s r new.
Proof.
  destruct (sa_new _ _ _ _ Hst) as (? & ? & _). intros Hr [?|?]%(sp_own _ _ _ (proj1 (to_space _ _ _ Hok r Hr))); done.
Qed.

Lemma new_not_root r : r ∈ roots → r ≠ new.
Proof. intros Hr ->. apply (new_unreached new Hr). exists []. split; [cbn; lia|done]. Qed.

Lemma below_reach t : below t → reach s old t.
Proof. intros (p & _ & _ & ? & ?). by exists p. Qed.

Lemma start_entry t i : t ≠ new → entry s0 t i = entry s t i.
Proof. intros Ht. unfold entry. by rewrite (sa_page _ _ _ _ Hst). Qed.

Lemma start_frame r q : r ∈ roots → (length q ≤ 4)%nat → descend s0 r q = descend s r q ∧ walk s0 r q = walk s r q.
Proof. intros Hr Hq. apply (unreached_frame s s0 r new); [by apply new_unreached|apply start_entry|done]. Qed.

Lemma below_new : ¬ below new.
Proof. intros Hb%below_reach. by apply (new_unreached old Hin). Qed.

Lemma below_old : ¬ below old.
Proof.
  intros (p & Hne & _ & Hl & Hp). apply Hne. apply (tr_inj _ _ (sp_tree _ _ _ (proj1 (to_space _ _ _ Hok old Hin))) p [] old); [done|cbn; lia|done|done].
Qed.

Lemma depth_down d t i : (d ≤ 2)%nat → at_depth d t → is_ptr (entry s0 t i) = true → at_depth (S d) (addr_of (entry s0 t i)).
Proof.
  intros Hdl (p & Hne & Hu & Hl & _ & Hp). assert (t ≠ new) as Ht.
  { intros ->. apply (new_unreached old Hin). exists p. split; [lia|done]. }
  rewrite start_entry by done. intros Hptr. exists (p ++ [i]). rewrite length_app. cbn [length].
  split_and!; [by destruct p|by destruct p|lia|lia|]. by rewrite (descend_snoc s old p i t Hp), Hptr.
Qed.

Lemma top_entry i : entry s0 old i = entry s old i.
Proof. apply start_entry. by apply new_not_root. Qed.

Lemma top_live i : 0 ≤ i < 256 → present (entry s0 old i) = true →
  live_table s0 (addr_of (entry s0 old i)) = true ∧ at_depth 1 (addr_of (entry s0 old i)).
Proof.
  rewrite top_entry. intros Hi Hp.
  assert (is_ptr (entry s old i) = true) as Hptr by (unfold is_ptr; by rewrite Hp, (tr_top _ _ (sp_tree _ _ _ (proj1 (to_space _ _ _ Hok old Hin))))).
  assert (at_depth 1 (addr_of (entry s old i))) as Hdp.
  { exists [i]. split_and!; try done; [lia|]. cbn [descend]. by rewrite Hptr. }
  split; [|done]. apply (sa_live _ _ _ _ Hst); [apply page_addr_of| |by apply (fb_live _ _ _ _ Hf)].
  intros E. destruct Hdp as (p & _ & _ & Hl & _ & Hp'). rewrite E in Hp'. apply (new_unreached old Hin). exists p. split; [lia|done].
Qed.

Definition walked (s' : pmem) : Prop :=
  fok (new :: own) s' ∧ forked new below s0 s' ∧
  (∀ i, 0 ≤ i < 256 → top_done new s0 (entry s0 new) old i s') ∧ ∀ j, ¬ 0 ≤ j < 256 → entry s' new j = entry s0 new j.

Lemma fork_walked : walked (for_range 256 0 (fork_pml4e old new) s0).
Proof.
  destruct (fork_loop_spec (new :: own) new below s0 below_new at_depth) with (ni := entry s0 new) (old := old) (s := s0) as ([A A'] & B & C).
  - intros d t (p & ? & ? & ? & ? & ?). exists p. split_and!; try done. lia.
  - intros d t i. apply depth_down.
  - by apply new_not_root.
  - intros i. rewrite top_entry. apply (tr_top _ _ (sp_tree _ _ _ (proj1 (to_space _ _ _ Hok old Hin)))).
  - exact top_live.
  - exact below_old.
  - split; [|apply forked_refl]. split; [apply (sa_mem _ _ _ _ Hst)|apply (sa_bounded _ _ _ _ Hst)].
  - done.
  - split_and!; done.
Qed.

(** *** What the spaces of before see *)

Context (s' : pmem) (HW : walked s').

Lemma start_unreached r : r ∈ roots → ¬ reach s0 r new.
Proof.
  intros Hr (q & Hq & Hx). rewrite (proj1 (start_frame r q Hr ltac:(lia))) in Hx. apply (new_unreached r Hr). by exists q.
Qed.

Lemma old_descend r q : r ∈ roots → (length q ≤ 4)%nat → descend s' r q = descend s r q.
Proof.
  intros Hr Hq. destruct HW as (_ & F & _). rewrite (forked_descend _ _ _ _ r q F) by (done || by apply start_unreached).
  by apply start_frame.
Qed.

Lemma old_walk r q : r ∈ roots → (length q ≤ 4)%nat → faded (walk s r q) (walk s' r q).
Proof.
  intros Hr Hq. destruct HW as (_ & F & _). rewrite <- (proj2 (start_frame r q Hr Hq)).
  eapply forked_walk; [exact F|by apply start_unreached|done].
Qed.

Lemma old_reach r t : r ∈ roots → reach s' r t ↔ reach s r t.
Proof. intros Hr. split; intros (q & Hq & Hx); exists q; (split; [done|]); rewrite <- Hx; [symmetry|]; apply old_descend; done || lia. Qed.

Lemma old_ureach r t : r ∈ roots → ureach s' r t ↔ ureach s r t.
Proof.
  intros Hr. split; intros (q & Hu & Hq & Hx); exists q; (split_and!; [done|done|]); rewrite <- Hx; [symmetry|]; apply old_descend; done || lia.
Qed.

Lemma old_maps r p x : r ∈ roots → maps s' r p x ↔ maps s r p x.
Proof.
  intros Hr. destruct (decide (length p = 4%nat)) as [Hl|Hl]; [apply faded_maps, old_walk; [done|lia]|].
  split; intros [? _]; done.
Qed.

(** *** What the child sees *)

Lemma old_top i : entry s' old i = entry s old i.
Proof.
  destruct HW as (_ & F & _). rewrite <- top_entry. unfold entry.
  by rewrite (fk_page _ _ _ _ F old below_old (new_not_root old Hin)).
Qed.

Lemma child_top i : (present (entry s' new i) = true → entry s' new i = entry s' old i) ∧
  (0 ≤ i < 256 → present (entry s' old i) = true → entry s' new i = entry s' old i).
Proof.
  destruct HW as (_ & F & T & O). rewrite old_top.
  assert (¬ 0 ≤ i < 256 → present (entry s' new i) = true → entry s' new i = entry s old i) as Hhigh.
  { intros Hi. rewrite O, (sa_entry _ _ _ _ Hst) by done. destruct (decide _) as [Hd'|]; [|done]. intros _. apply (fb_high _ _ _ _ Hf). lia. }
  destruct (decide (0 ≤ i < 256)) as [Hi|Hi]; [|split; [by apply Hhigh|done]].
  destruct (T i Hi) as [E _]. rewrite top_entry in E. destruct (present (entry s old i)) eqn:Hp; [done|]. split; [|done].
  rewrite E, (sa_entry _ _ _ _ Hst). destruct (decide _) as [Hd'|]; [|done].
  rewrite (fb_low _ _ _ _ Hf i); [done|lia|done].
Qed.

Lemma child_descend q t : q ≠ [] → descend s' new q = Some t → descend s' old q = Some t.
Proof.
  destruct q as [|i q]; [done|]. intros _. cbn [descend]. destruct (is_ptr (entry s' new i)) eqn:Hp; [|done].
  pose proof Hp as [Hp' _]%andb_prop. rewrite (proj1 (child_top i) Hp') in *. by rewrite Hp.
Qed.

Lemma child_sees q : q ≠ [] → upath q → descend s' new q = descend s' old q ∧ walk s' new q = walk s' old q.
Proof.
  destruct q as [|i q]; [done|]. intros _ Hi. cbn [descend walk]. unfold is_ptr.
  destruct (present (entry s' old i)) eqn:Hp.
  - by rewrite (proj2 (child_top i) Hi Hp), Hp.
  - destruct (present (entry s' new i)) eqn:Hn; [|done]. rewrite (proj1 (child_top i) Hn) in Hn. congruence.
Qed.

Lemma child_reach t : reach s' new t → t = new ∨ reach s old t.
Proof.
  intros ([|i q] & Hq & Hx); [left; by injection Hx|]. right. apply old_reach; [done|]. exists (i :: q). split; [done|by apply child_descend].
Qed.

Lemma child_not_old : ¬ reach s' new old.
Proof.
  intros ([|i q] & Hq & Hx); [injection Hx as E; by apply (new_not_root old Hin)|].
  apply child_descend in Hx; [|done]. rewrite old_descend in Hx by (done || cbn in *; lia).
  by pose proof (tr_inj _ _ (sp_tree _ _ _ (proj1 (to_space _ _ _ Hok old Hin))) (i :: q) [] old Hq ltac:(cbn; lia) Hx eq_refl).
Qed.

Lemma child_ureach t : ureach s' new t → t = new ∨ below t.
Proof.
  intros ([|i q] & Hu & Hq & Hx); [left; by injection Hx|]. right. exists (i :: q). split_and!; try done.
  rewrite <- (old_descend old) by (done || lia). by apply child_descend.
Qed.

Lemma child_maps p x : maps s' new p x ↔ maps s old p x.
Proof.
  rewrite <- old_maps by done. unfold maps. destruct p as [|i p]; [split; intros [? _]; done|].
  split; intros (A & B & e & C); (split_and!; [done|done|]); exists e; [rewrite <- (proj2 (child_sees (i :: p) ltac:(done) B))|rewrite (proj2 (child_sees (i :: p) ltac:(done) B))]; done.
Qed.

(** *** The counts *)

Lemma start_ptr p t i : (length p ≤ 3)%nat → descend s old p = Some t → entry s0 t i = entry s t i.
Proof. intros Hl Hp. apply start_entry. intros ->. apply (new_unreached old Hin). by exists p. Qed.

Lemma sized p t i : (length p ≤ 3)%nat → descend s old p = Some t → is_ptr (entry s t i) = true → 0 ≤ i < 512.
Proof. intros Hl Hp [? _]%andb_prop. eapply (fb_size _ _ _ _ Hf); [by exists p|done]. Qed.

Lemma below_snoc p i t : descend s old (p ++ [i]) = Some t → ∃ u, descend s old p = Some u ∧ is_ptr (entry s u i) = true ∧ t = addr_of (entry s u i).
Proof.
  rewrite descend_app. destruct (descend s old p) as [u|]; [|done]. cbn [descend]. destruct (is_ptr (entry s u i)) eqn:Hp; [|done].
  intros [= <-]. by exists u.
Qed.

(** The facts the walk has left along a path. *)
Lemma depth1 i t : 0 ≤ i < 256 → descend s old [i] = Some t →
  tab_done s0 t s' ∧ ∀ j, 0 ≤ j < 512 → below_done s0 (below_done s0 (leaf_done s0)) t j s'.
Proof.
  intros Hi (u & [= <-] & Hp & ->)%(below_snoc []). destruct HW as (_ & _ & T & _).
  destruct (T i Hi) as [_ B]. unfold below_done in B at 1. rewrite top_entry in B. by apply B.
Qed.

Lemma depth2 i j t : 0 ≤ i < 256 → descend s old [i; j] = Some t →
  tab_done s0 t s' ∧ ∀ k, 0 ≤ k < 512 → below_done s0 (leaf_done s0) t k s'.
Proof.
  intros Hi (u & Hu & Hp & ->)%(below_snoc [i]). destruct (depth1 i u Hi Hu) as [_ B].
  specialize (B j (sized [i] u j ltac:(cbn; lia) Hu Hp)). unfold below_done in B at 1. rewrite (start_ptr [i]) in B by (done || cbn; lia). by apply B.
Qed.

Lemma depth3 i j k t : 0 ≤ i < 256 → descend s old [i; j; k] = Some t →
  tab_done s0 t s' ∧ ∀ m, 0 ≤ m < 512 → leaf_done s0 t m s'.
Proof.
  intros Hi (u & Hu & Hp & ->)%(below_snoc [i; j]). destruct (depth2 i j u Hi Hu) as [_ B].
  specialize (B k (sized [i; j] u k ltac:(cbn; lia) Hu Hp)). unfold below_done in B. rewrite (start_ptr [i; j]) in B by (done || cbn; lia). by apply B.
Qed.

Lemma table_counted t : below t → Z.min 65535 (Z.max 2 (pte_refc_get (km s) t + 1)) ≤ pte_refc_get (km s') t.
Proof.
  intros Hb. assert (tab_done s0 t s') as Ht.
  { destruct Hb as (p & Hne & Hu & Hl & Hp). destruct p as [|i [|j [|k [|? ?]]]]; [done|..|cbn in Hl; lia].
    - by apply (depth1 i).
    - by apply (depth2 i j).
    - by apply (depth3 i j k). }
  assert (t ≠ new) as Htn by (intros ->; by apply below_new).
  assert (page_addr t) as Hpa by (eapply reach_page_addr; [apply (to_space _ _ _ Hok old Hin)|by apply below_reach]).
  rewrite <- (sa_count _ _ _ _ Hst t) by done. apply Ht.
  destruct (sa_region _ _ _ _ Hst) as [Hb' _]. unfold phys_to_idx. rewrite Hb'. apply (fb_cover _ _ _ _ Hf).
  - destruct Hb as (p & _ & ? & ? & ?). by exists p.
  - intros ->. by apply below_old.
Qed.

Lemma leaf_fact p e : length p = 4%nat → upath p → walk s old p = Some (e, []) → user e = true →
  Z.min 255 (Z.max 2 (refc_get s (addr_of e) + 1)) ≤ refc_get s' (addr_of e) ∧
  ∃ e', walk s' old p = Some (e', []) ∧ writable e' = false.
Proof.
  intros Hl Hu Hw Hue. destruct (walk_inv _ _ _ _ Hw) as (q & m & pt & -> & Hq & He & Hp).
  rewrite length_app in Hl. cbn in Hl. destruct q as [|i [|j [|k [|? ?]]]]; try (cbn in Hl; lia). cbn in Hu.
  destruct (depth3 i j k pt Hu Hq) as [_ B].
  assert (0 ≤ m < 512) as Hm by (eapply (fb_size _ _ _ _ Hf); [exists [i; j; k]; split; [cbn; lia|exact Hq]|by rewrite He]).
  specialize (B m Hm). unfold leaf_done in B. rewrite (start_ptr [i; j; k]), He in B by (done || cbn; lia).
  destruct (B Hp Hue) as [B1 B2]. split.
  - assert (refc_get s0 (addr_of e) = refc_get s (addr_of e)) as <- by (unfold refc_get; by rewrite (sa_refc _ _ _ _ Hst)).
    apply B2. apply (fb_data _ _ _ _ Hf ([i; j; k] ++ [m])). split_and!; [done|done|]. by exists e.
  - exists (entry s' pt m). split; [|done]. pose proof (old_descend old [i; j; k] Hin ltac:(cbn; lia)) as Hd'. rewrite Hq in Hd'.
    rewrite (walk_app s' old _ pt _ _ Hd'). cbn [walk].
    destruct HW as (_ & F & _). destruct (forked_flags _ _ _ _ pt m F) as (Hp' & _).
    { intros ->. apply (new_unreached old Hin). exists [i; j; k]. split; [cbn; lia|done]. }
    rewrite Hp', (start_ptr [i; j; k]), He, Hp by (done || cbn; lia). done.
Qed.

(** *** The spaces afterwards *)

Lemma fork_region : same_region (km s) (km s').
Proof. destruct HW as (_ & F & _). destruct (fk_region _ _ _ _ F), (sa_region _ _ _ _ Hst). split; congruence. Qed.

Lemma fork_mem : mem_ok (new :: own) s'.
Proof. destruct HW as ([H _] & _). split; [done|]. apply (low_region (km s)); [apply fork_region|apply (to_mem _ _ _ Hok)]. Qed.

Lemma old_own r t : r ∈ roots → reach s r t → t ∈ new :: own ∨ outside (km s') t.
Proof.
  intros Hr Ht. rewrite (outside_region (km s)) by apply fork_region.
  destruct (sp_own _ _ _ (proj1 (to_space _ _ _ Hok r Hr)) t Ht); [left; by apply list_elem_of_further|by right].
Qed.

Lemma old_flags r q t i : r ∈ roots → (length q ≤ 3)%nat → descend s r q = Some t → entry s' t i = entry s t i ∨ entry s' t i = clear_w (entry s t i).
Proof.
  intros Hr Hq Ht. destruct HW as (_ & F & _). assert (t ≠ new) as Hn by (intros ->; apply (new_unreached r Hr); by exists q).
  rewrite <- (start_entry t i Hn). destruct (fk_entry _ _ _ _ F t i Hn) as [?|[_ ?]]; [by left|by right].
Qed.

Lemma huge_ok_clear e k : huge_ok e k → huge_ok (clear_w e) k.
Proof.
  intros [He Hb]. split.
  - enough (0 ≤ clear_w e ≤ e) by lia. apply Z.ldiff_le; [lia|]. apply Z.bits_inj'. intros i Hi.
    rewrite Z.ldiff_spec, clear_w_bit, Z.bits_0 by done. by destruct (Z.testbit e i), (1 =? i).
  - intros i Hi. rewrite clear_w_bit, Hb by lia. done.
Qed.

Lemma old_space r : r ∈ roots → space (new :: own) s' r.
Proof.
  intros Hr. destruct (to_space _ _ _ Hok r Hr) as [Hsp _]. split.
  - split.
    + intros p q t Hp Hq. rewrite !old_descend by (done || lia). by apply Hsp.
    + intros i. destruct (old_flags r [] r i Hr ltac:(cbn; lia) eq_refl) as [->| ->]; [apply Hsp|].
      destruct (clear_w_flags (entry s r i)) as (_ & -> & _). apply Hsp.
  - intros t Ht%old_reach; [|done]. by apply (old_own r).
  - intros p t i Ht Hh. destruct (decide (length p ≤ 3)%nat) as [Hp|]; [|split; intros; lia].
    rewrite old_descend in Ht by (done || lia). destruct (old_flags r p t i Hr Hp Ht) as [E|E]; rewrite E in *.
    + by apply (sp_huge _ _ _ Hsp p).
    + destruct (clear_w_flags (entry s t i)) as (_ & Hh' & _). rewrite Hh' in Hh. destruct (sp_huge _ _ _ Hsp p t i Ht Hh).
      split; intros; apply huge_ok_clear; auto.
Qed.

Lemma start_top i : huge (entry s0 new i) = false.
Proof. rewrite (sa_entry _ _ _ _ Hst). destruct (decide _); [apply (fb_top _ _ _ _ Hf)|done]. Qed.

Lemma child_space : space (new :: own) s' new.
Proof.
  pose proof (old_space old Hin) as Hsp.
  assert (∀ q, descend s' new q = Some new → (length q ≤ 3)%nat → q = []) as Hself.
  { intros [|i q] Hq Hl; [done|]. exfalso. apply child_descend in Hq; [|done]. apply (new_unreached old Hin), old_reach; [done|]. by exists (i :: q). }
  split.
  - split.
    + intros p q t Hp Hq Hpt Hqt. destruct p as [|i p]; [injection Hpt as <-; symmetry; by apply Hself|].
      destruct q as [|j q]; [injection Hqt as <-; by apply Hself|].
      apply (tr_inj _ _ (sp_tree _ _ _ Hsp) _ _ t); [done|done|by apply child_descend..].
    + intros i. destruct (present (entry s' new i)) eqn:Hp; [rewrite (proj1 (child_top i) Hp); apply Hsp|].
      destruct HW as (_ & _ & T & O). destruct (decide (0 ≤ i < 256)) as [Hi|Hi].
      * destruct (T i Hi) as [E _]. rewrite E, top_entry.
        destruct (present (entry s old i)); [apply (tr_top _ _ (sp_tree _ _ _ (proj1 (to_space _ _ _ Hok old Hin))))|apply start_top].
      * rewrite O by done. apply start_top.
  - intros t [->|Ht]%child_reach; [left; apply list_elem_of_here|by apply (old_own old)].
  - intros p t i Hp Hh. destruct p as [|j p]; [split; intros; done|]. apply child_descend in Hp; [|done]. by apply (sp_huge _ _ _ Hsp (j :: p)).
Qed.

Lemma fork_roots r : r ∈ new :: roots → r = new ∨ (r ∈ roots ∧ r ≠ new).
Proof. intros [->|Hr]%elem_of_cons; [by left|right]. split; [done|by apply new_not_root]. Qed.

(** A table of the user half of any space is, for the child, one of the
    parent's. *)
Lemma child_half r t : r ∈ roots → ureach s r t → reach s' new t → below t ∧ ureach s' new t.
Proof.
  intros Hr Hu ([|i q] & Hq & Hx).
  - injection Hx as <-. exfalso. by apply (new_unreached r Hr), ureach_reach.
  - pose proof (child_descend (i :: q) t ltac:(done) Hx) as Hx'. rewrite old_descend in Hx' by (done || cbn in *; lia).
    destruct (to_half _ _ _ Hok r old t Hr Hin Hu) as (p & Hup & Hlp & Hp); [by exists (i :: q)|].
    assert (p = i :: q) as -> by (apply (tr_inj _ _ (sp_tree _ _ _ (proj1 (to_space _ _ _ Hok old Hin))) _ _ t); done).
    split; [by exists (i :: q)|]. by exists (i :: q).
Qed.

Lemma below_child t : below t → ureach s' new t.
Proof.
  intros (p & Hne & Hu & Hl & Hp). exists p. split_and!; [done|done|]. rewrite (proj1 (child_sees p Hne Hu)).
  by rewrite old_descend by (done || lia).
Qed.

Lemma table_grows t : page_addr t → t ≠ new → pte_refc_get (km s) t ≤ pte_refc_get (km s') t.
Proof. intros Ht Hn. destruct HW as (_ & F & _). rewrite <- (sa_count _ _ _ _ Hst t) by done. apply (fk_tab _ _ _ _ F). Qed.

Lemma other_member (l : list Z) : NoDup l → (2 ≤ length l)%nat → l ⊆ new :: roots → ∃ b, b ∈ l ∧ b ∈ roots.
Proof.
  intros Hnd Hl Hsub. destruct l as [|a [|b l]]; cbn in Hl; try lia. apply list.NoDup_cons in Hnd as [Ha _].
  destruct (fork_roots a (Hsub a ltac:(apply list_elem_of_here))) as [->|[Hr _]]; [|exists a; split; [apply list_elem_of_here|done]].
  assert (b ∈ new :: b :: l) as Hb by apply list_elem_of_further, list_elem_of_here. exists b. split; [done|].
  destruct (fork_roots b (Hsub b Hb)) as [->|[? _]]; [|done]. destruct Ha. apply list_elem_of_here.
Qed.

Lemma fork_tabs : tabs_ok (new :: own) s' (new :: roots).
Proof.
  split.
  - apply fork_mem.
  - intros r [->|[Hr _]]%fork_roots; [split; [apply child_space|apply (sa_new _ _ _ _ Hst)]|].
    split; [by apply old_space|by apply (to_space _ _ _ Hok)].
  - intros r r' [->|[Hr Hrn]]%fork_roots [->|[Hr' _]]%fork_roots Hne; [done|by rewrite old_reach; [apply new_unreached|]| |].
    + destruct (decide (r = old)) as [->|Ho]; [by apply child_not_old|].
      intros [->|Hre]%child_reach; [done|]. by apply (to_root _ _ _ Hok r old).
    + rewrite old_reach by done. by apply (to_root _ _ _ Hok).
  - intros a b t [->|[Ha _]]%fork_roots [->|[Hb _]]%fork_roots Hua Hrb; [done|..].
    + apply old_reach in Hrb; [|done]. apply old_ureach; [done|]. destruct (child_ureach t Hua) as [->|(p & _ & ? & ? & ?)]; [by apply new_unreached in Hrb|].
      apply (to_half _ _ _ Hok old b); [done|done| |done]. by exists p.
    + apply old_ureach in Hua; [|done]. by apply (child_half a t).
    + apply old_reach in Hrb; [|done]. apply old_ureach in Hua; [|done]. apply old_ureach; [done|]. by apply (to_half _ _ _ Hok a b).
  - intros t l Hnd Hsub Hre Hlen. destruct (other_member l Hnd Hlen Hsub) as (b & Hbl & Hb).
    assert (ureach s b t) as Hbt by (apply old_ureach; [done|by apply Hre]).
    assert (page_addr t) as Hpt by (eapply reach_page_addr; [apply (to_space _ _ _ Hok b Hb)|by apply ureach_reach]).
    assert (t ≠ new) as Htn by (intros ->; by apply (new_unreached b Hb), ureach_reach).
    destruct (decide (new ∈ l)) as [Hnl|Hnl].
    + destruct (child_half b t Hb Hbt) as [Hbe _]; [by apply ureach_reach, Hre|].
      eapply (share_count new roots l (λ r, ureach s r t) (pte_refc_get (km s) t) _ 65535);
        [intros l' ? ? ? ?; by apply (to_count _ _ _ Hok)|by apply table_counted| |done|done|done| |done].
      * pose proof (fb_roots _ _ _ _ Hf). lia.
      * intros r Hr Hrn. destruct (fork_roots r (Hsub r Hr)) as [->|[Hrr _]]; [done|]. apply old_ureach; [done|by apply Hre].
    + etrans; [|by apply table_grows]. assert (l ⊆ roots) as Hsub' by (intros r Hr; destruct (fork_roots r (Hsub r Hr)) as [->|[? _]]; done).
      apply (to_count _ _ _ Hok); [done|done| |done]. intros r Hr. apply old_ureach; [by apply Hsub'|by apply Hre].
Qed.

Lemma data_grows x : refc_get s x ≤ refc_get s' x.
Proof.
  destruct HW as (_ & F & _). assert (refc_get s0 x = refc_get s x) as <- by (unfold refc_get; by rewrite (sa_refc _ _ _ _ Hst)).
  apply (fk_data _ _ _ _ F).
Qed.

Lemma fork_maps r p x : r ∈ new :: roots → maps s' r p x → ∃ r0, r0 ∈ roots ∧ maps s r0 p x ∧ (r ≠ new → r0 = r) ∧ (r = new → r0 = old).
Proof.
  intros [->|[Hr Hn]]%fork_roots Hm; [exists old; rewrite child_maps in Hm by done|exists r; rewrite old_maps in Hm by done]; split_and!; done.
Qed.

Lemma fork_data : data_ok (new :: own) s' (new :: roots).
Proof.
  split.
  - intros r p x Hr (r0 & Hr0 & Hm & _)%fork_maps; [|done]. rewrite (outside_region (km s)) by apply fork_region.
    destruct (do_own _ _ _ Hd r0 p x Hr0 Hm); [left; by apply list_elem_of_further|by right].
  - intros r r' p x Hr Hr' (r0 & Hr0 & Hm & _)%fork_maps; [|done]. destruct (fork_roots r' Hr') as [->|[Hr1 _]].
    + intros [->|Hre]%child_reach; [|by apply (do_table _ _ _ Hd r0 old p x)].
      destruct (sa_new _ _ _ _ Hst) as (? & ? & _). by destruct (do_own _ _ _ Hd r0 p new Hr0 Hm).
    + rewrite old_reach by done. by apply (do_table _ _ _ Hd r0 r' p x).
  - intros r p q x Hr (r1 & H1 & Hm1 & A1 & B1)%fork_maps (r2 & H2 & Hm2 & A2 & B2)%fork_maps; [|done|done].
    assert (r2 = r1) as -> by (destruct (decide (r = new)) as [E|E]; [rewrite B1, B2|rewrite A1, A2]; done).
    by apply (do_once _ _ _ Hd r1 p q x).
  - intros x l Hnd Hsub Hre Hlen.
    assert (∀ r, r ∈ l → r ≠ new → ∃ p, maps s r p x) as Hold.
    { intros r Hr Hne. destruct (Hre r Hr) as [p Hp]. exists p. destruct (fork_roots r (Hsub r Hr)) as [->|[? _]]; [done|]. by apply old_maps in Hp. }
    destruct (decide (new ∈ l)) as [Hnl|Hnl].
    + destruct (Hre new Hnl) as [p Hp]. apply child_maps in Hp. pose proof Hp as (Hlp & Hup & e & Hw & Hue & <-).
      eapply (share_count new roots l (λ r, ∃ p, maps s r p (addr_of e)) (refc_get s (addr_of e)) _ 255);
        [intros l' ? ? ? ?; by apply (do_count _ _ _ Hd)|by apply (leaf_fact p e)| |done|done|done|done|done].
      pose proof (fb_roots _ _ _ _ Hf). lia.
    + etrans; [|by apply data_grows]. assert (l ⊆ roots) as Hsub' by (intros r Hr; destruct (fork_roots r (Hsub r Hr)) as [->|[? _]]; done).
      apply (do_count _ _ _ Hd); [done|done| |done]. intros r Hr. apply Hold; [done|]. by intros ->.
Qed.
End fork.

(** ** The fork as a whole *)

(** What a successful fork of [old] promises: the invariants with the child as
    one more space, every translation as before, the child's user half that of
    the parent, no user page of the two writable, and no data page written. *)
Record fork_ok (own : list Z) (s : pmem) (roots : list Z) (old new : Z) (s' : pmem) : Prop := {
  fo_new : new ∉ own;
  fo_tabs : tabs_ok (new :: own) s' (new :: roots);
  fo_data : data_ok (new :: own) s' (new :: roots);
  fo_xlate : ∀ r v, r ∈ roots → xlate s' r v = xlate s r v;
  fo_child : ∀ v, vpn 39 v < 256 → walk s' new (path v) = walk s' old (path v);
  fo_cow : ∀ r v e, r = old ∨ r = new → vpn 39 v < 256 → walk s' r (path v) = Some (e, []) → user e = true → writable e = false;
  fo_page : ∀ r p x, r ∈ roots → maps s r p x → page_of s' x = page_of s x;
}.

Lemma fork_result own s roots old new s0 s' :
  tabs_ok own s roots → data_ok own s roots → old ∈ roots → forkable own s roots old → started own new s s0 →
  walked own s old new s0 s' → fork_ok own s roots old new s'.
Proof.
  intros Hok Hd Hin Hf Hst HW. split.
  - apply (sa_new _ _ _ _ Hst).
  - by apply (fork_tabs own s roots old new s0).
  - by apply (fork_data own s roots old new s0).
  - intros r v Hr. apply faded_xlate. eapply (old_walk own s roots old new s0); [done..|cbn; lia].
  - intros v Hv. pose proof (vpn_bound 39 v). eapply (child_sees own s roots old new s0); try done. cbn. lia.
  - intros r v e Hr Hv Hw Hu. pose proof (vpn_bound 39 v).
    assert (walk s' old (path v) = Some (e, [])) as Hw'.
    { destruct Hr as [->| ->]; [done|]. rewrite <- Hw. symmetry. eapply (child_sees own s roots old new s0); try done. cbn. lia. }
    pose proof (old_walk own s roots old new s0 Hok Hst s' HW old (path v) Hin ltac:(cbn; lia)) as Hfd.
    rewrite Hw' in Hfd. destruct (walk s old (path v)) as [[e0 q]|] eqn:Hw0; [|done]. destruct Hfd as [<- He].
    destruct (faded_flags e0 e He) as (_ & _ & Hu0 & _).
    destruct (leaf_fact own s roots old new s0 Hok Hin Hf Hst s' HW (path v) e0) as [_ (e' & He' & Hwe)]; [done|cbn; lia|done|congruence|]. congruence.
  - intros r p x Hr Hm. destruct HW as (_ & F & _). destruct (sa_new _ _ _ _ Hst) as (Hn & Ho & _).
    assert (x ≠ new) as Hx by (intros ->; by destruct (do_own _ _ _ Hd r p new Hr Hm)).
    rewrite (fk_page _ _ _ _ F x); [by apply (sa_page _ _ _ _ Hst)| |done].
    intros Hb%below_reach. by apply (do_table _ _ _ Hd r old p x).
Qed.

Lemma fork_succeeds own s roots old new s' :
  tabs_ok own s roots → data_ok own s roots → old ∈ roots → forkable own s roots old →
  cow_fork_pml4 old s = (Some new, s') → fork_ok own s roots old new s'.
Proof.
  intros Hok Hd Hin Hf. rewrite cow_fork_eq. destruct (alloc_page s) as [[n|] s1] eqn:Hal; [|by intros [? _]%pair_eq].
  intros [Hn <-]%pair_eq. injection Hn as ->.
  assert (started own new s (fork_start new s1)) as Hst by (apply fork_started; [apply Hok|apply Hf|apply Hf|done]).
  eapply fork_result; [done..|]. by apply (fork_walked own s roots old new).
Qed.
