(* ===== verification/PagingDemo.v ===== *)
(** * A small address space

    Four tables and one user page, in pages of an allocator that has just
    booted: the state the theorems about page tables are tried on. *)

From S2P Require Import Prelude Buddy BuddySpec PageAlloc BuddyPages VfsTypes Vma Paging PagingWalk PagingMap PagingCow PagingFork.
From stdpp Require Import base gmap numbers sets strings list.
Local Open Scope Z_scope.

(** Take [n] table pages. *)
Fixpoint grab (n : nat) (k : kmem) : list Z * kmem :=
  match n with
  | O => ([], k)
  | S n' => match alloc_zeroed_page k with
            | (Some p, k) => let '(l, k) := grab n' k in (p :: l, k)
            | (None, k) => ([], k)
            end
  end.

Lemma grab_holds n : ∀ k l, holds k l → holds (grab n k).2 (rev_append (grab n k).1 l).
Proof.
  induction n as [|n IH]; intros k l Hk; cbn [grab]; [done|].
  destruct (alloc_zeroed_page k) as [[p|] k1] eqn:E; pose proof (holds_zeroed k l _ k1 Hk E) as H1; [|done].
  pose proof (IH k1 (p :: l) H1) as H2. by destruct (grab n k1) as [ps k2].
Qed.

Definition d_km : kmem := (grab 5 boot64).2.
Definition d_own : list Z := [0x104000; 0x103000; 0x102000; 0x101000; 0x100000].

Lemma demo_holds : holds d_km d_own.
Proof. exact (grab_holds 5 boot64 [] holds_boot64). Qed.

(** The page 0x104000 at the address 0x5000 with the flags [fl], shared by
    [rc]. *)
Definition demo (fl rc : Z) : pmem := {|
  km := d_km;
  frames := {[ 0x100000 := {[ 0 := 0x101007 ]} : frame; 0x101000 := {[ 0 := 0x102007 ]}; 0x102000 := {[ 0 := 0x103007 ]};
               0x103000 := {[ 5 := 0x104000 + fl ]} ]};
  page_refc := {[ refc_idx 0x104000 := rc ]};
  kernel_pml4 := 0;
|}.

Lemma getd_singleton {A} (d v : A) (i j : Z) : getd d ({[ i := v ]} : gmap Z A) j = if decide (i = j) then v else d.
Proof. unfold getd. case_decide as Hd; [rewrite Hd, lookup_singleton_eq|rewrite lookup_singleton_ne by done]; done. Qed.

Lemma demo_entry fl rc t i : entry (demo fl rc) t i =
  if decide (t = 0x100000 ∧ i = 0) then 0x101007 else if decide (t = 0x101000 ∧ i = 0) then 0x102007
  else if decide (t = 0x102000 ∧ i = 0) then 0x103007 else if decide (t = 0x103000 ∧ i = 5) then 0x104000 + fl else 0.
Proof.
  unfold entry, page_of, demo. cbn [frames]. rewrite !getd_insert, getd_singleton.
  repeat (case_decide; try lia); rewrite ?getd_singleton; repeat (case_decide; try lia); try done.
Qed.

Section demo.
Context (fl rc : Z) (Hfl : fl = 5 ∨ fl = 7).

Lemma demo_descend p t : (length p ≤ 3)%nat → descend (demo fl rc) 0x100000 p = Some t →
  (p = [] ∧ t = 0x100000) ∨ (p = [0] ∧ t = 0x101000) ∨ (p = [0; 0] ∧ t = 0x102000) ∨ (p = [0; 0; 0] ∧ t = 0x103000).
Proof.
  intros Hl. destruct p as [|i [|j [|k [|? ?]]]]; [..|cbn in Hl; lia]; cbn [descend].
  - intros [= <-]. by left.
  - rewrite demo_entry. repeat (case_decide; try lia); [|done]. intros [= <-]. naive_solver.
  - rewrite demo_entry. repeat (case_decide; try lia); [|done]. change (is_ptr 0x101007) with true. change (addr_of 0x101007) with 0x101000.
    cbv iota. rewrite demo_entry. repeat (case_decide; try lia); [|done]. intros [= <-]. naive_solver.
  - rewrite demo_entry. repeat (case_decide; try lia); [|done]. change (is_ptr 0x101007) with true. change (addr_of 0x101007) with 0x101000.
    cbv iota. rewrite demo_entry. repeat (case_decide; try lia); [|done]. change (is_ptr 0x102007) with true. change (addr_of 0x102007) with 0x102000.
    cbv iota. rewrite demo_entry. repeat (case_decide; try lia); [|done]. intros [= <-]. naive_solver.
Qed.

Lemma demo_leaf : present (0x104000 + fl) = true ∧ huge (0x104000 + fl) = false ∧ user (0x104000 + fl) = true ∧
  addr_of (0x104000 + fl) = 0x104000.
Proof. by destruct Hfl as [->| ->]. Qed.

Lemma demo_huge t i : huge (entry (demo fl rc) t i) = false.
Proof. rewrite demo_entry. repeat case_decide; try done. by apply demo_leaf. Qed.

Lemma demo_region : base (al d_km) = 0x100000 ∧ pages (al d_km) = 64.
Proof. split; vm_compute; reflexivity. Qed.

Lemma demo_maps p x : maps (demo fl rc) 0x100000 p x → p = [0; 0; 0; 5] ∧ x = 0x104000.
Proof.
  intros (Hl & _ & e & Hw & _ & <-). destruct (walk_inv _ _ _ _ Hw) as (q & i & pt & -> & Hq & He & Hp).
  rewrite length_app in Hl. cbn in Hl.
  destruct (demo_descend q pt ltac:(lia) Hq) as [[-> _]|[[-> _]|[[-> _]|[-> ->]]]]; try (cbn in Hl; lia).
  rewrite demo_entry in He. repeat (case_decide; try lia).
  - destruct H2 as [_ ->]. subst e. split; [done|]. by apply demo_leaf.
  - by subst e.
Qed.

Lemma demo_space : space d_own (demo fl rc) 0x100000.
Proof.
  split.
  - split; [|intros; apply demo_huge]. intros p q t Hp Hq Ht1%demo_descend Ht2%demo_descend; [|done|done]. naive_solver.
  - intros t (p & Hp & [[_ ->]|[[_ ->]|[[_ ->]|[_ ->]]]]%demo_descend); [..|done]; left; unfold d_own; set_solver.
  - intros p t i _ Hh. by rewrite demo_huge in Hh.
Qed.

Lemma demo_mem : mem_ok d_own (demo fl rc).
Proof. split; [exact demo_holds|]. unfold low_mem. cbn [km demo]. destruct demo_region as [-> ->]. lia. Qed.

Lemma demo_singleton (l : list Z) : NoDup l → l ⊆ [0x100000] → ¬ (2 ≤ length l)%nat.
Proof. intros Hnd Hsub Hl. pose proof (submseteq_length _ _ (NoDup_submseteq _ _ Hnd Hsub)) as H. cbn in H. lia. Qed.

Lemma demo_tabs : tabs_ok d_own (demo fl rc) [0x100000].
Proof.
  split; [exact demo_mem|..].
  - intros r ->%list_elem_of_singleton. split; [exact demo_space|done].
  - intros r r' ->%list_elem_of_singleton ->%list_elem_of_singleton. done.
  - intros r r' t ->%list_elem_of_singleton ->%list_elem_of_singleton Hu _. done.
  - intros t l Hnd Hsub _ Hl. by destruct (demo_singleton l Hnd Hsub).
Qed.

Lemma demo_data : data_ok d_own (demo fl rc) [0x100000].
Proof.
  split.
  - intros r p x ->%list_elem_of_singleton [_ ->]%demo_maps. left. unfold d_own. set_solver.
  - intros r r' p x ->%list_elem_of_singleton ->%list_elem_of_singleton [_ ->]%demo_maps (q & Hq & Ht).
    destruct (demo_descend q _ Hq Ht) as [[_ ?]|[[_ ?]|[[_ ?]|[_ ?]]]]; done.
  - intros r p q x ->%list_elem_of_singleton [-> _]%demo_maps [-> _]%demo_maps. done.
  - intros x l Hnd Hsub _ Hl. by destruct (demo_singleton l Hnd Hsub).
Qed.

Lemma demo_present t i : present (entry (demo fl rc) t i) = true → 0 ≤ i < 512 ∧ t ≠ 0.
Proof. rewrite demo_entry. repeat case_decide; [lia..|done]. Qed.

Lemma demo_forkable : 0 ≤ rc ≤ 255 → forkable d_own (demo fl rc) [0x100000] 0x100000.
Proof.
  intros Hrc. assert (∀ i, entry (demo fl rc) 0 i = 0) as Hk by (intros i; rewrite demo_entry; repeat (case_decide; try lia)).
  split.
  - split.
    + assert (map_Forall (λ _ c, 0 ≤ c ≤ 65535) (pte_refcs d_km)) as Hall by (apply (bool_decide_eq_true_1 (map_Forall _ _)); vm_compute; reflexivity).
      intros i. cbn [km demo]. unfold getd. destruct (pte_refcs d_km !! i) eqn:E; [exact (Hall i z E)|cbn; lia].
    + intros i. cbn [page_refc demo]. rewrite getd_singleton. case_decide; lia.
  - intros i _. rewrite demo_entry. repeat (case_decide; try lia); [|done]. intros _. vm_compute. reflexivity.
  - intros t (p & _ & Hp & Ht) Hne. cbn [km demo]. destruct (demo_descend p t Hp Ht) as [[_ ->]|[[_ ->]|[[_ ->]|[_ ->]]]]; [done|vm_compute; reflexivity..].
  - intros p x [_ ->]%demo_maps. vm_compute. reflexivity.
  - intros t i _ Hp. by apply demo_present in Hp as [? _].
  - intros i _ _. cbn [kernel_pml4 demo]. by rewrite Hk.
  - intros i Hi. cbn [kernel_pml4 demo]. rewrite Hk, demo_entry. repeat (case_decide; try lia).
  - intros i. apply demo_huge.
  - right. cbn [kernel_pml4 km demo]. left. destruct demo_region as [-> _]. lia.
  - cbn. lia.
Qed.
End demo.

(** After a fork: the child's top table is 0x105000. *)
Definition demo_fork : pmem := (cow_fork_pml4 0x100000 (demo 7 0)).2.

Lemma demo_forked : fork_ok d_own (demo 7 0) [0x100000] 0x100000 0x105000 demo_fork.
Proof.
  apply fork_succeeds; [apply demo_tabs; lia|apply demo_data; lia|apply list_elem_of_here|apply demo_forkable; lia|].
  unfold demo_fork. rewrite (surjective_pairing (cow_fork_pml4 _ _)) at 1. f_equal.
Qed.
