(* ===== verification/PagingClaims.v ===== *)
(** * Theorems about the page tables *)

From S2P Require Import Prelude Buddy BuddySpec PageAlloc BuddyPages VfsTypes Vma Paging PagingWalk PagingMap PagingCow PagingFork PagingDemo.
From stdpp Require Import base gmap numbers sets strings list.
Local Open Scope Z_scope.

(** ** Lookups *)

(** The kernel's own page-table lookup, [resolve_phys], gives the physical
    address the hardware's walk gives, for every address that is not mapped by
    a page of 1 GiB. *)
Theorem resolve_phys_correct s root v :
  tree s root → huge (entry s (addr_of (entry s root (vpn 39 v))) (vpn 30 v)) = false →
  resolve_phys s root v = xlate s root v.
Proof.
  intros Ht H1. unfold resolve_phys, resolve_phys_flags, walk_pt, xlate, path. cbn [walk].
  rewrite (tr_top _ _ Ht). destruct (present (entry s root _)); [|done]. cbn [negb].
  destruct (present (entry s (addr_of (entry s root _)) _)); [|done]. rewrite H1. cbn [negb].
  set (pde := entry s _ (vpn 21 v)). destruct (present pde); [|done]. cbn [negb].
  destruct (huge pde); [done|]. set (pte := entry s _ (vpn 12 v)). by destruct (present pte).
Qed.

Lemma resolve_phys_correct_witness :
  resolve_phys (demo 7 0) 0x100000 0x5123 = xlate (demo 7 0) 0x100000 0x5123 ∧ resolve_phys (demo 7 0) 0x100000 0x5123 = Some 0x104123.
Proof.
  split; [apply resolve_phys_correct; [apply (demo_space 7 0); lia|vm_compute; reflexivity]|vm_compute; reflexivity].
Defined.

(** ** [map_into] *)

(** C6: [map_into] makes the address translate to the page with the flags
    asked for and changes no translation of any other page, splitting large
    pages where it must; when memory runs out no translation changes at all.
    Either way the tables stay a tree of pages the space holds, only pages
    taken anew or tables of this space are written, and the allocator's
    invariant holds. *)
Theorem map_into_maps own s root v phys flags :
  mem_ok own s → space own s root → page_addr phys → addr_of flags = 0 →
  let '(r, s') := map_into root v phys flags s in
  ∃ own', mem_ok own' s' ∧ space own' s' root ∧ own ⊆ own' ∧ page_refc s' = page_refc s ∧
    (∀ t, t ∈ own ∨ outside (km s) t → ¬ reach s root t → page_of s' t = page_of s t) ∧
    match r with
    | Ok _ => resolve_phys_flags s' root v = Some (Z.lor phys (Z.land v 0xFFF), Z.lor phys (Z.lor flags PTE_PRESENT)) ∧
        ∀ v', path v' ≠ path v → xlate s' root v' = xlate s root v'
    | Err _ => ∀ v', xlate s' root v' = xlate s root v'
    end.
Proof.
  intros Hm Hsp Hphys Hfl. pose proof (map_into_spec own s root v phys flags Hm Hsp) as H.
  destruct (map_into root v phys flags s) as [r s']. destruct H as (own' & H1 & H2 & _ & H3 & H4 & H5 & _ & _ & H6).
  exists own'. split; [exact H1|]. split; [exact H2|]. split; [exact H3|]. split; [exact H4|]. split; [exact H5|]. destruct r as [[]|]; [|done]. destruct H6 as [H6 H7]. split; [|done].
  destruct (mapped_seen _ _ _ _ H6) as [_ ->].
  - rewrite !present_lor. change (present PTE_PRESENT) with true. by rewrite !orb_true_r.
  - rewrite !addr_of_lor, Hphys, Hfl. by rewrite Z.lor_0_r.
Qed.

Lemma map_into_maps_witness : ∃ own', mem_ok own' (map_into 0x100000 0x6000 0x200000 6 (demo 7 0)).2 ∧
  space own' (map_into 0x100000 0x6000 0x200000 6 (demo 7 0)).2 0x100000 ∧
  resolve_phys_flags (map_into 0x100000 0x6000 0x200000 6 (demo 7 0)).2 0x100000 0x6000 = Some (0x200000, 0x200007).
Proof.
  pose proof (map_into_maps d_own (demo 7 0) 0x100000 0x6000 0x200000 6 (demo_mem 7 0) (demo_space 7 0 ltac:(lia)) eq_refl eq_refl) as H.
  destruct (map_into 0x100000 0x6000 0x200000 6 (demo 7 0)) as [r s'] eqn:E.
  assert (r = Ok tt) as -> by (change r with (r, s').1; rewrite <- E; vm_compute; reflexivity).
  destruct H as (own' & H1 & H2 & _ & _ & _ & H3 & _). exists own'. split_and!; [exact H1|exact H2|exact H3].
Defined.

(** ** [unmap_into] *)

(** [unmap_into] finds the page tables the hardware finds: it succeeds exactly
    on a page of 4 KiB. *)
Lemma unmap_walk s root v :
  tree s root →
  match unmap_into root v s with
  | (Ok phys, s') => ∃ pt e, descend s root [vpn 39 v; vpn 30 v; vpn 21 v] = Some pt ∧
      walk s root (path v) = Some (e, []) ∧ entry s pt (vpn 12 v) = e ∧ phys = addr_of e ∧ s' = set_entry pt (vpn 12 v) 0 s
  | (Err _, s') => s' = s ∧ ∀ e, walk s root (path v) ≠ Some (e, [])
  end.
Proof.
  intros Ht. unfold unmap_into, path. cbn [walk descend]. unfold is_ptr. rewrite (tr_top _ _ Ht).
  destruct (present (entry s root _)); [|done]. cbn [negb andb].
  set (pdpte := entry s _ (vpn 30 v)). destruct (present pdpte); [|done]. destruct (huge pdpte); [done|]. cbn [negb andb].
  set (pde := entry s _ (vpn 21 v)). destruct (present pde); [|done]. destruct (huge pde); [done|]. cbn [negb andb].
  set (pte := entry s _ (vpn 12 v)). destruct (present pte) eqn:Hp; [|done]. cbn [negb]. by exists (addr_of pde), pte.
Qed.

(** [unmap_into] returns the page the address was mapped to and removes
    exactly that translation; it fails, changing nothing, exactly when no page
    of 4 KiB is mapped there. *)
Theorem unmap_into_unmaps own s root v :
  space own s root →
  let '(r, s') := unmap_into root v s in
  match r with
  | Ok phys => xlate s root v = Some (Z.lor phys (Z.land v 0xFFF)) ∧ xlate s' root v = None ∧ space own s' root ∧
      ∀ v', path v' ≠ path v → xlate s' root v' = xlate s root v'
  | Err _ => s' = s ∧ ∀ e, walk s root (path v) ≠ Some (e, [])
  end.
Proof.
  intros Hsp. pose proof (unmap_walk s root v (sp_tree _ _ _ Hsp)) as H. destruct (unmap_into root v s) as [[phys|] s']; [|done].
  destruct H as (pt & e & Hpt & Hw & He & -> & ->). destruct (leaf_set own s root v pt 0 Hsp Hpt) as (L1 & L2 & L3 & _).
  split_and!; [|rewrite (leaf_xlate _ _ _ _ L2)|done|intros; by apply (leaf_others own)].
  - unfold xlate. by rewrite Hw.
  - by rewrite entry_set, decide_True.
Qed.

Lemma unmap_into_unmaps_witness :
  (unmap_into 0x100000 0x5000 (demo 7 0)).1 = Ok 0x104000 ∧ xlate (unmap_into 0x100000 0x5000 (demo 7 0)).2 0x100000 0x5000 = None.
Proof.
  pose proof (unmap_into_unmaps d_own (demo 7 0) 0x100000 0x5000 (demo_space 7 0 ltac:(lia))) as H.
  assert ((unmap_into 0x100000 0x5000 (demo 7 0)).1 = Ok 0x104000) as E by (vm_compute; reflexivity).
  destruct (unmap_into 0x100000 0x5000 (demo 7 0)) as [r s']. cbn in E. subst r. split; [done|apply H].
Defined.

(** ** Write faults *)



(** The last space that maps a once shared page finds its count at one,
    copies the page all the same and drops the count to zero: the old page
    stays allocated although no space maps it any more. *)
Theorem cow_last_owner_leaks own s roots r v e s' :
  tabs_ok own s roots → data_ok own s roots → r ∈ roots → vpn 39 v < 256 → v ≠ META_PAGE →
  walk s r (path v) = Some (e, []) → user e = true → writable e = false → addr_of e ∈ own →
  refc_get s (addr_of e) = 1 → (∀ r' q, r' ∈ roots → maps s r' q (addr_of e) → r' = r) →
  cow_remap_in r v s = Done (true, s') →
  ∃ own', holds (km s') own' ∧ addr_of e ∈ own' ∧ refc_get s' (addr_of e) = 0 ∧
    ∀ r' q, r' ∈ roots → ¬ maps s' r' q (addr_of e).
Proof.
  intros Hok Hd Hr Hv Hmeta He Hue Hwe Hin Hone Honly. unfold cow_remap_in.
  destruct (cow_walk_pte r v s) as [[[pt i]|] s1] eqn:Hcw; [|done].
  destruct (cow_walk_spec own s roots r v _ s1 Hok Hr Hv Hcw) as (own1 & Hst & -> & Hpt & Hpriv).
  destruct (remap_old own s roots r v e Hd Hr Hv He Hue own1 s1 Hst pt Hpt) as (Hent & Hpe & Hmap).
  rewrite Hent, Hpe, Hwe. cbn [negb].
  assert (∀ x, refc_get s1 x = refc_get s x) as Hrc by (intros; unfold refc_get; by rewrite (st_refc _ _ _ _ _ _ Hst)).
  rewrite Hrc, Hone. change (1 =? 0) with false. rewrite (proj2 (Z.eqb_neq v META_PAGE) Hmeta).
  destruct (alloc_page (refc_dec (addr_of e) s1)) as [[n|] s2] eqn:Hal; [|done]. intros [= <-].
  destruct (remap_copied own s roots r v e Hok Hd Hr Hv He Hue Hwe own1 s1 Hst pt Hpt Hpriv n s2) as [[U _] G]; [lia|lia|done|].
  destruct G as (w & own' & Gw & _ & _ & [[_ ?]|Gn] & Gu & Gsub & Gt & Gd); [lia|].
  destruct (to_mem _ _ _ (st_tabs _ _ _ _ _ _ Hst)) as [Hh1 Hlow1]. destruct (refc_dec_same s1 (addr_of e)) as [F1 F2].
  destruct (alloc_page_spec (refc_dec (addr_of e) s1) own1 (Some n) s2) as (_ & _ & Hno & _ & Hn & Hs2); [by rewrite F2|by rewrite F2|done|].
  assert (addr_of e ≠ n) as Hen by (intros E; apply Hno; rewrite <- E; by apply (st_own _ _ _ _ _ _ Hst)).
  exists own'. split_and!; [apply (to_mem _ _ _ Gt)|by apply Gsub| |].
  - match goal with |- refc_get ?x _ = _ => change (refc_get x (addr_of e)) with (refc_get s2 (addr_of e)) end. rewrite Hs2.
    change (refc_get (zero_frame n (set_km (km s2) ?x)) (addr_of e)) with (refc_get x (addr_of e)).
    rewrite refc_dec_data by (apply page_addr_of || rewrite Hrc; lia). rewrite decide_True by done. rewrite Hrc. lia.
  - intros r' q Hr' Hq. pose proof (vpn_bound 39 v).
    assert ((r', q) ≠ (r, path v)) as Hne.
    { intros [= -> ->]. destruct Hq as (_ & _ & e' & Hw' & _ & Ha').
      rewrite Gw in Hw'. injection Hw' as <-. apply Gn. by rewrite Ha'. }
    assert (maps s r' q (addr_of e)) as Hq0.
    { destruct Hq as (A & B & e0 & C & D). split_and!; [done|done|]. exists e0. split; [|done]. by rewrite <- U. }
    pose proof (Honly r' q Hr' Hq0) as ->. apply Hne. f_equal. by eapply (do_once _ _ _ Hd).
Qed.

Definition demo_copied : pmem := match cow_remap_in 0x100000 0x5000 (demo 5 1) with Done (_, s) => s | _ => demo 5 1 end.

Lemma cow_last_owner_leaks_witness : ∃ own', holds (km demo_copied) own' ∧ 0x104000 ∈ own' ∧
  ∀ r q, r ∈ [0x100000] → ¬ maps demo_copied r q 0x104000.
Proof.
  destruct (cow_last_owner_leaks d_own (demo 5 1) [0x100000] 0x100000 0x5000 0x104005 demo_copied) as (own' & H1 & H2 & _ & H3);
    [apply demo_tabs; lia|apply demo_data; lia|apply list_elem_of_here|vm_compute; congruence|vm_compute; congruence|vm_compute; congruence
    |vm_compute; congruence|vm_compute; congruence|apply list_elem_of_here|vm_compute; congruence| |vm_compute; congruence|exists own'; split_and!; [exact H1|exact H2|exact H3]].
  intros r' q ->%list_elem_of_singleton _. reflexivity.
Defined.

(** ** Fork *)

(** C2: a fork gives the child the parent's user half; no translation of any
    existing space changes, no data page is written, no user page of parent or
    child stays writable, and the counts of shared tables and pages cover the
    child, so that later write faults separate the two.  When memory runs out
    nothing changes. *)
Theorem cow_fork_shares own s roots old :
  tabs_ok own s roots → data_ok own s roots → old ∈ roots → forkable own s roots old →
  match cow_fork_pml4 old s with
  | (Some new, s') => fork_ok own s roots old new s'
  | (None, s') => mem_ok own s' ∧ frames s' = frames s ∧ page_refc s' = page_refc s
  end.
Proof.
  intros Hok Hd Hin Hf. destruct (cow_fork_pml4 old s) as [[new|] s'] eqn:Hrun; [by apply fork_succeeds|].
  rewrite cow_fork_eq in Hrun. destruct (to_mem _ _ _ Hok) as [Hh Hlow].
  destruct (alloc_page s) as [[new|] s1] eqn:Hal; apply pair_eq in Hrun as [Hn <-]; [done|].
  destruct (alloc_page_spec s own None s1 Hh Hlow Hal) as (Hreg & Hh1 & ->). split_and!; [|done|done].
  split; [done|]. by apply (low_region (km s)).
Qed.

Lemma cow_fork_shares_witness : fork_ok d_own (demo 7 0) [0x100000] 0x100000 0x105000 demo_fork.
Proof.
  pose proof (cow_fork_shares d_own (demo 7 0) [0x100000] 0x100000 (demo_tabs 7 0 ltac:(lia)) (demo_data 7 0 ltac:(lia))
    ltac:(apply list_elem_of_here) (demo_forkable 7 0 ltac:(lia) ltac:(lia))) as H.
  assert ((cow_fork_pml4 0x100000 (demo 7 0)).1 = Some 0x105000) as E by (vm_compute; reflexivity).
  unfold demo_fork. destruct (cow_fork_pml4 0x100000 (demo 7 0)) as [r s']. cbn in E. subst r. exact H.
Defined.

(** ** Demand paging *)

(** A page brought in on demand after a fork goes into a table that is
    still shared: the other space gets the same page with the same
    permissions at that address, although it never asked for it. *)
Theorem demand_page_shared own s roots root r id cr2 vs vm pt s' :
  tabs_ok own s roots → root ∈ roots → r ∈ roots → vma_find root cr2 vs = Some vm →
  descend s root [vpn 39 cr2; vpn 30 cr2; vpn 21 cr2] = Some pt → descend s r [vpn 39 cr2; vpn 30 cr2; vpn 21 cr2] = Some pt →
  handle_demand_page id root cr2 vs s = (true, s') →
  ∃ phys, phys ∉ own ∧ let w := Z.lor phys (Z.lor (v_flags vm) PTE_PRESENT) in
    walk s' root (path cr2) = Some (w, []) ∧ walk s' r (path cr2) = Some (w, []).
Proof.
  intros Hok Hroot Hr Hvm Hdr Hd. unfold handle_demand_page. rewrite Hvm. destruct (id =? 0)%nat; [done|].
  destruct (alloc 0 (km s)) as [[phys|] k] eqn:Hal; [|done].
  destruct (alloc_fresh (km s) own phys k (proj1 (to_mem _ _ _ Hok)) Hal) as [Hno Hnout].
  set (v := Z.ldiff cr2 0xFFF). set (s1 := zero_frame phys (set_km k s)).
  assert (path v = path cr2) as Hpv by (unfold path, v; by rewrite !page_vpn by lia).
  assert (∀ x q, x ∈ roots → (length q ≤ 4)%nat → descend s1 x q = descend s x q) as Hfr.
  { intros x q Hx Hq. apply (unreached_frame s s1 x phys); [|intros t i Ht; unfold s1, zero_frame; by rewrite entry_set_page, decide_False|done].
    intros [?|?]%(sp_own _ _ _ (proj1 (to_space _ _ _ Hok x Hx))); done. }
  assert (∀ x, x ∈ roots → tree s1 x) as Htr.
  { intros x Hx. pose proof (sp_tree _ _ _ (proj1 (to_space _ _ _ Hok x Hx))) as Ht. split.
    - intros p q t ? ?. rewrite !Hfr by (done || lia). by apply Ht.
    - intros i. unfold s1, zero_frame. rewrite entry_set_page. case_decide; [by rewrite empty_get|apply Ht]. }
  injection Hpv as E1 E2 E3 E4. rewrite <- E1, <- E2, <- E3 in Hdr, Hd.
  rewrite <- (Hfr root) in Hdr by (done || cbn; lia). rewrite <- (Hfr r) in Hd by (done || cbn; lia).
  destruct (map_into_seen s1 root root v phys (v_flags vm) pt (Htr root Hroot) Hdr Hdr) as (s2 & Hm & W1).
  destruct (map_into_seen s1 root r v phys (v_flags vm) pt (Htr r Hr) Hdr Hd) as (s3 & Hm' & W2).
  rewrite Hm in Hm'. injection Hm' as <-. fold s1. rewrite Hm. intros [= <-]. exists phys. split; [done|]. unfold path. by rewrite <- E1, <- E2, <- E3, <- E4.
Qed.

Definition demo_vma : pool := [mkVmaRec 0x100000 (mkVma 0x6000 0x8000 6)].
Definition demo_paged : pmem := (handle_demand_page 1 0x100000 0x6010 demo_vma demo_fork).2.

Lemma demand_page_shared_witness : ∃ w, writable w = true ∧
  walk demo_paged 0x100000 (path 0x6010) = Some (w, []) ∧ walk demo_paged 0x105000 (path 0x6010) = Some (w, []).
Proof.
  destruct (demand_page_shared (0x105000 :: d_own) demo_fork [0x105000; 0x100000] 0x100000 0x105000 1 0x6010 demo_vma
    (mkVma 0x6000 0x8000 6) 0x103000 demo_paged) as (phys & _ & H1 & H2);
    [apply demo_forked|apply list_elem_of_further, list_elem_of_here|apply list_elem_of_here|vm_compute; reflexivity..|].
  eexists. split; [|split; [exact H1|exact H2]]. rewrite writable_bit, !Z.lor_spec. cbn. apply orb_true_r.
Defined.

(** ** The trap on the page types *)

(** What [page_type_set] does to the active table around its store, which
    [Buddy.page_type_set] leaves out: the leaf over the byte is made writable
    and read-only again. *)
Definition type_toggle (cr3 va : Z) (s : pmem) : pmem := (type_page_rw cr3 va false (type_page_rw cr3 va true s).2).2.

(** What a walk looks at in an entry above the leaf. *)
Definition shape (e : Z) : bool * bool * Z := (present e, huge e, addr_of e).

Lemma shape_writable e : shape (Z.lor e PTE_WRITABLE) = shape e.
Proof. unfold shape, present, huge, addr_of. by rewrite !Z.land_lor_distr_l, !Z.lor_0_r. Qed.

Lemma clear_w_writable e : clear_w (Z.lor e PTE_WRITABLE) = clear_w e.
Proof. apply Z.bits_inj'. intros i Hi. unfold clear_w. rewrite !Z.ldiff_spec, Z.lor_spec. by destruct (Z.testbit e i), (Z.testbit PTE_WRITABLE i). Qed.

(** Only the leaf over the byte changes, and only its bit for writing; a leaf
    that is read-only, as the trap leaves it, does not change at all. *)
Lemma type_toggle_silent cr3 va s :
  km (type_toggle cr3 va s) = km s ∧ page_refc (type_toggle cr3 va s) = page_refc s ∧ kernel_pml4 (type_toggle cr3 va s) = kernel_pml4 s ∧
  ∀ t i, entry (type_toggle cr3 va s) t i = entry s t i ∨ entry (type_toggle cr3 va s) t i = clear_w (entry s t i) ∧ get_pte_in s cr3 va = Some (t, i).
Proof.
  unfold type_toggle. destruct (type_page_rw cr3 va true s) as [b s1] eqn:H1. cbn [snd].
  unfold type_page_rw in H1. destruct (cr3 =? 0) eqn:H0; [injection H1 as <- <-; unfold type_page_rw; rewrite H0; split_and!; [done..|by left]|].
  destruct (present (entry s cr3 (vpn 39 va))) eqn:P1; cbn [negb] in H1;
    [|injection H1 as <- <-; unfold type_page_rw; rewrite H0, P1; split_and!; [done..|by left]].
  set (p1 := addr_of (entry s cr3 (vpn 39 va))) in *. destruct (present (entry s p1 (vpn 30 va))) eqn:P2; cbn [negb] in H1;
    [|injection H1 as <- <-; unfold type_page_rw; rewrite H0, P1; fold p1; rewrite P2; split_and!; [done..|by left]].
  destruct (huge (entry s p1 (vpn 30 va))) eqn:G2;
    [injection H1 as <- <-; unfold type_page_rw; rewrite H0, P1; fold p1; rewrite P2, G2; split_and!; [done..|by left]|].
  set (p2 := addr_of (entry s p1 (vpn 30 va))) in *. destruct (present (entry s p2 (vpn 21 va))) eqn:P3; cbn [negb] in H1;
    [|injection H1 as <- <-; unfold type_page_rw; rewrite H0, P1; fold p1; rewrite P2, G2; fold p2; rewrite P3; split_and!; [done..|by left]].
  destruct (huge (entry s p2 (vpn 21 va))) eqn:G3;
    [injection H1 as <- <-; unfold type_page_rw; rewrite H0, P1; fold p1; rewrite P2, G2; fold p2; rewrite P3, G3; split_and!; [done..|by left]|].
  set (p3 := addr_of (entry s p2 (vpn 21 va))) in *. destruct (present (entry s p3 (vpn 12 va))) eqn:P4; cbn [negb] in H1;
    [|injection H1 as <- <-; unfold type_page_rw; rewrite H0, P1; fold p1; rewrite P2, G2; fold p2; rewrite P3, G3; fold p3; rewrite P4; split_and!; [done..|by left]].
  injection H1 as <- <-. set (e := entry s p3 (vpn 12 va)) in *. set (s1 := set_entry p3 (vpn 12 va) (Z.lor e PTE_WRITABLE) s).
  assert (∀ t i, shape (entry s1 t i) = shape (entry s t i)) as Hsh.
  { intros t i. unfold s1. rewrite entry_set. case_decide as E; [destruct E as [<- <-]; apply shape_writable|done]. }
  assert (type_page_rw cr3 va false s1 = (true, set_entry p3 (vpn 12 va) (clear_w e) s1)) as ->.
  { unfold type_page_rw. rewrite H0. pose proof (Hsh cr3 (vpn 39 va)) as [= -> _ ->]. rewrite P1. fold p1.
    pose proof (Hsh p1 (vpn 30 va)) as [= -> -> ->]. rewrite P2, G2. fold p2. pose proof (Hsh p2 (vpn 21 va)) as [= -> -> ->]. rewrite P3, G3. fold p3.
    pose proof (Hsh p3 (vpn 12 va)) as [= -> _ _]. fold e. rewrite P4. cbn [negb]. unfold s1. rewrite entry_set, decide_True by done. by rewrite clear_w_writable. }
  cbn [snd]. split_and!; [done..|]. intros t i. rewrite entry_set. case_decide as E; [|left; unfold s1; by rewrite entry_set, decide_False].
  destruct E as [<- <-]. right. split; [done|]. unfold get_pte_in, walk_pt. rewrite P1. fold p1. rewrite P2. fold p2. rewrite P3. cbn [negb]. rewrite G3. fold p3 e. by rewrite P4.
Qed.
