(* ===== verification/Pipe.v ===== *)
(** * Descriptors and pipes

    The per-task descriptor tables of [src/vfs.rs] and the pipes of
    [src/task.rs].  A pipe has two pseudo-inodes at the top of the inode table;
    descriptors name pseudo-inodes, and a pipe counts the descriptors of each
    of its ends over all tasks.  The argument [cur] is the current task. *)

From S2P Require Import Prelude Sched.
From stdpp Require Import base numbers list.
Local Open Scope Z_scope.

(** ** Constants *)

Definition MAX_INODES : Z := 256.
Definition MAX_FDS_PER_TASK : nat := 64.
Definition PIPE_MAX : nat := 8.
Definition PIPE_INODE_BASE : Z := MAX_INODES - Z.of_nat PIPE_MAX * 2.
Definition PIPE_BUF : nat := 4096.

Definition EBADF : Z := 9.
Definition EAGAIN : Z := 11.
Definition EFAULT : Z := 14.
Definition EINVAL : Z := 22.
Definition EMFILE : Z := 24.

(** ** State *)

Record FileDesc := mkFileDesc { inode_idx : Z; pos : Z; fd_used : bool; fd_flags : Z }.
Definition fd_empty : FileDesc := mkFileDesc 0 0 false 0.
#[export] Instance FileDesc_inhabited : Inhabited FileDesc := populate fd_empty.

Record PipeSlot := mkPipeSlot { buf : list Z; rpos : nat; wpos : nat; nread : Z; nwrite : Z; p_used : bool }.
Definition pipe_empty : PipeSlot := mkPipeSlot (replicate PIPE_BUF 0) 0 0 0 0 false.
#[export] Instance PipeSlot_inhabited : Inhabited PipeSlot := populate pipe_empty.

Record files := mkFiles { pipes : list PipeSlot; fd_tables : list (list FileDesc) }.

Definition files0 : files := mkFiles (replicate PIPE_MAX pipe_empty) (replicate MAX_TASKS (replicate MAX_FDS_PER_TASK fd_empty)).

Definition set_pipe (p : nat) (x : PipeSlot) (s : files) : files := mkFiles (<[p := x]> (pipes s)) (fd_tables s).
Definition set_table (i : nat) (t : list FileDesc) (s : files) : files := mkFiles (pipes s) (<[i := t]> (fd_tables s)).
Definition set_fd (i fd : nat) (d : FileDesc) (s : files) : files := set_table i (<[fd := d]> (fd_tables s !!! i)) s.

(** ** References to pipe ends *)

Definition pipe_idx_of (inode : Z) : option nat :=
  if (PIPE_INODE_BASE <=? inode) && (inode <? MAX_INODES)
  then Some (Z.to_nat (Z.shiftr (inode - PIPE_INODE_BASE) 1)) else None.

Definition pipe_is_write_end (inode : Z) : bool := Z.land inode 1 =? 1.

(** [saturating_add(1)] on [u32] *)
Definition sat32 (n : Z) : Z := Z.min (n + 1) (2 ^ 32 - 1).

Definition pipe_inc_refs (inode : Z) (s : files) : files :=
  match pipe_idx_of inode with
  | None => s
  | Some p =>
      let x := pipes s !!! p in
      set_pipe p (if pipe_is_write_end inode
                  then mkPipeSlot (buf x) (rpos x) (wpos x) (nread x) (sat32 (nwrite x)) (p_used x)
                  else mkPipeSlot (buf x) (rpos x) (wpos x) (sat32 (nread x)) (nwrite x) (p_used x)) s
  end.

Definition pipe_close (inode : Z) (s : files) : files :=
  match pipe_idx_of inode with
  | None => s
  | Some p =>
      let x := pipes s !!! p in
      let nr := if pipe_is_write_end inode then nread x else if 0 <? nread x then nread x - 1 else nread x in
      let nw := if pipe_is_write_end inode then (if 0 <? nwrite x then nwrite x - 1 else nwrite x) else nwrite x in
      set_pipe p (if (nr =? 0) && (nw =? 0) then mkPipeSlot (buf x) 0 0 nr nw false
                  else mkPipeSlot (buf x) (rpos x) (wpos x) nr nw (p_used x)) s
  end.

(** ** Descriptor tables *)

Definition fd_slot (id : nat) : nat := (id `mod` MAX_TASKS)%nat.
Definition fd_table_for (id : nat) (s : files) : list FileDesc := fd_tables s !!! fd_slot id.
Definition get_fd_table (cur : nat) (s : files) : option (list FileDesc) :=
  if (cur =? 0)%nat then None else Some (fd_table_for cur s).

Definition free_fd (t : list FileDesc) : option nat := fst <$> list_find (λ d, fd_used d = false) t.

Definition alloc_fd_for_task (id : nat) (inode flags : Z) (s : files) : option nat * files :=
  match free_fd (fd_table_for id s) with
  | Some i => (Some i, set_fd (fd_slot id) i (mkFileDesc inode 0 true flags) s)
  | None => (None, s)
  end.

Definition alloc_fd (cur : nat) (inode flags : Z) (s : files) : option nat * files :=
  if (cur =? 0)%nat then (None, s) else alloc_fd_for_task cur inode flags s.

(** The open descriptor [fd] of the current task. *)
Definition fd_to_inode (cur fd : nat) (s : files) : option FileDesc :=
  match get_fd_table cur s with
  | None => None
  | Some t => if (MAX_FDS_PER_TASK <=? fd)%nat || negb (fd_used (t !!! fd)) then None else Some (t !!! fd)
  end.

Definition unuse (d : FileDesc) : FileDesc := mkFileDesc (inode_idx d) (pos d) false (fd_flags d).

Definition close_fd (cur fd : nat) (s : files) : bool * files :=
  match fd_to_inode cur fd s with
  | None => (false, s)
  | Some d => (true, set_fd (fd_slot cur) fd (unuse d) (pipe_close (inode_idx d) s))
  end.

Definition sys_close (cur fd : nat) (s : files) : Z * files :=
  let '(b, s) := close_fd cur fd s in (if b then 0 else - EBADF, s).

(** ** System calls *)

Definition set_used (b : bool) (x : PipeSlot) : PipeSlot := mkPipeSlot (buf x) (rpos x) (wpos x) (nread x) (nwrite x) b.

(** [pipefd] is null or the place for the two descriptors: the second result
    is what is stored there. *)
Definition sys_pipe (cur : nat) (null : bool) (s : files) : Z * option (nat * nat) * files :=
  if null then (- EFAULT, None, s)
  else match list_find (λ x, p_used x = false) (pipes s) with
  | None => (- EMFILE, None, s)
  | Some (p, x) =>
      let s := set_pipe p (mkPipeSlot (buf x) 0 0 1 1 true) s in
      let r_inode := PIPE_INODE_BASE + Z.of_nat p * 2 in
      let w_inode := r_inode + 1 in
      let drop s := set_pipe p (set_used false (pipes s !!! p)) s in
      match alloc_fd cur r_inode 0 s with
      | (None, s) => (- EMFILE, None, drop s)
      | (Some r, s) =>
          match alloc_fd cur w_inode 0 s with
          | (Some w, s) => (0, Some (r, w), s)
          | (None, s) => (- EMFILE, None, drop (close_fd cur r s).2)
          end
      end
  end.

(** Copy descriptor [oldfd] to the slot [newfd]. *)
Definition dup_fd (cur oldfd newfd : nat) (s : files) : files :=
  let d := fd_table_for cur s !!! oldfd in
  pipe_inc_refs (inode_idx d) (set_fd (fd_slot cur) newfd (mkFileDesc (inode_idx d) 0 (fd_used d) (fd_flags d)) s).

Definition sys_dup2 (cur oldfd newfd : nat) (s : files) : Z * files :=
  match fd_to_inode cur oldfd s with
  | None => (- EBADF, s)
  | Some _ =>
      if (oldfd =? newfd)%nat then (Z.of_nat newfd, s)
      else (Z.of_nat newfd, if (newfd <? MAX_FDS_PER_TASK)%nat then dup_fd cur oldfd newfd s else s)
  end.

(** The lowest free descriptor from [i] on. *)
Definition free_fd_from (i : nat) (t : list FileDesc) : option nat := (λ k, (i + k)%nat) <$> free_fd (drop i t).

Definition sys_fcntl (cur fd : nat) (cmd arg : Z) (s : files) : Z * files :=
  if cmd =? 0 then sys_dup2 cur fd fd s
  else if (cmd =? 1) || (cmd =? 2) then (0, s)
  else if cmd =? 3 then
    match fd_to_inode cur fd s with Some d => (fd_flags d, s) | None => (- EBADF, s) end
  else if cmd =? 4 then
    match fd_to_inode cur fd s with
    | Some d => (0, set_fd (fd_slot cur) fd
        (mkFileDesc (inode_idx d) (pos d) (fd_used d) (Z.lor (Z.ldiff (fd_flags d) 0x3FFF) (Z.land arg 0x3FFF))) s)
    | None => (- EBADF, s)
    end
  else if (cmd =? 5) || (cmd =? 6) || (cmd =? 7) then (0, s)
  else if cmd =? 1030 then
    match get_fd_table cur s with
    | None => (- EBADF, s)
    | Some t =>
        match free_fd_from (Z.to_nat arg) t with
        | None => (- EMFILE, s)
        | Some newfd =>
            match fd_to_inode cur fd s with
            | None => (- EBADF, s)
            | Some _ => (Z.of_nat newfd, dup_fd cur fd newfd s)
            end
        end
    end
  else (- EINVAL, s).

(** [sys_fork] and [sys_clone]: the child gets the parent's descriptors and
    references of its own. *)
Fixpoint inc_all (t : list FileDesc) (s : files) : files :=
  match t with
  | [] => s
  | d :: t => inc_all t (if fd_used d then pipe_inc_refs (inode_idx d) s else s)
  end.

Definition fork_fds (cur child : nat) (s : files) : files :=
  match get_fd_table cur s with
  | None => s
  | Some t => inc_all t (set_table (fd_slot child) t s)
  end.

(** [exit_task]: all descriptors are closed. *)
Fixpoint close_all (n cur fd : nat) (s : files) : files :=
  match n with
  | O => s
  | S n' => close_all n' cur (S fd) (if fd_used (fd_table_for cur s !!! fd) then (close_fd cur fd s).2 else s)
  end.

Definition exit_fds (cur : nat) (s : files) : files :=
  if (cur =? 0)%nat then s else close_all MAX_FDS_PER_TASK cur 0 s.

(** ** Data *)

(** The loop of [sys_write]: bytes beyond the end of the buffer are dropped. *)
Fixpoint pipe_put (bs : list Z) (x : PipeSlot) : PipeSlot :=
  match bs with
  | [] => x
  | c :: bs => pipe_put bs (if (wpos x <? PIPE_BUF)%nat
                            then mkPipeSlot (<[wpos x := c]> (buf x)) (rpos x) (S (wpos x)) (nread x) (nwrite x) (p_used x) else x)
  end.

(** [sys_write] on the descriptor of a pipe end ([None]: not a pipe).  The
    second result says whether pollers are woken. *)
Definition sys_write_pipe (d : FileDesc) (bs : list Z) (s : files) : option (Z * bool * files) :=
  match pipe_idx_of (inode_idx d) with
  | None => None
  | Some p =>
      if pipe_is_write_end (inode_idx d) then
        let x := pipes s !!! p in
        Some (Z.of_nat (length bs), (wpos x <? PIPE_BUF)%nat && negb (length bs =? 0)%nat, set_pipe p (pipe_put bs x) s)
      else Some (- EBADF, false, s)
  end.

(** One turn of the loop of [sys_read]: data, an error, or the caller blocks. *)
Inductive turn := Data (bs : list Z) | Fails (e : Z) | Blocks.

Definition pipe_take (count : nat) (x : PipeSlot) : list Z * PipeSlot :=
  let n := Nat.min count (wpos x - rpos x) in
  let r := (rpos x + n)%nat in
  (take n (drop (rpos x) (buf x)),
   if (r =? wpos x)%nat then mkPipeSlot (buf x) 0 0 (nread x) (nwrite x) (p_used x)
   else mkPipeSlot (buf x) r (wpos x) (nread x) (nwrite x) (p_used x)).

Definition nonblocking (cur fd : nat) (s : files) : bool :=
  match fd_to_inode cur fd s with Some d => negb (Z.land (fd_flags d) 0x800 =? 0) | None => false end.

Definition read_turn (cur fd p count : nat) (s : files) : turn * files :=
  let x := pipes s !!! p in
  if (rpos x <? wpos x)%nat then let '(bs, x) := pipe_take count x in (Data bs, set_pipe p x s)
  else if nonblocking cur fd s then (Fails EAGAIN, s)
  else (Blocks, s).

(** [sys_read] on a pipe, with what the other tasks do while it waits. *)
Fixpoint read_loop (fuel : nat) (env : files → files) (cur fd p count : nat) (s : files) : comp (list Z + Z) * files :=
  match fuel with
  | O => (Spin, s)
  | S fuel' =>
      match read_turn cur fd p count s with
      | (Data bs, s) => (Done (inl bs), s)
      | (Fails e, s) => (Done (inr e), s)
      | (Blocks, s) => read_loop fuel' env cur fd p count (env s)
      end
  end.

Definition sys_read_pipe (fuel : nat) (env : files → files) (cur fd count : nat) (s : files) : option (comp (list Z + Z) * files) :=
  match fd_to_inode cur fd s with
  | None => Some (Done (inr EBADF), s)
  | Some d =>
      match pipe_idx_of (inode_idx d) with
      | None => None
      | Some p => if pipe_is_write_end (inode_idx d) then Some (Done (inr EBADF), s)
                  else Some (read_loop fuel env cur fd p count s)
      end
  end.

(** [poll_fd_readiness]; [keys] is whether keyboard input waits. *)
Definition POLLIN : Z := 1.
Definition POLLOUT : Z := 4.
Definition POLLNVAL : Z := 0x20.

Definition poll_fd_readiness (cur fd : nat) (events : Z) (keys : bool) (s : files) : Z :=
  match fd_to_inode cur fd s with
  | None => POLLNVAL
  | Some d =>
      let wants e := negb (Z.land events e =? 0) in
      match pipe_idx_of (inode_idx d) with
      | Some p =>
          let x := pipes s !!! p in
          Z.lor (if wants POLLIN && (rpos x <? wpos x)%nat then POLLIN else 0)
                (if wants POLLOUT && (wpos x <? PIPE_BUF)%nat then POLLOUT else 0)
      | None => Z.lor (if wants POLLIN && keys then POLLIN else 0) (if wants POLLOUT then POLLOUT else 0)
      end
  end.
