(* ===== verification/PipeInv.v ===== *)
(** * The descriptors cover the pipes

    How many open descriptors name a pipe end, and that no count of a pipe is
    ever below it. *)

From S2P Require Import Prelude Sched Pipe.
From stdpp Require Import base numbers list.
Local Open Scope Z_scope.

(** ** Weighted sums over lists *)

Section sums.
Context {A : Type} (f : A → nat).

Fixpoint wsum (l : list A) : nat := match l with [] => 0%nat | x :: l => (f x + wsum l)%nat end.

Lemma wsum_insert l i x y : l !! i = Some y → (wsum (<[i := x]> l) + f y = wsum l + f x)%nat.
Proof.
  revert i. induction l as [|z l IH]; intros [|i] Hi; [done|done|injection Hi as ->; cbn; lia|].
  specialize (IH i Hi). change (<[S i := x]> (z :: l)) with (z :: <[i := x]> l). cbn [wsum]. lia.
Qed.

Lemma wsum_in l i y : l !! i = Some y → (f y ≤ wsum l)%nat.
Proof. revert i. induction l as [|z l IH]; intros [|i] Hi; cbn in *; [done|done|injection Hi as ->; lia|]. specialize (IH i Hi). lia. Qed.

Lemma wsum_bound l n : (∀ x, x ∈ l → f x ≤ n)%nat → (wsum l ≤ length l * n)%nat.
Proof.
  induction l as [|z l IH]; intros H; cbn; [lia|]. pose proof (H z ltac:(apply list_elem_of_here)).
  assert (wsum l ≤ length l * n)%nat by (apply IH; intros x Hx; by apply H, list_elem_of_further). lia.
Qed.

Lemma wsum_zero l : (∀ x, x ∈ l → f x = 0%nat) → wsum l = 0%nat.
Proof. intros H. pose proof (wsum_bound l 0) as Hb. rewrite Nat.mul_0_r in Hb. enough (wsum l ≤ 0)%nat by lia. apply Hb. intros x Hx. by rewrite H. Qed.
End sums.

(** ** Open descriptors of an inode *)

Definition opens (e : Z) (d : FileDesc) : nat := if fd_used d && (inode_idx d =? e) then 1%nat else 0%nat.
Definition table_refs (e : Z) (t : list FileDesc) : nat := wsum (opens e) t.
Definition refs (s : files) (e : Z) : nat := wsum (table_refs e) (fd_tables s).

(** The count the pipe of the end [e] keeps. *)
Definition end_count (x : PipeSlot) (e : Z) : Z := if pipe_is_write_end e then nwrite x else nread x.

Definition slot_ok (x : PipeSlot) : Prop :=
  length (buf x) = PIPE_BUF ∧ (rpos x ≤ wpos x ≤ PIPE_BUF)%nat ∧ 0 ≤ nread x < 2 ^ 32 ∧ 0 ≤ nwrite x < 2 ^ 32.

(** [extra e] more references are about to be counted. *)
Record files_inv (extra : Z → nat) (s : files) : Prop := {
  fi_pipes : length (pipes s) = PIPE_MAX;
  fi_tables : length (fd_tables s) = MAX_TASKS;
  fi_table : ∀ t, t ∈ fd_tables s → length t = MAX_FDS_PER_TASK;
  fi_slot : ∀ p x, pipes s !! p = Some x → slot_ok x;
  fi_refs : ∀ e p x, pipe_idx_of e = Some p → pipes s !! p = Some x →
    Z.of_nat (refs s e) ≤ (if p_used x then end_count x e else 0) + Z.of_nat (extra e);
}.

Definition none (_ : Z) : nat := 0%nat.

Lemma pipe_idx_bound e p : pipe_idx_of e = Some p → (p < PIPE_MAX)%nat.
Proof.
  unfold pipe_idx_of, PIPE_INODE_BASE, MAX_INODES, PIPE_MAX. destruct (Z.leb_spec (256 - Z.of_nat 8 * 2) e); [|done].
  destruct (Z.ltb_spec e 256); [|done]. intros [= <-]. rewrite Z.shiftr_div_pow2 by lia. change (2 ^ 1) with 2.
  assert ((e - (256 - Z.of_nat 8 * 2)) / 2 < 8) by (apply Z.div_lt_upper_bound; lia). lia.
Qed.

(** The two ends of a pipe. *)
Lemma pipe_ends e e' p : pipe_idx_of e = Some p → pipe_idx_of e' = Some p → pipe_is_write_end e = pipe_is_write_end e' → e = e'.
Proof.
  unfold pipe_idx_of, pipe_is_write_end. change PIPE_INODE_BASE with 240. change MAX_INODES with 256.
  destruct (Z.leb_spec 240 e); [|done]. destruct (Z.ltb_spec e 256); [|done]. destruct (Z.leb_spec 240 e'); [|done]. destruct (Z.ltb_spec e' 256); [|done].
  cbn [andb]. intros [= <-] [= Heq]. rewrite !Z.shiftr_div_pow2 in Heq by lia. change (2 ^ 1) with 2 in Heq.
  apply Z2Nat.inj in Heq; [|apply Z.div_pos; lia|apply Z.div_pos; lia].
  change 1 with (Z.ones 1). rewrite !Z.land_ones by lia. change (2 ^ 1) with 2.
  change (Z.ones 1) with 1. destruct (Z.eqb_spec (e mod 2) 1), (Z.eqb_spec (e' mod 2) 1); intros ?; try done; Z.to_euclidean_division_equations; lia.
Qed.

Lemma opens_le e d : (opens e d ≤ 1)%nat.
Proof. unfold opens. case_match; lia. Qed.

Lemma refs_bound extra s e : files_inv extra s → (refs s e ≤ 4096)%nat.
Proof.
  intros Hi. pose proof (wsum_bound (table_refs e) (fd_tables s) 64) as Hb. rewrite (fi_tables _ _ Hi) in Hb.
  etrans; [apply Hb|done]. intros t Ht. pose proof (wsum_bound (opens e) t 1 (λ d _, opens_le e d)) as Hb'.
  rewrite (fi_table _ _ Hi t Ht) in Hb'. done.
Qed.

(** ** Updates *)

Lemma refs_pipe p x s e : refs (set_pipe p x s) e = refs s e.
Proof. done. Qed.

Lemma refs_set_table i t t' s e : fd_tables s !! i = Some t → (refs (set_table i t' s) e + table_refs e t = refs s e + table_refs e t')%nat.
Proof. intros Hi. by apply wsum_insert. Qed.

Lemma table_total i t s : fd_tables s !! i = Some t → fd_tables s !!! i = t.
Proof. apply list_lookup_total_correct. Qed.

Lemma refs_set_fd i fd d d' t s e : fd_tables s !! i = Some t → t !! fd = Some d →
  (refs (set_fd i fd d' s) e + opens e d = refs s e + opens e d')%nat.
Proof.
  intros Hi Hd. unfold set_fd. rewrite (table_total i t s Hi). pose proof (refs_set_table i t (<[fd := d']> t) s e Hi) as H.
  pose proof (wsum_insert (opens e) t fd d' d Hd) as H'. unfold table_refs in H. lia.
Qed.

Lemma slot_table extra s id : files_inv extra s → ∃ t, fd_tables s !! fd_slot id = Some t ∧ fd_table_for id s = t ∧ length t = MAX_FDS_PER_TASK.
Proof.
  intros Hi. destruct (lookup_lt_is_Some_2 (fd_tables s) (fd_slot id)) as [t Ht].
  { rewrite (fi_tables _ _ Hi). unfold fd_slot. apply Nat.mod_upper_bound. done. }
  exists t. split_and!; [done|by apply table_total|]. apply (fi_table _ _ Hi). by eapply list_elem_of_lookup_2.
Qed.

(** A change of one descriptor table. *)
Lemma table_inv extra extra' s i t t' :
  files_inv extra s → fd_tables s !! i = Some t → length t' = MAX_FDS_PER_TASK →
  (∀ e p, pipe_idx_of e = Some p → (table_refs e t' + extra e ≤ table_refs e t + extra' e)%nat) →
  files_inv extra' (set_table i t' s).
Proof.
  intros Hi Ht Hl Hle. destruct Hi as [H1 H2 H3 H4 H5]. split; cbn [set_table pipes fd_tables]; try done.
  - by rewrite length_insert.
  - intros u Hin. apply elem_of_insert_inv in Hin as [->|Hin]; [done|by apply H3].
  - intros e p x He Hx. specialize (H5 e p x He Hx). specialize (Hle e p He). pose proof (refs_set_table i t t' s e Ht). unfold set_table in *. lia.
Qed.

(** A change of one slot that keeps what the descriptors rely on. *)
Lemma slot_inv extra extra' s p x x' :
  files_inv extra s → pipes s !! p = Some x → slot_ok x' →
  (∀ e, pipe_idx_of e = Some p → Z.of_nat (refs s e) ≤ (if p_used x' then end_count x' e else 0) + Z.of_nat (extra' e)) →
  (∀ e q, pipe_idx_of e = Some q → q ≠ p → (extra e ≤ extra' e)%nat) → files_inv extra' (set_pipe p x' s).
Proof.
  intros Hi Hx Hok Hr He. destruct Hi as [H1 H2 H3 H4 H5]. split; cbn [set_pipe pipes fd_tables]; try done.
  - by rewrite length_insert.
  - intros q y Hy. apply list_lookup_insert_Some in Hy as [(-> & <- & _)|[_ Hy]]; [done|by eapply H4].
  - intros e q y Hq Hy. apply list_lookup_insert_Some in Hy as [(-> & <- & _)|[Hne Hy]]; [by apply Hr|].
    specialize (H5 e q y Hq Hy). specialize (He e q Hq ltac:(congruence)). change (refs (set_pipe p x' s) e) with (refs s e). lia.
Qed.

Lemma pipe_lookup extra s p : files_inv extra s → (p < PIPE_MAX)%nat → pipes s !! p = Some (pipes s !!! p).
Proof. intros Hi Hp. apply list_lookup_lookup_total_lt. by rewrite (fi_pipes _ _ Hi). Qed.

Lemma refs_used s e p : files_inv none s → pipe_idx_of e = Some p → (0 < refs s e)%nat →
  p_used (pipes s !!! p) = true ∧ Z.of_nat (refs s e) ≤ end_count (pipes s !!! p) e.
Proof.
  intros Hi He Hr. pose proof (fi_refs _ _ Hi e p _ He (pipe_lookup _ _ _ Hi (pipe_idx_bound e p He))) as H. unfold none in H.
  destruct (p_used _); [split; [done|lia]|lia].
Qed.

(** ** The operations *)

Definition more (e : Z) (f : Z → nat) (e' : Z) : nat := if e' =? e then S (f e') else f e'.
Definition less (e : Z) (f : Z → nat) (e' : Z) : nat := if e' =? e then pred (f e') else f e'.

Lemma extra_ext f g s : (∀ e, f e = g e) → files_inv f s → files_inv g s.
Proof. intros H [H1 H2 H3 H4 H5]. split; try done. intros e p x. rewrite <- H. by apply H5. Qed.

Lemma inc_inv f s e : files_inv f s → (∀ p, pipe_idx_of e = Some p → p_used (pipes s !!! p) = true) → files_inv (less e f) (pipe_inc_refs e s).
Proof.
  intros Hi Hu. unfold pipe_inc_refs. destruct (pipe_idx_of e) as [p|] eqn:He.
  2: { destruct Hi as [H1 H2 H3 H4 H5]. split; try done. intros e' p x He' Hx. unfold less.
       destruct (Z.eqb_spec e' e) as [->|_]; [congruence|by apply (H5 e' p)]. }
  pose proof (pipe_lookup _ _ p Hi (pipe_idx_bound e p He)) as Hx. pose proof (fi_slot _ _ Hi p _ Hx) as (S1 & S2 & S3 & S4).
  specialize (Hu p eq_refl). eapply slot_inv; [done|done| | |].
  - unfold slot_ok, sat32. destruct (pipe_is_write_end e); cbn; split_and!; try done; try lia; apply S2.
  - intros e' He'. pose proof (fi_refs _ _ Hi e' p _ He' Hx) as Hr. pose proof (refs_bound f s e' Hi) as Hb. rewrite Hu in Hr.
    unfold less, end_count, sat32 in *. destruct (Z.eqb_spec e' e) as [->|Hne].
    + destruct (pipe_is_write_end e); cbn; rewrite Hu; lia.
    + assert (pipe_is_write_end e' ≠ pipe_is_write_end e) as Hw by (intros E; by apply Hne, (pipe_ends e' e p)).
      destruct (pipe_is_write_end e'), (pipe_is_write_end e); cbn; rewrite ?Hu; try done; lia.
  - intros e' q Hq Hqp. unfold less. destruct (Z.eqb_spec e' e) as [->|_]; [congruence|lia].
Qed.

Lemma inc_keeps e s p : (p_used (pipes (pipe_inc_refs e s) !!! p) = true ↔ p_used (pipes s !!! p) = true) ∧ fd_tables (pipe_inc_refs e s) = fd_tables s.
Proof.
  unfold pipe_inc_refs. destruct (pipe_idx_of e) as [q|]; [|done]. split; [|done]. cbn [set_pipe pipes].
  destruct (decide (p = q)) as [->|Hne]; [|by rewrite list_lookup_total_insert_ne].
  destruct (decide (q < length (pipes s))%nat) as [Hlt|Hge]; [|by rewrite list_insert_ge by lia].
  rewrite list_lookup_total_insert_eq by done. by destruct (pipe_is_write_end e).
Qed.

(** Replacing one descriptor. *)
Lemma set_fd_inv f f' s id fd d d' :
  files_inv f s → fd_table_for id s !! fd = Some d →
  (∀ e p, pipe_idx_of e = Some p → (opens e d' + f e ≤ opens e d + f' e)%nat) → files_inv f' (set_fd (fd_slot id) fd d' s).
Proof.
  intros Hi Hd Hle. destruct (slot_table f s id Hi) as (t & Ht & Htf & Hl). rewrite Htf in Hd.
  unfold set_fd. rewrite (table_total _ _ _ Ht). eapply table_inv; [done|done|by rewrite length_insert|].
  intros e p He. specialize (Hle e p He). pose proof (wsum_insert (opens e) t fd d' d Hd). unfold table_refs. lia.
Qed.

Lemma free_fd_spec t i : free_fd t = Some i → ∃ d, t !! i = Some d ∧ fd_used d = false.
Proof.
  unfold free_fd. destruct (list_find _ t) as [[j d]|] eqn:H; [|done]. intros [= <-]. apply list_find_Some in H as (? & ? & _). by exists d.
Qed.

Lemma alloc_task_inv f s id e flags i s' :
  files_inv f s → alloc_fd_for_task id e flags s = (Some i, s') → files_inv (more e f) s'.
Proof.
  intros Hi. unfold alloc_fd_for_task. destruct (free_fd _) as [j|] eqn:Hf; [|done]. intros [= <- <-].
  destruct (free_fd_spec _ _ Hf) as (d & Hd & Hu). eapply set_fd_inv; [done|done|]. intros e' p _. unfold opens, more. rewrite Hu. cbn.
  rewrite Z.eqb_sym. destruct (e' =? e); lia.
Qed.

Lemma fd_to_inode_spec f s cur fd d : files_inv f s → fd_to_inode cur fd s = Some d → cur ≠ 0%nat ∧ fd_table_for cur s !! fd = Some d ∧ fd_used d = true.
Proof.
  intros Hi. unfold fd_to_inode, get_fd_table. destruct (Nat.eqb_spec cur 0); [done|]. destruct (slot_table f s cur Hi) as (t & _ & -> & Hl).
  destruct (Nat.leb_spec MAX_FDS_PER_TASK fd); [done|]. cbn [orb]. destruct (fd_used (t !!! fd)) eqn:Hu; [|done]. intros [= <-].
  split_and!; [done| |done]. apply list_lookup_lookup_total_lt. lia.
Qed.

Lemma opens_self d : fd_used d = true → opens (inode_idx d) d = 1%nat.
Proof. intros Hu. unfold opens. by rewrite Hu, Z.eqb_refl. Qed.

Lemma open_refs f s id fd d : files_inv f s → fd_table_for id s !! fd = Some d → fd_used d = true → (0 < refs s (inode_idx d))%nat.
Proof.
  intros Hi Hd Hu. destruct (slot_table f s id Hi) as (t & Ht & Htf & _). rewrite Htf in Hd.
  pose proof (wsum_in (opens (inode_idx d)) t fd d Hd) as H1. rewrite (opens_self d Hu) in H1.
  pose proof (wsum_in (table_refs (inode_idx d)) (fd_tables s) _ t Ht) as H2. unfold refs, table_refs in *. lia.
Qed.

(** A count that loses a descriptor loses one. *)
Lemma close_inv s cur fd d :
  files_inv none s → fd_to_inode cur fd s = Some d → let s' := (close_fd cur fd s).2 in
  files_inv none s' ∧ ∀ e, (refs s' e + opens e d = refs s e)%nat.
Proof.
  intros Hi Hfd. cbv zeta. unfold close_fd. rewrite Hfd. cbn [snd].
  destruct (fd_to_inode_spec _ _ _ _ _ Hi Hfd) as (_ & Hd & Hu). set (e := inode_idx d).
  destruct (slot_table _ s cur Hi) as (t & Ht & Htf & _). rewrite Htf in Hd.
  set (s1 := set_fd (fd_slot cur) fd (unuse d) s).
  assert (∀ e', (refs s1 e' + opens e' d = refs s e')%nat) as Hrefs.
  { intros e'. pose proof (refs_set_fd (fd_slot cur) fd d (unuse d) t s e' Ht Hd) as H.
    change (opens e' (unuse d)) with 0%nat in H. unfold s1. lia. }
  assert (files_inv none s1) as H1.
  { eapply set_fd_inv; [done|by rewrite Htf|]. intros e' p _. unfold opens at 1. cbn. lia. }
  unfold pipe_close. fold e. destruct (pipe_idx_of e) as [p|] eqn:He; [|done].
  match goal with |- context [set_fd _ _ _ (set_pipe p ?y s)] => set (x' := y) end.
  change (set_fd (fd_slot cur) fd (unuse d) (set_pipe p x' s)) with (set_pipe p x' s1).
  assert (pipes s1 = pipes s) as Hps by done. clearbody s1.
  split; [|exact Hrefs]. pose proof (pipe_lookup _ s p Hi (pipe_idx_bound e p He)) as Hx.
  pose proof (fi_slot _ _ Hi p _ Hx) as (S1 & S2 & S3 & S4).
  pose proof (open_refs _ s cur fd d Hi ltac:(by rewrite Htf) Hu) as Hpos. fold e in Hpos.
  destruct (refs_used s e p Hi He Hpos) as [Hused Hcnt].
  assert (0 < end_count (pipes s !!! p) e) as Hc by lia.
  eapply slot_inv; [exact H1|rewrite Hps; exact Hx| | |done].
  - unfold x', slot_ok. unfold end_count in Hc. destruct (pipe_is_write_end e).
    + rewrite (proj2 (Z.ltb_lt 0 _) Hc). destruct (nread (pipes s !!! p) =? 0), (nwrite (pipes s !!! p) - 1 =? 0); cbn; split_and!; try done; try lia; apply S2.
    + rewrite (proj2 (Z.ltb_lt 0 _) Hc). destruct (nread (pipes s !!! p) - 1 =? 0), (nwrite (pipes s !!! p) =? 0); cbn; split_and!; try done; try lia; apply S2.
  - intros e' He'. pose proof (fi_refs _ _ Hi e' p _ He' Hx) as Hr. rewrite Hused in Hr. specialize (Hrefs e'). unfold none in *.
    unfold x', end_count in *. destruct (decide (e' = e)) as [->|Hne].
    + assert (opens e d = 1%nat) as Ho by (by apply opens_self).
      destruct (pipe_is_write_end e); rewrite (proj2 (Z.ltb_lt 0 _) Hc).
      * destruct (Z.eqb_spec (nread (pipes s !!! p)) 0), (Z.eqb_spec (nwrite (pipes s !!! p) - 1) 0); cbn [p_used nread nwrite andb]; rewrite ?Hused; lia.
      * destruct (Z.eqb_spec (nread (pipes s !!! p) - 1) 0), (Z.eqb_spec (nwrite (pipes s !!! p)) 0); cbn [p_used nread nwrite andb]; rewrite ?Hused; lia.
    + assert (pipe_is_write_end e' ≠ pipe_is_write_end e) as Hw by (intros E; by apply Hne, (pipe_ends e' e p)).
      destruct (pipe_is_write_end e'), (pipe_is_write_end e); try done; rewrite (proj2 (Z.ltb_lt 0 _) Hc).
      * destruct (Z.eqb_spec (nread (pipes s !!! p) - 1) 0), (Z.eqb_spec (nwrite (pipes s !!! p)) 0); cbn [p_used nread nwrite andb]; rewrite ?Hused; lia.
      * destruct (Z.eqb_spec (nread (pipes s !!! p)) 0), (Z.eqb_spec (nwrite (pipes s !!! p) - 1) 0); cbn [p_used nread nwrite andb]; rewrite ?Hused; lia.
Qed.

Lemma close_fd_inv s cur fd : files_inv none s → files_inv none (close_fd cur fd s).2.
Proof.
  intros Hi. destruct (fd_to_inode cur fd s) as [d|] eqn:Hfd; [by apply (close_inv s cur fd d)|].
  unfold close_fd. by rewrite Hfd.
Qed.

Lemma close_all_inv n : ∀ cur fd s, files_inv none s → files_inv none (close_all n cur fd s).
Proof. induction n as [|n IH]; intros cur fd s Hi; [done|]. cbn [close_all]. apply IH. case_match; [by apply close_fd_inv|done]. Qed.

(** Copying a descriptor. *)
Lemma dup_inv s cur oldfd newfd d :
  files_inv none s → fd_to_inode cur oldfd s = Some d → (newfd < MAX_FDS_PER_TASK)%nat → files_inv none (dup_fd cur oldfd newfd s).
Proof.
  intros Hi Hfd Hn. destruct (fd_to_inode_spec _ _ _ _ _ Hi Hfd) as (_ & Hd & Hu).
  destruct (slot_table _ s cur Hi) as (t & Ht & Htf & Hl). unfold dup_fd. rewrite (list_lookup_total_correct _ _ _ Hd). rewrite Htf in Hd.
  destruct (lookup_lt_is_Some_2 t newfd ltac:(lia)) as [d0 Hd0]. rewrite Hu. set (e := inode_idx d).
  assert (files_inv (more e none) (set_fd (fd_slot cur) newfd (mkFileDesc e 0 true (fd_flags d)) s)) as H1.
  { eapply set_fd_inv; [done|by rewrite Htf|]. intros e' p _. unfold opens at 1, more, none. cbn. rewrite Z.eqb_sym. destruct (e' =? e); lia. }
  eapply extra_ext; [|apply inc_inv; [exact H1|]].
  - intros e'. unfold less, more, none. by destruct (e' =? e).
  - intros p He. apply (refs_used s e p Hi He). eapply (open_refs _ s cur oldfd); [done|by rewrite Htf|done].
Qed.

(** Inherited descriptors. *)
Lemma inc_all_inv t : ∀ f s, files_inv f s →
  (∀ d p, d ∈ t → fd_used d = true → pipe_idx_of (inode_idx d) = Some p → p_used (pipes s !!! p) = true) →
  files_inv (λ e, f e - table_refs e t)%nat (inc_all t s).
Proof.
  induction t as [|d t IH]; intros f s Hi Hu; cbn [inc_all].
  - eapply extra_ext; [|exact Hi]. intros e. change (table_refs e []) with 0%nat. lia.
  - eapply extra_ext; [|apply (IH (if fd_used d then less (inode_idx d) f else f))].
    + intros e. change (table_refs e (d :: t)) with (opens e d + table_refs e t)%nat. unfold opens, less.
      destruct (fd_used d); cbn [andb]; [|lia]. rewrite (Z.eqb_sym e). destruct (inode_idx d =? e); lia.
    + destruct (fd_used d) eqn:Hd; [|done]. apply inc_inv; [done|]. intros p Hp. apply (Hu d p); [apply list_elem_of_here|done|done].
    + intros d' p Hd' Hud' Hp. destruct (fd_used d); [apply inc_keeps|]; apply (Hu d' p); try done; by apply list_elem_of_further.
Qed.

Lemma fork_fds_inv s cur child : files_inv none s → files_inv none (fork_fds cur child s).
Proof.
  intros Hi. unfold fork_fds, get_fd_table. destruct (cur =? 0)%nat; [done|].
  destruct (slot_table _ s cur Hi) as (t & Ht & -> & Hl). destruct (slot_table _ s child Hi) as (t0 & Ht0 & _ & _).
  eapply extra_ext; [|apply (inc_all_inv t (λ e, table_refs e t))].
  - intros e. unfold none. lia.
  - eapply table_inv; [exact Hi|exact Ht0|done|]. intros e p _. unfold none. lia.
  - intros d p [fd Hd]%list_elem_of_lookup Hu Hp. cbn [set_table pipes]. apply (refs_used s (inode_idx d) p Hi Hp).
    pose proof (wsum_in (opens (inode_idx d)) t fd d Hd) as H1. rewrite (opens_self d Hu) in H1.
    pose proof (wsum_in (table_refs (inode_idx d)) (fd_tables s) _ t Ht). unfold refs, table_refs in *. lia.
Qed.

(** A new pipe. *)
Lemma fresh_pipe_inv f s p x : files_inv f s → pipes s !! p = Some x → p_used x = false →
  (∀ e, pipe_idx_of e = Some p → f e ≤ 1)%nat → (∀ e q, pipe_idx_of e = Some q → q ≠ p → f e = 0%nat) →
  files_inv none (set_pipe p (mkPipeSlot (buf x) 0 0 1 1 true) s).
Proof.
  intros Hi Hx Hu H1 H2. pose proof (fi_slot _ _ Hi p x Hx) as (S1 & _). eapply slot_inv; [done|done| | |].
  - split_and!; cbn; try done; lia.
  - intros e He. pose proof (fi_refs _ _ Hi e p x He Hx) as Hr. rewrite Hu in Hr. specialize (H1 e He). unfold none, end_count.
    destruct (pipe_is_write_end e); cbn [p_used nread nwrite]; lia.
  - intros e q Hq Hne. by rewrite (H2 e q).
Qed.

Lemma drop_pipe_inv s p : files_inv none s → (p < PIPE_MAX)%nat → (∀ e, pipe_idx_of e = Some p → refs s e = 0%nat) →
  files_inv none (set_pipe p (set_used false (pipes s !!! p)) s).
Proof.
  intros Hi Hp Hr. pose proof (pipe_lookup _ s p Hi Hp) as Hx. pose proof (fi_slot _ _ Hi p _ Hx) as (S1 & S2 & S3 & S4).
  eapply slot_inv; [done|done|unfold slot_ok; cbn [set_used buf rpos wpos nread nwrite]; done| |done]. intros e He. rewrite (Hr e He). cbn. lia.
Qed.

(** The free descriptor [i] of [cur] becomes one for the inode [e]. *)
Lemma alloc_fd_some f s cur e i s' : files_inv f s → alloc_fd cur e 0 s = (Some i, s') →
  cur ≠ 0%nat ∧ s' = set_fd (fd_slot cur) i (mkFileDesc e 0 true 0) s ∧ files_inv (more e f) s' ∧
  fd_to_inode cur i s' = Some (mkFileDesc e 0 true 0) ∧ ∀ e', refs s' e' = (refs s e' + opens e' (mkFileDesc e 0 true 0))%nat.
Proof.
  intros Hi. unfold alloc_fd. destruct (Nat.eqb_spec cur 0); [done|]. intros Hal. pose proof (alloc_task_inv _ _ _ _ _ _ _ Hi Hal) as Hi'.
  unfold alloc_fd_for_task in Hal. destruct (free_fd _) as [j|] eqn:Hf; [|done]. injection Hal as -> <-.
  destruct (free_fd_spec _ _ Hf) as (d & Hd & Hu). destruct (slot_table f s cur Hi) as (t & Ht & Htf & Hl). rewrite Htf in Hd.
  set (d' := mkFileDesc e 0 true 0) in *. pose proof (lookup_lt_Some _ _ _ Hd) as Hlt.
  split_and!; [done|done|done| |].
  - unfold fd_to_inode, get_fd_table. rewrite (proj2 (Nat.eqb_neq cur 0)) by done.
    assert (fd_table_for cur (set_fd (fd_slot cur) i d' s) = <[i := d']> t) as ->.
    { unfold fd_table_for, set_fd, set_table. cbn [fd_tables]. rewrite (table_total _ _ _ Ht).
      apply list_lookup_total_insert_eq. by eapply lookup_lt_Some. }
    rewrite list_lookup_total_insert_eq by done. rewrite (proj2 (Nat.leb_gt _ _)) by lia. done.
  - intros e'. pose proof (refs_set_fd _ i d d' t s e' Ht Hd) as H. assert (opens e' d = 0%nat) as E by (unfold opens; by rewrite Hu). lia.
Qed.

Lemma alloc_fd_none cur e s s' : alloc_fd cur e 0 s = (None, s') → s' = s.
Proof. unfold alloc_fd, alloc_fd_for_task. destruct (cur =? 0)%nat; [by intros [= <-]|]. destruct (free_fd _); [done|by intros [= <-]]. Qed.

Definition read_end (p : nat) : Z := PIPE_INODE_BASE + Z.of_nat p * 2.
Definition write_end (p : nat) : Z := read_end p + 1.

Lemma ends_of p : (p < PIPE_MAX)%nat → pipe_idx_of (read_end p) = Some p ∧ pipe_idx_of (write_end p) = Some p ∧
  pipe_is_write_end (read_end p) = false ∧ pipe_is_write_end (write_end p) = true.
Proof. intros Hp. unfold PIPE_MAX in Hp. do 8 (destruct p as [|p]; [done|]). lia. Qed.

Lemma more_small p e : (p < PIPE_MAX)%nat →
  (∀ e', pipe_idx_of e' = Some p → more (write_end p) (more (read_end p) none) e' ≤ 1)%nat ∧
  (pipe_idx_of e = Some p → ∀ e' q, pipe_idx_of e' = Some q → q ≠ p → more e none e' = 0%nat) ∧
  (∀ e' q, pipe_idx_of e' = Some q → q ≠ p → more (write_end p) (more (read_end p) none) e' = 0%nat) ∧ ∀ e', (more e none e' ≤ 1)%nat.
Proof.
  intros Hp. destruct (ends_of p Hp) as (E1 & E2 & E3 & E4). unfold more, none. split_and!.
  - intros e' _. destruct (Z.eqb_spec e' (write_end p)) as [->|]; [|destruct (e' =? _); lia].
    destruct (Z.eqb_spec (write_end p) (read_end p)); [congruence|lia].
  - intros He e' q Hq Hne. destruct (Z.eqb_spec e' e) as [->|]; [congruence|done].
  - intros e' q Hq Hne. destruct (Z.eqb_spec e' (write_end p)) as [->|]; [congruence|]. destruct (Z.eqb_spec e' (read_end p)) as [->|]; [congruence|done].
  - intros e'. destruct (e' =? e); lia.
Qed.

(** [sys_pipe]: descriptors of the two ends of a fresh empty pipe, or nothing
    changes that anybody can see. *)
Lemma sys_pipe_spec cur null s r o s' : files_inv none s → sys_pipe cur null s = (r, o, s') →
  files_inv none s' ∧
  match o with
  | Some (rd, wr) => r = 0 ∧ ∃ p, (p < PIPE_MAX)%nat ∧ p_used (pipes s !!! p) = false ∧
      fd_to_inode cur wr s' = Some (mkFileDesc (write_end p) 0 true 0) ∧
      refs s' (read_end p) = 1%nat ∧ refs s' (write_end p) = 1%nat ∧
      (let x := pipes s' !!! p in p_used x = true ∧ nread x = 1 ∧ nwrite x = 1 ∧ rpos x = 0%nat ∧ wpos x = 0%nat) ∧
      (∀ e, e ≠ read_end p → e ≠ write_end p → refs s' e = refs s e)
  | None => r < 0 ∧ ∀ e, refs s' e = refs s e
  end.
Proof.
  intros Hi. unfold sys_pipe. destruct null; [intros [= <- <- <-]; done|].
  destruct (list_find _ (pipes s)) as [[p x]|] eqn:Hf; [|intros [= <- <- <-]; done].
  apply list_find_Some in Hf as (Hx & Hu & _). pose proof (lookup_lt_Some _ _ _ Hx) as Hp. rewrite (fi_pipes _ _ Hi) in Hp.
  destruct (ends_of p Hp) as (E1 & E2 & E3 & E4). fold (read_end p). change (read_end p + 1) with (write_end p).
  assert (∀ e, pipe_idx_of e = Some p → refs s e = 0%nat) as Hz.
  { intros e He. pose proof (fi_refs _ _ Hi e p x He Hx) as H. rewrite Hu in H. unfold none in H. lia. }
  destruct (more_small p (read_end p) Hp) as (M1 & M2 & M3 & M4).
  set (x1 := mkPipeSlot (buf x) 0 0 1 1 true). set (s1 := set_pipe p x1 s).
  assert (files_inv none s1) as H1 by (by apply (fresh_pipe_inv none); try done; unfold none; lia).
  destruct (alloc_fd cur (read_end p) 0 s1) as [[rd|] s2] eqn:A1.
  2: { apply alloc_fd_none in A1 as ->. intros [= <- <- <-]. split; [by apply (drop_pipe_inv s1 p)|]. done. }
  destruct (alloc_fd_some none s1 cur _ rd s2 H1 A1) as (Hc & -> & _ & F1 & R1).
  assert (files_inv (more (read_end p) none) (set_fd (fd_slot cur) rd (mkFileDesc (read_end p) 0 true 0) s)) as Ha.
  { eapply (alloc_task_inv none s cur (read_end p) 0 rd); [done|]. unfold alloc_fd in A1. rewrite (proj2 (Nat.eqb_neq cur 0) Hc) in A1.
    unfold alloc_fd_for_task in *. change (fd_table_for cur s1) with (fd_table_for cur s) in A1. destruct (free_fd _); [by injection A1 as ->|done]. }
  set (sa := set_fd _ rd _ s) in Ha. change (set_fd (fd_slot cur) rd _ s1) with (set_pipe p x1 sa) in *.
  assert (files_inv none (set_pipe p x1 sa)) as H2 by (apply (fresh_pipe_inv (more (read_end p) none)); eauto).
  destruct (alloc_fd cur (write_end p) 0 (set_pipe p x1 sa)) as [[wr|] s3] eqn:A2.
  - destruct (alloc_fd_some none _ cur _ wr s3 H2 A2) as (_ & Hs3 & _ & F2 & R2). intros [= <- <- <-].
    assert (files_inv (more (write_end p) (more (read_end p) none)) (set_fd (fd_slot cur) wr (mkFileDesc (write_end p) 0 true 0) sa)) as Hb.
    { eapply (alloc_task_inv _ sa cur (write_end p) 0 wr); [done|]. unfold alloc_fd in A2. rewrite (proj2 (Nat.eqb_neq cur 0) Hc) in A2.
      unfold alloc_fd_for_task in *. change (fd_table_for cur (set_pipe p x1 sa)) with (fd_table_for cur sa) in A2. destruct (free_fd _); [by injection A2 as ->|done]. }
    set (sb := set_fd _ wr _ sa) in Hb. change (set_fd (fd_slot cur) wr _ (set_pipe p x1 sa)) with (set_pipe p x1 sb) in Hs3.
    split; [rewrite Hs3; by apply (fresh_pipe_inv (more (write_end p) (more (read_end p) none)))|]. split; [done|]. exists p.
    assert (read_end p ≠ write_end p) as Hrw by (unfold write_end; lia).
    assert (∀ e, refs s3 e = refs s e + opens e (mkFileDesc (read_end p) 0 true 0) + opens e (mkFileDesc (write_end p) 0 true 0))%nat as R.
    { intros e. rewrite R2, R1. done. }
    assert (pipes s3 !!! p = x1) as ->.
    { rewrite Hs3. apply list_lookup_total_insert_eq. change (pipes sb) with (pipes s). rewrite (fi_pipes _ _ Hi). done. }
    split_and!; [done|by rewrite (list_lookup_total_correct _ _ _ Hx)|done| | |done..|].
    + rewrite R, Hz by done. unfold opens. cbn [fd_used inode_idx andb]. rewrite Z.eqb_refl, (proj2 (Z.eqb_neq (write_end p) _)) by done. done.
    + rewrite R, Hz by done. unfold opens. cbn [fd_used inode_idx andb]. rewrite Z.eqb_refl, (proj2 (Z.eqb_neq (read_end p) _)) by done. done.
    + intros e Hne1 Hne2. rewrite R. unfold opens. cbn [fd_used inode_idx andb]. rewrite !(proj2 (Z.eqb_neq _ e)) by done. lia.
  - apply alloc_fd_none in A2 as ->. intros [= <- <- <-]. destruct (close_inv _ cur rd _ H2 F1) as [H3 R3].
    assert (∀ e, refs (close_fd cur rd (set_pipe p x1 sa)).2 e = refs s e) as R.
    { intros e. specialize (R3 e). specialize (R1 e). change (refs s1 e) with (refs s e) in R1. lia. }
    split; [apply (drop_pipe_inv (close_fd cur rd (set_pipe p x1 sa)).2 p); try done; intros e He; rewrite R; by apply Hz|]. split; [done|]. intros e. exact (R e).
Qed.
