(* ===== verification/PipeClaims.v ===== *)
(** * The theorems about pipes and descriptors *)

From S2P Require Import Prelude Sched Pipe PipeInv.
From stdpp Require Import base numbers relations list.
Local Open Scope Z_scope.

(** ** The pipe as a queue *)

(** The bytes written and not yet read. *)
Definition content (x : PipeSlot) : list Z := take (wpos x - rpos x) (drop (rpos x) (buf x)).

Lemma length_content x : slot_ok x → length (content x) = (wpos x - rpos x)%nat.
Proof. intros (H1 & H2 & _). unfold content. rewrite length_take, length_drop. lia. Qed.

Lemma put_spec bs : ∀ x, slot_ok x →
  slot_ok (pipe_put bs x) ∧ content (pipe_put bs x) = content x ++ take (PIPE_BUF - wpos x) bs ∧
  nread (pipe_put bs x) = nread x ∧ nwrite (pipe_put bs x) = nwrite x ∧ p_used (pipe_put bs x) = p_used x.
Proof.
  induction bs as [|c bs IH]; intros x Hx; cbn [pipe_put]; [by rewrite take_nil, app_nil_r|].
  destruct (Nat.ltb_spec (wpos x) PIPE_BUF) as [Hlt|Hge].
  2: { destruct (IH x Hx) as (A & B & C). rewrite B. replace (PIPE_BUF - wpos x)%nat with 0%nat by lia. done. }
  pose proof Hx as (H1 & H2 & H3 & H4). set (x1 := mkPipeSlot _ _ _ _ _ _).
  assert (slot_ok x1) as Hx1 by (split_and!; cbn [x1 buf rpos wpos nread nwrite]; rewrite ?length_insert; done || lia).
  destruct (IH x1 Hx1) as (A & B & C). split_and!; [done| |apply C..]. rewrite B.
  replace (PIPE_BUF - wpos x)%nat with (S (PIPE_BUF - S (wpos x))) by lia. cbn [take]. unfold content, x1. cbn [buf rpos wpos].
  replace (S (wpos x) - rpos x)%nat with (S (wpos x - rpos x)) by lia. rewrite drop_insert_ge by lia.
  rewrite (take_S_r _ _ c), take_insert_ge, <- app_assoc by (done || (apply list_lookup_insert_eq; rewrite length_drop; lia)). done.
Qed.

Lemma take_spec count x : slot_ok x → (rpos x < wpos x)%nat →
  (pipe_take count x).1 = take count (content x) ∧ slot_ok (pipe_take count x).2 ∧
  content (pipe_take count x).2 = drop count (content x) ∧
  nread (pipe_take count x).2 = nread x ∧ nwrite (pipe_take count x).2 = nwrite x ∧ p_used (pipe_take count x).2 = p_used x.
Proof.
  intros Hx Hlt. pose proof Hx as (H1 & H2 & H3 & H4). unfold pipe_take. set (n := Nat.min count (wpos x - rpos x)). cbn [fst snd].
  assert (take n (drop (rpos x) (buf x)) = take count (content x)) as E1 by (unfold content; rewrite take_take; f_equal; lia).
  split; [done|]. destruct (Nat.eqb_spec (rpos x + n) (wpos x)) as [He|Hne]; cbn [snd].
  - split; [unfold slot_ok; cbn [buf rpos wpos nread nwrite]; split_and!; done || lia|]. split; [|done].
    rewrite (drop_ge (content x)) by (rewrite length_content by done; lia). done.
  - split; [unfold slot_ok; cbn [buf rpos wpos nread nwrite]; split_and!; done || lia|]. split; [|done].
    unfold content. cbn [buf rpos wpos]. rewrite skipn_firstn_comm, drop_drop.
    assert (n = count) as -> by lia. f_equal; lia.
Qed.

(** ** The states of the kernel *)

Inductive step : files → files → Prop :=
| step_open cur inode flags s : pipe_idx_of inode = None → step s (alloc_fd cur inode flags s).2
| step_pipe cur null s : step s (sys_pipe cur null s).2
| step_close cur fd s : step s (sys_close cur fd s).2
| step_dup2 cur oldfd newfd s : step s (sys_dup2 cur oldfd newfd s).2
| step_fcntl cur fd cmd arg s : step s (sys_fcntl cur fd cmd arg s).2
| step_fork cur child s : step s (fork_fds cur child s)
| step_exit cur s : step s (exit_fds cur s)
| step_write d bs r s s' : sys_write_pipe d bs s = Some (r, s') → step s s'
| step_read cur fd p count s : (p < PIPE_MAX)%nat → step s (read_turn cur fd p count s).2.

Definition reachable (s : files) : Prop := rtc step files0 s.

Lemma same_slot_inv s p x' : files_inv none s → (p < PIPE_MAX)%nat → slot_ok x' → nread x' = nread (pipes s !!! p) →
  nwrite x' = nwrite (pipes s !!! p) → p_used x' = p_used (pipes s !!! p) → files_inv none (set_pipe p x' s).
Proof.
  intros Hi Hp Hok Hr Hw Hu. eapply slot_inv; [done|by eapply pipe_lookup|done| |done].
  intros e He. unfold end_count. rewrite Hr, Hw, Hu. apply (fi_refs _ _ Hi e p); [done|by eapply pipe_lookup].
Qed.

Lemma free_from_bound i t n : free_fd_from i t = Some n → (n < length t)%nat.
Proof.
  unfold free_fd_from. destruct (free_fd (drop i t)) as [k|] eqn:Hf; [|done]. intros [= <-].
  destruct (free_fd_spec _ _ Hf) as (d & Hd & _). apply lookup_lt_Some in Hd. rewrite length_drop in Hd. lia.
Qed.

Lemma dup2_inv s cur oldfd newfd : files_inv none s → files_inv none (sys_dup2 cur oldfd newfd s).2.
Proof.
  intros Hi. unfold sys_dup2. destruct (fd_to_inode cur oldfd s) as [d|] eqn:Hd; [|done]. destruct (oldfd =? newfd)%nat; [done|]. cbn [snd].
  destruct (Nat.ltb_spec newfd MAX_FDS_PER_TASK); [by eapply dup_inv|done].
Qed.

Lemma fcntl_inv s cur fd cmd arg : files_inv none s → files_inv none (sys_fcntl cur fd cmd arg s).2.
Proof.
  intros Hi. unfold sys_fcntl. destruct (cmd =? 0); [by apply dup2_inv|]. destruct (_ || _); [done|].
  destruct (cmd =? 3); [by destruct (fd_to_inode cur fd s)|]. destruct (cmd =? 4).
  { destruct (fd_to_inode cur fd s) as [d|] eqn:Hd; [|done]. destruct (fd_to_inode_spec _ _ _ _ _ Hi Hd) as (_ & Hl & _).
    eapply set_fd_inv; [done|done|]. intros e p _. unfold opens. cbn [fd_used inode_idx]. lia. }
  destruct (_ || _ || _); [done|]. destruct (cmd =? 1030); [|done].
  destruct (get_fd_table cur s) as [t|] eqn:Ht; [|done]. destruct (free_fd_from _ t) as [n|] eqn:Hf; [|done].
  destruct (fd_to_inode cur fd s) as [d|] eqn:Hd; [|done]. cbn [snd]. eapply dup_inv; [done|done|].
  apply free_from_bound in Hf. unfold get_fd_table in Ht. destruct (cur =? 0)%nat; [done|]. injection Ht as <-.
  destruct (slot_table _ s cur Hi) as (t & _ & Htf & Hl). rewrite Htf, Hl in Hf. done.
Qed.

Lemma more_plain f e s : pipe_idx_of e = None → files_inv (more e f) s → files_inv f s.
Proof.
  intros He [H1 H2 H3 H4 H5]. split; try done. intros e' p x He' Hx. specialize (H5 e' p x He' Hx). unfold more in H5.
  destruct (Z.eqb_spec e' e) as [->|_]; [congruence|done].
Qed.

Lemma step_inv s s' : step s s' → files_inv none s → files_inv none s'.
Proof.
  intros Hstep Hi. destruct Hstep.
  - unfold alloc_fd. destruct (cur =? 0)%nat; [done|]. destruct (alloc_fd_for_task cur inode flags s) as [[i|] s'] eqn:Ha.
    + eapply more_plain; [done|by eapply alloc_task_inv].
    + unfold alloc_fd_for_task in Ha. destruct (free_fd _); simplify_eq; exact Hi.
  - destruct (sys_pipe cur null s) as [[r o] s'] eqn:Hp. by eapply sys_pipe_spec.
  - unfold sys_close. destruct (close_fd cur fd s) as [b s'] eqn:Hc. pose proof (close_fd_inv s cur fd Hi) as H. by rewrite Hc in H.
  - by apply dup2_inv.
  - by apply fcntl_inv.
  - by apply fork_fds_inv.
  - unfold exit_fds. destruct (cur =? 0)%nat; [done|by apply close_all_inv].
  - unfold sys_write_pipe in *. destruct (pipe_idx_of (inode_idx d)) as [p|] eqn:Hp; [|done].
    destruct (pipe_is_write_end _); injection H as <- <-; [|done]. pose proof (pipe_idx_bound _ _ Hp) as Hb.
    destruct (put_spec bs (pipes s !!! p)) as (A & _ & B & C & D); [eapply (fi_slot _ _ Hi), pipe_lookup; done|]. by apply same_slot_inv.
  - unfold read_turn. destruct (Nat.ltb_spec (rpos (pipes s !!! p)) (wpos (pipes s !!! p))); [|by destruct (nonblocking cur fd s)].
    destruct (take_spec count (pipes s !!! p)) as (_ & A & _ & B & C & D); [eapply (fi_slot _ _ Hi), pipe_lookup; done|done|].
    destruct (pipe_take count _) as [bs x]. by apply same_slot_inv.
Qed.

Lemma empty_refs e : refs files0 e = 0%nat.
Proof.
  apply wsum_zero. intros t Ht. apply elem_of_replicate in Ht as [-> _]. apply wsum_zero. intros d Hd. by apply elem_of_replicate in Hd as [-> _].
Qed.

Lemma files0_inv : files_inv none files0.
Proof.
  split.
  - apply length_replicate.
  - apply length_replicate.
  - intros t Ht. apply elem_of_replicate in Ht as [-> _]. apply length_replicate.
  - intros p x Hx. apply lookup_replicate in Hx as [-> _]. split_and!; [apply length_replicate|cbn; lia..].
  - intros e p x _ Hx. apply lookup_replicate in Hx as [-> _]. rewrite empty_refs. cbn. lia.
Qed.

Lemma reachable_inv s : reachable s → files_inv none s.
Proof. unfold reachable. intros H. pose proof files0_inv as Hi. induction H as [s|s1 s2 s3 Hs _ IH]; [done|]. apply IH. by eapply step_inv. Qed.

(** ** Theorems *)

(** C20: in every state reachable by opening, piping, duplicating, forking,
    closing, exiting, reading and writing, an open descriptor of a pipe end
    names a slot that is in use, and the slot counts at least as many holders
    of that end as there are open descriptors of it in all tasks: a pipe is
    never given away while somebody can still use it. *)
Theorem pipe_ends_live s id fd d p :
  reachable s → fd_table_for id s !! fd = Some d → fd_used d = true → pipe_idx_of (inode_idx d) = Some p →
  p_used (pipes s !!! p) = true ∧ Z.of_nat (refs s (inode_idx d)) ≤ end_count (pipes s !!! p) (inode_idx d).
Proof. intros Hs%reachable_inv Hd Hu Hp. apply refs_used; [done|done|]. by eapply open_refs. Qed.

(** C21: a pipe is a queue of bytes.  A write appends what still fits into the
    buffer behind the last write position, reports all bytes as written, and
    touches no other pipe; a read takes the oldest bytes, as many as are asked
    for and there; it waits, or fails with EAGAIN, exactly when the queue is
    empty. *)
Theorem pipe_queue s p d bs cur fd count :
  reachable s → pipe_idx_of (inode_idx d) = Some p → pipe_is_write_end (inode_idx d) = true → (0 < count)%nat →
  (∃ w s', sys_write_pipe d bs s = Some (Z.of_nat (length bs), w, s') ∧
     content (pipes s' !!! p) = content (pipes s !!! p) ++ take (PIPE_BUF - wpos (pipes s !!! p)) bs ∧
     ∀ q, q ≠ p → pipes s' !!! q = pipes s !!! q) ∧
  match read_turn cur fd p count s with
  | (Data out, s') => out = take count (content (pipes s !!! p)) ∧ out ≠ [] ∧
      content (pipes s' !!! p) = drop count (content (pipes s !!! p)) ∧ ∀ q, q ≠ p → pipes s' !!! q = pipes s !!! q
  | (Fails e, s') => e = EAGAIN ∧ s' = s ∧ content (pipes s !!! p) = [] ∧ nonblocking cur fd s = true
  | (Blocks, s') => s' = s ∧ content (pipes s !!! p) = [] ∧ nonblocking cur fd s = false
  end.
Proof.
  intros Hi%reachable_inv Hp Hw Hc. pose proof (pipe_idx_bound _ _ Hp) as Hb. pose proof (pipe_lookup _ s p Hi Hb) as Hx.
  pose proof (fi_slot _ _ Hi p _ Hx) as Hok.
  assert (∀ x, pipes (set_pipe p x s) !!! p = x ∧ ∀ q, q ≠ p → pipes (set_pipe p x s) !!! q = pipes s !!! q) as Hset.
  { intros x. split; [apply list_lookup_total_insert_eq; by rewrite (fi_pipes _ _ Hi)|]. intros q Hq. by apply list_lookup_total_insert_ne. }
  split.
  - unfold sys_write_pipe. rewrite Hp, Hw. eexists _, _. split; [done|]. destruct (Hset (pipe_put bs (pipes s !!! p))) as [-> H].
    split; [by apply put_spec|exact H].
  - pose proof (length_content _ Hok) as Hl. unfold read_turn. destruct (Nat.ltb_spec (rpos (pipes s !!! p)) (wpos (pipes s !!! p))) as [Hlt|Hge].
    + destruct (take_spec count _ Hok Hlt) as (A & _ & B & _). destruct (pipe_take count _) as [out x]. cbn [fst snd] in A, B.
      destruct (Hset x) as [-> H]. split_and!; [done| |done|done]. rewrite A. intros E. apply (f_equal length) in E. rewrite length_take, Hl in E. cbn in E. lia.
    + assert (content (pipes s !!! p) = []) as He by (apply nil_length_inv; lia). destruct (nonblocking cur fd s) eqn:Hn; done.
Qed.

(** A reader never sees the end of the data.  On an empty pipe without a
    single writer left a blocking read goes on for ever, whatever the other
    tasks do that leaves this pipe and this descriptor alone. *)
Theorem pipe_read_misses_eof s p cur fd count env fuel :
  reachable s → fd_to_inode cur fd s = Some (mkFileDesc (read_end p) 0 true 0) → (p < PIPE_MAX)%nat →
  refs s (write_end p) = 0%nat → content (pipes s !!! p) = [] →
  (∀ s', pipes (env s') !!! p = pipes s' !!! p ∧ fd_to_inode cur fd (env s') = fd_to_inode cur fd s') →
  ∃ s', sys_read_pipe fuel env cur fd count s = Some (Spin, s').
Proof.
  intros Hi%reachable_inv Hfd Hp _ Hc Henv. destruct (ends_of p Hp) as (E1 & _ & E3 & _).
  unfold sys_read_pipe. rewrite Hfd. cbn [inode_idx]. rewrite E1, E3.
  pose proof (fi_slot _ _ Hi p _ (pipe_lookup _ s p Hi Hp)) as Hok. pose proof (length_content _ Hok) as Hl. rewrite Hc in Hl. cbn in Hl.
  assert (∀ n s', pipes s' !!! p = pipes s !!! p → fd_to_inode cur fd s' = fd_to_inode cur fd s → ∃ s'', read_loop n env cur fd p count s' = (Spin, s'')) as Hloop.
  { induction n as [|n IH]; intros s' H1 H2; cbn [read_loop]; [by eexists|]. unfold read_turn. rewrite H1.
    rewrite (proj2 (Nat.ltb_ge _ _)) by lia. unfold nonblocking. rewrite H2, Hfd. cbn [fd_flags]. cbn.
    destruct (Henv s') as [F1 F2]. apply IH; congruence. }
  destruct (Hloop fuel s eq_refl eq_refl) as [s'' ->]. by eexists.
Qed.

(** ** A count that is too high stays too high *)

Definition closes (l : list (nat * nat)) (s : files) : files := foldl (λ s x, (sys_close x.1 x.2 s).2) s l.

(** More holders counted at the end [e] than there are descriptors. *)
Definition overcounted (e : Z) (p : nat) (s : files) : Prop :=
  files_inv none s ∧ p_used (pipes s !!! p) = true ∧ Z.of_nat (refs s e) < end_count (pipes s !!! p) e.

Lemma close_count e e2 p s : length (pipes s) = PIPE_MAX → pipe_idx_of e = Some p → 0 < end_count (pipes s !!! p) e →
  end_count (pipes (pipe_close e2 s) !!! p) e = end_count (pipes s !!! p) e - (if e2 =? e then 1 else 0) ∧
  (0 < end_count (pipes (pipe_close e2 s) !!! p) e → p_used (pipes s !!! p) = true → p_used (pipes (pipe_close e2 s) !!! p) = true).
Proof.
  intros Hl He Hc. pose proof (pipe_idx_bound _ _ He) as Hb. unfold pipe_close. destruct (pipe_idx_of e2) as [q|] eqn:Hq.
  2: { destruct (Z.eqb_spec e2 e) as [->|]; [congruence|]. split; [lia|done]. }
  destruct (decide (q = p)) as [->|Hne].
  2: { cbn [set_pipe pipes]. rewrite list_lookup_total_insert_ne by done. destruct (Z.eqb_spec e2 e) as [->|]; [congruence|]. split; [lia|done]. }
  cbn [set_pipe pipes]. rewrite list_lookup_total_insert_eq by lia. set (x := pipes s !!! p) in *.
  assert (e2 = e ↔ pipe_is_write_end e2 = pipe_is_write_end e) as Hw by (split; [by intros ->|by apply (pipe_ends e2 e p)]).
  unfold end_count in *. destruct (Z.eqb_spec e2 e) as [->|Hn].
  - destruct (pipe_is_write_end e); rewrite (proj2 (Z.ltb_lt 0 _) Hc);
      [destruct (Z.eqb_spec (nread x) 0), (Z.eqb_spec (nwrite x - 1) 0)|destruct (Z.eqb_spec (nread x - 1) 0), (Z.eqb_spec (nwrite x) 0)];
      cbn; split; try done; lia.
  - assert (pipe_is_write_end e2 ≠ pipe_is_write_end e) as Hd by tauto.
    destruct (pipe_is_write_end e), (pipe_is_write_end e2); try done.
    + rewrite (proj2 (Z.eqb_neq (nwrite x) 0)) by lia. rewrite andb_false_r. cbn. split; [lia|done].
    + rewrite (proj2 (Z.eqb_neq (nread x) 0)) by lia. cbn. split; [lia|done].
Qed.

Lemma close_overcounted e p s cur fd : pipe_idx_of e = Some p → overcounted e p s → overcounted e p (sys_close cur fd s).2.
Proof.
  intros He (Hi & Hu & Hlt). unfold sys_close. destruct (fd_to_inode cur fd s) as [d|] eqn:Hfd; unfold close_fd; rewrite Hfd; [|done]. cbn [snd].
  destruct (close_inv s cur fd d Hi Hfd) as [Hi' Hr]. unfold close_fd in Hi', Hr. rewrite Hfd in Hi', Hr. cbn [snd] in Hi', Hr.
  destruct (close_count e (inode_idx d) p s (fi_pipes _ _ Hi) He ltac:(lia)) as [Hc Hu'].
  set (s1 := pipe_close (inode_idx d) s) in *. destruct (fd_to_inode_spec _ _ _ _ _ Hi Hfd) as (_ & _ & Hud).
  specialize (Hr e). unfold opens in Hr. rewrite Hud in Hr. cbn [andb] in Hr.
  assert (Z.of_nat (refs (set_fd (fd_slot cur) fd (unuse d) s1) e) < end_count (pipes s1 !!! p) e) as Hlt' by (rewrite Hc; destruct (inode_idx d =? e); lia).
  split_and!; [done| |done]. apply Hu'; [lia|done].
Qed.

(** [dup2] onto an open descriptor of a pipe end forgets to close it: the
    pipe still counts the descriptor that is gone, and however many
    descriptors are closed afterwards the slot is never free again. *)
Theorem dup2_leaks_pipe s cur oldfd newfd d d' p l :
  reachable s → fd_to_inode cur oldfd s = Some d → fd_to_inode cur newfd s = Some d' → oldfd ≠ newfd →
  pipe_idx_of (inode_idx d') = Some p → inode_idx d ≠ inode_idx d' →
  p_used (pipes (closes l (sys_dup2 cur oldfd newfd s).2) !!! p) = true.
Proof.
  intros Hi%reachable_inv Hd Hd' Hne Hp Hdd. set (e := inode_idx d') in *.
  enough (overcounted e p (sys_dup2 cur oldfd newfd s).2) as H.
  { assert (∀ l s, overcounted e p s → overcounted e p (closes l s)) as Hl.
    { induction l0 as [|[c f] l0 IH]; intros s0 H0; [done|]. apply IH. by apply close_overcounted. }
    by apply Hl. }
  pose proof (dup2_inv s cur oldfd newfd Hi) as Hi'. unfold sys_dup2 in *. rewrite Hd, (proj2 (Nat.eqb_neq _ _) Hne) in *.
  destruct (fd_to_inode_spec _ _ _ _ _ Hi Hd) as (_ & Hl & Hu). destruct (fd_to_inode_spec _ _ _ _ _ Hi Hd') as (_ & Hl' & Hu').
  destruct (slot_table _ s cur Hi) as (t & Ht & Htf & Hlen). pose proof (lookup_lt_Some _ _ _ Hl') as Hlt. rewrite Htf, Hlen in Hlt.
  rewrite (proj2 (Nat.ltb_lt newfd MAX_FDS_PER_TASK) Hlt) in *. cbn [snd] in *. unfold dup_fd in *.
  rewrite (list_lookup_total_correct _ _ _ Hl) in *. set (d2 := mkFileDesc (inode_idx d) 0 (fd_used d) (fd_flags d)) in *.
  assert (refs (set_fd (fd_slot cur) newfd d2 s) e + 1 = refs s e)%nat as Hr.
  { rewrite Htf in Hl'. pose proof (refs_set_fd _ newfd d' d2 t s e Ht Hl') as H. pose proof (opens_self d' Hu') as Ho. fold e in Ho. rewrite Ho in H.
    assert (opens e d2 = 0%nat) as Ho2 by (unfold opens; cbn [d2 inode_idx fd_used]; by rewrite (proj2 (Z.eqb_neq _ e) Hdd), andb_false_r).
    lia. }
  destruct (refs_used s e p Hi Hp) as [Hpu Hcnt]; [by eapply open_refs|]. split_and!; [done|by apply inc_keeps|].
  assert (end_count (pipes (pipe_inc_refs (inode_idx d) (set_fd (fd_slot cur) newfd d2 s)) !!! p) e = end_count (pipes s !!! p) e) as ->.
  { unfold pipe_inc_refs. destruct (pipe_idx_of (inode_idx d)) as [q|] eqn:Hq; [|done]. cbn [set_pipe pipes set_fd set_table].
    destruct (decide (q = p)) as [->|Hqp]; [|by rewrite list_lookup_total_insert_ne].
    rewrite list_lookup_total_insert_eq by (rewrite (fi_pipes _ _ Hi); by eapply pipe_idx_bound).
    assert (pipe_is_write_end (inode_idx d) ≠ pipe_is_write_end e) as Hw by (intros E; by apply Hdd, (pipe_ends _ _ p)).
    unfold end_count. by destruct (pipe_is_write_end (inode_idx d)), (pipe_is_write_end e). }
  replace (refs (pipe_inc_refs (inode_idx d) (set_fd (fd_slot cur) newfd d2 s)) e) with (refs (set_fd (fd_slot cur) newfd d2 s) e); [lia|].
  unfold refs. by rewrite (proj2 (inc_keeps _ _ 0)).
Qed.

(** ** Witnesses *)

(** Task 1 after one [pipe] call: descriptors 0 and 1. *)
Definition piped : files := (sys_pipe 1 false files0).2.

Lemma piped_reachable : reachable piped.
Proof. apply rtc_once, (step_pipe 1 false files0). Qed.

Lemma pipe_ends_live_witness : p_used (pipes piped !!! 0%nat) = true ∧ Z.of_nat (refs piped 240) ≤ end_count (pipes piped !!! 0%nat) 240.
Proof. apply (pipe_ends_live piped 1 0 (mkFileDesc 240 0 true 0) 0 piped_reachable); vm_compute; reflexivity. Defined.

Lemma pipe_queue_witness : ∃ w s', sys_write_pipe (mkFileDesc 241 0 true 0) [7; 8] piped = Some (2, w, s') ∧
  content (pipes s' !!! 0%nat) = [7; 8].
Proof.
  destruct (pipe_queue piped 0 (mkFileDesc 241 0 true 0) [7; 8] 1 0 1 piped_reachable eq_refl eq_refl ltac:(lia)) as [(w & s' & H1 & H2 & _) _].
  exists w, s'. split; [exact H1|]. rewrite H2. vm_compute. reflexivity.
Defined.

(** The writer gone. *)
Definition half : files := (sys_close 1 1 piped).2.

Lemma pipe_read_misses_eof_witness : ∃ s', sys_read_pipe 1000 id 1 0 16 half = Some (Spin, s').
Proof.
  apply (pipe_read_misses_eof half 0 1 0 16 id 1000); [|vm_compute; reflexivity|unfold PIPE_MAX; lia|vm_compute; reflexivity|vm_compute; reflexivity|done].
  eapply rtc_r; [apply piped_reachable|apply (step_close 1 1 piped)].
Defined.

Lemma dup2_leaks_pipe_witness : p_used (pipes (closes [(1, 0); (1, 1)] (sys_dup2 1 0 1 piped).2) !!! 0)%nat = true ∧
  refs (closes [(1, 0); (1, 1)]%nat (sys_dup2 1 0 1 piped).2) 241 = 0%nat.
Proof.
  split; [|vm_compute; reflexivity].
  apply (dup2_leaks_pipe piped 1 0 1 (mkFileDesc 240 0 true 0) (mkFileDesc 241 0 true 0) 0 [(1, 0); (1, 1)]%nat piped_reachable); vm_compute; congruence.
Defined.
