(* ===== verification/Path.v ===== *)
(** * Path names

    [normalize_path] of [src/vfs.rs] and the path helpers of
    [src/vfs_core/mod.rs].  Paths are lists of bytes; [normalize_path] works in
    place in the caller's buffer, whose length is its capacity. *)

From S2P Require Import Prelude.
From stdpp Require Import base numbers list.
Local Open Scope Z_scope.

Definition SLASH : Z := 47.
Definition DOT : Z := 46.

(** ** [normalize_path] *)

(** The buffer and how much of it is filled. *)
Record out_buf := mkOut { ob : list Z; olen : nat }.

(** [if len >= cap return None; out[len] = c; len += 1] *)
Fixpoint push_all (bs : list Z) (o : out_buf) : option out_buf :=
  match bs with
  | [] => Some o
  | c :: bs => if (length (ob o) <=? olen o)%nat then None else push_all bs (mkOut (<[olen o := c]> (ob o)) (S (olen o)))
  end.

Definition is_slash (c : Z) : bool := c =? SLASH.

(** The absolute path, before it is cleaned. *)
Definition push_path (cwd input : list Z) (out : list Z) : option out_buf :=
  if is_slash (input !!! 0%nat) then
    match push_all [SLASH] (mkOut out 0) with Some o => push_all (drop 1 input) o | None => None end
  else
    match push_all cwd (mkOut out 0) with
    | None => None
    | Some o =>
        match (if (olen o =? 0)%nat || negb (is_slash (ob o !!! (olen o - 1)%nat)) then push_all [SLASH] o else Some o) with
        | None => None
        | Some o => push_all input o
        end
    end.

Definition MAX_SEGS : nat := 64.

(** Where the segment that starts at [i] ends. *)
Fixpoint seg_stop (fuel i len : nat) (src : list Z) : nat :=
  match fuel with
  | O => i
  | S fuel' => if (i <? len)%nat && negb (is_slash (src !!! i)) then seg_stop fuel' (S i) len src else i
  end.

(** The segments that remain after [.] and [..] are taken out, as start and
    end positions. *)
Fixpoint scan_segs (fuel i len : nat) (src : list Z) (segs : list (nat * nat)) : option (list (nat * nat)) :=
  match fuel with
  | O => Some segs
  | S fuel' =>
      if negb (i <? len)%nat then Some segs
      else if is_slash (src !!! i) then scan_segs fuel' (S i) len src segs
      else
        let e := seg_stop len i len src in
        let sl := (e - i)%nat in
        if (sl =? 1)%nat && (src !!! i =? DOT) then scan_segs fuel' e len src segs
        else if (sl =? 2)%nat && (src !!! i =? DOT) && (src !!! S i =? DOT) then scan_segs fuel' e len src (removelast segs)
        else if (MAX_SEGS <=? length segs)%nat then None
        else scan_segs fuel' e len src (segs ++ [(i, e)])
  end.

(** [copy_nonoverlapping(src + a, dst + o, n)] in one buffer.  What it does is
    fixed only when the two ranges do not overlap ([copy_contract]); on others
    it is the machine's business, so the operation is a parameter. *)
Class CopyBytes := copy_bytes : nat → nat → nat → list Z → list Z.

(** The [n] bytes at [a] are written at [o]; all of them are read first. *)
Definition copy_within (a o n : nat) (l : list Z) : list Z := take o l ++ take n (drop a l) ++ drop (o + n) l.

Definition apart (a o n : nat) : bool := (a + n <=? o)%nat || (o + n <=? a)%nat.

Definition copy_contract (cp : CopyBytes) : Prop :=
  ∀ a o n l, (a + n <= length l)%nat → (o + n <= length l)%nat →
    length (cp a o n l) = length l ∧ (apart a o n = true → cp a o n l = copy_within a o n l).

(** More than the contract: a move down reads before it writes, as an
    ascending copy does. *)
Definition moves_down (cp : CopyBytes) : Prop :=
  ∀ a o n l, (a + n <= length l)%nat → (o <= a)%nat → cp a o n l = copy_within a o n l.

Section normalize.
Context `{cb : !CopyBytes}.

Fixpoint emit_segs (segs : list (nat * nat)) (o : nat) (out : list Z) : option (nat * list Z) :=
  match segs with
  | [] => Some (o, out)
  | (a, b) :: segs =>
      if (length out <=? o)%nat then None
      else
        let out := <[o := SLASH]> out in
        let o := S o in
        let sl := (b - a)%nat in
        if (length out <? o + sl)%nat then None else emit_segs segs (o + sl) (copy_bytes a o sl out)
  end.

(** The bytes of [out] up to the length returned. *)
Definition normalize_path (cwd input out : list Z) : option (list Z) :=
  if (length input =? 0)%nat then Some []
  else match push_path cwd input out with
  | None => None
  | Some o =>
      match scan_segs (S (olen o)) 0 (olen o) (ob o) [] with
      | None => None
      | Some [] => if (length (ob o) <=? 0)%nat then None else Some [SLASH]
      | Some segs => (λ x, take x.1 x.2) <$> emit_segs segs 0 (ob o)
      end
  end.

End normalize.

(** The other components are modelled for a machine that moves down. *)
#[export] Instance ascending_copy : CopyBytes := copy_within.

(** ** [parent_path], [file_name], [trim_ascii] *)

(** [rposition]: the last index with the property. *)
Definition rposition (P : Z → bool) (l : list Z) : option nat :=
  (λ x, (length l - 1 - x.1)%nat) <$> list_find (λ c, P c = true) (reverse l).

Definition position (P : Z → bool) (l : list Z) : option nat := fst <$> list_find (λ c, P c = true) l.

Definition trim_slash (path : list Z) : list Z :=
  if bool_decide (last path = Some SLASH) then take (length path - 1) path else path.

Definition parent_path (path : list Z) : list Z :=
  if (length path =? 0)%nat || bool_decide (path = [SLASH]) then [SLASH]
  else match rposition is_slash (trim_slash path) with
       | Some O => [SLASH]
       | Some pos => take pos path
       | None => [SLASH]
       end.

Definition file_name (path : list Z) : list Z :=
  if (length path =? 0)%nat || bool_decide (path = [SLASH]) then path
  else match rposition is_slash (trim_slash path) with
       | Some pos => drop (S pos) (trim_slash path)
       | None => trim_slash path
       end.

Definition is_space (c : Z) : bool := (c =? 32) || (c =? 9) || (c =? 10) || (c =? 13).

Definition trim_ascii (l : list Z) : list Z :=
  let s := default (length l) (position (λ c, negb (is_space c)) l) in
  let e := match rposition (λ c, negb (is_space c)) l with Some p => S p | None => s end in
  take (e - s) (drop s l).
