(* ===== verification/PathClaims.v ===== *)
(** * What [normalize_path] computes

    The reference definition splits the absolute path at its slashes, walks the
    names with a stack ([.] stays, [..] climbs, at most 64 names deep) and
    prints the stack; [normalize_path], which scans positions and moves the
    segments inside the caller's buffer, gives the same bytes. *)

From S2P Require Import Prelude Path.
From Stdlib Require Import Lia ZArith.
From stdpp Require Import base numbers list.
Local Open Scope Z_scope.

(** ** Reference definition *)

Definition absolute (cwd input : list Z) : list Z :=
  if is_slash (input !!! 0%nat) then input
  else cwd ++ (if bool_decide (last cwd = Some SLASH) then [] else [SLASH]) ++ input.

Definition end_name (cur : list Z) : list (list Z) := match cur with [] => [] | _ => [cur] end.

Fixpoint names_from (cur l : list Z) : list (list Z) :=
  match l with
  | [] => end_name cur
  | c :: l => if is_slash c then end_name cur ++ names_from [] l else names_from (cur ++ [c]) l
  end.

Definition names (l : list Z) : list (list Z) := names_from [] l.

Fixpoint climb (st ns : list (list Z)) : option (list (list Z)) :=
  match ns with
  | [] => Some st
  | n :: ns =>
      if bool_decide (n = [DOT]) then climb st ns
      else if bool_decide (n = [DOT; DOT]) then climb (removelast st) ns
      else if (MAX_SEGS <=? length st)%nat then None
      else climb (st ++ [n]) ns
  end.

Definition slashed (ns : list (list Z)) : list Z := concat (cons SLASH <$> ns).

Definition render (ns : list (list Z)) : list Z := match ns with [] => [SLASH] | _ => slashed ns end.

(** A name that survives: not empty, no slash, neither [.] nor [..]. *)
Definition plain (n : list Z) : Prop :=
  n ≠ [] ∧ Forall (λ c, is_slash c = false) n ∧ n ≠ [DOT] ∧ n ≠ [DOT; DOT].

(** ** Filling the buffer *)

Lemma push_all_spec (bs out : list Z) (pre : list Z) :
  (length pre <= length out)%nat →
  push_all bs (mkOut (pre ++ drop (length pre) out) (length pre)) =
  if (length (pre ++ bs) <=? length out)%nat
  then Some (mkOut ((pre ++ bs) ++ drop (length (pre ++ bs)) out) (length (pre ++ bs))) else None.
Proof.
  revert pre; induction bs as [|c bs IH]; intros pre Hp; cbn [push_all ob olen].
  - rewrite app_nil_r. rewrite (proj2 (Nat.leb_le _ _) Hp). reflexivity.
  - rewrite length_app, length_drop.
    destruct (decide (length pre = length out)) as [E|E].
    + rewrite (proj2 (Nat.leb_le _ _)) by lia. rewrite (proj2 (Nat.leb_gt _ _)); [reflexivity|]. rewrite length_app; cbn; lia.
    + rewrite (proj2 (Nat.leb_gt _ _)) by lia.
      replace (<[length pre := c]> (pre ++ drop (length pre) out)) with ((pre ++ [c]) ++ drop (length (pre ++ [c])) out).
      * replace (S (length pre)) with (length (pre ++ [c])) by (rewrite length_app; cbn; lia).
        rewrite IH by (rewrite length_app; cbn; lia). rewrite <- !app_assoc. reflexivity.
      * rewrite insert_app_r_alt, Nat.sub_diag by lia.
        destruct (drop (length pre) out) as [|d t] eqn:D.
        { apply (f_equal length) in D. rewrite length_drop in D. cbn in D. lia. }
        rewrite length_app; cbn [length]. rewrite Nat.add_comm; cbn [Nat.add].
        replace (drop (S (length pre)) out) with t.
        { rewrite <- app_assoc. reflexivity. }
        { replace (S (length pre)) with (length pre + 1)%nat by lia. rewrite <- drop_drop, D. reflexivity. }
Qed.

Lemma push_all_start (bs out : list Z) :
  push_all bs (mkOut out 0) =
  if (length bs <=? length out)%nat then Some (mkOut (bs ++ drop (length bs) out) (length bs)) else None.
Proof. exact (push_all_spec bs out [] ltac:(cbn; lia)). Qed.

Lemma last_total (l : list Z) (x : Z) : l ≠ [] → (last l = Some x ↔ l !!! (length l - 1)%nat = x).
Proof.
  intros Hn. rewrite last_lookup. replace (pred (length l)) with (length l - 1)%nat by lia.
  assert (is_Some (l !! (length l - 1)%nat)) as [y Hy].
  { apply lookup_lt_is_Some. destruct l; [done|cbn; lia]. }
  rewrite Hy. rewrite (list_lookup_total_correct _ _ _ Hy). naive_solver.
Qed.

Lemma ends_in_slash (cwd rest : list Z) :
  ((length cwd =? 0)%nat || negb (is_slash ((cwd ++ rest) !!! (length cwd - 1)%nat))) =
  negb (bool_decide (last cwd = Some SLASH)).
Proof.
  destruct cwd as [|c cwd]; [reflexivity|].
  set (l := c :: cwd) in *. change (length l =? 0)%nat with false. cbn [orb]. f_equal.
  rewrite lookup_total_app_l by (subst l; cbn; lia).
  unfold is_slash. apply eq_bool_prop_intro. rewrite bool_decide_spec, (last_total l SLASH) by done.
  rewrite Is_true_true, Z.eqb_eq. reflexivity.
Qed.

Lemma push_path_spec (cwd input out : list Z) : input ≠ [] →
  push_path cwd input out =
  (let p := absolute cwd input in
   if (length p <=? length out)%nat then Some (mkOut (p ++ drop (length p) out) (length p)) else None).
Proof.
  intros Hn. unfold push_path, absolute. destruct (is_slash (input !!! 0%nat)) eqn:Hs.
  - destruct input as [|c input]; [done|]. cbn in Hs. unfold is_slash in Hs. apply Z.eqb_eq in Hs; subst c.
    rewrite push_all_start. cbv zeta. change (drop 1 (SLASH :: input)) with input.
    destruct (Nat.leb_spec (length [SLASH]) (length out)).
    + rewrite (push_all_spec input out [SLASH]) by assumption. reflexivity.
    + rewrite (proj2 (Nat.leb_gt _ _)); [reflexivity|cbn in *; lia].
  - rewrite push_all_start. cbv zeta.
    destruct (Nat.leb_spec (length cwd) (length out)) as [L|L]; cbn [olen ob].
    2: { rewrite (proj2 (Nat.leb_gt _ _)); [reflexivity|]. rewrite length_app; lia. }
    rewrite ends_in_slash. case_bool_decide; cbn [negb].
    + rewrite push_all_spec by lia. reflexivity.
    + rewrite push_all_spec by lia.
      destruct (Nat.leb_spec (length (cwd ++ [SLASH])) (length out)).
      * rewrite push_all_spec by lia. rewrite <- app_assoc. reflexivity.
      * rewrite (proj2 (Nat.leb_gt _ _)); [reflexivity|]. rewrite !length_app in *. cbn in *. lia.
Qed.

(** ** Scanning *)

Definition seg_name (src : list Z) (s : nat * nat) : list Z := take (s.2 - s.1) (drop s.1 src).

Lemma names_from_word (w cur rest : list Z) : Forall (λ c, is_slash c = false) w →
  names_from cur (w ++ rest) = names_from (cur ++ w) rest.
Proof.
  revert cur; induction w as [|c w IH]; intros cur Hw; cbn; [by rewrite app_nil_r|].
  apply Forall_cons in Hw as [Hc Hw]. rewrite Hc, IH by done. by rewrite <- app_assoc.
Qed.

Definition stops (rest : list Z) : Prop := match rest with [] => True | c :: _ => is_slash c = true end.

Lemma names_word (w rest : list Z) : w ≠ [] → Forall (λ c, is_slash c = false) w → stops rest →
  names (w ++ rest) = w :: names rest.
Proof.
  intros Hn Hw Hr. unfold names. rewrite names_from_word by done. cbn [app].
  destruct rest as [|c rest]; cbn; [|rewrite Hr]; destruct w; try done.
Qed.

Lemma seg_stop_spec (src : list Z) (len : nat) (fuel i : nat) :
  (len <= length src)%nat → (i <= len)%nat → (len - i <= fuel)%nat →
  ∃ w rest, drop i (take len src) = w ++ rest ∧ Forall (λ c, is_slash c = false) w ∧ stops rest ∧
    seg_stop fuel i len src = (i + length w)%nat.
Proof.
  intros Hl. revert i; induction fuel as [|fuel IH]; intros i Hi Hf; cbn [seg_stop].
  - exists [], []. rewrite drop_ge by (rewrite length_take; lia). repeat split; [constructor|cbn; lia].
  - destruct (Nat.ltb_spec i len) as [H|H]; cbn [andb].
    2: { exists [], []. rewrite drop_ge by (rewrite length_take; lia). repeat split; [constructor|cbn; lia]. }
    destruct (lookup_lt_is_Some_2 src i ltac:(lia)) as [c Hc].
    rewrite (list_lookup_total_correct _ _ _ Hc).
    assert (D : drop i (take len src) = c :: drop (S i) (take len src)).
    { apply drop_S. rewrite lookup_take. by rewrite decide_True by lia. }
    destruct (is_slash c) eqn:Hs; cbn [negb].
    + exists [], (c :: drop (S i) (take len src)). repeat split; [done|constructor|done|cbn; lia].
    + destruct (IH (S i)) as (w & rest & E & Hw & Hr & ->); [lia|lia|].
      exists (c :: w), rest. rewrite D, E. repeat split; [by constructor|done|cbn; lia].
Qed.

(** The segments lie in order, with a slash before each. *)
Fixpoint chain (lo : nat) (segs : list (nat * nat)) : Prop :=
  match segs with
  | [] => True
  | (a, b) :: segs => (lo < a)%nat ∧ (a <= b)%nat ∧ chain b segs
  end.

Definition end_of (segs : list (nat * nat)) : nat := default 0%nat (snd <$> last segs).

Definition segs_ok (len : nat) (segs : list (nat * nat)) : Prop :=
  chain 0 segs ∧ Forall (λ s, (s.2 <= len)%nat) segs.

Lemma end_cons (lo x y : nat) (segs : list (nat * nat)) :
  default lo (snd <$> last ((x, y) :: segs)) = default y (snd <$> last segs).
Proof.
  destruct segs as [|s segs _] using rev_ind; [done|].
  by rewrite app_comm_cons, !last_snoc.
Qed.

Lemma chain_snoc (lo : nat) (segs : list (nat * nat)) (a b : nat) :
  chain lo segs → (default lo (snd <$> last segs) < a)%nat → (a <= b)%nat → chain lo (segs ++ [(a, b)]).
Proof.
  revert lo; induction segs as [|[x y] segs IH]; intros lo; cbn [chain app]; [cbn; lia|].
  intros (? & ? & Hc) He Hab. repeat split; try lia. apply IH; [done| |done].
  by rewrite end_cons in He.
Qed.

Lemma removelast_snoc {A} (l : list A) (x : A) : removelast (l ++ [x]) = l.
Proof. apply removelast_last. Qed.

Lemma chain_app_l (lo : nat) (s1 s2 : list (nat * nat)) : chain lo (s1 ++ s2) → chain lo s1.
Proof. revert lo; induction s1 as [|[x y] s1 IH]; intros lo; cbn; [done|]. intros (? & ? & ?). eauto. Qed.

Lemma chain_end_mono (lo : nat) (segs : list (nat * nat)) (a b : nat) :
  chain lo (segs ++ [(a, b)]) → (default lo (snd <$> last segs) < a)%nat.
Proof.
  revert lo; induction segs as [|[x y] segs IH]; intros lo; cbn [chain app]; [cbn; lia|].
  intros (? & ? & Hc). rewrite end_cons. exact (IH _ Hc).
Qed.

Lemma segs_ok_pop (len : nat) (segs : list (nat * nat)) :
  segs_ok len segs → segs_ok len (removelast segs) ∧ (end_of (removelast segs) <= end_of segs)%nat.
Proof.
  destruct segs as [|s segs _] using rev_ind; [done|]. destruct s as [a b]. rewrite removelast_snoc.
  intros [Hc Hf]. repeat split.
  - by eapply chain_app_l.
  - by apply Forall_app in Hf as [? _].
  - unfold end_of. pose proof (chain_end_mono _ _ _ _ Hc) as E. rewrite last_snoc. cbn [fmap option_fmap option_map snd default].
    apply Forall_app in Hf as [_ Hf]. 
    assert (a <= b)%nat; [|cbn; lia].
    clear E Hf. revert Hc. generalize 0%nat. induction segs as [|[x y] segs IH]; intros lo; cbn; [lia|]. intros (? & ? & ?). eauto.
Qed.

Lemma removelast_map {A B} (f : A → B) (l : list A) : removelast (f <$> l) = f <$> removelast l.
Proof. induction l as [|x [|y l] IH]; [done..|]. cbn in *. by rewrite IH. Qed.

Lemma scan_segs_spec (src : list Z) (len fuel i : nat) (segs : list (nat * nat)) :
  (len <= length src)%nat → (i <= len)%nat → (len - i < fuel)%nat →
  segs_ok len segs → (end_of segs <= i)%nat → (stops (drop i (take len src)) ∨ (end_of segs < i)%nat) →
  (map (seg_name src) <$> scan_segs fuel i len src segs = climb (seg_name src <$> segs) (names (drop i (take len src)))) ∧
  (∀ s, scan_segs fuel i len src segs = Some s → segs_ok len s).
Proof.
  intros Hl. revert i segs; induction fuel as [|fuel IH]; intros i segs Hi Hf Hok He Hs; [lia|]. cbn [scan_segs].
  destruct (Nat.ltb_spec i len) as [H|H]; cbn [negb].
  2: { rewrite drop_ge by (rewrite length_take; lia). split; [done|]. by intros s [= <-]. }
  destruct (lookup_lt_is_Some_2 src i ltac:(lia)) as [c Hc].
  rewrite (list_lookup_total_correct _ _ _ Hc).
  assert (D : drop i (take len src) = c :: drop (S i) (take len src)).
  { apply drop_S. rewrite lookup_take. by rewrite decide_True by lia. }
  destruct (is_slash c) eqn:Hsl.
  { rewrite D. unfold names. cbn [names_from end_name app]. rewrite Hsl. apply IH; [lia|lia|done|lia|right; lia]. }
  destruct Hs as [Hs|Hs]; [rewrite D in Hs; cbn in Hs; congruence|].
  destruct (seg_stop_spec src len len i Hl Hi ltac:(lia)) as (w & rest & E & Hw & Hr & ->).
  destruct w as [|c' w].
  { exfalso. cbn in E. rewrite <- E, D in Hr. cbn in Hr. congruence. }
  set (n := c' :: w) in *. replace (i + length n - i)%nat with (length n) by lia.
  assert (Hin : (i + length n <= len)%nat).
  { apply (f_equal length) in E. rewrite length_app, length_drop, length_take in E. lia. }
  assert (En : seg_name src (i, (i + length n)%nat) = n).
  { unfold seg_name. cbn [fst snd]. replace (i + length n - i)%nat with (length n) by lia.
    pose proof (f_equal (take (length n)) E) as E'. rewrite take_app_length in E'. rewrite <- E' at 2.
    rewrite !take_drop_commute, take_take. by rewrite Nat.min_l by lia. }
  assert (Er : drop (i + length n) (take len src) = rest).
  { rewrite <- drop_drop, E. apply drop_app_length. }
  assert (c' = c) as -> by (rewrite D in E; subst n; cbn in E; congruence).
  rewrite E, (names_word n rest) by done. cbn [climb].
  assert (Hd : ((length n =? 1)%nat && (c =? DOT)) = bool_decide (n = [DOT])).
  { subst n. destruct w; cbn [length Nat.eqb andb].
    - apply eq_bool_prop_intro. rewrite bool_decide_spec, Is_true_true, Z.eqb_eq. naive_solver.
    - by rewrite bool_decide_eq_false_2 by done. }
  rewrite Hd. case_bool_decide as Hdot.
  { rewrite <- Er. apply IH; [lia|subst n; cbn; lia|done|lia|right; subst n; cbn; lia]. }
  assert (Hdd : ((length n =? 2)%nat && (c =? DOT) && (src !!! S i =? DOT)) = bool_decide (n = [DOT; DOT])).
  { subst n. destruct w as [|d [|? ?]]; cbn [length Nat.eqb andb];
      [by rewrite bool_decide_eq_false_2 by done| |by rewrite bool_decide_eq_false_2 by done].
    replace (src !!! S i) with d.
    - apply eq_bool_prop_intro. rewrite bool_decide_spec, Is_true_true, andb_true_iff, !Z.eqb_eq. naive_solver.
    - symmetry. apply list_lookup_total_correct.
      assert (X : drop i (take len src) !! 1%nat = Some d) by (rewrite E; reflexivity).
      rewrite lookup_drop, lookup_take in X. cbn in Hin. rewrite decide_True in X by lia.
      by replace (S i) with (i + 1)%nat by lia. }
  rewrite Hdd. case_bool_decide as Hdotdot.
  { destruct (segs_ok_pop _ _ Hok) as [Hok' He']. rewrite <- Er, removelast_map.
    apply IH; [lia|subst n; cbn; lia|done|lia|right; subst n; cbn; lia]. }
  rewrite length_fmap. destruct (MAX_SEGS <=? length segs)%nat; [by split|].
  replace ((seg_name src <$> segs) ++ [n]) with (seg_name src <$> (segs ++ [(i, (i + length n)%nat)])).
  2: { rewrite fmap_app, list_fmap_singleton. by rewrite En. }
  rewrite <- Er. apply IH; [lia|subst n; cbn; lia| | |].
  - destruct Hok as [Hok1 Hok2]. split; [apply chain_snoc; [done|exact Hs|lia]|].
    apply Forall_app; split; [done|]. constructor; [exact Hin|constructor].
  - unfold end_of. rewrite last_snoc. cbn. lia.
  - left. by rewrite Er.
Qed.

(** ** Writing the segments back *)

Lemma copy_within_length (a o n : nat) (l : list Z) :
  (a + n <= length l)%nat → (o + n <= length l)%nat → length (copy_within a o n l) = length l.
Proof. intros. unfold copy_within. rewrite !length_app, !length_take, !length_drop. lia. Qed.

Lemma copy_within_drop (a o n k : nat) (l : list Z) :
  (a + n <= length l)%nat → (o + n <= k)%nat → (o + n <= length l)%nat → drop k (copy_within a o n l) = drop k l.
Proof.
  intros Ha Hk Ho. unfold copy_within. rewrite app_assoc.
  assert (length (take o l ++ take n (drop a l)) = o + n)%nat as L.
  { rewrite length_app, !length_take, length_drop. lia. }
  rewrite drop_app_ge by lia. rewrite drop_drop, L. f_equal. lia.
Qed.

Lemma copy_within_take (a o n : nat) (l : list Z) :
  (a + n <= length l)%nat → (o + n <= length l)%nat →
  take (o + n) (copy_within a o n l) = take o l ++ take n (drop a l).
Proof.
  intros Ha Ho. unfold copy_within. rewrite app_assoc. apply take_app_length'.
  rewrite length_app, !length_take, length_drop. lia.
Qed.

Section emit.
Context `{cp : !CopyBytes}.

(** What a move is asked to do is done. *)
Definition copies (a o n : nat) : Prop :=
  ∀ l, (a + n <= length l)%nat → (o + n <= length l)%nat → copy_bytes a o n l = copy_within a o n l.

Definition in_place : Prop := ∀ a o n l, (a + n <= length l)%nat → (o + n <= length l)%nat → length (copy_bytes a o n l) = length l.

(** The moves of [emit_segs]: from where, to where, how many bytes. *)
Fixpoint moves (segs : list (nat * nat)) (o : nat) : list (nat * nat * nat) :=
  match segs with
  | [] => []
  | (a, b) :: segs => (a, S o, (b - a)%nat) :: moves segs (S o + (b - a))
  end.

Lemma emit_segs_spec (src : list Z) (segs : list (nat * nat)) (o : nat) (out : list Z) :
  (o <= length out)%nat → chain o segs → Forall (λ s, (s.2 <= length out)%nat) segs →
  Forall (λ s, seg_name out s = seg_name src s) segs → Forall (λ '(a, o, n), copies a o n) (moves segs o) →
  ∃ o' out', emit_segs segs o out = Some (o', out') ∧
    take o' out' = take o out ++ slashed (seg_name src <$> segs).
Proof.
  revert o out; induction segs as [|[a b] segs IH]; intros o out Ho Hc Hf Hn Hm; cbn [emit_segs].
  { exists o, out. split; [done|]. unfold slashed. cbn. by rewrite app_nil_r. }
  destruct Hc as (Hlo & Hab & Hc). apply Forall_cons in Hf as [Hb Hf]. apply Forall_cons in Hn as [Hn0 Hn]. cbn [snd] in Hb.
  cbn [moves] in Hm. apply Forall_cons in Hm as [Hm0 Hm].
  rewrite (proj2 (Nat.leb_gt _ _)) by lia. cbv zeta.
  rewrite length_insert, (proj2 (Nat.ltb_ge _ _)) by lia.
  set (out1 := <[o := SLASH]> out). assert (length out1 = length out) as L1 by apply length_insert.
  rewrite Hm0 by lia. set (out2 := copy_within a (S o) (b - a) out1).
  assert (length out2 = length out) as L2 by (subst out2; rewrite copy_within_length; lia).
  assert (D : ∀ k, (b <= k)%nat → drop k out2 = drop k out).
  { intros k Hk. subst out2. rewrite copy_within_drop by lia. subst out1. apply drop_insert_lt. lia. }
  destruct (IH (S o + (b - a))%nat out2) as (o' & out' & -> & T).
  - lia.
  - destruct segs as [|[a' b'] segs]; [done|]. cbn in Hc |- *. intuition lia.
  - eapply Forall_impl; [exact Hf|]. cbn. lia.
  - assert (G : Forall (λ s, (b < s.1)%nat) segs).
    { clear -Hc. revert b Hc. induction segs as [|[x y] segs IH]; intros b Hc; [constructor|].
      destruct Hc as (? & ? & Hc). constructor; [done|]. eapply Forall_impl; [by apply IH|]. cbn. lia. }
    rewrite Forall_forall in *. intros s Hs. rewrite <- Hn by done. unfold seg_name. rewrite D; [done|].
    specialize (G s Hs). lia.
  - exact Hm.
  - exists o', out'. split; [done|]. rewrite T. subst out2. rewrite copy_within_take by lia.
    rewrite fmap_cons. unfold slashed. cbn [fmap list_fmap concat].
    rewrite <- Hn0. unfold seg_name at 1. cbn [fst snd].
    subst out1. rewrite drop_insert_lt by lia.
    rewrite (take_S_r _ o SLASH) by (rewrite list_lookup_insert_eq; [done|lia]).
    rewrite take_insert_ge by lia. by rewrite <- !app_assoc.
Qed.

(** Whatever the moves do, they stay in the buffer. *)
Lemma emit_segs_some (segs : list (nat * nat)) (o : nat) (out : list Z) : in_place →
  (o <= length out)%nat → chain o segs → Forall (λ s, (s.2 <= length out)%nat) segs → is_Some (emit_segs segs o out).
Proof.
  intros Hlen. revert o out; induction segs as [|[a b] segs IH]; intros o out Ho Hc Hf; cbn [emit_segs]; [done|].
  destruct Hc as (Hlo & Hab & Hc). apply Forall_cons in Hf as [Hb Hf]. cbn [snd] in Hb.
  rewrite (proj2 (Nat.leb_gt _ _)) by lia. cbv zeta. rewrite length_insert, (proj2 (Nat.ltb_ge _ _)) by lia.
  assert (length (copy_bytes a (S o) (b - a) (<[o := SLASH]> out)) = length out) as L by (rewrite Hlen; rewrite ?length_insert; lia).
  apply IH; rewrite ?L; [lia| |done].
  destruct segs as [|[a' b'] segs]; [done|]. cbn in Hc |- *. intuition lia.
Qed.

(** Every move goes down. *)
Lemma chain_moves (segs : list (nat * nat)) (o : nat) : chain o segs → Forall (λ '(a, o, n), (o <= a)%nat) (moves segs o).
Proof.
  revert o; induction segs as [|[a b] segs IH]; intros o Hc; cbn [moves]; [by apply Forall_nil_2|].
  destruct Hc as (Hlo & Hab & Hc). apply Forall_cons. split; [lia|]. apply IH.
  destruct segs as [|[a' b'] segs]; [done|]. cbn in Hc |- *. intuition lia.
Qed.

(** The segments of a path in a buffer, and whether all their moves are
    between ranges that do not overlap. *)
Definition found (cwd input out : list Z) : option (list (nat * nat)) :=
  let p := absolute cwd input in scan_segs (S (length p)) 0 (length p) (p ++ drop (length p) out) [].
Definition moves_apart (cwd input out : list Z) : bool :=
  match found cwd input out with Some segs => forallb (λ '(a, o, n), apart a o n) (moves segs 0) | None => true end.

Definition normal_form (cwd input out : list Z) : option (list Z) :=
  if (length (absolute cwd input) <=? length out)%nat then render <$> climb [] (names (absolute cwd input)) else None.

Lemma normalize_path_spec (cwd input out : list Z) : input ≠ [] → stops cwd → in_place →
  (normalize_path cwd input out = None ↔ normal_form cwd input out = None) ∧
  ((∀ segs, found cwd input out = Some segs → chain 0 segs → Forall (λ '(a, o, n), copies a o n) (moves segs 0)) →
   normalize_path cwd input out = normal_form cwd input out).
Proof.
  intros Hn Hcwd Hlen. unfold normalize_path, normal_form, found. destruct input as [|x input]; [done|]. change (length (x :: input) =? 0)%nat with false.
  set (inp := x :: input) in *. rewrite push_path_spec by done. cbv zeta. set (p := absolute cwd inp).
  destruct (Nat.leb_spec (length p) (length out)) as [L|L]; [|done]. cbn [olen ob].
  set (buf := p ++ drop (length p) out). assert (take (length p) buf = p) as T by apply take_app_length.
  assert (length buf = length out) as Lb by (subst buf; rewrite length_app, length_drop; lia).
  assert (Hs : stops p ∧ p ≠ []).
  { subst p. unfold absolute. destruct (is_slash (inp !!! 0%nat)) eqn:E; [done|]. destruct cwd; done. }
  destruct (scan_segs_spec buf (length p) (S (length p)) 0 []) as [E Ok]; try (cbn; lia).
  { split; [done|constructor]. }
  { left. rewrite drop_0, T. apply Hs. }
  rewrite drop_0, T in E. cbn [fmap list_fmap] in E. rewrite <- E.
  destruct (scan_segs _ _ _ _ _) as [segs|] eqn:Es; [|done]. specialize (Ok _ eq_refl) as [Hc Hf].
  destruct segs as [|s segs].
  { rewrite (proj2 (Nat.leb_gt _ _)); [done|]. rewrite Lb. destruct p; [naive_solver|cbn in L; lia]. }
  assert (Forall (λ s0, (s0.2 <= length buf)%nat) (s :: segs)) as Hb by (eapply Forall_impl; [exact Hf|]; cbn; lia).
  destruct (emit_segs_some (s :: segs) 0 buf Hlen ltac:(lia) Hc Hb) as [r Hr]. split; [by rewrite Hr|].
  intros Hm. destruct (emit_segs_spec buf (s :: segs) 0 buf) as (o' & out' & -> & Tk); [lia|done|done|by apply Forall_true|by apply Hm|].
  cbn [fmap option_fmap option_map fst snd]. rewrite Tk. done.
Qed.

(** Between ranges that do not overlap the contract is enough, and a machine
    that moves down needs no more. *)
Lemma normalize_path_form (cwd input out : list Z) : copy_contract copy_bytes → input ≠ [] → stops cwd →
  moves_apart cwd input out = true ∨ moves_down copy_bytes → normalize_path cwd input out = normal_form cwd input out.
Proof.
  intros Hc Hn Hs Hm. assert (in_place) as Hlen by (intros a o n l Ha Ho; by apply Hc). apply (normalize_path_spec cwd input out Hn Hs Hlen). intros segs Hf Hch.
  pose proof (chain_moves segs 0 Hch) as Hd. unfold moves_apart in Hm. rewrite Hf in Hm.
  apply Forall_forall. intros [[a o] n] Hx l Ha Ho. destruct Hm as [Hm|Hm].
  - apply Hc; [done..|]. rewrite forallb_forall in Hm. apply (Hm (a, o, n)). by apply list_elem_of_In.
  - apply Hm; [done|]. rewrite Forall_forall in Hd. exact (Hd _ Hx).
Qed.
End emit.

Lemma ascending_contract : copy_contract ascending_copy.
Proof. intros a o n l Ha Ho. split; [by apply copy_within_length|done]. Qed.
Lemma ascending_moves : moves_down ascending_copy.
Proof. by intros a o n l. Qed.

(** ** The result is canonical *)

Lemma slashed_app (a b : list (list Z)) : slashed (a ++ b) = slashed a ++ slashed b.
Proof. unfold slashed. by rewrite fmap_app, concat_app. Qed.

Lemma slashed_cons (n : list Z) (ns : list (list Z)) : slashed (n :: ns) = SLASH :: n ++ slashed ns.
Proof. done. Qed.

Lemma end_name_ok (cur : list Z) : Forall (λ c, is_slash c = false) cur →
  Forall (λ n, n ≠ [] ∧ Forall (λ c, is_slash c = false) n) (end_name cur).
Proof. intros H. destruct cur; [apply Forall_nil_2|]. apply Forall_singleton. done. Qed.

Lemma names_from_word_ok (cur l : list Z) : Forall (λ c, is_slash c = false) cur →
  Forall (λ n, n ≠ [] ∧ Forall (λ c, is_slash c = false) n) (names_from cur l).
Proof.
  revert cur; induction l as [|c l IH]; intros cur Hc; cbn; [by apply end_name_ok|].
  destruct (is_slash c) eqn:E.
  - apply Forall_app; split; [by apply end_name_ok|]. apply IH, Forall_nil_2.
  - apply IH. apply Forall_app; split; [done|]. by apply Forall_singleton.
Qed.

Lemma names_from_length (cur l : list Z) : (length (slashed (names_from cur l)) <= S (length cur + length l))%nat.
Proof.
  revert cur; induction l as [|c l IH]; intros cur; cbn [names_from].
  - destruct cur; cbn; [lia|]. rewrite app_nil_r. lia.
  - destruct (is_slash c).
    + rewrite slashed_app, length_app. specialize (IH []). cbn in IH |- *.
      destruct cur; cbn; [lia|]. rewrite app_nil_r. lia.
    + specialize (IH (cur ++ [c])). rewrite length_app in IH. cbn in *. lia.
Qed.

Lemma names_length (p : list Z) : stops p → p ≠ [] → (length (slashed (names p)) <= length p)%nat.
Proof.
  destruct p as [|c p]; [done|]. cbn [stops]. intros Hc _. unfold names. cbn [names_from]. rewrite Hc.
  pose proof (names_from_length [] p). cbn [end_name app length] in *. lia.
Qed.

Lemma climb_props (ns st r : list (list Z)) :
  Forall plain st → (length st <= MAX_SEGS)%nat →
  Forall (λ n, n ≠ [] ∧ Forall (λ c, is_slash c = false) n) ns → climb st ns = Some r →
  Forall plain r ∧ (length r <= MAX_SEGS)%nat ∧ (length (slashed r) <= length (slashed st) + length (slashed ns))%nat.
Proof.
  revert st; induction ns as [|n ns IH]; intros st Hp Hl Hn; cbn [climb].
  { intros [= <-]. repeat split; [done|done|lia]. }
  apply Forall_cons in Hn as [[Hne Hns] Hn]. rewrite slashed_cons. cbn [length]. rewrite length_app.
  case_bool_decide as D1.
  { intros H. destruct (IH st Hp Hl Hn H) as (? & ? & ?). repeat split; [done|done|lia]. }
  case_bool_decide as D2.
  { intros H. destruct st as [|x st _] using rev_ind; [cbn in H|rewrite removelast_snoc in H].
    - destruct (IH [] Hp Hl Hn H) as (? & ? & ?). repeat split; [done|done|lia].
    - apply Forall_app in Hp as [Hp _]. rewrite length_app in Hl.
      destruct (IH st Hp ltac:(lia) Hn H) as (? & ? & ?). rewrite slashed_app, length_app. repeat split; [done|done|lia]. }
  destruct (Nat.leb_spec MAX_SEGS (length st)); [done|]. intros H'.
  destruct (IH (st ++ [n])) as (? & ? & L); [|rewrite length_app; cbn; lia|done|done|].
  { apply Forall_app; split; [done|]. repeat constructor; done. }
  repeat split; [done|done|]. rewrite slashed_app, slashed_cons, length_app in L. cbn [length] in L. rewrite length_app in L.
  change (length (slashed [])) with 0%nat in L. lia.
Qed.

Lemma names_slashed (ns : list (list Z)) : Forall plain ns → names (slashed ns) = ns.
Proof.
  induction ns as [|n ns IH]; [done|]. intros [(Hne & Hs & _) Hp]%Forall_cons.
  rewrite slashed_cons. unfold names. cbn [names_from]. change (is_slash SLASH) with true. cbn [end_name app].
  change (names (n ++ slashed ns) = n :: ns). rewrite names_word; [by rewrite IH|done|done|]. destruct ns; done.
Qed.

Lemma names_render (ns : list (list Z)) : Forall plain ns → names (render ns) = ns.
Proof. destruct ns; [done|]. apply names_slashed. Qed.

Lemma climb_plain (ns st : list (list Z)) : Forall plain ns → (length st + length ns <= MAX_SEGS)%nat →
  climb st ns = Some (st ++ ns).
Proof.
  revert st; induction ns as [|n ns IH]; intros st Hp Hl; cbn [climb]; [by rewrite app_nil_r|].
  apply Forall_cons in Hp as [(? & ? & ? & ?) Hp]. rewrite !bool_decide_eq_false_2 by done. cbn [length] in Hl.
  rewrite (proj2 (Nat.leb_gt _ _)) by lia. rewrite IH by (done || (rewrite length_app; cbn; lia)). by rewrite <- app_assoc.
Qed.

Lemma absolute_starts (cwd input : list Z) : input ≠ [] → stops cwd →
  stops (absolute cwd input) ∧ absolute cwd input ≠ [].
Proof.
  intros Hn Hc. unfold absolute. destruct (is_slash (input !!! 0%nat)) eqn:E.
  - destruct input; done.
  - destruct cwd; done.
Qed.

(** C11: What [normalize_path] returns.  The input is not empty and the working
    directory is absolute or empty; the copy honours its contract on ranges
    that do not overlap and is arbitrary on others.  The call fails exactly
    when the absolute path does not fit the buffer or more than 64 names are
    pending at once.  Else its result is the path whose names are those of the
    absolute path after [.] and [..] are worked off, provided that no segment
    is moved between ranges that overlap, or else that the copy moves bytes
    down as an ascending one does.  The code relies on the latter, which the
    contract does not give. *)
Theorem normalize_path_correct `{cp : !CopyBytes} (cwd input out : list Z) : copy_contract cp → input ≠ [] → stops cwd →
  let fits := (length (absolute cwd input) <=? length out)%nat in let walk := climb [] (names (absolute cwd input)) in
  (normalize_path cwd input out = None ↔ fits = false ∨ walk = None) ∧
  (moves_apart cwd input out = true ∨ moves_down cp → normalize_path cwd input out = if fits then render <$> walk else None).
Proof.
  intros Hc Hn Hs fits walk. split; [|by apply (normalize_path_form cwd input out Hc)].
  destruct (normalize_path_spec cwd input out Hn Hs) as [-> _]; [by intros a o n l Ha Ho; apply Hc|].
  unfold normal_form. fold fits walk. destruct fits, walk; cbn; naive_solver.
Qed.

(** A path that is normal already is moved onto itself: the contract of the
    copy says nothing about it. *)
Example normal_path_overlaps : moves_apart [] [SLASH; 98] (replicate 8 0) = false.
Proof. reflexivity. Qed.

(** What [normalize_path] returns is canonical and in bounds: it is no
    longer than the buffer, it is made of at most 64 names that are not empty,
    not [.] and not [..], and normalising it again, from any working directory
    and in any buffer it fits, gives it back. *)
Theorem normalize_path_canonical (cwd input out r : list Z) : input ≠ [] → stops cwd →
  normalize_path cwd input out = Some r →
  (length r <= length out)%nat ∧
  (∃ ns, r = render ns ∧ Forall plain ns ∧ (length ns <= MAX_SEGS)%nat) ∧
  (∀ cwd' out', stops cwd' → (length r <= length out')%nat → normalize_path cwd' r out' = Some r).
Proof.
  intros Hn Hc. rewrite (normalize_path_form cwd input out ascending_contract Hn Hc (or_intror ascending_moves)). unfold normal_form. destruct (Nat.leb_spec (length (absolute cwd input)) (length out)) as [L|L]; [|done].
  destruct (climb [] _) as [ns|] eqn:E; [|done]. cbn. intros [= <-].
  destruct (absolute_starts cwd input Hn Hc) as [Hst Hne].
  destruct (climb_props _ _ _ (Forall_nil_2 _) ltac:(cbn; lia) (names_from_word_ok [] _ (Forall_nil_2 _)) E) as (Hp & Hl & Hs).
  pose proof (names_length _ Hst Hne) as Hnl. unfold names in Hnl. change (length (slashed [])) with 0%nat in Hs.
  split.
  { destruct ns; [destruct (absolute cwd input); [done|cbn in *; lia]|]. change (render (l :: ns)) with (slashed (l :: ns)). lia. }
  split; [by exists ns|]. intros cwd' out' Hc' Hl'.
  assert (Ha : absolute cwd' (render ns) = render ns) by (destruct ns; done).
  rewrite (normalize_path_form _ _ _ ascending_contract) by (destruct ns; done || (right; exact ascending_moves) || done). unfold normal_form. rewrite Ha, (proj2 (Nat.leb_le _ _)) by done.
  rewrite names_render, (climb_plain ns []) by done. reflexivity.
Qed.

(** [/a/../b//./c] from [/], in a 16-byte buffer, is [/b/c]. *)
Definition demo_path : list Z := [47; 97; 47; 46; 46; 47; 98; 47; 47; 46; 47; 99].

(** A copy that spoils what overlaps, and still honours the contract. *)
Definition spoiling_copy : CopyBytes := λ a o n l, if apart a o n then copy_within a o n l else replicate (length l) 0.

(** [/xx/../b] needs one move, by five bytes, whatever the copy does with
    overlapping ranges; [/a/../b//./c] needs an ascending one. *)
Definition apart_path : list Z := [47; 120; 120; 47; 46; 46; 47; 98].

Lemma normalize_path_correct_witness :
  normalize_path (cb := spoiling_copy) [] apart_path (replicate 16 0) = Some [47; 98] ∧
  normalize_path [SLASH] demo_path (replicate 16 0) = Some [47; 98; 47; 99].
Proof.
  split.
  - destruct (normalize_path_correct (cp := spoiling_copy) [] apart_path (replicate 16 0)) as [_ H]; [|discriminate|exact I|].
    + intros a o n l Ha Ho. unfold spoiling_copy. destruct (apart a o n); [split; [by apply copy_within_length|done]|].
      split; [apply length_replicate|done].
    + rewrite H; [reflexivity|left; reflexivity].
  - destruct (normalize_path_correct [SLASH] demo_path (replicate 16 0)) as [_ H]; [exact ascending_contract|discriminate|reflexivity|].
    rewrite H; [reflexivity|right; exact ascending_moves].
Defined.

Lemma normalize_path_canonical_witness :
  (length [47; 98; 47; 99] <= 16)%nat ∧ normalize_path [SLASH] [47; 98; 47; 99] (replicate 8 0) = Some [47; 98; 47; 99].
Proof.
  destruct (normalize_path_canonical [SLASH] demo_path (replicate 16 0) [47; 98; 47; 99]) as (A & _ & B);
    [discriminate|reflexivity|reflexivity|].
  split; [exact A|]. apply (B [SLASH] (replicate 8 0)); [reflexivity|]. cbn. lia.
Defined.
