(* ===== verification/Vfs.v ===== *)
(** * The vnode layer: [src/vfs_core/mod.rs]

    A table of 256 vnodes, a table of 16 mount points, path resolution over
    the mounted file systems and the operations that dispatch to them.  A file
    system is known through the trait [VnodeOps], here the record [vnode_ops]
    of its operations over a state [W] shared by all of them; [dyn] is the
    identity of a trait object, which is what a vnode and a mount point store. *)

From S2P Require Import Prelude VfsTypes Path.
From stdpp Require Import base numbers strings list.
Local Open Scope Z_scope.

Definition MAX_MOUNTS : nat := 16.
Definition MAX_VNODES : nat := 256.
Definition MAX_FDS_PER_TASK : nat := 16.
Definition PATH_SEPARATOR : Z := 47.

(** [&'static dyn VnodeOps] *)
Inductive dyn := NOP_VNODE | RAMFS | PROCFS | UserFs | Device (n : nat).

#[export] Instance dyn_eq_dec : EqDecision dyn.
Proof. solve_decision. Defined.

Record TimeSpec := mkTimeSpec { ts_sec : Z; ts_nsec : Z }.
Record Attr := mkAttr {
  at_mode : Z; at_uid : Z; at_gid : Z; at_size : Z; at_atime : TimeSpec; at_mtime : TimeSpec; at_ctime : TimeSpec;
  at_blksize : Z; at_blocks : Z;
}.

(** The trait [VnodeOps].  A call may panic and may change the state; [read],
    [readdir], [getxattr] and [listxattr] are given the room in the caller's
    buffer and return what they put there; [rename] also returns the inodes
    whose vnodes it had freed ([vnode_free_by_ino]). *)
Record vnode_ops (W : Type) := mkVnodeOps {
  o_read : Z → Z → nat → W → comp (res (list Z) * W);
  o_write : Z → Z → list Z → W → comp (res Z * W);
  o_lookup : Z → list Z → W → comp (res Z * W);
  o_readdir : Z → Z → nat → W → comp (res (list Dirent) * W);
  o_create : Z → list Z → Z → W → comp (res Z * W);
  o_mkdir : Z → list Z → Z → W → comp (res Z * W);
  o_remove : Z → list Z → W → comp (res unit * W);
  o_rmdir : Z → list Z → W → comp (res unit * W);
  o_stat : Z → W → comp (res Stat * W);
  o_readlink : Z → W → comp (res (list Z) * W);
  o_symlink : Z → list Z → list Z → W → comp (res Z * W);
  o_rename : Z → list Z → Z → list Z → W → comp (res unit * W * list Z);
  o_setattr : Z → Attr → W → comp (res unit * W);
  o_getxattr : Z → list Z → nat → W → comp (res (list Z) * W);
  o_setxattr : Z → list Z → list Z → W → comp (res unit * W);
  o_listxattr : Z → nat → W → comp (res (list Z) * W);
  o_truncate : Z → Z → W → comp (res unit * W);
  o_ioctl : Z → Z → Z → W → comp (res Z * W);
}.
Arguments mkVnodeOps {W}.
Arguments o_read {W}. Arguments o_write {W}. Arguments o_lookup {W}. Arguments o_readdir {W}.
Arguments o_create {W}. Arguments o_mkdir {W}. Arguments o_remove {W}. Arguments o_rmdir {W}.
Arguments o_stat {W}. Arguments o_readlink {W}. Arguments o_symlink {W}. Arguments o_rename {W}.
Arguments o_setattr {W}. Arguments o_getxattr {W}. Arguments o_setxattr {W}. Arguments o_listxattr {W}.
Arguments o_truncate {W}. Arguments o_ioctl {W}.

(** The file systems and devices of the kernel. *)
Class FsOps (W : Type) := fs_ops : dyn → vnode_ops W.

(** [NopVnode] *)
Definition NopVnode {W : Type} : vnode_ops W :=
  mkVnodeOps
    (λ _ _ _ w, Done (Err "no fs", w)) (λ _ _ _ w, Done (Err "no fs", w)) (λ _ _ w, Done (Err "no fs", w))
    (λ _ _ _ w, Done (Err "no fs", w)) (λ _ _ _ w, Done (Err "no fs", w)) (λ _ _ _ w, Done (Err "no fs", w))
    (λ _ _ w, Done (Err "no fs", w)) (λ _ _ w, Done (Err "no fs", w)) (λ _ w, Done (Err "no fs", w))
    (λ _ w, Done (Err "no fs", w)) (λ _ _ _ w, Done (Err "no fs", w)) (λ _ _ _ _ w, Done (Err "no fs", w, []))
    (λ _ _ w, Done (Err "no fs", w))
    (λ _ _ _ w, Done (Err "no fs", w)) (λ _ _ _ w, Done (Err "no fs", w)) (λ _ _ w, Done (Err "no fs", w))
    (λ _ _ w, Done (Err "no fs", w)) (λ _ _ _ w, Done (Err "ENOTTY", w)).

Definition ops_of {W} `{FsOps W} (d : dyn) : vnode_ops W :=
  match d with NOP_VNODE => NopVnode | _ => fs_ops d end.

(** ** The tables *)

Record Vnode := mkVnode { v_ino : Z; v_fs_id : Z; v_mount_id : Z; v_ops : dyn; v_used : bool }.
Definition vnode_empty : Vnode := mkVnode 0 0 0 NOP_VNODE false.
#[export] Instance Vnode_inhabited : Inhabited Vnode := populate vnode_empty.

(** [mount_point] is the slice [mount_point[..mp_len]]. *)
Record MountEntry := mkMountEntry { mount_point : list Z; me_fs_id : Z; root_ino : Z; me_ops : dyn; me_flags : Z; me_used : bool }.
Definition mount_empty : MountEntry := mkMountEntry [] 0 0 NOP_VNODE 0 false.
#[export] Instance MountEntry_inhabited : Inhabited MountEntry := populate mount_empty.

Record vnode_table := mkVnodeTable { vnodes : list Vnode; v_count : Z }.
Definition vnode_table_new : vnode_table := mkVnodeTable (replicate MAX_VNODES vnode_empty) 0.

Definition v_alloc (ino fs_id mount_id : Z) (ops : dyn) (t : vnode_table) : option nat * vnode_table :=
  match first_from (λ i, negb (v_used (vnodes t !!! i))) 0 MAX_VNODES with
  | Some i => (Some i, mkVnodeTable (<[i := mkVnode ino fs_id mount_id ops true]> (vnodes t)) (w64 (v_count t + 1)))
  | None => (None, t)
  end.

Definition v_get (id : nat) (t : vnode_table) : option Vnode :=
  if (id <? MAX_VNODES)%nat && v_used (vnodes t !!! id) then Some (vnodes t !!! id) else None.

Definition v_unuse (v : Vnode) : Vnode := mkVnode (v_ino v) (v_fs_id v) (v_mount_id v) (v_ops v) false.

Definition v_free (id : nat) (t : vnode_table) : bool * vnode_table :=
  if (id <? MAX_VNODES)%nat && v_used (vnodes t !!! id)
  then (true, mkVnodeTable (<[id := v_unuse (vnodes t !!! id)]> (vnodes t)) (w64 (v_count t - 1)))
  else (false, t).

(** [self.count.saturating_sub(1)] for each vnode of the inode. *)
Fixpoint v_free_loop (n i : nat) (ino : Z) (t : vnode_table) : vnode_table :=
  match n with
  | O => t
  | S n' =>
      let v := vnodes t !!! i in
      v_free_loop n' (S i) ino
        (if v_used v && (v_ino v =? ino) then mkVnodeTable (<[i := v_unuse v]> (vnodes t)) (Z.max 0 (v_count t - 1)) else t)
  end.

Definition v_free_by_ino (ino : Z) (t : vnode_table) : vnode_table := v_free_loop MAX_VNODES 0 ino t.

Record mount_table := mkMountTable { mounts : list MountEntry; m_count : Z }.
Definition mount_table_new : mount_table := mkMountTable (replicate MAX_MOUNTS mount_empty) 0.

Definition m_alloc (mp : list Z) (fs_id root : Z) (ops : dyn) (t : mount_table) : option nat * mount_table :=
  if Z.of_nat MAX_MOUNTS <=? m_count t then (None, t)
  else match first_from (λ i, negb (me_used (mounts t !!! i))) 0 MAX_MOUNTS with
  | Some i =>
      (Some i, mkMountTable (<[i := mkMountEntry (take (MAX_PATH - 1) mp) fs_id root ops 0 true]> (mounts t)) (m_count t + 1))
  | None => (None, t)
  end.

Fixpoint find_mount_loop (n i : nat) (ms : list MountEntry) (path : list Z) (best_len : nat) (best : option nat) : option nat :=
  match n with
  | O => best
  | S n' =>
      let m := ms !!! i in
      let mp := mount_point m in
      if negb (me_used m) then find_mount_loop n' (S i) ms path best_len best
      else if (length path <? length mp)%nat then find_mount_loop n' (S i) ms path best_len best
      else if bool_decide (take (length mp) path = mp) && (best_len <? length mp)%nat
           then find_mount_loop n' (S i) ms path (length mp) (Some i)
           else find_mount_loop n' (S i) ms path best_len best
  end.

Definition find_mount (path : list Z) (t : mount_table) : option (MountEntry * nat) :=
  (λ i, (mounts t !!! i, i)) <$> find_mount_loop MAX_MOUNTS 0 (mounts t) path 0 None.

Definition m_unuse (m : MountEntry) : MountEntry :=
  mkMountEntry (mount_point m) (me_fs_id m) (root_ino m) (me_ops m) (me_flags m) false.

Definition unmount (idx : nat) (t : mount_table) : bool * mount_table :=
  if (idx <? MAX_MOUNTS)%nat && me_used (mounts t !!! idx)
  then (true, mkMountTable (<[idx := m_unuse (mounts t !!! idx)]> (mounts t)) (w64 (m_count t - 1)))
  else (false, t).

(** ** A table of 16 descriptors ([FdTable]) *)

Record FileDesc := mkFileDesc { vnode_id : nat; f_ino : Z; f_offset : Z; f_flags : Z; f_used : bool }.
Definition fd_empty : FileDesc := mkFileDesc 0 0 0 O_RDONLY false.
#[export] Instance VFileDesc_inhabited : Inhabited FileDesc := populate fd_empty.

Definition FdTable_new : list FileDesc := replicate MAX_FDS_PER_TASK fd_empty.

Definition fdt_alloc_fd (vn : nat) (ino flags : Z) (t : list FileDesc) : option nat * list FileDesc :=
  match first_from (λ i, negb (f_used (t !!! i))) 0 MAX_FDS_PER_TASK with
  | Some i => (Some i, <[i := mkFileDesc vn ino 0 flags true]> t)
  | None => (None, t)
  end.

Definition fdt_get_fd (fd : nat) (t : list FileDesc) : option FileDesc :=
  if (fd <? MAX_FDS_PER_TASK)%nat && f_used (t !!! fd) then Some (t !!! fd) else None.

Definition fdt_close_fd (fd : nat) (t : list FileDesc) : bool * list FileDesc :=
  if (fd <? MAX_FDS_PER_TASK)%nat && f_used (t !!! fd)
  then (true, <[fd := (λ d, mkFileDesc (vnode_id d) (f_ino d) (f_offset d) (f_flags d) false) (t !!! fd)]> t)
  else (false, t).

(** ** The layer *)

Record vfs (W : Type) := mkVfs { vt : vnode_table; mt : mount_table; next_fsid : Z; fsw : W }.
Arguments mkVfs {W}. Arguments vt {W}. Arguments mt {W}. Arguments next_fsid {W}. Arguments fsw {W}.

Definition vfs0 {W} (w : W) : vfs W := mkVfs vnode_table_new mount_table_new 1 w.

(** What is left of the path below the mount point. *)
Definition rel_path (path : list Z) (mp_len : nat) : list Z :=
  if (length path =? mp_len)%nat then [DOT]
  else if (mp_len =? 1)%nat && (mp_len <? length path)%nat then drop 1 path
  else drop mp_len path.

(** [S_IRUSR | S_IWUSR | S_IXUSR | S_IRGRP | S_IXGRP | S_IROTH] *)
Definition MKDIR_P_MODE : Z := foldr Z.lor 0 [S_IRUSR; S_IWUSR; S_IXUSR; S_IRGRP; S_IXGRP; S_IROTH].

(** ** Effects

    A function of the layer changes the state and returns a [Result];
    [let? x := m in k] is [let x = m?]. *)

Definition vfsM (W T : Type) : Type := vfs W → comp (res T * vfs W).

Definition vret {W T} (x : T) : vfsM W T := λ s, Done (Ok x, s).
Definition verr {W T} (e : string) : vfsM W T := λ s, Done (Err e, s).
Definition vbind {W T U} (m : vfsM W T) (k : T → vfsM W U) : vfsM W U :=
  λ s, let! (r, s) := m s in match r with Ok x => k x s | Err e => Done (Err e, s) end.
Notation "'let?' x := m 'in' k" := (vbind m (λ x, k)) (at level 200, x pattern, m at level 100, k at level 200,
   format "'[v' 'let?'  x  :=  m  'in' '//' k ']'").

(** [o.ok_or(e)?] *)
Definition ok_or {W T} (o : option T) (e : string) : vfsM W T := match o with Some x => vret x | None => verr e end.

(** A call into a file system. *)
Definition call {W T} (f : W → comp (res T * W)) : vfsM W T :=
  λ s, let! (r, w) := f (fsw s) in Done (r, mkVfs (vt s) (mt s) (next_fsid s) w).

Definition with_vt {W T} (f : vnode_table → T * vnode_table) : vfs W → T * vfs W :=
  λ s, let '(r, t) := f (vt s) in (r, mkVfs t (mt s) (next_fsid s) (fsw s)).

(** An update of one table whose failure is an error. *)
Definition alloc_vnode_or {W} (e : string) (ino fs_id mount_id : Z) (ops : dyn) : vfsM W nat :=
  λ s, let '(r, s) := with_vt (v_alloc ino fs_id mount_id ops) s in ok_or r e s.

Definition alloc_mount_or {W} (e : string) (mp : list Z) (fs_id root : Z) (ops : dyn) : vfsM W nat :=
  λ s, let '(r, t) := m_alloc mp fs_id root ops (mt s) in ok_or r e (mkVfs (vt s) t (next_fsid s) (fsw s)).

Definition alloc_fsid {W} : vfsM W Z :=
  λ s, Done (Ok (next_fsid s), mkVfs (vt s) (mt s) (w64 (next_fsid s + 1)) (fsw s)).

Definition find_mount_or {W} (path : list Z) : vfsM W MountEntry :=
  λ s, ok_or (fst <$> find_mount path (mt s)) "no mount for path" s.

Section layer.
Context {W : Type} `{!FsOps W}.
Implicit Types s : vfs W.

(** ** Mounting *)

Definition mount_root : vfsM W nat :=
  let? fs_id := alloc_fsid in
  let? root := call (o_lookup (ops_of RAMFS) 0 [SLASH]) in
  let? mount_id := alloc_mount_or "mount table full" [SLASH] fs_id root RAMFS in
  alloc_vnode_or "vnode table full" root fs_id (Z.of_nat mount_id) RAMFS.

Definition mount_ext3 : vfsM W nat := verr "ext3 not yet implemented as VnodeOps".

Definition mount (mp : list Z) (fs_id root : Z) (ops : dyn) : vfsM W nat :=
  let? mount_id := alloc_mount_or "mount table full" mp fs_id root ops in
  alloc_vnode_or "vnode table full" root fs_id (Z.of_nat mount_id) ops.

Definition mount_userfs (mp : list Z) : vfsM W nat :=
  let? fs_id := alloc_fsid in mount mp fs_id 1 UserFs.

Definition is_userfs_path (path : list Z) s : bool :=
  match find_mount path (mt s) with Some (m, _) => bool_decide (me_ops m = UserFs) | None => false end.

(** ** Path resolution *)

(** The components of the path, one [lookup] each. *)
Fixpoint walk (fuel pos : nat) (trimmed : list Z) (ops : dyn) (ino : Z) (w : W) : comp (res Z * W) :=
  match fuel with
  | O => Done (Ok ino, w)
  | S f =>
      if negb (pos <? length trimmed)%nat then Done (Ok ino, w)
      else if is_slash (trimmed !!! pos) then walk f (S pos) trimmed ops ino w
      else
        let e := match position is_slash (drop pos trimmed) with Some e => (pos + e)%nat | None => length trimmed end in
        let component := take (e - pos) (drop pos trimmed) in
        if (length component =? 0)%nat then walk f (S e) trimmed ops ino w
        else
          let! (r, w) := o_lookup (ops_of ops) ino component w in
          match r with
          | Ok next => walk f e trimmed ops next w
          | Err e => Done (Err e, w)
          end
  end.

(** The inode of [rel] under the root of a mount. *)
Definition walk_from (m : MountEntry) (rel : list Z) (w : W) : comp (res Z * W) :=
  if bool_decide (rel = [DOT]) || (length rel =? 0)%nat then Done (Ok (root_ino m), w)
  else let trimmed := trim_ascii rel in walk (S (length trimmed)) 0 trimmed (me_ops m) (root_ino m) w.

Definition path_to_vnode (path : list Z) : vfsM W nat :=
  let? m := find_mount_or path in
  let? ino := call (walk_from m (rel_path path (length (mount_point m)))) in
  alloc_vnode_or "vnode table full" ino (me_fs_id m) 0 (me_ops m).

Definition path_resolve (path : list Z) : vfsM W (Z * dyn) :=
  let? m := find_mount_or path in
  let? ino := call (walk_from m (rel_path path (length (mount_point m)))) in
  vret (ino, me_ops m).

Definition resolve_ino (path : list Z) : vfsM W Z :=
  let? (ino, _) := path_resolve path in vret ino.

(** ** Vnodes *)

Definition vnode_release (id : nat) s : vfs W := (with_vt (v_free id) s).2.
Definition vnode_get (id : nat) s : option Vnode := v_get id (vt s).
Definition vnode_alloc (ino fs_id mount_id : Z) (ops : dyn) s : option nat * vfs W := with_vt (v_alloc ino fs_id mount_id ops) s.
Definition vnode_free_by_ino (ino : Z) s : vfs W := mkVfs (v_free_by_ino ino (vt s)) (mt s) (next_fsid s) (fsw s).

(** [vnode_get(id).ok_or("bad vnode")?] followed by an operation of it. *)
Definition on_vnode {T} (id : nat) (f : vnode_ops W → Z → W → comp (res T * W)) : vfsM W T :=
  λ s, match vnode_get id s with
       | None => Done (Err "bad vnode", s)
       | Some v => call (f (ops_of (v_ops v)) (v_ino v)) s
       end.

Definition open (path : list Z) (_ : Z) : vfsM W nat := path_to_vnode path.
Definition close (id : nat) s : vfs W := vnode_release id s.
Definition read (id : nat) (offset : Z) (room : nat) : vfsM W (list Z) := on_vnode id (λ o ino, o_read o ino offset room).
Definition write (id : nat) (offset : Z) (buf : list Z) : vfsM W Z := on_vnode id (λ o ino, o_write o ino offset buf).
Definition readdir (id : nat) (offset : Z) (room : nat) : vfsM W (list Dirent) := on_vnode id (λ o ino, o_readdir o ino offset room).
Definition stat (id : nat) : vfsM W Stat := on_vnode id o_stat.
Definition readlink (id : nat) : vfsM W (list Z) := on_vnode id o_readlink.
Definition getxattr (id : nat) (name : list Z) (room : nat) : vfsM W (list Z) := on_vnode id (λ o ino, o_getxattr o ino name room).
Definition setxattr (id : nat) (name value : list Z) : vfsM W unit := on_vnode id (λ o ino, o_setxattr o ino name value).

(** ** Names *)

(** The parent directory of a path, resolved, and an operation of its file system. *)
Definition in_parent {T} (path : list Z) (f : vnode_ops W → Z → list Z → W → comp (res T * W)) : vfsM W T :=
  let? (pino, ops) := path_resolve (parent_path path) in
  call (f (ops_of ops) pino (file_name path)).

Definition mkdir (path : list Z) (mode : Z) : vfsM W Z := in_parent path (λ o pino name, o_mkdir o pino name mode).
Definition remove (path : list Z) : vfsM W unit := in_parent path o_remove.
Definition rmdir (path : list Z) : vfsM W unit := in_parent path o_rmdir.
Definition symlink (path target : list Z) : vfsM W Z := in_parent path (λ o pino name, o_symlink o pino name target).

(** The recursion of [mkdir_p] is on shorter and shorter prefixes of the
    path; its fuel is the length of the path. *)
Fixpoint mkdir_p_loop (fuel : nat) (path : list Z) : vfsM W unit :=
  match fuel with
  | O => vret tt
  | S f =>
      if (length path =? 0)%nat || bool_decide (path = [SLASH]) then vret tt
      else λ s,
        let! (r, s) := path_resolve path s in
        match r with
        | Ok _ => Done (Ok tt, s)
        | Err _ =>
            (let? _ := mkdir_p_loop f (parent_path path) in
             let? _ := mkdir path MKDIR_P_MODE in vret tt) s
        end
  end.

Definition mkdir_p (path : list Z) : vfsM W unit := mkdir_p_loop (S (length path)) path.

Definition create (path : list Z) (mode : Z) : vfsM W Z :=
  let? _ := mkdir_p (parent_path path) in
  in_parent path (λ o pino name, o_create o pino name mode).

(** [rename] of a file system, with the vnodes it frees. *)
Definition call_rename (o : vnode_ops W) (op : Z) (on : list Z) (np : Z) (nn : list Z) : vfsM W unit :=
  λ s, let! (r, w, freed) := o_rename o op on np nn (fsw s) in
       Done (r, foldl (λ s ino, vnode_free_by_ino ino s) (mkVfs (vt s) (mt s) (next_fsid s) w) freed).

Definition rename (old_path new_path : list Z) : vfsM W unit :=
  let? (old_pino, ops) := path_resolve (parent_path old_path) in
  if bool_decide (parent_path old_path = parent_path new_path)
  then call_rename (ops_of ops) old_pino (file_name old_path) old_pino (file_name new_path)
  else
    let? (new_pino, _) := path_resolve (parent_path new_path) in
    call_rename (ops_of ops) old_pino (file_name old_path) new_pino (file_name new_path).

(** ** Messages *)

Inductive VfsOp :=
| Read | Write | Lookup | ReadDir | Create | MkDir | Remove | RmDir | OpStat | ReadLink | SymLink | Rename | SetAttr
| GetXattr | SetXattr | ListXattr | Open | Close | Seek | Truncate | Ioctl | FSync.

(** [path] is [path_buf[..path_len]]; [data] the [data_len] bytes that the
    pointer [data_ptr] names. *)
Record VfsMessage := mkVfsMessage {
  op : VfsOp; path : list Z; data_ptr : Z; data : list Z; offset : Z; mode : Z; flags : Z; extra1 : Z; extra2 : Z;
}.

Definition VfsMessage_new : VfsMessage := mkVfsMessage Read [] 0 [] 0 0 0 0 0.

(** What the operation puts where [data] points. *)
Inductive filled := FNone | FBytes (bs : list Z) | FStat (st : Stat) | FDirents (ds : list Dirent).

(** [x as i64] *)
Definition as_i64 (z : Z) : Z := let u := w64 z in if u <? 2 ^ 63 then u else u - 2 ^ 64.

(** [size_of::<Dirent>()]: two words, a half, a byte and 255 bytes, to a
    multiple of 8. *)
Definition DIRENT_SIZE : nat := 280.

(** [Ok(x) => msg.result = f(x), Err(_) => msg.result = -1] *)
Definition reply {T} (m : vfsM W T) (f : T → Z * filled) s : comp (Z * filled * vfs W) :=
  let! (r, s) := m s in
  match r with Ok x => Done (f x, s) | Err _ => Done (-1, FNone, s) end.

Definition counted (bs : list Z) : Z * filled := (Z.of_nat (length bs), FBytes bs).

Definition dispatch (msg : VfsMessage) s : comp (Z * filled * vfs W) :=
  let room := length (data msg) in
  let vn := Z.to_nat (w16 (extra1 msg)) in
  match op msg with
  | Open => reply (path_to_vnode (path msg)) (λ id, (Z.of_nat id, FNone)) s
  | Read => reply (on_vnode vn (λ o ino, o_read o ino (offset msg) room)) counted s
  | Write => reply (on_vnode vn (λ o ino, o_write o ino (offset msg) (data msg))) (λ n, (as_i64 n, FNone)) s
  | OpStat => reply (on_vnode vn o_stat) (λ st, (0, FStat st)) s
  | ReadDir =>
      reply (on_vnode vn (λ o ino, o_readdir o ino (offset msg) (room / DIRENT_SIZE))) (λ ds, (Z.of_nat (length ds), FDirents ds)) s
  | Lookup => reply (on_vnode vn (λ o ino, o_lookup o ino (path msg))) (λ ino, (as_i64 ino, FNone)) s
  | Create => reply (in_parent (path msg) (λ o pino name, o_create o pino name (mode msg))) (λ ino, (as_i64 ino, FNone)) s
  | MkDir => reply (in_parent (path msg) (λ o pino name, o_mkdir o pino name (mode msg))) (λ ino, (as_i64 ino, FNone)) s
  | Remove => reply (in_parent (path msg) o_remove) (λ _, (0, FNone)) s
  | RmDir => reply (in_parent (path msg) o_rmdir) (λ _, (0, FNone)) s
  | ReadLink => reply (on_vnode vn o_readlink) (λ t, counted (take room t)) s
  | SymLink => reply (in_parent (path msg) (λ o pino name, o_symlink o pino name (data msg))) (λ _, (0, FNone)) s
  | GetXattr => reply (on_vnode vn (λ o ino, o_getxattr o ino (path msg) room)) counted s
  | SetXattr => reply (on_vnode vn (λ o ino, o_setxattr o ino (path msg) (data msg))) (λ _, (0, FNone)) s
  | ListXattr => reply (on_vnode vn (λ o ino, o_listxattr o ino room)) counted s
  | Close => Done (0, FNone, vnode_release vn s)
  | Seek => reply (on_vnode vn o_stat) (λ _, (as_i64 (offset msg), FNone)) s
  | Truncate => reply (on_vnode vn (λ o ino, o_truncate o ino (offset msg))) (λ _, (0, FNone)) s
  | Ioctl => reply (on_vnode vn (λ o ino, o_ioctl o ino (offset msg) (data_ptr msg))) (λ n, (as_i64 n, FNone)) s
  | Rename | SetAttr | FSync => Done (-1, FNone, s)
  end.

End layer.
