(* ===== verification/VfsSpec.v ===== *)
(** * Resolution, mounts and vnodes: the lemmas

    The walk of [path_resolve] over positions is a fold of lookups over the
    names of the path; [find_mount] finds the longest mount point that the
    path starts with; the vnode table counts the vnodes in use. *)

From S2P Require Import Prelude VfsTypes Path PathClaims Vfs.
From Stdlib Require Import Lia ZArith.
From stdpp Require Import base numbers strings list.
Local Open Scope Z_scope.

(** ** The walk *)

Lemma position_spec (P : Z → bool) (l : list Z) :
  match position P l with
  | Some e => ∃ w c rest, l = w ++ c :: rest ∧ length w = e ∧ P c = true ∧ Forall (λ c, P c = false) w
  | None => Forall (λ c, P c = false) l
  end.
Proof.
  unfold position. destruct (list_find _ l) as [[e c]|] eqn:E; cbn.
  - apply list_find_Some in E as (He & Hc & Hb). exists (take e l), c, (drop (S e) l).
    pose proof (lookup_lt_Some _ _ _ He). repeat split.
    + by rewrite take_drop_middle.
    + rewrite length_take. lia.
    + done.
    + apply Forall_lookup. intros i x Hx. apply lookup_take_Some in Hx as [Hx Hi].
      exact (not_true_is_false _ (Hb _ _ Hx Hi)).
  - apply list_find_None in E. eapply Forall_impl; [exact E|]. intros x Hx. exact (not_true_is_false _ Hx).
Qed.

Section walk.
Context {W : Type} `{!FsOps W}.

(** One lookup per name, up to the first that fails. *)
Fixpoint lookups (ops : dyn) (ino : Z) (ns : list (list Z)) (w : W) : comp (res Z * W) :=
  match ns with
  | [] => Done (Ok ino, w)
  | n :: ns =>
      let! (r, w) := o_lookup (ops_of ops) ino n w in
      match r with Ok next => lookups ops next ns w | Err e => Done (Err e, w) end
  end.

Lemma walk_lookups (fuel pos : nat) (t : list Z) (ops : dyn) (ino : Z) (w : W) :
  (length t - pos < fuel)%nat → walk fuel pos t ops ino w = lookups ops ino (names (drop pos t)) w.
Proof.
  revert pos ino w; induction fuel as [|f IH]; intros pos ino w Hf; [lia|]. cbn [walk].
  destruct (Nat.ltb_spec pos (length t)) as [H|H]; cbn [negb]; [|by rewrite drop_ge by lia].
  destruct (lookup_lt_is_Some_2 t pos H) as [c Hc].
  rewrite (list_lookup_total_correct _ _ _ Hc). pose proof (drop_S _ _ _ Hc) as D.
  destruct (is_slash c) eqn:Hs.
  { rewrite IH by lia. rewrite D. unfold names. cbn [names_from]. rewrite Hs. done. }
  pose proof (position_spec is_slash (drop pos t)) as P.
  assert (∃ wd rest, drop pos t = wd ++ rest ∧ Forall (λ c, is_slash c = false) wd ∧ stops rest ∧
    match position is_slash (drop pos t) with Some e => (pos + e)%nat | None => length t end = (pos + length wd)%nat) as (wd & rest & E & Hw & Hr & ->).
  { destruct (position is_slash (drop pos t)) as [e|].
    - destruct P as (wd & c' & rest & E & <- & Hc' & Hw). by exists wd, (c' :: rest).
    - exists (drop pos t), []. rewrite app_nil_r, length_drop. repeat split; [done|lia]. }
  assert (wd ≠ []) as Hne by (intros ->; rewrite D in E; cbn in E; subst rest; cbn in Hr; congruence).
  replace (pos + length wd - pos)%nat with (length wd) by lia.
  rewrite E, take_app_length, names_word by done. cbn [lookups].
  destruct wd as [|x wd]; [done|]. set (n := x :: wd) in *. change (length n =? 0)%nat with false. cbv iota.
  assert (Er : drop (pos + length n) t = rest) by (rewrite <- drop_drop, E; apply drop_app_length).
  destruct (o_lookup (ops_of ops) ino n w) as [[[next|e] w']| |]; cbn [cbind]; try done.
  rewrite IH, Er by (subst n; cbn; lia). done.
Qed.

(** The names that [path_resolve] looks up below a mount point. *)
Definition rel_names (rel : list Z) : list (list Z) := if bool_decide (rel = [DOT]) then [] else names (trim_ascii rel).

Lemma walk_from_lookups (m : MountEntry) (path : list Z) (w : W) :
  (length (mount_point m) <= length path)%nat →
  walk_from m (rel_path path (length (mount_point m))) w =
  lookups (me_ops m) (root_ino m) (rel_names (drop (length (mount_point m)) path)) w.
Proof.
  intros Hl. unfold rel_path, walk_from, rel_names. set (k := length (mount_point m)) in *.
  destruct (Nat.eqb_spec (length path) k) as [E|E].
  { rewrite drop_ge by lia. by rewrite bool_decide_eq_true_2. }
  replace (if ((k =? 1)%nat && (k <? length path)%nat)%bool then drop 1 path else drop k path) with (drop k path).
  2: { destruct (Nat.eqb_spec k 1) as [->|]; cbn [andb]; [by rewrite (proj2 (Nat.ltb_lt _ _)) by lia|done]. }
  case_bool_decide; cbn [orb]; [done|].
  destruct (Nat.eqb_spec (length (drop k path)) 0) as [E'|E']; [rewrite length_drop in E'; lia|].
  rewrite walk_lookups by lia. by rewrite drop_0.
Qed.

End walk.

(** ** The mount that serves a path *)

Definition covers (m : MountEntry) (path : list Z) : Prop :=
  me_used m = true ∧ mount_point m ≠ [] ∧ mount_point m `prefix_of` path.

Lemma take_prefix (mp path : list Z) :
  (length mp <= length path)%nat → take (length mp) path = mp ↔ mp `prefix_of` path.
Proof.
  intros Hl. split.
  - intros E. exists (drop (length mp) path). by rewrite <- E at 1; rewrite take_drop.
  - intros [k ->]. by rewrite take_app_length.
Qed.

(** No mount of the range that covers the path is longer than [bound]. *)
Definition longest (ms : list MountEntry) (path : list Z) (i n bound : nat) : Prop :=
  ∀ k, (i <= k < i + n)%nat → covers (ms !!! k) path → (length (mount_point (ms !!! k)) <= bound)%nat.

Definition found_mount (ms : list MountEntry) (path : list Z) (i n bl : nat) (best r : option nat) : Prop :=
  (r = best ∧ longest ms path i n bl) ∨
  ∃ j, r = Some j ∧ (i <= j < i + n)%nat ∧ covers (ms !!! j) path ∧ (bl < length (mount_point (ms !!! j)))%nat ∧
    longest ms path i n (length (mount_point (ms !!! j))).

Lemma longest_S (ms : list MountEntry) (path : list Z) (i n bound : nat) :
  longest ms path (S i) n bound → (covers (ms !!! i) path → (length (mount_point (ms !!! i)) <= bound)%nat) →
  longest ms path i (S n) bound.
Proof. intros H Hi k Hk Hc. destruct (decide (k = i)) as [->|]; [by apply Hi|]. apply H; [lia|done]. Qed.

Lemma found_mount_skip (ms : list MountEntry) (path : list Z) (i n bl : nat) (best r : option nat) :
  (covers (ms !!! i) path → (length (mount_point (ms !!! i)) <= bl)%nat) →
  found_mount ms path (S i) n bl best r → found_mount ms path i (S n) bl best r.
Proof.
  intros Hi [[-> H]|(j & -> & Hj & Hc & Hb & H)]; [left|right]; [split; [done|by apply longest_S]|].
  exists j. split_and!; try done; try lia. apply longest_S; [done|]. intros Hk. specialize (Hi Hk). lia.
Qed.

Lemma find_mount_loop_spec (ms : list MountEntry) (path : list Z) (n i bl : nat) (best : option nat) :
  found_mount ms path i n bl best (find_mount_loop n i ms path bl best).
Proof.
  revert i bl best; induction n as [|n IH]; intros i bl best; cbn [find_mount_loop].
  { left. split; [done|]. intros k Hk. lia. }
  destruct (me_used (ms !!! i)) eqn:Hu; cbn [negb].
  2: { apply found_mount_skip; [|done]. intros (? & _). congruence. }
  destruct (Nat.ltb_spec (length path) (length (mount_point (ms !!! i)))) as [Hl|Hl].
  { apply found_mount_skip; [|done]. intros (_ & _ & Hp%prefix_length). lia. }
  case_bool_decide as Ht; cbn [andb].
  2: { apply found_mount_skip; [|done]. intros (_ & _ & Hp). by apply take_prefix in Hp. }
  destruct (Nat.ltb_spec bl (length (mount_point (ms !!! i)))) as [Hb|Hb].
  2: { apply found_mount_skip; done. }
  assert (covers (ms !!! i) path).
  { split_and!; [done| |by apply take_prefix]. intros E. rewrite E in Hb. cbn in Hb. lia. }
  destruct (IH (S i) (length (mount_point (ms !!! i))) (Some i)) as [[-> H']|(j & -> & Hj & Hc & Hb' & H')]; right.
  - exists i. split_and!; try done; try lia. by apply longest_S.
  - exists j. split_and!; try done; try lia. apply longest_S; [done|]. lia.
Qed.

(** The mount found covers the path and no mount that covers it is longer. *)
Lemma find_mount_spec (path : list Z) (t : mount_table) :
  match find_mount path t with
  | Some (m, j) => (j < MAX_MOUNTS)%nat ∧ m = mounts t !!! j ∧ covers m path ∧
      ∀ k, (k < MAX_MOUNTS)%nat → covers (mounts t !!! k) path → (length (mount_point (mounts t !!! k)) <= length (mount_point m))%nat
  | None => ∀ k, (k < MAX_MOUNTS)%nat → ¬ covers (mounts t !!! k) path
  end.
Proof.
  unfold find_mount. pose proof (find_mount_loop_spec (mounts t) path MAX_MOUNTS 0 0 None) as H.
  destruct H as [[-> H]|(j & -> & Hj & Hc & Hb & H)]; cbn.
  2: { split_and!; [lia|done|done|]. intros k Hk. apply H. lia. }
  - intros k Hk Hc. specialize (H k ltac:(lia) Hc). destruct Hc as (_ & Hne & _).
    destruct (mount_point (mounts t !!! k)); [done|cbn in H; lia].
Qed.

(** ** What leaves the tables alone *)

Create HintDb vfs_keeps.

Section frame.
Context {W : Type} `{!FsOps W}.
Implicit Types s : vfs W.

(** The function changes the file systems only. *)
Definition keeps {T} (m : vfsM W T) : Prop :=
  ∀ s r s', m s = Done (r, s') → vt s' = vt s ∧ mt s' = mt s ∧ next_fsid s' = next_fsid s.

Lemma keeps_ret {T} (x : T) : keeps (vret x).
Proof. intros s r s' [= <- <-]. done. Qed.
Lemma keeps_err {T} e : keeps (verr (T := T) e).
Proof. intros s r s' [= <- <-]. done. Qed.
Lemma keeps_bind {T U} (m : vfsM W T) (k : T → vfsM W U) : keeps m → (∀ x, keeps (k x)) → keeps (vbind m k).
Proof.
  intros Hm Hk s r s'. unfold vbind. destruct (m s) as [[[x|e] s1]| |] eqn:E; cbn; try done.
  - intros H. destruct (Hk x _ _ _ H) as (? & ? & ?).
    destruct (Hm _ _ _ E) as (? & ? & ?). split_and!; congruence.
  - intros [= <- <-]. exact (Hm _ _ _ E).
Qed.
Lemma keeps_call {T} (f : W → comp (res T * W)) : keeps (call f).
Proof. intros s r s'. unfold call. destruct (f (fsw s)) as [[x w]| |]; cbn; try done. intros [= <- <-]. done. Qed.
Lemma keeps_find_mount path : keeps (find_mount_or path).
Proof. intros s r s'. unfold find_mount_or, ok_or. destruct (_ <$> _); intros [= <- <-]; done. Qed.
Lemma keeps_on_vnode {T} id (f : vnode_ops W → Z → W → comp (res T * W)) : keeps (on_vnode id f).
Proof. intros s r s'. unfold on_vnode. destruct (vnode_get id s); [apply keeps_call|]. intros [= <- <-]. done. Qed.

#[local] Hint Resolve keeps_ret keeps_err keeps_bind keeps_call keeps_find_mount keeps_on_vnode : vfs_keeps.

Lemma keeps_path_resolve path : keeps (path_resolve path).
Proof. unfold path_resolve. auto 10 with vfs_keeps. Qed.
#[local] Hint Resolve keeps_path_resolve : vfs_keeps.

Lemma keeps_in_parent {T} path (f : vnode_ops W → Z → list Z → W → comp (res T * W)) : keeps (in_parent path f).
Proof. unfold in_parent. apply keeps_bind; [auto with vfs_keeps|]. intros [? ?]. auto with vfs_keeps. Qed.
#[local] Hint Resolve keeps_in_parent : vfs_keeps.

Lemma keeps_mkdir_p_loop fuel path : keeps (mkdir_p_loop fuel path).
Proof.
  revert path; induction fuel as [|f IH]; intros path; cbn [mkdir_p_loop]; [auto with vfs_keeps|].
  destruct (_ || _); [auto with vfs_keeps|]. intros s r s'.
  destruct (path_resolve path s) as [[[x|e] s1]| |] eqn:E; cbn [cbind]; try done.
  - intros [= <- <-]. exact (keeps_path_resolve _ _ _ _ E).
  - intros H. destruct (keeps_path_resolve _ _ _ _ E) as (? & ? & ?).
    eapply (keeps_bind _ _ (IH _)) in H; [destruct H as (? & ? & ?); split_and!; congruence|].
    intros _. apply keeps_bind; [apply keeps_in_parent|auto with vfs_keeps].
Qed.

Lemma keeps_create path mode : keeps (create path mode).
Proof. unfold create. apply keeps_bind; [apply keeps_mkdir_p_loop|auto with vfs_keeps]. Qed.

(** ** The resolution of a path *)

Definition at_world (w : W) s : vfs W := mkVfs (vt s) (mt s) (next_fsid s) w.

Definition pair_ops (ops : dyn) (r : res Z) : res (Z * dyn) := match r with Ok i => Ok (i, ops) | Err e => Err e end.

Lemma path_resolve_eq path s :
  path_resolve path s =
  match find_mount path (mt s) with
  | None => Done (Err "no mount for path", s)
  | Some (m, _) =>
      let! (r, w) := lookups (me_ops m) (root_ino m) (rel_names (drop (length (mount_point m)) path)) (fsw s) in
      Done (pair_ops (me_ops m) r, at_world w s)
  end.
Proof.
  unfold path_resolve, vbind, find_mount_or. pose proof (find_mount_spec path (mt s)) as Hm.
  destruct (find_mount path (mt s)) as [[m j]|]; cbn; [|done].
  destruct Hm as (_ & _ & (_ & _ & Hp%prefix_length) & _). unfold call. rewrite walk_from_lookups by done.
  destruct (lookups _ _ _ _) as [[[i|e] w]| |]; done.
Qed.

Lemma path_to_vnode_eq path s :
  path_to_vnode path s =
  match find_mount path (mt s) with
  | None => Done (Err "no mount for path", s)
  | Some (m, _) =>
      let! (r, w) := lookups (me_ops m) (root_ino m) (rel_names (drop (length (mount_point m)) path)) (fsw s) in
      match r with
      | Ok ino => alloc_vnode_or "vnode table full" ino (me_fs_id m) 0 (me_ops m) (at_world w s)
      | Err e => Done (Err e, at_world w s)
      end
  end.
Proof.
  unfold path_to_vnode, vbind, find_mount_or. pose proof (find_mount_spec path (mt s)) as Hm.
  destruct (find_mount path (mt s)) as [[m j]|]; cbn; [|done].
  destruct Hm as (_ & _ & (_ & _ & Hp%prefix_length) & _). unfold call. rewrite walk_from_lookups by done.
  destruct (lookups _ _ _ _) as [[[i|e] w]| |]; done.
Qed.

(** [mkdir_p] has enough fuel: any more gives the same. *)
Lemma parent_path_shorter path : path ≠ [] → path ≠ [SLASH] → (length (parent_path path) < length path ∨ parent_path path = [SLASH])%nat.
Proof.
  intros H1 H2. unfold parent_path. destruct (_ || _); [by right|]. unfold rposition.
  destruct (list_find _ _) as [[k c]|] eqn:E; cbn; [|by right]. destruct (length (trim_slash path) - 1 - k)%nat eqn:D; [by right|].
  left. rewrite length_take. assert (length (trim_slash path) <= length path)%nat; [|lia].
  unfold trim_slash. case_bool_decide; [rewrite length_take; lia|lia].
Qed.

Lemma mkdir_p_fuel n m path s : (length path < n)%nat → (length path < m)%nat → mkdir_p_loop n path s = mkdir_p_loop m path s.
Proof.
  revert m path s; induction n as [|n IH]; intros m path s Hn Hm; [lia|]. destruct m as [|m]; [lia|]. cbn [mkdir_p_loop].
  destruct (Nat.eqb_spec (length path) 0) as [|Hne]; [done|]. case_bool_decide as Hs; [done|]. cbn [orb].
  destruct (path_resolve path s) as [[[x|e] s1]| |]; cbn [cbind]; try done.
  unfold vbind. replace (mkdir_p_loop n (parent_path path) s1) with (mkdir_p_loop m (parent_path path) s1); [done|].
  destruct (parent_path_shorter path) as [Hl| ->]; [by intros ->|done|symmetry; apply IH; lia|].
  destruct n, m; try (cbn in *; lia); try done; destruct path as [|? [|? ?]]; cbn in *; try lia; done.
Qed.

End frame.
#[export] Hint Resolve keeps_ret keeps_err keeps_bind keeps_call keeps_find_mount keeps_on_vnode keeps_path_resolve keeps_in_parent keeps_create : vfs_keeps.

(** ** The vnode table *)

Definition b2z (b : bool) : Z := if b then 1 else 0.

Fixpoint used_count (l : list Vnode) : Z :=
  match l with [] => 0 | v :: l => b2z (v_used v) + used_count l end.

(** 256 slots, and [count] is how many are in use. *)
Record vt_inv (t : vnode_table) : Prop := {
  vti_length : length (vnodes t) = MAX_VNODES;
  vti_count : v_count t = used_count (vnodes t);
}.

Lemma used_count_range l : 0 ≤ used_count l ≤ Z.of_nat (length l).
Proof. induction l as [|v l IH]; cbn [used_count length]; [lia|]. destruct (v_used v); cbn; lia. Qed.

Lemma used_count_insert l i v : (i < length l)%nat →
  used_count (<[i := v]> l) = used_count l - b2z (v_used (l !!! i)) + b2z (v_used v).
Proof.
  revert i; induction l as [|x l IH]; intros [|i] Hi; cbn [length] in Hi; try lia.
  - change (<[0%nat := v]> (x :: l)) with (v :: l). change ((x :: l) !!! 0%nat) with x. cbn [used_count]. lia.
  - change (<[S i := v]> (x :: l)) with (x :: <[i := v]> l). change ((x :: l) !!! S i) with (l !!! i).
    cbn [used_count]. rewrite IH by lia. lia.
Qed.

Lemma used_count_pos l i : (i < length l)%nat → v_used (l !!! i) = true → 1 ≤ used_count l.
Proof.
  intros Hi Hu. pose proof (used_count_insert l i vnode_empty Hi) as E. rewrite Hu in E. cbn in E.
  pose proof (used_count_range (<[i := vnode_empty]> l)). lia.
Qed.

Lemma vt_new_inv : vt_inv vnode_table_new.
Proof. by split. Qed.

(** A slot is written: what [v_get] sees and the count. *)
Lemma v_get_insert t i v c j : length (vnodes t) = MAX_VNODES → (i < MAX_VNODES)%nat →
  v_get j (mkVnodeTable (<[i := v]> (vnodes t)) c) =
  if decide (j = i) then (if v_used v then Some v else None) else v_get j t.
Proof.
  intros Hl Hi. unfold v_get. cbn [vnodes]. case_decide as E.
  - subst j. rewrite list_lookup_total_insert_eq by lia. rewrite (proj2 (Nat.ltb_lt _ _)) by done. done.
  - by rewrite list_lookup_total_insert_ne by done.
Qed.

Lemma v_get_None t i : (i < MAX_VNODES)%nat → v_get i t = None ↔ v_used (vnodes t !!! i) = false.
Proof. intros Hi. unfold v_get. rewrite (proj2 (Nat.ltb_lt _ _)) by done. cbn. destruct (v_used _); naive_solver. Qed.

Lemma v_alloc_spec t ino f m o r t' : vt_inv t → v_alloc ino f m o t = (r, t') →
  vt_inv t' ∧
  match r with
  | Some i => (i < MAX_VNODES)%nat ∧ v_get i t = None ∧
      ∀ j, v_get j t' = if decide (j = i) then Some (mkVnode ino f m o true) else v_get j t
  | None => t' = t ∧ ∀ j, (j < MAX_VNODES)%nat → v_get j t ≠ None
  end.
Proof.
  intros [Hl Hc]. unfold v_alloc. destruct (first_from _ 0 MAX_VNODES) as [i|] eqn:Hf.
  - apply first_from_Some in Hf as (Hi & Hu & _). apply negb_true_iff in Hu.
    assert (Hi' : (i < MAX_VNODES)%nat) by (unfold MAX_VNODES in *; lia). intros [= <- <-]. split.
    + split; cbn [vnodes v_count]; [by rewrite length_insert|].
      rewrite used_count_insert by lia. rewrite Hu. cbn [b2z v_used].
      pose proof (used_count_range (vnodes t)). rewrite Hl in H. rewrite w64_small by (unfold MAX_VNODES in *; lia). lia.
    + split_and!; [done|by apply v_get_None|]. intros j. rewrite v_get_insert by done. done.
  - rewrite first_from_None in Hf. intros [= <- <-]. split; [done|]. split; [done|]. intros j Hj.
    rewrite v_get_None by done. specialize (Hf j ltac:(unfold MAX_VNODES in *; lia)). apply negb_false_iff in Hf. congruence.
Qed.

Lemma v_free_spec t id : vt_inv t →
  vt_inv (v_free id t).2 ∧
  ∀ j, v_get j (v_free id t).2 = if decide (j = id) then None else v_get j t.
Proof.
  intros [Hl Hc]. unfold v_free. destruct ((id <? MAX_VNODES)%nat && v_used (vnodes t !!! id)) eqn:E; cbn [fst snd].
  - apply andb_true_iff in E as [Hi%Nat.ltb_lt Hu]. split_and!.
    + split; cbn [vnodes v_count]; [by rewrite length_insert|].
      rewrite used_count_insert by lia. rewrite Hu. cbn [b2z v_used v_unuse].
      pose proof (used_count_range (vnodes t)) as R. pose proof (used_count_pos (vnodes t) id ltac:(lia) Hu).
      rewrite Hl in R. rewrite w64_small by (unfold MAX_VNODES in *; lia). lia.
    + intros j. by rewrite v_get_insert.
  - split_and!; [by split|].
    intros j. case_decide as Hj; [|done]. subst j. unfold v_get. by rewrite E.
Qed.

Lemma v_free_loop_spec n i ino t : vt_inv t → (i + n <= MAX_VNODES)%nat →
  vt_inv (v_free_loop n i ino t) ∧
  ∀ j, v_get j (v_free_loop n i ino t) =
    if decide (i <= j < i + n)%nat then (match v_get j t with Some v => if v_ino v =? ino then None else Some v | None => None end)
    else v_get j t.
Proof.
  revert i t; induction n as [|n IH]; intros i t Hinv Hn; cbn [v_free_loop].
  { split; [done|]. intros j. rewrite decide_False by lia. done. }
  set (t1 := if v_used (vnodes t !!! i) && (v_ino (vnodes t !!! i) =? ino) then _ else t).
  assert (vt_inv t1 ∧ ∀ j, v_get j t1 = if decide (j = i) then (match v_get j t with Some v => if v_ino v =? ino then None else Some v | None => None end) else v_get j t) as [H1 G1].
  { destruct Hinv as [Hl Hc]. unfold t1. destruct (v_used (vnodes t !!! i)) eqn:Hu; cbn [andb].
    - assert (Gi : v_get i t = Some (vnodes t !!! i)) by (unfold v_get; rewrite (proj2 (Nat.ltb_lt _ _)) by lia; by rewrite Hu).
      destruct (v_ino (vnodes t !!! i) =? ino) eqn:Ei.
      + split.
        * split; cbn [vnodes v_count]; [by rewrite length_insert|]. rewrite used_count_insert by lia. rewrite Hu. cbn.
          pose proof (used_count_pos (vnodes t) i ltac:(lia) Hu). lia.
        * intros j. rewrite v_get_insert by (done || lia). case_decide; [subst j|done]. by rewrite Gi, Ei.
      + split; [by split|]. intros j. case_decide; [subst j|done]. by rewrite Gi, Ei.
    - split; [by split|]. intros j. case_decide; [subst j|done].
      assert (v_get i t = None) as -> by (apply v_get_None; [lia|done]). done. }
  destruct (IH (S i) t1 H1 ltac:(lia)) as [H2 G2]. split; [done|]. intros j. rewrite G2, G1.
  destruct (decide (j = i)) as [->|]; [by rewrite decide_False, decide_True by lia|].
  destruct (decide (S i <= j < S i + n)%nat); [by rewrite decide_True by lia|by rewrite decide_False by lia].
Qed.
