(* ===== verification/VfsNames.v ===== *)
(** * What the vnode layer needs of a file system

    [DirOps] is the contract between the vnode layer and the file system under
    it: what creating and writing do, as seen through lookups and reads.  The
    theorem of this file is proved against it: creating a file under a
    directory that exists makes its path resolve to the new inode.  Paths are
    printed lists of names, as [normalize_path] returns them. *)

From S2P Require Import Prelude VfsTypes Path PathClaims Vfs VfsSpec.
From Stdlib Require Import Lia ZArith.
From stdpp Require Import base numbers strings list.
Local Open Scope Z_scope.

Class DirOps {W : Type} (o : vnode_ops W) := {
  fs_inv : W → Prop;
  fs_live : W → Z → Prop;
  fs_name : list Z → Prop;
  fs_lookup_pure : ∀ p n w r w', o_lookup o p n w = Done (r, w') → w' = w;
  fs_create : ∀ w p n m e, fs_inv w → fs_live w p → fs_name n → o_lookup o p n w = Done (Err e, w) →
    ∃ r w', o_create o p n m w = Done (r, w') ∧ fs_inv w' ∧
      ∀ ino, r = Ok ino → fs_live w' ino ∧ o_lookup o p n w' = Done (Ok ino, w') ∧
        ∀ q n' j, fs_name n' → o_lookup o q n' w = Done (Ok j, w) → o_lookup o q n' w' = Done (Ok j, w');
  fs_write_read : ∀ w ino off buf, fs_inv w → fs_live w ino → 0 ≤ off → off + Z.of_nat (length buf) < 2 ^ 64 →
    ∃ r w', o_write o ino off buf w = Done (r, w') ∧ fs_inv w' ∧
      ∀ n, r = Ok n → n = Z.of_nat (length buf) ∧ o_read o ino off (length buf) w' = Done (Ok buf, w');
}.

(** ** Printed paths *)

Definition tight (n : list Z) : Prop := plain n ∧ Forall (λ c, is_space c = false) n.

Lemma rposition_split (P : Z → bool) (a : list Z) (c : Z) (b : list Z) :
  P c = true → Forall (λ c, P c = false) b → rposition P (a ++ c :: b) = Some (length a).
Proof.
  intros Hc Hb. unfold rposition.
  assert (list_find (λ c, P c = true) (reverse (a ++ c :: b)) = Some (length b, c)) as ->.
  { apply list_find_Some. rewrite reverse_app, reverse_cons, <- app_assoc. split_and!; [|done|].
    - rewrite lookup_app_r by (rewrite length_reverse; lia). by rewrite length_reverse, Nat.sub_diag.
    - intros j y Hy Hj. rewrite lookup_app_l in Hy by (rewrite length_reverse; lia).
      apply list_elem_of_lookup_2, elem_of_reverse in Hy. rewrite reverse_involutive in Hy. rewrite Forall_forall in Hb. specialize (Hb _ Hy). cbv beta in *. congruence. }
  cbn. rewrite length_app. cbn. f_equal. lia.
Qed.

Lemma trim_slash_word (a n : list Z) : n ≠ [] → Forall (λ c, is_slash c = false) n → trim_slash (a ++ n) = a ++ n.
Proof.
  intros Hn Hs. unfold trim_slash. rewrite bool_decide_eq_false_2; [done|].
  destruct n as [|x n _] using rev_ind; [done|]. rewrite app_assoc, last_snoc. intros [= ->].
  apply Forall_app in Hs as [_ Hs]. rewrite Forall_singleton in Hs. done.
Qed.

Lemma not_root (a n : list Z) : n ≠ [] → ((length (a ++ SLASH :: n) =? 0)%nat || bool_decide (a ++ SLASH :: n = [SLASH])) = false.
Proof.
  intros Hn. apply orb_false_iff. split; [apply Nat.eqb_neq; rewrite length_app; cbn; lia|].
  apply bool_decide_eq_false_2. intros E. apply (f_equal length) in E. rewrite length_app in E. cbn in E. destruct n; [done|cbn in E; lia].
Qed.

Lemma file_name_word (a n : list Z) : n ≠ [] → Forall (λ c, is_slash c = false) n → file_name (a ++ SLASH :: n) = n.
Proof.
  intros Hn Hs. unfold file_name. rewrite not_root by done.
  assert (trim_slash (a ++ SLASH :: n) = a ++ SLASH :: n) as -> .
  { change (SLASH :: n) with ([SLASH] ++ n). rewrite app_assoc. by apply trim_slash_word. }
  rewrite rposition_split by done. replace (S (length a)) with (length (a ++ [SLASH])) by (rewrite length_app; cbn; lia).
  change (SLASH :: n) with ([SLASH] ++ n). by rewrite app_assoc, drop_app_length.
Qed.

Lemma parent_path_word (a n : list Z) : n ≠ [] → Forall (λ c, is_slash c = false) n →
  parent_path (a ++ SLASH :: n) = match a with [] => [SLASH] | _ => a end.
Proof.
  intros Hn Hs. unfold parent_path. rewrite not_root by done.
  assert (trim_slash (a ++ SLASH :: n) = a ++ SLASH :: n) as -> .
  { change (SLASH :: n) with ([SLASH] ++ n). rewrite app_assoc. by apply trim_slash_word. }
  rewrite rposition_split by done. destruct a as [|x a]; [done|]. cbn [length]. by rewrite (take_app_length (x :: a)).
Qed.

Lemma slashed_snoc (ns : list (list Z)) (n : list Z) : slashed (ns ++ [n]) = slashed ns ++ SLASH :: n.
Proof. rewrite slashed_app, slashed_cons. change (slashed []) with (@nil Z). by rewrite app_nil_r. Qed.

Lemma parent_render (ns : list (list Z)) (n : list Z) : plain n → parent_path (slashed (ns ++ [n])) = render ns.
Proof.
  intros (Hn & Hs & _). rewrite slashed_snoc, parent_path_word by done. destruct ns as [|x ns]; [done|].
  rewrite slashed_cons. done.
Qed.

Lemma file_render (ns : list (list Z)) (n : list Z) : plain n → file_name (slashed (ns ++ [n])) = n.
Proof. intros (Hn & Hs & _). rewrite slashed_snoc. by apply file_name_word. Qed.

(** ** What is looked up below the root *)

Lemma position_head (P : Z → bool) (c : Z) (l : list Z) : P c = true → position P (c :: l) = Some 0%nat.
Proof. intros H. unfold position. cbn. by rewrite decide_True. Qed.

Lemma trim_none (l : list Z) : Forall (λ c, is_space c = false) l → trim_ascii l = l.
Proof.
  intros Hl. destruct l as [|c l]; [done|]. unfold trim_ascii.
  rewrite position_head by (apply Forall_cons in Hl as [-> _]; done). cbn [default].
  assert (rposition (λ c, negb (is_space c)) (c :: l) = Some (length l)) as ->.
  { destruct (exists_last (l := c :: l)) as (a & x & E); [done|]. rewrite E in Hl |- *.
    apply Forall_app in Hl as [_ Hx]. rewrite Forall_singleton in Hx.
    rewrite (rposition_split _ a x []) by (rewrite ?Hx; done || apply Forall_nil_2).
    apply (f_equal length) in E. rewrite length_app in E. cbn in E. f_equal. lia. }
  rewrite Nat.sub_0_r. cbn [drop]. by rewrite take_ge by (cbn; lia).
Qed.

Lemma slashed_tight (ns : list (list Z)) : Forall tight ns → Forall (λ c, is_space c = false) (slashed ns).
Proof.
  induction 1 as [|n ns [_ Hn] _ IH]; [apply Forall_nil_2|]. rewrite slashed_cons.
  apply Forall_cons; split; [done|]. by apply Forall_app.
Qed.

Lemma names_drop_slash (l : list Z) : names (SLASH :: l) = names l.
Proof. done. Qed.

Lemma rel_names_root (ns : list (list Z)) : Forall tight ns → rel_names (drop 1 (render ns)) = ns.
Proof.
  intros Ht. destruct ns as [|n ns]; [done|]. change (render (n :: ns)) with (slashed (n :: ns)).
  pose proof (slashed_tight _ Ht) as Hs.
  assert (Hp : Forall plain (n :: ns)) by (eapply Forall_impl; [exact Ht|by intros ? [? _]]).
  pose proof (names_slashed _ Hp) as E. rewrite slashed_cons in Hs, E |- *. cbn [drop].
  apply Forall_cons in Hs as [_ Hs]. unfold rel_names. rewrite bool_decide_eq_false_2.
  - rewrite trim_none by done. by rewrite names_drop_slash in E.
  - apply Forall_cons in Hp as [(Hn & _ & Hd & _) _]. intros X. destruct n as [|c n]; [done|]. cbn in X.
    injection X as -> X. apply app_nil in X as [-> _]. done.
Qed.

(** ** Creating a file *)

Section create.
Context {W : Type} `{!FsOps W} (d : dyn) `{!DirOps (ops_of d : vnode_ops W)}.
Implicit Types s : vfs W.

Lemma lookups_pure ns ino w r w' : lookups d ino ns w = Done (r, w') → w' = w.
Proof.
  revert ino w; induction ns as [|n ns IH]; intros ino w; cbn [lookups]; [by intros [= <- <-]|].
  destruct (o_lookup (ops_of d) ino n w) as [[r1 w1]| |] eqn:E; cbn [cbind]; try done.
  apply fs_lookup_pure in E as ->. destruct r1 as [next|e]; [apply IH|by intros [= <- <-]].
Qed.

Lemma lookups_snoc ns n ino w :
  lookups d ino (ns ++ [n]) w =
  let! (r, w) := lookups d ino ns w in
  match r with
  | Ok p => let! (r, w) := o_lookup (ops_of d) p n w in Done (r, w)
  | Err e => Done (Err e, w)
  end.
Proof.
  revert ino w; induction ns as [|x ns IH]; intros ino w; cbn [lookups app cbind].
  - destruct (o_lookup (ops_of d) ino n w) as [[[next|e] w1]| |]; done.
  - destruct (o_lookup (ops_of d) ino x w) as [[[next|e] w1]| |]; cbn [cbind]; [apply IH|done..].
Qed.

(** Successful walks survive what keeps successful lookups. *)
Lemma lookups_mono ns ino w w' j :
  (∀ q n j, fs_name n → o_lookup (ops_of d) q n w = Done (Ok j, w) → o_lookup (ops_of d) q n w' = Done (Ok j, w')) →
  Forall fs_name ns → lookups d ino ns w = Done (Ok j, w) → lookups d ino ns w' = Done (Ok j, w').
Proof.
  intros Hm. revert ino; induction ns as [|n ns IH]; intros ino Hn; cbn [lookups]; [by intros [= <-]|].
  apply Forall_cons in Hn as [Hn Hns].
  destruct (o_lookup (ops_of d) ino n w) as [[[next|e] w1]| |] eqn:E; cbn [cbind]; try done.
  pose proof (fs_lookup_pure _ _ _ _ _ E) as ->. rewrite (Hm _ _ _ Hn E). cbn [cbind]. by apply IH.
Qed.

(** The root mount serves a printed path. *)
Definition at_root (ns : list (list Z)) s (m : MountEntry) : Prop :=
  (∃ j, find_mount (render ns) (mt s) = Some (m, j)) ∧ mount_point m = [SLASH] ∧ me_ops m = d.

Lemma path_resolve_root ns s m : Forall tight ns → at_root ns s m →
  path_resolve (render ns) s =
  let! (r, w) := lookups d (root_ino m) ns (fsw s) in Done (pair_ops d r, at_world w s).
Proof.
  intros Ht ((j & Hm) & Hp & Ho). rewrite path_resolve_eq, Hm, Hp, Ho. change (length [SLASH]) with 1%nat.
  by rewrite rel_names_root.
Qed.

Lemma at_world_same s : at_world (fsw s) s = s.
Proof. by destruct s. Qed.

Lemma mkdir_p_exists path x s : path_resolve path s = Done (Ok x, s) → mkdir_p path s = Done (Ok tt, s).
Proof. intros E. unfold mkdir_p. cbn [mkdir_p_loop]. destruct (_ || _); [done|]. by rewrite E. Qed.

(** A file is created under a directory that exists, where its name leads
    nowhere: on success its path resolves to the new inode. *)
Lemma create_resolves_spec ns n mode s m pino e :
  Forall tight (ns ++ [n]) → Forall fs_name (ns ++ [n]) → at_root ns s m → at_root (ns ++ [n]) s m →
  fs_inv (fsw s) → path_resolve (render ns) s = Done (Ok (pino, d), s) → fs_live (fsw s) pino →
  path_resolve (slashed (ns ++ [n])) s = Done (Err e, s) →
  ∃ r w, create (slashed (ns ++ [n])) mode s = Done (r, at_world w s) ∧ fs_inv w ∧
    ∀ ino, r = Ok ino → fs_live w ino ∧
      path_resolve (slashed (ns ++ [n])) (at_world w s) = Done (Ok (ino, d), at_world w s).
Proof.
  intros Ht Hn Hr1 Hr2 Hinv Hp Hlive Hno.
  pose proof Ht as [Ht1 [[Hpl _] _]%Forall_cons]%Forall_app. pose proof Hn as [Hn1 [Hnn _]%Forall_cons]%Forall_app.
  assert (Hren : render (ns ++ [n]) = slashed (ns ++ [n])) by (destruct ns; done).
  rewrite <- Hren in *.
  assert (Hw : lookups d (root_ino m) ns (fsw s) = Done (Ok pino, fsw s)).
  { pose proof Hp as Hp'. rewrite (path_resolve_root ns s m Ht1 Hr1) in Hp'.
    destruct (lookups d (root_ino m) ns (fsw s)) as [[[i|?] w]| |] eqn:E; cbn in Hp'; try done.
    pose proof (lookups_pure _ _ _ _ _ E) as ->. by injection Hp' as ->. }
  assert (Hlk : o_lookup (ops_of d) pino n (fsw s) = Done (Err e, fsw s)).
  { rewrite (path_resolve_root (ns ++ [n]) s m Ht Hr2), lookups_snoc, Hw in Hno. cbn [cbind] in Hno.
    destruct (o_lookup (ops_of d) pino n (fsw s)) as [[[i|?] w]| |] eqn:E; cbn in Hno; try done.
    pose proof (fs_lookup_pure _ _ _ _ _ E) as ->. by injection Hno as ->. }
  destruct (fs_create _ _ n mode e Hinv Hlive Hnn Hlk) as (r & w & Hc & Hinv' & Hok).
  exists r, w. split_and!; [|done|].
  - unfold create, vbind. rewrite Hren, parent_render by done. rewrite (mkdir_p_exists _ _ _ Hp). cbn [cbind].
    unfold in_parent, vbind. rewrite parent_render, file_render by done. rewrite Hp. cbn [cbind].
    unfold call. rewrite Hc. done.
  - intros ino ->. destruct (Hok ino eq_refl) as (Hl & Hnew & Hkeep). split; [done|].
    rewrite (path_resolve_root (ns ++ [n]) (at_world w s) m Ht Hr2). cbn [fsw at_world].
    rewrite lookups_snoc, (lookups_mono ns _ _ _ _ Hkeep Hn1 Hw). cbn [cbind]. rewrite Hnew. done.
Qed.

End create.
