(* ===== verification/Procfs.v ===== *)
(** * The process file system: [src/vfs_core/procfs.rs]

    Read-only files whose text is made at each read from the clock, the page
    allocator and the task table; what it reads of them is the class
    [ProcView].  Inodes below 5 are the root and three files; a directory, a
    [stat] and a [cmdline] file per pid are three ranges of inode numbers. *)

From S2P Require Import Prelude VfsTypes Path Vfs.
From Stdlib Require Ascii String.
From stdpp Require Import base numbers strings list.
Local Open Scope Z_scope.

Definition PROC_ROOT_INO : Z := 1.
Definition PROC_UPTIME : Z := 2.
Definition PROC_MEMINFO : Z := 3.
Definition PROC_VERSION : Z := 4.
Definition PID_DIR_INO : Z := 0x100000.
Definition PID_STAT_INO : Z := 0x200000.
Definition PID_CMDLINE_INO : Z := 0x300000.

Definition pid_dir_ino (pid : Z) : Z := w64 (PID_DIR_INO + pid).
Definition pid_stat_ino (pid : Z) : Z := w64 (PID_STAT_INO + pid).
Definition pid_cmdline_ino (pid : Z) : Z := w64 (PID_CMDLINE_INO + pid).

(** What the files show: [pit::TICKS], the allocator's [total_pages] and
    [free_page_count], and per task id whether the task is live (not empty,
    exited or a zombie) and its [comm]. *)
Class ProcView (W : Type) := {
  ticks : W → Z;
  total_pages : W → Z;
  free_page_count : W → Z;
  task_by_id : Z → W → option (bool * list Z);
}.

Definition MAX_PIDS : nat := 64.

Definition bytes_of (s : string) : list Z := (λ c, Z.of_N (Ascii.N_of_ascii c)) <$> String.list_ascii_of_string s.

(** ** Decimal numbers *)

(** [while s > 0 { digits[d] = b'0' + s % 10; s /= 10; d += 1 }] *)
Fixpoint digits_loop (fuel : nat) (v : Z) : list Z :=
  match fuel with
  | O => []
  | S f => if 0 <? v then (48 + v mod 10) :: digits_loop f (v / 10) else []
  end.

(** 20 digits are enough for 64 bits; the text is in reverse. *)
Definition digits (v : Z) : list Z := digits_loop 20 v.
Definition decimal (v : Z) : list Z := reverse (digits v).

Definition is_digit (c : Z) : bool := (48 <=? c) && (c <=? 57).

Definition parse_pid (l : list Z) : Z := foldl (λ pid c, w64 (w64 (pid * 10) + (c - 48))) 0 l.

(** ** The texts

    A text is cut at the end of the caller's buffer. *)

Section procfs.
Context {W : Type} `{!ProcView W}.

Definition pid_comm (pid : Z) (w : W) : list Z :=
  match task_by_id pid w with Some (_, c) => c | None => bytes_of "unknown         " end.

(** [for c in comm { if c == 0 { break } .. }] *)
Definition until_nul (l : list Z) : list Z := match position (λ c, c =? 0) l with Some k => take k l | None => l end.

Definition uptime_text (w : W) : list Z :=
  let secs := ticks w / 100 in
  let frac := ticks w mod 100 in
  (if secs =? 0 then [48] else decimal secs) ++ [46] ++ [48 + w8 (frac / 10); 48 + w8 (frac mod 10)] ++ bytes_of " secs" ++ [10].

Definition put_line (tag : string) (v : Z) : list Z :=
  let t := bytes_of tag in
  t ++ replicate (Nat.min (16 - length t) 8) 32 ++ (if v =? 0 then [48] else decimal v) ++ bytes_of " kB" ++ [10].

Definition meminfo_text (w : W) : list Z :=
  put_line "MemTotal:" (w64 (total_pages w * 4)) ++ put_line "MemFree:" (w64 (free_page_count w * 4)) ++
  put_line "MemAvailable:" (w64 (free_page_count w * 4)).

Definition version_text : list Z := bytes_of "Rynex 0.0.1-alpha" ++ [10].

Definition stat_text (pid : Z) (w : W) : list Z :=
  decimal pid ++ bytes_of " (" ++ until_nul (pid_comm pid w) ++
  bytes_of ") S 1 1 1 0 -1 4202496 0 0 0 0 0 0 0 0 20 0 1 0 1 0 0 0 0 0 0 0 0 0 0 0 0 0 0 0 0 0 0 0 0 0 0 0 0 0 0 0 0" ++ [10].

Definition cmdline_text (pid : Z) (w : W) : list Z := until_nul (pid_comm pid w) ++ [0].

(** The whole text of a file. *)
Definition file_text (ino : Z) (w : W) : option (list Z) :=
  if ino =? PROC_UPTIME then Some (uptime_text w)
  else if ino =? PROC_MEMINFO then Some (meminfo_text w)
  else if ino =? PROC_VERSION then Some version_text
  else if PID_CMDLINE_INO <=? ino then Some (cmdline_text (ino - PID_CMDLINE_INO) w)
  else if PID_STAT_INO <=? ino then Some (stat_text (ino - PID_STAT_INO) w)
  else None.

(** ** Operations *)

(** The text is put at the start of the buffer, cut to its length, and then
    moved down by [offset]. *)
Definition read (ino offset : Z) (room : nat) (w : W) : comp (res (list Z) * W) :=
  match file_text ino w with
  | None => Done (Err "not found", w)
  | Some text =>
      let content := take room text in
      let content_len := Z.of_nat (length content) in
      if content_len <=? offset then Done (Ok [], w)
      else
        let e := Z.min content_len (offset + Z.of_nat room) in
        Done (Ok (take (Z.to_nat (e - offset)) (drop (Z.to_nat offset) content)), w)
  end.

Definition lookup (parent_ino : Z) (name : list Z) (w : W) : comp (res Z * W) :=
  if parent_ino =? PROC_ROOT_INO then
    if bool_decide (name = bytes_of "uptime") then Done (Ok PROC_UPTIME, w)
    else if bool_decide (name = bytes_of "meminfo") then Done (Ok PROC_MEMINFO, w)
    else if bool_decide (name = bytes_of "version") then Done (Ok PROC_VERSION, w)
    else if negb (length name =? 0)%nat && forallb is_digit name then Done (Ok (pid_dir_ino (parse_pid name)), w)
    else Done (Err "not found", w)
  else if PID_DIR_INO <=? parent_ino then
    let pid := parent_ino - PID_DIR_INO in
    if bool_decide (name = bytes_of "stat") then Done (Ok (pid_stat_ino pid), w)
    else if bool_decide (name = bytes_of "cmdline") then Done (Ok (pid_cmdline_ino pid), w)
    else Done (Err "not found", w)
  else Done (Err "not found", w).

(** Every live task id, at most [room] of them. *)
Definition live_pids (room : nat) (w : W) : list Z :=
  take room (filter (λ id, fst <$> task_by_id id w = Some true) (Z.of_nat <$> seq 1 MAX_PIDS)).

Definition root_files : list Dirent :=
  [mkDirent PROC_UPTIME 0 (bytes_of "uptime") 1; mkDirent PROC_MEMINFO 0 (bytes_of "meminfo") 1;
   mkDirent PROC_VERSION 0 (bytes_of "version") 1].

Definition pid_dirent (pid : Z) : Dirent := mkDirent (pid_dir_ino pid) 0 (decimal pid) 2.

(** The entries from [offset] on, while there is room. *)
Definition window (offset : Z) (room : nat) (ds : list Dirent) : list Dirent := take room (drop (Z.to_nat offset) ds).

Definition readdir (dir_ino offset : Z) (room : nat) (w : W) : comp (res (list Dirent) * W) :=
  if dir_ino =? PROC_ROOT_INO then Done (Ok (window offset room (root_files ++ (pid_dirent <$> live_pids MAX_PIDS w))), w)
  else if PID_DIR_INO <=? dir_ino then
    let pid := dir_ino - PID_DIR_INO in
    Done (Ok (window offset room [mkDirent (pid_stat_ino pid) 0 (bytes_of "stat") 0;
                                  mkDirent (pid_cmdline_ino pid) 0 (bytes_of "cmdline") 0]), w)
  else Done (Err "not a directory", w).

Definition stat (ino : Z) (w : W) : comp (res Stat * W) :=
  let mode :=
    if ino =? PROC_ROOT_INO then Z.lor S_IFDIR 0x16D
    else if (PID_DIR_INO <=? ino) && (ino <? PID_STAT_INO) then Z.lor S_IFDIR 0x16D
    else Z.lor S_IFREG 0x124 in
  Done (Ok (mkStat 0 ino mode 1 0 0 0 0 4096 0 0 0 0), w).

(** [impl VnodeOps for ProcFs] *)
Definition ProcFs : vnode_ops W :=
  mkVnodeOps read (λ _ _ _ w, Done (Err "read-only", w)) lookup readdir
    (λ _ _ _ w, Done (Err "read-only", w)) (λ _ _ _ w, Done (Err "read-only", w))
    (λ _ _ w, Done (Err "read-only", w)) (λ _ _ w, Done (Err "read-only", w)) stat
    (λ _ w, Done (Err "not a symlink", w)) (λ _ _ _ w, Done (Err "read-only", w)) (λ _ _ _ _ w, Done (Err "read-only", w, []))
    (λ _ _ w, Done (Ok tt, w)) (λ _ _ _ w, Done (Err "not supported", w)) (λ _ _ _ w, Done (Err "read-only", w))
    (λ _ _ w, Done (Err "not supported", w)) (λ _ _ w, Done (Err "read-only", w)) (λ _ _ _ w, Done (Err "not supported", w)).

End procfs.
