(* ===== verification/Userfs.v ===== *)
(** * The user-space file system bridge: [src/vfs_core/userfs.rs]

    Every operation packs its arguments into a request of at most 4064 bytes,
    calls the registered service over IPC and reads the result from the first
    eight bytes of the answer.  The call is the class [FsService]: the service
    is a user program, so nothing is known of what it answers. *)

From S2P Require Import Prelude Bytes VfsTypes Path Vfs.
From stdpp Require Import base numbers strings list.
Local Open Scope Z_scope.

Definition OP_READ : Z := 1.
Definition OP_WRITE : Z := 2.
Definition OP_LOOKUP : Z := 3.
Definition OP_READDIR : Z := 4.
Definition OP_CREATE : Z := 5.
Definition OP_MKDIR : Z := 6.
Definition OP_REMOVE : Z := 7.
Definition OP_RMDIR : Z := 8.
Definition OP_STAT : Z := 9.
Definition OP_READLINK : Z := 10.
Definition OP_SYMLINK : Z := 11.
Definition OP_RENAME : Z := 12.
Definition OP_SETATTR : Z := 13.
Definition OP_TRUNCATE : Z := 14.

Definition MAX_REQ : nat := 4064.
Definition ENODEV : Z := 19.
Definition EINVAL : Z := 22.

(** The registered port, and [ipc_call_internal] on a port with a request: the
    length it returns, or an error, and the bytes it leaves in a zeroed buffer
    of [MAX_REQ] bytes. *)
Class FsService (W : Type) := {
  service_port : W → Z;
  ipc_call_internal : Z → list Z → W → Z * list Z * W;
}.

(** The request: five little-endian words, the name and the payload. *)
Definition request (op ino offset len flags : Z) (name payload : list Z) : list Z :=
  le_bytes 8 op ++ le_bytes 8 ino ++ le_bytes 8 offset ++ le_bytes 8 len ++ le_bytes 8 flags ++ name ++ payload.

(** What an unsigned word is as [i64]. *)
Definition i64_of_le (bs : list Z) : Z := as_i64 (le_value bs).

Section userfs.
Context {W : Type} `{!FsService W}.

(** [Ok] with the result and the whole answer buffer, or [Err] with the code. *)
Definition do_call (op ino offset len flags : Z) (name payload : list Z) (w : W) : (Z * list Z + Z) * W :=
  if service_port w =? 0 then (inr (- ENODEV), w)
  else if (MAX_REQ <? length name + length payload + 40)%nat then (inr (- EINVAL), w)
  else
    let '(n, out, w) := ipc_call_internal (service_port w) (request op ino offset len flags name payload) w in
    if n <? 0 then (inr n, w)
    else if n <? 8 then (inr (- EINVAL), w)
    else (inl (i64_of_le (take 8 out), out), w).

(** The result of the call, an error when it is negative. *)
Definition result_or (e : string) (r : (Z * list Z + Z) * W) : res (Z * list Z) * W :=
  match r with
  | (inr _, w) => (Err e, w)
  | (inl (v, out), w) => if v <? 0 then (Err e, w) else (Ok (v, out), w)
  end.

(** Operations that only return the result. *)
Definition plain_call {T} (e : string) (f : Z → T) (r : (Z * list Z + Z) * W) : comp (res T * W) :=
  match result_or e r with (Ok (v, _), w) => Done (Ok (f v), w) | (Err e, w) => Done (Err e, w) end.

(** [&out[8..8 + n]], which panics beyond the buffer. *)
Definition payload_of (out : list Z) (n : Z) : comp (list Z) :=
  if Z.of_nat (length out) <? 8 + n then Panic else Done (take (Z.to_nat n) (drop 8 out)).

Definition read (ino offset : Z) (room : nat) (w : W) : comp (res (list Z) * W) :=
  match result_or "userfs read" (do_call OP_READ ino offset (Z.of_nat room) 0 [] [] w) with
  | (Err e, w) => Done (Err e, w)
  | (Ok (n, out), w) =>
      if Z.of_nat room <? n then Done (Err "userfs read", w)
      else let! bs := payload_of out n in Done (Ok bs, w)
  end.

Definition write (ino offset : Z) (buf : list Z) (w : W) : comp (res Z * W) :=
  plain_call "userfs write" id (do_call OP_WRITE ino offset (Z.of_nat (length buf)) 0 [] buf w).

Definition lookup (parent_ino : Z) (name : list Z) (w : W) : comp (res Z * W) :=
  plain_call "userfs lookup" id (do_call OP_LOOKUP parent_ino 0 0 0 name [] w).

(** The answer is a count; no entry is put into the caller's buffer. *)
Definition readdir_count (dir_ino offset : Z) (w : W) : comp (res Z * W) :=
  plain_call "userfs readdir" id (do_call OP_READDIR dir_ino offset 0 0 [] [] w).

Definition create (parent_ino : Z) (name : list Z) (mode : Z) (w : W) : comp (res Z * W) :=
  plain_call "userfs create" id (do_call OP_CREATE parent_ino 0 mode 0 name [] w).

Definition mkdir (parent_ino : Z) (name : list Z) (mode : Z) (w : W) : comp (res Z * W) :=
  plain_call "userfs mkdir" id (do_call OP_MKDIR parent_ino 0 mode 0 name [] w).

Definition remove (parent_ino : Z) (name : list Z) (w : W) : comp (res unit * W) :=
  plain_call "userfs remove" (λ _, tt) (do_call OP_REMOVE parent_ino 0 0 0 name [] w).

Definition rmdir (parent_ino : Z) (name : list Z) (w : W) : comp (res unit * W) :=
  plain_call "userfs rmdir" (λ _, tt) (do_call OP_RMDIR parent_ino 0 0 0 name [] w).

Definition stat (ino : Z) (w : W) : comp (res Stat * W) :=
  plain_call "userfs stat" (λ v, mkStat 0 ino 0 0 0 0 0 v 0 0 0 0 0) (do_call OP_STAT ino 0 0 0 [] [] w).

Definition readlink (ino : Z) (w : W) : comp (res (list Z) * W) :=
  match result_or "userfs readlink" (do_call OP_READLINK ino 0 0 0 [] [] w) with
  | (Err e, w) => Done (Err e, w)
  | (Ok (n, out), w) => let! bs := payload_of out n in Done (Ok bs, w)
  end.

Definition symlink (parent_ino : Z) (name target : list Z) (w : W) : comp (res Z * W) :=
  plain_call "userfs symlink" id (do_call OP_SYMLINK parent_ino 0 0 0 name target w).

(** The two names, a zero byte between them, in an array of [MAX_REQ - 48]. *)
Definition rename (old_parent : Z) (old_name : list Z) (new_parent : Z) (new_name : list Z) (w : W) : comp (res unit * W * list Z) :=
  let payload := old_name ++ [0] ++ new_name in
  if (MAX_REQ - 48 <? length payload)%nat then Panic
  else
    let! (r, w) := plain_call "userfs rename" (λ _, tt) (do_call OP_RENAME old_parent new_parent 0 0 payload [] w) in
    Done (r, w, []).

Definition setattr (ino : Z) (_ : Attr) (w : W) : comp (res unit * W) :=
  plain_call "userfs setattr" (λ _, tt) (do_call OP_SETATTR ino 0 0 0 [] [] w).

Definition truncate (ino size : Z) (w : W) : comp (res unit * W) :=
  plain_call "userfs truncate" (λ _, tt) (do_call OP_TRUNCATE ino size 0 0 [] [] w).

(** [impl VnodeOps for UserFs].  The entries of [readdir] are those that were
    in the caller's buffer; they are taken as empty here. *)
Definition UserFs : vnode_ops W :=
  mkVnodeOps read write lookup
    (λ ino off room w,
       let! (r, w) := readdir_count ino off w in
       match r with Ok n => Done (Ok (replicate (Z.to_nat n) (mkDirent 0 0 [] 0)), w) | Err e => Done (Err e, w) end)
    create mkdir remove rmdir stat readlink symlink rename setattr
    (λ _ _ _ w, Done (Err "userfs getxattr", w)) (λ _ _ _ w, Done (Err "userfs setxattr", w))
    (λ _ _ w, Done (Err "userfs listxattr", w)) truncate (λ _ _ _ w, Done (Err "userfs ioctl", w)).

End userfs.
