(* ===== verification/VfsRamfs.v ===== *)
(** * The file systems of the kernel under the vnode layer

    [RamFs] is [impl VnodeOps for RamFs] of [src/vfs_core/ramfs.rs]; the state
    of the file systems is that of the RAM file system, read by the process
    file system and the bridge through their classes.  The RAM file system
    meets the contract [DirOps]. *)

From S2P Require Import Prelude VfsTypes PageAlloc Ramfs RamfsInv RamfsClaims.
From S2P Require Import Path Vfs VfsSpec VfsNames Procfs Userfs.
From Stdlib Require Import Lia ZArith.
From stdpp Require Import base gmap numbers strings list.
Local Open Scope Z_scope.

Section kernel_fs.
Context {A : Type} `{!PageAllocator A}.
Implicit Types s : ramfs A.

(** An operation that only reads. *)
Definition pure_op {T} (f : ramfs A → comp (res T)) (s : ramfs A) : comp (res T * ramfs A) :=
  let! r := f s in Done (r, s).

(** The inodes whose vnodes were freed between two states. *)
Definition dropped_since (s s' : ramfs A) : list Z := reverse (take (length (dropped s') - length (dropped s)) (dropped s')).

Definition RamFs : vnode_ops (ramfs A) :=
  mkVnodeOps
    (λ ino off room, pure_op (λ s, Ramfs.read s ino off (Z.of_nat room)))
    (λ ino off buf s, Ramfs.write ino off buf s)
    (λ p n, pure_op (λ s, Ramfs.lookup s p n))
    (λ ino off room, pure_op (λ s, Ramfs.readdir s ino off room))
    (λ p n m s, Ramfs.create p n m s) (λ p n m s, Ramfs.mkdir p n m s)
    (λ p n s, Ramfs.remove p n s) (λ p n s, Ramfs.rmdir p n s)
    (λ ino, pure_op (λ s, Done (Ramfs.stat s ino)))
    (λ ino, pure_op (λ s, Ramfs.readlink s ino))
    (λ p n t s, Ramfs.symlink p n t s)
    (λ op on np nn s, let! (r, s') := Ramfs.rename op on np nn s in Done (r, s', dropped_since s s'))
    (λ ino a s, Done (Ramfs.setattr ino (at_mode a) (at_uid a) (at_gid a) s))
    (λ ino n room, pure_op (λ s, Ramfs.getxattr s ino n room))
    (λ ino n v s, Ramfs.setxattr ino n v s)
    (λ ino room, pure_op (λ s, Done (Ramfs.listxattr s ino room)))
    (λ ino size s, Ramfs.truncate ino size s)
    (λ ino req arg, pure_op (λ s, Done (Ramfs.ioctl s ino req arg))).

(** The trait objects of the kernel; the devices are given. *)
Definition kernel_ops `{!ProcView (ramfs A)} `{!FsService (ramfs A)} (dev : nat → vnode_ops (ramfs A)) : FsOps (ramfs A) :=
  λ d, match d with
       | NOP_VNODE => NopVnode
       | RAMFS => RamFs
       | PROCFS => ProcFs
       | Vfs.UserFs => Userfs.UserFs
       | Device n => dev n
       end.

(** ** The contract *)

(** A directory that looks the same answers the same. *)
Lemma lookup_same s s' q n : i_used (inode s' q) = i_used (inode s q) → inode s' q = inode s q → Ramfs.lookup s' q n = Ramfs.lookup s q n.
Proof. intros Hu H. unfold Ramfs.lookup, get_ino. by rewrite H. Qed.

Lemma inode_neg s q : q < 0 → inode s q = inode s 0.
Proof. intros. unfold inode. by replace (Z.to_nat q) with 0%nat by lia. Qed.

Lemma lookup_neg s q n : q < 0 → n ≠ slash → Ramfs.lookup s q n = Ramfs.lookup s 0 n.
Proof.
  intros Hq Hn. unfold Ramfs.lookup, get_ino. rewrite !inode_neg by done. rewrite (bool_decide_false (n = slash)), !andb_false_r by done.
  by rewrite (proj2 (Z.ltb_lt _ _)) by (unfold MAX_INODES; lia).
Qed.

Lemma lookup_found_used s q n j : 0 ≤ q → n ≠ slash → Ramfs.lookup s q n = Done (Ok j) → valid s q.
Proof.
  intros Hq Hn. unfold Ramfs.lookup. rewrite (bool_decide_false (n = slash)), andb_false_r by done.
  destruct (get_ino s q) eqn:E; [|done]. intros _. by apply get_ino_valid.
Qed.

Definition ram_inv (s : ramfs A) : Prop := ∃ lost, ramfs_inv s lost.
Definition ram_name (n : list Z) : Prop := (length n ≤ MAX_NAME)%nat ∧ n ≠ slash.

Lemma ram_lookup_pure p n s r s' : o_lookup RamFs p n s = Done (r, s') → s' = s.
Proof. cbn. unfold pure_op. destruct (Ramfs.lookup s p n); cbn; try done. by intros [= _ <-]. Qed.

Lemma ram_lookup_iff p n s r : o_lookup RamFs p n s = Done (r, s) ↔ Ramfs.lookup s p n = Done r.
Proof. cbn. unfold pure_op. destruct (Ramfs.lookup s p n); cbn; naive_solver. Qed.

Lemma ram_create s p n m e : ram_inv s → valid s p → ram_name n → o_lookup RamFs p n s = Done (Err e, s) →
  ∃ r s', o_create RamFs p n m s = Done (r, s') ∧ ram_inv s' ∧
    ∀ ino, r = Ok ino → valid s' ino ∧ o_lookup RamFs p n s' = Done (Ok ino, s') ∧
      ∀ q n' j, ram_name n' → o_lookup RamFs q n' s = Done (Ok j, s) → o_lookup RamFs q n' s' = Done (Ok j, s').
Proof.
  intros (lost & Hinv) Hv (Hl & Hs) Hno%ram_lookup_iff.
  destruct (create_spec s lost p n m Hinv Hv Hl Hs) as (r & s' & Hc & Hinv' & _ & Hfr & Hr).
  exists r, s'. split_and!; [done|done|]. intros ino ->. destruct Hr as (Hfree & Hv' & _ & Hoth & Hnew).
  assert (e = "ramfs: not found") as ->.
  { rewrite (lookup_dir s lost), (bool_decide_false (n = slash)), andb_false_r in Hno by done.
    destruct (dir (inode s p) n); [done|]. by injection Hno as <-. }
  split_and!; [done|by apply ram_lookup_iff, Hnew|].
  assert (∀ q n' j, 0 ≤ q → ram_name n' → Ramfs.lookup s q n' = Done (Ok j) → Ramfs.lookup s' q n' = Done (Ok j)) as Hpos.
  { intros q n' j Hq (Hl' & Hs') Hf. pose proof (lookup_found_used _ _ _ _ Hq Hs' Hf) as Hvq.
    destruct (decide (q = p)) as [->|Hne].
    - rewrite Hoth; [done| |done]. intros ->. congruence.
    - rewrite (lookup_same s s'); [done|by rewrite (Hfr q Hvq Hne)|by apply Hfr]. }
  intros q n' j Hn' Hf%ram_lookup_iff. apply ram_lookup_iff. destruct (Z.le_gt_cases 0 q); [by apply Hpos|].
  rewrite lookup_neg in * by (lia || by destruct Hn'). by apply Hpos.
Qed.

Lemma ram_write_read s ino off buf : ram_inv s → valid s ino → 0 ≤ off → off + Z.of_nat (length buf) < 2 ^ 64 →
  ∃ r s', o_write RamFs ino off buf s = Done (r, s') ∧ ram_inv s' ∧
    ∀ n, r = Ok n → n = Z.of_nat (length buf) ∧ o_read RamFs ino off (length buf) s' = Done (Ok buf, s').
Proof.
  intros (lost & Hinv) Hv Ho Hb. destruct (write_spec s lost ino off buf Hinv Hv Ho Hb) as (r & s' & Hw & Hinv' & _ & _ & Hr).
  exists r, s'. split_and!; [done|by exists lost|]. intros n ->. destruct (Hr n eq_refl) as (-> & _ & Hrd). split; [done|].
  cbn. unfold pure_op. by rewrite Hrd.
Qed.

#[export] Instance RamFs_dir : DirOps RamFs := {|
  fs_inv := ram_inv; fs_live := valid; fs_name := ram_name;
  fs_lookup_pure := ram_lookup_pure; fs_create := ram_create; fs_write_read := ram_write_read;
|}.

End kernel_fs.
