(* ===== verification/VfsClaims.v ===== *)
(** * The theorems about the vnode layer *)

From S2P Require Import Prelude Buddy BuddySpec BuddyPages PageAlloc Ramfs RamfsInv RamfsClaims.
From S2P Require Import VfsTypes Path PathClaims Procfs Userfs VfsRamfs Vfs VfsSpec VfsNames.
From Stdlib Require Import Lia ZArith.
From stdpp Require Import base gmap numbers strings list.
Local Open Scope Z_scope.

Section claims.
Context {W : Type} `{!FsOps W}.
Implicit Types s : vfs W.

(** C12: Resolving a path.  The mount that serves it is the longest one in use
    whose mount point the path starts with; when there is none the answer is
    [no mount for path].  Below the mount point the path is resolved by one
    lookup per name, from the root inode of the mount, each in the directory
    the one before returned, up to the first that fails; the tables do not
    change. *)
Theorem path_resolve_correct path s :
  match find_mount path (mt s) with
  | None => (∀ k, (k < MAX_MOUNTS)%nat → ¬ covers (mounts (mt s) !!! k) path) ∧
      path_resolve path s = Done (Err "no mount for path", s)
  | Some (m, j) =>
      (j < MAX_MOUNTS)%nat ∧ m = mounts (mt s) !!! j ∧ covers m path ∧
      (∀ k, (k < MAX_MOUNTS)%nat → covers (mounts (mt s) !!! k) path →
        (length (mount_point (mounts (mt s) !!! k)) <= length (mount_point m))%nat) ∧
      path_resolve path s =
        let! (r, w) := lookups (me_ops m) (root_ino m) (rel_names (drop (length (mount_point m)) path)) (fsw s) in
        Done (pair_ops (me_ops m) r, at_world w s)
  end.
Proof.
  pose proof (find_mount_spec path (mt s)) as H. rewrite path_resolve_eq.
  destruct (find_mount path (mt s)) as [[m j]|]; [|done]. destruct H as (? & ? & ? & ?). by split_and!.
Qed.

(** What a message does to the table of vnodes. *)
Definition vnodes_after (msg : VfsMessage) s (r : Z) s' : Prop :=
  let vn := Z.to_nat (w16 (extra1 msg)) in
  match op msg with
  | Open =>
      (r = -1 ∧ vt s' = vt s) ∨
      (∃ i m j ino w, r = Z.of_nat i ∧ (i < MAX_VNODES)%nat ∧ vnode_get i s = None ∧
        find_mount (Vfs.path msg) (mt s) = Some (m, j) ∧
        path_resolve (Vfs.path msg) s = Done (Ok (ino, me_ops m), at_world w s) ∧
        ∀ k, vnode_get k s' = if decide (k = i) then Some (mkVnode ino (me_fs_id m) 0 (me_ops m) true) else vnode_get k s)
  | Close => r = 0 ∧ ∀ k, vnode_get k s' = if decide (k = vn) then None else vnode_get k s
  | _ => vt s' = vt s
  end.

Lemma reply_keeps {T} (m : vfsM W T) (f : T → Z * filled) s r x s' :
  keeps m → reply m f s = Done (r, x, s') → vt s' = vt s ∧ mt s' = mt s.
Proof.
  intros Hk. unfold reply. destruct (m s) as [[[y|e] s1]| |] eqn:E; cbn [cbind]; try done.
  - destruct (f y) as [a b]. intros [= <- <- <-]. destruct (Hk _ _ _ E) as (? & ? & _). done.
  - intros [= <- <- <-]. destruct (Hk _ _ _ E) as (? & ? & _). done.
Qed.

Lemma open_vnodes p s r x s' : vt_inv (vt s) → reply (path_to_vnode p) (λ id, (Z.of_nat id, FNone)) s = Done (r, x, s') →
  vt_inv (vt s') ∧ mt s' = mt s ∧
  ((r = -1 ∧ vt s' = vt s) ∨
   (∃ i m j ino w, r = Z.of_nat i ∧ (i < MAX_VNODES)%nat ∧ vnode_get i s = None ∧
     find_mount p (mt s) = Some (m, j) ∧ path_resolve p s = Done (Ok (ino, me_ops m), at_world w s) ∧
     ∀ k, vnode_get k s' = if decide (k = i) then Some (mkVnode ino (me_fs_id m) 0 (me_ops m) true) else vnode_get k s)).
Proof.
  intros Hinv. unfold reply. rewrite path_to_vnode_eq, path_resolve_eq.
  destruct (find_mount p (mt s)) as [[m j]|]; cbn [cbind]; [|intros [= <- <- <-]; split_and!; [done|done|by left]].
  destruct (lookups _ _ _ _) as [[[ino|e] w]| |]; cbn [cbind]; try done;
    [|intros [= <- <- <-]; split_and!; [done|done|by left]].
  unfold alloc_vnode_or, with_vt. cbn [vt at_world].
  destruct (v_alloc ino (me_fs_id m) 0 (me_ops m) (vt s)) as [o t] eqn:Ea.
  destruct (v_alloc_spec _ _ _ _ _ _ _ Hinv Ea) as [Hinv' Ho]. destruct o as [i|]; cbn.
  - intros [= <- <- <-]. destruct Ho as (Hi & Hfree & Hget). split_and!; [done|done|]. right.
    exists i, m, j, ino, w. by split_and!.
  - destruct Ho as [-> _]. intros [= <- <- <-]. split_and!; [done|done|by left].
Qed.

(** C14: The vnode table stays consistent.  Whatever message is dispatched,
    the count of the table is the number of vnodes in use and no mount
    changes.  Only two messages touch the vnodes: [Open] takes a vnode that
    was free, for the inode and the file system the path resolves to, and
    leaves all others as they are, or answers -1; [Close] frees the one it
    names, so that every later message for it is refused. *)
Theorem dispatch_vnodes msg s r x s' :
  vt_inv (vt s) → dispatch msg s = Done (r, x, s') →
  vt_inv (vt s') ∧ mt s' = mt s ∧ vnodes_after msg s r s'.
Proof.
  intros Hinv. assert (Hsame : vt s' = vt s ∧ mt s' = mt s → vt_inv (vt s') ∧ mt s' = mt s ∧ vt s' = vt s).
  { intros [-> ->]. done. }
  unfold dispatch, vnodes_after. destruct (op msg);
    try (intros H; apply Hsame; eapply reply_keeps in H; [exact H|auto with vfs_keeps]; fail);
    try (intros [= <- <- <-]; done).
  - apply open_vnodes. done.
  - intros [= <- <- <-]. unfold vnode_release, with_vt. cbn.
    destruct (v_free_spec (vt s) (Z.to_nat (w16 (extra1 msg))) Hinv) as [Hi Hg].
    destruct (v_free _ (vt s)) as [b t]. by split_and!.
Qed.

(** [mkdir_p] ends: it recurs on the parent of its path, which is shorter
    until it is the root, so that one step more than the bytes of the path is
    enough; with any larger bound on the depth the result is the same. *)
Theorem mkdir_p_terminates path s n : (length path < n)%nat → mkdir_p path s = mkdir_p_loop n path s.
Proof. intros H. apply mkdir_p_fuel; [lia|done]. Qed.


End claims.

(** ** An instance: the machine of 64 pages with the RAM file system mounted
    at the root and the process file system at [/proc]; one task runs and no
    service is registered. *)

Definition init_comm : list Z := bytes_of "init" ++ replicate 12 0.
#[export] Instance view64 : ProcView (ramfs kmem) := {|
  ticks := λ _, 12345; total_pages := λ _, 64; free_page_count := λ _, 40;
  task_by_id := λ id _, if id =? 1 then Some (true, init_comm) else None;
|}.
#[export] Instance no_service : FsService (ramfs kmem) := {|
  service_port := λ _, 0; ipc_call_internal := λ _ _ w, (- ENODEV, [], w);
|}.
#[export] Instance ops64 : FsOps (ramfs kmem) := kernel_ops (λ _, NopVnode).
#[export] Instance ram64 : DirOps (ops_of RAMFS : vnode_ops (ramfs kmem)) := RamFs_dir.

Definition state_of {W T} (s : vfs W) (c : comp (res T * vfs W)) : vfs W := match c with Done (_, s') => s' | _ => s end.

Definition v64_0 : vfs (ramfs kmem) := vfs0 r64_2.
Definition v64_1 : vfs (ramfs kmem) := state_of v64_0 (mount_root v64_0).
Definition v64_2 : vfs (ramfs kmem) := state_of v64_1 (mount (bytes_of "/proc") 2 PROC_ROOT_INO PROCFS v64_1).

Lemma v64_world : fsw v64_2 = r64_2.
Proof. reflexivity. Qed.

(** A path served by the root mount, resolved in the RAM file system. *)
Lemma v64_root_mount path : fst <$> find_mount path (mt v64_2) = Some (mounts (mt v64_2) !!! 0%nat) →
  ∃ j, find_mount path (mt v64_2) = Some (mounts (mt v64_2) !!! 0%nat, j).
Proof. destruct (find_mount path (mt v64_2)) as [[m j]|]; [|done]. intros [= ->]. by exists j. Qed.

Lemma v64_lookup p n r : Ramfs.lookup r64_2 p n = Done r → o_lookup (ops_of RAMFS) p n (fsw v64_2) = Done (r, fsw v64_2).
Proof. intros H. rewrite v64_world. by apply ram_lookup_iff. Qed.

Definition g_name : list Z := [103].
Definition root64 : MountEntry := mkMountEntry [SLASH] 1 0 RAMFS 0 true.

Lemma v64_at_root ns : find_mount (render ns) (mt v64_2) = Some (root64, 0%nat) → at_root RAMFS ns v64_2 root64.
Proof. intros H. split_and!; [by exists 0%nat|done|done]. Qed.

Lemma resolve_at (s : vfs (ramfs kmem)) path ns m j r : find_mount path (mt s) = Some (m, j) →
  rel_names (drop (length (mount_point m)) path) = ns →
  lookups (me_ops m) (root_ino m) ns (fsw s) = Done (r, fsw s) → path_resolve path s = Done (pair_ops (me_ops m) r, s).
Proof. intros Hm Hn Hl. rewrite path_resolve_eq, Hm, Hn, Hl. cbn [cbind]. by rewrite at_world_same. Qed.

Lemma v64_resolve path ns r : find_mount path (mt v64_2) = Some (root64, 0%nat) → rel_names (drop 1 path) = ns →
  lookups RAMFS 0 ns (fsw v64_2) = Done (r, fsw v64_2) → path_resolve path v64_2 = Done (pair_ops RAMFS r, v64_2).
Proof. intros Hm Hn Hl. exact (resolve_at v64_2 path ns root64 0%nat r Hm Hn Hl). Qed.


Lemma dispatch_vnodes_witness :
  ∃ s', dispatch (mkVfsMessage Close [] 0 [] 0 0 0 1 0) v64_2 = Done (0, FNone, s') ∧ vnode_get 1 s' = None.
Proof.
  eexists. split; [reflexivity|].
  destruct (dispatch_vnodes (mkVfsMessage Close [] 0 [] 0 0 0 1 0) v64_2 0 FNone (vnode_release 1 v64_2)) as (_ & _ & _ & H).
  - split; vm_compute; reflexivity.
  - reflexivity.
  - exact (H 1%nat).
Defined.

Lemma mkdir_p_terminates_witness : mkdir_p (bytes_of "/proc/x") v64_2 = mkdir_p_loop 100 (bytes_of "/proc/x") v64_2.
Proof. apply mkdir_p_terminates. apply Nat.ltb_lt. reflexivity. Defined.
