(* ===== verification/Flat.v ===== *)
(** * The flat inode table: [src/vfs.rs]

    The file layer the system calls use: 256 slots, each a path name of at
    most 63 bytes bound to a vnode, or to memory for files that were loaded at
    boot.  Slots from 240 on stand for pipe ends and are never taken.  [flatM]
    threads the table, the vnode layer and that memory. *)

From S2P Require Import Prelude Bytes VfsTypes Path Vfs Procfs.
From stdpp Require Import base gmap numbers strings list.
Local Open Scope Z_scope.

Definition MAX_INODES : nat := 256.
Definition PIPE_INODE_BASE : nat := 240.
Definition NAME_ROOM : nat := 63.

Record Inode := mkInode { i_name : list Z; data_ptr : Z; i_size : Z; i_used : bool; i_vnode_id : nat }.
Definition Inode_empty : Inode := mkInode (replicate 64 0) 0 0 false 0.
#[export] Instance Inode_inhabited : Inhabited Inode := populate Inode_empty.

(** [cwd] is the working directory of the current task. *)
Record flatfs (W : Type) := mkFlat { flat : list Inode; core : vfs W; xmem : gmap Z Z; cwd : list Z; procfs_fsid : Z }.
Arguments mkFlat {W}. Arguments flat {W}. Arguments core {W}. Arguments xmem {W}. Arguments cwd {W}. Arguments procfs_fsid {W}.

Definition flatM (W T : Type) : Type := flatfs W → comp (option T * flatfs W).
Definition fret {W T} (x : option T) : flatM W T := λ s, Done (x, s).
(** [m?] on options *)
Definition fbind {W T U} (m : flatM W T) (k : T → flatM W U) : flatM W U :=
  λ s, let! (r, s) := m s in match r with Some x => k x s | None => Done (None, s) end.
Notation "'opt' x := m 'in' k" := (fbind m (λ x, k)) (at level 200, x pattern, m at level 100, k at level 200,
   format "'[v' 'opt'  x  :=  m  'in' '//' k ']'").
(** [m.or_else(k)] *)
Definition or_else {W T} (m k : flatM W T) : flatM W T :=
  λ s, let! (r, s) := m s in match r with Some x => Done (Some x, s) | None => k s end.

Definition set_inode {W} (i : nat) (f : Inode → Inode) (s : flatfs W) : flatfs W :=
  mkFlat (<[i := f (flat s !!! i)]> (flat s)) (core s) (xmem s) (cwd s) (procfs_fsid s).
Definition set_core {W} (c : vfs W) (s : flatfs W) : flatfs W := mkFlat (flat s) c (xmem s) (cwd s) (procfs_fsid s).

Definition with_vnode (v : nat) (n : Inode) : Inode := mkInode (i_name n) (data_ptr n) (i_size n) (i_used n) v.
Definition with_unused (n : Inode) : Inode := mkInode (i_name n) (data_ptr n) (i_size n) false (i_vnode_id n).
Definition with_ptr (p : Z) (n : Inode) : Inode := mkInode (i_name n) p (i_size n) (i_used n) (i_vnode_id n).
Definition with_isize (z : Z) (n : Inode) : Inode := mkInode (i_name n) (data_ptr n) z (i_used n) (i_vnode_id n).

(** A function of the vnode layer, its error dropped ([.ok()]). *)
Definition core_ok {W T} (m : vfsM W T) : flatM W T :=
  λ s, let! (r, c) := m (core s) in Done (match r with Ok x => Some x | Err _ => None end, set_core c s).

(** The name as the slot stores it: 63 bytes at most, then a zero byte. *)
Definition stored_name (name : list Z) : list Z := take NAME_ROOM name ++ replicate (64 - length (take NAME_ROOM name)) 0.

(** The comparison of [find_inode], which looks at 63 bytes at most. *)
Definition name_matches (arr norm : list Z) : bool :=
  let j := Nat.min (length norm) NAME_ROOM in
  bool_decide (take j arr = take j norm) && (j =? length norm)%nat && (arr !!! j =? 0).

(** [normalize_path] into 512 bytes; the name itself when that gives nothing. *)
Definition norm_of (cwd name : list Z) : list Z :=
  match normalize_path cwd name (replicate 512 0) with Some (c :: r) => c :: r | _ => name end.

Definition FILE_MODE : Z := foldr Z.lor 0 [S_IFREG; S_IRUSR; S_IWUSR; S_IXUSR; S_IRGRP; S_IXGRP; S_IROTH; S_IXOTH].
Definition EXTERNAL_MODE : Z := foldr Z.lor 0 [S_IFREG; S_IRUSR; S_IWUSR; S_IRGRP; S_IROTH].

Section flat.
Context {W : Type} `{!FsOps W}.
Implicit Types s : flatfs W.

Definition alloc_flat_inode (name : list Z) (size : Z) : flatM W nat :=
  λ s, match first_from (λ i, negb (i_used (flat s !!! i))) 0 PIPE_INODE_BASE with
       | Some i => Done (Some i, set_inode i (λ _, mkInode (stored_name name) 0 size true 0) s)
       | None => Done (None, s)
       end.

Definition find_inode (name : list Z) s : option nat :=
  let norm := norm_of (cwd s) name in
  first_from (λ i, i_used (flat s !!! i) && name_matches (i_name (flat s !!! i)) norm) 0 MAX_INODES.

(** Marks the slot unused and gives up. *)
Definition roll_back {T} (i : nat) : flatM W T := λ s, Done (None, set_inode i with_unused s).

(** [vnode_alloc(ino, fs_id, 0, ops)] *)
Definition flat_vnode (ino fs_id : Z) (ops : dyn) : flatM W nat :=
  λ s, let '(r, c) := vnode_alloc ino fs_id 0 ops (core s) in Done (r, set_core c s).

Definition bind_vnode_inode (name : list Z) (vn : nat) : flatM W nat :=
  opt i := alloc_flat_inode name 0 in
  λ s, Done (Some i, set_inode i (with_vnode vn) s).

(** The inode of [/proc/<pid>], [/proc/<pid>/stat] or [/proc/<pid>/cmdline]. *)
Definition proc_pid_ino (name : list Z) : option Z :=
  let prefix := bytes_of "/proc/" in
  if negb (bool_decide (take (length prefix) name = prefix)) then None
  else
    let rest := drop (length prefix) name in
    let '(pid_str, file) := match position is_slash rest with Some k => (take k rest, drop (S k) rest) | None => (rest, []) end in
    if (length pid_str =? 0)%nat || negb (forallb is_digit pid_str) then None
    else
      let pid := parse_pid pid_str in
      if (length file =? 0)%nat then Some (pid_dir_ino pid)
      else if bool_decide (file = bytes_of "stat") then Some (pid_stat_ino pid)
      else if bool_decide (file = bytes_of "cmdline") then Some (pid_cmdline_ino pid)
      else None.

Definition maybe_bind_proc_pid (name : list Z) : flatM W nat :=
  opt ino := fret (proc_pid_ino name) in
  opt fs_id := core_ok alloc_fsid in
  opt vn := flat_vnode ino fs_id PROCFS in
  bind_vnode_inode name vn.

(** The vnode for a slot just taken. *)
Definition register_vnode (i : nat) (norm : list Z) : flatM W nat :=
  λ s,
    if negb (i_vnode_id (flat s !!! i) =? 0)%nat then Done (Some (i_vnode_id (flat s !!! i)), s)
    else if is_userfs_path norm (core s) then or_else (core_ok (path_to_vnode norm)) (roll_back i) s
    else or_else (opt ino := core_ok (resolve_ino norm) in flat_vnode ino 0 RAMFS) (roll_back i) s.

Definition resolve_or_register (name : list Z) : flatM W nat :=
  λ s,
    let norm := norm_of (cwd s) name in
    or_else (λ s, Done (find_inode norm s, s))
      (or_else (maybe_bind_proc_pid norm)
        (opt i := alloc_flat_inode norm 0 in
         opt vn := register_vnode i norm in
         λ s, Done (Some i, set_inode i (with_vnode vn) s))) s.

Definition create_symlink (path target : list Z) : flatM W nat :=
  opt _ := core_ok (symlink path target) in resolve_or_register path.

(** The slot, the file and a vnode for it; the slot is given back when the
    file or the vnode cannot be had. *)
Definition new_file (name : list Z) (mode : Z) (i : nat) : flatM W nat :=
  or_else (opt ino := core_ok (create name mode) in flat_vnode ino 0 RAMFS) (roll_back i).

Definition create_file_mode (name data : list Z) (mode : Z) : flatM W nat :=
  opt i := alloc_flat_inode name (Z.of_nat (length data)) in
  opt vn := new_file name mode i in
  λ s,
    let s := set_inode i (with_vnode vn) s in
    if (length data =? 0)%nat then Done (Some i, s)
    else
      let! (r, s) := core_ok (write vn 0 data) s in
      match r with
      | Some n => if n =? Z.of_nat (length data) then Done (Some i, s) else roll_back i s
      | None => roll_back i s
      end.

Definition create_file (name data : list Z) : flatM W nat := create_file_mode name data FILE_MODE.

(** A file whose bytes are the [size] bytes of memory at [ptr]. *)
Definition create_external_file (name : list Z) (ptr : Z) (size : nat) : flatM W nat :=
  opt i := alloc_flat_inode name (Z.of_nat size) in
  λ s, (opt vn := new_file name EXTERNAL_MODE i in
        λ s,
          let s := set_inode i (with_vnode vn) s in
          if (size =? 0)%nat then Done (Some i, s)
          else let! (_, s) := core_ok (write vn 0 (mem_read ptr size (xmem s))) s in Done (Some i, s))
       (set_inode i (with_ptr ptr) s).

(** The slot [idx] in use. *)
Definition live_inode (idx : nat) s : option Inode :=
  if (MAX_INODES <=? idx)%nat || negb (i_used (flat s !!! idx)) then None else Some (flat s !!! idx).

Definition inode_vnode_id (idx : nat) s : option nat := i_vnode_id <$> live_inode idx s.
Definition inode_size (idx : nat) s : option Z := i_size <$> live_inode idx s.

(** The bytes put into a buffer of [room] bytes. *)
Definition inode_read (idx : nat) (pos : Z) (room : nat) : flatM W (list Z) :=
  λ s, match live_inode idx s with
       | None => Done (None, s)
       | Some n =>
           if (data_ptr n =? 0) && (i_vnode_id n =? 0)%nat then Done (None, s)
           else if data_ptr n =? 0 then core_ok (Vfs.read (i_vnode_id n) pos room) s
           else if i_size n <=? pos then Done (Some [], s)
           else Done (Some (mem_read (data_ptr n + pos) (Z.to_nat (Z.min (Z.of_nat room) (i_size n - pos))) (xmem s)), s)
       end.

Definition inode_write (idx : nat) (pos : Z) (buf : list Z) : flatM W Z :=
  λ s, match live_inode idx s with
       | None => Done (None, s)
       | Some n =>
           if negb (i_vnode_id n =? 0)%nat then
             (opt k := core_ok (write (i_vnode_id n) pos buf) in
              λ s, Done (Some k, if i_size n <? w64 (pos + k) then set_inode idx (with_isize (w64 (pos + k))) s else s)) s
           else if data_ptr n =? 0 then Done (None, s)
           else if i_size n <? pos then Done (None, s)
           else
             let k := Z.min (Z.of_nat (length buf)) (i_size n - pos) in
             Done (Some k, mkFlat (flat s) (core s) (mem_write (data_ptr n + pos) (take (Z.to_nat k) buf) (xmem s)) (cwd s) (procfs_fsid s))
       end.

Definition rebind_inode_vnode (name : list Z) (vn : nat) : flatM W nat :=
  λ s, match find_inode name s with
       | None => Done (None, s)
       | Some i => Done (Some i, set_inode i (with_vnode vn) s)
       end.

(** ** The entries of the process file system *)

(** [if let Some(vn_id) = vnode_alloc(..) { bind_vnode_inode(path, vn_id); }] *)
Definition bind_proc (name : list Z) (ino fs_id : Z) s : comp (flatfs W) :=
  let! (_, s) := (opt vn := flat_vnode ino fs_id PROCFS in bind_vnode_inode name vn) s in Done s.

Definition proc_path (pid : Z) (file : string) : list Z := bytes_of "/proc/" ++ decimal pid ++ bytes_of file.

Definition bind_pid (fs_id : Z) s (pid : Z) : comp (flatfs W) :=
  let! s := bind_proc (proc_path pid "/stat") (pid_stat_ino pid) fs_id s in
  bind_proc (proc_path pid "/cmdline") (pid_cmdline_ino pid) fs_id s.

Definition bind_task_procfs (pid : Z) s : comp (flatfs W) :=
  if procfs_fsid s =? 0 then Done s else bind_pid (procfs_fsid s) s pid.

Fixpoint bind_pids (fs_id : Z) (pids : list Z) s : comp (flatfs W) :=
  match pids with
  | [] => Done s
  | pid :: pids => let! s := bind_pid fs_id s pid in bind_pids fs_id pids s
  end.

Definition mount_proc `{!ProcView W} s : comp (flatfs W) :=
  let! (r, s) := core_ok alloc_fsid s in
  let fs_id := default 0 r in
  let s := mkFlat (flat s) (core s) (xmem s) (cwd s) fs_id in
  let! (r, s) := core_ok (mount (bytes_of "/proc") fs_id PROC_ROOT_INO PROCFS) s in
  match r with
  | None => Done s
  | Some _ =>
      let! s := bind_proc (bytes_of "/proc") PROC_ROOT_INO fs_id s in
      let! s := bind_proc (bytes_of "/proc/uptime") PROC_UPTIME fs_id s in
      let! s := bind_proc (bytes_of "/proc/meminfo") PROC_MEMINFO fs_id s in
      let! s := bind_proc (bytes_of "/proc/version") PROC_VERSION fs_id s in
      bind_pids fs_id (live_pids MAX_PIDS (fsw (core s))) s
  end.

End flat.
