(* ===== verification/FlatClaims.v ===== *)
(** * The theorems about the flat inode table and the file systems under it *)

From S2P Require Import Prelude Bytes Buddy BuddySpec BuddyPages PageAlloc Ramfs RamfsInv RamfsClaims.
From S2P Require Import VfsTypes Path PathClaims Procfs Userfs VfsRamfs Vfs VfsSpec VfsNames VfsClaims Flat.
From Stdlib Require Import Lia ZArith.
From stdpp Require Import base gmap numbers strings list.
Local Open Scope Z_scope.

(** ** Stored names *)

Definition nul_free (l : list Z) : Prop := Forall (λ c, c ≠ 0) l.

Lemma stored_length name : length (stored_name name) = 64%nat.
Proof. unfold stored_name, NAME_ROOM. rewrite length_app, length_replicate, length_take. lia. Qed.

Lemma take_stored_l name k : (k <= length (take NAME_ROOM name))%nat → take k (stored_name name) = take k (take NAME_ROOM name).
Proof. intros H. unfold stored_name. by rewrite take_app_le. Qed.

Lemma stored_zero name k : (k < 64)%nat → nul_free name → stored_name name !!! k = 0 ↔ (length (take NAME_ROOM name) <= k)%nat.
Proof.
  intros Hk Hn. unfold stored_name. destruct (Nat.le_gt_cases (length (take NAME_ROOM name)) k) as [H|H].
  - split; [done|]. intros _. rewrite lookup_total_app_r by done. apply lookup_total_replicate_2. lia.
  - split; [|lia]. rewrite lookup_total_app_l by done. intros E. exfalso.
    destruct (lookup_lt_is_Some_2 _ _ H) as [c Hc]. rewrite (list_lookup_total_correct _ _ _ Hc) in E. subst c.
    apply lookup_take_Some in Hc as [Hc _]. unfold nul_free in Hn. rewrite Forall_lookup in Hn. by apply (Hn _ _ Hc).
Qed.

(** The comparison sees the first 63 bytes of the name that was stored. *)
Lemma name_matches_spec name norm : nul_free name → nul_free norm →
  name_matches (stored_name name) norm = bool_decide (norm = take NAME_ROOM name).
Proof.
  intros Hn Hm. apply eq_bool_prop_intro. rewrite bool_decide_spec, Is_true_true. unfold name_matches.
  set (T := take NAME_ROOM name). assert (HT : (length T <= 63)%nat) by (subst T; unfold NAME_ROOM; rewrite length_take; lia).
  split.
  - intros H. bool_to_prop. unfold NAME_ROOM in H1.
    assert (Nat.min (length norm) NAME_ROOM = length norm) as E by (unfold NAME_ROOM; lia).
    rewrite E in *. apply bool_decide_eq_true in H. rewrite (take_ge norm) in H by lia.
    rewrite stored_zero in H0 by (done || lia). fold T in H0.
    assert (length norm <= length T)%nat as Hle.
    { destruct (Nat.le_gt_cases (length norm) (length T)) as [|Hgt]; [done|exfalso].
      assert (norm !!! length T = 0) as Hz.
      { rewrite <- H, list_lookup_total_alt, lookup_take, decide_True by done. rewrite <- list_lookup_total_alt.
        apply stored_zero; [lia|done|done]. }
      destruct (lookup_lt_is_Some_2 _ _ Hgt) as [c Hc]. rewrite (list_lookup_total_correct _ _ _ Hc) in Hz. subst c.
      unfold nul_free in Hm. rewrite Forall_lookup in Hm. by apply (Hm _ _ Hc). }
    rewrite take_stored_l in H by done. fold T in H. rewrite take_ge in H by lia. done.
  - intros ->. fold T in Hm |- *. rewrite Nat.min_l by done. rewrite Nat.eqb_refl, andb_true_r.
    rewrite bool_decide_eq_true_2 by (by rewrite take_stored_l). cbn [andb]. apply Z.eqb_eq, stored_zero; [lia|done|done].
Qed.

(** ** The table *)

Section flat.
Context {W : Type} `{!FsOps W}.
Implicit Types s : flatfs W.

(** [nm i] is the name that slot [i] was registered under. *)
Definition named (nm : nat → list Z) s : Prop :=
  ∀ i, (i < MAX_INODES)%nat → i_used (flat s !!! i) = true → i_name (flat s !!! i) = stored_name (nm i) ∧ nul_free (nm i).

(** Looking a path up in the flat table.  It finds the first slot in use
    whose registered name, cut to 63 bytes, is the normalised path: so a path
    of more than 63 bytes is never found, although it can be registered, and a
    longer registered name is found under its first 63 bytes. *)
Theorem find_inode_truncates nm s name :
  named nm s → nul_free (norm_of (cwd s) name) →
  find_inode name s =
    first_from (λ i, i_used (flat s !!! i) && bool_decide (norm_of (cwd s) name = take NAME_ROOM (nm i))) 0 MAX_INODES ∧
  ((NAME_ROOM < length (norm_of (cwd s) name))%nat → find_inode name s = None).
Proof.
  intros Hn Hnul.
  assert (E : find_inode name s =
    first_from (λ i, i_used (flat s !!! i) && bool_decide (norm_of (cwd s) name = take NAME_ROOM (nm i))) 0 MAX_INODES).
  { unfold find_inode. apply first_from_ext. intros k Hk. destruct (i_used (flat s !!! k)) eqn:Hu; [|done]. cbn [andb].
    destruct (Hn k) as [-> Hk']; [lia|done|]. by apply name_matches_spec. }
  split; [exact E|]. intros Hl. rewrite E. apply first_from_None. intros k Hk. apply andb_false_iff. right.
  apply bool_decide_eq_false_2. intros X. rewrite X, length_take in Hl. lia.
Qed.

(** ** Creating a file *)

Lemma set_inode_get s i f j : length (flat s) = MAX_INODES → (i < MAX_INODES)%nat →
  flat (set_inode i f s) !!! j = if decide (j = i) then f (flat s !!! i) else flat s !!! j.
Proof.
  intros Hl Hi. unfold set_inode. cbn [flat]. case_decide as E; [subst j; apply list_lookup_total_insert_eq; lia|].
  by apply list_lookup_total_insert_ne.
Qed.

Lemma set_inode_length s i f : length (flat (set_inode i f s)) = length (flat s).
Proof. apply length_insert. Qed.

Lemma alloc_flat_spec name size s : length (flat s) = MAX_INODES →
  (∃ i, alloc_flat_inode name size s = Done (Some i, set_inode i (λ _, mkInode (stored_name name) 0 size true 0) s) ∧
    (i < PIPE_INODE_BASE)%nat ∧ i_used (flat s !!! i) = false) ∨
  (alloc_flat_inode name size s = Done (None, s) ∧ ∀ i, (i < PIPE_INODE_BASE)%nat → i_used (flat s !!! i) = true).
Proof.
  intros Hl. unfold alloc_flat_inode. destruct (first_from _ 0 _) as [i|] eqn:Hf; [left|right].
  - apply first_from_Some in Hf as (Hi & Hu & _). apply negb_true_iff in Hu. exists i. split_and!; [done|lia|done].
  - rewrite first_from_None in Hf. split; [done|]. intros i Hi. specialize (Hf i ltac:(lia)). by apply negb_false_iff in Hf.
Qed.

Lemma core_ok_err {T} (m : vfsM W T) s e c : m (core s) = Done (Err e, c) → core_ok m s = Done (None, set_core c s).
Proof. intros H. unfold core_ok. by rewrite H. Qed.
Lemma core_ok_ok {T} (m : vfsM W T) s x c : m (core s) = Done (Ok x, c) → core_ok m s = Done (Some x, set_core c s).
Proof. intros H. unfold core_ok. by rewrite H. Qed.

(** Slot [i] was free, is for [name], and nothing before it matched. *)
Lemma find_new s s' i name : length (flat s) = MAX_INODES → (i < MAX_INODES)%nat →
  cwd s' = cwd s → norm_of (cwd s) name = name → find_inode name s = None →
  (∀ j, j ≠ i → flat s' !!! j = flat s !!! j) → i_used (flat s' !!! i) = true → i_name (flat s' !!! i) = stored_name name →
  nul_free name → (length name <= NAME_ROOM)%nat → find_inode name s' = Some i.
Proof.
  intros Hl Hi Hcwd Hnorm Hnone Hoth Hu Hn Hnul Hlen. unfold find_inode in *. rewrite Hcwd, Hnorm in *.
  rewrite first_from_None in Hnone. apply first_from_Some. split_and!; [lia|lia| |].
  - rewrite Hu, Hn, name_matches_spec by done. apply bool_decide_eq_true_2. by rewrite take_ge by lia.
  - intros k Hk. rewrite Hoth by lia. apply Hnone. lia.
Qed.

(** A name that does not fit its slot does not match it. *)
Lemma long_not_found s s' i name : cwd s' = cwd s → norm_of (cwd s) name = name → find_inode name s = None →
  (∀ j, j ≠ i → flat s' !!! j = flat s !!! j) → i_name (flat s' !!! i) = stored_name name →
  nul_free name → (NAME_ROOM < length name)%nat → find_inode name s' = None.
Proof.
  intros Hcwd Hnorm Hnone Hoth Hn Hnul Hlen. unfold find_inode in *. rewrite Hcwd, Hnorm in *.
  rewrite first_from_None in Hnone. apply first_from_None. intros k Hk. destruct (decide (k = i)) as [->|]; [|rewrite Hoth by done; by apply Hnone].
  rewrite Hn, name_matches_spec by done. apply andb_false_iff. right. apply bool_decide_eq_false_2.
  intros E. apply (f_equal length) in E. rewrite length_take in E. lia.
Qed.

(** Every vnode is in use. *)
Definition no_vnode (t : vnode_table) : Prop := ∀ v, (v < MAX_VNODES)%nat → v_get v t ≠ None.

(** A new file with its vnode, when the vnode layer can make it. *)
Lemma new_file_spec s i name mode r c :
  length (flat s) = MAX_INODES → (i < MAX_INODES)%nat → vt_inv (vt c) → Vfs.create name mode (core s) = Done (r, c) →
  ∃ r' s', new_file name mode i s = Done (r', s') ∧
    (∀ vn, r' = Some vn → ∃ ino t, r = Ok ino ∧ s' = set_core (mkVfs t (mt c) (next_fsid c) (fsw c)) s ∧
      v_get vn (vt c) = None ∧ v_get vn t = Some (mkVnode ino 0 0 RAMFS true)) ∧
    (r' = None → ∀ ino, r = Ok ino → no_vnode (vt c)).
Proof.
  intros Hl Hi Hinv Hc. unfold new_file, or_else, fbind. destruct r as [ino|e].
  - rewrite (core_ok_ok _ _ _ _ Hc). cbn [cbind]. unfold flat_vnode, vnode_alloc, with_vt. cbn [core set_core].
    destruct (v_alloc ino 0 0 RAMFS (vt c)) as [[vn|] t] eqn:Ea; cbn [cbind].
    + eexists _, _. split; [reflexivity|]. split; [|done]. intros vn' [= <-]. exists ino, t.
      destruct (v_alloc_spec _ _ _ _ _ _ _ Hinv Ea) as (_ & _ & Hfree & Hget). split_and!; [done|done|done|].
      rewrite Hget. by rewrite decide_True.
    + eexists _, _. split; [reflexivity|]. split; [done|]. intros _ ino' _. by destruct (v_alloc_spec _ _ _ _ _ _ _ Hinv Ea) as (_ & _ & Hfull).
  - rewrite (core_ok_err _ _ _ _ Hc). cbn [cbind]. eexists _, _. split; [reflexivity|]. by split.
Qed.

Context `{!DirOps (ops_of RAMFS : vnode_ops W)}.

(** C13: What a file is created with is what is read from it.  The path is
    canonical (it starts at the root, its names are not empty, hold no white
    space and no zero byte, and are no dots); the root mount, a RAM file
    system, serves it and its directory, the directory resolves, and the path
    leads nowhere yet, in the tree and in the table; the data is not empty and
    vnode 0 is in use (it is the root's, taken at boot: a file bound to it
    could not be read).  Then [create_file] returns, and when it succeeds, its
    slot was free and is not one of a pipe, and reading that slot from the
    start gives the data.  A path of at most 63 bytes is then found in the
    table at that slot; a longer one is not found at all.  It fails only when
    no slot or no vnode is free, or the file system refuses the file or its
    data. *)
Theorem create_file_reads_back s ns n data m pino e :
  let name := slashed (ns ++ [n]) in
  Forall tight (ns ++ [n]) → Forall fs_name (ns ++ [n]) →
  at_root RAMFS ns (core s) m → at_root RAMFS (ns ++ [n]) (core s) m →
  fs_inv (fsw (core s)) → path_resolve (render ns) (core s) = Done (Ok (pino, RAMFS), core s) → fs_live (fsw (core s)) pino →
  path_resolve name (core s) = Done (Err e, core s) →
  length (flat s) = MAX_INODES → vt_inv (vt (core s)) → vnode_get 0 (core s) ≠ None →
  norm_of (cwd s) name = name → nul_free name → find_inode name s = None →
  data ≠ [] → Z.of_nat (length data) < 2 ^ 64 →
  ∃ r s', create_file name data s = Done (r, s') ∧
    (∀ i, r = Some i →
      (i < PIPE_INODE_BASE)%nat ∧ i_used (flat s !!! i) = false ∧
      find_inode name s' = (if (length name <=? NAME_ROOM)%nat then Some i else None) ∧
      inode_read i 0 (length data) s' = Done (Some data, s')) ∧
    (r = None →
      (∀ i, (i < PIPE_INODE_BASE)%nat → i_used (flat s !!! i) = true) ∨
      ∃ rc c, Vfs.create name FILE_MODE (core s) = Done (rc, c) ∧
        ∀ ino, rc = Ok ino → no_vnode (vt c) ∨ ∃ e' w', o_write (ops_of RAMFS) ino 0 data (fsw c) = Done (Err e', w')).
Proof.
  intros name Ht Hfn Hr1 Hr2 Hinv Hp Hlive Hno Hl Hvt Hv0 Hnorm Hnul Hfind Hdata Hsz.
  destruct (create_resolves_spec RAMFS ns n FILE_MODE (core s) m pino e Ht Hfn Hr1 Hr2 Hinv Hp Hlive Hno) as (rc & w & Hc & Hinv' & Hok).
  fold name in Hc, Hok. unfold create_file, create_file_mode, fbind.
  destruct (alloc_flat_spec name (Z.of_nat (length data)) s Hl) as [(i & -> & Hi & Hu)|[-> Hused]]; cbn [cbind]; [|eexists _, _; split; [reflexivity|]; split; [done|by left]].
  set (s1 := set_inode i _ s). assert (Hl1 : length (flat s1) = MAX_INODES) by (subst s1; by rewrite set_inode_length).
  assert (Hi' : (i < MAX_INODES)%nat) by (unfold PIPE_INODE_BASE, MAX_INODES in *; lia).
  destruct (new_file_spec s1 i name FILE_MODE rc (at_world w (core s)) Hl1 Hi' Hvt Hc) as (rv & s2 & -> & Hv & Hfull). cbn [cbind].
  destruct rv as [vn|]; [clear Hfull|by eexists _, _; split; [reflexivity|]; split; [done|]; right; eexists _, _; split; [exact Hc|]; left; eapply Hfull]. destruct (Hv vn eq_refl) as (ino & t & -> & -> & Hfree & Hget). clear Hv.
  destruct (Hok ino eq_refl) as [Hlv _]. cbn [at_world mt next_fsid fsw vt] in *.
  assert (vn ≠ 0%nat) as Hvn by (intros ->; by apply Hv0).
  assert (length data ≠ 0%nat) as Hd0 by (by destruct data). rewrite (proj2 (Nat.eqb_neq _ _) Hd0).
  set (c2 := mkVfs t (mt (core s)) (next_fsid (core s)) w).
  set (s3 := set_inode i (with_vnode vn) (set_core c2 s1)).
  destruct (fs_write_read w ino 0 data Hinv' Hlv ltac:(lia) ltac:(lia)) as (rw & w' & Hw & _ & Hrd).
  assert (Hwr : Vfs.write vn 0 data (core s3) = Done (rw, at_world w' c2)).
  { unfold Vfs.write, on_vnode, vnode_get. cbn [core s3 set_inode set_core]. change (vt c2) with t. rewrite Hget.
    unfold call. cbn [v_ops v_ino]. change (fsw c2) with w. rewrite Hw. done. }
  destruct rw as [k|e'].
  2: { rewrite (core_ok_err _ _ _ _ Hwr). eexists _, _. split; [reflexivity|]. split; [done|]. intros _. right. eexists _, _. split; [exact Hc|].
       intros ino' [= <-]. right. by exists e', w'. }
  rewrite (core_ok_ok _ _ _ _ Hwr). cbn [cbind]. destruct (Hrd k eq_refl) as [-> Hread]. rewrite Z.eqb_refl.
  eexists _, _. split; [reflexivity|]. split; [|done]. intros i' [= <-].
  assert (G : ∀ j, flat (set_core (at_world w' c2) s3) !!! j =
    if decide (j = i) then mkInode (stored_name name) 0 (Z.of_nat (length data)) true vn else flat s !!! j).
  { intros j. cbn [flat set_core s3]. change (flat s3 !!! j) with (flat (set_inode i (with_vnode vn) s1) !!! j).
    rewrite set_inode_get by done. unfold s1. case_decide; [|by rewrite set_inode_get, decide_False by done].
    by rewrite set_inode_get, decide_True by done. }
  assert (Gi := G i). rewrite decide_True in Gi by done.
  split_and!; [done|done| |].
  - destruct (Nat.leb_spec (length name) NAME_ROOM) as [Hlen|Hlen].
    + apply (find_new s _ i name); try done; [intros j Hj; by rewrite G, decide_False|by rewrite Gi|by rewrite Gi].
    + apply (long_not_found s _ i name); try done; [intros j Hj; by rewrite G, decide_False|by rewrite Gi].
  - unfold inode_read, live_inode. rewrite Gi. rewrite (proj2 (Nat.leb_gt _ _)) by done. cbn [orb negb i_used data_ptr i_vnode_id].
    rewrite (proj2 (Nat.eqb_neq _ _)) by done. cbn [andb Z.eqb].
    rewrite (core_ok_ok _ _ data (at_world w' c2)); [done|]. unfold Vfs.read, on_vnode, vnode_get. change (vt (core (set_core (at_world w' c2) s3))) with t. rewrite Hget.
    unfold call. change (fsw (core (set_core (at_world w' c2) s3))) with w'. cbn [v_ops v_ino]. by rewrite Hread.
Qed.

End flat.

(** ** Names that reach the wrong file system *)

Section wrong_fs.
Context {W : Type} `{!FsOps W}.
Implicit Types s : flatfs W.

(** [resolve_or_register] drops the file system a path resolves in.  For a
    path that is not in the table, is not a pid file and is not served by the
    user-space bridge, the inode number is that of the mounted file system,
    but the vnode made for it always belongs to the RAM file system, where the
    number is another file's.  Together with [find_mount], which takes
    [/procuptime] to be [uptime] below [/proc], opening [/procuptime] opens
    inode 2 of the RAM file system, the directory [/lib]. *)
Theorem register_wrong_fs s name m j ino w :
  let norm := norm_of (cwd s) name in
  length (flat s) = MAX_INODES → vt_inv (vt (core s)) → norm_of (cwd s) norm = norm →
  find_inode norm s = None → proc_pid_ino norm = None →
  (∃ i, (i < PIPE_INODE_BASE)%nat ∧ i_used (flat s !!! i) = false) →
  (∃ v, (v < MAX_VNODES)%nat ∧ vnode_get v (core s) = None) →
  find_mount norm (mt (core s)) = Some (m, j) → me_ops m ≠ UserFs →
  path_resolve norm (core s) = Done (Ok (ino, me_ops m), at_world w (core s)) →
  ∃ i v s', resolve_or_register name s = Done (Some i, s') ∧ inode_vnode_id i s' = Some v ∧
    vnode_get v (core s') = Some (mkVnode ino 0 0 RAMFS true).
Proof.
  intros norm Hl Hvt Hnn Hf Hpid (i0 & Hi0 & Hu0) (v0 & Hv0 & Hg0) Hm Hop Hres.
  unfold resolve_or_register. fold norm. unfold or_else at 1. rewrite Hf. cbn [cbind]. unfold or_else at 1.
  unfold maybe_bind_proc_pid, fbind at 1, fret. rewrite Hpid. cbn [cbind]. unfold fbind at 1.
  destruct (alloc_flat_spec norm 0 s Hl) as [(i & -> & Hi & Hu)|[_ Hfull]]; [|by rewrite Hfull in Hu0].
  cbn [cbind]. set (s1 := set_inode i _ s). assert (Hi' : (i < MAX_INODES)%nat) by (unfold PIPE_INODE_BASE, MAX_INODES in *; lia).
  assert (Hl1 : length (flat s1) = MAX_INODES) by (subst s1; by rewrite set_inode_length).
  assert (G1 : flat s1 !!! i = mkInode (stored_name norm) 0 0 true 0) by (subst s1; by rewrite set_inode_get, decide_True).
  unfold fbind at 1, register_vnode. rewrite G1. cbn [i_vnode_id Nat.eqb negb].
  assert (is_userfs_path norm (core s1) = false) as ->.
  { unfold is_userfs_path. change (mt (core s1)) with (mt (core s)). rewrite Hm. by apply bool_decide_eq_false_2. }
  unfold or_else, fbind at 1. change (core s1) with (core s).
  assert (Hri : resolve_ino norm (core s1) = Done (Ok ino, at_world w (core s))).
  { unfold resolve_ino, vbind. change (core s1) with (core s). by rewrite Hres. }
  rewrite (core_ok_ok _ _ _ _ Hri). cbn [cbind]. unfold flat_vnode, vnode_alloc, with_vt. cbn [core set_core].
  change (vt (at_world w (core s))) with (vt (core s)).
  destruct (v_alloc ino 0 0 RAMFS (vt (core s))) as [[vn|] t] eqn:Ea; cbn [cbind].
  2: { destruct (v_alloc_spec _ _ _ _ _ _ _ Hvt Ea) as (_ & _ & Hfull). by destruct (Hfull v0 Hv0). }
  destruct (v_alloc_spec _ _ _ _ _ _ _ Hvt Ea) as (_ & _ & _ & Hget).
  eexists i, vn, _. split; [reflexivity|]. split.
  - unfold inode_vnode_id, live_inode. rewrite set_inode_get, decide_True by done.
    cbn [flat set_core]. rewrite G1, (proj2 (Nat.leb_gt _ _)) by done. done.
  - unfold vnode_get. cbn. rewrite Hget. by rewrite decide_True.
Qed.

(** [rename] between two file systems.  The new directory's inode number,
    from its own file system, is given to the [rename] of the old one's: there
    is no check that both paths are on one mount. *)
Theorem rename_crosses_mounts (c : vfs W) old_path new_path op d np d' w w' :
  parent_path old_path ≠ parent_path new_path →
  path_resolve (parent_path old_path) c = Done (Ok (op, d), at_world w c) →
  path_resolve (parent_path new_path) (at_world w c) = Done (Ok (np, d'), at_world w' c) →
  Vfs.rename old_path new_path c =
    call_rename (ops_of d) op (file_name old_path) np (file_name new_path) (at_world w' c).
Proof.
  intros Hne H1 H2. unfold Vfs.rename, vbind. rewrite H1. cbn [cbind]. rewrite bool_decide_eq_false_2 by done.
  rewrite H2. done.
Qed.

End wrong_fs.

(** ** The process file system *)

Section procfs.
Context {W : Type} `{!ProcView W}.

(** What a program sees that reads a file [room] bytes at a time until it gets
    nothing. *)
Fixpoint cat (fuel : nat) (ino offset : Z) (room : nat) (w : W) : list Z :=
  match fuel with
  | O => []
  | S f =>
      match Procfs.read ino offset room w with
      | Done (Ok [], _) | Done (Err _, _) | Panic | Spin => []
      | Done (Ok bs, w) => bs ++ cat f ino (offset + Z.of_nat (length bs)) room w
      end
  end.

(** Reading a file of [/proc] in pieces.  Every read makes the whole text
    in the caller's buffer, cut to its length, before it moves to the offset;
    so a read past the length of the buffer finds nothing, and a program that
    reads [room] bytes at a time gets the first [room] bytes of the text and
    then the end of the file, however long the text is. *)
Theorem procfs_reads_cut ino w text room fuel :
  file_text ino w = Some text → (0 < room)%nat → (2 <= fuel)%nat → cat fuel ino 0 room w = take room text.
Proof.
  intros Ht Hr Hf. destruct fuel as [|[|fuel]]; [lia..|]. cbn [cat].
  assert (E : ∀ off, 0 ≤ off → Procfs.read ino off room w =
    Done (Ok (if Z.of_nat (length (take room text)) <=? off then [] else drop (Z.to_nat off) (take room text)), w)).
  { intros off Ho. unfold Procfs.read. rewrite Ht. cbv zeta. destruct (Z.leb_spec (Z.of_nat (length (take room text))) off); [done|].
    do 2 f_equal. rewrite take_ge; [done|]. rewrite length_drop. rewrite length_take in *. lia. }
  rewrite E by lia. destruct (take room text) as [|b bs] eqn:Et; [done|].
  rewrite (proj2 (Z.leb_gt _ _)) by (cbn; lia). change (drop (Z.to_nat 0) (b :: bs)) with (b :: bs). cbv iota.
  rewrite E by lia. rewrite (proj2 (Z.leb_le _ _)) by lia. by rewrite app_nil_r.
Qed.

End procfs.

(** ** The bridge *)

Section userfs.
Context {W : Type} `{!FsService W}.

(** A read over the bridge, on every answer of the service, a user
    program: without a service, on an error, on a short answer and on a
    negative result it is an error, and so is a result larger than the
    caller's buffer; otherwise the bytes after the result are returned, but a
    result larger than the 4056 bytes an answer can carry, which nothing
    excludes when the buffer is larger, panics the kernel. *)
Theorem userfs_read_outcome ino offset room w n out w' :
  service_port w ≠ 0 → length out = MAX_REQ →
  ipc_call_internal (service_port w) (request OP_READ ino offset (Z.of_nat room) 0 [] []) w = (n, out, w') →
  let v := i64_of_le (take 8 out) in
  Userfs.read ino offset room w =
    if (n <? 8) || (v <? 0) || (Z.of_nat room <? v) then Done (Err "userfs read", w')
    else if 4056 <? v then Panic
    else Done (Ok (take (Z.to_nat v) (drop 8 out)), w').
Proof.
  intros Hp Hl Hc v. unfold Userfs.read, do_call. rewrite (proj2 (Z.eqb_neq _ _) Hp). cbn [length Nat.add].
  change (MAX_REQ <? 40)%nat with false. cbv iota. rewrite Hc. fold v.
  destruct (Z.ltb_spec n 0) as [H0|H0]; [rewrite (proj2 (Z.ltb_lt n 8)) by lia; done|].
  destruct (Z.ltb_spec n 8) as [H8|H8]; [done|]. cbn [result_or orb].
  destruct (v <? 0) eqn:Hv; [done|]. cbn [orb]. destruct (Z.of_nat room <? v); [done|].
  unfold payload_of. rewrite Hl. change (Z.of_nat MAX_REQ) with 4064.
  destruct (Z.ltb_spec 4056 v), (Z.ltb_spec 4064 (8 + v)); try lia; done.
Qed.

End userfs.

(** ** Instances *)

Definition f64 : flatfs (ramfs kmem) := mkFlat (replicate MAX_INODES Inode_empty) v64_2 ∅ [SLASH] 2.

(** A path of 70 bytes in slot 0. *)
Definition long_path : list Z := SLASH :: replicate 69 97.
Definition f64_long : flatfs (ramfs kmem) := set_inode 0 (λ _, mkInode (stored_name long_path) 0 0 true 1) f64.

Lemma find_inode_truncates_witness :
  find_inode long_path f64_long = None ∧ find_inode (take 63 long_path) f64_long = Some 0%nat.
Proof.
  assert (Hn : named (λ _, long_path) f64_long).
  { intros i Hi Hu. unfold f64_long in Hu |- *. rewrite set_inode_get in Hu |- * by (done || (unfold MAX_INODES; lia)).
    case_decide; [split; [done|]|].
    - apply Forall_cons; split; [done|]. by apply Forall_replicate.
    - unfold f64 in Hu. cbn [flat] in Hu. rewrite lookup_total_replicate_2 in Hu by done. done. }
  split.
  - destruct (find_inode_truncates (λ _, long_path) f64_long long_path Hn) as [_ H].
    + apply Forall_forall. intros c Hc. assert (c ∈ long_path) as Hc' by exact Hc.
      apply elem_of_cons in Hc' as [->|Hc']; [discriminate|]. apply elem_of_replicate in Hc' as [-> _]. discriminate.
    + apply H. apply Nat.ltb_lt. vm_compute. reflexivity.
  - destruct (find_inode_truncates (λ _, long_path) f64_long (take 63 long_path) Hn) as [H _].
    + apply Forall_forall. intros c Hc. assert (c ∈ SLASH :: replicate 62 97) as Hc' by exact Hc.
      apply elem_of_cons in Hc' as [->|Hc']; [discriminate|]. apply elem_of_replicate in Hc' as [-> _]. discriminate.
    + rewrite H. vm_compute. reflexivity.
Defined.

Lemma create_file_reads_back_witness :
  ∃ s', create_file [47; 103] [1; 2; 3] f64 = Done (Some 0%nat, s') ∧
    find_inode [47; 103] s' = Some 0%nat ∧ inode_read 0 0 3 s' = Done (Some [1; 2; 3], s').
Proof.
  assert (match create_file [47; 103] [1; 2; 3] f64 with Done (x, _) => x | _ => None end = Some 0%nat) as E by (vm_compute; reflexivity).
  destruct (create_file_reads_back f64 [] g_name [1; 2; 3] root64 0 "ramfs: not found") as (r & s' & H1 & H2 & _).
  - apply Forall_singleton. split; [|by apply Forall_singleton]. split_and!; [discriminate|by apply Forall_singleton|discriminate|discriminate].
  - apply Forall_singleton. split; [apply Nat.leb_le; reflexivity|discriminate].
  - apply v64_at_root. vm_compute. reflexivity.
  - apply v64_at_root. vm_compute. reflexivity.
  - exists []. exact r64_2_inv.
  - apply (v64_resolve _ [] (Ok 0)); [vm_compute; reflexivity|reflexivity|reflexivity].
  - apply r64_valid. vm_compute. reflexivity.
  - apply (v64_resolve _ [g_name] (Err "ramfs: not found")); [vm_compute; reflexivity|vm_compute; reflexivity|].
    cbn [lookups]. rewrite (v64_lookup 0 g_name (Err "ramfs: not found")); [reflexivity|vm_compute; reflexivity].
  - reflexivity.
  - split; vm_compute; reflexivity.
  - intros H. vm_compute in H. discriminate H.
  - vm_compute. reflexivity.
  - apply Forall_cons; split; [discriminate|]. apply Forall_singleton. discriminate.
  - vm_compute. reflexivity.
  - discriminate.
  - reflexivity.
  - change (create_file [47; 103] [1; 2; 3] f64 = Done (r, s')) in H1. rewrite H1 in E. subst r. exists s'. split; [exact H1|]. destruct (H2 0%nat eq_refl) as (_ & _ & A & B). split; [exact A|exact B].
Defined.

Definition proc64 : MountEntry := mkMountEntry (bytes_of "/proc") 2 PROC_ROOT_INO PROCFS 0 true.

Lemma register_wrong_fs_witness :
  Ramfs.lookup r64_2 0 (bytes_of "lib") = Done (Ok 2) ∧
  ∃ i v s', resolve_or_register (bytes_of "/procuptime") f64 = Done (Some i, s') ∧ inode_vnode_id i s' = Some v ∧
    vnode_get v (core s') = Some (mkVnode 2 0 0 RAMFS true).
Proof.
  split; [vm_compute; reflexivity|].
  apply (register_wrong_fs f64 (bytes_of "/procuptime") proc64 1%nat 2 (fsw v64_2)).
  - reflexivity.
  - split; vm_compute; reflexivity.
  - vm_compute. reflexivity.
  - vm_compute. reflexivity.
  - vm_compute. reflexivity.
  - exists 0%nat. split; [apply Nat.ltb_lt; reflexivity|vm_compute; reflexivity].
  - exists 9%nat. split; [apply Nat.ltb_lt; reflexivity|vm_compute; reflexivity].
  - vm_compute. reflexivity.
  - discriminate.
  - change (at_world (fsw v64_2) (core f64)) with (at_world (fsw (core f64)) (core f64)). rewrite at_world_same.
    apply (resolve_at (core f64) _ [bytes_of "uptime"] proc64 1%nat (Ok 2)); [vm_compute; reflexivity|vm_compute; reflexivity|reflexivity].
Defined.

(** Renaming [/f] to [/proc/b] puts it under inode 1 of the RAM file system,
    which is [/bin]. *)
Lemma rename_crosses_mounts_witness :
  Ramfs.lookup r64_2 0 (bytes_of "bin") = Done (Ok 1) ∧
  Vfs.rename (bytes_of "/f") (bytes_of "/proc/b") v64_2 = call_rename (ops_of RAMFS) 0 [102] 1 [98] (at_world (fsw v64_2) v64_2).
Proof.
  split; [vm_compute; reflexivity|].
  apply (rename_crosses_mounts v64_2 (bytes_of "/f") (bytes_of "/proc/b") 0 RAMFS 1 PROCFS (fsw v64_2) (fsw v64_2)).
  - vm_compute. discriminate.
  - rewrite at_world_same. apply (v64_resolve _ [] (Ok 0)); [vm_compute; reflexivity|vm_compute; reflexivity|reflexivity].
  - rewrite at_world_same.
    apply (resolve_at v64_2 _ [] proc64 1%nat (Ok 1)); [vm_compute; reflexivity|vm_compute; reflexivity|reflexivity].
Defined.

(** [/proc/version], eight bytes at a time. *)
Lemma procfs_reads_cut_witness : cat 10 PROC_VERSION 0 8 r64_2 = bytes_of "Rynex 0.".
Proof. rewrite (procfs_reads_cut _ _ version_text); [reflexivity|reflexivity|apply Nat.ltb_lt; reflexivity|apply Nat.leb_le; reflexivity]. Defined.

(** A service that answers 5000 to everything. *)
Definition answer5000 : list Z := le_bytes 8 5000 ++ replicate 4056 0.
Definition service5000 : FsService unit := {| service_port := λ _, 7; ipc_call_internal := λ _ _ w, (8, answer5000, w) |}.

Lemma userfs_read_outcome_witness : Userfs.read (FsService0 := service5000) 1 0 8192 tt = Panic.
Proof.
  rewrite (userfs_read_outcome (FsService0 := service5000) 1 0 8192 tt 8 answer5000 tt); [vm_compute; reflexivity|discriminate|vm_compute; reflexivity|reflexivity].
Defined.
