(* ===== verification/Signal.v ===== *)
(** * Signals of one task: [src/task.rs]

    The handler table, the mask and the pending set of a task; the delivery of
    a handler on the way out of a system call, which writes a frame on the
    user stack and rewrites the saved registers; [rt_sigreturn], which reads it
    back; [rt_sigsuspend]; the system calls on the tables.  User memory is a
    map of bytes. *)

From S2P Require Import Prelude Bytes.
From Stdlib Require Import Lia ZArith.
From stdpp Require Import base gmap numbers list.
Local Open Scope Z_scope.

Definition SIGNAL_COUNT : nat := 32.
Definition SIG_DFL : Z := 0.
Definition SIG_IGN : Z := 1.
Definition SA_RESTORER : Z := 0x04000000.
Definition SIGINT : Z := 2.
Definition SIGQUIT : Z := 3.
Definition SIGILL : Z := 4.
Definition SIGTRAP : Z := 5.
Definition SIGABRT : Z := 6.
Definition SIGBUS : Z := 7.
Definition SIGFPE : Z := 8.
Definition SIGKILL : Z := 9.
Definition SIGSEGV : Z := 11.
Definition SIGPIPE : Z := 13.
Definition SIGALRM : Z := 14.
Definition SIGTERM : Z := 15.
Definition SIGCHLD : Z := 17.
Definition SIGSTOP : Z := 19.
Definition EINTR : Z := 4.
Definition EFAULT : Z := 14.
Definition EINVAL : Z := 22.

(** ** State *)

Record SignalAction := mkSigAction { handler : Z; sa_mask : Z; sa_flags : Z; restorer : Z }.
Definition sigaction_empty : SignalAction := mkSigAction SIG_DFL 0 0 0.
#[export] Instance SignalAction_inhabited : Inhabited SignalAction := populate sigaction_empty.

(** The signal fields of a task. *)
Record sigs := mkSigs {
  sig_handlers : list SignalAction; sig_blocked : Z; sig_pending : Z; altstack_sp : Z; altstack_flags : Z; altstack_size : Z;
}.
Definition sigs_empty : sigs := mkSigs (replicate SIGNAL_COUNT sigaction_empty) 0 0 0 0 0.

Definition with_mask (b p : Z) (t : sigs) : sigs :=
  mkSigs (sig_handlers t) b p (altstack_sp t) (altstack_flags t) (altstack_size t).
Definition with_handlers (h : list SignalAction) (t : sigs) : sigs :=
  mkSigs h (sig_blocked t) (sig_pending t) (altstack_sp t) (altstack_flags t) (altstack_size t).

Definition sig_bit (sig : nat) : Z := Z.shiftl 1 (Z.of_nat sig).
Definition is_pending (t : sigs) (sig : nat) : bool := negb (Z.land (sig_pending t) (sig_bit sig) =? 0).
Definition is_blocked (t : sigs) (sig : nat) : bool := negb (Z.land (Z.shiftr (sig_blocked t) (Z.of_nat sig)) 1 =? 0).

(** The signals whose default action ends the task. *)
Definition terminates (sig : Z) : bool :=
  existsb (Z.eqb sig) [SIGINT; SIGQUIT; SIGILL; SIGABRT; SIGSEGV; SIGTERM; SIGPIPE; SIGFPE; SIGBUS; SIGTRAP; SIGALRM].

(** What a signal with a handler does to the task it is sent to. *)
Definition raise (sig : nat) (t : sigs) : sigs := with_mask (sig_blocked t) (Z.lor (sig_pending t) (sig_bit sig)) t.

(** ** User memory *)

Definition mem := gmap Z Z.
Definition read_u64 (p : Z) (m : mem) : Z := le_value (mem_read p 8 m).
Definition read_u32 (p : Z) (m : mem) : Z := le_value (mem_read p 4 m).
Definition write_u64 (p v : Z) (m : mem) : mem := mem_write p (le_bytes 8 v) m.
Definition write_u32 (p v : Z) (m : mem) : mem := mem_write p (le_bytes 4 v) m.
Definition write_u16 (p v : Z) (m : mem) : mem := mem_write p (le_bytes 2 v) m.

(** ** System calls on the tables *)

Section calls.
(** [paging::is_user_addr] and [user_range_valid]. *)
Context (is_user_addr : Z → bool) (user_range_valid : Z → Z → bool).

(** [KSigAction]: handler, flags, restorer, mask. *)
Definition write_action (p : Z) (a : SignalAction) (m : mem) : mem :=
  write_u64 (p + 24) (sa_mask a) (write_u64 (p + 16) (restorer a) (write_u64 (p + 8) (sa_flags a) (write_u64 p (handler a) m))).

Definition read_action (p : Z) (m : mem) : SignalAction :=
  mkSigAction (read_u64 p m) (read_u64 (p + 24) m) (read_u64 (p + 8) m) (read_u64 (p + 16) m).

Definition sys_rt_sigaction (sig act oldact : Z) (t : sigs) (m : mem) : Z * sigs * mem :=
  if (sig <=? 0) || (Z.of_nat SIGNAL_COUNT <=? sig) then (- EINVAL, t, m)
  else if (sig =? SIGKILL) || (sig =? SIGSTOP) then (- EINVAL, t, m)
  else
    let m := if oldact =? 0 then m else write_action oldact (sig_handlers t !!! Z.to_nat sig) m in
    if act =? 0 then (0, t, m)
    else if negb (user_range_valid act 32) then (- EFAULT, t, m)
    else
      let ka := read_action act m in
      if negb (is_user_addr (handler ka)) then (- EFAULT, t, m)
      else if negb (is_user_addr (restorer ka)) then (- EFAULT, t, m)
      else (0, with_handlers (<[Z.to_nat sig := ka]> (sig_handlers t)) t, m).

(** [mask & !(1 << SIGKILL | 1 << SIGSTOP)] *)
Definition blockable (mask : Z) : Z := Z.ldiff mask (Z.lor (Z.shiftl 1 SIGKILL) (Z.shiftl 1 SIGSTOP)).

Definition sys_rt_sigprocmask (how set oldset : Z) (t : sigs) (m : mem) : Z * sigs * mem :=
  let m := if oldset =? 0 then m else write_u64 oldset (sig_blocked t) m in
  if set =? 0 then (0, t, m)
  else
    let b := blockable (read_u64 set m) in
    if how =? 0 then (0, with_mask (Z.lor (sig_blocked t) b) (sig_pending t) t, m)
    else if how =? 1 then (0, with_mask (Z.ldiff (sig_blocked t) b) (sig_pending t) t, m)
    else if how =? 2 then (0, with_mask b (sig_pending t) t, m)
    else (- EINVAL, t, m).

Definition sys_sigaltstack (ss old_ss : Z) (t : sigs) (m : mem) : Z * sigs * mem :=
  let m := if old_ss =? 0 then m
           else write_u64 (old_ss + 16) (altstack_size t) (write_u32 (old_ss + 8) (altstack_flags t) (write_u64 old_ss (altstack_sp t) m)) in
  if ss =? 0 then (0, t, m)
  else (0, mkSigs (sig_handlers t) (sig_blocked t) (sig_pending t) (read_u64 ss m) 0 (read_u64 (ss + 16) m), m).

End calls.

(** ** Delivery *)

Definition SIG_FRAME_SIZE : Z := 320.
Definition SIG_PRETCODE : Z := 0.
Definition SIG_UC : Z := 8.
Definition SIG_MCTX : Z := 48.
Definition SIG_R8 : Z := SIG_MCTX + 0.
Definition SIG_R9 : Z := SIG_MCTX + 8.
Definition SIG_R10 : Z := SIG_MCTX + 16.
Definition SIG_R11 : Z := SIG_MCTX + 24.
Definition SIG_R12 : Z := SIG_MCTX + 32.
Definition SIG_R13 : Z := SIG_MCTX + 40.
Definition SIG_R14 : Z := SIG_MCTX + 48.
Definition SIG_R15 : Z := SIG_MCTX + 56.
Definition SIG_RDI : Z := SIG_MCTX + 64.
Definition SIG_RSI : Z := SIG_MCTX + 72.
Definition SIG_RBP : Z := SIG_MCTX + 80.
Definition SIG_RBX : Z := SIG_MCTX + 88.
Definition SIG_RDX : Z := SIG_MCTX + 96.
Definition SIG_RAX : Z := SIG_MCTX + 104.
Definition SIG_RCX : Z := SIG_MCTX + 112.
Definition SIG_RSP : Z := SIG_MCTX + 120.
Definition SIG_RIP : Z := SIG_MCTX + 128.
Definition SIG_EFLAGS : Z := SIG_MCTX + 136.
Definition SIG_CS : Z := SIG_MCTX + 144.
Definition SIG_GS : Z := SIG_MCTX + 146.
Definition SIG_FS : Z := SIG_MCTX + 148.
Definition SIG_SIGMASK : Z := 304.

(** The registers a system call saved on the kernel stack: [k_rsp] is the slot
    [kstack + 8], 24 below the user's stack pointer; [k_rcx] the return
    address, [k_r11] the flags. *)
Record area := mkArea {
  k_rsp : Z; k_r9 : Z; k_r8 : Z; k_rsi : Z; k_rdi : Z; k_rdx : Z; k_r11 : Z; k_rcx : Z;
  k_r15 : Z; k_r14 : Z; k_r13 : Z; k_r12 : Z; k_rbp : Z; k_rbx : Z;
}.

(** The registers [rt_sigreturn] parks in [PENDING_RESTORE]. *)
Record context := mkContext {
  c_rdi : Z; c_rsi : Z; c_rdx : Z; c_r8 : Z; c_r9 : Z; c_rip : Z; c_eflags : Z; c_rsp : Z;
  c_r15 : Z; c_r14 : Z; c_r13 : Z; c_r12 : Z; c_rbp : Z; c_rbx : Z;
}.

(** What the exit path finds: nothing to do, new registers, or that the task
    ended ([exit_task], which does not return). *)
Inductive exit_path :=
| Untouched (t : sigs)
| Resumed (k : area)
| Entered (t : sigs) (k : area) (m : mem)
| Ended (code : Z) (t : sigs).

Definition resume (c : context) : area :=
  mkArea (w64 (c_rsp c - 24)) (c_r9 c) (c_r8 c) (c_rsi c) (c_rdi c) (c_rdx c) (c_eflags c) (c_rip c)
    (c_r15 c) (c_r14 c) (c_r13 c) (c_r12 c) (c_rbp c) (c_rbx c).

Definition frame_of (k : area) : Z := Z.land (w64 (w64 (k_rsp k + 24) - SIG_FRAME_SIZE)) (w64 (-16)).

(** The words of the frame, in the order they are written. *)
Definition frame_words (act : SignalAction) (t : sigs) (k : area) (sys_ret : Z) (m : mem) : list (Z * Z) :=
  let orig_rsp := w64 (k_rsp k + 24) in
  [(SIG_PRETCODE, restorer act); (SIG_SIGMASK, sig_blocked t); (SIG_R8, k_r8 k); (SIG_R9, k_r9 k);
   (SIG_R10, read_u64 (orig_rsp - 8) m); (SIG_R11, k_r11 k); (SIG_R12, k_r12 k); (SIG_R13, k_r13 k);
   (SIG_R14, k_r14 k); (SIG_R15, k_r15 k); (SIG_RDI, k_rdi k); (SIG_RSI, k_rsi k); (SIG_RBP, k_rbp k);
   (SIG_RBX, k_rbx k); (SIG_RDX, k_rdx k); (SIG_RAX, sys_ret); (SIG_RCX, k_rcx k); (SIG_RSP, orig_rsp);
   (SIG_RIP, k_rcx k); (SIG_EFLAGS, k_r11 k)].

Definition write_words (base : Z) (ws : list (Z * Z)) (m : mem) : mem :=
  foldl (λ m w, write_u64 (base + w.1) w.2 m) m ws.

Definition write_frame (act : SignalAction) (t : sigs) (k : area) (sys_ret : Z) (m : mem) : mem :=
  let f := frame_of k in
  let m := write_words f (frame_words act t k sys_ret m) m in
  write_u16 (f + SIG_FS) 0 (write_u16 (f + SIG_GS) 0 (write_u16 (f + SIG_CS) 0x33 m)).

Definition enter (sig : nat) (act : SignalAction) (t : sigs) (k : area) (sys_ret : Z) (m : mem) : exit_path :=
  let f := frame_of k in
  Entered
    (with_mask (Z.lor (sig_blocked t) (Z.lor (sig_bit sig) (sa_mask act))) (Z.ldiff (sig_pending t) (sig_bit sig)) t)
    (mkArea (w64 (f - 24)) (k_r9 k) (k_r8 k) (f + SIG_UC) (Z.of_nat sig) (k_rdx k) (k_r11 k) (handler act)
       (k_r15 k) (k_r14 k) (k_r13 k) (k_r12 k) (k_rbp k) (k_rbx k))
    (write_frame act t k sys_ret m).

(** The loop over the signals, from [sig] on. *)
Fixpoint deliver_loop (n sig : nat) (t : sigs) (k : area) (sys_ret : Z) (m : mem) : exit_path :=
  match n with
  | O => Untouched t
  | S n' =>
      let act := sig_handlers t !!! sig in
      if negb (is_pending t sig) || is_blocked t sig then deliver_loop n' (S sig) t k sys_ret m
      else if handler act =? SIG_IGN then deliver_loop n' (S sig) t k sys_ret m
      else if handler act =? SIG_DFL then
        if terminates (Z.of_nat sig)
        then Ended (128 + Z.of_nat sig) (with_mask (sig_blocked t) (Z.ldiff (sig_pending t) (sig_bit sig)) t)
        else deliver_loop n' (S sig) t k sys_ret m
      else if (restorer act =? 0) || (Z.land (sa_flags act) SA_RESTORER =? 0) then deliver_loop n' (S sig) t k sys_ret m
      else enter sig act t k sys_ret m
  end.

(** [PENDING_RESTORE] is taken first. *)
Definition check_deliver_signal (restore : option context) (t : sigs) (k : area) (sys_ret : Z) (m : mem) : exit_path :=
  match restore with
  | Some c => Resumed (resume c)
  | None => deliver_loop (SIGNAL_COUNT - 1) 1 t k sys_ret m
  end.

(** [user_rsp] is the stack pointer of the call, 8 above the frame: the value
    returned, the parked context and the task. *)
Definition sys_rt_sigreturn (user_rsp : Z) (t : sigs) (m : mem) : Z * context * sigs :=
  let f := w64 (user_rsp - 8) in
  let g o := read_u64 (f + o) m in
  (g SIG_RAX,
   mkContext (g SIG_RDI) (g SIG_RSI) (g SIG_RDX) (g SIG_R8) (g SIG_R9) (g SIG_RIP) (g SIG_EFLAGS) (g SIG_RSP)
     (g SIG_R15) (g SIG_R14) (g SIG_R13) (g SIG_R12) (g SIG_RBP) (g SIG_RBX),
   with_mask (g SIG_SIGMASK) (sig_pending t) t).

(** ** [rt_sigsuspend] *)

(** A pending signal that the mask lets through and that is not ignored. *)
Definition deliverable (t : sigs) : bool :=
  existsb (λ sig, is_pending t sig && negb (is_blocked t sig) && negb (handler (sig_handlers t !!! sig) =? SIG_IGN))
    (seq 1 (SIGNAL_COUNT - 1)).

(** The part under the lock: whether the call returns at once; otherwise the
    task blocks with the new mask. *)
Definition sigsuspend_begin (mask : Z) (t : sigs) : bool * sigs :=
  let t' := with_mask mask (sig_pending t) t in
  if deliverable t' then (true, t) else (false, t').

(** After the task was woken. *)
Definition sigsuspend_end (old_mask : Z) (t : sigs) : sigs := with_mask old_mask (sig_pending t) t.

(** * Reading back words written to user memory *)


Definition is_word (v : Z) : Prop := 0 ≤ v < 2 ^ 64.

Lemma read_write_same p v m : is_word v → read_u64 p (write_u64 p v m) = v.
Proof.
  intros Hv. unfold read_u64, write_u64. replace 8%nat with (length (le_bytes 8 v)) at 1 by apply le_bytes_length.
  rewrite mem_read_write. by apply le_value_bytes.
Qed.

(** Two ranges of memory that do not meet. *)
Lemma read_write_apart p q n bs m : q + n ≤ p ∨ p + Z.of_nat (length bs) ≤ q → 0 ≤ n →
  le_value (mem_read q (Z.to_nat n) (mem_write p bs m)) = le_value (mem_read q (Z.to_nat n) m).
Proof.
  intros H Hn. f_equal. apply mem_read_ext. intros x Hx. rewrite mem_write_get. rewrite decide_False; [done|]. lia.
Qed.

Lemma read_write_other p q v m : p + 8 ≤ q ∨ q + 8 ≤ p → read_u64 q (write_u64 p v m) = read_u64 q m.
Proof. intros H. apply (read_write_apart p q 8); [rewrite le_bytes_length; lia|lia]. Qed.

Lemma read_write_u16 p q v m : p + 2 ≤ q ∨ q + 8 ≤ p → read_u64 q (write_u16 p v m) = read_u64 q m.
Proof. intros H. apply (read_write_apart p q 8); [rewrite le_bytes_length; lia|lia]. Qed.

(** Equal bytes, equal words. *)
Lemma read_u64_ext p m m' : (∀ x, p ≤ x < p + 8 → getd 0 m' x = getd 0 m x) → read_u64 p m' = read_u64 p m.
Proof. intros H. unfold read_u64. f_equal. apply mem_read_ext. intros x Hx. apply H. lia. Qed.

Lemma write_u64_get p v m x : ¬ (p ≤ x < p + 8) → getd 0 (write_u64 p v m) x = getd 0 m x.
Proof. intros H. unfold write_u64. rewrite mem_write_get, decide_False; [done|]. rewrite le_bytes_length. lia. Qed.
