(* ===== verification/SignalClaims.v ===== *)
(** * The theorems about signals *)

From S2P Require Import Prelude Bytes Signal.
From Stdlib Require Import Lia ZArith.
From stdpp Require Import base gmap numbers list.
Local Open Scope Z_scope.

(** ** Words in memory *)

(** Words at distinct multiples of eight above a base. *)
Definition spaced (ws : list (Z * Z)) : Prop := NoDup (fst <$> ws) ∧ Forall (λ w, w.1 mod 8 = 0) ws.

Lemma write_words_other base ws q m : Forall (λ w, base + w.1 + 8 ≤ q ∨ q + 8 ≤ base + w.1) ws →
  read_u64 q (write_words base ws m) = read_u64 q m.
Proof.
  revert m; induction ws as [|w ws IH]; intros m Hw; [done|]. apply Forall_cons in Hw as [Hw Hws].
  unfold write_words. cbn [foldl]. fold (write_words base ws (write_u64 (base + w.1) w.2 m)).
  rewrite IH by done. by apply read_write_other.
Qed.

Lemma write_words_read base ws o v m : spaced ws → (o, v) ∈ ws → is_word v → read_u64 (base + o) (write_words base ws m) = v.
Proof.
  revert m; induction ws as [|x ws IH]; intros m [Hnd Hf] Hw Hv; [by apply elem_of_nil in Hw|].
  rewrite fmap_cons in Hnd. apply NoDup_cons in Hnd as [Hx Hnd]. apply Forall_cons in Hf as [Hm Hf].
  unfold write_words. cbn [foldl]. fold (write_words base ws (write_u64 (base + x.1) x.2 m)).
  apply elem_of_cons in Hw as [<-|Hw]; [|by apply IH]. cbn [fst snd] in *.
  rewrite write_words_other; [by apply read_write_same|].
  apply Forall_forall. intros y Hy. rewrite Forall_forall in Hf. pose proof (Hf y Hy) as Hym. cbv beta in Hym.
  assert (y.1 ≠ o) as Hne by (intros E; apply Hx; rewrite <- E; by apply list_elem_of_fmap_2).
  pose proof (Z.div_mod y.1 8 ltac:(lia)). pose proof (Z.div_mod o 8 ltac:(lia)). lia.
Qed.

(** ** The frame *)

Lemma land_down16 x : 0 ≤ x < 2 ^ 64 → Z.land x (w64 (-16)) = 16 * (x / 16).
Proof.
  intros Hx. change (w64 (-16)) with (Z.shiftl (Z.ones 60) 4).
  assert (Z.land x (Z.shiftl (Z.ones 60) 4) = Z.shiftl (Z.land (Z.shiftr x 4) (Z.ones 60)) 4) as ->.
  { apply Z.bits_inj'. intros n Hn. rewrite Z.land_spec, !Z.shiftl_spec by done.
    destruct (Z.lt_ge_cases n 4).
    - rewrite !(Z.testbit_neg_r _ (n - 4)) by lia. by rewrite andb_false_r.
    - rewrite Z.land_spec, Z.shiftr_spec by lia. by replace (n - 4 + 4) with n by lia. }
  rewrite Z.land_ones by lia. rewrite Z.shiftr_div_pow2, Z.shiftl_mul_pow2 by lia. change (2 ^ 4) with 16.
  rewrite Z.mod_small; [lia|]. split; [apply Z.div_pos; lia|]. apply Z.div_lt_upper_bound; [lia|]. change (16 * 2 ^ 60) with (2 ^ 64). lia.
Qed.

(** The saved registers are words, and the stack has room for a frame. *)
Record area_ok (k : area) : Prop := {
  ao_regs : Forall is_word [k_r9 k; k_r8 k; k_rsi k; k_rdi k; k_rdx k; k_r11 k; k_rcx k; k_r15 k; k_r14 k; k_r13 k; k_r12 k; k_rbp k; k_rbx k];
  ao_room : 336 ≤ k_rsp k < 2 ^ 64 - 24;
}.

Lemma frame_of_spec k : area_ok k → frame_of k = 16 * ((k_rsp k - 296) / 16) ∧ 24 ≤ frame_of k ∧ frame_of k + SIG_FRAME_SIZE ≤ k_rsp k + 24.
Proof.
  intros [_ Hr]. unfold frame_of, SIG_FRAME_SIZE. rewrite (w64_small (k_rsp k + 24)) by lia.
  rewrite w64_small by lia. rewrite land_down16 by lia. replace (k_rsp k + 24 - 320) with (k_rsp k - 296) by lia.
  pose proof (Z.div_mod (k_rsp k - 296) 16 ltac:(lia)). pose proof (Z.mod_pos_bound (k_rsp k - 296) 16 ltac:(lia)). lia.
Qed.

Lemma frame_spaced act t k ret m : spaced (frame_words act t k ret m).
Proof.
  split.
  - cbn. apply (bool_decide_unpack _). vm_compute. exact I.
  - cbn. repeat (apply Forall_cons; split; [reflexivity|]). apply Forall_nil_2.
Qed.

(** What is read back from the frame, after anything that leaves it alone. *)
Lemma frame_read act t k ret m m2 o v : 
  (∀ x, frame_of k ≤ x < frame_of k + SIG_FRAME_SIZE → getd 0 m2 x = getd 0 (write_frame act t k ret m) x) →
  (o, v) ∈ frame_words act t k ret m → is_word v → read_u64 (frame_of k + o) m2 = v.
Proof.
  intros Heq Ho Hv.
  assert (0 ≤ o ∧ o + 8 ≤ SIG_FRAME_SIZE ∧ (o + 8 ≤ SIG_CS ∨ SIG_FS + 2 ≤ o)) as (Ho1 & Ho2 & Ho3).
  { cbn in Ho. repeat (apply elem_of_cons in Ho as [[= -> _]|Ho]; [unfold SIG_FRAME_SIZE; vm_compute; split_and!; [discriminate|discriminate|..]; (left; discriminate) || (right; discriminate)|]).
    by apply elem_of_nil in Ho. }
  assert (read_u64 (frame_of k + o) m2 = read_u64 (frame_of k + o) (write_frame act t k ret m)) as ->.
  { unfold read_u64. f_equal. apply mem_read_ext. intros x Hx. apply Heq. lia. }
  unfold write_frame. unfold SIG_CS, SIG_GS, SIG_FS, SIG_MCTX in *.
  rewrite !read_write_u16 by lia. apply write_words_read; [apply frame_spaced|done|done].
Qed.

(** ** Delivery and return *)

Lemma deliver_loop_entered n sig t k ret m t1 k1 m1 :
  deliver_loop n sig t k ret m = Entered t1 k1 m1 →
  ∃ i act, (sig <= i < sig + n)%nat ∧ act = sig_handlers t !!! i ∧ is_pending t i = true ∧ is_blocked t i = false ∧
    handler act ≠ SIG_DFL ∧ handler act ≠ SIG_IGN ∧ Entered t1 k1 m1 = enter i act t k ret m.
Proof.
  revert sig; induction n as [|n IH]; intros sig; cbn [deliver_loop]; [done|].
  assert (Hrec : deliver_loop n (S sig) t k ret m = Entered t1 k1 m1 → ∃ i act, (sig <= i < sig + S n)%nat ∧ act = sig_handlers t !!! i ∧
    is_pending t i = true ∧ is_blocked t i = false ∧ handler act ≠ SIG_DFL ∧ handler act ≠ SIG_IGN ∧ Entered t1 k1 m1 = enter i act t k ret m).
  { intros H. destruct (IH _ H) as (i & act & Hi & Hrest). exists i, act. split; [lia|done]. }
  destruct (negb (is_pending t sig) || is_blocked t sig) eqn:E; [exact Hrec|].
  destruct (handler (sig_handlers t !!! sig) =? SIG_IGN) eqn:E1; [exact Hrec|].
  destruct (handler (sig_handlers t !!! sig) =? SIG_DFL) eqn:E2; [destruct (terminates _); [done|exact Hrec]|].
  destruct ((restorer (sig_handlers t !!! sig) =? 0) || (Z.land (sa_flags (sig_handlers t !!! sig)) SA_RESTORER =? 0)); [exact Hrec|].
  intros H. bool_to_prop. exists sig, (sig_handlers t !!! sig). split_and!; try done; lia.
Qed.

(** What [rt_sigreturn] reads from a frame that was left alone. *)
Lemma sigreturn_frame act t k ret m t2 m2 : area_ok k → is_word ret → is_word (sig_blocked t) →
  (∀ x, frame_of k ≤ x < frame_of k + SIG_FRAME_SIZE → getd 0 m2 x = getd 0 (write_frame act t k ret m) x) →
  sys_rt_sigreturn (frame_of k + 8) t2 m2 =
    (ret, mkContext (k_rdi k) (k_rsi k) (k_rdx k) (k_r8 k) (k_r9 k) (k_rcx k) (k_r11 k) (w64 (k_rsp k + 24))
            (k_r15 k) (k_r14 k) (k_r13 k) (k_r12 k) (k_rbp k) (k_rbx k), with_mask (sig_blocked t) (sig_pending t2) t2).
Proof.
  intros Hk Hret Hb Hm. destruct (frame_of_spec k Hk) as (Hf16 & Hf24 & Hf). pose proof Hk as [Hregs Hroom]. unfold SIG_FRAME_SIZE in Hf.
  unfold sys_rt_sigreturn. assert (w64 (frame_of k + 8 - 8) = frame_of k) as -> by (rewrite w64_small; lia).
  assert (R : ∀ o v, (o, v) ∈ frame_words act t k ret m → is_word v → read_u64 (frame_of k + o) m2 = v) by (intros o v; by apply frame_read).
  repeat (apply Forall_cons in Hregs as [? Hregs]).
  assert (is_word (w64 (k_rsp k + 24))) as Hrsp by (rewrite w64_small; unfold is_word; lia).
  clear Hm. cbv zeta.
  set (ws := frame_words act t k ret m) in R.
  assert (L : ∀ n o v, ws !! n = Some (o, v) → is_word v → read_u64 (frame_of k + o) m2 = v)
    by (intros n o v Hn; apply R; by eapply list_elem_of_lookup_2).
  rewrite (L 15%nat SIG_RAX ret eq_refl Hret), (L 10%nat SIG_RDI (k_rdi k) eq_refl ltac:(assumption)),
    (L 11%nat SIG_RSI (k_rsi k) eq_refl ltac:(assumption)), (L 14%nat SIG_RDX (k_rdx k) eq_refl ltac:(assumption)),
    (L 2%nat SIG_R8 (k_r8 k) eq_refl ltac:(assumption)), (L 3%nat SIG_R9 (k_r9 k) eq_refl ltac:(assumption)),
    (L 18%nat SIG_RIP (k_rcx k) eq_refl ltac:(assumption)), (L 19%nat SIG_EFLAGS (k_r11 k) eq_refl ltac:(assumption)),
    (L 17%nat SIG_RSP (w64 (k_rsp k + 24)) eq_refl Hrsp), (L 9%nat SIG_R15 (k_r15 k) eq_refl ltac:(assumption)),
    (L 8%nat SIG_R14 (k_r14 k) eq_refl ltac:(assumption)), (L 7%nat SIG_R13 (k_r13 k) eq_refl ltac:(assumption)),
    (L 6%nat SIG_R12 (k_r12 k) eq_refl ltac:(assumption)), (L 12%nat SIG_RBP (k_rbp k) eq_refl ltac:(assumption)),
    (L 13%nat SIG_RBX (k_rbx k) eq_refl ltac:(assumption)), (L 1%nat SIG_SIGMASK (sig_blocked t) eq_refl Hb).
  reflexivity.
Qed.

Lemma deliver_none t k ret m : check_deliver_signal None t k ret m = deliver_loop (SIGNAL_COUNT - 1) 1 t k ret m.
Proof. reflexivity. Qed.

Lemma deliver_some c t k ret m : check_deliver_signal (Some c) t k ret m = Resumed (resume c).
Proof. reflexivity. Qed.

Lemma bit_cleared p i : Z.land (Z.ldiff p (sig_bit i)) (sig_bit i) = 0.
Proof. apply Z.bits_inj'. intros n Hn. rewrite Z.land_spec, Z.ldiff_spec, Z.bits_0. destruct (Z.testbit p n), (Z.testbit (sig_bit i) n); done. Qed.

Lemma bit_set b i x : Z.land (Z.shiftr (Z.lor b (Z.lor (sig_bit i) x)) (Z.of_nat i)) 1 ≠ 0.
Proof.
  intros X. assert (Z.testbit (Z.land (Z.shiftr (Z.lor b (Z.lor (sig_bit i) x)) (Z.of_nat i)) 1) 0 = true) as Y; [|by rewrite X in Y].
  rewrite Z.land_spec, Z.shiftr_spec, Z.lor_spec, Z.lor_spec by lia. unfold sig_bit. rewrite Z.shiftl_spec by lia.
  replace (0 + Z.of_nat i - Z.of_nat i) with 0 by lia. cbn. by rewrite orb_true_r.
Qed.

Lemma inj3 t k m t' k' m' : Entered t k m = Entered t' k' m' → t = t' ∧ k = k' ∧ m = m'.
Proof. by intros [= -> -> ->]. Qed.

(** C19: Running a signal handler is transparent.  When the way out of a system
    call enters a handler, the task resumes in it with the signal and its mask
    blocked and no longer pending; whatever the handler does, as long as it
    leaves the frame on its stack alone, the return through [rt_sigreturn]
    gives back every register that the system call had saved, its return value
    and the mask of before. *)
Theorem handler_roundtrip t k ret m t1 k1 m1 t2 m2 t3 k2 r2 rax c :
  area_ok k → is_word ret → is_word (sig_blocked t) →
  check_deliver_signal None t k ret m = Entered t1 k1 m1 →
  let f := w64 (k_rsp k1 + 24) in
  (∀ x, f ≤ x < f + SIG_FRAME_SIZE → getd 0 m2 x = getd 0 m1 x) →
  sys_rt_sigreturn (f + 8) t2 m2 = (rax, c, t3) →
  (∃ i, (0 < i < SIGNAL_COUNT)%nat ∧ k_rdi k1 = Z.of_nat i ∧ k_rcx k1 = handler (sig_handlers t !!! i) ∧
     is_pending t i = true ∧ is_blocked t i = false ∧ is_pending t1 i = false ∧ is_blocked t1 i = true) ∧
  rax = ret ∧ sig_blocked t3 = sig_blocked t ∧ check_deliver_signal (Some c) t3 k2 r2 m2 = Resumed k.
Proof.
  intros Hk Hret Hb Hd f Hm Hs.
  rewrite deliver_none in Hd. apply deliver_loop_entered in Hd as (i & act & Hi & Ha & Hp & Hbl & Hdfl & Hign & He).
  unfold enter in He. apply (inj3 _ _ _ _ _ _) in He as (-> & -> & ->). cbn [k_rsp k_rdi k_rcx sig_blocked with_mask] in *.
  destruct (frame_of_spec k Hk) as (Hf16 & Hf24 & Hf). pose proof Hk as [Hregs Hroom].
  assert (f = frame_of k) as Hff.
  { subst f. unfold SIG_FRAME_SIZE in Hf. rewrite (w64_small (frame_of k - 24)) by lia. rewrite w64_small by lia. lia. }
  rewrite Hff in *. rewrite (sigreturn_frame act t k ret m) in Hs by done. apply pair_eq in Hs as [[<- <-]%pair_eq <-].
  split_and!; try done.
  - exists i. unfold SIGNAL_COUNT in *. split_and!; try done; try lia.
    + by rewrite Ha.
    + unfold is_pending. cbn [sig_pending with_mask]. by rewrite bit_cleared.
    + unfold is_blocked. cbn [sig_blocked with_mask]. apply negb_true_iff, Z.eqb_neq, bit_set.
  - rewrite deliver_some. f_equal. unfold resume. cbn [c_rdi c_rsi c_rdx c_r8 c_r9 c_rip c_eflags c_rsp c_r15 c_r14 c_r13 c_r12 c_rbp c_rbx].
    rewrite (w64_small (k_rsp k + 24)), w64_small by lia. replace (k_rsp k + 24 - 24) with (k_rsp k) by lia. by destruct k.
Qed.

(** ** Suspending *)

Lemma testbit_land1 p i : (Z.land p (sig_bit i) =? 0) = negb (Z.testbit p (Z.of_nat i)).
Proof.
  unfold sig_bit. destruct (Z.testbit p (Z.of_nat i)) eqn:E; cbn.
  - apply Z.eqb_neq. intros H. assert (Z.testbit (Z.land p (Z.shiftl 1 (Z.of_nat i))) (Z.of_nat i) = true) as X; [|by rewrite H, Z.bits_0 in X].
    rewrite Z.land_spec, E, Z.shiftl_spec by lia. by rewrite Z.sub_diag.
  - apply Z.eqb_eq, Z.bits_inj'. intros n Hn. rewrite Z.land_spec, Z.shiftl_spec, Z.bits_0 by done.
    destruct (decide (n = Z.of_nat i)) as [->|]; [by rewrite E|].
    destruct (Z.lt_ge_cases n (Z.of_nat i)); [rewrite (Z.testbit_neg_r 1) by lia; by rewrite andb_false_r|].
    rewrite (Z.bits_above_log2 1) by (cbn; lia). by rewrite andb_false_r.
Qed.

Lemma is_pending_bit t i : is_pending t i = Z.testbit (sig_pending t) (Z.of_nat i).
Proof. unfold is_pending. rewrite testbit_land1. apply negb_involutive. Qed.

Lemma is_pending_raise sig t i : is_pending (raise sig t) i = is_pending t i || (i =? sig)%nat.
Proof.
  rewrite !is_pending_bit. cbn [raise with_mask sig_pending]. rewrite Z.lor_spec. f_equal. unfold sig_bit.
  destruct (Nat.eqb_spec i sig) as [->|]; [rewrite Z.shiftl_spec by lia; by rewrite Z.sub_diag|].
  rewrite Z.shiftl_spec by lia. destruct (Z.lt_ge_cases (Z.of_nat i) (Z.of_nat sig)); [by rewrite Z.testbit_neg_r by lia|].
  apply Z.bits_above_log2; cbn; lia.
Qed.

(** Nothing to deliver: every pending signal is blocked. *)
Definition settled (t : sigs) : Prop := ∀ i, is_pending t i = true → is_blocked t i = true.

Lemma deliver_loop_settled n sig t k ret m : settled t → deliver_loop n sig t k ret m = Untouched t.
Proof.
  intros H. revert sig; induction n as [|n IH]; intros sig; cbn [deliver_loop]; [done|].
  specialize (H sig). destruct (is_pending t sig); cbn [negb orb]; [rewrite H by done|]; apply IH.
Qed.

(** [rt_sigsuspend] does not deliver the signal it waits for.  A task
    blocks a signal that it handles, and suspends with a mask that lets it
    through, the usual way to wait for a child.  When the signal comes, the
    call restores the old mask before the way out looks for signals: the
    handler is not run, the signal stays pending, and every later call with
    the same mask returns at once without running it either. *)
Theorem sigsuspend_starves mask sig t :
  (0 < sig < SIGNAL_COUNT)%nat → settled t → is_blocked t sig = true →
  is_blocked (with_mask mask 0 t) sig = false → handler (sig_handlers t !!! sig) ≠ SIG_IGN →
  (sigsuspend_begin mask t).1 = false →
  let t1 := sigsuspend_end (sig_blocked t) (raise sig (sigsuspend_begin mask t).2) in
  is_pending t1 sig = true ∧ sigsuspend_begin mask t1 = (true, t1) ∧
  ∀ k ret m, check_deliver_signal None t1 k ret m = Untouched t1.
Proof.
  intros Hsig Hset Hb Hm Hh Hblk t1. assert (t1 = raise sig t) as ->.
  { subst t1. unfold sigsuspend_begin in *. destruct (deliverable _); [done|]. by destruct t. }
  split_and!.
  - rewrite is_pending_raise, Nat.eqb_refl. by destruct (is_pending t sig).
  - unfold sigsuspend_begin. assert (deliverable (with_mask mask (sig_pending (raise sig t)) (raise sig t)) = true) as ->; [|done].
    apply existsb_exists. exists sig. split; [apply in_seq; unfold SIGNAL_COUNT in *; lia|].
    assert (is_pending (with_mask mask (sig_pending (raise sig t)) (raise sig t)) sig = true) as ->.
    { change (is_pending (raise sig t) sig = true). rewrite is_pending_raise, Nat.eqb_refl. by destruct (is_pending t sig). }
    assert (is_blocked (with_mask mask (sig_pending (raise sig t)) (raise sig t)) sig = false) as -> by exact Hm.
    apply Z.eqb_neq in Hh. cbn [sig_handlers with_mask raise]. by rewrite Hh.
  - intros k ret m. rewrite deliver_none. apply deliver_loop_settled. intros i. rewrite is_pending_raise.
    change (is_blocked (raise sig t) i) with (is_blocked t i). destruct (Nat.eqb_spec i sig) as [->|]; [by intros|].
    rewrite orb_false_r. apply Hset.
Qed.

(** ** Witnesses *)

(** A task that handles signal 10 at 0x401000, with a restorer. *)
Definition usr1 : SignalAction := mkSigAction 0x401000 (Z.shiftl 1 12) SA_RESTORER 0x402000.
Definition sg_1 : sigs := mkSigs (<[10%nat := usr1]> (sig_handlers sigs_empty)) 4 0 0 0 0.
Definition k_1 : area := mkArea 0x7ffe0000 9 8 6 5 3 0x202 0x400100 15 14 13 12 11 10.

Lemma k_1_ok : area_ok k_1.
Proof. split; [|unfold k_1; cbn; lia]. cbn. unfold is_word. repeat (apply Forall_cons; split; [lia|]). apply Forall_nil_2. Qed.

(** Signal 10 arrives; the handler unblocks everything and writes above the
    frame. *)
Lemma handler_roundtrip_witness : ∃ t1 k1 m1 c,
  check_deliver_signal None (raise 10 sg_1) k_1 42 ∅ = Entered t1 k1 m1 ∧
  sys_rt_sigreturn (k_rsp k1 + 24 + 8) (with_mask 0 0 t1) (write_u64 0x7ffe0020 7 m1) = (42, c, with_mask 4 0 t1) ∧
  check_deliver_signal (Some c) (with_mask 4 0 t1) k1 42 m1 = Resumed k_1.
Proof.
  assert (match check_deliver_signal None (raise 10 sg_1) k_1 42 ∅ with Entered _ k1 _ => k_rsp k1 =? 0x7ffdfeb8 | _ => false end = true) as Hr
    by (vm_compute; reflexivity).
  destruct (check_deliver_signal None (raise 10 sg_1) k_1 42 ∅) as [|?|t1 k1 m1|] eqn:E; [discriminate Hr..| |discriminate Hr].
  apply Z.eqb_eq in Hr.
  destruct (sys_rt_sigreturn (k_rsp k1 + 24 + 8) (with_mask 0 0 t1) (write_u64 0x7ffe0020 7 m1)) as [[rax c] t3] eqn:E3.
  assert (w64 (k_rsp k1 + 24) = k_rsp k1 + 24) as Hw by (rewrite Hr; reflexivity).
  destruct (handler_roundtrip (raise 10 sg_1) k_1 42 ∅ t1 k1 m1 (with_mask 0 0 t1) (write_u64 0x7ffe0020 7 m1) t3 k1 42 rax c
    k_1_ok) as (_ & Hrax & Hb & Hres); [unfold is_word; lia|vm_compute; split; congruence|exact E| |rewrite Hw; exact E3|].
  - rewrite Hw, Hr. intros x Hx. unfold write_u64. rewrite mem_write_get, decide_False; [done|]. unfold SIG_FRAME_SIZE in Hx. lia.
  - exists t1, k1, m1, c. split_and!; [done| |exact Hres].
    assert (t3 = with_mask 4 0 t1) as <-; [|rewrite Hrax in E3; exact E3].
    unfold sys_rt_sigreturn in E3. injection E3 as _ _ <-. cbn [sig_blocked with_mask] in Hb. rewrite Hb. done.
Defined.

(** Waiting for a child with SIGCHLD blocked. *)
Definition sg_2 : sigs := mkSigs (<[17%nat := usr1]> (sig_handlers sigs_empty)) (Z.shiftl 1 17) 0 0 0 0.

Lemma sigsuspend_starves_witness :
  let t1 := sigsuspend_end (sig_blocked sg_2) (raise 17 (sigsuspend_begin 0 sg_2).2) in
  sigsuspend_begin 0 t1 = (true, t1) ∧ check_deliver_signal None t1 k_1 0 ∅ = Untouched t1.
Proof.
  destruct (sigsuspend_starves 0 17 sg_2) as (_ & H1 & H2); [unfold SIGNAL_COUNT; lia|..|vm_compute; reflexivity|].
  - intros i Hi. rewrite is_pending_bit in Hi. by rewrite Z.bits_0 in Hi.
  - vm_compute. reflexivity.
  - vm_compute. reflexivity.
  - vm_compute. discriminate.
  - split; [exact H1|apply H2].
Defined.
