(* ===== verification/Proc.v ===== *)
(** * Processes: exit, kill, wait: [src/task.rs]

    The ends of tasks, composed from the scheduler, the descriptor tables and
    the signal tables: [exit_task], [kill_task_zombie], the delivery of a
    signal to a task, [kill] and [tkill], the default actions taken on the way
    out of a system call, [waitpid], the process groups.  The signal lock is a
    flag: taking it while it is held spins for ever.  What [waitpid] gives back
    to the allocators is a log. *)

From S2P Require Import Prelude Sched Futex Pipe Bytes Signal.
From stdpp Require Import base gmap numbers list.
Local Open Scope Z_scope.

Definition EPERM : Z := 1.
Definition ESRCH : Z := 3.
Definition ECHILD : Z := 10.
Definition WNOHANG : Z := 1.
Definition SIGSUSPEND_MAGIC : Z := U64_MAX - 1.

(** ** State *)

(** The fields of a task that the scheduler does not use. *)
Record ptask := mkPtask {
  t_parent : option nat; t_exit_code : Z; t_tgid : Z; t_child_tidptr : Z; t_kernel_stack : Z; t_pml4 : Z; t_private : bool;
  t_poll_fds : Z; t_sigs : sigs;
}.
Definition ptask_empty : ptask := mkPtask None 0 0 0 0 0 false 0 sigs_empty.
#[export] Instance ptask_inhabited : Inhabited ptask := populate ptask_empty.

Definition with_parent (p : option nat) (t : ptask) : ptask :=
  mkPtask p (t_exit_code t) (t_tgid t) (t_child_tidptr t) (t_kernel_stack t) (t_pml4 t) (t_private t) (t_poll_fds t) (t_sigs t).
Definition with_code (c : Z) (t : ptask) : ptask :=
  mkPtask (t_parent t) c (t_tgid t) (t_child_tidptr t) (t_kernel_stack t) (t_pml4 t) (t_private t) (t_poll_fds t) (t_sigs t).
Definition with_tgid (g : Z) (t : ptask) : ptask :=
  mkPtask (t_parent t) (t_exit_code t) g (t_child_tidptr t) (t_kernel_stack t) (t_pml4 t) (t_private t) (t_poll_fds t) (t_sigs t).
Definition with_sigs (x : sigs) (t : ptask) : ptask :=
  mkPtask (t_parent t) (t_exit_code t) (t_tgid t) (t_child_tidptr t) (t_kernel_stack t) (t_pml4 t) (t_private t) (t_poll_fds t) x.

(** A kernel stack or an address space given back. *)
Inductive released := RStack (ks : Z) | RSpace (pml4 : Z).

(** [user] is the user memory by address space, as 32-bit words: a missing
    entry is an address that is not mapped. *)
Record procs := mkProcs {
  sch : sched; pt : list ptask; fl : files; user : gmap Z (gmap Z Z); sig_lock : bool; freed : list released;
}.

Definition set_sc (x : sched) (s : procs) : procs := mkProcs x (pt s) (fl s) (user s) (sig_lock s) (freed s).
Definition set_pt (x : list ptask) (s : procs) : procs := mkProcs (sch s) x (fl s) (user s) (sig_lock s) (freed s).
Definition set_fl (x : files) (s : procs) : procs := mkProcs (sch s) (pt s) x (user s) (sig_lock s) (freed s).
Definition set_user (x : gmap Z (gmap Z Z)) (s : procs) : procs := mkProcs (sch s) (pt s) (fl s) x (sig_lock s) (freed s).
Definition set_lock (b : bool) (s : procs) : procs := mkProcs (sch s) (pt s) (fl s) (user s) b (freed s).
Definition release (l : list released) (s : procs) : procs := mkProcs (sch s) (pt s) (fl s) (user s) (sig_lock s) (freed s ++ l).

Definition pt_ref (s : procs) (id : nat) : ptask := pt s !!! task_idx id.
Definition upd_pt (id : nat) (f : ptask → ptask) (s : procs) : procs := set_pt (<[task_idx id := f (pt_ref s id)]> (pt s)) s.
Definition upd_sc (id : nat) (f : Task → Task) (s : procs) : procs := set_sc (upd_task id f (sch s)) s.

(** The memory the task sees. *)
Definition space_of (s : procs) (id : nat) : gmap Z Z := default ∅ (user s !! t_pml4 (pt_ref s id)).
Definition set_space (id : nat) (m : gmap Z Z) (s : procs) : procs := set_user (<[t_pml4 (pt_ref s id) := m]> (user s)) s.

(** [RawSpin::lock] on [SIGNAL_LOCK], and the drop of the guard. *)
Definition lock (s : procs) : comp procs := if sig_lock s then Spin else Done (set_lock true s).
Definition unlock (s : procs) : procs := set_lock false s.

(** How a piece of the kernel ends: it returns a value, or the task gave the
    CPU away for good. *)
Inductive kres := Sent (r : Z) | Gone (p : pick).

(** ** Waking *)

Definition on_sched {A} (f : sched → comp (A * sched)) (s : procs) : comp (A * procs) :=
  let! (r, x) := f (sch s) in Done (r, set_sc x s).

(** [state = Ready; blocked_on = 0; enqueue_task(id, prio)] *)
Definition ready (id : nat) (s : procs) : procs :=
  upd_sc id (λ t, with_block TReady 0 (t_wakeup_tick t) (t_futex_deadline t) t) s.

Definition enqueue (id : nat) (s : procs) : comp procs :=
  let! x := enqueue_task id (t_prio (task_ref (sch s) id)) (sch s) in Done (set_sc x s).

(** The parent blocked on the task, or on any. *)
Definition notify_waiter (p id : nat) (s : procs) : comp procs :=
  let t := task_ref (sch s) p in
  if state_eqb (t_state t) TBlocked && ((t_blocked_on t =? Z.of_nat id) || (t_blocked_on t =? U64_MAX))
  then enqueue p (ready p s) else Done s.

(** SIGCHLD to the parent: whether it is to be queued. *)
Definition post_sigchld (p : nat) (s : procs) : bool * procs :=
  let t := task_ref (sch s) p in
  let x := t_sigs (pt_ref s p) in
  if negb (t_id t =? 0)%nat && negb (state_eqb (t_state t) TEmpty) then
    let act := sig_handlers x !!! Z.to_nat SIGCHLD in
    if negb (handler act =? SIG_IGN) && negb (handler act =? SIG_DFL) then
      let s := upd_pt p (with_sigs (raise (Z.to_nat SIGCHLD) x)) s in
      if state_eqb (t_state t) TBlocked && ((t_blocked_on t =? SIGSUSPEND_MAGIC) || negb (t_poll_fds (pt_ref s p) =? 0))
      then (true, ready p s) else (false, s)
    else (false, s)
  else (false, s).

(** CLONE_CHILD_CLEARTID: the word is cleared when it is mapped, and one
    waiter is woken. *)
Definition clear_child_tid (cur : nat) (ct : Z) (s : procs) : comp procs :=
  if negb (ct =? 0) && bool_decide (is_Some (space_of s cur !! ct)) then
    let s := set_space cur (<[ct + 4 := 0]> (<[ct := 0]> (space_of s cur))) s in
    let! (_, s) := on_sched (futex_wake ct 1) s in Done s
  else Done s.

Definition reparent_children_to_init (from : nat) (s : procs) : procs :=
  set_pt (imap (λ i t, if negb (t_id (tasks (sch s) !!! i) =? 0)%nat && bool_decide (t_parent t = Some from)
                       then with_parent (Some 1%nat) t else t) (pt s)) s.

(** ** The end of a task *)

Definition become_zombie (id : nat) (code : Z) (s : procs) : procs :=
  upd_pt id (with_code code) (upd_sc id (with_state TZombie) s).

(** SIGCHLD to the parent, under the lock, and the wake-up of a parent that
    waits for the task. *)
Definition tell_parent (p cur : nat) (s : procs) : comp procs :=
  let! s := lock s in
  let '(wake, s) := post_sigchld p s in
  let s := unlock s in
  let! s := if wake then enqueue p s else Done s in
  notify_waiter p cur s.

(** Everything before the switch. *)
Definition retire_task (cur : nat) (code : Z) (s : procs) : comp procs :=
  let s := become_zombie cur code (set_fl (exit_fds cur (fl s)) s) in
  let! s := clear_child_tid cur (t_child_tidptr (pt_ref s cur)) s in
  let! s := match t_parent (pt_ref s cur) with
            | None => Done s
            | Some p => tell_parent p cur s
            end in
  Done (reparent_children_to_init cur s).

Definition exit_task (cpu cur : nat) (code : Z) (s : procs) : comp (kres * procs) :=
  if (cur =? 0)%nat then Done (Sent 0, s)
  else
    let! s := retire_task cur code s in
    let! (p, s) := on_sched (schedule_inner cpu cur) s in
    Done (Gone p, s).

Definition kill_task_zombie (cur idx : nat) (code : Z) (s : procs) : comp procs :=
  let id := t_id (tasks (sch s) !!! idx) in
  let s := become_zombie idx code s in
  let! s := if (id =? 0)%nat then Done s else let! (_, s) := on_sched (remove_from_runqueue id) s in Done s in
  let! s := if (id =? cur)%nat then clear_child_tid cur (t_child_tidptr (pt_ref s idx)) s else Done s in
  let! s := match t_parent (pt_ref s idx) with None => Done s | Some p => notify_waiter p id s end in
  Done (reparent_children_to_init id s).

(** A task number from user space: all those past the table name slot 0. *)
Definition slot_of (z : Z) : nat := task_idx (Z.to_nat (Z.min z (Z.of_nat MAX_TASKS))).

(** ** Sending signals *)

(** The lock is released on every return; [exit_task] runs under it. *)
Definition sig_deliver_to_task (cpu cur idx : nat) (sig : Z) (s : procs) : comp (kres * procs) :=
  let! s := lock s in
  let t := tasks (sch s) !!! idx in
  let x := t_sigs (pt s !!! idx) in
  let sigi := Z.to_nat sig in
  if (t_id t =? 0)%nat || state_eqb (t_state t) TEmpty then Done (Sent (- ESRCH), unlock s)
  else if (sig <=? 0) || (Z.of_nat SIGNAL_COUNT <=? sig) then Done (Sent (- EINVAL), unlock s)
  else if (sig =? SIGKILL) || (sig =? SIGSTOP) then
    let! s := kill_task_zombie cur idx (128 + sig) s in Done (Sent 0, unlock s)
  else
    let act := sig_handlers x !!! sigi in
    if handler act =? SIG_IGN then Done (Sent 0, unlock s)
    else if negb (handler act =? SIG_DFL) then
      let s := set_pt (<[idx := with_sigs (raise sigi x) (pt s !!! idx)]> (pt s)) s in
      if state_eqb (t_state t) TBlocked && (t_blocked_on t =? SIGSUSPEND_MAGIC)
      then let! s := enqueue (t_id t) (ready idx s) in Done (Sent 0, unlock s)
      else Done (Sent 0, unlock s)
    else if terminates sig then
      if is_blocked x sigi
      then Done (Sent 0, unlock (set_pt (<[idx := with_sigs (raise sigi x) (pt s !!! idx)]> (pt s)) s))
      else if (task_idx cur =? idx)%nat then
        let! (r, s) := exit_task cpu cur (128 + sig) s in
        match r with Sent _ => Done (Sent 0, unlock s) | Gone p => Done (Gone p, s) end
      else let! s := kill_task_zombie cur idx (128 + sig) s in Done (Sent 0, unlock s)
    else Done (Sent 0, unlock s).

(** The scan of the slots shared by the calls that send to several tasks:
    [hits] counts the tasks that took the signal. *)
Fixpoint send_loop (n i : nat) (cpu cur : nat) (sig : Z) (to : Task → ptask → bool) (hits : Z) (s : procs) : comp (kres * procs) :=
  match n with
  | O => Done (Sent hits, s)
  | S n' =>
      let t := tasks (sch s) !!! i in
      if negb (t_id t =? 0)%nat && to t (pt s !!! i) then
        let! (r, s) := sig_deliver_to_task cpu cur i sig s in
        match r with
        | Sent r => send_loop n' (S i) cpu cur sig to (if r =? 0 then hits + 1 else hits) s
        | Gone p => Done (Gone p, s)
        end
      else send_loop n' (S i) cpu cur sig to hits s
  end.

(** Which tasks [kill] addresses. *)
Definition kill_match (cur : nat) (pid : Z) (t : Task) (x : ptask) : bool :=
  (pid =? -1) || ((pid =? 0) && (t_tgid x =? Z.of_nat cur)) || ((pid <? -1) && (t_tgid x =? - pid)) ||
  ((0 <? pid) && (Z.of_nat (t_id t) =? pid)).

Definition sys_kill (cpu cur : nat) (pid sig : Z) (s : procs) : comp (kres * procs) :=
  if sig =? 0 then Done (Sent 0, s)
  else
    let! (r, s) := send_loop MAX_TASKS 0 cpu cur sig (kill_match cur pid) 0 s in
    match r with
    | Sent hits => Done (Sent (if 0 <? hits then 0 else - ESRCH), s)
    | Gone p => Done (Gone p, s)
    end.

Definition sys_tkill (cpu cur : nat) (tid sig : Z) (s : procs) : comp (kres * procs) :=
  if sig =? 0 then Done (Sent 0, s)
  else if tid <=? 0 then Done (Sent (- EINVAL), s)
  else
    let idx := slot_of tid in
    if (t_id (tasks (sch s) !!! idx) =? 0)%nat then Done (Sent (- ESRCH), s)
    else sig_deliver_to_task cpu cur idx sig s.

(** [fg] is the foreground group of the terminal, as an unsigned number. *)
Definition signal_foreground_group (cpu cur : nat) (fg sig : Z) (s : procs) : comp (kres * procs) :=
  if (cur =? 0)%nat then Done (Sent 0, s)
  else
    let target := if 0 <? fg then fg else t_tgid (pt_ref s cur) in
    send_loop MAX_TASKS 0 cpu cur sig (λ _ x, (t_tgid x =? target) || (target =? 0)) 0 s.

(** The way out of a system call: [check_deliver_signal] runs under the lock
    and calls [exit_task] for a default action. *)
Definition leave_syscall (cpu cur : nat) (restore : option context) (k : area) (ret : Z) (m : mem) (s : procs) :
    comp ((exit_path + pick) * procs) :=
  let! s := lock s in
  if match restore with None => (cur =? 0)%nat || state_eqb (t_state (task_ref (sch s) cur)) TEmpty | Some _ => false end
  then Done (inl (Untouched (t_sigs (pt_ref s cur))), unlock s)
  else
    match check_deliver_signal restore (t_sigs (pt_ref s cur)) k ret m with
    | Ended code x =>
        let! (r, s) := exit_task cpu cur code (upd_pt cur (with_sigs x) s) in
        match r with
        | Gone p => Done (inr p, s)
        | Sent _ => Done (inl (Untouched x), unlock s)
        end
    | Entered x k' m' => Done (inl (Entered x k' m'), unlock (upd_pt cur (with_sigs x) s))
    | path => Done (inl path, unlock s)
    end.

(** ** Waiting *)

(** The children the caller waits for. *)
Definition waited (cur : nat) (pid : Z) (t : Task) (x : ptask) : bool :=
  negb (t_id t =? 0)%nat && bool_decide (t_parent x = Some cur) && negb ((0 <? pid) && negb (Z.of_nat (t_id t) =? pid)) &&
  negb (pid <? -1).

(** The first scan: the first zombie among them, if any. *)
Definition is_waited (cur : nat) (pid : Z) (s : procs) (i : nat) : bool := waited cur pid (tasks (sch s) !!! i) (pt s !!! i).
Definition find_zombie (cur : nat) (pid : Z) (s : procs) : option nat :=
  first_from (λ i, is_waited cur pid s i && state_eqb (t_state (tasks (sch s) !!! i)) TZombie) 0 MAX_TASKS.
Definition find_child (cur : nat) (pid : Z) (s : procs) : option nat := first_from (is_waited cur pid s) 0 MAX_TASKS.

Definition wait_status (code : Z) : Z := Z.shiftl (Z.land code 0xFF) 8.

Definition reap (cur i : nat) (status_ptr : Z) (s : procs) : Z * procs :=
  let x := pt s !!! i in
  let id := t_id (tasks (sch s) !!! i) in
  let s := if status_ptr =? 0 then s
           else set_space cur (<[status_ptr := wait_status (t_exit_code x)]> (space_of s cur)) s in
  let s := release [RStack (t_kernel_stack x)] s in
  let s := if negb (t_pml4 x =? 0) && t_private x then release [RSpace (t_pml4 x)] s else s in
  let s := set_pt (<[i := ptask_empty]> (pt s)) (set_sc (set_tasks (<[i := task_empty]> (tasks (sch s))) (sch s)) s) in
  (Z.of_nat id, set_sc (free_pid id (sch s)) s).

(** One turn of the loop: the call returns, goes round again, or gives the CPU
    away and goes round when it comes back. *)
Inductive wturn := WRet (r : Z) | WAgain | WAway (p : pick).

Definition waitpid_turn (k : ctx) (pid status_ptr flags : Z) (s : procs) : comp (wturn * procs) :=
  let cur := c_cur k in
  match find_zombie cur pid s with
  | Some i => let '(r, s) := reap cur i status_ptr s in Done (WRet r, s)
  | None =>
      match find_child cur pid s with
      | None => Done (WRet (- ECHILD), s)
      | Some i =>
          if negb (Z.land flags WNOHANG =? 0) then Done (WRet 0, s)
          else
            let tidptr := t_child_tidptr (pt s !!! i) in
            if negb (tidptr =? 0) then
              match space_of s cur !! tidptr with
              | None => Panic
              | Some v =>
                  if v =? 0 then Done (WAgain, s)
                  else
                    let! (r, f) := futex_wait k tidptr v TNull (mkFut (sch s) (space_of s cur)) in
                    match r with Ret _ => Done (WAgain, s) | Away p => Done (WAway p, set_sc (fs f) s) end
              end
            else
              let t := task_ref (sch s) cur in
              let s := if state_eqb (t_state t) TRunning then upd_sc cur (with_state TReady) s else s in
              let! (p, s) := on_sched (schedule_inner (c_cpu k) cur) s in
              Done (match p with Stay => WAgain | _ => WAway p end, s)
      end
  end.

(** The turns until the call returns or gives the CPU away. *)
Fixpoint sys_waitpid (fuel : nat) (k : ctx) (pid status_ptr flags : Z) (s : procs) : comp (wturn * procs) :=
  match fuel with
  | O => Spin
  | S f =>
      if (c_cur k =? 0)%nat then Done (WRet (- ECHILD), s)
      else
        let! (r, s) := waitpid_turn k pid status_ptr flags s in
        match r with WAgain => sys_waitpid f k pid status_ptr flags s | _ => Done (r, s) end
  end.

Definition sys_wait4 (fuel : nat) (k : ctx) (pid status_ptr options : Z) (s : procs) : comp (wturn * procs) :=
  sys_waitpid fuel k pid status_ptr (if negb (Z.land options 1 =? 0) then WNOHANG else 0) s.

(** ** Process groups *)

Definition sys_setpgid (cur : nat) (pid pgid : Z) (s : procs) : Z * procs :=
  if (cur =? 0)%nat then (- EINVAL, s)
  else
    let target := if pid =? 0 then Z.of_nat cur else pid in
    let group := if pgid =? 0 then target else pgid in
    if negb (target =? Z.of_nat cur) && negb (target =? 0) then (- EPERM, s)
    else if (t_id (task_ref (sch s) (Z.to_nat target)) =? 0)%nat then (- ESRCH, s)
    else (0, upd_pt (Z.to_nat target) (with_tgid group) s).

Definition sys_getpgid (cur : nat) (pid : Z) (s : procs) : Z :=
  let id := if pid =? 0 then Z.of_nat cur else w64 pid in
  if id =? 0 then - EINVAL
  else if (t_id (tasks (sch s) !!! slot_of id) =? 0)%nat then - ESRCH else t_tgid (pt s !!! slot_of id).

Definition sys_getpgrp (cur : nat) (s : procs) : Z := if (cur =? 0)%nat then - EINVAL else t_tgid (pt_ref s cur).

Definition sys_setsid (cur : nat) (s : procs) : Z * procs :=
  if (cur =? 0)%nat then (- EINVAL, s) else (Z.of_nat cur, upd_pt cur (with_tgid (Z.of_nat cur)) s).
