(* ===== verification/ProcInv.v ===== *)
(** * The families of tasks: the invariant and what the operations do to it

    Every operation of Proc.v leaves the run queues consistent, wakes tasks
    only, and keeps the fields of the others; a task that ends leaves its
    children to pid 1. *)

From S2P Require Import Prelude Sched SchedInv SchedClaims Futex Pipe Bytes Signal Proc.
From Stdlib Require Import Lia ZArith.
From stdpp Require Import base gmap numbers list.
Local Open Scope Z_scope.

Lemma empty_bounds : (t_cpu task_empty < MAX_CPUS)%nat ∧ (t_prio task_empty < PRIORITY_LEVELS)%nat.
Proof. vm_compute. lia. Qed.

#[local] Opaque MAX_TASKS PRIORITY_LEVELS MAX_CPUS.

(** A task that has not ended. *)
Definition alive (s : procs) (i : nat) : Prop := t_id (tasks (sch s) !!! i) ≠ 0%nat ∧ t_state (tasks (sch s) !!! i) ≠ TZombie.

(** The tables are consistent, apart from who is whose parent. *)
Record tinv (s : procs) (q : queues) : Prop := {
  ti_sys : sys_inv (sch s) q;
  ti_len : length (pt s) = MAX_TASKS;
  ti_empty : ∀ i, (i < MAX_TASKS)%nat → t_id (tasks (sch s) !!! i) = 0%nat → t_state (tasks (sch s) !!! i) = TEmpty;
}.

(** Every task's parent is alive, or pid 1. *)
Record pinv (s : procs) (q : queues) : Prop := {
  pv_t :> tinv s q;
  pv_parent : ∀ i p, (i < MAX_TASKS)%nat → t_id (tasks (sch s) !!! i) ≠ 0%nat → t_parent (pt s !!! i) = Some p →
    (0 < p < MAX_TASKS)%nat ∧ (p = 1%nat ∨ alive s p);
}.

(** The task on a CPU: running, or ended and not yet switched away from. *)
Definition on_cpu (s : procs) (cur : nat) : Prop :=
  (0 < cur < MAX_TASKS)%nat ∧ t_id (tasks (sch s) !!! cur) = cur ∧
  (t_state (tasks (sch s) !!! cur) = TRunning ∨ t_state (tasks (sch s) !!! cur) = TZombie).

(** ** What stays *)

(** Waking: blocked tasks become ready. *)
Definition woke (x x' : sched) : Prop :=
  length (tasks x') = length (tasks x) ∧
  ∀ j, t_id (tasks x' !!! j) = t_id (tasks x !!! j) ∧
    (t_state (tasks x' !!! j) = t_state (tasks x !!! j) ∨ t_state (tasks x !!! j) = TBlocked ∧ t_state (tasks x' !!! j) = TReady).

#[export] Instance woke_preorder : PreOrder woke.
Proof.
  split; [by intros x; split; [|split; [|left]]|]. intros x y z [L1 H1] [L2 H2]. split; [congruence|]. intros j.
  destruct (H1 j) as [I1 S1], (H2 j) as [I2 S2]. split; [congruence|].
  destruct S1 as [S1|[S1 S1']], S2 as [S2|[S2 S2']]; [left|right|right|]; try (split; congruence); congruence.
Qed.

(** The fields that no signal and no wake changes. *)
Definition core (t : ptask) : ptask := with_sigs sigs_empty t.
Definition same_pt (s s' : procs) : Prop :=
  length (pt s') = length (pt s) ∧ (∀ j, core (pt s' !!! j) = core (pt s !!! j)) ∧ freed s' = freed s.

#[export] Instance same_pt_preorder : PreOrder same_pt.
Proof. split; [by intros s|]. intros x y z (L1 & H1 & F1) (L2 & H2 & F2). split_and!; [congruence| |congruence]. intros j. by rewrite H2. Qed.

(** An operation that only wakes: [q'] are the queues after it. *)
Record mild (s s' : procs) (q' : queues) : Prop := {
  mi_inv : sys_inv (sch s') q'; mi_woke : woke (sch s) (sch s'); mi_pt : same_pt s s'; mi_lock : sig_lock s' = sig_lock s;
}.

Lemma mild_refl s q : sys_inv (sch s) q → mild s s q.
Proof. by split. Qed.

Lemma mild_trans s1 s2 s3 q2 q3 : mild s1 s2 q2 → mild s2 s3 q3 → mild s1 s3 q3.
Proof. intros [I1 W1 P1 L1] [I2 W2 P2 L2]. split; [done|by etrans|by etrans|congruence]. Qed.

Lemma core_fields t t' : core t = core t' →
  t_parent t = t_parent t' ∧ t_exit_code t = t_exit_code t' ∧ t_kernel_stack t = t_kernel_stack t' ∧ t_pml4 t = t_pml4 t' ∧
  t_private t = t_private t' ∧ t_child_tidptr t = t_child_tidptr t'.
Proof. destruct t, t'. intros [=]. cbn. split_and!; done. Qed.

Lemma woke_alive x x' j : woke x x' → t_state (tasks x' !!! j) = TZombie ↔ t_state (tasks x !!! j) = TZombie.
Proof. intros [_ H]. destruct (H j) as [_ [->|[-> ->]]]; split; congruence. Qed.

Lemma woke_empty x x' j : woke x x' → t_state (tasks x' !!! j) = TEmpty ↔ t_state (tasks x !!! j) = TEmpty.
Proof. intros [_ H]. destruct (H j) as [_ [->|[-> ->]]]; split; congruence. Qed.

Lemma mild_tinv s q s' q' : tinv s q → mild s s' q' → tinv s' q'.
Proof.
  intros [Hs Hl He] [I W (PL & PC & _) _]. split; [done|congruence|].
  intros i Hi Hid. apply (woke_empty _ _ _ W). apply He; [done|]. destruct W as [_ W]. by rewrite <- (proj1 (W i)).
Qed.

Lemma mild_on_cpu s s' q' cur : on_cpu s cur → mild s s' q' → on_cpu s' cur.
Proof.
  intros (Hc & Hid & Hst) [_ [_ W] _ _]. destruct (W cur) as [W1 W2]. split; [done|split; [congruence|]].
  destruct W2 as [->|[W2 _]]; [auto|]. destruct Hst; congruence.
Qed.

(** ** Waking *)

Lemma same_woke x x' : length (tasks x') = length (tasks x) → (∀ j, same_task (tasks x' !!! j) (tasks x !!! j)) → woke x x'.
Proof. intros Hl H. split; [done|]. intros j. destruct (same_task_fields _ _ (H j)) as (-> & -> & _). by split; [|left]. Qed.

Lemma ready_spec s q p : sys_inv (sch s) q → (p < MAX_TASKS)%nat → t_state (tasks (sch s) !!! p) = TBlocked →
  t_id (tasks (sch s) !!! p) ≠ 0%nat → ∃ s' q', enqueue p (ready p s) = Done s' ∧ mild s s' q'.
Proof.
  intros Hi Hp Hst Hid. set (t := tasks (sch s) !!! p) in *.
  destruct (wake_one (sch s) q p (with_block TReady 0 (t_wakeup_tick t) (t_futex_deadline t) t) Hi Hp Hst Hid) as (x & Hrun & Hx & Hsp & Hsj); try done.
  assert (length (tasks x) = MAX_TASKS) as Hl by apply (si_wf _ _ Hx).
  assert (length (tasks (sch s)) = MAX_TASKS) as Hl0 by apply (si_wf _ _ Hi).
  cbv zeta in Hrun. unfold enqueue, ready, upd_sc, upd_task, task_ref. cbn [sch set_sc]. rewrite task_idx_small by done.
  cbn [tasks set_tasks] in *. rewrite list_lookup_total_insert_eq in Hrun |- * by (rewrite Hl0; lia).
  cbn [t_id t_prio with_block] in Hrun. assert (t_id t = p) as Htid by by apply (si_id _ _ Hi).
  rewrite Htid in Hrun. fold t. cbn [t_prio with_block]. rewrite Hrun. cbn [cbind].
  eexists _, _. split; [reflexivity|]. split; [exact Hx| |done|done]. split; [cbn; congruence|]. cbn [sch set_sc]. intros j.
  destruct (decide (j = p)) as [->|Hne].
  - destruct (same_task_fields _ _ Hsp) as (-> & -> & _). cbn. split; [done|]. right. by split.
  - destruct (same_task_fields _ _ (Hsj j Hne)) as (-> & -> & _). split; [done|by left].
Qed.

Lemma notify_spec s q p id : tinv s q → (p < MAX_TASKS)%nat → ∃ s' q', notify_waiter p id s = Done s' ∧ mild s s' q'.
Proof.
  intros Hi Hp. unfold notify_waiter, task_ref. rewrite task_idx_small by done.
  destruct (state_eqb _ TBlocked && _) eqn:E; [|exists s, q; split; [done|apply mild_refl, Hi]].
  apply andb_true_iff in E as [E _]. apply bool_decide_eq_true in E.
  apply (ready_spec s q p); [apply Hi|done|done|]. intros H0. rewrite (ti_empty _ _ Hi p Hp H0) in E. done.
Qed.

Lemma futex_woke s q a n : sys_inv (sch s) q → ∃ r s' q', on_sched (futex_wake a n) s = Done (r, s') ∧ mild s s' q'.
Proof.
  intros Hi. destruct (futex_wake_loop_spec MAX_TASKS 0 a n 0 (sch s) q Hi eq_refl) as (x & q' & Hrun & Hx & _ & HW & HnW).
  unfold on_sched, futex_wake. rewrite Hrun. cbn [cbind]. eexists _, _, q'. split; [reflexivity|].
  assert (length (tasks x) = MAX_TASKS) as Hl by apply (si_wf _ _ Hx).
  assert (length (tasks (sch s)) = MAX_TASKS) as Hl0 by apply (si_wf _ _ Hi).
  split; [exact Hx| |done|done]. split; [cbn; congruence|]. cbn [sch set_sc]. intros j.
  set (W := take (Z.to_nat (n - 0)) (waiters (sch s) a 0 MAX_TASKS)) in *.
  destruct (decide (j ∈ W)) as [Hj|Hj].
  - destruct (same_task_fields _ _ (HW j Hj)) as (-> & -> & _). split; [done|]. right. split; [|done].
    apply elem_of_take in Hj as (i & Hj & _). apply list_elem_of_lookup_2, list_elem_of_filter in Hj as [Hj _].
    unfold waits_on in Hj. apply andb_true_iff in Hj as [[Hj _]%andb_true_iff _]. by apply bool_decide_eq_true in Hj.
  - destruct (same_task_fields _ _ (HnW j Hj)) as (-> & -> & _). by split; [|left].
Qed.

Lemma clear_tid_spec s q cur ct : sys_inv (sch s) q → ∃ s' q', clear_child_tid cur ct s = Done s' ∧ mild s s' q'.
Proof.
  intros Hi. unfold clear_child_tid. case_match; [|exists s, q; split; [done|by apply mild_refl]].
  set (s1 := set_space cur _ s). destruct (futex_woke s1 q ct 1) as (r & s' & q' & -> & Hm); [exact Hi|].
  cbn [cbind]. exists s', q'. split; [done|]. destruct Hm as [I W (P1 & P2 & P3) L]. by split.
Qed.

Lemma upd_pt_same s p f : length (pt s) = MAX_TASKS → (p < MAX_TASKS)%nat → core (f (pt s !!! p)) = core (pt s !!! p) →
  same_pt s (upd_pt p f s).
Proof.
  intros Hl Hp Hf. unfold upd_pt, pt_ref. rewrite task_idx_small by done. split_and!; [cbn; apply length_insert| |done].
  intros j. cbn [pt set_pt]. destruct (decide (j = p)) as [->|]; [by rewrite list_lookup_total_insert_eq by lia|by rewrite list_lookup_total_insert_ne].
Qed.

Lemma sigchld_spec s q p : tinv s q → (p < MAX_TASKS)%nat →
  let '(wake, s1) := post_sigchld p s in
  ∃ s' q', (if wake then enqueue p (unlock s1) else Done (unlock s1)) = Done s' ∧ mild (unlock s) s' q'.
Proof.
  intros Hi Hp. unfold post_sigchld. unfold task_ref. rewrite task_idx_small by done.
  assert (∃ s' q', Done (unlock s) = Done s' ∧ mild (unlock s) s' q') as Hnone.
  { exists (unlock s), q. split; [done|]. by apply mild_refl, Hi. }
  destruct (_ && _); [|done]. destruct (_ && _); [|done].
  set (s1 := upd_pt p _ s). assert (same_pt s s1) as Hs1 by (by apply upd_pt_same; [apply Hi|..]).
  destruct (state_eqb _ _ && _) eqn:E; [|exists (unlock s1), q; split; [done|by split; [apply Hi|..]]].
  apply andb_true_iff in E as [E _]. apply bool_decide_eq_true in E.
  destruct (ready_spec (unlock s1) q p) as (s' & q' & Hrun & [I W P L]); [apply Hi|done|done| |].
  { intros H0. by rewrite (ti_empty _ _ Hi p Hp H0) in E. }
  exists s', q'. split; [exact Hrun|]. split; [done|exact W| |done]. etrans; [exact Hs1|]. exact P.
Qed.

(** ** The end of a task *)

(** One task has become a zombie. *)
Definition dying (s s' : procs) (id : nat) (code : Z) : Prop :=
  (∀ j, t_id (tasks (sch s') !!! j) = t_id (tasks (sch s) !!! j) ∧
     t_state (tasks (sch s') !!! j) = if decide (j = id) then TZombie else t_state (tasks (sch s) !!! j)) ∧
  length (pt s') = length (pt s) ∧
  (∀ j, pt s' !!! j = if decide (j = id) then with_code code (pt s !!! j) else pt s !!! j) ∧
  freed s' = freed s ∧ sig_lock s' = sig_lock s.

(** The children of a task are pid 1's. *)
Definition adopt (live : bool) (from : nat) (t : ptask) : ptask :=
  if live && bool_decide (t_parent t = Some from) then with_parent (Some 1%nat) t else t.

Record ended (s s' : procs) (id : nat) (code : Z) (q' : queues) : Prop := {
  ed_t : tinv s' q';
  ed_self : t_state (tasks (sch s') !!! id) = TZombie;
  ed_id : ∀ j, t_id (tasks (sch s') !!! j) = t_id (tasks (sch s) !!! j);
  ed_woke : ∀ j, j ≠ id → t_state (tasks (sch s') !!! j) = t_state (tasks (sch s) !!! j) ∨
    t_state (tasks (sch s) !!! j) = TBlocked ∧ t_state (tasks (sch s') !!! j) = TReady;
  ed_core : ∀ j, (j < MAX_TASKS)%nat → core (pt s' !!! j) =
    core (adopt (negb (t_id (tasks (sch s) !!! j) =? 0)%nat) id (if decide (j = id) then with_code code (pt s !!! j) else pt s !!! j));
  ed_freed : freed s' = freed s;
  ed_lock : sig_lock s' = sig_lock s;
}.

Lemma core_adopt l f t t' : core t = core t' → core (adopt l f t) = core (adopt l f t').
Proof.
  intros H. destruct (core_fields _ _ H) as (Hp & _). unfold adopt. rewrite Hp. destruct (_ && _); [|done].
  unfold core, with_sigs, with_parent in *. cbn. by injection H as _ -> -> -> -> -> -> ->.
Qed.

Lemma ended_of s s1 s2 id code q2 : (id < MAX_TASKS)%nat → length (pt s) = MAX_TASKS →
  (∀ i, (i < MAX_TASKS)%nat → t_id (tasks (sch s) !!! i) = 0%nat → t_state (tasks (sch s) !!! i) = TEmpty) →
  t_id (tasks (sch s) !!! id) ≠ 0%nat →
  dying s s1 id code → mild s1 s2 q2 → ended s (reparent_children_to_init id s2) id code q2.
Proof.
  intros Hid Hl He Hnz (Z1 & Z2 & Z3 & Z4 & Z5) [I [WL W] (P1 & P2 & P3) L].
  assert (∀ j, t_id (tasks (sch s2) !!! j) = t_id (tasks (sch s) !!! j)) as Hids by (intros j; by rewrite (proj1 (W j)), (proj1 (Z1 j))).
  assert (∀ j, j ≠ id → t_state (tasks (sch s2) !!! j) = t_state (tasks (sch s) !!! j) ∨
    t_state (tasks (sch s) !!! j) = TBlocked ∧ t_state (tasks (sch s2) !!! j) = TReady) as Hst.
  { intros j Hj. destruct (W j) as [_ W2], (Z1 j) as [_ Zj]. rewrite decide_False in Zj by done. by rewrite <- Zj. }
  unfold reparent_children_to_init. split; cbn [sch set_pt pt freed sig_lock]; [split| |done|done| |congruence|congruence].
  - done.
  - cbn [pt set_pt]. rewrite length_imap. congruence.
  - intros i Hi. cbn [sch set_pt]. rewrite Hids. intros H0. destruct (decide (i = id)) as [->|Hne]; [done|].
    pose proof (He i Hi H0) as He'. destruct (Hst i Hne) as [->|[X _]]; congruence.
  - destruct (W id) as [_ W2], (Z1 id) as [_ Zi]. rewrite decide_True in Zi by done. destruct W2 as [->|[X _]]; congruence.
  - intros j Hj. rewrite list_lookup_total_alt, list_lookup_imap.
    destruct (lookup_lt_is_Some_2 (pt s2) j) as [x Hx]; [lia|]. rewrite Hx. cbn [fmap option_fmap option_map default].
    rewrite Hids. fold (adopt (negb (t_id (tasks (sch s) !!! j) =? 0)%nat) id x). apply core_adopt.
    specialize (P2 j). rewrite (list_lookup_total_correct _ _ _ Hx) in P2. rewrite P2. by rewrite Z3.
Qed.

Section zombies.
Context (s : procs) (q : queues) (i : nat) (code : Z) (Hi : tinv s q) (Hlt : (i < MAX_TASKS)%nat).

Lemma zombie_tasks j : tasks (sch (become_zombie i code s)) !!! j =
  if decide (i = j) then with_state TZombie (tasks (sch s) !!! i) else tasks (sch s) !!! j.
Proof. unfold become_zombie, upd_pt, upd_sc. cbn [sch set_pt set_sc]. apply upd_task_lookup; [apply Hi|done]. Qed.

Lemma zombie_dying : dying s (become_zombie i code s) i code.
Proof.
  pose proof (ti_len _ _ Hi) as Hl. split_and!; try done.
  - intros j. rewrite zombie_tasks. destruct (decide (i = j)) as [<-|]; [by rewrite decide_True|by rewrite decide_False].
  - cbn. apply length_insert.
  - intros j. unfold become_zombie, upd_pt, upd_sc, pt_ref. cbn [pt set_pt set_sc]. rewrite task_idx_small by done.
    destruct (decide (j = i)) as [->|]; [by rewrite list_lookup_total_insert_eq by lia|by rewrite list_lookup_total_insert_ne].
Qed.

Lemma zombie_sys : unqueued q i → sys_inv (sch (become_zombie i code s)) q.
Proof. intros Hun. apply sys_inv_state; [apply Hi|done|by left]. Qed.

(** A queued task is taken out once it is marked. *)
Lemma zombie_remove : ∃ r x q', on_sched (remove_from_runqueue i) (become_zombie i code s) = Done (r, set_sc x (become_zombie i code s)) ∧
  mild (become_zombie i code s) (set_sc x (become_zombie i code s)) q'.
Proof.
  pose proof (ti_sys _ _ Hi) as [Hwf Hrd Hid Hcpu Hprio]. pose proof zombie_tasks as Hz.
  assert (rq_wf (sch (become_zombie i code s)) q) as Hwf1.
  { unfold become_zombie, upd_pt, upd_sc, upd_task, task_ref. cbn [sch set_pt set_sc]. rewrite task_idx_small by done. by apply rq_wf_task. }
  assert (∀ j, t_cpu (tasks (sch (become_zombie i code s)) !!! j) = t_cpu (tasks (sch s) !!! j) ∧
    t_prio (tasks (sch (become_zombie i code s)) !!! j) = t_prio (tasks (sch s) !!! j) ∧
    t_id (tasks (sch (become_zombie i code s)) !!! j) = t_id (tasks (sch s) !!! j)) as Hf.
  { intros j. rewrite Hz. by case_decide; subst. }
  destruct (remove_spec _ _ i Hwf1 Hlt) as (r & x & q' & Hrun & Hl & Hwf' & Hun & _ & Hq').
  { destruct (Hf i) as (-> & _). auto. } { destruct (Hf i) as (_ & -> & _). auto. }
  exists r, x, q'. split; [unfold on_sched; by rewrite Hrun|]. split; [|..|done|done].
  - split; [done|..]; cbn [sch set_sc].
    + intros c p a Ha. rewrite Hq' in Ha. apply list_elem_of_filter in Ha as [Hne Ha].
      destruct (links_fields _ _ a Hl) as (_ & -> & _). rewrite Hz, decide_False by congruence. by eapply Hrd.
    + intros j Hj. destruct (links_fields _ _ j Hl) as (-> & _), (Hf j) as (_ & _ & ->). auto.
    + intros j Hj. destruct (links_fields _ _ j Hl) as (_ & _ & -> & _), (Hf j) as (-> & _). auto.
    + intros j Hj. destruct (links_fields _ _ j Hl) as (_ & _ & _ & -> & _), (Hf j) as (_ & -> & _). auto.
  - split; [apply Hl|]. intros j. destruct (links_fields _ _ j Hl) as (E1 & E2 & _). split; [exact E1|by left].
Qed.

End zombies.

Lemma dying_tinv s s1 q1 id code : tinv s q1 → sys_inv (sch s1) q1 → (t_id (tasks (sch s) !!! id) ≠ 0%nat) → dying s s1 id code → tinv s1 q1.
Proof.
  intros Hi Hs Hnz (Z1 & Z2 & _). split; [done|by rewrite Z2; apply Hi|]. intros i Hlt. destruct (Z1 i) as [-> ->]. intros H0.
  case_decide as Hd; [by subst|]. by apply Hi.
Qed.

Lemma on_cpu_unqueued s q cur : sys_inv (sch s) q → on_cpu s cur → unqueued q cur.
Proof. intros Hi (_ & _ & Hst) c p Hin. apply (si_ready _ _ Hi) in Hin. destruct Hst; congruence. Qed.

Lemma same_pt_parent s s' j : same_pt s s' → t_parent (pt s' !!! j) = t_parent (pt s !!! j).
Proof. intros (_ & H & _). apply (core_fields _ _ (H j)). Qed.

(** The part of the parent: SIGCHLD and the wake-up. *)
Lemma tell_parent_spec s q p cur : tinv s q → (p < MAX_TASKS)%nat → sig_lock s = false →
  ∃ s' q', tell_parent p cur s = Done s' ∧ mild s s' q'.
Proof.
  intros Hi Hp Hl. unfold tell_parent, lock. rewrite Hl. cbn [cbind].
  pose proof (sigchld_spec (set_lock true s) q p) as H. destruct (post_sigchld p (set_lock true s)) as [wake s1].
  destruct H as (s2 & q2 & Hrun & Hm2); [by destruct Hi; split|done|].
  assert (mild s s2 q2) as Hm by (destruct Hm2 as [I W P L]; split; [done|done|done|cbn in L; congruence]).
  rewrite Hrun. cbn [cbind]. destruct (notify_spec s2 q2 p cur) as (s3 & q3 & -> & Hm3); [by eapply mild_tinv|done|].
  exists s3, q3. split; [done|]. by eapply mild_trans.
Qed.

Lemma retire_spec s q cur code : pinv s q → on_cpu s cur → sig_lock s = false ∨ t_parent (pt s !!! cur) = None →
  ∃ s' q', retire_task cur code s = Done s' ∧ ended s s' cur code q'.
Proof.
  intros Hi Hc Hl. pose proof Hc as (Hb & Hid & _). unfold retire_task.
  set (s0 := set_fl _ s). assert (tinv s0 q) as Hi0 by (destruct (pv_t _ _ Hi); by split).
  pose proof (zombie_dying s0 q cur code Hi0 ltac:(lia)) as Hd0.
  assert (dying s (become_zombie cur code s0) cur code) as Hd by exact Hd0.
  set (s1 := become_zombie cur code s0) in *.
  assert (sys_inv (sch s1) q) as Hs1 by (apply (zombie_sys s0); [done|lia|eapply on_cpu_unqueued; [apply Hi|done]]).
  assert (tinv s1 q) as Hi1 by (eapply dying_tinv; [apply Hi|done| |done]; rewrite Hid; lia).
  destruct (clear_tid_spec s1 q cur (t_child_tidptr (pt_ref s1 cur)) Hs1) as (s2 & q2 & -> & Hm2). cbn [cbind].
  assert (∃ s3 q3, match t_parent (pt_ref s2 cur) with None => Done s2 | Some p => tell_parent p cur s2 end = Done s3 ∧ mild s1 s3 q3) as (s3 & q3 & Hrun & Hm3).
  { assert (t_parent (pt_ref s2 cur) = t_parent (pt s !!! cur)) as ->.
    { unfold pt_ref. rewrite task_idx_small by lia. rewrite (same_pt_parent s1 s2) by apply Hm2.
      destruct Hd as (_ & _ & -> & _). by rewrite decide_True. }
    destruct (t_parent (pt s !!! cur)) as [p|] eqn:Hp; [|by exists s2, q2].
    destruct (pv_parent _ _ Hi cur p ltac:(lia) ltac:(lia) Hp) as [Hpb _].
    destruct (tell_parent_spec s2 q2 p cur) as (s3 & q3 & H3 & Hm3); [by eapply mild_tinv|lia| |exists s3, q3; split; [exact H3|by eapply mild_trans]].
    destruct Hl as [Hl|]; [|done]. rewrite (mi_lock _ _ _ Hm2). exact Hl. }
  rewrite Hrun. cbn [cbind]. eexists _, q3. split; [reflexivity|].
  eapply ended_of; [lia|apply Hi|apply Hi|rewrite Hid; lia|exact Hd|exact Hm3].
Qed.

Lemma kill_spec s q cur i code : pinv s q → (i < MAX_TASKS)%nat → t_id (tasks (sch s) !!! i) ≠ 0%nat →
  ∃ s' q', kill_task_zombie cur i code s = Done s' ∧ ended s s' i code q'.
Proof.
  intros Hi Hb Hnz. unfold kill_task_zombie. assert (t_id (tasks (sch s) !!! i) = i) as Hid by (apply (si_id _ _ (ti_sys _ _ Hi)); done).
  rewrite Hid. assert (0 < i)%nat by lia.
  pose proof (zombie_dying s q i code Hi Hb) as Hd. set (s1 := become_zombie i code s) in *.
  rewrite (proj2 (Nat.eqb_neq i 0)) by lia.
  destruct (zombie_remove s q i code Hi Hb) as (r & x & q1 & Hr & Hm1). fold s1 in Hr, Hm1. rewrite Hr. cbn [cbind]. set (s2 := set_sc x s1) in *.
  assert (∃ s3 q3, (if (i =? cur)%nat then clear_child_tid cur (t_child_tidptr (pt_ref s2 i)) s2 else Done s2) = Done s3 ∧ mild s1 s3 q3)
    as (s3 & q3 & -> & Hm3).
  { destruct (i =? cur)%nat; [|by exists s2, q1].
    destruct (clear_tid_spec s2 q1 cur (t_child_tidptr (pt_ref s2 i))) as (s3 & q3 & -> & Hm3); [apply Hm1|].
    exists s3, q3. split; [done|]. by eapply mild_trans. }
  cbn [cbind].
  assert (tinv s3 q3) as Hi3.
  { split; [apply Hm3|..].
    - destruct Hm3 as [_ _ (-> & _) _]. destruct Hd as (_ & -> & _). apply Hi.
    - intros j Hj. destruct Hm3 as [_ W _ _]. rewrite (proj1 (proj2 W j)), (woke_empty _ _ _ W). destruct Hd as (D & _).
      destruct (D j) as [-> ->]. intros H0. case_decide; [by subst|]. by apply Hi. }
  assert (∃ s4 q4, match t_parent (pt_ref s3 i) with None => Done s3 | Some p => notify_waiter p i s3 end = Done s4 ∧ mild s1 s4 q4)
    as (s4 & q4 & -> & Hm4).
  { assert (t_parent (pt_ref s3 i) = t_parent (pt s !!! i)) as ->.
    { unfold pt_ref. rewrite task_idx_small by lia. rewrite (same_pt_parent s1 s3) by apply Hm3.
      destruct Hd as (_ & _ & -> & _). by rewrite decide_True. }
    destruct (t_parent (pt s !!! i)) as [p|] eqn:Hp; [|by exists s3, q3].
    destruct (pv_parent _ _ Hi i p Hb Hnz Hp) as [Hpb _].
    destruct (notify_spec s3 q3 p i Hi3 ltac:(lia)) as (s4 & q4 & -> & Hm4). exists s4, q4. split; [done|]. by eapply mild_trans. }
  cbn [cbind]. eexists _, q4. split; [reflexivity|]. eapply ended_of; [lia|apply Hi|apply Hi|done|exact Hd|exact Hm4].
Qed.

(** ** The invariant *)

Lemma adopt_parent l from t p : t_parent (adopt l from t) = Some p →
  (l = true ∧ t_parent t = Some from ∧ p = 1%nat) ∨ (t_parent t = Some p ∧ (l = true → p ≠ from)).
Proof.
  unfold adopt. destruct l; cbn [andb]; [|by intros H; right].
  case_bool_decide as E; [intros [= <-]; by left|]. intros H. right. split; [done|]. intros _ ->. done.
Qed.

Lemma ended_pinv s q s' id code q' : pinv s q → ended s s' id code q' → pinv s' q'.
Proof.
  intros Hi [T Z I W C F L]. split; [done|]. intros i p Hlt Hnz Hp. rewrite I in Hnz.
  destruct (core_fields _ _ (C i Hlt)) as (Hpar & _). rewrite Hpar in Hp.
  rewrite (proj2 (Nat.eqb_neq _ _) Hnz) in Hp. cbn [negb] in Hp.
  assert (∀ t, t_parent (if decide (i = id) then with_code code t else t) = t_parent t) as Hwc by (intros t; by case_decide).
  destruct (adopt_parent _ _ _ _ Hp) as [(_ & _ & ->)|[Hp' Hne]].
  { pose proof (si_wf _ _ (ti_sys _ _ T)) as Hwf. split; [rewrite max_tasks_64; lia|by left]. }
  rewrite Hwc in Hp'. specialize (Hne eq_refl). destruct (pv_parent _ _ Hi i p Hlt Hnz Hp') as [Hb Ha]. split; [done|].
  destruct Ha as [->|[A1 A2]]; [by left|right]. split; [by rewrite I|]. destruct (W p Hne) as [->|[_ ->]]; done.
Qed.

Lemma mild_pinv s q s' q' : pinv s q → mild s s' q' → pinv s' q'.
Proof.
  intros Hi Hm. pose proof Hm as [I W (PL & PC & _) _]. split; [eapply mild_tinv; [apply Hi|exact Hm]|].
  intros i p Hlt Hid Hpar. destruct (core_fields _ _ (PC i)) as (Hpe & _). rewrite Hpe in Hpar.
  rewrite (proj1 (proj2 W i)) in Hid. destruct (pv_parent _ _ Hi i p Hlt Hid Hpar) as [Hb [->|[Ha1 Ha2]]]; (split; [done|]); [by left|right].
  split; [by rewrite (proj1 (proj2 W p))|]. by rewrite (woke_alive _ _ _ W).
Qed.

(** The invariant looks at the scheduler and at the parents only. *)
Lemma pinv_ext s q s' : pinv s q → sch s' = sch s → length (pt s') = length (pt s) →
  (∀ j, t_parent (pt s' !!! j) = t_parent (pt s !!! j)) → pinv s' q.
Proof.
  intros [[T1 T2 T3] P] Hs Hl Hp. split; [split; rewrite ?Hs; [done|congruence|done]|].
  intros i p. rewrite Hs, Hp. unfold alive. rewrite Hs. apply P.
Qed.

(** The scheduler at work: tasks that have not ended change places. *)
Definition running_state (st : TaskState) : Prop := st = TReady ∨ st = TRunning ∨ st = TBlocked.
Definition stirred (x x' : sched) : Prop :=
  ∀ j, t_id (tasks x' !!! j) = t_id (tasks x !!! j) ∧
    (t_state (tasks x' !!! j) = t_state (tasks x !!! j) ∨
     running_state (t_state (tasks x !!! j)) ∧ running_state (t_state (tasks x' !!! j))).

Lemma stirred_pinv s q x q' : pinv s q → sys_inv x q' → stirred (sch s) x → pinv (set_sc x s) q'.
Proof.
  intros [[T1 T2 T3] P] Hx Hst. split; [split; [done|done|]|]; cbn [sch set_sc pt].
  - intros i Hi H0. destruct (Hst i) as [E [->|[R _]]]; [apply T3; congruence|].
    rewrite (T3 i Hi) in R by congruence. by destruct R as [|[|]].
  - intros i p Hi Hnz Hp. rewrite (proj1 (Hst i)) in Hnz. destruct (P i p Hi Hnz Hp) as [Hb [->|[A1 A2]]]; (split; [done|]); [by left|right].
    destruct (Hst p) as [E [Es|[_ R]]]; split; cbn [sch set_sc]; try congruence.
    intros X. rewrite X in R. by destruct R as [|[|]].
Qed.

Lemma exit_spec s q cpu cur code : pinv s q → on_cpu s cur → (cpu < MAX_CPUS)%nat →
  sig_lock s = false ∨ t_parent (pt s !!! cur) = None →
  ∃ s1 q1 p x q', retire_task cur code s = Done s1 ∧ ended s s1 cur code q1 ∧
    exit_task cpu cur code s = Done (Gone p, set_sc x s1) ∧ sys_inv x q' ∧ stirred (sch s1) x ∧
    t_state (tasks x !!! cur) = TZombie ∧ pinv (set_sc x s1) q'.
Proof.
  intros Hi Hc Hcpu Hl. pose proof Hc as (Hb & Hid & _). destruct (retire_spec s q cur code Hi Hc Hl) as (s1 & q1 & Hr & He).
  assert (unqueued q1 cur) as Hun.
  { intros c p Hin. apply (si_ready _ _ (ti_sys _ _ (ed_t _ _ _ _ _ He))) in Hin. rewrite (ed_self _ _ _ _ _ He) in Hin. done. }
  destruct (schedule_blocked cpu cur (sch s1) q1) as (p & x & q' & Hs & Hx & _ & Hsame & Hj & _);
    [apply (ed_t _ _ _ _ _ He)|lia|done|done|rewrite (ed_self _ _ _ _ _ He); done|rewrite (ed_self _ _ _ _ _ He); done|].
  assert (stirred (sch s1) x) as Hst.
  { intros j. destruct (Hj j) as [E [S|[S1 S2]]]; (split; [done|]); [by left|right]. rewrite S1, S2. unfold running_state. auto. }
  exists s1, q1, p, x, q'. split_and!; try done.
  - unfold exit_task. rewrite (proj2 (Nat.eqb_neq cur 0)) by lia. rewrite Hr. cbn [cbind]. unfold on_sched. by rewrite Hs.
  - destruct (same_task_fields _ _ Hsame) as (_ & -> & _). apply (ed_self _ _ _ _ _ He).
  - eapply stirred_pinv; [eapply ended_pinv; [exact Hi|exact He]|done|done].
Qed.

(** Taking the lock that is already held. *)
Lemma retire_deadlock s q cur code p : pinv s q → on_cpu s cur → sig_lock s = true → t_parent (pt s !!! cur) = Some p →
  retire_task cur code s = Spin.
Proof.
  intros Hi Hc Hl Hp. pose proof Hc as (Hb & Hid & _). unfold retire_task.
  set (s0 := set_fl _ s). assert (tinv s0 q) as Hi0 by (destruct (pv_t _ _ Hi); by split).
  pose proof (zombie_dying s0 q cur code Hi0 ltac:(lia)) as Hd0. set (s1 := become_zombie cur code s0) in *.
  assert (sys_inv (sch s1) q) as Hs1 by (apply (zombie_sys s0); [done|lia|eapply on_cpu_unqueued; [apply Hi|done]]).
  destruct (clear_tid_spec s1 q cur (t_child_tidptr (pt_ref s1 cur)) Hs1) as (s2 & q2 & -> & Hm2). cbn [cbind].
  assert (t_parent (pt_ref s2 cur) = Some p) as ->.
  { unfold pt_ref. rewrite task_idx_small by lia. rewrite (same_pt_parent s1 s2) by apply Hm2.
    destruct Hd0 as (_ & _ & -> & _). by rewrite decide_True. }
  unfold tell_parent, lock. rewrite (mi_lock _ _ _ Hm2). assert (sig_lock s1 = true) as -> by exact Hl. done.
Qed.

(** ** Signals *)

Definition safe (cur : nat) (c : comp (kres * procs)) : Prop :=
  match c with
  | Panic => False
  | Spin => True
  | Done (Sent _, s') => ∃ q', pinv s' q' ∧ on_cpu s' cur ∧ sig_lock s' = false
  | Done (Gone _, s') => ∃ q', pinv s' q'
  end.

Lemma lock_pinv b s q : pinv s q → pinv (set_lock b s) q.
Proof. intros Hi. by eapply pinv_ext. Qed.

Lemma ended_on_cpu s s' id code q' cur : ended s s' id code q' → on_cpu s cur → on_cpu s' cur.
Proof.
  intros [T Z I W C F L] (Hb & Hid & Hst). split; [done|]. split; [by rewrite I|].
  destruct (decide (cur = id)) as [->|Hne]; [by right|]. destruct (W cur Hne) as [->|[X _]]; [done|]. destruct Hst; congruence.
Qed.

Lemma safe_sent s q cur r : pinv s q → on_cpu s cur → safe cur (Done (Sent r, unlock s)).
Proof. intros Hi Hc. exists q. split; [by apply lock_pinv|by split]. Qed.

Lemma set_sigs_pinv s q i x : pinv s q → pinv (set_pt (<[i := with_sigs x (pt s !!! i)]> (pt s)) s) q.
Proof.
  intros Hi. eapply pinv_ext; [done|done|cbn; apply length_insert|]. intros j. cbn [pt set_pt].
  destruct (decide (j = i)) as [->|]; [|by rewrite list_lookup_total_insert_ne].
  destruct (decide (i < length (pt s))%nat); [by rewrite list_lookup_total_insert_eq|]. by rewrite list_insert_ge by lia.
Qed.

Lemma deliver_safe cpu cur i sig s q : pinv s q → on_cpu s cur → (cpu < MAX_CPUS)%nat → (i < MAX_TASKS)%nat →
  safe cur (sig_deliver_to_task cpu cur i sig s).
Proof.
  intros Hi Hc Hcpu Hb. unfold sig_deliver_to_task, lock. destruct (sig_lock s) eqn:Hlock; [done|]. cbn [cbind].
  set (s1 := set_lock true s). assert (pinv s1 q) as Hi1 by (by apply lock_pinv). assert (on_cpu s1 cur) as Hc1 by exact Hc.
  pose proof (λ r, safe_sent s1 q cur r Hi1 Hc1) as Hsent.
  destruct ((t_id (tasks (sch s1) !!! i) =? 0)%nat || _) eqn:E1; [apply Hsent|].
  apply orb_false_iff in E1 as [E1%Nat.eqb_neq _].
  destruct ((sig <=? 0) || _); [apply Hsent|].
  assert (∀ code r, safe cur (let! s := kill_task_zombie cur i code s1 in Done (Sent r, unlock s))) as Hkill.
  { intros code r. destruct (kill_spec s1 q cur i code Hi1 Hb E1) as (s2 & q2 & -> & He). cbn [cbind].
    apply (safe_sent s2 q2); [by eapply ended_pinv|by eapply ended_on_cpu]. }
  destruct ((sig =? SIGKILL) || _); [apply Hkill|].
  destruct (handler _ =? SIG_IGN); [apply Hsent|].
  set (s2 := set_pt _ s1). assert (pinv s2 q) as Hi2 by (by apply set_sigs_pinv). assert (on_cpu s2 cur) as Hc2 by exact Hc.
  destruct (negb (handler _ =? SIG_DFL)).
  { destruct (state_eqb _ TBlocked && _) eqn:E2; [|by apply (safe_sent s2 q)].
    apply andb_true_iff in E2 as [E2 _]. apply bool_decide_eq_true in E2.
    rewrite (si_id _ _ (ti_sys _ _ Hi1) i Hb E1).
    destruct (ready_spec s2 q i) as (s3 & q3 & -> & Hm); [apply Hi2|done|done|done|]. cbn [cbind].
    apply (safe_sent s3 q3); [by eapply mild_pinv|by eapply mild_on_cpu]. }
  destruct (terminates sig); [|apply Hsent].
  destruct (is_blocked _ _); [by apply (safe_sent s2 q)|].
  destruct (Nat.eqb_spec (task_idx cur) i) as [Heq|_]; [|apply Hkill].
  pose proof Hc as (Hcb & _). rewrite task_idx_small in Heq by lia. subst i.
  destruct (t_parent (pt s1 !!! cur)) as [p|] eqn:Hp.
  - unfold exit_task. rewrite (proj2 (Nat.eqb_neq cur 0)) by lia. by rewrite (retire_deadlock s1 q cur _ p).
  - destruct (exit_spec s1 q cpu cur (128 + sig) Hi1 Hc1 Hcpu) as (s3 & q3 & p & x & q' & _ & _ & -> & _ & _ & _ & Hpi); [by right|].
    cbn [cbind safe]. by exists q'.
Qed.

Lemma send_loop_safe n i cpu cur sig to hits s q : pinv s q → on_cpu s cur → (cpu < MAX_CPUS)%nat → sig_lock s = false →
  (i + n = MAX_TASKS)%nat → safe cur (send_loop n i cpu cur sig to hits s).
Proof.
  revert i hits s q; induction n as [|n IH]; intros i hits s q Hi Hc Hcpu Hl Hn; cbn [send_loop]; [by exists q|].
  destruct (_ && _); [|by eapply IH; [..|lia]].
  pose proof (deliver_safe cpu cur i sig s q Hi Hc Hcpu ltac:(lia)) as Hs.
  destruct (sig_deliver_to_task cpu cur i sig s) as [[[r|p] s']| |]; cbn [cbind]; [|done..].
  destruct Hs as (q' & Hi' & Hc' & Hl'). by eapply IH; [..|lia].
Qed.

Lemma leave_safe cpu cur restore k ret m s q : pinv s q → on_cpu s cur → (cpu < MAX_CPUS)%nat →
  match leave_syscall cpu cur restore k ret m s with
  | Panic => False | Spin => True | Done (_, s') => ∃ q', pinv s' q' end.
Proof.
  intros Hi Hc Hcpu. unfold leave_syscall, lock. destruct (sig_lock s); [done|]. cbn [cbind].
  set (s1 := set_lock true s). assert (pinv s1 q) as Hi1 by (by apply lock_pinv). assert (on_cpu s1 cur) as Hc1 by exact Hc.
  assert (∀ x, pinv (upd_pt cur (with_sigs x) s1) q) as Hx by (intros x; by apply set_sigs_pinv).
  destruct (match restore with None => _ | _ => _ end); [exists q; by apply lock_pinv|].
  destruct (check_deliver_signal _ _ _ _ _) as [|k'|x k' m'|code x]; [exists q; by apply lock_pinv..|exists q; apply lock_pinv, Hx|].
  set (s2 := upd_pt cur (with_sigs x) s1). assert (on_cpu s2 cur) as Hc2 by exact Hc.
  destruct (t_parent (pt s2 !!! cur)) as [p|] eqn:Hp.
  - unfold exit_task. pose proof Hc as (Hcb & _). rewrite (proj2 (Nat.eqb_neq cur 0)) by lia.
    by rewrite (retire_deadlock s2 q cur _ p (Hx x) Hc2).
  - destruct (exit_spec s2 q cpu cur code (Hx x) Hc2 Hcpu) as (s3 & q3 & p & y & q' & _ & _ & -> & _ & _ & _ & Hpi); [by right|].
    cbn [cbind]. by exists q'.
Qed.

(** ** Reaping *)

Lemma rq_wf_unqueued s q i t : rq_wf s q → (i < MAX_TASKS)%nat → unqueued q i → rq_wf (set_tasks (<[i := t]> (tasks s)) s) q.
Proof.
  intros [W1 W2 W3 W4 W5 W6 W7 W8 W9 W10] Hi Hun.
  assert (∀ c p a, a ∈ q c p → <[i := t]> (tasks s) !!! a = tasks s !!! a) as Ha.
  { intros c p a Ha. apply list_lookup_total_insert_ne. intros ->. by apply (Hun c p). }
  split; try done.
  - cbn. by rewrite length_insert.
  - intros c p. eapply threaded_ext; [|apply W5]. intros a Hin. cbn. by rewrite (Ha c p).
  - intros c p a Hin. cbn [tasks set_tasks]. rewrite (Ha c p a Hin). by apply W9.
Qed.

Lemma free_pid_sys s q id : sys_inv s q → sys_inv (free_pid id s) q.
Proof.
  intros Hi. unfold free_pid. destruct (_ || _); [done|]. destruct Hi as [[W1 W2 W3 W4 W5 W6 W7 W8 W9 W10] I1 I2 I3 I4].
  split; [split; assumption|assumption..].
Qed.

(** What the reaped slot and the others hold. *)
Lemma reap_spec cur i ptr s q : pinv s q → (0 < i < MAX_TASKS)%nat → t_id (tasks (sch s) !!! i) = i →
  t_state (tasks (sch s) !!! i) = TZombie →
  let '(r, s') := reap cur i ptr s in
  r = Z.of_nat i ∧ pinv s' q ∧ tasks (sch s') !!! i = task_empty ∧ pt s' !!! i = ptask_empty ∧
  (∀ j, j ≠ i → tasks (sch s') !!! j = tasks (sch s) !!! j ∧ pt s' !!! j = pt s !!! j) ∧
  freed s' = freed s ++ RStack (t_kernel_stack (pt s !!! i)) ::
    (if negb (t_pml4 (pt s !!! i) =? 0) && t_private (pt s !!! i) then [RSpace (t_pml4 (pt s !!! i))] else []).
Proof.
  intros Hi Hb Hid Hst. unfold reap. set (x := pt s !!! i). set (s1 := if ptr =? 0 then s else _).
  assert (sch s1 = sch s ∧ pt s1 = pt s ∧ freed s1 = freed s) as (E1 & E2 & E3) by (subst s1; by destruct (ptr =? 0)).
  set (s2 := if negb (t_pml4 x =? 0) && t_private x then _ else _).
  assert (sch s2 = sch s ∧ pt s2 = pt s ∧ freed s2 = freed s ++ RStack (t_kernel_stack x) ::
    (if negb (t_pml4 x =? 0) && t_private x then [RSpace (t_pml4 x)] else [])) as (F1 & F2 & F3).
  { subst s2. destruct (_ && _); cbn [release sch pt freed]; rewrite E1, E2, E3; split_and!; try done. by rewrite <- app_assoc. }
  cbn [sch set_sc set_pt pt freed]. rewrite F1, F2, F3, Hid.
  pose proof (ti_sys _ _ Hi) as [Hwf Hrd Hids Hcpu Hprio]. pose proof (ti_len _ _ Hi) as Hl.
  set (y := set_tasks (<[i := task_empty]> (tasks (sch s))) (sch s)).
  assert (tasks (free_pid i y) = tasks y) as Hft by (unfold free_pid; by destruct (_ || _)).
  assert (unqueued q i) as Hun by (intros c p Hin; apply Hrd in Hin; congruence).
  assert (tasks y !!! i = task_empty) as Hyi by (apply list_lookup_total_insert_eq; rewrite (rw_tasks _ _ Hwf); lia).
  assert (∀ j, j ≠ i → tasks y !!! j = tasks (sch s) !!! j) as Hyj by (intros j Hj; by apply list_lookup_total_insert_ne).
  assert (sys_inv y q) as Hy.
  { pose proof empty_bounds as [B1 B2]. split; [apply rq_wf_unqueued; [done|lia|done]|..].
    - intros c p a Ha. rewrite Hyj; [by eapply Hrd|]. intros ->. by apply (Hun c p).
    - intros j Hj. destruct (decide (j = i)) as [->|Hne]; [by rewrite Hyi|rewrite Hyj by done; auto].
    - intros j Hj. destruct (decide (j = i)) as [->|Hne]; [by rewrite Hyi|rewrite Hyj by done; auto].
    - intros j Hj. destruct (decide (j = i)) as [->|Hne]; [by rewrite Hyi|rewrite Hyj by done; auto]. }
  split_and!; [done| |by rewrite Hft|by rewrite list_lookup_total_insert_eq by lia| |done].
  - split; [split; cbn [sch set_sc set_pt pt]; [by apply free_pid_sys|by rewrite length_insert|]|]; cbn [sch set_sc set_pt pt]; rewrite Hft.
    + intros j Hj. destruct (decide (j = i)) as [->|Hne]; [by rewrite Hyi|rewrite Hyj by done]. by apply (ti_empty _ _ Hi).
    + intros j p Hj. destruct (decide (j = i)) as [->|Hne]; [by rewrite Hyi|]. rewrite Hyj, list_lookup_total_insert_ne by done.
      intros Hnz Hp. destruct (pv_parent _ _ Hi j p Hj Hnz Hp) as [Hpb Ha]. split; [done|].
      destruct Ha as [->|[A1 A2]]; [by left|right]. assert (p ≠ i) by (intros ->; congruence).
      unfold alive. cbn [sch set_sc]. by rewrite Hft, Hyj.
  - intros j Hj. rewrite Hft, Hyj by done. by rewrite list_lookup_total_insert_ne.
Qed.
