(* ===== verification/ProcClaims.v ===== *)
(** * The theorems about processes *)

From S2P Require Import Prelude Sched SchedInv SchedClaims Futex Pipe Bytes Signal SignalClaims Proc ProcInv.
From Stdlib Require Import Lia ZArith.
From stdpp Require Import base gmap numbers relations list.
Local Open Scope Z_scope.
#[local] Opaque MAX_TASKS PRIORITY_LEVELS MAX_CPUS.

(** ** Steps *)

(** The calls of the running tasks that end tasks, send signals or reap, and
    anything the scheduler and the wakers do in between. *)
Inductive pstep : procs → procs → Prop :=
| step_exit s cpu cur code r s' : on_cpu s cur → (cpu < MAX_CPUS)%nat → sig_lock s = false →
    exit_task cpu cur code s = Done (r, s') → pstep s s'
| step_kill s cpu cur pid sig r s' : on_cpu s cur → (cpu < MAX_CPUS)%nat → sig_lock s = false →
    sys_kill cpu cur pid sig s = Done (r, s') → pstep s s'
| step_tkill s cpu cur tid sig r s' : on_cpu s cur → (cpu < MAX_CPUS)%nat →
    sys_tkill cpu cur tid sig s = Done (r, s') → pstep s s'
| step_foreground s cpu cur fg sig r s' : on_cpu s cur → (cpu < MAX_CPUS)%nat → sig_lock s = false →
    signal_foreground_group cpu cur fg sig s = Done (r, s') → pstep s s'
| step_leave s cpu cur restore k ret m r s' : on_cpu s cur → (cpu < MAX_CPUS)%nat →
    leave_syscall cpu cur restore k ret m s = Done (r, s') → pstep s s'
| step_wait s k pid ptr flags r s' : t_state (tasks (sch s) !!! c_cur k) = TRunning →
    waitpid_turn k pid ptr flags s = Done (WRet r, s') → pstep s s'
| step_setpgid s cur pid pgid : on_cpu s cur → pstep s (sys_setpgid cur pid pgid s).2
| step_setsid s cur : on_cpu s cur → pstep s (sys_setsid cur s).2
| step_others s x q' : sys_inv x q' → stirred (sch s) x → pstep s (set_sc x s).

Definition reachable : procs → procs → Prop := rtc pstep.

Lemma upd_pgid_pinv s q i g : pinv s q → pinv (upd_pt i (with_tgid g) s) q.
Proof.
  intros Hi. unfold upd_pt, pt_ref. eapply pinv_ext; [done|done|cbn; apply length_insert|]. intros j. cbn [pt set_pt].
  destruct (decide (j = task_idx i)) as [->|]; [|by rewrite list_lookup_total_insert_ne].
  destruct (decide (task_idx i < length (pt s))%nat); [by rewrite list_lookup_total_insert_eq|]. by rewrite list_insert_ge by lia.
Qed.

Lemma find_zombie_spec cur pid s i : find_zombie cur pid s = Some i →
  (i < MAX_TASKS)%nat ∧ is_waited cur pid s i = true ∧ t_state (tasks (sch s) !!! i) = TZombie.
Proof. unfold find_zombie. intros (Hb & [H1 H2%bool_decide_eq_true]%andb_true_iff & _)%first_from_Some. split_and!; [lia|done|done]. Qed.

Lemma is_waited_spec cur pid s i : is_waited cur pid s i = true →
  t_id (tasks (sch s) !!! i) ≠ 0%nat ∧ t_parent (pt s !!! i) = Some cur.
Proof.
  unfold is_waited, waited. intros [[[H1 H2]%andb_true_iff _]%andb_true_iff _]%andb_true_iff.
  by apply bool_decide_eq_true in H2; apply negb_true_iff, Nat.eqb_neq in H1.
Qed.

Lemma safe_done s q cur c r s' : safe cur c → c = Done (r, s') → pinv s q → ∃ q', pinv s' q'.
Proof. intros Hs -> Hi. destruct r; [destruct Hs as (q' & Hs & _)|destruct Hs as (q' & Hs)]; by exists q'. Qed.

Lemma kill_safe cpu cur pid sig s q : pinv s q → on_cpu s cur → (cpu < MAX_CPUS)%nat → sig_lock s = false →
  safe cur (sys_kill cpu cur pid sig s).
Proof.
  intros Hi Hc Hcpu Hl. unfold sys_kill. destruct (sig =? 0); [by exists q|].
  pose proof (send_loop_safe MAX_TASKS 0 cpu cur sig (kill_match cur pid) 0 s q Hi Hc Hcpu Hl eq_refl) as Hs.
  by destruct (send_loop _ _ _ _ _ _ _ _) as [[[r|p] s']| |].
Qed.

(** A turn that returns has reaped a child or changed nothing. *)
Lemma turn_returns s k pid ptr flags r s' : waitpid_turn k pid ptr flags s = Done (WRet r, s') →
  s' = s ∨ ∃ i, find_zombie (c_cur k) pid s = Some i ∧ reap (c_cur k) i ptr s = (r, s').
Proof.
  intros He. unfold waitpid_turn in He. destruct (find_zombie (c_cur k) pid s) as [i|].
  { right. exists i. split; [done|]. destruct (reap (c_cur k) i ptr s) as [r' s1]. by injection He as <- <-. }
  left. destruct (find_child (c_cur k) pid s) as [i|]; [|by injection He as _ <-].
  destruct (negb _); [by injection He as _ <-|]. exfalso. destruct (negb _).
  { destruct (space_of s (c_cur k) !! _) as [v|]; [|done]. destruct (v =? 0); [done|].
    destruct (futex_wait _ _ _ _ _) as [[[?|?] ?]| |]; done. }
  destruct (on_sched _ _) as [[[| |] ?]| |]; done.
Qed.

Lemma step_pinv s s' q : pinv s q → pstep s s' → ∃ q', pinv s' q'.
Proof.
  intros Hi Hstep. destruct Hstep as [s cpu cur code r s' Hc Hcpu Hl He|s cpu cur pid sig r s' Hc Hcpu Hl He|s cpu cur tid sig r s' Hc Hcpu He
    |s cpu cur fg sig r s' Hc Hcpu Hl He|s cpu cur restore k ret m r s' Hc Hcpu He|s k pid ptr flags r s' Hst He|s cur pid pgid Hc|s cur Hc|s x q' Hx Hst].
  - destruct (exit_spec s q cpu cur code Hi Hc Hcpu) as (s1 & q1 & p & x & q' & _ & _ & He' & _ & _ & _ & Hp); [by left|].
    rewrite He' in He. injection He as <- <-. by exists q'.
  - eapply safe_done; [by eapply kill_safe|exact He|exact Hi].
  - unfold sys_tkill in He. destruct (sig =? 0); [injection He as <- <-; by exists q|].
    destruct (tid <=? 0); [injection He as <- <-; by exists q|].
    destruct (t_id _ =? 0)%nat; [injection He as <- <-; by exists q|].
    eapply safe_done; [eapply (deliver_safe cpu cur); [exact Hi|exact Hc|exact Hcpu|]|exact He|exact Hi].
    unfold slot_of, task_idx. rewrite max_tasks_64. destruct (Nat.leb_spec 64 (Z.to_nat (Z.min tid (Z.of_nat 64)))); lia.
  - unfold signal_foreground_group in He. destruct (cur =? 0)%nat; [injection He as <- <-; by exists q|].
    exact (safe_done _ _ _ _ _ _ (send_loop_safe MAX_TASKS 0 cpu cur sig _ 0 s q Hi Hc Hcpu Hl eq_refl) He Hi).
  - pose proof (leave_safe cpu cur restore k ret m s q Hi Hc Hcpu) as Hs. rewrite He in Hs. exact Hs.
  - destruct (turn_returns s k pid ptr flags r s' He) as [->|(i & Hz & Hr')]; [by exists q|].
    apply find_zombie_spec in Hz as (Hb & (Hnz & _)%is_waited_spec & Hzst).
    pose proof (si_id _ _ (ti_sys _ _ Hi) i Hb Hnz) as Hid.
    pose proof (reap_spec (c_cur k) i ptr s q Hi ltac:(lia) Hid Hzst) as Hr. rewrite Hr' in Hr. exists q. apply Hr.
  - exists q. unfold sys_setpgid. destruct (cur =? 0)%nat; [done|]. destruct (_ && _); [done|]. destruct (_ =? 0)%nat; [done|].
    by apply upd_pgid_pinv.
  - exists q. unfold sys_setsid. destruct (cur =? 0)%nat; [done|]. by apply upd_pgid_pinv.
  - exists q'. by eapply stirred_pinv.
Qed.

Lemma reachable_pinv s s' q : pinv s q → reachable s s' → ∃ q', pinv s' q'.
Proof. intros Hi Hr. revert q Hi. induction Hr as [|s s1 s2 H _ IH]; intros q Hi; [by exists q|]. destruct (step_pinv _ _ _ Hi H) as (q1 & H1). by eapply IH. Qed.

(** C17: No orphan is lost and the end of a task never panics.  However tasks
    exit, kill each other, take default actions and reap, in any interleaving,
    the parent of every task in use is a task that has not ended, or pid 1,
    and a task in the table sits in the slot of its pid with the run queues
    holding ready tasks only; no exit and no kill meets a broken queue. *)
Theorem orphans_adopted s s' q :
  pinv s q → reachable s s' →
  (∀ i p, (i < MAX_TASKS)%nat → t_id (tasks (sch s') !!! i) ≠ 0%nat → t_parent (pt s' !!! i) = Some p → p = 1%nat ∨ alive s' p) ∧
  (∃ q', sys_inv (sch s') q') ∧
  (∀ cpu cur code, on_cpu s' cur → (cpu < MAX_CPUS)%nat → sig_lock s' = false → ∃ p s2, exit_task cpu cur code s' = Done (Gone p, s2)) ∧
  (∀ cpu cur pid sig, on_cpu s' cur → (cpu < MAX_CPUS)%nat → sig_lock s' = false → sys_kill cpu cur pid sig s' ≠ Panic).
Proof.
  intros Hi Hr. destruct (reachable_pinv _ _ _ Hi Hr) as (q' & Hi'). split_and!.
  - intros i p Hb Hnz Hp. by apply (pv_parent _ _ Hi' i p).
  - exists q'. apply Hi'.
  - intros cpu cur code Hc Hcpu Hl. destruct (exit_spec s' q' cpu cur code Hi' Hc Hcpu) as (s1 & q1 & p & x & q2 & _ & _ & He & _); [by left|].
    by eexists _, _.
  - intros cpu cur pid sig Hc Hcpu Hl E. pose proof (kill_safe cpu cur pid sig s' q' Hi' Hc Hcpu Hl) as Hs. by rewrite E in Hs.
Qed.

(** ** Exit and wait *)

(** A task that has ended and was not reaped. *)
Definition zombie (s : procs) (j : nat) : Prop := t_id (tasks (sch s) !!! j) ≠ 0%nat ∧ t_state (tasks (sch s) !!! j) = TZombie.

(** What waits for the parent of a zombie. *)
Definition left_over (t : ptask) : Z * Z * bool := (t_kernel_stack t, t_pml4 t, t_private t).

(** Zombies stay what they are; they change parents only when theirs ends. *)
Definition stays (s s' : procs) : Prop := ∀ j, (j < MAX_TASKS)%nat → zombie s j →
  zombie s' j ∧ t_id (tasks (sch s') !!! j) = t_id (tasks (sch s) !!! j) ∧ left_over (pt s' !!! j) = left_over (pt s !!! j) ∧
  (t_parent (pt s' !!! j) = t_parent (pt s !!! j) ∨ ∃ p, (p < MAX_TASKS)%nat ∧ t_parent (pt s !!! j) = Some p ∧ zombie s' p).

#[export] Instance stays_preorder : PreOrder stays.
Proof.
  split; [intros s j Hj Hz; split_and!; [done..|by left]|]. intros s1 s2 s3 H1 H2 j Hj Hz.
  destruct (H1 j Hj Hz) as (Z1 & I1 & L1 & P1). destruct (H2 j Hj Z1) as (Z2 & I2 & L2 & P2). split_and!; [done|congruence|congruence|].
  destruct P1 as [E1|(p & Hp & E1 & Zp)]; [|right; exists p; split_and!; [done|done|by apply H2]]. rewrite <- E1. exact P2.
Qed.

(** The scheduler, the wakers and the signals leave zombies alone. *)
Lemma stirred_stays s s' : stirred (sch s) (sch s') → (∀ j, core (pt s' !!! j) = core (pt s !!! j)) → stays s s'.
Proof.
  intros Hs Hc j Hj [Hz1 Hz2]. destruct (Hs j) as [Hid Hst]. destruct (core_fields _ _ (Hc j)) as (E1 & _ & E2 & E3 & E4 & _).
  assert (t_state (tasks (sch s') !!! j) = TZombie) as Hz.
  { destruct Hst as [->|[R _]]; [done|]. rewrite Hz2 in R. by destruct R as [|[|]]. }
  split; [split; congruence|]. split; [done|]. split; [unfold left_over; congruence|by left].
Qed.

Lemma woke_stirred x x' : woke x x' → stirred x x'.
Proof. intros [_ H] j. destruct (H j) as [Hi [Hs|[H1 H2]]]; (split; [done|]); [by left|right]. rewrite H1, H2. unfold running_state. auto. Qed.

Lemma mild_stays s s' q' : mild s s' q' → stays s s'.
Proof. intros [_ W (_ & C & _) _]. apply stirred_stays; [by apply woke_stirred|done]. Qed.

Lemma same_stays s s' : sch s' = sch s → (∀ j, core (pt s' !!! j) = core (pt s !!! j)) → stays s s'.
Proof. intros Hs Hc. apply stirred_stays; [|done]. rewrite Hs. intros j. by split; [|left]. Qed.

Lemma sigs_stays s i x : stays s (set_pt (<[i := with_sigs x (pt s !!! i)]> (pt s)) s).
Proof.
  apply same_stays; [done|]. intros j. cbn [pt set_pt]. destruct (decide (j = i)) as [->|]; [|by rewrite list_lookup_total_insert_ne].
  destruct (decide (i < length (pt s))%nat); [by rewrite list_lookup_total_insert_eq|]. by rewrite list_insert_ge by lia.
Qed.

Lemma group_stays s i g : stays s (upd_pt i (with_tgid g) s).
Proof.
  intros j Hj Hz. unfold upd_pt, pt_ref. cbn [pt set_pt]. split; [done|]. split; [done|].
  destruct (decide (j = task_idx i)) as [->|]; [|rewrite list_lookup_total_insert_ne by done; by split; [|left]].
  destruct (decide (task_idx i < length (pt s))%nat); [rewrite list_lookup_total_insert_eq by done|rewrite list_insert_ge by lia]; by split; [|left].
Qed.

Lemma ended_stays s s' id code q' : (id < MAX_TASKS)%nat → t_id (tasks (sch s) !!! id) ≠ 0%nat → ended s s' id code q' → stays s s'.
Proof.
  intros Hid Hnz [T Z I W C F L] j Hj [Hz1 Hz2].
  assert (zombie s' j) as Hzj.
  { split; [by rewrite I|]. destruct (decide (j = id)) as [->|Hne]; [done|]. destruct (W j Hne) as [->|[X _]]; congruence. }
  split; [done|]. split; [done|]. pose proof (C j Hj) as Hc. set (t := if decide (j = id) then _ else _) in Hc.
  assert (left_over t = left_over (pt s !!! j) ∧ t_parent t = t_parent (pt s !!! j)) as [Ht1 Ht2] by (unfold t; by case_decide).
  destruct (core_fields _ _ Hc) as (E1 & _ & E2 & E3 & E4 & _). unfold adopt in *. split.
  - rewrite <- Ht1. unfold left_over. rewrite E2, E3, E4. by destruct (_ && _).
  - rewrite E1. case_bool_decide as Hp; [|left; by rewrite andb_false_r]. rewrite Ht2 in Hp.
    right. exists id. split_and!; [done|done|]. split; [by rewrite I|done].
Qed.

(** The outcome of a call that sends signals. *)
Definition leaves {A} (s : procs) (c : comp (A * procs)) : Prop := match c with Done (_, s') => stays s s' | _ => True end.

Lemma unlocked_stays s s' b : stays s s' → stays s (set_lock b s').
Proof. intros H. etrans; [exact H|]. by apply same_stays. Qed.

Lemma exit_stays s q cpu cur code : pinv s q → on_cpu s cur → (cpu < MAX_CPUS)%nat → leaves s (exit_task cpu cur code s).
Proof.
  intros Hi Hc Hcpu. pose proof Hc as (Hb & Hid & _).
  destruct (sig_lock s) eqn:Hl; [destruct (t_parent (pt s !!! cur)) as [p|] eqn:Hp|].
  { unfold exit_task. rewrite (proj2 (Nat.eqb_neq cur 0)) by lia. by rewrite (retire_deadlock s q cur _ p). }
  all: destruct (exit_spec s q cpu cur code Hi Hc Hcpu) as (s1 & q1 & p & x & q' & _ & He & -> & _ & Hst & _); [auto|];
    cbn [leaves]; (etrans; [eapply ended_stays; [|rewrite Hid|exact He]; lia|]); by apply stirred_stays.
Qed.

Lemma deliver_stays cpu cur i sig s q : pinv s q → on_cpu s cur → (cpu < MAX_CPUS)%nat → (i < MAX_TASKS)%nat →
  leaves s (sig_deliver_to_task cpu cur i sig s).
Proof.
  intros Hi Hc Hcpu Hb. unfold sig_deliver_to_task, lock. destruct (sig_lock s); [done|]. cbn [cbind].
  set (s1 := set_lock true s). assert (pinv s1 q) as Hi1 by (by apply lock_pinv). assert (on_cpu s1 cur) as Hc1 by exact Hc.
  assert (stays s s1) as H1 by (by apply same_stays).
  assert (∀ r, leaves s (Done (Sent r, unlock s1))) as Hsent by (intros r; by apply unlocked_stays).
  destruct ((t_id (tasks (sch s1) !!! i) =? 0)%nat || _) eqn:E1; [apply Hsent|].
  apply orb_false_iff in E1 as [E1%Nat.eqb_neq _].
  destruct ((sig <=? 0) || _); [apply Hsent|].
  assert (∀ code r, leaves s (let! s := kill_task_zombie cur i code s1 in Done (Sent r, unlock s))) as Hkill.
  { intros code r. destruct (kill_spec s1 q cur i code Hi1 Hb E1) as (s2 & q2 & -> & He). cbn [cbind leaves].
    apply unlocked_stays. etrans; [exact H1|]. by eapply ended_stays. }
  destruct ((sig =? SIGKILL) || _); [apply Hkill|].
  destruct (handler _ =? SIG_IGN); [apply Hsent|].
  set (s2 := set_pt _ s1). assert (stays s s2) as H2 by (etrans; [exact H1|apply sigs_stays]).
  assert (pinv s2 q) as Hi2 by (by apply set_sigs_pinv).
  destruct (negb (handler _ =? SIG_DFL)).
  { destruct (state_eqb _ TBlocked && _) eqn:E2; [|by apply unlocked_stays].
    apply andb_true_iff in E2 as [E2 _]. apply bool_decide_eq_true in E2.
    rewrite (si_id _ _ (ti_sys _ _ Hi1) i Hb E1).
    destruct (ready_spec s2 q i) as (s3 & q3 & -> & Hm); [apply Hi2|done|done|done|]. cbn [cbind leaves].
    apply unlocked_stays. etrans; [exact H2|by eapply mild_stays]. }
  destruct (terminates sig); [|apply Hsent].
  destruct (is_blocked _ _); [by apply unlocked_stays|].
  destruct (Nat.eqb_spec (task_idx cur) i) as [_|_]; [|apply Hkill].
  pose proof (exit_stays s1 q cpu cur (128 + sig) Hi1 Hc1 Hcpu) as He.
  destruct (exit_task cpu cur (128 + sig) s1) as [[[r|p] s3]| |]; cbn [cbind leaves] in *; [|by etrans|done..].
  apply unlocked_stays. by etrans.
Qed.

Lemma send_loop_stays n i cpu cur sig to hits s q : pinv s q → on_cpu s cur → (cpu < MAX_CPUS)%nat → sig_lock s = false →
  (i + n = MAX_TASKS)%nat → leaves s (send_loop n i cpu cur sig to hits s).
Proof.
  revert i hits s q; induction n as [|n IH]; intros i hits s q Hi Hc Hcpu Hl Hn; cbn [send_loop]; [cbn [leaves]; reflexivity|].
  destruct (_ && _); [|by eapply IH; [..|lia]].
  pose proof (deliver_safe cpu cur i sig s q Hi Hc Hcpu ltac:(lia)) as Hs. pose proof (deliver_stays cpu cur i sig s q Hi Hc Hcpu ltac:(lia)) as Hd.
  destruct (sig_deliver_to_task cpu cur i sig s) as [[[r|p] s']| |]; cbn [cbind]; [|done..].
  destruct Hs as (q' & Hi' & Hc' & Hl'). pose proof (IH (S i) (if r =? 0 then hits + 1 else hits) s' q' Hi' Hc' Hcpu Hl' ltac:(lia)) as Hr.
  destruct (send_loop _ _ _ _ _ _ _ _) as [[? s2]| |]; cbn [leaves] in *; [by etrans|done..].
Qed.

Lemma leave_stays cpu cur restore k ret m s q : pinv s q → on_cpu s cur → (cpu < MAX_CPUS)%nat → leaves s (leave_syscall cpu cur restore k ret m s).
Proof.
  intros Hi Hc Hcpu. unfold leave_syscall, lock. destruct (sig_lock s); [done|]. cbn [cbind].
  set (s1 := set_lock true s). assert (pinv s1 q) as Hi1 by (by apply lock_pinv). assert (stays s s1) as H1 by (by apply same_stays).
  assert (∀ x, stays s (upd_pt cur (with_sigs x) s1)) as Hx by (intros x; etrans; [exact H1|apply sigs_stays]).
  destruct (match restore with None => _ | _ => _ end); [by apply unlocked_stays|].
  destruct (check_deliver_signal _ _ _ _ _) as [|k'|x k' m'|code x]; cbn [leaves]; [by apply unlocked_stays..|by apply unlocked_stays|].
  set (s2 := upd_pt cur (with_sigs x) s1). assert (on_cpu s2 cur) as Hc2 by exact Hc.
  pose proof (exit_stays s2 q cpu cur code (set_sigs_pinv s1 q _ x Hi1) Hc2 Hcpu) as He.
  destruct (exit_task cpu cur code s2) as [[[r|p] s3]| |]; cbn [cbind leaves] in *; [|by etrans; [apply Hx|]|done..].
  apply unlocked_stays. by etrans; [apply Hx|].
Qed.

(** While the zombie [cur] waits for its parent [p] everybody does what they
    like, new tasks are made, but [p] does not end, nobody else reaps [cur],
    and no signal ends it once more, which would replace its code. *)
Inductive meanwhile (cur p : nat) : procs → procs → Prop :=
| mw_step s s' : pstep s s' → alive s' p → t_id (tasks (sch s') !!! cur) ≠ 0%nat → t_exit_code (pt s' !!! cur) = t_exit_code (pt s !!! cur) →
    meanwhile cur p s s'
| mw_create s s' c q' : t_id (tasks (sch s) !!! c) = 0%nat → pinv s' q' →
    (∀ j, j ≠ c → same_task (tasks (sch s') !!! j) (tasks (sch s) !!! j) ∧ pt s' !!! j = pt s !!! j) → meanwhile cur p s s'.

(** The zombie [cur], child of [p], with its code and what it leaves. *)
Definition waits (s : procs) (cur p : nat) (code : Z) (l : Z * Z * bool) : Prop :=
  zombie s cur ∧ t_id (tasks (sch s) !!! cur) = cur ∧ t_parent (pt s !!! cur) = Some p ∧ t_exit_code (pt s !!! cur) = code ∧ left_over (pt s !!! cur) = l.

Lemma stays_waits s s' cur p code l : (cur < MAX_TASKS)%nat → stays s s' → alive s' p → t_exit_code (pt s' !!! cur) = t_exit_code (pt s !!! cur) →
  waits s cur p code l → waits s' cur p code l.
Proof.
  intros Hb Hs [_ Ha] Hcode (Hz & Hid & Hp & Hc & Hl). destruct (Hs cur Hb Hz) as (Hz' & Hid' & Hl' & Hp').
  split; [done|]. split; [congruence|]. split; [|split; congruence]. destruct Hp' as [->|(p' & _ & E & [_ Zp])]; [done|].
  rewrite Hp in E. injection E as <-. done.
Qed.

Lemma done_stays {A} s (c : comp (A * procs)) r s' : c = Done (r, s') → leaves s c → stays s s'.
Proof. by intros ->. Qed.

Lemma step_waits s s' q cur p code l : pinv s q → (cur < MAX_TASKS)%nat → meanwhile cur p s s' → waits s cur p code l → waits s' cur p code l ∧ ∃ q', pinv s' q'.
Proof.
  intros Hi Hb Hm. destruct Hm as [s s' Hstep Ha Hnz Hcode|s s' c q' Hc0 Hi' Hoth].
  2: { intros (Hz & Hid & Hp & Hc & Hl). split; [|by exists q']. assert (cur ≠ c) as Hne by (intros ->; by destruct Hz).
       destruct (Hoth cur Hne) as [Ht Hpt]. destruct (same_task_fields _ _ Ht) as (E1 & E2 & _).
       unfold waits, zombie. rewrite E1, E2, Hpt. done. }
  intros Hw. split; [|by eapply step_pinv]. destruct Hstep as [s cpu c k r s' Hc Hcpu Hl He|s cpu c pid sig r s' Hc Hcpu Hl He|s cpu c tid sig r s' Hc Hcpu He
    |s cpu c fg sig r s' Hc Hcpu Hl He|s cpu c restore k ret m r s' Hc Hcpu He|s k pid ptr flags r s' Hst He|s c pid pgid Hc|s c Hc|s x q' Hx Hst].
  - eapply stays_waits; [done|eapply done_stays; [exact He|by eapply exit_stays]|done..].
  - eapply stays_waits; [done| |done..]. unfold sys_kill in He. destruct (sig =? 0); [injection He as <- <-; reflexivity|].
    pose proof (send_loop_stays MAX_TASKS 0 cpu c sig (kill_match c pid) 0 s q Hi Hc Hcpu Hl eq_refl) as H.
    destruct (send_loop _ _ _ _ _ _ _ _) as [[[?|?] s2]| |]; cbn [cbind leaves] in *; [|by injection He as _ <-|done..]. by injection He as _ <-.
  - eapply stays_waits; [done| |done..]. unfold sys_tkill in He. destruct (sig =? 0); [injection He as <- <-; reflexivity|].
    destruct (tid <=? 0); [injection He as <- <-; reflexivity|]. destruct (t_id (tasks (sch s) !!! slot_of tid) =? 0)%nat; [injection He as <- <-; reflexivity|].
    eapply done_stays; [exact He|]. eapply deliver_stays; [done..|]. unfold slot_of, task_idx. rewrite max_tasks_64. destruct (Nat.leb_spec 64 (Z.to_nat (Z.min tid (Z.of_nat 64)))); lia.
  - eapply stays_waits; [done| |done..]. unfold signal_foreground_group in He. destruct (c =? 0)%nat; [injection He as <- <-; reflexivity|].
    eapply done_stays; [exact He|]. by eapply (send_loop_stays MAX_TASKS 0).
  - eapply stays_waits; [done|eapply done_stays; [exact He|by eapply leave_stays]|done..].
  - destruct (turn_returns s k pid ptr flags r s' He) as [->|(i & Hz & Hr)]; [done|].
    apply find_zombie_spec in Hz as (Hib & (Hinz & _)%is_waited_spec & Hzst).
    pose proof (si_id _ _ (ti_sys _ _ Hi) i Hib Hinz) as Hid.
    pose proof (reap_spec (c_cur k) i ptr s q Hi ltac:(lia) Hid Hzst) as Hr'. rewrite Hr in Hr'. destruct Hr' as (_ & _ & Hti & _ & Hoth & _).
    assert (cur ≠ i) as Hne by (intros ->; by rewrite Hti in Hnz). destruct (Hoth cur Hne) as [Et Ep].
    unfold waits, zombie in *. by rewrite Et, Ep.
  - eapply stays_waits; [done| |done..]. unfold sys_setpgid. destruct (c =? 0)%nat; [reflexivity|]. destruct (_ && _); [reflexivity|]. destruct (_ =? 0)%nat; [reflexivity|].
    apply group_stays.
  - eapply stays_waits; [done| |done..]. unfold sys_setsid. destruct (c =? 0)%nat; [reflexivity|]. apply group_stays.
  - eapply stays_waits; [done|by apply stirred_stays|done..].
Qed.

Lemma meanwhile_waits s s' q cur p code l : pinv s q → (cur < MAX_TASKS)%nat → rtc (meanwhile cur p) s s' → waits s cur p code l →
  waits s' cur p code l ∧ ∃ q', pinv s' q'.
Proof.
  intros Hi Hb Hr. revert q Hi. induction Hr as [s|s s1 s2 H _ IH]; intros q Hi Hw; [split; [done|by exists q]|].
  destruct (step_waits s s1 q cur p code l Hi Hb H Hw) as (Hw1 & q1 & Hi1). by eapply IH.
Qed.

Lemma bit_cleared_pid bm i : Z.testbit (Z.ldiff bm (Z.shiftl 1 (Z.of_nat i))) (Z.of_nat i) = false.
Proof. rewrite Z.ldiff_spec, Z.shiftl_spec, Z.sub_diag by lia. cbn. by rewrite andb_false_r. Qed.

Lemma reap_pid_free cur i ptr s : (0 < i < MAX_TASKS)%nat → t_id (tasks (sch s) !!! i) = i →
  pid_used (sch (reap cur i ptr s).2) i = false.
Proof.
  intros Hb Hid. unfold reap. set (s1 := if ptr =? 0 then s else _). assert (sch s1 = sch s) as E1 by (subst s1; by destruct (ptr =? 0)).
  cbn [snd sch set_sc]. rewrite Hid. unfold free_pid. rewrite (proj2 (Nat.eqb_neq i 0)), (proj2 (Nat.leb_gt _ _)) by lia.
  unfold pid_used. cbn [orb pid_bitmap set_bitmap]. apply bit_cleared_pid.
Qed.

Lemma reap_status cur i ptr s : ptr ≠ 0 → (cur < MAX_TASKS)%nat → (i < MAX_TASKS)%nat → cur ≠ i → 
  space_of (reap cur i ptr s).2 cur !! ptr = Some (wait_status (t_exit_code (pt s !!! i))).
Proof.
  intros Hp Hc Hi Hne. unfold reap. apply Z.eqb_neq in Hp. rewrite Hp. cbn [snd].
  unfold space_of, pt_ref. cbn [pt user set_sc set_pt]. rewrite task_idx_small by done.
  rewrite list_lookup_total_insert_ne by done.
  destruct (_ && _); cbn [pt user set_sc set_pt release set_space set_user pt_ref]; unfold pt_ref; rewrite !task_idx_small, lookup_insert by done;
    cbn [default from_option id]; rewrite decide_True by done; cbn; by rewrite lookup_insert, decide_True.
Qed.

Lemma waited_only cur s q i j : pinv s q → (0 < i)%nat → (j < MAX_TASKS)%nat → is_waited cur (Z.of_nat i) s j = true → j = i.
Proof.
  intros Hi Hb Hj Hw. pose proof (is_waited_spec _ _ _ _ Hw) as [Hnz _]. unfold is_waited, waited in Hw.
  apply andb_true_iff in Hw as [[_ Hw]%andb_true_iff _]. rewrite (si_id _ _ (ti_sys _ _ Hi) j Hj Hnz) in Hw.
  assert (0 < Z.of_nat i) as Hpos by lia. rewrite (proj2 (Z.ltb_lt _ _) Hpos) in Hw. cbn [andb] in Hw.
  apply negb_true_iff, negb_false_iff, Z.eqb_eq in Hw. lia.
Qed.

Lemma find_zombie_only cur s q i : pinv s q → (0 < i < MAX_TASKS)%nat → t_id (tasks (sch s) !!! i) = i →
  t_parent (pt s !!! i) = Some cur → t_state (tasks (sch s) !!! i) = TZombie → find_zombie cur (Z.of_nat i) s = Some i.
Proof.
  intros Hi Hb Hid Hp Hst. apply first_from_Some. split_and!; [lia|lia| |].
  - rewrite Hst, andb_true_iff. split; [|done]. unfold is_waited, waited. rewrite Hid, Hp, bool_decide_true by done.
    rewrite (proj2 (Nat.eqb_neq i 0)) by lia. rewrite Z.eqb_refl, (proj2 (Z.ltb_ge (Z.of_nat i) (-1))) by lia. cbn. by rewrite andb_false_r.
  - intros k Hk. destruct (is_waited cur (Z.of_nat i) s k) eqn:Hw; [|done].
    pose proof (waited_only cur s q i k Hi ltac:(lia) ltac:(lia) Hw). lia.
Qed.

(** What a parent gives back when it reaps a slot. *)
Definition returned (x : ptask) : list released :=
  RStack (t_kernel_stack x) :: if negb (t_pml4 x =? 0) && t_private x then [RSpace (t_pml4 x)] else [].

Lemma reap_once s q cur p k fuel ptr flags : pinv s q → (0 < cur < MAX_TASKS)%nat → t_id (tasks (sch s) !!! cur) = cur →
  t_state (tasks (sch s) !!! cur) = TZombie → t_parent (pt s !!! cur) = Some p → p ≠ cur → c_cur k = p →
  ∃ s', sys_waitpid (S fuel) k (Z.of_nat cur) ptr flags s = Done (WRet (Z.of_nat cur), s') ∧ pinv s' q ∧
    (ptr ≠ 0 → space_of s' p !! ptr = Some (wait_status (t_exit_code (pt s !!! cur)))) ∧
    freed s' = freed s ++ returned (pt s !!! cur) ∧ tasks (sch s') !!! cur = task_empty ∧ pid_used (sch s') cur = false ∧
    sys_waitpid (S fuel) k (Z.of_nat cur) ptr flags s' = Done (WRet (- ECHILD), s').
Proof.
  intros Hi Hb Hid Hz Hp Hne Hk. destruct (pv_parent _ _ Hi cur p ltac:(lia) ltac:(lia) Hp) as [Hpb _].
  pose proof (find_zombie_only p s q cur Hi Hb Hid Hp Hz) as Hfind.
  pose proof (reap_spec p cur ptr s q Hi Hb Hid Hz) as Hr. pose proof (reap_pid_free p cur ptr s Hb Hid) as Hpid.
  pose proof (λ H, reap_status p cur ptr s H ltac:(lia) ltac:(lia) Hne) as Hstat.
  destruct (reap p cur ptr s) as [r s3] eqn:Hreap. destruct Hr as (-> & Hi3 & Ht & Hpt & Hoth & Hfr). cbn [snd] in Hpid, Hstat.
  exists s3. split_and!; [|done|done|exact Hfr|done|done|].
  - cbn [sys_waitpid]. rewrite Hk, (proj2 (Nat.eqb_neq p 0)) by lia. unfold waitpid_turn. by rewrite Hk, Hfind, Hreap.
  - cbn [sys_waitpid]. rewrite Hk, (proj2 (Nat.eqb_neq p 0)) by lia. unfold waitpid_turn. rewrite Hk.
    assert (∀ j, (j < MAX_TASKS)%nat → is_waited p (Z.of_nat cur) s3 j = false) as Hnone.
    { intros j Hj. destruct (is_waited p (Z.of_nat cur) s3 j) eqn:Hw; [|done].
      assert (j = cur) as -> by (eapply waited_only; [exact Hi3|lia|lia|exact Hw]).
      apply is_waited_spec in Hw as [Hw _]. by rewrite Ht in Hw. }
    assert (find_zombie p (Z.of_nat cur) s3 = None) as ->.
    { apply first_from_None. intros j Hj. by rewrite Hnone by lia. }
    assert (find_child p (Z.of_nat cur) s3 = None) as ->; [|done]. apply first_from_None. intros j Hj. apply Hnone. lia.
Qed.

Lemma ended_core s s' id code q q' p : pinv s q → (id < MAX_TASKS)%nat → ended s s' id code q' → t_parent (pt s !!! id) = Some p → p ≠ id →
  core (pt s' !!! id) = core (with_code code (pt s !!! id)).
Proof.
  intros Hi Hb He Hp Hne. rewrite (ed_core _ _ _ _ _ He) by lia. rewrite decide_True by done. unfold adopt.
  rewrite bool_decide_false by (cbn; congruence). by rewrite andb_false_r.
Qed.

Lemma returned_core t t' : core t = core t' → returned t = returned t'.
Proof. intros H. destruct (core_fields _ _ H) as (_ & _ & E1 & E2 & E3 & _). unfold returned. by rewrite E1, E2, E3. Qed.

Lemma returned_left t t' : left_over t = left_over t' → returned t = returned t'.
Proof. intros [= E1 E2 E3]. unfold returned. by rewrite E1, E2, E3. Qed.

(** C16: The exit code of a task reaches its parent, once.  A task that exits
    stays as a zombie and nothing of it is given back yet.  The other tasks may
    then run, exit, kill, handle signals, reap and change groups in any
    interleaving, and tasks may be created, as long as the parent does not
    end, nobody else reaps the zombie and no signal ends it once more; the
    parent's [waitpid] then returns at once with the pid, writes the low byte
    of the code where the caller asked, gives back the kernel stack, and the
    address space when it was the task's own, and frees slot and pid; the next
    [waitpid] on that pid reports that there is no such child. *)
Theorem exit_reaped s q cpu cur code p :
  pinv s q → on_cpu s cur → (cpu < MAX_CPUS)%nat → sig_lock s = false → t_parent (pt s !!! cur) = Some p → p ≠ cur →
  ∃ pk s1 q1, exit_task cpu cur code s = Done (Gone pk, s1) ∧ pinv s1 q1 ∧ sig_lock s1 = false ∧ freed s1 = freed s ∧
  ∀ s2 k fuel ptr flags, rtc (meanwhile cur p) s1 s2 → c_cur k = p →
    ∃ s3 q3, sys_waitpid (S fuel) k (Z.of_nat cur) ptr flags s2 = Done (WRet (Z.of_nat cur), s3) ∧ pinv s3 q3 ∧
      (ptr ≠ 0 → space_of s3 p !! ptr = Some (wait_status code)) ∧
      freed s3 = freed s2 ++ returned (pt s !!! cur) ∧ tasks (sch s3) !!! cur = task_empty ∧ pid_used (sch s3) cur = false ∧
      sys_waitpid (S fuel) k (Z.of_nat cur) ptr flags s3 = Done (WRet (- ECHILD), s3).
Proof.
  intros Hi Hc Hcpu Hl Hp Hne. pose proof Hc as (Hb & Hid & _).
  destruct (exit_spec s q cpu cur code Hi Hc Hcpu) as (s1 & q1 & pk & x & q' & _ & He & Hrun & Hx & Hst & Hz & Hpi); [by left|].
  exists pk, (set_sc x s1), q'. split; [exact Hrun|]. split; [exact Hpi|]. split; [rewrite <- Hl; apply (ed_lock _ _ _ _ _ He)|].
  split; [apply (ed_freed _ _ _ _ _ He)|]. intros s2 k fuel ptr flags Hm Hk.
  assert (core (pt s1 !!! cur) = core (with_code code (pt s !!! cur))) as Hcore by (eapply ended_core; [done|lia|done..]).
  destruct (core_fields _ _ Hcore) as (C1 & C2 & C3 & C4 & C5 & _).
  destruct (meanwhile_waits _ s2 q' cur p code (left_over (pt s !!! cur)) Hpi ltac:(lia) Hm) as ((Hz2 & Hid2 & Hp2 & Hcode2 & Hl2) & q2 & Hi2).
  { assert (t_id (tasks x !!! cur) = cur) as Hidx by (rewrite (proj1 (Hst cur)), (ed_id _ _ _ _ _ He); done).
    split; [split; cbn [sch set_sc]; [lia|done]|]. cbn [sch set_sc pt]. split_and!; [done|by rewrite C1|by rewrite C2|].
    unfold left_over. by rewrite C3, C4, C5. }
  destruct (reap_once s2 q2 cur p k fuel ptr flags) as (s3 & R1 & R2 & R3 & R4 & R5 & R6 & R7); try done; [apply Hz2|].
  exists s3, q2. split_and!; [done|done| | |done|done|done].
  - intros H. by rewrite (R3 H), Hcode2.
  - rewrite R4. f_equal. by apply returned_left.
Qed.

(** ** Signals to oneself *)

Lemma send_loop_one n i cpu cur sig to hits s r : (i < n)%nat →
  (∀ j, (j < n)%nat → (negb (t_id (tasks (sch s) !!! j) =? 0)%nat && to (tasks (sch s) !!! j) (pt s !!! j)) = true → j = i) →
  (negb (t_id (tasks (sch s) !!! i) =? 0)%nat && to (tasks (sch s) !!! i) (pt s !!! i)) = true →
  sig_deliver_to_task cpu cur i sig s = r → (r = Spin ∨ ∃ p s', r = Done (Gone p, s')) →
  ∀ m k, (k + m = n)%nat → (k ≤ i)%nat → send_loop m k cpu cur sig to hits s = r.
Proof.
  intros Hin Honly Hi Hr Hk. induction m as [|m IH]; intros k Hkm Hki; [lia|]. cbn [send_loop].
  destruct (decide (k = i)) as [->|Hne].
  - rewrite Hi, Hr. by destruct Hk as [->|(p & s' & ->)].
  - destruct (negb (t_id (tasks (sch s) !!! k) =? 0)%nat && _) eqn:E; [exfalso; apply Hne, Honly; [lia|exact E]|]. apply IH; lia.
Qed.

(** What the default action of a signal does to the task that takes it: under
    the lock. *)
Lemma exit_locked s q cpu cur code : pinv s q → on_cpu s cur → (cpu < MAX_CPUS)%nat → sig_lock s = true →
  match t_parent (pt s !!! cur) with
  | Some _ => exit_task cpu cur code s = Spin
  | None => ∃ p s', exit_task cpu cur code s = Done (Gone p, s') ∧ sig_lock s' = true
  end.
Proof.
  intros Hi Hc Hcpu Hl. destruct (t_parent (pt s !!! cur)) as [p|] eqn:Hp.
  - unfold exit_task. pose proof Hc as (Hb & _). rewrite (proj2 (Nat.eqb_neq cur 0)) by lia.
    by rewrite (retire_deadlock s q cur code p).
  - destruct (exit_spec s q cpu cur code Hi Hc Hcpu) as (s1 & q1 & pk & x & q' & _ & He & -> & _); [by right|].
    exists pk, (set_sc x s1). split; [done|]. cbn. by rewrite (ed_lock _ _ _ _ _ He).
Qed.

Lemma deliver_loop_default n i sig t k ret m : (i ≤ sig < i + n)%nat → (∀ j, (i ≤ j < sig)%nat → is_pending t j = false) →
  is_pending t sig = true → is_blocked t sig = false → handler (sig_handlers t !!! sig) = SIG_DFL → terminates (Z.of_nat sig) = true →
  ∃ x, deliver_loop n i t k ret m = Ended (128 + Z.of_nat sig) x.
Proof.
  revert i; induction n as [|n IH]; intros i Hi Hno Hp Hb Hh Ht; [lia|]. cbn [deliver_loop].
  destruct (decide (i = sig)) as [->|Hne].
  - rewrite Hp, Hb, Hh, Ht. by eexists.
  - rewrite Hno by lia. cbn [negb orb]. apply IH; try done; [lia|]. intros j Hj. apply Hno. lia.
Qed.

Lemma deliver_default cpu cur sig s : (0 < cur < MAX_TASKS)%nat → sig_lock s = false → t_id (tasks (sch s) !!! cur) ≠ 0%nat →
  t_state (tasks (sch s) !!! cur) = TRunning → (0 < sig < SIGNAL_COUNT)%nat → terminates (Z.of_nat sig) = true →
  handler (sig_handlers (t_sigs (pt s !!! cur)) !!! sig) = SIG_DFL → is_blocked (t_sigs (pt s !!! cur)) sig = false →
  sig_deliver_to_task cpu cur cur (Z.of_nat sig) s =
    let! (r, s') := exit_task cpu cur (128 + Z.of_nat sig) (set_lock true s) in
    match r with Sent _ => Done (Sent 0, unlock s') | Gone p => Done (Gone p, s') end.
Proof.
  intros Hb Hl Hid Hst Hsig Ht Hh Hbl. unfold sig_deliver_to_task, lock. rewrite Hl. cbn [cbind]. cbn [sch set_lock pt].
  rewrite (proj2 (Nat.eqb_neq _ _) Hid), Hst, Nat2Z.id, Hh, Hbl, Ht.
  rewrite (proj2 (Z.leb_gt _ _)), (proj2 (Z.leb_gt (Z.of_nat SIGNAL_COUNT) _)) by lia.
  destruct (Z.eqb_spec (Z.of_nat sig) SIGKILL) as [E|_]; [by rewrite E in Ht|]. destruct (Z.eqb_spec (Z.of_nat sig) SIGSTOP) as [E|_]; [by rewrite E in Ht|].
  rewrite task_idx_small by lia. by rewrite Nat.eqb_refl.
Qed.

(** C39: A signal whose default action ends the task that it is sent to
    wedges the kernel.  [exit_task] runs with the signal lock held and takes
    it again for the parent's SIGCHLD: a task with a parent that sends itself
    such a signal, unblocked and unhandled, or that finds one pending on its
    way out of a system call, spins for ever; a task without a parent goes
    away with the lock held, and every later delivery and every later way out
    of a system call spins. *)
Theorem self_signal_wedges s q cpu cur sig k ret m :
  pinv s q → on_cpu s cur → (cpu < MAX_CPUS)%nat → sig_lock s = false → (0 < sig < SIGNAL_COUNT)%nat →
  t_state (tasks (sch s) !!! cur) = TRunning → terminates (Z.of_nat sig) = true →
  handler (sig_handlers (t_sigs (pt s !!! cur)) !!! sig) = SIG_DFL → is_blocked (t_sigs (pt s !!! cur)) sig = false →
  let wedged s' := ∀ cpu' cur' i sig' r k' ret' m',
    sig_deliver_to_task cpu' cur' i sig' s' = Spin ∧ leave_syscall cpu' cur' r k' ret' m' s' = Spin in
  match t_parent (pt s !!! cur) with
  | Some _ => sys_kill cpu cur (Z.of_nat cur) (Z.of_nat sig) s = Spin
  | None => ∃ p s', sys_kill cpu cur (Z.of_nat cur) (Z.of_nat sig) s = Done (Gone p, s') ∧ wedged s'
  end ∧
  ((∀ j, (j < sig)%nat → is_pending (t_sigs (pt s !!! cur)) j = false) → is_pending (t_sigs (pt s !!! cur)) sig = true →
   match t_parent (pt s !!! cur) with
   | Some _ => leave_syscall cpu cur None k ret m s = Spin
   | None => ∃ p s', leave_syscall cpu cur None k ret m s = Done (inr p, s') ∧ wedged s'
   end).
Proof.
  intros Hi Hc Hcpu Hl Hsig Hst Ht Hh Hb wedged. pose proof Hc as (Hcb & Hid & _).
  assert (∀ s', sig_lock s' = true → wedged s') as Hwedged.
  { intros s' Hs' cpu' cur' i sig' r k' ret' m'. unfold sig_deliver_to_task, leave_syscall, lock. by rewrite Hs'. }
  set (s1 := set_lock true s). assert (pinv s1 q) as Hi1 by (by apply lock_pinv).
  split.
  - assert (∀ r, sig_deliver_to_task cpu cur cur (Z.of_nat sig) s = r → (r = Spin ∨ ∃ p s', r = Done (Gone p, s')) →
      send_loop MAX_TASKS 0 cpu cur (Z.of_nat sig) (kill_match cur (Z.of_nat cur)) 0 s = r) as Hloop.
    { intros r Hr Hk. eapply (send_loop_one MAX_TASKS cur); [lia| | |exact Hr|exact Hk|lia|lia].
      - intros j Hj [Hnz Hm]%andb_true_iff. apply negb_true_iff, Nat.eqb_neq in Hnz.
        unfold kill_match in Hm. rewrite (si_id _ _ (ti_sys _ _ Hi) j Hj Hnz) in Hm. bool_to_prop. lia.
      - unfold kill_match. rewrite Hid, Z.eqb_refl, (proj2 (Nat.eqb_neq cur 0)), (proj2 (Z.ltb_lt 0 (Z.of_nat cur))) by lia.
        cbn. by rewrite orb_true_r. }
    unfold sys_kill. rewrite (proj2 (Z.eqb_neq _ _)) by lia.
    rewrite (deliver_default cpu cur sig s) in Hloop by (done || congruence || lia).
    pose proof (exit_locked s1 q cpu cur (128 + Z.of_nat sig) Hi1 Hc Hcpu eq_refl) as He. fold s1 in Hloop.
    change (pt s1 !!! cur) with (pt s !!! cur) in He. destruct (t_parent (pt s !!! cur)) as [p|].
    + rewrite He in Hloop. cbn [cbind] in Hloop. rewrite (Hloop Spin eq_refl); [done|by left].
    + destruct He as (p & s' & He & Hs'). rewrite He in Hloop. cbn [cbind] in Hloop.
      rewrite (Hloop _ eq_refl); [|right; eauto]. cbn [cbind]. eauto.
  - intros Hno Hp. unfold leave_syscall, lock. rewrite Hl. cbn [cbind]. fold s1.
    unfold task_ref, pt_ref. rewrite task_idx_small by lia. change (tasks (sch s1)) with (tasks (sch s)). change (pt s1) with (pt s).
    rewrite Hst, (proj2 (Nat.eqb_neq _ _)) by lia. change (state_eqb TRunning TEmpty) with false. cbn [orb].
    destruct (deliver_loop_default (SIGNAL_COUNT - 1) 1 sig (t_sigs (pt s !!! cur)) k ret m) as (x & Hx);
      [clear -Hsig; unfold SIGNAL_COUNT in *; lia|intros j Hj; apply Hno; lia|done..|].
    rewrite deliver_none, Hx. set (s2 := upd_pt cur (with_sigs x) s1).
    assert (pinv s2 q) as Hi2 by (by apply set_sigs_pinv).
    pose proof (exit_locked s2 q cpu cur (128 + Z.of_nat sig) Hi2 Hc Hcpu eq_refl) as He.
    assert (t_parent (pt s2 !!! cur) = t_parent (pt s !!! cur)) as Hpar.
    { subst s2. unfold upd_pt, pt_ref. cbn [pt set_pt]. rewrite task_idx_small by lia.
      rewrite list_lookup_total_insert_eq; [done|]. change (pt s1) with (pt s). rewrite (ti_len _ _ Hi). lia. }
    rewrite Hpar in He. destruct (t_parent (pt s !!! cur)) as [p|].
    + by rewrite He.
    + destruct He as (p & s' & He & Hs'). rewrite He. cbn [cbind]. eauto.
Qed.

(** ** Killing oneself, and waiting *)

Lemma send_loop_quiet n i cpu cur sig to hits s :
  (∀ j, (i ≤ j < i + n)%nat → (negb (t_id (tasks (sch s) !!! j) =? 0)%nat && to (tasks (sch s) !!! j) (pt s !!! j)) = false) →
  send_loop n i cpu cur sig to hits s = Done (Sent hits, s).
Proof.
  revert i; induction n as [|n IH]; intros i H; cbn [send_loop]; [done|]. rewrite (H i) by lia. apply IH. intros j Hj. apply H. lia.
Qed.

Lemma send_loop_app n m i cpu cur sig to hits s :
  send_loop (n + m) i cpu cur sig to hits s =
  let! (r, s') := send_loop n i cpu cur sig to hits s in
  match r with Sent h => send_loop m (i + n)%nat cpu cur sig to h s' | Gone p => Done (Gone p, s') end.
Proof.
  revert i hits s; induction n as [|n IH]; intros i hits s; cbn [Nat.add send_loop cbind]; [by rewrite Nat.add_0_r|].
  rewrite Nat.add_succ_r. destruct (_ && _); [|apply IH].
  destruct (sig_deliver_to_task cpu cur i sig s) as [[[r|p] s']| |]; cbn [cbind]; [apply IH|done..].
Qed.

(** SIGKILL sent to oneself does not stop the caller.  [kill] marks the
    running task a zombie and returns 0 to it instead of switching away: while
    the task is still on its kernel stack and in its address space, its parent,
    running on another CPU or switched to later, reaps it and gives both back
    to the allocators. *)
Theorem sigkill_self_runs_on s q cpu cur p k fuel ptr flags :
  pinv s q → on_cpu s cur → sig_lock s = false → t_parent (pt s !!! cur) = Some p → p ≠ cur → c_cur k = p →
  ∃ s1, sys_kill cpu cur (Z.of_nat cur) SIGKILL s = Done (Sent 0, s1) ∧ t_state (tasks (sch s1) !!! cur) = TZombie ∧
    ∃ s2, sys_waitpid (S fuel) k (Z.of_nat cur) ptr flags s1 = Done (WRet (Z.of_nat cur), s2) ∧
      freed s2 = freed s ++ returned (pt s !!! cur) ∧ tasks (sch s2) !!! cur = task_empty.
Proof.
  intros Hi Hc Hl Hp Hne Hk. pose proof Hc as (Hb & Hid & Hst).
  set (s0 := set_lock true s). assert (pinv s0 q) as Hi0 by (by apply lock_pinv).
  destruct (kill_spec s0 q cur cur (128 + SIGKILL) Hi0 ltac:(lia) ltac:(cbn; lia)) as (s1 & q1 & Hkill & He).
  assert (sig_deliver_to_task cpu cur cur SIGKILL s = Done (Sent 0, unlock s1)) as Hdel.
  { unfold sig_deliver_to_task, lock. rewrite Hl. cbn [cbind]. fold s0.
    change (tasks (sch s0) !!! cur) with (tasks (sch s) !!! cur). rewrite Hid, (proj2 (Nat.eqb_neq cur 0)) by lia.
    assert (state_eqb (t_state (tasks (sch s) !!! cur)) TEmpty = false) as -> by (apply bool_decide_eq_false; destruct Hst; congruence).
    change (SIGKILL <=? 0) with false. change (Z.of_nat SIGNAL_COUNT <=? SIGKILL) with false. rewrite Z.eqb_refl. cbn [orb].
    by rewrite Hkill. }
  set (to := kill_match cur (Z.of_nat cur)).
  assert (∀ x, (∀ j, t_id (tasks (sch x) !!! j) = t_id (tasks (sch s) !!! j)) → ∀ j, (j < MAX_TASKS)%nat → j ≠ cur →
    (negb (t_id (tasks (sch x) !!! j) =? 0)%nat && to (tasks (sch x) !!! j) (pt x !!! j)) = false) as Hquiet.
  { intros x Hx j Hj Hjc. destruct (Nat.eqb_spec (t_id (tasks (sch x) !!! j)) 0); [done|]. cbn [negb andb].
    assert (t_id (tasks (sch x) !!! j) = j) as E by (rewrite Hx in *; by apply (si_id _ _ (ti_sys _ _ Hi))).
    unfold to, kill_match. rewrite E. destruct (Z.eqb_spec (Z.of_nat cur) (-1)), (Z.eqb_spec (Z.of_nat cur) 0),
      (Z.ltb_spec (Z.of_nat cur) (-1)), (Z.eqb_spec (Z.of_nat j) (Z.of_nat cur)); cbn; try lia; by rewrite andb_false_r. }
  assert (sys_kill cpu cur (Z.of_nat cur) SIGKILL s = Done (Sent 0, unlock s1)) as Hrun.
  { unfold sys_kill. change (SIGKILL =? 0) with false. fold to.
    replace MAX_TASKS with (cur + (1 + (MAX_TASKS - cur - 1)))%nat by lia. rewrite send_loop_app.
    rewrite send_loop_quiet by (intros j Hj; apply Hquiet; [done|lia|lia]). cbn [cbind send_loop Nat.add].
    assert (negb (t_id (tasks (sch s) !!! cur) =? 0)%nat && to (tasks (sch s) !!! cur) (pt s !!! cur) = true) as ->.
    { unfold to, kill_match. rewrite Hid, Z.eqb_refl, (proj2 (Nat.eqb_neq cur 0)), (proj2 (Z.ltb_lt 0 (Z.of_nat cur))) by lia.
      cbn. by rewrite orb_true_r. }
    rewrite Hdel. cbn [cbind Z.eqb]. rewrite send_loop_quiet; [done|]. intros j Hj. apply Hquiet; [|lia|lia].
    intros i. apply (ed_id _ _ _ _ _ He). }
  exists (unlock s1). split_and!; [exact Hrun|apply (ed_self _ _ _ _ _ He)|].
  assert (core (pt s1 !!! cur) = core (with_code (128 + SIGKILL) (pt s0 !!! cur))) as Hcore by (eapply ended_core; [exact Hi0|lia|exact He|exact Hp|done]).
  assert (pinv (unlock s1) q1) as Hi1 by (apply lock_pinv; eapply ended_pinv; [exact Hi0|exact He]).
  destruct (reap_once (unlock s1) q1 cur p k fuel ptr flags) as (s2 & R1 & _ & _ & R4 & R5 & _); try done.
  - etrans; [apply (ed_id _ _ _ _ _ He)|done].
  - apply (ed_self _ _ _ _ _ He).
  - etrans; [apply (core_fields _ _ Hcore)|done].
  - exists s2. split_and!; [done| |done]. rewrite R4. cbn [unlock set_lock freed pt]. rewrite (ed_freed _ _ _ _ _ He). f_equal.
    etrans; [by apply returned_core, Hcore|done].
Qed.

(** [waitpid] can hold the CPU for ever.  When the first child waited for
    has not ended, was created with a TID address, and the word there, in the
    caller's address space, is 0, the loop goes round without blocking or
    yielding, whatever the pid and the options short of WNOHANG: the call
    never returns, and on one CPU the child never runs. *)
Theorem waitpid_livelock s k pid ptr flags i fuel :
  c_cur k ≠ 0%nat → find_zombie (c_cur k) pid s = None → find_child (c_cur k) pid s = Some i → Z.land flags WNOHANG = 0 →
  t_child_tidptr (pt s !!! i) ≠ 0 → space_of s (c_cur k) !! t_child_tidptr (pt s !!! i) = Some 0 →
  sys_waitpid fuel k pid ptr flags s = Spin.
Proof.
  intros Hc Hz Hch Hf Ht Hw. induction fuel as [|fuel IH]; cbn [sys_waitpid]; [done|].
  rewrite (proj2 (Nat.eqb_neq _ _) Hc). unfold waitpid_turn. rewrite Hz, Hch, Hf, (proj2 (Z.eqb_neq _ _) Ht), Hw. exact IH.
Qed.

(** ** Witnesses *)

(** Init waits for any child; task 2, its child, runs; task 3 is a child of 2. *)
Definition ps_0 : procs :=
  mkProcs
    (mkSched (<[1%nat := mkTask 1 TBlocked 0 20 20 None U64_MAX 0 0 false]> (<[2%nat := mkTask 2 TRunning 0 20 20 None 0 0 0 false]>
       (<[3%nat := mkTask 3 TBlocked 0 20 20 None 0x1000 0 0 false]> (replicate MAX_TASKS task_empty)))) (replicate MAX_CPUS rq_new) 15)
    (<[1%nat := mkPtask None 0 1 0 0x8000 0x4000 true 0 sigs_empty]> (<[2%nat := mkPtask (Some 1%nat) 0 2 0 0x9000 0x5000 true 0 sigs_empty]>
       (<[3%nat := mkPtask (Some 2%nat) 0 2 0x2000 0xA000 0x5000 false 0 sigs_empty]> (replicate MAX_TASKS ptask_empty))))
    files0 {[ 0x5000 := {[ 0x2000 := 0 ]} ]} false [].

Definition parent_ok (i : nat) : Prop :=
  match t_parent (pt ps_0 !!! i) with
  | Some p => (0 < p < 64)%nat ∧ (p = 1%nat ∨ t_id (tasks (sch ps_0) !!! p) ≠ 0%nat ∧ t_state (tasks (sch ps_0) !!! p) ≠ TZombie)
  | None => True
  end.

#[local] Instance parent_ok_dec i : Decision (parent_ok i).
Proof. unfold parent_ok. destruct (t_parent _); apply _. Defined.

Lemma ps_0_inv : pinv ps_0 (λ _ _, []).
Proof.
  split; [split|].
  - split; [by apply rq_wf_empty|intros c p a Ha; by apply elem_of_nil in Ha|..]; check_slots.
  - vm_compute. reflexivity.
  - check_slots.
  - assert (∀ i, (i < MAX_TASKS)%nat → parent_ok i) as H by check_slots.
    intros i p Hi _ Hp. specialize (H i Hi). unfold parent_ok in H. rewrite Hp in H. rewrite max_tasks_64. exact H.
Qed.

Lemma ps_0_cpu : on_cpu ps_0 2.
Proof. split; [rewrite max_tasks_64; lia|]. vm_compute. auto. Qed.

Lemma cpu_0 : (0 < MAX_CPUS)%nat.
Proof. vm_compute. lia. Qed.

Lemma orphans_adopted_witness : ∃ p s', exit_task 0 2 3 ps_0 = Done (Gone p, s') ∧
  ∀ i p, (i < MAX_TASKS)%nat → t_id (tasks (sch s') !!! i) ≠ 0%nat → t_parent (pt s' !!! i) = Some p → p = 1%nat ∨ alive s' p.
Proof.
  destruct (exit_spec ps_0 _ 0 2 3 ps_0_inv ps_0_cpu cpu_0) as (s1 & q1 & p & x & q' & _ & _ & He & _); [by left|].
  exists p, (set_sc x s1). split; [exact He|].
  apply (orphans_adopted ps_0 (set_sc x s1) _ ps_0_inv).
  apply rtc_once. eapply step_exit; [exact ps_0_cpu|exact cpu_0|reflexivity|exact He].
Defined.

(** Pid 2 exits; pid 1, which it woke, first kills pid 3 and then waits. *)
Lemma exit_reaped_witness : ∃ pk s1 r s2, exit_task 0 2 3 ps_0 = Done (Gone pk, s1) ∧ sys_tkill 0 1 3 SIGKILL s1 = Done (r, s2) ∧
  ∃ s3, sys_waitpid 1 (mkCtx 0 1 true 0) 2 0x3000 0 s2 = Done (WRet 2, s3) ∧ space_of s3 1 !! 0x3000 = Some 0x300 ∧
    freed s3 = [RStack 0x9000; RSpace 0x5000].
Proof.
  assert ((let! (_, s1) := exit_task 0 2 3 ps_0 in let! (_, s2) := sys_tkill 0 1 3 SIGKILL s1 in
     Done ([t_id (tasks (sch s1) !!! 1%nat); t_id (tasks (sch s2) !!! 1%nat); t_id (tasks (sch s2) !!! 2%nat)],
       [t_state (tasks (sch s1) !!! 1%nat); t_state (tasks (sch s2) !!! 1%nat)],
       [t_exit_code (pt s1 !!! 2%nat); t_exit_code (pt s2 !!! 2%nat)], freed s2)) = Done ([1; 1; 2]%nat, [TRunning; TRunning], [3; 3], [])) as E
    by (vm_compute; reflexivity).
  destruct (exit_reaped ps_0 _ 0 2 3 1 ps_0_inv ps_0_cpu cpu_0) as (pk & s1 & q1 & H1 & H2 & _ & _ & H); [reflexivity|vm_compute; reflexivity|lia|].
  rewrite H1 in E. cbn [cbind] in E. destruct (sys_tkill 0 1 3 SIGKILL s1) as [[r s2]| |] eqn:Hk; [|discriminate E..].
  injection E as E1 E2 E3 E4 E5 E6 E7 E8. exists pk, s1, r, s2. split; [exact H1|]. split; [exact Hk|].
  destruct (H s2 (mkCtx 0 1 true 0) 0%nat 0x3000 0) as (s3 & q3 & R1 & _ & R2 & R3 & _); [|reflexivity|].
  - apply rtc_once, mw_step.
    + eapply step_tkill; [|exact cpu_0|exact Hk]. split; [rewrite max_tasks_64; lia|]. split; [exact E1|left; exact E4].
    + split; [rewrite E2; discriminate|rewrite E5; discriminate].
    + rewrite E3. discriminate.
    + rewrite E7. symmetry. exact E6.
  - exists s3. split; [exact R1|]. split; [apply R2; lia|]. rewrite R3, E8. vm_compute. reflexivity.
Defined.

(** A signal that ends a task is delivered to a zombie too, and the code its
    parent reads is then that of the signal. *)
Example zombie_killed_again : (let! (_, s1) := exit_task 0 2 3 ps_0 in let! (_, s2) := sys_tkill 0 1 2 SIGKILL s1 in
  Done (t_exit_code (pt s1 !!! 2%nat), t_exit_code (pt s2 !!! 2%nat))) = Done (3, 137).
Proof. vm_compute. reflexivity. Qed.

Lemma self_signal_wedges_witness : sys_kill 0 2 2 15 ps_0 = Spin.
Proof.
  destruct (self_signal_wedges ps_0 _ 0 2 15 (mkArea 0 0 0 0 0 0 0 0 0 0 0 0 0 0) 0 ∅ ps_0_inv ps_0_cpu cpu_0) as [H _];
    [reflexivity|unfold SIGNAL_COUNT; lia|vm_compute; reflexivity..|]. exact H.
Defined.

Lemma sigkill_self_runs_on_witness : ∃ s1, sys_kill 0 2 2 SIGKILL ps_0 = Done (Sent 0, s1) ∧
  ∃ s2, sys_waitpid 1 (mkCtx 1 1 true 0) 2 0 0 s1 = Done (WRet 2, s2) ∧ freed s2 = [RStack 0x9000; RSpace 0x5000].
Proof.
  destruct (sigkill_self_runs_on ps_0 _ 0 2 1 (mkCtx 1 1 true 0) 0 0 0 ps_0_inv ps_0_cpu) as (s1 & H1 & _ & s2 & H2 & H3 & _);
    [reflexivity|vm_compute; reflexivity|lia|reflexivity|].
  exists s1. split; [exact H1|]. exists s2. split; [exact H2|]. rewrite H3. vm_compute. reflexivity.
Defined.

Lemma waitpid_livelock_witness : sys_waitpid 1000 (mkCtx 0 2 true 0) (-1) 0 0 ps_0 = Spin.
Proof.
  apply (waitpid_livelock ps_0 (mkCtx 0 2 true 0) (-1) 0 0 3 1000); [discriminate|vm_compute; reflexivity..|vm_compute; discriminate|vm_compute; reflexivity].
Defined.
