(* ===== verification/Elf.v ===== *)
(** * Loading ELF images: [src/elf.rs]

    The headers are read out of the file's bytes with raw pointers: a read past
    the end finds what lies behind the buffer ([beyond]).  Segments, the stack
    and the tables of a new address space are built in the memory of [Paging],
    whose frames hold words; [byte_at] and [put_bytes] are its bytes. *)

From S2P Require Import Prelude Bytes Buddy VfsTypes Vma Paging.
From stdpp Require Import base gmap numbers strings list.
Local Open Scope string_scope.
Local Open Scope Z_scope.

Definition USER_STACK_TOP : Z := 0x00007FFFFFFFF000.
Definition USER_STACK_PAGES : nat := 16.
Definition PT_LOAD : Z := 1.
Definition PT_DYNAMIC : Z := 2.
Definition PT_INTERP : Z := 3.
Definition PF_X : Z := 1.
Definition PF_W : Z := 2.
Definition ELF_MAGIC : list Z := [0x7f; 0x45; 0x4c; 0x46].
Definition PIE_BASE : Z := 0x1000000.

Definition page_align_up (addr : Z) : Z := Z.ldiff (w64 (addr + 4095)) 4095.
Definition page_align_down (addr : Z) : Z := Z.ldiff addr 4095.

(** ** Bytes of a frame *)

Definition byte_at (f : frame) (k : Z) : Z := Z.land (Z.shiftr (getd 0 f (k / 8)) (8 * (k mod 8))) 255.
Definition set_byte (f : frame) (k b : Z) : frame :=
  <[k / 8 := Z.lor (Z.ldiff (getd 0 f (k / 8)) (Z.shiftl 255 (8 * (k mod 8)))) (Z.shiftl b (8 * (k mod 8)))]> f.
Fixpoint put_bytes (f : frame) (k : Z) (bs : list Z) : frame :=
  match bs with [] => f | b :: bs => put_bytes (set_byte f k b) (k + 1) bs end.

(** ** The file *)

Section file.
Context (data : list Z) (beyond : Z → Z).

Definition data_len : Z := Z.of_nat (length data).
Definition byte (i : Z) : Z := if (0 <=? i) && (i <? data_len) then data !!! Z.to_nat i else beyond i.
Definition read_bytes (off n : Z) : list Z := byte <$> seqZ off n.
Definition u16 (off : Z) : Z := le_value (read_bytes off 2).
Definition u32 (off : Z) : Z := le_value (read_bytes off 4).
Definition u64 (off : Z) : Z := le_value (read_bytes off 8).

Record Elf64Header := mkHdr { machine : Z; entry_point : Z; phoff : Z; phentsize : Z; phnum : Z }.
Definition header : Elf64Header := mkHdr (u16 18) (u64 24) (u64 32) (u16 54) (u16 56).

Record Elf64ProgramHeader := mkPhdr { p_type : Z; p_flags : Z; p_offset : Z; p_vaddr : Z; p_filesz : Z; p_memsz : Z }.
Definition phdr_at (base : Z) : Elf64ProgramHeader :=
  mkPhdr (u32 base) (u32 (base + 4)) (u64 (base + 8)) (u64 (base + 16)) (u64 (base + 32)) (u64 (base + 40)).
(** The entries the loops visit. *)
Definition phdrs : list Elf64ProgramHeader :=
  (λ i, phdr_at (phoff header + i * phentsize header)) <$> seqZ 0 (phnum header).

(** What is checked before anything is allocated. *)
Definition check_header : res unit :=
  if data_len <? 64 then Err "ELF too small"
  else if negb (bool_decide (read_bytes 0 4 = ELF_MAGIC)) then Err "bad ELF magic"
  else if negb (byte 4 =? 2) then Err "not 64-bit"
  else if negb (byte 5 =? 1) then Err "not little-endian"
  else if negb (machine header =? 0x3E) then Err "not x86_64"
  else if (phnum header =? 0) || (0x10000 <? phnum header) then Err "PHdr count out of bounds"
  else
    let size := phentsize header * phnum header in
    if (U64_MAX <? size) then Err "PHdr size overflow"
    else if (U64_MAX <? phoff header + size) || (data_len <? phoff header + size) then Err "PHdr out of bounds"
    else Ok tt.

(** ** Interpreter *)

(** The path of the last PT_INTERP entry whose range is taken; the slice
    [data[off..off + sz - 1]] panics when its start is past its end. *)
Fixpoint find_interp (ps : list Elf64ProgramHeader) (found : option (list Z)) : comp (option (list Z)) :=
  match ps with
  | [] => Done found
  | p :: ps =>
      let off := p_offset p in
      let sz := p_filesz p in
      if (p_type p =? PT_INTERP) && ((w64 (off + sz) <=? data_len) && (0 <? sz) && (sz <? 64)) then
        if (w64 (w64 (off + sz) - 1) <? off) || (data_len <? w64 (w64 (off + sz) - 1)) then Panic
        else find_interp ps (Some (read_bytes off (sz - 1)))
      else find_interp ps found
  end.

(** ** Segments *)

(** [alloc.alloc(0)] *)
Definition alloc_raw (s : pmem) : option Z * pmem := let '(r, k) := alloc 0 (km s) in (r, set_km k s).

Definition pt_flags (flags : Z) : Z :=
  let f := Z.lor PTE_PRESENT PTE_USER in
  let f := if negb (Z.land flags PF_W =? 0) then Z.lor f PTE_WRITABLE else f in
  if Z.land flags PF_X =? 0 then Z.lor f PTE_NO_EXECUTE else f.

(** The bytes of the file copied into the page at [addr]: where in the page,
    where in the file, how many. *)
Definition page_chunk (p : Elf64ProgramHeader) (vaddr_base seg_start addr : Z) : Z * Z * Z :=
  let page_off := if addr =? seg_start then vaddr_base - seg_start else 0 in
  let copy_start := addr + page_off in
  let file_end_va := w64 (vaddr_base + p_filesz p) in
  let size := if addr + 4096 <? file_end_va then addr + 4096 - copy_start else Z.max 0 (file_end_va - copy_start) in
  (page_off, w64 (p_offset p + (copy_start - vaddr_base)), size).

(** The copy, when the file has the bytes. *)
Definition fill_page (p : Elf64ProgramHeader) (vaddr_base seg_start addr phys : Z) (s : pmem) : pmem :=
  let '(page_off, file_off, size) := page_chunk p vaddr_base seg_start addr in
  if (0 <? size) && (w64 (file_off + size) <=? data_len)
  then set_page phys (put_bytes (page_of s phys) page_off (read_bytes file_off size)) s
  else s.

Fixpoint map_segment (n : nat) (pml4 : Z) (p : Elf64ProgramHeader) (vaddr_base seg_start addr : Z) (s : pmem) : res unit * pmem :=
  match n with
  | O => (Ok tt, s)
  | S n' =>
      match alloc_raw s with
      | (None, s) => (Err "OOM for segment page", s)
      | (Some phys, s) =>
          match map_into pml4 addr phys (pt_flags (p_flags p)) (zero_frame phys s) with
          | (Err e, s) => (Err e, s)
          | (Ok _, s) => map_segment n' pml4 p vaddr_base seg_start (addr + 4096) (fill_page p vaddr_base seg_start addr phys s)
          end
      end
  end.

(** The pages from [seg_start] up to [seg_end]. *)
Definition load_segment (pml4 load_addr : Z) (p : Elf64ProgramHeader) (s : pmem) : res unit * pmem :=
  let vaddr_base := w64 (p_vaddr p + load_addr) in
  let seg_start := page_align_down vaddr_base in
  let seg_end := page_align_up (w64 (vaddr_base + p_memsz p)) in
  map_segment (Z.to_nat ((seg_end - seg_start) / 4096)) pml4 p vaddr_base seg_start seg_start s.

Fixpoint load_segments (pml4 load_addr : Z) (ps : list Elf64ProgramHeader) (max_end : Z) (s : pmem) : res Z * pmem :=
  match ps with
  | [] => (Ok max_end, s)
  | p :: ps =>
      if negb (p_type p =? PT_LOAD) then load_segments pml4 load_addr ps max_end s
      else
        match load_segment pml4 load_addr p s with
        | (Err e, s) => (Err e, s)
        | (Ok _, s) => load_segments pml4 load_addr ps (Z.max max_end (w64 (p_vaddr p + load_addr + p_memsz p))) s
        end
  end.

(** Where the program headers are in the image. *)
Fixpoint phdr_user (load_addr : Z) (ps : list Elf64ProgramHeader) : Z :=
  match ps with
  | [] => 0
  | p :: ps =>
      if (p_type p =? PT_LOAD) && (p_offset p <=? phoff header) && (phoff header <? w64 (p_offset p + p_filesz p))
      then w64 (load_addr + p_vaddr p + (phoff header - p_offset p))
      else phdr_user load_addr ps
  end.

(** ** A new address space *)

Definition page_type_pte (p : Z) (s : pmem) : pmem := set_km (page_type_set p PAGE_TYPE_PTE (km s)) s.

(** A private copy of a table. *)
Definition clone_table (src : Z) (msg : string) (s : pmem) : res Z * pmem :=
  match alloc_raw s with
  | (None, s) => (Err msg, s)
  | (Some p, s) => (Ok p, copy_frame src p (page_type_pte p s))
  end.

Fixpoint clone_pds (n : nat) (i pdpt : Z) (s : pmem) : res unit * pmem :=
  match n with
  | O => (Ok tt, s)
  | S n' =>
      let e := entry s pdpt i in
      if present e && negb (huge e) then
        match clone_table (addr_of e) "OOM: PD clone" s with
        | (Err m, s) => (Err m, s)
        | (Ok pd, s) => clone_pds n' (i + 1) pdpt (set_entry pdpt i (Z.lor pd (flags_of e)) s)
        end
      else clone_pds n' (i + 1) pdpt s
  end.

Definition user_pdpt (pdpt : Z) (s : pmem) : pmem :=
  for_range 512 0 (λ i s, if present (entry s pdpt i) then set_entry pdpt i (Z.lor (entry s pdpt i) PTE_USER) s else s) s.

(** Address 0 reads as zeros. *)
Definition null_page (pdpt : Z) (s : pmem) : res unit * pmem :=
  let e := entry s pdpt 0 in
  if present e && negb (huge e) then
    let pd0 := addr_of e in
    let pde0 := entry s pd0 0 in
    if present pde0 then
      match alloc_raw s with
      | (None, s) => (Err "OOM: zero page", s)
      | (Some zero, s) =>
          let s := zero_frame zero s in
          let zero_pte := Z.lor zero (Z.lor PTE_PRESENT (Z.lor PTE_USER PTE_NO_EXECUTE)) in
          if huge pde0 then
            match alloc_raw s with
            | (None, s) => (Err "OOM: null PT split", s)
            | (Some pt, s) =>
                let s := page_type_pte pt s in
                let s := set_page pt (<[0 := zero_pte]> (fill (λ i, Z.lor (addr_of pde0 + i * 4096) (Z.lor PTE_PRESENT PTE_WRITABLE)))) s in
                (Ok tt, set_entry pd0 0 (Z.lor pt (Z.lor PTE_PRESENT (Z.lor PTE_WRITABLE (Z.lor PTE_USER (Z.lor PTE_ACCESSED PTE_DIRTY))))) s)
            end
          else (Ok tt, set_entry (addr_of pde0) 0 zero_pte s)
      end
    else (Ok tt, s)
  else (Ok tt, s).

Definition new_pml4 (s : pmem) : res Z * pmem :=
  match clone_table (kernel_pml4 s) "OOM for PML4" s with
  | (Err m, s) => (Err m, s)
  | (Ok p, s) =>
      let e := entry s p 0 in
      if present e then
        match clone_table (addr_of e) "OOM: PDPT clone" s with
        | (Err m, s) => (Err m, s)
        | (Ok pdpt, s) =>
            match clone_pds 512 0 pdpt s with
            | (Err m, s) => (Err m, s)
            | (Ok _, s) =>
                let s := set_entry p 0 (Z.lor (Z.lor pdpt (flags_of e)) PTE_USER) s in
                match null_page pdpt (user_pdpt pdpt s) with
                | (Err m, s) => (Err m, s)
                | (Ok _, s) => (Ok p, s)
                end
            end
        end
      else (Ok p, s)
  end.

(** ** The stack *)

Fixpoint map_stack (n : nat) (pml4 addr : Z) (s : pmem) : res unit * pmem :=
  match n with
  | O => (Ok tt, s)
  | S n' =>
      match alloc_raw s with
      | (None, s) => (Err "OOM for stack", s)
      | (Some phys, s) =>
          match map_into pml4 addr phys (Z.lor PTE_PRESENT (Z.lor PTE_WRITABLE (Z.lor PTE_USER PTE_NO_EXECUTE))) (zero_frame phys s) with
          | (Err e, s) => (Err e, s)
          | (Ok _, s) => map_stack n' pml4 (addr + 4096) s
          end
      end
  end.

(** The page of the last word of the stack. *)
Definition stack_page (pml4 v : Z) (s : pmem) : option Z :=
  let pml4e := entry s pml4 (vpn 39 v) in
  if negb (present pml4e) then None
  else
    let pdpte := entry s (addr_of pml4e) (vpn 30 v) in
    if negb (present pdpte) then None
    else
      let pde := entry s (addr_of pdpte) (vpn 21 v) in
      if negb (present pde) then None
      else
        let pte := entry s (addr_of pde) (vpn 12 v) in
        if negb (present pte) then None else Some (addr_of pte).

Definition make_stack (pml4 : Z) (s : pmem) : res unit * pmem :=
  match map_stack USER_STACK_PAGES pml4 (USER_STACK_TOP - Z.of_nat USER_STACK_PAGES * 4096) s with
  | (Err e, s) => (Err e, s)
  | (Ok _, s) =>
      match stack_page pml4 (USER_STACK_TOP - 8) s with
      | None => (Err "stack PTE not found", s)
      | Some p => (Ok tt, set_entry p 511 0 (set_entry p 510 0 s))
      end
  end.

(** ** [load_elf_at] *)

Record ElfLoadInfo := mkInfo {
  i_entry : Z; i_pml4 : Z; i_stack_top : Z; i_interp : option (list Z); i_phdr_user : Z; i_phnum : Z; i_phentsize : Z; i_brk_base : Z;
}.

(** [band_lo, band_hi): the page-type table, as in [arm_type_protect_for]. *)
Definition load_elf_at (band_lo band_hi load_addr : Z) (existing : option Z) (s : pmem) : comp (res ElfLoadInfo * pmem) :=
  match check_header with
  | Err e => Done (Err e, s)
  | Ok _ =>
      match (match existing with Some p => (Ok p, s) | None => new_pml4 s end) with
      | (Err e, s) => Done (Err e, s)
      | (Ok pml4, s) =>
          let! (_, s) := arm_type_protect_for pml4 band_lo band_hi s in
          let! interp := find_interp phdrs None in
          match load_segments pml4 load_addr phdrs 0 s with
          | (Err e, s) => Done (Err e, s)
          | (Ok max_end, s) =>
              match (match existing with Some _ => (Ok tt, s) | None => make_stack pml4 s end) with
              | (Err e, s) => Done (Err e, s)
              | (Ok _, s) =>
                  Done (Ok (mkInfo (w64 (entry_point header + load_addr)) pml4 (USER_STACK_TOP - 16) interp
                    (phdr_user load_addr phdrs) (phnum header) (phentsize header) (page_align_up max_end)), s)
              end
          end
      end
  end.

(** The type field is read as soon as there are 16 bytes. *)
Definition load_elf (band_lo band_hi : Z) (s : pmem) : comp (res ElfLoadInfo * pmem) :=
  if 16 <=? data_len then
    if data_len <=? 17 then Panic
    else if u16 16 =? 3 then load_elf_at band_lo band_hi PIE_BASE None s
    else load_elf_at band_lo band_hi 0 None s
  else load_elf_at band_lo band_hi 0 None s.

End file.
