(* ===== verification/ElfMap.v ===== *)
(** * Pages of an image

    The bytes of a frame, the pages that share a path through the tables, and
    what mapping the pages of segments and of the stack leaves.  [leafd] is a
    fresh page of data at an address; [grown] is what survives. *)

From S2P Require Import Prelude Bytes Buddy BuddyInv BuddySpec BuddyOps BuddyPages VfsTypes Vma Paging PagingWalk PagingMap Elf.
From Stdlib Require Import Lia ZArith.
From stdpp Require Import base gmap numbers strings list.
Local Open Scope string_scope.
Local Open Scope Z_scope.

(** ** Bytes of frames *)

Lemma byte_shift k : 0 ≤ k → 0 ≤ 8 * (k mod 8) ∧ k = 8 * (k / 8) + k mod 8.
Proof. intros Hk. pose proof (Z.mod_pos_bound k 8 ltac:(lia)). pose proof (Z.div_mod k 8 ltac:(lia)). lia. Qed.

Lemma ones8 i : 0 ≤ i → Z.testbit 255 i = bool_decide (i < 8).
Proof.
  intros Hi. change 255 with (Z.ones 8). destruct (decide (i < 8)).
  - rewrite Z.ones_spec_low by lia. by rewrite bool_decide_true.
  - rewrite Z.ones_spec_high by lia. by rewrite bool_decide_false.
Qed.

Lemma byte_high b i : is_byte b → 8 ≤ i → Z.testbit b i = false.
Proof.
  intros [H1 H2] Hi. destruct (decide (b = 0)) as [->|]; [apply Z.bits_0|]. apply Z.bits_above_log2; [done|].
  assert (Z.log2 b < 8) by (apply Z.log2_lt_pow2; lia). lia.
Qed.

Lemma byte_at_set f k b j : 0 ≤ k → 0 ≤ j → is_byte b → byte_at (set_byte f k b) j = if decide (j = k) then b else byte_at f j.
Proof.
  intros Hk Hj Hb. destruct (byte_shift k Hk) as [Hks Hkd], (byte_shift j Hj) as [Hjs Hjd].
  pose proof (Z.mod_pos_bound k 8 ltac:(lia)). pose proof (Z.mod_pos_bound j 8 ltac:(lia)).
  unfold byte_at, set_byte. rewrite getd_insert. destruct (decide (k / 8 = j / 8)) as [E|E]; [|rewrite decide_False by congruence; done].
  rewrite E. set (w := getd 0 f (j / 8)).
  apply Z.bits_inj'. intros i Hi. rewrite Z.land_spec, Z.shiftr_spec, Z.lor_spec, Z.ldiff_spec, !Z.shiftl_spec by lia.
  rewrite (ones8 i) by done. case_decide as D.
  - subst j. replace (i + 8 * (k mod 8) - 8 * (k mod 8)) with i by lia. rewrite ones8 by done.
    case_bool_decide; cbn; [by rewrite andb_false_r, andb_true_r|]. rewrite andb_false_r. symmetry. apply byte_high; [done|lia].
  - rewrite Z.land_spec, Z.shiftr_spec, (ones8 i) by lia. case_bool_decide as Hi8; [|by rewrite !andb_false_r]. rewrite !andb_true_r.
    destruct (decide (j mod 8 < k mod 8)).
    + rewrite (Z.testbit_neg_r 255), (Z.testbit_neg_r b) by lia. cbn. by rewrite andb_true_r, orb_false_r.
    + rewrite ones8 by lia. rewrite bool_decide_false by lia. rewrite (byte_high b) by (done || lia). cbn. by rewrite andb_true_r, orb_false_r.
Qed.

Lemma byte_at_put bs f k j : 0 ≤ k → 0 ≤ j → Forall is_byte bs →
  byte_at (put_bytes f k bs) j = if decide (k ≤ j < k + Z.of_nat (length bs)) then bs !!! Z.to_nat (j - k) else byte_at f j.
Proof.
  revert f k; induction bs as [|b bs IH]; intros f k Hk Hj Hb; cbn [put_bytes length]; [by rewrite decide_False by lia|].
  apply Forall_cons in Hb as [Hb Hbs]. rewrite IH by (done || lia). rewrite byte_at_set by done.
  destruct (decide (j = k)) as [->|Hne].
  - rewrite decide_False by lia. rewrite decide_True by lia. by rewrite Z.sub_diag.
  - destruct (decide (k + 1 ≤ j < k + 1 + Z.of_nat (length bs))) as [D|D].
    + rewrite decide_True by lia. replace (Z.to_nat (j - k)) with (S (Z.to_nat (j - (k + 1)))) by lia. done.
    + by rewrite decide_False by lia.
Qed.

Lemma byte_at_empty j : byte_at ∅ j = 0.
Proof. unfold byte_at. by rewrite getd_empty, Z.shiftr_0_l. Qed.

(** ** Pages and paths *)

Lemma vpn_div sh v : 0 ≤ v → 12 ≤ sh → vpn sh v = (v / 4096) / 2 ^ (sh - 12) mod 512.
Proof.
  intros Hv Hs. unfold vpn. change 0x1FF with (Z.ones 9). rewrite Z.land_ones by lia. change (2 ^ 9) with 512. f_equal.
  rewrite Z.shiftr_div_pow2 by lia. change 4096 with (2 ^ 12). rewrite Z.div_div by lia. f_equal. rewrite <- Z.pow_add_r by lia. f_equal. lia.
Qed.

Lemma path_page v : 0 ≤ v → path v = [v / 4096 / 2 ^ 27 mod 512; v / 4096 / 2 ^ 18 mod 512; v / 4096 / 2 ^ 9 mod 512; v / 4096 mod 512].
Proof. intros Hv. unfold path. rewrite !vpn_div by lia. by rewrite Z.div_1_r. Qed.

Lemma path_same v v' : 0 ≤ v → 0 ≤ v' → v / 4096 = v' / 4096 → path v = path v'.
Proof. intros H1 H2 E. rewrite !path_page by done. by rewrite E. Qed.

Lemma path_inj v v' : 0 ≤ v < 2 ^ 48 → 0 ≤ v' < 2 ^ 48 → path v = path v' → v / 4096 = v' / 4096.
Proof.
  intros H1 H2. rewrite !path_page by lia. intros [= E1 E2 E3 E4]. set (x := v / 4096) in *. set (y := v' / 4096) in *.
  assert (0 ≤ x < 2 ^ 36 ∧ 0 ≤ y < 2 ^ 36) as [Hx Hy].
  { subst x y. split; (split; [apply Z.div_pos; lia|apply Z.div_lt_upper_bound; lia]). }
  assert (∀ z, 0 ≤ z < 2 ^ 36 → z = 2 ^ 27 * (z / 2 ^ 27 mod 512) + 2 ^ 18 * (z / 2 ^ 18 mod 512) + 2 ^ 9 * (z / 2 ^ 9 mod 512) + z mod 512) as Hd.
  { intros z Hz. pose proof (Z.div_mod z 512 ltac:(lia)). pose proof (Z.div_mod (z / 512) 512 ltac:(lia)).
    pose proof (Z.div_mod (z / 512 / 512) 512 ltac:(lia)). change (2 ^ 27) with (512 * 512 * 512). change (2 ^ 18) with (512 * 512). change (2 ^ 9) with 512.
    rewrite <- !Z.div_div by lia. rewrite (Z.mod_small (z / 512 / 512 / 512)); [lia|].
    split; [repeat apply Z.div_pos; lia|]. repeat apply Z.div_lt_upper_bound; lia. }
  rewrite (Hd x Hx), (Hd y Hy). congruence.
Qed.

(** [v] is on one of the [n] pages from [addr]. *)
Definition in_pages (addr : Z) (n : nat) (v : Z) : Prop := ∃ i, 0 ≤ i < Z.of_nat n ∧ path v = path (addr + 4096 * i).

Lemma page_div a i : (a + 4096 * i) / 4096 = a / 4096 + i.
Proof. rewrite (Z.mul_comm 4096 i). apply Z.div_add. lia. Qed.

Lemma elf_pages_range a n v : 0 ≤ a → a mod 4096 = 0 → a + 4096 * Z.of_nat n ≤ 2 ^ 48 → 0 ≤ v < 2 ^ 48 →
  in_pages a n v ↔ a ≤ v < a + 4096 * Z.of_nat n.
Proof.
  intros H0 Ha Hn Hv. pose proof (Z.div_mod a 4096 ltac:(lia)). pose proof (Z.div_mod v 4096 ltac:(lia)). pose proof (Z.mod_pos_bound v 4096 ltac:(lia)).
  split.
  - intros (i & Hi & E). apply path_inj in E; [|lia|lia]. rewrite page_div in E. lia.
  - intros Hr. exists (v / 4096 - a / 4096). split; [lia|]. apply path_same; [lia|lia|]. rewrite page_div. lia.
Qed.

Lemma pages_inj a n i j : 0 ≤ a → a + 4096 * Z.of_nat n ≤ 2 ^ 48 → 0 ≤ i < Z.of_nat n → 0 ≤ j < Z.of_nat n →
  path (a + 4096 * i) = path (a + 4096 * j) → i = j.
Proof. intros H0 Hn Hi Hj E. apply path_inj in E; [|lia|lia]. rewrite !page_div in E. lia. Qed.

Lemma mapped_path s root v v' w : path v = path v' → mapped s root v w → mapped s root v' w.
Proof. unfold path, mapped. by intros [= -> -> -> ->]. Qed.

(** ** What loading keeps *)

(** A step that takes pages, fills them and maps them: the tables stay a tree,
    pages that are held and are no tables keep their contents, and none of
    them becomes a table. *)
Record grown (own : list Z) (s : pmem) (root : Z) (own' : list Z) (s' : pmem) : Prop := {
  gr_mem : mem_ok own' s';
  gr_space : space own' s' root;
  gr_region : same_region (km s) (km s');
  gr_own : own ⊆ own';
  gr_frame : ∀ t, t ∈ own ∨ outside (km s) t → ¬ reach s root t → page_of s' t = page_of s t;
  gr_reach : ∀ t, t ∈ own ∨ outside (km s) t → ¬ reach s root t → ¬ reach s' root t;
}.

Lemma grown_trans own s root own1 s1 own2 s2 : grown own s root own1 s1 → grown own1 s1 root own2 s2 → grown own s root own2 s2.
Proof.
  intros [A1 A2 A3 A4 A5 A6] [B1 B2 B3 B4 B5 B6].
  assert (∀ t, t ∈ own ∨ outside (km s) t → t ∈ own1 ∨ outside (km s1) t) as Hin.
  { intros t [H|H]; [left; by apply A4|right; by apply (outside_region (km s))]. }
  split; [done|done|destruct A3, B3; split; congruence|by etrans|..].
  - intros t Ht Hr. rewrite <- (A5 t Ht Hr). apply B5; [by apply Hin|by apply A6].
  - intros t Ht Hr. apply B6; [by apply Hin|by apply A6].
Qed.

Lemma grown_refl own s root : mem_ok own s → space own s root → grown own s root own s.
Proof. intros. by split. Qed.

(** A page of data mapped at [v], none of the pages [old]. *)
Definition leafd (old own : list Z) (s : pmem) (root v fl : Z) (f : frame) : Prop :=
  ∃ phys, phys ∉ old ∧ phys ∈ own ∧ ¬ reach s root phys ∧ page_addr phys ∧ mapped s root v (Z.lor phys (Z.lor fl PTE_PRESENT)) ∧ page_of s phys = f.

Lemma leafd_old old old' own s root v fl f : old ⊆ old' → leafd old' own s root v fl f → leafd old own s root v fl f.
Proof. intros Hs (p & H0 & H). exists p. split; [set_solver|done]. Qed.

(** A step that changes no frame and takes no page. *)
Lemma grown_km own s root k : mem_ok own (set_km k s) → same_region (km s) k → space own s root → grown own s root own (set_km k s).
Proof. intros Hm Hr Hsp. split; [done|by apply space_km|done|done|done|]. intros t _ Hn Hx. apply Hn. by apply (reach_frames s (set_km k s)). Qed.

Lemma holds_alloc_raw k l r k' : holds k l → alloc 0 k = (r, k') → holds k' (match r with Some p => p :: l | None => l end).
Proof.
  intros (ls & others & Hinv) Hal. destruct (alloc_ainv 0 k ls _ r k' Hinv Hal) as (ls' & Hinv' & _).
  exists ls', others. by destruct r.
Qed.

Lemma alloc_raw_region k l r k' : holds k l → alloc 0 k = (r, k') → same_region k k'.
Proof.
  intros (ls & others & Hinv) Hal. destruct (alloc_spec 0 k ls r k' (ai_wf _ _ _ Hinv) Hal) as (ls' & _ & Hrest & _).
  unfold rest in Hrest. by injection Hrest as Hb Hp _ _ _ _ _ _ _ _ _.
Qed.

Lemma space_more own own' s root : own ⊆ own' → space own s root → space own' s root.
Proof. intros Hs [H1 H2 H3]. split; [done| |done]. intros t Ht. destruct (H2 t Ht); [left; by apply Hs|by right]. Qed.

(** Writing a page that is no table. *)
Lemma set_page_walks s root p f : ¬ reach s root p → ∀ q, (length q ≤ 4)%nat →
  descend (set_page p f s) root q = descend s root q ∧ walk (set_page p f s) root q = walk s root q.
Proof.
  intros Hn q Hq. destruct (walk_ext s (set_page p f s) root q) as (H1 & H2 & _); [|done].
  intros [t i] Hin. destruct (reads_descend _ _ _ _ _ Hin) as (q1 & r & -> & Hd). rewrite length_app in Hq. cbn in Hq.
  cbn [fst snd]. rewrite entry_set_page, decide_False; [done|]. intros ->. apply Hn. exists q1. split; [lia|done].
Qed.

Lemma set_page_reach s root p f t : ¬ reach s root p → reach (set_page p f s) root t ↔ reach s root t.
Proof. intros Hn. unfold reach. split; intros (q & Hq & Hd); exists q; (split; [done|]); rewrite <- Hd; [symmetry|]; apply set_page_walks; (done || lia). Qed.

Lemma set_page_mapped s root p f v w : ¬ reach s root p → mapped s root v w → mapped (set_page p f s) root v w.
Proof.
  intros Hn (pt & Hd & He). exists pt. split; [rewrite <- Hd; apply set_page_walks; [done|cbn; lia]|].
  rewrite entry_set_page, decide_False; [done|]. intros ->. apply Hn. eexists. split; [|exact Hd]. cbn. lia.
Qed.

Lemma set_page_space own s root p f : ¬ reach s root p → space own s root → space own (set_page p f s) root.
Proof.
  intros Hn [[H1 H1'] H2 H3].
  assert (root ≠ p) as Hrp by (intros ->; apply Hn; exists []; split; [cbn; lia|done]).
  split; [split|..].
  - intros q1 q2 t L1 L2 D1 D2. destruct (set_page_walks s root p f Hn q1 ltac:(lia)) as [E1 _], (set_page_walks s root p f Hn q2 ltac:(lia)) as [E2 _].
    rewrite E1 in D1. rewrite E2 in D2. by eapply H1.
  - intros i. rewrite entry_set_page, decide_False by congruence. done.
  - intros t Ht. apply H2. by apply (set_page_reach s root p f t Hn).
  - intros q t i Hd Hh. destruct (decide (length q ≤ 2)%nat) as [Hl|Hl]; [|split; intros; lia].
    destruct (set_page_walks s root p f Hn q ltac:(lia)) as [E _]. rewrite E in Hd.
    rewrite entry_set_page in *. destruct (decide (p = t)) as [->|]; [|by eapply H3].
    exfalso. apply Hn. exists q. split; [lia|done].
Qed.

Lemma xlate_mapped s root v w : mapped s root v w → present w = true → xlate s root v = Some (Z.lor (addr_of w) (Z.land v 0xFFF)).
Proof. intros Hm Hw. by destruct (mapped_seen s root v w Hm Hw). Qed.

(** ** One page *)

(** A change of the contents of a page that is no table, or none. *)
Record filled (s : pmem) (root phys : Z) (f : frame) (s' : pmem) : Prop := {
  fi_km : km s' = km s;
  fi_space : ∀ own, space own s root → space own s' root;
  fi_reach : ∀ t, reach s' root t ↔ reach s root t;
  fi_mapped : ∀ v w, mapped s root v w → mapped s' root v w;
  fi_page : ∀ t, page_of s' t = if decide (t = phys) then f else page_of s t;
  fi_xlate : ∀ v, xlate s' root v = xlate s root v;
}.

Lemma filled_set s root phys f : ¬ reach s root phys → filled s root phys f (set_page phys f s).
Proof.
  intros Hn. split; [done|by intros; apply set_page_space|by intros; apply set_page_reach|by intros; apply set_page_mapped|..].
  - intros t. rewrite page_of_set. by repeat case_decide; subst.
  - intros v. unfold xlate. by destruct (set_page_walks s root phys f Hn (path v) ltac:(cbn; lia)) as [_ ->].
Qed.

Lemma filled_none s root phys : page_of s phys = ∅ → filled s root phys ∅ s.
Proof. intros H. split; try done. intros t. by case_decide; subst. Qed.

(** Take a page, map it at [v] if the tables can be had, and put [f] into it. *)
Lemma page_try own s root v fl (f : frame) phys s1 r s2 s' :
  mem_ok own s → space own s root →
  alloc_raw s = (Some phys, s1) → map_into root v phys fl (zero_frame phys s1) = (r, s2) →
  (page_of s2 phys = ∅ → ¬ reach s2 root phys → filled s2 root phys f s') →
  ∃ own', grown own s root own' s' ∧
    (∀ old v' fl' f', path v' ≠ path v → leafd old own s root v' fl' f' → leafd old own' s' root v' fl' f') ∧
    (∀ v', path v' ≠ path v → xlate s' root v' = xlate s root v') ∧
    match r with Ok _ => leafd own own' s' root v fl f | Err _ => ∀ v', xlate s' root v' = xlate s root v' end.
Proof.
  intros [Hh Hlow] Hsp Hal Hmap Hfill. unfold alloc_raw in Hal. destruct (alloc 0 (km s)) as [ra k] eqn:Ha. injection Hal as -> <-.
  pose proof (alloc_raw_region _ _ _ _ Hh Ha) as Hreg. pose proof (holds_alloc_raw _ _ _ _ Hh Ha) as Hh'. cbn in Hh'.
  destruct (alloc_fresh (km s) own phys k Hh Ha) as [Hno Hnout].
  assert (low_mem k) as Hlow' by (by apply (low_region (km s))).
  destruct (holds_managed k (phys :: own) phys Hh' ltac:(apply list_elem_of_here)) as [_ Hpa]. specialize (Hpa Hlow').
  set (s0 := zero_frame phys (set_km k s)) in *.
  assert (¬ reach (set_km k s) root phys) as Hnr0.
  { rewrite (reach_frames s) by done. intros Hr. destruct (sp_own _ _ _ Hsp phys Hr); done. }
  destruct (filled_set (set_km k s) root phys ∅ Hnr0) as [_ Z2 Z3 Z4 Z5 Z6]. change (set_page phys ∅ (set_km k s)) with s0 in *.
  assert (space (phys :: own) s0 root) as Hsp0 by (apply Z2, (space_more own); [set_solver|by apply space_km]).
  assert (∀ t, reach s0 root t ↔ reach s root t) as Hr0 by (intros t; rewrite Z3; by apply reach_frames).
  assert (¬ reach s0 root phys) as Hnr1 by (by rewrite Z3).
  pose proof (map_into_spec (phys :: own) s0 root v phys fl (conj Hh' Hlow') Hsp0) as H. rewrite Hmap in H.
  destruct H as (own2 & M1 & M2 & M3 & M4 & _ & M6 & M7 & M8 & M9).
  assert (∀ t, t ∈ phys :: own ∨ outside (km s0) t → ¬ reach s0 root t → ¬ reach s2 root t) as Hreach.
  { intros t Ht Hr Hr2. destruct (M7 t Hr2) as [?|[H1 H2]]; [done|]. by destruct Ht. }
  assert (page_of s2 phys = ∅) as Hpz by (rewrite M6; [by rewrite Z5, decide_True|left; apply list_elem_of_here|done]).
  assert (¬ reach s2 root phys) as Hnr2 by (apply Hreach; [left; apply list_elem_of_here|done]).
  destruct (Hfill Hpz Hnr2) as [F1 F2 F3 F4 F5 F6].
  assert (∀ t, outside (km s0) t ↔ outside (km s) t) as Hout by (intros t; by apply (outside_region (km s))).
  assert (∀ t, t ∈ own ∨ outside (km s) t → t ≠ phys ∧ (t ∈ phys :: own ∨ outside (km s0) t)) as Hin.
  { intros t Ht. split; [by intros ->; destruct Ht|]. rewrite Hout. destruct Ht; [left; by apply list_elem_of_further|by right]. }
  assert (∀ t, t ∈ own ∨ outside (km s) t → ¬ reach s root t → page_of s' t = page_of s t ∧ ¬ reach s' root t) as Hkeep.
  { intros t Ht Hr. destruct (Hin t Ht) as [Hne Ht']. rewrite <- Hr0 in Hr. rewrite F3, F5, decide_False, M6, Z5, decide_False by done.
    split; [done|by apply Hreach]. }
  assert (∀ v', xlate s0 root v' = xlate s root v') as Hx0.
  { intros v'. rewrite Z6. unfold xlate. by rewrite (proj2 (frames_walk s (set_km k s) root (path v') eq_refl)). }
  exists own2. split_and!.
  - split; [unfold mem_ok; rewrite F1; exact M1|by apply F2| | |intros; by apply Hkeep|intros; by apply Hkeep].
    + rewrite F1. destruct Hreg as [R1 R2], M3 as [T1 T2]. split; [exact (eq_trans T1 R1)|exact (eq_trans T2 R2)].
    + intros t Ht. apply M4. by apply list_elem_of_further.
  - intros old v' fl' f' Hne (p & P0 & P1 & P2 & P3 & P4 & P5). destruct (Hkeep p (or_introl P1) P2) as [Hp1 Hp2].
    exists p. split_and!; [done|apply M4; by apply list_elem_of_further|done|done| |by rewrite Hp1].
    apply F4, M8; [done|]. apply Z4. destruct P4 as (pt & D & E). exists pt. split; [|exact E]. rewrite <- D. by apply frames_walk.
  - intros v' Hne. rewrite F6, <- Hx0. destruct r; [by apply (proj2 M9)|by apply M9].
  - destruct r as [[]|e]; [destruct M9 as [M9 _]|intros v'; rewrite F6, <- Hx0; by apply M9].
    exists phys. split_and!; [done|apply M4, list_elem_of_here|by rewrite F3|done|by apply F4|].
    by rewrite F5, decide_True.
Qed.

Lemma page_step own s root v fl (f : frame) phys s1 s2 s' :
  mem_ok own s → space own s root →
  alloc_raw s = (Some phys, s1) → map_into root v phys fl (zero_frame phys s1) = (Ok tt, s2) →
  (page_of s2 phys = ∅ → ¬ reach s2 root phys → filled s2 root phys f s') →
  ∃ own', grown own s root own' s' ∧ leafd own own' s' root v fl f ∧
    (∀ old v' fl' f', path v' ≠ path v → leafd old own s root v' fl' f' → leafd old own' s' root v' fl' f') ∧
    (∀ v', path v' ≠ path v → xlate s' root v' = xlate s root v').
Proof.
  intros Hm Hsp Ha Hmap Hf. destruct (page_try own s root v fl f phys s1 (Ok tt) s2 s' Hm Hsp Ha Hmap Hf) as (o & G & K & X & L).
  by exists o.
Qed.

(** ** The pages of a segment *)

Section image.
Context (data : list Z) (beyond : Z → Z).
Local Notation "'dlen'" := (data_len data).

(** What the page at [addr] is given. *)
Definition image_page (p : Elf64ProgramHeader) (vb ss addr : Z) : frame :=
  let '(page_off, file_off, size) := page_chunk p vb ss addr in
  if (0 <? size) && (w64 (file_off + size) <=? dlen) then put_bytes ∅ page_off (read_bytes data beyond file_off size) else ∅.

Lemma fill_page_filled p vb ss addr phys s root : page_of s phys = ∅ → ¬ reach s root phys →
  filled s root phys (image_page p vb ss addr) (fill_page data beyond p vb ss addr phys s).
Proof.
  intros Hz Hn. unfold image_page, fill_page. destruct (page_chunk p vb ss addr) as [[po fo] sz].
  destruct ((0 <? sz) && (w64 (fo + sz) <=? dlen)); [rewrite Hz; by apply filled_set|by apply filled_none].
Qed.

Lemma map_segment_pages n own s root p vb ss addr s' :
  (∀ i j, 0 ≤ i < Z.of_nat n → 0 ≤ j < Z.of_nat n → path (addr + 4096 * i) = path (addr + 4096 * j) → i = j) →
  mem_ok own s → space own s root → map_segment data beyond n root p vb ss addr s = (Ok tt, s') →
  ∃ own', grown own s root own' s' ∧
    (∀ i, 0 ≤ i < Z.of_nat n → leafd own own' s' root (addr + 4096 * i) (pt_flags (p_flags p)) (image_page p vb ss (addr + 4096 * i))) ∧
    (∀ old v fl f, ¬ in_pages addr n v → leafd old own s root v fl f → leafd old own' s' root v fl f) ∧
    (∀ v, ¬ in_pages addr n v → xlate s' root v = xlate s root v).
Proof.
  revert own s addr; induction n as [|n IH]; intros own s addr Hinj Hm Hsp; cbn [map_segment].
  { intros [= <-]. exists own. split_and!; [by apply grown_refl|intros; lia|done|done]. }
  destruct (alloc_raw s) as [[phys|] s1] eqn:Hal; [|done].
  destruct (map_into root addr phys (pt_flags (p_flags p)) (zero_frame phys s1)) as [[[]|e] s2] eqn:Hmap; [|done].
  set (s3 := fill_page data beyond p vb ss addr phys s2). intros Hrun.
  destruct (page_step own s root addr (pt_flags (p_flags p)) (image_page p vb ss addr) phys s1 s2 s3 Hm Hsp Hal Hmap)
    as (o1 & G1 & L1 & K1 & X1); [intros; by apply fill_page_filled|].
  destruct (IH o1 s3 (addr + 4096)) as (o2 & G2 & L2 & K2 & X2); [|apply G1|apply G1|exact Hrun|].
  { intros i j Hi Hj E. enough (i + 1 = j + 1) by lia. apply Hinj; [lia|lia|].
    replace (addr + 4096 * (i + 1)) with (addr + 4096 + 4096 * i) by lia. by replace (addr + 4096 * (j + 1)) with (addr + 4096 + 4096 * j) by lia. }
  assert (∀ v, ¬ in_pages addr (S n) v → path v ≠ path addr ∧ ¬ in_pages (addr + 4096) n v) as Hout.
  { intros v Hv. split.
    - intros E. apply Hv. exists 0. split; [lia|]. by rewrite Z.mul_0_r, Z.add_0_r.
    - intros (i & Hi & E). apply Hv. exists (i + 1). split; [lia|]. by replace (addr + 4096 * (i + 1)) with (addr + 4096 + 4096 * i) by lia. }
  exists o2. split_and!.
  - by eapply grown_trans.
  - intros i Hi. destruct (decide (i = 0)) as [->|].
    + rewrite Z.mul_0_r, Z.add_0_r. apply K2; [|done]. intros (j & Hj & E). enough (0 = j + 1) by lia. apply Hinj; [lia|lia|].
      rewrite Z.mul_0_r, Z.add_0_r, E. f_equal. lia.
    + specialize (L2 (i - 1) ltac:(lia)). replace (addr + 4096 + 4096 * (i - 1)) with (addr + 4096 * i) in L2 by lia.
      eapply leafd_old; [|exact L2]. apply G1.
  - intros old v fl f Hv Hl. destruct (Hout v Hv). apply K2; [done|]. by apply K1.
  - intros v Hv. destruct (Hout v Hv). rewrite X2 by done. by apply X1.
Qed.

(** ** What a program sees of its image *)

(** The pages of a segment. *)
Definition seg_va (load_addr : Z) (p : Elf64ProgramHeader) : Z := p_vaddr p + load_addr.
Definition seg_start (load_addr : Z) (p : Elf64ProgramHeader) : Z := page_align_down (seg_va load_addr p).
Definition seg_end (load_addr : Z) (p : Elf64ProgramHeader) : Z := page_align_up (seg_va load_addr p + p_memsz p).
Definition in_seg (load_addr : Z) (p : Elf64ProgramHeader) (v : Z) : Prop := seg_start load_addr p ≤ v < seg_end load_addr p.

(** A segment whose bytes are in the file and whose pages are below 2^47. *)
Record seg_ok (load_addr : Z) (p : Elf64ProgramHeader) : Prop := {
  so_va : 0 ≤ seg_va load_addr p;
  so_end : seg_va load_addr p + p_memsz p ≤ 2 ^ 47 - 4096;
  so_size : 0 ≤ p_filesz p ≤ p_memsz p;
  so_file : 0 ≤ p_offset p ∧ p_offset p + p_filesz p ≤ dlen;
}.

(** The byte at [v]: of the file, and zero around. *)
Definition seg_byte (load_addr : Z) (p : Elf64ProgramHeader) (v : Z) : Z :=
  let vb := seg_va load_addr p in
  if (vb <=? v) && (v <? vb + p_filesz p) then data !!! Z.to_nat (p_offset p + (v - vb)) else 0.

(** At [v] there is a page mapped with the flags [fl], with the byte [b]. *)
Definition reads_as (s : pmem) (root v fl b : Z) : Prop :=
  ∃ phys, page_addr phys ∧ mapped s root v (Z.lor phys (Z.lor fl PTE_PRESENT)) ∧ byte_at (page_of s phys) (v mod 4096) = b.

Lemma align_down a : 0 ≤ a → page_align_down a = 4096 * (a / 4096).
Proof.
  intros Ha. unfold page_align_down. change 4095 with (Z.ones 12). rewrite Z.ldiff_ones_r, Z.shiftl_mul_pow2, Z.shiftr_div_pow2 by lia.
  change (2 ^ 12) with 4096. lia.
Qed.

Lemma align_up a : 0 ≤ a < 2 ^ 64 - 4095 → page_align_up a = 4096 * ((a + 4095) / 4096).
Proof. intros Ha. unfold page_align_up. rewrite w64_small by lia. by apply (align_down (a + 4095)); lia. Qed.

Lemma read_bytes_data off n i : 0 ≤ off → off + n ≤ dlen → 0 ≤ i < n → read_bytes data beyond off n !!! Z.to_nat i = data !!! Z.to_nat (off + i).
Proof.
  intros Ho Hn Hi. unfold read_bytes. rewrite list_lookup_total_alt, list_lookup_fmap, lookup_seqZ_lt by lia; cbn [fmap option_fmap option_map default]. 
  rewrite Z2Nat.id by lia. unfold byte. by rewrite (proj2 (Z.leb_le 0 (off + i))), (proj2 (Z.ltb_lt (off + i) dlen)) by lia.
Qed.

Lemma read_bytes_length off n : 0 ≤ n → Z.of_nat (length (read_bytes data beyond off n)) = n.
Proof. intros Hn. unfold read_bytes. rewrite length_fmap, length_seqZ. lia. Qed.

Lemma read_bytes_byte off n : Forall is_byte data → 0 ≤ off → off + n ≤ dlen → Forall is_byte (read_bytes data beyond off n).
Proof.
  intros Hd Ho Hn. apply Forall_fmap, Forall_forall. intros x Hx%elem_of_seqZ. cbn. unfold byte.
  rewrite (proj2 (Z.leb_le 0 x)), (proj2 (Z.ltb_lt x dlen)) by lia. cbn.
  unfold data_len in *. eapply Forall_lookup_1; [done|]. apply list_lookup_lookup_total_lt. lia.
Qed.

(** A page of a segment has the segment's bytes. *)
Lemma image_page_bytes load p i k : Forall is_byte data → dlen < 2 ^ 63 → seg_ok load p → 0 ≤ i → 0 ≤ k < 4096 →
  let a := seg_start load p + 4096 * i in a + 4096 ≤ 2 ^ 47 →
  byte_at (image_page p (seg_va load p) (seg_start load p) a) k = seg_byte load p (a + k).
Proof.
  intros Hd Hlen [S1 S2 S3 S4] Hi Hk a Ha. unfold image_page, page_chunk, seg_byte.
  set (vb := seg_va load p) in *. assert (seg_start load p = 4096 * (vb / 4096)) as Hss by (by apply align_down).
  pose proof (Z.div_mod vb 4096 ltac:(lia)). pose proof (Z.mod_pos_bound vb 4096 ltac:(lia)).
  set (ss := seg_start load p) in *. rewrite (w64_small (vb + p_filesz p)) by lia.
  set (po := if a =? ss then vb - ss else 0).
  assert (0 ≤ po < 4096 ∧ vb ≤ a + po ∧ (po = 0 ∨ a + po = vb)) as (Hpo & Hcs & Hpo').
  { subst po a. destruct (Z.eqb_spec (ss + 4096 * i) ss); lia. }
  clearbody po. set (fe := vb + p_filesz p) in *.
  set (sz := if a + 4096 <? fe then a + 4096 - (a + po) else Z.max 0 (fe - (a + po))).
  assert ((sz = 0 ∧ fe ≤ a + po) ∨ (0 < sz ∧ a + po + sz = Z.min (a + 4096) fe)) as Hsz.
  { subst sz. destruct (Z.ltb_spec (a + 4096) fe); lia. }
  clearbody sz. destruct Hsz as [[-> Hfe]|[Hsz Hend]].
  - cbn [Z.ltb Z.compare andb]. rewrite byte_at_empty. destruct (Z.leb_spec vb (a + k)); [|done]. by rewrite (proj2 (Z.ltb_ge (a + k) fe)) by lia.
  - rewrite (w64_small (p_offset p + _)) by lia. rewrite w64_small by lia.
    rewrite (proj2 (Z.ltb_lt 0 sz)) by lia. rewrite (proj2 (Z.leb_le (p_offset p + (a + po - vb) + sz) dlen)) by lia. cbn [andb].
    rewrite byte_at_put by (apply read_bytes_byte || lia; done || lia). rewrite read_bytes_length by lia.
    destruct (Z.leb_spec vb (a + k)), (Z.ltb_spec (a + k) fe); cbn [andb]; [rewrite decide_True by lia|rewrite decide_False by lia..].
    + rewrite read_bytes_data by lia. do 2 f_equal. lia.
    + apply byte_at_empty.
    + apply byte_at_empty.
    + apply byte_at_empty.
Qed.

Definition loads (ps : list Elf64ProgramHeader) : list Elf64ProgramHeader := filter (λ p, p_type p = PT_LOAD) ps.
Definition apart (load_addr : Z) (p q : Elf64ProgramHeader) : Prop :=
  seg_end load_addr p ≤ seg_start load_addr q ∨ seg_end load_addr q ≤ seg_start load_addr p.
(** The end of the image, from [m] on. *)
Definition image_end (load_addr m : Z) (ps : list Elf64ProgramHeader) : Z :=
  foldl (λ m p, Z.max m (seg_va load_addr p + p_memsz p)) m (loads ps).

Lemma seg_range load p : seg_ok load p →
  let a := seg_start load p in let n := (seg_end load p - a) / 4096 in
  0 ≤ a ∧ a mod 4096 = 0 ∧ 0 ≤ n ∧ seg_end load p = a + 4096 * n ∧ a + 4096 * n ≤ 2 ^ 47.
Proof.
  intros [S1 S2 S3 S4]. unfold seg_start, seg_end. rewrite align_down, align_up by lia.
  set (x := seg_va load p) in *. set (e := x + p_memsz p) in *.
  pose proof (Z.div_mod x 4096 ltac:(lia)). pose proof (Z.mod_pos_bound x 4096 ltac:(lia)).
  pose proof (Z.div_mod (e + 4095) 4096 ltac:(lia)). pose proof (Z.mod_pos_bound (e + 4095) 4096 ltac:(lia)).
  set (y := x / 4096) in *. set (z := (e + 4095) / 4096) in *. cbv zeta.
  replace (4096 * z - 4096 * y) with ((z - y) * 4096) by lia. rewrite Z.div_mul by lia.
  replace (4096 * y) with (y * 4096) at 2 by lia. rewrite Z.mod_mul by lia. lia.
Qed.

Lemma in_pages_seg load p v : seg_ok load p → 0 ≤ v < 2 ^ 48 →
  in_pages (seg_start load p) (Z.to_nat ((seg_end load p - seg_start load p) / 4096)) v ↔ in_seg load p v.
Proof.
  intros Hp Hv. destruct (seg_range load p Hp) as (A1 & A2 & A3 & A4 & A5). unfold in_seg.
  set (n := (seg_end load p - seg_start load p) / 4096) in *. clearbody n. rewrite A4, elf_pages_range by (rewrite ?Z2Nat.id; lia). by rewrite Z2Nat.id by lia.
Qed.

Lemma leafd_path old own s root v v' fl f : path v = path v' → leafd old own s root v fl f → leafd old own s root v' fl f.
Proof. intros E (ph & H0 & H1 & H2 & H3 & H4 & H5). exists ph. split_and!; try done. by eapply mapped_path. Qed.

(** One segment. *)
Lemma load_segment_pages own s root load p s' :
  mem_ok own s → space own s root → seg_ok load p → load_segment data beyond root load p s = (Ok tt, s') →
  ∃ own', grown own s root own' s' ∧
    (∀ v, in_seg load p v → leafd own own' s' root v (pt_flags (p_flags p)) (image_page p (seg_va load p) (seg_start load p) (4096 * (v / 4096)))) ∧
    (∀ old v fl f, 0 ≤ v < 2 ^ 48 → ¬ in_seg load p v → leafd old own s root v fl f → leafd old own' s' root v fl f) ∧
    (∀ v, 0 ≤ v < 2 ^ 48 → ¬ in_seg load p v → xlate s' root v = xlate s root v).
Proof.
  intros Hm Hsp Hp. pose proof (seg_range load p Hp) as (A1 & A2 & A3 & A4 & A5). unfold load_segment. destruct Hp as [S1 S2 S3 S4] eqn:Ep; clear Ep.
  change (p_vaddr p + load) with (seg_va load p). rewrite (w64_small (seg_va load p)), (w64_small (seg_va load p + p_memsz p)) by lia.
  change (page_align_down (seg_va load p)) with (seg_start load p). change (page_align_up (seg_va load p + p_memsz p)) with (seg_end load p).
  intros Hrun. set (a := seg_start load p) in *. set (n := (seg_end load p - a) / 4096) in *.
  pose proof (Z.div_mod a 4096 ltac:(lia)).
  destruct (map_segment_pages (Z.to_nat n) own s root p (seg_va load p) a a s') as (o & G & L & K & X); [|done|done|done|].
  { intros i j. apply pages_inj; lia. }
  exists o. split; [done|]. split_and!.
  - intros v Hv. pose proof Hv as Hr. unfold in_seg in Hr. fold a in Hr.
    pose proof (Z.div_mod v 4096 ltac:(lia)). pose proof (Z.mod_pos_bound v 4096 ltac:(lia)).
    specialize (L (v / 4096 - a / 4096) ltac:(lia)). replace (a + 4096 * (v / 4096 - a / 4096)) with (4096 * (v / 4096)) in L by lia.
    eapply leafd_path; [|exact L]. apply path_same; [lia|lia|]. rewrite Z.mul_comm, Z.div_mul by lia. done.
  - intros old v fl f Hv Hn. apply K. intros Hi. apply Hn. by apply in_pages_seg.
  - intros v Hv Hn. apply X. intros Hi. apply Hn. by apply in_pages_seg.
Qed.

Lemma load_segments_pages ps own s root load m m' s' :
  mem_ok own s → space own s root → Forall (seg_ok load) (loads ps) → ForallOrdPairs (apart load) (loads ps) →
  load_segments data beyond root load ps m s = (Ok m', s') →
  m' = image_end load m ps ∧
  ∃ own', grown own s root own' s' ∧
    (∀ p v, p ∈ loads ps → in_seg load p v →
       leafd own own' s' root v (pt_flags (p_flags p)) (image_page p (seg_va load p) (seg_start load p) (4096 * (v / 4096)))) ∧
    (∀ old v fl f, 0 ≤ v < 2 ^ 48 → (∀ p, p ∈ loads ps → ¬ in_seg load p v) → leafd old own s root v fl f → leafd old own' s' root v fl f) ∧
    (∀ v, 0 ≤ v < 2 ^ 48 → (∀ p, p ∈ loads ps → ¬ in_seg load p v) → xlate s' root v = xlate s root v).
Proof.
  revert own s m; induction ps as [|p ps IH]; intros own s m Hm Hsp; cbn [load_segments].
  { intros _ _ [= <- <-]. split; [done|]. exists own. split_and!; [by apply grown_refl|intros p v Hp; by apply elem_of_nil in Hp|done|done]. }
  unfold image_end, loads. rewrite filter_cons. destruct (Z.eqb_spec (p_type p) PT_LOAD) as [Ht|Ht]; cbn [negb].
  2: { rewrite decide_False by done. apply IH; done. }
  rewrite decide_True by done. intros [Hp Hps]%Forall_cons Hap. inversion Hap as [|? ? Hpq Hap']; subst.
  destruct (load_segment data beyond root load p s) as [[[]|e] s1] eqn:H1; [|done]. intros Hrun.
  destruct (load_segment_pages own s root load p s1 Hm Hsp Hp H1) as (o1 & G1 & L1 & K1 & X1).
  destruct (IH o1 s1 _ (gr_mem _ _ _ _ _ G1) (gr_space _ _ _ _ _ G1) Hps Hap' Hrun) as (Hm' & o2 & G2 & L2 & K2 & X2).
  split.
  { rewrite Hm'. unfold image_end. cbn [foldl]. do 2 f_equal. destruct Hp as [S1 S2 S3 S4]. unfold seg_va in *. apply w64_small. lia. }
  exists o2. split_and!.
  - by eapply grown_trans.
  - intros q v [->|Hq]%elem_of_cons Hv; [|eapply leafd_old; [apply G1|by apply L2]]. destruct (seg_range load p Hp) as (A1 & A2 & A3 & A4 & A5). unfold in_seg in Hv.
    apply K2; [lia| |by apply L1]. intros q Hq Hin. rewrite Forall_forall in Hpq. specialize (Hpq q Hq). unfold apart, in_seg in *. lia.
  - intros old v fl f Hv Hn Hl. apply K2; [done|intros q Hq; apply Hn; by apply elem_of_cons; right|].
    apply K1; [done|apply Hn, elem_of_cons; by left|done].
  - intros v Hv Hn. rewrite X2 by (try done; intros q Hq; apply Hn, elem_of_cons; by right). apply X1; [done|apply Hn, elem_of_cons; by left].
Qed.

End image.

(** ** The stack's pages *)

Definition stack_flags : Z := Z.lor PTE_PRESENT (Z.lor PTE_WRITABLE (Z.lor PTE_USER PTE_NO_EXECUTE)).
Definition stack_base : Z := USER_STACK_TOP - Z.of_nat USER_STACK_PAGES * 4096.
Definition in_stack (v : Z) : Prop := stack_base ≤ v < USER_STACK_TOP.

(** The stack is mapped like the pages of a writable segment without bytes. *)
Definition bss : Elf64ProgramHeader := mkPhdr PT_LOAD PF_W 0 0 0 0.

Lemma bss_chunk addr : 0 ≤ addr → page_chunk bss 0 0 addr = (0, w64 addr, 0).
Proof.
  intros Ha. unfold page_chunk. cbn [p_filesz p_offset bss]. replace (if addr =? 0 then 0 - 0 else 0) with 0 by (by destruct (addr =? 0)).
  change (w64 (0 + 0)) with 0. rewrite (proj2 (Z.ltb_ge (addr + 4096) 0)) by lia. rewrite Z.max_l by lia. do 3 f_equal. lia.
Qed.

Lemma map_stack_bss n root addr s s' : 0 ≤ addr → map_stack n root addr s = (Ok tt, s') →
  map_segment [] (λ _, 0) n root bss 0 0 addr s = (Ok tt, s').
Proof.
  revert addr s; induction n as [|n IH]; intros addr s Ha; cbn [map_stack map_segment]; [done|].
  destruct (alloc_raw s) as [[phys|] s1]; [|done]. change (pt_flags (p_flags bss)) with stack_flags. fold stack_flags.
  destruct (map_into root addr phys stack_flags (zero_frame phys s1)) as [[[]|e] s2]; [|done].
  unfold fill_page. rewrite bss_chunk by done. apply IH. lia.
Qed.

Lemma map_stack_pages own s root s' : mem_ok own s → space own s root → map_stack USER_STACK_PAGES root stack_base s = (Ok tt, s') →
  ∃ own', grown own s root own' s' ∧ (∀ v, in_stack v → leafd own own' s' root v stack_flags ∅) ∧
    (∀ old v fl f, 0 ≤ v < 2 ^ 48 → ¬ in_stack v → leafd old own s root v fl f → leafd old own' s' root v fl f) ∧
    (∀ v, 0 ≤ v < 2 ^ 48 → ¬ in_stack v → xlate s' root v = xlate s root v).
Proof.
  intros Hm Hsp Hrun%map_stack_bss; [|done]. unfold in_stack.
  assert (stack_base = 4096 * (2 ^ 35 - 17) ∧ USER_STACK_TOP = stack_base + 4096 * Z.of_nat USER_STACK_PAGES ∧ Z.of_nat USER_STACK_PAGES = 16) as (Eb & Et & En) by done.
  assert (∀ v, 0 ≤ v < 2 ^ 48 → in_pages stack_base USER_STACK_PAGES v ↔ stack_base ≤ v < USER_STACK_TOP) as Hin.
  { intros v Hv. rewrite Et. apply elf_pages_range; [lia|done|lia|done]. }
  destruct (map_segment_pages [] (λ _, 0) USER_STACK_PAGES own s root bss 0 0 stack_base s') as (o & G & L & K & X); [|done|done|done|].
  { intros i j. apply pages_inj; lia. }
  exists o. split_and!; [done|..].
  - intros v Hv. assert (0 ≤ v < 2 ^ 48) as Hr by lia. destruct (proj2 (Hin v Hr) Hv) as (i & Hi & E). specialize (L i Hi).
    assert (image_page [] (λ _, 0) bss 0 0 (stack_base + 4096 * i) = ∅) as Hz.
    { unfold image_page. rewrite bss_chunk by lia. done. }
    rewrite Hz in L. eapply leafd_path; [symmetry; exact E|exact L].
  - intros old v fl f Hv Hn. apply K. by rewrite Hin.
  - intros v Hv Hn. apply X. by rewrite Hin.
Qed.

Lemma stack_page_mapped s root v w : mapped s root v w → present w = true → stack_page root v s = Some (addr_of w).
Proof.
  intros (pt & Hd & He) Hw. cbn [descend] in Hd. unfold stack_page, is_ptr in *. cbv zeta.
  set (e1 := entry s root (vpn 39 v)) in *. destruct (present e1); [|done]. cbn [negb andb] in *. destruct (huge e1); [done|]. cbn [negb] in Hd.
  set (e2 := entry s _ (vpn 30 v)) in *. destruct (present e2); [|done]. cbn [negb andb] in *. destruct (huge e2); [done|]. cbn [negb] in Hd.
  set (e3 := entry s _ (vpn 21 v)) in *. destruct (present e3); [|done]. cbn [negb andb] in *. destruct (huge e3); [done|]. cbn [negb] in Hd.
  injection Hd as ->. by rewrite He, Hw.
Qed.

(** Storing words outside the tables. *)
Lemma filled_entry s root phys f i w : ¬ reach s root phys → page_of s phys = f → filled s root phys (<[i := w]> f) (set_entry phys i w s).
Proof. intros Hn <-. by apply filled_set. Qed.

Lemma map_into_errors root v phys fl s e s' : map_into root v phys fl s = (Err e, s') → e ≠ "stack PTE not found".
Proof.
  unfold map_into. destruct (into_pdpt root v s) as [[a|] s1]; [|by intros [= <- _]]. destruct (into_pd a v s1) as [[b|] s2]; [|by intros [= <- _]].
  destruct (into_pt b v s2) as [[c|] s3]; [done|by intros [= <- _]].
Qed.

Lemma map_stack_errors n root addr s e s' : map_stack n root addr s = (Err e, s') → e ≠ "stack PTE not found".
Proof.
  revert addr s; induction n as [|n IH]; intros addr s; cbn [map_stack]; [done|].
  destruct (alloc_raw s) as [[phys|] s1]; [|by intros [= <- <-]]. fold stack_flags.
  destruct (map_into root addr phys stack_flags (zero_frame phys s1)) as [[[]|m] s2] eqn:E; [apply IH|].
  intros [= <- <-]. by eapply map_into_errors.
Qed.

Lemma zero_words f j : (∀ i, getd 0 f i = 0) → byte_at f j = 0.
Proof. intros H. unfold byte_at. by rewrite H, Z.shiftr_0_l. Qed.

(** The stack, page by page. *)
Lemma make_stack_spec own s root r s' : mem_ok own s → space own s root → make_stack root s = (r, s') →
  r ≠ Err "stack PTE not found" ∧
  (r = Ok tt → ∃ own', mem_ok own' s' ∧ space own' s' root ∧ own ⊆ own' ∧
    (∀ v, in_stack v → ∃ p, p ∉ own ∧ p ∈ own' ∧ ¬ reach s' root p ∧ page_addr p ∧
       mapped s' root v (Z.lor p (Z.lor stack_flags PTE_PRESENT)) ∧ ∀ i, getd 0 (page_of s' p) i = 0) ∧
    (∀ v, 0 ≤ v < 2 ^ 48 → ¬ in_stack v → xlate s' root v = xlate s root v) ∧
    (∀ t, t ∈ own → ¬ reach s root t → page_of s' t = page_of s t)).
Proof.
  intros Hm Hsp. unfold make_stack. fold stack_base. destruct (map_stack USER_STACK_PAGES root stack_base s) as [[[]|e] s1] eqn:E.
  2: { intros [= <- <-]. split; [|done]. intros [= ->]. by destruct (map_stack_errors _ _ _ _ _ _ E). }
  destruct (map_stack_pages own s root s1 Hm Hsp E) as (o & G & L & _ & X).
  destruct (L (USER_STACK_TOP - 8) ltac:(done)) as (ph & P0 & P1 & P2 & P3 & P4 & P5).
  rewrite (stack_page_mapped s1 root _ _ P4) by (by rewrite !present_lor, orb_true_r).
  replace (addr_of _) with ph by (rewrite !addr_of_lor, P3; change (addr_of PTE_PRESENT) with 0; change (addr_of stack_flags) with 0; by rewrite !Z.lor_0_r).
  pose proof (filled_entry s1 root ph ∅ 510 0 P2 P5) as F. set (s2 := set_entry ph 510 0 s1) in *.
  assert (¬ reach s2 root ph) as Hn2 by (by rewrite (fi_reach _ _ _ _ _ F)).
  pose proof (filled_entry s2 root ph _ 511 0 Hn2 (eq_trans (fi_page _ _ _ _ _ F ph) (decide_True _ _ eq_refl))) as F'.
  set (s3 := set_entry ph 511 0 s2) in *. intros [= <- <-]. split; [done|]. intros _. exists o. split_and!.
  - unfold mem_ok. rewrite (fi_km _ _ _ _ _ F'), (fi_km _ _ _ _ _ F). apply G.
  - apply (fi_space _ _ _ _ _ F'), (fi_space _ _ _ _ _ F), G.
  - apply G.
  - intros v Hv. destruct (L v Hv) as (p & Q0 & Q1 & Q2 & Q3 & Q4 & Q5). exists p.
    split_and!; [done|done|by rewrite (fi_reach _ _ _ _ _ F'), (fi_reach _ _ _ _ _ F)|done|by apply (fi_mapped _ _ _ _ _ F'), (fi_mapped _ _ _ _ _ F)|].
    rewrite (fi_page _ _ _ _ _ F'), (fi_page _ _ _ _ _ F). intros i. case_decide; [|by rewrite Q5, getd_empty].
    rewrite !getd_insert, getd_empty. by repeat case_decide.
  - intros v Hv Hn. rewrite (fi_xlate _ _ _ _ _ F'), (fi_xlate _ _ _ _ _ F). by apply X.
  - intros t Ht Hr. assert (t ≠ ph) as Hne by (intros ->; done).
    rewrite (fi_page _ _ _ _ _ F'), (fi_page _ _ _ _ _ F), !decide_False by done. apply G; [by left|done].
Qed.
