(* ===== verification/ElfClaims.v ===== *)
(** * The theorems about ELF images: what a program finds in its segments and on its stack; which bytes of the file the headers are read from *)

From S2P Require Import Prelude Bytes Buddy BuddyInv BuddySpec BuddyOps BuddyPages VfsTypes Vma Paging PagingWalk PagingMap PagingDemo Elf ElfMap.
From Stdlib Require Import Lia ZArith.
From stdpp Require Import base gmap numbers strings list.
Local Open Scope string_scope.
Local Open Scope Z_scope.

(** ** The image *)

Section image.
Context (data : list Z) (beyond : Z → Z).
(** C9: When the segments of a file are loaded, a program whose segments lie
    in the file, below 2^47 and on pages of their own finds at every address
    of a segment's pages the byte of the file that belongs there, and zero
    before the segment's bytes, after them and in its bss, with the segment's
    permissions; no other address is translated differently, pages that were
    held keep their contents, and the image's end is the largest of the
    segments' ends. *)
Lemma load_segments_image ps own s root load m m' s' :
  Forall is_byte data → data_len data < 2 ^ 63 → mem_ok own s → space own s root →
  Forall (seg_ok data load) (loads ps) → ForallOrdPairs (apart load) (loads ps) →
  load_segments data beyond root load ps m s = (Ok m', s') →
  m' = image_end load m ps ∧
  (∃ own', mem_ok own' s' ∧ space own' s' root ∧ own ⊆ own') ∧
  (∀ p v, p ∈ loads ps → in_seg load p v → reads_as s' root v (pt_flags (p_flags p)) (seg_byte data load p v)) ∧
  (∀ v, 0 ≤ v < 2 ^ 48 → (∀ p, p ∈ loads ps → ¬ in_seg load p v) → xlate s' root v = xlate s root v) ∧
  (∀ t, t ∈ own → ¬ reach s root t → page_of s' t = page_of s t).
Proof.
  intros Hd Hlen Hm Hsp Hok Hap Hrun. destruct (load_segments_pages data beyond ps own s root load m m' s' Hm Hsp Hok Hap Hrun) as (E & o & G & L & _ & X).
  split; [done|]. split_and!; [exists o; split_and!; apply G| |done|intros t Ht; apply G; by left].
  intros p v Hp Hv. destruct (L p v Hp Hv) as (ph & _ & _ & _ & H1 & H2 & H3). exists ph. split_and!; [done|done|]. rewrite H3.
  assert (seg_ok data load p) as Hso by (by eapply Forall_forall in Hok).
  destruct (seg_range data load p Hso) as (A1 & A2 & A3 & A4 & A5). unfold in_seg in Hv. set (a := seg_start load p) in *.
  pose proof (Z.div_mod a 4096 ltac:(lia)). pose proof (Z.div_mod v 4096 ltac:(lia)). pose proof (Z.mod_pos_bound v 4096 ltac:(lia)).
  pose proof (image_page_bytes data beyond load p (v / 4096 - a / 4096) (v mod 4096) Hd Hlen Hso ltac:(lia) ltac:(lia)) as Hb. cbv zeta in Hb. fold a in Hb.
  replace (a + 4096 * (v / 4096 - a / 4096)) with (4096 * (v / 4096)) in Hb by lia. rewrite Hb by lia. f_equal. lia.
Qed.

End image.

(** ** The stack *)

(** Once the pages of the stack are mapped, the page of its last word is
    found: building the stack fails for want of memory or a page table only.
    When it succeeds, the sixteen pages below the stack's top read as zeros
    and are writable, not executable and the user's, no other address is
    translated differently and pages that were held keep their contents. *)
Lemma make_stack_ready own s root r s' : mem_ok own s → space own s root → make_stack root s = (r, s') →
  r ≠ Err "stack PTE not found" ∧
  (r = Ok tt →
    (∃ own', mem_ok own' s' ∧ space own' s' root ∧ own ⊆ own') ∧
    (∀ v, in_stack v → reads_as s' root v stack_flags 0) ∧
    (∀ v, 0 ≤ v < 2 ^ 48 → ¬ in_stack v → xlate s' root v = xlate s root v) ∧
    (∀ t, t ∈ own → ¬ reach s root t → page_of s' t = page_of s t)).
Proof.
  intros Hm Hsp Hrun. destruct (make_stack_spec own s root r s' Hm Hsp Hrun) as [H1 H2]. split; [done|]. intros Hr.
  destruct (H2 Hr) as (o & A1 & A2 & A3 & A4 & A5 & A6). split_and!; [by exists o| |done|done].
  intros v Hv. destruct (A4 v Hv) as (p & _ & _ & _ & P1 & P2 & P3). exists p. split_and!; [done|done|by apply zero_words].
Qed.

(** ** The headers *)

Lemma read_bytes_in data b b' off n : 0 ≤ off → off + n ≤ data_len data → read_bytes data b' off n = read_bytes data b off n.
Proof.
  intros Ho Hn. apply list_fmap_ext. intros i x Hx%list_elem_of_lookup_2%elem_of_seqZ. unfold byte.
  by rewrite (proj2 (Z.leb_le 0 x)), (proj2 (Z.ltb_lt x (data_len data))) by lia.
Qed.

Lemma uint_in data b b' off n : 0 ≤ off → off + n ≤ data_len data → le_value (read_bytes data b' off n) = le_value (read_bytes data b off n).
Proof. intros. by rewrite (read_bytes_in data b b'). Qed.

Lemma uint_nonneg data b off n : Forall is_byte data → 0 ≤ off → off + n ≤ data_len data → 0 ≤ le_value (read_bytes data b off n).
Proof. intros Hd Ho Hn. apply le_value_bound. by apply read_bytes_byte. Qed.

Lemma check_header_ok data beyond : check_header data beyond = Ok tt →
  64 ≤ data_len data ∧ phoff (header data beyond) + phentsize (header data beyond) * phnum (header data beyond) ≤ data_len data.
Proof.
  unfold check_header. destruct (Z.ltb_spec (data_len data) 64); [done|]. intros Hc. split; [lia|].
  repeat match type of Hc with (if ?b then _ else _) = _ => let E := fresh "E" in destruct b eqn:E; [done|] end.
  cbv zeta in Hc. repeat match type of Hc with (if ?b then _ else _) = _ => let E := fresh "E" in destruct b eqn:E; [done|] end.
  match goal with H : _ || (_ <? phoff _ + _) = false |- _ => apply orb_false_iff in H as [_ H%Z.ltb_ge]; exact H end.
Qed.

Lemma header_in data beyond beyond' : 64 ≤ data_len data → header data beyond' = header data beyond.
Proof. intros Hl. unfold header, u16, u64. rewrite !(uint_in data beyond beyond') by lia. done. Qed.

(** C31: A file that passes the checks has its program headers read from its
    own bytes, whatever lies behind the buffer, provided its entries are at
    least as long as a program header. *)
Lemma headers_in_bounds data beyond beyond' :
  Forall is_byte data → check_header data beyond = Ok tt → 56 ≤ phentsize (header data beyond) →
  header data beyond' = header data beyond ∧ phdrs data beyond' = phdrs data beyond.
Proof.
  intros Hd [Hlen Hend]%check_header_ok Hsz. pose proof (header_in data beyond beyond' Hlen) as Eh. split; [done|].
  unfold phdrs. rewrite Eh. set (h := header data beyond) in *.
  assert (0 ≤ phoff h) as Hoff by (apply uint_nonneg; (done || lia)).
  apply list_fmap_ext. intros j x Hx%list_elem_of_lookup_2%elem_of_seqZ.
  assert (phoff h + x * phentsize h + 56 ≤ data_len data) as Hin by nia.
  assert (0 ≤ phoff h + x * phentsize h) as Hge by nia.
  unfold phdr_at, u32, u64. by rewrite !(uint_in data beyond beyond') by lia.
Qed.

(** A minimal image: the header [minimal ps sz] has [sz]-byte entries. *)
Definition le (n : nat) (x : Z) : list Z := le_bytes n x.
Definition image (sz n : Z) (rest : list Z) : list Z :=
  ELF_MAGIC ++ [2; 1; 1; 0] ++ replicate 8 0 ++ le 2 2 ++ le 2 0x3E ++ le 4 1 ++ le 8 0x5000 ++ le 8 64 ++ le 8 0 ++ le 4 0 ++ le 2 64 ++
  le 2 sz ++ le 2 n ++ le 6 0 ++ rest.
Definition entry56 (type flags off va filesz memsz : Z) : list Z :=
  le 4 type ++ le 4 flags ++ le 8 off ++ le 8 va ++ le 8 va ++ le 8 filesz ++ le 8 memsz ++ le 8 4096.

Lemma bytes_forallb l : forallb (λ b, (0 <=? b) && (b <? 256)) l = true → Forall is_byte l.
Proof. rewrite Forall_forall, forallb_forall. intros H x Hx%list_elem_of_In. specialize (H x Hx). unfold is_byte. lia. Qed.

Definition d_elf : list Z := image 56 1 (entry56 1 5 120 0x6010 5 20 ++ [1; 2; 3; 4; 5]).

Lemma headers_in_bounds_witness : check_header d_elf (λ _, 0) = Ok tt ∧ phdrs d_elf (λ _, 255) = [mkPhdr 1 5 120 0x6010 5 20].
Proof.
  split; [vm_compute; reflexivity|].
  destruct (headers_in_bounds d_elf (λ _, 0) (λ _, 255) (bytes_forallb d_elf ltac:(vm_compute; reflexivity)) ltac:(vm_compute; reflexivity) ltac:(vm_compute; discriminate))
    as [_ ->]. vm_compute. reflexivity.
Defined.

(** With shorter entries what lies behind the file is taken for a program
    header. *)
Lemma headers_beyond : check_header (image 1 1 [1]) (λ _, 0) = Ok tt ∧
  phdrs (image 1 1 [1]) (λ _, 0) = [mkPhdr 1 0 0 0 0 0] ∧ phdrs (image 1 1 [1]) (λ _, 1) ≠ phdrs (image 1 1 [1]) (λ _, 0).
Proof. split_and!; [vm_compute; reflexivity..|vm_compute; discriminate]. Qed.

(** A file shorter than the type field that is as long as the identification
    panics the kernel; any other file shorter than a header is refused with
    nothing changed. *)
Lemma load_short data beyond lo hi s : data_len data < 64 →
  load_elf data beyond lo hi s = if (16 <=? data_len data) && (data_len data <=? 17) then Panic else Done (Err "ELF too small", s).
Proof.
  intros Hs. unfold load_elf, load_elf_at, check_header. rewrite (proj2 (Z.ltb_lt (data_len data) 64)) by done.
  destruct (16 <=? data_len data), (data_len data <=? 17); cbn [andb]; try done. by case_match.
Qed.

Lemma load_short_witness : load_elf (replicate 16 0) (λ _, 0) 0 0 (demo 7 0) = Panic.
Proof. rewrite (load_short (replicate 16 0) (λ _, 0) 0 0 (demo 7 0)); [reflexivity|reflexivity]. Defined.

(** ** The interpreter *)

Definition interp_path (data : list Z) (p : Elf64ProgramHeader) : option (list Z) :=
  if (p_type p =? PT_INTERP) && (p_offset p + p_filesz p <=? data_len data) && (0 <? p_filesz p) && (p_filesz p <? 64)
  then Some (take (Z.to_nat (p_filesz p - 1)) (drop (Z.to_nat (p_offset p)) data)) else None.

Lemma read_bytes_slice data b off n : 0 ≤ off → 0 ≤ n → off + n ≤ data_len data →
  read_bytes data b off n = take (Z.to_nat n) (drop (Z.to_nat off) data).
Proof.
  intros Ho Hn Hl. unfold data_len in Hl. apply list_eq. intros i. unfold read_bytes. rewrite list_lookup_fmap.
  destruct (decide (Z.of_nat i < n)).
  - rewrite lookup_seqZ_lt, lookup_take_lt, lookup_drop by lia. cbn [fmap option_fmap option_map]. unfold byte, data_len.
    rewrite (proj2 (Z.leb_le 0 _)), (proj2 (Z.ltb_lt (off + Z.of_nat i) _)) by lia. cbn [andb].
    replace (Z.to_nat (off + Z.of_nat i)) with (Z.to_nat off + i)%nat by lia. symmetry. apply list_lookup_lookup_total_lt. lia.
  - by rewrite lookup_seqZ_ge, lookup_take_ge by lia.
Qed.

Lemma find_interp_from data beyond ps found :
  Forall (λ p, 0 ≤ p_offset p ∧ 0 ≤ p_filesz p ∧ (p_type p = PT_INTERP → p_offset p + p_filesz p < 2 ^ 64)) ps →
  find_interp data beyond ps found = Done (match last (omap (interp_path data) ps) with Some x => Some x | None => found end).
Proof.
  revert found; induction ps as [|p ps IH]; intros found; [done|]. intros [(Ho & Hs & Hw) Hps]%Forall_cons. cbn [find_interp].
  unfold omap. cbn [list_omap]. fold (omap (M:=list) (interp_path data)). unfold interp_path at 1.
  destruct (Z.eqb_spec (p_type p) PT_INTERP) as [Ht|Ht]; cbn [andb]; [|by apply IH]. specialize (Hw Ht). rewrite (w64_small (p_offset p + p_filesz p)) by lia.
  destruct (Z.leb_spec (p_offset p + p_filesz p) (data_len data)); cbn [andb]; [|by apply IH].
  destruct (Z.ltb_spec 0 (p_filesz p)); cbn [andb]; [|by apply IH]. destruct (p_filesz p <? 64); cbn [andb]; [|by apply IH].
  rewrite w64_small by lia. rewrite (proj2 (Z.ltb_ge (p_offset p + p_filesz p - 1) (p_offset p))), (proj2 (Z.ltb_ge (data_len data) _)) by lia.
  cbn [orb]. rewrite IH by done. rewrite read_bytes_slice by lia. rewrite last_cons. by destruct (last _).
Qed.

(** When no interpreter entry's range wraps around, the search never panics
    and yields the path of the last entry whose range lies in the file and is
    1 to 63 bytes long, without its last byte. *)
Lemma find_interp_last data beyond ps :
  Forall (λ p, 0 ≤ p_offset p ∧ 0 ≤ p_filesz p ∧ (p_type p = PT_INTERP → p_offset p + p_filesz p < 2 ^ 64)) ps →
  find_interp data beyond ps None = Done (last (omap (interp_path data) ps)).
Proof. intros H. rewrite find_interp_from by done. by destruct (last _). Qed.

Lemma find_interp_last_witness : find_interp d_elf (λ _, 0) [mkPhdr 3 4 120 0 5 5; mkPhdr 1 0 0 0 0 0; mkPhdr 3 4 121 0 3 3; mkPhdr 3 4 121 0 90 90] None =
  Done (Some [2; 3]).
Proof.
  rewrite (find_interp_last d_elf (λ _, 0)); [vm_compute; reflexivity|]. repeat constructor; vm_compute; congruence.
Defined.

(** A range that wraps around starts behind its end: the slice panics. *)
Lemma find_interp_wraps : find_interp d_elf (λ _, 0) [mkPhdr 3 4 (2 ^ 64 - 4) 0 8 8] None = Panic.
Proof. vm_compute. reflexivity. Qed.

Lemma load_segments_image_witness :
  let '(r, s') := load_segments d_elf (λ _, 0) 0x100000 0 (phdrs d_elf (λ _, 0)) 0 (demo 7 0) in
  r = Ok 0x6024 ∧ reads_as s' 0x100000 0x6012 (pt_flags 5) 3 ∧ reads_as s' 0x100000 0x6015 (pt_flags 5) 0 ∧
  xlate s' 0x100000 0x5007 = Some 0x104007.
Proof.
  destruct (load_segments d_elf (λ _, 0) 0x100000 0 (phdrs d_elf (λ _, 0)) 0 (demo 7 0)) as [r s'] eqn:E.
  assert (r = Ok 0x6024) as -> by (change r with (r, s').1; rewrite <- E; vm_compute; reflexivity).
  destruct (load_segments_image d_elf (λ _, 0) (phdrs d_elf (λ _, 0)) d_own (demo 7 0) 0x100000 0 0 0x6024 s'
    (bytes_forallb d_elf ltac:(vm_compute; reflexivity)) eq_refl (demo_mem 7 0) (demo_space 7 0 ltac:(lia))) as (_ & _ & R & X & _); [..|exact E|].
  - replace (loads (phdrs d_elf (λ _, 0))) with [mkPhdr 1 5 120 0x6010 5 20] by (vm_compute; reflexivity).
    apply Forall_singleton. repeat split; vm_compute; congruence.
  - replace (loads (phdrs d_elf (λ _, 0))) with [mkPhdr 1 5 120 0x6010 5 20] by (vm_compute; reflexivity). repeat constructor.
  - replace (loads (phdrs d_elf (λ _, 0))) with [mkPhdr 1 5 120 0x6010 5 20] in * by (vm_compute; reflexivity).
    split; [done|]. split_and!.
    + exact (R (mkPhdr 1 5 120 0x6010 5 20) 0x6012 (list_elem_of_here _ _) ltac:(vm_compute; split; congruence)).
    + exact (R (mkPhdr 1 5 120 0x6010 5 20) 0x6015 (list_elem_of_here _ _) ltac:(vm_compute; split; congruence)).
    + rewrite X; [vm_compute; reflexivity|lia|]. intros p ->%list_elem_of_singleton [H _]. revert H. vm_compute. congruence.
Defined.

Lemma make_stack_ready_witness :
  let '(r, s') := make_stack 0x100000 (demo 7 0) in
  r = Ok tt ∧ reads_as s' 0x100000 (USER_STACK_TOP - 8) stack_flags 0 ∧ xlate s' 0x100000 0x5007 = Some 0x104007.
Proof.
  destruct (make_stack 0x100000 (demo 7 0)) as [r s'] eqn:E.
  assert (r = Ok tt) as -> by (change r with (r, s').1; rewrite <- E; vm_compute; reflexivity).
  destruct (make_stack_ready d_own (demo 7 0) 0x100000 (Ok tt) s' (demo_mem 7 0) (demo_space 7 0 ltac:(lia)) E) as [_ H].
  destruct (H eq_refl) as (_ & R & X & _). split; [done|]. split; [apply R; vm_compute; split; congruence|].
  rewrite X; [vm_compute; reflexivity|lia|]. intros [H1 _]. revert H1. vm_compute. congruence.
Defined.
