(* ===== verification/Mm.v ===== *)
(** * Memory system calls: brk, mprotect, munmap of [src/task.rs]

    They change the tables of [Paging] and the records of [Vma] together.  The
    loops over pages run over an aligned range that does not wrap, so the
    number of turns is known before the first. *)

From S2P Require Import Prelude Buddy Sched Vma Paging Elf.
From stdpp Require Import base gmap numbers list.
Local Open Scope Z_scope.

(** The tables, the records and the caller's break. *)
Record mm := mkMm { tabs : pmem; vmas : pool; brk_start : Z; brk_end : Z }.

Definition set_tabs (x : pmem) (m : mm) : mm := mkMm x (vmas m) (brk_start m) (brk_end m).
Definition set_vmas (x : pool) (m : mm) : mm := mkMm (tabs m) x (brk_start m) (brk_end m).
Definition set_brk (a b : Z) (m : mm) : mm := mkMm (tabs m) (vmas m) a b.

(** The pages of [start, end_). *)
Definition page_count (start end_ : Z) : nat := Z.to_nat ((end_ - start) / 4096).

(** ** [sys_brk] *)

Definition DATA_FLAGS : Z := Z.lor PTE_PRESENT (Z.lor PTE_WRITABLE (Z.lor PTE_USER PTE_NO_EXECUTE)).

(** A page without memory is skipped. *)
Definition brk_page (cr3 page : Z) (s : pmem) : pmem :=
  match alloc_raw s with
  | (None, s) => s
  | (Some phys, s) => (map_into cr3 page phys DATA_FLAGS (zero_frame phys s)).2
  end.

Fixpoint brk_loop (n : nat) (cr3 page : Z) (s : pmem) : pmem :=
  match n with
  | O => s
  | S n' => brk_loop n' cr3 (page + 4096) (brk_page cr3 page s)
  end.

(** The end of the record that starts at the break's start. *)
Fixpoint set_vma_end (pml4 start end_ : Z) (vs : pool) : pool :=
  match vs with
  | [] => []
  | r :: vs =>
      if (r_pml4 r =? pml4) && (v_start (r_vma r) =? start)
      then mkVmaRec (r_pml4 r) (mkVma (v_start (r_vma r)) end_ (v_flags (r_vma r))) :: vs
      else r :: set_vma_end pml4 start end_ vs
  end.

(** [cr3] is the page table the processor uses. *)
Definition sys_brk (cur : nat) (pml4 cr3 addr : Z) (m : mm) : Z * mm :=
  if (cur =? 0)%nat then (- EINVAL, m)
  else if addr =? 0 then (brk_end m, m)
  else
    let m := if brk_start m =? 0 then set_brk addr addr m else m in
    let start := brk_start m in
    let m := match vma_find pml4 start (vmas m) with
             | None => set_vmas (vma_register pml4 start start DATA_FLAGS (vmas m)).2 m
             | Some _ => m
             end in
    if addr <? start then (brk_end m, m)
    else
      let old_end := brk_end m in
      let m := set_vmas (set_vma_end pml4 start addr (vmas m)) (set_brk start addr m) in
      let m := if old_end <? addr
               then let first := Buddy.page_align_down old_end in
                    set_tabs (brk_loop (page_count first (Buddy.page_align_up addr)) cr3 first (tabs m)) m
               else m in
      (addr, m).

(** ** [sys_mprotect] *)

Fixpoint mprotect_loop (n : nat) (pml4 page fl : Z) (s : pmem) : pmem :=
  match n with
  | O => s
  | S n' =>
      let s := match resolve_phys s pml4 page with
               | Some phys => (map_into pml4 page phys fl s).2
               | None => s
               end in
      mprotect_loop n' pml4 (page + 4096) fl s
  end.

Definition sys_mprotect (cur : nat) (pml4 addr len prot : Z) (m : mm) : Z * mm :=
  if (cur =? 0)%nat then (- EINVAL, m)
  else
    let start := Z.ldiff addr 0xFFF in
    let end_ := Z.ldiff (w64 (addr + len + 0xFFF)) 0xFFF in
    (0, set_tabs (mprotect_loop (page_count start end_) pml4 start (prot_flags prot) (tabs m)) m).

(** ** [sys_munmap] *)

(** What the call looks at in the task table. *)
Record utask := mkUtask { u_id : nat; u_state : TaskState; u_user_stack : Z; u_pml4 : Z }.

(** A page of the record a live task's stack pointer lies in. *)
Definition munmap_page_in_use (page : Z) (ts : list utask) (vs : pool) : bool :=
  existsb (λ t,
    negb (u_id t =? 0)%nat && negb (state_eqb (u_state t) TEmpty) && negb (state_eqb (u_state t) TExited) && negb (u_user_stack t =? 0) &&
    match vma_find (u_pml4 t) (u_user_stack t) vs with
    | Some v => (v_start v <? w64 (page + PAGE_SIZE_4K)) && (page <? v_end v)
    | None => false
    end) ts.

Definition range_in_use (n : nat) (start : Z) (ts : list utask) (vs : pool) : bool :=
  existsb (λ i, munmap_page_in_use (start + 4096 * i) ts vs) (seqZ 0 (Z.of_nat n)).

(** A present user page is freed and its entry cleared. *)
Definition munmap_page (pml4 page : Z) (s : pmem) : comp pmem :=
  match get_pte_in s pml4 page with
  | None => Done s
  | Some (pt, i) =>
      let e := entry s pt i in
      if present e && user e then
        let! s := free_frame (addr_of e) s in
        Done (set_entry pt i 0 s)
      else Done s
  end.

Fixpoint munmap_loop (n : nat) (pml4 page : Z) (s : pmem) : comp pmem :=
  match n with
  | O => Done s
  | S n' => let! s := munmap_page pml4 page s in munmap_loop n' pml4 (page + 4096) s
  end.

Definition sys_munmap (cur : nat) (pml4 addr len : Z) (ts : list utask) (m : mm) : comp (Z * mm) :=
  if len =? 0 then Done (- EINVAL, m)
  else if (cur =? 0)%nat then Done (- EINVAL, m)
  else
    let start := Z.ldiff addr 0xFFF in
    let end_ := w64 (start + Z.ldiff (w64 (len + 0xFFF)) 0xFFF) in
    let n := page_count start end_ in
    if range_in_use n start ts (vmas m) then Done (0, m)
    else
      let! s := munmap_loop n pml4 start (tabs m) in
      Done (0, set_vmas (vma_clear_range pml4 start end_ (vmas m)) (set_tabs s m)).
