(* ===== verification/MmClaims.v ===== *)
(** * The theorems about brk, mprotect and munmap *)

From S2P Require Import Prelude Bytes Buddy Sched BuddyInv BuddyTables BuddySpec BuddyPages VfsTypes Vma Paging PagingWalk PagingMap PagingCow PagingFork PagingDemo Elf ElfMap Mm.
From S2P Require VmaClaims.
From Stdlib Require Import Lia ZArith.
From stdpp Require Import base gmap numbers list.
Local Open Scope Z_scope.

(** ** brk *)

(** A page of the loop. *)
Lemma brk_page_spec own s root a : mem_ok own s → space own s root →
  let s' := brk_page root a s in
  ∃ own', grown own s root own' s' ∧
    (∀ old v' fl f, path v' ≠ path a → leafd old own s root v' fl f → leafd old own' s' root v' fl f) ∧
    (∀ v', path v' ≠ path a → xlate s' root v' = xlate s root v') ∧
    (leafd own own' s' root a DATA_FLAGS ∅ ∨ ∀ v', xlate s' root v' = xlate s root v').
Proof.
  intros Hm Hsp. unfold brk_page. destruct (alloc_raw s) as [[phys|] s1] eqn:Hal.
  - destruct (map_into root a phys DATA_FLAGS (zero_frame phys s1)) as [r s2] eqn:Hmap. cbn [snd].
    destruct (page_try own s root a DATA_FLAGS ∅ phys s1 r s2 s2 Hm Hsp Hal Hmap) as (o & G & K & X & L); [intros; by apply filled_none|].
    exists o. split_and!; [done|done|done|]. destruct r as [[]|e]; [by left|by right].
  - unfold alloc_raw in Hal. destruct (alloc 0 (km s)) as [r k] eqn:Ha. injection Hal as -> <-. destruct Hm as [Hh Hlow].
    pose proof (alloc_raw_region _ _ _ _ Hh Ha) as Hreg. pose proof (holds_alloc_raw _ _ _ _ Hh Ha) as Hh'.
    assert (∀ v, xlate (set_km k s) root v = xlate s root v) as Hx.
    { intros v. unfold xlate. by rewrite (proj2 (frames_walk s (set_km k s) root (path v) eq_refl)). }
    exists own. split_and!; [|intros old v' fl f _|intros v' _; apply Hx|by right].
    + apply grown_km; [|done|done]. split; [done|]. by apply (low_region (km s)).
    + intros (p & P0 & P1 & P2 & P3 & (pt & D & E) & P5). exists p. split_and!; try done.
      * intros Hr. apply P2. by apply (reach_frames s (set_km k s)).
      * exists pt. split; [|done]. rewrite <- D. by apply frames_walk.
Qed.

Lemma brk_pages n own s root a : 0 ≤ a → a + 4096 * Z.of_nat n ≤ 2 ^ 48 → mem_ok own s → space own s root →
  let s' := brk_loop n root a s in
  ∃ own', grown own s root own' s' ∧
    (∀ i, 0 ≤ i < Z.of_nat n → leafd own own' s' root (a + 4096 * i) DATA_FLAGS ∅ ∨
       ∀ v, path v = path (a + 4096 * i) → xlate s' root v = xlate s root v) ∧
    (∀ old v fl f, ¬ in_pages a n v → leafd old own s root v fl f → leafd old own' s' root v fl f) ∧
    (∀ v, ¬ in_pages a n v → xlate s' root v = xlate s root v).
Proof.
  revert own s a; induction n as [|n IH]; intros own s a H0 Hn Hm Hsp s'.
  { exists own. split_and!; [by apply grown_refl|lia|done|done]. }
  destruct (brk_page_spec own s root a Hm Hsp) as (o1 & G1 & K1 & X1 & L1). unfold s'. cbn [brk_loop]. set (s1 := brk_page root a s) in *.
  destruct (IH o1 s1 (a + 4096) ltac:(lia) ltac:(lia) (gr_mem _ _ _ _ _ G1) (gr_space _ _ _ _ _ G1)) as (o2 & G2 & L2 & K2 & X2).
  assert (∀ v, path v = path a → ¬ in_pages (a + 4096) n v) as Hfst.
  { intros v Hv (j & Hj & E). enough (0 = j + 1) by lia. apply (pages_inj a (S n)); [lia|lia|lia|lia|].
    rewrite Z.mul_0_r, Z.add_0_r, <- Hv, E. f_equal. lia. }
  assert (∀ v, ¬ in_pages a (S n) v → path v ≠ path a ∧ ¬ in_pages (a + 4096) n v) as Hout.
  { intros v Hv. split.
    - intros E. apply Hv. exists 0. split; [lia|]. by rewrite Z.mul_0_r, Z.add_0_r.
    - intros (i & Hi & E). apply Hv. exists (i + 1). split; [lia|]. by replace (a + 4096 * (i + 1)) with (a + 4096 + 4096 * i) by lia. }
  exists o2. split_and!.
  - by eapply grown_trans.
  - intros i Hi. destruct (decide (i = 0)) as [->|].
    + rewrite Z.mul_0_r, Z.add_0_r. destruct L1 as [L1|L1]; [left; by apply K2; [apply Hfst|]|]. right. intros v Hv. rewrite X2 by (by apply Hfst). apply L1.
    + replace (a + 4096 * i) with (a + 4096 + 4096 * (i - 1)) by lia. destruct (L2 (i - 1) ltac:(lia)) as [L|L]; [left; eapply leafd_old; [apply G1|exact L]|].
      right. intros v Hv. rewrite L by done. apply X1. intros E. apply (Hfst v E). exists (i - 1). split; [lia|done].
  - intros old v fl f Hv Hl. destruct (Hout v Hv). apply K2; [done|]. by apply K1.
  - intros v Hv. destruct (Hout v Hv). rewrite X2 by done. by apply X1.
Qed.

Lemma leafd_reads old own s root v fl : leafd old own s root v fl ∅ → reads_as s root v fl 0.
Proof. intros (p & _ & _ & _ & H1 & H2 & H3). exists p. split_and!; [done|done|]. by rewrite H3, byte_at_empty. Qed.

(** Moving the break up, with the record of the heap in place or not, sets
    the break and returns it.  Every address from the page of the old break to
    the page of the new one then reads as zero on a writable page of its own,
    or is translated as before when memory ran out; no other address is
    translated differently and pages that were held keep their contents. *)
Lemma brk_grows own cur m root addr :
  mem_ok own (tabs m) → space own (tabs m) root → (0 < cur)%nat →
  0 < brk_start m ≤ brk_end m → brk_end m < addr → addr ≤ 2 ^ 47 - 4096 →
  let '(r, m') := sys_brk cur root root addr m in
  let first := Buddy.page_align_down (brk_end m) in let last := Buddy.page_align_up addr in
  r = addr ∧ brk_end m' = addr ∧ brk_start m' = brk_start m ∧
  (∃ own', mem_ok own' (tabs m') ∧ space own' (tabs m') root ∧ own ⊆ own') ∧
  (∀ v, first ≤ v < last → reads_as (tabs m') root v DATA_FLAGS 0 ∨ xlate (tabs m') root v = xlate (tabs m) root v) ∧
  (∀ v, 0 ≤ v < 2 ^ 48 → ¬ (first ≤ v < last) → xlate (tabs m') root v = xlate (tabs m) root v) ∧
  (∀ t, t ∈ own → ¬ reach (tabs m) root t → page_of (tabs m') t = page_of (tabs m) t).
Proof.
  intros Hm Hsp Hc Hs Hlt Ha. unfold sys_brk. rewrite (proj2 (Nat.eqb_neq cur 0)), (proj2 (Z.eqb_neq addr 0)), (proj2 (Z.eqb_neq (brk_start m) 0)) by lia.
  rewrite (proj2 (Z.ltb_ge addr (brk_start m))) by lia.
  set (m1 := match vma_find _ _ _ with Some _ => m | None => _ end).
  assert (brk_end m1 = brk_end m ∧ brk_start m1 = brk_start m ∧ tabs m1 = tabs m) as (E1 & E2 & E3) by (unfold m1; by destruct (vma_find _ _ _)).
  cbn [brk_end brk_start tabs set_vmas set_brk]. rewrite E1, (proj2 (Z.ltb_lt _ _) Hlt). cbn [brk_end brk_start tabs set_vmas set_brk set_tabs]. rewrite E3.
  set (b := brk_end m) in *. set (first := Buddy.page_align_down b). set (last := Buddy.page_align_up addr).
  assert (first = 4096 * (b / 4096)) as Ef by (apply (align_down b); lia).
  assert (last = 4096 * ((addr + 4095) / 4096)) as El.
  { unfold last, Buddy.page_align_up. rewrite <- Z.add_sub_assoc. change (Buddy.PAGE_SIZE - 1) with 4095. apply (align_up addr). lia. }
  pose proof (Z.div_mod b 4096 ltac:(lia)). pose proof (Z.mod_pos_bound b 4096 ltac:(lia)).
  pose proof (Z.div_mod (addr + 4095) 4096 ltac:(lia)). pose proof (Z.mod_pos_bound (addr + 4095) 4096 ltac:(lia)).
  unfold page_count. replace ((last - first) / 4096) with ((addr + 4095) / 4096 - b / 4096).
  2: { by rewrite El, Ef, <- Z.mul_sub_distr_l, Z.mul_comm, Z.div_mul. }
  set (k := (addr + 4095) / 4096 - b / 4096).
  destruct (brk_pages (Z.to_nat k) own (tabs m) root first) as (o & G & L & _ & X); [lia|lia|done|done|].
  assert (∀ v, 0 ≤ v < 2 ^ 48 → in_pages first (Z.to_nat k) v ↔ first ≤ v < last) as Hin.
  { intros v Hv. rewrite elf_pages_range; [lia|lia| |lia|done]. rewrite Ef, Z.mul_comm. by apply Z.mod_mul. }
  split_and!; [done|done|done|exists o; split_and!; apply G| | |intros t Ht; apply G; by left].
  - intros v Hv. destruct (proj2 (Hin v ltac:(lia)) Hv) as (i & Hi & E). destruct (L i Hi) as [Hl|Hl]; [left|right; by apply Hl].
    eapply leafd_reads, leafd_path; [symmetry; exact E|exact Hl].
  - intros v Hv Hn. apply X. by rewrite Hin.
Qed.

(** Growing the break inside a page loses what the heap had in it. *)
Definition heap : mm :=
  let s := demo 7 0 in
  mkMm (set_page 0x104000 {[ 0 := 7 ]} s) [mkVmaRec 0x100000 (mkVma 0x5000 0x5010 DATA_FLAGS)] 0x5000 0x5010.
Definition heap_grown : mm := (sys_brk 1 0x100000 0x100000 0x5020 heap).2.

Lemma heap_mem : mem_ok d_own (tabs heap).
Proof. apply (demo_mem 7 0). Qed.

Lemma heap_space : space d_own (tabs heap) 0x100000.
Proof.
  apply set_page_space; [|apply (demo_space 7 0); lia]. intros (q & Hq & Hd).
  destruct (demo_descend 7 0 ltac:(lia) q 0x104000 Hq Hd) as [[_ ?]|[[_ ?]|[[_ ?]|[_ ?]]]]; done.
Qed.

Lemma brk_grows_witness :
  xlate (tabs heap) 0x100000 0x5000 = Some 0x104000 ∧ entry (tabs heap) 0x104000 0 = 7 ∧ reads_as (tabs heap_grown) 0x100000 0x5000 DATA_FLAGS 0.
Proof.
  pose proof (brk_grows d_own 1 heap 0x100000 0x5020 heap_mem heap_space (le_n 1) ltac:(cbn; lia) ltac:(cbn; lia) ltac:(lia)) as H.
  unfold heap_grown. destruct (sys_brk 1 0x100000 0x100000 0x5020 heap) as [r m'] eqn:E. destruct H as (_ & _ & _ & _ & H & _).
  split_and!; [vm_compute; reflexivity|vm_compute; reflexivity|]. destruct (H 0x5000 ltac:(vm_compute; split; congruence)) as [Hr|Hx]; [exact Hr|].
  exfalso. revert Hx. change m' with (r, m').2. rewrite <- E. vm_compute. congruence.
Defined.

(** ** Leaves of 4 KiB *)

Lemma walk_mapped s root v e : walk s root (path v) = Some (e, []) ↔ mapped s root v e ∧ present e = true.
Proof.
  unfold mapped. change (path v) with ([vpn 39 v; vpn 30 v; vpn 21 v] ++ [vpn 12 v]). split.
  - cbn [app walk descend]. unfold is_ptr. destruct (present (entry s root _)); [|done]. cbn [negb]. destruct (huge (entry s root _)); [done|]. cbn [negb andb].
    destruct (present (entry s (addr_of _) (vpn 30 v))); [|done]. cbn [negb]. destruct (huge (entry s (addr_of _) (vpn 30 v))); [done|]. cbn [negb andb].
    destruct (present (entry s (addr_of _) (vpn 21 v))); [|done]. cbn [negb]. destruct (huge (entry s (addr_of _) (vpn 21 v))); [done|]. cbn [negb andb].
    destruct (present (entry s (addr_of _) (vpn 12 v))) eqn:Hp; [|done]. intros [= <-]. split; [by eexists|done].
  - intros [(pt & Hd & He) Hp]. rewrite (walk_app s root _ pt _ _ Hd). cbn [walk]. by rewrite He, Hp.
Qed.

(** No large page at [v]. *)
Definition small (s : pmem) (root v : Z) : Prop := ∀ e rest, walk s root (path v) = Some (e, rest) → rest = [].

Lemma walk_none_xlate s root v : walk s root (path v) = None ↔ xlate s root v = None.
Proof. unfold xlate. by destruct (walk s root (path v)) as [[]|]. Qed.

Lemma walk_none_resolve s root v : tree s root → walk s root (path v) = None → resolve_phys s root v = None.
Proof.
  intros Ht. unfold resolve_phys, resolve_phys_flags, walk_pt, path. cbn [walk]. rewrite (tr_top _ _ Ht).
  destruct (present (entry s root _)); [|done]. cbn [negb].
  destruct (present (entry s (addr_of (entry s root _)) _)); [|done]. cbn [negb]. destruct (huge (entry s (addr_of (entry s root _)) _)); [done|].
  set (pde := entry s _ (vpn 21 v)). destruct (present pde); [|done]. cbn [negb]. destruct (huge pde); [done|].
  by destruct (present (entry s (addr_of pde) (vpn 12 v))).
Qed.

(** A mapping elsewhere leaves the leaf alone. *)
Lemma map_into_walks own s root v phys fl : mem_ok own s → space own s root →
  let '(r, s') := map_into root v phys fl s in
  ∀ v', path v' ≠ path v → small s root v' → walk s' root (path v') = walk s root (path v').
Proof.
  intros Hm Hsp. pose proof (map_into_spec own s root v phys fl Hm Hsp) as H. destruct (map_into root v phys fl s) as [r s'].
  destruct H as (o & _ & _ & _ & _ & _ & _ & _ & K & X). intros v' Hne Hsm.
  assert (xlate s' root v' = xlate s root v') as Hx by (destruct r; [by apply X|apply X]).
  destruct (walk s root (path v')) as [[e rest]|] eqn:Hw.
  - pose proof (Hsm e rest Hw) as ->. apply walk_mapped in Hw as [Hmap Hp]. apply walk_mapped. split; [by apply K|done].
  - apply walk_none_xlate. rewrite Hx. by apply walk_none_xlate.
Qed.

(** ** mprotect *)

Definition relabel (fl : Z) (w : option (Z * list Z)) : option (Z * list Z) :=
  match w with Some (e, _) => Some (Z.lor (addr_of e) (Z.lor fl PTE_PRESENT), []) | None => None end.

Lemma prot_flags_addr prot : addr_of (prot_flags prot) = 0.
Proof. unfold prot_flags. by repeat case_match. Qed.

Lemma page_flags_addr p fl : page_addr p → addr_of fl = 0 → addr_of (Z.lor p (Z.lor fl PTE_PRESENT)) = p.
Proof. intros Hp Hf. rewrite !addr_of_lor, Hp, Hf. change (addr_of PTE_PRESENT) with 0. by rewrite !Z.lor_0_r. Qed.

Lemma land_page a : a mod 4096 = 0 → Z.land a 0xFFF = 0.
Proof. intros H. change 0xFFF with (Z.ones 12). by rewrite Z.land_ones. Qed.

Lemma mprotect_page own s root a fl : mem_ok own s → space own s root → a mod 4096 = 0 → small s root a → 
  let s' := match resolve_phys s root a with Some phys => (map_into root a phys fl s).2 | None => s end in
  (∃ own', mem_ok own' s' ∧ space own' s' root ∧ own ⊆ own') ∧
  (walk s' root (path a) = relabel fl (walk s root (path a))) ∧
  (∀ v, path v ≠ path a → small s root v → walk s' root (path v) = walk s root (path v)) ∧
  (∀ v, path v ≠ path a → xlate s' root v = xlate s root v).
Proof.
  intros Hm Hsp Ha Hsm. destruct (walk s root (path a)) as [[e rest]|] eqn:Hw; cbn [relabel].
  2: { rewrite walk_none_resolve by (done || apply Hsp). split; [by exists own|]. by rewrite Hw. }
  pose proof (Hsm e rest Hw) as ->. destruct (proj1 (walk_mapped s root a e) Hw) as [Hmap Hp]. destruct (mapped_seen s root a e Hmap Hp) as [_ Hres].
  unfold resolve_phys. rewrite Hres, (land_page a Ha), Z.lor_0_r. cbn [fmap option_fmap option_map fst].
  destruct Hmap as (pt & Hd & He). destruct (map_into_existing s root a (addr_of e) fl pt Hd) as (pd & _ & _ & _ & Hrun).
  pose proof (map_into_walks own s root a (addr_of e) fl Hm Hsp) as Hk. pose proof (map_into_spec own s root a (addr_of e) fl Hm Hsp) as H.
  destruct (map_into root a (addr_of e) fl s) as [r s'] eqn:Hrun'. injection Hrun as -> _. cbn [snd].
  destruct H as (o & H1 & H2 & _ & H3 & _ & _ & _ & _ & H4 & H5). split; [by exists o|]. split; [|done].
  apply walk_mapped. split; [done|]. rewrite !present_lor. change (present PTE_PRESENT) with true. by rewrite !orb_true_r.
Qed.

Lemma mprotect_pages n own s root a fl : 0 ≤ a → a mod 4096 = 0 → a + 4096 * Z.of_nat n ≤ 2 ^ 48 → mem_ok own s → space own s root →
  (∀ i, 0 ≤ i < Z.of_nat n → small s root (a + 4096 * i)) →
  let s' := mprotect_loop n root a fl s in
  (∃ own', mem_ok own' s' ∧ space own' s' root ∧ own ⊆ own') ∧
  (∀ i, 0 ≤ i < Z.of_nat n → walk s' root (path (a + 4096 * i)) = relabel fl (walk s root (path (a + 4096 * i)))) ∧
  (∀ v, ¬ in_pages a n v → small s root v → walk s' root (path v) = walk s root (path v)) ∧
  (∀ v, ¬ in_pages a n v → xlate s' root v = xlate s root v).
Proof.
  revert own s a; induction n as [|n IH]; intros own s a H0 Ha Hn Hm Hsp Hsm s'.
  { split_and!; [by exists own|lia|done|done]. }
  pose proof (Hsm 0 ltac:(lia)) as Hsm0. rewrite Z.mul_0_r, Z.add_0_r in Hsm0.
  destruct (mprotect_page own s root a fl Hm Hsp Ha Hsm0) as ((o1 & M1 & S1 & O1) & W1 & K1 & X1). unfold s'. cbn [mprotect_loop]. clear s'.
  set (s1 := match resolve_phys s root a with Some _ => _ | None => _ end) in *.
  assert (∀ i, 0 ≤ i < Z.of_nat n → path (a + 4096 + 4096 * i) ≠ path a) as Hne.
  { intros i Hi E. enough (i + 1 = 0) by lia. apply (pages_inj a (S n)); [lia|lia|lia|lia|].
    rewrite Z.mul_0_r, Z.add_0_r, <- E. f_equal. lia. }
  assert (∀ i, a + 4096 * (i + 1) = a + 4096 + 4096 * i) as Hi1 by (intros; lia).
  destruct (IH o1 s1 (a + 4096)) as ((o2 & M2 & S2 & O2) & W2 & K2 & X2); [lia| |lia|done|done| |].
  { rewrite <- (Z.mul_1_l 4096) at 1. by rewrite Z.mod_add. }
  { intros i Hi. specialize (Hsm (i + 1) ltac:(lia)). rewrite Hi1 in Hsm. intros e rest. rewrite K1 by (done || by apply Hne). apply Hsm. }
  assert (∀ v, ¬ in_pages a (S n) v → path v ≠ path a ∧ ¬ in_pages (a + 4096) n v) as Hout.
  { intros v Hv. split.
    - intros E. apply Hv. exists 0. split; [lia|]. by rewrite Z.mul_0_r, Z.add_0_r.
    - intros (i & Hi & E). apply Hv. exists (i + 1). split; [lia|]. by rewrite Hi1. }
  assert (¬ in_pages (a + 4096) n a) as Hna by (intros (i & Hi & E); by apply (Hne i Hi)).
  split; [exists o2; split; [exact M2|]; split; [exact S2|by etrans]|]. split; [|split].
  - intros i Hi. destruct (decide (i = 0)) as [->|].
    + rewrite Z.mul_0_r, Z.add_0_r, K2; [done|done|]. intros e rest. rewrite W1. unfold relabel. destruct (walk s root (path a)) as [[]|]; [by intros [= <- <-]|done].
    + replace i with (i - 1 + 1) by lia. rewrite Hi1, W2 by lia. f_equal. apply K1; [apply Hne; lia|]. rewrite <- Hi1. apply Hsm. lia.
  - intros v Hv Hs. destruct (Hout v Hv). rewrite K2; [by apply K1|done|]. intros e rest. rewrite K1 by done. apply Hs.
  - intros v Hv. destruct (Hout v Hv). rewrite X2 by done. by apply X1.
Qed.

(** The whole pages of [addr, addr + len). *)
Definition first_page (addr : Z) : Z := Z.ldiff addr 0xFFF.
Definition last_page (addr len : Z) : Z := Z.ldiff (addr + len + 0xFFF) 0xFFF.

Lemma page_floor a : 0 ≤ a → Z.ldiff a 0xFFF = 4096 * (a / 4096).
Proof. exact (align_down a). Qed.

Lemma pages_between addr len : 0 ≤ addr → 0 ≤ len → addr + len ≤ 2 ^ 47 →
  let a := first_page addr in let n := page_count a (last_page addr len) in
  0 ≤ a ∧ a mod 4096 = 0 ∧ last_page addr len = a + 4096 * Z.of_nat n ∧ a + 4096 * Z.of_nat n ≤ 2 ^ 48.
Proof.
  intros H0 Hl Hb. unfold first_page, last_page, page_count. rewrite !page_floor by lia.
  pose proof (Z.div_mod addr 4096 ltac:(lia)). pose proof (Z.mod_pos_bound addr 4096 ltac:(lia)).
  pose proof (Z.div_mod (addr + len + 0xFFF) 4096 ltac:(lia)). pose proof (Z.mod_pos_bound (addr + len + 0xFFF) 4096 ltac:(lia)).
  set (x := addr / 4096) in *. set (y := (addr + len + 4095) / 4096) in *.
  cbv zeta. rewrite <- Z.mul_sub_distr_l, (Z.mul_comm 4096 (y - x)), Z.div_mul by lia. rewrite Z2Nat.id by lia.
  split; [lia|]. split; [rewrite Z.mul_comm; by apply Z.mod_mul|]. lia.
Qed.

(** C27: mprotect over pages of 4 KiB gives every mapped page of the range the
    permissions asked for and leaves unmapped ones unmapped; no address is
    translated differently and the permissions elsewhere stay. *)
Lemma mprotect_relabels own cur m root addr len prot :
  mem_ok own (tabs m) → space own (tabs m) root → (0 < cur)%nat → 0 ≤ addr → 0 ≤ len → addr + len ≤ 2 ^ 47 →
  (∀ v, first_page addr ≤ v < last_page addr len → small (tabs m) root v) →
  let '(r, m') := sys_mprotect cur root addr len prot m in
  r = 0 ∧ vmas m' = vmas m ∧
  (∃ own', mem_ok own' (tabs m') ∧ space own' (tabs m') root ∧ own ⊆ own') ∧
  (∀ v, first_page addr ≤ v < last_page addr len → walk (tabs m') root (path v) = relabel (prot_flags prot) (walk (tabs m) root (path v))) ∧
  (∀ v, 0 ≤ v < 2 ^ 48 → ¬ (first_page addr ≤ v < last_page addr len) → small (tabs m) root v → walk (tabs m') root (path v) = walk (tabs m) root (path v)) ∧
  (∀ v, 0 ≤ v < 2 ^ 48 → xlate (tabs m') root v = xlate (tabs m) root v).
Proof.
  intros Hm Hsp Hc H0 Hl Hb Hsm. unfold sys_mprotect. rewrite (proj2 (Nat.eqb_neq cur 0)) by lia.
  rewrite w64_small by lia. fold (first_page addr). fold (last_page addr len).
  destruct (pages_between addr len H0 Hl Hb) as (A1 & A2 & A3 & A4).
  set (a := first_page addr) in *. set (n := page_count a (last_page addr len)) in *. cbn [tabs vmas set_tabs].
  pose proof (λ v Hv, elf_pages_range a n v A1 A2 A4 Hv) as Hin. rewrite A3 in *.
  destruct (mprotect_pages n own (tabs m) root a (prot_flags prot) A1 A2 A4 Hm Hsp) as (Ho & W & K & X).
  { intros i Hi. apply Hsm. lia. }
  assert (∀ v, a ≤ v < a + 4096 * Z.of_nat n → walk (mprotect_loop n root a (prot_flags prot) (tabs m)) root (path v) =
    relabel (prot_flags prot) (walk (tabs m) root (path v))) as HW.
  { intros v Hv. destruct (proj2 (Hin v ltac:(lia)) Hv) as (i & Hi & E). rewrite E. by apply W. }
  split; [done|]. split; [done|]. split; [done|]. split; [done|]. split.
  - intros v Hv Hn Hs. apply K; [|done]. by rewrite Hin.
  - intros v Hv. destruct (decide (a ≤ v < a + 4096 * Z.of_nat n)) as [Hr|Hr]; [|apply X; by rewrite Hin].
    unfold xlate. rewrite HW by done. destruct (walk (tabs m) root (path v)) as [[e rest]|] eqn:Hw; [|done].
    pose proof (Hsm v Hr e rest Hw) as ->. cbn [relabel fmap option_fmap option_map].
    by rewrite page_flags_addr by (apply page_addr_of || apply prot_flags_addr).
Qed.

Lemma one_page v : 0 ≤ v → v mod 4096 = 0 → v < 2 ^ 47 → first_page v = v ∧ page_count v (last_page v 1) = 1%nat.
Proof.
  intros H0 Ha Hv. pose proof (Z.div_mod v 4096 ltac:(lia)). unfold first_page, last_page, page_count. rewrite !page_floor by lia. split; [lia|].
  replace ((v + 1 + 0xFFF) / 4096) with (v / 4096 + 1).
  2: { rewrite <- Z.add_assoc. change (1 + 0xFFF) with (1 * 4096). rewrite Z.div_add by lia. lia. }
  replace (4096 * (v / 4096 + 1) - v) with 4096 by lia. done.
Qed.

(** Mprotect asks neither whose the page is nor who shares it: a page
    mapped for the kernel alone becomes the user's and writable, and so does a
    page a fork has shared, in every space that shares the table, with its
    count unchanged. *)
Lemma mprotect_unchecked cur m root r v pt e :
  tree (tabs m) root → tree (tabs m) r → (0 < cur)%nat → 0 ≤ v → v mod 4096 = 0 → v < 2 ^ 47 →
  descend (tabs m) root [vpn 39 v; vpn 30 v; vpn 21 v] = Some pt → descend (tabs m) r [vpn 39 v; vpn 30 v; vpn 21 v] = Some pt →
  entry (tabs m) pt (vpn 12 v) = e → present e = true →
  ∃ m' w, sys_mprotect cur root v 1 PROT_WRITE m = (0, m') ∧
    walk (tabs m') root (path v) = Some (w, []) ∧ walk (tabs m') r (path v) = Some (w, []) ∧
    user w = true ∧ writable w = true ∧ addr_of w = addr_of e ∧ refc_get (tabs m') (addr_of e) = refc_get (tabs m) (addr_of e).
Proof.
  intros Ht Htr Hc H0 Ha Hv Hd Hdr He Hp. unfold sys_mprotect. rewrite (proj2 (Nat.eqb_neq cur 0)), w64_small by lia.
  destruct (one_page v H0 Ha Hv) as [Hf Hn]. fold (first_page v). fold (last_page v 1). rewrite Hf, Hn. cbn [mprotect_loop].
  destruct (mapped_seen (tabs m) root v e (ex_intro _ pt (conj Hd He)) Hp) as [_ Hres]. unfold resolve_phys.
  rewrite Hres, (land_page v Ha), Z.lor_0_r. cbn [fmap option_fmap option_map fst]. set (fl := prot_flags PROT_WRITE).
  destruct (map_into_seen (tabs m) root root v (addr_of e) fl pt Ht Hd Hd) as (s1 & R1 & W1).
  destruct (map_into_seen (tabs m) root r v (addr_of e) fl pt Htr Hd Hdr) as (s2 & R2 & W2). rewrite R1 in R2. injection R2 as <-. rewrite R1.
  destruct (map_into_existing (tabs m) root v (addr_of e) fl pt Hd) as (pd & _ & _ & _ & R3). rewrite R1 in R3. injection R3 as R3.
  eexists _, _. split; [done|]. cbn [tabs set_tabs snd]. split; [exact W1|]. split; [exact W2|].
  split; [|split; [|split]].
  - unfold user. rewrite !Z.land_lor_distr_l. apply negb_true_iff, Z.eqb_neq. intros [_ H]%Z.lor_eq_0_iff. done.
  - unfold writable. rewrite !Z.land_lor_distr_l. apply negb_true_iff, Z.eqb_neq. intros [_ H]%Z.lor_eq_0_iff. done.
  - apply page_flags_addr; [apply page_addr_of|apply prot_flags_addr].
  - by rewrite R3.
Qed.

Definition forked : mm := mkMm demo_fork [] 0 0.

Lemma mprotect_unchecked_witness : ∃ m' w, sys_mprotect 1 0x100000 0x5000 1 PROT_WRITE forked = (0, m') ∧
  walk (tabs m') 0x105000 (path 0x5000) = Some (w, []) ∧ writable w = true ∧ addr_of w = 0x104000 ∧ refc_get (tabs m') 0x104000 = 2.
Proof.
  destruct (mprotect_unchecked 1 forked 0x100000 0x105000 0x5000 0x103000 (entry demo_fork 0x103000 5)) as (m' & w & H1 & _ & H2 & _ & H3 & H4 & H5);
    [apply (to_space _ _ _ (fo_tabs _ _ _ _ _ _ demo_forked)); apply list_elem_of_further, list_elem_of_here
    |apply (to_space _ _ _ (fo_tabs _ _ _ _ _ _ demo_forked)), list_elem_of_here|lia|lia|done|lia|vm_compute; reflexivity..|].
  exists m', w. split; [exact H1|]. split; [exact H2|]. split; [exact H3|]. split; [exact H4|exact H5].
Defined.

Lemma mprotect_relabels_witness :
  let '(r, m') := sys_mprotect 1 0x100000 0x5000 1 0 (mkMm (demo 7 0) [] 0 0) in
  walk (tabs m') 0x100000 (path 0x5000) = Some (Z.lor 0x104000 (Z.lor (prot_flags 0) PTE_PRESENT), []) ∧
  xlate (tabs m') 0x100000 0x5008 = Some 0x104008.
Proof.
  pose proof (mprotect_relabels d_own 1 (mkMm (demo 7 0) [] 0 0) 0x100000 0x5000 1 0 (demo_mem 7 0) (demo_space 7 0 ltac:(lia)) (le_n 1) ltac:(lia) ltac:(lia) ltac:(lia)) as H.
  destruct (sys_mprotect 1 0x100000 0x5000 1 0 (mkMm (demo 7 0) [] 0 0)) as [r m'].
  destruct H as (_ & _ & _ & W & _ & X).
  - intros v Hv e rest. rewrite (path_same v 0x5000); [vm_compute; congruence|..].
    + destruct Hv as [Hv _]. revert Hv. vm_compute. intros Hv. destruct v; [done..|by destruct Hv].
    + lia.
    + assert (0x5000 ≤ v < 0x6000) as Hr by exact Hv. symmetry. apply (Z.div_unique v 4096 5 (v - 0x5000)); lia.
  - split; [rewrite W; [vm_compute; reflexivity|vm_compute; split; congruence]|]. rewrite X; [vm_compute; reflexivity|lia].
Defined.

(** ** munmap *)

Lemma get_pte_walk s root v : tree s root → small s root v →
  match get_pte_in s root v with
  | Some (pt, i) => i = vpn 12 v ∧ descend s root [vpn 39 v; vpn 30 v; vpn 21 v] = Some pt ∧ walk s root (path v) = Some (entry s pt i, [])
  | None => walk s root (path v) = None
  end.
Proof.
  intros Ht Hsm. destruct (walk s root (path v)) as [[e rest]|] eqn:Hw.
  - pose proof (Hsm e rest Hw) as ->. destruct (proj1 (walk_mapped s root v e) Hw) as [(pt & Hd & He) Hp].
    unfold get_pte_in. destruct (walk_pt_descend s root v pt Hd) as (pd & pde & -> & ->). rewrite He, Hp. cbn [negb]. by rewrite He.
  - pose proof (walk_none_resolve s root v Ht Hw) as Hr. unfold resolve_phys, resolve_phys_flags in Hr. unfold get_pte_in.
    destruct (walk_pt s root v) as [[[pd pde] pt]|]; [|done]. destruct (huge pde); [done|]. by destruct (present (entry s pt (vpn 12 v))).
Qed.

(** The user page at [v], and those of a range. *)
Definition user_page (s : pmem) (root v : Z) : list Z :=
  match walk s root (path v) with Some (e, _) => if user e then [addr_of e] else [] | None => [] end.
Fixpoint user_pages (n : nat) (s : pmem) (root a : Z) : list Z :=
  match n with O => [] | S n' => user_page s root a ++ user_pages n' s root (a + 4096) end.
Definition drop_user (w : option (Z * list Z)) : option (Z * list Z) :=
  match w with Some (e, _) => if user e then None else w | None => None end.

(** What the steps of a tear-down share. *)
Record dropped (own : list Z) (s : pmem) (root : Z) (freed own' : list Z) (s' : pmem) : Prop := {
  dr_own : own ≡ₚ freed ++ own';
  dr_mem : mem_ok own' s';
  dr_space : space own' s' root;
  dr_reach : ∀ t, reach s' root t ↔ reach s root t;
  dr_page : ∀ t, ¬ reach s root t → page_of s' t = page_of s t;
  dr_region : same_region (km s) (km s');
  dr_back : ∀ x, x ∈ freed → given_back (km s') x;
  dr_keep : ∀ x, page_ok (km s) x → x ∉ freed → given_back (km s') x ↔ given_back (km s) x;
}.

Lemma dropped_refl own s root : mem_ok own s → space own s root → dropped own s root [] own s.
Proof. intros Hm Hsp. split; [done|done|done|done|done|by split|by intros x ?%elem_of_nil|done]. Qed.

Lemma dropped_trans own s root f1 own1 s1 f2 own2 s2 : mem_ok own s →
  dropped own s root f1 own1 s1 → dropped own1 s1 root f2 own2 s2 → dropped own s root (f1 ++ f2) own2 s2.
Proof.
  intros [Hh _] [A1 A2 A3 A4 A5 [A6 A6'] A7 A8] [B1 B2 B3 B4 B5 [B6 B6'] B7 B8].
  assert (∀ x, page_ok (km s) x → page_ok (km s1) x) as Hok by (intros x; unfold page_ok, blk_ok; by rewrite A6, A6').
  assert (own ≡ₚ (f1 ++ f2) ++ own2) as Hperm by (by rewrite A1, B1, app_assoc).
  pose proof (holds_nodup _ _ Hh) as Hnd. rewrite Hperm in Hnd. apply list.NoDup_app in Hnd as (Hnd & _).
  apply list.NoDup_app in Hnd as (_ & Hdis & _).
  split; [done|done|done|intros t; by rewrite B4| |by split; [rewrite B6|rewrite B6']| |].
  - intros t Ht. rewrite <- (A5 t Ht). apply B5. by rewrite A4.
  - intros x [Hx|Hx]%elem_of_app; [|by apply B7]. apply B8; [|by apply Hdis|by apply A7].
    apply Hok, (holds_used _ _ _ Hh). rewrite Hperm. set_solver.
  - intros x Hx [Hn1 Hn2]%not_elem_of_app. rewrite B8 by auto. by apply A8.
Qed.

Lemma munmap_page_spec own s root a : mem_ok own s → space own s root → small s root a →
  (∀ x, x ∈ user_page s root a → x ∈ own ∧ ¬ reach s root x) →
  ∃ s' own', munmap_page root a s = Done s' ∧ dropped own s root (user_page s root a) own' s' ∧
    walk s' root (path a) = drop_user (walk s root (path a)) ∧
    (∀ v, path v ≠ path a → walk s' root (path v) = walk s root (path v)).
Proof.
  intros [Hh Hlow] Hsp Hsm Hown. unfold munmap_page, user_page in *. pose proof (get_pte_walk s root a (sp_tree _ _ _ Hsp) Hsm) as Hg.
  destruct (get_pte_in s root a) as [[pt i]|].
  2: { rewrite Hg. exists s, own. split; [done|]. split; [by apply dropped_refl; [split|]|]. split; [done|done]. }
  destruct Hg as (-> & Hd & Hw). rewrite Hw in *. cbn [drop_user]. destruct (proj1 (walk_mapped s root a _) Hw) as [_ Hp]. rewrite Hp. cbn [andb].
  set (e := entry s pt (vpn 12 a)) in *. destruct (user e).
  2: { exists s, own. split; [done|]. split; [by apply dropped_refl; [split|]|]. by split. }
  destruct (Hown (addr_of e) ltac:(apply list_elem_of_here)) as [Hin Hnr]. apply list_elem_of_split in Hin as (l1 & l2 & ->).
  assert (l1 ++ addr_of e :: l2 ≡ₚ addr_of e :: l1 ++ l2) as Hperm by (symmetry; apply Permutation_middle).
  destruct (free_gives (km s) (l1 ++ l2) (addr_of e)) as (k & Hf & Hh' & Hb & Hpg & Hgb & Hkeep); [by eapply holds_perm|].
  pose proof (conj Hb Hpg : same_region (km s) k) as Hreg.
  unfold free_frame. rewrite Hf. cbn [cbind]. set (s1 := set_km k s).
  assert (space (l1 ++ l2) s1 root) as Hsp1.
  { apply space_km; [done|]. destruct Hsp as [T O H]. split; [done| |done]. intros t Ht. destruct (O t Ht) as [Ht'|]; [left|by right].
    apply (Permutation_in (l := l1 ++ addr_of e :: l2)) with (x := t) in Hperm; [|by apply list_elem_of_In].
    apply list_elem_of_In, elem_of_cons in Hperm as [->|]; [done|done]. }
  assert (descend s1 root [vpn 39 a; vpn 30 a; vpn 21 a] = Some pt) as Hd1 by (rewrite <- Hd; by apply frames_walk).
  destruct (leaf_set (l1 ++ l2) s1 root a pt 0 Hsp1 Hd1) as (L1 & L2 & L3 & L4).
  eexists _, (l1 ++ l2). split; [done|]. split; [split|split].
  - done.
  - split; [exact Hh'|]. by apply (low_region (km s)).
  - exact L1.
  - intros t. split; intros (q & Hq & Hx); exists q; (split; [done|]); rewrite <- Hx, L4 by done; [symmetry|]; by apply frames_walk.
  - intros t Ht. unfold set_entry. rewrite page_of_set, decide_False; [done|]. intros <-. apply Ht. exists [vpn 39 a; vpn 30 a; vpn 21 a]. by split; [cbn; lia|].
  - exact Hreg.
  - by intros x ->%list_elem_of_singleton.
  - intros x Hx Hne. apply Hkeep; [done|]. intros ->. apply Hne, list_elem_of_here.
  - pose proof (leaf_xlate _ root a pt L2) as Hx. rewrite entry_set, decide_True in Hx by done. by apply walk_none_xlate.
  - intros v Hne. rewrite L3 by done. by apply frames_walk.
Qed.

Lemma user_page_walk s s' root v : walk s' root (path v) = walk s root (path v) → user_page s' root v = user_page s root v.
Proof. unfold user_page. by intros ->. Qed.

Lemma user_pages_walk n s s' root a : (∀ i, 0 ≤ i < Z.of_nat n → walk s' root (path (a + 4096 * i)) = walk s root (path (a + 4096 * i))) →
  user_pages n s' root a = user_pages n s root a.
Proof.
  revert a; induction n as [|n IH]; intros a Hw; [done|]. cbn [user_pages]. f_equal.
  - apply user_page_walk. specialize (Hw 0 ltac:(lia)). by rewrite Z.mul_0_r, Z.add_0_r in Hw.
  - apply IH. intros i Hi. specialize (Hw (i + 1) ltac:(lia)). by replace (a + 4096 + 4096 * i) with (a + 4096 * (i + 1)) by lia.
Qed.

Lemma munmap_pages n own s root a : 0 ≤ a → a mod 4096 = 0 → a + 4096 * Z.of_nat n ≤ 2 ^ 48 → mem_ok own s → space own s root →
  (∀ i, 0 ≤ i < Z.of_nat n → small s root (a + 4096 * i)) →
  NoDup (user_pages n s root a) → (∀ x, x ∈ user_pages n s root a → x ∈ own ∧ ¬ reach s root x) →
  ∃ s' own', munmap_loop n root a s = Done s' ∧ dropped own s root (user_pages n s root a) own' s' ∧
    (∀ i, 0 ≤ i < Z.of_nat n → walk s' root (path (a + 4096 * i)) = drop_user (walk s root (path (a + 4096 * i)))) ∧
    (∀ v, ¬ in_pages a n v → walk s' root (path v) = walk s root (path v)).
Proof.
  revert own s a; induction n as [|n IH]; intros own s a H0 Ha Hn Hm Hsp Hsm Hnd Hown.
  { exists s, own. cbn [user_pages]. split; [done|]. split; [by apply dropped_refl|]. split; [lia|done]. }
  pose proof (Hsm 0 ltac:(lia)) as Hsm0. rewrite Z.mul_0_r, Z.add_0_r in Hsm0. cbn [user_pages munmap_loop] in *.
  apply NoDup_app in Hnd as (_ & Hdis & Hnd).
  destruct (munmap_page_spec own s root a Hm Hsp Hsm0) as (s1 & o1 & R1 & D1 & W1 & K1).
  { intros x Hx. apply Hown, elem_of_app. by left. }
  rewrite R1. cbn [cbind]. pose proof D1 as [P1 M1 S1 E1 F1 _ _ _].
  assert (∀ i, 0 ≤ i < Z.of_nat n → path (a + 4096 + 4096 * i) ≠ path a) as Hne.
  { intros i Hi E. enough (i + 1 = 0) by lia. apply (pages_inj a (S n)); [lia|lia|lia|lia|].
    rewrite Z.mul_0_r, Z.add_0_r, <- E. f_equal. lia. }
  assert (∀ i, a + 4096 * (i + 1) = a + 4096 + 4096 * i) as Hi1 by (intros; lia).
  assert (user_pages n s1 root (a + 4096) = user_pages n s root (a + 4096)) as Hup by (apply user_pages_walk; intros i Hi; by apply K1, Hne).
  destruct (IH o1 s1 (a + 4096)) as (s2 & o2 & R2 & D2 & W2 & K2); [lia| |lia|done|done| |by rewrite Hup| |].
  { rewrite <- (Z.mul_1_l 4096) at 1. by rewrite Z.mod_add. }
  { intros i Hi. specialize (Hsm (i + 1) ltac:(lia)). rewrite Hi1 in Hsm. intros e rest. rewrite K1 by (by apply Hne). apply Hsm. }
  { intros x Hx. rewrite Hup in Hx. destruct (Hown x) as [Hx1 Hx2]; [apply elem_of_app; by right|]. split; [|by rewrite E1].
    rewrite P1 in Hx1. apply elem_of_app in Hx1 as [Hx1|]; [|done]. by destruct (Hdis x Hx1). }
  assert (∀ v, ¬ in_pages a (S n) v → path v ≠ path a ∧ ¬ in_pages (a + 4096) n v) as Hout.
  { intros v Hv. split.
    - intros E. apply Hv. exists 0. split; [lia|]. by rewrite Z.mul_0_r, Z.add_0_r.
    - intros (i & Hi & E). apply Hv. exists (i + 1). split; [lia|]. by rewrite Hi1. }
  exists s2, o2. split; [done|]. split; [|split].
  - rewrite <- Hup. by eapply dropped_trans.
  - intros i Hi. destruct (decide (i = 0)) as [->|].
    + rewrite Z.mul_0_r, Z.add_0_r, K2; [done|]. intros (j & Hj & E). by apply (Hne j Hj).
    + replace i with (i - 1 + 1) by lia. rewrite Hi1, W2 by lia. f_equal. apply K1, Hne. lia.
  - intros v Hv. destruct (Hout v Hv). rewrite K2 by done. by apply K1.
Qed.

(** C25: munmap of a range of 4 KiB pages, in which no live task has its stack,
    whose mapped user pages are distinct pages held and no tables, and with
    records that begin above address 0, clears the entries of the user pages mapped there and no other, and gives
    exactly these pages back: each was in use and is now unused and recorded
    as freed, and every other page is given back now if and only if it was
    before.  Pages mapped for the kernel and all addresses outside the range
    stay as they are, and no page is written but tables of this space.  An
    address is then recorded as mapped exactly if a record covered it, it is
    not in the range, and it is not above the range in a record that begins
    below it: such a record keeps its first part and loses the rest. *)
Lemma munmap_frees own cur m root addr len ts :
  mem_ok own (tabs m) → space own (tabs m) root → (0 < cur)%nat → 0 ≤ addr → addr mod 4096 = 0 → 0 < len → addr + len ≤ 2 ^ 47 →
  let n := page_count addr (last_page addr len) in let pages := user_pages n (tabs m) root addr in
  range_in_use n addr ts (vmas m) = false →
  (∀ v, addr ≤ v < last_page addr len → small (tabs m) root v) →
  NoDup pages → (∀ x, x ∈ pages → x ∈ own ∧ ¬ reach (tabs m) root x) →
  (∀ r, r ∈ vmas m → r_pml4 r ≠ 0 → 0 < v_start (r_vma r)) →
  ∃ m' own', sys_munmap cur root addr len ts m = Done (0, m') ∧
    own ≡ₚ pages ++ own' ∧ mem_ok own' (tabs m') ∧ space own' (tabs m') root ∧
    (∀ x, x ∈ pages → page_is_used (km (tabs m)) x = true ∧ given_back (km (tabs m')) x) ∧
    (∀ x, page_ok (km (tabs m)) x → x ∉ pages → given_back (km (tabs m')) x ↔ given_back (km (tabs m)) x) ∧
    (∀ p a, p ≠ 0 → VmaClaims.mapped (vmas m') p a ↔
       ∃ r, r ∈ vmas m ∧ covers_addr p a r = true ∧
         ¬ (p = root ∧ (addr ≤ a < last_page addr len ∨ v_start (r_vma r) < addr ∧ last_page addr len < v_end (r_vma r) ∧ last_page addr len ≤ a))) ∧
    (∀ v, addr ≤ v < last_page addr len → walk (tabs m') root (path v) = drop_user (walk (tabs m) root (path v))) ∧
    (∀ v, 0 ≤ v < 2 ^ 48 → ¬ (addr ≤ v < last_page addr len) → walk (tabs m') root (path v) = walk (tabs m) root (path v)) ∧
    (∀ t, ¬ reach (tabs m) root t → page_of (tabs m') t = page_of (tabs m) t).
Proof.
  intros Hm Hsp Hc H0 Ha Hl Hb n pages Huse Hsm Hnd Hown Hvs. unfold sys_munmap.
  rewrite (proj2 (Nat.eqb_neq cur 0)), (proj2 (Z.eqb_neq len 0)) by lia.
  destruct (pages_between addr len H0 ltac:(lia) Hb) as (A1 & A2 & A3 & A4).
  assert (first_page addr = addr) as Hf by (unfold first_page; rewrite page_floor by lia; pose proof (Z.div_mod addr 4096 ltac:(lia)); lia).
  rewrite Hf in *. fold n in A3, A4. change (Z.ldiff addr 0xFFF) with (first_page addr). rewrite Hf.
  assert (w64 (addr + Z.ldiff (w64 (len + 0xFFF)) 0xFFF) = last_page addr len) as Hlast.
  { rewrite (w64_small (len + 0xFFF)) by lia. unfold last_page. rewrite !page_floor by lia. pose proof (Z.div_mod addr 4096 ltac:(lia)) as Hd.
    replace (addr + len + 0xFFF) with ((len + 0xFFF) + (addr / 4096) * 4096) by lia. rewrite Z.div_add by lia.
    pose proof (Z.div_mod (len + 0xFFF) 4096 ltac:(lia)). pose proof (Z.mod_pos_bound (len + 0xFFF) 4096 ltac:(lia)).
    rewrite w64_small by lia. lia. }
  assert (addr < last_page addr len) as Hlt.
  { unfold last_page. rewrite page_floor by lia. pose proof (Z.div_mod (addr + len + 0xFFF) 4096 ltac:(lia)).
    pose proof (Z.mod_pos_bound (addr + len + 0xFFF) 4096 ltac:(lia)). lia. }
  rewrite Hlast. fold n. rewrite Huse. rewrite A3 in *.
  destruct (munmap_pages n own (tabs m) root addr A1 A2 A4 Hm Hsp) as (s' & own' & R & D & W & K); [|done|done|].
  { intros i Hi. apply Hsm. lia. }
  rewrite R. cbn [cbind]. eexists _, own'. split; [done|]. cbn [tabs vmas set_vmas set_tabs]. destruct D as [D1 D2 D3 _ D5 _ D6 D7].
  pose proof (λ v Hv, elf_pages_range addr n v A1 A2 A4 Hv) as Hin.
  split; [done|]. split; [done|]. split; [done|].
  split; [intros x Hx; split; [apply (holds_used _ own); [apply Hm|by apply Hown]|by apply D6]|]. split; [done|].
  split; [intros p a Hp; apply VmaClaims.clear_range_covers; [lia|done|done]|]. split; [|split; [|done]].
  - intros v Hv. destruct (proj2 (Hin v ltac:(lia)) Hv) as (i & Hi & E). rewrite E. by apply W.
  - intros v Hv Hn. apply K. by rewrite Hin.
Qed.

(** Munmap looks at no count: a user page that another space still maps is
    freed all the same, and the other space keeps its mapping of the freed
    page; a space that shares the page table loses its mapping unasked. *)
Lemma munmap_ignores_sharing own cur m root r v pt e own1 ts :
  mem_ok own (tabs m) → space own (tabs m) root → tree (tabs m) r → (0 < cur)%nat → 0 ≤ v → v mod 4096 = 0 → v < 2 ^ 47 →
  descend (tabs m) root [vpn 39 v; vpn 30 v; vpn 21 v] = Some pt → entry (tabs m) pt (vpn 12 v) = e →
  present e = true → user e = true → own ≡ₚ addr_of e :: own1 → ¬ reach (tabs m) root (addr_of e) →
  range_in_use 1 v ts (vmas m) = false →
  ∃ m', sys_munmap cur root v 1 ts m = Done (0, m') ∧ holds (km (tabs m')) own1 ∧
    (descend (tabs m) r [vpn 39 v; vpn 30 v; vpn 21 v] = Some pt → walk (tabs m') r (path v) = None) ∧
    (∀ q, length q = 4%nat → ¬ reach (tabs m) r pt → maps (tabs m) r q (addr_of e) → maps (tabs m') r q (addr_of e)).
Proof.
  intros [Hh Hlow] Hsp Htr Hc H0 Ha Hv Hd He Hp Hu Hperm Hnr Huse. unfold sys_munmap.
  rewrite (proj2 (Nat.eqb_neq cur 0)) by lia. cbn [Z.eqb Pos.eqb]. destruct (one_page v H0 Ha Hv) as [Hf Hn].
  fold (first_page v). rewrite Hf. change (Z.ldiff (w64 (1 + 0xFFF)) 0xFFF) with 4096. rewrite w64_small by lia.
  assert (page_count v (v + 4096) = 1%nat) as -> by (unfold page_count; by replace (v + 4096 - v) with 4096 by lia).
  rewrite Huse. cbn [munmap_loop]. unfold munmap_page, get_pte_in. destruct (walk_pt_descend (tabs m) root v pt Hd) as (pd & pde & -> & ->).
  rewrite He, Hp. cbn [negb]. rewrite He, Hp, Hu. cbn [andb].
  destruct (free_gives (km (tabs m)) own1 (addr_of e)) as (k & Hfree & Hh' & _); [by eapply holds_perm|].
  unfold free_frame. rewrite Hfree. cbn [cbind]. eexists. split; [done|]. cbn [tabs set_vmas set_tabs]. split; [exact Hh'|]. split.
  - intros Hdr. set (s1 := set_km k (tabs m)). assert (descend s1 r [vpn 39 v; vpn 30 v; vpn 21 v] = Some pt) as Hd1 by (rewrite <- Hdr; by apply frames_walk).
    assert (tree s1 r) as Ht1.
    { split; [|apply Htr]. intros p q t Hp' Hq. rewrite !(proj1 (frames_walk (tabs m) s1 r _ eq_refl)). by apply Htr. }
    assert (descend (set_entry pt (vpn 12 v) 0 s1) r [vpn 39 v; vpn 30 v; vpn 21 v] = Some pt) as Hd2.
    { rewrite <- Hd1. apply (entry_frame s1 _ r [vpn 39 v; vpn 30 v; vpn 21 v] pt (vpn 12 v)); [done|done|cbn; lia| |cbn; lia|].
      - intros t i Hne _. rewrite entry_set, decide_False; [done|]. naive_solver.
      - intros Hpre%prefix_length. cbn in Hpre. lia. }
    apply walk_none_xlate. rewrite (leaf_xlate _ r v pt Hd2). by rewrite entry_set, decide_True.
  - intros q Hq Hnp (M1 & M2 & e' & M3 & M4). split; [done|]. split; [done|]. exists e'. split; [|done]. rewrite <- M3.
    set (s1 := set_km k (tabs m)). transitivity (walk s1 r q); [|by apply frames_walk].
    apply (unreached_frame s1 (set_entry pt (vpn 12 v) 0 s1) r pt); [by rewrite (reach_frames (tabs m))| |lia].
    intros t i Hne. rewrite entry_set, decide_False; [done|]. by intros [-> _].
Qed.

Lemma demo_unreached s x : s = demo 7 0 → x ∈ [0x104000] → ¬ reach s 0x100000 x.
Proof.
  intros -> ->%list_elem_of_singleton (q & Hq & Hd).
  destruct (demo_descend 7 0 ltac:(lia) q 0x104000 Hq Hd) as [[_ ?]|[[_ ?]|[[_ ?]|[_ ?]]]]; done.
Qed.

Lemma demo_small v : 0x5000 ≤ v < 0x6000 → small (demo 7 0) 0x100000 v.
Proof.
  intros Hv e rest. rewrite (path_same v 0x5000); [vm_compute; congruence|lia|lia|]. symmetry. apply (Z.div_unique v 4096 5 (v - 0x5000)); lia.
Qed.

Definition one : mm := mkMm (demo 7 0) [mkVmaRec 0x100000 (mkVma 0x5000 0x6000 7)] 0 0.

Lemma munmap_frees_witness : ∃ m' own', sys_munmap 1 0x100000 0x5000 1 [mkUtask 1 TRunning 0x7000 0x100000] one = Done (0, m') ∧
  d_own ≡ₚ [0x104000] ++ own' ∧ holds (km (tabs m')) own' ∧ walk (tabs m') 0x100000 (path 0x5008) = None ∧
  page_is_used (km (tabs one)) 0x104000 = true ∧ given_back (km (tabs m')) 0x104000 ∧ ¬ VmaClaims.mapped (vmas m') 0x100000 0x5008.
Proof.
  destruct (munmap_frees d_own 1 one 0x100000 0x5000 1 [mkUtask 1 TRunning 0x7000 0x100000] (demo_mem 7 0) (demo_space 7 0 ltac:(lia)) (le_n 1)
    ltac:(lia) eq_refl ltac:(lia) ltac:(lia)) as (m' & o & H1 & H2 & [H3 _] & _ & H5 & _ & H6 & H4 & _).
  - vm_compute. reflexivity.
  - intros v Hv. apply demo_small. exact Hv.
  - change (NoDup [0x104000]). apply NoDup_singleton.
  - change (∀ x, x ∈ [0x104000] → x ∈ d_own ∧ ¬ reach (demo 7 0) 0x100000 x). intros x Hx. split; [|by apply demo_unreached].
    apply list_elem_of_singleton in Hx as ->. apply list_elem_of_here.
  - intros r ->%list_elem_of_singleton _. vm_compute. reflexivity.
  - assert (user_pages (page_count 0x5000 (last_page 0x5000 1)) (tabs one) 0x100000 0x5000 = [0x104000]) as E by (vm_compute; reflexivity).
    rewrite E in H2, H5. specialize (H5 0x104000 (list_elem_of_here _ _)) as [H5 H5'].
    exists m', o. split; [exact H1|]. split; [exact H2|]. split; [exact H3|]. split; [rewrite H4; [vm_compute; reflexivity|vm_compute; split; congruence]|].
    split; [exact H5|]. split; [exact H5'|]. rewrite H6 by discriminate. intros (r & _ & _ & Hn). apply Hn.
    split; [done|]. left. vm_compute. split; congruence.
Defined.

Lemma munmap_ignores_sharing_witness : ∃ m', sys_munmap 1 0x100000 0x5000 1 [mkUtask 1 TRunning 0x7000 0x100000] forked = Done (0, m') ∧ 2 ≤ refc_get (tabs forked) 0x104000 ∧
  walk (tabs forked) 0x105000 (path 0x5000) ≠ None ∧ walk (tabs m') 0x105000 (path 0x5000) = None.
Proof.
  destruct (munmap_ignores_sharing (0x105000 :: d_own) 1 forked 0x100000 0x105000 0x5000 0x103000 (entry demo_fork 0x103000 5)
    [0x105000; 0x103000; 0x102000; 0x101000; 0x100000] [mkUtask 1 TRunning 0x7000 0x100000]) as (m' & H1 & _ & H2 & _).
  - apply (to_mem _ _ _ (fo_tabs _ _ _ _ _ _ demo_forked)).
  - apply (to_space _ _ _ (fo_tabs _ _ _ _ _ _ demo_forked)). apply list_elem_of_further, list_elem_of_here.
  - apply (to_space _ _ _ (fo_tabs _ _ _ _ _ _ demo_forked)), list_elem_of_here.
  - lia.
  - lia.
  - done.
  - lia.
  - vm_compute. reflexivity.
  - reflexivity.
  - vm_compute. reflexivity.
  - vm_compute. reflexivity.
  - apply Permutation_swap.
  - apply (do_table _ _ _ (fo_data _ _ _ _ _ _ demo_forked) 0x100000 0x100000 (path 0x5000)).
    + apply list_elem_of_further, list_elem_of_here.
    + apply list_elem_of_further, list_elem_of_here.
    + split; [done|]. split; [vm_compute; split; congruence|]. exists (entry demo_fork 0x103000 5). split_and!; [vm_compute; reflexivity..].
  - vm_compute. reflexivity.
  - exists m'. split; [exact H1|]. split; [vm_compute; congruence|]. split; [vm_compute; congruence|apply H2; vm_compute; reflexivity].
Defined.
