(* ===== verification/Exec.v ===== *)
(** * execve: [src/task.rs]

    The path and the arguments are read from the caller's memory, the image is
    built by [Elf], the first stack of the program is written, a thread block
    is mapped for dynamic programs and the old address space is given up.
    User memory is a map of bytes, the caller's and that of the new image; the
    file layer is what [Flat] gives by name and by slot. *)

From S2P Require Import Prelude Orders Bytes Buddy VfsTypes Vma Path Procfs Paging Elf Signal.
From stdpp Require Import base gmap numbers strings list.
Local Open Scope string_scope.
Local Open Scope Z_scope.

Definition ENOENT : Z := 2.
Definition EIO : Z := 5.
Definition ENOEXEC : Z := 8.
Definition ENAMETOOLONG : Z := 36.
Definition INTERP_BASE : Z := 0x10000000000.
Definition USER_TLS_VADDR : Z := 0x7FFFFFFFA000.
Definition MAX_ARGS : nat := 64.
Definition ARGV_BUF : nat := 4096.
Definition MAX_IMAGE : Z := 1024 * 1024 * 16.

(** ** The path *)

(** At most 255 bytes and the zero. *)
Fixpoint read_path (n : nat) (p : Z) (m : mem) : option (list Z) :=
  let c := getd 0 m p in
  if c =? 0 then Some []
  else match n with
       | O => None
       | S n' => (λ l, c :: l) <$> read_path n' (p + 1) m
       end.

(** ** The arguments *)

(** Bytes of the string at [ptr] into the buffer from [pos], up to its zero or
    the end of the buffer. *)
Fixpoint copy_arg (n : nat) (pos : nat) (ptr : Z) (m : mem) (buf : list Z) : nat * list Z :=
  match n with
  | O => (pos, buf)
  | S n' =>
      if (ARGV_BUF <=? pos)%nat then (pos, buf)
      else let c := getd 0 m ptr in
           if c =? 0 then (pos, buf) else copy_arg n' (S pos) (ptr + 1) m (<[pos := c]> buf)
  end.

(** The strings behind the pointers from [argv] on: where each starts in the
    buffer, and where the next would. *)
Fixpoint read_args (n : nat) (argv : Z) (m : mem) (pos : nat) (buf : list Z) : list nat * nat * list Z :=
  match n with
  | O => ([], pos, buf)
  | S n' =>
      let ptr := read_u64 argv m in
      if ptr =? 0 then ([], pos, buf)
      else
        let '(e, buf) := copy_arg (S ARGV_BUF) pos ptr m buf in
        let buf := <[e := 0]> buf in
        let '(offs, len, buf) := read_args n' (argv + 8) m (S e) buf in
        (pos :: offs, len, buf)
  end.

(** One string from the buffer to the stack; the index into the buffer is
    checked. *)
Fixpoint put_arg (n : nat) (off : nat) (buf : list Z) (p : Z) (m : mem) : comp (Z * mem) :=
  match n with
  | O => Spin
  | S n' =>
      match buf !! off with
      | None => Panic
      | Some c => if c =? 0 then Done (p + 1, mem_write p [0] m) else put_arg n' (S off) buf (p + 1) (mem_write p [c] m)
      end
  end.

(** All of them, from [p] up; the pointers. *)
Fixpoint put_args (offs : list nat) (buf : list Z) (p : Z) (m : mem) : comp (list Z * mem) :=
  match offs with
  | [] => Done ([], m)
  | off :: offs =>
      let! (q, m) := put_arg (S (length buf)) off buf p m in
      let! (ptrs, m) := put_args offs buf q m in
      Done (p :: ptrs, m)
  end.

(** ** The first stack *)

(** [aux!]: pairs pushed one below the other. *)
Fixpoint push_aux (l : list (Z * Z)) (sp : Z) (m : mem) : Z * mem :=
  match l with
  | [] => (sp, m)
  | (k, v) :: l => push_aux l (sp - 16) (write_u64 (sp - 8) v (write_u64 (sp - 16) k m))
  end.

Definition auxv (info : ElfLoadInfo) (random : Z) : list (Z * Z) :=
  [(0, 0); (16, 0); (26, 16); (25, random); (23, 0); (17, 100); (14, 0); (13, 0); (12, 0); (11, 0); (9, i_entry info); (8, 0)] ++
  match i_interp info with Some _ => [(7, INTERP_BASE)] | None => [] end ++
  [(6, 4096); (5, i_phnum info); (4, i_phentsize info); (3, i_phdr_user info); (27, USER_TLS_VADDR); (33, 0)].

Definition random_words (info : ElfLoadInfo) : Z * Z :=
  match i_interp info with
  | Some _ => (0x1111222233334444, 0x5555666677778888)
  | None => (0xdeadbeefcafebabe, 0x123456789abcdef0)
  end.

Fixpoint put_words (ws : list Z) (p : Z) (m : mem) : mem :=
  match ws with [] => m | w :: ws => put_words ws (p + 8) (write_u64 p w m) end.

(** From the pointers of the arguments down to the count; the stack pointer. *)
Definition build_stack (info : ElfLoadInfo) (ptrs : list Z) (sp : Z) (m : mem) : Z * mem :=
  let sp := sp - 16 in
  let random := sp in
  let m := write_u64 (sp + 8) (random_words info).2 (write_u64 sp (random_words info).1 m) in
  let '(sp, m) := push_aux (auxv info random) sp m in
  let sp := sp - 8 in
  let m := write_u64 sp 0 m in
  let sp := sp - 8 * (Z.of_nat (length ptrs) + 1) in
  let m := put_words (ptrs ++ [0]) sp m in
  let sp := sp - 8 in
  (sp, write_u64 sp (Z.of_nat (length ptrs)) m).

(** [total_aligned] *)
Definition round8 (n : Z) : Z := Z.ldiff (n + 7) 7.

(** Reading the arguments of the caller and laying out the stack of the new
    image from [top] down. *)
Definition exec_stack (info : ElfLoadInfo) (argv top : Z) (old new : mem) : comp (Z * mem) :=
  let '(offs, len, buf) := if argv =? 0 then ([], 0%nat, replicate ARGV_BUF 0) else read_args MAX_ARGS argv old 0 (replicate ARGV_BUF 0) in
  let sp := if (0 <? length offs)%nat then top - round8 (Z.of_nat len) else top in
  let! (ptrs, new) := put_args offs buf sp new in
  Done (build_stack info ptrs sp new).

(** ** The staging buffer *)

(** The order of the block an image of [size] bytes is read into. *)
Definition stage_order (size : Z) : nat := order_loop 11 0 (((size + 0xFFF) / 0x1000) * 4096).

Definition alloc_order (o : nat) (s : pmem) : option Z * pmem := let '(r, k) := alloc o (km s) in (r, set_km k s).
Definition free_order (p : Z) (o : nat) (s : pmem) : comp pmem := let! k := free 0 p o (km s) in Done (set_km k s).

(** ** The task and the file layer *)

Record etask := mkEtask {
  e_rip : Z; e_rsp : Z; e_fs_base : Z; e_pml4 : Z; e_user_stack : Z; e_brk_start : Z; e_brk_end : Z; e_private : bool; e_privileges : Z;
}.

Record ex := mkEx { x_tabs : pmem; x_vmas : pool; x_task : etask; x_mem : mem }.
Definition set_xtabs (t : pmem) (x : ex) : ex := mkEx t (x_vmas x) (x_task x) (x_mem x).

(** [find_inode], [readlink] of the slot's vnode, [inode_size] and
    [inode_read] of the whole file. *)
Record files := mkFiles { f_find : list Z → option nat; f_link : nat → option (list Z); f_size : nat → option Z; f_read : nat → option (list Z) }.

(** A call that ends with an error, or the start of the new image. *)
Inductive eres := Failed (e : Z) | Started.

(** ** Privileges by name *)

Definition PRIV_PHYS_MAP : Z := 1.
Definition PRIV_DMA_ALLOC : Z := 2.
Definition PRIV_PCI : Z := 4.
Definition PRIV_PORT : Z := 8.
Definition PRIV_IRQ : Z := 16.
Definition PRIV_REBOOT : Z := 32.
Definition PRIV_ALL_DRIVER : Z := foldr Z.lor 0 [PRIV_PHYS_MAP; PRIV_DMA_ALLOC; PRIV_PCI; PRIV_PORT; PRIV_IRQ].
Definition PRIV_ALL : Z := Z.lor PRIV_ALL_DRIVER PRIV_REBOOT.

Definition privileges_for_path (path : list Z) : Z :=
  if bool_decide (path = bytes_of "/bin/runit") || bool_decide (path = bytes_of "/bin/init") then PRIV_ALL
  else if bool_decide (path = bytes_of "/bin/udev") then PRIV_ALL_DRIVER
  else if bool_decide (path = bytes_of "/bin/netd") then PRIV_ALL_DRIVER
  else if bool_decide (path = bytes_of "/etc/service/netd/run") then PRIV_ALL_DRIVER
  else 0.

(** By the path normalised against the current directory. *)
Definition exec_privileges (cwd path : list Z) : Z :=
  match normalize_path cwd path (replicate 256 0) with
  | Some (c :: n) => privileges_for_path (c :: n)
  | _ => privileges_for_path path
  end.

(** ** The thread block *)

Definition TLS_FLAGS : Z := Z.lor PTE_PRESENT (Z.lor PTE_WRITABLE (Z.lor PTE_USER PTE_NO_EXECUTE)).

(** The words of the block: itself, the thread's number twice, the place of
    errno, the guard, itself again; zeros elsewhere. *)
Definition tcb (tid ticks : Z) : frame :=
  <[5 := USER_TLS_VADDR]> (<[4 := Z.lxor ticks tid]> (<[3 := USER_TLS_VADDR + 0x100]>
    (<[2 := Z.lor (Z.land tid 0xFFFFFFFF) (Z.shiftl (Z.land tid 0xFFFFFFFF) 32)]> (<[1 := USER_TLS_VADDR]> ∅)))).

(** A block at [USER_TLS_VADDR], or nothing when memory runs out. *)
Definition map_tls (pml4 tid ticks : Z) (s : pmem) : option Z * pmem :=
  match alloc_raw s with
  | (None, s) => (None, s)
  | (Some phys, s) =>
      match map_into pml4 USER_TLS_VADDR phys TLS_FLAGS (zero_frame phys s) with
      | (Err _, s) => (None, s)
      | (Ok _, s) => (Some phys, set_page phys (tcb tid ticks) s)
      end
  end.

(** ** [sys_execve] *)

(** The task takes the new image; the old address space is freed unless it is
    shared, which is asked after the task was marked as owner. *)
Definition exec_commit (info : ElfLoadInfo) (rip rsp fs : Z) (priv : Z) (mem : mem) (x : ex) : comp ex :=
  let old := e_pml4 (x_task x) in
  let task := mkEtask rip rsp fs (i_pml4 info) (i_stack_top info) (i_brk_base info) (i_brk_base info) true priv in
  if negb (old =? 0) && negb (old =? i_pml4 info) && e_private task then
    let! s := free_address_space old false (x_tabs x) in
    Done (mkEx s (vma_clear_pml4 old (x_vmas x)) task mem)
  else Done (mkEx (x_tabs x) (x_vmas x) task mem).

(** The registers alone, set before the thread block is tried. *)
Definition with_regs (rip rsp : Z) (t : etask) : etask :=
  mkEtask rip rsp 0 (e_pml4 t) (e_user_stack t) (e_brk_start t) (e_brk_end t) (e_private t) (e_privileges t).

Section exec.
(** What lies behind the staging buffers, where the page-type table is, the
    clock, the current directory, the new image's memory as loaded. *)
Context (beyond : Z → Z) (band_lo band_hi ticks : Z) (cwd : list Z) (fs : files) (image : mem).

(** The call fails and gives back buffers, in this order. *)
Fixpoint free_all (bufs : list (Z * nat)) (s : pmem) : comp pmem :=
  match bufs with [] => Done s | (p, o) :: bufs => let! s := free_order p o s in free_all bufs s end.
Definition fail_free (e : Z) (bufs : list (Z * nat)) (x : ex) : comp (eres * ex) :=
  let! s := free_all bufs (x_tabs x) in Done (Failed e, set_xtabs s x).

(** Reading a file into a block of its order: the block and its bytes, or the
    error with the block still to be given back. *)
Definition stage (i : nat) (size : Z) (s : pmem) : (Z * list (Z * nat) + Z * nat * list Z) * pmem :=
  let o := stage_order size in
  match alloc_order o s with
  | (None, s) => (inl (ENOMEM, []), s)
  | (Some p, s) =>
      match f_read fs i with
      | Some data => (if Z.of_nat (length data) =? size then inr (p, o, data) else inl (EIO, [(p, o)]), s)
      | None => (inl (EIO, [(p, o)]), s)
      end
  end.

(** The interpreter goes into the address space of the program. *)
Definition load_interp (path : list Z) (pml4 : Z) (s : pmem) : comp ((Z * list (Z * nat) + ElfLoadInfo) * pmem) :=
  match f_find fs path with
  | None => Done (inl (ENOENT, []), s)
  | Some i =>
      match f_size fs i with
      | None => Done (inl (EIO, []), s)
      | Some size =>
          if MAX_IMAGE <? size then Done (inl (EINVAL, []), s)
          else
            match stage i size s with
            | (inl e, s) => Done (inl e, s)
            | (inr (p, o, data), s) =>
                let! (r, s) := load_elf_at data beyond band_lo band_hi INTERP_BASE (Some pml4) s in
                match r with
                | Ok ii => let! s := free_order p o s in Done (inr ii, s)
                | Err _ => Done (inl (ENOEXEC, [(p, o)]), s)
                end
            end
      end
  end.

(** From the loaded program to its first instruction; [p] and [o] are the
    staging buffer, given back on every way out. *)
Definition exec_start (cur : nat) (path : list Z) (argv : Z) (old : mem) (p : Z) (o : nat) (info : ElfLoadInfo) (x : ex) : comp (eres * ex) :=
  let! (r, s) := match i_interp info with
                 | None => Done (inr (i_entry info), x_tabs x)
                 | Some ipath =>
                     let! (r, s) := load_interp ipath (i_pml4 info) (x_tabs x) in
                     Done (match r with inl e => inl e | inr ii => inr (i_entry ii) end, s)
                 end in
  let x := set_xtabs s x in
  match r with
  | inl (e, bufs) => fail_free e ((p, o) :: bufs) x
  | inr rip =>
      let! (rsp, new) := exec_stack info argv (i_stack_top info) old image in
      let x := mkEx (x_tabs x) (x_vmas x) (with_regs rip rsp (x_task x)) (x_mem x) in
      let '(tls, s) := match i_interp info with
                       | None => (Some 0, x_tabs x)
                       | Some _ => map_tls (i_pml4 info) (Z.of_nat cur) ticks (x_tabs x)
                       end in
      let x := set_xtabs s x in
      match tls with
      | None =>
          fail_free ENOMEM [(e_pml4 (x_task x), 0%nat); (p, o)] x
      | Some _ =>
          let fsb := match i_interp info with None => 0 | Some _ => USER_TLS_VADDR end in
          let! x := exec_commit info rip rsp fsb (exec_privileges cwd path) new x in
          let! s := free_order p o (x_tabs x) in
          Done (Started, set_xtabs s x)
      end
  end.

(** The slot of the program: the target of a symbolic link instead of the
    link. *)
Definition exec_file (path : list Z) : option nat :=
  match f_find fs path with
  | None => None
  | Some i => match f_link fs i with Some target => f_find fs target | None => Some i end
  end.

Definition sys_execve (cur : nat) (pathname argv : Z) (m : mem) (x : ex) : comp (eres * ex) :=
  if (cur =? 0)%nat then Done (Failed EINVAL, x)
  else if pathname =? 0 then Done (Failed EFAULT, x)
  else
    match read_path 255 pathname m with
    | None => Done (Failed ENAMETOOLONG, x)
    | Some path =>
        match exec_file path with
        | None => Done (Failed ENOENT, x)
        | Some i =>
            match f_size fs i with
            | None => Done (Failed EIO, x)
            | Some size =>
                if (size <? 64) || (MAX_IMAGE <? size) then Done (Failed EINVAL, x)
                else
                  match stage i size (x_tabs x) with
                  | (inl (e, bufs), s) => fail_free e bufs (set_xtabs s x)
                  | (inr (p, o, data), s) =>
                      let! (r, s) := load_elf data beyond band_lo band_hi s in
                      match r with
                      | Err _ => fail_free ENOEXEC [(p, o)] (set_xtabs s x)
                      | Ok info => exec_start cur path argv m p o info (set_xtabs s x)
                      end
                  end
            end
        end
    end.
End exec.
