(* ===== verification/ExecClaims.v ===== *)
(** * The theorems about execve *)

From S2P Require Import Prelude Orders Bytes Buddy BuddyInv BuddySpec BuddyOps BuddyPages VfsTypes Vma Path Procfs Paging PagingWalk PagingMap PagingDemo Elf ElfMap Signal Exec.
From Stdlib Require Import Lia ZArith.
From stdpp Require Import base gmap numbers strings list.
Local Open Scope Z_scope.

(** ** Strings in buffers and in memory *)

(** The bytes [a] stand in the buffer at [pos]. *)
Definition at_buf (buf : list Z) (pos : nat) (a : list Z) : Prop := ∀ k c, a !! k = Some c → buf !! (pos + k)%nat = Some c.
(** A string of non-zero bytes. *)
Definition plain (a : list Z) : Prop := Forall (λ c, 0 < c < 256) a.
(** The string [a] and its zero at [p]. *)
Definition cstr (m : mem) (p : Z) (a : list Z) : Prop := ∀ k c, (a ++ [0]) !! k = Some c → getd 0 m (p + Z.of_nat k) = c.

Lemma cstr_cons m p c a : cstr m p (c :: a) ↔ getd 0 m p = c ∧ cstr m (p + 1) a.
Proof.
  split.
  - intros H. split; [rewrite <- (H 0%nat c eq_refl); f_equal; lia|]. intros k d Hk. rewrite <- (H (S k) d Hk). f_equal. lia.
  - intros [H1 H2] [|k] d Hk; [injection Hk as <-; rewrite <- H1; f_equal; lia|]. rewrite <- (H2 k d Hk). f_equal. lia.
Qed.

Lemma copy_arg_spec a : plain a → ∀ n pos ptr m buf, length buf = ARGV_BUF → (length a < n)%nat → (pos + length a < ARGV_BUF)%nat → cstr m ptr a →
  ∃ buf', copy_arg n pos ptr m buf = ((pos + length a)%nat, buf') ∧ length buf' = ARGV_BUF ∧ at_buf buf' pos a ∧
    ∀ j, ((j < pos) ∨ (pos + length a ≤ j))%nat → buf' !! j = buf !! j.
Proof.
  induction 1 as [|c a Hc Ha IH]; intros n pos ptr m buf Hb Hn Hr Hs; (destruct n as [|n]; [cbn in Hn; lia|]); cbn [copy_arg length] in *.
  - rewrite (proj2 (Nat.leb_gt ARGV_BUF pos)) by lia. pose proof (Hs 0%nat 0 eq_refl) as H0. rewrite Z.add_0_r in H0. rewrite H0. cbn [Z.eqb].
    exists buf. rewrite Nat.add_0_r. split_and!; [done|done|by intros k c Hk|done].
  - rewrite (proj2 (Nat.leb_gt ARGV_BUF pos)) by lia. apply cstr_cons in Hs as [Hc0 Hs]. rewrite Hc0, (proj2 (Z.eqb_neq c 0)) by lia.
    destruct (IH n (S pos) (ptr + 1) m (<[pos:=c]> buf)) as (b & -> & Hl & Hat & Hrest); [by rewrite length_insert|lia|lia|done|].
    exists b. split; [by rewrite Nat.add_succ_r|]. split; [done|]. split.
    + intros [|k] d Hk; [injection Hk as <-; rewrite Nat.add_0_r, Hrest by lia; apply list_lookup_insert_eq; lia|].
      rewrite Nat.add_succ_r. by apply (Hat k).
    + intros j Hj. rewrite Hrest by lia. apply list_lookup_insert_ne. lia.
Qed.

(** Where the strings start in the buffer, and where the next would. *)
Fixpoint starts (pos : nat) (args : list (list Z)) : list nat :=
  match args with [] => [] | a :: args => pos :: starts (S (pos + length a)) args end.
Fixpoint total (args : list (list Z)) : nat := match args with [] => O | a :: args => (S (length a) + total args)%nat end.

(** The caller's array of arguments: pointers from [argv] on. *)
Fixpoint argv_at (m : mem) (argv : Z) (ptrs : list Z) (args : list (list Z)) : Prop :=
  match ptrs, args with
  | [], [] => read_u64 argv m = 0
  | p :: ptrs, a :: args => read_u64 argv m = p ∧ p ≠ 0 ∧ cstr m p a ∧ argv_at m (argv + 8) ptrs args
  | _, _ => False
  end.

Lemma at_buf_app buf pos a b : at_buf buf pos (a ++ b) ↔ at_buf buf pos a ∧ at_buf buf (pos + length a) b.
Proof.
  split.
  - intros H. split; intros k c Hk; [apply H; by apply lookup_app_l_Some|].
    rewrite <- Nat.add_assoc. apply H. rewrite lookup_app_r by lia. by replace (length a + k - length a)%nat with k by lia.
  - intros [H1 H2] k c [Hk|[Hl Hk]]%lookup_app_Some; [by apply H1|]. rewrite <- (H2 _ _ Hk). f_equal. lia.
Qed.

Lemma read_args_spec args : Forall plain args → ∀ n argv m ptrs pos buf,
  length buf = ARGV_BUF → (length args < n)%nat → (pos + total args ≤ ARGV_BUF)%nat → argv_at m argv ptrs args →
  ∃ buf', read_args n argv m pos buf = (starts pos args, (pos + total args)%nat, buf') ∧ length buf' = ARGV_BUF ∧
    (∀ i o a, starts pos args !! i = Some o → args !! i = Some a → at_buf buf' o (a ++ [0])) ∧
    ∀ j, (j < pos)%nat → buf' !! j = buf !! j.
Proof.
  induction 1 as [|a args Ha Hargs IH]; intros n argv m ptrs pos buf Hb Hn Hr Hp; (destruct n as [|n]; [cbn in Hn; lia|]);
    cbn [total length starts] in *.
  - destruct ptrs; [|done]. cbn [argv_at read_args] in *. rewrite Hp. cbn [Z.eqb]. exists buf. rewrite Nat.add_0_r. by split_and!.
  - destruct ptrs as [|p ptrs]; [done|]. destruct Hp as (Hp1 & Hp2 & Hp3 & Hp4). cbn [read_args]. rewrite Hp1, (proj2 (Z.eqb_neq p 0)) by done.
    destruct (copy_arg_spec a Ha (S ARGV_BUF) pos p m buf Hb) as (b & Hcopy & Hl & Hat & Hrest); [lia|lia|done|].
    cbv zeta. rewrite Hcopy. set (b0 := <[(pos + length a)%nat:=0]> b).
    destruct (IH n (argv + 8) m ptrs (S (pos + length a)) b0) as (b' & Hrd & Hl' & Hat' & Hrest'); [unfold b0; by rewrite length_insert|lia|lia|done|].
    rewrite Hrd. exists b'. split; [by replace (pos + (S (length a) + total args))%nat with (S (pos + length a) + total args)%nat by lia|]. split; [done|]. split.
    + intros [|i] o x Ho Hx; [|by apply (Hat' i)]. injection Ho as <-. injection Hx as <-. apply at_buf_app. split.
      * intros k c Hk. pose proof (lookup_lt_Some _ _ _ Hk). rewrite Hrest' by lia. unfold b0. rewrite list_lookup_insert_ne by lia. by apply Hat.
      * intros [|k] c Hk; [|by destruct k]. injection Hk as <-. rewrite Nat.add_0_r, Hrest' by lia. apply list_lookup_insert_eq. lia.
    + intros j Hj. rewrite Hrest' by lia. unfold b0. rewrite list_lookup_insert_ne by lia. apply Hrest. lia.
Qed.

(** ** Strings on the stack *)

Definition blob (args : list (list Z)) : list Z := concat ((λ a, a ++ [0]) <$> args).

(** Where the strings are, from [p] on. *)
Fixpoint addrs (p : Z) (args : list (list Z)) : list Z :=
  match args with [] => [] | a :: args => p :: addrs (p + Z.of_nat (length a) + 1) args end.

Lemma mem_write_app p a b m : mem_write p (a ++ b) m = mem_write (p + Z.of_nat (length a)) b (mem_write p a m).
Proof.
  revert p m; induction a as [|c a IH]; intros p m; cbn [app mem_write length]; [by rewrite Z.add_0_r|].
  rewrite IH. f_equal. lia.
Qed.

Lemma put_arg_spec a : plain a → ∀ n off buf p m, (length a < n)%nat → at_buf buf off (a ++ [0]) →
  put_arg n off buf p m = Done (p + Z.of_nat (length a) + 1, mem_write p (a ++ [0]) m).
Proof.
  induction 1 as [|c a Hc Ha IH]; intros n off buf p m Hn Hat; (destruct n as [|n]; [cbn in Hn; lia|]); cbn [put_arg length app] in *.
  - pose proof (Hat 0%nat 0 eq_refl) as H0. rewrite Nat.add_0_r in H0. rewrite H0. cbn [Z.eqb]. do 2 f_equal. lia.
  - pose proof (Hat 0%nat c eq_refl) as H0. rewrite Nat.add_0_r in H0. rewrite H0, (proj2 (Z.eqb_neq c 0)) by lia.
    rewrite IH; [do 2 f_equal; lia|lia|]. intros k d Hk. rewrite Nat.add_succ_l, <- Nat.add_succ_r. by apply (Hat (S k)).
Qed.

Lemma put_args_spec args : Forall plain args → ∀ pos buf p m, length buf = ARGV_BUF → (pos + total args ≤ ARGV_BUF)%nat →
  (∀ i o a, starts pos args !! i = Some o → args !! i = Some a → at_buf buf o (a ++ [0])) →
  put_args (starts pos args) buf p m = Done (addrs p args, mem_write p (blob args) m).
Proof.
  induction 1 as [|a args Ha Hargs IH]; intros pos buf p m Hb Hr Hat; cbn [starts put_args addrs total] in *; [done|].
  rewrite (put_arg_spec a Ha) by (lia || by apply (Hat 0%nat)). cbn [cbind].
  rewrite IH by (lia || intros i o x; apply (Hat (S i))). cbn [cbind]. unfold blob. cbn [fmap list_fmap concat]. rewrite (mem_write_app p (a ++ [0])).
  rewrite length_app. cbn [length]. do 3 f_equal. lia.
Qed.

Lemma blob_length args : length (blob args) = total args.
Proof. induction args as [|a args IH]; [done|]. unfold blob in *. cbn [fmap list_fmap concat total]. rewrite !length_app, IH. cbn. lia. Qed.

(** Each string is found at its address. *)
Lemma blob_cstr args : ∀ p m m', (∀ x, p ≤ x < p + Z.of_nat (total args) → getd 0 m' x = getd 0 (mem_write p (blob args) m) x) →
  ∀ i q a, addrs p args !! i = Some q → args !! i = Some a → cstr m' q a.
Proof.
  induction args as [|b args IH]; intros p m m' Hm i q a Hq Ha; [done|]. unfold blob in Hm. cbn [fmap list_fmap concat total addrs] in *. fold (blob args) in Hm.
  rewrite mem_write_app, length_app in Hm. cbn [length] in Hm. replace (p + Z.of_nat (length b + 1)) with (p + Z.of_nat (length b) + 1) in Hm by lia.
  destruct i as [|i]; [|eapply (IH _ (mem_write p (b ++ [0]) m)); [|exact Hq|exact Ha]; intros x Hx; apply Hm; lia].
  injection Hq as <-. injection Ha as <-. intros k c Hk. pose proof (lookup_lt_Some _ _ _ Hk) as Hl. rewrite length_app in Hl. cbn in Hl.
  rewrite Hm by lia. rewrite mem_write_get, decide_False by lia. rewrite mem_write_get, decide_True by (rewrite length_app; cbn; lia).
  replace (Z.to_nat (p + Z.of_nat k - p)) with k by lia. by apply list_lookup_total_correct.
Qed.

Lemma addrs_length p args : length (addrs p args) = length args.
Proof. revert p; induction args as [|a args IH]; intros p; [done|]. cbn. by rewrite IH. Qed.

Lemma addrs_range p args i q : addrs p args !! i = Some q → p ≤ q < p + Z.of_nat (total args).
Proof.
  revert p i; induction args as [|a args IH]; intros p [|i]; cbn [addrs total]; [done|done|intros [= <-]; lia|]. intros Hq%IH. lia.
Qed.

(** ** Words on the stack *)

Lemma push_aux_spec l : ∀ sp m, Forall (λ kv, is_word kv.1 ∧ is_word kv.2) l →
  let '(sp', m') := push_aux l sp m in
  sp' = sp - 16 * Z.of_nat (length l) ∧
  (∀ j k v, l !! j = Some (k, v) → read_u64 (sp - 16 * (Z.of_nat j + 1)) m' = k ∧ read_u64 (sp - 16 * (Z.of_nat j + 1) + 8) m' = v) ∧
  (∀ x, ¬ (sp' ≤ x < sp) → getd 0 m' x = getd 0 m x).
Proof.
  induction l as [|[k v] l IH]; intros sp m Hw; cbn [push_aux]; [split_and!; [cbn; lia|done|done]|].
  apply Forall_cons in Hw as [[Hk Hv] Hw]. set (m1 := write_u64 (sp - 8) v (write_u64 (sp - 16) k m)).
  specialize (IH (sp - 16) m1 Hw). destruct (push_aux l (sp - 16) m1) as [sp' m'] eqn:E. destruct IH as (IH1 & IH2 & IH3).
  cbn [length]. split; [lia|]. split.
  - intros [|j] k' v' Hj.
    + injection Hj as <- <-. replace (sp - 16 * (Z.of_nat 0 + 1)) with (sp - 16) by lia.
      rewrite !(read_u64_ext _ m1 m') by (intros x Hx; apply IH3; lia). unfold m1. split.
      * rewrite read_write_other by lia. by apply read_write_same.
      * replace (sp - 16 + 8) with (sp - 8) by lia. by apply read_write_same.
    + replace (sp - 16 * (Z.of_nat (S j) + 1)) with (sp - 16 - 16 * (Z.of_nat j + 1)) by lia. by apply IH2.
  - intros x Hx. rewrite IH3 by lia. unfold m1. rewrite !write_u64_get by lia. done.
Qed.

Lemma put_words_spec ws : ∀ p m, Forall is_word ws →
  (∀ j w, ws !! j = Some w → read_u64 (p + 8 * Z.of_nat j) (put_words ws p m) = w) ∧
  (∀ x, ¬ (p ≤ x < p + 8 * Z.of_nat (length ws)) → getd 0 (put_words ws p m) x = getd 0 m x).
Proof.
  induction ws as [|w ws IH]; intros p m Hw; cbn [put_words length]; [done|]. apply Forall_cons in Hw as [Hw Hws].
  destruct (IH (p + 8) (write_u64 p w m) Hws) as [IH1 IH2]. split.
  - intros [|j] v Hj.
    + injection Hj as <-. replace (p + 8 * Z.of_nat 0) with p by lia.
      rewrite (read_u64_ext _ (write_u64 p w m)) by (intros x Hx; apply IH2; lia). by apply read_write_same.
    + rewrite <- (IH1 j v Hj). f_equal. lia.
  - intros x Hx. rewrite IH2 by lia. by apply write_u64_get; lia.
Qed.

(** The fields of an image that the stack carries. *)
Definition info_ok (info : ElfLoadInfo) : Prop :=
  Forall is_word [i_entry info; i_phnum info; i_phentsize info; i_phdr_user info].

Lemma auxv_words info random : info_ok info → is_word random → Forall (λ kv, is_word kv.1 ∧ is_word kv.2) (auxv info random).
Proof.
  intros Hi Hr. unfold info_ok in Hi. rewrite !Forall_cons in Hi. destruct Hi as (H1 & H2 & H3 & H4 & _). unfold auxv.
  destruct (i_interp info); cbn [app]; repeat (apply Forall_cons; split); cbn [fst snd]; try apply Forall_nil; try done;
    (split; [|try done]); unfold is_word; try (cbv; intuition congruence).
Qed.

Lemma build_stack_spec info ptrs top m : info_ok info → Forall is_word ptrs → (length ptrs ≤ 64)%nat → 0 ≤ top - 16 → top < 2 ^ 64 →
  let n := Z.of_nat (length ptrs) in let l := auxv info (top - 16) in
  let '(sp, m') := build_stack info ptrs top m in
  sp = top - 32 - 16 * Z.of_nat (length l) - 8 * (n + 1) ∧
  read_u64 sp m' = n ∧
  (∀ i p, ptrs !! i = Some p → read_u64 (sp + 8 + 8 * Z.of_nat i) m' = p) ∧
  read_u64 (sp + 8 + 8 * n) m' = 0 ∧ read_u64 (sp + 16 + 8 * n) m' = 0 ∧
  (∀ j k v, reverse l !! j = Some (k, v) → read_u64 (sp + 24 + 8 * n + 16 * Z.of_nat j) m' = k ∧ read_u64 (sp + 32 + 8 * n + 16 * Z.of_nat j) m' = v) ∧
  (read_u64 (top - 16) m', read_u64 (top - 8) m') = random_words info ∧
  (∀ x, ¬ (sp ≤ x < top) → getd 0 m' x = getd 0 m x).
Proof.
  intros Hi Hp Hn64 Ht Htw n l. unfold build_stack. fold l. replace (top - 16 + 8) with (top - 8) by lia.
  assert (is_word (random_words info).1 ∧ is_word (random_words info).2) as [Hr1 Hr2].
  { unfold random_words, is_word. destruct (i_interp info); cbn; lia. }
  set (m1 := write_u64 (top - 8) _ _).
  pose proof (push_aux_spec l (top - 16) m1 (auxv_words info (top - 16) Hi ltac:(unfold is_word; lia))) as H.
  destruct (push_aux l (top - 16) m1) as [sp1 m2]. destruct H as (E1 & A2 & A3). fold n.
  set (m3 := write_u64 (sp1 - 8) 0 m2). set (q := sp1 - 8 - 8 * (n + 1)).
  destruct (put_words_spec (ptrs ++ [0]) q m3) as [P1 P2]; [apply Forall_app; split; [done|apply Forall_singleton; unfold is_word; lia]|].
  rewrite length_app in P2. cbn [length] in P2. set (m4 := put_words (ptrs ++ [0]) q m3) in *. set (m5 := write_u64 (q - 8) n m4).
  assert (∀ x, ¬ (q - 8 ≤ x < sp1) → getd 0 m5 x = getd 0 m2 x) as M5.
  { intros x Hx. unfold m5. rewrite write_u64_get by lia. rewrite P2 by lia. unfold m3. by apply write_u64_get; lia. }
  assert (∀ j w, (ptrs ++ [0]) !! j = Some w → read_u64 (q + 8 * Z.of_nat j) m5 = w) as P5.
  { intros j w Hj. rewrite <- (P1 j w Hj). apply read_u64_ext. intros x Hx. unfold m5. by apply write_u64_get; lia. }
  replace (q - 8 + 8) with q by lia. replace (q - 8 + 16 + 8 * n) with (sp1 - 8) by lia. split; [lia|]. split_and!.
  - unfold m5. apply read_write_same. unfold is_word. lia.
  - intros i p Hip. apply P5. by apply lookup_app_l_Some.
  - apply (P5 (length ptrs)). rewrite lookup_app_r by lia. by rewrite Nat.sub_diag.
  - unfold m5. rewrite (read_u64_ext _ m3); [by apply read_write_same; unfold is_word; lia|].
    intros x Hx. rewrite write_u64_get by lia. apply P2. lia.
  - intros j k v Hj. apply reverse_lookup_Some in Hj as [Hj Hl]. destruct (A2 _ k v Hj) as [R1 R2].
    replace (q - 8 + 24 + 8 * n + 16 * Z.of_nat j) with (top - 16 - 16 * (Z.of_nat (length l - S j) + 1)) by lia.
    replace (q - 8 + 32 + 8 * n + 16 * Z.of_nat j) with (top - 16 - 16 * (Z.of_nat (length l - S j) + 1) + 8) by lia.
    rewrite <- R1, <- R2. split; apply read_u64_ext; intros x Hx; apply M5; lia.
  - rewrite !(read_u64_ext _ m1 m5) by (intros x Hx; rewrite M5 by lia; apply A3; lia). unfold m1.
    rewrite read_write_other by lia. rewrite !read_write_same by done. by destruct (random_words info).
  - intros x Hx. rewrite M5 by lia. rewrite A3 by lia. unfold m1. by rewrite !write_u64_get by lia.
Qed.

Lemma round8_bound n : 0 ≤ n → n ≤ round8 n ≤ n + 7.
Proof.
  intros Hn. unfold round8. change 7 with (Z.ones 3) at 2 4. rewrite Z.ldiff_ones_r, Z.shiftl_mul_pow2, Z.shiftr_div_pow2 by lia.
  change (2 ^ 3) with 8. pose proof (Z.div_mod (n + 7) 8 ltac:(lia)). pose proof (Z.mod_pos_bound (n + 7) 8 ltac:(lia)). lia.
Qed.

(** C26: A program started with fewer than 64 arguments, of at most 4096 bytes
    with their zeros, finds on its stack what the ABI promises: the count, a
    pointer to each argument, whose bytes are the caller's, a null pointer,
    the empty environment, and the auxiliary vector in the order the loader
    reads it, ended by AT_NULL; nothing outside the stack is written. *)
Lemma exec_stack_decodes info argv ptrs args top old new :
  info_ok info → argv ≠ 0 → Forall plain args → (length args < 64)%nat → (total args ≤ ARGV_BUF)%nat → argv_at old argv ptrs args →
  8192 ≤ top → top < 2 ^ 64 →
  ∃ sp m, exec_stack info argv top old new = Done (sp, m) ∧
    let n := Z.of_nat (length args) in
    read_u64 sp m = n ∧
    (∀ i a, args !! i = Some a → cstr m (read_u64 (sp + 8 + 8 * Z.of_nat i) m) a) ∧
    read_u64 (sp + 8 + 8 * n) m = 0 ∧ read_u64 (sp + 16 + 8 * n) m = 0 ∧
    (∃ random, ∀ j k v, reverse (auxv info random) !! j = Some (k, v) →
       read_u64 (sp + 24 + 8 * n + 16 * Z.of_nat j) m = k ∧ read_u64 (sp + 32 + 8 * n + 16 * Z.of_nat j) m = v) ∧
    (∀ x, ¬ (sp ≤ x < top) → getd 0 m x = getd 0 new x).
Proof.
  intros Hi Hargv Hargs Hlen Htot Hat Ht1 Ht2. unfold exec_stack. rewrite (proj2 (Z.eqb_neq argv 0)) by done.
  destruct (read_args_spec args Hargs MAX_ARGS argv old ptrs 0 (replicate ARGV_BUF 0)) as (buf & -> & Hl & Hbuf & _);
    [apply length_replicate|done|done|done|]. cbn [Nat.add].
  set (p := if (0 <? length (starts 0 args))%nat then top - round8 (Z.of_nat (total args)) else top).
  pose proof (round8_bound (Z.of_nat (total args)) ltac:(lia)) as Hr8.
  assert (Z.of_nat (total args) ≤ 4096) as Htz by (change 4096 with (Z.of_nat ARGV_BUF); lia).
  assert (top - Z.of_nat (total args) - 7 ≤ p ∧ p + Z.of_nat (total args) ≤ top) as [Hp1 Hp2].
  { unfold p. destruct args; cbn [starts length Nat.ltb Nat.leb]; [cbn [total] in *|]; lia. }
  clearbody p. rewrite (put_args_spec args Hargs 0 buf p new Hl Htot Hbuf). cbn [cbind].
  assert (Forall is_word (addrs p args)) as Hw.
  { apply Forall_lookup. intros i q Hq%addrs_range. unfold is_word. lia. }
  pose proof (build_stack_spec info (addrs p args) p (mem_write p (blob args) new) Hi Hw) as H. rewrite addrs_length in H.
  specialize (H ltac:(lia) ltac:(lia) ltac:(lia)). destruct (build_stack info (addrs p args) p (mem_write p (blob args) new)) as [sp m].
  destruct H as (E & H1 & H2 & H3 & H4 & H5 & _ & H7). exists sp, m. split; [done|]. cbv zeta. split_and!; [done| |done|done|by exists (p - 16)|].
  - intros i a Ha. destruct (lookup_lt_is_Some_2 (addrs p args) i) as [q Hq]; [rewrite addrs_length; by eapply lookup_lt_Some|].
    rewrite (H2 i q Hq). eapply (blob_cstr args p new m); [|exact Hq|exact Ha]. intros x Hx. apply H7. lia.
  - intros x Hx. rewrite H7 by lia. rewrite mem_write_get, decide_False; [done|]. rewrite blob_length. lia.
Qed.

(** ** Arguments that do not fit *)

Lemma copy_arg_over a : plain a → ∀ n pos ptr m buf, length buf = ARGV_BUF → (pos ≤ ARGV_BUF ≤ pos + length a)%nat → (ARGV_BUF - pos < n)%nat → cstr m ptr a →
  ∃ buf', copy_arg n pos ptr m buf = (ARGV_BUF, buf') ∧ length buf' = ARGV_BUF ∧
    (∀ j, (pos ≤ j < ARGV_BUF)%nat → ∃ c, buf' !! j = Some c ∧ c ≠ 0) ∧ (∀ j, (j < pos)%nat → buf' !! j = buf !! j).
Proof.
  induction 1 as [|c a Hc Ha IH]; intros n pos ptr m buf Hb Hp Hn Hs; (destruct n as [|n]; [lia|]); cbn [copy_arg length] in *.
  - assert (pos = ARGV_BUF) as -> by lia. rewrite Nat.leb_refl. exists buf. split_and!; [done|done|lia|done].
  - destruct (Nat.leb_spec ARGV_BUF pos); [exists buf; split_and!; [f_equal; lia|done|lia|done]|].
    apply cstr_cons in Hs as [Hc0 Hs]. rewrite Hc0, (proj2 (Z.eqb_neq c 0)) by lia.
    destruct (IH n (S pos) (ptr + 1) m (<[pos:=c]> buf)) as (b & -> & Hl & Hat & Hrest); [by rewrite length_insert|lia|lia|done|].
    exists b. split_and!; [done|done| |].
    + intros j Hj. destruct (decide (j = pos)) as [->|]; [|apply Hat; lia]. exists c. split; [|lia]. rewrite Hrest by lia. apply list_lookup_insert_eq. lia.
    + intros j Hj. rewrite Hrest by lia. apply list_lookup_insert_ne. lia.
Qed.

Lemma copy_arg_end n pos ptr m buf : (ARGV_BUF ≤ pos)%nat → copy_arg n pos ptr m buf = (pos, buf).
Proof. intros Hp. destruct n as [|n]; cbn [copy_arg]; [done|]. by rewrite (proj2 (Nat.leb_le ARGV_BUF pos)). Qed.

Lemma read_args_full n : ∀ argv m pos buf, length buf = ARGV_BUF → (ARGV_BUF ≤ pos)%nat →
  ∃ offs len, read_args n argv m pos buf = (offs, len, buf).
Proof.
  induction n as [|n IH]; intros argv m pos buf Hb Hp; cbn [read_args]; [by eexists _, _|].
  destruct (read_u64 argv m =? 0); [by eexists _, _|]. rewrite copy_arg_end by done.
  rewrite list_insert_ge by lia. destruct (IH (argv + 8) m (S pos) buf Hb ltac:(lia)) as (offs & len & ->). by eexists _, _.
Qed.

Lemma put_arg_over n : ∀ off buf p m, length buf = ARGV_BUF → (∀ j, (off ≤ j < ARGV_BUF)%nat → ∃ c, buf !! j = Some c ∧ c ≠ 0) →
  (ARGV_BUF - off < n)%nat → put_arg n off buf p m = Panic.
Proof.
  induction n as [|n IH]; intros off buf p m Hb Hnz Hn; [lia|]. cbn [put_arg]. destruct (decide (ARGV_BUF ≤ off)%nat) as [Ho|Ho].
  - rewrite lookup_ge_None_2 by lia. done.
  - destruct (Hnz off ltac:(lia)) as (c & -> & Hc). rewrite (proj2 (Z.eqb_neq c 0)) by done. apply IH; [done| |lia]. intros j Hj. apply Hnz. lia.
Qed.

Lemma put_args_over args : Forall plain args → ∀ n argv m0 ptrs pos buf, length buf = ARGV_BUF → (length args < n)%nat → (pos ≤ ARGV_BUF)%nat →
  (ARGV_BUF < pos + total args)%nat → argv_at m0 argv ptrs args →
  ∃ offs len buf', read_args n argv m0 pos buf = (offs, len, buf') ∧ length buf' = ARGV_BUF ∧ (∀ j, (j < pos)%nat → buf' !! j = buf !! j) ∧
    ∀ p m, put_args offs buf' p m = Panic.
Proof.
  induction 1 as [|a args Ha Hargs IH]; intros n argv m0 ptrs pos buf Hb Hn Hpos Hov Hp; (destruct n as [|n]; [cbn in Hn; lia|]); cbn [total length] in *; [lia|].
  destruct ptrs as [|q ptrs]; [done|]. destruct Hp as (Hp1 & Hp2 & Hp3 & Hp4). cbn [read_args]. cbv zeta. rewrite Hp1, (proj2 (Z.eqb_neq q 0)) by done.
  destruct (decide (pos + length a < ARGV_BUF)%nat) as [Hfit|Hfit].
  - destruct (copy_arg_spec a Ha (S ARGV_BUF) pos q m0 buf Hb) as (b & Hcopy & Hl & Hat & Hrest); [lia|lia|done|]. rewrite Hcopy.
    set (b0 := <[(pos + length a)%nat:=0]> b).
    destruct (IH n (argv + 8) m0 ptrs (S (pos + length a)) b0) as (offs & len & b' & Hrd & Hl' & Hrest' & Hpan); [unfold b0; by rewrite length_insert|lia|lia|lia|done|].
    rewrite Hrd. exists (pos :: offs), len, b'. split; [done|]. split; [done|]. split.
    { intros j Hj. rewrite Hrest' by lia. unfold b0. rewrite list_lookup_insert_ne by lia. apply Hrest. lia. }
    intros p m. cbn [put_args]. rewrite (put_arg_spec a Ha); [cbn [cbind]; by rewrite Hpan|lia|]. apply at_buf_app. split.
    + intros k c Hk. pose proof (lookup_lt_Some _ _ _ Hk). rewrite Hrest' by lia. unfold b0. rewrite list_lookup_insert_ne by lia. by apply Hat.
    + intros [|k] c Hk; [|by destruct k]. injection Hk as <-. rewrite Nat.add_0_r, Hrest' by lia. apply list_lookup_insert_eq. lia.
  - destruct (copy_arg_over a Ha (S ARGV_BUF) pos q m0 buf Hb) as (b & Hcopy & Hl & Hat & Hrest); [lia|lia|done|]. rewrite Hcopy.
    rewrite list_insert_ge by lia. destruct (read_args_full n (argv + 8) m0 (S ARGV_BUF) b Hl ltac:(lia)) as (offs & len & ->).
    exists (pos :: offs), len, b. split; [done|]. split; [done|]. split; [done|]. intros p m. cbn [put_args]. rewrite put_arg_over; [done|done|done|lia].
Qed.

(** More than 4096 bytes of arguments, which any program may pass, panic the
    kernel: the copy runs past the end of the buffer in search of a zero. *)
Lemma argv_overflow_panics info argv ptrs args top old new :
  argv ≠ 0 → Forall plain args → (length args < 64)%nat → (ARGV_BUF < total args)%nat → argv_at old argv ptrs args →
  exec_stack info argv top old new = Panic.
Proof.
  intros Hargv Hargs Hlen Htot Hat. unfold exec_stack. rewrite (proj2 (Z.eqb_neq argv 0)) by done.
  destruct (put_args_over args Hargs MAX_ARGS argv old ptrs 0 (replicate ARGV_BUF 0)) as (offs & len & buf & -> & _ & _ & Hpan);
    [apply length_replicate|done|lia|done|done|]. by rewrite Hpan.
Qed.

(** ** The staging buffer *)

(** The block a program is read into is the smallest that holds it up to
    4 MiB; from there to the 16 MiB that are accepted it is too small, and the
    read goes past its end. *)
Lemma stage_order_fits size : 0 < size → size ≤ MAX_IMAGE →
  let o := stage_order size in
  (size ≤ 4 * 1024 * 1024 → size ≤ 4096 * 2 ^ Z.of_nat o ∧ (o = 0%nat ∨ 4096 * 2 ^ (Z.of_nat o - 1) < size)) ∧
  (4 * 1024 * 1024 < size → o = 10%nat ∧ 4096 * 2 ^ Z.of_nat o < size).
Proof.
  intros H0 Hmax o. unfold MAX_IMAGE in Hmax. set (need := ((size + 0xFFF) / 0x1000) * 4096).
  destruct (order_loop_spec need 11 0 ltac:(lia) ltac:(lia) (or_introl eq_refl)) as (R1 & R2 & R3). change (order_loop 11 0 need) with o in R1, R2, R3.
  pose proof (Z.div_mod (size + 0xFFF) 0x1000 ltac:(lia)). pose proof (Z.mod_pos_bound (size + 0xFFF) 0x1000 ltac:(lia)).
  set (q := (size + 0xFFF) / 0x1000) in *. assert (need = q * 4096) as Hneed by done. clearbody need q o.
  assert (o = 10%nat ∨ 2 ^ Z.of_nat o ≤ 2 ^ 9) as Ho by (destruct (decide (o = 10%nat)); [by left|right; apply Z.pow_le_mono_r; lia]).
  assert (o = 10%nat → 2 ^ Z.of_nat o = 1024) as Ho10 by (by intros ->). split; intros Hs.
  - split; [destruct R2 as [R2|R2]; [lia|rewrite (Ho10 R2); lia]|]. destruct R3 as [R3|R3]; [by left|right; lia].
  - destruct Ho as [Ho|Ho]; [rewrite (Ho10 Ho); lia|]. change (2 ^ 9) with 512 in Ho. destruct R2 as [R2|R2]; [lia|rewrite (Ho10 R2) in Ho; lia].
Qed.

(** ** The thread block *)

(** The thread block is mapped inside the stack: a program whose stack has
    been built loses the stack page there, and what it stores five pages below
    the top of its stack is its thread block. *)
Lemma tls_in_stack own s root s1 tid ticks r s2 :
  mem_ok own s → space own s root → make_stack root s = (Ok tt, s1) → map_tls root tid ticks s1 = (Some r, s2) →
  (∀ v, USER_TLS_VADDR ≤ v < USER_TLS_VADDR + 4096 → in_stack v) ∧
  ∃ p q own2, xlate s1 root USER_TLS_VADDR = Some q ∧ xlate s2 root USER_TLS_VADDR = Some p ∧ p ≠ q ∧
    page_of s2 p = tcb tid ticks ∧ holds (km s2) own2 ∧ q ∈ own2.
Proof.
  intros Hm Hsp Hst Htls. destruct (make_stack_spec own s root (Ok tt) s1 Hm Hsp Hst) as [_ H].
  destruct (H eq_refl) as (o & M1 & S1 & _ & L & _ & _). clear H. split.
  { intros v Hv. unfold in_stack. change stack_base with 0x7FFFFFFEF000. unfold USER_STACK_TOP, USER_TLS_VADDR in *. lia. }
  destruct (L USER_TLS_VADDR ltac:(done)) as (q & _ & Q1 & _ & Q3 & Q4 & _).
  unfold map_tls in Htls. destruct (alloc_raw s1) as [[phys|] s1'] eqn:Hal; [|done].
  destruct (map_into root USER_TLS_VADDR phys TLS_FLAGS (zero_frame phys s1')) as [[[]|e] s1''] eqn:Hmap; [|done]. injection Htls as -> <-.
  destruct (page_step o s1 root USER_TLS_VADDR TLS_FLAGS (tcb tid ticks) r s1' s1'' (set_page r (tcb tid ticks) s1'') M1 S1 Hal Hmap) as (o2 & G & Hl & _ & _);
    [intros; by apply filled_set|]. destruct Hl as (p & P0 & _ & _ & P3 & P4 & P5).
  assert (∀ x fl, page_addr x → addr_of fl = 0 → present (Z.lor x (Z.lor fl PTE_PRESENT)) = true ∧ addr_of (Z.lor x (Z.lor fl PTE_PRESENT)) = x) as Hent.
  { intros x fl Hx Hf. rewrite !present_lor, !addr_of_lor, Hx, Hf. change (present PTE_PRESENT) with true. change (addr_of PTE_PRESENT) with 0.
    by rewrite !orb_true_r, !Z.lor_0_r. }
  destruct (Hent q stack_flags Q3 eq_refl) as [E1 E2], (Hent p TLS_FLAGS P3 eq_refl) as [E3 E4].
  exists p, q, o2. destruct (mapped_seen _ _ _ _ Q4 E1) as [-> _]. destruct (mapped_seen _ _ _ _ P4 E3) as [-> _]. rewrite E2, E4.
  change (Z.land USER_TLS_VADDR 0xFFF) with 0. rewrite !Z.lor_0_r. split; [done|]. split; [done|]. split; [by intros ->|]. split; [done|].
  split; [apply (gr_mem _ _ _ _ _ G)|]. by apply (gr_own _ _ _ _ _ G).
Qed.

(** ** Giving up the old image *)

(** exec asks whether the old address space is shared only after it has marked
    the task as its owner: the child of a vfork or a thread that executes a
    program frees the address space its parent runs in. *)
Lemma exec_frees_shared info rip rsp fs priv m x old :
  e_pml4 (x_task x) = old → old ≠ 0 → old ≠ i_pml4 info → e_private (x_task x) = false →
  exec_commit info rip rsp fs priv m x =
    let! s := free_address_space old false (x_tabs x) in
    Done (mkEx s (vma_clear_pml4 old (x_vmas x))
      (mkEtask rip rsp fs (i_pml4 info) (i_stack_top info) (i_brk_base info) (i_brk_base info) true priv) m).
Proof.
  intros <- H0 H1 _. unfold exec_commit. rewrite (proj2 (Z.eqb_neq _ 0) H0), (proj2 (Z.eqb_neq _ (i_pml4 info)) H1). done.
Qed.

(** ** Instances *)

Lemma cstr_write p a m : cstr (mem_write p (a ++ [0]) m) p a.
Proof.
  intros k c Hk. pose proof (lookup_lt_Some _ _ _ Hk). rewrite mem_write_get, decide_True by lia.
  replace (Z.to_nat (p + Z.of_nat k - p)) with k by lia. by apply list_lookup_total_correct.
Qed.

Lemma cstr_ext m m' p a : (∀ x, p ≤ x ≤ p + Z.of_nat (length a) → getd 0 m' x = getd 0 m x) → cstr m p a → cstr m' p a.
Proof.
  intros H Hc k c Hk. pose proof (lookup_lt_Some _ _ _ Hk) as Hl. rewrite length_app in Hl. cbn in Hl. rewrite H by lia. by apply Hc.
Qed.

Definition plain_b (a : list Z) : bool := forallb (λ c, (0 <? c) && (c <? 256)) a.
Lemma plain_check a : plain_b a = true → plain a.
Proof. unfold plain, plain_b. rewrite Forall_forall, forallb_forall. intros H x Hx%list_elem_of_In. specialize (H x Hx). lia. Qed.

(** One argument at 0x2000, the array at 0x1000. *)
Definition caller (a : list Z) : mem := write_u64 0x1000 0x2000 (write_u64 0x1008 0 (mem_write 0x2000 (a ++ [0]) ∅)).

Lemma caller_argv a : argv_at (caller a) 0x1000 [0x2000] [a].
Proof.
  unfold caller. cbn [argv_at]. split; [apply read_write_same; unfold is_word; lia|]. split; [done|]. split.
  - eapply cstr_ext; [|apply cstr_write]. intros x Hx. by rewrite !write_u64_get by lia.
  - rewrite read_write_other by lia. apply read_write_same. unfold is_word. lia.
Qed.

Definition d_info : ElfLoadInfo := mkInfo 0x401000 0x100000 (USER_STACK_TOP - 16) None 0x400040 2 56 0x405000.

Lemma exec_stack_decodes_witness : ∃ sp m, exec_stack d_info 0x1000 (USER_STACK_TOP - 16) (caller [108; 115]) ∅ = Done (sp, m) ∧
  read_u64 sp m = 1 ∧ cstr m (read_u64 (sp + 8) m) [108; 115].
Proof.
  destruct (exec_stack_decodes d_info 0x1000 [0x2000] [[108; 115]] (USER_STACK_TOP - 16) (caller [108; 115]) ∅) as (sp & m & H1 & H2 & H3 & _).
  - unfold info_ok, is_word. cbn. repeat constructor; lia.
  - done.
  - repeat constructor; lia.
  - apply Nat.ltb_lt. reflexivity.
  - apply Nat.leb_le. vm_compute. reflexivity.
  - apply caller_argv.
  - unfold USER_STACK_TOP. lia.
  - unfold USER_STACK_TOP. lia.
  - exists sp, m. split; [exact H1|]. split; [exact H2|]. specialize (H3 0%nat [108; 115] eq_refl). by replace (sp + 8 + 8 * Z.of_nat 0) with (sp + 8) in H3 by lia.
Defined.

Lemma argv_overflow_panics_witness : exec_stack d_info 0x1000 (USER_STACK_TOP - 16) (caller (replicate 4096 97)) ∅ = Panic.
Proof.
  apply (argv_overflow_panics d_info 0x1000 [0x2000] [replicate 4096 97]).
  - done.
  - apply Forall_singleton, plain_check. vm_compute. reflexivity.
  - apply Nat.ltb_lt. reflexivity.
  - apply Nat.ltb_lt. vm_compute. reflexivity.
  - apply caller_argv.
Defined.

Lemma stage_order_fits_witness : stage_order (5 * 1024 * 1024) = 10%nat ∧ 4096 * 2 ^ 10 < 5 * 1024 * 1024.
Proof. apply (stage_order_fits (5 * 1024 * 1024)); [lia|unfold MAX_IMAGE; lia|lia]. Defined.

Definition d_stack : pmem := (make_stack 0x100000 (demo 7 0)).2.
Definition d_tls : pmem := (map_tls 0x100000 7 0 d_stack).2.

Lemma tls_in_stack_witness : in_stack USER_TLS_VADDR ∧ xlate d_stack 0x100000 USER_TLS_VADDR ≠ xlate d_tls 0x100000 USER_TLS_VADDR.
Proof.
  destruct (make_stack 0x100000 (demo 7 0)) as [r s1] eqn:E. destruct (map_tls 0x100000 7 0 s1) as [o s2] eqn:E2.
  assert (r = Ok tt) as -> by (change r with (r, s1).1; rewrite <- E; vm_compute; reflexivity).
  assert (d_stack = s1) as Es by (unfold d_stack; by rewrite E).
  assert (d_tls = s2) as Et by (unfold d_tls; rewrite Es, E2; done).
  destruct o as [p|]; [|exfalso; assert ((map_tls 0x100000 7 0 d_stack).1 = None) as H by (by rewrite Es, E2); vm_compute in H; congruence].
  destruct (tls_in_stack d_own (demo 7 0) 0x100000 s1 7 0 p s2 (demo_mem 7 0) (demo_space 7 0 ltac:(lia)) E E2) as [H1 (a & b & _ & H2 & H3 & H4 & _)].
  split; [apply H1; lia|]. rewrite Es, Et, H2, H3. congruence.
Defined.

(** The stack pointer a program starts with need not be a multiple of 16. *)
Lemma exec_stack_misaligned :
  match exec_stack d_info 0x1000 (USER_STACK_TOP - 16) (caller [108; 115]) ∅ with Done (sp, _) => sp mod 16 | _ => 0 end = 8.
Proof. vm_compute. reflexivity. Qed.
