(* ===== verification/Mbi.v ===== *)
(** * The boot information: [src/multiboot2.rs]

    GRUB leaves a list of tags in memory: a type, a size that counts the
    header, the payload, the next tag at the next multiple of 8.  The functions
    of the module walk it and each picks the tags it looks for.  Memory is a
    map of bytes; offsets are 32 bits wide and wrap around. *)

From S2P Require Import Prelude Bytes.
From stdpp Require Import base gmap numbers list.
Local Open Scope Z_scope.

Definition TAG_END : Z := 0.
Definition TAG_MODULE : Z := 3.
Definition TAG_MMAP : Z := 6.
Definition TAG_FRAMEBUFFER : Z := 8.
Definition TAG_EFI32_SYS_TABLE : Z := 11.
Definition TAG_EFI64_SYS_TABLE : Z := 12.
Definition TAG_ACPI_OLD : Z := 14.
Definition TAG_ACPI_NEW : Z := 15.
Definition TAG_EFI_MMAP : Z := 17.
Definition TAG_EFI_BS : Z := 18.
Definition TAG_EFI32_IMAGE_HANDLE : Z := 19.
Definition TAG_EFI64_IMAGE_HANDLE : Z := 20.
Definition MMAP_USABLE : Z := 1.
(** [mem::size_of::<Info>()] *)
Definition INFO_SIZE : Z := 8.

Record MemRegion := mkMemRegion { mr_base : Z; mr_len : Z }.
Record ModuleInfo := mkModuleInfo { mi_start : Z; mi_end : Z; mi_name : list Z }.
Record RgbDesc := mkRgb { red_pos : Z; red_mask : Z; green_pos : Z; green_mask : Z; blue_pos : Z; blue_mask : Z }.
Record FramebufferInfo := mkFb { fb_addr : Z; fb_pitch : Z; fb_width : Z; fb_height : Z; fb_bpp : Z; fb_type : Z; fb_rgb : RgbDesc }.

(** What the body of the walk does with a tag: go on, or return. *)
Inductive turn (A : Type) := Next (a : A) | Return (a : A).
Arguments Next {A} a.
Arguments Return {A} a.

Section mbi.
Context (m : gmap Z Z) (info : Z).

(** [read_unaligned] of [n] bytes. *)
Definition rd (n : nat) (p : Z) : Z := le_value (mem_read p n m).

Definition total_size : Z := rd 4 info.

(** The loop every function of the module has; the body gets the address, the
    offset, the type and the size of a tag. *)
Fixpoint tag_loop {A : Type} (body : Z → Z → Z → Z → A → turn A) (n : nat) (offset : Z) (acc : A) : comp A :=
  if w32 (offset + 8) <=? total_size then
    let p := info + offset in
    let typ := rd 4 p in
    if typ =? TAG_END then Done acc
    else
      let size := rd 4 (p + 4) in
      if size <? 8 then Done acc
      else
        match body p offset typ size acc with
        | Return acc => Done acc
        | Next acc =>
            match n with
            | O => Spin
            | S n' => tag_loop body n' (Z.ldiff (w32 (w32 (offset + size) + 7)) 7) acc
            end
        end
  else Done acc.

(** Offsets are multiples of 8 below the total size, so a walk of more turns
    has come back to a tag it has seen. *)
Definition tag_fuel : nat := S (Z.to_nat (total_size / 8)).

Definition walk_tags {A : Type} (body : Z → Z → Z → Z → A → turn A) (acc : A) : comp A := tag_loop body tag_fuel INFO_SIZE acc.

(** ** [find_modules] *)

(** The command line up to its zero, 63 bytes at most. *)
Fixpoint cmd_bytes (n : nat) (p : Z) : list Z :=
  match n with
  | O => []
  | S n' => let c := getd 0 m p in if c =? 0 then [] else c :: cmd_bytes n' (p + 1)
  end.

(** One past the last slash. *)
Fixpoint base_start (j start : nat) (l : list Z) : nat :=
  match l with
  | [] => start
  | c :: l => base_start (S j) (if c =? 47 then S j else start) l
  end.

Definition module_name (p : Z) : list Z :=
  let l := cmd_bytes 63 p in
  let name := drop (base_start 0 0 l) l in
  name ++ replicate (64 - length name) 0.

Definition module_body (cap : nat) (p offset typ size : Z) (out : list ModuleInfo) : turn (list ModuleInfo) :=
  Next (if (typ =? TAG_MODULE) && (length out <? cap)%nat
        then out ++ [mkModuleInfo (rd 4 (p + 8)) (rd 4 (p + 12)) (module_name (p + 16))]
        else out).

(** [cap] is the length of [out]. *)
Definition find_modules (cap : nat) : comp (list ModuleInfo) := walk_tags (module_body cap) [].

(** ** [memory_regions] *)

Fixpoint mmap_loop (n cap : nat) (entry_off entries_end entry_size : Z) (out : list MemRegion) : comp (list MemRegion) :=
  if (w32 (entry_off + entry_size) <=? entries_end) && (length out <? cap)%nat then
    let ep := info + entry_off in
    let base := rd 8 ep in
    let len := rd 8 (ep + 8) in
    let etyp := rd 4 (ep + 16) in
    let out := if (etyp =? MMAP_USABLE) && (0 <? len) then out ++ [mkMemRegion base len] else out in
    match n with
    | O => Spin
    | S n' => mmap_loop n' cap (w32 (entry_off + entry_size)) entries_end entry_size out
    end
  else Done out.

(** Between two entries that are stored, no more turns than offsets up to the
    end without coming back to one. *)
Definition mmap_fuel (cap : nat) (entries_end : Z) : nat := (S cap * (2 + Z.to_nat entries_end))%nat.

(** The first memory map ends the walk; the entries may spin on their own. *)
Definition mmap_body (cap : nat) (p offset typ size : Z) (out : comp (list MemRegion)) : turn (comp (list MemRegion)) :=
  if typ =? TAG_MMAP then
    let entry_size := rd 4 (p + 8) in
    if entry_size <? 20 then Return out
    else
      let entries_end := w32 (offset + size) in
      Return (let! out := out in mmap_loop (mmap_fuel cap entries_end) cap (w32 (offset + 16)) entries_end entry_size out)
  else Next out.

Definition memory_regions (cap : nat) : comp (list MemRegion) :=
  let! r := walk_tags (mmap_body cap) (Done []) in r.

(** ** [find_framebuffer] *)

(** The bits of a field, marked in the table; [None] when one is taken. *)
Fixpoint mark_bits (n : nat) (bit : nat) (offs : list bool) : option (list bool) :=
  match n with
  | O => Some offs
  | S n' => if default false (offs !! bit) then None else mark_bits n' (S bit) (<[bit := true]> offs)
  end.

Fixpoint mark_fields (fields : list (Z * Z)) (offs : list bool) : option (list bool) :=
  match fields with
  | [] => Some offs
  | (pos, mask) :: fields =>
      if (mask =? 0) || (8 <? mask) then None
      else if 32 <? pos + mask then None
      else match mark_bits (Z.to_nat mask) (Z.to_nat pos) offs with
           | None => None
           | Some offs => mark_fields fields offs
           end
  end.

Definition is_sane (d : RgbDesc) (bpp : Z) : bool :=
  match mark_fields [(red_pos d, red_mask d); (green_pos d, green_mask d); (blue_pos d, blue_mask d)] (replicate 32 false) with
  | None => false
  | Some _ => (w8 (red_pos d + red_mask d) <=? bpp) && (w8 (green_pos d + green_mask d) <=? bpp) && (w8 (blue_pos d + blue_mask d) <=? bpp)
  end.

Definition read_rgb (p off : Z) : RgbDesc :=
  mkRgb (rd 1 (p + off)) (rd 1 (p + (off + 1))) (rd 1 (p + (off + 2))) (rd 1 (p + (off + 3))) (rd 1 (p + (off + 4))) (rd 1 (p + (off + 5))).

Definition default_rgb (bpp : Z) : RgbDesc :=
  if bpp =? 15 then mkRgb 10 5 5 5 0 5
  else if bpp =? 16 then mkRgb 11 5 5 6 0 5
  else mkRgb 16 8 8 8 0 8.

Definition pick_rgb (p bpp : Z) : RgbDesc :=
  if is_sane (read_rgb p 30) bpp then read_rgb p 30
  else if is_sane (read_rgb p 32) bpp then read_rgb p 32
  else default_rgb bpp.

Definition framebuffer_body (p offset typ size : Z) (r : option FramebufferInfo) : turn (option FramebufferInfo) :=
  if (typ =? TAG_FRAMEBUFFER) && (30 <=? size) then
    let bpp := rd 1 (p + 28) in
    Return (Some (mkFb (rd 8 (p + 8)) (rd 4 (p + 16)) (rd 4 (p + 20)) (rd 4 (p + 24)) bpp (rd 1 (p + 29)) (pick_rgb p bpp)))
  else Next r.

Definition find_framebuffer : comp (option FramebufferInfo) := walk_tags framebuffer_body None.

(** ** [uefi_handoff], [acpi_tags] *)

Definition is_efi (typ : Z) : bool :=
  (typ =? TAG_EFI32_SYS_TABLE) || (typ =? TAG_EFI64_SYS_TABLE) || (typ =? TAG_EFI_MMAP) || (typ =? TAG_EFI_BS) ||
  (typ =? TAG_EFI32_IMAGE_HANDLE) || (typ =? TAG_EFI64_IMAGE_HANDLE).

Definition efi_body (p offset typ size : Z) (r : bool) : turn bool := if is_efi typ then Return true else Next r.
Definition uefi_handoff : comp bool := walk_tags efi_body false.

Definition acpi_body (p offset typ size : Z) (r : bool * bool) : turn (bool * bool) :=
  Next (if typ =? TAG_ACPI_OLD then (true, r.2) else if typ =? TAG_ACPI_NEW then (r.1, true) else r).
Definition acpi_tags : comp (bool * bool) := walk_tags acpi_body (false, false).

(** The types, in the order [dump_tag_types] prints them. *)
Definition dump_body (p offset typ size : Z) (r : list Z) : turn (list Z) := Next (r ++ [typ]).
Definition dump_tag_types : comp (list Z) := walk_tags dump_body [].
End mbi.
