(* ===== verification/MbiClaims.v ===== *)
(** * What the boot information says

    A list of tags laid out the way GRUB does, and what the functions of [Mbi]
    find in it. *)

From S2P Require Import Prelude Bytes Mbi.
From Stdlib Require Import Lia ZArith.
From stdpp Require Import base gmap numbers list.
Local Open Scope Z_scope.

(** ** Bytes at an address *)

Definition bytes_at (m : gmap Z Z) (a : Z) (bs : list Z) : Prop := mem_read a (length bs) m = bs.

Lemma bytes_at_app m a b1 b2 : bytes_at m a (b1 ++ b2) ↔ bytes_at m a b1 ∧ bytes_at m (a + Z.of_nat (length b1)) b2.
Proof.
  unfold bytes_at. assert (mem_read a (length (b1 ++ b2)) m = mem_read a (length b1) m ++ mem_read (a + Z.of_nat (length b1)) (length b2) m) as ->.
  { unfold mem_read. rewrite length_app, seq_app, fmap_app. f_equal. cbn [Nat.add].
    rewrite <- (Nat.add_0_r (length b1)) at 1. rewrite <- fmap_add_seq, <- list_fmap_compose. apply list_fmap_ext.
    intros i x _. cbn. f_equal. lia. }
  split; [|by intros [-> ->]]. intros H. apply app_inj_1 in H as [-> ->]; [done|apply mem_read_length].
Qed.

Lemma rd_le m a n z : bytes_at m a (le_bytes n z) → 0 ≤ z < 256 ^ Z.of_nat n → rd m n a = z.
Proof. unfold bytes_at, rd. rewrite le_bytes_length. intros -> Hz. by apply le_value_bytes. Qed.

Lemma bytes_at_nth m a bs i b : bytes_at m a bs → bs !! i = Some b → getd 0 m (a + Z.of_nat i) = b.
Proof. unfold bytes_at. intros H Hb. rewrite <- H in Hb. pose proof (lookup_lt_Some _ _ _ Hb) as Hl. rewrite mem_read_length in Hl. rewrite mem_read_lookup in Hb by done. by injection Hb. Qed.

(** ** The layout *)

Definition tag : Type := Z * list Z.
Definition tag_size (t : tag) : Z := 8 + Z.of_nat (length t.2).
Definition pad8 (n : Z) : Z := (- n) mod 8.
Definition tag_bytes (t : tag) : list Z := le_bytes 4 t.1 ++ le_bytes 4 (tag_size t) ++ t.2 ++ replicate (Z.to_nat (pad8 (tag_size t))) 0.
Definition tags_bytes (ts : list tag) : list Z := concat (tag_bytes <$> ts) ++ le_bytes 4 0 ++ le_bytes 4 8.
Definition mbi_size (ts : list tag) : Z := 8 + Z.of_nat (length (tags_bytes ts)).

Definition mbi_at (m : gmap Z Z) (info : Z) (ts : list tag) : Prop :=
  bytes_at m info (le_bytes 4 (mbi_size ts) ++ le_bytes 4 0 ++ tags_bytes ts) ∧ mbi_size ts < 2 ^ 31 ∧ Forall (λ t, 0 < t.1 < 2 ^ 32) ts.

(** The tags with their offsets. *)
Definition next_off (off : Z) (t : tag) : Z := off + tag_size t + pad8 (tag_size t).
Fixpoint placed (off : Z) (ts : list tag) : list (Z * tag) :=
  match ts with [] => [] | t :: ts => (off, t) :: placed (next_off off t) ts end.

(** A body over the tags in order. *)
Fixpoint run_tags {A} (body : Z → Z → Z → Z → A → turn A) (info : Z) (ps : list (Z * tag)) (acc : A) : A :=
  match ps with
  | [] => acc
  | (off, t) :: ps => match body (info + off) off t.1 (tag_size t) acc with Return a => a | Next a => run_tags body info ps a end
  end.

Lemma pad8_bound n : 0 ≤ pad8 n < 8.
Proof. apply Z.mod_pos_bound. lia. Qed.

Lemma tag_bytes_length t : Z.of_nat (length (tag_bytes t)) = tag_size t + pad8 (tag_size t).
Proof.
  unfold tag_bytes. rewrite !length_app, !le_bytes_length, length_replicate. pose proof (pad8_bound (tag_size t)). unfold tag_size in *. lia.
Qed.

Lemma round_up8 off n : off mod 8 = 0 → 0 ≤ off → 0 ≤ n → Z.ldiff (off + n + 7) 7 = off + n + pad8 n.
Proof.
  intros Ho H0 Hn. change 7 with (Z.ones 3) at 2. rewrite Z.ldiff_ones_r, Z.shiftl_mul_pow2, Z.shiftr_div_pow2 by lia.
  change (2 ^ 3) with 8. unfold pad8. Z.to_euclidean_division_equations. nia.
Qed.

Section walk.
Context (m : gmap Z Z) (info : Z).

Lemma tag_loop_run {A} (body : Z → Z → Z → Z → A → turn A) total ts : ∀ n off acc,
  total_size m info = total → total < 2 ^ 32 - 16 → 0 ≤ off → off mod 8 = 0 →
  bytes_at m (info + off) (tags_bytes ts) → off + Z.of_nat (length (tags_bytes ts)) ≤ total →
  Forall (λ t, 0 < t.1 < 2 ^ 32) ts → (length ts ≤ n)%nat →
  tag_loop m info body n off acc = Done (run_tags body info (placed off ts) acc).
Proof.
  induction ts as [|t ts IH]; intros n off acc Ht Htot H0 Hal Hat Hlen Hts Hn.
  - unfold tags_bytes in Hat, Hlen. cbn [fmap list_fmap concat app] in Hat, Hlen. rewrite length_app, !le_bytes_length in Hlen.
    apply bytes_at_app in Hat as [Ha _]. pose proof (rd_le m _ 4 0 Ha ltac:(lia)) as Hr.
    destruct n; cbn [tag_loop]; rewrite Ht; unfold w32; rewrite Z.mod_small by lia; rewrite (proj2 (Z.leb_le _ _)) by lia; rewrite Hr; done.
  - apply Forall_cons in Hts as [Ht1 Hts]. unfold tags_bytes in Hat, Hlen. cbn [fmap list_fmap concat] in Hat, Hlen. rewrite <- app_assoc in Hat, Hlen.
    rewrite length_app in Hlen. pose proof (tag_bytes_length t) as Hl. pose proof (pad8_bound (tag_size t)).
    assert (8 ≤ tag_size t) by (unfold tag_size; lia).
    apply bytes_at_app in Hat as [Ha Hrest]. rewrite Hl in Hrest. unfold tag_bytes in Ha.
    apply bytes_at_app in Ha as [Ha1 Ha]. apply bytes_at_app in Ha as [Ha2 _]. rewrite le_bytes_length in Ha2. change (Z.of_nat 4) with 4 in Ha2.
    fold (tags_bytes ts) in Hlen, Hrest. unfold tags_bytes in Hlen. rewrite length_app, length_app, !le_bytes_length in Hlen.
    pose proof (rd_le m _ 4 _ Ha1 ltac:(lia)) as Hr1. pose proof (rd_le m _ 4 _ Ha2 ltac:(lia)) as Hr2.
    cbn [placed run_tags]. destruct n as [|n]; [cbn in Hn; lia|]. cbn [tag_loop]. rewrite Ht. unfold w32 at 1. rewrite (Z.mod_small (off + 8)) by lia.
    rewrite (proj2 (Z.leb_le _ _)), Hr1, Hr2 by lia. rewrite (proj2 (Z.eqb_neq _ _)), (proj2 (Z.ltb_ge _ _)) by (unfold TAG_END; lia).
    destruct (body _ _ _ _ _) as [a|a]; [|done]. unfold w32. rewrite (Z.mod_small (off + tag_size t)), (Z.mod_small (off + tag_size t + 7)) by lia.
    rewrite round_up8 by lia. fold (next_off off t). apply IH; [done|done|unfold next_off; lia| | | |done|cbn in Hn; lia].
    + unfold next_off, pad8. Z.to_euclidean_division_equations. nia.
    + unfold next_off. replace (info + (off + tag_size t + pad8 (tag_size t))) with (info + off + (tag_size t + pad8 (tag_size t))) by lia. exact Hrest.
    + unfold next_off, tags_bytes. rewrite length_app, length_app, !le_bytes_length. lia.
Qed.

Lemma tags_bytes_length ts : 8 * Z.of_nat (length ts) + 8 ≤ Z.of_nat (length (tags_bytes ts)).
Proof.
  unfold tags_bytes. rewrite length_app, length_app, !le_bytes_length. induction ts as [|t ts IH]; [cbn; lia|].
  cbn [fmap list_fmap concat length]. rewrite length_app. pose proof (tag_bytes_length t). pose proof (pad8_bound (tag_size t)). unfold tag_size in *. lia.
Qed.

(** Every walk is a pass over the tags. *)
Lemma walk_tags_run {A} (body : Z → Z → Z → Z → A → turn A) ts acc :
  mbi_at m info ts → walk_tags m info body acc = Done (run_tags body info (placed 8 ts) acc).
Proof.
  intros (Hat & Hsz & Hts). apply bytes_at_app in Hat as [H1 H2]. apply bytes_at_app in H2 as [_ H2].
  rewrite !le_bytes_length in H2. replace (info + Z.of_nat 4 + Z.of_nat 4) with (info + 8) in H2 by lia. pose proof (tags_bytes_length ts).
  assert (total_size m info = mbi_size ts) as Ht by (apply (rd_le m info 4 (mbi_size ts) H1); unfold mbi_size in *; lia).
  unfold walk_tags. apply (tag_loop_run body (mbi_size ts)); [done|lia|done|done|exact H2|unfold mbi_size; unfold INFO_SIZE; lia|done|].
  unfold tag_fuel. rewrite Ht. unfold mbi_size. apply Nat2Z.inj_le. rewrite Nat2Z.inj_succ, Z2Nat.id by (apply Z.div_pos; lia).
  pose proof (Z.div_le_mono (8 * (1 + Z.of_nat (length ts))) (8 + Z.of_nat (length (tags_bytes ts))) 8 ltac:(lia) ltac:(lia)) as Hd.
  rewrite Z.mul_comm, Z.div_mul in Hd by lia. lia.
Qed.

(** The payload of a placed tag is in memory after its header. *)
Lemma placed_payload ts : ∀ off, bytes_at m (info + off) (tags_bytes ts) →
  Forall (λ x, bytes_at m (info + x.1 + 8) x.2.2) (placed off ts).
Proof.
  induction ts as [|t ts IH]; intros off Hat; [constructor|]. unfold tags_bytes in Hat. cbn [fmap list_fmap concat] in Hat. rewrite <- app_assoc in Hat.
  apply bytes_at_app in Hat as [Ha Hr]. rewrite tag_bytes_length in Hr. cbn [placed]. constructor.
  - unfold tag_bytes in Ha. apply bytes_at_app in Ha as [_ Ha]. apply bytes_at_app in Ha as [_ Ha]. apply bytes_at_app in Ha as [Ha _].
    rewrite !le_bytes_length in Ha. cbn [fst snd]. replace (info + off + 8) with (info + off + Z.of_nat 4 + Z.of_nat 4) by lia. exact Ha.
  - apply IH. unfold next_off. replace (info + (off + tag_size t + pad8 (tag_size t))) with (info + off + (tag_size t + pad8 (tag_size t))) by lia. exact Hr.
Qed.

Lemma mbi_payloads ts : mbi_at m info ts → Forall (λ x, bytes_at m (info + x.1 + 8) x.2.2) (placed 8 ts).
Proof.
  intros (Hat & _ & _). apply bytes_at_app in Hat as [_ H2]. apply bytes_at_app in H2 as [_ H2]. rewrite !le_bytes_length in H2.
  apply placed_payload. replace (info + 8) with (info + Z.of_nat 4 + Z.of_nat 4) by lia. exact H2.
Qed.
End walk.

(** ** Bodies over placed tags *)

Lemma run_tags_app {A} (body : Z → Z → Z → Z → A → turn A) info p1 p2 acc :
  Forall (λ x, ∀ a, body (info + x.1) x.1 x.2.1 (tag_size x.2) a = Next a) p1 → run_tags body info (p1 ++ p2) acc = run_tags body info p2 acc.
Proof. induction 1 as [|[off t] p1 H _ IH]; [done|]. cbn [app run_tags]. cbn [fst snd] in H. by rewrite H. Qed.

Lemma placed_app ts1 ts2 : ∀ off, ∃ off', placed off (ts1 ++ ts2) = placed off ts1 ++ placed off' ts2.
Proof. induction ts1 as [|t ts1 IH]; intros off; [by exists off|]. cbn [app placed]. destruct (IH (next_off off t)) as [o ->]. by exists o. Qed.

Lemma placed_bound ts : ∀ off, 0 ≤ off → Forall (λ x, off ≤ x.1 ∧ x.1 + tag_size x.2 + 8 ≤ off + Z.of_nat (length (tags_bytes ts))) (placed off ts).
Proof.
  induction ts as [|t ts IH]; intros off H0; [constructor|]. cbn [placed]. unfold tags_bytes. cbn [fmap list_fmap concat]. rewrite <- app_assoc, length_app.
  fold (tags_bytes ts). pose proof (tag_bytes_length t). pose proof (pad8_bound (tag_size t)). pose proof (tags_bytes_length ts). constructor.
  - cbn [fst snd]. lia.
  - eapply Forall_impl; [apply IH; unfold next_off, tag_size in *; lia|]. intros x. unfold next_off, tag_size in *. lia.
Qed.

Lemma placed_snd ts : ∀ off, snd <$> placed off ts = ts.
Proof. induction ts as [|t ts IH]; intros off; [done|]. cbn. by rewrite IH. Qed.

(** ** Memory map entries *)

Record entry := mkEntry { e_base : Z; e_len : Z; e_typ : Z; e_more : list Z }.
Definition entry_bytes (e : entry) : list Z := le_bytes 8 (e_base e) ++ le_bytes 8 (e_len e) ++ le_bytes 4 (e_typ e) ++ e_more e.
Definition entry_ok (es : Z) (e : entry) : Prop :=
  0 ≤ e_base e < 2 ^ 64 ∧ 0 ≤ e_len e < 2 ^ 64 ∧ 0 ≤ e_typ e < 2 ^ 32 ∧ 20 + Z.of_nat (length (e_more e)) = es.
Definition usable (e : entry) : option MemRegion :=
  if (e_typ e =? MMAP_USABLE) && (0 <? e_len e) then Some (mkMemRegion (e_base e) (e_len e)) else None.

Lemma entry_bytes_length es e : entry_ok es e → Z.of_nat (length (entry_bytes e)) = es.
Proof. intros (_ & _ & _ & H). unfold entry_bytes. rewrite !length_app, !le_bytes_length. lia. Qed.

Lemma mmap_loop_spec m info cap es entries : ∀ n eo out, 20 ≤ es < 2 ^ 31 → 0 ≤ eo → eo + es * Z.of_nat (length entries) < 2 ^ 31 →
  Forall (entry_ok es) entries → bytes_at m (info + eo) (concat (entry_bytes <$> entries)) → (length entries ≤ n)%nat → (length out ≤ cap)%nat →
  mmap_loop m info n cap eo (eo + es * Z.of_nat (length entries)) es out = Done (take cap (out ++ omap usable entries)).
Proof.
  induction entries as [|e entries IH]; intros n eo out Hes H0 Hb He Hat Hn Hout.
  - cbn [length omap list_omap app]. rewrite app_nil_r, (take_ge _ _ Hout).
    assert (w32 (eo + es) <=? eo + es * Z.of_nat 0 = false) as Hf.
    { cbn [length] in Hb. unfold w32. rewrite Z.mod_small by lia. apply Z.leb_gt. lia. }
    destruct n; cbn [mmap_loop]; by rewrite Hf.
  - apply Forall_cons in He as [He Hes']. pose proof (entry_bytes_length es e He) as Hl. destruct He as (B1 & B2 & B3 & B4).
    cbn [length] in *. cbn [fmap list_fmap concat] in Hat. apply bytes_at_app in Hat as [Ha Hr]. rewrite Hl in Hr. unfold entry_bytes in Ha.
    apply bytes_at_app in Ha as [A1 A]. apply bytes_at_app in A as [A2 A]. apply bytes_at_app in A as [A3 _]. rewrite !le_bytes_length in *.
    replace (info + eo + Z.of_nat 8 + Z.of_nat 8) with (info + eo + 16) in A3 by lia. change (Z.of_nat 8) with 8 in A2.
    pose proof (rd_le m _ 8 _ A1 B1) as R1. pose proof (rd_le m _ 8 _ A2 B2) as R2. pose proof (rd_le m _ 4 _ A3 B3) as R3.
    destruct n as [|n]; [lia|]. cbn [mmap_loop]. unfold w32. rewrite (Z.mod_small (eo + es)) by lia. rewrite (proj2 (Z.leb_le _ _)) by lia. cbn [andb].
    destruct (Nat.ltb_spec (length out) cap) as [Hlt|Hge].
    + rewrite R1, R2, R3. replace (eo + es * Z.of_nat (S (length entries))) with (eo + es + es * Z.of_nat (length entries)) by lia.
      rewrite IH; [|done|lia|lia|done|by rewrite Z.add_assoc|lia|].
      * cbn [omap list_omap]. unfold usable at 2. destruct ((e_typ e =? MMAP_USABLE) && (0 <? e_len e)); [|done]. by rewrite <- app_assoc.
      * destruct ((e_typ e =? MMAP_USABLE) && (0 <? e_len e)); [rewrite length_app; cbn [length]|]; lia.
    + f_equal. by rewrite take_app_le, take_ge by lia.
Qed.

(** ** Module names *)

(** The part after the last slash. *)
Definition is_basename (l b : list Z) : Prop := ∃ pre, l = pre ++ b ∧ 47 ∉ b ∧ (pre = [] ∨ last pre = Some 47).

Lemma base_start_spec l : ∀ pre st, (st ≤ length pre)%nat → 47 ∉ drop st pre → (st = 0%nat ∨ pre !! (st - 1)%nat = Some 47) →
  let k := base_start (length pre) st l in
  (k ≤ length (pre ++ l))%nat ∧ 47 ∉ drop k (pre ++ l) ∧ (k = 0%nat ∨ (pre ++ l) !! (k - 1)%nat = Some 47).
Proof.
  induction l as [|c l IH]; intros pre st H1 H2 H3; cbn [base_start].
  - rewrite app_nil_r. done.
  - replace (pre ++ c :: l) with ((pre ++ [c]) ++ l) by (by rewrite <- app_assoc). replace (S (length pre)) with (length (pre ++ [c])) by (rewrite length_app; cbn; lia).
    apply IH.
    + rewrite length_app. cbn. destruct (c =? 47); lia.
    + destruct (Z.eqb_spec c 47).
      * rewrite drop_ge; [apply not_elem_of_nil|]. done.
      * rewrite drop_app_le by lia. set_solver.
    + destruct (Z.eqb_spec c 47) as [->|].
      * right. rewrite length_app. cbn. rewrite lookup_app_r by lia. by replace (length pre + 1 - 1 - length pre)%nat with 0%nat by lia.
      * destruct H3 as [->|H3]; [by left|]. right. by apply lookup_app_l_Some.
Qed.

Lemma basename_spec l : is_basename l (drop (base_start 0 0 l) l).
Proof.
  destruct (base_start_spec l [] 0 ltac:(done) ltac:(apply not_elem_of_nil) ltac:(by left)) as (H1 & H2 & H3). cbn [length app] in *.
  set (k := base_start 0 0 l) in *. exists (take k l). split; [by rewrite take_drop|]. split; [done|]. destruct H3 as [->|H3]; [by left|].
  destruct k as [|k]; [by left|]. right. rewrite last_lookup, length_take_le by done. cbn [Nat.pred]. cbn in H3. rewrite Nat.sub_0_r in H3.
  by rewrite lookup_take_lt by lia.
Qed.

Lemma cmd_bytes_spec m n : ∀ p cmd rest, bytes_at m p (cmd ++ 0 :: rest) → Forall (λ c, c ≠ 0) cmd → cmd_bytes m n p = take n cmd.
Proof.
  induction n as [|n IH]; intros p cmd rest Hat Hc; [by rewrite take_0|]. cbn [cmd_bytes]. destruct cmd as [|c cmd].
  - pose proof (bytes_at_nth m p _ 0 0 Hat eq_refl) as H. cbn [Z.of_nat] in H. rewrite Z.add_0_r in H. by rewrite H.
  - pose proof (bytes_at_nth m p _ 0 c Hat eq_refl) as H. cbn [Z.of_nat] in H. rewrite Z.add_0_r in H. rewrite H.
    apply Forall_cons in Hc as [Hc1 Hc2]. rewrite (proj2 (Z.eqb_neq _ _) Hc1). cbn [take]. f_equal. apply (IH _ _ rest); [|done].
    change ((c :: cmd) ++ 0 :: rest) with ([c] ++ cmd ++ 0 :: rest) in Hat. by apply bytes_at_app in Hat as [_ ?].
Qed.

(** ** Boot information of modules, memory maps and other tags *)

Inductive item :=
| IMod (s e : Z) (cmd more : list Z)
| IMmap (es ver : Z) (entries : list entry)
| IOther (typ : Z) (payload : list Z).

Definition item_tag (i : item) : tag :=
  match i with
  | IMod s e cmd more => (TAG_MODULE, le_bytes 4 s ++ le_bytes 4 e ++ cmd ++ 0 :: more)
  | IMmap es ver entries => (TAG_MMAP, le_bytes 4 es ++ le_bytes 4 ver ++ concat (entry_bytes <$> entries))
  | IOther typ payload => (typ, payload)
  end.

Definition item_ok (i : item) : Prop :=
  match i with
  | IMod s e cmd _ => 0 ≤ s < 2 ^ 32 ∧ 0 ≤ e < 2 ^ 32 ∧ Forall (λ c, c ≠ 0) cmd
  | IMmap es ver entries => 20 ≤ es < 2 ^ 31 ∧ Forall (entry_ok es) entries
  | IOther typ _ => 0 < typ < 2 ^ 32 ∧ typ ≠ TAG_MODULE ∧ typ ≠ TAG_MMAP
  end.

(** What each function is to find. *)
Definition item_module (i : item) : option (Z * Z * list Z) := match i with IMod s e cmd _ => Some (s, e, take 63 cmd) | _ => None end.
Definition item_mmap (i : item) : option (list entry) := match i with IMmap _ _ entries => Some entries | _ => None end.
Definition named (x : Z * Z * list Z) (mi : ModuleInfo) : Prop :=
  mi_start mi = x.1.1 ∧ mi_end mi = x.1.2 ∧ ∃ b, is_basename x.2 b ∧ mi_name mi = b ++ replicate (64 - length b) 0.

Lemma modules_spec m info cap items : ∀ off out, Forall item_ok items →
  Forall (λ x, bytes_at m (info + x.1 + 8) x.2.2) (placed off (item_tag <$> items)) → (length out ≤ cap)%nat →
  ∃ mods, run_tags (module_body m cap) info (placed off (item_tag <$> items)) out = take cap (out ++ mods) ∧ Forall2 named (omap item_module items) mods.
Proof.
  induction items as [|i items IH]; intros off out Hok Hp Hout.
  { exists []. split; [cbn; by rewrite app_nil_r, take_ge|constructor]. }
  apply Forall_cons in Hok as [Hi Hok]. rewrite fmap_cons in *. cbn [placed] in *. apply Forall_cons in Hp as [Hpi Hp]. cbn [fst snd] in Hpi.
  cbn [run_tags]. unfold module_body at 1. destruct i as [s e cmd more|es ver entries|typ pl].
  - destruct Hi as (Hs & He & Hc). cbn [item_tag fst snd] in Hpi |- *. rewrite Z.eqb_refl. cbn [andb].
    apply bytes_at_app in Hpi as [P1 P]. apply bytes_at_app in P as [P2 P]. rewrite !le_bytes_length in *.
    set (p := info + off) in *. replace (p + 8 + Z.of_nat 4 + Z.of_nat 4) with (p + 16) in P by lia. replace (p + 8 + Z.of_nat 4) with (p + 12) in P2 by lia.
    rewrite (rd_le m _ 4 _ P1 Hs), (rd_le m _ 4 _ P2 He). unfold module_name. rewrite (cmd_bytes_spec m 63 _ cmd more P Hc).
    set (mi := mkModuleInfo _ _ _). assert (named (s, e, take 63 cmd) mi) as Hn.
    { split; [done|]. split; [done|]. eexists. split; [apply basename_spec|done]. }
    destruct (Nat.ltb_spec (length out) cap) as [Hlt|Hge].
    + destruct (IH (next_off off (item_tag (IMod s e cmd more))) (out ++ [mi]) Hok Hp) as (mods & E & H2); [rewrite length_app; cbn; lia|].
      exists (mi :: mods). split; [etrans; [exact E|by rewrite <- app_assoc]|]. cbn [omap list_omap item_module]. by constructor.
    + destruct (IH (next_off off (item_tag (IMod s e cmd more))) out Hok Hp Hout) as (mods & E & H2).
      exists (mi :: mods). split; [etrans; [exact E|by rewrite !take_app_le by lia]|]. cbn [omap list_omap item_module]. by constructor.
  - cbn [item_tag fst]. change (TAG_MMAP =? TAG_MODULE) with false. cbn [andb]. exact (IH _ out Hok Hp Hout).
  - destruct Hi as (_ & Hm & _). cbn [item_tag fst]. rewrite (proj2 (Z.eqb_neq _ _) Hm). cbn [andb]. exact (IH _ out Hok Hp Hout).
Qed.

Lemma regions_spec m info cap items : ∀ off, 0 ≤ off → Forall item_ok items →
  Forall (λ x, bytes_at m (info + x.1 + 8) x.2.2) (placed off (item_tag <$> items)) →
  off + Z.of_nat (length (tags_bytes (item_tag <$> items))) < 2 ^ 31 →
  run_tags (mmap_body m info cap) info (placed off (item_tag <$> items)) (Done []) =
  Done (take cap (omap usable (default [] (head (omap item_mmap items))))).
Proof.
  induction items as [|i items IH]; intros off H0 Hok Hp Hb; [cbn; by rewrite take_nil|].
  apply Forall_cons in Hok as [Hi Hok]. rewrite fmap_cons in *. pose proof (placed_bound (item_tag i :: (item_tag <$> items)) off H0) as Hbd.
  cbn [placed] in *. apply Forall_cons in Hp as [Hpi Hp]. apply Forall_cons in Hbd as [Hbd _]. cbn [fst snd] in Hpi, Hbd.
  unfold tags_bytes in Hb. rewrite fmap_cons in Hb. cbn [concat] in Hb. rewrite <- app_assoc, length_app in Hb.
  pose proof (tag_bytes_length (item_tag i)) as Hl. pose proof (pad8_bound (tag_size (item_tag i))) as Hpad.
  assert (8 ≤ tag_size (item_tag i)) as Hsz by (unfold tag_size; lia). cbn [run_tags]. unfold mmap_body at 1.
  assert (∀ typ, (item_tag i).1 = typ → typ ≠ TAG_MMAP → item_mmap i = None →
    run_tags (mmap_body m info cap) info (placed (next_off off (item_tag i)) (item_tag <$> items)) (Done []) =
    Done (take cap (omap usable (default [] (head (omap item_mmap (i :: items))))))) as Hskip.
  { intros typ Ht Hne Hnone. cbn [omap list_omap]. rewrite Hnone. apply IH; [unfold next_off; lia|done|done|unfold next_off; unfold tags_bytes in *; lia]. }
  destruct i as [s e cmd more|es ver entries|typ pl].
  - cbn [item_tag fst]. change (TAG_MODULE =? TAG_MMAP) with false. by apply (Hskip TAG_MODULE).
  - destruct Hi as (Hes & Hents). cbn [item_tag fst snd] in Hpi |- *. rewrite Z.eqb_refl.
    apply bytes_at_app in Hpi as [P1 P]. apply bytes_at_app in P as [_ P]. rewrite !le_bytes_length in *. set (p := info + off) in *.
    change (Z.of_nat 4) with 4 in *. rewrite <- (Z.add_assoc (p + 8)) in P. rewrite (rd_le m _ 4 _ P1) by lia. rewrite (proj2 (Z.ltb_ge _ _)) by lia.
    assert (tag_size (item_tag (IMmap es ver entries)) = 16 + es * Z.of_nat (length entries)) as Hts.
    { unfold tag_size. cbn [item_tag snd]. rewrite !length_app, !le_bytes_length.
      assert (Z.of_nat (length (concat (entry_bytes <$> entries))) = es * Z.of_nat (length entries)) as Hc; [|lia].
      clear -Hents. induction Hents as [|e l He _ IHl]; [cbn; lia|]. cbn [fmap list_fmap concat length]. rewrite length_app. pose proof (entry_bytes_length es e He). lia. }
    cbn [item_tag] in Hts. rewrite Hts. unfold w32. cbn [item_tag] in Hbd. rewrite Hts in Hbd. cbn [item_tag] in Hl, Hpad. rewrite Hts in Hl, Hpad.
    assert (off + (16 + es * Z.of_nat (length entries)) < 2 ^ 31) as Hlt by (cbn [item_tag] in Hb; lia). clear Hb Hbd Hl Hpad.
    pose proof (Z.mul_nonneg_nonneg es (Z.of_nat (length entries)) ltac:(lia) ltac:(lia)). rewrite !Z.mod_small by lia. cbn [cbind].
    replace (off + (16 + es * Z.of_nat (length entries))) with (off + 16 + es * Z.of_nat (length entries)) by lia.
    rewrite mmap_loop_spec; [done|done|lia|lia|done| | |cbn; lia].
    + replace (info + (off + 16)) with (p + 8 + (4 + 4)) by lia. exact P.
    + unfold mmap_fuel. nia.
  - destruct Hi as (_ & _ & Hm). cbn [item_tag fst]. rewrite (proj2 (Z.eqb_neq _ _) Hm). by apply (Hskip typ).
Qed.

(** Walks that only ask for the types. *)
Lemma efi_spec info ts : ∀ off, run_tags efi_body info (placed off ts) false = existsb (λ t, is_efi t.1) ts.
Proof. induction ts as [|t ts IH]; intros off; [done|]. cbn [placed run_tags existsb]. unfold efi_body at 1. destruct (is_efi t.1); [done|apply IH]. Qed.

Lemma acpi_spec info ts : ∀ off a b, run_tags acpi_body info (placed off ts) (a, b) =
  (a || existsb (λ t : tag, t.1 =? TAG_ACPI_OLD) ts, b || existsb (λ t : tag, t.1 =? TAG_ACPI_NEW) ts).
Proof.
  induction ts as [|t ts IH]; intros off a b; [by rewrite !orb_false_r|]. cbn [placed run_tags existsb]. unfold acpi_body at 1. cbn [fst snd].
  destruct (Z.eqb_spec t.1 TAG_ACPI_OLD) as [->|]; [rewrite IH; change (TAG_ACPI_OLD =? TAG_ACPI_NEW) with false; by rewrite orb_true_r|].
  destruct (Z.eqb_spec t.1 TAG_ACPI_NEW); rewrite IH; cbn [orb]; by rewrite ?orb_true_r.
Qed.

(** C24: The boot information decodes: from tags laid out as GRUB does,
    memory_regions returns the usable entries of the first memory map and
    find_modules the modules with the base names of their command lines, each
    up to the space of the caller, and the tests for EFI and ACPI tags answer
    whether there are such. *)
Lemma boot_info_decodes m info cap items :
  Forall item_ok items → mbi_at m info (item_tag <$> items) →
  memory_regions m info cap = Done (take cap (omap usable (default [] (head (omap item_mmap items))))) ∧
  (∃ mods, find_modules m info cap = Done (take cap mods) ∧ Forall2 named (omap item_module items) mods) ∧
  uefi_handoff m info = Done (existsb (λ i, is_efi (item_tag i).1) items) ∧
  acpi_tags m info = Done (existsb (λ i, (item_tag i).1 =? TAG_ACPI_OLD) items, existsb (λ i, (item_tag i).1 =? TAG_ACPI_NEW) items).
Proof.
  intros Hok Hm. pose proof (mbi_payloads m info _ Hm) as Hp. pose proof Hm as (_ & Hsz & _). unfold mbi_size in Hsz.
  assert (∀ f, existsb f (item_tag <$> items) = existsb (λ i, f (item_tag i)) items) as He.
  { intros f. clear. induction items as [|i items IH]; [done|]. cbn. by rewrite IH. }
  split; [|split; [|split]].
  - unfold memory_regions. rewrite (walk_tags_run m info _ _ _ Hm). cbn [cbind]. by apply regions_spec.
  - destruct (modules_spec m info cap items 8 [] Hok Hp ltac:(cbn; lia)) as (mods & H1 & H2). exists mods.
    unfold find_modules. by rewrite (walk_tags_run m info _ _ _ Hm), H1.
  - unfold uefi_handoff. by rewrite (walk_tags_run m info _ _ _ Hm), efi_spec, He.
  - unfold acpi_tags. by rewrite (walk_tags_run m info _ _ _ Hm), acpi_spec, !He.
Qed.

(** ** Instances *)

(** A module [/boot/sh], two ranges of memory and an EFI memory map. *)
Definition grub_items : list item :=
  [IMod 0x200000 0x240000 [47; 98; 111; 111; 116; 47; 115; 104] [];
   IMmap 24 0 [mkEntry 0 0x9fc00 1 [0; 0; 0; 0]; mkEntry 0x9fc00 0x400 2 [0; 0; 0; 0]; mkEntry 0x100000 0x1000000 1 [0; 0; 0; 0]];
   IOther 17 [0; 0; 0; 0]].
Definition grub_bytes : list Z :=
  let ts := item_tag <$> grub_items in le_bytes 4 (mbi_size ts) ++ le_bytes 4 0 ++ tags_bytes ts.
Definition grub_mem : gmap Z Z := mem_write 0x9000 grub_bytes ∅.

Lemma grub_at : mbi_at grub_mem 0x9000 (item_tag <$> grub_items).
Proof.
  split; [apply mem_read_write|]. split; [vm_compute; reflexivity|].
  unfold grub_items. cbn [fmap list_fmap]. repeat (constructor; [cbn [item_tag fst]; unfold TAG_MODULE, TAG_MMAP; lia|]). constructor.
Qed.

Lemma grub_ok : Forall item_ok grub_items.
Proof.
  unfold grub_items. apply Forall_cons. split; [split_and!; [lia..|]; by apply Forall_forall; intros c Hc; set_unfold; lia|].
  apply Forall_cons. split; [split; [lia|]; apply Forall_forall; intros e He; set_unfold; destruct He as [->|[->|[->|[]]]]; unfold entry_ok; cbn; lia|].
  apply Forall_cons. split; [|constructor]. unfold item_ok, TAG_MODULE, TAG_MMAP. lia.
Qed.

Lemma boot_info_decodes_witness :
  memory_regions grub_mem 0x9000 32 = Done [mkMemRegion 0 0x9fc00; mkMemRegion 0x100000 0x1000000] ∧ uefi_handoff grub_mem 0x9000 = Done true.
Proof.
  destruct (boot_info_decodes grub_mem 0x9000 32 grub_items grub_ok grub_at) as (H1 & _ & H2 & _). split; [exact H1|exact H2].
Defined.

Example grub_module : find_modules grub_mem 0x9000 32 = Done [mkModuleInfo 0x200000 0x240000 ([115; 104] ++ replicate 62 0)].
Proof. vm_compute. reflexivity. Qed.

(** A size is not compared with the total: one that wraps around leads back to
    the tag before, and the walk never ends. *)
Example tag_size_wraps : find_framebuffer (mem_write 0x9000 (le_bytes 4 32 ++ le_bytes 4 0 ++ le_bytes 4 1 ++ le_bytes 4 8 ++ le_bytes 4 1 ++ le_bytes 4 0xFFFFFFF8) ∅) 0x9000 = Spin.
Proof. vm_compute. reflexivity. Qed.

(** ** Colour fields *)

(** What makes a descriptor usable: three fields of 1 to 8 bits inside the
    pixel that do not overlap. *)
Definition field_ok (bpp : Z) (f : Z * Z) : Prop := 1 ≤ f.2 ≤ 8 ∧ f.1 + f.2 ≤ 32 ∧ f.1 + f.2 ≤ bpp.
Definition apart (f g : Z * Z) : Prop := f.1 + f.2 ≤ g.1 ∨ g.1 + g.2 ≤ f.1.

Lemma mark_bits_spec n : ∀ bit offs, (bit + n ≤ length offs)%nat →
  match mark_bits n bit offs with
  | Some offs' => (∀ i, (bit ≤ i < bit + n)%nat → offs !! i = Some false) ∧ length offs' = length offs ∧
      ∀ i, (i < length offs)%nat → offs' !! i = if decide (bit ≤ i < bit + n)%nat then Some true else offs !! i
  | None => ∃ i, (bit ≤ i < bit + n)%nat ∧ offs !! i = Some true
  end.
Proof.
  induction n as [|n IH]; intros bit offs Hl; cbn [mark_bits].
  - split; [lia|]. split; [done|]. intros i Hi. by rewrite decide_False by lia.
  - destruct (lookup_lt_is_Some_2 offs bit ltac:(lia)) as [b Hb]. rewrite Hb. cbn [default]. destruct b; [exists bit; split; [lia|done]|].
    specialize (IH (S bit) (<[bit:=true]> offs)). rewrite length_insert in IH. specialize (IH ltac:(lia)).
    destruct (mark_bits n (S bit) (<[bit:=true]> offs)) as [offs'|].
    + destruct IH as (H1 & H2 & H3). split_and!; [|done|].
      * intros i Hi. destruct (decide (i = bit)) as [->|]; [done|]. rewrite <- (H1 i) by lia. by rewrite list_lookup_insert_ne by lia.
      * intros i Hi. rewrite H3 by done. destruct (decide (i = bit)) as [->|].
        -- rewrite decide_False, decide_True by lia. apply list_lookup_insert_eq. lia.
        -- rewrite list_lookup_insert_ne by lia. destruct (decide (S bit ≤ i < S bit + n)%nat); [by rewrite decide_True by lia|by rewrite decide_False by lia].
    + destruct IH as (i & Hi & Hb'). rewrite list_lookup_insert_ne in Hb' by lia. exists i. split; [lia|done].
Qed.

(** The table marks exactly the bits of the fields seen. *)
Definition marks (fs : list (Z * Z)) (offs : list bool) : Prop :=
  length offs = 32%nat ∧ ∀ i, (i < 32)%nat → offs !! i = Some (existsb (λ f, (f.1 <=? Z.of_nat i) && (Z.of_nat i <? f.1 + f.2)) fs).

Lemma marks_push dn pos mask offs offs' :
  marks dn offs → 0 ≤ pos → 0 < mask → pos + mask ≤ 32 →
  mark_bits (Z.to_nat mask) (Z.to_nat pos) offs = Some offs' → marks (dn ++ [(pos, mask)]) offs' ∧ Forall (λ g, 1 ≤ g.2 → apart (pos, mask) g) dn.
Proof.
  intros [Hl Hm] Hp Hk Hb E. pose proof (mark_bits_spec (Z.to_nat mask) (Z.to_nat pos) offs ltac:(lia)) as H. rewrite E in H. destruct H as (H1 & H2 & H3).
  split; [split; [lia|]|].
  - intros i Hi. rewrite H3 by lia. rewrite existsb_app. cbn [existsb fst snd]. rewrite orb_false_r. case_decide as Hd.
    + rewrite (proj2 (Z.leb_le _ _)), (proj2 (Z.ltb_lt _ _)) by lia. cbn [andb]. by rewrite orb_true_r.
    + rewrite Hm by done. f_equal. destruct (Z.leb_spec pos (Z.of_nat i)); [|by rewrite orb_false_r]. rewrite (proj2 (Z.ltb_ge _ _)) by lia. by rewrite orb_false_r.
  - apply Forall_forall. intros g Hg Hg2. unfold apart. cbn [fst snd]. destruct (decide (pos + mask ≤ g.1)); [by left|]. destruct (decide (g.1 + g.2 ≤ pos)); [by right|]. exfalso.
    set (x := Z.max pos g.1). specialize (H1 (Z.to_nat x) ltac:(lia)). rewrite Hm in H1 by lia. injection H1 as H1.
    apply not_true_iff_false in H1. apply H1, existsb_exists. exists g. split; [by apply list_elem_of_In|]. rewrite Z2Nat.id by lia.
    apply andb_true_iff. split; [apply Z.leb_le|apply Z.ltb_lt]; lia.
Qed.

Lemma marks_taken dn pos mask offs : marks dn offs → 0 ≤ pos → 0 < mask → pos + mask ≤ 32 →
  mark_bits (Z.to_nat mask) (Z.to_nat pos) offs = None → ∃ g, g ∈ dn ∧ ¬ apart (pos, mask) g.
Proof.
  intros [Hl Hm] Hp Hk Hb E. pose proof (mark_bits_spec (Z.to_nat mask) (Z.to_nat pos) offs ltac:(lia)) as H. rewrite E in H. destruct H as (i & Hi & H).
  rewrite Hm in H by lia. injection H as H. apply existsb_exists in H as (g & Hg & H). apply andb_true_iff in H as [A%Z.leb_le B%Z.ltb_lt].
  exists g. split; [by apply list_elem_of_In|]. unfold apart. cbn [fst snd]. lia.
Qed.

Lemma mark_fields_spec fields : ∀ dn offs, marks dn offs → Forall (λ f, 0 ≤ f.1 ∧ 0 ≤ f.2) fields → Forall (λ f, 1 ≤ f.2) dn →
  (is_Some (mark_fields fields offs) ↔
   Forall (λ f, 1 ≤ f.2 ≤ 8 ∧ f.1 + f.2 ≤ 32) fields ∧ ∀ i f g, fields !! i = Some f → g ∈ dn ++ take i fields → apart f g).
Proof.
  induction fields as [|[pos mask] fields IH]; intros dn offs Hm H0 H1; cbn [mark_fields].
  { split; [intros _; split; [constructor|done]|by eexists]. }
  apply Forall_cons in H0 as [[Hp Hk] H0]. cbn [fst snd] in Hp, Hk.
  assert (Forall (λ f : Z * Z, 1 ≤ f.2 ≤ 8 ∧ f.1 + f.2 ≤ 32) ((pos, mask) :: fields) → 1 ≤ mask ≤ 8 ∧ pos + mask ≤ 32) as Hhd.
  { intros H. apply Forall_cons in H as [H _]. exact H. }
  destruct (Z.eqb_spec mask 0); cbn [orb]; [split; [by intros []|]; intros [H _]; apply Hhd in H; lia|].
  destruct (Z.ltb_spec 8 mask); [split; [by intros []|]; intros [H' _]; apply Hhd in H'; lia|].
  destruct (Z.ltb_spec 32 (pos + mask)); [split; [by intros []|]; intros [H' _]; apply Hhd in H'; lia|].
  destruct (mark_bits (Z.to_nat mask) (Z.to_nat pos) offs) as [offs'|] eqn:E.
  - destruct (marks_push dn pos mask offs offs' Hm ltac:(lia) ltac:(lia) ltac:(lia) E) as [Hm' Hap].
    rewrite (IH _ _ Hm' H0) by (apply Forall_app; split; [done|]; constructor; [cbn; lia|constructor]). split; intros [Ha Hb]; split.
    + constructor; [cbn; lia|done].
    + intros [|i] f g Hf Hg.
      * injection Hf as <-. cbn [take] in Hg. rewrite app_nil_r in Hg. rewrite Forall_forall in Hap, H1. apply Hap; [done|by apply H1].
      * apply (Hb i f g Hf). cbn [take] in Hg. by rewrite <- app_assoc.
    + by apply Forall_cons in Ha as [_ Ha].
    + intros i f g Hf Hg. apply (Hb (S i) f g Hf). cbn [take]. by rewrite <- app_assoc in Hg.
  - split; [by intros []|]. intros [_ Hb]. destruct (marks_taken dn pos mask offs Hm ltac:(lia) ltac:(lia) ltac:(lia) E) as (g & Hg & Hn).
    exfalso. apply Hn, (Hb 0%nat (pos, mask) g eq_refl). by rewrite app_nil_r.
Qed.

Definition rgb_bytes (d : RgbDesc) : Prop :=
  Forall (λ f : Z * Z, 0 ≤ f.1 < 256 ∧ 0 ≤ f.2 < 256) [(red_pos d, red_mask d); (green_pos d, green_mask d); (blue_pos d, blue_mask d)].

(** The check decides it. *)
Lemma is_sane_iff d bpp : rgb_bytes d →
  (is_sane d bpp = true ↔
   field_ok bpp (red_pos d, red_mask d) ∧ field_ok bpp (green_pos d, green_mask d) ∧ field_ok bpp (blue_pos d, blue_mask d) ∧
   apart (red_pos d, red_mask d) (green_pos d, green_mask d) ∧ apart (red_pos d, red_mask d) (blue_pos d, blue_mask d) ∧
   apart (green_pos d, green_mask d) (blue_pos d, blue_mask d)).
Proof.
  intros Hb. unfold is_sane. set (r := (red_pos d, red_mask d)). set (g := (green_pos d, green_mask d)). set (b := (blue_pos d, blue_mask d)).
  assert (marks [] (replicate 32 false)) as Hm0 by (split; [done|]; intros i Hi; rewrite lookup_replicate_2 by done; done).
  assert (Forall (λ f : Z * Z, 0 ≤ f.1 ∧ 0 ≤ f.2) [r; g; b]) as H0 by (eapply Forall_impl; [exact Hb|]; intros f Hf; cbn in Hf; lia).
  pose proof (mark_fields_spec [r; g; b] [] _ Hm0 H0 ltac:(constructor)) as [S1 S2].
  assert (∀ x y, apart x y → apart y x) as Hsym by (unfold apart; naive_solver). split.
  - destruct (mark_fields [r; g; b] (replicate 32 false)); [|done]. destruct (S1 ltac:(by eexists)) as [F A].
    apply Forall_cons in F as [F1 F]. apply Forall_cons in F as [F2 F]. apply Forall_cons in F as [F3 _]. subst r g b. cbn [fst snd] in *.
    pose proof (proj1 (Forall_forall _ _) Hb) as Hbb. assert (∀ f, f ∈ [(red_pos d, red_mask d); (green_pos d, green_mask d); (blue_pos d, blue_mask d)] → 0 ≤ f.1) as Hnn by (intros f Hf; apply (Hbb f Hf)).
    pose proof (Hnn (red_pos d, red_mask d) ltac:(apply list_elem_of_here)). pose proof (Hnn (green_pos d, green_mask d) ltac:(apply list_elem_of_further, list_elem_of_here)).
    pose proof (Hnn (blue_pos d, blue_mask d) ltac:(do 2 apply list_elem_of_further; apply list_elem_of_here)). cbn [fst] in *.
    unfold w8. rewrite !Z.mod_small by lia. rewrite !andb_true_iff, !Z.leb_le. intros [[L1 L2] L3]. unfold field_ok. cbn [fst snd].
    pose proof (A 1%nat _ (red_pos d, red_mask d) eq_refl ltac:(cbn; apply list_elem_of_here)). pose proof (A 2%nat _ (red_pos d, red_mask d) eq_refl ltac:(cbn; apply list_elem_of_here)).
    pose proof (A 2%nat _ (green_pos d, green_mask d) eq_refl ltac:(cbn; apply list_elem_of_further, list_elem_of_here)). auto 10 with lia.
  - intros (F1 & F2 & F3 & A1 & A2 & A3). destruct S2 as [x ->].
    + split; [repeat constructor; apply F1 || apply F2 || apply F3|]. intros [|[|[|i]]] x y Hx Hy; [injection Hx as <-..|done].
      * by apply elem_of_nil in Hy.
      * cbn in Hy. apply list_elem_of_singleton in Hy as ->. by apply Hsym.
      * cbn in Hy. apply elem_of_cons in Hy as [->|Hy]; [by apply Hsym|]. apply list_elem_of_singleton in Hy as ->. by apply Hsym.
    + subst r g b. unfold field_ok in *. cbn [fst snd] in *. apply Forall_cons in Hb as [B1 Hb]. apply Forall_cons in Hb as [B2 Hb]. apply Forall_cons in Hb as [B3 _]. cbn [fst snd] in *.
      unfold w8. rewrite !Z.mod_small by lia. rewrite !(proj2 (Z.leb_le _ _)) by lia. done.
Qed.

Lemma framebuffer_loop m info n : ∀ off r fb, tag_loop m info (framebuffer_body m) n off r = Done (Some fb) →
  r = Some fb ∨ ∃ p, fb_bpp fb = rd m 1 (p + 28) ∧ fb_rgb fb = pick_rgb m p (fb_bpp fb).
Proof.
  induction n as [|n IH]; intros off r fb; cbn [tag_loop]; destruct (_ <=? _); try (intros [= ->]; by left).
  all: destruct (_ =? TAG_END); try (intros [= ->]; by left). all: destruct (_ <? 8); try (intros [= ->]; by left).
  all: unfold framebuffer_body at 1; destruct (_ && _).
  1, 3: intros [= <-]; right; exists (info + off); done.
  - done.
  - apply IH.
Qed.

(** The colour layout handed to the console is usable whenever the pixel
    format has one: for 15, 16 and 24 bits and more, the three fields have 1
    to 8 bits, lie inside the pixel and do not overlap, whatever the boot
    loader wrote. *)
Lemma framebuffer_colours m info fb :
  (∀ x, is_byte (getd 0 m x)) → find_framebuffer m info = Done (Some fb) → fb_bpp fb = 15 ∨ fb_bpp fb = 16 ∨ 24 ≤ fb_bpp fb →
  let d := fb_rgb fb in
  field_ok (fb_bpp fb) (red_pos d, red_mask d) ∧ field_ok (fb_bpp fb) (green_pos d, green_mask d) ∧ field_ok (fb_bpp fb) (blue_pos d, blue_mask d) ∧
  apart (red_pos d, red_mask d) (green_pos d, green_mask d) ∧ apart (red_pos d, red_mask d) (blue_pos d, blue_mask d) ∧
  apart (green_pos d, green_mask d) (blue_pos d, blue_mask d).
Proof.
  intros Hm H Hb d. destruct (framebuffer_loop m info _ _ _ _ H) as [?|(p & Hp & Hd)]; [done|]. set (bpp := fb_bpp fb) in *.
  assert (∀ a, rgb_bytes (read_rgb m a 30) ∧ rgb_bytes (read_rgb m a 32)) as Hrd.
  { assert (∀ a, 0 ≤ rd m 1 a < 256) as R by (intros a; apply (le_value_bound (mem_read a 1 m)); repeat constructor; apply Hm).
    intros a. split; (repeat constructor; cbn [fst snd read_rgb red_pos red_mask green_pos green_mask blue_pos blue_mask]; apply R). }
  assert (rgb_bytes d ∧ is_sane d bpp = true) as [Hbytes Hs]; [|by apply is_sane_iff].
  unfold d. rewrite Hd. unfold pick_rgb. destruct (is_sane (read_rgb m p 30) bpp) eqn:E1; [split; [apply Hrd|done]|].
  destruct (is_sane (read_rgb m p 32) bpp) eqn:E2; [split; [apply Hrd|done]|].
  assert (rgb_bytes (default_rgb bpp)) as Hdb by (unfold default_rgb; repeat case_match; repeat constructor; cbn; lia).
  split; [done|]. apply is_sane_iff; [done|]. unfold default_rgb, field_ok, apart. destruct (Z.eqb_spec bpp 15); [cbn; lia|]. destruct (Z.eqb_spec bpp 16); cbn; lia.
Qed.

Definition fb_bytes : list Z :=
  let ts := [(TAG_FRAMEBUFFER, le_bytes 8 0xFD000000 ++ le_bytes 4 4096 ++ le_bytes 4 1024 ++ le_bytes 4 768 ++ [32; 1; 16; 8; 12; 8; 0; 8])] in
  le_bytes 4 (mbi_size ts) ++ le_bytes 4 0 ++ tags_bytes ts.

(** The descriptor at 30 has green over red; the default is taken. *)
Lemma framebuffer_colours_witness : apart (16, 8) (8, 8) ∧
  find_framebuffer (mem_write 0x9000 fb_bytes ∅) 0x9000 = Done (Some (mkFb 0xFD000000 4096 1024 768 32 1 (mkRgb 16 8 8 8 0 8))).
Proof.
  assert (find_framebuffer (mem_write 0x9000 fb_bytes ∅) 0x9000 = Done (Some (mkFb 0xFD000000 4096 1024 768 32 1 (mkRgb 16 8 8 8 0 8)))) as E by (vm_compute; reflexivity).
  split; [|exact E]. refine (proj1 (proj2 (proj2 (proj2 (framebuffer_colours (mem_write 0x9000 fb_bytes ∅) 0x9000 _ _ E _))))).
  - intros x. rewrite mem_write_get. case_decide as Hx; [|by rewrite getd_empty]. revert Hx. set (i := Z.to_nat (x - 0x9000)). intros Hx.
    assert (Forall is_byte fb_bytes) as Hf by (vm_compute; repeat (constructor; [split; congruence|]); constructor).
    rewrite Forall_lookup in Hf. apply (Hf i). apply list_lookup_lookup_total_lt. lia.
  - cbn. right. right. lia.
Defined.

(** With 8 bits per pixel the default has fields outside the pixel. *)
Example default_insane : is_sane (default_rgb 8) 8 = false.
Proof. reflexivity. Qed.
