(* ===== verification/MemInit.v ===== *)
(** * Start of the memory: [src/memory/mod.rs]

    The largest usable region of the boot information becomes the memory of
    the allocator; the pages of the kernel, of the modules, of the boot
    information and of the allocator's own tables are carved out of it.  The
    boundaries of the kernel image are what the linker says. *)

From S2P Require Import Prelude Orders Bytes Buddy Sched Mbi Mm.
From stdpp Require Import base gmap numbers list.
Local Open Scope Z_scope.

Definition MAX_REGIONS : nat := 32.
Definition MAX_MODULE_REGIONS : nat := 32.
Definition IDENTITY_LIMIT : Z := Z.shiftl 1 30.
(** The lengths of the two tables of [add_free_region_skipping]. *)
Definition RESERVED_CAP : nat := 34.
Definition MERGED_CAP : nat := 32.
Definition ARENA_SIZE : Z := 2 * MAX_REFC_PAGES.

Record boot_mem := mkBootMem {
  bm_km : kmem;
  bm_mem : gmap Z Z;
  bm_modules : list (Z * Z);
  bm_bases : option (Z * Z);
  bm_total : Z;
}.

Definition is_in_module_region (addr : Z) (mods : list (Z * Z)) : bool :=
  existsb (λ r, (r.1 <=? addr) && (addr <? r.2)) mods.

(** ** [add_free_region_skipping] *)

(** [reserved[rcount] = x] with its bounds check. *)
Definition push_reserved (x : Z * Z) (l : list (Z * Z)) : comp (list (Z * Z)) :=
  if (length l <? RESERVED_CAP)%nat then Done (l ++ [x]) else Panic.

Fixpoint reserve_modules (start end_ : Z) (mods : list ModuleInfo) (l : list (Z * Z)) : comp (list (Z * Z)) :=
  match mods with
  | [] => Done l
  | x :: mods =>
      let ms := page_align_down (mi_start x) in
      let me := page_align_up (mi_end x) in
      let! l := if (ms <? end_) && (start <? me) then
                  let rs := Z.max ms start in
                  let re := Z.min me end_ in
                  if rs <? re then push_reserved (rs, re) l else Done l
                else Done l in
      reserve_modules start end_ mods l
  end.

Definition reserved_list (start end_ : Z) (mods : list ModuleInfo) (info_page arena_base arena_size bss_start bss_end : Z) : comp (list (Z * Z)) :=
  let! l := if (arena_base <? end_) && (start <? w64 (arena_base + arena_size))
            then push_reserved (Z.max arena_base start, Z.min (w64 (arena_base + arena_size)) end_) [] else Done [] in
  let! l := if (bss_start <? end_) && (start <? bss_end)
            then push_reserved (Z.max bss_start start, Z.min bss_end end_) l else Done l in
  let! l := reserve_modules start end_ mods l in
  if (start <=? info_page) && (info_page <? end_) then push_reserved (info_page, info_page + PAGE_SIZE) l else Done l.

(** One turn of the outer loop: the entry [i] is exchanged with every later
    one that starts below it. *)
Fixpoint exchange (x : Z * Z) (l : list (Z * Z)) : (Z * Z) * list (Z * Z) :=
  match l with
  | [] => (x, [])
  | y :: l =>
      if y.1 <? x.1 then let '(z, l) := exchange y l in (z, x :: l)
      else let '(z, l) := exchange x l in (z, y :: l)
  end.

Fixpoint sort_loop (n : nat) (l : list (Z * Z)) : list (Z * Z) :=
  match n, l with
  | S n', x :: l => let '(x, l) := exchange x l in x :: sort_loop n' l
  | _, _ => l
  end.

(** [merged] with the last entry first. *)
Fixpoint merge_loop (l acc : list (Z * Z)) : comp (list (Z * Z)) :=
  match l with
  | [] => Done (reverse acc)
  | (rs, re) :: l =>
      match acc with
      | (ms, me) :: acc' =>
          if me <? rs then
            if (length acc <? MERGED_CAP)%nat then merge_loop l ((rs, re) :: acc) else Panic
          else if me <? re then merge_loop l ((ms, re) :: acc')
          else merge_loop l acc
      | [] => merge_loop l [(rs, re)]
      end
  end.

Fixpoint gap_loop (merged : list (Z * Z)) (cur : Z) (s : kmem) : comp (Z * kmem) :=
  match merged with
  | [] => Done (cur, s)
  | (rs, re) :: merged =>
      let! s := if cur <? rs then add_region cur (rs - cur) s else Done s in
      gap_loop merged (Z.max cur re) s
  end.

Definition add_free_region_skipping (start end_ : Z) (mods : list ModuleInfo) (info_page arena_base arena_size bss_start bss_end : Z) (s : kmem) : comp kmem :=
  let! l := reserved_list start end_ mods info_page arena_base arena_size bss_start bss_end in
  let! merged := merge_loop (sort_loop (length l) l) [] in
  let! (cur, s) := gap_loop merged start s in
  if cur <? end_ then add_region cur (end_ - cur) s else Done s.

(** ** [init] *)

(** The usable bytes of whole pages of a region. *)
Definition region_usable (r : MemRegion) : Z :=
  let a_start := page_align_up (mr_base r) in
  let a_end := page_align_down (w64 (mr_base r + mr_len r)) in
  if a_start <? a_end then a_end - a_start else 0.

Fixpoint best_loop (i : nat) (rs : list MemRegion) (best : Z) (best_idx : nat) : Z * nat :=
  match rs with
  | [] => (best, best_idx)
  | r :: rs => if best <? region_usable r then best_loop (S i) rs (region_usable r) i else best_loop (S i) rs best best_idx
  end.

Definition first_module (mods : list ModuleInfo) (end_ : Z) : Z :=
  fold_left (λ f x, let ms := page_align_down (mi_start x) in if ms <? f then ms else f) mods end_.

Section init.
Context (kernel_start kernel_data_end kernel_bss_start kernel_bss_end : Z).

(** The free pages: below the kernel and from the first module up when the
    kernel is in the region, everything otherwise. *)
Definition register_regions (base pages info_page arena_base : Z) (mods : list ModuleInfo) (s : kmem) : comp kmem :=
  let ks := page_align_down kernel_start in
  let kd := page_align_up kernel_data_end in
  let bs := page_align_down kernel_bss_start in
  let be := page_align_up kernel_bss_end in
  let top := base + pages * PAGE_SIZE in
  let first_module_start := first_module mods top in
  if (base <=? ks) && (ks <? top) then
    let adj_end := if top <? kd then top else kd in
    let! s := add_free_region_skipping base ks mods info_page arena_base ARENA_SIZE bs be s in
    let! s := mark_allocated ks (adj_end - ks) s in
    let! s := mark_allocated bs (be - bs) s in
    let! s := if adj_end <? first_module_start then mark_allocated adj_end (first_module_start - adj_end) s else Done s in
    if first_module_start <? top
    then add_free_region_skipping first_module_start top mods info_page arena_base ARENA_SIZE bs be s
    else Done s
  else add_free_region_skipping base top mods info_page arena_base ARENA_SIZE bs be s.

(** The end of the region of the allocator down by the arena, at a multiple of
    the size of its tables. *)
Definition arena_at (base pages : Z) : Z := Z.ldiff (w64 (base + pages * PAGE_SIZE - ARENA_SIZE)) (MAX_REFC_PAGES - 1).

Definition mem_init (info : Z) (x : boot_mem) : comp boot_mem :=
  let! regions := memory_regions (bm_mem x) info MAX_REGIONS in
  let '(best, best_idx) := best_loop 0 regions 0 0 in
  match regions !! best_idx with
  | None => Done x
  | Some region =>
      if best <? PAGE_SIZE then Done x
      else
        let base := page_align_up (mr_base region) in
        let end_ := page_align_down (w64 (mr_base region + mr_len region)) in
        let pages := (end_ - base) / PAGE_SIZE in
        if IDENTITY_LIMIT <=? base then Done x
        else
          let max_pages := (IDENTITY_LIMIT - base) / PAGE_SIZE in
          let pages := if max_pages <? pages then max_pages else pages in
          let s := init base pages (bm_km x) in
          let arena_base := arena_at base pages in
          let m := mem_zero arena_base ARENA_SIZE (bm_mem x) in
          let! mods := find_modules m info MAX_MODULE_REGIONS in
          let regs := (λ y, (page_align_down (mi_start y), page_align_up (mi_end y))) <$> mods in
          let! s := register_regions base pages (page_align_down info) arena_base mods s in
          let! s := mark_allocated arena_base ARENA_SIZE s in
          Done (mkBootMem s m regs (Some (arena_base, arena_base + MAX_REFC_PAGES)) pages)
  end.
End init.

(** [sanitize_task_pml4s]: what [init] does to the task table at the end. *)
Definition sanitize_task (mods : list (Z * Z)) (t : utask) : utask :=
  if negb (u_id t =? 0)%nat && negb (state_eqb (u_state t) TEmpty) && negb (u_pml4 t =? 0) && is_in_module_region (u_pml4 t) mods
  then mkUtask (u_id t) (u_state t) (u_user_stack t) 0 else t.
Definition sanitize_task_pml4s (mods : list (Z * Z)) (ts : list utask) : list utask := sanitize_task mods <$> ts.

(** ** The global allocator of the Rust runtime *)

(** A null pointer when there is no block. *)
Definition global_alloc (size : Z) (s : kmem) : Z * kmem :=
  let size := Z.ldiff (w64 (size + 4095)) 4095 in
  let '(r, s) := alloc (order_loop 11 0 size) s in
  (default 0 r, s).

Definition global_dealloc (ptr size : Z) (s : kmem) : comp kmem := free 0 ptr (order_loop 11 0 size) s.
