(* ===== verification/MemInitClaims.v ===== *)
(** * The memory the allocator starts with

    The pages carved out of the region, and that the state [mem_init] leaves
    is one the theorems on the allocator start from. *)

From S2P Require Import Prelude Orders Bytes Buddy BuddyInv BuddyFree BuddySpec Sched Mbi MbiClaims Mm MemInit.
From Stdlib Require Import Lia ZArith.
From stdpp Require Import base gmap numbers list sorting relations.
Local Open Scope Z_scope.

Definition aligned (z : Z) : Prop := (PAGE_SIZE | z).
Definition covers (l : list (Z * Z)) (p : Z) : Prop := ∃ r, r ∈ l ∧ r.1 ≤ p < r.2.
Notation by_start := (StronglySorted (λ a b : Z * Z, a.1 ≤ b.1)).

Lemma covers_cons r l p : covers (r :: l) p ↔ r.1 ≤ p < r.2 ∨ covers l p.
Proof. unfold covers. setoid_rewrite elem_of_cons. naive_solver. Qed.

Lemma covers_app l1 l2 p : covers (l1 ++ l2) p ↔ covers l1 p ∨ covers l2 p.
Proof. unfold covers. setoid_rewrite elem_of_app. naive_solver. Qed.

Lemma covers_perm l l' p : l ≡ₚ l' → covers l p ↔ covers l' p.
Proof. intros H. unfold covers. by setoid_rewrite H. Qed.

Lemma covers_nil p : ¬ covers [] p.
Proof. intros (r & Hr & _). by apply elem_of_nil in Hr. Qed.

(** ** Sorting *)

Lemma exchange_spec l : ∀ x z l', exchange x l = (z, l') → z :: l' ≡ₚ x :: l ∧ Forall (λ y, z.1 ≤ y.1) l' ∧ z.1 ≤ x.1.
Proof.
  induction l as [|y l IH]; intros x z l' H; cbn [exchange] in H; [injection H as <- <-; done|].
  destruct (Z.ltb_spec y.1 x.1); destruct (exchange _ l) as [z1 l1] eqn:E; injection H as <- <-; destruct (IH _ _ _ E) as (P & F & L); split_and!; try lia.
  - by rewrite Permutation_swap, P, Permutation_swap.
  - constructor; [lia|done].
  - by rewrite Permutation_swap, P, Permutation_swap.
  - constructor; [lia|done].
Qed.

Lemma sort_loop_spec n : ∀ l, (length l ≤ n)%nat → sort_loop n l ≡ₚ l ∧ by_start (sort_loop n l).
Proof.
  induction n as [|n IH]; intros [|x l] Hn; cbn [sort_loop].
  - split; [done|]. apply SSorted_nil.
  - cbn in Hn. lia.
  - split; [done|]. apply SSorted_nil.
  -   destruct (exchange x l) as [z l'] eqn:E. destruct (exchange_spec _ _ _ _ E) as (P & F & _).
  assert (length l' = length l) as Hl by (apply Permutation_length in P; cbn in P; lia).
  destruct (IH l') as [P' S']; [cbn in Hn; lia|]. split; [by rewrite P'|]. constructor; [done|].
  rewrite P'. done.
Qed.

(** ** Merging *)

Definition intervals (l : list (Z * Z)) : Prop := Forall (λ r, r.1 ≤ r.2) l.

Lemma merge_intervals_spec l : ∀ acc, by_start (reverse acc ++ l) → intervals (acc ++ l) → (length acc + length l ≤ MERGED_CAP)%nat →
  ∃ m, merge_loop l acc = Done m ∧ by_start m ∧ intervals m ∧ (∀ p, covers m p ↔ covers acc p ∨ covers l p) ∧
    (∀ P : Z → Prop, Forall (λ r, P r.1 ∧ P r.2) (acc ++ l) → Forall (λ r, P r.1 ∧ P r.2) m).
Proof.
  induction l as [|[rs re] l IH]; intros acc Hs Hi Hn; cbn [merge_loop].
  { rewrite app_nil_r in *. exists (reverse acc). split_and!; [done|done|unfold intervals; by rewrite reverse_Permutation| |].
    - intros p. rewrite (covers_perm (reverse acc) acc p (reverse_Permutation acc)). pose proof (covers_nil p). tauto.
    - intros P HP. by rewrite reverse_Permutation. }
  destruct acc as [|[ms me] acc].
  { cbn [reverse app] in *. destruct (IH [(rs, re)]) as (m & -> & S & I & C & Q); [done|done|cbn in *; lia|].
    exists m. split_and!; [done|done|done| |exact Q]. intros p. rewrite C, !covers_cons. pose proof (covers_nil p). tauto. }
  assert (ms ≤ rs) as Hle.
  { rewrite reverse_cons, <- app_assoc in Hs. apply StronglySorted_app in Hs as (_ & _ & Hs). apply StronglySorted_inv in Hs as [_ Hs].
    cbn [app] in Hs. by apply Forall_cons in Hs as [? _]. }
  assert (ms ≤ me ∧ rs ≤ re) as [Hm Hr].
  { unfold intervals in Hi. rewrite Forall_app, !Forall_cons in Hi. cbn in Hi. tauto. }
  destruct (Z.ltb_spec me rs).
  - destruct (Nat.ltb_spec (length ((ms, me) :: acc)) MERGED_CAP); [|cbn in *; lia].
    destruct (IH ((rs, re) :: (ms, me) :: acc)) as (m & -> & S & I & C & Q).
    + rewrite (reverse_cons ((ms, me) :: acc)), <- app_assoc. exact Hs.
    + unfold intervals in *. rewrite Forall_app, !Forall_cons in *. tauto.
    + cbn in *. lia.
    + exists m. split_and!; [done|done|done|intros p; rewrite C, !covers_cons; tauto|].
      intros P HP. apply Q. rewrite Forall_app, !Forall_cons in *. tauto.
  - assert (∀ e, by_start (reverse ((ms, e) :: acc) ++ l)) as Hs'.
    { intros e. revert Hs. rewrite !reverse_cons, <- !app_assoc. cbn [app]. generalize (reverse acc). intros q Hs.
      induction q as [|a q IHq]; cbn [app] in *.
      - apply StronglySorted_inv in Hs as [Hs F]. apply StronglySorted_inv in Hs as [Hs _]. apply Forall_cons in F as [_ F]. by constructor.
      - apply StronglySorted_inv in Hs as [Hs F]. constructor; [by apply IHq|]. rewrite Forall_app, !Forall_cons in *. cbn [fst] in *. tauto. }
    destruct (Z.ltb_spec me re).
    + destruct (IH ((ms, re) :: acc)) as (m & -> & S & I & C & Q); [apply Hs'| |cbn in *; lia|].
      * unfold intervals in *. rewrite Forall_app, !Forall_cons in *. cbn in *. split_and!; [lia|tauto..].
      * exists m. split_and!; [done|done|done|intros p; rewrite C, !covers_cons; cbn; intuition lia|].
        intros P HP. apply Q. rewrite Forall_app, !Forall_cons in *. cbn in *. tauto.
    + destruct (IH ((ms, me) :: acc)) as (m & -> & S & I & C & Q); [apply Hs'| |cbn in *; lia|].
      * unfold intervals in *. rewrite Forall_app, !Forall_cons in *. tauto.
      * exists m. split_and!; [done|done|done|intros p; rewrite C, !covers_cons; cbn; intuition lia|].
        intros P HP. apply Q. rewrite Forall_app, !Forall_cons in *. tauto.
Qed.

(** No start is new. *)
Lemma merge_starts l : ∀ acc m, merge_loop l acc = Done m → Forall (λ r, ∃ r', r' ∈ acc ++ l ∧ r.1 = r'.1) m.
Proof.
  induction l as [|[rs re] l IH]; intros acc m H; cbn [merge_loop] in H.
  { injection H as <-. rewrite app_nil_r, reverse_Permutation. apply Forall_forall. eauto. }
  assert (∀ acc', merge_loop l acc' = Done m → (∀ r, r ∈ acc' → ∃ r', r' ∈ acc ++ (rs, re) :: l ∧ r.1 = r'.1) →
    Forall (λ r, ∃ r', r' ∈ acc ++ (rs, re) :: l ∧ r.1 = r'.1) m) as Hgo.
  { intros acc' H' Hin. eapply Forall_impl; [by apply (IH acc')|]. intros r (r' & [Hr|Hr]%elem_of_app & E).
    - destruct (Hin r' Hr) as (r'' & ? & ?). exists r''. split; [done|congruence].
    - exists r'. split; [|done]. apply elem_of_app. right. by right. }
  destruct acc as [|[ms me] acc].
  - apply (Hgo _ H). intros r Hr. exists r. split; [|done]. apply list_elem_of_singleton in Hr as ->. apply list_elem_of_here.
  - assert (∀ r, r ∈ (ms, me) :: acc → ∃ r', r' ∈ ((ms, me) :: acc) ++ (rs, re) :: l ∧ r.1 = r'.1) as Hold.
    { intros r Hr. exists r. split; [|done]. apply elem_of_app. by left. }
    destruct (me <? rs); [destruct (_ <? _)%nat; [|done]|destruct (me <? re)]; apply (Hgo _ H); intros r Hr.
    + apply elem_of_cons in Hr as [->|Hr]; [|by apply Hold]. exists (rs, re). split; [|done]. apply elem_of_app. right. apply list_elem_of_here.
    + apply elem_of_cons in Hr as [->|Hr]; [|by apply Hold; right]. exists (ms, me). split; [|done]. apply elem_of_app. left. apply list_elem_of_here.
    + by apply Hold.
Qed.

(** ** Gaps *)

Fixpoint gaps (merged : list (Z * Z)) (cur end_ : Z) : list (Z * Z) :=
  match merged with
  | [] => if cur <? end_ then [(cur, end_ - cur)] else []
  | (rs, re) :: merged => (if cur <? rs then [(cur, rs - cur)] else []) ++ gaps merged (Z.max cur re) end_
  end.

Lemma add_regions_app l1 : ∀ l2 s, add_regions (l1 ++ l2) s = let! s := add_regions l1 s in add_regions l2 s.
Proof. induction l1 as [|[a n] l1 IH]; intros l2 s; [done|]. cbn [app add_regions]. destruct (add_region a n s); cbn [cbind]; [apply IH|done|done]. Qed.

Lemma gap_loop_gaps end_ merged : ∀ cur s,
  (let! (cur, s) := gap_loop merged cur s in if cur <? end_ then add_region cur (end_ - cur) s else Done s) = add_regions (gaps merged cur end_) s.
Proof.
  induction merged as [|[rs re] merged IH]; intros cur s; cbn [gap_loop gaps cbind].
  - destruct (cur <? end_); cbn [add_regions]; [by destruct (add_region _ _ _)|done].
  - rewrite add_regions_app. destruct (cur <? rs); cbn [add_regions]; [|cbn [cbind]; apply IH].
    destruct (add_region _ _ _); cbn [cbind]; [apply IH|done|done].
Qed.

(** Regions in order, each above [lo], of whole pages, below [hi]. *)
Fixpoint ascending (lo hi : Z) (rs : list (Z * Z)) : Prop :=
  match rs with
  | [] => True
  | r :: rs => lo ≤ r.1 ∧ 0 < r.2 ∧ r.1 + r.2 ≤ hi ∧ aligned r.1 ∧ aligned r.2 ∧ ascending (r.1 + r.2) hi rs
  end.

Lemma ascending_lo lo lo' hi rs : lo ≤ lo' → ascending lo' hi rs → ascending lo hi rs.
Proof. destruct rs; [done|]. cbn [ascending]. intros ? (? & ?). split; [lia|done]. Qed.

Lemma ascending_In lo hi rs r : ascending lo hi rs → r ∈ rs → lo ≤ r.1 ∧ 0 < r.2 ∧ r.1 + r.2 ≤ hi ∧ aligned r.2.
Proof.
  revert lo. induction rs as [|x rs IH]; intros lo H Hr; [by apply elem_of_nil in Hr|]. destruct H as (H1 & H2 & H3 & _ & H5 & H6).
  apply elem_of_cons in Hr as [->|Hr]; [done|]. destruct (IH _ H6 Hr) as (? & ? & ? & ?). split_and!; [lia|done..].
Qed.

Lemma ascending_app lo mid mid' hi l1 l2 : ascending lo mid l1 → mid ≤ mid' → mid ≤ hi → lo ≤ mid' → ascending mid' hi l2 → ascending lo hi (l1 ++ l2).
Proof.
  revert lo. induction l1 as [|x l1 IH]; intros lo H Hm Hh Hlo H2; [by eapply ascending_lo|]. destruct H as (? & ? & ? & ? & ? & ?). cbn [app ascending].
  split_and!; [done|done|lia|done|done|]. apply IH; [done|done|done|lia|done].
Qed.

Lemma ascending_regions b n lo rs : b ≤ lo → ascending lo (b + n * PAGE_SIZE) rs → regions_ok b n rs.
Proof.
  revert lo. induction rs as [|[a k] rs IH]; intros lo Hb H; [done|]. destruct H as (H1 & H2 & H3 & H4 & H5 & H6). cbn [fst snd regions_ok] in *.
  split_and!; [lia|lia|lia|done| |apply (IH (a + k)); [lia|done]]. intros r Hr. left. by destruct (ascending_In _ _ _ _ H6 Hr).
Qed.

Lemma whole_pages a n p : aligned n → in_pages a (a + n) p ↔ a ≤ p < a + n.
Proof. intros [k ->]. unfold in_pages, PAGE_SIZE. replace (a + k * 4096 - a) with (k * 4096) by lia. by rewrite Z.div_mul. Qed.

Lemma ascending_in_regions lo hi rs p : ascending lo hi rs → in_regions rs p ↔ ∃ r, r ∈ rs ∧ r.1 ≤ p < r.1 + r.2.
Proof.
  intros H. unfold in_regions. split; intros (r & Hr & Hp); exists r; (split; [done|]); apply (whole_pages r.1 r.2 p); try done;
    apply (ascending_In _ _ _ _ H Hr).
Qed.

Lemma aligned_sub a b : aligned a → aligned b → aligned (a - b).
Proof. apply Z.divide_sub_r. Qed.

Lemma aligned_max a b : aligned a → aligned b → aligned (Z.max a b).
Proof. intros. destruct (Z.max_spec a b) as [[_ ->]|[_ ->]]; done. Qed.

Lemma aligned_min a b : aligned a → aligned b → aligned (Z.min a b).
Proof. intros. destruct (Z.min_spec a b) as [[_ ->]|[_ ->]]; done. Qed.

Lemma gaps_spec end_ merged : ∀ cur, aligned cur → aligned end_ → by_start merged →
  Forall (λ r, r.1 ≤ end_ ∧ r.1 ≤ r.2 ∧ aligned r.1 ∧ aligned r.2) merged →
  ascending cur end_ (gaps merged cur end_) ∧
  ∀ p, (∃ r, r ∈ gaps merged cur end_ ∧ r.1 ≤ p < r.1 + r.2) ↔ cur ≤ p < end_ ∧ ¬ covers merged p.
Proof.
  induction merged as [|[rs re] merged IH]; intros cur Hc He Hs Hf; cbn [gaps].
  - destruct (Z.ltb_spec cur end_).
    + split; [cbn [ascending fst snd]; split_and!; [lia|lia|lia|done|by apply aligned_sub|done]|].
      intros p. pose proof (covers_nil p). setoid_rewrite list_elem_of_singleton. split; [intros (r & -> & ?); cbn in *; split; [lia|done]|].
      intros [? _]. exists (cur, end_ - cur). cbn. split; [done|lia].
    + split; [done|]. intros p. split; [intros (r & Hr & _); by apply elem_of_nil in Hr|lia].
  - apply StronglySorted_inv in Hs as [Hs Hmin]. apply Forall_cons in Hf as [(F1 & F0 & F2 & F3) Hf]. cbn [fst snd] in *.
    destruct (IH (Z.max cur re) ltac:(by apply aligned_max) He Hs Hf) as [A C].
    assert (∀ p, covers merged p → rs ≤ p) as Hge.
    { intros p (r & Hr & Hp). rewrite Forall_forall in Hmin. specialize (Hmin r Hr). lia. }
    split.
    + destruct (Z.ltb_spec cur rs); cbn [app]; [|eapply ascending_lo; [|exact A]; lia].
      cbn [ascending fst snd]. split_and!; [lia|lia|lia|done|by apply aligned_sub|]. eapply ascending_lo; [|exact A]. lia.
    + intros p. setoid_rewrite elem_of_app. rewrite covers_cons. cbn [fst snd]. specialize (C p). split.
      * intros (r & [Hr|Hr] & Hp).
        -- destruct (Z.ltb_spec cur rs); [|by apply elem_of_nil in Hr]. apply list_elem_of_singleton in Hr as ->. cbn in Hp.
           split; [lia|]. intros [?|Hcov]; [lia|]. apply Hge in Hcov. lia.
        -- destruct (proj1 C ltac:(by exists r)) as [? ?]. split; [lia|]. intros [?|?]; [lia|done].
      * intros [Hp Hn]. destruct (decide (p < rs)).
        -- exists (cur, rs - cur). rewrite (proj2 (Z.ltb_lt cur rs)) by lia. cbn. split; [left; apply list_elem_of_here|lia].
        -- destruct (proj2 C) as (r & Hr & Hp'); [split; [|tauto]; destruct (decide (p < re)); [exfalso; apply Hn; left; lia|lia]|].
           exists r. split; [by right|done].
Qed.

(** ** The reserved intervals *)

(** What is taken: the arena, the statics of the kernel, the modules, the first
    page of the boot information. *)
Definition taken (mods : list ModuleInfo) (info_page arena bs be p : Z) : Prop :=
  arena ≤ p < arena + ARENA_SIZE ∨ bs ≤ p < be ∨ (∃ x, x ∈ mods ∧ page_align_down (mi_start x) ≤ p < page_align_up (mi_end x)) ∨
  info_page ≤ p < info_page + PAGE_SIZE.

Definition within (start end_ : Z) (r : Z * Z) : Prop := start ≤ r.1 ∧ r.1 ≤ end_ ∧ r.1 ≤ r.2 ∧ aligned r.1 ∧ aligned r.2.

Lemma clip_within start end_ a b : a ≤ b → a ≤ end_ → start ≤ b → start ≤ end_ → aligned a → aligned b → aligned start → aligned end_ →
  within start end_ (Z.max a start, Z.min b end_).
Proof. intros. unfold within. cbn [fst snd]. split_and!; [lia|lia|lia|by apply aligned_max|by apply aligned_min]. Qed.

Lemma align_down_aligned a : aligned (page_align_down a).
Proof.
  unfold aligned, page_align_down, PAGE_SIZE. change (4096 - 1) with (Z.ones 12). rewrite Z.ldiff_ones_r, Z.shiftl_mul_pow2 by lia.
  change (2 ^ 12) with 4096. apply Z.divide_factor_r.
Qed.

Lemma align_up_aligned a : aligned (page_align_up a).
Proof. apply align_down_aligned. Qed.

Lemma reserve_modules_spec start end_ mods : ∀ l, aligned start → aligned end_ → start ≤ end_ → (length l + length mods < RESERVED_CAP)%nat →
  ∃ l', reserve_modules start end_ mods l = Done (l ++ l') ∧ (length l' ≤ length mods)%nat ∧ Forall (within start end_) l' ∧
    ∀ p, start ≤ p < end_ → covers l' p ↔ ∃ x, x ∈ mods ∧ page_align_down (mi_start x) ≤ p < page_align_up (mi_end x).
Proof.
  induction mods as [|x mods IH]; intros l Hs He Hle Hn; cbn [reserve_modules].
  { exists []. split_and!; [by rewrite app_nil_r|done|constructor|]. intros p _. pose proof (covers_nil p). split; [done|]. intros (x & Hx & _). by apply elem_of_nil in Hx. }
  set (ms := page_align_down (mi_start x)). set (me := page_align_up (mi_end x)). cbn [length] in Hn.
  assert (∀ q p, start ≤ p < end_ → ¬ (ms ≤ p < me) → (covers q p ↔ ∃ x, x ∈ mods ∧ page_align_down (mi_start x) ≤ p < page_align_up (mi_end x)) →
    covers q p ↔ ∃ y, y ∈ x :: mods ∧ page_align_down (mi_start y) ≤ p < page_align_up (mi_end y)) as Hskip.
  { intros q p _ Hnot ->. setoid_rewrite elem_of_cons. split; [naive_solver|]. intros (y & [->|Hy] & Hp); [done|by exists y]. }
  destruct (Z.ltb_spec ms end_) as [H1|H1]; cbn [andb]; [destruct (Z.ltb_spec start me) as [H2|H2]|]; cbn [cbind].
  1: destruct (Z.ltb_spec (Z.max ms start) (Z.min me end_)) as [H3|H3]; cbn [cbind].
  2, 3, 4: destruct (IH l Hs He Hle) as (l' & -> & L & W & C); [lia|]; exists l'; (split_and!; [done|cbn; lia|done|]); intros p Hp; apply (Hskip l' p Hp); [lia|by apply C].
  unfold push_reserved. destruct (Nat.ltb_spec (length l) RESERVED_CAP); [|lia]. cbn [cbind].
  destruct (IH (l ++ [(Z.max ms start, Z.min me end_)]) Hs He Hle) as (l' & -> & L & W & C); [rewrite length_app; cbn; lia|].
  exists ((Z.max ms start, Z.min me end_) :: l'). split_and!; [by rewrite <- app_assoc|cbn; lia| |].
  - constructor; [|done]. apply clip_within; try lia; [apply align_down_aligned|apply align_up_aligned|done|done].
  - intros p Hp. rewrite covers_cons, C by done. cbn [fst snd]. setoid_rewrite elem_of_cons. split.
    + intros [?|(y & Hy & ?)]; [exists x; split; [by left|lia]|exists y; split; [by right|done]].
    + intros (y & [->|Hy] & ?); [left; lia|right; by exists y].
Qed.

Lemma push_reserved_ok x l : (length l < 34)%nat → push_reserved x l = Done (l ++ [x]).
Proof. intros. unfold push_reserved, RESERVED_CAP. by rewrite (proj2 (Nat.ltb_lt _ _)). Qed.

Section carve.
Context (start end_ : Z) (mods : list ModuleInfo) (info_page arena bs be : Z).
Context (Hs : aligned start) (He : aligned end_) (Hle : start ≤ end_) (Hmods : (length mods ≤ 29)%nat).
Context (Hi : aligned info_page) (Ha : aligned arena) (Hbs : aligned bs) (Hbe : aligned be) (Hb : bs ≤ be) (Ha0 : 0 ≤ arena) (Ha1 : arena + ARENA_SIZE < 2 ^ 64).

(** An interval that meets the region is clipped and entered. *)
Lemma clip_push a b l : a ≤ b → aligned a → aligned b → (length l < 34)%nat →
  ∃ l', (if (a <? end_) && (start <? b) then push_reserved (Z.max a start, Z.min b end_) l else Done l) = Done (l ++ l') ∧ (length l' ≤ 1)%nat ∧
    Forall (within start end_) l' ∧ ∀ p, start ≤ p < end_ → covers l' p ↔ a ≤ p < b.
Proof.
  intros Hab Ga Gb Hl. destruct (Z.ltb_spec a end_); [destruct (Z.ltb_spec start b)|]; cbn [andb].
  1: { eexists. split; [by apply push_reserved_ok|]. split_and!; [cbn; lia|constructor; [apply clip_within; done || lia|constructor]|].
       intros p Hp. rewrite covers_cons. pose proof (covers_nil p). cbn [fst snd]. split; [intros [?|?]; [lia|done]|intros; left; lia]. }
  all: exists []; split_and!; [by rewrite app_nil_r|cbn; lia|constructor|]; intros p Hp; pose proof (covers_nil p); split; [done|lia].
Qed.

Lemma reserved_list_spec : ∃ l, reserved_list start end_ mods info_page arena ARENA_SIZE bs be = Done l ∧ (length l ≤ 32)%nat ∧
  Forall (within start end_) l ∧ ∀ p, start ≤ p < end_ → covers l p ↔ taken mods info_page arena bs be p.
Proof.
  unfold reserved_list. assert (ARENA_SIZE = 4194304) as HA by done. rewrite w64_small by lia.
  destruct (clip_push arena (arena + ARENA_SIZE) []) as (l1 & -> & L1 & W1 & C1);
    [lia|done|apply Z.divide_add_r; [done|by exists 1024]|cbn; lia|]. cbn [cbind app].
  destruct (clip_push bs be l1) as (l2 & -> & L2 & W2 & C2); [done|done|done|lia|]. cbn [cbind].
  destruct (reserve_modules_spec start end_ mods (l1 ++ l2)) as (l3 & -> & L3 & W3 & C3);
    [done|done|done|rewrite length_app; unfold RESERVED_CAP; lia|]. cbn [cbind].
  assert (∃ l4, (if (start <=? info_page) && (info_page <? end_) then push_reserved (info_page, info_page + PAGE_SIZE) ((l1 ++ l2) ++ l3) else Done ((l1 ++ l2) ++ l3)) =
    Done (((l1 ++ l2) ++ l3) ++ l4) ∧ (length l4 ≤ 1)%nat ∧ Forall (within start end_) l4 ∧
    ∀ p, start ≤ p < end_ → covers l4 p ↔ info_page ≤ p < info_page + PAGE_SIZE) as (l4 & -> & L4 & W4 & C4).
  { destruct (Z.leb_spec start info_page) as [H1|H1]; [destruct (Z.ltb_spec info_page end_) as [H2|H2]|]; cbn [andb].
    1: { eexists. split; [apply push_reserved_ok; rewrite !length_app; lia|]. split_and!; [cbn; lia| |].
         - constructor; [|constructor]. unfold within. cbn [fst snd]. split_and!; [done|lia|unfold PAGE_SIZE; lia|done|apply Z.divide_add_r; [done|by exists 1]].
         - intros p Hp. rewrite covers_cons. pose proof (covers_nil p). cbn [fst snd]. tauto. }
    all: exists []; split; [by rewrite app_nil_r|]; split; [cbn; lia|]; split; [by apply Forall_nil|]; intros p Hp; pose proof (covers_nil p); split; [done|].
    - lia.
    - destruct Hi as [k ->], Hs as [k' ->]. unfold PAGE_SIZE in *. lia. }
  exists (((l1 ++ l2) ++ l3) ++ l4). split_and!; [done|rewrite !length_app; lia|by rewrite !Forall_app|].
  intros p Hp. unfold taken. rewrite !covers_app, C1, C2, C3, C4 by done. tauto.
Qed.

(** The regions added are what is left of the range. *)
Lemma carve : ∃ rs, (∀ s, add_free_region_skipping start end_ mods info_page arena ARENA_SIZE bs be s = add_regions rs s) ∧
  ascending start end_ rs ∧ ∀ p, (∃ r, r ∈ rs ∧ r.1 ≤ p < r.1 + r.2) ↔ start ≤ p < end_ ∧ ¬ taken mods info_page arena bs be p.
Proof.
  destruct reserved_list_spec as (l & Hl & Hlen & Hw & Hc). destruct (sort_loop_spec (length l) l ltac:(done)) as [Hp Hsort].
  destruct (merge_intervals_spec (sort_loop (length l) l) []) as (m & Hm & Sm & Im & Cm & Pm).
  - done.
  - unfold intervals. cbn [app]. rewrite Hp. eapply Forall_impl; [exact Hw|]. intros r Hr. apply Hr.
  - rewrite Hp. cbn. unfold MERGED_CAP. lia.
  - assert (Forall (λ r, r.1 ≤ end_ ∧ r.1 ≤ r.2 ∧ aligned r.1 ∧ aligned r.2) m) as Fm.
    { assert (Forall (λ r : Z * Z, aligned r.1 ∧ aligned r.2) m) as F1.
      { apply Pm. cbn [app]. rewrite Hp. eapply Forall_impl; [exact Hw|]. intros r Hr. split; apply Hr. }
      pose proof (merge_starts _ _ _ Hm) as F2. cbn [app] in F2. unfold intervals in Im. rewrite Forall_forall in F1, F2, Im, Hw |- *. intros r Hr.
      split; [|split; [by apply Im|by apply F1]]. destruct (F2 r Hr) as (r' & Hr' & ->). apply Hw. by rewrite <- Hp. }
    destruct (gaps_spec end_ m start Hs He Sm Fm) as [HA HC]. exists (gaps m start end_). split; [|split].
    + intros s. unfold add_free_region_skipping. rewrite Hl. cbn [cbind]. rewrite Hm. cbn [cbind]. apply gap_loop_gaps.
    + done.
    + intros p. rewrite HC. pose proof (Cm p) as C1. pose proof (covers_perm _ _ p Hp) as C2. pose proof (covers_nil p).
      split; intros [Hr Hn]; (split; [done|]); specialize (Hc p Hr); tauto.
Qed.
End carve.

(** ** Pages marked that are not free *)

Lemma remove_absent fuel s t : ∀ c l, chain (mem s) (cell_get s c) l → t ∉ l → (length l < fuel)%nat → remove_loop fuel c t s = Done s.
Proof.
  induction fuel as [|fuel IH]; intros c l Hch Hni Hl; [lia|]. cbn [remove_loop]. cbv zeta. destruct l as [|a l]; cbn [chain] in Hch.
  - by rewrite Hch.
  - destruct Hch as (Heq & Hnz & Hch). rewrite Heq. apply Z.eqb_neq in Hnz as ->. destruct (Z.eqb_spec a t) as [->|]; [set_solver|].
    apply (IH _ l); [done|set_solver|cbn in Hl; lia].
Qed.

Lemma mark_loop_noop fuel lo hi s ls : fl_wf s ls → range_out ls lo hi → aligned lo → aligned (hi - lo) → 0 ≤ lo → hi < 2 ^ 63 →
  hi - lo ≤ Z.of_nat fuel * PAGE_SIZE → mark_allocated_loop fuel lo hi s = Done s.
Proof.
  intros Hwf. revert lo. induction fuel as [|fuel IH]; intros lo Hout Hal Hsz H0 Hhi Hf; cbn [mark_allocated_loop].
  { destruct (Z.ltb_spec lo hi); [lia|done]. }
  destruct (Z.ltb_spec lo hi) as [Hlt|]; [|done]. rewrite (w64_small (hi - lo)) by lia.
  assert (PAGE_SIZE ≤ hi - lo) as Hge by (destruct Hsz as [k Hk]; unfold PAGE_SIZE in *; lia).
  destruct (max_order_fits lo (hi - lo) Hal Hge) as (Ho & Hd & Hn). set (o := max_order_for lo (hi - lo)) in *.
  pose proof (block_size_bound o Ho) as Hbs. unfold PAGE_SIZE in *.
  assert (remove_if_free lo o s = Done s) as ->.
  { unfold remove_if_free. destruct (_ && _); [|done]. unfold remove_from_list. rewrite (wf_head _ _ _ Hwf Ho). cbn [cbind].
    apply (remove_absent _ _ _ _ (ls o)); [by apply wf_chain| |].
    - intros Hin. apply (Hout lo); [lia|]. exists o, lo. split_and!; [done|done|]. unfold in_blk, blk_end. lia.
    - pose proof (wf_length _ _ _ Hwf Ho). lia. }
  cbn [cbind]. rewrite w64_small by lia.
  assert (aligned (block_size o)) as Hbo by (unfold aligned; rewrite <- block_size_0; by apply block_size_divide; lia).
  apply IH.
  - intros p Hp. apply Hout. lia.
  - by apply Z.divide_add_r.
  - unfold aligned in *. replace (hi - (lo + block_size o)) with (hi - lo - block_size o) by lia. by apply Z.divide_sub_r.
  - lia.
  - done.
  - lia.
Qed.

Lemma mark_noop lo size s ls : fl_wf s ls → range_out ls lo (lo + size) → aligned lo → aligned size → 0 ≤ lo → 0 ≤ size → lo + size < 2 ^ 63 →
  mark_allocated lo size s = Done s.
Proof.
  intros Hwf Hout Hal Hsz H0 Hn Hhi. unfold mark_allocated, mark_allocated_nolock. rewrite w64_small by lia.
  apply (mark_loop_noop _ _ _ _ ls); [done|done|done|by replace (lo + size - lo) with size by lia|lia|lia|].
  replace (lo + size - lo) with size by lia. rewrite Z2Nat.id by (apply Z.div_pos; unfold PAGE_SIZE; lia).
  destruct Hsz as [k ->]. unfold PAGE_SIZE. pose proof (Z.div_le_mono (k * 4096) (k * 4096 + 4096 - 1) 4096 ltac:(lia) ltac:(lia)) as Hd. rewrite Z.div_mul in Hd by lia. lia.
Qed.

(** ** The region chosen *)

Lemma best_loop_keep rs : ∀ i b k, Forall (λ r, region_usable r ≤ b) rs → best_loop i rs b k = (b, k).
Proof.
  induction rs as [|r rs IH]; intros i b k H; [done|]. apply Forall_cons in H as [H1 H2]. cbn [best_loop].
  rewrite (proj2 (Z.ltb_ge _ _) H1). by apply IH.
Qed.

Lemma best_loop_first rs1 : ∀ i b k r rs2, Forall (λ x, region_usable x < region_usable r) rs1 → b < region_usable r →
  Forall (λ x, region_usable x ≤ region_usable r) rs2 → best_loop i (rs1 ++ r :: rs2) b k = (region_usable r, (i + length rs1)%nat).
Proof.
  induction rs1 as [|x rs1 IH]; intros i b k r rs2 H1 Hb H2; cbn [app best_loop length].
  - rewrite (proj2 (Z.ltb_lt _ _) Hb), best_loop_keep by done. f_equal. lia.
  - apply Forall_cons in H1 as [Hx H1]. replace (i + S (length rs1))%nat with (S i + length rs1)%nat by lia.
    destruct (b <? region_usable x); by apply IH.
Qed.

Lemma first_module_spec mods : ∀ e, aligned e →
  aligned (first_module mods e) ∧ first_module mods e ≤ e ∧ Forall (λ x, first_module mods e ≤ page_align_down (mi_start x)) mods ∧
  ∀ k, k ≤ e → Forall (λ x, k ≤ page_align_down (mi_start x)) mods → k ≤ first_module mods e.
Proof.
  unfold first_module. induction mods as [|x mods IH]; intros e He; [split_and!; [done|cbn; lia|constructor|done]|]. cbn [fold_left].
  set (ms := page_align_down (mi_start x)). destruct (IH (if ms <? e then ms else e)) as (A & B & C & D).
  { destruct (ms <? e); [apply align_down_aligned|done]. }
  split_and!; [done| | |].
  - destruct (Z.ltb_spec ms e); lia.
  - constructor; [|done]. fold ms. destruct (Z.ltb_spec ms e); lia.
  - intros k Hk H. apply Forall_cons in H as [H1 H2]. apply D; [|done]. fold ms in H1. destruct (ms <? e); lia.
Qed.

Section boot.
Context (kernel_start kernel_data_end kernel_bss_start kernel_bss_end : Z).
Notation ks := (page_align_down kernel_start).
Notation kd := (page_align_up kernel_data_end).
Notation bs := (page_align_down kernel_bss_start).
Notation be := (page_align_up kernel_bss_end).

(** Where the linker puts the kernel, page by page. *)
Definition kernel_in (base top : Z) : Prop := base ≤ ks < top ∧ ks ≤ kd ≤ top ∧ 0 ≤ bs ≤ be ∧ be < 2 ^ 62.

Lemma register_regions_spec base pages info_page arena mods :
  range_ok base pages → let top := base + pages * PAGE_SIZE in kernel_in base top → top ≤ 2 ^ 62 →
  aligned info_page → aligned arena → 0 ≤ arena → arena + ARENA_SIZE < 2 ^ 62 → (length mods ≤ 29)%nat →
  Forall (λ x, kd ≤ page_align_down (mi_start x)) mods →
  ∃ rs s, register_regions kernel_start kernel_data_end kernel_bss_start kernel_bss_end base pages info_page arena mods (init base pages kmem0) = Done s ∧
    boot base pages rs = Done s ∧ regions_ok base pages rs ∧
    ∀ p, in_regions rs p ↔ (base ≤ p < ks ∨ first_module mods top ≤ p < top) ∧ ¬ taken mods info_page arena bs be p.
Proof.
  intros Hr top ((K1 & K2) & (K3 & K4) & (K5 & K6) & K7) Htop Hi Ha Ha0 Ha1 Hm Hmods. pose proof Hr as (B1 & B2 & B3 & B4).
  assert (aligned top) as Gt by (apply Z.divide_add_r; [done|apply Z.divide_factor_r]).
  destruct (first_module_spec mods top Gt) as (F1 & F2 & _ & F4). specialize (F4 kd K4 Hmods). set (first := first_module mods top) in *.
  destruct (carve base ks mods info_page arena bs be) as (rs1 & E1 & A1 & C1); try done; try apply align_down_aligned; try apply align_up_aligned; try lia.
  pose proof (ascending_app base ks top top rs1 [] A1) as A1'. rewrite app_nil_r in A1'. specialize (A1' ltac:(lia) ltac:(lia) ltac:(lia) I).
  destruct (boot_spec base pages rs1 Hr (ascending_regions base pages base rs1 (Z.le_refl _) A1')) as (s1 & ls1 & R1 & V1 & _ & _ & Fr1 & _).
  assert (∀ p, free_at ls1 p → base ≤ p < ks ∧ ¬ taken mods info_page arena bs be p) as Hfree.
  { intros p Hp. apply C1, (ascending_in_regions base top rs1 p A1'), Fr1, Hp. }
  pose proof (ai_wf _ _ _ V1) as W1. unfold register_regions. fold top. fold first. cbv zeta.
  rewrite (proj2 (Z.leb_le base ks) K1), (proj2 (Z.ltb_lt ks top) K2). cbn [andb]. rewrite (proj2 (Z.ltb_ge top kd) K4), E1. unfold boot in R1. rewrite R1. cbn [cbind].
  assert (range_out ls1 ks (ks + (kd - ks))) as O1 by (intros p Hp Hf; destruct (Hfree p Hf); lia).
  assert (range_out ls1 bs (bs + (be - bs))) as O2 by (intros p Hp Hf; destruct (Hfree p Hf) as [_ Hn]; apply Hn; unfold taken; lia).
  assert (range_out ls1 kd (kd + (first - kd))) as O3 by (intros p Hp Hf; destruct (Hfree p Hf); lia).
  rewrite (mark_noop ks (kd - ks) s1 ls1); [|done|done|apply align_down_aligned|apply aligned_sub; [apply align_up_aligned|apply align_down_aligned]|lia|lia|lia]. cbn [cbind].
  rewrite (mark_noop bs (be - bs) s1 ls1); [|done|done|apply align_down_aligned|apply aligned_sub; [apply align_up_aligned|apply align_down_aligned]|lia|lia|lia]. cbn [cbind].
  assert ((if kd <? first then mark_allocated kd (first - kd) s1 else Done s1) = Done s1) as ->.
  { destruct (kd <? first); [|done]. apply (mark_noop _ _ _ ls1); [done|done|apply align_up_aligned|apply aligned_sub; [done|apply align_up_aligned]|lia|lia|lia]. }
  cbn [cbind].
  assert (∃ rs2, (if first <? top then add_free_region_skipping first top mods info_page arena ARENA_SIZE bs be s1 else Done s1) = add_regions rs2 s1 ∧
    ascending first top rs2 ∧ ∀ p, (∃ r, r ∈ rs2 ∧ r.1 ≤ p < r.1 + r.2) ↔ first ≤ p < top ∧ ¬ taken mods info_page arena bs be p) as (rs2 & E2 & A2 & C2).
  { destruct (Z.ltb_spec first top).
    - destruct (carve first top mods info_page arena bs be) as (rs2 & E2 & A2 & C2); try done; try apply align_down_aligned; try apply align_up_aligned; try lia.
      exists rs2. split_and!; [apply E2|done|done].
    - exists []. split_and!; [done|done|]. intros p. split; [intros (r & Hn & _); by apply elem_of_nil in Hn|lia]. }
  assert (ascending base top (rs1 ++ rs2)) as A by (apply (ascending_app base ks first); [done|lia|lia|lia|done]).
  pose proof (ascending_regions base pages base _ (Z.le_refl _) A) as Hok.
  destruct (boot_spec base pages (rs1 ++ rs2) Hr Hok) as (s & ls & R & _). exists (rs1 ++ rs2), s.
  assert (add_regions rs2 s1 = Done s) as R2 by (unfold boot in R; rewrite add_regions_app, R1 in R; exact R).
  rewrite E2. split_and!; [done|done|done|]. intros p. rewrite (ascending_in_regions base top _ p A). setoid_rewrite elem_of_app.
  specialize (C1 p). specialize (C2 p). split.
  - intros (r & [Hr'|Hr'] & Hp); [destruct (proj1 C1 ltac:(by exists r))|destruct (proj1 C2 ltac:(by exists r))]; tauto.
  - intros [[Hp|Hp] Hn]; [destruct (proj2 C1 ltac:(tauto)) as (r & ? & ?)|destruct (proj2 C2 ltac:(tauto)) as (r & ? & ?)]; exists r; tauto.
Qed.

Lemma usable_page r : PAGE_SIZE ≤ region_usable r →
  page_align_down (w64 (mr_base r + mr_len r)) = page_align_up (mr_base r) + region_usable r ∧ aligned (region_usable r).
Proof.
  unfold region_usable, PAGE_SIZE. destruct (Z.ltb_spec (page_align_up (mr_base r)) (page_align_down (w64 (mr_base r + mr_len r)))); [|lia].
  intros _. split; [lia|]. apply aligned_sub; apply align_down_aligned.
Qed.

(** C23: Boot hands the allocator a state its theorems start from: with the
    largest region above address 0 that holds the kernel, and up to 29 modules
    above it, [init] finishes; the free pages are exactly those of the region
    below the kernel and from the first module up, up to 1 GiB, that are not
    the tables of the allocator, statics of the kernel, pages of a module, or
    the one page in which the boot information begins.  Boot information that
    goes on after that page is not spared: the pages it goes on in are free. *)
Lemma boot_memory info x regs idx r mods :
  bm_km x = kmem0 → memory_regions (bm_mem x) info MAX_REGIONS = Done regs → regs !! idx = Some r →
  (∀ j r', regs !! j = Some r' → region_usable r' ≤ region_usable r) →
  (∀ j r', (j < idx)%nat → regs !! j = Some r' → region_usable r' < region_usable r) → PAGE_SIZE ≤ region_usable r →
  let base := page_align_up (mr_base r) in
  let pages := Z.min (region_usable r / PAGE_SIZE) ((IDENTITY_LIMIT - base) / PAGE_SIZE) in
  let top := base + pages * PAGE_SIZE in let arena := arena_at base pages in
  0 < base < IDENTITY_LIMIT → ARENA_SIZE ≤ top → kernel_in base top →
  find_modules (mem_zero arena ARENA_SIZE (bm_mem x)) info MAX_MODULE_REGIONS = Done mods → (length mods ≤ 29)%nat →
  Forall (λ x, kd ≤ page_align_down (mi_start x)) mods →
  ∃ x' rs, mem_init kernel_start kernel_data_end kernel_bss_start kernel_bss_end info x = Done x' ∧
    bm_total x' = pages ∧ bm_bases x' = Some (arena, arena + MAX_REFC_PAGES) ∧
    range_ok base pages ∧ regions_ok base pages rs ∧ boot base pages rs = Done (bm_km x') ∧
    ∀ p, in_regions rs p ↔ (base ≤ p < ks ∨ first_module mods top ≤ p < top) ∧ ¬ taken mods (page_align_down info) arena bs be p.
Proof.
  intros Hk Hregs Hidx Hmax Hfst Hge base pages top arena Hbase Har Hin Hmods Hlen Habove.
  destruct (usable_page r Hge) as [Hend Hus]. fold base in Hend. change IDENTITY_LIMIT with (2 ^ 30) in *.
  assert (aligned base) as Hbal by apply align_down_aligned.
  assert (0 ≤ pages ∧ top ≤ 2 ^ 30) as [Hp0 Htop].
  { unfold top, pages, PAGE_SIZE in *. pose proof (Z.mul_div_le (2 ^ 30 - base) 4096 ltac:(lia)).
    pose proof (Z.div_pos (2 ^ 30 - base) 4096 ltac:(lia) ltac:(lia)). pose proof (Z.div_pos (region_usable r) 4096 ltac:(lia) ltac:(lia)). lia. }
  assert (range_ok base pages) as Hr.
  { split_and!; [lia|done|lia| |unfold top in Htop; lia]. unfold top, PAGE_SIZE in *. change MAX_REFC_PAGES with 2097152. lia. }
  change ARENA_SIZE with 4194304 in Har.
  assert (w64 (top - 4194304) = top - 4194304) as Hw by (apply w64_small; lia).
  assert (aligned arena ∧ 0 ≤ arena ∧ arena + 4194304 ≤ top) as (Ga & Ga0 & Ga1).
  { unfold arena, arena_at. fold top. change ARENA_SIZE with 4194304. rewrite Hw. change (MAX_REFC_PAGES - 1) with (Z.ones 21).
    rewrite Z.ldiff_ones_r, Z.shiftl_mul_pow2, Z.shiftr_div_pow2 by lia. change (2 ^ 21) with 2097152.
    pose proof (Z.mul_div_le (top - 4194304) 2097152 ltac:(lia)). pose proof (Z.div_pos (top - 4194304) 2097152 ltac:(lia) ltac:(lia)).
    split_and!; [|lia|lia]. exists ((top - 4194304) / 2097152 * 512). unfold PAGE_SIZE. lia. }
  assert (top ≤ 2 ^ 62) as Ht62 by lia. assert (arena + ARENA_SIZE < 2 ^ 62) as Ha62 by (change ARENA_SIZE with 4194304; lia).
  destruct (register_regions_spec base pages (page_align_down info) arena mods Hr Hin Ht62 (align_down_aligned info) Ga Ga0 Ha62 Hlen Habove) as (rs & s & R1 & R2 & R3 & R4).
  destruct (boot_spec base pages rs Hr R3) as (s' & ls & R2' & V & _ & _ & Hfree & _). rewrite R2 in R2'. injection R2' as <-.
  assert (best_loop 0 regs 0 0 = (region_usable r, idx)) as Hbest.
  { rewrite <- (take_drop_middle regs idx r Hidx). rewrite best_loop_first; [rewrite length_take_le; [done|apply lookup_lt_Some in Hidx; lia]| |unfold PAGE_SIZE in Hge; lia|].
    - apply Forall_lookup. intros j r' Hj. apply lookup_take_Some in Hj as [Hj Hlt]. by apply (Hfst j).
    - apply Forall_lookup. intros j r' Hj. rewrite lookup_drop in Hj. by eapply Hmax. }
  unfold mem_init. rewrite Hregs. cbn [cbind]. rewrite Hbest, Hidx. rewrite (proj2 (Z.ltb_ge _ _) Hge). fold base. rewrite Hend.
  rewrite (proj2 (Z.leb_gt _ _)) by (change IDENTITY_LIMIT with (2 ^ 30); lia). replace (base + region_usable r - base) with (region_usable r) by lia.
  change IDENTITY_LIMIT with (2 ^ 30).
  replace (if (2 ^ 30 - base) / PAGE_SIZE <? region_usable r / PAGE_SIZE then (2 ^ 30 - base) / PAGE_SIZE else region_usable r / PAGE_SIZE) with pages
    by (unfold pages; destruct (Z.ltb_spec ((2 ^ 30 - base) / PAGE_SIZE) (region_usable r / PAGE_SIZE)); lia).
  fold arena. rewrite Hmods. cbn [cbind]. rewrite Hk, R1. cbn [cbind].
  rewrite (mark_noop arena ARENA_SIZE s ls); [|apply V| |exact Ga|by exists 1024|exact Ga0|by vm_compute|change ARENA_SIZE with 4194304; lia].
  - cbn [cbind]. eexists _, rs. split; [exact eq_refl|]. cbn [bm_total bm_bases bm_km].
    split; [exact eq_refl|]. split; [exact eq_refl|]. split; [exact Hr|]. split; [exact R3|]. split; [exact R2|exact R4].
  - intros p Hp Hf. apply Hfree, R4 in Hf as [_ Hn]. apply Hn. by left.
Qed.
End boot.

(** ** The global allocator *)

(** The order does not change when the size is rounded up to pages. *)
Lemma order_rounded n : ∀ o size, 0 < size < 2 ^ 63 → order_loop n o (Z.ldiff (w64 (size + 4095)) 4095) = order_loop n o size.
Proof.
  induction n as [|n IH]; intros o size Hs; [done|]. cbn [order_loop]. rewrite IH by done.
  assert (Z.ldiff (w64 (size + 4095)) 4095 = 4096 * ((size + 4095) / 4096)) as ->.
  { rewrite w64_small by lia. change 4095 with (Z.ones 12) at 2. rewrite Z.ldiff_ones_r, Z.shiftl_mul_pow2, Z.shiftr_div_pow2 by lia. change (2 ^ 12) with 4096. lia. }
  rewrite Z.shiftl_mul_pow2 by lia. set (k := 2 ^ Z.of_nat o).
  assert ((4096 * k <? 4096 * ((size + 4095) / 4096)) = (4096 * k <? size)) as ->; [|done].
  pose proof (Z.div_mod (size + 4095) 4096 ltac:(lia)). pose proof (Z.mod_pos_bound (size + 4095) 4096 ltac:(lia)).
  destruct (Z.ltb_spec (4096 * k) size); [apply Z.ltb_lt|apply Z.ltb_ge]; lia.
Qed.

Lemma order_of_size size : 0 < size → let o := order_loop 11 0 size in
  (o ≤ 10)%nat ∧ (size ≤ 4 * 1024 * 1024 → size ≤ block_size o) ∧ (4 * 1024 * 1024 < size → block_size o < size).
Proof.
  intros Hs o. destruct (order_loop_spec size 11 0 ltac:(lia) ltac:(lia) (or_introl eq_refl)) as (R1 & R2 & _). fold o in R1, R2.
  rewrite block_size_pow by (unfold MAX_ORDER; lia). rewrite Z.pow_add_r by lia. change (2 ^ 12) with 4096.
  assert (2 ^ Z.of_nat o ≤ 2 ^ 10) as Hle by (apply Z.pow_le_mono_r; lia). change (2 ^ 10) with 1024 in Hle.
  split; [done|]. split; [|lia]. intros H. destruct R2 as [R2|R2]; [done|]. rewrite R2. change (2 ^ Z.of_nat 10) with 1024. lia.
Qed.

(** A block of the Rust heap comes from the page allocator and goes back
    to it: allocation and release agree on the order, so in every reachable
    state the release finishes and gives the block back; the block holds the
    bytes asked for up to 4 MiB and is too small for any more. *)
Lemma heap_block b n rs s live size p s1 :
  reachable b n rs (s, live) → 0 < size < 2 ^ 63 → global_alloc size s = (p, s1) → p ≠ 0 →
  let o := order_loop 11 0 size in
  reachable b n rs (s1, (p, o) :: live) ∧ (∃ s2, global_dealloc p size s1 = Done s2 ∧ reachable b n rs (s2, live)) ∧
  (size ≤ 4 * 1024 * 1024 → size ≤ block_size o) ∧ (4 * 1024 * 1024 < size → block_size o < size).
Proof.
  intros Hr Hs Ha Hp o. unfold global_alloc in Ha. rewrite order_rounded in Ha by done. fold o in Ha.
  destruct (alloc o s) as [[a|] s'] eqn:E; cbn [default] in Ha; injection Ha as Ha <-; [|done]. cbn in Ha. subst a.
  assert (∀ m m', reachable b n rs m → step m m' → reachable b n rs m') as Hstep.
  { intros m m' (? & ? & s0 & ? & Hst) Hs'. split_and!; [done|done|]. exists s0. split; [done|]. by eapply rtc_r. }
  assert (reachable b n rs (s', (p, o) :: live)) as Hr1 by (apply (Hstep _ _ Hr); by apply step_alloc).
  split; [done|]. split; [|exact (proj2 (order_of_size size (proj1 Hs)))]. destruct (reachable_minv _ _ _ _ Hr1) as [ls Hinv].
  destruct (free_ainv 0 p o s' ls live Hinv) as (s2 & ls2 & Hrun & _). exists s2. split; [exact Hrun|].
  apply (Hstep _ _ Hr1). by apply (step_free s' [] live p o 0).
Qed.

Lemma heap_block_witness : ∃ s2, global_dealloc (b64 + 0x4000) 9000 (global_alloc 9000 s64_1).2 = Done s2 ∧ reachable b64 64 rs64 (s2, [(b64, 0%nat)]).
Proof.
  destruct (heap_block b64 64 rs64 s64_1 [(b64, 0%nat)] 9000 (b64 + 0x4000) (global_alloc 9000 s64_1).2 reach64_1 ltac:(lia)) as (_ & H & _).
  - vm_compute. reflexivity.
  - done.
  - exact H.
Defined.

(** ** Instances *)

Definition grub_boot : boot_mem := mkBootMem kmem0 grub_mem [] None 0.

Lemma grub_mem_zero a : 0x10000 ≤ a → mbi_at (mem_zero a ARENA_SIZE grub_mem) 0x9000 (item_tag <$> grub_items).
Proof.
  intros Ha. destruct grub_at as [H1 H2]. split; [|exact H2]. unfold bytes_at in *. rewrite <- H1 at 2. apply mem_read_ext.
  intros y Hy. rewrite mem_zero_get by done. rewrite decide_False; [done|].
  assert (Z.of_nat (length (le_bytes 4 (mbi_size (item_tag <$> grub_items)) ++ le_bytes 4 0 ++ tags_bytes (item_tag <$> grub_items))) = 152) as E by (vm_compute; reflexivity).
  rewrite E in Hy. lia.
Qed.

(** The only module is the one in the list. *)
Lemma grub_modules a : 0x10000 ≤ a → ∃ m, find_modules (mem_zero a ARENA_SIZE grub_mem) 0x9000 MAX_MODULE_REGIONS = Done [m] ∧ mi_start m = 0x200000 ∧ mi_end m = 0x240000.
Proof.
  intros Ha. pose proof (grub_mem_zero a Ha) as Hm. unfold find_modules. rewrite (walk_tags_run _ _ _ _ _ Hm).
  destruct (modules_spec (mem_zero a ARENA_SIZE grub_mem) 0x9000 MAX_MODULE_REGIONS grub_items 8 [] grub_ok (mbi_payloads _ _ _ Hm) ltac:(cbn; lia)) as (mods & -> & H2).
  change (omap item_module grub_items) with [(0x200000, 0x240000, [47; 98; 111; 111; 116; 47; 115; 104])] in H2.
  inversion H2 as [|x m l l' (E1 & E2 & _) Hnil]; subst. inversion Hnil; subst. exists m. split; [done|]. by split.
Qed.

(** A machine with 16 MiB at 1 MiB; the kernel in its first half megabyte, its
    statics at 8 MiB. *)
Lemma boot_memory_witness : ∃ x' rs, mem_init 0x100000 0x180000 0x800000 0x900000 0x9000 grub_boot = Done x' ∧
  boot 0x100000 4096 rs = Done (bm_km x') ∧ in_regions rs 0x250000 ∧ ¬ in_regions rs 0x210000 ∧ ¬ in_regions rs 0x880000.
Proof.
  set (r := mkMemRegion 0x100000 0x1000000).
  destruct (grub_modules (arena_at 0x100000 4096) ltac:(vm_compute; congruence)) as (m & Hm & Es & Ee).
  destruct (boot_memory 0x100000 0x180000 0x800000 0x900000 0x9000 grub_boot [mkMemRegion 0 0x9fc00; r] 1 r [m]) as (x' & rs & H1 & _ & _ & _ & _ & H2 & H3).
  - reflexivity.
  - vm_compute. reflexivity.
  - reflexivity.
  - intros [|[|j]] r' H; [injection H as <-; vm_compute; congruence|injection H as <-; done|done].
  - intros [|j] r' Hj H; [injection H as <-; vm_compute; congruence|lia].
  - vm_compute. congruence.
  - vm_compute. split; congruence.
  - vm_compute. congruence.
  - unfold kernel_in. split_and!; vm_compute; (congruence || split; congruence).
  - exact Hm.
  - cbn. lia.
  - constructor; [rewrite Es; vm_compute; congruence|constructor].
  - change (Z.min (region_usable r / PAGE_SIZE) ((IDENTITY_LIMIT - page_align_up (mr_base r)) / PAGE_SIZE)) with 4096 in H2, H3.
    change (page_align_up (mr_base r)) with 0x100000 in H2, H3. exists x', rs. split; [exact H1|]. split; [exact H2|].
    assert (first_module [m] (0x100000 + 4096 * PAGE_SIZE) = 0x200000) as Ef by (unfold first_module; cbn [fold_left]; rewrite Es; vm_compute; reflexivity).
    rewrite Ef in H3. change (arena_at 0x100000 4096) with 0xC00000 in H3. unfold taken in H3.
    change (page_align_down 0x100000) with 0x100000 in H3. change (page_align_down 0x800000) with 0x800000 in H3. change (page_align_up 0x900000) with 0x900000 in H3.
    change (page_align_down 0x9000) with 0x9000 in H3. change ARENA_SIZE with 0x400000 in H3. change PAGE_SIZE with 4096 in H3. split_and!.
    + apply H3. split; [lia|]. intros [?|[?|[(y & Hy & Hp)|?]]]; [lia|lia| |lia]. apply list_elem_of_singleton in Hy as ->. rewrite Es, Ee in Hp. vm_compute in Hp. destruct Hp. congruence.
    + intros H. apply H3 in H as [_ H]. apply H. right; right; left. exists m. split; [apply list_elem_of_here|]. rewrite Es, Ee. vm_compute. split; congruence.
    + intros H. apply H3 in H as [_ H]. apply H. lia.
Defined.

(** ** Where the start loses or gives away memory *)

Definition small_boot (mods : list ModuleInfo) : comp kmem :=
  register_regions 0x100000 0x110000 0x120000 0x121000 0x100000 64 0x9000 0x1000000 mods (init 0x100000 64 kmem0).

(** Without a module nothing above the kernel is free. *)
Example no_module_no_memory : free_page_count <$> (match small_boot [] with Done s => Some s | _ => None end) = Some (Done 0).
Proof. vm_compute. reflexivity. Qed.

(** Boot information that begins in the page at 0x108000 and is longer: its
    second page is the first one handed out. *)
Definition long_info_boot : comp kmem :=
  register_regions 0x10A000 0x10B000 0x10C000 0x10D000 0x108000 64 0x108000 0x1000000 [] (init 0x108000 64 kmem0).

Example second_info_page_free : (match long_info_boot with Done s => (alloc 0 s).1 | _ => None end) = Some 0x109000.
Proof. vm_compute. reflexivity. Qed.

Definition low_boot : comp kmem :=
  register_regions 0x110000 0x120000 0x13e000 0x13f000 0x100000 64 0x9000 0x1000000 [mkModuleInfo 0x104000 0x105000 []] (init 0x100000 64 kmem0).

(** With a module below the kernel, the pages of the kernel are free. *)
Example low_module_frees_kernel : (match low_boot with Done s => (alloc 4 (alloc 4 s).2).1 | _ => None end) = Some 0x110000.
Proof. vm_compute. reflexivity. Qed.

(** 32 modules and two more reserved intervals panic the boot: the table of
    merged intervals has 32 entries, the one of reserved ones 34. *)
Example many_modules_panic :
  add_free_region_skipping 0x100000 0x200000 ((λ i, mkModuleInfo (0x110000 + 0x4000 * Z.of_nat i) (0x111000 + 0x4000 * Z.of_nat i) []) <$> seq 0 32)
    0x105000 0x300000 ARENA_SIZE 0x102000 0x103000 kmem0 = Panic.
Proof. vm_compute. reflexivity. Qed.
