(* ===== verification/Fork.v ===== *)
(** * Creation of tasks: fork, clone and the tasks of the kernel: [src/task.rs]

    [sys_fork] and [sys_clone], the kernel stacks they take, and the two
    functions that make the first user task and the tasks of the kernel.  The
    state puts together the tables of [Proc], the page tables, the records of
    mapped ranges and the fields of a task that no other model looks at.  The
    registers of the caller are what the system-call entry (assembly) left. *)

From S2P Require Import Prelude Buddy VfsTypes Vma Path Vfs Procfs Flat Paging Exec Sched Futex Pipe Signal Proc.
From stdpp Require Import base gmap numbers strings list.
Local Open Scope string_scope.
Local Open Scope Z_scope.

Definition KERNEL_STACK_PAGES : nat := 8.
Definition KERNEL_CODE_SELECTOR : Z := 0x08.
Definition KERNEL_DATA_SELECTOR : Z := 0x10.
Definition USER_CODE_SELECTOR : Z := 0x20.
Definition USER_DATA_SELECTOR : Z := 0x18.
Definition CLONE_VM : Z := 0x100.
Definition CLONE_PARENT : Z := 0x8000.
Definition CLONE_THREAD : Z := 0x10000.
Definition CLONE_SETTLS : Z := 0x80000.
Definition CLONE_PARENT_SETTID : Z := 0x100000.
Definition CLONE_CHILD_CLEARTID : Z := 0x200000.

(** ** State *)

Record Registers := mkRegs {
  rax : Z; rbx : Z; rcx : Z; rdx : Z; rsi : Z; rdi : Z; rbp : Z; rsp : Z; r8 : Z; r9 : Z; r10 : Z; r11 : Z; r12 : Z; r13 : Z; r14 : Z; r15 : Z;
  rip : Z; rflags : Z; cs : Z; ss : Z; fs_base : Z;
}.

Definition new_kernel (entry stack_top : Z) : Registers :=
  mkRegs 0 0 0 0 0 0 0 (stack_top - 8) 0 0 0 0 0 0 0 0 entry 0x202 KERNEL_CODE_SELECTOR KERNEL_DATA_SELECTOR 0.
Definition new_user (entry stack_top : Z) : Registers :=
  mkRegs 0 0 0 0 0 0 0 stack_top 0 0 0 0 0 0 0 0 entry 0x202 (Z.lor USER_CODE_SELECTOR 3) (Z.lor USER_DATA_SELECTOR 3) 0.
Definition regs_zero : Registers := mkRegs 0 0 0 0 0 0 0 0 0 0 0 0 0 0 0 0 0 0 0 0 0.

(** The fields of a task that are in neither [Sched] nor [Proc]. *)
Record rtask := mkRtask {
  t_regs : Registers; t_user_stack : Z; t_normal_prio : nat; t_time_slice : Z; t_in_syscall : bool;
  t_uid : Z; t_gid : Z; t_euid : Z; t_egid : Z; t_ipc_partner : Z; t_ipc_phys : Z; t_ipc_vaddr : Z; t_brk_start : Z; t_brk_end : Z;
  t_comm : list Z; t_cwd : list Z; t_cwd_len : nat; t_privileges : Z; t_saved_user_regs : option Registers;
  t_poll_nfds : Z; t_poll_timeout : Z; t_poll_revents_buf : Z;
}.
Definition rtask_empty : rtask :=
  mkRtask regs_zero 0 20 0 false 0 0 0 0 0 0 0 0 0 (replicate 16 0) (replicate 256 0) 0 0 None 0 0 0.
#[export] Instance rtask_inhabited : Inhabited rtask := populate rtask_empty.

(** [SYSCALL_CALLEE_REGS] (rbx, rbp, r12 to r15) and [SYSCALL_USER_*]. *)
Record entry_regs := mkEntry { u_callee : list Z; u_rip : Z; u_rsp : Z; u_rflags : Z; u_fs_base : Z }.

Record world := mkWorld { w_procs : procs; w_rest : list rtask; w_tabs : pmem; w_vmas : pool; init_assigned : bool }.

Definition on_procs (f : procs → procs) (w : world) : world := mkWorld (f (w_procs w)) (w_rest w) (w_tabs w) (w_vmas w) (init_assigned w).
Definition set_wtabs (s : pmem) (w : world) : world := mkWorld (w_procs w) (w_rest w) s (w_vmas w) (init_assigned w).
Definition set_wvmas (v : pool) (w : world) : world := mkWorld (w_procs w) (w_rest w) (w_tabs w) v (init_assigned w).
Definition set_init (b : bool) (w : world) : world := mkWorld (w_procs w) (w_rest w) (w_tabs w) (w_vmas w) b.

(** The task in a slot: its three parts. *)
Definition put_task (id : nat) (t : Task) (x : ptask) (r : rtask) (w : world) : world :=
  let s := w_procs w in
  mkWorld (set_pt (<[task_idx id := x]> (pt s)) (set_sc (upd_task id (λ _, t) (sch s)) s))
    (<[task_idx id := r]> (w_rest w)) (w_tabs w) (w_vmas w) (init_assigned w).

Definition on_pids {A} (f : sched → A * sched) (w : world) : A * world :=
  let '(r, x) := f (sch (w_procs w)) in (r, on_procs (set_sc x) w).
Definition release_pid (id : nat) (w : world) : world := on_procs (λ s, set_sc (free_pid id (sch s)) s) w.
Definition enqueue_at (id prio : nat) (w : world) : comp world :=
  let! x := enqueue_task id prio (sch (w_procs w)) in Done (on_procs (set_sc x) w).

(** ** Kernel stacks *)

(** [while (1 << order) < pages && order < 10 { order += 1 }] *)
Fixpoint order_for_pages_loop (n order : nat) (pages : Z) : nat :=
  match n with
  | O => order
  | S n' => if (Z.shiftl 1 (Z.of_nat order) <? pages) && (order <? 10)%nat then order_for_pages_loop n' (S order) pages else order
  end.
Definition order_for_pages (pages : nat) : nat := order_for_pages_loop 11 0 (Z.of_nat pages).

(** [page_type_set] on [n] pages from [p] on. *)
Fixpoint type_pages (n : nat) (p t : Z) (k : kmem) : kmem :=
  match n with O => k | S n' => type_pages n' (p + PAGE_SIZE) t (page_type_set p t k) end.

(** The top of a stack of [pages] pages; the block has one more at its end. *)
Definition alloc_stack (pages : nat) (s : pmem) : option Z * pmem :=
  match alloc (order_for_pages (pages + 1)) (km s) with
  | (None, k) => (None, set_km k s)
  | (Some p, k) => (Some (p + Z.of_nat pages * PAGE_SIZE), set_km (type_pages (S pages) p PAGE_TYPE_STACK k) s)
  end.

Definition free_stack (base : Z) (pages : nat) (s : pmem) : comp pmem :=
  let addr := w64 (base - Z.of_nat pages * PAGE_SIZE) in
  if negb (page_is_used (km s) addr) then Done s
  else
    let! k := free 0 addr (order_for_pages (pages + 1)) (km s) in
    Done (set_km (type_pages (S pages) addr PAGE_TYPE_FREE k) s).

(** ** [sys_fork] *)

Definition pick_home_cpu : nat := 0.

(** The scheduler's part of a child. *)
Definition child_task (child : nat) (p : Task) : Task :=
  mkTask child TReady pick_home_cpu (t_prio p) (t_static_prio p) None 0 0 0 false.

(** What a child inherits of the rest. *)
Definition child_rest (regs : Registers) (user_stack : Z) (p : Task) (r : rtask) : rtask :=
  mkRtask regs user_stack (t_normal_prio r) (initial_time_slice (Z.of_nat (t_prio p))) false
    (t_uid r) (t_gid r) (t_euid r) (t_egid r) 0 0 0 (t_brk_start r) (t_brk_end r)
    (t_comm r) (t_cwd r) (t_cwd_len r) (t_privileges r) None 0 0 0.

Definition fork_regs (e : entry_regs) (r : Registers) : Registers :=
  let c i := u_callee e !!! i in
  mkRegs 0 (c 0%nat) (rcx r) (rdx r) (rsi r) (rdi r) (c 1%nat) (u_rsp e) (r8 r) (r9 r) (r10 r) (r11 r) (c 2%nat) (c 3%nat) (c 4%nat) (c 5%nat)
    (u_rip e) (u_rflags e) (cs r) (ss r) (u_fs_base e).

(** Handlers and mask go to the child, pending signals do not. *)
Definition child_sigs (alt : bool) (x : sigs) : sigs :=
  mkSigs (sig_handlers x) (sig_blocked x) 0
    (if alt then altstack_sp x else 0) (if alt then altstack_flags x else 0) (if alt then altstack_size x else 0).

(** The child sees its parent's memory as it is now. *)
Definition copy_space (from to : Z) (s : procs) : procs := set_user (<[to := default ∅ (user s !! from)]> (user s)) s.

Definition sys_fork (id : nat) (e : entry_regs) (w : world) : comp (Z * world) :=
  if (id =? 0)%nat then Done (- EINVAL, w)
  else
    let '(tid, w) := on_pids alloc_user_pid w in
    match tid with
    | None => Done (- ENOMEM, w)
    | Some child =>
        let w := on_procs (λ s, set_fl (fork_fds id child (fl s)) s) w in
        let p := task_ref (sch (w_procs w)) id in
        let x := pt_ref (w_procs w) id in
        let r := w_rest w !!! task_idx id in
        match alloc_stack KERNEL_STACK_PAGES (w_tabs w) with
        | (None, s) => Done (- ENOMEM, release_pid child (set_wtabs s w))
        | (Some kernel_stack, s) =>
            match cow_fork_pml4 (t_pml4 x) s with
            | (None, s) =>
                let! s := free_stack kernel_stack KERNEL_STACK_PAGES s in
                Done (- ENOMEM, release_pid child (set_wtabs s w))
            | (Some child_pml4, s) =>
                let w := on_procs (copy_space (t_pml4 x) child_pml4) (set_wtabs s w) in
                let w := put_task child (child_task child p)
                           (mkPtask (Some id) 0 (Z.of_nat child) 0 kernel_stack child_pml4 true 0 (child_sigs false (t_sigs x)))
                           (child_rest (fork_regs e (t_regs r)) (t_user_stack r) p r) w in
                let w := set_wvmas (vma_clone (t_pml4 x) child_pml4 (w_vmas w)) w in
                let! w := enqueue_at child (t_prio p) w in
                Done (Z.of_nat child, w)
            end
        end
    end.

(** ** [sys_clone] *)

Definition has (flags bit : Z) : bool := negb (Z.land flags bit =? 0).

Definition clone_regs (e : entry_regs) (flags child_stack tls func : Z) (r : Registers) : Registers :=
  let c i := u_callee e !!! i in
  mkRegs 0 (c 0%nat) (rcx r) (rdx r) (rsi r) (rdi r) (c 1%nat) child_stack (r8 r) func (r10 r) (r11 r) (c 2%nat) (c 3%nat) (c 4%nat) (c 5%nat)
    (u_rip e) (u_rflags e) (Z.lor USER_CODE_SELECTOR 3) (Z.lor USER_DATA_SELECTOR 3) (if has flags CLONE_SETTLS then tls else u_fs_base e).

(** A 64-bit store to the memory of the caller. *)
Definition store_tid (id : nat) (p tid : Z) (s : procs) : procs :=
  set_space id (<[p + 4 := Z.shiftr tid 32]> (<[p := Z.land tid 0xFFFFFFFF]> (space_of s id))) s.

Definition sys_clone (id : nat) (e : entry_regs) (flags child_stack parent_tidptr child_tidptr tls func : Z) (w : world) : comp (Z * world) :=
  if (id =? 0)%nat then Done (- EINVAL, w)
  else
    let '(tid, w) := on_pids alloc_user_pid w in
    match tid with
    | None => Done (- ENOMEM, w)
    | Some child =>
        let w := on_procs (λ s, set_fl (fork_fds id child (fl s)) s) w in
        let p := task_ref (sch (w_procs w)) id in
        let x := pt_ref (w_procs w) id in
        let r := w_rest w !!! task_idx id in
        let vm := has flags CLONE_VM in
        match alloc_stack KERNEL_STACK_PAGES (w_tabs w) with
        | (None, s) => Done (- ENOMEM, set_wtabs s w)
        | (Some kernel_stack, s) =>
            match (if vm then (Some (t_pml4 x), s) else cow_fork_pml4 (t_pml4 x) s) with
            | (None, s) =>
                let! s := free_stack kernel_stack KERNEL_STACK_PAGES s in
                Done (- ENOMEM, set_wtabs s w)
            | (Some child_pml4, s) =>
                let w := set_wtabs s w in
                let w := if vm then w else on_procs (copy_space (t_pml4 x) child_pml4) w in
                let tgid := if has flags CLONE_THREAD then t_tgid x else Z.of_nat child in
                let parent := if has flags CLONE_PARENT then t_parent x else Some id in
                let tidptr := if has flags CLONE_CHILD_CLEARTID then child_tidptr else 0 in
                let w := put_task child (child_task child p)
                           (mkPtask parent 0 tgid tidptr kernel_stack child_pml4 (negb vm) 0 (child_sigs true (t_sigs x)))
                           (child_rest (clone_regs e flags child_stack tls func (t_regs r)) child_stack p r) w in
                let w := if vm then w else set_wvmas (vma_clone (t_pml4 x) child_pml4 (w_vmas w)) w in
                let w := if has flags CLONE_PARENT_SETTID && negb (parent_tidptr =? 0)
                         then on_procs (store_tid id parent_tidptr (Z.of_nat child)) w else w in
                let! w := enqueue_at child (t_prio p) w in
                Done (Z.of_nat child, w)
            end
        end
    end.

(** ** The first tasks *)

Section create.
Context {W : Type}.

(** What both functions set; the other fields keep what the slot had. *)
Definition init_task (tid : nat) (cpu : nat) (prio : nat) (t : Task) : Task :=
  mkTask tid TReady cpu prio prio (t_next t) (t_blocked_on t) (t_wakeup_tick t) (t_futex_deadline t) (t_pi_boosted t).
Definition init_ptask (tid : nat) (parent : option nat) (kernel_stack pml4 : Z) (x : ptask) : ptask :=
  mkPtask parent (t_exit_code x) (Z.of_nat tid) (t_child_tidptr x) kernel_stack pml4 (t_private x) (t_poll_fds x) (t_sigs x).
Definition init_rest (regs : Registers) (user_stack : Z) (prio : nat) (comm : list Z) (privileges : Z) (r : rtask) : rtask :=
  mkRtask regs user_stack prio (initial_time_slice (Z.of_nat prio)) (t_in_syscall r) (t_uid r) (t_gid r) (t_euid r) (t_egid r)
    (t_ipc_partner r) (t_ipc_phys r) (t_ipc_vaddr r) (t_brk_start r) (t_brk_end r) comm (t_cwd r) (t_cwd_len r) privileges
    (t_saved_user_regs r) (t_poll_nfds r) (t_poll_timeout r) (t_poll_revents_buf r).

(** At most 15 bytes and a zero; what follows stays. *)
Definition set_comm (comm old : list Z) : list Z :=
  let len := Nat.min (length comm) 15 in <[len := 0]> (take len comm ++ drop len old)%list.

Definition create_kernel_task_prio (entry nice : Z) (comm : list Z) (w : world) (f : flatfs W) : comp (option nat * world * flatfs W) :=
  match on_pids alloc_kernel_pid w with
  | (None, w) => Done (None, w, f)
  | (Some tid, w) =>
      match alloc_stack KERNEL_STACK_PAGES (w_tabs w) with
      | (None, s) => Done (None, set_wtabs s w, f)
      | (Some kernel_stack, s) =>
          let w := set_wtabs s w in
          let prio := Z.to_nat (nice_to_prio nice) in
          let r := w_rest w !!! task_idx tid in
          let w := put_task tid (init_task tid pick_home_cpu prio (task_ref (sch (w_procs w)) tid))
                     (init_ptask tid None kernel_stack (kernel_pml4 s) (pt_ref (w_procs w) tid))
                     (init_rest (new_kernel entry kernel_stack) 0 prio (set_comm comm (t_comm r)) PRIV_ALL r) w in
          let! w := enqueue_at tid prio w in
          let! f := bind_task_procfs (Z.of_nat tid) f in
          Done (Some tid, w, f)
      end
  end.

(** The first user task gets pid 1. *)
Definition user_tid (w : world) : option nat * world :=
  if negb (init_assigned w) then
    match on_pids (alloc_pid_specific 1) w with
    | (true, w) => (Some 1%nat, set_init true w)
    | (false, w) => on_pids alloc_user_pid w
    end
  else on_pids alloc_user_pid w.

(** Standard input, output and error. *)
Definition open_console (tid : nat) (f : flatfs W) (s : files) : files :=
  match find_inode (bytes_of "/dev/console") f with
  | None => s
  | Some i =>
      let i := Z.of_nat i in
      (alloc_fd_for_task tid i 1 (alloc_fd_for_task tid i 1 (alloc_fd_for_task tid i 0 s).2).2).2
  end.

Definition create_user_task_on_cpu (cur : nat) (ticks entry pml4 user_stack_top nice : Z) (cpu : nat) (w : world) (f : flatfs W) :
    comp (option nat * world * flatfs W) :=
  match user_tid w with
  | (None, w) => Done (None, w, f)
  | (Some tid, w) =>
      match alloc_stack KERNEL_STACK_PAGES (w_tabs w) with
      | (None, s) => Done (None, set_wtabs s w, f)
      | (Some kernel_stack, s) =>
          match map_tls pml4 (Z.of_nat tid) ticks s with
          | (None, s) => Done (None, set_wtabs s w, f)
          | (Some _, s) =>
              let w := set_wtabs s w in
              let prio := Z.to_nat (nice_to_prio nice) in
              let r := w_rest w !!! task_idx tid in
              let u := new_user entry user_stack_top in
              let regs := mkRegs (rax u) (rbx u) (rcx u) (rdx u) (rsi u) (rdi u) (rbp u) (rsp u) (r8 u) (r9 u) (r10 u) (r11 u)
                            (r12 u) (r13 u) (r14 u) (r15 u) (rip u) (rflags u) (cs u) (ss u) USER_TLS_VADDR in
              let w := put_task tid (init_task tid cpu prio (task_ref (sch (w_procs w)) tid))
                         (init_ptask tid (Some cur) kernel_stack pml4 (pt_ref (w_procs w) tid))
                         (init_rest regs user_stack_top prio (t_comm r) (if (tid =? 1)%nat then PRIV_ALL else t_privileges r) r) w in
              let w := on_procs (λ s, set_fl (open_console tid f (fl s)) s) w in
              let! w := enqueue_at tid prio w in
              let! f := bind_task_procfs (Z.of_nat tid) f in
              Done (Some tid, w, f)
          end
      end
  end.

End create.
