(* ===== verification/ForkOps.v ===== *)
(** * What fork does to records, stacks and slots

    The lemmas behind ForkClaims.v: the records of a new address space are the
    parent's, a kernel stack is memory nobody else has and disturbs no address
    space, and a new task in an empty slot keeps the tables consistent. *)

From S2P Require Import Prelude Buddy BuddyInv BuddyOps BuddyTables BuddySpec PageAlloc BuddyPages Vma VmaClaims Paging PagingWalk PagingMap PagingCow PagingFork.
From S2P Require Import Sched SchedInv SchedClaims Futex Pipe PipeInv Bytes Signal Proc ProcInv Fork.
From Stdlib Require Import Lia ZArith.
From stdpp Require Import base gmap numbers list sets.
Local Open Scope Z_scope.

(** ** The records of a new space *)

(** The ranges of one address space, in the order of the pool. *)
Definition ranges (p : Z) (vs : list VmaRec) : list Vma := r_vma <$> filter (λ r, r_pml4 r = p) vs.

Lemma ranges_app p l1 l2 : ranges p (l1 ++ l2) = ranges p l1 ++ ranges p l2.
Proof. unfold ranges. by rewrite list.filter_app, fmap_app. Qed.

Lemma ranges_one p r : ranges p [r] = if decide (r_pml4 r = p) then [r_vma r] else [].
Proof. unfold ranges. rewrite list.filter_cons. by case_decide. Qed.

(** Every slot but the one that takes the record stays. *)
Lemma register_room p s e f (vs : list VmaRec) : (length vs < MAX_VMA_RECORDS)%nat →
  let new := mkVmaRec p (mkVma s e f) in
  ∃ l1 l2, (vma_register p s e f vs).2 = l1 ++ new :: l2 ∧
    ((∃ r, rec_free r = true ∧ vs = l1 ++ r :: l2) ∨ vs = l1 ∧ l2 = []).
Proof.
  intros Hl new. unfold vma_register. fold new. pose proof (reuse_spec new vs) as Hr. destruct (reuse new vs) as [vs'|].
  - destruct Hr as (l1 & r & l2 & E & Hfr & ->). exists l1, l2. split; [done|]. left. by exists r.
  - rewrite (proj2 (Nat.ltb_lt _ _) Hl). exists vs, []. split; [done|by right].
Qed.

Lemma free_range p r : p ≠ 0 → rec_free r = true → ranges p [r] = [].
Proof. intros Hp Hr. unfold rec_free in Hr. bool_to_prop. rewrite ranges_one, decide_False; [done|]. naive_solver. Qed.

(** One record more: the others keep their slots, unless these were free. *)
Lemma register_grows p s e f (vs : list VmaRec) : p ≠ 0 → (length vs < MAX_VMA_RECORDS)%nat →
  let vs' : list VmaRec := (vma_register p s e f vs).2 in
  ranges p vs' ≡ₚ mkVma s e f :: ranges p vs ∧ (∀ p', p' ≠ 0 → p' ≠ p → ranges p' vs' = ranges p' vs) ∧
  (length vs ≤ length vs' ≤ S (length vs))%nat ∧
  ∀ i r, vs !! i = Some r → vs' !! i = Some r ∨ rec_free r = true ∧ ∃ r', vs' !! i = Some r' ∧ r_pml4 r' = p.
Proof.
  intros Hp Hl vs'. destruct (register_room p s e f vs Hl) as (l1 & l2 & E & H). fold vs' in E. rewrite E.
  set (new := mkVmaRec p (mkVma s e f)) in *.
  assert (∀ p', ranges p' (l1 ++ new :: l2) = ranges p' l1 ++ (if decide (p = p') then [mkVma s e f] else []) ++ ranges p' l2) as Hn.
  { intros p'. change (l1 ++ new :: l2) with (l1 ++ [new] ++ l2). by rewrite !ranges_app, ranges_one. }
  assert (∀ p', p' ≠ 0 → ranges p' vs = ranges p' l1 ++ ranges p' l2) as Ho.
  { intros p' Hp'. destruct H as [(r & Hr & ->)|[-> ->]]; [|by rewrite app_nil_r].
    change (l1 ++ r :: l2) with (l1 ++ [r] ++ l2). by rewrite !ranges_app, (free_range p' r). }
  split_and!.
  - rewrite Hn, Ho, decide_True by done. cbn [app]. by rewrite <- Permutation_middle.
  - intros p' H1 H2. by rewrite Hn, Ho, decide_False.
  - destruct H as [(r & _ & ->)|[-> ->]]; rewrite !length_app; cbn; lia.
  - destruct H as [(r & _ & ->)|[-> ->]]; rewrite !length_app; cbn; lia.
  - intros i r Hi. destruct H as [(r0 & Hr & ->)|[-> ->]]; [|left; by apply lookup_app_l_Some].
    destruct (decide (i = length l1)) as [->|Hne].
    + rewrite lookup_app_r, Nat.sub_diag in Hi by lia. injection Hi as ->. right. split; [done|]. exists new.
      by rewrite lookup_app_r, Nat.sub_diag by lia.
    + left. destruct (decide (i < length l1)%nat); [by rewrite lookup_app_l in * by lia|].
      rewrite lookup_app_r in * by lia. destruct (i - length l1)%nat eqn:E'; [lia|done].
Qed.

Section clone.
Context (from to : Z) (vs : list VmaRec).
Context (Hf : from ≠ 0) (Ht : to ≠ 0) (Hne : from ≠ to) (Hno : ∀ r, r ∈ vs → r_pml4 r ≠ to).
Context (Hroom : (length vs + length (ranges from vs) ≤ MAX_VMA_RECORDS)%nat).

(** After [n] slots: the child has the ranges of those, the other spaces and
    the slots still to come are as they were. *)
Definition cloned (n : nat) (vs' : list VmaRec) : Prop :=
  ranges to vs' ≡ₚ ranges from (take n vs) ∧ (∀ p, p ≠ 0 → p ≠ to → ranges p vs' = ranges p vs) ∧
  (length vs ≤ length vs' ≤ length vs + length (ranges from (take n vs)))%nat ∧
  ∀ i r, vs !! i = Some r → vs' !! i = Some r ∨ rec_free r = true ∧ ∃ r', vs' !! i = Some r' ∧ r_pml4 r' = to.

Lemma clone_one_eq i (vs' : list VmaRec) : clone_one from to i vs' =
  match vs' !! i with
  | Some r => if r_pml4 r =? from then (vma_register to (v_start (r_vma r)) (v_end (r_vma r)) (v_flags (r_vma r)) vs').2 else vs'
  | None => vs'
  end.
Proof. done. Qed.

Lemma clone_step n (vs' : list VmaRec) : (n < length vs)%nat → cloned n vs' → cloned (S n) (clone_one from to n vs').
Proof.
  intros Hn (H1 & H2 & H3 & H4). destruct (lookup_lt_is_Some_2 vs n Hn) as [r Hr]. unfold cloned. rewrite clone_one_eq.
  rewrite (take_S_r _ _ _ Hr), ranges_app, ranges_one.
  assert (take (S n) vs = take n vs ++ [r]) as Et by by apply take_S_r.
  assert (length (ranges from (take (S n) vs)) ≤ length (ranges from vs))%nat as Hle.
  { rewrite <- (take_drop (S n) vs) at 2. rewrite ranges_app, length_app. lia. }
  rewrite Et, ranges_app, ranges_one in Hle.
  assert (rec_free r = true → r_pml4 r ≠ from) as Hfree by (unfold rec_free; intros ?; bool_to_prop; naive_solver).
  destruct (H4 n r Hr) as [E|(Hfr & r' & E & Hr')]; rewrite E.
  - destruct (decide (r_pml4 r = from)) as [Hp|Hp]; [rewrite (proj2 (Z.eqb_eq _ _) Hp)|rewrite (proj2 (Z.eqb_neq _ _) Hp), app_nil_r; done].
    rewrite length_app in Hle. cbn [length] in Hle.
    destruct (register_grows to (v_start (r_vma r)) (v_end (r_vma r)) (v_flags (r_vma r)) vs' Ht ltac:(lia)) as (G1 & G2 & G3 & G4).
    split_and!.
    + rewrite G1, H1. rewrite Permutation_app_comm. cbn. by destruct (r_vma r).
    + intros p Hp0 Hpt. by rewrite G2, H2.
    + lia.
    + rewrite length_app. cbn [length]. lia.
    + intros i x Hx. destruct (H4 i x Hx) as [E'|(Hfx & x' & E' & Hx')].
      * destruct (G4 i x E') as [?|[? ?]]; [by left|by right].
      * right. split; [done|]. destruct (G4 i x' E') as [?|(? & x'' & ? & ?)]; [by exists x'|by exists x''].
  - rewrite (proj2 (Z.eqb_neq (r_pml4 r') from)) by congruence. rewrite decide_False by by apply Hfree. by rewrite app_nil_r.
Qed.

Lemma clone_fold k : ∀ n vs', (n + k = length vs)%nat → cloned n vs' → cloned (length vs) (foldl (λ vs i, clone_one from to i vs) vs' (seq n k)).
Proof.
  induction k as [|k IH]; intros n vs' Hn H; cbn [seq foldl]; [by replace (length vs) with n by lia|].
  apply IH; [lia|]. apply clone_step; [lia|done].
Qed.
End clone.

(** With room in the pool, the child has the ranges of its parent and every
    other space keeps its own. *)
Lemma vma_clone_copies from to (vs : list VmaRec) :
  from ≠ 0 → to ≠ 0 → from ≠ to → (∀ r, r ∈ vs → r_pml4 r ≠ to) → (length vs + length (ranges from vs) ≤ MAX_VMA_RECORDS)%nat →
  ranges to (vma_clone from to vs) ≡ₚ ranges from vs ∧ ∀ p, p ≠ 0 → p ≠ to → ranges p (vma_clone from to vs) = ranges p vs.
Proof.
  intros Hf Ht Hne Hno Hroom. unfold vma_clone.
  assert (cloned from to vs (length vs) (foldl (λ vs i, clone_one from to i vs) vs (seq 0 (length vs)))) as (H1 & H2 & _).
  { apply clone_fold; try done. unfold cloned. rewrite take_0. change (ranges from []) with (@nil Vma). cbn [length].
    split_and!; [|done|lia|lia|by left]. clear Hroom. unfold ranges. induction vs as [|r l IH]; [done|].
    rewrite list.filter_cons, decide_False by (apply Hno, list_elem_of_here). apply IH. intros. by apply Hno, list_elem_of_further. }
  rewrite firstn_all in H1. done.
Qed.

(** ** Kernel stacks *)

Lemma type_pages_eq n : ∀ p t k, ∃ T, type_pages n p t k = set_types T k.
Proof.
  induction n as [|n IH]; intros p t k; cbn [type_pages]; [exists (page_types k); by destruct k|].
  rewrite page_type_set_eq. destruct (IH (p + PAGE_SIZE) t (set_types (tset (phys_to_idx k p) t (page_types k)) k)) as [T ->]. by exists T.
Qed.

(** The pages of a run. *)
Definition run_page (p : Z) (j : nat) : Z := p + Z.of_nat j * PAGE_SIZE.

Lemma run_page_S p j : run_page (p + PAGE_SIZE) j = run_page p (S j).
Proof. unfold run_page, PAGE_SIZE. lia. Qed.

Lemma type_pages_ne n : ∀ p t k a, region_ok k → tables_cover k → page_ok k a →
  (∀ j, (j < n)%nat → page_ok k (run_page p j) ∧ run_page p j ≠ a) →
  getd 0 (page_types (type_pages n p t k)) (pidx k a) = getd 0 (page_types k) (pidx k a).
Proof.
  induction n as [|n IH]; intros p t k a Hr Ht Ha Hj; [done|]. cbn [type_pages]. rewrite page_type_set_eq.
  set (k1 := set_types _ k). change (pidx k a) with (pidx k1 a) at 1. rewrite (IH (p + PAGE_SIZE) t k1 a) by (try done; intros j Hlt; rewrite run_page_S; apply Hj; lia).
  destruct (Hj 0%nat ltac:(lia)) as [H0 Hne]. replace (run_page p 0) with p in * by (unfold run_page; lia).
  change (page_types k1) with (tset (phys_to_idx k p) t (page_types k)). change (pidx k1 a) with (pidx k a). rewrite tset_get by done. by rewrite bool_decide_false.
Qed.

Lemma type_pages_ainv n : ∀ p t k ls live, t ≠ PAGE_TYPE_FREE → (∀ j, (j < n)%nat → page_ok k (run_page p j)) →
  ainv k ls live → ainv (type_pages n p t k) ls live.
Proof.
  induction n as [|n IH]; intros p t k ls live Ht Hj Hi; cbn [type_pages]; [done|].
  apply IH; [done| |].
  - intros j Hlt. rewrite run_page_S. pose proof (Hj (S j) ltac:(lia)) as H. unfold page_ok, blk_ok in *. by rewrite page_type_set_eq.
  - apply type_set_ainv; [|done|done]. pose proof (Hj 0%nat ltac:(lia)) as H. unfold run_page in H. by replace (p + Z.of_nat 0 * PAGE_SIZE) with p in H by lia.
Qed.

Lemma run_in_block k p o j : blk_ok k p o → (Z.of_nat (S j) * PAGE_SIZE ≤ block_size o) → page_ok k (run_page p j) ∧ in_blk p o (run_page p j).
Proof.
  intros (Ho & Hb & He & Hd) Hj. pose proof (block_size_divide 0 o ltac:(lia)) as H0. rewrite block_size_0 in H0.
  unfold page_ok, blk_ok, in_blk, run_page. rewrite block_size_0. unfold PAGE_SIZE in *. split_and!; try lia.
  apply Z.divide_add_r; [by etrans|]. apply Z.divide_factor_r.
Qed.

(** What taking pages for the kernel leaves of every address space. *)
Record quiet (own : list Z) (s s' : pmem) : Prop := {
  qu_frames : frames s' = frames s; qu_refc : page_refc s' = page_refc s; qu_kernel : kernel_pml4 s' = kernel_pml4 s;
  qu_region : same_region (km s) (km s'); qu_holds : holds (km s') own; qu_tabs : pte_refcs (km s') = pte_refcs (km s);
  qu_live : ∀ t, t ∈ own → live_table s t = true → live_table s' t = true;
}.

Lemma quiet_refl own s : holds (km s) own → quiet own s s.
Proof. intros H. by split. Qed.

Section quiet.
Context (own : list Z) (s s' : pmem) (Hq : quiet own s s').

Lemma quiet_entry t i : entry s' t i = entry s t i.
Proof. unfold entry, page_of. by rewrite (qu_frames _ _ _ Hq). Qed.

Lemma quiet_walk t p : descend s' t p = descend s t p ∧ walk s' t p = walk s t p.
Proof. apply frames_walk, Hq. Qed.

Lemma quiet_reach r t : reach s' r t ↔ reach s r t.
Proof. unfold reach. by setoid_rewrite (λ p, proj1 (quiet_walk r p)). Qed.

Lemma quiet_ureach r t : ureach s' r t ↔ ureach s r t.
Proof. unfold ureach. by setoid_rewrite (λ p, proj1 (quiet_walk r p)). Qed.

Lemma quiet_maps r p x : maps s' r p x ↔ maps s r p x.
Proof. apply maps_walks. intros q _ _. apply quiet_walk. Qed.

Lemma quiet_idx t : phys_to_idx (km s') t = phys_to_idx (km s) t.
Proof. apply phys_to_idx_ext, Hq. Qed.

Lemma quiet_count t : pte_refc_get (km s') t = pte_refc_get (km s) t.
Proof. unfold pte_refc_get. by rewrite quiet_idx, (qu_tabs _ _ _ Hq). Qed.

Lemma quiet_outside t : outside (km s') t ↔ outside (km s) t.
Proof. apply outside_region, Hq. Qed.

Lemma quiet_space r : space own s r → space own s' r.
Proof.
  intros [[T1 T2] S2 S3]. split; [split|..].
  - intros p q t Hp Hq'. rewrite !(λ p, proj1 (quiet_walk r p)). by apply T1.
  - intros i. rewrite quiet_entry. apply T2.
  - intros t. rewrite quiet_reach, quiet_outside. apply S2.
  - intros p t i. rewrite (proj1 (quiet_walk r p)), quiet_entry. apply S3.
Qed.

Lemma quiet_mem : mem_ok own s → mem_ok own s'.
Proof. intros [_ Hl]. split; [apply Hq|]. unfold low_mem in *. by destruct (qu_region _ _ _ Hq) as [-> ->]. Qed.

Lemma quiet_tabs roots : tabs_ok own s roots → tabs_ok own s' roots.
Proof.
  intros [M S R H C]. split.
  - by apply quiet_mem.
  - intros r Hr. destruct (S r Hr). split; [by apply quiet_space|done].
  - intros r r' Hr Hr' Hne. rewrite quiet_reach. by apply R.
  - intros r r' t Hr Hr'. rewrite !quiet_ureach, quiet_reach. by apply H.
  - intros t l Hnd Hsub Hl Hlen. rewrite quiet_count. apply C; try done. intros r Hr. by apply quiet_ureach, Hl.
Qed.

Lemma quiet_data roots : data_ok own s roots → data_ok own s' roots.
Proof.
  intros [D1 D2 D3 D4]. split.
  - intros r p x Hr. rewrite quiet_maps, quiet_outside. by apply D1.
  - intros r r' p x Hr Hr'. rewrite quiet_maps, quiet_reach. by apply D2.
  - intros r p q x Hr. rewrite !quiet_maps. by apply D3.
  - intros x l Hnd Hsub Hl Hlen. unfold refc_get. rewrite (qu_refc _ _ _ Hq). apply D4; try done.
    intros r Hr. destruct (Hl r Hr) as [p Hp]. exists p. by apply quiet_maps.
Qed.

Lemma quiet_bounded : bounded s → bounded s'.
Proof. unfold bounded. by rewrite (qu_tabs _ _ _ Hq), (qu_refc _ _ _ Hq). Qed.

Lemma live_owned r t : region_ok (km s) → space own s r → reach s r t → live_table s t = true → t ∈ own.
Proof.
  intros (Hb & _ & Hp & Hlim) Hsp Hr Hl. destruct (sp_own _ _ _ Hsp t Hr) as [?|Ho]; [done|]. exfalso.
  unfold live_table, in_managed, managed_end, outside in *. apply andb_prop in Hl as [[[H1 H2]%andb_prop _]%andb_prop _].
  apply Z.leb_le in H1. apply Z.ltb_lt in H2. unfold Buddy.PAGE_SIZE in *.
  rewrite (w64_small (pages (al (km s)) * 4096)) in H2 by lia. rewrite w64_small in H2 by lia. lia.
Qed.

Lemma quiet_forkable roots old : region_ok (km s) → space own s old → forkable own s roots old → forkable own s' roots old.
Proof.
  intros Hreg Hsp F. pose proof F as [F1 F2 F3 F4 F5 F6 F7 F8 F9 F10].
  assert (∀ i, present (entry s old i) = true → reach s old (addr_of (entry s old i)) ∨ huge (entry s old i) = true) as Hre.
  { intros i Hi. destruct (huge (entry s old i)) eqn:Hh; [by right|left]. exists [i]. split; [cbn; lia|]. cbn. unfold is_ptr. by rewrite Hi, Hh. }
  split.
  - by apply quiet_bounded.
  - intros i Hi. rewrite quiet_entry. intros Hp. apply (qu_live _ _ _ Hq); [|by apply F2]. apply (live_owned old); [done..| |by apply F2].
    destruct (Hre i Hp) as [?|Hh]; [done|]. pose proof (tr_top _ _ (sp_tree _ _ _ Hsp) i). congruence.
  - intros t. rewrite quiet_ureach, quiet_idx. apply F3.
  - intros p x. rewrite quiet_maps. apply F4.
  - intros t i. rewrite quiet_reach, quiet_entry. apply F5.
  - intros i. rewrite (qu_kernel _ _ _ Hq), !quiet_entry. apply F6.
  - intros i. rewrite (qu_kernel _ _ _ Hq), !quiet_entry. apply F7.
  - intros i. rewrite (qu_kernel _ _ _ Hq), quiet_entry. apply F8.
  - rewrite (qu_kernel _ _ _ Hq), quiet_outside. apply F9.
  - apply F10.
Qed.

(** A fork afterwards is a fork of the state before. *)
Lemma quiet_fork roots old new s2 : fork_ok own s' roots old new s2 → fork_ok own s roots old new s2.
Proof.
  intros [F1 F2 F3 F4 F5 F6 F7]. split; try done.
  - intros r v Hr. rewrite F4 by done. unfold xlate. by rewrite (proj2 (quiet_walk r _)).
  - intros r p x Hr Hx. rewrite (F7 r p x); [|done|by apply quiet_maps]. unfold page_of. by rewrite (qu_frames _ _ _ Hq).
Qed.
End quiet.

(** The block of a stack at [p] is one more block in use. *)
Definition stack_at (k : kmem) (own : list Z) (p : Z) : Prop :=
  ∃ ls others, ainv k ls (((λ x, (x, 0%nat)) <$> own) ++ (p, 4%nat) :: others).

Lemma stack_order : order_for_pages (KERNEL_STACK_PAGES + 1) = 4%nat.
Proof. reflexivity. Qed.

Lemma stack_pages k p j : blk_ok k p 4 → (j < 9)%nat → page_ok k (run_page p j) ∧ in_blk p 4 (run_page p j).
Proof. intros Hp Hj. apply run_in_block; [done|]. rewrite block_size_pow by (vm_compute; lia). unfold PAGE_SIZE. lia. Qed.

#[local] Opaque type_pages.

Lemma alloc_stack_quiet own s r s' : holds (km s) own → alloc_stack KERNEL_STACK_PAGES s = (r, s') →
  quiet own s s' ∧ match r with Some top => ∃ p, top = p + 8 * PAGE_SIZE ∧ 0 < p < 2 ^ 62 ∧ stack_at (km s') own p | None => True end.
Proof.
  intros (ls & others & Hinv). unfold alloc_stack. rewrite stack_order. change (S KERNEL_STACK_PAGES) with 9%nat. change (Z.of_nat KERNEL_STACK_PAGES) with 8. destruct (alloc 4 (km s)) as [r0 k] eqn:Hal.
  destruct (alloc_ainv 4 (km s) ls _ r0 k Hinv Hal) as (ls' & Hinv' & _ & Hpost).
  destruct (alloc_spec 4 (km s) ls r0 k (ai_wf _ _ _ Hinv) Hal) as (_ & _ & Hrest & _). unfold rest in Hrest. injection Hrest as Hb Hp _ _ Hrc _ _ _ _ _ _.
  pose proof (wf_region _ _ (ai_wf _ _ _ Hinv)) as Hreg. pose proof (ai_cover _ _ _ Hinv) as Hcov.
  assert (∀ t, t ∈ own → page_ok (km s) t) as Hpage.
  { intros t Ht. apply (ai_ok _ _ _ Hinv (t, 0%nat)), held_live, elem_of_app. left. apply list_elem_of_fmap. by exists t. }
  destruct r0 as [p|]; intros [= <- <-].
  - destruct Hpost as (_ & Hok & _ & _ & _ & _ & Ht). injection Ht as Hu _ Hty.
    assert (blk_ok k p 4) as Hok' by by apply (blk_ok_ext (km s)).
    assert (ainv (type_pages 9 p PAGE_TYPE_STACK k) ls' ((p, 4%nat) :: ((λ x, (x, 0%nat)) <$> own) ++ others)) as HA.
    { apply type_pages_ainv; [done| |done]. intros j Hj. by apply (stack_pages k). }
    assert (∀ t j, t ∈ own → (j < 9)%nat → run_page p j ≠ t) as Hne.
    { intros t j Ht Hj E. destruct (stack_pages k p j Hok' Hj) as [_ Hin]. rewrite E in Hin.
      pose proof (ai_pair _ _ _ Hinv') as [Hd _].
      specialize (Hd (t, 0%nat)). unfold disj2, disj in Hd. cbn [fst snd] in Hd. pose proof block_size_0. unfold PAGE_SIZE, in_blk in *.
      assert ((t, 0%nat) ∈ (((λ x, (x, 0%nat)) <$> own) ++ others) ++ ((λ a, (a, 0%nat)) <$> q_list (quar k))) as Hm; [|specialize (Hd Hm); lia].
      do 2 (apply elem_of_app; left). apply list_elem_of_fmap. by exists t. }
    destruct (type_pages_eq 9 p PAGE_TYPE_STACK k) as [T HT]. split.
    + split; cbn [km set_km]; [done..| | | |].
      * rewrite HT. done.
      * exists ls', ((p, 4%nat) :: others). eapply ainv_perm; [|exact HA]. apply Permutation_middle.
      * rewrite HT. exact Hrc.
      * intros t Ht. rewrite HT. unfold live_table, in_managed, managed_end. cbn [km set_km al set_types]. rewrite Hb, Hp.
        intros [[A B]%andb_prop C]%andb_prop. rewrite A. cbn [andb]. apply andb_true_intro. split.
        -- eapply (umark_used (km s) _ (page_index (km s) p)); [exact Hb| |exact B]. exact Hu.
        -- unfold page_type_get in *. rewrite (phys_to_idx_ext (km s)) by exact Hb. destruct (phys_to_idx (km s) t <? Buddy.MAX_REFC_PAGES); [|exact C].
           rewrite <- C. f_equal. rewrite phys_to_idx_eq by auto.
           rewrite <- HT.
           assert (pidx (km s) t = pidx k t) as E by (unfold pidx; by rewrite Hb). rewrite E.
           rewrite type_pages_ne; [|by apply (wf_region _ _ (ai_wf _ _ _ Hinv'))|apply Hinv'| |].
           ++ rewrite Hty, <- E, tset_get by (done || auto || exact (blk_page _ _ _ Hok)). rewrite bool_decide_false; [done|].
              intros ->. apply (Hne t 0%nat Ht ltac:(lia)). unfold run_page. lia.
           ++ apply (blk_ok_ext (km s)); [exact Hb|exact Hp|by apply Hpage].
           ++ intros j Hj. split; [by apply (stack_pages k)|]. by apply Hne.
    + exists p. split; [done|]. split.
      * pose proof (blk_bound _ _ _ Hreg Hok). destruct Hreg as (? & _). destruct Hok as (_ & ? & _). pose proof (block_size_bound 4 ltac:(vm_compute; lia)). unfold PAGE_SIZE in *. lia.
      * exists ls', others. eapply ainv_perm; [|exact HA]. apply Permutation_middle.
  - destruct Hpost as ([= Hu _ Hty] & _). split; [|done]. split; try done; cbn [km set_km].
    + by exists ls', others.
    + intros t Ht. unfold live_table, in_managed, managed_end, page_is_used, used_set, used_word, page_type_get, phys_to_idx. cbn [km set_km].
      by rewrite Hb, Hp, Hu, Hty.
Qed.

(** A fork that fails has taken nothing; the stack can be given back. *)
Lemma fork_fails own s old p s' : stack_at (km s) own p → cow_fork_pml4 old s = (None, s') → stack_at (km s') own p.
Proof.
  intros (ls & others & Hinv). rewrite cow_fork_eq. unfold alloc_page. destruct (alloc_zeroed_page (km s)) as [[n|] k] eqn:Hz; [by intros [? _]%pair_eq|].
  intros [_ <-]%pair_eq. destruct (alloc_zeroed_ainv (km s) ls _ None k Hinv Hz) as (ls' & Hinv'). by exists ls', others.
Qed.

Lemma free_stack_returns own s p : 0 < p < 2 ^ 62 → stack_at (km s) own p → ∃ s', free_stack (p + 8 * PAGE_SIZE) KERNEL_STACK_PAGES s = Done s'.
Proof.
  intros Hp (ls & others & Hinv). unfold free_stack. change (Z.of_nat KERNEL_STACK_PAGES) with 8.
  replace (w64 (p + 8 * PAGE_SIZE - 8 * PAGE_SIZE)) with p by (rewrite w64_small; lia).
  destruct (negb _); [by exists s|]. rewrite stack_order.
  assert (ainv (km s) ls ((p, 4%nat) :: ((λ x, (x, 0%nat)) <$> own) ++ others)) as HA by (eapply ainv_perm; [|exact Hinv]; by rewrite <- Permutation_middle).
  destruct (free_ainv 0 p 4 (km s) ls _ HA) as (k & ls' & -> & _). cbn [cbind]. by eexists.
Qed.

(** ** A new task *)

(** The free pids name empty slots. *)
Definition pids_ok (x : sched) : Prop :=
  0 ≤ pid_bitmap x < 2 ^ 64 ∧ ∀ i, (i < MAX_TASKS)%nat → pid_used x i = false → t_id (tasks x !!! i) = 0%nat.

#[local] Opaque MAX_TASKS PRIORITY_LEVELS MAX_CPUS.

Lemma lor_bound64 a b : 0 ≤ a < 2 ^ 64 → 0 ≤ b < 2 ^ 64 → 0 ≤ Z.lor a b < 2 ^ 64.
Proof.
  intros Ha Hb. assert (∀ x, 0 ≤ x < 2 ^ 64 → Z.log2 x < 64) as H.
  { intros x Hx. destruct (decide (x = 0)) as [->|]; [done|]. apply Z.log2_lt_pow2; lia. }
  split; [apply Z.lor_nonneg; lia|]. assert (0 ≤ Z.lor a b) by (apply Z.lor_nonneg; lia).
  destruct (decide (Z.lor a b = 0)) as [->|]; [lia|]. apply Z.log2_lt_pow2; [lia|].
  rewrite Z.log2_lor by lia. apply Z.max_lub_lt; by apply H.
Qed.

(** A new pid: its slot is empty, no other is touched. *)
Lemma pid_taken_from m x c x' : (0 < m < MAX_TASKS)%nat → pids_ok x → alloc_pid_from m x = (Some c, x') →
  (0 < c < MAX_TASKS)%nat ∧ t_id (tasks x !!! c) = 0%nat ∧ tasks x' = tasks x ∧ runqueue x' = runqueue x ∧ pids_ok x' ∧
  ∀ i, pid_used x' i = bool_decide (i = c) || pid_used x i.
Proof.
  intros Hm [Hb Hf] Hal. destruct (alloc_pid_lowest m x Hb (proj2 Hm)) as [H _].
  rewrite Hal in H. destruct H as (Hc & Hu & _ & Hset & _).
  assert (tasks x' = tasks x ∧ runqueue x' = runqueue x ∧ pid_bitmap x' = Z.lor (pid_bitmap x) (Z.shiftl 1 (Z.of_nat c))) as (E1 & E2 & E3).
  { unfold alloc_pid_from in Hal. destruct (_ <=? _)%nat; [done|]. destruct (pid_candidate _ _); [|done]. by injection Hal as -> <-. }
  assert (c < 64)%nat as Hc64 by (change 64%nat with MAX_TASKS; lia).
  split_and!; [lia|lia|apply Hf; [lia|done]|done|done| |done]. split.
  - rewrite E3. apply lor_bound64; [done|]. rewrite Z.shiftl_1_l. split; [lia|]. apply Z.pow_lt_mono_r; lia.
  - intros i Hi Hpi. rewrite E1. rewrite Hset in Hpi. apply orb_false_iff in Hpi as [_ ?]. by apply Hf.
Qed.

Lemma pid_taken x c x' : pids_ok x → alloc_user_pid x = (Some c, x') →
  (0 < c < MAX_TASKS)%nat ∧ t_id (tasks x !!! c) = 0%nat ∧ tasks x' = tasks x ∧ runqueue x' = runqueue x ∧ pids_ok x' ∧
  ∀ i, pid_used x' i = bool_decide (i = c) || pid_used x i.
Proof. apply pid_taken_from. vm_compute. lia. Qed.

Lemma pid_none x x' : pids_ok x → alloc_user_pid x = (None, x') → x' = x.
Proof.
  intros [Hb Hf] Hal. unfold alloc_user_pid in Hal. destruct (alloc_pid_lowest 1 x Hb ltac:(vm_compute; lia)) as [H _].
  rewrite Hal in H. apply H.
Qed.

(** Only the pids of the scheduler differ. *)
Lemma pids_pinv s q x : pinv s q → tasks x = tasks (sch s) → runqueue x = runqueue (sch s) → pinv (set_sc x s) q.
Proof.
  intros [[[[A1 A2 A3 A4 A5 A6 A7 A8 A9 A10] B1 B2 B3 B4] T2 T3] P] E1 E2.
  split; [split|]; cbn [set_sc sch pt].
  - split; [split|..]; unfold rq_of in *; cbn; rewrite ?E1, ?E2; assumption.
  - exact T2.
  - rewrite E1. exact T3.
  - unfold alive. cbn [sch set_sc]. rewrite E1. exact P.
Qed.

Section new_task.
Context (s : procs) (q : queues) (c : nat) (t : Task) (x : ptask).
Context (Hi : pinv s q) (Hc : (0 < c < MAX_TASKS)%nat) (H0 : t_id (tasks (sch s) !!! c) = 0%nat).
Context (Hid : t_id t = c) (Hst : t_state t = TReady) (Hcpu : (t_cpu t < MAX_CPUS)%nat) (Hprio : (t_prio t < PRIORITY_LEVELS)%nat).
Context (Hpar : ∀ p, t_parent x = Some p → (0 < p < MAX_TASKS)%nat ∧ (p = 1%nat ∨ alive s p)).

(** The state with the task in its slot, before it is queued. *)
Definition filled_slot : procs := set_pt (<[c := x]> (pt s)) (set_sc (set_tasks (<[c := t]> (tasks (sch s))) (sch s)) s).

Lemma slot_unqueued : unqueued q c.
Proof.
  intros cp p Hin. apply (si_ready _ _ (ti_sys _ _ Hi)) in Hin. rewrite (ti_empty _ _ Hi c) in Hin by (done || lia). done.
Qed.

Lemma filled_task j : tasks (sch filled_slot) !!! j = if decide (j = c) then t else tasks (sch s) !!! j.
Proof.
  cbn [sch filled_slot set_pt set_sc tasks set_tasks]. case_decide as Hj.
  - subst j. apply list_lookup_total_insert_eq. rewrite (rw_tasks _ _ (si_wf _ _ (ti_sys _ _ Hi))). lia.
  - by apply list_lookup_total_insert_ne.
Qed.

Lemma filled_sys : sys_inv (sch filled_slot) q.
Proof.
  pose proof (ti_sys _ _ Hi) as [Hwf Hrd Hids Hcp Hpr]. pose proof slot_unqueued as Hun. split.
  - apply rq_wf_unqueued; [done|lia|done].
  - intros cp p a Ha. rewrite filled_task. case_decide as E; [subst a; by destruct (Hun cp p)|]. by eapply Hrd.
  - intros j Hj. rewrite filled_task. case_decide; [congruence|auto].
  - intros j Hj. rewrite filled_task. case_decide; auto.
  - intros j Hj. rewrite filled_task. case_decide; auto.
Qed.

Lemma new_task_queued : ∃ y, enqueue_task c (t_prio t) (sch filled_slot) = Done y ∧
  pinv (set_sc y filled_slot) (upd2 q (t_cpu t) (t_prio t) (q (t_cpu t) (t_prio t) ++ [c])) ∧ pid_bitmap y = pid_bitmap (sch s) ∧
  same_task (tasks y !!! c) t ∧ ∀ j, j ≠ c → same_task (tasks y !!! j) (tasks (sch s) !!! j).
Proof.
  pose proof filled_sys as Hs. pose proof Hs as [Hwf Hrd Hids Hcp Hpr]. pose proof slot_unqueued as Hun.
  assert (tasks (sch filled_slot) !!! c = t) as Ec by (rewrite filled_task; by rewrite decide_True).
  destruct (enqueue_spec (sch filled_slot) q c (t_cpu t) (t_prio t)) as (y & Hrun & (Hl & Hpid & Hlinks) & Hwf'); try done; [by rewrite Ec..|].
  assert (∀ j, same_task (tasks y !!! j) (if decide (j = c) then t else tasks (sch s) !!! j)) as Hy.
  { intros j. rewrite <- filled_task. apply Hlinks. }
  assert (∀ j, t_id (tasks y !!! j) = t_id (tasks (sch filled_slot) !!! j) ∧ t_state (tasks y !!! j) = t_state (tasks (sch filled_slot) !!! j) ∧
    t_cpu (tasks y !!! j) = t_cpu (tasks (sch filled_slot) !!! j) ∧ t_prio (tasks y !!! j) = t_prio (tasks (sch filled_slot) !!! j)) as Hf.
  { intros j. destruct (same_task_fields _ _ (Hlinks j)) as (? & ? & ? & ? & _). done. }
  exists y. split; [done|]. split; [split; [split|]|split; [done|split]].
  - cbn [sch set_sc]. split; [exact Hwf'|..].
    + intros cp p a Ha. rewrite (proj1 (proj2 (Hf a))). unfold upd2 in Ha. case_decide as E; [|by eapply Hrd].
      apply elem_of_app in Ha as [Ha| ->%list_elem_of_singleton]; [by eapply Hrd|]. by rewrite Ec.
    + intros j Hj. rewrite (proj1 (Hf j)). auto.
    + intros j Hj. rewrite (proj1 (proj2 (proj2 (Hf j)))). auto.
    + intros j Hj. rewrite (proj2 (proj2 (proj2 (Hf j)))). auto.
  - cbn. rewrite length_insert. apply Hi.
  - cbn [sch set_sc]. intros j Hj. destruct (Hf j) as (-> & -> & _). rewrite filled_task. case_decide; [intros; lia|]. by apply (ti_empty _ _ Hi).
  - cbn [sch set_sc pt]. intros j p Hj. rewrite (proj1 (Hf j)), filled_task. cbn [pt filled_slot set_pt].
    assert (p = 1%nat ∨ alive s p → p = 1%nat ∨ alive (set_sc y filled_slot) p) as Hal.
    { intros [->|[A1 A2]]; [by left|right]. assert (p ≠ c) by (intros ->; congruence). unfold alive. cbn [sch set_sc].
      destruct (Hf p) as (-> & -> & _). by rewrite filled_task, decide_False. }
    case_decide as E.
    + subst j. rewrite list_lookup_total_insert_eq by (rewrite (ti_len _ _ Hi); lia). intros _ Hp. destruct (Hpar p Hp). auto.
    + rewrite list_lookup_total_insert_ne by done. intros Hnz Hp. destruct (pv_parent _ _ Hi j p Hj Hnz Hp). auto.
  - specialize (Hy c). by rewrite decide_True in Hy.
  - intros j Hj. specialize (Hy j). by rewrite decide_False in Hy.
Qed.
End new_task.
