(* ===== verification/ForkClaims.v ===== *)
(** * Theorems on the creation of tasks

    A fork makes one task: ready and queued, with its parent's priority,
    descriptors, ranges, handlers and a copy-on-write image of its memory, and
    its own registers; every other task stays as it is and all invariants
    hold.  A thread shares the memory instead.  Two examples show what a clone
    that fails leaves behind and in which ring a forked child starts. *)

From S2P Require Import Prelude Buddy BuddyInv BuddySpec PageAlloc BuddyPages Vma Paging PagingWalk PagingMap PagingCow PagingFork PagingDemo.
From S2P Require Import Vfs Flat Exec Sched SchedInv SchedClaims Futex Pipe PipeInv Bytes Signal Proc ProcInv PipeClaims ProcClaims Fork ForkOps.
From Stdlib Require Import Lia ZArith.
From stdpp Require Import base gmap numbers list sets.
Local Open Scope Z_scope.

#[local] Opaque MAX_TASKS PRIORITY_LEVELS MAX_CPUS.

(** ** Descriptors *)

Lemma inc_all_tables t : ∀ s, fd_tables (inc_all t s) = fd_tables s.
Proof.
  induction t as [|d t IH]; intros s; cbn [inc_all]; [done|]. rewrite IH. destruct (fd_used d); [apply inc_keeps; exact 0%nat|done].
Qed.

Lemma fork_tables s cur c : files_inv none s → cur ≠ 0%nat →
  fd_table_for c (fork_fds cur c s) = fd_table_for cur s ∧ ∀ j, fd_slot j ≠ fd_slot c → fd_table_for j (fork_fds cur c s) = fd_table_for j s.
Proof.
  intros Hi Hc. unfold fork_fds, get_fd_table. rewrite (proj2 (Nat.eqb_neq cur 0) Hc). unfold fd_table_for. rewrite inc_all_tables.
  cbn [set_table fd_tables]. destruct (slot_table none s c Hi) as (t & Ht & _). apply lookup_lt_Some in Ht. split.
  - by rewrite list_lookup_total_insert_eq.
  - intros j Hj. by rewrite list_lookup_total_insert_ne.
Qed.

(** ** What a fork starts from *)

(** The invariants of all the parts at a system call of [cur]; [roots] are the
    address spaces in use. *)
Record ready_to_fork (w : world) (q : queues) (own roots : list Z) (cur : nat) : Prop := {
  rf_procs : pinv (w_procs w) q;
  rf_cur : on_cpu (w_procs w) cur;
  rf_running : t_state (tasks (sch (w_procs w)) !!! cur) = TRunning;
  rf_pids : pids_ok (sch (w_procs w));
  rf_files : files_inv none (fl (w_procs w));
  rf_rest : length (w_rest w) = MAX_TASKS;
  rf_tabs : tabs_ok own (w_tabs w) roots;
  rf_data : data_ok own (w_tabs w) roots;
  rf_root : t_pml4 (pt (w_procs w) !!! cur) ∈ roots;
  rf_fork : forkable own (w_tabs w) roots (t_pml4 (pt (w_procs w) !!! cur));
  rf_ranges : ∀ r, r ∈ (w_vmas w : list VmaRec) → r_pml4 r = 0 ∨ r_pml4 r ∈ roots;
  rf_nonzero : t_pml4 (pt (w_procs w) !!! cur) ≠ 0;
  rf_room : (length (w_vmas w) + length (ranges (t_pml4 (pt (w_procs w) !!! cur)) (w_vmas w)) ≤ MAX_VMA_RECORDS)%nat;
}.

(** What the child is, whatever its memory: [c] is its slot, [x] and [r] the
    parts that differ between fork and clone. *)
Record child_made (w w' : world) (cur c : nat) (x : ptask) (r : rtask) : Prop := {
  cm_slot : (0 < c < MAX_TASKS)%nat ∧ t_id (tasks (sch (w_procs w)) !!! c) = 0%nat;
  cm_inv : ∃ q', pinv (w_procs w') q' ∧ c ∈ q' 0%nat (t_prio (tasks (sch (w_procs w)) !!! cur));
  cm_pids : pids_ok (sch (w_procs w'));
  cm_task : same_task (tasks (sch (w_procs w')) !!! c) (child_task c (tasks (sch (w_procs w)) !!! cur));
  cm_own : pt (w_procs w') !!! c = x ∧ w_rest w' !!! c = r;
  cm_others : ∀ j, j ≠ c → same_task (tasks (sch (w_procs w')) !!! j) (tasks (sch (w_procs w)) !!! j) ∧
    pt (w_procs w') !!! j = pt (w_procs w) !!! j ∧ w_rest w' !!! j = w_rest w !!! j;
  cm_files : files_inv none (fl (w_procs w')) ∧ fd_table_for c (fl (w_procs w')) = fd_table_for cur (fl (w_procs w)) ∧
    ∀ j, fd_slot j ≠ fd_slot c → fd_table_for j (fl (w_procs w')) = fd_table_for j (fl (w_procs w));
}.

(** The world when the call has a pid and the descriptors. *)
Definition with_pid (cur c : nat) (x : sched) (w : world) : world :=
  on_procs (λ s, set_fl (fork_fds cur c (fl s)) s) (on_procs (set_sc x) w).

(** A call that fails: nothing has changed but free memory, the table of
    descriptors of an empty slot, and perhaps the pids. *)
Record nothing_made (w w' : world) (q : queues) : Prop := {
  nm_inv : pinv (w_procs w') q;
  nm_tasks : tasks (sch (w_procs w')) = tasks (sch (w_procs w)) ∧ pt (w_procs w') = pt (w_procs w) ∧ w_rest w' = w_rest w ∧ w_vmas w' = w_vmas w;
  nm_files : files_inv none (fl (w_procs w'));
  nm_tables : ∀ j, (j < MAX_TASKS)%nat → t_id (tasks (sch (w_procs w)) !!! j) ≠ 0%nat → fd_table_for j (fl (w_procs w')) = fd_table_for j (fl (w_procs w));
}.

Section start.
Context (w : world) (q : queues) (own roots : list Z) (cur : nat) (Hr : ready_to_fork w q own roots cur).
Context (c : nat) (x : sched) (Hal : alloc_user_pid (sch (w_procs w)) = (Some c, x)).

Let s := w_procs w.
Let w1 := with_pid cur c x w.

Lemma start_slot : (0 < c < MAX_TASKS)%nat ∧ t_id (tasks (sch s) !!! c) = 0%nat ∧ c ≠ cur ∧ (0 < cur < MAX_TASKS)%nat.
Proof.
  destruct (pid_taken _ c x (rf_pids _ _ _ _ _ Hr) Hal) as (H1 & H2 & _). destruct (rf_cur _ _ _ _ _ Hr) as (H3 & H4 & _).
  split_and!; try done; try lia. intros ->. unfold s in H2. lia.
Qed.

Lemma start_slots j : (j < MAX_TASKS)%nat → fd_slot j = j.
Proof. intros. unfold fd_slot. by apply Nat.mod_small. Qed.

Lemma start_inv : pinv (w_procs w1) q.
Proof.
  destruct (pid_taken _ c x (rf_pids _ _ _ _ _ Hr) Hal) as (_ & _ & E1 & E2 & _).
  pose proof (pids_pinv s q x (rf_procs _ _ _ _ _ Hr) E1 E2) as H. by eapply pinv_ext.
Qed.

Lemma start_files : files_inv none (fl (w_procs w1)) ∧ fd_table_for c (fl (w_procs w1)) = fd_table_for cur (fl s) ∧
  ∀ j, fd_slot j ≠ fd_slot c → fd_table_for j (fl (w_procs w1)) = fd_table_for j (fl s).
Proof.
  destruct start_slot as (_ & _ & _ & Hc). split; [by apply fork_fds_inv, Hr|]. apply fork_tables; [apply Hr|lia].
Qed.

(** Nothing was made: the pid is kept or given back, memory does not matter. *)
Lemma start_nothing (b : bool) p : nothing_made w (let w2 := set_wtabs p w1 in if b then release_pid c w2 else w2) q.
Proof.
  destruct start_slot as (Hc & H0 & Hne & _). destruct start_files as (F1 & _ & F2).
  destruct (pid_taken _ c x (rf_pids _ _ _ _ _ Hr) Hal) as (_ & _ & E1 & _).
  assert (tasks (free_pid c x) = tasks x) as Ef by (unfold free_pid; by destruct (_ || _)).
  split.
  - destruct b; [|exact start_inv]. pose proof start_inv as [[T1 T2 T3] P]. split; [split|]; cbn [w_procs set_wtabs release_pid on_procs sch set_sc pt].
    + apply free_pid_sys. exact T1.
    + exact T2.
    + intros i. cbn. rewrite Ef. apply T3.
    + intros i p'. unfold alive. cbn. rewrite Ef. apply P.
  - destruct b; cbn; rewrite ?Ef; done.
  - destruct b; exact F1.
  - intros j Hj Hid. destruct b; (apply F2; rewrite !start_slots by lia; intros ->; done).
Qed.

(** The child in its slot and in the queue. *)
Lemma child_put w2 X R :
  sch (w_procs w2) = sch (w_procs w1) → pt (w_procs w2) = pt s → fl (w_procs w2) = fl (w_procs w1) → w_rest w2 = w_rest w →
  (∀ p, t_parent X = Some p → (0 < p < MAX_TASKS)%nat ∧ (p = 1%nat ∨ alive s p)) →
  let t := child_task c (tasks (sch s) !!! cur) in
  ∃ y, enqueue_task c (t_prio t) (sch (w_procs (put_task c t X R w2))) = Done y ∧
    ∀ w', sch (w_procs w') = y → pt (w_procs w') = <[c := X]> (pt s) → fl (w_procs w') = fl (w_procs w1) → w_rest w' = <[c := R]> (w_rest w) →
      child_made w w' cur c X R.
Proof.
  intros Es Ep Ef Er Hpar t. destruct start_slot as (Hc & H0 & Hne & Hcur). destruct start_files as (F1 & F2 & F3).
  destruct (pid_taken _ c x (rf_pids _ _ _ _ _ Hr) Hal) as (_ & _ & E1 & E2 & Hpids & _).
  pose proof (rf_procs _ _ _ _ _ Hr) as Hi. pose proof start_inv as Hi1.
  destruct (new_task_queued (w_procs w1) q c t X Hi1 Hc) as (y & Hrun & Hinv & Hpid & Hyc & Hyj); try done.
  - cbn. by rewrite E1.
  - vm_compute; lia.
  - apply (si_prio _ _ (ti_sys _ _ Hi)). lia.
  - intros p Hp. destruct (Hpar p Hp) as [? Ha]. split; [done|]. unfold alive in *. cbn. by rewrite E1.
  - cbn [sch w1 w_procs with_pid on_procs set_fl set_sc] in Hyj. rewrite E1 in Hyj.
    exists y. split.
    + rewrite <- Hrun. f_equal. unfold put_task, upd_task. cbn [w_procs sch set_sc set_pt]. rewrite Es, task_idx_small by lia. reflexivity.
    + intros w' Gs Gp Gf Gr. split.
      * split; [done|exact H0].
      * exists (upd2 q (t_cpu t) (t_prio t) (q (t_cpu t) (t_prio t) ++ [c])). split; [|].
        -- eapply pinv_ext; [exact Hinv|by rewrite Gs|by rewrite Gp|]. intros j. by rewrite Gp.
        -- change 0%nat with (t_cpu t). change (t_prio (tasks (sch (w_procs w)) !!! cur)) with (t_prio t). rewrite upd2_eq.
           apply elem_of_app. right. apply list_elem_of_here.
      * destruct Hpids as [Hb Hf]. unfold pids_ok, pid_used in *. rewrite Gs, Hpid. cbn [w1 w_procs with_pid on_procs sch set_fl set_sc]. split; [done|].
        intros i Hlt Hu. destruct (pid_taken _ c x (rf_pids _ _ _ _ _ Hr) Hal) as (_ & _ & _ & _ & _ & Hset). unfold pid_used in Hset.
        rewrite Hset in Hu. apply orb_false_iff in Hu as [Hic%bool_decide_eq_false Hu].
        destruct (same_task_fields _ _ (Hyj i Hic)) as (-> & _). apply (proj2 (rf_pids _ _ _ _ _ Hr)); done.
      * rewrite Gs. exact Hyc.
      * rewrite Gp, Gr. rewrite !list_lookup_total_insert_eq; [done|rewrite (rf_rest _ _ _ _ _ Hr); lia|unfold s; rewrite (ti_len _ _ Hi); lia].
      * intros j Hj. rewrite Gs, Gp, Gr. rewrite !list_lookup_total_insert_ne by done. split; [by apply Hyj|done].
      * rewrite Gf. split; [done|split; [done|]]. exact F3.
Qed.
End start.

Lemma nothing_refl w q : pinv (w_procs w) q → files_inv none (fl (w_procs w)) → nothing_made w w q.
Proof. intros. by split. Qed.

Lemma same_sched w : on_procs (set_sc (sch (w_procs w))) w = w.
Proof. by destruct w as [[] ? ? ? ?]. Qed.

(** The parent's parts are those before the call. *)
Lemma start_parent w q own roots cur c x : ready_to_fork w q own roots cur → alloc_user_pid (sch (w_procs w)) = (Some c, x) →
  task_ref (sch (w_procs (with_pid cur c x w))) cur = tasks (sch (w_procs w)) !!! cur ∧
  pt_ref (w_procs (with_pid cur c x w)) cur = pt (w_procs w) !!! cur ∧ w_rest (with_pid cur c x w) !!! task_idx cur = w_rest w !!! cur.
Proof.
  intros Hr Hal. destruct (pid_taken _ c x (rf_pids _ _ _ _ _ Hr) Hal) as (_ & _ & E1 & _). destruct (rf_cur _ _ _ _ _ Hr) as (Hc & _).
  unfold task_ref, pt_ref. rewrite task_idx_small by lia. cbn. by rewrite E1.
Qed.

(** A page the fork took is no root and not zero. *)
Lemma fresh_root own s roots old new s' : tabs_ok own s roots → cow_fork_pml4 old s = (Some new, s') → new ≠ 0 ∧ ∀ r, r ∈ roots → r ≠ new.
Proof.
  intros Ht. rewrite cow_fork_eq. destruct (alloc_page s) as [[n|] s1] eqn:Hal; [|by intros [? _]%pair_eq].
  intros [[= ->] _]%pair_eq. destruct (to_mem _ _ _ Ht) as [Hh Hlow].
  destruct (alloc_page_spec s own (Some new) s1 Hh Hlow Hal) as (_ & Hh1 & Hno & Hnout & _). split.
  - exact (pa_own_nonzero (PageAllocator := buddy_pages) _ _ _ Hh1 (list_elem_of_here _ _)).
  - intros r Hr ->. destruct (to_space _ _ _ Ht new Hr) as [Hsp _]. destruct (sp_own _ _ _ Hsp new) as [?|?]; [|done..].
    exists []. split; [cbn; lia|done].
Qed.

(** What the child of a fork is, part by part: [P], [x] and [r] are the three
    parts of its parent, [t], [X] and [R] its own, [e] what the entry of the
    call left. *)
Record forked (cur c : nat) (e : entry_regs) (new : Z) (P t : Task) (x X : ptask) (r R : rtask) : Prop := {
  fc_sched : t_id t = c ∧ t_state t = TReady ∧ t_cpu t = 0%nat ∧ t_prio t = t_prio P ∧ t_static_prio t = t_static_prio P ∧
    t_blocked_on t = 0 ∧ t_wakeup_tick t = 0 ∧ t_futex_deadline t = 0 ∧ t_pi_boosted t = false;
  fc_family : t_parent X = Some cur ∧ t_tgid X = Z.of_nat c ∧ t_exit_code X = 0 ∧ t_child_tidptr X = 0;
  fc_space : t_pml4 X = new ∧ t_private X = true ∧ t_brk_start R = t_brk_start r ∧ t_brk_end R = t_brk_end r ∧ t_user_stack R = t_user_stack r;
  fc_signals : sig_handlers (t_sigs X) = sig_handlers (t_sigs x) ∧ sig_blocked (t_sigs X) = sig_blocked (t_sigs x) ∧ sig_pending (t_sigs X) = 0 ∧
    altstack_sp (t_sigs X) = 0 ∧ altstack_flags (t_sigs X) = 0 ∧ altstack_size (t_sigs X) = 0;
  fc_result : rax (t_regs R) = 0;
  fc_entry : rip (t_regs R) = u_rip e ∧ rsp (t_regs R) = u_rsp e ∧ rflags (t_regs R) = u_rflags e ∧ fs_base (t_regs R) = u_fs_base e;
  fc_callee : ∀ b p r1 r2 r3 r4, u_callee e = [b; p; r1; r2; r3; r4] →
    rbx (t_regs R) = b ∧ rbp (t_regs R) = p ∧ r12 (t_regs R) = r1 ∧ r13 (t_regs R) = r2 ∧ r14 (t_regs R) = r3 ∧ r15 (t_regs R) = r4;
  fc_saved : let g := t_regs R in let h := t_regs r in
    rcx g = rcx h ∧ rdx g = rdx h ∧ rsi g = rsi h ∧ rdi g = rdi h ∧ r8 g = r8 h ∧ r9 g = r9 h ∧ r10 g = r10 h ∧ r11 g = r11 h ∧ cs g = cs h ∧ ss g = ss h;
  fc_rights : t_uid R = t_uid r ∧ t_gid R = t_gid r ∧ t_euid R = t_euid r ∧ t_egid R = t_egid r ∧ t_privileges R = t_privileges r;
  fc_name : t_comm R = t_comm r ∧ t_cwd R = t_cwd r ∧ t_cwd_len R = t_cwd_len r;
  fc_quiet : t_in_syscall R = false ∧ t_saved_user_regs R = None ∧ t_poll_fds X = 0 ∧ t_poll_nfds R = 0 ∧ t_ipc_partner R = 0 ∧ t_ipc_phys R = 0;
}.

Lemma fork_forked cur c e stack new P t x r : same_task t (child_task c P) →
  forked cur c e new P t x (mkPtask (Some cur) 0 (Z.of_nat c) 0 stack new true 0 (child_sigs false (t_sigs x))) r
    (child_rest (fork_regs e (t_regs r)) (t_user_stack r) P r).
Proof.
  intros Ht. split; try done.
  - injection Ht as E1 E2 E3 E4 E5 E6 E7 E8 E9. by split_and!.
  - intros b p r1 r2 r3 r4 E. cbn [child_rest t_regs fork_regs rbx rbp r12 r13 r14 r15]. by rewrite E.
Qed.

(** C15: A fork, from a state that satisfies the invariants of all parts,
    always returns.  Only without a pid, a stack or a page for the top table it
    returns -ENOMEM, and then no task has changed and the pids are as before.  Else it
    returns the pid of a slot that was empty, and the task there is ready and
    queued on CPU 0 at its parent's priority, with its parent as parent and its
    own group.  Its rax is 0; instruction and stack pointer, flags, thread
    pointer and the registers a callee saves are those at the entry of the
    call; the other registers and the segments are those last saved for its
    parent.  It has its parent's descriptors, rights, name, directory,
    handlers and mask, but no pending signal and no alternate stack; its
    recorded ranges are its parent's, and its memory is a copy-on-write image
    of its parent's.  All other tasks, tables and ranges are unchanged, and
    every invariant holds again: parents alive, run queues, pids, pipe
    references, page tables. *)
Lemma fork_child w q own roots cur e :
  ready_to_fork w q own roots cur →
  let P := tasks (sch (w_procs w)) !!! cur in let x := pt (w_procs w) !!! cur in let r := w_rest w !!! cur in
  ∃ v w', sys_fork cur e w = Done (v, w') ∧
    ((v = - ENOMEM ∧ nothing_made w w' q ∧ (∀ i, pid_used (sch (w_procs w')) i = pid_used (sch (w_procs w)) i) ∧
        let (o, s1) := alloc_stack KERNEL_STACK_PAGES (w_tabs w) in
        ((alloc_user_pid (sch (w_procs w))).1 = None ∨ o = None ∨ (cow_fork_pml4 (t_pml4 x) s1).1 = None)) ∨
     ∃ c new X R, v = Z.of_nat c ∧ child_made w w' cur c X R ∧
       forked cur c e new P (tasks (sch (w_procs w')) !!! c) x X r R ∧
       fork_ok own (w_tabs w) roots (t_pml4 x) new (w_tabs w') ∧
       ranges new (w_vmas w') ≡ₚ ranges (t_pml4 x) (w_vmas w) ∧ (∀ p, p ≠ 0 → p ≠ new → ranges p (w_vmas w') = ranges p (w_vmas w)) ∧
       user (w_procs w') = <[new := default ∅ (user (w_procs w) !! t_pml4 x)]> (user (w_procs w))).
Proof.
  intros Hr P x r. destruct (rf_cur _ _ _ _ _ Hr) as (Hc & Hid & _). unfold sys_fork. rewrite (proj2 (Nat.eqb_neq cur 0)) by lia.
  unfold on_pids. destruct (alloc_user_pid (sch (w_procs w))) as [[c|] y] eqn:Hal; cbn [fst snd].
  2: { pose proof (pid_none _ _ (rf_pids _ _ _ _ _ Hr) Hal) as ->. rewrite same_sched. eexists _, _. split; [done|left]. split; [done|]. split; [apply nothing_refl; apply Hr|]. split; [done|].
       destruct (alloc_stack _ _). by left. }
  change (on_procs (λ s, set_fl (fork_fds cur c (fl s)) s) (on_procs (set_sc y) w)) with (with_pid cur c y w).
  destruct (start_parent w q own roots cur c y Hr Hal) as (-> & -> & ->). fold P x r.
  destruct (start_slot w q own roots cur Hr c y Hal) as (Hcb & H0 & Hne & _).
  assert (∀ i, pid_used (free_pid c y) i = pid_used (sch (w_procs w)) i) as Hpids.
  { intros i. destruct (alloc_pid_lowest 1 _ (proj1 (rf_pids _ _ _ _ _ Hr)) ltac:(vm_compute; lia)) as [H _]. unfold alloc_user_pid in Hal.
    rewrite Hal in H. apply H. lia. }
  destruct (alloc_stack KERNEL_STACK_PAGES (w_tabs (with_pid cur c y w))) as [[top|] s1] eqn:Hst.
  2: { eexists _, _. split; [done|left]. split; [done|]. split; [exact (start_nothing w q own roots cur Hr c y Hal true s1)|]. split; [exact Hpids|].
       change (w_tabs (with_pid cur c y w)) with (w_tabs w) in Hst. rewrite Hst. right. by left. }
  pose proof (rf_tabs _ _ _ _ _ Hr) as Ht. pose proof (to_mem _ _ _ Ht) as [Hh _].
  destruct (alloc_stack_quiet own _ _ _ Hh Hst) as [Hq (p & -> & Hp & Hsa)].
  destruct (cow_fork_pml4 (t_pml4 x) s1) as [[new|] s2] eqn:Hfork.
  2: { destruct (free_stack_returns own s2 p Hp (fork_fails own s1 _ p s2 Hsa Hfork)) as [s3 ->]. cbn [cbind].
       eexists _, _. split; [done|left]. split; [done|]. split; [exact (start_nothing w q own roots cur Hr c y Hal true s3)|]. split; [exact Hpids|].
       change (w_tabs (with_pid cur c y w)) with (w_tabs w) in Hst. rewrite Hst. right. right. by rewrite Hfork. }
  assert (region_ok (km (w_tabs w))) as Hreg by (destruct Hh as (ls & ? & Hinv); apply (ai_wf _ _ _ Hinv)).
  assert (tabs_ok own s1 roots) as Ht1 by (by apply (quiet_tabs own (w_tabs w))).
  assert (fork_ok own (w_tabs w) roots (t_pml4 x) new s2) as Hok.
  { apply (quiet_fork own _ s1 Hq). apply fork_succeeds; [done|by apply (quiet_data own (w_tabs w)), Hr|apply Hr| |done].
    apply (quiet_forkable own (w_tabs w)); [done|done| |apply Hr]. apply Ht, Hr. }
  destruct (fresh_root own s1 roots (t_pml4 x) new s2 Ht1 Hfork) as [Hn0 Hnr].
  set (w2 := on_procs (copy_space (t_pml4 x) new) (set_wtabs s2 (with_pid cur c y w))).
  set (X := mkPtask _ _ _ _ _ _ _ _ _). set (R := child_rest _ _ _ _).
  destruct (child_put w q own roots cur Hr c y Hal w2 X R) as (z & Hrun & Hmade); try done.
  { intros p' [= <-]. split; [done|right]. split; [unfold P in *; lia|]. rewrite (rf_running _ _ _ _ _ Hr). done. }
  unfold enqueue_at. change (sch (w_procs (set_wvmas _ ?a))) with (sch (w_procs a)). change (t_prio P) with (t_prio (child_task c P)).
  fold P in Hrun. rewrite Hrun. cbn [cbind]. eexists _, _. split; [done|right]. exists c, new, X, R. split; [done|].
  assert (ranges new (vma_clone (t_pml4 x) new (w_vmas w)) ≡ₚ ranges (t_pml4 x) (w_vmas w) ∧
    ∀ p, p ≠ 0 → p ≠ new → ranges p (vma_clone (t_pml4 x) new (w_vmas w)) = ranges p (w_vmas w)) as [V1 V2].
  { apply vma_clone_copies; [apply Hr|done|by apply Hnr, Hr| |apply Hr].
    intros r' Hr'. destruct (rf_ranges _ _ _ _ _ Hr r' Hr') as [->|Hin]; [done|by apply Hnr]. }
  enough (child_made w (on_procs (set_sc z) (set_wvmas (vma_clone (t_pml4 x) new (w_vmas w)) (put_task c (child_task c P) X R w2))) cur c X R) as Hcm.
  { split; [exact Hcm|]. split; [apply fork_forked; exact (cm_task _ _ _ _ _ _ Hcm)|]. split_and!; [exact Hok|exact V1|exact V2|done]. }
  apply Hmade; cbn [put_task on_procs set_wvmas w_procs w_rest sch pt fl set_sc set_pt]; rewrite ?task_idx_small by lia; done.
Qed.

(** ** Threads *)


(** ** Tasks of the kernel *)

(** A task of the kernel in an empty slot keeps the tables consistent; it has
    no parent, all privileges and the registers of its entry point.  Without a
    pid or a stack there is no task. *)
Lemma kernel_task_made {W} own entry nice comm w (f : flatfs W) q :
  pinv (w_procs w) q → pids_ok (sch (w_procs w)) → length (w_rest w) = MAX_TASKS → holds (km (w_tabs w)) own → -20 ≤ nice < 20 →
  ∃ o w' q', create_kernel_task_prio entry nice comm w f =
    (if o is Some tid then let! f := bind_task_procfs (Z.of_nat tid) f in Done (o, w', f) else Done (o, w', f)) ∧
    pinv (w_procs w') q' ∧ quiet own (w_tabs w) (w_tabs w') ∧
    if o is Some tid then
      t_id (tasks (sch (w_procs w)) !!! tid) = 0%nat ∧ t_id (tasks (sch (w_procs w')) !!! tid) = tid ∧ tid ∈ q' 0%nat (Z.to_nat (nice + 20)) ∧
      t_parent (pt (w_procs w') !!! tid) = None ∧ t_privileges (w_rest w' !!! tid) = PRIV_ALL ∧
      t_regs (w_rest w' !!! tid) = new_kernel entry (t_kernel_stack (pt (w_procs w') !!! tid))
    else tasks (sch (w_procs w')) = tasks (sch (w_procs w)) ∧ pt (w_procs w') = pt (w_procs w).
Proof.
  intros Hi Hp Hlen Hh Hn. unfold create_kernel_task_prio, on_pids, alloc_kernel_pid.
  destruct (alloc_pid_from 2 (sch (w_procs w))) as [[c|] y] eqn:Hal; cbn [fst snd].
  2: { destruct (alloc_pid_lowest 2 _ (proj1 Hp) ltac:(vm_compute; lia)) as [H _]. rewrite Hal in H. destruct H as [-> _].
       rewrite same_sched. exists None, w, q. split_and!; [done..|by apply quiet_refl|done|done]. }
  destruct (pid_taken_from 2 _ c y ltac:(vm_compute; lia) Hp Hal) as (Hc & H0 & E1 & E2 & _).
  pose proof (pids_pinv (w_procs w) q y Hi E1 E2) as Hi1. cbn [on_procs w_tabs].
  destruct (alloc_stack KERNEL_STACK_PAGES (w_tabs w)) as [[top|] s1] eqn:Hst; destruct (alloc_stack_quiet own _ _ _ Hh Hst) as [Hq _].
  2: { exists None, (set_wtabs s1 (on_procs (set_sc y) w)), q. split_and!; [done|exact Hi1|exact Hq|exact E1|done]. }
  assert (Z.to_nat (nice_to_prio nice) = Z.to_nat (nice + 20)) as -> by (unfold nice_to_prio, w8; rewrite Z.mod_small by lia; done).
  set (prio := Z.to_nat (nice + 20)). set (w1 := set_wtabs s1 (on_procs (set_sc y) w)). set (T := init_task _ _ _ _). set (X := init_ptask _ _ _ _ _). set (R := init_rest _ _ _ _ _ _).
  destruct (new_task_queued (set_sc y (w_procs w)) q c T X Hi1 Hc) as (z & Hrun & Hinv & _ & Hyc & _); try done.
  - cbn. by rewrite E1.
  - vm_compute; lia.
  - cbn. unfold prio. change PRIORITY_LEVELS with 40%nat. lia.
  - unfold enqueue_at. assert (sch (w_procs (put_task c T X R w1)) = sch (filled_slot (set_sc y (w_procs w)) c T X)) as ->.
    { cbn. unfold upd_task. by rewrite task_idx_small by lia. }
    change prio with (t_prio T) at 1. rewrite Hrun. cbn [cbind].
    eexists (Some c), _, _. split; [reflexivity|]. cbn [on_procs w_procs w_tabs put_task w_rest]. split; [|split; [exact Hq|]].
    + eapply pinv_ext; [exact Hinv|done|..]; cbn; rewrite task_idx_small by lia; done.
    + cbn [sch set_sc set_pt pt]. rewrite task_idx_small by lia.
      rewrite !list_lookup_total_insert_eq by (cbn; rewrite ?Hlen, ?(ti_len _ _ Hi); lia). destruct (same_task_fields _ _ Hyc) as (-> & _).
      split_and!; try done. change 0%nat with (t_cpu T). change (Z.to_nat (nice + 20)) with (t_prio T). rewrite upd2_eq.
      apply elem_of_app. right. apply list_elem_of_here.
Qed.

(** ** Instances *)

Definition fp_0 : procs := set_pt (<[2%nat := mkPtask (Some 1%nat) 0 2 0 0x9000 0x100000 true 0 sigs_empty]> (pt ps_0)) ps_0.
Definition fw_0 : world := mkWorld fp_0 (replicate MAX_TASKS rtask_empty) (demo 7 0) [mkVmaRec 0x100000 (mkVma 0x5000 0x6000 7)] true.
Definition fe_0 : entry_regs := mkEntry [1; 2; 3; 4; 5; 6] 0x401000 0x7000 0x202 0x8000.

Lemma fw_0_ready : ready_to_fork fw_0 (λ _ _, []) d_own [0x100000] 2.
Proof.
  split.
  - eapply pinv_ext; [exact ps_0_inv|done|by cbn; rewrite length_insert|]. intros j. cbn. destruct (decide (j = 2%nat)) as [->|Hj].
    + reflexivity.
    + by rewrite list_lookup_total_insert_ne.
  - exact ps_0_cpu.
  - reflexivity.
  - split; [vm_compute; split; congruence|]. unfold pid_used. check_slots.
  - exact files0_inv.
  - apply length_replicate.
  - apply (demo_tabs 7 0). lia.
  - apply (demo_data 7 0). lia.
  - apply list_elem_of_here.
  - apply (demo_forkable 7 0); lia.
  - intros r ->%list_elem_of_singleton. right. apply list_elem_of_here.
  - done.
  - assert (length (w_vmas fw_0) + length (ranges (t_pml4 (pt (w_procs fw_0) !!! 2%nat)) (w_vmas fw_0)) = 2)%nat as -> by (vm_compute; reflexivity).
    unfold MAX_VMA_RECORDS. lia.
Qed.

Lemma fork_child_witness : ∃ w' new, sys_fork 2 fe_0 fw_0 = Done (4, w') ∧ t_parent (pt (w_procs w') !!! 4%nat) = Some 2%nat ∧
  rip (t_regs (w_rest w' !!! 4%nat)) = 0x401000 ∧ rax (t_regs (w_rest w' !!! 4%nat)) = 0 ∧ sig_pending (t_sigs (pt (w_procs w') !!! 4%nat)) = 0 ∧
  fork_ok d_own (demo 7 0) [0x100000] 0x100000 new (w_tabs w').
Proof.
  assert (match sys_fork 2 fe_0 fw_0 with Done (v, _) => v | _ => 0 end = 4) as E by (vm_compute; reflexivity).
  destruct (fork_child fw_0 _ d_own [0x100000] 2 fe_0 fw_0_ready) as (v & w' & Hrun & H). rewrite Hrun in E. subst v. exists w'.
  destruct H as [(H & _)|(c & new & X & R & Hv & Hm & Hf & Hok & _)]; [exfalso; clear - H; vm_compute in H; discriminate H|].
  assert (c = 4%nat) as -> by lia. destruct (cm_own _ _ _ _ _ _ Hm) as [-> ->]. exists new. split; [exact Hrun|].
  split; [exact (proj1 (fc_family _ _ _ _ _ _ _ _ _ _ Hf))|]. split; [exact (proj1 (fc_entry _ _ _ _ _ _ _ _ _ _ Hf))|].
  split; [exact (fc_result _ _ _ _ _ _ _ _ _ _ Hf)|]. split; [exact (proj1 (proj2 (proj2 (fc_signals _ _ _ _ _ _ _ _ _ _ Hf))))|exact Hok].
Defined.

(** A thread with its own stack and thread pointer. *)
Definition thread_flags : Z := foldr Z.lor 0 [CLONE_VM; CLONE_THREAD; CLONE_SETTLS; CLONE_PARENT_SETTID; CLONE_CHILD_CLEARTID].


(** ** Defects *)

(** A child of fork starts in the ring its parent's saved registers name.  A
    parent that last gave the CPU away inside a system call has the kernel's
    code segment there, and the child runs its user program in ring 0. *)
Definition slept : world := mkWorld fp_0 (<[2%nat := child_rest (new_kernel 0x106000 0x9000) 0 task_empty rtask_empty]> (w_rest fw_0)) (demo 7 0) [] true.

Example fork_in_ring_0 : match sys_fork 2 fe_0 slept with
  | Done (4, w') => let r := t_regs (w_rest w' !!! 4%nat) in (rip r, Z.land (cs r) 3)
  | _ => (0, 3) end = (0x401000, 0).
Proof. vm_compute. reflexivity. Qed.

(** A clone without memory for a stack keeps its pid; so does the creation of
    a task of the kernel. *)
Definition poor : world := mkWorld fp_0 (w_rest fw_0) (set_km (grab 64 boot64).2 (demo 7 0)) [] true.

Example clone_keeps_pid : match sys_clone 2 fe_0 thread_flags 0x6800 0 0 0 0x402000 poor with
  | Done (v, w') => (v, pid_used (sch (w_procs w')) 4, t_id (tasks (sch (w_procs w')) !!! 4%nat)) | _ => (0, false, 1%nat) end = (-12, true, 0%nat).
Proof. vm_compute. reflexivity. Qed.

(** A fork that fails leaves the child's slot with open descriptors: the
    references it counted on pipes are never dropped. *)
Definition poor_pipe : world := on_procs (set_fl (sys_pipe 2 false files0).2) poor.

Example fork_keeps_references : match sys_fork 2 fe_0 poor_pipe with
  | Done (v, w') => (v, nread (pipes (fl (w_procs w')) !!! 0%nat), pid_used (sch (w_procs w')) 4) | _ => (0, 0, true) end = (-12, 2, false).
Proof. vm_compute. reflexivity. Qed.
