(* ===== verification/Klog.v ===== *)
(** * The kernel log: [src/klog.rs]

    A line is built from parts, stored in a ring of the last lines with its
    level, facility and tick, and written to the serial port when level and
    facility let it pass.  The bytes sent to the serial port are a log. *)

From S2P Require Import Prelude Procfs Tty.
From stdpp Require Import base numbers strings list.
Local Open Scope Z_scope.

Definition LOG_WARNING : Z := 4.
Definition LOG_DEBUG : Z := 7.
Definition FAC_COUNT : Z := 14.
Definition LEVEL_NAMES : list string := ["EMERG"; "ALERT"; "CRIT"; "ERR"; "WARNING"; "NOTICE"; "INFO"; "DEBUG"]%string.
Definition FAC_NAMES : list string :=
  ["KERN"; "SCHED"; "MEM"; "VFS"; "TTY"; "SYSCALL"; "EXEC"; "MM"; "PAGING"; "GDT"; "IDT"; "ELF"; "IPC"; "FORK"]%string.
Definition LOG_MSG_MAX : nat := 160.
Definition LOG_RING_CAP : nat := 128.

Record LogEntry := mkEntry { level : Z; facility : Z; tick : Z; len : nat; msg : list Z }.
Definition EMPTY_ENTRY : LogEntry := mkEntry 0 0 0 0 (replicate LOG_MSG_MAX 0).
#[export] Instance LogEntry_inhabited : Inhabited LogEntry := populate EMPTY_ENTRY.

Record klog := mkKlog {
  ring : list LogEntry; ring_head : nat; ring_len : nat; console_level : Z; facility_mask : Z;
  line_active : bool; line_level : Z; line_fac : Z; line_len : nat; line : list Z; out : list Z;
}.
Definition klog_new : klog :=
  mkKlog (replicate LOG_RING_CAP EMPTY_ENTRY) 0 0 LOG_WARNING (2 ^ 32 - 1) false 0 0 0 (replicate LOG_MSG_MAX 0) [].

Definition set_line (n : nat) (l : list Z) (k : klog) : klog :=
  mkKlog (ring k) (ring_head k) (ring_len k) (console_level k) (facility_mask k) (line_active k) (line_level k) (line_fac k) n l (out k).
Definition print (bs : list Z) (k : klog) : klog :=
  mkKlog (ring k) (ring_head k) (ring_len k) (console_level k) (facility_mask k) (line_active k) (line_level k) (line_fac k) (line_len k) (line k) (out k ++ bs).

Definition set_console_level (l : Z) (k : klog) : klog :=
  mkKlog (ring k) (ring_head k) (ring_len k) (Z.min l LOG_DEBUG) (facility_mask k) (line_active k) (line_level k) (line_fac k) (line_len k) (line k) (out k).
Definition set_facility_mask (m : Z) (k : klog) : klog :=
  mkKlog (ring k) (ring_head k) (ring_len k) (console_level k) m (line_active k) (line_level k) (line_fac k) (line_len k) (line k) (out k).
Definition get_console_level (k : klog) : Z := console_level k.

(** ** Numbers *)

(** The digits of [v] from the end of a buffer of 20 bytes. *)
Fixpoint dec_loop (n : nat) (v : Z) (buf : list Z) : list Z :=
  match n with
  | O => buf
  | S n' => if 0 <? v then dec_loop n' (v / 10) (v mod 10 + 48 :: buf) else buf
  end.
Definition dec_bytes (v : Z) : list Z := if v =? 0 then [48] else dec_loop 20 v [].

Definition hex_digit (n : Z) : Z := bytes_of "0123456789ABCDEF" !!! Z.to_nat n.
Definition hex_bytes (v : Z) : list Z := (λ i, hex_digit (Z.land (Z.shiftr v ((15 - Z.of_nat i) * 4)) 0xF)) <$> seq 0 16.

(** ** The line *)

Definition append_byte (k : klog) (b : Z) : klog :=
  if is_newline b then k
  else if (line_len k <? LOG_MSG_MAX)%nat then set_line (S (line_len k)) (<[line_len k := b]> (line k)) k
  else k.
Definition append_bytes (data : list Z) (k : klog) : klog := foldl append_byte k data.

Definition begin (lvl fac : Z) (k : klog) : klog :=
  mkKlog (ring k) (ring_head k) (ring_len k) (console_level k) (facility_mask k) true lvl fac 0 (line k) (out k).
Definition s (text : list Z) (k : klog) : klog := if line_active k then append_bytes text k else k.
Definition dec (v : Z) (k : klog) : klog := if line_active k then append_bytes (dec_bytes v) k else k.
Definition hex (v : Z) (k : klog) : klog := if line_active k then append_bytes (hex_bytes v) k else k.

(** [\[tick\]\[FAC\]\[LEVEL\] text] and a line end. *)
Definition line_prefix (t fac lvl : Z) : list Z :=
  bytes_of "[" ++ dec_bytes t ++ bytes_of "][" ++ bytes_of (FAC_NAMES !!! Z.to_nat (Z.min fac (FAC_COUNT - 1))) ++ bytes_of "][" ++
  bytes_of (LEVEL_NAMES !!! Z.to_nat (Z.min lvl LOG_DEBUG)) ++ bytes_of "] ".

(** The shift count of a 32-bit word is taken modulo 32. *)
Definition passes (k : klog) : bool :=
  negb (Z.land (Z.shiftr (facility_mask k) (line_fac k mod 32)) 1 =? 0) && (line_level k <=? console_level k).

Definition end_ (now : Z) (k : klog) : klog :=
  if negb (line_active k) then k
  else
    let k' := mkKlog (<[ring_head k := mkEntry (line_level k) (line_fac k) now (line_len k) (line k)]> (ring k))
                ((ring_head k + 1) `mod` LOG_RING_CAP)%nat
                (if (ring_len k <? LOG_RING_CAP)%nat then S (ring_len k) else ring_len k)
                (console_level k) (facility_mask k) false (line_level k) (line_fac k) (line_len k) (line k) (out k) in
    if passes k then print (line_prefix now (line_fac k) (line_level k) ++ take (line_len k) (line k) ++ [10]) k' else k'.

Definition log (lvl fac : Z) (text : list Z) (now : Z) (k : klog) : klog := end_ now (s text (begin lvl fac k)).

(** ** Looking at the log *)

Definition dump_entry (e : LogEntry) : list Z := line_prefix (tick e) (facility e) (level e) ++ take (len e) (msg e) ++ [10].

Definition dump (k : klog) : klog :=
  let start := ((ring_head k + LOG_RING_CAP - ring_len k) `mod` LOG_RING_CAP)%nat in
  print (bytes_of "==== klog ring buffer (" ++ dec_bytes (Z.of_nat (ring_len k)) ++ bytes_of " entries) ====" ++ [10] ++
         mjoin ((λ i, dump_entry (ring k !!! ((start + i) `mod` LOG_RING_CAP)%nat)) <$> seq 0 (ring_len k)) ++
         bytes_of "==== end of klog ring ====" ++ [10]) k.

Definition debug_current (k : klog) : list Z :=
  let l := take (line_len k) (line k) in if utf8_valid (length l) l then l else [].
