(* ===== verification/KlogClaims.v ===== *)
(** * The kernel log: what it promises

    After any sequence of messages the log holds the last 128 of them, and the
    serial port has received those that passed the filter. *)

From S2P Require Import Prelude Ring Procfs Tty Klog.
From stdpp Require Import base numbers strings list.
From Stdlib Require Import Lia.
Local Open Scope Z_scope.
#[local] Arguments LOG_MSG_MAX : simpl never.
#[local] Arguments LOG_RING_CAP : simpl never.

(** ** Specification *)

(** A message as a reader of the log sees it. *)
Record Message := mkMessage { m_level : Z; m_facility : Z; m_tick : Z; m_text : list Z }.

(** The text of a line: line ends left out, no more than 160 bytes. *)
Definition line_text (text : list Z) : list Z := take LOG_MSG_MAX (filter (λ b, is_newline b = false) text).

Definition entry_message (e : LogEntry) : Message := mkMessage (level e) (facility e) (tick e) (take (len e) (msg e)).
Definition ring_start (k : klog) : nat := (ring_head k + LOG_RING_CAP - ring_len k)%nat.
Definition entries (k : klog) : list LogEntry := ring_list (ring k) (ring_start k) (ring_len k) LOG_RING_CAP.
Definition messages (k : klog) : list Message := entry_message <$> entries k.

Definition as_logged (m : Message) : Message := mkMessage (m_level m) (m_facility m) (m_tick m) (line_text (m_text m)).
Definition shown (m : Message) : list Z := line_prefix (m_tick m) (m_facility m) (m_level m) ++ m_text m ++ [10].
Definition message_passes (console mask : Z) (m : Message) : Prop :=
  Z.land (Z.shiftr mask (m_facility m mod 32)) 1 ≠ 0 ∧ m_level m ≤ console.
#[export] Instance message_passes_dec console mask m : Decision (message_passes console mask m).
Proof. unfold message_passes. apply _. Defined.

Definition log_all (ms : list Message) (k : klog) : klog :=
  foldl (λ k m, log (m_level m) (m_facility m) (m_text m) (m_tick m) k) k ms.

Record klog_wf (k : klog) : Prop := {
  wf_ring : length (ring k) = LOG_RING_CAP;
  wf_head : (ring_head k < LOG_RING_CAP)%nat;
  wf_len : (ring_len k ≤ LOG_RING_CAP)%nat;
  wf_line : length (line k) = LOG_MSG_MAX;
  wf_line_len : (line_len k ≤ LOG_MSG_MAX)%nat;
}.

Lemma klog_new_wf : klog_wf klog_new.
Proof. split; vm_compute; reflexivity || lia. Qed.

(** ** Building a line *)

Definition line_bytes (k : klog) : list Z := take (line_len k) (line k).

Lemma take_app_take {A} n (l q : list A) : take n (take n l ++ q) = take n (l ++ q).
Proof.
  destruct (decide (length l ≤ n)%nat) as [H|H]; [by rewrite (take_ge l)|].
  rewrite (take_app_le l) by lia. rewrite take_app_le by (rewrite length_take; lia). rewrite take_take. f_equal. lia.
Qed.

(** What appending leaves alone. *)
Definition same_but_line (k k' : klog) : Prop :=
  ring k' = ring k ∧ ring_head k' = ring_head k ∧ ring_len k' = ring_len k ∧ console_level k' = console_level k ∧
  facility_mask k' = facility_mask k ∧ line_active k' = line_active k ∧ line_level k' = line_level k ∧
  line_fac k' = line_fac k ∧ out k' = out k.

Lemma append_byte_spec k b :
  klog_wf k →
  klog_wf (append_byte k b) ∧ same_but_line k (append_byte k b) ∧
  line_bytes (append_byte k b) =
    if is_newline b then line_bytes k else take LOG_MSG_MAX (line_bytes k ++ [b]).
Proof.
  intros [H1 H2 H3 H4 H5]. unfold append_byte, line_bytes, same_but_line. destruct (is_newline b); [done|].
  destruct (Nat.ltb_spec (line_len k) LOG_MSG_MAX) as [Hlt|Hge]; cbn.
  - split; [split; cbn; rewrite ?length_insert; done || lia|split; [done|]].
    rewrite (take_S_r _ _ b) by (rewrite list_lookup_insert_eq by lia; done).
    rewrite take_insert, decide_False by lia. symmetry. rewrite take_ge; [done|]. rewrite length_app, length_take. cbn. lia.
  - split; [split; done|split; [done|]]. replace (line_len k) with LOG_MSG_MAX by lia.
    rewrite take_app_le by (rewrite length_take; lia). rewrite take_take. f_equal.
Qed.

Lemma append_bytes_spec data k :
  klog_wf k →
  klog_wf (append_bytes data k) ∧ same_but_line k (append_bytes data k) ∧
  line_bytes (append_bytes data k) = take LOG_MSG_MAX (line_bytes k ++ filter (λ b, is_newline b = false) data).
Proof.
  unfold append_bytes. induction data as [|b data IH] in k |- *; intros Hwf; cbn [foldl].
  - split; [done|split; [done|]]. cbn. rewrite app_nil_r, take_ge; [done|]. unfold line_bytes. rewrite length_take.
    pose proof (wf_line_len _ Hwf). lia.
  - destruct (append_byte_spec k b Hwf) as (Hwf' & Hs & Hb). destruct (IH _ Hwf') as (Hwf2 & Hs2 & Hb2).
    split_and!; [done| |].
    + unfold same_but_line in *. destruct Hs as (->&->&->&->&->&->&->&->&->) in Hs2. done.
    + rewrite Hb2, Hb, filter_cons. destruct (is_newline b); case_decide; try done.
      rewrite take_app_take, <- app_assoc. done.
Qed.

(** ** Committing it *)

Lemma ring_write (R : list LogEntry) h c e :
  length R = LOG_RING_CAP → (h < LOG_RING_CAP)%nat → (c ≤ LOG_RING_CAP)%nat →
  let h' := ((h + 1) `mod` LOG_RING_CAP)%nat in
  let c' := if (c <? LOG_RING_CAP)%nat then S c else c in
  ring_list (<[h := e]> R) (h' + LOG_RING_CAP - c') c' LOG_RING_CAP =
  lastn LOG_RING_CAP (ring_list R (h + LOG_RING_CAP - c) c LOG_RING_CAP ++ [e]).
Proof.
  intros HR Hh Hc h' c'. unfold h', c'. assert (Hcap : LOG_RING_CAP = 128%nat) by done.
  destruct (Nat.ltb_spec c LOG_RING_CAP) as [Hlt|Hge].
  - rewrite lastn_short by (rewrite length_app, length_ring_list; cbn [length]; lia).
    rewrite <- ring_push by done.
    replace ((h + LOG_RING_CAP - c + c) `mod` LOG_RING_CAP)%nat with h.
    2:{ replace (h + LOG_RING_CAP - c + c)%nat with (h + 1 * LOG_RING_CAP)%nat by lia.
        rewrite Nat.Div0.mod_add. by rewrite Nat.mod_small. }
    apply ring_list_start. rewrite <- (Nat.Div0.mod_add _ 1).
    replace (((h + 1) `mod` LOG_RING_CAP + LOG_RING_CAP - S c + 1 * LOG_RING_CAP))%nat
      with ((h + 1) `mod` LOG_RING_CAP + (2 * LOG_RING_CAP - S c))%nat by lia.
    rewrite Nat.Div0.add_mod_idemp_l.
    replace (h + 1 + (2 * LOG_RING_CAP - S c))%nat with (h + LOG_RING_CAP - c + 1 * LOG_RING_CAP)%nat by lia.
    apply Nat.Div0.mod_add.
  - replace c with LOG_RING_CAP by lia. rewrite !Nat.add_sub.
    rewrite ring_list_mod, Nat.add_1_r.
    rewrite <- (Nat.mod_small h LOG_RING_CAP) at 1 by done. apply ring_push_full; [lia|done].
Qed.

Definition line_message (now : Z) (k : klog) : Message := mkMessage (line_level k) (line_fac k) now (line_bytes k).

Lemma end_spec now k :
  klog_wf k → line_active k = true →
  klog_wf (end_ now k) ∧ line_active (end_ now k) = false ∧
  console_level (end_ now k) = console_level k ∧ facility_mask (end_ now k) = facility_mask k ∧
  messages (end_ now k) = lastn LOG_RING_CAP (messages k ++ [line_message now k]) ∧
  out (end_ now k) = out k ++
    if decide (message_passes (console_level k) (facility_mask k) (line_message now k)) then shown (line_message now k) else [].
Proof.
  intros [H1 H2 H3 H4 H5] Ha. unfold end_. rewrite Ha. cbn [negb].
  set (k' := mkKlog _ _ _ _ _ _ _ _ _ _ _). set (pk := if passes k then _ else k').
  assert (Hring : ring pk = ring k' ∧ ring_head pk = ring_head k' ∧ ring_len pk = ring_len k' ∧ line pk = line k ∧
    line_len pk = line_len k ∧ line_active pk = false ∧ console_level pk = console_level k ∧ facility_mask pk = facility_mask k)
    by (unfold pk; destruct (passes k); done).
  destruct Hring as (E1 & E2 & E3 & E4 & E5 & E6 & E7 & E8). split_and!; [split| | | | |].
  - rewrite E1. cbn. by rewrite length_insert.
  - rewrite E2. apply Nat.mod_upper_bound. done.
  - rewrite E3. cbn [ring_len k']. case_match eqn:Hb; [apply Nat.ltb_lt in Hb|]; lia.
  - by rewrite E4.
  - by rewrite E5.
  - done.
  - done.
  - done.
  - unfold messages, entries, ring_start. rewrite E1, E2, E3. unfold k'. cbn [ring ring_head ring_len].
    rewrite ring_write by done. unfold lastn. rewrite fmap_drop, fmap_app, !length_app, length_fmap. done.
  - assert (Hp : passes k = bool_decide (message_passes (console_level k) (facility_mask k) (line_message now k))).
    { apply eq_true_iff_eq. unfold passes. rewrite bool_decide_eq_true, andb_true_iff, negb_true_iff, Z.eqb_neq, Z.leb_le. done. }
    unfold pk. rewrite Hp. destruct (decide _) as [Hd|Hd].
    + rewrite bool_decide_eq_true_2 by done. cbn. unfold shown. cbn. by rewrite <- !app_assoc.
    + rewrite bool_decide_eq_false_2 by done. cbn. by rewrite app_nil_r.
Qed.

Lemma log_spec m k :
  klog_wf k →
  let k' := log (m_level m) (m_facility m) (m_text m) (m_tick m) k in
  klog_wf k' ∧ console_level k' = console_level k ∧ facility_mask k' = facility_mask k ∧
  messages k' = lastn LOG_RING_CAP (messages k ++ [as_logged m]) ∧
  out k' = out k ++ if decide (message_passes (console_level k) (facility_mask k) (as_logged m)) then shown (as_logged m) else [].
Proof.
  intros [H1 H2 H3 H4 H5] k'. unfold k', log, s. cbn [begin line_active].
  set (k1 := begin _ _ k). assert (Hwf1 : klog_wf k1) by (split; cbn; done || lia).
  destruct (append_bytes_spec (m_text m) k1 Hwf1) as (Hwf2 & Hs & Hb). set (k2 := append_bytes _ k1) in *. clearbody k2.
  destruct Hs as (S1 & S2 & S3 & S4 & S5 & S6 & S7 & S8 & S9).
  destruct (end_spec (m_tick m) k2 Hwf2 ltac:(by rewrite S6)) as (Hwf3 & _ & C1 & C2 & C3 & C4).
  assert (Hm : line_message (m_tick m) k2 = as_logged m).
  { unfold line_message, as_logged. rewrite S7, S8, Hb. unfold line_text. done. }
  assert (Hms : messages k2 = messages k) by (unfold messages, entries, ring_start; by rewrite S1, S2, S3).
  rewrite Hm in C3, C4. rewrite Hms in C3. rewrite S4, S5, S9 in C4. rewrite S4 in C1. rewrite S5 in C2.
  split_and!; done.
Qed.

(** ** Numbers in a line *)

Definition value_of (base : Z) (ds : list Z) : Z := foldl (λ acc d, acc * base + d) 0 ds.
Definition digit_value (b : Z) : Z := if b <? 58 then b - 48 else b - 55.

Lemma value_of_app base l d : value_of base (l ++ [d]) = value_of base l * base + d.
Proof. unfold value_of. by rewrite foldl_app. Qed.

Lemma dec_loop_app n v buf : dec_loop n v buf = dec_loop n v [] ++ buf.
Proof.
  induction n as [|n IH] in v, buf |- *; [done|]. cbn [dec_loop]. destruct (0 <? v); [|done].
  rewrite (IH _ (_ :: buf)), (IH _ [_]), <- app_assoc. done.
Qed.

Lemma dec_loop_value n v : 0 ≤ v < 10 ^ Z.of_nat n → value_of 10 (digit_value <$> dec_loop n v []) = v.
Proof.
  induction n as [|n IH] in v |- *; intros Hv.
  - replace v with 0 by (cbn in Hv; lia). done.
  - cbn [dec_loop]. destruct (Z.ltb_spec 0 v); [|replace v with 0 by lia; done].
    rewrite dec_loop_app, fmap_app. cbn [fmap list_fmap]. rewrite value_of_app, IH.
    + unfold digit_value. pose proof (Z.mod_pos_bound v 10 ltac:(lia)). destruct (Z.ltb_spec (v mod 10 + 48) 58); [|lia].
      pose proof (Z.div_mod v 10). lia.
    + rewrite Nat2Z.inj_succ, Z.pow_succ_r in Hv by lia. split; [apply Z.div_pos; lia|apply Z.div_lt_upper_bound; lia].
Qed.

Lemma dec_bytes_value v : 0 ≤ v < 2 ^ 64 → value_of 10 (digit_value <$> dec_bytes v) = v.
Proof.
  intros Hv. unfold dec_bytes. destruct (Z.eqb_spec v 0) as [->|]; [done|]. apply dec_loop_value. 
  assert (2 ^ 64 < 10 ^ Z.of_nat 20) by (vm_compute; done). lia.
Qed.

Lemma hex_digit_value n : 0 ≤ n < 16 → digit_value (hex_digit n) = n.
Proof.
  intros Hn. assert (n ∈ seqZ 0 16) as Hin by (apply elem_of_seqZ; lia). revert n Hn Hin.
  assert (Forall (λ n, digit_value (hex_digit n) = n) (seqZ 0 16)) as Hall by (repeat constructor).
  intros n _ Hin. by apply (proj1 (Forall_forall _ _) Hall).
Qed.

Lemma land_15 x : Z.land x 0xF = x mod 2 ^ 4.
Proof. change 0xF with (Z.ones 4). by rewrite Z.land_ones. Qed.

(** The value of the leading [n] of sixteen hexadecimal digits. *)
Lemma hex_prefix_value v n :
  0 ≤ v < 2 ^ 64 → (n ≤ 16)%nat →
  value_of 16 (digit_value <$> take n (hex_bytes v)) = Z.shiftr v ((16 - Z.of_nat n) * 4).
Proof.
  intros Hv Hn. induction n as [|n IH].
  - cbn. rewrite Z.shiftr_div_pow2 by lia. symmetry. apply Z.div_small. exact Hv.
  - rewrite (take_S_r _ n (hex_digit (Z.land (Z.shiftr v ((15 - Z.of_nat n) * 4)) 0xF))).
    2:{ unfold hex_bytes. rewrite list_lookup_fmap, lookup_seq_lt by lia. done. }
    rewrite fmap_app. cbn [fmap list_fmap]. rewrite value_of_app, IH by lia.
    rewrite land_15.
    rewrite hex_digit_value by (apply Z.mod_pos_bound; lia).
    replace ((16 - Z.of_nat n) * 4) with ((15 - Z.of_nat n) * 4 + 4) by lia.
    rewrite <- Z.shiftr_shiftr by lia. rewrite (Z.shiftr_div_pow2 _ 4) by lia.
    replace ((16 - Z.of_nat (S n)) * 4) with ((15 - Z.of_nat n) * 4) by lia.
    change (2 ^ 4) with 16. pose proof (Z.div_mod (Z.shiftr v ((15 - Z.of_nat n) * 4)) 16 ltac:(lia)). lia.
Qed.

Lemma hex_bytes_value v : 0 ≤ v < 2 ^ 64 → value_of 16 (digit_value <$> hex_bytes v) = v.
Proof.
  intros Hv. rewrite <- (take_ge (hex_bytes v) 16) by (unfold hex_bytes; rewrite length_fmap, length_seq; done).
  rewrite hex_prefix_value by (done || lia). rewrite Z.shiftr_0_r. done.
Qed.

Lemma filter_all {A} (P : A → Prop) `{!∀ x, Decision (P x)} l : Forall P l → filter P l = l.
Proof. induction 1 as [|x l Hx _ IH]; [done|]. rewrite filter_cons. case_decide; [by rewrite IH|done]. Qed.

Definition plain (b : Z) : Prop := is_newline b = false.

Lemma dec_loop_plain n v : 0 ≤ v → Forall plain (dec_loop n v []) ∧ (length (dec_loop n v []) ≤ n)%nat.
Proof.
  induction n as [|n IH] in v |- *; intros Hv; cbn [dec_loop]; [done|].
  destruct (0 <? v); [|cbn; split; [done|lia]]. rewrite dec_loop_app.
  destruct (IH (v / 10) ltac:(apply Z.div_pos; lia)) as [H1 H2]. rewrite length_app. cbn [length]. split; [|lia].
  apply Forall_app_2; [done|]. apply Forall_singleton. unfold plain, is_newline.
  pose proof (Z.mod_pos_bound v 10 ltac:(lia)). apply orb_false_iff. rewrite !Z.eqb_neq. lia.
Qed.

Lemma dec_bytes_plain v : 0 ≤ v → Forall plain (dec_bytes v) ∧ (length (dec_bytes v) ≤ 20)%nat.
Proof. intros Hv. unfold dec_bytes. case_match; [split; [by repeat constructor|cbn; lia]|]. by apply dec_loop_plain. Qed.

Lemma hex_digit_plain n : 0 ≤ n < 16 → plain (hex_digit n).
Proof.
  intros Hn. assert (n ∈ seqZ 0 16) as Hin by (apply elem_of_seqZ; lia). revert n Hn Hin.
  assert (Forall (λ n, plain (hex_digit n)) (seqZ 0 16)) as Hall by (repeat constructor).
  intros n _ Hin. by apply (proj1 (Forall_forall _ _) Hall).
Qed.

Lemma hex_bytes_plain v : Forall plain (hex_bytes v) ∧ length (hex_bytes v) = 16%nat.
Proof.
  unfold hex_bytes. rewrite length_fmap, length_seq. split; [|done]. apply Forall_fmap, Forall_true. intros i.
  unfold compose. apply hex_digit_plain. rewrite land_15. by apply Z.mod_pos_bound.
Qed.

(** ** Properties *)

Lemma shown_if (P : Prop) `{!Decision P} m : (if decide P then shown m else []) = mjoin (shown <$> (if decide P then [m] else [])).
Proof. destruct (decide P); [|done]. cbn. by rewrite app_nil_r. Qed.

Lemma log_all_spec ms k :
  klog_wf k →
  let k' := log_all ms k in
  klog_wf k' ∧ console_level k' = console_level k ∧ facility_mask k' = facility_mask k ∧
  messages k' = lastn LOG_RING_CAP (messages k ++ (as_logged <$> ms)) ∧
  out k' = out k ++ mjoin (shown <$> filter (message_passes (console_level k) (facility_mask k)) (as_logged <$> ms)).
Proof.
  induction ms as [|m ms IH] using rev_ind; intros Hwf; cbn zeta.
  - cbn. rewrite !app_nil_r. split_and!; try done. symmetry. apply lastn_short.
    unfold messages, entries. rewrite length_fmap, length_ring_list. apply Hwf.
  - destruct (IH Hwf) as (W & C & M & E & O). unfold log_all in *. rewrite foldl_app. cbn [foldl].
    destruct (log_spec m _ W) as (W' & C' & M' & E' & O').
    split_and!; [done|by rewrite C'|by rewrite M'| |].
    + rewrite E', E. rewrite fmap_app, (app_assoc (messages k)). apply lastn_snoc. vm_compute. lia.
    + rewrite O', O, C, M, fmap_app, list.filter_app, fmap_app, join_app, <- app_assoc. cbn [fmap list_fmap].
      f_equal. f_equal. rewrite filter_cons, filter_nil. apply shown_if.
Qed.

Lemma dump_entry_shown e : dump_entry e = shown (entry_message e).
Proof. done. Qed.

Lemma dump_spec k :
  out (dump k) = out k ++ bytes_of "==== klog ring buffer (" ++ dec_bytes (Z.of_nat (ring_len k)) ++ bytes_of " entries) ====" ++ [10] ++
    mjoin (shown <$> messages k) ++ bytes_of "==== end of klog ring ====" ++ [10].
Proof.
  unfold dump, print. cbn [out]. do 5 f_equal. f_equal. unfold messages, entries, ring_list, ring_start.
  rewrite <- !list_fmap_compose. f_equal.
  apply list_fmap_ext. intros i j _. unfold compose. rewrite dump_entry_shown. do 3 f_equal. apply Nat.Div0.add_mod_idemp_l.
Qed.

(** C40: The kernel log keeps its tail.  Start from an empty log whose filter
    has been set to any level and mask, and log any sequence of messages: the
    ring then holds the last 128 messages in order, each with its level,
    facility and tick and with the first 160 bytes of its text other than line
    ends.  The serial port has received, in order, exactly the lines of the
    messages whose facility and level pass, and [dump] then prints how many
    messages the ring holds and the lines of all of them, filtered or not. *)
Theorem log_keeps_tail (lvl mask : Z) (ms : list Message) :
  let k := log_all ms (set_facility_mask mask (set_console_level lvl klog_new)) in
  let kept := lastn LOG_RING_CAP (as_logged <$> ms) in
  messages k = kept ∧
  out k = mjoin (shown <$> filter (message_passes (Z.min lvl LOG_DEBUG) mask) (as_logged <$> ms)) ∧
  out (dump k) = out k ++ bytes_of "==== klog ring buffer (" ++ dec_bytes (Z.of_nat (length kept)) ++ bytes_of " entries) ====" ++ [10] ++
    mjoin (shown <$> kept) ++ bytes_of "==== end of klog ring ====" ++ [10].
Proof.
  intros k kept.
  destruct (log_all_spec ms (set_facility_mask mask (set_console_level lvl klog_new))) as (W & _ & _ & E & O).
  { destruct klog_new_wf. split; done. }
  fold k in W, E, O. cbn [out set_facility_mask set_console_level console_level facility_mask klog_new app] in O.
  change (messages (set_facility_mask mask (set_console_level lvl klog_new))) with (@nil Message) in E.
  rewrite app_nil_l in E. split_and!; [done|done|]. rewrite dump_spec. fold kept in E. rewrite <- E.
  unfold messages at 2. unfold entries. by rewrite length_fmap, length_ring_list.
Qed.

Lemma append_bytes_app a b k : append_bytes (a ++ b) k = append_bytes b (append_bytes a k).
Proof. apply foldl_app. Qed.

Lemma append_bytes_active a k : line_active (append_bytes a k) = line_active k.
Proof.
  unfold append_bytes. induction a as [|b a IH] in k |- *; [done|]. cbn [foldl]. rewrite IH. unfold append_byte. by repeat case_match.
Qed.

(** Appending parts to an open line appends their bytes. *)
Lemma line_parts a v b w k :
  line_active k = true →
  hex w (s b (dec v (s a k))) = append_bytes (a ++ dec_bytes v ++ b ++ hex_bytes w) k.
Proof.
  intros Ha. assert (Hs : ∀ x k, line_active k = true → s x k = append_bytes x k) by (intros x k' H; unfold s; by rewrite H).
  unfold hex, dec. rewrite (Hs a) by done. rewrite append_bytes_active, Ha.
  rewrite (Hs b) by (by rewrite !append_bytes_active). by rewrite !append_bytes_active, Ha, !append_bytes_app.
Qed.

(** A line built from parts reads back.  Between [begin] and [end_], a text
    without line ends, a decimal number, a separator and a hexadecimal number
    that fit in the line are committed as one message whose decimal digits
    have the first value and whose sixteen hexadecimal digits the second, for
    any two 64-bit values. *)
Theorem log_numbers_decode (k : klog) (l f now v w : Z) (text : list Z) :
  klog_wf k → Forall plain text → (length text ≤ 123)%nat → 0 ≤ v < 2 ^ 64 → 0 ≤ w < 2 ^ 64 →
  ∃ ds hs,
    messages (end_ now (hex w (s (bytes_of " ") (dec v (s text (begin l f k)))))) =
      lastn LOG_RING_CAP (messages k ++ [mkMessage l f now (text ++ ds ++ bytes_of " " ++ hs)]) ∧
    value_of 10 (digit_value <$> ds) = v ∧ length hs = 16%nat ∧ value_of 16 (digit_value <$> hs) = w.
Proof.
  intros Hwf Ht Hlen Hv Hw. destruct (dec_bytes_plain v ltac:(lia)) as [Pd Ld], (hex_bytes_plain w) as [Ph Lh].
  exists (dec_bytes v), (hex_bytes w). split; [|by rewrite dec_bytes_value, hex_bytes_value].
  set (k0 := begin l f k). assert (W0 : klog_wf k0) by (destruct Hwf; split; cbn; done || lia).
  assert (Hm : LOG_MSG_MAX = 160%nat) by done.
  set (parts := text ++ dec_bytes v ++ bytes_of " " ++ hex_bytes w).
  assert (Hparts : hex w (s (bytes_of " ") (dec v (s text k0))) = append_bytes parts k0) by (by rewrite line_parts).
  rewrite Hparts. destruct (append_bytes_spec parts k0 W0) as (W & (S1 & S2 & S3 & S4 & S5 & S6 & S7 & S8 & S9) & B).
  destruct (end_spec now (append_bytes parts k0) W ltac:(by rewrite S6)) as (_ & _ & _ & _ & E & _).
  rewrite E. unfold line_message, messages, entries, ring_start. rewrite S1, S2, S3, S7, S8, B. cbn [k0 begin ring ring_head ring_len].
  do 4 f_equal. unfold line_bytes. cbn [begin line_len take app k0]. rewrite filter_all.
  - apply take_ge. unfold parts. rewrite !length_app. cbn [length bytes_of]. cbn. lia.
  - apply Forall_app_2; [done|]. apply Forall_app_2; [done|]. apply Forall_app_2; [by repeat constructor|done].
Qed.

Lemma log_numbers_decode_witness :
  klog_wf klog_new ∧ ∃ ds hs,
    messages (end_ 7 (hex (2 ^ 64 - 1) (s (bytes_of " ") (dec 1024 (s (bytes_of "pages=") (begin LOG_DEBUG 2 klog_new)))))) =
      lastn LOG_RING_CAP (messages klog_new ++ [mkMessage LOG_DEBUG 2 7 (bytes_of "pages=" ++ ds ++ bytes_of " " ++ hs)]) ∧
    value_of 10 (digit_value <$> ds) = 1024 ∧ length hs = 16%nat ∧ value_of 16 (digit_value <$> hs) = 2 ^ 64 - 1.
Proof.
  split; [exact klog_new_wf|]. apply log_numbers_decode; [exact klog_new_wf|by repeat constructor|vm_compute; lia|lia|lia].
Defined.

(** An interrupt handler that logs while a line is being built takes the line
    over: the rest of the interrupted line is dropped. *)
Example interrupted_line_lost :
  messages (end_ 2 (s (bytes_of "cd") (log LOG_DEBUG 0 (bytes_of "irq") 1 (s (bytes_of "ab") (begin LOG_DEBUG 0 klog_new))))) =
  [mkMessage LOG_DEBUG 0 1 (bytes_of "irq")].
Proof. vm_compute. reflexivity. Qed.

(** A mask bit is read modulo 32: turning facility 1 off turns facility 33 off. *)
Example mask_wraps : passes (begin 0 33 (set_facility_mask (2 ^ 32 - 1 - 2) klog_new)) = false.
Proof. reflexivity. Qed.
