(* ===== verification/Kbd.v ===== *)
(** * The keyboard: [src/keyboard.rs]

    The ring of typed bytes, the interrupt handler that turns scan codes into
    bytes, the reader and the set-up of the controller.  A byte typed goes to
    the ring and to the terminal ([Tty]), and wakes one task that waits on
    the ring; the wake-ups, the acknowledgements of interrupts and the bytes
    echoed to the serial port are logs.  The ports of the controller are a
    stream of the values read from them and a log of the writes. *)

From S2P Require Import Prelude Ring Procfs Tty.
From stdpp Require Import base numbers strings list.
Local Open Scope Z_scope.

Definition KEYBOARD_DATA : Z := 0x60.
Definition KEYBOARD_STATUS : Z := 0x64.
Definition BUFFER_SIZE : nat := 256.

Record KbState := mkKb { shift : bool; capslock : bool; ctrl : bool; extended : bool; break_pending : bool }.
Definition kb_state_new : KbState := mkKb false false false false false.

Record kbd := mkKbd {
  RING_BUF : list Z; RING_HEAD : nat; RING_TAIL : nat; KEY_COUNT : Z; kb_state : KbState;
  terminal : tty; wakes : list Z; eois : list Z; serial : list Z;
}.
Definition kbd_new (t : tty) : kbd := mkKbd (replicate BUFFER_SIZE 0) 0 0 0 kb_state_new t [] [] [].

Definition set_ring (buf : list Z) (h t : nat) (s : kbd) : kbd :=
  mkKbd buf h t (KEY_COUNT s) (kb_state s) (terminal s) (wakes s) (eois s) (serial s).
Definition set_count (n : Z) (s : kbd) : kbd :=
  mkKbd (RING_BUF s) (RING_HEAD s) (RING_TAIL s) n (kb_state s) (terminal s) (wakes s) (eois s) (serial s).
Definition set_kb (k : KbState) (s : kbd) : kbd :=
  mkKbd (RING_BUF s) (RING_HEAD s) (RING_TAIL s) (KEY_COUNT s) k (terminal s) (wakes s) (eois s) (serial s).
Definition to_tty (c : Z) (s : kbd) : kbd :=
  mkKbd (RING_BUF s) (RING_HEAD s) (RING_TAIL s) (KEY_COUNT s) (kb_state s) (push_key c (terminal s)) (wakes s) (eois s) (serial s).
Definition futex_wake (n : Z) (s : kbd) : kbd :=
  mkKbd (RING_BUF s) (RING_HEAD s) (RING_TAIL s) (KEY_COUNT s) (kb_state s) (terminal s) (wakes s ++ [n]) (eois s) (serial s).
Definition send_eoi (irq : Z) (s : kbd) : kbd :=
  mkKbd (RING_BUF s) (RING_HEAD s) (RING_TAIL s) (KEY_COUNT s) (kb_state s) (terminal s) (wakes s) (eois s ++ [irq]) (serial s).
Definition echo (bs : list Z) (s : kbd) : kbd :=
  mkKbd (RING_BUF s) (RING_HEAD s) (RING_TAIL s) (KEY_COUNT s) (kb_state s) (terminal s) (wakes s) (eois s) (serial s ++ bs).

(** ** The ring *)

Definition ring_push (c : Z) (s : kbd) : kbd :=
  let next := ((RING_HEAD s + 1) `mod` BUFFER_SIZE)%nat in
  if negb (next =? RING_TAIL s)%nat then set_ring (<[RING_HEAD s := c]> (RING_BUF s)) next (RING_TAIL s) s
  else set_ring (<[RING_HEAD s := c]> (RING_BUF s)) next ((RING_TAIL s + 1) `mod` BUFFER_SIZE)%nat s.

Definition ring_pop (s : kbd) : option Z * kbd :=
  if (RING_HEAD s =? RING_TAIL s)%nat then (None, s)
  else (Some (RING_BUF s !!! RING_TAIL s), set_ring (RING_BUF s) (RING_HEAD s) ((RING_TAIL s + 1) `mod` BUFFER_SIZE)%nat s).

Definition ring_reset (s : kbd) : kbd := set_ring (RING_BUF s) 0 0 s.

Definition push_char (c : Z) (s : kbd) : kbd :=
  let s := ring_push c s in
  let s := set_count (w64 (KEY_COUNT s + 1)) s in
  futex_wake 1 (to_tty c s).

Definition push_seq (bytes : list Z) (s : kbd) : kbd := foldl (λ s c, push_char c s) s bytes.

Definition pop_char (s : kbd) : option Z * kbd :=
  match ring_pop s with
  | (Some c, s) => (Some c, set_count (w64 (KEY_COUNT s - 1)) s)
  | (None, s) => (None, s)
  end.

Definition has_pending_input (s : kbd) : bool := 0 <? KEY_COUNT s.

(** ** The layout *)

Definition quote : Z := 34.
Definition SCANCODE_MAP : list Z :=
  [0; 27] ++ bytes_of "1234567890-=" ++ [8; 9] ++ bytes_of "qwertyuiop[]" ++ [10; 0] ++ bytes_of "asdfghjkl;'" ++ bytes_of "`" ++ [0] ++
  bytes_of "\" ++ bytes_of "zxcvbnm,./" ++ [0] ++ bytes_of "*" ++ [0] ++ bytes_of " " ++ [0] ++ replicate 69 0.
Definition SCANCODE_SHIFT_MAP : list Z :=
  [0; 27] ++ bytes_of "!@#$%^&*()_+" ++ [8; 9] ++ bytes_of "QWERTYUIOP{}" ++ [10; 0] ++ bytes_of "ASDFGHJKL:" ++ [quote] ++ bytes_of "~" ++ [0] ++
  bytes_of "|" ++ bytes_of "ZXCVBNM<>?" ++ [0] ++ bytes_of "*" ++ [0] ++ bytes_of " " ++ [0] ++ replicate 69 0.

Definition to_ascii_uppercase (c : Z) : Z := if (97 <=? c) && (c <=? 122) then c - 32 else c.
Definition is_ascii_alphabetic (c : Z) : bool := (97 <=? c) && (c <=? 122) || (65 <=? c) && (c <=? 90).

Definition key_char (sc : Z) (k : KbState) : Z :=
  if 128 <=? sc then 0
  else
    let base := if shift k then SCANCODE_SHIFT_MAP !!! Z.to_nat sc else SCANCODE_MAP !!! Z.to_nat sc in
    if capslock k then to_ascii_uppercase base else base.

(** ** The interrupt *)

Definition E0_UP : Z := 0x48.
Definition E0_DOWN : Z := 0x50.
Definition E0_LEFT : Z := 0x4B.
Definition E0_RIGHT : Z := 0x4D.
Definition E0_HOME : Z := 0x47.
Definition E0_END : Z := 0x4F.
Definition E0_PGUP : Z := 0x49.
Definition E0_PGDN : Z := 0x51.

Definition ESC_BRACKET : list Z := 27 :: bytes_of "[".

Definition handle_extended (sc : Z) (s : kbd) : kbd :=
  let released := negb (Z.land sc 0x80 =? 0) in
  let make := Z.land sc 0x7F in
  if released then s
  else if make =? E0_UP then push_seq (ESC_BRACKET ++ bytes_of "A") s
  else if make =? E0_DOWN then push_seq (ESC_BRACKET ++ bytes_of "B") s
  else if make =? E0_RIGHT then push_seq (ESC_BRACKET ++ bytes_of "C") s
  else if make =? E0_LEFT then push_seq (ESC_BRACKET ++ bytes_of "D") s
  else if make =? E0_HOME then push_seq (ESC_BRACKET ++ bytes_of "H") s
  else if make =? E0_END then push_seq (ESC_BRACKET ++ bytes_of "F") s
  else if make =? E0_PGUP then push_seq (ESC_BRACKET ++ bytes_of "5~") s
  else if make =? E0_PGDN then push_seq (ESC_BRACKET ++ bytes_of "6~") s
  else s.

Definition set_shift (b : bool) (k : KbState) : KbState := mkKb b (capslock k) (ctrl k) (extended k) (break_pending k).
Definition set_capslock (b : bool) (k : KbState) : KbState := mkKb (shift k) b (ctrl k) (extended k) (break_pending k).
Definition set_ctrl (b : bool) (k : KbState) : KbState := mkKb (shift k) (capslock k) b (extended k) (break_pending k).
Definition set_extended (b : bool) (k : KbState) : KbState := mkKb (shift k) (capslock k) (ctrl k) b (break_pending k).
Definition set_break_pending (b : bool) (k : KbState) : KbState := mkKb (shift k) (capslock k) (ctrl k) (extended k) b.

Definition is_shift (make : Z) : bool := (make =? 0x2A) || (make =? 0x36).

Definition keyboard_interrupt_handler (status sc : Z) (s : kbd) : kbd :=
  if negb (Z.land status 1 =? 0) then
    let k := kb_state s in
    if sc =? 0xF0 then send_eoi 1 (set_kb (set_break_pending true k) s)
    else if break_pending k then
      let k := set_break_pending false k in
      let k := if is_shift (Z.land sc 0x7F) then set_shift false k else if Z.land sc 0x7F =? 0x1D then set_ctrl false k else k in
      send_eoi 1 (set_kb k s)
    else
      let released := negb (Z.land sc 0x80 =? 0) in
      let make := Z.land sc 0x7F in
      if sc =? 0xE0 then send_eoi 1 (set_kb (set_extended true k) s)
      else if extended k then send_eoi 1 (handle_extended sc (set_kb (set_extended false k) s))
      else
        let k := if is_shift make then set_shift (negb released) k else if make =? 0x1D then set_ctrl (negb released) k else k in
        let s := set_kb k s in
        if released then send_eoi 1 s
        else if make =? 0x3A then send_eoi 1 (set_kb (set_capslock (negb (capslock k)) k) s)
        else if make <? 128 then
          if ctrl k && is_ascii_alphabetic (key_char make k) then send_eoi 1 (push_char (Z.land (key_char make k) 0x1F) s)
          else
            let c := key_char make k in
            send_eoi 1 (if negb (c =? 0) then push_char c s else s)
        else send_eoi 1 s
  else send_eoi 1 s.

(** ** Reading *)

(** While the reader yields, interrupts arrive: the scan codes of each turn. *)
Definition interrupts (scs : list Z) (s : kbd) : kbd := foldl (λ s sc, keyboard_interrupt_handler 1 sc s) s scs.

Fixpoint read_char (turns : list (list Z)) (s : kbd) : comp (Z * list (list Z) * kbd) :=
  match pop_char s with
  | (Some c, s) => Done (c, turns, s)
  | (None, s) =>
      match turns with
      | [] => Spin
      | scs :: turns => read_char turns (interrupts scs s)
      end
  end.

(** [core::char] of a byte, as UTF-8. *)
Definition encode_utf8 (c : Z) : list Z := if c <? 128 then [c] else [Z.lor 0xC0 (Z.shiftr c 6); Z.lor 0x80 (Z.land c 0x3F)].

(** The index [i] of a store is checked; [buf.len() - 1] wraps on an empty
    buffer. *)
Fixpoint read_line_loop (fuel : nat) (turns : list (list Z)) (buf : list Z) (i : nat) (s : kbd) :
    comp (nat * list Z * list (list Z) * kbd) :=
  match fuel with
  | O => Spin
  | S fuel =>
      let! (c, turns, s) := read_char turns s in
      if is_newline c then
        if (i <? length buf)%nat then Done (S i, <[i := 10]> buf, turns, s) else Done (i, buf, turns, s)
      else if (c =? 0x08) || (c =? 0x7F) then
        if (0 <? i)%nat then read_line_loop fuel turns buf (i - 1) (echo [8; 32; 8] s) else read_line_loop fuel turns buf i s
      else if Z.of_nat i <? w64 (Z.of_nat (length buf) - 1) then
        if (i <? length buf)%nat then read_line_loop fuel turns (<[i := c]> buf) (S i) (echo (encode_utf8 c) s) else Panic
      else read_line_loop fuel turns buf i s
  end.
Definition read_line (fuel : nat) (turns : list (list Z)) (buf : list Z) (s : kbd) := read_line_loop fuel turns buf 0 s.

(** ** Setting the controller up *)

(** The values the ports will give, and the writes so far. *)
Definition io : Type := list Z * list (Z * Z).
Definition inb (p : io) : comp (Z * io) := match p with ([], _) => Spin | (v :: r, w) => Done (v, (r, w)) end.
Definition outb (port v : Z) (p : io) : io := (p.1, p.2 ++ [(port, v)]).

(** [while !done(inb(STATUS)) { pause }] *)
Fixpoint wait_from (ok : Z → bool) (vs : list Z) : comp (list Z) :=
  match vs with [] => Spin | v :: r => if ok v then Done r else wait_from ok r end.
Definition wait (ok : Z → bool) (p : io) : comp io := let! r := wait_from ok p.1 in Done (r, p.2).
Definition input_empty (v : Z) : bool := Z.land v 2 =? 0.
Definition output_full (v : Z) : bool := negb (Z.land v 1 =? 0).

(** [while inb(STATUS) & 1 != 0 { inb(DATA); }] *)
Fixpoint flush_from (vs : list Z) : comp (list Z) :=
  match vs with
  | [] => Spin
  | v :: r => if output_full v then match r with [] => Spin | _ :: r => flush_from r end else Done r
  end.
Definition flush (p : io) : comp io := let! r := flush_from p.1 in Done (r, p.2).

(** [loop { while STATUS & 1 == 0 {} if inb(DATA) == want { break } }] *)
Fixpoint await_from (fuel : nat) (want : Z) (vs : list Z) : comp (list Z) :=
  match fuel with
  | O => Spin
  | S fuel =>
      let! r := wait_from output_full vs in
      match r with [] => Spin | v :: r => if v =? want then Done r else await_from fuel want r end
  end.
Definition await (want : Z) (p : io) : comp io := let! r := await_from (length p.1) want p.1 in Done (r, p.2).

Definition init (p : io) (s : kbd) : comp (io * kbd) :=
  let! p := wait input_empty p in
  let p := outb KEYBOARD_STATUS 0xAD p in
  let! p := flush p in
  let! p := wait input_empty p in
  let p := outb KEYBOARD_STATUS 0x20 p in
  let! p := wait output_full p in
  let! (cmd, p) := inb p in
  let cmd := Z.lor (Z.lor cmd 0x01) 0x40 in
  let! p := wait input_empty p in
  let p := outb KEYBOARD_STATUS 0x60 p in
  let! p := wait input_empty p in
  let p := outb KEYBOARD_DATA cmd p in
  let! p := wait input_empty p in
  let p := outb KEYBOARD_STATUS 0xAE p in
  let! p := wait input_empty p in
  let p := outb KEYBOARD_DATA 0xFF p in
  let! p := await 0xFA p in
  let! p := await 0xAA p in
  let! p := flush p in
  Done (p, set_count 0 (ring_reset s)).
