(* ===== verification/KbdClaims.v ===== *)
(** * The keyboard: what it promises

    Keys typed on the controller come out of the ring, and reach the terminal,
    as the bytes of the layout, in order and with the oldest dropped. *)

From S2P Require Import Prelude Ring Procfs Tty Kbd.
From stdpp Require Import base numbers strings list.
From Stdlib Require Import Lia.
Local Open Scope Z_scope.
#[local] Arguments BUFFER_SIZE : simpl never.

(** ** The ring is a queue *)

Record kbd_wf (s : kbd) : Prop := {
  wf_buf : length (RING_BUF s) = BUFFER_SIZE;
  wf_head : (RING_HEAD s < BUFFER_SIZE)%nat;
  wf_tail : (RING_TAIL s < BUFFER_SIZE)%nat;
  wf_count : 0 ≤ KEY_COUNT s < 2 ^ 64;
}.
Definition held (s : kbd) : nat := ((RING_HEAD s + BUFFER_SIZE - RING_TAIL s) `mod` BUFFER_SIZE)%nat.
Definition keys (s : kbd) : list Z := ring_list (RING_BUF s) (RING_TAIL s) (held s) BUFFER_SIZE.
Definition CAPACITY : nat := 255.

Lemma kbd_new_wf t : kbd_wf (kbd_new t).
Proof. split; cbn; done || (unfold BUFFER_SIZE; lia). Qed.

(** The head, [n] places after the tail. *)
Lemma held_spec s : kbd_wf s → (held s < BUFFER_SIZE)%nat ∧ RING_HEAD s = ((RING_TAIL s + held s) `mod` BUFFER_SIZE)%nat.
Proof.
  intros [_ Hh Ht _]. unfold held. split; [by apply Nat.mod_upper_bound|].
  rewrite Nat.Div0.add_mod_idemp_r. replace (RING_TAIL s + (RING_HEAD s + BUFFER_SIZE - RING_TAIL s))%nat with (RING_HEAD s + 1 * BUFFER_SIZE)%nat by lia.
  rewrite Nat.Div0.mod_add. by rewrite Nat.mod_small.
Qed.

Lemma held_unique s n : (RING_TAIL s < BUFFER_SIZE)%nat → (n < BUFFER_SIZE)%nat → RING_HEAD s = ((RING_TAIL s + n) `mod` BUFFER_SIZE)%nat → held s = n.
Proof.
  intros Ht Hn Hh. unfold held. rewrite Hh.
  replace ((RING_TAIL s + n) `mod` BUFFER_SIZE + BUFFER_SIZE - RING_TAIL s)%nat
    with ((RING_TAIL s + n) `mod` BUFFER_SIZE + (BUFFER_SIZE - RING_TAIL s))%nat by lia.
  rewrite Nat.Div0.add_mod_idemp_l. replace (RING_TAIL s + n + (BUFFER_SIZE - RING_TAIL s))%nat with (n + 1 * BUFFER_SIZE)%nat by lia.
  rewrite Nat.Div0.mod_add. by apply Nat.mod_small.
Qed.

Definition ring_only (s s' : kbd) : Prop :=
  KEY_COUNT s' = KEY_COUNT s ∧ kb_state s' = kb_state s ∧ terminal s' = terminal s ∧ wakes s' = wakes s ∧ eois s' = eois s ∧ serial s' = serial s.

Lemma ring_push_spec c s :
  kbd_wf s → kbd_wf (ring_push c s) ∧ ring_only s (ring_push c s) ∧ keys (ring_push c s) = lastn CAPACITY (keys s ++ [c]).
Proof.
  intros Hwf. destruct (held_spec s Hwf) as [Hn Hh], Hwf as [Hb Hh' Ht Hc]. assert (Hsz : BUFFER_SIZE = S CAPACITY) by done.
  assert (Hnext : ((RING_HEAD s + 1) `mod` BUFFER_SIZE = (RING_TAIL s + S (held s)) `mod` BUFFER_SIZE)%nat).
  { rewrite Hh, Nat.Div0.add_mod_idemp_l. f_equal. lia. }
  pose proof (Ring.ring_push (RING_BUF s) (RING_TAIL s) (held s) BUFFER_SIZE c Hb Hn) as Hpush. rewrite <- Hh in Hpush.
  unfold ring_push. destruct (Nat.eqb_spec ((RING_HEAD s + 1) `mod` BUFFER_SIZE) (RING_TAIL s)) as [He|He]; cbn [negb].
  - set (s' := set_ring _ _ _ s).
    assert (Hfull : held s = CAPACITY).
    { rewrite Hnext in He. rewrite <- (Nat.mod_small (RING_TAIL s) BUFFER_SIZE) in He at 2 by done.
      destruct (decide (S (held s) = BUFFER_SIZE)); [lia|]. exfalso.
      rewrite <- (Nat.add_0_r (RING_TAIL s)) in He at 2. apply mod_add_inj in He; lia. }
    assert (Hheld : held s' = CAPACITY).
    { apply held_unique; [by apply Nat.mod_upper_bound|lia|]. cbn. rewrite Nat.Div0.add_mod_idemp_l, Hnext, Hfull. f_equal. lia. }
    split; [split; cbn; rewrite ?length_insert; done || (by apply Nat.mod_upper_bound)|]. split; [done|].
    unfold keys at 1. rewrite Hheld. cbn [s' RING_BUF RING_TAIL set_ring].
    rewrite Hfull, Ring.ring_pop in Hpush by lia. rewrite Nat.add_1_r.
    unfold keys. rewrite Hfull, <- Hpush. symmetry. apply lastn_cons; [apply length_ring_list|unfold CAPACITY; lia].
  - set (s' := set_ring _ _ _ s).
    assert (Hlt : (S (held s) < BUFFER_SIZE)%nat).
    { destruct (decide (S (held s) = BUFFER_SIZE)) as [E|]; [|lia]. exfalso. apply He. rewrite Hnext, E.
      replace (RING_TAIL s + BUFFER_SIZE)%nat with (RING_TAIL s + 1 * BUFFER_SIZE)%nat by lia. rewrite Nat.Div0.mod_add. by apply Nat.mod_small. }
    assert (Hheld : held s' = S (held s)) by (by apply held_unique).
    split; [split; cbn; rewrite ?length_insert; done || (by apply Nat.mod_upper_bound)|]. split; [done|].
    unfold keys at 1. rewrite Hheld. cbn [s' RING_BUF RING_TAIL set_ring]. rewrite Hpush. symmetry. apply lastn_short.
    rewrite length_app. unfold keys. rewrite length_ring_list. cbn [length]. lia.
Qed.

Lemma ring_pop_spec s :
  kbd_wf s →
  match keys s with
  | [] => ring_pop s = (None, s)
  | c :: q => ∃ s', ring_pop s = (Some c, s') ∧ kbd_wf s' ∧ ring_only s s' ∧ keys s' = q
  end.
Proof.
  intros Hwf. destruct (held_spec s Hwf) as [Hn Hh], Hwf as [Hb Hh' Ht Hc]. unfold ring_pop, keys.
  destruct (held s) as [|n] eqn:E.
  - rewrite Nat.add_0_r, Nat.mod_small in Hh by done. by rewrite Hh, Nat.eqb_refl.
  - rewrite Ring.ring_pop by done. destruct (Nat.eqb_spec (RING_HEAD s) (RING_TAIL s)) as [He|_].
    { exfalso. rewrite He in Hh. rewrite <- (Nat.mod_small (RING_TAIL s) BUFFER_SIZE) in Hh at 1 by done.
      rewrite <- (Nat.add_0_r (RING_TAIL s)) in Hh at 1. apply mod_add_inj in Hh; lia. }
    eexists. split; [rewrite (Nat.mod_small (RING_TAIL s)) by done; done|].
    split; [split; cbn; done || (by apply Nat.mod_upper_bound)|]. split; [done|].
    set (s' := set_ring _ _ _ s). assert (Hheld : held s' = n).
    { apply held_unique; [by apply Nat.mod_upper_bound|lia|]. cbn. rewrite Hh, Nat.Div0.add_mod_idemp_l. f_equal. lia. }
    rewrite Hheld. cbn [s' RING_BUF RING_TAIL set_ring]. by rewrite Nat.add_1_r.
Qed.

(** ** What typing does *)

(** [bs] has been typed by [n] interrupts. *)
Record typed (bs : list Z) (n : nat) (s s' : kbd) : Prop := {
  ty_wf : kbd_wf s';
  ty_keys : keys s' = lastn CAPACITY (keys s ++ bs);
  ty_term : terminal s' = foldl (λ t c, push_key c t) (terminal s) bs;
  ty_wakes : wakes s' = wakes s ++ replicate (length bs) 1;
  ty_count : KEY_COUNT s' = w64 (KEY_COUNT s + Z.of_nat (length bs));
  ty_eois : eois s' = eois s ++ replicate n 1;
}.

Lemma length_keys s : kbd_wf s → (length (keys s) ≤ CAPACITY)%nat.
Proof.
  intros Hwf. unfold keys. rewrite length_ring_list. destruct (held_spec s Hwf) as [H _].
  assert (BUFFER_SIZE = S CAPACITY) by done. lia.
Qed.

Lemma typed_nil s s' :
  kbd_wf s → RING_BUF s' = RING_BUF s → RING_HEAD s' = RING_HEAD s → RING_TAIL s' = RING_TAIL s → KEY_COUNT s' = KEY_COUNT s →
  terminal s' = terminal s → wakes s' = wakes s → eois s' = eois s → typed [] 0 s s'.
Proof.
  intros Hwf E1 E2 E3 E4 E5 E6 E7. assert (Hk : keys s' = keys s) by (unfold keys, held; by rewrite E1, E2, E3).
  split.
  - destruct Hwf. split; by rewrite ?E1, ?E2, ?E3, ?E4.
  - rewrite Hk, app_nil_r, lastn_short; [done|by apply length_keys].
  - done.
  - by rewrite E6, app_nil_r.
  - rewrite E4. cbn. rewrite Z.add_0_r. symmetry. apply Z.mod_small, Hwf.
  - by rewrite E7, app_nil_r.
Qed.

Lemma typed_trans bs n bs' n' s s1 s2 : typed bs n s s1 → typed bs' n' s1 s2 → typed (bs ++ bs') (n + n') s s2.
Proof.
  intros [W K T A C E] [W' K' T' A' C' E']. split; [done| | | | |].
  - rewrite K', K, lastn_app. by rewrite app_assoc.
  - by rewrite T', T, foldl_app.
  - by rewrite A', A, <- app_assoc, length_app, replicate_add.
  - rewrite C', C, length_app. unfold w64. rewrite Z.add_mod_idemp_l by done. f_equal. lia.
  - by rewrite E', E, <- app_assoc, replicate_add.
Qed.

Lemma push_char_typed c s : kbd_wf s → typed [c] 0 s (push_char c s) ∧ kb_state (push_char c s) = kb_state s.
Proof.
  intros Hwf. destruct (ring_push_spec c s Hwf) as ([W1 W2 W3 W4] & (R1 & R2 & R3 & R4 & R5 & R6) & Hk).
  unfold push_char. set (s1 := ring_push c s) in *. clearbody s1. split; [|done].
  split; cbn; rewrite ?R1, ?R3, ?R4, ?R5, ?app_nil_r; try done.
  split; cbn; try done. apply Z.mod_pos_bound. done.
Qed.

Lemma push_seq_typed bs s : kbd_wf s → typed bs 0 s (push_seq bs s) ∧ kb_state (push_seq bs s) = kb_state s.
Proof.
  unfold push_seq. induction bs as [|c bs IH] in s |- *; intros Hwf; [split; [by apply typed_nil|done]|].
  cbn [foldl]. destruct (push_char_typed c s Hwf) as [H1 H2]. destruct (IH _ (ty_wf _ _ _ _ H1)) as [H3 H4].
  split; [apply (typed_trans [c] 0 bs 0 _ _ _ H1 H3)|by rewrite H4].
Qed.

Lemma eoi_typed bs n s s' : typed bs n s s' → typed bs (S n) s (send_eoi 1 s').
Proof.
  intros [[W1 W2 W3 W4] K T A C E]. split; try done. cbn. rewrite E, <- app_assoc. f_equal. by rewrite <- replicate_S_end.
Qed.

Lemma set_kb_typed bs n k s s' : typed bs n (set_kb k s) s' → typed bs n s s'.
Proof. intros [W K T A C E]. by split. Qed.

Lemma kb_send_eoi irq s : kb_state (send_eoi irq s) = kb_state s.
Proof. reflexivity. Qed.

(** ** Scan codes *)

Definition plain_scan (sc : Z) : bool :=
  (0 <=? sc) && (sc <? 128) && negb (is_shift sc) && negb (sc =? 0x1D) && negb (sc =? 0x3A) && negb (sc =? 0x60) && negb (sc =? 0x70).

(** A fact about every scan code without bit 7, checked one by one. *)
Lemma scan_forall (P : Z → bool) : forallb P (seqZ 0 128) = true → ∀ sc, 0 ≤ sc < 128 → P sc = true.
Proof. intros Hall sc Hsc. apply forallb_forall with (x := sc) in Hall; [done|]. apply list_elem_of_In, elem_of_seqZ. lia. Qed.

Definition scan_bits (sc : Z) : bool :=
  (Z.land sc 0x80 =? 0) && (Z.land sc 0x7F =? sc) && negb (Z.land (sc + 0x80) 0x80 =? 0) && (Z.land (sc + 0x80) 0x7F =? sc).

Lemma scan_bits_ok sc : 0 ≤ sc < 128 →
  Z.land sc 0x80 = 0 ∧ Z.land sc 0x7F = sc ∧ (Z.land (sc + 0x80) 0x80 =? 0) = false ∧ Z.land (sc + 0x80) 0x7F = sc.
Proof.
  intros Hsc. pose proof (scan_forall scan_bits ltac:(vm_compute; reflexivity) sc Hsc) as H. unfold scan_bits in H.
  rewrite !andb_true_iff, !Z.eqb_eq, negb_true_iff in H. tauto.
Qed.

Lemma plain_scan_spec sc : plain_scan sc = true →
  0 ≤ sc < 128 ∧ is_shift sc = false ∧ (sc =? 0x1D) = false ∧ (sc =? 0x3A) = false ∧ sc ≠ 0x60 ∧ sc ≠ 0x70.
Proof.
  unfold plain_scan. rewrite !andb_true_iff, !negb_true_iff, Z.leb_le, Z.ltb_lt.
  intros ((((((H1 & H2) & H3) & H4) & H5) & H6) & H7). split_and!; done || by apply Z.eqb_neq.
Qed.

(** Pressing a key that is no modifier. *)
Lemma press sc s :
  kbd_wf s → plain_scan sc = true → extended (kb_state s) = false → break_pending (kb_state s) = false → key_char sc (kb_state s) ≠ 0 →
  let c := key_char sc (kb_state s) in
  let b := if ctrl (kb_state s) && is_ascii_alphabetic c then Z.land c 0x1F else c in
  let s' := keyboard_interrupt_handler 1 sc s in typed [b] 1 s s' ∧ kb_state s' = kb_state s.
Proof.
  intros Hwf Hp He Hb Hc. destruct (plain_scan_spec sc Hp) as (Hr & P1 & P2 & P3 & P4 & P5).
  destruct (scan_bits_ok sc Hr) as (B1 & B2 & _). cbn zeta. unfold keyboard_interrupt_handler. change (negb (Z.land 1 1 =? 0)) with true. cbv zeta iota.
  destruct (Z.eqb_spec sc 0xF0); [lia|]. rewrite Hb. destruct (Z.eqb_spec sc 0xE0); [lia|].
  rewrite He, B1, B2, P1, P2, P3. cbn [Z.eqb negb]. destruct (Z.ltb_spec sc 128); [|lia].
  assert (Hk : set_kb (kb_state s) s = s) by (by destruct s). rewrite Hk.
  revert Hc. generalize (key_char sc (kb_state s)). intros c Hc. destruct (Z.eqb_spec c 0); [done|]. cbn [negb].
  destruct (ctrl (kb_state s) && is_ascii_alphabetic c); [set (b := Z.land c 0x1F)|set (b := c)]; clearbody b;
    destruct (push_char_typed b s Hwf) as [H1 H2]; rewrite kb_send_eoi; exact (conj (eoi_typed _ _ _ _ H1) H2).
Qed.

(** Releasing it. *)
Lemma release sc s :
  kbd_wf s → plain_scan sc = true → extended (kb_state s) = false → break_pending (kb_state s) = false →
  let s' := keyboard_interrupt_handler 1 (sc + 0x80) s in typed [] 1 s s' ∧ kb_state s' = kb_state s.
Proof.
  intros Hwf Hp He Hb. destruct (plain_scan_spec sc Hp) as (Hr & P1 & P2 & P3 & P4 & P5).
  destruct (scan_bits_ok sc Hr) as (_ & _ & B1 & B2). cbn zeta. unfold keyboard_interrupt_handler. change (negb (Z.land 1 1 =? 0)) with true. cbv zeta iota.
  destruct (Z.eqb_spec (sc + 0x80) 0xF0); [lia|]. rewrite Hb. destruct (Z.eqb_spec (sc + 0x80) 0xE0); [lia|].
  rewrite He, B1, B2, P1, P2. cbn [negb]. split; [|done]. apply eoi_typed, typed_nil; done.
Qed.

(** A code that changes the state only. *)
Lemma modifier sc k k' s :
  kbd_wf s → kb_state s = k → keyboard_interrupt_handler 1 sc s = send_eoi 1 (set_kb k' s) →
  let s' := keyboard_interrupt_handler 1 sc s in typed [] 1 s s' ∧ kb_state s' = k'.
Proof. intros Hwf Hk He. cbn zeta. rewrite He. split; [|done]. by apply eoi_typed, typed_nil. Qed.

(** ** Strokes *)

(** A user types characters, holds Ctrl with a letter, or uses the keys of
    the navigation block. *)
Inductive Stroke := Char (c : Z) | Control (c : Z) | Nav (code : Z).

(** The key that carries a character and whether it needs Shift. *)
Definition scan_of (c : Z) : option (bool * Z) :=
  match list_find (λ x, x = c) SCANCODE_MAP with
  | Some (i, _) => Some (false, Z.of_nat i)
  | None => match list_find (λ x, x = c) SCANCODE_SHIFT_MAP with Some (i, _) => Some (true, Z.of_nat i) | None => None end
  end.

Definition nav_bytes : list (Z * list Z) :=
  [(E0_UP, bytes_of "A"); (E0_DOWN, bytes_of "B"); (E0_RIGHT, bytes_of "C"); (E0_LEFT, bytes_of "D"); (E0_HOME, bytes_of "H");
   (E0_END, bytes_of "F"); (E0_PGUP, bytes_of "5~"); (E0_PGDN, bytes_of "6~")].

Definition press_release (sc : Z) : list Z := [sc; sc + 0x80].

(** The codes the controller sends for a stroke. *)
Definition stroke_codes (k : Stroke) : list Z :=
  match k with
  | Char c => match scan_of c with
              | Some (false, sc) => press_release sc
              | Some (true, sc) => 0x2A :: press_release sc ++ [0xAA]
              | None => []
              end
  | Control c => match scan_of c with Some (_, sc) => 0x1D :: press_release sc ++ [0x9D] | None => [] end
  | Nav n => [0xE0; n; 0xE0; n + 0x80]
  end.

(** The bytes a reader should see. *)
Definition stroke_bytes (k : Stroke) : list Z :=
  match k with
  | Char c => [c]
  | Control c => [c - 96]
  | Nav n => match list_find (λ x, x.1 = n) nav_bytes with Some (_, (_, bs)) => ESC_BRACKET ++ bs | None => [] end
  end.

Definition stroke_ok (k : Stroke) : bool :=
  match k with
  | Char c => negb (c =? 0) && bool_decide (is_Some (scan_of c))
  | Control c => (97 <=? c) && (c <=? 122)
  | Nav n => bool_decide (n ∈ nav_bytes.*1)
  end.

(** The tables hold characters on plain keys only. *)
Definition key_plain (m : list Z) (sc : Z) : bool := (m !!! Z.to_nat sc =? 0) || plain_scan sc.

Lemma find_in_map (m : list Z) c i x :
  length m = 128%nat → forallb (key_plain m) (seqZ 0 128) = true → c ≠ 0 → list_find (λ x, x = c) m = Some (i, x) →
  plain_scan (Z.of_nat i) = true ∧ m !!! Z.to_nat (Z.of_nat i) = c.
Proof.
  intros Hlen Hall Hc Hf. apply list_find_Some in Hf as (Hi & -> & _). pose proof (lookup_lt_Some _ _ _ Hi).
  rewrite Nat2Z.id. apply list_lookup_total_correct in Hi. split; [|done].
  pose proof (scan_forall (key_plain m) Hall (Z.of_nat i) ltac:(lia)) as H'. unfold key_plain in H'.
  rewrite Nat2Z.id, Hi in H'. destruct (Z.eqb_spec c 0); [done|]. done.
Qed.

Lemma scan_of_spec c sh sc : c ≠ 0 → scan_of c = Some (sh, sc) → plain_scan sc = true ∧ key_char sc (set_shift sh kb_state_new) = c.
Proof.
  intros Hc Hs. assert (plain_scan sc = true ∧ (if sh then SCANCODE_SHIFT_MAP else SCANCODE_MAP) !!! Z.to_nat sc = c) as [Hp Hm].
  { unfold scan_of in Hs. destruct (list_find _ SCANCODE_MAP) as [[i x]|] eqn:E1.
    - injection Hs as <- <-. apply (find_in_map _ c i x); done || (vm_compute; reflexivity).
    - destruct (list_find _ SCANCODE_SHIFT_MAP) as [[i x]|] eqn:E2; [|done]. injection Hs as <- <-.
      apply (find_in_map _ c i x); done || (vm_compute; reflexivity). }
  split; [done|]. destruct (plain_scan_spec sc Hp) as (Hr & _). unfold key_char. destruct (Z.leb_spec 128 sc); [lia|].
  by destruct sh.
Qed.

(** Pressing and releasing a key. *)
Lemma press_release_typed sc s :
  kbd_wf s → plain_scan sc = true → extended (kb_state s) = false → break_pending (kb_state s) = false → key_char sc (kb_state s) ≠ 0 →
  let c := key_char sc (kb_state s) in
  let b := if ctrl (kb_state s) && is_ascii_alphabetic c then Z.land c 0x1F else c in
  let s' := interrupts (press_release sc) s in typed [b] 2 s s' ∧ kb_state s' = kb_state s.
Proof.
  intros Hwf Hp He Hb Hc c b s'. unfold s', interrupts, press_release. cbn [foldl].
  destruct (press sc s Hwf Hp He Hb Hc) as [T1 K1]. fold c b in T1.
  destruct (release sc (keyboard_interrupt_handler 1 sc s) (ty_wf _ _ _ _ T1) Hp) as [T2 K2]; [by rewrite K1..|].
  split; [exact (typed_trans _ _ _ _ _ _ _ T1 T2)|by rewrite K2].
Qed.

Lemma interrupts_app a b s : interrupts (a ++ b) s = interrupts b (interrupts a s).
Proof. apply foldl_app. Qed.

(** A stroke between two codes that set and clear a modifier. *)
Lemma modified_typed down up sc (k : KbState) s :
  kbd_wf s → kb_state s = kb_state_new → plain_scan sc = true → extended k = false → break_pending k = false → key_char sc k ≠ 0 →
  (∀ s, kb_state s = kb_state_new → keyboard_interrupt_handler 1 down s = send_eoi 1 (set_kb k s)) →
  (∀ s, kb_state s = k → keyboard_interrupt_handler 1 up s = send_eoi 1 (set_kb kb_state_new s)) →
  let c := key_char sc k in
  let b := if ctrl k && is_ascii_alphabetic c then Z.land c 0x1F else c in
  let s' := interrupts (down :: press_release sc ++ [up]) s in typed [b] 4 s s' ∧ kb_state s' = kb_state_new.
Proof.
  intros Hwf Hk Hp He Hb Hc Hd Hu c b s'. unfold s'. change (down :: ?l) with ([down] ++ l). rewrite !interrupts_app.
  change (interrupts [down] s) with (keyboard_interrupt_handler 1 down s).
  destruct (modifier down kb_state_new k s Hwf Hk (Hd s Hk)) as [T1 K1]. set (s1 := keyboard_interrupt_handler 1 down s) in *.
  pose proof (press_release_typed sc s1 (ty_wf _ _ _ _ T1) Hp) as Hpr. rewrite K1 in Hpr.
  destruct (Hpr He Hb Hc) as [T2 K2]. set (s2 := interrupts (press_release sc) s1) in *.
  change (interrupts [up] s2) with (keyboard_interrupt_handler 1 up s2).
  destruct (modifier up k kb_state_new s2 (ty_wf _ _ _ _ T2) K2 (Hu s2 K2)) as [T3 K3].
  split; [exact (typed_trans _ _ _ _ _ _ _ (typed_trans _ _ _ _ _ _ _ T1 T2) T3)|done].
Qed.

Definition kb_extended : KbState := set_extended true kb_state_new.

Lemma extended_prefix s : kb_state s = kb_state_new → keyboard_interrupt_handler 1 0xE0 s = send_eoi 1 (set_kb kb_extended s).
Proof. intros H. unfold keyboard_interrupt_handler. by rewrite H. Qed.

(** After the prefix, a code goes to [handle_extended]. *)
Lemma extended_code sc s :
  kb_state s = kb_extended → sc ≠ 0xF0 → sc ≠ 0xE0 →
  keyboard_interrupt_handler 1 sc s = send_eoi 1 (handle_extended sc (set_kb kb_state_new s)).
Proof.
  intros H H1 H2. unfold keyboard_interrupt_handler. rewrite H. change (negb (Z.land 1 1 =? 0)) with true. cbv zeta iota.
  destruct (Z.eqb_spec sc 0xF0); [done|]. destruct (Z.eqb_spec sc 0xE0); [done|]. reflexivity.
Qed.

Lemma nav_codes n bs s : (n, bs) ∈ nav_bytes →
  handle_extended n s = push_seq (ESC_BRACKET ++ bs) s ∧ handle_extended (n + 0x80) s = s ∧ n ≠ 0xF0 ∧ n ≠ 0xE0 ∧ n + 0x80 ≠ 0xF0 ∧ n + 0x80 ≠ 0xE0.
Proof.
  unfold nav_bytes. rewrite !elem_of_cons, elem_of_nil. intros Hin.
  repeat (destruct Hin as [[= -> ->]|Hin]; [split_and!; reflexivity || discriminate|]). done.
Qed.

Lemma nav_typed n bs s :
  kbd_wf s → kb_state s = kb_state_new → (n, bs) ∈ nav_bytes →
  let s' := interrupts [0xE0; n; 0xE0; n + 0x80] s in typed (ESC_BRACKET ++ bs) 4 s s' ∧ kb_state s' = kb_state_new.
Proof.
  intros Hwf Hk Hin. destruct (nav_codes n bs s Hin) as (_ & _ & N1 & N2 & N3 & N4).
  assert (Hp : ∀ s, handle_extended n s = push_seq (ESC_BRACKET ++ bs) s) by (intros s0; apply (nav_codes n bs s0 Hin)).
  assert (Hr : ∀ s, handle_extended (n + 0x80) s = s) by (intros s0; apply (nav_codes n bs s0 Hin)). clear Hin.
  unfold interrupts. cbn [foldl]. generalize dependent (ESC_BRACKET ++ bs). intros seq Hp.
  destruct (modifier 0xE0 _ _ s Hwf Hk (extended_prefix s Hk)) as [T1 K1].
  set (s1 := keyboard_interrupt_handler 1 0xE0 s) in *. clearbody s1.
  rewrite (extended_code n s1 K1 N1 N2), Hp.
  destruct (push_seq_typed seq (set_kb kb_state_new s1)) as [T2 K2]; [by destruct (ty_wf _ _ _ _ T1); split|].
  apply set_kb_typed, eoi_typed in T2. set (s2 := send_eoi 1 (push_seq seq (set_kb kb_state_new s1))) in *.
  assert (K2' : kb_state s2 = kb_state_new) by exact K2. clearbody s2. clear K2.
  destruct (modifier 0xE0 _ _ s2 (ty_wf _ _ _ _ T2) K2' (extended_prefix s2 K2')) as [T3 K3].
  set (s3 := keyboard_interrupt_handler 1 0xE0 s2) in *. clearbody s3.
  assert (H4 : keyboard_interrupt_handler 1 (n + 0x80) s3 = send_eoi 1 (set_kb kb_state_new s3))
    by (by rewrite (extended_code _ s3 K3 N3 N4), Hr).
  destruct (modifier _ _ _ s3 (ty_wf _ _ _ _ T3) K3 H4) as [T4 K4]. split; [|exact K4].
  pose proof (typed_trans _ _ _ _ _ _ _ (typed_trans _ _ _ _ _ _ _ (typed_trans _ _ _ _ _ _ _ T1 T2) T3) T4) as T.
  rewrite !app_nil_r in T. exact T.
Qed.

Lemma lower_land c : 97 ≤ c ≤ 122 → Z.land c 0x1F = c - 96 ∧ is_ascii_alphabetic c = true ∧ ∃ sc, scan_of c = Some (false, sc).
Proof.
  intros Hc. set (ok := λ c, (97 <=? c) && (c <=? 122) && negb ((Z.land c 0x1F =? c - 96) && is_ascii_alphabetic c &&
    match scan_of c with Some (false, _) => true | _ => false end)).
  pose proof (scan_forall (λ c, negb (ok c)) ltac:(vm_compute; reflexivity) c ltac:(lia)) as H. unfold ok in H.
  destruct (Z.leb_spec 97 c), (Z.leb_spec c 122); try lia. cbn [andb] in H. rewrite negb_involutive, !andb_true_iff, Z.eqb_eq in H.
  destruct H as [[L1 L2] L3]. split_and!; [done..|]. destruct (scan_of c) as [[[] sc]|]; done || by eexists.
Qed.

Lemma stroke_typed k s :
  kbd_wf s → kb_state s = kb_state_new → stroke_ok k = true →
  let s' := interrupts (stroke_codes k) s in
  typed (stroke_bytes k) (length (stroke_codes k)) s s' ∧ kb_state s' = kb_state_new.
Proof.
  intros Hwf Hk Hok. destruct k as [c|c|n]; cbn [stroke_ok stroke_bytes stroke_codes] in *.
  - apply andb_true_iff in Hok as [Hc Hs]. apply negb_true_iff, Z.eqb_neq in Hc. apply bool_decide_eq_true in Hs as [[sh sc] Hs].
    rewrite Hs. destruct (scan_of_spec c sh sc Hc Hs) as [Hp Hch]. destruct sh.
    + destruct (modified_typed 0x2A 0xAA sc (set_shift true kb_state_new) s) as [T K]; rewrite ?Hch; try done.
      * intros s0 H. unfold keyboard_interrupt_handler. by rewrite H.
      * intros s0 H. unfold keyboard_interrupt_handler. by rewrite H.
      * rewrite Hch in T. split; done.
    + pose proof (press_release_typed sc s Hwf Hp) as H. rewrite Hk in H. change (set_shift false kb_state_new) with kb_state_new in Hch.
      rewrite Hch in H. apply H; done.
  - rewrite andb_true_iff, !Z.leb_le in Hok. destruct (lower_land c ltac:(lia)) as (H1 & H2 & sc & Hs). rewrite Hs.
    destruct (scan_of_spec c false sc ltac:(lia) Hs) as [Hp Hch].
    assert (Hch' : key_char sc (set_ctrl true kb_state_new) = c) by done.
    destruct (modified_typed 0x1D 0x9D sc (set_ctrl true kb_state_new) s) as [T K]; rewrite ?Hch'; try done; try lia.
    + intros s0 H. unfold keyboard_interrupt_handler. by rewrite H.
    + intros s0 H. unfold keyboard_interrupt_handler. by rewrite H.
    + rewrite Hch' in T. cbn [ctrl set_ctrl andb] in T. rewrite H2, H1 in T. split; done.
  - apply bool_decide_eq_true in Hok. destruct (list_find _ nav_bytes) as [[i [n' bs]]|] eqn:E.
    + apply list_find_Some in E as (Hi & Hn & _). cbn in Hn. subst n'. apply list_elem_of_lookup_2 in Hi.
      destruct (nav_typed n bs s Hwf Hk Hi) as [T K]. split; done.
    + apply list_find_None in E. apply list_elem_of_fmap in Hok as ([n' bs] & -> & Hin).
      rewrite Forall_forall in E. by apply E in Hin.
Qed.

(** ** Properties *)

(** C35: Typing types.  On a keyboard with no modifier held, let a user type
    any sequence of characters of the layout, Ctrl with a letter and navigation
    keys, each pressed and released with the Shift or Ctrl codes it needs.
    Then every modifier is released again, the ring holds the last 255 of what
    it held and the bytes of those strokes, the terminal has received every
    byte in order, each byte has woken one waiter and counted one key, and
    every interrupt has been acknowledged exactly once. *)
Theorem typing_types (ks : list Stroke) (s : kbd) :
  kbd_wf s → kb_state s = kb_state_new → forallb stroke_ok ks = true →
  let s' := interrupts (mjoin (stroke_codes <$> ks)) s in
  let bytes := mjoin (stroke_bytes <$> ks) in
  kb_state s' = kb_state_new ∧
  keys s' = lastn CAPACITY (keys s ++ bytes) ∧
  terminal s' = foldl (λ t c, push_key c t) (terminal s) bytes ∧
  KEY_COUNT s' = w64 (KEY_COUNT s + Z.of_nat (length bytes)) ∧
  wakes s' = wakes s ++ replicate (length bytes) 1 ∧
  eois s' = eois s ++ replicate (length (mjoin (stroke_codes <$> ks))) 1.
Proof.
  intros Hwf Hk Hok.
  assert (H : typed (mjoin (stroke_bytes <$> ks)) (length (mjoin (stroke_codes <$> ks))) s (interrupts (mjoin (stroke_codes <$> ks)) s) ∧
    kb_state (interrupts (mjoin (stroke_codes <$> ks)) s) = kb_state_new).
  { induction ks as [|k ks IH] in s, Hwf, Hk, Hok |- *; [split; [by apply typed_nil|done]|].
    cbn [forallb] in Hok. apply andb_true_iff in Hok as [Hk1 Hok]. cbn [fmap list_fmap mjoin list_join]. rewrite interrupts_app, length_app.
    destruct (stroke_typed k s Hwf Hk Hk1) as [T1 K1]. destruct (IH _ (ty_wf _ _ _ _ T1) K1 Hok) as [T2 K2].
    split; [exact (typed_trans _ _ _ _ _ _ _ T1 T2)|done]. }
  destruct H as [[W K T A C E] Hk']. split_and!; done.
Qed.

Lemma typing_types_witness :
  kb_state (kbd_new tty_new) = kb_state_new ∧
  keys (interrupts (mjoin (stroke_codes <$> [Char 76; Char 115; Nav E0_UP; Control 99; Char 10])) (kbd_new tty_new)) =
    lastn CAPACITY (keys (kbd_new tty_new) ++ [76; 115; 27; 91; 65; 3; 10]).
Proof.
  split; [reflexivity|]. apply (typing_types [Char 76; Char 115; Nav E0_UP; Control 99; Char 10] (kbd_new tty_new));
    [apply kbd_new_wf|reflexivity|vm_compute; reflexivity].
Defined.

(** Taking every key out. *)
Fixpoint drain (fuel : nat) (s : kbd) : list Z * kbd :=
  match fuel with
  | O => ([], s)
  | S fuel => match pop_char s with (Some c, s) => let '(l, s) := drain fuel s in (c :: l, s) | (None, s) => ([], s) end
  end.

Lemma drain_spec fuel s :
  kbd_wf s → (length (keys s) < fuel)%nat →
  ∃ s', drain fuel s = (keys s, s') ∧ keys s' = [] ∧ KEY_COUNT s' = w64 (KEY_COUNT s - Z.of_nat (length (keys s))).
Proof.
  induction fuel as [|fuel IH] in s |- *; intros Hwf Hlt; [lia|]. cbn [drain]. unfold pop_char.
  pose proof (ring_pop_spec s Hwf) as Hp. destruct (keys s) as [|c q] eqn:E.
  - rewrite Hp. exists s. split_and!; [done|done|]. cbn. rewrite Z.sub_0_r. symmetry. apply Z.mod_small, Hwf.
  - destruct Hp as (s1 & -> & [W1 W2 W3 W4] & (R1 & _) & Hk). set (s2 := set_count _ s1).
    assert (Hwf2 : kbd_wf s2) by (split; cbn; try done; apply Z.mod_pos_bound; done).
    assert (Hk2 : keys s2 = q) by done. cbn [length] in *.
    destruct (IH s2 Hwf2 ltac:(rewrite Hk2; lia)) as (s' & Hd & He & Hc). rewrite Hd, Hk2. exists s'. split_and!; [done|done|].
    rewrite Hc, Hk2. cbn. rewrite R1. unfold w64. rewrite Zminus_mod_idemp_l. f_equal. lia.
Qed.

(** The count of pending keys drifts.  Push any bytes on a fresh
    keyboard and read until nothing is left: the reader gets the last 255
    bytes and the ring is empty, yet [has_pending_input] still answers true
    exactly when more than 255 bytes had been pushed, because overwriting the
    oldest byte does not take it off [KEY_COUNT]. *)
Theorem key_count_drifts (bs : list Z) (t : tty) :
  Z.of_nat (length bs) < 2 ^ 64 →
  ∃ s', drain BUFFER_SIZE (push_seq bs (kbd_new t)) = (lastn CAPACITY bs, s') ∧ keys s' = [] ∧
    has_pending_input s' = (CAPACITY <? length bs)%nat.
Proof.
  intros Hlen. destruct (push_seq_typed bs (kbd_new t) (kbd_new_wf t)) as [[W K T A C E] _].
  change (keys (kbd_new t)) with (@nil Z) in K. rewrite app_nil_l in K. change (KEY_COUNT (kbd_new t)) with 0 in C.
  assert (Hcap : BUFFER_SIZE = S CAPACITY ∧ CAPACITY = 255%nat) by done.
  assert (Hl : length (lastn CAPACITY bs) = Nat.min CAPACITY (length bs)) by apply length_lastn.
  destruct (drain_spec BUFFER_SIZE _ W) as (s' & Hd & He & Hc); [rewrite K; lia|].
  exists s'. rewrite K in Hd. split_and!; [done|done|]. unfold has_pending_input. rewrite Hc, K, C, Hl.
  unfold w64. rewrite (Z.mod_small (0 + _)) by lia. rewrite Z.mod_small by lia.
  apply eq_true_iff_eq. rewrite Z.ltb_lt, Nat.ltb_lt. lia.
Qed.

Lemma key_count_drifts_witness :
  ∃ s', drain BUFFER_SIZE (push_seq (replicate 256 97) (kbd_new tty_new)) = (lastn CAPACITY (replicate 256 97), s') ∧ keys s' = [] ∧
    has_pending_input s' = (CAPACITY <? length (replicate 256 97))%nat.
Proof. apply key_count_drifts. vm_compute. reflexivity. Defined.

(** Caps Lock gives capitals with Shift held too. *)
Example caps_and_shift : key_char 0x1E (mkKb true true false false false) = 65.
Proof. reflexivity. Qed.

(** The right Ctrl key and the Enter key of the keypad, which carry the
    prefix, do nothing. *)
Example right_ctrl_ignored : kb_state (interrupts [0xE0; 0x1D] (kbd_new tty_new)) = kb_state_new.
Proof. reflexivity. Qed.
Example keypad_enter_ignored : keys (interrupts [0xE0; 0x1C; 0xE0; 0x9C] (kbd_new tty_new)) = [].
Proof. reflexivity. Qed.

(** Releasing one Shift key ends the Shift of the other. *)
Example one_shift_released : keys (interrupts [0x2A; 0x36; 0xB6; 0x1E; 0x9E; 0xAA] (kbd_new tty_new)) = [97].
Proof. vm_compute. reflexivity. Qed.

(** ** Reading a line *)

(** One character of a line being edited, in a buffer of [cap] bytes. *)
Definition edit (cap : nat) (l : list Z) (c : Z) : list Z :=
  if (c =? 0x08) || (c =? 0x7F) then take (length l - 1) l else if (length l <? cap - 1)%nat then l ++ [c] else l.

Lemma pop_char_spec c q s :
  kbd_wf s → keys s = c :: q → ∃ s', pop_char s = (Some c, s') ∧ kbd_wf s' ∧ keys s' = q.
Proof.
  intros Hwf Hk. pose proof (ring_pop_spec s Hwf) as Hp. rewrite Hk in Hp.
  destruct Hp as (s1 & Hr & [W1 W2 W3 W4] & _ & Hk1). unfold pop_char. rewrite Hr.
  exists (set_count (w64 (KEY_COUNT s1 - 1)) s1). split_and!; [done|split; cbn; try done; apply Z.mod_pos_bound; done|done].
Qed.

Lemma read_char_spec c q turns s : kbd_wf s → keys s = c :: q → ∃ s', read_char turns s = Done (c, turns, s') ∧ kbd_wf s' ∧ keys s' = q.
Proof.
  intros Hwf Hk. destruct (pop_char_spec c q s Hwf Hk) as (s' & Hp & H). exists s'. destruct turns; cbn [read_char]; by rewrite Hp.
Qed.

Lemma echo_keys bs s : kbd_wf s → kbd_wf (echo bs s) ∧ keys (echo bs s) = keys s.
Proof. intros []. by split. Qed.

Lemma length_edit_le cap l c : (length l ≤ cap - 1)%nat → (length (edit cap l c) ≤ cap - 1)%nat.
Proof.
  intros H. unfold edit. repeat case_match; rewrite ?length_take, ?length_app; cbn [length]; try lia.
  rename select (_ <? _ = true)%nat into Hlt. apply Nat.ltb_lt in Hlt. lia.
Qed.

Lemma read_line_loop_spec text nl q buf i turns s fuel line :
  kbd_wf s → keys s = text ++ nl :: q → Forall (λ c, is_newline c = false) text → is_newline nl = true →
  (0 < length buf)%nat → Z.of_nat (length buf) < 2 ^ 64 → (i ≤ length buf - 1)%nat → (length text < fuel)%nat →
  line = foldl (edit (length buf)) (take i buf) text ++ [10] →
  ∃ buf' s', read_line_loop fuel turns buf i s = Done (length line, buf', turns, s') ∧
    length buf' = length buf ∧ take (length line) buf' = line ∧ kbd_wf s' ∧ keys s' = q.
Proof.
  induction text as [|c text IH] in fuel, buf, i, s |- *; intros Hwf Hk Hf Hnl Hb Hb64 Hi Hfuel Hline;
    (destruct fuel as [|fuel]; [cbn in Hfuel; lia|]); cbn [read_line_loop]; cbn [foldl] in Hline;
    assert (Hl : length (take i buf) = i) by (rewrite length_take; lia).
  - destruct (read_char_spec nl q turns s Hwf Hk) as (s' & -> & W & K). cbn [cbind]. rewrite Hnl.
    destruct (Nat.ltb_spec i (length buf)); [|lia]. exists (<[i := 10]> buf), s'.
    assert (Hll : length line = S i) by (rewrite Hline, length_app, Hl; cbn; lia).
    rewrite Hll. split_and!; [done|by rewrite length_insert| |done|done].
    rewrite (take_S_r _ i 10) by (by apply list_lookup_insert_eq). by rewrite take_insert_ge.
  - apply Forall_cons in Hf as [Hc Hf']. destruct (read_char_spec c (text ++ nl :: q) turns s Hwf Hk) as (s1 & -> & W & K).
    cbn [cbind]. rewrite Hc. cbn [length] in Hfuel. unfold edit at 2 in Hline. rewrite Hl in Hline.
    destruct ((c =? 8) || (c =? 127)).
    + destruct (Nat.ltb_spec 0 i).
      * destruct (echo_keys [8; 32; 8] s1 W) as [W' K']. rewrite take_take, Nat.min_l in Hline by lia.
        apply IH; try done; try lia.
      * replace i with 0%nat in * by lia. apply IH; done || lia.
    + assert (Hw : w64 (Z.of_nat (length buf) - 1) = Z.of_nat (length buf - 1)) by (unfold w64; rewrite Z.mod_small; lia).
      rewrite Hw. destruct (Z.ltb_spec (Z.of_nat i) (Z.of_nat (length buf - 1))), (Nat.ltb_spec i (length buf - 1)); try lia.
      * destruct (Nat.ltb_spec i (length buf)); [|lia]. destruct (echo_keys (encode_utf8 c) s1 W) as [W' K'].
        rewrite <- (length_insert buf i c). apply IH; rewrite ?length_insert; try done; try lia.
        rewrite (take_S_r _ i c) by (by apply list_lookup_insert_eq). by rewrite take_insert_ge by lia.
      * apply IH; done || lia.
Qed.

(** Reading a line edits it.  With a line and its line end in the
    ring, and a buffer of at least one byte, [read_line] returns: it gives the
    number of bytes of the edited line (a backspace takes the last character
    off, a character beyond the room kept for the line end is dropped)
    followed by a line feed, the buffer starts with those bytes, and the ring
    keeps what came after. *)
Theorem read_line_edits (text q buf : list Z) (nl : Z) (turns : list (list Z)) (s : kbd) :
  kbd_wf s → keys s = text ++ nl :: q → Forall (λ c, is_newline c = false) text → is_newline nl = true →
  (0 < length buf)%nat → Z.of_nat (length buf) < 2 ^ 64 →
  ∃ buf' s', let line := foldl (edit (length buf)) [] text ++ [10] in
    read_line (S (length text)) turns buf s = Done (length line, buf', turns, s') ∧
    length buf' = length buf ∧ take (length line) buf' = line ∧ (length line ≤ length buf)%nat ∧ keys s' = q.
Proof.
  intros Hwf Hk Hf Hnl Hb Hb64.
  destruct (read_line_loop_spec text nl q buf 0 turns s (S (length text)) _ Hwf Hk Hf Hnl Hb Hb64 ltac:(lia) ltac:(lia) eq_refl)
    as (buf' & s' & H1 & H2 & H3 & _ & H4).
  exists buf', s'. rewrite take_0 in *. split_and!; try done. apply (f_equal length) in H3. rewrite length_take in H3. lia.
Qed.

(** An empty buffer: the room wraps around and the first character is stored
    out of bounds. *)
Example read_line_empty_panics : read_line 2 [] [] (push_seq [97; 10] (kbd_new tty_new)) = Panic.
Proof. vm_compute. reflexivity. Qed.

Lemma read_line_edits_witness :
  keys (push_seq [97; 98; 8; 99; 10; 122] (kbd_new tty_new)) = [97; 98; 8; 99] ++ 10 :: [122] ∧
  ∃ buf' s', let line := foldl (edit (length (replicate 3 0))) [] [97; 98; 8; 99] ++ [10] in
    read_line (S (length [97; 98; 8; 99])) [] (replicate 3 0) (push_seq [97; 98; 8; 99; 10; 122] (kbd_new tty_new)) = Done (length line, buf', [], s') ∧
    length buf' = length (replicate 3 0) ∧ take (length line) buf' = line ∧ (length line ≤ length (replicate 3 0))%nat ∧ keys s' = [122].
Proof.
  split; [vm_compute; reflexivity|]. apply (read_line_edits [97; 98; 8; 99] [122] (replicate 3 0) 10 []).
  - apply (ty_wf _ _ _ _ (proj1 (push_seq_typed [97; 98; 8; 99; 10; 122] (kbd_new tty_new) (kbd_new_wf tty_new)))).
  - vm_compute. reflexivity.
  - by repeat constructor.
  - reflexivity.
  - cbn. lia.
  - cbn. lia.
Defined.

(** ** Set-up *)

Lemma cbind_inv {A B} (m : comp A) (k : A → comp B) b : cbind m k = Done b → ∃ a, m = Done a ∧ k a = Done b.
Proof. destruct m; [|done..]. intros H. by eexists. Qed.

Lemma wait_log ok p p' : wait ok p = Done p' → p'.2 = p.2.
Proof. intros (r & _ & [= <-])%cbind_inv. done. Qed.
Lemma flush_log p p' : flush p = Done p' → p'.2 = p.2.
Proof. intros (r & _ & [= <-])%cbind_inv. done. Qed.
Lemma await_log v p p' : await v p = Done p' → p'.2 = p.2.
Proof. intros (r & _ & [= <-])%cbind_inv. done. Qed.
Lemma inb_log p v p' : inb p = Done (v, p') → p'.2 = p.2.
Proof. destruct p as [[|x r] w]; [done|]. intros [= _ <-]. done. Qed.
Lemma outb_log port v p : (outb port v p).2 = p.2 ++ [(port, v)].
Proof. done. Qed.

(** Setting the controller up, when it finishes, has written exactly these
    commands: keyboard off, read and write the command byte with the
    interrupt and the translation on, keyboard on, reset; and the ring is
    empty. *)
Lemma init_commands p s p' s' :
  init p s = Done (p', s') →
  (∃ cmd, p'.2 = p.2 ++ [(KEYBOARD_STATUS, 0xAD); (KEYBOARD_STATUS, 0x20); (KEYBOARD_STATUS, 0x60);
     (KEYBOARD_DATA, Z.lor (Z.lor cmd 0x01) 0x40); (KEYBOARD_STATUS, 0xAE); (KEYBOARD_DATA, 0xFF)]) ∧
  keys s' = [] ∧ KEY_COUNT s' = 0.
Proof.
  intros H. unfold init in H. apply cbind_inv in H as (p1 & E1%wait_log & H). cbv zeta in H.
  apply cbind_inv in H as (p2 & E2%flush_log & H). apply cbind_inv in H as (p3 & E3%wait_log & H).
  apply cbind_inv in H as (p4 & E4%wait_log & H). apply cbind_inv in H as ([cmd p5] & E5%inb_log & H).
  apply cbind_inv in H as (p6 & E6%wait_log & H). apply cbind_inv in H as (p7 & E7%wait_log & H).
  apply cbind_inv in H as (p8 & E8%wait_log & H). apply cbind_inv in H as (p9 & E9%wait_log & H).
  apply cbind_inv in H as (p10 & E10%await_log & H). apply cbind_inv in H as (p11 & E11%await_log & H).
  apply cbind_inv in H as (p12 & E12%flush_log & [= <- <-]).
  split; [|done]. exists cmd. rewrite E12, E11, E10, outb_log, E9, outb_log, E8, outb_log, E7, outb_log, E6, E5, E4, outb_log, E3, E2, outb_log, E1.
  by rewrite <- !app_assoc.
Qed.

(** A controller that answers at once. *)
Example init_runs :
  init ([0; 0; 0; 1; 0x20; 0; 0; 0; 0; 1; 0xFA; 1; 0xAA; 0], []) (kbd_new tty_new) =
  Done (([], [(0x64, 0xAD); (0x64, 0x20); (0x64, 0x60); (0x60, 0x61); (0x64, 0xAE); (0x60, 0xFF)]), kbd_new tty_new).
Proof. reflexivity. Qed.
