(* ===== verification/Udrv.v ===== *)
(** * Calls for drivers in user space: [src/task.rs]

    The check of user ranges, the privilege bits, port and PCI access, the
    mapping of device memory, DMA buffers, and the interrupt words.  The calls
    on memory change the tables of [Paging] and the records of [Vma] together
    ([Mm.mm]); those on interrupts the futex words and the scheduler
    ([Futex.fut]).  What a port or a configuration register answers is given
    by the environment; what is written to them is a log. *)

From S2P Require Import Prelude Buddy Sched Futex VfsTypes Vma Paging Exec Mm.
From stdpp Require Import base gmap numbers list.
Local Open Scope Z_scope.

Definition EPERM : Z := 1.
Definition ENODEV : Z := 19.
Definition PTE_CACHE_DISABLE : Z := 16.

(** The calling task: its identifier, privileges and address space. *)
Record caller := mkCaller { c_id : nat; c_priv : Z; c_pml4 : Z }.

Definition have_priv (c : caller) (bit : Z) : bool :=
  if (c_id c =? 0)%nat then false else negb (Z.land (c_priv c) bit =? 0).

(** ** [user_range_valid] *)

(** One page of the range. *)
Definition user_page_valid (c : caller) (page : Z) (want_write : bool) (vs : pool) (s : pmem) : bool * pmem :=
  let '(here, s) :=
    match resolve_phys s (c_pml4 c) page with
    | Some _ => (true, s)
    | None =>
        match handle_demand_page (c_id c) (c_pml4 c) page vs s with
        | (false, s) => (false, s)
        | (true, s) => (match resolve_phys s (c_pml4 c) page with Some _ => true | None => false end, s)
        end
    end in
  if here then
    match resolve_phys_flags s (c_pml4 c) page with
    | Some (_, flags) => (negb (Z.land flags PTE_USER =? 0) && (negb want_write || negb (Z.land flags PTE_WRITABLE =? 0)), s)
    | None => (false, s)
    end
  else (false, s).

Fixpoint user_pages_valid (n : nat) (c : caller) (page : Z) (want_write : bool) (vs : pool) (s : pmem) : bool * pmem :=
  match n with
  | O => (true, s)
  | S n' =>
      match user_page_valid c page want_write vs s with
      | (true, s) => user_pages_valid n' c (page + 0x1000) want_write vs s
      | (false, s) => (false, s)
      end
  end.

(** The pages from that of [addr] to that of [end - 1]. *)
Definition range_pages (addr end_ : Z) : nat := Z.to_nat ((end_ - Z.ldiff addr 0xFFF + 0xFFF) / 0x1000).

Definition user_range_valid (c : caller) (addr len : Z) (want_write : bool) (vs : pool) (s : pmem) : bool * pmem :=
  if len =? 0 then (true, s)
  else if 2 ^ 64 <=? addr + len then (false, s)
  else
    let end_ := addr + len in
    if negb (is_user_addr addr) || negb (is_user_addr (end_ - 1)) then (false, s)
    else if c_pml4 c =? 0 then (false, s)
    else user_pages_valid (range_pages addr end_) c (Z.ldiff addr 0xFFF) want_write vs s.

(** ** Device memory *)

Definition DRV_BASE : Z := 0x50000000.
Definition DRV_LIMIT : Z := 0x60000000.

(** The loop that maps [n] pages from [virt] to those from [phys]; it stops at
    the first failure and tells how many it mapped. *)
Fixpoint map_run (n : nat) (pml4 virt phys flags : Z) (s : pmem) : nat * pmem :=
  match n with
  | O => (O, s)
  | S n' =>
      match map_into pml4 virt (w64 phys) flags s with
      | (Ok _, s) => let '(k, s) := map_run n' pml4 (virt + 0x1000) (phys + 0x1000) flags s in (S k, s)
      | (Err _, s) => (O, s)
      end
  end.

Fixpoint unmap_run (n : nat) (pml4 virt : Z) (s : pmem) : pmem :=
  match n with O => s | S n' => unmap_run n' pml4 (virt + 0x1000) (unmap_into pml4 virt s).2 end.

Definition PHYS_FLAGS : Z := Z.lor PTE_PRESENT (Z.lor PTE_USER (Z.lor PTE_WRITABLE PTE_CACHE_DISABLE)).

Definition sys_phys_map (c : caller) (phys size : Z) (m : mm) : comp (Z * mm) :=
  if (c_id c =? 0)%nat then Done (- EINVAL, m)
  else if negb (have_priv c PRIV_PHYS_MAP) then Done (- EPERM, m)
  else if (phys =? 0) || (size =? 0) || (0x100000000 <? size) then Done (- EINVAL, m)
  else
    let size := Z.ldiff (size + 0xFFF) 0xFFF in
    let! chosen := find_hole_below DRV_LIMIT (S (length (vmas m))) (c_pml4 c) DRV_BASE size (vmas m) in
    match chosen with
    | None => Done (- ENOMEM, m)
    | Some a =>
        let n := Z.to_nat (size / 0x1000) in
        let '(k, s) := map_run n (c_pml4 c) a phys PHYS_FLAGS (tabs m) in
        if negb (k =? n)%nat then Done (- ENOMEM, set_tabs (unmap_run k (c_pml4 c) a s) m)
        else
          match vma_register (c_pml4 c) a (a + size) PHYS_FLAGS (vmas m) with
          | (true, vs) => Done (a, set_vmas vs (set_tabs s m))
          | (false, vs) => Done (- ENOMEM, set_vmas vs (set_tabs (unmap_run n (c_pml4 c) a s) m))
          end
    end.

(** ** DMA buffers *)

(** [u32::next_power_of_two().trailing_zeros()]: without overflow checks a
    value above 2^31 gives the word 0, whose trailing zeros are 32. *)
Definition npo2_order (p : Z) : nat :=
  let p := w32 p in if p <=? 1 then 0%nat else if 2 ^ 31 <? p then 32%nat else Z.to_nat (Z.log2_up p).

Definition DMA_FLAGS : Z := Z.lor PTE_PRESENT (Z.lor PTE_USER PTE_WRITABLE).

(** [write_bytes] of zero over whole pages. *)
Fixpoint zero_run (n : nat) (phys : Z) (s : pmem) : pmem :=
  match n with O => s | S n' => zero_run n' (phys + 0x1000) (zero_frame phys s) end.

Definition dma_pack (phys vaddr : Z) : Z :=
  Z.lor (Z.shiftl (Z.land (Z.shiftr phys 12) 0xFFFFFFFF) 32) (Z.land vaddr 0xFFFFFFFF).
Definition as_i64 (z : Z) : Z := if z <? 2 ^ 63 then z else z - 2 ^ 64.

Definition sys_dma_alloc (c : caller) (pages_ : Z) (m : mm) : comp (Z * mm) :=
  if negb (have_priv c PRIV_DMA_ALLOC) then Done (- EPERM, m)
  else
    let pages := if pages_ =? 0 then 1 else Z.min pages_ 8 in
    if (c_id c =? 0)%nat then Done (- EINVAL, m)
    else
      let order := npo2_order pages in
      match alloc_order order (tabs m) with
      | (None, s) => Done (- ENOMEM, set_tabs s m)
      | (Some phys, s) =>
          let size := Z.shiftl 0x1000 (Z.of_nat order) in
          let! chosen := find_hole_below DRV_LIMIT (S (length (vmas m))) (c_pml4 c) DRV_BASE size (vmas m) in
          match chosen with
          | None => let! s := free_order phys order s in Done (- ENOMEM, set_tabs s m)
          | Some a =>
              let n := Z.to_nat (size / 0x1000) in
              let '(k, s) := map_run n (c_pml4 c) a phys DMA_FLAGS s in
              if negb (k =? n)%nat then let! s := free_order phys order s in Done (- ENOMEM, set_tabs s m)
              else
                let s := zero_run n phys s in
                match vma_register (c_pml4 c) a (a + size) DMA_FLAGS (vmas m) with
                | (true, vs) => Done (as_i64 (dma_pack phys a), set_vmas vs (set_tabs s m))
                | (false, vs) => let! s := free_order phys order s in Done (- ENOMEM, set_vmas vs (set_tabs s m))
                end
          end
      end.

(** The record that starts at an address. *)
Definition starts_at (pml4 addr : Z) (r : VmaRec) : bool := (r_pml4 r =? pml4) && (v_start (r_vma r) =? addr).

(** The order of a record's length; zero for an empty one. *)
Definition rec_order (r : VmaRec) : nat :=
  let size := w64 (v_end (r_vma r) - v_start (r_vma r)) in
  if (0 <? size) && (0 <? size / 0x1000) then npo2_order (size / 0x1000) else 0%nat.

Definition sys_dma_free (c : caller) (packed : Z) (m : mm) : comp (Z * mm) :=
  if negb (have_priv c PRIV_DMA_ALLOC) then Done (- EPERM, m)
  else
    let vaddr := Z.land packed 0xFFFFFFFF in
    let phys := Z.land (Z.shiftr packed 32) 0xFFFFFFFF in
    if (vaddr =? 0) || (phys =? 0) then Done (- EINVAL, m)
    else if (c_id c =? 0)%nat then Done (- EINVAL, m)
    else
      match list_find (λ r, starts_at (c_pml4 c) vaddr r = true) (vmas m) with
      | None => Done (- EINVAL, m)
      | Some (_, r) =>
          let order := rec_order r in
          let m := set_vmas (vma_clear_addr (c_pml4 c) vaddr (vmas m)) m in
          let s := unmap_run (Z.to_nat (2 ^ Z.of_nat order)) (c_pml4 c) vaddr (tabs m) in
          let! s := free_order (Z.shiftl phys 12) order s in
          Done (0, set_tabs s m)
      end.

(** ** Ports and PCI configuration *)

(** What the ports answer, and the log of writes (port, width, value). *)
Record ports := mkPorts { p_in : Z → Z → Z; p_out : list (Z * Z * Z) }.
Definition port_write (port width v : Z) (p : ports) : ports := mkPorts (p_in p) (p_out p ++ [(port, width, v)]).

Definition sys_port_in (c : caller) (port width : Z) (p : ports) : Z :=
  if negb (have_priv c PRIV_PORT) then - EPERM
  else if width =? 1 then p_in p port 1 mod 2 ^ 8
  else if width =? 2 then p_in p port 2 mod 2 ^ 16
  else if width =? 4 then p_in p port 4 mod 2 ^ 32
  else - EINVAL.

Definition sys_port_out (c : caller) (port width value : Z) (p : ports) : Z * ports :=
  if negb (have_priv c PRIV_PORT) then (- EPERM, p)
  else if width =? 1 then (0, port_write port 1 (value mod 2 ^ 8) p)
  else if width =? 2 then (0, port_write port 2 (value mod 2 ^ 16) p)
  else if width =? 4 then (0, port_write port 4 (value mod 2 ^ 32) p)
  else (- EINVAL, p).

Definition PCI_CONFIG_ADDR : Z := 0xCF8.
Definition PCI_CONFIG_DATA : Z := 0xCFC.

(** The address word of a configuration register. *)
Definition pci_addr (bus dev func offset : Z) : Z :=
  Z.lor (Z.lor (Z.lor (Z.lor 0x80000000 (Z.shiftl bus 16)) (w32 (Z.shiftl dev 11))) (w32 (Z.shiftl func 8))) (Z.land offset 0xFC).

(** [config] is the value of the register an address word selects. *)
Definition sys_pci_read (c : caller) (bus dev func offset : Z) (config : Z → Z) (p : ports) : Z * ports :=
  if negb (have_priv c PRIV_PCI) then (- EPERM, p)
  else if (0xFC <? offset) || negb (offset mod 4 =? 0) then (- EINVAL, p)
  else
    let addr := pci_addr bus dev func offset in
    (w32 (config addr), port_write PCI_CONFIG_ADDR 4 addr p).

Definition sys_pci_write (c : caller) (bus dev func offset value : Z) (p : ports) : Z * ports :=
  if negb (have_priv c PRIV_PCI) then (- EPERM, p)
  else if (0xFC <? offset) || negb (offset mod 4 =? 0) then (- EINVAL, p)
  else (0, port_write PCI_CONFIG_DATA 4 value (port_write PCI_CONFIG_ADDR 4 (pci_addr bus dev func offset) p)).

(** The slots of bus 0 in the order of the scan. *)
Definition pci_slots : list (Z * Z) := dev ← seqZ 0 32; func ← seqZ 0 8; [(dev, func)].
Definition slot_addr (s : Z * Z) : Z := Z.lor (Z.lor 0x80000000 (Z.shiftl s.1 11)) (Z.shiftl s.2 8).
Definition slot_matches (config : Z → Z) (vendor : Z) (s : Z * Z) : bool :=
  let id := w32 (config (slot_addr s)) in
  negb (id =? 0xFFFFFFFF) && negb (id =? 0) && (Z.land id 0xFFFF =? vendor).

Definition sys_pci_find (c : caller) (vendor_device : Z) (config : Z → Z) (p : ports) : Z * ports :=
  if negb (have_priv c PRIV_PCI) then (- EPERM, p)
  else
    match list_find (λ s, slot_matches config vendor_device s = true) pci_slots with
    | Some (i, (dev, func)) =>
        (Z.lor (Z.shiftl dev 11) (Z.shiftl func 8), foldl (λ p s, port_write PCI_CONFIG_ADDR 4 (slot_addr s) p) p (take (S i) pci_slots))
    | None => (- ENODEV, foldl (λ p s, port_write PCI_CONFIG_ADDR 4 (slot_addr s) p) p pci_slots)
    end.

(** ** Interrupt words *)

Definition MAX_DRIVER_IRQS : nat := 16.

(** The registered words, the interrupts unmasked, the futex words and the
    scheduler. *)
Record irqs := mkIrqs { DRIVER_IRQ_WORD : list Z; unmasked : list Z; i_fut : fut }.
Definition irqs_new (f : fut) : irqs := mkIrqs (replicate MAX_DRIVER_IRQS 0) [] f.
Definition irq_word (irq : Z) (x : irqs) : Z := DRIVER_IRQ_WORD x !!! Z.to_nat irq.
Definition set_fut (f : fut) (x : irqs) : irqs := mkIrqs (DRIVER_IRQ_WORD x) (unmasked x) f.

(** [valid] is the answer of [user_range_valid]. *)
Definition sys_irq_register (c : caller) (irq counter : Z) (valid : bool) (x : irqs) : Z * irqs :=
  if negb (have_priv c PRIV_IRQ) then (- EPERM, x)
  else if Z.of_nat MAX_DRIVER_IRQS <=? irq then (- EINVAL, x)
  else if (counter =? 0) || negb valid then (- EFAULT, x)
  else (0, mkIrqs (<[Z.to_nat irq := counter]> (DRIVER_IRQ_WORD x)) (unmasked x ++ [irq]) (i_fut x)).

(** The wait up to the point where the task gives the processor away; it
    resumes at [irq_wait_again] with the word, its first value and the
    deadline. *)
Inductive iwait := IRet (r : Z) | ISleep (word first deadline : Z) (p : pick).

Definition irq_wait_again (k : ctx) (word first deadline : Z) (x : irqs) : comp (iwait * irqs) :=
  match words (i_fut x) !! word with
  | None => Panic
  | Some now =>
      if negb (now =? first) then Done (IRet 0, x)
      else if negb (deadline =? 0) && (deadline <=? c_now k) then Done (IRet (- EAGAIN), x)
      else
        let! (ok, s) := block_on_futex (c_cur k) word (fs (i_fut x)) in
        if ok then
          let! (p, s) := schedule true k s in
          Done (ISleep word first deadline p, set_fut (set_fs s (i_fut x)) x)
        else Done (IRet (- EAGAIN), set_fut (set_fs s (i_fut x)) x)
  end.

Definition sys_irq_wait (c : caller) (k : ctx) (irq timeout_ms : Z) (x : irqs) : comp (iwait * irqs) :=
  if negb (have_priv c PRIV_IRQ) then Done (IRet (- EPERM), x)
  else if Z.of_nat MAX_DRIVER_IRQS <=? irq then Done (IRet (- EINVAL), x)
  else
    let word := irq_word irq x in
    if word =? 0 then Done (IRet (- EINVAL), x)
    else
      match words (i_fut x) !! word with
      | None => Panic
      | Some first =>
          let deadline := if timeout_ms =? 0 then 0 else w64 (c_now k + timeout_ms / 10) in
          irq_wait_again k word first deadline x
      end.

(** The word is read and written in the address space of the moment. *)
Definition driver_irq_edge (irq : Z) (x : irqs) : comp irqs :=
  if Z.of_nat MAX_DRIVER_IRQS <=? irq then Done x
  else
    let word := irq_word irq x in
    if word =? 0 then Done x
    else
      match words (i_fut x) !! word with
      | None => Panic
      | Some now =>
          let f := set_word word (w32 (now + 1)) (i_fut x) in
          let! (_, s) := futex_wake word 1 (fs f) in
          Done (set_fut (set_fs s f) x)
      end.
