(* ===== verification/UdrvClaims.v ===== *)
(** * Calls for drivers: what they promise

    First runs of pages: mapping, unmapping and checking them; then the
    theorems. *)

From S2P Require Import Prelude Buddy BuddyInv BuddySpec BuddyPages Sched Futex VfsTypes Vma VmaClaims Paging PagingWalk PagingMap PagingCow PagingFork PagingDemo PagingClaims Elf ElfMap Mm MmClaims Exec Udrv.
From Stdlib Require Import Lia ZArith.
From stdpp Require Import base gmap numbers list.
Local Open Scope Z_scope.

(** The pages after the first of a run. *)
Lemma run_tail_ne a n i : 0 ≤ a → a + 4096 * Z.of_nat (S n) ≤ 2 ^ 48 → 0 ≤ i < Z.of_nat n → path (a + 4096 + 4096 * i) ≠ path a.
Proof.
  intros H0 Hn Hi E. enough (i + 1 = 0) by lia. apply (pages_inj a (S n)); [lia|lia|lia|lia|].
  rewrite Z.mul_0_r, Z.add_0_r, <- E. f_equal. lia.
Qed.

Lemma run_out a n v : ¬ in_pages a (S n) v → path v ≠ path a ∧ ¬ in_pages (a + 4096) n v.
Proof.
  intros Hv. split.
  - intros E. apply Hv. exists 0. split; [lia|]. by rewrite Z.mul_0_r, Z.add_0_r.
  - intros (i & Hi & E). apply Hv. exists (i + 1). split; [lia|]. by replace (a + 4096 * (i + 1)) with (a + 4096 + 4096 * i) by lia.
Qed.

Lemma run_head_out a n : 0 ≤ a → a + 4096 * Z.of_nat (S n) ≤ 2 ^ 48 → ∀ k, (k ≤ n)%nat → ¬ in_pages (a + 4096) k a.
Proof. intros H0 Hn k Hk (i & Hi & E). by apply (run_tail_ne a n i H0 Hn ltac:(lia)). Qed.

(** ** Mapping *)

Lemma map_into_grown own s root v phys fl : mem_ok own s → space own s root →
  let '(r, s') := map_into root v phys fl s in
  ∃ own', grown own s root own' s' ∧
    (∀ v' w, path v' ≠ path v → PagingMap.mapped s root v' w → PagingMap.mapped s' root v' w) ∧
    match r with
    | Ok _ => PagingMap.mapped s' root v (Z.lor phys (Z.lor fl PTE_PRESENT)) ∧ ∀ v', path v' ≠ path v → xlate s' root v' = xlate s root v'
    | Err _ => ∀ v', xlate s' root v' = xlate s root v'
    end.
Proof.
  intros Hm Hsp. pose proof (map_into_spec own s root v phys fl Hm Hsp) as H. destruct (map_into root v phys fl s) as [r s'].
  destruct H as (o & H1 & H2 & H3 & H4 & _ & H5 & H6 & H7 & H8). exists o. split; [|done]. split; [done..|].
  intros t Ht Hn Hr. destruct (H6 t Hr) as [|[Ho Hout]]; [done|]. by destruct Ht.
Qed.

Lemma map_run_spec n own s root a phys fl :
  0 ≤ a → a + 4096 * Z.of_nat n ≤ 2 ^ 48 → mem_ok own s → space own s root →
  let '(k, s') := map_run n root a phys fl s in
  (k ≤ n)%nat ∧ ∃ own', grown own s root own' s' ∧
    (∀ i, 0 ≤ i < Z.of_nat k → PagingMap.mapped s' root (a + 4096 * i) (Z.lor (w64 (phys + 4096 * i)) (Z.lor fl PTE_PRESENT))) ∧
    (∀ v w, ¬ in_pages a n v → PagingMap.mapped s root v w → PagingMap.mapped s' root v w) ∧
    (∀ v, ¬ in_pages a k v → xlate s' root v = xlate s root v).
Proof.
  revert own s a phys; induction n as [|n IH]; intros own s a phys H0 Hn Hm Hsp; cbn [map_run].
  { split; [done|]. exists own. split; [by apply grown_refl|]. split; [lia|done]. }
  pose proof (map_into_grown own s root a (w64 phys) fl Hm Hsp) as H1. destruct (map_into root a (w64 phys) fl s) as [[[]|e] s1].
  2: { destruct H1 as (o & G & K & X). split; [lia|]. exists o. split; [done|]. split; [lia|]. split; [|done].
       intros v w Hv. apply K. by apply run_out in Hv as [? _]. }
  destruct H1 as (o1 & G1 & K1 & L1 & X1).
  pose proof (IH o1 s1 (a + 4096) (phys + 4096) ltac:(lia) ltac:(lia) (gr_mem _ _ _ _ _ G1) (gr_space _ _ _ _ _ G1)) as H2.
  destruct (map_run n root (a + 4096) (phys + 4096) fl s1) as [k s2]. destruct H2 as (Hk & o2 & G2 & L2 & K2 & X2).
  split; [lia|]. exists o2. split; [by eapply grown_trans|]. split; [|split].
  - intros i Hi. destruct (decide (i = 0)) as [->|].
    + rewrite Z.mul_0_r, !Z.add_0_r. apply K2; [by apply (run_head_out a n)|done].
    + replace (a + 4096 * i) with (a + 4096 + 4096 * (i - 1)) by lia. replace (phys + 4096 * i) with (phys + 4096 + 4096 * (i - 1)) by lia.
      apply L2. lia.
  - intros v w Hv Hmp. apply run_out in Hv as [? ?]. apply K2; [done|]. by apply K1.
  - intros v Hv. apply run_out in Hv as [? ?]. rewrite X2 by done. by apply X1.
Qed.

(** ** Unmapping *)

Record cleared (own : list Z) (s : pmem) (root : Z) (s' : pmem) : Prop := {
  cl_km : km s' = km s;
  cl_space : space own s' root;
  cl_reach : ∀ t, reach s' root t ↔ reach s root t;
  cl_page : ∀ t, ¬ reach s root t → page_of s' t = page_of s t;
}.

Lemma cleared_mem own s root s' : mem_ok own s → cleared own s root s' → mem_ok own s'.
Proof. intros [] C. split; by rewrite (cl_km _ _ _ _ C). Qed.

Lemma unmap_page_spec own s root a : space own s root →
  let s' := (unmap_into root a s).2 in
  cleared own s root s' ∧
  (walk s' root (path a) = match walk s root (path a) with Some (_, []) => None | w => w end) ∧
  (∀ v, path v ≠ path a → walk s' root (path v) = walk s root (path v)).
Proof.
  intros Hsp s'. pose proof (unmap_walk s root a (sp_tree _ _ _ Hsp)) as H. unfold s'.
  destruct (unmap_into root a s) as [[p|e] s1]; cbn [snd].
  - destruct H as (pt & e & Hd & Hw & He & -> & ->). destruct (leaf_set own s root a pt 0 Hsp Hd) as (L1 & L2 & L3 & L4).
    rewrite Hw. split; [split|split].
    + done.
    + done.
    + intros t. split; intros (q & Hq & Hx); exists q; (split; [done|]); rewrite <- Hx; [symmetry|]; by apply L4.
    + intros t Ht. unfold set_entry. rewrite page_of_set, decide_False; [done|]. intros <-. apply Ht. eexists. split; [|exact Hd]. cbn. lia.
    + pose proof (leaf_xlate _ root a pt L2) as Hx. rewrite entry_set, decide_True in Hx by done. by apply walk_none_xlate.
    + intros v Hne. by apply L3.
  - destruct H as [-> Hw]. split; [by split|]. split; [|done].
    destruct (walk s root (path a)) as [[x [|]]|] eqn:E; [by destruct (Hw x)|done|done].
Qed.

Lemma unmap_run_spec n own s root a :
  0 ≤ a → a + 4096 * Z.of_nat n ≤ 2 ^ 48 → space own s root →
  let s' := unmap_run n root a s in
  cleared own s root s' ∧
  (∀ i, 0 ≤ i < Z.of_nat n → walk s' root (path (a + 4096 * i)) = match walk s root (path (a + 4096 * i)) with Some (_, []) => None | w => w end) ∧
  (∀ v, ¬ in_pages a n v → walk s' root (path v) = walk s root (path v)).
Proof.
  revert s a; induction n as [|n IH]; intros s a H0 Hn Hsp s'; unfold s'; cbn [unmap_run].
  { split; [by split|]. split; [lia|done]. }
  destruct (unmap_page_spec own s root a Hsp) as ([C1 C2 C3 C4] & W1 & K1). set (s1 := (unmap_into root a s).2) in *.
  destruct (IH s1 (a + 4096) ltac:(lia) ltac:(lia) C2) as ([D1 D2 D3 D4] & W2 & K2). set (s2 := unmap_run n root (a + 4096) s1) in *.
  split; [split|split].
  - by rewrite D1.
  - done.
  - intros t. by rewrite D3, C3.
  - intros t Ht. rewrite D4 by (by rewrite C3). by apply C4.
  - intros i Hi. destruct (decide (i = 0)) as [->|].
    + rewrite Z.mul_0_r, Z.add_0_r, K2; [done|]. by apply (run_head_out a n).
    + replace (a + 4096 * i) with (a + 4096 + 4096 * (i - 1)) by lia. rewrite W2 by lia. rewrite K1; [done|]. apply (run_tail_ne a n); lia.
  - intros v Hv. apply run_out in Hv as [? ?]. rewrite K2 by done. by apply K1.
Qed.

(** Unmapping a run that was just mapped. *)
Lemma unmap_mapped n own s root a w :
  0 ≤ a → a + 4096 * Z.of_nat n ≤ 2 ^ 48 → space own s root →
  (∀ i, 0 ≤ i < Z.of_nat n → PagingMap.mapped s root (a + 4096 * i) (w i) ∧ present (w i) = true) →
  let s' := unmap_run n root a s in
  cleared own s root s' ∧ (∀ v, in_pages a n v → xlate s' root v = None) ∧ (∀ v, ¬ in_pages a n v → xlate s' root v = xlate s root v).
Proof.
  intros H0 Hn Hsp Hm s'. destruct (unmap_run_spec n own s root a H0 Hn Hsp) as (C & W & K). split; [exact C|]. split.
  - intros v (i & Hi & E). apply walk_none_xlate. unfold s'. rewrite E, W by done. destruct (Hm i Hi) as [H1 H2].
    by rewrite (proj2 (walk_mapped s root _ (w i)) (conj H1 H2)).
  - intros v Hv. unfold xlate. unfold s'. by rewrite K.
Qed.

(** The pages of a hole. *)
Lemma hole_pages a n v : 0 ≤ a → a mod 4096 = 0 → a + 4096 * Z.of_nat n ≤ 2 ^ 48 → 0 ≤ v < 2 ^ 48 → in_pages a n v ↔ a ≤ v < a + 4096 * Z.of_nat n.
Proof. apply elf_pages_range. Qed.

(** ** Taking a page *)

Lemma alloc_plain own s root phys k :
  mem_ok own s → space own s root → alloc 0 (km s) = (Some phys, k) →
  let s0 := set_km k s in
  phys ∉ own ∧ ¬ outside (km s) phys ∧ page_addr phys ∧ ¬ reach s root phys ∧ grown own s root (phys :: own) s0 ∧
  (∀ v, walk s0 root (path v) = walk s root (path v)) ∧ (∀ v w, PagingMap.mapped s root v w → PagingMap.mapped s0 root v w).
Proof.
  intros [Hh Hlow] Hsp Ha s0. pose proof (alloc_raw_region _ _ _ _ Hh Ha) as Hreg. pose proof (holds_alloc_raw _ _ _ _ Hh Ha) as Hh'. cbn in Hh'.
  destruct (alloc_fresh (km s) own phys k Hh Ha) as [Hno Hnout]. assert (low_mem k) as Hlow' by (by apply (low_region (km s))).
  destruct (holds_managed k (phys :: own) phys Hh' ltac:(apply list_elem_of_here)) as [_ Hpa]. specialize (Hpa Hlow').
  assert (¬ reach s root phys) as Hnr by (intros Hr; destruct (sp_own _ _ _ Hsp phys Hr); done).
  assert (∀ t, reach s0 root t ↔ reach s root t) as Hr0 by (intros t; by apply reach_frames).
  split_and!; [done|done|done|done| | |].
  - split; [by split|apply (space_more own); [set_solver|by apply space_km]|exact Hreg|set_solver|done|].
    intros t _ Hn. by rewrite Hr0.
  - intros v. by apply frames_walk.
  - intros v w (pt & Hd & He). exists pt. split; [|exact He]. rewrite <- Hd. by apply frames_walk.
Qed.

Lemma grown_set_page own s root own' s' phys f :
  grown own s root own' s' → ¬ reach s' root phys → (∀ t, t ∈ own ∨ outside (km s) t → t ≠ phys) →
  grown own s root own' (set_page phys f s').
Proof.
  intros [[G1 G1'] G2 G3 G4 G5 G6] Hn Hne. split; [by split|by apply set_page_space|done|done| |].
  - intros t Ht Hr. rewrite page_of_set, decide_False; [by apply G5|]. intros <-. by apply (Hne phys).
  - intros t Ht Hr. rewrite set_page_reach by done. by apply G6.
Qed.

(** ** Checking *)

(** A leaf the user may use, for writing too when [ww] is set. *)
Definition usable (s : pmem) (root v : Z) (ww : bool) : Prop :=
  ∃ e, PagingMap.mapped s root v e ∧ present e = true ∧ user e = true ∧ (ww = true → writable e = true).

Lemma demand_spec own c v vs s :
  mem_ok own s → space own s (c_pml4 c) → 0 ≤ v →
  let '(r, s') := handle_demand_page (c_id c) (c_pml4 c) v vs s in
  ∃ own', grown own s (c_pml4 c) own' s' ∧
    (∀ v' w, path v' ≠ path v → PagingMap.mapped s (c_pml4 c) v' w → PagingMap.mapped s' (c_pml4 c) v' w) ∧
    (∀ v', path v' ≠ path v ∨ r = false → xlate s' (c_pml4 c) v' = xlate s (c_pml4 c) v') ∧
    (r = true → ∃ rec, vma_find (c_pml4 c) v vs = Some rec ∧ leafd own own' s' (c_pml4 c) v (v_flags rec) ∅).
Proof.
  intros Hm Hsp Hv. unfold handle_demand_page. set (root := c_pml4 c) in *.
  destruct (c_id c =? 0)%nat; [exists own; split; [by apply grown_refl|by split_and!]|].
  destruct (vma_find root v vs) as [rec|] eqn:Hrec; [|exists own; split; [by apply grown_refl|by split_and!]].
  assert (path (Z.ldiff v 0xFFF) = path v) as Hpath.
  { rewrite page_floor by done. apply path_same; [pose proof (Z.div_pos v 4096); lia|done|]. by rewrite Z.mul_comm, Z.div_mul. }
  destruct (alloc 0 (km s)) as [[phys|] k] eqn:Ha.
  2: { exists own. split; [apply grown_km; [|by eapply (alloc_raw_region (km s) own None); [apply Hm|]|done]|].
       - destruct Hm as [Hh Hl]. split; [exact (holds_alloc_raw _ _ _ _ Hh Ha)|]. apply (low_region (km s)); [|done]. exact (alloc_raw_region _ _ _ _ Hh Ha).
       - split; [|split; [|done]].
         + intros v' w _ (pt & Hd & He). exists pt. split; [|exact He]. rewrite <- Hd. by apply frames_walk.
         + intros v' _. unfold xlate. by rewrite (proj2 (frames_walk s (set_km k s) root (path v') eq_refl)). }
  destruct (alloc_plain own s root phys k Hm Hsp Ha) as (N1 & N2 & N3 & N4 & G0 & W0 & M0).
  assert (¬ reach (set_km k s) root phys) as Hn0 by (by rewrite (reach_frames s)).
  assert (grown own s root (phys :: own) (zero_frame phys (set_km k s))) as G1.
  { apply grown_set_page; [done|done|]. intros t Ht ->. by destruct Ht. }
  pose proof (map_into_grown (phys :: own) _ root (Z.ldiff v 0xFFF) phys (v_flags rec) (gr_mem _ _ _ _ _ G1) (gr_space _ _ _ _ _ G1)) as H.
  destruct (map_into _ _ _ _ _) as [r s2]. destruct H as (o & G2 & K2 & X2). rewrite Hpath in *.
  assert (∀ v', xlate (zero_frame phys (set_km k s)) root v' = xlate s root v') as X0.
  { intros v'. unfold xlate. rewrite <- W0. unfold zero_frame. by rewrite (proj2 (set_page_walks (set_km k s) root phys ∅ Hn0 (path v') (le_n 4))). }
  assert (∀ v' w, path v' ≠ path v → PagingMap.mapped s root v' w → PagingMap.mapped s2 root v' w) as HM.
  { intros v' w Hne Hmp. apply K2; [done|]. apply set_page_mapped; [done|]. by apply M0. }
  pose proof (grown_trans _ _ _ _ _ _ _ G1 G2) as G.
  destruct r as [[]|e]; exists o; (split; [exact G|]); (split; [exact HM|]).
  - destruct X2 as [L2 X2]. split; [intros v' [Hne|]; [by rewrite X2, X0|done]|]. intros _. exists rec. split; [done|]. exists phys.
    assert (¬ reach (zero_frame phys (set_km k s)) root phys) as Hn1 by (unfold zero_frame; by rewrite set_page_reach).
    split; [done|]. split; [apply (gr_own _ _ _ _ _ G2), list_elem_of_here|].
    split; [apply (gr_reach _ _ _ _ _ G2); [left; apply list_elem_of_here|done]|]. split; [done|]. split; [by eapply mapped_path|].
    rewrite (gr_frame _ _ _ _ _ G2) by (try left; try apply list_elem_of_here; done). unfold zero_frame. by rewrite page_of_set, decide_True.
  - split; [intros v' _; by rewrite X2, X0|done].
Qed.

(** ** What the calls promise *)

#[local] Opaque MAX_VMA_RECORDS.

(** What a check leaves of the space. *)
Record checked (own : list Z) (s : pmem) (root : Z) (own' : list Z) (s' : pmem) : Prop := {
  ck_grown : grown own s root own' s';
  ck_keep : ∀ v w, present w = true → PagingMap.mapped s root v w → PagingMap.mapped s' root v w;
}.

Lemma checked_trans own s root o1 s1 o2 s2 : checked own s root o1 s1 → checked o1 s1 root o2 s2 → checked own s root o2 s2.
Proof. intros [A1 A2] [B1 B2]. split; [by eapply grown_trans|]. intros v w Hw Hm. apply B2; [done|]. by apply A2. Qed.

Lemma leafd_kept old own s root own' s' v fl f : checked own s root own' s' → leafd old own s root v fl f → leafd old own' s' root v fl f.
Proof.
  intros [G K] (p & P0 & P1 & P2 & P3 & P4 & P5). exists p. split; [done|]. split; [by apply (gr_own _ _ _ _ _ G)|].
  split; [by apply (gr_reach _ _ _ _ _ G); [left|]|]. split; [done|]. split.
  - apply K; [|done]. rewrite !present_lor. change (present PTE_PRESENT) with true. by rewrite !orb_true_r.
  - rewrite <- P5. by apply (gr_frame _ _ _ _ _ G); [left|].
Qed.

(** What becomes of the translation of [v] when the page [page] is checked. *)
Definition demanded (own own' : list Z) (s s' : pmem) (root : Z) (vs : pool) (page v : Z) : Prop :=
  path v = path page ∧ xlate s root v = None ∧ ∃ rec, vma_find root page vs = Some rec ∧ leafd own own' s' root v (v_flags rec) ∅.

Lemma usable_kept own s root o s' v ww : checked own s root o s' → usable s root v ww → usable s' root v ww.
Proof. intros C (e & He & Hp & H). exists e. split; [|done]. by apply (ck_keep _ _ _ _ _ C). Qed.

Lemma usable_path s root v v' ww : path v = path v' → usable s root v ww → usable s root v' ww.
Proof.
  unfold path. intros [= E1 E2 E3 E4] (e & (pt & Hd & He) & H). exists e. split; [|done]. exists pt.
  by rewrite <- E1, <- E2, <- E3, <- E4.
Qed.

Lemma small_kept s root s' v : (∀ w, PagingMap.mapped s root v w → PagingMap.mapped s' root v w) → xlate s' root v = xlate s root v → small s root v → small s' root v.
Proof.
  intros Hm Hx Hs e rest Hw. destruct (walk s root (path v)) as [[x r]|] eqn:E.
  - pose proof (Hs x r E) as ->. apply walk_mapped in E as [Hmap Hp].
    rewrite (proj2 (walk_mapped s' root v x) (conj (Hm _ Hmap) Hp)) in Hw. by injection Hw as _ <-.
  - apply walk_none_xlate in E. rewrite <- Hx in E. apply walk_none_xlate in E. congruence.
Qed.

(** A page that is there: the leaf the hardware finds. *)
Lemma resolved_leaf s root v x : tree s root → small s root v → resolve_phys s root v = Some x →
  ∃ e, PagingMap.mapped s root v e ∧ present e = true ∧ resolve_phys_flags s root v = Some (Z.lor (addr_of e) (Z.land v 0xFFF), e).
Proof.
  intros Ht Hsm Hr. destruct (walk s root (path v)) as [[e rest]|] eqn:E; [|by rewrite (walk_none_resolve s root v Ht E) in Hr].
  pose proof (Hsm e rest E) as ->. apply walk_mapped in E as [Hmap Hp]. exists e. split; [done|]. split; [done|]. by apply mapped_seen.
Qed.

Lemma user_page_valid_spec own c page ww vs s :
  mem_ok own s → space own s (c_pml4 c) → 0 ≤ page → small s (c_pml4 c) page →
  let '(r, s') := user_page_valid c page ww vs s in
  ∃ own', checked own s (c_pml4 c) own' s' ∧
    (∀ v, path v ≠ path page → small s (c_pml4 c) v → small s' (c_pml4 c) v) ∧
    (∀ v, xlate s' (c_pml4 c) v = xlate s (c_pml4 c) v ∨ demanded own own' s s' (c_pml4 c) vs page v) ∧
    (r = true → usable s' (c_pml4 c) page ww).
Proof.
  intros Hm Hsp H0 Hsm. unfold user_page_valid. set (root := c_pml4 c) in *.
  assert (∀ s e, PagingMap.mapped s root page e → present e = true →
    negb (Z.land e PTE_USER =? 0) && (negb ww || negb (Z.land e PTE_WRITABLE =? 0)) = true → usable s root page ww) as Huse.
  { intros s0 e He Hp [Hu Hw]%andb_prop. exists e. split; [done|]. split; [done|]. split; [exact Hu|]. intros ->. exact Hw. }
  destruct (resolve_phys s root page) as [x|] eqn:Hr.
  - destruct (resolved_leaf s root page x (sp_tree _ _ _ Hsp) Hsm Hr) as (e & He & Hp & ->).
    exists own. split; [split; [by apply grown_refl|done]|]. split; [done|]. split; [by left|]. by apply Huse.
  - pose proof (demand_spec own c page vs s Hm Hsp H0) as H. fold root in H.
    destruct (handle_demand_page _ _ _ _ _) as [r s1]. destruct H as (o & G & K & X & L).
    assert (∀ w, PagingMap.mapped s root page w → present w = true → False) as Hno.
    { intros w Hw Hp. destruct (mapped_seen s root page w Hw Hp) as [_ Hf]. unfold resolve_phys in Hr. by rewrite Hf in Hr. }
    assert (checked own s root o s1) as C.
    { split; [done|]. intros v w Hp Hw. destruct (decide (path v = path page)) as [E|]; [|by apply K]. exfalso. apply (Hno w); [|done].
      destruct Hw as (pt & Hd & He). exists pt. unfold path in E. injection E as E1 E2 E3 E4. by rewrite <- E1, <- E2, <- E3, <- E4. }
    assert (∀ v, path v ≠ path page → small s root v → small s1 root v) as Hsm1.
    { intros v Hne. apply small_kept; [intros w; by apply K|by apply X; left]. }
    assert (∀ v, xlate s1 root v = xlate s root v ∨ demanded own o s s1 root vs page v) as Hdem.
    { intros v. destruct (decide (path v = path page)) as [E|]; [|left; apply X; by left]. destruct r; [|left; apply X; by right].
      right. split; [done|]. split.
      - apply walk_none_xlate. rewrite E. destruct (walk s root (path page)) as [[w rest]|] eqn:Hw; [|done].
        pose proof (Hsm w rest Hw) as ->. apply walk_mapped in Hw as [Hw Hp]. by destruct (Hno w).
      - destruct (L eq_refl) as (rec & Hrec & Hl). exists rec. split; [done|]. by eapply leafd_path. }
    destruct r; [|by exists o]. destruct (L eq_refl) as (rec & _ & ph & _ & _ & _ & _ & He & _). set (e := Z.lor ph _) in He. unfold resolve_phys.
    pose proof He as (pt & Hd & Hent). rewrite (leaf_resolve s1 root page pt Hd), Hent. cbv zeta.
    destruct (present e) eqn:Hp; cbn [fmap option_fmap option_map fst]; exists o; (split; [done|]); (split; [done|]); (split; [done|]); [by apply Huse|done].
Qed.

Lemma user_pages_valid_spec n own c page ww vs s :
  mem_ok own s → space own s (c_pml4 c) → 0 ≤ page → page + 4096 * Z.of_nat n ≤ 2 ^ 48 →
  (∀ i, 0 ≤ i < Z.of_nat n → small s (c_pml4 c) (page + 4096 * i)) →
  let '(r, s') := user_pages_valid n c page ww vs s in
  ∃ own', checked own s (c_pml4 c) own' s' ∧
    (∀ v, xlate s' (c_pml4 c) v = xlate s (c_pml4 c) v ∨
       ∃ i, 0 ≤ i < Z.of_nat n ∧ demanded own own' s s' (c_pml4 c) vs (page + 4096 * i) v) ∧
    (r = true → ∀ i, 0 ≤ i < Z.of_nat n → usable s' (c_pml4 c) (page + 4096 * i) ww).
Proof.
  revert own page s; induction n as [|n IH]; intros own page s Hm Hsp H0 Hn Hsm; cbn [user_pages_valid].
  { exists own. split; [split; [by apply grown_refl|done]|]. split; [by left|lia]. }
  pose proof (Hsm 0 ltac:(lia)) as Hsm0. rewrite Z.mul_0_r, Z.add_0_r in Hsm0.
  pose proof (user_page_valid_spec own c page ww vs s Hm Hsp H0 Hsm0) as H. destruct (user_page_valid c page ww vs s) as [[] s1].
  2: { destruct H as (o & C & _ & X & _). exists o. split; [done|]. split; [|done]. intros v. destruct (X v) as [Hv|Hv]; [by left|right]. exists 0. split; [lia|]. by rewrite Z.mul_0_r, Z.add_0_r. }
  destruct H as (o1 & C1 & S1 & X1 & U1).
  assert (∀ i, page + 4096 * (i + 1) = page + 4096 + 4096 * i) as Hi1 by (intros; lia).
  pose proof (IH o1 (page + 4096) s1 (gr_mem _ _ _ _ _ (ck_grown _ _ _ _ _ C1)) (gr_space _ _ _ _ _ (ck_grown _ _ _ _ _ C1)) ltac:(lia) ltac:(lia)) as H2.
  destruct (user_pages_valid n c (page + 4096) ww vs s1) as [r s2].
  destruct H2 as (o2 & C2 & X2 & U2).
  { intros i Hi. apply S1; [by apply (run_tail_ne page n)|]. rewrite <- Hi1. apply Hsm. lia. }
  exists o2. split; [by eapply checked_trans|]. split.
  - intros v. destruct (X1 v) as [E1|(D1 & D2 & rec & D3 & D4)].
    + rewrite <- E1. destruct (X2 v) as [|(i & Hi & D1 & D2 & rec & D3 & D4)]; [by left|right]. exists (i + 1). split; [lia|]. rewrite Hi1.
      split; [done|]. split; [by rewrite <- E1|]. exists rec. split; [done|]. eapply leafd_old; [|exact D4]. apply (ck_grown _ _ _ _ _ C1).
    + right. exists 0. split; [lia|]. rewrite Z.mul_0_r, Z.add_0_r. split; [done|]. split; [done|]. exists rec. split; [done|]. by eapply leafd_kept.
  - intros Hr i Hi. destruct (decide (i = 0)) as [->|].
    + rewrite Z.mul_0_r, Z.add_0_r. eapply usable_kept; [exact C2|]. by apply U1.
    + replace i with (i - 1 + 1) by lia. rewrite Hi1. apply U2; [done|lia].
Qed.

(** A page that can be used passes, and nothing happens. *)
Lemma user_page_usable c page ww vs s : usable s (c_pml4 c) page ww → user_page_valid c page ww vs s = (true, s).
Proof.
  intros (e & He & Hp & Hu & Hw). destruct (mapped_seen s (c_pml4 c) page e He Hp) as [_ Hf]. unfold user_page_valid, resolve_phys. rewrite Hf.
  cbv [fmap option_fmap option_map fst]. rewrite ?Hf. change (negb (Z.land e PTE_USER =? 0)) with (user e). change (negb (Z.land e PTE_WRITABLE =? 0)) with (writable e).
  rewrite Hu. destruct ww; [by rewrite Hw|done].
Qed.

Lemma user_pages_usable n c page ww vs s : (∀ i, 0 ≤ i < Z.of_nat n → usable s (c_pml4 c) (page + 4096 * i) ww) →
  user_pages_valid n c page ww vs s = (true, s).
Proof.
  revert page; induction n as [|n IH]; intros page Hu; [done|]. cbn [user_pages_valid]. rewrite user_page_usable.
  - apply IH. intros i Hi. replace (page + 4096 + 4096 * i) with (page + 4096 * (i + 1)) by lia. apply Hu. lia.
  - specialize (Hu 0 ltac:(lia)). by rewrite Z.mul_0_r, Z.add_0_r in Hu.
Qed.

(** C29: A user range that passes the check can be used, and one that can be
    used passes.  No large page is mapped in the range.  After
    [user_range_valid] answers true for [addr, addr + len), every address of
    the range is mapped by a present leaf for user mode, writable when writing
    was asked for.  Whatever the answer, every leaf that was present stays as it
    was, and pages that were held and are no tables keep their contents; the
    translation of an address stays as it was, or the address lies on a page of
    the range, had no translation, the first address of its page lies in a
    recorded range of this address space, and it is now mapped with the flags
    of that record to a page nobody held, which holds zeros.  A range of user
    addresses that could all be used before passes, and nothing changes. *)
Theorem user_range_valid_sound own c addr len ww vs s :
  mem_ok own s → space own s (c_pml4 c) → 0 ≤ addr → 0 ≤ len →
  let page := Z.ldiff addr 0xFFF in
  let n := range_pages addr (addr + len) in
  (∀ v, page ≤ v < page + 4096 * Z.of_nat n → small s (c_pml4 c) v) →
  let '(r, s') := user_range_valid c addr len ww vs s in
  (∃ own', checked own s (c_pml4 c) own' s' ∧
     (∀ v, 0 ≤ v < 2 ^ 48 →
        xlate s' (c_pml4 c) v = xlate s (c_pml4 c) v ∨
        page ≤ v < page + 4096 * Z.of_nat n ∧ xlate s (c_pml4 c) v = None ∧
        ∃ rec p, vma_find (c_pml4 c) (Z.ldiff v 0xFFF) vs = Some rec ∧ p ∉ own ∧ p ∈ own' ∧ page_of s' p = ∅ ∧
          PagingMap.mapped s' (c_pml4 c) v (Z.lor p (Z.lor (v_flags rec) PTE_PRESENT)))) ∧
  (r = true → ∀ v, addr ≤ v < addr + len → usable s' (c_pml4 c) v ww) ∧
  (addr + len ≤ 2 ^ 47 → addr < 2 ^ 47 → c_pml4 c ≠ 0 → (∀ v, addr ≤ v < addr + len → usable s (c_pml4 c) v ww) → r = true ∧ s' = s).
Proof.
  intros Hm Hsp H0 Hl page n Hsm. unfold user_range_valid.
  assert (∃ own', checked own s (c_pml4 c) own' s ∧ ∀ v, 0 ≤ v < 2 ^ 48 →
        xlate s (c_pml4 c) v = xlate s (c_pml4 c) v ∨
        page ≤ v < page + 4096 * Z.of_nat n ∧ xlate s (c_pml4 c) v = None ∧
        ∃ rec p, vma_find (c_pml4 c) (Z.ldiff v 0xFFF) vs = Some rec ∧ p ∉ own ∧ p ∈ own' ∧ page_of s p = ∅ ∧
          PagingMap.mapped s (c_pml4 c) v (Z.lor p (Z.lor (v_flags rec) PTE_PRESENT))) as Hid.
  { exists own. split; [split; [by apply grown_refl|done]|]. by left. }
  destruct (Z.eqb_spec len 0) as [->|Hne]; [split_and!; [done|lia|done]|].
  destruct (Z.leb_spec (2 ^ 64) (addr + len)); [split_and!; [done|done|lia]|].
  destruct (is_user_addr addr) eqn:Hu1; cbn [negb orb]; [|split_and!; [done|done|]; intros _ Hlt; unfold is_user_addr in Hu1; apply Z.ltb_ge in Hu1; lia].
  destruct (is_user_addr (addr + len - 1)) eqn:Hu2; cbn [negb]; [|split_and!; [done|done|]; intros Hlt; unfold is_user_addr in Hu2; apply Z.ltb_ge in Hu2; lia].
  destruct (Z.eqb_spec (c_pml4 c) 0); [by split_and!|].
  unfold is_user_addr in Hu2. apply Z.ltb_lt in Hu2. change 0x800000000000 with (2 ^ 47) in Hu2.
  assert (page = 4096 * (addr / 4096)) as Hpage by (by apply page_floor).
  pose proof (Z.div_mod addr 4096 ltac:(lia)). pose proof (Z.mod_pos_bound addr 4096 ltac:(lia)).
  assert (0 ≤ page) as Hp0 by (rewrite Hpage; pose proof (Z.div_pos addr 4096); lia).
  assert (page mod 4096 = 0) as Hpm by (rewrite Hpage, Z.mul_comm; by apply Z.mod_mul).
  set (q := (addr + len - page + 0xFFF) / 4096).
  pose proof (Z.div_mod (addr + len - page + 0xFFF) 4096 ltac:(lia)). pose proof (Z.mod_pos_bound (addr + len - page + 0xFFF) 4096 ltac:(lia)). fold q in H2.
  assert (Z.of_nat n = q) as Hnq by (unfold n, range_pages; fold page; change 0x1000 with 4096; fold q; lia).
  assert (page + 4096 * Z.of_nat n ≤ 2 ^ 48) as Hb by lia.
  pose proof (user_pages_usable n c page ww vs s) as Hall.
  pose proof (user_pages_valid_spec n own c page ww vs s Hm Hsp Hp0 Hb) as H'. fold page n.
  destruct (user_pages_valid n c page ww vs s) as [r s']. destruct H' as (o & C & X & U); [intros i Hi; apply Hsm; lia|].
  assert (∀ v, 0 ≤ v < 2 ^ 48 → in_pages page n v ↔ page ≤ v < page + 4096 * Z.of_nat n) as Hin by (intros v Hv; by apply hole_pages).
  split; [exists o; split; [done|]|split].
  - intros v Hv. destruct (X v) as [|(i & Hi & E & Hnone & rec & Hrec & p & P0 & P1 & _ & _ & P4 & P5)]; [by left|right].
    assert (v / 4096 = (page + 4096 * i) / 4096) as Hdiv by (apply path_inj; [done|lia|done]).
    assert (Z.ldiff v 0xFFF = page + 4096 * i) as Hfl.
    { rewrite page_floor, Hdiv by lia. rewrite Hpage. replace (4096 * (addr / 4096) + 4096 * i) with ((addr / 4096 + i) * 4096) by lia.
      rewrite Z.div_mul by lia. lia. }
    split; [apply Hin; [done|by exists i]|]. split; [done|]. exists rec, p. by rewrite Hfl.
  - intros Hr v Hv. destruct (proj2 (Hin v ltac:(lia)) ltac:(lia)) as (i & Hi & E). eapply usable_path; [symmetry; exact E|]. by apply U.
  - intros _ _ _ Hu. assert ((r, s') = (true, s)) as [= -> ->]; [|done]. apply Hall. intros i Hi.
    apply (usable_path s _ (Z.max addr (page + 4096 * i))); [|apply Hu; lia].
    apply path_same; [lia|lia|]. rewrite Hpage. replace (4096 * (addr / 4096) + 4096 * i) with ((addr / 4096 + i) * 4096) by lia.
    rewrite Z.div_mul by lia. symmetry. apply (Z.div_unique _ _ _ (Z.max addr ((addr / 4096 + i) * 4096) - 4096 * (addr / 4096 + i))); lia.
Qed.

(** ** Holes and records *)

Lemma drv_hole pml4 size vs :
  0 < size ≤ DRV_LIMIT → (∀ r, r ∈ vs → v_end (r_vma r) < 2 ^ 62 ∧ v_end (r_vma r) mod 4096 = 0) →
  ∃ res, find_hole_below DRV_LIMIT (S (length vs)) pml4 DRV_BASE size vs = Done res ∧
    match res with
    | Some x => DRV_BASE ≤ x ∧ x + size ≤ DRV_LIMIT ∧ x mod 4096 = 0 ∧ (∀ r, r ∈ vs → overlaps pml4 x (x + size) r = false)
    | None => ∀ y, DRV_BASE ≤ y → y + size ≤ DRV_LIMIT → ∃ x, x ∈ vs ∧ overlaps pml4 y (y + size) x = true
    end.
Proof.
  intros Hs Hends.
  destruct (find_hole_below_spec DRV_LIMIT (S (length vs)) pml4 DRV_BASE size vs) as (res & Hrun & H);
    [unfold DRV_LIMIT; lia|done|unfold DRV_BASE; lia|by intros r Hr; apply Hends| |].
  - unfold ahead. pose proof (length_filter (λ r, DRV_BASE < v_end (r_vma r)) vs). lia.
  - exists res. split; [done|]. destruct res as [x|]; [|exact H]. destruct H as (H1 & H2 & H3 & H4). split; [done|]. split; [done|]. split; [|done].
    destruct (decide (x = DRV_BASE)) as [->|Hne]; [done|]. destruct (H4 (x - 1) ltac:(lia)) as (r & Hr & Ho).
    specialize (H3 r Hr). apply overlaps_spec in Ho as (P1 & P2 & P3). apply not_true_iff_false in H3. rewrite overlaps_spec in H3.
    replace x with (v_end (r_vma r)); [by apply Hends|]. lia.
Qed.

(** An address on a page. *)
Lemma lor_page p v : page_addr p → Z.lor p (Z.land v 0xFFF) = p + v mod 4096.
Proof.
  intros Hp. change 4096 with (2 ^ 12). rewrite <- Z.land_ones by lia. change (Z.ones 12) with 0xFFF.
  assert (Z.land p (Z.land v 0xFFF) = 0) as H0.
  { rewrite (Z.land_comm v), Z.land_assoc. rewrite (page_addr_flags p 0xFFF Hp) by done. apply Z.land_0_l. }
  by rewrite <- Z.lxor_lor, <- Z.add_nocarry_lxor.
Qed.

(** The leaves of a run mapped with user flags. *)
Lemma run_leaf s root a k phys fl v :
  0 ≤ a → a mod 4096 = 0 → a + 4096 * Z.of_nat k ≤ 2 ^ 48 → 0 ≤ phys → phys mod 4096 = 0 → phys + 4096 * Z.of_nat k ≤ 2 ^ 52 →
  addr_of fl = 0 → user fl = true → writable fl = true →
  (∀ i, 0 ≤ i < Z.of_nat k → PagingMap.mapped s root (a + 4096 * i) (Z.lor (w64 (phys + 4096 * i)) (Z.lor fl PTE_PRESENT))) →
  a ≤ v < a + 4096 * Z.of_nat k → xlate s root v = Some (phys + (v - a)) ∧ usable s root v true.
Proof.
  intros H0 Ha Hb Hp0 Hpm Hpb Hfl Hu Hw Hmap Hv.
  destruct (proj2 (hole_pages a k v H0 Ha Hb ltac:(lia)) Hv) as (i & Hi & E). specialize (Hmap i Hi).
  assert (4096 * i ≤ v - a < 4096 * i + 4096) as Hiv.
  { apply path_inj in E; [|lia|lia]. rewrite page_div in E. pose proof (Z.div_mod v 4096 ltac:(lia)). pose proof (Z.mod_pos_bound v 4096 ltac:(lia)).
    pose proof (Z.div_mod a 4096 ltac:(lia)). lia. }
  rewrite w64_small in Hmap by lia. set (p := phys + 4096 * i) in *.
  assert (page_addr p) as Hpa.
  { apply page_addr_intro; [lia|]. apply Z.mod_divide; [lia|]. unfold p. by rewrite Z.mul_comm, Z.mod_add. }
  set (e := Z.lor p (Z.lor fl PTE_PRESENT)) in *.
  assert (present e = true) as He by (unfold e; rewrite !present_lor; change (present PTE_PRESENT) with true; by rewrite !orb_true_r).
  assert (PagingMap.mapped s root v e) as Hmv.
  { destruct Hmap as (pt & Hd & Hent). exists pt. unfold path in E. injection E as E1 E2 E3 E4. by rewrite E1, E2, E3, E4. }
  split.
  - rewrite (xlate_mapped s root v e Hmv He). unfold e. rewrite page_flags_addr, lor_page by done. f_equal.
    replace (v mod 4096) with (v - a - 4096 * i); [unfold p; lia|]. apply (Z.mod_unique v 4096 (a / 4096 + i)); [lia|].
    pose proof (Z.div_mod a 4096 ltac:(lia)). lia.
  - exists e. split; [done|]. split; [done|]. unfold user, writable in *. apply negb_true_iff, Z.eqb_neq in Hu, Hw.
    split; [|intros _]; unfold e; apply negb_true_iff, Z.eqb_neq; apply land_lor_ne; rewrite Z.lor_comm; by apply land_lor_ne.
Qed.

(** The length of a request, in whole pages. *)
Lemma page_up n : 0 ≤ n → let len := Z.ldiff (n + 0xFFF) 0xFFF in n ≤ len < n + 4096 ∧ len mod 4096 = 0.
Proof.
  intros Hn. cbn zeta. rewrite page_floor by lia. pose proof (Z.div_mod (n + 0xFFF) 4096 ltac:(lia)).
  pose proof (Z.mod_pos_bound (n + 0xFFF) 4096 ltac:(lia)). split; [lia|]. rewrite Z.mul_comm. by apply Z.mod_mul.
Qed.

(** Mapping device memory.  A privileged [sys_phys_map] of a page-aligned
    range returns.  On success the address lies in the driver window, no record
    of the address space touches the new range, which is the only addition to
    the records, and every address of it translates to the corresponding
    physical address through a leaf the user may write, all others translating
    as before.  When it fails with ENOMEM the records are unchanged and every
    address translates as before or, in the driver window, not at all: no part
    of the physical range stays mapped by the attempt.  Pages held by anyone
    keep their contents. *)
Theorem phys_map_maps own c phys size m :
  mem_ok own (tabs m) → space own (tabs m) (c_pml4 c) → have_priv c PRIV_PHYS_MAP = true → c_pml4 c ≠ 0 →
  0 < phys → phys mod 4096 = 0 → 0 < size ≤ 2 ^ 32 → phys + size ≤ 2 ^ 51 → (∀ r, r ∈ vmas m → v_end (r_vma r) < 2 ^ 62 ∧ v_end (r_vma r) mod 4096 = 0) →
  let len := Z.ldiff (size + 0xFFF) 0xFFF in let root := c_pml4 c in
  ∃ r m' own', sys_phys_map c phys size m = Done (r, m') ∧ grown own (tabs m) root own' (tabs m') ∧ size ≤ len < size + 4096 ∧
  ((DRV_BASE ≤ r ∧ r + len ≤ DRV_LIMIT ∧ (∀ x, x ∈ vmas m → overlaps root r (r + len) x = false) ∧
    (∀ p a, p ≠ 0 → VmaClaims.mapped (vmas m') p a ↔ VmaClaims.mapped (vmas m) p a ∨ (p = root ∧ r ≤ a < r + len)) ∧
    (∀ v, r ≤ v < r + len → xlate (tabs m') root v = Some (phys + (v - r)) ∧ usable (tabs m') root v true) ∧
    (∀ v, 0 ≤ v < 2 ^ 48 → ¬ (r ≤ v < r + len) → xlate (tabs m') root v = xlate (tabs m) root v)) ∨
   (r = - ENOMEM ∧ vmas m' = vmas m ∧
    ∀ v, 0 ≤ v < 2 ^ 48 → xlate (tabs m') root v = xlate (tabs m) root v ∨ (DRV_BASE ≤ v < DRV_LIMIT ∧ xlate (tabs m') root v = None))).
Proof.
  intros Hm Hsp Hpriv Hp0 Hph Hpm Hs Hpb Hends len root. destruct (page_up size ltac:(lia)) as [Hlen Hlm]. fold len in Hlen, Hlm.
  assert (c_id c ≠ 0%nat) as Hid by (unfold have_priv in Hpriv; by destruct (Nat.eqb_spec (c_id c) 0)).
  unfold sys_phys_map. rewrite (proj2 (Nat.eqb_neq (c_id c) 0)) by done. rewrite Hpriv. cbn [negb].
  rewrite (proj2 (Z.eqb_neq phys 0)), (proj2 (Z.eqb_neq size 0)), (proj2 (Z.ltb_ge 0x100000000 size)) by lia. cbn [orb]. fold len root.
  assert (∃ n, Z.to_nat (len / 0x1000) = n ∧ 4096 * Z.of_nat n = len) as (n & Hn & Hlen').
  { eexists. split; [done|]. pose proof (Z.div_mod len 4096 ltac:(lia)). rewrite Z2Nat.id; [lia|]. apply Z.div_pos; lia. }
  destruct (decide (len ≤ DRV_LIMIT)) as [Hll|Hll].
  2: { cbn [find_hole_below]. rewrite w64_small by (unfold DRV_BASE; lia). rewrite (proj2 (Z.leb_gt _ _)) by (unfold DRV_BASE; lia). cbn [cbind].
       eexists _, m, own. split; [done|]. split; [by apply grown_refl|]. split; [lia|]. right. split; [done|]. split; [done|]. by left. }
  destruct (drv_hole root len (vmas m) ltac:(lia) Hends) as (res & -> & Hres). cbn [cbind]. destruct res as [a|].
  2: { eexists _, m, own. split; [done|]. split; [by apply grown_refl|]. split; [lia|]. right. split; [done|]. split; [done|]. by left. }
  destruct Hres as (R1 & R2 & R3 & R4). rewrite Hn.
  assert (0 ≤ a ∧ a + len ≤ 2 ^ 47) as [Ha0 Hab] by (unfold DRV_BASE, DRV_LIMIT in *; lia).
  pose proof (map_run_spec n own (tabs m) root a phys PHYS_FLAGS Ha0 ltac:(lia) Hm Hsp) as H.
  destruct (map_run n root a phys PHYS_FLAGS (tabs m)) as [k s1]. destruct H as (Hk & own1 & G & L & _ & X).
  assert (∀ j, (j ≤ n)%nat → ∀ v, 0 ≤ v < 2 ^ 48 → in_pages a j v ↔ a ≤ v < a + 4096 * Z.of_nat j) as Hin by (intros j Hj v Hv; apply hole_pages; lia).
  assert (∀ s2, cleared own1 s1 root s2 → grown own (tabs m) root own1 s2) as Hgr.
  { intros s2 C. destruct G as [G1 G2 G3 G4 G5 G6], C as [C1 C2 C3 C4]. split; [split; rewrite C1; apply G1|done|by rewrite C1|done| |].
    - intros t Ht Hr. rewrite C4 by (by apply G6). by apply G5.
    - intros t Ht Hr. rewrite C3. by apply G6. }
  assert (∀ s2 j, j = k → s2 = unmap_run j root a s1 → grown own (tabs m) root own1 s2 ∧
    ∀ v, 0 ≤ v < 2 ^ 48 → xlate s2 root v = xlate (tabs m) root v ∨ (DRV_BASE ≤ v < DRV_LIMIT ∧ xlate s2 root v = None)) as Hback.
  { intros s2 j -> ->. destruct (unmap_mapped k own1 s1 root a (λ i, Z.lor (w64 (phys + 4096 * i)) (Z.lor PHYS_FLAGS PTE_PRESENT)) Ha0 ltac:(lia)
      (gr_space _ _ _ _ _ G)) as (C & N & K).
    { intros i Hi. split; [by apply L|]. rewrite !present_lor. change (present PTE_PRESENT) with true. by rewrite !orb_true_r. }
    split; [by apply Hgr|]. intros v Hv. destruct (decide (a ≤ v < a + 4096 * Z.of_nat k)) as [D|D].
    - right. split; [lia|]. apply N. by apply (Hin k Hk v Hv).
    - left. assert (¬ in_pages a k v) as Hni by (by rewrite (Hin k Hk v Hv)). by rewrite K, X. }
  destruct (Nat.eqb_spec k n) as [->|Hne]; cbn [negb].
  2: { destruct (Hback _ k eq_refl eq_refl) as [HG HX]. eexists _, _, own1. split; [done|]. split; [exact HG|]. split; [lia|]. right. by split. }
  pose proof (register_spec root a (a + len) PHYS_FLAGS (vmas m)) as Hreg.
  destruct (vma_register root a (a + len) PHYS_FLAGS (vmas m)) as [[] vs'].
  - eexists _, _, own1. split; [done|]. split; [exact G|]. split; [lia|]. left. split; [done|]. split; [done|]. split; [exact R4|]. split; [exact Hreg|].
    cbn [tabs set_vmas set_tabs]. split.
    + intros v Hv. apply (run_leaf s1 root a n phys PHYS_FLAGS v); done || lia.
    + intros v Hv Hout. apply X. rewrite (Hin n ltac:(lia) v Hv). lia.
  - destruct Hreg as (-> & _). destruct (Hback _ n eq_refl eq_refl) as [HG HX]. eexists _, _, own1. split; [done|]. split; [exact HG|]. split; [lia|]. right. by split.
Qed.

(** ** DMA buffers *)

Lemma dma_pack_parts p a : 0 ≤ a < 2 ^ 32 → 0 ≤ p < 2 ^ 43 → p mod 4096 = 0 →
  let r := as_i64 (dma_pack p a) in
  r = dma_pack p a ∧ 0 ≤ r ∧ Z.land r 0xFFFFFFFF = a ∧ Z.land (Z.shiftr r 32) 0xFFFFFFFF = p / 4096 ∧ Z.shiftl (p / 4096) 12 = p.
Proof.
  intros Ha Hp Hm. unfold dma_pack. rewrite (Z.shiftr_div_pow2 p) by lia. change (2 ^ 12) with 4096.
  assert (0 ≤ p / 4096 < 2 ^ 31) as Hq by (split; [apply Z.div_pos; lia|apply Z.div_lt_upper_bound; lia]). set (q := p / 4096) in *.
  assert (∀ x, 0 ≤ x < 2 ^ 32 → Z.land x 0xFFFFFFFF = x) as Hl by (intros x Hx; change 0xFFFFFFFF with (Z.ones 32); rewrite Z.land_ones by lia; by apply Z.mod_small).
  rewrite (Hl q), (Hl a) by lia.
  assert (Z.lor (Z.shiftl q 32) a = q * 2 ^ 32 + a) as ->.
  { rewrite Z.shiftl_mul_pow2 by lia. assert (Z.land (q * 2 ^ 32) a = 0) as H0.
    { rewrite <- (Hl a) by done. change 0xFFFFFFFF with (Z.ones 32). rewrite (Z.land_comm a), Z.land_assoc, Z.land_ones by lia.
      rewrite Z.mod_mul by lia. apply Z.land_0_l. }
    by rewrite <- Z.lxor_lor, <- Z.add_nocarry_lxor. }
  assert (as_i64 (q * 2 ^ 32 + a) = q * 2 ^ 32 + a) as -> by (unfold as_i64; destruct (Z.ltb_spec (q * 2 ^ 32 + a) (2 ^ 63)); lia).
  split; [done|]. split; [lia|]. split; [|split].
  - change 0xFFFFFFFF with (Z.ones 32). rewrite Z.land_ones by lia. rewrite Z.add_comm, Z.mod_add by lia. apply Z.mod_small. lia.
  - rewrite Z.shiftr_div_pow2 by lia. rewrite Z.div_add_l by lia. rewrite (Z.div_small a) by lia. rewrite Z.add_0_r. apply Hl. lia.
  - rewrite Z.shiftl_mul_pow2 by lia. change (2 ^ 12) with 4096. unfold q. pose proof (Z.div_mod p 4096 ltac:(lia)). lia.
Qed.

Lemma starts_spec p a r : starts_at p a r = true ↔ r_pml4 r = p ∧ v_start (r_vma r) = a.
Proof. unfold starts_at. by rewrite andb_true_iff, !Z.eqb_eq. Qed.

Lemma clear_addr_split p a l1 r l2 : (∀ x, x ∈ l1 → starts_at p a x = false) → starts_at p a r = true →
  list_find (λ r, starts_at p a r = true) (l1 ++ r :: l2) = Some (length l1, r) ∧ vma_clear_addr p a (l1 ++ r :: l2) = l1 ++ rec_none :: l2.
Proof.
  intros Hl Hr. induction l1 as [|x l1 IH]; cbn [app list_find vma_clear_addr].
  - fold (starts_at p a r). rewrite Hr. by rewrite decide_True.
  - fold (starts_at p a x). pose proof (Hl x ltac:(apply list_elem_of_here)) as Hx. rewrite Hx. rewrite decide_False by done.
    destruct IH as [IH1 IH2]; [intros y Hy; by apply Hl, list_elem_of_further|]. rewrite IH1, IH2. done.
Qed.

(** A record just registered is found and dropped again. *)
Lemma registered_found p a e f vs vs' : p ≠ 0 → (∀ x, x ∈ vs → starts_at p a x = false) → vma_register p a e f vs = (true, vs') →
  ∃ i, list_find (λ r, starts_at p a r = true) vs' = Some (i, mkVmaRec p (mkVma a e f)) ∧
    ∀ q y, q ≠ 0 → VmaClaims.mapped (vma_clear_addr p a vs') q y ↔ VmaClaims.mapped vs q y.
Proof.
  intros Hp Hn Hreg. unfold vma_register in Hreg. set (new := mkVmaRec p (mkVma a e f)) in *.
  assert (starts_at p a new = true) as Hnew by (by apply starts_spec).
  pose proof (reuse_spec new vs) as Hr. destruct (reuse new vs) as [vs1|].
  - injection Hreg as <-. destruct Hr as (l1 & r & l2 & -> & Hf & ->).
    destruct (clear_addr_split p a l1 new l2) as [H1 H2]; [intros x Hx; apply Hn, elem_of_app; by left|done|].
    exists (length l1). split; [done|]. intros q y Hq. rewrite H2, !mapped_app, !mapped_cons.
    rewrite (free_unmapped q y rec_none), (free_unmapped q y r) by done. done.
  - destruct (length vs <? MAX_VMA_RECORDS)%nat; [|done]. injection Hreg as <-.
    destruct (clear_addr_split p a vs new [] Hn Hnew) as [H1 H2]. exists (length vs). split; [done|]. intros q y Hq.
    rewrite H2, mapped_app, mapped_cons, (free_unmapped q y rec_none) by done. pose proof (mapped_nil q y). naive_solver.
Qed.

(** C30: A DMA buffer comes and goes.  With memory below 8 TiB, records with
    aligned ends and none empty, a privileged [sys_dma_alloc] of one page
    returns.  It answers ENOMEM only without a free page, without a hole in the
    driver window, when mapping fails or without a free record, and the page it
    took has been given back.  Else its result packs a page nobody held,
    now zeroed, and an address in the driver window that no record touched; the
    address translates to the page for user writing.  Handing the result to
    [sys_dma_free] then succeeds: the page, in use until then, is unused and
    recorded as freed, the
    address translates to nothing, and all other addresses and the recorded
    ranges of every address space are what they were before the allocation. *)
Theorem dma_roundtrip own c pages_ m :
  mem_ok own (tabs m) → base (al (km (tabs m))) + pages (al (km (tabs m))) * 4096 ≤ 2 ^ 43 →
  space own (tabs m) (c_pml4 c) → have_priv c PRIV_DMA_ALLOC = true → c_pml4 c ≠ 0 → 0 ≤ pages_ ≤ 1 →
  (∀ r, r ∈ vmas m → v_end (r_vma r) < 2 ^ 62 ∧ v_end (r_vma r) mod 4096 = 0) →
  (∀ r, r ∈ vmas m → r_pml4 r = c_pml4 c → v_start (r_vma r) < v_end (r_vma r)) →
  let root := c_pml4 c in
  ∃ r m', sys_dma_alloc c pages_ m = Done (r, m') ∧
  ((r = - ENOMEM ∧
    let (o, k) := alloc 0 (km (tabs m)) in
    (o = None ∨ ∃ p, o = Some p ∧ given_back (km (tabs m')) p ∧
      ((∀ y, DRV_BASE ≤ y → y + 4096 ≤ DRV_LIMIT → ∃ x, x ∈ vmas m ∧ overlaps root y (y + 4096) x = true) ∨
       (∃ a e, DRV_BASE ≤ a ∧ a + 4096 ≤ DRV_LIMIT ∧ (map_into root a p DMA_FLAGS (set_km k (tabs m))).1 = Err e) ∨
       (MAX_VMA_RECORDS ≤ length (vmas m))%nat))) ∨
   ∃ p a own', 0 ≤ r ∧ r = dma_pack p a ∧ DRV_BASE ≤ a ∧ a + 4096 ≤ DRV_LIMIT ∧ (∀ x, x ∈ vmas m → overlaps root a (a + 4096) x = false) ∧
     p ∉ own ∧ p ∈ own' ∧ mem_ok own' (tabs m') ∧ page_is_used (km (tabs m')) p = true ∧ page_of (tabs m') p = ∅ ∧
     (∀ v, a ≤ v < a + 4096 → xlate (tabs m') root v = Some (p + (v - a)) ∧ usable (tabs m') root v true) ∧
     ∃ m2 own2, sys_dma_free c r m' = Done (0, m2) ∧ given_back (km (tabs m2)) p ∧ own' ≡ₚ p :: own2 ∧ own ⊆ own2 ∧ mem_ok own2 (tabs m2) ∧ space own2 (tabs m2) root ∧
       (∀ v, a ≤ v < a + 4096 → xlate (tabs m2) root v = None) ∧
       (∀ v, 0 ≤ v < 2 ^ 48 → ¬ (a ≤ v < a + 4096) → xlate (tabs m2) root v = xlate (tabs m) root v) ∧
       (∀ q y, q ≠ 0 → VmaClaims.mapped (vmas m2) q y ↔ VmaClaims.mapped (vmas m) q y)).
Proof.
  intros Hm Hsmall Hsp Hpriv Hp0 Hpg Hends Hne root.
  assert (c_id c ≠ 0%nat) as Hid by (unfold have_priv in Hpriv; by destruct (Nat.eqb_spec (c_id c) 0)).
  unfold sys_dma_alloc. rewrite Hpriv. cbn [negb]. rewrite (proj2 (Nat.eqb_neq (c_id c) 0)) by done.
  assert ((if pages_ =? 0 then 1 else Z.min pages_ 8) = 1) as -> by (destruct (Z.eqb_spec pages_ 0); lia).
  change (npo2_order 1) with 0%nat. unfold alloc_order. fold root.
  destruct (alloc 0 (km (tabs m))) as [[p|] k] eqn:Ha.
  2: { eexists _, _. split; [done|]. left. split; [done|]. by left. }
  destruct (alloc_plain own (tabs m) root p k Hm Hsp Ha) as (N1 & N2 & N3 & N4 & G0 & W0 & M0).
  set (s0 := set_km k (tabs m)) in *. change (Z.shiftl 0x1000 (Z.of_nat 0)) with 4096.
  assert (p mod 4096 = 0 ∧ 0 ≤ p < 2 ^ 43) as [Hpm Hpr].
  { split; [apply Z.mod_divide; [lia|]; by apply page_addr_divide|]. assert (0 ≤ p) by (rewrite <- N3; apply Z.land_nonneg; by right). unfold outside in N2. lia. }
  assert (∀ s l, mem_ok (p :: l) s → ∃ s', free_order p 0 s = Done s' ∧ mem_ok l s' ∧ ∃ k', s' = set_km k' s ∧ same_region (km s) k' ∧ given_back k' p) as Hfree.
  { intros s l [Hh Hl]. destruct (free_gives (km s) l p Hh) as (k' & Hf & Hh' & Hb & Hpk & Hgb & _). exists (set_km k' s). unfold free_order. rewrite Hf.
    pose proof (conj Hb Hpk : same_region (km s) k'). split; [done|]. split; [split; [done|by apply (low_region (km s))]|]. by exists k'. }
  destruct (drv_hole root 4096 (vmas m) ltac:(unfold DRV_LIMIT; lia) Hends) as (res & -> & Hres). cbn [cbind].
  destruct res as [a|].
  2: { destruct (Hfree s0 own (gr_mem _ _ _ _ _ G0)) as (s' & -> & _ & k' & -> & _ & Hgb). cbn [cbind]. eexists _, _. split; [done|].
       left. split; [done|]. right. exists p. split; [done|]. split; [exact Hgb|]. by left. }
  destruct Hres as (R1 & R2 & R3 & R4). change (Z.to_nat (4096 / 0x1000)) with 1%nat.
  assert (0 ≤ a ∧ a + 4096 * Z.of_nat 1 ≤ 2 ^ 47) as [Ha0 Hab] by (unfold DRV_BASE, DRV_LIMIT in *; lia).
  pose proof (map_run_spec 1 (p :: own) s0 root a p DMA_FLAGS Ha0 ltac:(lia) (gr_mem _ _ _ _ _ G0) (gr_space _ _ _ _ _ G0)) as H.
  destruct (map_run 1 root a p DMA_FLAGS s0) as [n s1] eqn:Hrun. destruct H as (Hn & own1 & G1 & L & _ & X).
  pose proof (grown_trans _ _ _ _ _ _ _ G0 G1) as G.
  assert (p ∈ own1) as Hp1 by (apply (gr_own _ _ _ _ _ G1), list_elem_of_here).
  destruct (list_elem_of_split _ _ Hp1) as (l1 & l2 & Hsplit).
  assert (own1 ≡ₚ p :: (l1 ++ l2)) as Hperm by (rewrite Hsplit; symmetry; apply Permutation_middle). set (own2 := l1 ++ l2) in *.
  assert (∀ s, mem_ok own1 s → mem_ok (p :: own2) s) as Hmp by (intros s [? ?]; split; [by eapply holds_perm|done]).
  assert (¬ reach s1 root p) as Hn1.
  { apply (gr_reach _ _ _ _ _ G1); [left; apply list_elem_of_here|]. by rewrite (reach_frames (tabs m)). }
  destruct (Nat.eqb_spec n 1) as [->|Hn1']; cbn [negb].
  2: { destruct (Hfree s1 own2 (Hmp _ (gr_mem _ _ _ _ _ G1))) as (s' & -> & _ & k' & -> & _ & Hgb). cbn [cbind]. eexists _, _. split; [done|].
       left. split; [done|]. right. exists p. split; [done|]. split; [exact Hgb|]. right. left. exists a. cbn [map_run] in Hrun.
       rewrite ?w64_small in Hrun by lia. destruct (map_into root a p DMA_FLAGS s0) as [[[]|e] s9]; [injection Hrun as <- _; done|]. by exists e. }
  cbn [zero_run]. set (s2 := zero_frame p s1).
  assert (grown own (tabs m) root own1 s2) as G2.
  { apply grown_set_page; [done|done|]. intros t [Ht|Ht] ->; [done|]. by apply N2. }
  assert (PagingMap.mapped s2 root a (Z.lor p (Z.lor DMA_FLAGS PTE_PRESENT))) as Hmap.
  { apply set_page_mapped; [done|]. specialize (L 0 ltac:(lia)). rewrite Z.mul_0_r, !Z.add_0_r in L. by rewrite w64_small in L by lia. }
  assert (∀ v, xlate s2 root v = xlate s1 root v) as Hx2.
  { intros v. unfold xlate, s2, zero_frame. by rewrite (proj2 (set_page_walks s1 root p ∅ Hn1 (path v) (le_n 4))). }
  destruct (vma_register root a (a + 4096) DMA_FLAGS (vmas m)) as [[] vs'] eqn:Hreg.
  2: { destruct (Hfree s2 own2 (Hmp _ (gr_mem _ _ _ _ _ G2))) as (s' & -> & _ & k' & -> & _ & Hgb). cbn [cbind]. eexists _, _. split; [done|].
       left. split; [done|]. right. exists p. split; [done|]. split; [exact Hgb|]. right. right. pose proof (register_spec root a (a + 4096) DMA_FLAGS (vmas m)) as Hfull. rewrite Hreg in Hfull. by destruct Hfull as (_ & Hfull & _). }
  eexists _, _. split; [done|]. right. exists p, a, own1. cbn [tabs vmas set_vmas set_tabs].
  destruct (dma_pack_parts p a ltac:(unfold DRV_LIMIT, DRV_BASE in *; lia) ltac:(lia) Hpm) as (P0 & P1 & P2 & P3 & P4).
  split; [done|]. split; [done|]. split; [done|]. split; [done|]. split; [done|]. split; [done|]. split; [done|].
  split; [apply (gr_mem _ _ _ _ _ G2)|]. split; [apply (holds_used _ own1); [apply (gr_mem _ _ _ _ _ G2)|done]|]. split; [unfold s2, zero_frame; by rewrite page_of_set, decide_True|]. split.
  { intros v Hv. apply (run_leaf s2 root a 1 p DMA_FLAGS v); try done; try lia.
    intros i Hi. replace i with 0 by lia. rewrite Z.mul_0_r, !Z.add_0_r. by rewrite w64_small by lia. }
  assert (p ≠ 0) as Hpnz by (apply (holds_nonzero (km s1) own1 p); [apply (gr_mem _ _ _ _ _ G1)|done]).
  assert (∀ x, x ∈ vmas m → starts_at root a x = false) as Hns.
  { intros x Hx. apply not_true_iff_false. rewrite starts_spec. intros [E1 E2]. specialize (Hne x Hx E1). specialize (R4 x Hx).
    apply not_true_iff_false in R4. apply R4, overlaps_spec. split_and!; [done|lia|lia]. }
  destruct (registered_found root a (a + 4096) DMA_FLAGS (vmas m) vs' Hp0 Hns Hreg) as (i & Hfind & Hclear).
  unfold sys_dma_free. rewrite Hpriv. cbn [negb]. rewrite P2, P3. rewrite (proj2 (Z.eqb_neq a 0)) by (unfold DRV_BASE in *; lia).
  rewrite (proj2 (Z.eqb_neq (p / 4096) 0)) by (pose proof (Z.div_mod p 4096 ltac:(lia)); lia). cbn [orb].
  rewrite (proj2 (Nat.eqb_neq (c_id c) 0)) by done. cbn [vmas tabs set_vmas set_tabs]. fold root. rewrite Hfind.
  assert (rec_order (mkVmaRec root (mkVma a (a + 4096) DMA_FLAGS)) = 0%nat) as ->.
  { unfold rec_order. cbn [r_vma v_end v_start]. by replace (a + 4096 - a) with 4096 by lia. }
  change (Z.to_nat (2 ^ Z.of_nat 0)) with 1%nat. rewrite P4.
  destruct (unmap_mapped 1 own1 s2 root a (λ _, Z.lor p (Z.lor DMA_FLAGS PTE_PRESENT)) Ha0 ltac:(lia) (gr_space _ _ _ _ _ G2)) as (C & N & K).
  { intros j Hj. replace j with 0 by lia. rewrite Z.mul_0_r, Z.add_0_r. split; [done|].
    rewrite !present_lor. change (present PTE_PRESENT) with true. by rewrite !orb_true_r. }
  set (s3 := unmap_run 1 root a s2) in *.
  destruct (Hfree s3 own2 (Hmp _ (cleared_mem _ _ _ _ (gr_mem _ _ _ _ _ G2) C))) as (s4 & -> & Hm4 & k4 & -> & Hr4 & Hgb4). cbn [cbind].
  eexists _, own2. split; [done|]. cbn [tabs vmas set_vmas set_tabs]. split; [exact Hgb4|]. split; [exact Hperm|].
  assert (∀ v, xlate (set_km k4 s3) root v = xlate s3 root v) as Hx4.
  { intros v. unfold xlate. by rewrite (proj2 (frames_walk s3 (set_km k4 s3) root (path v) eq_refl)). }
  assert (∀ t, t ∈ own1 → t ≠ p → t ∈ own2) as Hin2.
  { intros t Ht Hne'. rewrite Hperm in Ht. by apply elem_of_cons in Ht as [->|]. }
  split; [intros t Ht; apply Hin2; [apply (gr_own _ _ _ _ _ G); done|by intros ->]|]. split; [exact Hm4|]. split.
  { apply space_km; [done|]. destruct C as [C1 [T O H] C3 C4]. split; [done| |done]. intros t Ht. destruct (O t Ht) as [Ht'|]; [|by right].
    left. apply Hin2; [done|]. intros ->. apply C3 in Ht. apply Hn1. by apply (set_page_reach s1 root p ∅ p Hn1). }
  split; [|split; [|exact Hclear]].
  - intros v Hv. rewrite Hx4. apply N. apply hole_pages; lia.
  - intros v Hv Hout. assert (¬ in_pages a 1 v) as Hni by (rewrite hole_pages by lia; lia).
    rewrite Hx4, K, Hx2, X by done. unfold xlate. by rewrite W0.
Qed.

(** ** What is not checked *)

Lemma unmap_km root a s : km (unmap_into root a s).2 = km s.
Proof. unfold unmap_into. by repeat case_match. Qed.

Lemma unmap_run_km n root a s : km (unmap_run n root a s) = km s.
Proof. revert a s; induction n as [|n IH]; intros a s; [done|]. cbn [unmap_run]. by rewrite IH, unmap_km. Qed.

(** [sys_dma_free] believes its caller.  Given any record of the calling
    process that starts at [a] and is at most one page long, a privileged
    process can have any page below 8 TiB given back to the allocator, whatever
    [a] is mapped to and whoever holds the page, a page table included: the
    call succeeds and the page is free. *)
Theorem dma_free_unchecked own own1 c p a m i r :
  mem_ok own (tabs m) → own ≡ₚ p :: own1 → page_addr p → p < 2 ^ 43 → have_priv c PRIV_DMA_ALLOC = true → 0 < a < 2 ^ 32 →
  list_find (λ r, starts_at (c_pml4 c) a r = true) (vmas m) = Some (i, r) → v_start (r_vma r) ≤ v_end (r_vma r) ≤ v_start (r_vma r) + 4096 →
  ∃ m', sys_dma_free c (dma_pack p a) m = Done (0, m') ∧ holds (km (tabs m')) own1 ∧ given_back (km (tabs m')) p.
Proof.
  intros [Hh Hlow] Hperm Hpa Hpb Hpriv Ha Hfind Hlen.
  assert (c_id c ≠ 0%nat) as Hid by (unfold have_priv in Hpriv; by destruct (Nat.eqb_spec (c_id c) 0)).
  assert (0 ≤ p) as Hp0 by (rewrite <- Hpa; apply Z.land_nonneg; by right).
  assert (p mod 4096 = 0) as Hpm by (apply Z.mod_divide; [lia|]; by apply page_addr_divide).
  assert (holds (km (tabs m)) (p :: own1)) as Hh' by (by eapply holds_perm).
  assert (p ≠ 0) as Hpnz by (apply (holds_nonzero _ _ _ Hh'), list_elem_of_here).
  destruct (dma_pack_parts p a ltac:(lia) ltac:(lia) Hpm) as (P0 & P1 & P2 & P3 & P4). rewrite <- P0.
  unfold sys_dma_free. rewrite Hpriv. cbn [negb]. rewrite P2, P3, (proj2 (Z.eqb_neq a 0)) by lia.
  rewrite (proj2 (Z.eqb_neq (p / 4096) 0)) by (pose proof (Z.div_mod p 4096 ltac:(lia)); lia). cbn [orb].
  rewrite (proj2 (Nat.eqb_neq (c_id c) 0)) by done. rewrite Hfind.
  assert (rec_order r = 0%nat) as ->.
  { unfold rec_order. assert (v_end (r_vma r) - v_start (r_vma r) = 4096 ∨ 0 ≤ v_end (r_vma r) - v_start (r_vma r) < 4096) as [->|H] by lia; [done|].
    rewrite w64_small by lia. rewrite (Z.div_small _ 4096) by lia. by rewrite andb_false_r. }
  rewrite P4. set (s := unmap_run _ _ _ _). unfold free_order.
  destruct (free_gives (km s) own1 p) as (k & Hf & Hh2 & _ & _ & Hgb & _); [unfold s; by rewrite unmap_run_km|].
  rewrite Hf. cbn [cbind]. by eexists.
Qed.

(** The root table of the calling process itself, freed through a record of an
    empty range. *)
Definition driver : caller := mkCaller 1 PRIV_ALL_DRIVER 0x100000.
Definition one_record : mm := mkMm (demo 7 0) [mkVmaRec 0x100000 (mkVma 0x50000000 0x50001000 DMA_FLAGS)] 0 0.

Lemma dma_free_unchecked_witness :
  ∃ m', sys_dma_free driver (dma_pack 0x100000 0x50000000) one_record = Done (0, m') ∧ holds (km (tabs m')) [0x104000; 0x103000; 0x102000; 0x101000] ∧
    given_back (km (tabs m')) 0x100000.
Proof.
  apply (dma_free_unchecked d_own [0x104000; 0x103000; 0x102000; 0x101000] driver 0x100000 0x50000000 one_record 0%nat
    (mkVmaRec 0x100000 (mkVma 0x50000000 0x50001000 DMA_FLAGS))).
  - exact (demo_mem 7 0).
  - symmetry. exact (Permutation_cons_append [0x104000; 0x103000; 0x102000; 0x101000] 0x100000).
  - reflexivity.
  - reflexivity.
  - reflexivity.
  - split; reflexivity.
  - vm_compute. reflexivity.
  - cbn. lia.
Defined.

(** A page shared by [fork] is refused as a buffer to write to, although the
    first write of the program itself would make it writable. *)
Example shared_buffer_refused :
  (user_range_valid driver 0x5000 1 true [] (tabs forked)).1 = false ∧
  match cow_remap_in 0x100000 0x5000 (tabs forked) with
  | Done (true, s) => (user_range_valid driver 0x5000 1 true [] s).1
  | _ => false
  end = true.
Proof. split; vm_compute; reflexivity. Qed.

(** More than eight pages are asked for, eight are given. *)
Example dma_alloc_caps : npo2_order (if 9 =? 0 then 1 else Z.min 9 8) = 3%nat.
Proof. reflexivity. Qed.

(** ** Witnesses *)

Definition heap_record : pool := [mkVmaRec 0x100000 (mkVma 0x6000 0x7000 DATA_FLAGS)].

Lemma two_pages_small v : 0x5000 ≤ v < 0x7000 → small (demo 7 0) 0x100000 v.
Proof.
  intros Hv. destruct (decide (v < 0x6000)); [apply demo_small; lia|]. intros e rest.
  rewrite (path_same v 0x6000); [vm_compute; congruence|lia|lia|]. symmetry. apply (Z.div_unique v 4096 6 (v - 0x6000)); lia.
Qed.

Lemma user_range_valid_sound_witness :
  let s' := (user_range_valid driver 0x5FF8 16 true heap_record (demo 7 0)).2 in
  (user_range_valid driver 0x5FF8 16 true heap_record (demo 7 0)).1 = true ∧ usable s' 0x100000 0x6007 true ∧
  ∃ p, p ∉ d_own ∧ page_of s' p = ∅ ∧ PagingMap.mapped s' 0x100000 0x6007 (Z.lor p (Z.lor DATA_FLAGS PTE_PRESENT)).
Proof.
  assert ((user_range_valid driver 0x5FF8 16 true heap_record (demo 7 0)).1 = true) as E by (vm_compute; reflexivity).
  assert (xlate (user_range_valid driver 0x5FF8 16 true heap_record (demo 7 0)).2 0x100000 0x6007 ≠ xlate (demo 7 0) 0x100000 0x6007) as Hx
    by (vm_compute; discriminate).
  assert (vma_find 0x100000 (Z.ldiff 0x6007 0xFFF) heap_record = Some (mkVma 0x6000 0x7000 DATA_FLAGS)) as Hv by (vm_compute; reflexivity).
  pose proof (user_range_valid_sound d_own driver 0x5FF8 16 true heap_record (demo 7 0) (demo_mem 7 0) (demo_space 7 0 ltac:(lia)) ltac:(lia) ltac:(lia)) as H.
  cbn zeta in *. destruct (user_range_valid driver 0x5FF8 16 true heap_record (demo 7 0)) as [r s']. cbn [fst snd] in *.
  destruct H as ((own' & _ & H1) & H2 & _); [intros v Hv'; apply two_pages_small; exact Hv'|]. split; [exact E|]. split; [apply (H2 E); lia|].
  destruct (H1 0x6007 ltac:(lia)) as [H|(_ & _ & rec & p & Hrec & P1 & _ & P2 & P3)]; [destruct (Hx H)|].
  exists p. split; [exact P1|]. split; [exact P2|]. cbn [c_pml4 driver] in Hrec. rewrite Hv in Hrec. injection Hrec as <-. exact P3.
Defined.

Definition no_records : mm := mkMm (demo 7 0) [] 0 0.

Lemma phys_map_maps_witness :
  ∃ r m' own', sys_phys_map driver 0xFEBC0000 0x1800 no_records = Done (r, m') ∧ grown d_own (demo 7 0) 0x100000 own' (tabs m') ∧
    r = DRV_BASE ∧ xlate (tabs m') 0x100000 (DRV_BASE + 0x1004) = Some 0xFEBC1004.
Proof.
  destruct (phys_map_maps d_own driver 0xFEBC0000 0x1800 no_records (demo_mem 7 0) (demo_space 7 0 ltac:(lia)) eq_refl ltac:(discriminate)
    ltac:(lia) eq_refl ltac:(lia) ltac:(lia)) as (r & m' & own' & H1 & H2 & _ & H3).
  { intros x Hx. apply elem_of_nil in Hx. destruct Hx. }
  exists r, m', own'. split; [exact H1|]. split; [exact H2|].
  assert (match sys_phys_map driver 0xFEBC0000 0x1800 no_records with Done (x, _) => x | _ => 0 end = DRV_BASE) as E by (vm_compute; reflexivity).
  rewrite H1 in E. split; [exact E|]. destruct H3 as [(_ & _ & _ & _ & H & _)|[H _]]; [|rewrite H in E; discriminate].
  rewrite E in H. apply (H (DRV_BASE + 0x1004)). vm_compute. split; congruence.
Defined.

Lemma dma_roundtrip_witness :
  ∃ r m' p a, sys_dma_alloc driver 1 no_records = Done (r, m') ∧ r = dma_pack p a ∧ p ∉ d_own ∧ xlate (tabs m') 0x100000 a = Some p ∧
    ∃ m2, sys_dma_free driver r m' = Done (0, m2) ∧ given_back (km (tabs m2)) p ∧ xlate (tabs m2) 0x100000 a = None.
Proof.
  destruct (dma_roundtrip d_own driver 1 no_records (demo_mem 7 0)) as (r & m' & H1 & H2).
  - cbn [tabs no_records demo km]. destruct demo_region as [-> ->]. lia.
  - exact (demo_space 7 0 ltac:(lia)).
  - reflexivity.
  - discriminate.
  - lia.
  - intros x Hx. apply elem_of_nil in Hx. destruct Hx.
  - intros x Hx. apply elem_of_nil in Hx. destruct Hx.
  - assert (0 <=? match sys_dma_alloc driver 1 no_records with Done (x, _) => x | _ => 0 end = true) as E by (vm_compute; reflexivity).
    rewrite H1 in E. destruct H2 as [[-> _]|(p & a & own' & _ & H2 & _ & _ & _ & H3 & _ & _ & _ & _ & H4 & m2 & own2 & H5 & H7 & _ & _ & _ & _ & H6 & _)]; [discriminate|].
    exists r, m', p, a. split; [exact H1|]. split; [exact H2|]. split; [exact H3|]. split.
    + destruct (H4 a ltac:(lia)) as [H _]. rewrite Z.sub_diag, Z.add_0_r in H. exact H.
    + exists m2. split; [exact H5|]. split; [exact H7|]. apply H6. lia.
Defined.
