(* ===== verification/Devfs.v ===== *)
(** * The device registry: [src/devfs.rs]

    The registry of devices, the queue of records for the user-space device
    manager and the creation of the [/dev] nodes through the two file layers
    ([Flat] over [Vfs]).  The operations of a device are known by the identity
    of its trait object ([Vfs.dyn]).  The bytes sent to the serial port are a
    log. *)

From S2P Require Import Prelude Bytes VfsTypes Path Vfs Procfs Tty Klog Flat.
From stdpp Require Import base gmap numbers strings list.
Local Open Scope Z_scope.

Definition MAX_DEVICES : nat := 32.
Definition DEV_NAME_LEN : nat := 32.
Definition UEVENT_QUEUE_CAP : nat := 64.
Definition UEVENT_MAX_LEN : nat := 512.

(** ** The queue *)

Record UeventQueue := mkQueue { slots : list (list Z); lens : list nat; q_head : nat; q_count : nat }.
Definition UeventQueue_empty : UeventQueue :=
  mkQueue (replicate UEVENT_QUEUE_CAP (replicate UEVENT_MAX_LEN 0)) (replicate UEVENT_QUEUE_CAP 0%nat) 0 0.

Definition push (msg : list Z) (q : UeventQueue) : UeventQueue :=
  if (length msg =? 0)%nat || (UEVENT_MAX_LEN <? length msg)%nat then q
  else
    let '(head, count) :=
      if (q_count q =? UEVENT_QUEUE_CAP)%nat then (((q_head q + 1) `mod` UEVENT_QUEUE_CAP)%nat, (q_count q - 1)%nat) else (q_head q, q_count q) in
    let tail := ((head + count) `mod` UEVENT_QUEUE_CAP)%nat in
    mkQueue (<[tail := msg ++ drop (length msg) (slots q !!! tail)]> (slots q)) (<[tail := length msg]> (lens q)) head (S count).

(** The record, or nothing when the queue is empty; [room] is the length of
    the caller's buffer. *)
Definition pop (room : nat) (q : UeventQueue) : res (list Z) * UeventQueue :=
  if (q_count q =? 0)%nat then (Ok [], q)
  else
    let len := lens q !!! q_head q in
    let q' := mkQueue (slots q) (lens q) ((q_head q + 1) `mod` UEVENT_QUEUE_CAP)%nat (q_count q - 1) in
    if (room <? len)%nat then (Err "EINVAL", q') else (Ok (take len (slots q !!! q_head q)), q').

(** ** The registry *)

Record DevEntry := mkDev { d_name : list Z; name_len : nat; dev_ino : Z; d_major : Z; d_minor : Z; d_ops : dyn; d_used : bool }.
Definition DevEntry_empty : DevEntry := mkDev (replicate DEV_NAME_LEN 0) 0 0 0 0 NOP_VNODE false.
#[export] Instance DevEntry_inhabited : Inhabited DevEntry := populate DevEntry_empty.

Record devfs := mkDevfs { queue : UeventQueue; seq_no : Z; DEVS : list DevEntry; DEV_COUNT : Z; dlog : list Z }.
Definition devfs_new : devfs := mkDevfs UeventQueue_empty 0 (replicate MAX_DEVICES DevEntry_empty) 0 [].

Definition set_queue (q : UeventQueue) (s : devfs) : devfs := mkDevfs q (seq_no s) (DEVS s) (DEV_COUNT s) (dlog s).
Definition set_devs (l : list DevEntry) (s : devfs) : devfs := mkDevfs (queue s) (seq_no s) l (DEV_COUNT s) (dlog s).
Definition dprint (bs : list Z) (s : devfs) : devfs := mkDevfs (queue s) (seq_no s) (DEVS s) (DEV_COUNT s) (dlog s ++ bs).

(** The name of an entry. *)
Definition entry_name (e : DevEntry) : list Z := take (name_len e) (d_name e).
Definition same_name (name : list Z) (e : DevEntry) : bool := (name_len e =? length name)%nat && bool_decide (entry_name e = name).

Definition devfs_register (name : list Z) (ino major minor : Z) (ops : dyn) (s : devfs) : devfs :=
  if (length name =? 0)%nat || (DEV_NAME_LEN <? length name)%nat then s
  else
    match first_from (λ i, d_used (DEVS s !!! i) && same_name name (DEVS s !!! i)) 0 MAX_DEVICES with
    | Some i =>
        let e := DEVS s !!! i in
        set_devs (<[i := mkDev (d_name e) (name_len e) ino major minor ops (d_used e)]> (DEVS s)) s
    | None =>
        match first_from (λ i, negb (d_used (DEVS s !!! i))) 0 MAX_DEVICES with
        | Some i =>
            let e := DEVS s !!! i in
            mkDevfs (queue s) (seq_no s)
              (<[i := mkDev (name ++ drop (length name) (d_name e)) (length name) ino major minor ops true]> (DEVS s)) (DEV_COUNT s + 1) (dlog s)
        | None => s
        end
    end.

Definition devfs_lookup (name : list Z) (s : devfs) : option dyn :=
  (λ i, d_ops (DEVS s !!! i)) <$> first_from (λ i, d_used (DEVS s !!! i) && same_name name (DEVS s !!! i)) 0 MAX_DEVICES.

Definition devfs_count (s : devfs) : Z := DEV_COUNT s.

(** ** Records *)

Definition uevent_next_seq (s : devfs) : Z * devfs :=
  let n := w64 (seq_no s + 1) in (n, mkDevfs (queue s) n (DEVS s) (DEV_COUNT s) (dlog s)).

(** [loop { digit; v /= 10; if v == 0 { break } }] *)
Fixpoint dec_buf_loop (n : nat) (v : Z) (acc : list Z) : list Z :=
  match n with
  | O => acc
  | S n' => let acc := v mod 10 + 48 :: acc in if v / 10 =? 0 then acc else dec_buf_loop n' (v / 10) acc
  end.
Definition dec_buf (v : Z) : list Z := dec_buf_loop 24 v [].

(** The macro [ap!]: a piece and a zero byte, when they fit. *)
Definition ap (piece msg : list Z) : list Z :=
  if (length msg + length piece + 1 <=? UEVENT_MAX_LEN)%nat then msg ++ piece ++ [0] else msg.

Definition or_question (bs : list Z) : list Z := if from_utf8 bs then bs else bytes_of "?".

Definition uevent_pieces (action sysname subsystem : list Z) (major minor seq : Z) : list (list Z) :=
  [bytes_of "ACTION="; action; bytes_of "DEVPATH=/devices/rynex/"; sysname; bytes_of "SUBSYSTEM="; subsystem; bytes_of "DEVNAME=/dev/"; sysname;
   bytes_of "MAJOR="; dec_buf major; bytes_of "MINOR="; dec_buf minor; bytes_of "SEQNUM="; dec_buf seq].

Definition uevent_emit (action sysname subsystem : list Z) (major minor : Z) (s : devfs) : devfs :=
  let '(seq, s) := uevent_next_seq s in
  let msg := foldl (λ msg piece, ap piece msg) [] (uevent_pieces action sysname subsystem major minor seq) in
  if (length msg =? 0)%nat then s
  else
    dprint (bytes_of "devfs: uevent '" ++ or_question action ++ bytes_of "' for '" ++ or_question sysname ++ bytes_of "' (major=" ++
            dec_bytes major ++ bytes_of ",minor=" ++ dec_bytes minor ++ bytes_of ")" ++ [10])
      (set_queue (push msg (queue s)) s).

(** ** [/dev/uevent] *)

(** A read: a turn per look at the queue, with what was put there before it. *)
Fixpoint uevent_read (turns : list (list (list Z))) (room : nat) (s : devfs) : comp (res (list Z) * devfs) :=
  if (room =? 0)%nat then Done (Ok [], s)
  else
    match turns with
    | [] => Spin
    | msgs :: turns =>
        let q := foldl (λ q m, push m q) (queue s) msgs in
        match pop room q with
        | (Ok [], q) => uevent_read turns room (set_queue q s)
        | (r, q) => Done (r, set_queue q s)
        end
    end.
Definition uevent_write : res Z := Err "EPERM".

(** ** Populating [/dev] *)

Definition DEV_DIR_MODE : Z := foldr Z.lor 0 [S_IRUSR; S_IWUSR; S_IXUSR; S_IRGRP; S_IXGRP; S_IROTH].
Definition NODE_MODE : Z := Z.lor S_IFCHR 0x1B6.
Definition UEVENT_DEVICE : dyn := Device 7.

Section init.
Context {W : Type} `{!FsOps W}.

(** One entry of the registry. *)
Definition devfs_node (s : devfs) (f : flatfs W) (i : nat) : comp (devfs * flatfs W) :=
  let e := DEVS s !!! i in
  if negb (d_used e) then Done (s, f)
  else
    let path := bytes_of "/dev/" ++ entry_name e in
    match find_inode path f with
    | Some _ => Done (s, f)
    | None =>
        match vnode_alloc (dev_ino e) 0 0 (d_ops e) (core f) with
        | (None, c) => Done (s, set_core c f)
        | (Some vn, c) =>
            let! (_, f) := core_ok (Vfs.create path NODE_MODE) (set_core c f) in
            let! (_, f) := create_file path [] f in
            let f := match find_inode path f with Some idx => set_inode idx (with_vnode vn) f | None => f end in
            let s := dprint (bytes_of "devfs: created '" ++ or_question (drop 1 path) ++ bytes_of "' (major=" ++ dec_bytes (d_major e) ++
                             bytes_of ",minor=" ++ dec_bytes (d_minor e) ++ bytes_of ")" ++ [10]) s in
            Done (if bool_decide (entry_name e = bytes_of "uevent") && (name_len e =? 6)%nat then s
                  else uevent_emit (bytes_of "add") (entry_name e) (bytes_of "rynex") (d_major e) (d_minor e) s, f)
        end
    end.

Fixpoint devfs_nodes (l : list nat) (s : devfs) (f : flatfs W) : comp (devfs * flatfs W) :=
  match l with [] => Done (s, f) | i :: l => let! (s, f) := devfs_node s f i in devfs_nodes l s f end.

Definition devfs_init (s : devfs) (f : flatfs W) : comp (devfs * flatfs W) :=
  let s := devfs_register (bytes_of "uevent") 7 0 0 UEVENT_DEVICE s in
  let! f :=
    match find_inode (bytes_of "/dev") f with
    | Some _ => Done f
    | None => let! (_, f) := core_ok (Vfs.mkdir (bytes_of "/dev") DEV_DIR_MODE) f in Done f
    end in
  devfs_nodes (seq 0 MAX_DEVICES) s f.
End init.
