(* ===== verification/DevfsClaims.v ===== *)
(** * The device registry: what it promises *)

From S2P Require Import Prelude Bytes Ring VfsTypes Path Vfs Procfs Tty Klog Flat BuddyPages Ramfs VfsRamfs VfsClaims FlatClaims Devfs.
From stdpp Require Import base gmap numbers strings list.
From Stdlib Require Import Lia.
Local Open Scope Z_scope.
#[local] Arguments UEVENT_QUEUE_CAP : simpl never.

(** ** The queue of records *)

Record queue_wf (q : UeventQueue) : Prop := {
  qw_slots : length (slots q) = UEVENT_QUEUE_CAP;
  qw_lens : length (lens q) = UEVENT_QUEUE_CAP;
  qw_head : (q_head q < UEVENT_QUEUE_CAP)%nat;
  qw_count : (q_count q ≤ UEVENT_QUEUE_CAP)%nat;
  qw_fits : ∀ i, (i < UEVENT_QUEUE_CAP)%nat → length (slots q !!! i) = UEVENT_MAX_LEN ∧ (lens q !!! i ≤ UEVENT_MAX_LEN)%nat;
}.
Definition stored (q : UeventQueue) : list (list Z) := zip_with take (lens q) (slots q).
Definition records (q : UeventQueue) : list (list Z) := ring_list (stored q) (q_head q) (q_count q) UEVENT_QUEUE_CAP.

Lemma queue_empty_wf : queue_wf UeventQueue_empty.
Proof.
  split; try (vm_compute; reflexivity || lia). intros i Hi. cbn [slots lens UeventQueue_empty].
  rewrite !lookup_total_replicate_2 by done. split; [done|lia].
Qed.

Lemma queue_push_spec msg q : queue_wf q → (0 < length msg ≤ UEVENT_MAX_LEN)%nat →
  queue_wf (push msg q) ∧ records (push msg q) = lastn UEVENT_QUEUE_CAP (records q ++ [msg]).
Proof.
  intros [H1 H2 H3 H4 H5] Hm. unfold push. rewrite (proj2 (Nat.eqb_neq _ 0)), (proj2 (Nat.ltb_ge _ _)) by lia. cbn [orb].
  assert (Hcap : UEVENT_QUEUE_CAP = 64%nat) by done.
  assert (Hlen : length (stored q) = UEVENT_QUEUE_CAP) by (unfold stored; rewrite length_zip_with; lia).
  assert (Hins : ∀ t, zip_with take (<[t := length msg]> (lens q)) (<[t := msg ++ drop (length msg) (slots q !!! t)]> (slots q)) = <[t := msg]> (stored q)).
  { intros t. unfold stored. rewrite <- insert_zip_with. by rewrite take_app_length. }
  assert (Hfit : ∀ t i, (t < UEVENT_QUEUE_CAP)%nat → (i < UEVENT_QUEUE_CAP)%nat →
    length (<[t := msg ++ drop (length msg) (slots q !!! t)]> (slots q) !!! i) = UEVENT_MAX_LEN ∧ (<[t := length msg]> (lens q) !!! i ≤ UEVENT_MAX_LEN)%nat).
  { intros t i Ht Hi. destruct (decide (t = i)) as [->|Hne].
    - rewrite !list_lookup_total_insert_eq by lia. destruct (H5 i Hi) as [Hs _]. rewrite length_app, length_drop. lia.
    - rewrite !list_lookup_total_insert_ne by done. by apply H5. }
  destruct (Nat.eqb_spec (q_count q) UEVENT_QUEUE_CAP) as [E|E].
  - split; [split; cbn; rewrite ?length_insert; try done; [by apply Nat.mod_upper_bound|lia|intros i Hi; apply Hfit; [by apply Nat.mod_upper_bound|done]]|].
    unfold records. cbn [q_head q_count]. unfold stored at 1. cbn [lens slots]. rewrite Hins.
    replace (S (q_count q - 1)) with UEVENT_QUEUE_CAP by lia. rewrite ring_list_mod, Nat.add_1_r.
    replace ((S (q_head q) `mod` UEVENT_QUEUE_CAP + (q_count q - 1)) `mod` UEVENT_QUEUE_CAP)%nat with (q_head q `mod` UEVENT_QUEUE_CAP)%nat.
    + rewrite E. apply ring_push_full; [lia|done].
    + rewrite Nat.Div0.add_mod_idemp_l. replace (S (q_head q) + (q_count q - 1))%nat with (q_head q + 1 * UEVENT_QUEUE_CAP)%nat by lia.
      by rewrite Nat.Div0.mod_add.
  - split; [split; cbn; rewrite ?length_insert; try done; [lia|intros i Hi; apply Hfit; [by apply Nat.mod_upper_bound|done]]|].
    unfold records. cbn [q_head q_count]. unfold stored at 1. cbn [lens slots]. rewrite Hins, ring_push by (done || lia).
    symmetry. apply lastn_short. rewrite length_app, length_ring_list. cbn [length]. lia.
Qed.

Lemma queue_pop_spec room q : queue_wf q →
  match records q with
  | [] => pop room q = (Ok [], q)
  | r :: rest => ∃ q', pop room q = (if (length r <=? room)%nat then Ok r else Err "EINVAL", q') ∧ queue_wf q' ∧ records q' = rest
  end.
Proof.
  intros [H1 H2 H3 H4 H5]. unfold pop, records. destruct (q_count q) as [|n] eqn:E; [done|]. rewrite ring_pop by done.
  cbn [Nat.eqb]. rewrite (Nat.mod_small (q_head q)) by done.
  assert (Hs : stored q !!! q_head q = take (lens q !!! q_head q) (slots q !!! q_head q)).
  { apply list_lookup_total_correct. unfold stored. apply lookup_zip_with_Some. eexists _, _. split; [done|].
    split; apply list_lookup_lookup_total_lt; lia. }
  destruct (H5 (q_head q) H3) as [F1 F2]. assert (Hl : length (stored q !!! q_head q) = (lens q !!! q_head q)) by (rewrite Hs, length_take; lia).
  set (q' := mkQueue _ _ _ _). exists q'. split.
  - rewrite Hl. destruct (Nat.ltb_spec room (lens q !!! q_head q)), (Nat.leb_spec (lens q !!! q_head q) room); try lia; [done|]. by rewrite Hs.
  - split; [split; cbn; try done; [by apply Nat.mod_upper_bound|lia]|]. unfold q'. cbn [q_head q_count]. rewrite Nat.add_1_r. cbn [Nat.sub]. by rewrite ?Nat.sub_0_r.
Qed.

(** ** Records *)

(** The pieces of a record, as a reader that splits at zero bytes sees them. *)
Fixpoint split_nul (cur l : list Z) : list (list Z) :=
  match l with
  | [] => match cur with [] => [] | _ => [cur] end
  | c :: l => if c =? 0 then cur :: split_nul [] l else split_nul (cur ++ [c]) l
  end.

(** [KEY=VALUE]: the value of the first piece that starts with [KEY=]. *)
Definition property (key : list Z) (pieces : list (list Z)) : option (list Z) :=
  let start := key ++ bytes_of "=" in
  match list_find (λ p, take (length start) p = start) pieces with Some (_, p) => Some (drop (length start) p) | None => None end.

(** The pieces, each with its zero byte. *)
Fixpoint with_nuls (ps : list (list Z)) : list Z := match ps with [] => [] | p :: ps => (p ++ [0]) ++ with_nuls ps end.

Lemma split_piece cur p l : nul_free p → split_nul cur (p ++ 0 :: l) = (cur ++ p) :: split_nul [] l.
Proof.
  revert cur. induction p as [|c p IH]; intros cur Hp; cbn [app split_nul].
  - rewrite Z.eqb_refl. by rewrite app_nil_r.
  - apply Forall_cons in Hp as [Hc Hp]. rewrite (proj2 (Z.eqb_neq c 0)) by done. rewrite IH by done. by rewrite <- app_assoc.
Qed.

Lemma split_pieces ps : Forall nul_free ps → split_nul [] (with_nuls ps) = ps.
Proof.
  induction 1 as [|p ps Hp _ IH]; [done|]. cbn [with_nuls]. rewrite <- app_assoc. cbn [app].
  rewrite split_piece by done. by rewrite IH.
Qed.

(** Pieces that all fit are all there. *)
Lemma ap_all ps msg : (length msg + length (with_nuls ps) ≤ UEVENT_MAX_LEN)%nat →
  foldl (λ msg p, ap p msg) msg ps = msg ++ with_nuls ps.
Proof.
  revert msg. induction ps as [|p ps IH]; intros msg Hl; [cbn; by rewrite app_nil_r|].
  cbn [foldl with_nuls] in *. rewrite !length_app in Hl. cbn [length] in Hl.
  unfold ap at 2. rewrite (proj2 (Nat.leb_le _ _)) by lia. rewrite IH by (rewrite !length_app; cbn [length]; lia). by rewrite <- app_assoc.
Qed.

Lemma dec_buf_loop_len n v acc : (length (dec_buf_loop n v acc) ≤ n + length acc)%nat.
Proof.
  revert v acc. induction n as [|n IH]; intros v acc; [done|]. cbn [dec_buf_loop]. case_match; [cbn; lia|].
  etrans; [apply IH|]. cbn [length]. lia.
Qed.

Lemma dec_buf_loop_nul n v acc : nul_free acc → nul_free (dec_buf_loop n v acc).
Proof.
  revert v acc. induction n as [|n IH]; intros v acc Ha; [done|]. cbn [dec_buf_loop].
  assert (nul_free (v mod 10 + 48 :: acc)) as H by (apply Forall_cons; split; [pose proof (Z.mod_pos_bound v 10 ltac:(lia)); lia|done]).
  case_match; [done|by apply IH].
Qed.

Lemma dec_buf_ok v : nul_free (dec_buf v) ∧ (length (dec_buf v) ≤ 24)%nat.
Proof. split; [apply dec_buf_loop_nul, Forall_nil_2|]. unfold dec_buf. etrans; [apply dec_buf_loop_len|]. cbn. lia. Qed.

Lemma literal_nul (x : string) : forallb (λ c, negb (c =? 0)) (bytes_of x) = true → nul_free (bytes_of x).
Proof. intros H. apply Forall_forall. intros c Hc. apply forallb_forall with (x := c) in H; [|by apply list_elem_of_In]. by apply negb_true_iff, Z.eqb_neq in H. Qed.

(** A piece without an equals sign is no property. *)
Definition eq_free (l : list Z) : Prop := Forall (λ c, c ≠ 61) l.

Lemma property_cons key p ps :
  property key (p :: ps) = if decide (take (length (key ++ bytes_of "=")) p = key ++ bytes_of "=") then Some (drop (length (key ++ bytes_of "=")) p) else property key ps.
Proof. unfold property. cbn [list_find]. case_decide; [done|]. by destruct (list_find _ ps) as [[]|]. Qed.

Lemma property_skip key p ps : eq_free p → property key (p :: ps) = property key ps.
Proof.
  intros Hp. rewrite property_cons, decide_False; [done|]. intros E.
  assert (61 ∈ take (length (key ++ bytes_of "=")) p) as Hin by (rewrite E; apply elem_of_app; right; apply list_elem_of_here).
  apply elem_of_take in Hin as (i & Hi & _). apply list_elem_of_lookup_2 in Hi. unfold eq_free in Hp. rewrite Forall_forall in Hp. by apply (Hp 61).
Qed.

Lemma dec_buf_eq v : eq_free (dec_buf v).
Proof.
  unfold dec_buf. assert (∀ n v acc, eq_free acc → eq_free (dec_buf_loop n v acc)) as H; [|apply H, Forall_nil_2].
  induction n as [|n IH]; intros x acc Ha; [done|]. cbn [dec_buf_loop].
  assert (eq_free (x mod 10 + 48 :: acc)) as H by (apply Forall_cons; split; [pose proof (Z.mod_pos_bound x 10 ltac:(lia)); lia|done]).
  case_match; [done|by apply IH].
Qed.

(** The records of device events do not carry their values.  An event
    for an action, a name and a subsystem of at most 32 bytes each, without
    zero bytes or equals signs, queues one record, the last of at most 64,
    which a reader splits at its zero bytes into the keys and the values as
    pieces of their own.  Whoever looks for [KEY=VALUE] among them finds
    ACTION, SUBSYSTEM, MAJOR, MINOR and SEQNUM empty, and the two paths without
    the name of the device. *)
Theorem uevent_values_lost (action name subsystem : list Z) (major minor : Z) (s : devfs) :
  queue_wf (queue s) → Forall (λ l, nul_free l ∧ eq_free l ∧ (length l ≤ 32)%nat) [action; name; subsystem] →
  let s' := uevent_emit action name subsystem major minor s in
  ∃ rec, queue_wf (queue s') ∧ records (queue s') = lastn UEVENT_QUEUE_CAP (records (queue s) ++ [rec]) ∧
    let pieces := split_nul [] rec in
    pieces = uevent_pieces action name subsystem major minor (w64 (seq_no s + 1)) ∧
    Forall (λ key, property (bytes_of key) pieces = Some []) ["ACTION"; "SUBSYSTEM"; "MAJOR"; "MINOR"; "SEQNUM"]%string ∧
    property (bytes_of "DEVPATH") pieces = Some (bytes_of "/devices/rynex/") ∧
    property (bytes_of "DEVNAME") pieces = Some (bytes_of "/dev/").
Proof.
  intros Hq Hall. cbn zeta. unfold uevent_emit, uevent_next_seq. set (seq := w64 (seq_no s + 1)).
  set (ps := uevent_pieces action name subsystem major minor seq).
  apply Forall_cons in Hall as [(A1 & A2 & A3) Hall]. apply Forall_cons in Hall as [(N1 & N2 & N3) Hall]. apply Forall_cons in Hall as [(S1 & S2 & S3) _].
  destruct (dec_buf_ok major) as [M1 M2], (dec_buf_ok minor) as [I1 I2], (dec_buf_ok seq) as [Q1 Q2].
  assert (Hnul : Forall nul_free ps).
  { unfold ps, uevent_pieces. repeat (apply Forall_cons; split; [first [done|by apply literal_nul]|]). done. }
  set (rec := with_nuls ps).
  assert (Hlen : (0 < length rec ≤ UEVENT_MAX_LEN)%nat).
  { unfold rec, ps, uevent_pieces. cbn [with_nuls]. rewrite !length_app. cbn [length]. unfold UEVENT_MAX_LEN.
    change (length (bytes_of "ACTION=")) with 7%nat. change (length (bytes_of "DEVPATH=/devices/rynex/")) with 23%nat.
    change (length (bytes_of "SUBSYSTEM=")) with 10%nat. change (length (bytes_of "DEVNAME=/dev/")) with 13%nat.
    change (length (bytes_of "MAJOR=")) with 6%nat. change (length (bytes_of "MINOR=")) with 6%nat. change (length (bytes_of "SEQNUM=")) with 7%nat. lia. }
  rewrite (ap_all ps []) by (cbn [length]; fold rec; lia). rewrite app_nil_l. fold rec.
  rewrite (proj2 (Nat.eqb_neq (length rec) 0)) by lia. cbn [queue set_queue dprint].
  destruct (queue_push_spec rec (queue s) Hq Hlen) as [W R]. exists rec. split; [exact W|]. split; [exact R|].
  unfold rec at 1. rewrite split_pieces by done. split; [done|].
  assert (Hsk : ∀ key p ps, eq_free p → property key (p :: ps) = property key ps) by apply property_skip.
  assert (Hno : ∀ key p ps, take (length (key ++ bytes_of "=")) p ≠ key ++ bytes_of "=" → property key (p :: ps) = property key ps)
    by (intros; by rewrite property_cons, decide_False).
  pose proof (dec_buf_eq major). pose proof (dec_buf_eq minor). pose proof (dec_buf_eq seq).
  unfold rec. rewrite split_pieces by done. unfold ps, uevent_pieces. split; [|split].
  - repeat (apply Forall_cons; split); try done; repeat first [rewrite Hsk by done|rewrite Hno by done]; rewrite property_cons, decide_True; done.
  - repeat first [rewrite Hsk by done|rewrite Hno by done]; rewrite property_cons, decide_True; done.
  - repeat first [rewrite Hsk by done|rewrite Hno by done]; rewrite property_cons, decide_True; done.
Qed.

(** The console, the first time. *)
Lemma uevent_values_lost_witness :
  let s' := uevent_emit (bytes_of "add") (bytes_of "console") (bytes_of "rynex") 5 1 devfs_new in
  ∃ rec, queue_wf (queue s') ∧ records (queue s') = lastn UEVENT_QUEUE_CAP (records (queue devfs_new) ++ [rec]) ∧
    let pieces := split_nul [] rec in
    pieces = uevent_pieces (bytes_of "add") (bytes_of "console") (bytes_of "rynex") 5 1 (w64 (seq_no devfs_new + 1)) ∧
    Forall (λ key, property (bytes_of key) pieces = Some []) ["ACTION"; "SUBSYSTEM"; "MAJOR"; "MINOR"; "SEQNUM"]%string ∧
    property (bytes_of "DEVPATH") pieces = Some (bytes_of "/devices/rynex/") ∧
    property (bytes_of "DEVNAME") pieces = Some (bytes_of "/dev/").
Proof.
  apply (uevent_values_lost (bytes_of "add") (bytes_of "console") (bytes_of "rynex") 5 1 devfs_new queue_empty_wf).
  repeat (apply Forall_cons; split; [split; [|split]; [..|by apply Nat.leb_le]; by repeat (apply Forall_cons; split)|]). apply Forall_nil_2.
Defined.

(** What a reader gets: the record whole, or an error and the record is gone. *)
Example short_reader_loses_record :
  let s := uevent_emit (bytes_of "add") (bytes_of "console") (bytes_of "rynex") 5 1 devfs_new in
  match uevent_read [[]] 16 s with
  | Done (Err e, s') => (e =? "EINVAL")%string && (q_count (queue s') =? 0)%nat
  | _ => false
  end = true.
Proof. vm_compute. reflexivity. Qed.
