(* ===== verification/Files.v ===== *)
(** * System calls on files: [src/task.rs]

    The calls a program makes on path names and descriptors, on top of the
    flat inode table ([Flat], over [Vfs]), the descriptors and pipes ([Pipe])
    and the memory of the caller.  [cur] is the current task; where a call asks
    [user_range_valid], its answer is the argument [valid].  A call that waits
    on a pipe is given what the other tasks do meanwhile. *)

From S2P Require Import Prelude Bytes VfsTypes Path Vfs Procfs Flat.
From S2P Require Pipe.
From stdpp Require Import base gmap numbers strings list.
Local Open Scope Z_scope.

#[local] Existing Instance Pipe.FileDesc_inhabited.

Definition ENOENT : Z := 2.
Definition EIO : Z := 5.
Definition EBADF : Z := 9.
Definition EACCES : Z := 13.
Definition EFAULT : Z := 14.
Definition ENOTDIR : Z := 20.
Definition EINVAL : Z := 22.
Definition EMFILE : Z := 24.
Definition ERANGE : Z := 34.
Definition ENOSYS : Z := 38.
Definition ENOTEMPTY : Z := 39.

(** The file table with the caller's directory, the descriptors, the caller's
    memory, and how often pollers were woken. *)
Record sysfs (W : Type) := mkSysfs { fl : flatfs W; fds : Pipe.files; um : gmap Z Z; pipe_wakes : nat }.
Arguments mkSysfs {W}. Arguments fl {W}. Arguments fds {W}. Arguments um {W}. Arguments pipe_wakes {W}.

Definition set_fl {W} (f : flatfs W) (s : sysfs W) : sysfs W := mkSysfs f (fds s) (um s) (pipe_wakes s).
Definition set_fds {W} (d : Pipe.files) (s : sysfs W) : sysfs W := mkSysfs (fl s) d (um s) (pipe_wakes s).
Definition set_um {W} (m : gmap Z Z) (s : sysfs W) : sysfs W := mkSysfs (fl s) (fds s) m (pipe_wakes s).
Definition pipe_wake_waiters {W} (b : bool) (s : sysfs W) : sysfs W := mkSysfs (fl s) (fds s) (um s) (if b then S (pipe_wakes s) else pipe_wakes s).
Definition set_cwd {W} (p : list Z) (f : flatfs W) : flatfs W := mkFlat (flat f) (core f) (xmem f) p (procfs_fsid f).

(** [cstr_from_ptr]: the bytes before the first zero, 4096 at most. *)
Fixpoint cstr_loop (n : nat) (p : Z) (m : gmap Z Z) : list Z :=
  match n with
  | O => []
  | S n' => let c := getd 0 m p in if c =? 0 then [] else c :: cstr_loop n' (p + 1) m
  end.
Definition cstr_from_ptr (p : Z) (m : gmap Z Z) : list Z := cstr_loop 4096 p m.

(** [normalize_path] into a buffer of 512 bytes; nothing on failure. *)
Definition norm_path (cwd name : list Z) : list Z := default [] (normalize_path cwd name (replicate 512 0)).

(** The fields of a C structure: offset, width and value. *)
Definition put_fields (p : Z) (fs : list (Z * nat * Z)) (m : gmap Z Z) : gmap Z Z :=
  foldl (λ m '(o, n, v), mem_write (p + o) (le_bytes n v) m) m fs.

Section calls.
Context {W : Type} `{!FsOps W}.
Implicit Types s : sysfs W.

(** A call of the file layer, [f] of its answer. *)
Definition on_flat {T} (m : flatM W T) (f : option T → sysfs W → comp (Z * sysfs W)) s : comp (Z * sysfs W) :=
  let! (r, x) := m (fl s) in f r (set_fl x s).

Definition status {T} (e : Z) (r : option T) s : comp (Z * sysfs W) := Done (match r with Some _ => 0 | None => - e end, s).

(** The start of most calls on names. *)
Definition with_name (p : Z) s (f : list Z → comp (Z * sysfs W)) : comp (Z * sysfs W) :=
  if p =? 0 then Done (- EFAULT, s)
  else match cstr_from_ptr p (um s) with [] => Done (- ENOENT, s) | name => f name end.

(** The same, with the name made absolute. *)
Definition with_norm (p : Z) s (f : list Z → comp (Z * sysfs W)) : comp (Z * sysfs W) :=
  with_name p s (λ name, match norm_path (cwd (fl s)) name with [] => Done (- ENOENT, s) | norm => f norm end).

(** ** Reading and writing *)

(** [inode_fd.pos += n] *)
Definition advance (cur fd : nat) (n : Z) (x : Pipe.files) : Pipe.files :=
  match Pipe.fd_to_inode cur fd x with
  | Some d => Pipe.set_fd (Pipe.fd_slot cur) fd (Pipe.mkFileDesc (Pipe.inode_idx d) (w64 (Pipe.pos d + n)) (Pipe.fd_used d) (Pipe.fd_flags d)) x
  | None => x
  end.

Definition sys_write (cur fd : nat) (buf : Z) (count : nat) (valid : bool) s : comp (Z * sysfs W) :=
  if (buf =? 0) || (count =? 0)%nat then Done (0, s)
  else if negb valid then Done (- EFAULT, s)
  else
    match Pipe.fd_to_inode cur fd (fds s) with
    | None => Done (- EBADF, s)
    | Some d =>
        let slice := mem_read buf count (um s) in
        match Pipe.sys_write_pipe d slice (fds s) with
        | Some (r, wrote, x) => Done (r, pipe_wake_waiters wrote (set_fds x s))
        | None =>
            on_flat (inode_write (Z.to_nat (Pipe.inode_idx d)) (Pipe.pos d) slice)
              (λ r s, Done (match r with Some n => (n, set_fds (advance cur fd n (fds s)) s) | None => (- EIO, s) end)) s
        end
    end.

Definition sys_read (fuel : nat) (env : Pipe.files → Pipe.files) (cur fd : nat) (buf : Z) (count : nat) (valid : bool) s : comp (Z * sysfs W) :=
  if (buf =? 0) || (count =? 0)%nat then Done (0, s)
  else if negb valid then Done (- EFAULT, s)
  else
    match Pipe.fd_to_inode cur fd (fds s) with
    | None => Done (- EBADF, s)
    | Some d =>
        match Pipe.sys_read_pipe fuel env cur fd count (fds s) with
        | Some (r, x) =>
            let! r := r in
            Done (match r with
                  | inl bs => (Z.of_nat (length bs), set_um (mem_write buf bs (um s)) (set_fds x s))
                  | inr e => (- e, set_fds x s)
                  end)
        | None =>
            on_flat (inode_read (Z.to_nat (Pipe.inode_idx d)) (Pipe.pos d) count)
              (λ r s, Done (match r with
                 | Some bs => (Z.of_nat (length bs), set_um (mem_write buf bs (um s)) (set_fds (advance cur fd (Z.of_nat (length bs)) (fds s)) s))
                 | None => (- EIO, s)
                 end)) s
        end
    end.

(** The vectors are read as they are needed; [valid] answers for each. *)
Fixpoint writev_loop (n i : nat) (cur fd : nat) (iov : Z) (valid : Z → Z → bool) (total : Z) s : comp (Z * sysfs W) :=
  match n with
  | O => Done (total, s)
  | S n' =>
      let base := le_value (mem_read (iov + Z.of_nat i * 16) 8 (um s)) in
      let len := le_value (mem_read (iov + Z.of_nat i * 16 + 8) 8 (um s)) in
      if (base =? 0) || (len =? 0) then writev_loop n' (S i) cur fd iov valid total s
      else
        let! (r, s) := sys_write cur fd base (Z.to_nat len) (valid base len) s in
        if r <? 0 then Done (r, s) else writev_loop n' (S i) cur fd iov valid (total + r) s
  end.

Definition sys_writev (cur fd : nat) (iov : Z) (iovcnt : Z) (valid : Z → Z → bool) s : comp (Z * sysfs W) :=
  if negb (fd =? 1)%nat && negb (fd =? 2)%nat then Done (- ENOSYS, s)
  else if iovcnt <=? 0 then Done (0, s)
  else writev_loop (Z.to_nat iovcnt) 0 cur fd iov valid 0 s.

Definition sys_lseek s : comp (Z * sysfs W) := Done (- ENOSYS, s).
Definition sys_readv s : comp (Z * sysfs W) := Done (- ENOSYS, s).

(** ** Names *)

Definition sys_open (cur : nat) (pathname flags : Z) s : comp (Z * sysfs W) :=
  with_norm pathname s (λ norm,
    let open_it s :=
      on_flat (resolve_or_register norm)
        (λ r s, match r with
           | None => Done (- ENOENT, s)
           | Some i =>
               let '(fd, x) := Pipe.alloc_fd cur (Z.of_nat i) flags (fds s) in
               Done (match fd with Some fd => Z.of_nat fd | None => - EMFILE end, set_fds x s)
           end) s in
    if negb (Z.land flags 0x40 =? 0) && bool_decide (find_inode norm (fl s) = None) then
      on_flat (create_file norm []) (λ r s, match r with None => Done (- ENOENT, s) | Some _ => open_it s end) s
    else open_it s).
Definition sys_openat := sys_open.

Definition sys_mkdir (pathname mode : Z) s : comp (Z * sysfs W) :=
  with_norm pathname s (λ norm, on_flat (core_ok (Vfs.mkdir norm mode)) (status EACCES) s).
Definition sys_rmdir (pathname : Z) s : comp (Z * sysfs W) :=
  with_name pathname s (λ name, on_flat (core_ok (Vfs.rmdir name)) (status ENOTEMPTY) s).
Definition sys_unlink (pathname : Z) s : comp (Z * sysfs W) :=
  with_name pathname s (λ name, on_flat (core_ok (Vfs.remove name)) (status EACCES) s).
Definition sys_unlinkat := sys_unlink.

(** [if let Some(i) = find_inode(name) { INODES[i].used = false; }] *)
Definition drop_name (name : list Z) (f : flatfs W) : flatfs W :=
  match find_inode name f with Some i => set_inode i with_unused f | None => f end.

Definition rename_flat (oldn newn : list Z) : flatM W unit :=
  λ f,
    let! (r, f) := core_ok (Vfs.resolve_ino newn) f in
    let f := match r with Some ino => set_core (vnode_free_by_ino ino (core f)) f | None => f end in
    let f := drop_name newn (drop_name oldn f) in
    let! (_, f) := resolve_or_register newn f in
    Done (Some tt, f).

Definition sys_rename (oldpath newpath : Z) s : comp (Z * sysfs W) :=
  if (oldpath =? 0) || (newpath =? 0) then Done (- EFAULT, s)
  else
    match cstr_from_ptr oldpath (um s), cstr_from_ptr newpath (um s) with
    | [], _ | _, [] => Done (- ENOENT, s)
    | old, new =>
        match norm_path (cwd (fl s)) old, norm_path (cwd (fl s)) new with
        | [], _ | _, [] => Done (- ENOENT, s)
        | oldn, newn =>
            if bool_decide (oldn = newn) then Done (0, s)
            else
              on_flat (core_ok (Vfs.rename oldn newn))
                (λ r s, match r with None => Done (- EACCES, s) | Some _ => on_flat (rename_flat oldn newn) (status EACCES) s end) s
        end
    end.

Definition sys_readlink (pathname buf : Z) (bufsiz : nat) s : comp (Z * sysfs W) :=
  if buf =? 0 then Done (- EFAULT, s)
  else with_name pathname s (λ name,
    on_flat (core_ok (Vfs.open name 0))
      (λ r s, match r with
         | None => Done (- ENOENT, s)
         | Some vn =>
             on_flat (core_ok (Vfs.readlink vn))
               (λ r s, Done (match r with
                  | None => (- EINVAL, s)
                  | Some t => (Z.of_nat (length (take bufsiz t)), set_um (mem_write buf (take bufsiz t) (um s)) s)
                  end)) s
         end) s).
Definition sys_readlinkat := sys_readlink.

(** [sys_access], [sys_chmod], [sys_chown] and [sys_utimensat] look the name up. *)
Definition sys_access (pathname : Z) s : comp (Z * sysfs W) :=
  with_name pathname s (λ name, on_flat (resolve_or_register name) (status ENOENT) s).
Definition sys_chmod := sys_access.
Definition sys_chown := sys_access.
Definition sys_utimensat := sys_access.

Definition sys_fchmod (cur fd : nat) s : comp (Z * sysfs W) :=
  Done (match Pipe.fd_to_inode cur fd (fds s) with Some _ => 0 | None => - EBADF end, s).

Definition sys_mknod (pathname mode : Z) s : comp (Z * sysfs W) :=
  with_norm pathname s (λ norm,
    on_flat (if Z.land mode S_IFMT =? S_IFIFO then create_file_mode norm [] (Z.lor S_IFIFO 0x180) else create_file norm []) (status EIO) s).

(** ** The working directory *)

Definition sys_getcwd (buf : Z) (size : nat) s : Z * sysfs W :=
  if buf =? 0 then (- EFAULT, s)
  else
    let c := cwd (fl s) in
    if (size <? length c + 1)%nat then (- ERANGE, s)
    else (Z.of_nat (length c), set_um (mem_write (buf + Z.of_nat (length c)) [0] (mem_write buf c (um s))) s).

Definition CWD_MAX : nat := 255.
Definition sys_chdir (path : Z) s : comp (Z * sysfs W) :=
  with_norm path s (λ norm,
    on_flat (core_ok (Vfs.resolve_ino norm))
      (λ r s, Done (match r with Some _ => (0, set_fl (set_cwd (take CWD_MAX norm) (fl s)) s) | None => (- ENOENT, s) end)) s).

Definition sys_chdir_from_fd := sys_fchmod.

(** ** Directories *)

Definition DIRENTS : nat := 10.
Definition reclen (d : Dirent) : Z := Z.ldiff (19 + Z.of_nat (length (de_name d)) + 1 + 7) 7.
Definition dtype (t : Z) : Z := if t =? 1 then 8 else if t =? 2 then 4 else if t =? 7 then 10 else 0.

(** One [linux_dirent64]. *)
Definition put_dirent (p : Z) (d : Dirent) (m : gmap Z Z) : gmap Z Z :=
  let n := Z.of_nat (length (de_name d)) in
  let m := put_fields p [(0, 8%nat, de_ino d); (8, 8%nat, reclen d); (16, 2%nat, reclen d); (18, 1%nat, dtype (de_type d))] m in
  mem_write (p + 19 + n) [0] (mem_write (p + 19) (de_name d) m).

(** [for i in 0..n]: what was written, the next offset and the memory. *)
Fixpoint emit (ds : list Dirent) (buf count written off : Z) (m : gmap Z Z) : Z * Z * gmap Z Z :=
  match ds with
  | [] => (written, off, m)
  | d :: ds =>
      if (length (de_name d) =? 0)%nat then emit ds buf count written off m
      else if count <? w64 (written + reclen d) then (written, off, m)
      else emit ds buf count (w64 (written + reclen d)) (w64 (off + 1)) (put_dirent (buf + written) d m)
  end.

Fixpoint getdents_loop (fuel : nat) (vn : nat) (buf count written off : Z) (m : gmap Z Z) (c : vfs W) : comp (Z * Z * gmap Z Z * vfs W) :=
  match fuel with
  | O => Spin
  | S fuel' =>
      let! (r, c) := Vfs.readdir vn off DIRENTS c in
      match r with
      | Err _ | Ok [] => Done (written, off, m, c)
      | Ok ds => let '(written, off, m) := emit ds buf count written off m in getdents_loop fuel' vn buf count written off m c
      end
  end.

(** [table\[fd\].pos = off] *)
Definition set_pos (cur fd : nat) (off : Z) (x : Pipe.files) : Pipe.files :=
  let d := Pipe.fd_table_for cur x !!! fd in
  Pipe.set_fd (Pipe.fd_slot cur) fd (Pipe.mkFileDesc (Pipe.inode_idx d) off (Pipe.fd_used d) (Pipe.fd_flags d)) x.

Definition sys_getdents64 (fuel : nat) (cur fd : nat) (buf count : Z) s : comp (Z * sysfs W) :=
  if buf =? 0 then Done (- EFAULT, s)
  else
    match Pipe.fd_to_inode cur fd (fds s) with
    | None => Done (- EBADF, s)
    | Some d =>
        if Pipe.PIPE_INODE_BASE <=? Pipe.inode_idx d then Done (- ENOTDIR, s)
        else
          let vn := i_vnode_id (flat (fl s) !!! Z.to_nat (Pipe.inode_idx d)) in
          if (vn =? 0)%nat then Done (0, s)
          else
            let! (written, off, m, c) := getdents_loop fuel vn buf count 0 (Pipe.pos d) (um s) (core (fl s)) in
            Done (written, set_fds (set_pos cur fd off (fds s)) (set_um m (set_fl (set_core c (fl s)) s)))
    end.

(** ** Status *)

Definition stat_fields (st : Stat) : list (Z * nat * Z) :=
  [(0, 8%nat, 0); (8, 8%nat, st_ino st); (16, 8%nat, st_nlink st); (24, 4%nat, st_mode st); (28, 4%nat, st_uid st); (32, 4%nat, st_gid st);
   (40, 8%nat, st_rdev st); (48, 8%nat, st_size st); (56, 8%nat, st_blksize st); (64, 8%nat, st_blocks st); (72, 8%nat, st_atime st); (80, 8%nat, 0);
   (88, 8%nat, st_mtime st); (96, 8%nat, 0); (104, 8%nat, st_ctime st); (112, 8%nat, 0)].

Definition fill_stat_from_vnode (vn : nat) (statbuf : Z) s : comp (Z * sysfs W) :=
  on_flat (core_ok (Vfs.stat vn))
    (λ r s, Done (match r with Some st => (0, set_um (put_fields statbuf (stat_fields st) (um s)) s) | None => (- EIO, s) end)) s.

(** At most eight links. *)
Fixpoint follow_symlinks (n vn : nat) : flatM W nat :=
  match n with
  | O => fret (Some vn)
  | S n' => λ f,
      let! (r, f) := core_ok (Vfs.stat vn) f in
      match r with
      | None => Done (Some vn, f)
      | Some st =>
          if negb (Z.land (st_mode st) S_IFMT =? S_IFLNK) then Done (Some vn, f)
          else
            let! (r, f) := core_ok (Vfs.readlink vn) f in
            match r with
            | None => Done (Some vn, f)
            | Some t =>
                match find_inode (take 255 t) f with
                | None => Done (Some vn, f)
                | Some i =>
                    let new_vn := i_vnode_id (flat f !!! i) in
                    if (new_vn =? 0)%nat || (new_vn =? vn)%nat then Done (Some vn, f) else follow_symlinks n' new_vn f
                end
            end
      end
  end.

Definition sys_stat (pathname statbuf : Z) s : comp (Z * sysfs W) :=
  if statbuf =? 0 then Done (- EFAULT, s)
  else with_name pathname s (λ name,
    on_flat (resolve_or_register name)
      (λ r s, match r with
         | None => Done (- ENOENT, s)
         | Some i =>
             let vn := i_vnode_id (flat (fl s) !!! i) in
             if negb (vn =? 0)%nat then on_flat (follow_symlinks 8 vn) (λ r s, fill_stat_from_vnode (default vn r) statbuf s) s
             else fill_stat_from_vnode 0 statbuf s
         end) s).

Definition sys_fstat (cur fd : nat) (statbuf : Z) s : comp (Z * sysfs W) :=
  if statbuf =? 0 then Done (- EFAULT, s)
  else
    match Pipe.fd_to_inode cur fd (fds s) with
    | None => Done (- EBADF, s)
    | Some d => fill_stat_from_vnode (i_vnode_id (flat (fl s) !!! Z.to_nat (Pipe.inode_idx d))) statbuf s
    end.

Definition statfs_fields : list (Z * nat * Z) :=
  [(0, 8%nat, 0x65746e69); (8, 8%nat, 4096); (16, 8%nat, 1024 * 1024); (24, 8%nat, 512 * 1024); (32, 8%nat, 512 * 1024)] ++
  ((λ k, (Z.of_nat k * 8, 8%nat, 0)) <$> seq 5 9).
Definition fill_statfs (buf : Z) s : Z * sysfs W := (0, set_um (put_fields buf statfs_fields (um s)) s).

Definition sys_statfs (pathname buf : Z) s : comp (Z * sysfs W) :=
  if buf =? 0 then Done (- EFAULT, s)
  else with_name pathname s (λ name,
    on_flat (resolve_or_register name) (λ r s, Done (match r with Some _ => fill_statfs buf s | None => (- ENOENT, s) end)) s).
Definition sys_fstatfs (cur fd : nat) (buf : Z) s : Z * sysfs W :=
  if buf =? 0 then (- EFAULT, s) else match Pipe.fd_to_inode cur fd (fds s) with Some _ => fill_statfs buf s | None => (- EBADF, s) end.

Definition rlimit_of (resource : Z) : Z := if resource =? 3 then 8192 else if resource =? 4 then 1024 else 2 ^ 64 - 1.
Definition sys_getrlimit (resource buf : Z) s : Z * sysfs W :=
  if buf =? 0 then (- EFAULT, s)
  else (0, set_um (put_fields buf [(0, 8%nat, rlimit_of resource); (8, 8%nat, rlimit_of resource)] (um s)) s).
Definition sys_setrlimit (buf : Z) (valid : bool) s : Z * sysfs W := (if (buf =? 0) || negb valid then - EFAULT else 0, s).

Definition sys_getgroups (size list_ : Z) s : Z * sysfs W :=
  if (list_ =? 0) || (size <=? 0) then (1, s) else (1, set_um (mem_write list_ (le_bytes 4 0) (um s)) s).

Definition sys_getrandom (buf : Z) (len : nat) s : Z * sysfs W :=
  if buf =? 0 then (- EFAULT, s) else (Z.of_nat len, set_um (mem_write buf ((λ i, w8 (Z.of_nat i * 0x9E)) <$> seq 0 len) (um s)) s).
End calls.
