(* ===== verification/FilesClaims.v ===== *)
(** * System calls on files: what they promise *)

From S2P Require Import Prelude Bytes Buddy BuddySpec BuddyPages PageAlloc Ramfs RamfsInv.
From S2P Require Import VfsTypes Path PathClaims Procfs Userfs VfsRamfs Vfs VfsSpec VfsNames VfsClaims Flat FlatClaims Files.
From S2P Require Pipe.
From Stdlib Require Import Lia.
From stdpp Require Import base gmap numbers strings list.
Local Open Scope Z_scope.
#[local] Existing Instance Pipe.FileDesc_inhabited.

(** ** Strings and fields in the caller's memory *)

Definition no_zero (l : list Z) : Prop := Forall (λ c, c ≠ 0) l.

Lemma read_cons p n m : mem_read p (S n) m = getd 0 m p :: mem_read (p + 1) n m.
Proof.
  unfold mem_read. cbn [seq fmap list_fmap]. rewrite Z.add_0_r. f_equal. rewrite <- fmap_S_seq, <- list_fmap_compose.
  apply list_fmap_ext. intros _ i _. cbn [compose]. f_equal. lia.
Qed.

(** A string and its terminator. *)
Lemma cstr_loop_spec n p name m : (length name < n)%nat → no_zero name → mem_read p (length name) m = name →
  getd 0 m (p + Z.of_nat (length name)) = 0 → cstr_loop n p m = name.
Proof.
  revert n p. induction name as [|c name IH]; intros [|n] p Hn Hz Hr H0; cbn [length] in *; [lia| |lia|]; cbn [cstr_loop].
  - rewrite Z.add_0_r in H0. by rewrite H0.
  - rewrite read_cons in Hr. injection Hr as Hc Hr. apply Forall_cons in Hz as [Hc0 Hz]. rewrite Hc, (proj2 (Z.eqb_neq c 0)) by done.
    f_equal. apply IH; [lia|done|done|]. by replace (p + 1 + Z.of_nat (length name)) with (p + Z.of_nat (S (length name))) by lia.
Qed.

Lemma write_out a bs m x : ¬ (a ≤ x < a + Z.of_nat (length bs)) → getd 0 (mem_write a bs m) x = getd 0 m x.
Proof. intros H. rewrite mem_write_get. by rewrite decide_False. Qed.

Lemma read_apart a n q bs m : a + Z.of_nat n ≤ q ∨ q + Z.of_nat (length bs) ≤ a → mem_read a n (mem_write q bs m) = mem_read a n m.
Proof. intros H. apply mem_read_ext. intros x Hx. apply write_out. lia. Qed.

Lemma read_field p n v m : 0 ≤ v < 256 ^ Z.of_nat n → le_value (mem_read p n (mem_write p (le_bytes n v) m)) = v.
Proof.
  intros Hv. rewrite <- (le_bytes_length n v) at 1. rewrite mem_read_write. by apply le_value_bytes.
Qed.

(** ** Entries of a directory in a buffer *)

Section getdents.
Context {W : Type} `{!FsOps W}.

(** A directory that lists [L]: whatever the offset, a call of [readdir] gives
    the next entries and changes nothing. *)
Definition lists (vn : nat) (L : list Dirent) (c : vfs W) : Prop :=
  ∀ off : nat, Vfs.readdir vn (Z.of_nat off) DIRENTS c = Done (Ok (take DIRENTS (drop off L)), c).

Definition good_entry (d : Dirent) : Prop :=
  de_name d ≠ [] ∧ no_zero (de_name d) ∧ (length (de_name d) ≤ MAX_NAME)%nat ∧ 0 ≤ de_ino d < 2 ^ 64.

Fixpoint total (ds : list Dirent) : Z := match ds with [] => 0 | d :: ds => reclen d + total ds end.

Fixpoint put_all (p : Z) (ds : list Dirent) (m : gmap Z Z) : gmap Z Z :=
  match ds with [] => m | d :: ds => put_all (p + reclen d) ds (put_dirent p d m) end.

(** What a program reads: inode, type and name of each record up to [e]. *)
Fixpoint parse (n : nat) (p e : Z) (m : gmap Z Z) : list (Z * Z * list Z) :=
  match n with
  | O => []
  | S n' =>
      if e <=? p then []
      else (le_value (mem_read p 8 m), le_value (mem_read (p + 18) 1 m), cstr_from_ptr (p + 19) m) ::
           parse n' (p + le_value (mem_read (p + 16) 2 m)) e m
  end.
Definition view (d : Dirent) : Z * Z * list Z := (de_ino d, dtype (de_type d), de_name d).

Lemma reclen_bound d : 19 + Z.of_nat (length (de_name d)) + 1 ≤ reclen d ≤ 27 + Z.of_nat (length (de_name d)).
Proof.
  unfold reclen. set (x := 19 + _ + 1 + 7). replace (Z.ldiff x 7) with (x - x mod 8); [pose proof (Z.mod_pos_bound x 8 ltac:(lia)); lia|].
  change 7 with (Z.ones 3) at 1. rewrite Z.ldiff_ones_r, Z.shiftl_mul_pow2, Z.shiftr_div_pow2 by lia.
  pose proof (Z.div_mod x (2 ^ 3) ltac:(lia)). change (2 ^ 3) with 8 in *. lia.
Qed.

Lemma total_nonneg ds : 0 ≤ total ds.
Proof. induction ds as [|d ds IH]; cbn [total]; [lia|]. pose proof (reclen_bound d). lia. Qed.

Lemma total_app a b : total (a ++ b) = total a + total b.
Proof. induction a as [|d a IH]; cbn [total app]; lia. Qed.

Lemma put_dirent_out p d m x : ¬ (p ≤ x < p + reclen d) → getd 0 (put_dirent p d m) x = getd 0 m x.
Proof.
  intros Hx. pose proof (reclen_bound d). unfold put_dirent, put_fields. cbn [foldl].
  rewrite !write_out; rewrite ?le_bytes_length; cbn [length]; try done; lia.
Qed.

Lemma put_all_out ds p m x : ¬ (p ≤ x < p + total ds) → getd 0 (put_all p ds m) x = getd 0 m x.
Proof.
  revert p m. induction ds as [|d ds IH]; intros p m Hx; [done|]. cbn [put_all total] in *.
  pose proof (total_nonneg ds). pose proof (reclen_bound d). rewrite IH by lia. apply put_dirent_out. lia.
Qed.

(** One record reads back, and so do records after it. *)
Lemma put_dirent_parse p d m : good_entry d →
  le_value (mem_read p 8 (put_dirent p d m)) = de_ino d ∧ le_value (mem_read (p + 16) 2 (put_dirent p d m)) = reclen d ∧
  le_value (mem_read (p + 18) 1 (put_dirent p d m)) = dtype (de_type d) ∧
  mem_read (p + 19) (length (de_name d)) (put_dirent p d m) = de_name d ∧ getd 0 (put_dirent p d m) (p + 19 + Z.of_nat (length (de_name d))) = 0.
Proof.
  intros (G1 & G2 & G3 & G4). pose proof (reclen_bound d). unfold MAX_NAME in G3. unfold put_dirent, put_fields. cbn [foldl]. rewrite !Z.add_0_r.
  assert (0 ≤ dtype (de_type d) < 256) as Ht by (unfold dtype; repeat case_match; lia). split_and!.
  - rewrite !read_apart by (rewrite ?le_bytes_length; cbn [length]; lia). by apply read_field.
  - do 3 (rewrite (read_apart (p + 16)) by (rewrite ?le_bytes_length; cbn [length]; lia)). apply read_field. lia.
  - do 2 (rewrite (read_apart (p + 18)) by (rewrite ?le_bytes_length; cbn [length]; lia)). by apply read_field.
  - rewrite read_apart by (cbn [length]; lia). apply mem_read_write.
  - rewrite mem_write_get, decide_True by (cbn [length]; lia). by rewrite Z.sub_diag.
Qed.

Lemma parse_put ds p m n : Forall good_entry ds → (length ds ≤ n)%nat → parse n p (p + total ds) (put_all p ds m) = view <$> ds.
Proof.
  intros Hg. revert p m n. induction Hg as [|d ds Hd Hg IH]; intros p m n Hn; cbn [total put_all].
  { destruct n; cbn [parse]; [done|]. by rewrite (proj2 (Z.leb_le _ _)) by lia. }
  destruct n as [|n]; cbn [length] in Hn; [lia|]. cbn [parse fmap list_fmap].
  pose proof (reclen_bound d) as Hr. pose proof (total_nonneg ds) as Ht. rewrite (proj2 (Z.leb_gt _ _)) by lia.
  destruct (put_dirent_parse p d m Hd) as (P1 & P2 & P3 & P4 & P5). destruct Hd as (G1 & G2 & G3 & G4).
  assert (Hext : ∀ a k, p ≤ a → a + Z.of_nat k ≤ p + reclen d →
    mem_read a k (put_all (p + reclen d) ds (put_dirent p d m)) = mem_read a k (put_dirent p d m)).
  { intros a k H1 H2. apply mem_read_ext. intros x Hx. apply put_all_out. lia. }
  rewrite !Hext by lia. rewrite P1, P2, P3. f_equal.
  - unfold view. f_equal. unfold cstr_from_ptr. apply cstr_loop_spec; [unfold MAX_NAME in G3; lia|done| |].
    + rewrite Hext by lia. done.
    + rewrite put_all_out by lia. done.
  - replace (p + (reclen d + total ds)) with (p + reclen d + total ds) by lia. apply IH. lia.
Qed.

(** ** The loops *)

Lemma put_all_app a b p m : put_all p (a ++ b) m = put_all (p + total a) b (put_all p a m).
Proof.
  revert p m. induction a as [|d a IH]; intros p m; cbn [app put_all total]; [by rewrite Z.add_0_r|].
  rewrite IH. by rewrite <- Z.add_assoc.
Qed.

Lemma name_nonempty d : good_entry d → (length (de_name d) =? 0)%nat = false.
Proof. intros (H & _). apply Nat.eqb_neq. by destruct (de_name d). Qed.

Lemma emit_fits ds buf count w off m : Forall good_entry ds → 0 ≤ w → w + total ds ≤ count → count < 2 ^ 63 → 0 ≤ off → off + Z.of_nat (length ds) < 2 ^ 64 →
  emit ds buf count w off m = (w + total ds, off + Z.of_nat (length ds), put_all (buf + w) ds m).
Proof.
  intros Hg. revert w off m. induction Hg as [|d ds Hd Hg IH]; intros w off m Hw Hfit Hc Ho Hol; cbn [emit total put_all length] in *.
  { by rewrite !Z.add_0_r. }
  pose proof (reclen_bound d). pose proof (total_nonneg ds). rewrite name_nonempty by done. rewrite !w64_small by lia.
  rewrite (proj2 (Z.ltb_ge _ _)) by lia. rewrite IH by lia. by rewrite <- !Z.add_assoc, <- (Nat2Z.inj_add 1).
Qed.

Lemma emit_short ds buf count w off m : Forall good_entry ds → 0 ≤ w ≤ count → count < w + total ds → count < 2 ^ 63 → 0 ≤ off → off + Z.of_nat (length ds) < 2 ^ 64 →
  ∃ k, (k < length ds)%nat ∧ w + total (take k ds) ≤ count ∧
    emit ds buf count w off m = (w + total (take k ds), off + Z.of_nat k, put_all (buf + w) (take k ds) m).
Proof.
  intros Hg. revert w off m. induction Hg as [|d ds Hd Hg IH]; intros w off m Hw Hfit Hc Ho Hol; cbn [emit total length] in *; [lia|].
  pose proof (reclen_bound d). destruct Hd as (G1 & G2 & G3 & G4) eqn:Ed. rewrite name_nonempty by (by rewrite <- ?Ed).
  unfold MAX_NAME in G3. rewrite !w64_small by lia. destruct (Z.ltb_spec count (w + reclen d)).
  - exists 0%nat. cbn. rewrite !Z.add_0_r. split_and!; [lia|lia|done].
  - destruct (IH (w + reclen d) (off + 1) (put_dirent (buf + w) d m)) as (k & K1 & K2 & K3); try lia.
    exists (S k). cbn [take total put_all]. split_and!; [lia|lia|]. rewrite K3. by rewrite <- !Z.add_assoc, <- (Nat2Z.inj_add 1).
Qed.

Lemma loop_end vn L buf count w off m c fuel : lists vn L c → drop off L = [] →
  getdents_loop (S fuel) vn buf count w (Z.of_nat off) m c = Done (w, Z.of_nat off, m, c).
Proof. intros Hl Hd. cbn [getdents_loop]. rewrite Hl, Hd. done. Qed.

Lemma loop_step vn L buf count w off m c fuel : lists vn L c → drop off L ≠ [] →
  getdents_loop (S fuel) vn buf count w (Z.of_nat off) m c =
    let '(w', off', m') := emit (take DIRENTS (drop off L)) buf count w (Z.of_nat off) m in getdents_loop fuel vn buf count w' off' m' c.
Proof. intros Hl Hd. cbn [getdents_loop]. rewrite Hl. cbn [cbind]. destruct (drop off L) as [|d R]; [done|]. done. Qed.

(** The entries of one call of [readdir] and those after them. *)
Lemma chunk_split off (L : list Dirent) : ∃ a k, take DIRENTS (drop off L) = a ∧ length a = k ∧ ((off < length L)%nat → (0 < k ≤ length L - off)%nat) ∧
  drop off L = a ++ drop (off + k) L.
Proof.
  eexists _, _. split; [done|]. split; [done|]. assert (HD : DIRENTS = 10%nat) by done. rewrite length_take, length_drop. split; [lia|].
  rewrite <- drop_drop. destruct (decide (DIRENTS ≤ length L - off)%nat).
  - rewrite Nat.min_l by done. by rewrite take_drop.
  - rewrite Nat.min_r by lia. rewrite take_ge, (drop_ge (drop off L)) by (rewrite length_drop; lia). by rewrite app_nil_r.
Qed.

Lemma loop_fits vn L buf count c : lists vn L c → Forall good_entry L → count < 2 ^ 63 → Z.of_nat (length L) < 2 ^ 63 →
  ∀ fuel w off m, (length (drop off L) < fuel)%nat → (off ≤ length L)%nat → 0 ≤ w → w + total (drop off L) ≤ count →
  getdents_loop fuel vn buf count w (Z.of_nat off) m c =
    Done (w + total (drop off L), Z.of_nat (length L), put_all (buf + w) (drop off L) m, c).
Proof.
  intros Hl Hg Hc HL. induction fuel as [|fuel IH]; intros w off m Hf Ho Hw Ht; [lia|].
  destruct (decide (drop off L = [])) as [E|E].
  - rewrite (loop_end vn L) by done. rewrite E. cbn [total put_all]. rewrite Z.add_0_r.
    apply (f_equal length) in E. rewrite length_drop in E. cbn in E. replace off with (length L) by lia. done.
  - rewrite (loop_step vn L) by done. rewrite length_drop in Hf.
    assert (off < length L)%nat as Hlt by (destruct (decide (off < length L)%nat); [done|]; by rewrite drop_ge in E by lia).
    destruct (chunk_split off L) as (a & k & Ha & Hk & Hk0 & Hs). rewrite Ha. rewrite Hs in Ht |- *. rewrite total_app in Ht |- *. rewrite put_all_app.
    pose proof (total_nonneg (drop (off + k) L)) as Hp. pose proof (total_nonneg a).
    assert (Forall good_entry a) as Hga by (rewrite <- Ha; by apply Forall_take, Forall_drop).
    specialize (Hk0 Hlt). rewrite emit_fits by (done || lia). rewrite Hk, <- Nat2Z.inj_add.
    rewrite IH by (rewrite ?length_drop; lia). by rewrite <- !Z.add_assoc.
Qed.

(** When the rest does not fit, the entry that does not fit is read again and
    again. *)
Lemma loop_spins vn L buf count c : lists vn L c → Forall good_entry L → count < 2 ^ 63 → Z.of_nat (length L) < 2 ^ 63 →
  ∀ fuel w off m, 0 ≤ w ≤ count → count < w + total (drop off L) →
  getdents_loop fuel vn buf count w (Z.of_nat off) m c = Spin.
Proof.
  intros Hl Hg Hc HL. induction fuel as [|fuel IH]; intros w off m Hw Ht; [done|].
  assert (drop off L ≠ []) as E by (intros E; rewrite E in Ht; cbn [total] in Ht; lia).
  assert (off < length L)%nat by (destruct (decide (off < length L)%nat); [done|]; by rewrite drop_ge in E by lia).
  rewrite (loop_step vn L) by done.
  destruct (chunk_split off L) as (a & k & Ha & Hk & Hk0 & Hs). specialize (Hk0 ltac:(done)). rewrite Ha. rewrite Hs, total_app in Ht.
  assert (Forall good_entry a) as Hga by (rewrite <- Ha; by apply Forall_take, Forall_drop). pose proof (total_nonneg a).
  destruct (decide (w + total a ≤ count)).
  - rewrite emit_fits by (done || lia). rewrite Hk, <- Nat2Z.inj_add. apply IH; lia.
  - destruct (emit_short a buf count w (Z.of_nat off) m) as (j & J1 & J2 & J3); try (done || lia). rewrite J3, <- Nat2Z.inj_add.
    pose proof (total_nonneg (take j a)). pose proof (total_nonneg (drop (off + k) L)). apply IH; [lia|].
    rewrite <- drop_drop, Hs, drop_app_le, total_app by lia. pose proof (take_drop j a) as Hj. apply (f_equal total) in Hj. rewrite total_app in Hj. lia.
Qed.

(** C28: Listing a directory.  Let a descriptor stand at an entry of a
    directory that lists [L].  If the records of the remaining entries fit the
    buffer of the caller, [sys_getdents64] returns their length, a program
    that parses the buffer finds exactly these entries with their inodes, types
    and names, nothing else in its memory changes, and the descriptor stands at
    the end.  If they do not fit the call never returns: no amount of fuel is
    enough, because the entry that does not fit is fetched over and over. *)
Theorem getdents_lists (cur fd : nat) (buf count : Z) (s : sysfs W) (d : Pipe.FileDesc) (L : list Dirent) (pos : nat) :
  Pipe.fd_to_inode cur fd (fds s) = Some d → 0 ≤ Pipe.inode_idx d < Pipe.PIPE_INODE_BASE → Pipe.pos d = Z.of_nat pos → (pos ≤ length L)%nat →
  let vn := i_vnode_id (flat (fl s) !!! Z.to_nat (Pipe.inode_idx d)) in
  vn ≠ 0%nat → lists vn L (core (fl s)) → Forall good_entry L → buf ≠ 0 → 0 ≤ count < 2 ^ 63 → Z.of_nat (length L) < 2 ^ 63 →
  let rest := drop pos L in
  if total rest <=? count then
    ∃ s', (∀ fuel, (length rest < fuel)%nat → sys_getdents64 fuel cur fd buf count s = Done (total rest, s')) ∧
      parse (length rest) buf (buf + total rest) (um s') = view <$> rest ∧
      (∀ x, ¬ (buf ≤ x < buf + total rest) → getd 0 (um s') x = getd 0 (um s) x) ∧
      fds s' = set_pos cur fd (Z.of_nat (length L)) (fds s) ∧ core (fl s') = core (fl s) ∧ flat (fl s') = flat (fl s)
  else ∀ fuel, sys_getdents64 fuel cur fd buf count s = Spin.
Proof.
  intros Hd Hi Hp Hpos vn Hvn Hl Hg Hb Hc HL rest.
  assert (∀ fuel, sys_getdents64 fuel cur fd buf count s =
    let! (written, off, m, c) := getdents_loop fuel vn buf count 0 (Z.of_nat pos) (um s) (core (fl s)) in
    Done (written, set_fds (set_pos cur fd off (fds s)) (set_um m (set_fl (set_core c (fl s)) s)))) as Heq.
  { intros fuel. unfold sys_getdents64. rewrite (proj2 (Z.eqb_neq buf 0)), Hd by done. rewrite (proj2 (Z.leb_gt _ _)) by lia.
    fold vn. rewrite (proj2 (Nat.eqb_neq vn 0)) by done. by rewrite Hp. }
  destruct (Z.leb_spec (total rest) count) as [Hfit|Hfit].
  - eexists. split; [intros fuel Hf; rewrite Heq, (loop_fits vn L) by (done || lia); reflexivity|].
    fold rest. rewrite Z.add_0_r. cbn [um fds fl set_fds set_um set_fl core flat set_core]. split_and!; try done.
    + apply parse_put; [by apply Forall_drop|done].
    + intros x Hx. by apply put_all_out.
  - intros fuel. rewrite Heq, (loop_spins vn L) by (done || lia). done.
Qed.
End getdents.

(** ** Reading a link *)

Section links.
Context {W : Type} `{!FsOps W}.

Lemma all_used (l : list Vnode) : (∀ i, (i < length l)%nat → v_used (l !!! i) = true) → used_count l = Z.of_nat (length l).
Proof.
  induction l as [|v l IH]; intros H; [done|]. cbn [used_count length]. pose proof (H 0%nat ltac:(cbn; lia)) as H0. change ((v :: l) !!! 0%nat) with v in H0.
  rewrite H0, IH; [cbn; lia|]. intros i Hi. apply (H (S i)). cbn. lia.
Qed.

(** Opening a path that resolves. *)
Lemma open_resolved path (c : vfs W) ino d : vt_inv (vt c) → path_resolve path c = Done (Ok (ino, d), c) →
  ∃ r c', path_to_vnode path c = Done (r, c') ∧ vt_inv (vt c') ∧ fsw c' = fsw c ∧
    match r with
    | Ok i => v_count (vt c) < Z.of_nat MAX_VNODES ∧ v_count (vt c') = v_count (vt c) + 1 ∧ ∃ fsid, vnode_get i c' = Some (mkVnode ino fsid 0 d true)
    | Err _ => v_count (vt c) = Z.of_nat MAX_VNODES ∧ vt c' = vt c
    end.
Proof.
  intros Hinv Hr. rewrite path_resolve_eq in Hr. rewrite path_to_vnode_eq. destruct (find_mount path (mt c)) as [[m j]|]; [|done].
  destruct (lookups _ _ _ _) as [[[i|e] w]| |]; try done. injection Hr as -> <- Hw. cbn [cbind].
  assert (w = fsw c) as -> by (rewrite <- Hw; done). rewrite at_world_same. unfold alloc_vnode_or, with_vt.
  destruct (v_alloc ino (me_fs_id m) 0 (me_ops m) (vt c)) as [o t] eqn:Ea.
  destruct (v_alloc_spec _ _ _ _ _ _ _ Hinv Ea) as [Hi Ho]. destruct Hinv as [Hl Hc].
  unfold v_alloc in Ea. destruct (first_from _ 0 MAX_VNODES) as [k|] eqn:Hf; injection Ea as <- <-; cbn [vt].
  - apply first_from_Some in Hf as (Hk & Hu & _). apply negb_true_iff in Hu. destruct Ho as (H1 & _ & H2).
    eexists _, _. split; [reflexivity|]. split; [exact Hi|]. split; [done|].
    assert (v_count (vt c) < Z.of_nat MAX_VNODES) as Hlt.
    { destruct Hi as [_ Hi]. cbn [vnodes v_count] in Hi. rewrite used_count_insert in Hi by lia. rewrite Hu in Hi. cbn in Hi.
      pose proof (used_count_range (<[k := mkVnode ino (me_fs_id m) 0 (me_ops m) true]> (vnodes (vt c)))) as Hr. rewrite length_insert, used_count_insert in Hr by lia.
      rewrite Hu in Hr. cbn in Hr. lia. }
    split; [done|]. split; [|exists (me_fs_id m); unfold vnode_get; cbn [vt]; rewrite H2; by rewrite decide_True].
    cbn [v_count vt]. rewrite w64_small; [done|]. pose proof (used_count_range (vnodes (vt c))). unfold MAX_VNODES in *. lia.
  - eexists _, _. split; [reflexivity|]. split; [exact Hi|]. split; [done|]. split; [|done].
    destruct Ho as [_ Ho]. rewrite Hc, <- Hl. apply all_used. intros i Hi'. specialize (Ho i ltac:(lia)). apply not_false_iff_true. by rewrite <- v_get_None by lia.
Qed.

(** [sys_readlink] leaks a vnode.  For a name that resolves to a link,
    with [n] bytes of room, the call copies the start of the target to the
    buffer and returns its length, but it leaves the vnode it opened in use:
    one more of the 256 is taken after every call, and once all are taken the
    call answers ENOENT for links that exist. *)
Theorem readlink_leaks (path buf : Z) (n : nat) (s : sysfs W) (ino : Z) (d : dyn) (t : list Z) :
  let c := core (fl s) in let name := cstr_from_ptr path (um s) in
  path ≠ 0 → buf ≠ 0 → name ≠ [] → vt_inv (vt c) → path_resolve name c = Done (Ok (ino, d), c) →
  o_readlink (ops_of d) ino (fsw c) = Done (Ok t, fsw c) →
  ∃ r s', sys_readlink path buf n s = Done (r, s') ∧ vt_inv (vt (core (fl s'))) ∧
    if v_count (vt c) =? Z.of_nat MAX_VNODES then r = - ENOENT ∧ um s' = um s
    else r = Z.of_nat (length (take n t)) ∧ um s' = mem_write buf (take n t) (um s) ∧ v_count (vt (core (fl s'))) = v_count (vt c) + 1.
Proof.
  intros c name Hp Hb Hn Hinv Hres Hlink. destruct (open_resolved name c ino d Hinv Hres) as (r & c' & Ho & Hi & Hw & Hr).
  unfold sys_readlink, with_name. rewrite !(proj2 (Z.eqb_neq _ 0)) by done. fold name. destruct name as [|x name'] eqn:En; [done|].
  unfold on_flat, core_ok, Vfs.open. cbn [cbind]. fold c. rewrite Ho. cbn [cbind]. destruct r as [i|e].
  - destruct Hr as (H1 & H2 & fsid & H3). unfold Vfs.readlink, on_vnode, call. cbn [fl set_fl core set_core]. rewrite H3. cbn [v_ops v_ino]. rewrite Hw, Hlink.
    cbn [cbind]. eexists _, _. split; [reflexivity|]. cbn [fl set_fl set_um core set_core vt um]. split; [exact Hi|].
    rewrite (proj2 (Z.eqb_neq _ _)) by lia. done.
  - destruct Hr as (H1 & H2). eexists _, _. split; [reflexivity|]. cbn [fl set_fl core set_core um]. split; [exact Hi|].
    rewrite (proj2 (Z.eqb_eq _ _)) by lia. done.
Qed.
End links.

(** ** Directories of the RAM file system *)

Section ramdirs.
Context {A : Type} `{!PageAllocator A}.

Definition entry_of (n : RamInode) (i : nat) : Dirent :=
  let d := i_dirents n !!! i in mkDirent (d_ino d) (Z.of_nat i) (take (d_name_len d) (d_name d)) (d_file_type d).
Definition listing (n : RamInode) : list Dirent := entry_of n <$> seq 0 (i_dirent_count n).
(** No entry was removed. *)
Definition gapless (n : RamInode) : Prop :=
  Forall (λ i, d_used (i_dirents n !!! i) = true ∧ (d_name_len (i_dirents n !!! i) ≤ MAX_NAME)%nat) (seq 0 (i_dirent_count n)).

Lemma readdir_loop_gapless n fuel idx start room :
  Forall (λ i, d_used (i_dirents n !!! i) = true ∧ (d_name_len (i_dirents n !!! i) ≤ MAX_NAME)%nat) (seq idx fuel) →
  readdir_loop fuel idx (Z.of_nat start) room n = Done (take room (entry_of n <$> drop (start - idx) (seq idx fuel))).
Proof.
  revert idx room. induction fuel as [|fuel IH]; intros idx room Hg; cbn [readdir_loop seq].
  { rewrite drop_nil. by destruct room. }
  cbn [seq] in Hg. apply Forall_cons in Hg as [[Hu Hl] Hg]. destruct room as [|room]; [done|]. rewrite Hu. cbn [andb].
  destruct (Z.leb_spec (Z.of_nat start) (Z.of_nat idx)).
  - rewrite (proj2 (Nat.ltb_ge _ _)) by done. rewrite IH by done. replace (start - idx)%nat with 0%nat by lia. replace (start - S idx)%nat with 0%nat by lia. done.
  - rewrite IH by done. replace (start - idx)%nat with (S (start - S idx)) by lia. done.
Qed.

Lemma ramfs_lists `{!ProcView (ramfs A)} `{!FsService (ramfs A)} (dev : nat → vnode_ops (ramfs A)) vn ino fsid (c : vfs (ramfs A)) :
  vnode_get vn c = Some (mkVnode ino fsid 0 RAMFS true) → get_ino (fsw c) ino = true → gapless (inode (fsw c) ino) →
  lists (FsOps0 := kernel_ops dev) vn (listing (inode (fsw c) ino)) c.
Proof.
  intros Hv Hi Hg off. unfold Vfs.readdir, on_vnode. rewrite Hv. cbn [v_ops v_ino ops_of fs_ops kernel_ops o_readdir RamFs]. unfold call, pure_op, Ramfs.readdir.
  rewrite Hi. cbn [negb]. rewrite readdir_loop_gapless by done. cbn [cbind]. rewrite Nat.sub_0_r. unfold listing. rewrite fmap_drop.
  do 2 f_equal. by destruct c.
Qed.
End ramdirs.

(** ** Instances *)

Definition shell_fds : Pipe.files := (Pipe.alloc_fd 1 0 0 Pipe.files0).2.
Definition sys64 (f : flatfs (ramfs kmem)) (m : gmap Z Z) : sysfs (ramfs kmem) := mkSysfs f shell_fds m 0.
(** The root directory opened as descriptor 0. *)
Definition root_open (f : flatfs (ramfs kmem)) : sysfs (ramfs kmem) :=
  sys64 (match resolve_or_register [SLASH] f with Done (_, f) => f | _ => f end) ∅.

Definition root_entries : list Dirent := [mkDirent 1 0 [98; 105; 110] 2; mkDirent 2 1 [108; 105; 98] 2; mkDirent 3 2 [102] 1].

Definition gaplessb (n : RamInode) : bool :=
  forallb (λ i, d_used (i_dirents n !!! i) && (d_name_len (i_dirents n !!! i) <=? MAX_NAME)%nat) (seq 0 (i_dirent_count n)).
Lemma gaplessb_ok n : gaplessb n = true → gapless n.
Proof.
  intros H. apply Forall_forall. intros i Hi. unfold gaplessb in H. rewrite forallb_forall in H.
  specialize (H i ltac:(by apply list_elem_of_In)). apply andb_true_iff in H as [H1 H2]. by apply Nat.leb_le in H2.
Qed.

Lemma ramfs_lists64 vn ino fsid (c : vfs (ramfs kmem)) L :
  vnode_get vn c = Some (mkVnode ino fsid 0 RAMFS true) → get_ino (fsw c) ino = true → gaplessb (inode (fsw c) ino) = true →
  listing (inode (fsw c) ino) = L → lists vn L c.
Proof. intros Hv Hi Hg <-. by apply (ramfs_lists (λ _, NopVnode) vn ino fsid c Hv Hi), gaplessb_ok. Qed.

Lemma root_lists : lists (i_vnode_id (flat (fl (root_open f64)) !!! 0%nat)) root_entries (core (fl (root_open f64))).
Proof. apply (ramfs_lists64 _ 0 0); vm_compute; reflexivity. Qed.

(** A buffer of 100 bytes has room for the three records; one of 71 has not. *)
Lemma getdents_lists_witness :
  (∃ s', (∀ fuel, (3 < fuel)%nat → sys_getdents64 fuel 1 0 4096 100 (root_open f64) = Done (72, s')) ∧
    parse 3 4096 4168 (um s') = [(1, 4, [98; 105; 110]); (2, 4, [108; 105; 98]); (3, 8, [102])]) ∧
  (∀ fuel, sys_getdents64 fuel 1 0 4096 71 (root_open f64) = Spin).
Proof.
  pose proof root_lists as Hl. assert (Hg : Forall good_entry root_entries).
  { repeat (apply Forall_cons; split; [split_and!; [done|by repeat (apply Forall_cons; split; [done|])|apply Nat.leb_le; reflexivity|done|done]|]). apply Forall_nil_2. }
  assert (Hfd : Pipe.fd_to_inode 1 0 (fds (root_open f64)) = Some (Pipe.mkFileDesc 0 0 true 0)) by (vm_compute; reflexivity).
  assert (Hv : i_vnode_id (flat (fl (root_open f64)) !!! 0%nat) ≠ 0%nat) by (vm_compute; done).
  split.
  - destruct (getdents_lists 1 0 4096 100 (root_open f64) _ root_entries 0 Hfd ltac:(done) eq_refl ltac:(cbn; lia) Hv Hl Hg ltac:(done) ltac:(done) ltac:(done)) as (s' & H1 & H2 & _).
    exists s'. split; [exact H1|exact H2].
  - exact (getdents_lists 1 0 4096 71 (root_open f64) _ root_entries 0 Hfd ltac:(done) eq_refl ltac:(cbn; lia) Hv Hl Hg ltac:(done) ltac:(done) ltac:(done)).
Defined.

(** A removed name leaves a gap: the entry after it is listed twice. *)
Example gap_lists_twice :
  match create_file [SLASH; 97] [] (fl (root_open f64)) with
  | Done (_, f) =>
      match core_ok (Vfs.remove [SLASH; 102]) f with
      | Done (_, f) =>
          match sys_getdents64 9 1 0 4096 1000 (sys64 f ∅) with
          | Done (n, s) => parse 9 4096 (4096 + n) (um s) = [(1, 4, [98; 105; 110]); (2, 4, [108; 105; 98]); (4, 8, [97]); (4, 8, [97])]
          | _ => False
          end
      | _ => False
      end
  | _ => False
  end.
Proof. vm_compute. reflexivity. Qed.

(** A link [/l] to [/f], and its name in the caller's memory. *)
Definition link_fs : flatfs (ramfs kmem) := match create_symlink [SLASH; 108] [SLASH; 102] f64 with Done (_, f) => f | _ => f64 end.
Definition link_sys : sysfs (ramfs kmem) := sys64 link_fs (mem_write 8192 [SLASH; 108] ∅).

Lemma readlink_leaks_witness :
  ∃ r s', sys_readlink 8192 4096 9 link_sys = Done (r, s') ∧ r = 2 ∧ um s' = mem_write 4096 [SLASH; 102] (um link_sys) ∧
    v_count (vt (core (fl s'))) = v_count (vt (core (fl link_sys))) + 1.
Proof.
  assert (Hw : Ramfs.lookup (fsw (core (fl link_sys))) 0 [108] = Done (Ok 4)) by (vm_compute; reflexivity).
  assert (Hl : Ramfs.readlink (fsw (core (fl link_sys))) 4 = Done (Ok [SLASH; 102])) by (vm_compute; reflexivity).
  assert (Hm : find_mount [SLASH; 108] (mt (core (fl link_sys))) = Some (root64, 0%nat)) by (vm_compute; reflexivity).
  assert (He : v_count (vt (core (fl link_sys))) =? Z.of_nat MAX_VNODES = false) by (vm_compute; reflexivity).
  assert (Hc : cstr_from_ptr 8192 (um link_sys) = [SLASH; 108]) by (vm_compute; reflexivity).
  assert (Hi : vt_inv (vt (core (fl link_sys)))) by (split; vm_compute; reflexivity).
  generalize dependent link_sys. intros s Hw Hl Hm He Hc Hi.
  destruct (readlink_leaks 8192 4096 9 s 4 RAMFS [SLASH; 102]) as (r & s' & H1 & _ & H2); try done.
  - by rewrite Hc.
  - rewrite Hc. apply (resolve_at (core (fl s)) _ [[108]] root64 0%nat (Ok 4)); [exact Hm|reflexivity|].
    cbn [lookups]. apply ram_lookup_iff in Hw. change (me_ops root64) with RAMFS. change (root_ino root64) with 0. change (o_lookup (ops_of RAMFS) 0 [108] (fsw (core (fl s))) = Done (Ok 4, fsw (core (fl s)))) in Hw.
    rewrite Hw. reflexivity.
  - change (pure_op (λ w, Ramfs.readlink w 4) (fsw (core (fl s))) = Done (Ok [SLASH; 102], fsw (core (fl s)))). unfold pure_op. by rewrite Hl.
  - rewrite He in H2. exists r, s'. split; [exact H1|exact H2].
Defined.

(** A directory whose path is longer than 255 bytes becomes another one. *)
Example chdir_cuts (W : Type) `{!FsOps W} (s : sysfs W) (norm : list Z) ino c : 
  norm_path (cwd (fl s)) (cstr_from_ptr 8192 (um s)) = norm → norm ≠ [] → cstr_from_ptr 8192 (um s) ≠ [] →
  Vfs.resolve_ino norm (core (fl s)) = Done (Ok ino, c) →
  ∃ s', sys_chdir 8192 s = Done (0, s') ∧ cwd (fl s') = take CWD_MAX norm.
Proof.
  intros Hn Hne Hc Hr. unfold sys_chdir, with_norm, with_name. cbn [Z.eqb]. destruct (cstr_from_ptr 8192 (um s)) as [|x name] eqn:E; [done|].
  rewrite Hn. destruct norm as [|y norm]; [done|]. unfold on_flat, core_ok. rewrite Hr. cbn [cbind]. eexists. split; [reflexivity|]. done.
Qed.
