(* ===== verification/Poll.v ===== *)
(** * poll, sleep and the waking of pollers: [src/task.rs]

    [sys_poll] scans the descriptors of the caller ([Pipe]) and gives the
    processor away until something may have changed; a writer to a pipe wakes
    the pollers.  The state is the scheduler ([Sched]) with the poll context of
    every task, the descriptors and pipes, and the memory of the caller.  The
    snapshot of the user registers kept while a task sleeps is left out.  The
    definitions come first, then what they promise. *)

From S2P Require Import Prelude Bytes Sched SchedInv SchedClaims Futex Pipe.
From Stdlib Require Import Lia.
From stdpp Require Import base gmap numbers list.
Local Open Scope Z_scope.

Record pollst := mkPollst { p_sched : sched; poll_ctx : list (Z * Z); p_files : files; p_um : gmap Z Z }.
Definition set_sched (x : sched) (s : pollst) : pollst := mkPollst x (poll_ctx s) (p_files s) (p_um s).
Definition set_ctx (id : nat) (c : Z * Z) (s : pollst) : pollst := mkPollst (p_sched s) (<[task_idx id := c]> (poll_ctx s)) (p_files s) (p_um s).
Definition set_mem (m : gmap Z Z) (s : pollst) : pollst := mkPollst (p_sched s) (poll_ctx s) (p_files s) m.

(** ** [sys_poll] *)

(** How the call leaves the kernel. *)
Inductive pret := PRet (r : Z) | PSleep (deadline : Z) (p : pick).

(** [fds + i as u64 * 8 + off], which wraps around. *)
Definition field (fds : Z) (i : nat) (off : Z) : Z := w64 (fds + Z.of_nat i * 8 + off).
Definition pollfd_fd (m : gmap Z Z) (fds : Z) (i : nat) : nat := Z.to_nat (le_value (mem_read (field fds i 0) 4 m)).
Definition pollfd_events (m : gmap Z Z) (fds : Z) (i : nat) : Z := le_value (mem_read (field fds i 4) 2 m).

(** [for i in 0..nfds] *)
Fixpoint poll_scan (n i cur : nat) (fds : Z) (keys : bool) (x : files) (m : gmap Z Z) (ready : Z) : Z * gmap Z Z :=
  match n with
  | O => (ready, m)
  | S n' =>
      let revents := poll_fd_readiness cur (pollfd_fd m fds i) (pollfd_events m fds i) keys x in
      let m := mem_write (field fds i 6) (le_bytes 2 revents) m in
      poll_scan n' (S i) cur fds keys x m (if negb (revents =? 0) then ready + 1 else ready)
  end.

(** One turn of the loop; [timeout] is a signed 32-bit number. *)
Definition poll_turn (k : ctx) (fds nfds timeout deadline : Z) (keys : bool) (s : pollst) : comp (pret * pollst) :=
  let '(ready, m) := poll_scan (Z.to_nat nfds) 0 (c_cur k) fds keys (p_files s) (p_um s) 0 in
  let s := set_mem m s in
  if 0 <? ready then Done (PRet ready, s)
  else if timeout =? 0 then Done (PRet 0, s)
  else if negb (timeout <? 0) && (deadline <=? c_now k) then Done (PRet 0, s)
  else
    let s := set_ctx (c_cur k) (fds, nfds)
      (set_sched (upd_task (c_cur k) (λ t, with_block TBlocked (t_blocked_on t) deadline (t_futex_deadline t) t) (p_sched s)) s) in
    let! (p, x) := schedule true k (p_sched s) in
    Done (PSleep deadline p, set_sched x s).

Definition poll_deadline (now timeout : Z) : Z :=
  if timeout =? 0 then 0 else if timeout <? 0 then U64_MAX else w64 (now + Z.max ((timeout + 19) / 20) 1).

Definition sys_poll (k : ctx) (fds nfds timeout : Z) (keys : bool) (s : pollst) : comp (pret * pollst) :=
  if (fds =? 0) || (nfds =? 0) then Done (PRet (- EFAULT), s)
  else if (c_cur k =? 0)%nat then Done (PRet (- EFAULT), s)
  else poll_turn k fds nfds timeout (poll_deadline (c_now k) timeout) keys s.

(** When the task runs again; [signal] tells whether a signal it does not
    block is pending. *)
Definition poll_again (k : ctx) (fds nfds timeout deadline : Z) (keys signal : bool) (s : pollst) : comp (pret * pollst) :=
  if signal then Done (PRet 0, set_ctx (c_cur k) (0, 0) s) else poll_turn k fds nfds timeout deadline keys s.

(** ** Sleeping and waking *)

Definition sys_sleep (k : ctx) (ticks : Z) (s : pollst) : comp (Z + pick) * pollst :=
  if (c_cur k =? 0)%nat then (Done (inl (- EINVAL)), s)
  else
    let x := upd_task (c_cur k) (λ t, with_block TBlocked (t_blocked_on t) (w64 (c_now k + ticks)) (t_futex_deadline t) t) (p_sched s) in
    match schedule true k x with
    | Done (p, x) => (Done (inr p), set_sched x s)
    | Panic => (Panic, s)
    | Spin => (Spin, s)
    end.

(** Any descriptor of a pipe end. *)
Definition has_pipe (id : nat) (x : files) : bool :=
  existsb (λ d, fd_used d && match pipe_idx_of (inode_idx d) with Some _ => true | None => false end) (fd_table_for id x).

Definition poll_sleeper (me : nat) (ctxs : list (Z * Z)) (x : files) (i : nat) (t : Task) : bool :=
  negb (t_id t =? 0)%nat && negb (t_id t =? me)%nat && state_eqb (t_state t) TBlocked && negb ((ctxs !!! i).1 =? 0) && has_pipe (t_id t) x.

(** Ready, and not to be woken by the timer later. *)
Definition pipe_woken_task (now : Z) (t : Task) : Task :=
  with_block TReady (t_blocked_on t) (if now <? t_wakeup_tick t then now else t_wakeup_tick t) (t_futex_deadline t) t.

Fixpoint pipe_wake_loop (n i me : nat) (now : Z) (ctxs : list (Z * Z)) (x : files) (s : sched) : comp sched :=
  match n with
  | O => Done s
  | S n' =>
      if poll_sleeper me ctxs x i (tasks s !!! i) then
        let s := set_tasks (<[i := pipe_woken_task now (tasks s !!! i)]> (tasks s)) s in
        let! s := enqueue_task (t_id (tasks s !!! i)) (t_prio (tasks s !!! i)) s in
        pipe_wake_loop n' (S i) me now ctxs x s
      else pipe_wake_loop n' (S i) me now ctxs x s
  end.

Definition pipe_wake_waiters (me : nat) (now : Z) (s : pollst) : comp pollst :=
  let! x := pipe_wake_loop MAX_TASKS 0 me now (poll_ctx s) (p_files s) (p_sched s) in Done (set_sched x s).

(** ** The scan *)

Lemma readiness_range cur fd events keys x : 0 ≤ poll_fd_readiness cur fd events keys x < 256 ^ 2.
Proof.
  unfold poll_fd_readiness. destruct (fd_to_inode cur fd x); [|by vm_compute].
  destruct (pipe_idx_of _); repeat case_match; by vm_compute.
Qed.

Lemma scan_out a bs m x : ¬ (a ≤ x < a + Z.of_nat (length bs)) → getd 0 (mem_write a bs m) x = getd 0 m x.
Proof. intros H. rewrite mem_write_get. by rewrite decide_False. Qed.

(** What an entry asks and what it should be told. *)
Definition readiness (cur : nat) (fds : Z) (keys : bool) (x : files) (m : gmap Z Z) (i : nat) : Z :=
  poll_fd_readiness cur (pollfd_fd m fds i) (pollfd_events m fds i) keys x.
Definition ready_entries (cur : nat) (fds : Z) (keys : bool) (x : files) (m : gmap Z Z) (l : list nat) : list nat :=
  filter (λ i, readiness cur fds keys x m i ≠ 0) l.

(** Entries start eight bytes apart, also where they wrap around: the fields
    of two entries are the same or do not meet. *)
Lemma field_mod fds i off : ∃ q, field fds i off = fds + off + 8 * q.
Proof.
  unfold field, w64. rewrite Z.mod_eq by lia. exists (Z.of_nat i - 2 ^ 61 * ((fds + Z.of_nat i * 8 + off) / 2 ^ 64)).
  change (2 ^ 64) with (8 * 2 ^ 61). lia.
Qed.

Lemma field_eq fds i j o o' : field fds i o = field fds j o → field fds i o' = field fds j o'.
Proof.
  unfold field, w64. intros H. replace (fds + Z.of_nat i * 8 + o') with ((fds + Z.of_nat i * 8 + o) + (o' - o)) by lia.
  replace (fds + Z.of_nat j * 8 + o') with ((fds + Z.of_nat j * 8 + o) + (o' - o)) by lia.
  by rewrite <- Zplus_mod_idemp_l, H, Zplus_mod_idemp_l.
Qed.

Lemma field_apart fds i j : field fds i 6 = field fds j 6 ∨ field fds i 6 + 2 ≤ field fds j 6 ∨ field fds j 6 + 2 ≤ field fds i 6.
Proof. destruct (field_mod fds i 6) as [q ->], (field_mod fds j 6) as [q' ->]. lia. Qed.

Lemma result_apart fds i j a : field fds i 6 ≤ a < field fds i 6 + 2 →
  ¬ (field fds j 0 ≤ a < field fds j 0 + 4) ∧ ¬ (field fds j 4 ≤ a < field fds j 4 + 2).
Proof.
  destruct (field_mod fds i 6) as [q ->], (field_mod fds j 0) as [q' ->], (field_mod fds j 4) as [q2 ->]. lia.
Qed.

Lemma pollfd_same m m' fds i : (∀ a, (field fds i 0 ≤ a < field fds i 0 + 4 ∨ field fds i 4 ≤ a < field fds i 4 + 2) → getd 0 m' a = getd 0 m a) →
  pollfd_fd m' fds i = pollfd_fd m fds i ∧ pollfd_events m' fds i = pollfd_events m fds i.
Proof. intros H. unfold pollfd_fd, pollfd_events. split; [do 2 f_equal|f_equal]; apply mem_read_ext; intros a Ha; apply H; [left|right]; lia. Qed.

Lemma readiness_field cur fds keys x m i j : field fds i 6 = field fds j 6 → readiness cur fds keys x m i = readiness cur fds keys x m j.
Proof. intros H. unfold readiness, pollfd_fd, pollfd_events. by rewrite (field_eq fds i j 6 0 H), (field_eq fds i j 6 4 H). Qed.

Lemma filter_same {A} (P Q : A → Prop) `{!∀ x, Decision (P x), !∀ x, Decision (Q x)} (l : list A) :
  (∀ x, x ∈ l → P x ↔ Q x) → filter P l = filter Q l.
Proof.
  induction l as [|x l IH]; intros HPQ; [done|]. rewrite !filter_cons, IH by (intros; apply HPQ; by right).
  assert (P x ↔ Q x) as Hx by (apply HPQ; left). destruct (decide (P x)), (decide (Q x)); (done || tauto).
Qed.

Lemma poll_scan_spec n i cur fds keys x m ready :
  ∃ m', poll_scan n i cur fds keys x m ready = (ready + Z.of_nat (length (ready_entries cur fds keys x m (seq i n))), m') ∧
    (∀ j, (i ≤ j < i + n)%nat → le_value (mem_read (field fds j 6) 2 m') = readiness cur fds keys x m j) ∧
    (∀ a, (∀ j, (i ≤ j < i + n)%nat → ¬ (field fds j 6 ≤ a < field fds j 6 + 2)) → getd 0 m' a = getd 0 m a).
Proof.
  revert i m ready. induction n as [|n IH]; intros i m ready; cbn [poll_scan seq].
  { exists m. split; [by rewrite Z.add_0_r|]. split; [lia|done]. }
  fold (readiness cur fds keys x m i). set (r := readiness cur fds keys x m i).
  set (m1 := mem_write (field fds i 6) (le_bytes 2 r) m).
  assert (Hm1 : ∀ a, ¬ (field fds i 6 ≤ a < field fds i 6 + 2) → getd 0 m1 a = getd 0 m a).
  { intros a Ha. apply scan_out. rewrite le_bytes_length. lia. }
  assert (Hrd : ∀ j, readiness cur fds keys x m1 j = readiness cur fds keys x m j).
  { intros j. unfold readiness. destruct (pollfd_same m m1 fds j) as [-> ->]; [|done]. intros a Ha. apply Hm1. intros Hi.
    pose proof (result_apart fds i j a Hi). lia. }
  destruct (IH (S i) m1 (if negb (r =? 0) then ready + 1 else ready)) as (m' & H1 & H2 & H3). exists m'. split; [|split].
  - rewrite H1. f_equal. unfold ready_entries. rewrite filter_cons. fold r.
    assert (filter (λ j, readiness cur fds keys x m1 j ≠ 0) (seq (S i) n) = filter (λ j, readiness cur fds keys x m j ≠ 0) (seq (S i) n)) as ->.
    { apply filter_same. intros j _. by rewrite Hrd. }
    destruct (Z.eqb_spec r 0); [rewrite decide_False by tauto; cbn [negb]; lia|]. rewrite decide_True by done. cbn [negb length]. lia.
  - intros j Hj. destruct (decide (j = i)) as [->|Hne]; [|rewrite H2 by lia; apply Hrd].
    destruct (decide (field fds i 6 ∈ (λ j, field fds j 6) <$> seq (S i) n)) as [(j & E & Hj'%elem_of_seq)%list_elem_of_fmap|Hno].
    + rewrite E, H2, Hrd by lia. symmetry. by apply readiness_field.
    + rewrite (mem_read_ext _ _ m' m1).
      2: { intros a Ha. apply H3. intros j Hj' Hin. destruct (field_apart fds i j) as [E|?]; [|lia].
           apply Hno. rewrite E. apply (list_elem_of_fmap_2 (λ j, field fds j 6)), elem_of_seq. lia. }
      unfold m1. rewrite <- (le_bytes_length 2 r) at 1. rewrite mem_read_write. apply le_value_bytes. apply readiness_range.
  - intros a Ha. rewrite H3 by (intros j Hj; apply Ha; lia). apply Hm1. apply Ha. lia.
Qed.

(** ** Giving the processor away *)

Lemma block_unqueued s q cur (g : Task → Task) :
  sys_inv s q → (0 < cur < MAX_TASKS)%nat → unqueued q cur →
  (∀ t, t_id (g t) = t_id t ∧ t_cpu (g t) = t_cpu t ∧ t_prio (g t) = t_prio t ∧ t_next (g t) = t_next t) →
  sys_inv (upd_task cur g s) q ∧ ∀ j, tasks (upd_task cur g s) !!! j = if decide (cur = j) then g (tasks s !!! cur) else tasks s !!! j.
Proof.
  intros [Hwf Hrd Hid Hcpu Hprio] Hcur Hun Hg. destruct (Hg (tasks s !!! cur)) as (G1 & G2 & G3 & G4).
  assert (Hx : ∀ j, tasks (upd_task cur g s) !!! j = if decide (cur = j) then g (tasks s !!! cur) else tasks s !!! j)
    by (intros j; apply upd_task_lookup; [apply Hwf|lia]).
  split; [|done]. split.
  - unfold upd_task, task_ref. rewrite task_idx_small by lia. apply rq_wf_task; [done|lia|done..].
  - intros c p a Ha. rewrite Hx. case_decide; [subst a; by destruct (Hun c p)|eauto].
  - intros j Hj. rewrite Hx. case_decide; [subst j; rewrite G1; auto|auto].
  - intros j Hj. rewrite Hx. case_decide; [subst j; rewrite G2; auto|auto].
  - intros j Hj. rewrite Hx. case_decide; [subst j; rewrite G3; auto|auto].
Qed.

(** A running task that blocks until a tick. *)
Definition asleep (until : Z) (t : Task) : Task := with_block TBlocked (t_blocked_on t) until (t_futex_deadline t) t.

Lemma sleep_schedule k s q until : sys_inv s q → (0 < c_cur k < MAX_TASKS)%nat → (c_cpu k < MAX_CPUS)%nat → unqueued q (c_cur k) →
  ∃ p s' q', schedule true k (upd_task (c_cur k) (asleep until) s) = Done (p, s') ∧ p ≠ Stay ∧ sys_inv s' q' ∧ unqueued q' (c_cur k) ∧
    same_task (tasks s' !!! c_cur k) (asleep until (tasks s !!! c_cur k)).
Proof.
  intros Hinv Hcur Hcpu Hun. destruct (block_unqueued s q (c_cur k) (asleep until) Hinv Hcur Hun) as [Hinv1 Hx]; [by intros|].
  assert (Hme : tasks (upd_task (c_cur k) (asleep until) s) !!! c_cur k = asleep until (tasks s !!! c_cur k)) by (by rewrite Hx, decide_True).
  destruct (schedule_blocked (c_cpu k) (c_cur k) _ q Hinv1 Hcur Hcpu Hun) as (p & s' & q' & H1 & H2 & H3 & H4 & _ & H5); [by rewrite Hme|by rewrite Hme|].
  exists p, s', q'. rewrite Hme in H4. split_and!; [exact H1|by destruct p|done..].
Qed.

(** C36: What poll reports.  One turn of [sys_poll] over [nfds] entries at
    [fds], by a running task that is on no queue, returns or sleeps.  Either
    way the result field of every entry holds the readiness of its descriptor
    for the events asked, and no other byte of the caller's memory changes.
    A value returned is the number of entries that are ready; it is zero only
    when the call may not wait or its deadline has passed.  The task sleeps
    only when nothing is ready and waiting is allowed, until the deadline. *)
Theorem poll_reports (k : ctx) (fds nfds timeout deadline : Z) (keys : bool) (s : pollst) (q : queues) :
  sys_inv (p_sched s) q → unqueued q (c_cur k) → (0 < c_cur k < MAX_TASKS)%nat → (c_cpu k < MAX_CPUS)%nat →
  length (poll_ctx s) = MAX_TASKS → 0 < nfds →
  ∃ r s', poll_turn k fds nfds timeout deadline keys s = Done (r, s') ∧
    (∀ i, Z.of_nat i < nfds → le_value (mem_read (w64 (fds + Z.of_nat i * 8 + 6)) 2 (p_um s')) = readiness (c_cur k) fds keys (p_files s) (p_um s) i) ∧
    (∀ a, (∀ i, Z.of_nat i < nfds → let e := w64 (fds + Z.of_nat i * 8 + 6) in ¬ (e ≤ a < e + 2)) → getd 0 (p_um s') a = getd 0 (p_um s) a) ∧
    p_files s' = p_files s ∧
    let n := Z.of_nat (length (ready_entries (c_cur k) fds keys (p_files s) (p_um s) (seq 0 (Z.to_nat nfds)))) in
    match r with
    | PRet v => v = n ∧ (n = 0 → timeout = 0 ∨ 0 < timeout ∧ deadline ≤ c_now k) ∧ p_sched s' = p_sched s ∧ poll_ctx s' = poll_ctx s
    | PSleep d p => n = 0 ∧ (timeout < 0 ∨ 0 < timeout ∧ c_now k < deadline) ∧ d = deadline ∧ p ≠ Stay ∧
        same_task (tasks (p_sched s') !!! c_cur k) (asleep deadline (tasks (p_sched s) !!! c_cur k)) ∧ poll_ctx s' !!! c_cur k = (fds, nfds)
    end.
Proof.
  intros Hinv Hun Hcur Hcpu Hctx Hn. unfold poll_turn.
  destruct (poll_scan_spec (Z.to_nat nfds) 0 (c_cur k) fds keys (p_files s) (p_um s) 0) as (m' & H1 & H2 & H3). rewrite H1, Z.add_0_l.
  set (n := Z.of_nat _). assert (0 ≤ n) as Hn0 by (unfold n; lia).
  assert (M1 : ∀ i, Z.of_nat i < nfds → le_value (mem_read (w64 (fds + Z.of_nat i * 8 + 6)) 2 m') = readiness (c_cur k) fds keys (p_files s) (p_um s) i)
    by (intros i Hi; apply H2; lia).
  assert (M2 : ∀ a, (∀ i, Z.of_nat i < nfds → let e := w64 (fds + Z.of_nat i * 8 + 6) in ¬ (e ≤ a < e + 2)) → getd 0 m' a = getd 0 (p_um s) a)
    by (intros a Ha; apply H3; intros j Hj; apply Ha; lia).
  destruct (Z.ltb_spec 0 n).
  { eexists _, _. split; [reflexivity|].  split_and!; try done. lia. }
  destruct (Z.eqb_spec timeout 0).
  { eexists _, _. split; [reflexivity|].  split_and!; try done; [lia|by left]. }
  destruct (negb (timeout <? 0) && (deadline <=? c_now k)) eqn:Hd.
  { apply andb_true_iff in Hd as [Hd1 Hd2%Z.leb_le]. apply negb_true_iff, Z.ltb_ge in Hd1.
    eexists _, _. split; [reflexivity|].  split_and!; try done; [lia|right; lia]. }
  destruct (sleep_schedule k (p_sched s) q deadline Hinv Hcur Hcpu Hun) as (p & x & q' & S1 & S2 & _ & _ & S3).
  cbn [p_sched set_ctx set_sched set_mem poll_ctx p_files p_um]. fold (asleep deadline). rewrite S1. cbn [cbind].
  eexists _, _. split; [reflexivity|]. cbn [p_sched set_ctx set_sched set_mem poll_ctx p_files p_um].
  split_and!; try done; [lia| |].
  - apply andb_false_iff in Hd as [Hd|Hd]; [left|]. { apply negb_false_iff, Z.ltb_lt in Hd. done. }
    destruct (Z.ltb_spec timeout 0); [by left|]. apply Z.leb_gt in Hd. right. lia.
  - rewrite task_idx_small by lia. apply list_lookup_total_insert_eq. lia.
Qed.

(** Task 1 polls the standard output, which is always ready to be written,
    and a descriptor that is not open. *)
Definition out_fd : FileDesc := mkFileDesc 1 0 true 0.
Definition ps_1 : pollst :=
  mkPollst sd_3 (replicate MAX_TASKS (0, 0)) (set_fd 1 1 out_fd files0)
    (mem_write 0x1000 (le_bytes 4 1 ++ le_bytes 2 4 ++ [0; 0] ++ le_bytes 4 9 ++ le_bytes 2 1 ++ [7; 7]) ∅).

Lemma running_unqueued : unqueued qd_3 1.
Proof. intros c p Hx. unfold qd_3, qd_2, qd_1, upd2 in Hx. repeat case_decide; set_solver. Qed.

Lemma poll_reports_witness :
  ∃ r s', poll_turn (mkCtx 0 1 true 100) 0x1000 2 (-1) U64_MAX false ps_1 = Done (r, s') ∧ r = PRet 2 ∧
    le_value (mem_read 0x100e 2 (p_um s')) = POLLNVAL.
Proof.
  destruct (poll_reports (mkCtx 0 1 true 100) 0x1000 2 (-1) U64_MAX false ps_1 qd_3) as (r & s' & H1 & H2 & _ & _ & H3);
    [exact sd_3_inv|exact running_unqueued|vm_compute; lia|vm_compute; lia|reflexivity|lia|].
  exists r, s'. split_and!; [exact H1| |].
  - destruct r as [v|d p]; [destruct H3 as [-> _]; by vm_compute|destruct H3 as [H3 _]; by vm_compute in H3].
  - change 0x100e with (w64 (0x1000 + Z.of_nat 1 * 8 + 6)). rewrite H2 by lia. by vm_compute.
Defined.

(** ** Waking pollers *)

(** What a write to a pipe does to the task of slot [i]. *)
Definition after_pipe_wake (me : nat) (now : Z) (ctxs : list (Z * Z)) (x : files) (i : nat) (t : Task) : Task :=
  if poll_sleeper me ctxs x i t then pipe_woken_task now t else t.

#[export] Instance poll_sleeper_proper me ctxs x i : Proper (same_task ==> eq) (poll_sleeper me ctxs x i).
Proof. intros t t' H. unfold poll_sleeper. by destruct (same_task_fields _ _ H) as (-> & -> & _). Qed.

#[export] Instance after_pipe_wake_proper me now ctxs x i : Proper (same_task ==> same_task) (after_pipe_wake me now ctxs x i).
Proof.
  intros t t' H. unfold after_pipe_wake. rewrite H. destruct (poll_sleeper _ _ _ _ _); [|done].
  unfold same_task in *. destruct t, t'. by injection H as -> -> -> -> -> -> -> -> ->.
Qed.

Lemma pipe_wake_loop_spec n i me now ctxs x s q :
  sys_inv s q → (i + n = MAX_TASKS)%nat →
  ∃ s' q', pipe_wake_loop n i me now ctxs x s = Done s' ∧ sys_inv s' q' ∧
    (∀ j, (i ≤ j < MAX_TASKS)%nat → same_task (tasks s' !!! j) (after_pipe_wake me now ctxs x j (tasks s !!! j))) ∧
    (∀ j, (j < i)%nat → same_task (tasks s' !!! j) (tasks s !!! j)).
Proof.
  revert i s q. induction n as [|n IH]; intros i s q Hinv Hi; cbn [pipe_wake_loop].
  { exists s, q. split_and!; [done|done|intros; lia|done]. }
  destruct (poll_sleeper me ctxs x i (tasks s !!! i)) eqn:Hw.
  - set (t := pipe_woken_task now (tasks s !!! i)).
    assert (after_pipe_wake me now ctxs x i (tasks s !!! i) = t) as Ht by (unfold after_pipe_wake; by rewrite Hw).
    unfold poll_sleeper in Hw. rewrite !andb_true_iff in Hw. destruct Hw as [[[[Hnz _] Hst] _] _].
    apply bool_decide_eq_true in Hst. apply negb_true_iff, Nat.eqb_neq in Hnz.
    destruct (wake_one s q i t) as (s1 & Hen & Hinv1 & Hsi & Hsj); try done; [lia|].
    rewrite Hen. cbn [cbind]. destruct (IH (S i) s1 _ Hinv1 ltac:(lia)) as (s' & q' & Hrun & Hinv' & Hj & Hlo).
    exists s', q'. split_and!; [done|done| |].
    + intros j Hj'. destruct (decide (j = i)) as [->|Hne]; [rewrite Hlo, Hsi, Ht by lia; done|]. rewrite Hj by lia. by rewrite Hsj.
    + intros j Hj'. rewrite Hlo by lia. apply Hsj. lia.
  - destruct (IH (S i) s q Hinv ltac:(lia)) as (s' & q' & Hrun & Hinv' & Hj & Hlo).
    exists s', q'. split_and!; [done|done| |intros; apply Hlo; lia].
    intros j Hj'. destruct (decide (j = i)) as [->|Hne]; [|apply Hj; lia]. rewrite Hlo by lia. unfold after_pipe_wake. by rewrite Hw.
Qed.

Lemma pipe_wake_spec me now s q : sys_inv (p_sched s) q →
  ∃ s' q', pipe_wake_waiters me now s = Done s' ∧ sys_inv (p_sched s') q' ∧ poll_ctx s' = poll_ctx s ∧
    ∀ j, (j < MAX_TASKS)%nat → same_task (tasks (p_sched s') !!! j) (after_pipe_wake me now (poll_ctx s) (p_files s) j (tasks (p_sched s) !!! j)).
Proof.
  intros Hinv. destruct (pipe_wake_loop_spec MAX_TASKS 0 me now (poll_ctx s) (p_files s) (p_sched s) q Hinv eq_refl) as (x & q' & Hrun & Hinv' & Hj & _).
  unfold pipe_wake_waiters. rewrite Hrun. cbn [cbind]. exists (set_sched x s), q'. split_and!; [done..|].
  intros j Hj'. apply Hj. lia.
Qed.

(** A task goes to sleep and another one writes to a pipe. *)
Lemma sleep_then_write (k : ctx) (ticks now : Z) (me : nat) (s : pollst) (q : queues) :
  sys_inv (p_sched s) q → unqueued q (c_cur k) → (0 < c_cur k < MAX_TASKS)%nat → (c_cpu k < MAX_CPUS)%nat →
  t_id (tasks (p_sched s) !!! c_cur k) = c_cur k → me ≠ c_cur k →
  ∃ p s1 s2, sys_sleep k ticks s = (Done (inr p), s1) ∧ p ≠ Stay ∧
    same_task (tasks (p_sched s1) !!! c_cur k) (asleep (w64 (c_now k + ticks)) (tasks (p_sched s) !!! c_cur k)) ∧
    pipe_wake_waiters me now s1 = Done s2 ∧
    (t_state (tasks (p_sched s2) !!! c_cur k) = TReady ↔ (poll_ctx s !!! c_cur k).1 ≠ 0 ∧ has_pipe (c_cur k) (p_files s) = true).
Proof.
  intros Hinv Hun Hcur Hcpu Hid Hme. unfold sys_sleep. rewrite (proj2 (Nat.eqb_neq _ _)) by lia.
  destruct (sleep_schedule k (p_sched s) q (w64 (c_now k + ticks)) Hinv Hcur Hcpu Hun) as (p & x & q' & S1 & S2 & Hinv' & _ & S3).
  fold (asleep (w64 (c_now k + ticks))). rewrite S1.
  destruct (pipe_wake_spec me now (set_sched x s) q' Hinv') as (s2 & q2 & W1 & _ & _ & W2).
  exists p, (set_sched x s), s2. split_and!; [done..|]. specialize (W2 (c_cur k) ltac:(lia)). cbn [set_sched p_sched poll_ctx p_files] in W2.
  rewrite S3 in W2. destruct (same_task_fields _ _ W2) as (_ & -> & _).
  unfold after_pipe_wake, poll_sleeper, asleep. cbn [with_block t_id t_state]. rewrite Hid, !(proj2 (Nat.eqb_neq _ _)) by lia.
  destruct (Z.eqb_spec (poll_ctx s !!! c_cur k).1 0), (has_pipe (c_cur k) (p_files s)); cbn; split; (done || tauto || (intros [? ?]; done)).
Qed.

(** A poll that slept and now returns: its context goes only when a signal
    ends it. *)
Lemma poll_return_ctx k fds nfds timeout deadline keys signal s v s0 : (c_cur k < MAX_TASKS)%nat → length (poll_ctx s) = MAX_TASKS →
  poll_ctx s !!! c_cur k = (fds, nfds) → poll_again k fds nfds timeout deadline keys signal s = Done (PRet v, s0) →
  p_sched s0 = p_sched s ∧ p_files s0 = p_files s ∧ poll_ctx s0 !!! c_cur k = if signal then (0, 0) else (fds, nfds).
Proof.
  intros Hcur Hlen Hctx. unfold poll_again. destruct signal.
  { intros [= <- <-]. cbn [p_sched p_files poll_ctx set_ctx]. split_and!; [done|done|]. rewrite task_idx_small by done. apply list_lookup_total_insert_eq. lia. }
  unfold poll_turn. destruct (poll_scan _ _ _ _ _ _ _ _) as [ready m]. destruct (0 <? ready); [by intros [= <- <-]|].
  destruct (timeout =? 0); [by intros [= <- <-]|]. destruct (negb _ && _); [by intros [= <- <-]|].
  destruct (schedule _ _ _) as [[p x]| |]; [|done..]. cbn [cbind]. by intros [=].
Qed.

(** C38: Who a pipe write wakes.  A task whose [sys_poll] slept runs again and
    the poll returns; later the task sleeps for some ticks, and another task
    writes to a pipe.  The record of the poll is still there, unless it was a
    signal that ended the poll, and the sleeper then becomes ready at once,
    however early, exactly when it has a descriptor of some pipe end; after a
    poll ended by a signal it sleeps on.  The comment in [pipe_wake_waiters]
    says that a task in [sys_sleep] is not its to wake. *)
Theorem sleep_cut_short (k k' : ctx) (fds nfds timeout deadline v ticks now : Z) (keys signal : bool) (me : nat) (s s0 : pollst) (q : queues) :
  sys_inv (p_sched s) q → unqueued q (c_cur k) → (0 < c_cur k < MAX_TASKS)%nat → (c_cpu k' < MAX_CPUS)%nat →
  t_id (tasks (p_sched s) !!! c_cur k) = c_cur k → me ≠ c_cur k → length (poll_ctx s) = MAX_TASKS →
  fds ≠ 0 → poll_ctx s !!! c_cur k = (fds, nfds) → poll_again k fds nfds timeout deadline keys signal s = Done (PRet v, s0) → c_cur k' = c_cur k →
  poll_ctx s0 !!! c_cur k = (if signal then (0, 0) else (fds, nfds)) ∧
  ∃ p s1 s2, sys_sleep k' ticks s0 = (Done (inr p), s1) ∧ p ≠ Stay ∧
    same_task (tasks (p_sched s1) !!! c_cur k) (asleep (w64 (c_now k' + ticks)) (tasks (p_sched s) !!! c_cur k)) ∧
    pipe_wake_waiters me now s1 = Done s2 ∧
    (t_state (tasks (p_sched s2) !!! c_cur k) = TReady ↔ signal = false ∧ has_pipe (c_cur k) (p_files s) = true).
Proof.
  intros Hinv Hun Hcur Hcpu Hid Hme Hlen Hf Hctx Hret Hk.
  destruct (poll_return_ctx k fds nfds timeout deadline keys signal s v s0 ltac:(lia) Hlen Hctx Hret) as (E1 & E2 & E3). split; [done|].
  rewrite <- E1, <- E2, <- Hk in *. destruct (sleep_then_write k' ticks now me s0 q) as (p & s1 & s2 & H1 & H2 & H3 & H4 & H5); try done.
  exists p, s1, s2. split_and!; [done..|]. rewrite H5, E3. destruct signal; cbn [fst]; naive_solver.
Qed.

(** Task 1 has a pipe and slept in a poll; it runs again and gets its answer,
    for its output is ready.  It then asks to sleep for a thousand ticks, and
    task 2 writes to a pipe on the next tick. *)
Definition ps_2 : pollst :=
  mkPollst sd_3 (<[1%nat := (0x1000, 1)]> (replicate MAX_TASKS (0, 0))) (set_fd 1 3 (mkFileDesc 240 0 true 0) (set_fd 1 1 out_fd files0))
    (mem_write 0x1000 (le_bytes 4 1 ++ le_bytes 2 4 ++ [0; 0]) ∅).

Lemma sleep_cut_short_witness :
  ∃ s0 p s1 s2, poll_again (mkCtx 0 1 true 90) 0x1000 1 (-1) U64_MAX false false ps_2 = Done (PRet 1, s0) ∧
    sys_sleep (mkCtx 0 1 true 100) 1000 s0 = (Done (inr p), s1) ∧ t_wakeup_tick (tasks (p_sched s1) !!! 1%nat) = 1100 ∧
    pipe_wake_waiters 2 101 s1 = Done s2 ∧ t_state (tasks (p_sched s2) !!! 1%nat) = TReady.
Proof.
  assert (match poll_again (mkCtx 0 1 true 90) 0x1000 1 (-1) U64_MAX false false ps_2 with Done (PRet v, _) => v | _ => 0 end = 1) as E by (vm_compute; reflexivity).
  destruct (poll_again (mkCtx 0 1 true 90) 0x1000 1 (-1) U64_MAX false false ps_2) as [[[v|? ?] s0]| |] eqn:Hret; [subst v|discriminate E..].
  destruct (sleep_cut_short (mkCtx 0 1 true 90) (mkCtx 0 1 true 100) 0x1000 1 (-1) U64_MAX 1 1000 101 false false 2 ps_2 s0 qd_3)
    as (_ & p & s1 & s2 & H1 & _ & H2 & H3 & H4);
    [exact sd_3_inv|exact running_unqueued|vm_compute; lia|vm_compute; lia|by vm_compute|discriminate|reflexivity|discriminate|reflexivity|exact Hret|reflexivity|].
  exists s0, p, s1, s2. split_and!; [reflexivity|exact H1| |exact H3|].
  - unfold same_task in H2. injection H2 as _ _ _ _ _ _ Hw _ _. rewrite Hw. by vm_compute.
  - apply H4. split; [reflexivity|by vm_compute].
Defined.
